(* ===== verification/_CoqProject ===== *)
-Q . S2P
Prelude.v
MerkleProof.v
MerkleChain.v
CircuitBreaker.v
RateLimit.v
Ledger.v
CostTracker.v
Quotas.v
OntologyGraph.v
OntologyCycles.v
OntologyLearning.v
Federation.v
EventBus.v
SemanticCache.v
FeatureFlags.v
ModelRouter.v
Regex.v
Symbolic.v
NeuroSymbolic.v
Hierarchy.v
Pool.v
Prompts.v
ChainOfThought.v
Checkpoint.v
CoreTypes.v
Judge.v
Healer.v
Assembly.v
Engine.v
DiGraph.v
Causal.v
Gate.v
AuditLog.v
StaticCheck.v
AtomicIO.v
Memory.v
Pipeline.v
Agents.v
Autonomy.v
Webhooks.v
Degradation.v
Evolution.v
Experiments.v
Leaderboard.v
Feedback.v
Api.v
RegexSpec.v
Security.v
Tracer.v
KnowledgeGraph.v
KnowledgeData.v
Knowledge.v
Ingestion.v
FallbackData.v
Providers.v
Clients.v
Neural.v
ArqWorker.v
Services.v
Sandbox.v
Otlp.v
RedisCache.v
Mcp.v
Grid.v
Grpc.v
Admin.v
Discovery.v
ScannerData.v
Scanner.v
Quality.v
Kernels.v
Settings.v
OntologyQueries.v
PgMemory.v
ExperimentsApi.v
