(* ===== verification/Prelude.v ===== *)
(** * Verification of the Noema framework

    Noema is an asyncio framework for reasoning services: an engine that asks a
    language model for solutions and verifies them symbolically, tamper-evident
    audit logs, multi-tenant limits and billing, an ontology learned from model
    answers, federation of tasks over peers, and the resilience code they share.
    This library models the parts that decide something, in the order below, and
    proves what makes each correct.  File names are those under [noema/].

    ** Parts and files

    - [Prelude] (this file): fallible code ([result], the Python exceptions
      [pyexn]), insertion-ordered dictionaries ([dget], [dset], [ddel]), JSON values,
      rational helpers for floats ([Qmaxb], [Qtrunc], [py_round6]), strings and their
      order, and [exec], runs of a transition function with its invariant and
      measure principles.
    - [MerkleProof] ([audit/merkle_proof.py]): padded Merkle trees, inclusion proofs
      and [IncrementalMerkleTree]; [MerkleChain] ([audit/merkle.py]): the hash-chained
      log [MerkleChainAudit], its proofs, its export and import.  SHA-256, BLAKE2b and
      [json.dumps] are parameters; the soundness theorems say which collision they
      exclude.
    - [CircuitBreaker] ([resilience/circuit_breaker.py]): the breaker, split at the
      await into [enter] and [leave] so that calls interleave, and the retry policy.
      [Federation] and [ModelRouter] call this model.
    - [RateLimit] ([api/rate_limit.py]): sliding windows, the Redis variant, client
      keys and the middleware.
    - [Ledger] ([billing/ledger.py]), [CostTracker] ([billing/cost_tracker.py]),
      [Quotas] ([billing/quotas.py], and [budget/token_budget.py] in [Module Budget]):
      recorded contributions, costs and limits per tenant.  What the tracker needs of
      Redis is the class [CounterLaws].
    - [OntologyGraph] ([ontology/graph.py]): entities, relations, indices, cycle
      detection and path search; [OntologyCycles]: correctness of the iterative
      search; [OntologyQueries]: path search, neighbours, subgraphs, rules and the file
      of a graph; [OntologyLearning] ([ontology/hypothesis.py], [validator.py], [orl.py]):
      from model answers to graph changes.
    - [Federation] ([federation/router.py]): delegation of sub-tasks to peers as a
      transition system over shared breakers, with the ledger.
    - [EventBus] ([core/events.py]), [SemanticCache] ([cache.py]), [FeatureFlags]
      ([config/feature_flags.py]), [ModelRouter] ([routing/model_router.py]).
    - [Regex]: the part of Python's [re] the bound patterns use (a backtracking
      matcher with captures); [Symbolic] ([neurosymbolic/symbolic.py]): task
      descriptions to solver bounds, candidate values to verdicts, with Z3's [check]
      as a parameter; [NeuroSymbolic] ([neurosymbolic/engine.py], [static.py],
      [evolution.py], [tracing/reasoning_trace.py]): the refine-verify loop [think]
      over the symbolic engine, its metrics, traces and their replay.
    - [Hierarchy] ([workers/hierarchy.py]) and [Pool] ([workers/pool.py]): the
      coroutines of the worker tree and of the pool as transition systems.
    - The cognitive engine ([core/]): [CoreTypes] ([types.py], with
      [utils/json_utils.py] and [context.py]), [Prompts] and [ChainOfThought]
      ([chain_of_thought.py]: planner, topological levels and the concurrent executor
      over [Quotas] and [ModelRouter]), [Checkpoint] ([checkpoint.py]), [Judge]
      ([judge.py]), [Healer] ([healer/engine.py]), [Assembly] and [Engine]
      ([engine.py]: solutions from model output, and [think] as a state and exception
      monad over all of the above).
    - [DiGraph]: the interface of the networkx graphs, a class with its laws and an
      implementation; [Causal] ([causal/graph.py], [causal/engine.py]) is proved
      against it.
    - [Gate] ([experiments/gate.py], [verifiers/lean.py]), [StaticCheck]
      ([sandbox/static_check.py]), [AuditLog] ([audit/logger.py] over [MerkleProof]).
    - [AtomicIO] ([utils/atomic_io.py]): files under failing system calls and crashes;
      [Memory] ([memory/store.py] and the index of [embeddings.py]) and [Feedback]
      ([feedback/store.py]) persist through it.
    - [Pipeline] ([pipelines/engine.py]), [Agents] ([agents/base.py],
      [agents/orchestrator.py]), [Autonomy] ([autonomy/incidents.py], [github.py],
      [fixer.py]), [Evolution] ([evolution/engine.py], [git_evolution.py] in
      [Module Git]).
    - [Experiments] ([experiments/runner.py]) and [Leaderboard] (its [_summarize] and
      [eval/leaderboard.py]).
    - [Degradation] ([resilience/cancellation.py] in [Module Cancellation],
      [resilience/graceful_degradation.py]), [Webhooks] ([api/webhooks.py]) and [Api]
      ([api/auth.py], [middleware.py], [versioning.py], [cache_headers.py],
      [problem.py] and the reasoning endpoint of [server.py]: the middleware stack
      composed with [RateLimit], [Quotas], [CostTracker] and the cancellation manager).
    - [RegexSpec]: a declarative meaning of the expressions of [Regex], agreement of the
      matcher with it, and substitution; [Security] ([security/redactor.py],
      [ingest_sanitizer.py]) and [Tracer] ([tracing/tracer.py]) use it.
    - [KnowledgeGraph] ([knowledge/graph.py], over [DiGraph]), [KnowledgeData] and
      [Knowledge] ([knowledge/store.py], [domains.py], over [AtomicIO]), [Ingestion]
      ([ingestion/loader.py], [services/knowledge.py]).
    - Language models: [Providers] ([llm/providers.py]: [complete], shared by all
      providers, over [SemanticCache], [CircuitBreaker] and [Tracer]), [Clients] (the
      providers themselves, with the templates in [FallbackData]), [Neural]
      ([neurosymbolic/neural.py]: a breaker, a retry loop and a batch processor).
    - Processes: [ArqWorker] ([workers/arq_worker.py]), [Sandbox]
      ([sandbox/environment.py], [engine.py], [docker.py]), [Services] ([services/],
      [plugins/manager.py], [debug/replay.py]).
    - Interfaces: [Mcp] ([mcp/server.py]), [Grpc] ([grpc/server.py]), [Admin]
      ([api/admin.py], over [AuditLog]), [ExperimentsApi] ([api/experiments.py]), [Grid]
      ([observability/grid.py]), [Otlp] ([observability/otlp.py]).
    - Shared stores: [RedisCache] ([persistence/redis_cache.py], over [SemanticCache])
      and [PgMemory] ([persistence/pg_memory.py], over [Memory]).
    - Analysis: [ScannerData] and [Scanner] ([modules/security_scanner/kernel.py]),
      [Quality] ([modules/quality/kernel.py]), [Kernels] ([kernels/base.py],
      [analysis.py], [architecture.py], [security.py], [modules/registry.py]).
    - Configuration: [Settings] ([config/settings.py]) and [Discovery]
      ([discovery/keys.py]).

    ** How code is translated

    A class is a record of its attributes and each method a function on it.  A
    method that may raise returns [result]; a method that awaits is cut at its
    awaits, and the pieces are the actions of a transition function, so that the
    theorems quantify over all interleavings of the event loop.  Services outside
    the repository (hash functions, the JSON codec, Redis, PostgreSQL, the language
    model, Z3, the disk, the clock) are parameters or components of the actions;
    what the code relies on is a hypothesis of the theorem, with a witness that
    instantiates it.  Floats are exact rationals: rounding is modelled only where
    the code calls [round] or [int]; NaN and infinities do not occur.  Strings are
    sequences of code points below 256, so that statements about patterns are about Latin-1
    texts.  Fields that exist for logging only, and the
    log calls, are left out.

    Loops that are not structural carry fuel that is proved to be enough:
    [cycle_fuel] bounds the pushes of the depth-first search by the edges,
    [free_name] tries one candidate more than there are taken names, path search
    carries the depth limit of the code, the regular-expression star consumes a
    character per round, and Merkle levels are bounded by the bit length of the leaf
    count; the search for graph descendants iterates once more than there are nodes,
    the loop over topological levels once per step, and a webhook event takes at most
    ten steps per registration.  [has_cycle], [_unique_names], [_topological_levels],
    path search, the chain of thought and the Merkle operations are proved to return
    ([OutOfFuel] is unreachable).

    ** What the theorems show

    - Audit: the incremental tree equals the static one after any appends; proofs
      are complete, and sound up to a hash collision; every reachable chain
      verifies; two chains with the same tip agree if their fields have the lengths
      [append] gives them; export and import round-trip.
    - Resilience: counted by an observer of its calls, the breaker opens exactly at its
      threshold and admits at most its probe budget under all interleavings; retries make a bounded number of calls;
      a cancelled probe wedges the breaker.  A chain of providers answers as soon as
      one of them is healthy.
    - Limits: no client exceeds its window and rejected clients are told an honest
      waiting time; no tenant exceeds its concurrency limit; monthly costs are those
      of the tenant's calls; the ledger keeps and restores its entries and its
      per-node report conserves totals; flags follow their overrides; cached answers
      stay within their tenant (names without a colon).
    - Ontology: [has_cycle] terminates and is correct; every reachable graph is
      well-formed; paths, neighbours and subgraphs are exactly those of the graph, and a
      saved graph is loaded again; whatever the model answers, crystallisation never raises and only
      validated hypotheses change the graph.
    - Federation and events: every interleaving of delegations ends within a bound
      and joins in order; the bus delivers first-in first-out, exactly once, until
      it is stopped.
    - Reasoning: [verify_solution] accepts exactly the solutions within the parsed
      bounds, if the solver decides; bounds only narrow; [think] reports only verified solutions, keeps its
      counters consistent within its attempt bound, and every trace it commits can be
      replayed to the same verdict.
    - Workers: the tree respects its caps and terminates, never hangs with one level
      of decomposition, and can deadlock with two; the pool starts tasks in order and
      at most once, and [submit] returns its own task's outcome.
    - The engine: whatever the model, judge and sandbox answer, [think] returns only
      solutions that passed its gates, restores the tenant and touches no checkpoint file
      but the one its task and tenant name; the executor's concurrent run has the result of a sequential
      reference and ends; each step is in the earliest level its dependencies allow; a
      judge that cannot be read fails the solution; healing makes a bounded number of
      tries; a checkpoint survives a save cut off anywhere.
    - Causal queries return exactly the sets their definitions describe.  The merge
      gate passes exactly if the checks it makes pass (for [requires], the first relation
      of a subject).  The static pass flags no name that Python resolves, names beginning
      with two underscores and some constructs apart.  Events logged by a running process
      can be proved from its files, and survive a restart if all of them were written.
    - Files: an atomic write leaves the old or the new content wherever it fails;
      memory and feedback come back as of the last successful write (FAISS answers can
      depend on the batches the vectors came in).
    - Orchestration: pipelines take their steps in order with bounded retries; agents
      are all asked within the semaphore and every call ends; the autonomous fixer
      merges nothing that its validation and gate did not accept; tested evolution
      leaves the worktree, up to line ends and bytecode, as it was or on a green suite; every cell of an experiment
      has its record, and leaderboard rows are the weighted means of their summaries up
      to the rounding of the code.
    - Service: outside the open paths there is no way around the API key; webhook events are posted in order,
      signed, to accepted URLs with bounded attempts; degradation is transparent until
      Redis comes back.
    - Knowledge: redaction replaces the secrets of a table of formats, and nothing else; no
      raw prompt gets into the span of a traced call; what a store holds beyond its
      built-in records, which are made anew, survives restarts up to its keys; ingestion
      adds passages of the text only and connects to no local, private or reserved
      address.
    - Language models: every call is accounted for, whether it is answered from the
      cache, by the provider or not at all; a remembered failure is answered at once and
      forgotten after the recovery time; the neural interface retries a bounded number of
      times.
    - Processes and interfaces: a worker that is listed was alive shortly before; a valid
      verdict of the sandbox means that every stage accepted; each line the MCP server can
      decode gets one reply, in order; a gRPC stream is complete; the admin endpoints agree on
      proofs; the dashboard shows the live fleet; the exporter loses no span without
      counting it.
    - Shared stores: pods see only the cache entries of their tenant; a save to
      PostgreSQL is all or nothing and leaves other tenants alone.
    - Analysis and configuration: the scanner reports exactly the lines that match; the
      functions that the quality module finds tile the text; environment variables take
      precedence over the file; among several finds of a key the best is kept; artifacts
      of experiments with proper names stay below their root.
    - Divergences of the code from its documentation are stated as theorems or
      examples next to the component (for instance [shadowed_requirement],
      [commit_failure_counts_twice], [tenant_suffix_leak]).

    ** What is not modelled

    The command line and its terminal output; the gRPC client and the generated stubs;
    the code-generation kernels, domain modules and the scaffolder, which choose texts of
    files by tags; the registration of metrics and log processors; database sessions,
    table definitions and the vault; the arithmetic of embeddings.  The remaining
    endpoints of [api/server.py] read state or wrap [think] in the same guard. *)
From Stdlib Require Import ZArith Lia Bool Ascii String.
From Stdlib Require Import QArith Qround Lqa.
From stdpp Require Import base gmap strings sorting list option.

(** ** Fallible code

    Python code that may raise returns a [result]: [Ok] for a normal return,
    [Err] for a raised exception.  The bind is stdpp's [MBind], so fallible
    code is written with [x ← m; k]. *)
Inductive result (E A : Type) : Type :=
| Ok (a : A)
| Err (e : E).
Arguments Ok {E A} _.
Arguments Err {E A} _.

#[global] Instance result_ret E : MRet (result E) := λ A a, Ok a.
#[global] Instance result_bind E : MBind (result E) :=
  λ A B f m, match m with Ok a => f a | Err e => Err e end.
#[global] Instance result_fmap E : FMap (result E) :=
  λ A B f m, match m with Ok a => Ok (f a) | Err e => Err e end.

Definition is_ok {E A} (r : result E A) : bool :=
  match r with Ok _ => true | Err _ => false end.

Lemma result_bind_ok {E A B} (m : result E A) (f : A → result E B) b :
  (m ≫= f) = Ok b ↔ ∃ a, m = Ok a ∧ f a = Ok b.
Proof. destruct m; cbn; naive_solver. Qed.

(** The exceptions of the Python language the modelled code raises itself. *)
Inductive pyexn : Type :=
| IndexError
| KeyError
| ValueError
| TypeError
| RuntimeError
| OverflowError
| AssertionError
| AttributeError
| OutOfFuel.   (* not a Python exception: a loop of the model ran out of fuel *)

#[global] Instance pyexn_eq_dec : EqDecision pyexn.
Proof. solve_decision. Defined.

(** Python's [xs[i]] for a non-negative index. *)
Definition py_index {A} (l : list A) (i : nat) : result pyexn A :=
  match l !! i with Some x => Ok x | None => Err IndexError end.

(** Python's [xs[i]] for any integer index: negative indices count from the end. *)
Definition py_index_z {A} (l : list A) (i : Z) : result pyexn A :=
  if (0 <=? i)%Z then py_index l (Z.to_nat i)
  else if (0 <=? Z.of_nat (length l) + i)%Z
       then py_index l (Z.to_nat (Z.of_nat (length l) + i))
       else Err IndexError.

(** Python's [xs[-n:]]: the last [n] elements ([n] > 0). *)
Definition py_last {A} (n : nat) (l : list A) : list A :=
  drop (length l - n) l.

Lemma py_last_length {A} n (l : list A) : length (py_last n l) = min n (length l).
Proof. unfold py_last. rewrite length_drop. lia. Qed.

Lemma py_last_all {A} n (l : list A) : length l ≤ n → py_last n l = l.
Proof. intros H. unfold py_last. replace (_ - _) with 0 by lia. done. Qed.

Lemma py_last_suffix {A} n (l : list A) : py_last n l `suffix_of` l.
Proof. exists (take (length l - n) l). symmetry. apply take_drop. Qed.

(** JSON values as Python's [json] module reads and writes them. *)
Inductive json : Type :=
| JNull
| JBool (b : bool)
| JNum (q : Q)
| JStr (s : string)
| JArr (l : list json)
| JObj (d : list (string * json)).

(** ** Insertion-ordered dictionaries

    A Python [dict] iterates in insertion order; assigning to an existing key
    keeps its position.  Code that iterates a dict is modelled with [dict]. *)
Section dict.
Context {K V : Type} `{EqDecision K}.

Abbreviation dict := (list (K * V)).

Fixpoint dget (k : K) (d : dict) : option V :=
  match d with
  | [] => None
  | (k', v) :: d' => if decide (k = k') then Some v else dget k d'
  end.

Fixpoint dset (k : K) (v : V) (d : dict) : dict :=
  match d with
  | [] => [(k, v)]
  | (k', v') :: d' => if decide (k = k') then (k', v) :: d' else (k', v') :: dset k v d'
  end.

(** [del d[k]] / [d.pop(k, None)] *)
Fixpoint ddel (k : K) (d : dict) : dict :=
  match d with
  | [] => []
  | (k', v') :: d' => if decide (k = k') then ddel k d' else (k', v') :: ddel k d'
  end.

Definition dmem (k : K) (d : dict) : bool := bool_decide (is_Some (dget k d)).

(** Equations of the two functions on a first entry. *)
Lemma dget_cons k k' v (d : dict) : dget k ((k', v) :: d) = if decide (k = k') then Some v else dget k d.
Proof. done. Qed.

Lemma dset_cons k v k' v' (d : dict) :
  dset k v ((k', v') :: d) = if decide (k = k') then (k', v) :: d else (k', v') :: dset k v d.
Proof. done. Qed.

Lemma dget_dset k k' v (d : dict) :
  dget k (dset k' v d) = if decide (k = k') then Some v else dget k d.
Proof.
  induction d as [|[k0 v0] d IH]; cbn; [done|].
  destruct (decide (k' = k0)) as [->|Hne]; cbn.
  - destruct (decide (k = k0)); done.
  - rewrite IH. repeat case_decide; congruence.
Qed.

Lemma dget_dset_eq k v (d : dict) : dget k (dset k v d) = Some v.
Proof. rewrite dget_dset. by case_decide. Qed.

Lemma dget_dset_ne k k' v (d : dict) : k ≠ k' → dget k (dset k' v d) = dget k d.
Proof. intros. rewrite dget_dset. by case_decide. Qed.

Lemma dget_ddel k k' (d : dict) :
  dget k (ddel k' d) = if decide (k = k') then None else dget k d.
Proof.
  induction d as [|[k0 v0] d IH]; cbn; [by case_decide|].
  destruct (decide (k' = k0)) as [->|Hne]; cbn.
  - rewrite IH. by repeat case_decide.
  - rewrite IH. repeat case_decide; congruence.
Qed.

Lemma dset_keys_mem k v (d : dict) :
  k ∈ d.*1 → (dset k v d).*1 = d.*1.
Proof.
  induction d as [|[k0 v0] d IH]; cbn; [set_solver|].
  intros Hin%elem_of_cons. destruct (decide (k = k0)); cbn; [done|]. by rewrite IH by naive_solver.
Qed.

Lemma dset_keys_fresh k v (d : dict) :
  k ∉ d.*1 → dset k v d = d ++ [(k, v)].
Proof.
  induction d as [|[k0 v0] d IH]; cbn; [done|].
  intros [Hne Hni]%not_elem_of_cons. rewrite decide_False by done. by rewrite IH.
Qed.

Lemma dset_keys_NoDup k v (d : dict) : NoDup d.*1 → NoDup (dset k v d).*1.
Proof.
  intros Hnd. destruct (decide (k ∈ d.*1)) as [Hin|Hin].
  - by rewrite dset_keys_mem.
  - rewrite dset_keys_fresh by done. rewrite fmap_app. cbn.
    apply list.NoDup_app. split_and!; [done| |apply NoDup_singleton]. set_solver.
Qed.

Lemma elem_of_dset_keys k k' v (d : dict) :
  k ∈ (dset k' v d).*1 ↔ k = k' ∨ k ∈ d.*1.
Proof.
  destruct (decide (k' ∈ d.*1)) as [Hin|Hin].
  - rewrite dset_keys_mem by done. naive_solver.
  - rewrite dset_keys_fresh by done. rewrite fmap_app. set_solver.
Qed.

Lemma ddel_keys_sub k (d : dict) : (ddel k d).*1 `sublist_of` d.*1.
Proof.
  induction d as [|[k0 v0] d IH]; cbn; [done|].
  case_decide; cbn; [by apply sublist_cons|by apply sublist_skip].
Qed.

Lemma dget_Some_mem k v (d : dict) : dget k d = Some v → (k, v) ∈ d.
Proof.
  induction d as [|[k0 v0] d IH]; cbn; [done|].
  case_decide; intros; simplify_eq; set_solver.
Qed.

Lemma dget_is_Some k (d : dict) : is_Some (dget k d) ↔ k ∈ d.*1.
Proof.
  induction d as [|[k0 v0] d IH]; cbn.
  - rewrite is_Some_alt. set_solver.
  - rewrite elem_of_cons. case_decide; subst; [naive_solver|]. rewrite IH. naive_solver.
Qed.

Lemma dget_None k (d : dict) : dget k d = None ↔ k ∉ d.*1.
Proof. rewrite <- dget_is_Some, eq_None_not_Some. done. Qed.

Lemma dget_mem k v (d : dict) : NoDup d.*1 → (k, v) ∈ d → dget k d = Some v.
Proof.
  induction d as [|[k0 v0] d IH]; cbn; [set_solver|].
  rewrite list.NoDup_cons, elem_of_cons. intros [Hn Hnd] [[= -> ->]|Hin].
  - by rewrite decide_True.
  - rewrite decide_False; [auto|]. intros ->. apply Hn. apply list_elem_of_fmap. by exists (k0, v).
Qed.

Lemma dset_length_fresh k v (d : dict) : k ∉ d.*1 → length (dset k v d) = S (length d).
Proof. intros. rewrite dset_keys_fresh by done. rewrite length_app. cbn. lia. Qed.

Lemma dset_length_mem k v (d : dict) : k ∈ d.*1 → length (dset k v d) = length d.
Proof.
  intros H. pose proof (dset_keys_mem k v d H) as E.
  apply (f_equal length) in E. by rewrite !length_fmap in E.
Qed.
End dict.
Arguments dget : simpl nomatch.
Arguments dset : simpl nomatch.

Create HintDb noema.
#[export] Hint Rewrite @length_app @length_fmap @length_replicate @length_insert
  @length_take @length_drop @length_seq : noema.

(** [simp_noema] normalises lengths and destructs the records and pairs in sight. *)
Ltac simp_noema := autorewrite with noema in *; simplify_eq/=.

(** Steps through the binds of the [result] monad, and nothing else. *)
Ltac bindsimp := cbn [mbind result_bind mret result_ret].

(** Case analysis on every [if]/[match] of the goal and hypotheses, closing the
    contradictory branches. *)
Ltac crush_match :=
  repeat (case_match || case_decide || case_bool_decide); simplify_eq/=.

(** ** Rational arithmetic

    Python floats that carry money, fractions or durations are modelled by
    exact rationals [Q]. *)
Definition Qltb (x y : Q) : bool := negb (Qle_bool y x).
Definition Qgeb (x y : Q) : bool := Qle_bool y x.

Lemma Qltb_lt x y : Qltb x y = true ↔ (x < y)%Q.
Proof.
  unfold Qltb. rewrite negb_true_iff.
  destruct (Qle_bool y x) eqn:E; [apply Qle_bool_iff in E|].
  - split; [done|]. intros. lra.
  - split; [|done]. intros _. apply Qnot_le_lt. intros H%Qle_bool_iff. congruence.
Qed.

Lemma Qltb_ge x y : Qltb x y = false ↔ (y <= x)%Q.
Proof. unfold Qltb. rewrite negb_false_iff. apply Qle_bool_iff. Qed.

Lemma Qle_bool_false x y : Qle_bool x y = false ↔ (y < x)%Q.
Proof. rewrite <- Qltb_lt. unfold Qltb. by rewrite negb_true_iff. Qed.

Definition Qmaxb (x y : Q) : Q := if Qle_bool x y then y else x.
Definition Qminb (x y : Q) : Q := if Qle_bool x y then x else y.

Lemma Qmaxb_spec x y : (x <= Qmaxb x y)%Q ∧ (y <= Qmaxb x y)%Q ∧ (Qmaxb x y = x ∨ Qmaxb x y = y).
Proof.
  unfold Qmaxb. destruct (Qle_bool x y) eqn:E.
  - apply Qle_bool_iff in E. split_and!; auto; lra.
  - apply Qle_bool_false in E. split_and!; auto; lra.
Qed.

Lemma Qminb_spec x y : (Qminb x y <= x)%Q ∧ (Qminb x y <= y)%Q ∧ (Qminb x y = x ∨ Qminb x y = y).
Proof.
  unfold Qminb. destruct (Qle_bool x y) eqn:E.
  - apply Qle_bool_iff in E. split_and!; auto; lra.
  - apply Qle_bool_false in E. split_and!; auto; lra.
Qed.

(** Python's [int(x)]: truncation towards zero. *)
Definition Qtrunc (x : Q) : Z := if Qle_bool 0 x then Qfloor x else Qceiling x.

(** Python's [round(x, 6)] on an exact value: round half to even at the sixth
    decimal. *)
Definition round_half_even (x : Q) : Z :=
  let f := Qfloor x in
  match (x - inject_Z f ?= 1 # 2)%Q with
  | Lt => f
  | Gt => f + 1
  | Eq => if Z.even f then f else f + 1
  end%Z.

Definition py_round6 (x : Q) : Q := inject_Z (round_half_even (x * 1000000)) / 1000000.

(** [round(x, 3)] *)
Definition py_round3 (x : Q) : Q := inject_Z (round_half_even (x * 1000)) / 1000.

Lemma round_half_even_err x :
  (- (1 # 2) <= inject_Z (round_half_even x) - x <= 1 # 2)%Q.
Proof.
  unfold round_half_even. pose proof (Qfloor_le x) as H1. pose proof (Qlt_floor x) as H2.
  rewrite inject_Z_plus in H2. change (inject_Z 1) with 1%Q in H2.
  destruct (Qcompare_spec (x - inject_Z (Qfloor x)) (1 # 2)) as [E|E|E];
    [destruct (Z.even _)|..]; rewrite ?inject_Z_plus; change (inject_Z 1) with 1%Q; split; lra.
Qed.

Lemma py_round6_err x : (- (1 # 2000000) <= py_round6 x - x <= 1 # 2000000)%Q.
Proof.
  unfold py_round6. pose proof (round_half_even_err (x * 1000000)) as [H1 H2].
  set (n := inject_Z (round_half_even (x * 1000000))) in *. clearbody n.
  assert (n / 1000000 == n * (1 # 1000000))%Q as -> by (unfold Qdiv; reflexivity).
  split; lra.
Qed.

#[global] Instance round_half_even_comp : Proper (Qeq ==> eq) round_half_even.
Proof. intros x y E. unfold round_half_even. by rewrite (Qfloor_comp x y E), E. Qed.

#[global] Instance py_round6_comp : Proper (Qeq ==> Qeq) py_round6.
Proof. intros x y E. unfold py_round6. by rewrite E. Qed.

(** ** The order of strings

    Python compares strings by code points; [sorted] is a stable sort by it. *)
Definition string_le (s t : string) : Prop := String.leb s t = true.

#[global] Instance string_le_dec : RelDecision string_le := λ s t, decide (String.leb s t = true).

Lemma ascii_compare_cases a b :
  match Ascii.compare a b with
  | Eq => a = b
  | Lt => (Ascii.N_of_ascii a < Ascii.N_of_ascii b)%N
  | Gt => (Ascii.N_of_ascii b < Ascii.N_of_ascii a)%N
  end.
Proof.
  unfold Ascii.compare. destruct (N.compare_spec (Ascii.N_of_ascii a) (Ascii.N_of_ascii b)) as [E|E|E].
  - by rewrite <- (Ascii.ascii_N_embedding a), E, Ascii.ascii_N_embedding.
  - done.
  - done.
Qed.

#[global] Instance string_le_trans : Transitive string_le.
Proof.
  unfold string_le, String.leb. intros s. induction s as [|a s IH]; intros [|b t] [|c u]; cbn; try done.
  pose proof (ascii_compare_cases a b) as H1. pose proof (ascii_compare_cases b c) as H2.
  pose proof (ascii_compare_cases a c) as H3.
  destruct (Ascii.compare a b), (Ascii.compare b c), (Ascii.compare a c); subst; try done; try lia.
  apply IH.
Qed.

#[global] Instance string_le_total : Total string_le.
Proof. intros s t. apply String.leb_total. Qed.

Definition sorted_strings (l : list string) : list string := merge_sort string_le l.

(** [sorted(d.items())] for distinct string keys: the values never decide. *)
Definition item_le {V} (p q : string * V) : Prop := string_le p.1 q.1.

#[global] Instance item_le_dec {V} : RelDecision (@item_le V) := λ p q, string_le_dec p.1 q.1.

Definition sorted_items {V} (d : list (string * V)) : list (string * V) := merge_sort item_le d.

Lemma sorted_items_perm {V} (d : list (string * V)) : sorted_items d ≡ₚ d.
Proof. apply merge_sort_Permutation. Qed.

Lemma sorted_items_sorted {V} (d : list (string * V)) : StronglySorted string_le (sorted_items d).*1.
Proof.
  assert (StronglySorted item_le (sorted_items d)) as H.
  { apply StronglySorted_merge_sort.
    - intros p q r. apply string_le_trans.
    - intros p q. apply string_le_total. }
  induction H as [|p l _ IH Hf]; cbn; constructor; [done|].
  rewrite Forall_fmap. done.
Qed.

(** ** White space

    Strings are sequences of code points below 256; [str.strip] removes the
    characters Python's [str.isspace] accepts there. *)
Definition is_space (a : Ascii.ascii) : bool :=
  let n := Ascii.nat_of_ascii a in
  ((9 <=? n) && (n <=? 13) || (28 <=? n) && (n <=? 32) || (n =? 133) || (n =? 160))%nat.

Fixpoint lstrip (s : string) : string :=
  match s with
  | EmptyString => EmptyString
  | String a s' => if is_space a then lstrip s' else s
  end.

Fixpoint rstrip (s : string) : string :=
  match s with
  | EmptyString => EmptyString
  | String a s' =>
      match rstrip s' with
      | EmptyString => if is_space a then EmptyString else String a EmptyString
      | t => String a t
      end
  end.

Definition strip (s : string) : string := rstrip (lstrip s).

(** Python truthiness of a string. *)
Definition nonempty (s : string) : bool := negb (String.eqb s "").

(** The last character: names with different ones differ. *)
Fixpoint last_char (s : string) : option Ascii.ascii :=
  match s with EmptyString => None | String a "" => Some a | String _ t => last_char t end.

Lemma last_char_app s t a : last_char t = Some a → last_char (s +:+ t) = Some a.
Proof.
  intros Ht. induction s as [|x s IH]; [done|]. change (String x s +:+ t) with (String x (s +:+ t)).
  destruct (s +:+ t) as [|b u]; [done|]. exact IH.
Qed.

Lemma rstrip_idem s : rstrip (rstrip s) = rstrip s.
Proof.
  induction s as [|a s IH]; [done|]. cbn. destruct (rstrip s) as [|b t] eqn:E.
  - destruct (is_space a) eqn:Ea; cbn; [done|]. by rewrite Ea.
  - change (rstrip (String a (String b t))) with
      (match rstrip (String b t) with
       | EmptyString => if is_space a then EmptyString else String a EmptyString
       | t => String a t end). by rewrite IH.
Qed.

Lemma lstrip_rstrip s : lstrip s = s → lstrip (rstrip s) = rstrip s.
Proof.
  destruct s as [|a s]; [done|]. cbn. destruct (is_space a) eqn:Ea.
  - intros E. exfalso. assert (∀ t, String.length (lstrip t) ≤ String.length t) as Hl.
    { induction t as [|b t IH]; [done|]. cbn. destruct (is_space b); cbn; lia. }
    specialize (Hl s). rewrite E in Hl. cbn in Hl. lia.
  - intros _. destruct (rstrip s); cbn; by rewrite Ea.
Qed.

Lemma lstrip_idem s : lstrip (lstrip s) = lstrip s.
Proof.
  induction s as [|a s IH]; [done|]. cbn. destruct (is_space a) eqn:Ea; [done|]. cbn. by rewrite Ea.
Qed.

Lemma strip_idem s : strip (strip s) = strip s.
Proof.
  unfold strip. rewrite (lstrip_rstrip (lstrip s)) by apply lstrip_idem. apply rstrip_idem.
Qed.

(** [s.rpartition(":")], [None] when there is no colon. *)
Fixpoint rpartition (s : string) : option (string * string) :=
  match s with
  | EmptyString => None
  | String a s =>
      match rpartition s with
      | Some (h, p) => Some (String a h, p)
      | None => if Ascii.eqb a ":"%char then Some (""%string, s) else None
      end
  end.

Lemma rpartition_join h s : rpartition s = None → rpartition (h +:+ ":" +:+ s)%string = Some (h, s).
Proof.
  intros Hs. induction h as [|a h IH].
  { change ("" +:+ ":" +:+ s)%string with (String ":"%char s). cbn [rpartition]. by rewrite Hs. }
  change (String a h +:+ ":" +:+ s)%string with (String a (h +:+ ":" +:+ s)). cbn [rpartition]. by rewrite IH.
Qed.

(** [str.lower] on code points below 256. *)
Definition lower_ascii (a : Ascii.ascii) : Ascii.ascii :=
  let n := Ascii.nat_of_ascii a in
  if ((65 <=? n) && (n <=? 90) || (192 <=? n) && (n <=? 222) && negb (n =? 215))%nat
  then Ascii.ascii_of_nat (n + 32) else a.

Fixpoint lower (s : string) : string :=
  match s with EmptyString => EmptyString | String a s => String (lower_ascii a) (lower s) end.

(** ** Transition functions

    Interleaved code is a partial function from a state and an action to the next
    state; [exec] runs a sequence of actions and is [None] when one does not
    apply. *)
Section machine.
Context {S A : Type} (step : S → A → option S).

Fixpoint exec (s : S) (l : list A) : option S :=
  match l with [] => Some s | a :: l => match step s a with Some s => exec s l | None => None end end.

Lemma exec_app l k s : exec s (l ++ k) = exec s l ≫= λ s', exec s' k.
Proof. revert s. induction l as [|a l IH]; intros s; [done|]. cbn. by destruct (step s a). Qed.

(** A property every step keeps holds after every run. *)
Lemma exec_invariant (I : S → Prop) (P : A → Prop) l s s' :
  (∀ s a s', I s → P a → step s a = Some s' → I s') → Forall P l → I s → exec s l = Some s' → I s'.
Proof.
  intros Hstep Hl. revert s. induction Hl as [|a l Ha Hl IH]; intros s Hs Hr; cbn in Hr; [by injection Hr as <-|].
  destruct (step s a) as [s1|] eqn:E; [|done]. eapply IH; [|done]. by eapply Hstep.
Qed.

(** A measure every step decreases bounds the length of runs. *)
Lemma exec_bound (I : S → Prop) (measure : S → nat) l s s' :
  (∀ s a s', I s → step s a = Some s' → I s' ∧ measure s' < measure s) → I s → exec s l = Some s' →
  length l + measure s' ≤ measure s.
Proof.
  intros Hstep. revert s. induction l as [|a l IH]; intros s Hs Hr; cbn in Hr; [injection Hr as <-; cbn; lia|].
  destruct (step s a) as [s1|] eqn:E; [|done]. destruct (Hstep _ _ _ Hs E) as [H1 ?]. specialize (IH s1 H1 Hr). cbn. lia.
Qed.

(** What every step leaves unchanged. *)
Lemma exec_constant {B} (f : S → B) l s s' :
  (∀ s a s', step s a = Some s' → f s' = f s) → exec s l = Some s' → f s' = f s.
Proof.
  intros Hstep. revert s. induction l as [|a l IH]; intros s Hr; cbn in Hr; [by injection Hr as <-|].
  destruct (step s a) as [s1|] eqn:E; [|done]. rewrite (IH s1 Hr). by eapply Hstep.
Qed.
End machine.

Lemma Forall_true_all {A} (l : list A) : Forall (λ _, True) l.
Proof. by apply Forall_forall. Qed.

(** ** Stable sorting

    [list.sort] with a key: [before y x] says that the key of [y] comes strictly before
    that of [x]; elements with equal keys keep their order. *)
Section stable.
Context {A : Type} (before : A → A → bool).

Fixpoint insert_stable (x : A) (l : list A) : list A :=
  match l with
  | [] => [x]
  | y :: l' => if before y x then y :: insert_stable x l' else x :: l
  end.

Definition stable_sort (l : list A) : list A := foldr insert_stable [] l.

Lemma insert_stable_perm x l : insert_stable x l ≡ₚ x :: l.
Proof.
  induction l as [|y l IH]; cbn; [done|]. destruct (before y x); [|done]. rewrite IH. apply Permutation_swap.
Qed.

Lemma stable_sort_perm l : stable_sort l ≡ₚ l.
Proof. induction l as [|x l IH]; cbn; [done|]. by rewrite insert_stable_perm, IH. Qed.

Context (Hasym : ∀ x y, before x y = true → before y x = false).
Context (Htrans : ∀ x y z, before y x = false → before z y = false → before z x = false).

Abbreviation ordered := (StronglySorted (λ x y, before y x = false)).

Lemma insert_stable_sorted x l : ordered l → ordered (insert_stable x l).
Proof.
  induction l as [|y l IH]; cbn; intros Hs; [repeat constructor|]. apply StronglySorted_inv in Hs as [Hs Hy].
  destruct (before y x) eqn:E.
  - constructor; [by apply IH|]. rewrite insert_stable_perm. constructor; [by apply Hasym|done].
  - constructor; [by constructor|]. constructor; [done|]. revert Hy. apply Forall_impl. intros z Hz. by eapply Htrans.
Qed.

Lemma stable_sort_sorted l : ordered (stable_sort l).
Proof. induction l as [|x l IH]; cbn; [constructor|]. by apply insert_stable_sorted. Qed.
End stable.

(** ** Sequences of results *)
Lemma elem_of_concat_map {A B} (f : A → list B) (l : list A) y : y ∈ concat (map f l) ↔ ∃ x, x ∈ l ∧ y ∈ f x.
Proof.
  induction l as [|a l IH]; cbn [map concat]; [set_solver|]. rewrite elem_of_app, IH. set_solver.
Qed.
