(* ===== verification/MerkleProof.v ===== *)
(** * Padded Merkle trees and inclusion proofs ([noema/audit/merkle_proof.py])

    The static builder ([_build_levels], [compute_root],
    [generate_inclusion_proof], [verify_inclusion_proof]) and the append-only
    [IncrementalMerkleTree].  The hash ([hashlib.sha256]) and the canonical JSON
    serializer are parameters: every theorem holds for all of them.

    [node leaves k j] is the reference tree: node [j] of level [k] over the
    leaves extended to the right with copies of the last one.  Both
    implementations are proved equal to it. *)
From Stdlib Require Import ZArith Lia Bool Ascii String Strings.Byte.
From stdpp Require Import base option numbers sets list.
From S2P Require Import Prelude.

Abbreviation bytes := (list Byte.byte).

#[global] Instance byte_eq_dec : EqDecision Byte.byte := Byte.byte_eq_dec.

(** Python's lexicographic [<] on [bytes]. *)
Fixpoint bytes_ltb (a b : bytes) : bool :=
  match a, b with
  | _, [] => false
  | [], _ :: _ => true
  | x :: a', y :: b' =>
      if (Byte.to_N x <? Byte.to_N y)%N then true
      else if (Byte.to_N y <? Byte.to_N x)%N then false
      else bytes_ltb a' b'
  end.

Lemma byte_to_N_inj x y : Byte.to_N x = Byte.to_N y → x = y.
Proof.
  intros E. apply (f_equal Byte.of_N) in E. rewrite !Byte.of_to_N in E. congruence.
Qed.

Lemma bytes_ltb_total a b : bytes_ltb a b = false → bytes_ltb b a = false → a = b.
Proof.
  revert b. induction a as [|x a IH]; intros [|y b]; cbn; try done.
  destruct (N.ltb_spec (Byte.to_N x) (Byte.to_N y)); try done.
  destruct (N.ltb_spec (Byte.to_N y) (Byte.to_N x)); try done.
  intros H1 H2. f_equal; [apply byte_to_N_inj; lia|auto].
Qed.

Lemma bytes_ltb_asym a b : bytes_ltb a b = true → bytes_ltb b a = false.
Proof.
  revert b. induction a as [|x a IH]; intros [|y b]; cbn; try done.
  destruct (N.ltb_spec (Byte.to_N x) (Byte.to_N y));
    destruct (N.ltb_spec (Byte.to_N y) (Byte.to_N x)); try done; try lia. auto.
Qed.

(** [bytes.hex()] *)
Definition hex_digit (n : N) : ascii :=
  ascii_of_N (if (n <? 10)%N then 48 + n else 87 + n)%N.

Fixpoint hex (b : bytes) : string :=
  match b with
  | [] => EmptyString
  | x :: b' =>
      String (hex_digit (Byte.to_N x / 16)) (String (hex_digit (Byte.to_N x mod 16)) (hex b'))
  end.

Definition hex_value (c : ascii) : option N :=
  let n := N_of_ascii c in
  if (48 <=? n)%N && (n <=? 57)%N then Some (n - 48)%N
  else if (97 <=? n)%N && (n <=? 102)%N then Some (n - 87)%N
  else if (65 <=? n)%N && (n <=? 70)%N then Some (n - 55)%N
  else None.

Definition is_ascii_space (c : ascii) : bool :=
  let n := N_of_ascii c in (n =? 32)%N || ((9 <=? n)%N && (n <=? 13)%N).

(** [bytes.fromhex(s)]: ASCII whitespace between the bytes is skipped. *)
Fixpoint fromhex (s : string) : result pyexn bytes :=
  match s with
  | EmptyString => Ok []
  | String c s1 =>
      if is_ascii_space c then fromhex s1
      else
        match s1 with
        | EmptyString => Err ValueError
        | String c' s2 =>
            match hex_value c, hex_value c' with
            | Some h, Some l =>
                match Byte.of_N (16 * h + l)%N with
                | Some x => rest ← fromhex s2; Ok (x :: rest)
                | None => Err ValueError
                end
            | _, _ => Err ValueError
            end
        end
  end.

Lemma fromhex_hex b : fromhex (hex b) = Ok b.
Proof.
  induction b as [|x b IH]; [done|]. cbn [hex fromhex]. rewrite IH. by destruct x.
Qed.

(** Python's [int.bit_length]. *)
Definition bit_length (n : Z) : Z := if (n =? 0)%Z then 0 else (Z.log2 (Z.abs n) + 1)%Z.

Definition _next_pow2 (n : Z) : Z :=
  if (0 <? n)%Z then Z.shiftl 1 (bit_length (n - 1)) else 1.

Definition _pad_sequence {A} (seq : list A) : result pyexn (list A) :=
  match last seq with
  | None => Err ValueError
  | Some x =>
      let n := Z.of_nat (length seq) in
      let target := _next_pow2 n in
      Ok (seq ++ replicate (Z.to_nat (target - n)) x)
  end.

Definition DOMAIN_SEPARATOR : bytes := list_byte_of_string "NOEMA_FRAMEWORK_AUDIT_V1".
Definition zero32 : bytes := replicate 32 Byte.x00.

(** [InclusionProof] *)
Record InclusionProof := mkInclusionProof {
  leaf_hash : bytes;
  path : list (bytes * bool);
  root_hash : bytes;
  block_index : nat;
}.

(** The JSON dictionary of a proof: hex strings for the byte fields. *)
Record ProofDict := mkProofDict {
  d_leaf_hash : string;
  d_path : list (string * bool);
  d_root_hash : string;
  d_block_index : nat;
}.

(** [InclusionProof.to_dict] *)
Definition to_dict (p : InclusionProof) : ProofDict :=
  mkProofDict (hex (leaf_hash p)) (map (λ '(h, d), (hex h, d)) (path p))
    (hex (root_hash p)) (block_index p).

Fixpoint path_from_dict (l : list (string * bool)) : result pyexn (list (bytes * bool)) :=
  match l with
  | [] => Ok []
  | (h, d) :: l' => b ← fromhex h; rest ← path_from_dict l'; Ok ((b, d) :: rest)
  end.

(** [InclusionProof.from_dict] *)
Definition from_dict (data : ProofDict) : result pyexn InclusionProof :=
  lh ← fromhex (d_leaf_hash data);
  p ← path_from_dict (d_path data);
  rh ← fromhex (d_root_hash data);
  Ok (mkInclusionProof lh p rh (d_block_index data)).

Lemma path_from_to_dict l : path_from_dict (map (λ '(h, d), (hex h, d)) l) = Ok l.
Proof. induction l as [|[h d] l IH]; [done|]. cbn. by rewrite fromhex_hex, IH. Qed.

(** The slots of [IncrementalMerkleTree]; [None] is a padding node. *)
Record IncrementalMerkleTree := mkTree {
  _levels : list (list (option bytes));
  _real : list bytes;
  _pad_hashes : list bytes;
}.

Section merkle.
Context (sha256 : bytes → bytes).
Context {Data : Type} (serialize_to_bytes : Data → bytes).

Definition _safe_hash (data : bytes) : bytes := sha256 (DOMAIN_SEPARATOR ++ data).

Definition _hash_pair (left right : bytes) : bytes :=
  if bytes_ltb left right then _safe_hash (left ++ right) else _safe_hash (right ++ left).

(** One pass of the inner loop of [_build_levels]: [level[i + 1]] raises
    [IndexError] on a level of odd length. *)
Fixpoint _parent_level (level : list bytes) : result pyexn (list bytes) :=
  match level with
  | [] => Ok []
  | [_] => Err IndexError
  | l :: r :: rest => parents ← _parent_level rest; Ok (_hash_pair l r :: parents)
  end.

(** The [while len(levels[-1]) > 1] loop of [_build_levels]. *)
Fixpoint _grow_levels (fuel : nat) (level : list bytes) : result pyexn (list (list bytes)) :=
  match fuel with
  | 0 => Err OutOfFuel
  | S fuel =>
      if 1 <? length level then
        parent ← _parent_level level;
        rest ← _grow_levels fuel parent;
        Ok (level :: rest)
      else Ok [level]
  end.

Definition _build_levels (leaves : list bytes) : result pyexn (list (list bytes)) :=
  padded ← _pad_sequence leaves;
  _grow_levels (length padded) padded.

(** [levels[-1][0]] *)
Definition top_hash (levels : list (list bytes)) : result pyexn bytes :=
  match last levels with
  | Some top => py_index top 0
  | None => Err IndexError
  end.

Definition compute_root (leaf_hashes : list bytes) : result pyexn bytes :=
  match leaf_hashes with
  | [] => Ok zero32
  | _ => levels ← _build_levels leaf_hashes; top_hash levels
  end.

(** The [for level in levels[:-1]] loop of [generate_inclusion_proof]. *)
Fixpoint _collect_path (levels : list (list bytes)) (idx : nat)
    : result pyexn (list (bytes * bool)) :=
  match levels with
  | [] => Ok []
  | level :: rest =>
      entry ← (if idx mod 2 =? 0
               then s ← py_index level (idx + 1); Ok (s, false)
               else s ← py_index level (idx - 1); Ok (s, true));
      more ← _collect_path rest (idx / 2);
      Ok (entry :: more)
  end.

Definition generate_inclusion_proof (leaf_data : Data) (leaf_index : Z)
    (all_leaf_hashes : list bytes) : result pyexn InclusionProof :=
  match all_leaf_hashes with
  | [] => Err ValueError
  | _ =>
      if (leaf_index <? 0)%Z || (Z.of_nat (length all_leaf_hashes) <=? leaf_index)%Z
      then Err IndexError
      else
        let i := Z.to_nat leaf_index in
        levels ← _build_levels all_leaf_hashes;
        p ← _collect_path (take (length levels - 1) levels) i;
        root ← top_hash levels;
        Ok (mkInclusionProof (_safe_hash (serialize_to_bytes leaf_data)) p root i)
  end.

(** The loop of [verify_inclusion_proof]. *)
Fixpoint fold_path (current : bytes) (p : list (bytes * bool)) : bytes :=
  match p with
  | [] => current
  | (sibling, is_right) :: p' =>
      fold_path (if is_right then _hash_pair sibling current
                 else _hash_pair current sibling) p'
  end.

Definition verify_inclusion_proof (proof : InclusionProof) (leaf_data : Data) : bool :=
  let current := _safe_hash (serialize_to_bytes leaf_data) in
  if bool_decide (current ≠ leaf_hash proof) then false
  else bool_decide (fold_path current (path proof) = root_hash proof).

(** ** [IncrementalMerkleTree] *)

Fixpoint pad_chain (n : nat) (h : bytes) : list bytes :=
  match n with
  | 0 => [h]
  | S n => h :: pad_chain n (_hash_pair h h)
  end.

Definition _compute_pad_hashes (levels : list (list (option bytes))) (real : list bytes)
    : list bytes :=
  pad_chain (length levels - 1) (default zero32 (last real)).

Definition _nullify_pads (n : nat) (levels : list (list (option bytes)))
    : list (list (option bytes)) :=
  imap (λ k level,
    let start := (n + 2 ^ k - 1) / 2 ^ k in
    imap (λ j v, if start <=? j then None else v) level) levels.

(** [cast("list[list[bytes | None]]", levels)] *)
Definition as_optional (levels : list (list bytes)) : list (list (option bytes)) :=
  map (map Some) levels.

Definition tree_init (leaves : list bytes) : result pyexn IncrementalMerkleTree :=
  match leaves with
  | [] => Ok (mkTree [[]] [] (_compute_pad_hashes [[]] []))
  | _ =>
      built ← _build_levels leaves;
      let levels := _nullify_pads (length leaves) (as_optional built) in
      Ok (mkTree levels leaves (_compute_pad_hashes levels leaves))
  end.

Definition _node (t : IncrementalMerkleTree) (k j : nat) : result pyexn bytes :=
  level ← py_index (_levels t) k;
  match level !! j with
  | Some (Some value) => Ok value
  | _ => py_index (_pad_hashes t) k
  end.

Definition count (t : IncrementalMerkleTree) : nat := length (_real t).
Definition depth (t : IncrementalMerkleTree) : nat := length (_levels t) - 1.

Definition root (t : IncrementalMerkleTree) : result pyexn bytes :=
  match _real t with
  | [] => Ok zero32
  | _ => _node t (length (_levels t) - 1) 0
  end.

(** [while len(level) <= idx: level.append(None)] *)
Definition extend_to (idx : nat) (level : list (option bytes)) : list (option bytes) :=
  level ++ replicate (S idx - length level) None.

Definition set_level (t : IncrementalMerkleTree) (k : nat) (level : list (option bytes)) :=
  mkTree (<[k := level]> (_levels t)) (_real t) (_pad_hashes t).

(** [for k in range(k, k + n)] of [_refresh_path]. *)
Fixpoint _refresh_path (n k idx : nat) (t : IncrementalMerkleTree)
    : result pyexn IncrementalMerkleTree :=
  match n with
  | 0 => Ok t
  | S n =>
      let idx := idx / 2 in
      level ← py_index (_levels t) k;
      l ← _node t (k - 1) (2 * idx);
      r ← _node t (k - 1) (2 * idx + 1);
      _refresh_path n (S k) idx
        (set_level t k (<[idx := Some (_hash_pair l r)]> (extend_to idx level)))
  end.

Definition tree_append (t : IncrementalMerkleTree) (leaf : bytes)
    : result pyexn IncrementalMerkleTree :=
  if bool_decide (_levels t = [[]]) then
    let real := _real t ++ [leaf] in
    Ok (mkTree [[Some leaf]] real (_compute_pad_hashes [[Some leaf]] real))
  else
    let real := _real t ++ [leaf] in
    let padded := _next_pow2 (Z.of_nat (length real)) in
    let levels := if (Z.of_nat (length (_levels t)) <? bit_length padded)%Z
                  then _levels t ++ [[]] else _levels t in
    level0 ← py_index levels 0;
    let level0 := <[length real - 1 := Some leaf]> (extend_to (length real - 1) level0) in
    let levels := <[0 := level0]> levels in
    let t := mkTree levels real (_compute_pad_hashes levels real) in
    _refresh_path (length levels - 1) 1 (length real - 1) t.

(** The loop of [IncrementalMerkleTree.proof]. *)
Fixpoint _proof_loop (n k idx : nat) (t : IncrementalMerkleTree)
    : result pyexn (list (bytes * bool)) :=
  match n with
  | 0 => Ok []
  | S n =>
      sibling ← (if idx mod 2 =? 0 then _node t k (idx + 1) else _node t k (idx - 1));
      rest ← _proof_loop n (S k) (idx / 2) t;
      Ok ((sibling, negb (idx mod 2 =? 0)) :: rest)
  end.

Definition proof (t : IncrementalMerkleTree) (leaf_index : Z)
    : result pyexn (list (bytes * bool)) :=
  if (0 <=? leaf_index)%Z && (leaf_index <? Z.of_nat (length (_real t)))%Z
  then _proof_loop (length (_levels t) - 1) 0 (Z.to_nat leaf_index) t
  else Err IndexError.

Definition inclusion_proof (t : IncrementalMerkleTree) (leaf_data : Data) (leaf_index : Z)
    : result pyexn InclusionProof :=
  if (0 <=? leaf_index)%Z && (leaf_index <? Z.of_nat (length (_real t)))%Z
  then
    p ← proof t leaf_index;
    r ← root t;
    Ok (mkInclusionProof (_safe_hash (serialize_to_bytes leaf_data)) p r
          (Z.to_nat leaf_index))
  else Err IndexError.

Definition to_static (t : IncrementalMerkleTree) : list bytes := _real t.

(** ** The reference tree *)

(** Leaf [j] of the leaves padded to the right for ever with the last one. *)
Definition leaf_at (leaves : list bytes) (j : nat) : bytes :=
  default (default zero32 (last leaves)) (leaves !! j).

Fixpoint node (leaves : list bytes) (k j : nat) : bytes :=
  match k with
  | 0 => leaf_at leaves j
  | S k => _hash_pair (node leaves k (2 * j)) (node leaves k (2 * j + 1))
  end.

(** The all-padding node of level [k]. *)
Fixpoint pad_hash (h : bytes) (k : nat) : bytes :=
  match k with
  | 0 => h
  | S k => _hash_pair (pad_hash h k) (pad_hash h k)
  end.

(** The height of the tree over [n] leaves. *)
Definition height (n : nat) : nat := Nat.log2_up n.

(** The siblings on the way from node [idx] of level [k], [len] levels up. *)
Fixpoint ref_path (leaves : list bytes) (len k idx : nat) : list (bytes * bool) :=
  match len with
  | 0 => []
  | S len =>
      (if idx mod 2 =? 0 then (node leaves k (idx + 1), false)
       else (node leaves k (idx - 1), true)) :: ref_path leaves len (S k) (idx / 2)
  end.

Definition ref_level (leaves : list bytes) (k m : nat) : list bytes :=
  map (node leaves k) (seq 0 m).

(** Levels [k .. k + d] of a tree of height [k + d]. *)
Fixpoint ref_levels (leaves : list bytes) (d k : nat) : list (list bytes) :=
  ref_level leaves k (2 ^ d) ::
  match d with
  | 0 => []
  | S d => ref_levels leaves d (S k)
  end.

Lemma hash_pair_comm l r : _hash_pair l r = _hash_pair r l.
Proof.
  unfold _hash_pair. destruct (bytes_ltb l r) eqn:E1.
  - by rewrite (bytes_ltb_asym _ _ E1).
  - destruct (bytes_ltb r l) eqn:E2; [done|].
    by rewrite (bytes_ltb_total _ _ E1 E2).
Qed.

Lemma log2_of_nat m : 0 < m → Z.log2 (Z.of_nat m) = Z.of_nat (Nat.log2 m).
Proof.
  intros Hm. pose proof (Nat.log2_spec m Hm) as [H1 H2]. apply Z.log2_unique; [lia|].
  rewrite <- Nat2Z.inj_succ. change 2%Z with (Z.of_nat 2).
  rewrite <- !Nat2Z.inj_pow. lia.
Qed.

Lemma next_pow2_spec n : 0 < n → _next_pow2 (Z.of_nat n) = Z.of_nat (2 ^ height n).
Proof.
  intros Hn. unfold _next_pow2, height, bit_length.
  destruct (Z.ltb_spec 0 (Z.of_nat n)); [|lia].
  rewrite Z.shiftl_1_l, Nat2Z.inj_pow. f_equal.
  destruct (Z.eqb_spec (Z.of_nat n - 1) 0).
  - replace n with 1 by lia. done.
  - rewrite Z.abs_eq by lia. unfold Nat.log2_up.
    destruct (Nat.compare_spec 1 n); try lia.
    rewrite Nat2Z.inj_succ, <- log2_of_nat by lia. rewrite Z.add_1_r.
    do 2 f_equal. lia.
Qed.

Lemma bit_length_pow2 d : bit_length (Z.of_nat (2 ^ d)) = Z.of_nat (S d).
Proof.
  unfold bit_length. rewrite Nat2Z.inj_pow.
  destruct (Z.eqb_spec (Z.of_nat 2 ^ Z.of_nat d) 0) as [E|E].
  - pose proof (Z.pow_pos_nonneg 2 (Z.of_nat d)). lia.
  - rewrite Z.abs_eq by (apply Z.pow_nonneg; lia). rewrite Z.log2_pow2; lia.
Qed.

Lemma height_le n : n ≤ 2 ^ height n.
Proof.
  destruct (decide (n ≤ 1)).
  - pose proof (Nat.pow_nonzero 2 (height n)). lia.
  - apply Nat.log2_log2_up_spec. lia.
Qed.

Lemma pad_sequence_spec leaves :
  leaves ≠ [] →
  _pad_sequence leaves = Ok (ref_level leaves 0 (2 ^ height (length leaves))).
Proof.
  intros Hne. unfold _pad_sequence.
  destruct (last leaves) as [x|] eqn:Hlast; [|by apply last_None in Hlast].
  assert (0 < length leaves) by (destruct leaves; cbn in *; [done|lia]).
  rewrite next_pow2_spec by done. f_equal.
  pose proof (height_le (length leaves)).
  unfold ref_level. apply list_eq. intros i.
  rewrite list_lookup_fmap. cbn. unfold leaf_at. rewrite Hlast. cbn.
  destruct (decide (i < length leaves)).
  - rewrite lookup_app_l by done. rewrite lookup_seq_lt by lia. cbn.
    by destruct (lookup_lt_is_Some_2 leaves i) as [y ->].
  - rewrite lookup_app_r by lia.
    destruct (decide (i < 2 ^ height (length leaves))).
    + rewrite lookup_replicate_2 by lia. rewrite lookup_seq_lt by lia. cbn.
      by rewrite lookup_ge_None_2 by lia.
    + rewrite !lookup_ge_None_2; [done|rewrite length_seq; lia|rewrite length_replicate; lia].
Qed.

Lemma parent_level_map (f : nat → bytes) m j :
  _parent_level (map f (seq (2 * j) (2 * m))) =
  Ok (map (λ i, _hash_pair (f (2 * i)) (f (2 * i + 1))) (seq j m)).
Proof.
  revert j. induction m as [|m IH]; intros j; [done|].
  replace (2 * S m) with (S (S (2 * m))) by lia. cbn [seq map _parent_level].
  replace (S (S (2 * j))) with (2 * S j) by lia. rewrite IH. cbn. do 4 f_equal. lia.
Qed.

Lemma ref_level_parent leaves k m :
  _parent_level (ref_level leaves k (2 * m)) = Ok (ref_level leaves (S k) m).
Proof. unfold ref_level. apply (parent_level_map _ m 0). Qed.

Lemma ref_level_length leaves k m : length (ref_level leaves k m) = m.
Proof. unfold ref_level. by rewrite length_map, length_seq. Qed.

Lemma ref_level_lookup leaves k m j :
  j < m → ref_level leaves k m !! j = Some (node leaves k j).
Proof.
  intros. unfold ref_level. rewrite list_lookup_fmap, lookup_seq_lt by lia. done.
Qed.

Lemma grow_levels_spec leaves d k fuel :
  d < fuel → _grow_levels fuel (ref_level leaves k (2 ^ d)) = Ok (ref_levels leaves d k).
Proof.
  revert k fuel. induction d as [|d IH]; intros k [|fuel] Hf; try lia.
  - done.
  - cbn [_grow_levels ref_levels]. rewrite ref_level_length.
    pose proof (Nat.pow_nonzero 2 d). rewrite Nat.pow_succ_r'.
    destruct (Nat.ltb_spec 1 (2 * 2 ^ d)); [|lia].
    rewrite ref_level_parent. cbn. rewrite IH by lia. done.
Qed.

(** [_build_levels] terminates, never raises on a non-empty input and
    computes the reference tree. *)
Lemma build_levels_spec leaves :
  leaves ≠ [] → _build_levels leaves = Ok (ref_levels leaves (height (length leaves)) 0).
Proof.
  intros Hne. unfold _build_levels. rewrite pad_sequence_spec by done. cbn.
  apply grow_levels_spec. rewrite ref_level_length. by apply Nat.pow_gt_lin_r; lia.
Qed.

Lemma ref_levels_length leaves d k : length (ref_levels leaves d k) = S d.
Proof. revert k. induction d; intros; cbn; [done|]. by rewrite IHd. Qed.

Lemma ref_levels_lookup leaves d k i :
  i ≤ d → ref_levels leaves d k !! i = Some (ref_level leaves (k + i) (2 ^ (d - i))).
Proof.
  revert k i. induction d as [|d IH]; intros k [|i] Hi; try lia; cbn [ref_levels lookup list_lookup].
  - by rewrite Nat.add_0_r.
  - by rewrite Nat.add_0_r.
  - rewrite IH by lia. do 2 f_equal; lia.
Qed.

Lemma top_hash_ref leaves d k :
  top_hash (ref_levels leaves d k) = Ok (node leaves (k + d) 0).
Proof.
  unfold top_hash. rewrite last_lookup, ref_levels_length. cbn [Nat.pred].
  rewrite ref_levels_lookup by lia. rewrite Nat.sub_diag. unfold py_index.
  by rewrite ref_level_lookup by (cbn; lia).
Qed.

Lemma compute_root_spec leaves :
  leaves ≠ [] → compute_root leaves = Ok (node leaves (height (length leaves)) 0).
Proof.
  intros Hne. unfold compute_root. destruct leaves eqn:E; [done|]. rewrite <- E.
  rewrite build_levels_spec by (by rewrite E). apply (top_hash_ref leaves _ 0).
Qed.

(** ** Inclusion proofs of the static tree *)

Lemma collect_path_ref leaves d k idx :
  idx < 2 ^ d →
  _collect_path (take d (ref_levels leaves d k)) idx = Ok (ref_path leaves d k idx).
Proof.
  revert k idx. induction d as [|d IH]; intros k idx Hidx; [done|].
  cbn [take ref_levels _collect_path ref_path].
  rewrite Nat.pow_succ_r' in *.
  pose proof (Nat.div_mod_eq idx 2) as Hdm. pose proof (Nat.mod_upper_bound idx 2).
  destruct (Nat.eqb_spec (idx mod 2) 0) as [E|E]; unfold py_index.
  - rewrite ref_level_lookup by lia. bindsimp. by rewrite IH by lia.
  - rewrite ref_level_lookup by lia. bindsimp. by rewrite IH by lia.
Qed.

(** Folding the reference path from a node climbs to its ancestor. *)
Lemma fold_ref_path leaves len k idx :
  fold_path (node leaves k idx) (ref_path leaves len k idx) =
  node leaves (k + len) (idx / 2 ^ len).
Proof.
  revert k idx. induction len as [|len IH]; intros k idx.
  - rewrite Nat.add_0_r, Nat.pow_0_r, Nat.div_1_r. done.
  - cbn [ref_path fold_path].
    pose proof (Nat.div_mod_eq idx 2) as Hdm. pose proof (Nat.mod_upper_bound idx 2).
    rewrite Nat.pow_succ_r', <- Nat.Div0.div_div.
    replace (k + S len) with (S k + len) by lia. rewrite <- IH.
    destruct (Nat.eqb_spec (idx mod 2) 0) as [E|E]; cbn [fold_path node];
      do 2 f_equal; f_equal; lia.
Qed.

Lemma generate_spec leaf_data i leaves :
  i < length leaves →
  generate_inclusion_proof leaf_data (Z.of_nat i) leaves =
  Ok (mkInclusionProof (_safe_hash (serialize_to_bytes leaf_data))
        (ref_path leaves (height (length leaves)) 0 i)
        (node leaves (height (length leaves)) 0) i).
Proof.
  intros Hi. assert (leaves ≠ []) as Hne by (intros ->; cbn in *; lia).
  unfold generate_inclusion_proof. destruct leaves as [|h0 hs] eqn:E; [done|]. rewrite <- E in *.
  destruct (Z.ltb_spec (Z.of_nat i) 0); [lia|].
  destruct (Z.leb_spec (Z.of_nat (length leaves)) (Z.of_nat i)); [lia|]. cbn [orb].
  rewrite build_levels_spec by done. bindsimp. rewrite ref_levels_length.
  replace (S _ - 1) with (height (length leaves)) by lia. rewrite Nat2Z.id.
  rewrite collect_path_ref by (pose proof (height_le (length leaves)); lia).
  bindsimp. by rewrite top_hash_ref.
Qed.

Lemma node_leaf leaves i h : leaves !! i = Some h → node leaves 0 i = h.
Proof. intros E. cbn. unfold leaf_at. by rewrite E. Qed.

(** ** The incremental tree refines the reference tree *)

(** A stored level: the nodes that cover a real leaf are the reference nodes,
    the others are absent or [None]. *)
Definition level_ok (real : list bytes) (k : nat) (level : list (option bytes)) : Prop :=
  ∀ j, (j * 2 ^ k < length real → level !! j = Some (Some (node real k j)))
     ∧ (length real ≤ j * 2 ^ k → level !! j = None ∨ level !! j = Some None).

Definition pads_ok (t : IncrementalMerkleTree) : Prop :=
  _pad_hashes t = map (pad_hash (default zero32 (last (_real t)))) (seq 0 (length (_levels t))).

Definition tree_inv (t : IncrementalMerkleTree) : Prop :=
  pads_ok t ∧
  if decide (_real t = []) then _levels t = [[]]
  else length (_levels t) = S (height (length (_real t)))
     ∧ ∀ k level, _levels t !! k = Some level → level_ok (_real t) k level.

Lemma pad_chain_spec n h k :
  pad_chain n (pad_hash h k) = map (pad_hash h) (seq k (S n)).
Proof.
  revert k. induction n as [|n IH]; intros k; [done|].
  cbn [pad_chain]. change (_hash_pair (pad_hash h k) (pad_hash h k)) with (pad_hash h (S k)).
  rewrite IH. done.
Qed.

Lemma compute_pads_ok levels real :
  levels ≠ [] → pads_ok (mkTree levels real (_compute_pad_hashes levels real)).
Proof.
  intros Hne. unfold pads_ok, _compute_pad_hashes. cbn [_levels _real _pad_hashes].
  pose proof (pad_chain_spec (length levels - 1) (default zero32 (last real)) 0) as E.
  cbn [pad_hash] in E. rewrite E. do 2 f_equal. destruct levels; cbn; [done|lia].
Qed.

Lemma node_pad real k j :
  length real ≤ j * 2 ^ k → node real k j = pad_hash (default zero32 (last real)) k.
Proof.
  revert j. induction k as [|k IH]; intros j Hj; cbn [node pad_hash].
  - rewrite Nat.pow_0_r in Hj. unfold leaf_at. by rewrite lookup_ge_None_2 by lia.
  - rewrite Nat.pow_succ_r' in Hj. rewrite !IH by lia. done.
Qed.

Lemma node_app real x k j :
  S j * 2 ^ k ≤ length real → node (real ++ [x]) k j = node real k j.
Proof.
  revert j. induction k as [|k IH]; intros j Hj; cbn [node].
  - rewrite Nat.pow_0_r in Hj. unfold leaf_at. rewrite lookup_app_l by lia.
    by destruct (lookup_lt_is_Some_2 real j) as [y ->]; [lia|].
  - rewrite Nat.pow_succ_r' in Hj. rewrite !IH by lia. done.
Qed.

Lemma node_lookup_ok t k j level :
  pads_ok t → _levels t !! k = Some level → level_ok (_real t) k level →
  _node t k j = Ok (node (_real t) k j).
Proof.
  intros Hp Hl Hok. unfold _node, py_index. rewrite Hl. bindsimp.
  destruct (Hok j) as [H1 H2]. destruct (decide (j * 2 ^ k < length (_real t))).
  - by rewrite H1 by done.
  - rewrite node_pad by lia. apply lookup_lt_Some in Hl.
    destruct H2 as [->| ->]; [lia|..]; rewrite Hp, list_lookup_fmap, lookup_seq_lt by lia; done.
Qed.

(** What holds of level [k] before [_refresh_path] reaches it. *)
Definition level_pre (real : list bytes) (k : nat) (level : list (option bytes)) : Prop :=
  ∀ j, (S j * 2 ^ k < length real → level !! j = Some (Some (node real k j)))
     ∧ (length real ≤ j * 2 ^ k → level !! j = None ∨ level !! j = Some None).

Lemma extend_insert_ok real k level idx v :
  level_pre real k level →
  idx * 2 ^ k < length real → length real ≤ S idx * 2 ^ k →
  v = node real k idx →
  level_ok real k (<[idx := Some v]> (extend_to idx level)).
Proof.
  intros Hpre Hlo Hhi -> j. unfold extend_to.
  assert (idx < length (level ++ replicate (S idx - length level) None))
    by (rewrite length_app, length_replicate; lia).
  destruct (Hpre j) as [H1 H2].
  destruct (Nat.lt_trichotomy j idx) as [Hj|[->|Hj]].
  - rewrite list_lookup_insert_ne by lia.
    assert (S j * 2 ^ k ≤ idx * 2 ^ k) by (apply Nat.mul_le_mono_r; lia).
    split; [|nia]. intros _. rewrite lookup_app_l; [apply H1; lia|].
    apply lookup_lt_is_Some. rewrite H1 by lia. by eexists.
  - rewrite list_lookup_insert_eq by done. split; [done|lia].
  - assert (S idx * 2 ^ k ≤ j * 2 ^ k) by (apply Nat.mul_le_mono_r; lia).
    rewrite list_lookup_insert_ne by lia. split; [lia|]. intros _.
    destruct (decide (idx < length level)).
    + replace (S idx - length level) with 0 by lia. rewrite app_nil_r. apply H2. lia.
    + left. apply lookup_ge_None_2. rewrite length_app, length_replicate. lia.
Qed.

Lemma div2_bounds n k :
  n / 2 ^ k * 2 ^ k ≤ n ∧ n < S (n / 2 ^ k) * 2 ^ k.
Proof.
  pose proof (Nat.pow_nonzero 2 k) as Hp. specialize (Hp ltac:(lia)).
  pose proof (Nat.div_mod_eq n (2 ^ k)). pose proof (Nat.mod_upper_bound n (2 ^ k) Hp). nia.
Qed.

Lemma refresh_path_spec n k t idx :
  pads_ok t → 0 < length (_real t) → 0 < k → length (_levels t) = k + n →
  idx = (length (_real t) - 1) / 2 ^ (k - 1) →
  (∀ i level, i < k → _levels t !! i = Some level → level_ok (_real t) i level) →
  (∀ i level, k ≤ i → _levels t !! i = Some level → level_pre (_real t) i level) →
  ∃ t', _refresh_path n k idx t = Ok t' ∧ _real t' = _real t ∧ pads_ok t' ∧
    length (_levels t') = length (_levels t) ∧
    ∀ i level, _levels t' !! i = Some level → level_ok (_real t) i level.
Proof.
  revert k t idx. induction n as [|n IH]; intros k t idx Hpads Hreal Hk Hlen Hidx Hlo Hhi.
  - exists t. split_and!; auto. intros i level Hl. apply (Hlo i); [|done].
    apply lookup_lt_Some in Hl. lia.
  - cbn [_refresh_path]. destruct (lookup_lt_is_Some_2 (_levels t) k) as [level Hlk]; [lia|].
    unfold py_index at 1. rewrite Hlk. bindsimp.
    destruct (lookup_lt_is_Some_2 (_levels t) (k - 1)) as [below Hlb]; [lia|].
    assert (level_ok (_real t) (k - 1) below) by (apply (Hlo (k - 1)); [lia|done]).
    rewrite !(node_lookup_ok t (k - 1) _ below) by done. bindsimp.
    set (idx' := idx / 2). set (t' := set_level _ _ _).
    assert (idx' = (length (_real t) - 1) / 2 ^ k) as Hidx'.
    { unfold idx'. rewrite Hidx, Nat.Div0.div_div. f_equal.
      replace (2 ^ (k - 1) * 2) with (2 ^ S (k - 1)) by (rewrite Nat.pow_succ_r'; lia).
      f_equal. lia. }
    clearbody idx'.
    pose proof (div2_bounds (length (_real t) - 1) k) as [Hb1 Hb2]. rewrite <- Hidx' in Hb1, Hb2.
    destruct (IH (S k) t' idx') as (t'' & E & Hr & Hp & Hl & Hok); subst t'; cbn.
    + unfold pads_ok in *. cbn. by rewrite length_insert.
    + done.
    + lia.
    + rewrite length_insert. lia.
    + by rewrite Nat.sub_0_r.
    + intros i lv Hi. destruct (decide (i = k)) as [->|].
      * rewrite list_lookup_insert_eq by lia. intros [= <-].
        apply extend_insert_ok; [apply (Hhi k); [lia|done]|lia|lia|].
        replace k with (S (k - 1)) by lia. cbn [node]. by rewrite Nat.sub_succ, Nat.sub_0_r.
      * rewrite list_lookup_insert_ne by done. intros Hlv. apply (Hlo i); [lia|done].
    + intros i lv Hi. rewrite list_lookup_insert_ne by lia. intros Hlv. apply (Hhi i); [lia|done].
    + cbn in *. rewrite length_insert in Hl. eauto 10.
Qed.

Lemma ceil_div_le n p j : 0 < p → (n + p - 1) / p ≤ j ↔ n ≤ j * p.
Proof.
  intros Hp. split.
  - intros Hj. pose proof (Nat.div_mod_eq (n + p - 1) p).
    pose proof (Nat.mod_upper_bound (n + p - 1) p). nia.
  - intros Hj. apply Nat.lt_succ_r. apply Nat.Div0.div_lt_upper_bound. nia.
Qed.

Lemma nullify_ok real d k level :
  real ≠ [] → d = height (length real) →
  _nullify_pads (length real) (as_optional (ref_levels real d 0)) !! k = Some level →
  level_ok real k level.
Proof.
  intros Hne -> Hl. set (d := height (length real)) in *.
  unfold _nullify_pads, as_optional in Hl. rewrite list_lookup_imap, list_lookup_fmap in Hl.
  destruct (decide (k ≤ d)) as [Hk|Hk];
    [|rewrite lookup_ge_None_2 in Hl by (rewrite ref_levels_length; lia); done].
  rewrite ref_levels_lookup in Hl by done. cbn -[Nat.div Nat.pow] in Hl. injection Hl as <-.
  pose proof (Nat.pow_nonzero 2 k ltac:(lia)) as Hp.
  intros j. rewrite list_lookup_imap, list_lookup_fmap.
  pose proof (ceil_div_le (length real) (2 ^ k) j ltac:(lia)) as Hceil.
  split; intros Hj.
  - rewrite ref_level_lookup; cbn -[Nat.div Nat.pow].
    + destruct (Nat.leb_spec ((length real + 2 ^ k - 1) / 2 ^ k) j); [lia|done].
    + pose proof (height_le (length real)) as Hle. fold d in Hle.
      replace d with ((d - k) + k) in Hle by lia. rewrite Nat.pow_add_r in Hle. nia.
  - destruct (_ !! j); cbn -[Nat.div Nat.pow]; [right|by left].
    destruct (Nat.leb_spec ((length real + 2 ^ k - 1) / 2 ^ k) j); [done|lia].
Qed.

Lemma nullify_length n levels : length (_nullify_pads n levels) = length levels.
Proof. unfold _nullify_pads. apply length_imap. Qed.

Lemma tree_init_inv leaves :
  ∃ t, tree_init leaves = Ok t ∧ tree_inv t ∧ _real t = leaves.
Proof.
  destruct (decide (leaves = [])) as [->|Hne].
  - eexists. split; [done|]. split; [|done]. split; [|done]. by apply compute_pads_ok.
  - unfold tree_init. destruct leaves as [|h hs] eqn:E; [done|]. rewrite <- E in *.
    rewrite build_levels_spec by done. bindsimp. eexists. split; [done|]. split; [|done].
    split.
    + apply compute_pads_ok. intros Hnil%(f_equal length).
      rewrite nullify_length in Hnil. unfold as_optional in Hnil.
      rewrite length_map, ref_levels_length in Hnil. done.
    + cbn [_real _levels]. rewrite decide_False by done. split.
      * rewrite nullify_length. unfold as_optional. by rewrite length_map, ref_levels_length.
      * intros k level. by apply nullify_ok.
Qed.

Lemma height_succ n :
  0 < n → height (S n) = height n ∨ (height (S n) = S (height n) ∧ n = 2 ^ height n).
Proof.
  intros Hn. unfold height. destruct (Nat.log2_up_succ_or n) as [E|E]; [right|by left].
  split; [done|]. destruct (decide (n ≤ 1)); [by replace n with 1 by lia|].
  pose proof (Nat.log2_up_spec n ltac:(lia)) as [_ H1].
  pose proof (Nat.log2_up_spec (S n) ltac:(lia)) as [H2 _]. rewrite E in H2. cbn in H2. lia.
Qed.

(** The levels [tree_append] hands to [_refresh_path]. *)
Lemma append_levels_pre t x i level :
  tree_inv t → _real t ≠ [] →
  let n := length (_real t) in
  let levels := if (Z.of_nat (length (_levels t)) <? bit_length (_next_pow2 (Z.of_nat (S n))))%Z
                then _levels t ++ [[]] else _levels t in
  length levels = S (height (S n)) ∧
  (levels !! i = Some level → level_pre (_real t ++ [x]) i level).
Proof.
  intros [_ Hinv] Hne n levels. rewrite decide_False in Hinv by done.
  destruct Hinv as [Hlen Hok]. fold n in Hlen.
  assert (0 < n) by (subst n; destruct (_real t); cbn in *; [done|lia]).
  unfold levels. rewrite next_pow2_spec, bit_length_pow2 by lia.
  assert (∀ lv, _levels t !! i = Some lv → level_pre (_real t ++ [x]) i lv) as Hold.
  { intros lv Hlv j. destruct (Hok i lv Hlv j) as [H1 H2].
    rewrite length_app. cbn [length]. fold n in H1, H2 |- *.
    pose proof (Nat.pow_nonzero 2 i ltac:(lia)). split; intros Hj.
    - rewrite H1 by nia. by rewrite node_app by (fold n; nia).
    - apply H2. lia. }
  destruct (height_succ n) as [E|[E1 E2]]; [done|..].
  - destruct (Z.ltb_spec (Z.of_nat (length (_levels t))) (Z.of_nat (S (height (S n))))); [lia|].
    split; [lia|auto].
  - destruct (Z.ltb_spec (Z.of_nat (length (_levels t))) (Z.of_nat (S (height (S n))))); [|lia].
    split; [rewrite length_app; cbn; lia|].
    intros Hl. apply lookup_app_Some in Hl as [Hl|[Hge Hl]]; [auto|].
    apply list_lookup_singleton_Some in Hl as [Hi <-].
    replace i with (S (height n)) by lia. intros j. split; [|by left].
    intros Hj. exfalso. rewrite length_app in Hj. fold n in Hj. cbn [length] in Hj.
    rewrite Nat.pow_succ_r' in Hj. nia.
Qed.

Lemma tree_append_inv t x :
  tree_inv t → ∃ t', tree_append t x = Ok t' ∧ tree_inv t' ∧ _real t' = _real t ++ [x].
Proof.
  intros Hinv. unfold tree_append. destruct (decide (_real t = [])) as [Hr|Hr].
  - assert (_levels t = [[]]) as HL by (destruct Hinv as [_ Hi]; rewrite decide_True in Hi by done; done).
    rewrite bool_decide_true by done. rewrite Hr. eexists. split; [done|].
    split; [|done]. split; [by apply compute_pads_ok|]. cbn. split; [done|].
    intros k level. destruct k; [|done]. intros [= <-] [|j]; cbn; split; intros; (done || lia || by left).
  - assert (0 < length (_real t)) by (destruct (_real t); cbn in *; [done|lia]).
    rewrite bool_decide_false.
    2: { intros HL. destruct Hinv as [_ Hi]. rewrite decide_False in Hi by done.
         destruct Hi as [_ Hok]. destruct (Hok 0 [] ltac:(by rewrite HL) 0) as [H1 _]. by specialize (H1 ltac:(cbn; lia)). }
    pose proof (λ i level, append_levels_pre t x i level Hinv Hr) as Hpre.
    cbn zeta in Hpre |- *. rewrite length_app in *. cbn [length] in *.
    replace (length (_real t) + 1) with (S (length (_real t))) in * by lia.
    set (levels := if (_ <? _)%Z then _ else _) in *.
    destruct (Hpre 0 []) as [Hlen _].
    destruct (lookup_lt_is_Some_2 levels 0) as [level0 Hl0]; [lia|].
    unfold py_index at 1. rewrite Hl0. bindsimp. rewrite length_insert.
    replace (S (length (_real t)) - 1) with (length (_real t)) by lia.
    set (levels' := <[0:=_]> levels).
    edestruct (refresh_path_spec (length levels - 1) 1
      (mkTree levels' (_real t ++ [x]) (_compute_pad_hashes levels' (_real t ++ [x]))))
      as (t' & E & Hreal & Hp & Hl & Hok); cycle -1.
    { rewrite E. exists t'. split; [done|]. split; [|done]. split; [done|].
      rewrite Hreal, Hl. cbn [_real _levels].
      rewrite decide_False by (intros [_ [=]]%app_nil). split; [|done].
      unfold levels'. rewrite length_insert, length_app. cbn [length].
      by rewrite Nat.add_1_r. }
    + apply compute_pads_ok. intros Hn%(f_equal length). unfold levels' in Hn.
      rewrite length_insert in Hn. cbn in Hn. lia.
    + cbn. rewrite length_app. cbn. lia.
    + lia.
    + cbn [_levels]. unfold levels'. rewrite length_insert. lia.
    + cbn [_real]. rewrite length_app. cbn [length]. rewrite Nat.sub_diag, Nat.pow_0_r, Nat.div_1_r. lia.
    + intros i level Hi. replace i with 0 by lia. cbn [_levels _real]. unfold levels'.
      rewrite list_lookup_insert_eq by lia. intros [= <-].
      apply extend_insert_ok; rewrite ?length_app; cbn; try lia.
      * by apply Hpre.
      * unfold leaf_at. by rewrite lookup_app_r, Nat.sub_diag by lia.
    + intros i level Hi. cbn [_levels _real]. unfold levels'. rewrite list_lookup_insert_ne by lia.
      apply Hpre.
Qed.

(** Appending a sequence of leaves, one [append] call each. *)
Fixpoint tree_append_all (t : IncrementalMerkleTree) (xs : list bytes)
    : result pyexn IncrementalMerkleTree :=
  match xs with
  | [] => Ok t
  | x :: xs => t' ← tree_append t x; tree_append_all t' xs
  end.

Lemma tree_append_all_inv t xs :
  tree_inv t → ∃ t', tree_append_all t xs = Ok t' ∧ tree_inv t' ∧ _real t' = _real t ++ xs.
Proof.
  revert t. induction xs as [|x xs IH]; intros t Ht; cbn [tree_append_all].
  - exists t. by rewrite app_nil_r.
  - destruct (tree_append_inv t x Ht) as (t' & -> & Ht' & Hr). bindsimp.
    destruct (IH t' Ht') as (t'' & -> & Ht'' & Hr'). exists t''.
    split_and!; [done|done|]. by rewrite Hr', Hr, <- app_assoc.
Qed.

Lemma inv_node t k j :
  tree_inv t → _real t ≠ [] → k < length (_levels t) → _node t k j = Ok (node (_real t) k j).
Proof.
  intros [Hp Hinv] Hr Hk. rewrite decide_False in Hinv by done. destruct Hinv as [_ Hok].
  destruct (lookup_lt_is_Some_2 (_levels t) k Hk) as [level Hl].
  apply (node_lookup_ok _ _ _ level); auto.
Qed.

Lemma inv_levels_length t :
  tree_inv t → _real t ≠ [] → length (_levels t) = S (height (length (_real t))).
Proof. intros [_ Hinv] Hr. rewrite decide_False in Hinv by done. apply Hinv. Qed.

Lemma inv_root t : tree_inv t → root t = compute_root (_real t).
Proof.
  intros Ht. destruct (decide (_real t = [])) as [E|Hr]; [unfold root; by rewrite E|].
  rewrite compute_root_spec by done. pose proof (inv_levels_length t Ht Hr) as Hlen.
  unfold root. destruct (_real t) eqn:E; [done|]. rewrite <- E in *.
  rewrite inv_node by (done || lia). do 2 f_equal. lia.
Qed.

Lemma inv_proof_loop t n k idx :
  tree_inv t → _real t ≠ [] → k + n < length (_levels t) →
  _proof_loop n k idx t = Ok (ref_path (_real t) n k idx).
Proof.
  intros Ht Hr. revert k idx. induction n as [|n IH]; intros k idx Hn; [done|].
  cbn [_proof_loop ref_path]. rewrite IH by lia.
  destruct (idx mod 2 =? 0); rewrite inv_node by (done || lia); done.
Qed.

Lemma inv_inclusion_proof t d i :
  tree_inv t →
  inclusion_proof t d i =
  match _real t with [] => Err IndexError | _ => generate_inclusion_proof d i (_real t) end.
Proof.
  intros Ht. unfold inclusion_proof. destruct (_real t) as [|h hs] eqn:E.
  { cbn [length]. destruct (Z.leb_spec 0 i), (Z.ltb_spec i (Z.of_nat 0)); done || lia. }
  assert (_real t ≠ []) as Hr by (by rewrite E). rewrite <- E in *.
  pose proof (inv_levels_length t Ht Hr) as Hlen.
  destruct (Z.leb_spec 0 i), (Z.ltb_spec i (Z.of_nat (length (_real t)))); cbn [andb].
  - unfold proof. destruct (Z.leb_spec 0 i); [|lia].
    destruct (Z.ltb_spec i (Z.of_nat (length (_real t)))); [|lia]. cbn [andb].
    rewrite inv_proof_loop by (done || lia). bindsimp.
    rewrite inv_root, compute_root_spec by done. bindsimp.
    rewrite <- (Z2Nat.id i) at 3 by done. rewrite generate_spec by lia.
    by rewrite Hlen, Nat.sub_succ, Nat.sub_0_r.
  - unfold generate_inclusion_proof. rewrite E. rewrite <- E.
    destruct (Z.leb_spec (Z.of_nat (length (_real t))) i); [by rewrite orb_true_r|lia].
  - unfold generate_inclusion_proof. rewrite E. rewrite <- E.
    by destruct (Z.ltb_spec i 0); [|lia].
  - lia.
Qed.

(** ** Soundness: the messages hashed by the verifier and by the tree *)

Definition pair_msg (l r : bytes) : bytes :=
  DOMAIN_SEPARATOR ++ if bytes_ltb l r then l ++ r else r ++ l.

Fixpoint verify_messages (current : bytes) (p : list (bytes * bool)) : list bytes :=
  match p with
  | [] => []
  | (s, b) :: p' =>
      pair_msg s current :: verify_messages (_hash_pair s current) p'
  end.

Definition tree_messages (leaves : list bytes) (h : nat) : list bytes :=
  k ← seq 0 h; j ← seq 0 (2 ^ (h - k - 1));
  [pair_msg (node leaves k (2 * j)) (node leaves k (2 * j + 1))].

(** No two different messages of the two lists have the same digest. *)
Definition collision_free (ms ms' : list bytes) : bool :=
  forallb (λ m, forallb (λ m',
    implb (bool_decide (sha256 m = sha256 m')) (bool_decide (m = m'))) ms') ms.

Lemma collision_free_use ms ms' m m' :
  collision_free ms ms' = true → m ∈ ms → m' ∈ ms' → sha256 m = sha256 m' → m = m'.
Proof.
  unfold collision_free. rewrite forallb_forall. intros H Hm Hm' E.
  apply list_elem_of_In in Hm, Hm'. specialize (H m Hm).
  rewrite forallb_forall in H. specialize (H m' Hm').
  rewrite bool_decide_true in H by done. by apply bool_decide_eq_true in H.
Qed.

Lemma hash_pair_msg l r : _hash_pair l r = sha256 (pair_msg l r).
Proof. unfold _hash_pair, _safe_hash, pair_msg. by case_match. Qed.

Lemma fold_path_step current s b p :
  fold_path current ((s, b) :: p) = fold_path (_hash_pair s current) p.
Proof. cbn. destruct b; [done|]. by rewrite hash_pair_comm. Qed.

Lemma pair_msg_inj c s l r n :
  length c = n → length l = n → length r = n →
  pair_msg s c = pair_msg l r → c = l ∨ c = r.
Proof.
  intros Hc Hl Hr E%app_inv_head.
  assert (length s = n) as Hs.
  { apply (f_equal length) in E. destruct (bytes_ltb s c), (bytes_ltb l r);
      rewrite !length_app in E; lia. }
  destruct (bytes_ltb s c), (bytes_ltb l r); apply app_inj_1 in E as [-> ->]; auto; lia.
Qed.

Lemma tree_messages_mem leaves h k j :
  k < h → j < 2 ^ (h - k - 1) →
  pair_msg (node leaves k (2 * j)) (node leaves k (2 * j + 1)) ∈ tree_messages leaves h.
Proof.
  intros Hk Hj. unfold tree_messages. apply list_elem_of_bind. exists k.
  split; [|apply elem_of_seq; lia]. apply list_elem_of_bind. exists j.
  split; [set_solver|apply elem_of_seq; lia].
Qed.

Lemma node_length leaves k j n :
  (∀ m, length (sha256 m) = n) → length zero32 = n → Forall (λ h, length h = n) leaves →
  length (node leaves k j) = n.
Proof.
  intros Hsha Hz Hl. destruct k as [|k]; cbn [node]; [|by rewrite hash_pair_msg].
  unfold leaf_at. destruct (leaves !! j) as [h|] eqn:E; cbn.
  { by apply (Forall_lookup_1 _ _ _ _ Hl E). }
  destruct (last leaves) as [h|] eqn:E'; cbn; [|done].
  apply last_Some in E' as [l' ->]. rewrite Forall_app, Forall_singleton in Hl. apply Hl.
Qed.

Lemma collision_free_tail m ms ms' :
  collision_free (m :: ms) ms' = true → collision_free ms ms' = true.
Proof. unfold collision_free. cbn. by intros [_ ?]%andb_true_iff. Qed.

Lemma fold_path_sound leaves h n p k cur :
  (∀ m, length (sha256 m) = n) → length zero32 = n → Forall (λ x, length x = n) leaves →
  length cur = n → k + length p = h →
  collision_free (verify_messages cur p) (tree_messages leaves h) = true →
  fold_path cur p = node leaves h 0 →
  ∃ j, j < 2 ^ (h - k) ∧ cur = node leaves k j.
Proof.
  intros Hsha Hz Hleaves. revert k cur.
  induction p as [|[s b] p IH]; intros k cur Hcur Hk Hcf Hfold.
  - exists 0. cbn [length] in Hk. assert (h = k) as -> by lia.
    rewrite Nat.sub_diag. cbn. split; [lia|done].
  - rewrite fold_path_step in Hfold. cbn [length] in Hk.
    destruct (IH (S k) (_hash_pair s cur)) as (j & Hj & Ej); [|lia|..|done|].
    { by rewrite hash_pair_msg. }
    { cbn in Hcf. by apply collision_free_tail in Hcf. }
    cbn [node] in Ej. rewrite !hash_pair_msg in Ej.
    eapply collision_free_use in Ej; [|exact Hcf|cbn; left|]; cycle 1.
    { apply tree_messages_mem; [lia|]. by replace (h - k - 1) with (h - S k) by lia. }
    replace (h - k) with (S (h - S k)) by lia. rewrite Nat.pow_succ_r'.
    apply pair_msg_inj with (n := n) in Ej as [-> | ->];
      [exists (2 * j)|exists (2 * j + 1)|done|by apply node_length..]; split; (done || lia).
Qed.

Lemma leaf_at_mem leaves j : leaves ≠ [] → leaf_at leaves j ∈ leaves.
Proof.
  intros Hne. unfold leaf_at. destruct (leaves !! j) as [x|] eqn:E; cbn.
  { by eapply list_elem_of_lookup_2. }
  destruct (last leaves) as [x|] eqn:E'; [|by apply last_None in E'].
  cbn. apply last_Some in E' as [l' ->]. set_solver.
Qed.

Lemma node_swap a b rest k j :
  rest ≠ [] → node (a :: b :: rest) (S k) j = node (b :: a :: rest) (S k) j.
Proof.
  intros Hne. revert j. induction k as [|k IH]; intros j.
  - cbn [node]. destruct j as [|j]; [apply hash_pair_comm|].
    destruct rest as [|c rest]; [done|]. unfold leaf_at.
    replace (2 * S j) with (S (S (2 * j))) by lia. done.
  - change (node ?l (S (S k)) j) with (_hash_pair (node l (S k) (2 * j)) (node l (S k) (2 * j + 1))).
    by rewrite !IH.
Qed.

Lemma compute_root_swap a b rest :
  compute_root (a :: b :: rest) = compute_root (b :: a :: rest).
Proof.
  rewrite !compute_root_spec by done. f_equal. destruct rest as [|c rest]; [apply hash_pair_comm|].
  cbn [length]. destruct (height (S (S (S (length rest))))) eqn:E; [|by apply node_swap].
  pose proof (height_le (S (S (S (length rest))))) as Hle. rewrite E in Hle. cbn in Hle. lia.
Qed.
End merkle.

(** ** Claims *)

(** C2: after [IncrementalMerkleTree(leaves)] and any sequence of [append]
    calls, no call has raised, the tree holds exactly the leaves in order, its
    root is byte-identical to [compute_root] of them and every inclusion proof
    is byte-identical to [generate_inclusion_proof], index errors included. *)
Theorem incremental_matches_static (sha256 : bytes → bytes) {Data}
    (serialize : Data → bytes) (leaves xs : list bytes) :
  ∃ t, (t0 ← tree_init sha256 leaves; tree_append_all sha256 t0 xs) = Ok t
     ∧ to_static t = leaves ++ xs
     ∧ root t = compute_root sha256 (leaves ++ xs)
     ∧ ∀ d i, inclusion_proof sha256 serialize t d i =
              match leaves ++ xs with
              | [] => Err IndexError
              | _ => generate_inclusion_proof sha256 serialize d i (leaves ++ xs)
              end.
Proof.
  destruct (tree_init_inv sha256 leaves) as (t0 & -> & H0 & <-). bindsimp.
  destruct (tree_append_all_inv sha256 t0 xs H0) as (t & -> & Ht & <-).
  exists t. split_and!; [done|done|by apply inv_root|].
  intros d i. by apply inv_inclusion_proof.
Qed.

(** completeness. The proof generated for a leaf whose stored hash is the
    hash of the data verifies, against the root [compute_root] publishes. *)
Theorem inclusion_proof_complete (sha256 : bytes → bytes) {Data}
    (serialize : Data → bytes) (leaves : list bytes) (i : nat) (d : Data) :
  leaves !! i = Some (_safe_hash sha256 (serialize d)) →
  ∃ p, generate_inclusion_proof sha256 serialize d (Z.of_nat i) leaves = Ok p
     ∧ compute_root sha256 leaves = Ok (root_hash p)
     ∧ block_index p = i
     ∧ verify_inclusion_proof sha256 serialize p d = true.
Proof.
  intros Hi. pose proof (lookup_lt_Some _ _ _ Hi) as Hlt.
  eexists. split; [by apply generate_spec|]. cbn. split_and!; [|done|].
  - apply compute_root_spec. by intros ->.
  - unfold verify_inclusion_proof. cbn. rewrite bool_decide_false by naive_solver.
    apply bool_decide_eq_true. rewrite <- (node_leaf sha256 leaves i _ Hi).
    rewrite fold_ref_path. cbn [Nat.add]. f_equal. apply Nat.div_small.
    pose proof (height_le (length leaves)). lia.
Qed.

(** C18: soundness. A proof of full height that verifies against the published
    root shows that the data's hash is one of the leaves, as long as no message
    the verifier hashed collides with a different message of the tree.  The
    siblings are arbitrary attacker-chosen bytes. *)
Theorem inclusion_proof_sound (sha256 : bytes → bytes) {Data}
    (serialize : Data → bytes) (leaves : list bytes) (p : InclusionProof) (d : Data) :
  (∀ m, length (sha256 m) = 32) →
  Forall (λ h, length h = 32) leaves →
  leaves ≠ [] →
  compute_root sha256 leaves = Ok (root_hash p) →
  length (path p) = height (length leaves) →
  collision_free sha256 (verify_messages sha256 (leaf_hash p) (path p))
    (tree_messages sha256 leaves (height (length leaves))) = true →
  verify_inclusion_proof sha256 serialize p d = true →
  _safe_hash sha256 (serialize d) ∈ leaves.
Proof.
  intros Hsha Hl Hne Hroot Hlen Hcf Hv. unfold verify_inclusion_proof in Hv.
  case_bool_decide as Hleaf; [done|].
  apply bool_decide_eq_true in Hv. rewrite compute_root_spec in Hroot by done.
  injection Hroot as Hroot. rewrite <- Hroot, Hleaf in Hv. rewrite Hleaf.
  destruct (fold_path_sound sha256 leaves (height (length leaves)) 32 (path p) 0 (leaf_hash p))
    as (j & _ & E); try done.
  - rewrite <- Hleaf. apply Hsha.
  - rewrite E. by apply leaf_at_mem.
Qed.

(** Because [_hash_pair] sorts its arguments, the root does not commit to
    the order of two sibling leaves. *)
Theorem root_ignores_sibling_order (sha256 : bytes → bytes) (a b : bytes) (rest : list bytes) :
  compute_root sha256 (a :: b :: rest) = compute_root sha256 (b :: a :: rest).
Proof. apply compute_root_swap. Qed.

(** An inclusion proof survives serialization: [from_dict(p.to_dict()) == p],
    hex encoding included. *)
Theorem proof_dict_roundtrip (p : InclusionProof) : from_dict (to_dict p) = Ok p.
Proof.
  destruct p as [lh pa rh bi]. unfold from_dict, to_dict. cbn.
  by rewrite fromhex_hex, path_from_to_dict, fromhex_hex.
Qed.

(** ** Witnesses *)

(** A 32-byte toy digest. *)
Definition toy_digest (m : bytes) : bytes :=
  replicate 31 Byte.x00 ++
  [default Byte.x00 (Byte.of_N (foldr (λ x a, a * 31 + Byte.to_N x)%N 7%N m mod 256))].

Definition toy_leaf (x : Byte.byte) : bytes := _safe_hash toy_digest [x].
Definition toy_leaves : list bytes := [toy_leaf Byte.x01; toy_leaf Byte.x02; toy_leaf Byte.x03].

Lemma inclusion_proof_complete_witness :
  toy_leaves !! 1 = Some (_safe_hash toy_digest [Byte.x02]) ∧
  ∃ p, generate_inclusion_proof toy_digest id [Byte.x02] (Z.of_nat 1) toy_leaves = Ok p
     ∧ compute_root toy_digest toy_leaves = Ok (root_hash p)
     ∧ block_index p = 1
     ∧ verify_inclusion_proof toy_digest id p [Byte.x02] = true.
Proof.
  split; [reflexivity|].
  apply (inclusion_proof_complete toy_digest id toy_leaves 1 [Byte.x02]). reflexivity.
Defined.

Definition toy_proof : InclusionProof :=
  match generate_inclusion_proof toy_digest id [Byte.x02] 1 toy_leaves with
  | Ok p => p
  | Err _ => mkInclusionProof [] [] [] 0
  end.

Lemma inclusion_proof_sound_witness :
  verify_inclusion_proof toy_digest id toy_proof [Byte.x02] = true ∧
  _safe_hash toy_digest (id [Byte.x02]) ∈ toy_leaves.
Proof.
  split; [vm_compute; reflexivity|].
  apply (inclusion_proof_sound toy_digest id toy_leaves toy_proof [Byte.x02]).
  - intros m. unfold toy_digest. rewrite length_app, length_replicate. reflexivity.
  - repeat constructor.
  - discriminate.
  - vm_compute. reflexivity.
  - vm_compute. reflexivity.
  - vm_compute. reflexivity.
  - vm_compute. reflexivity.
Defined.
