(* ===== verification/MerkleChain.v ===== *)
(** * The Merkle-chained audit log ([noema/audit/merkle.py])

    [MerkleChainAudit]: an append-only list of hash-linked [AuditBlock]s with a
    memoised Merkle tree over their hashes.  [blake2b], the canonical JSON
    serializer and the UTF-8 codec are parameters; the clock reading of
    [append] and the random [nonce] of a block are arguments. *)
From Stdlib Require Import ZArith QArith Qround Lia Bool String Strings.Byte.
From stdpp Require Import base option numbers sets list.
From S2P Require Import Prelude MerkleProof.
Local Open Scope nat_scope.

(** [int.to_bytes(n, "big")] *)
Fixpoint be_bytes (n : nat) (z : Z) : bytes :=
  match n with
  | 0 => []
  | S n => be_bytes n (z / 256) ++ [default Byte.x00 (Byte.of_N (Z.to_N (z mod 256)))]
  end.

Definition to_bytes_8_big (z : Z) : result pyexn bytes :=
  if (0 <=? z)%Z && (z <? 2 ^ 64)%Z then Ok (be_bytes 8 z) else Err OverflowError.

Record AuditBlock := mkBlock {
  index : Z;
  prev_hash : bytes;
  timestamp : Q;
  commitment : bytes;
  metadata : bytes;
  block_hash : bytes;
  nonce : bytes;
}.

(** [MerkleProof] *)
Record MerkleProof := mkProof {
  proof_index : Z;
  proof_hash : bytes;
  siblings : list (bytes * bool);   (* (sibling_hash, is_left) *)
}.

Record MerkleChainAudit := mkChain {
  _chain_id : string;
  _blocks : list AuditBlock;
  _dirty : bool;
  _tree_levels : option (list (list bytes));
  _genesis : AuditBlock;
}.

(** One element of [export_blocks()]; the hashes are hex strings. *)
Record block_export := mkExport {
  x_index : Z;
  x_prev_hash : string;
  x_timestamp : Q;
  x_commitment : string;
  x_block_hash : string;
  x_metadata : string;
}.

(** The dictionary [create_audit_proof] returns. *)
Record audit_proof := mkAuditProof {
  ap_chain_id : string;
  ap_block_index : Z;
  ap_block_hash : string;
  ap_root : string;
  ap_proof : option (list string * list string);   (* siblings, directions *)
  ap_verified : bool;
}.

Section chain.
Context (blake2b : bytes → bytes).
Context (serialize_to_bytes : json → bytes).
Context (utf8_decode_replace : bytes → string) (utf8_encode : string → bytes).

Definition _hash (data : bytes) : bytes := blake2b data.

Definition _compute_commitment (payload : json) (nonce : option bytes) : bytes :=
  let encoded := serialize_to_bytes payload in
  match nonce with
  | None => _hash encoded
  | Some n => _hash (n ++ encoded)
  end.

Definition _compute_block_hash (index : Z) (prev_hash commitment : bytes) (timestamp : Q)
    (metadata : bytes) : result pyexn bytes :=
  i ← to_bytes_8_big index;
  ts ← to_bytes_8_big (Qtrunc (timestamp * 1000000));
  Ok (_hash (i ++ prev_hash ++ commitment ++ ts ++ metadata)).

(** [AuditBlock.verify] *)
Definition block_verify (b : AuditBlock) : result pyexn bool :=
  expected ← _compute_block_hash (index b) (prev_hash b) (commitment b) (timestamp b) (metadata b);
  Ok (bool_decide (expected = block_hash b)).

(** The loop of [MerkleProof.verify]. *)
Fixpoint climb (current : bytes) (sibs : list (bytes * bool)) : bytes :=
  match sibs with
  | [] => current
  | (sibling, is_left) :: rest =>
      climb (if is_left then _hash (sibling ++ current) else _hash (current ++ sibling)) rest
  end.

Definition proof_verify (p : MerkleProof) (root leaf : bytes) : bool :=
  bool_decide (climb leaf (siblings p) = root).

Definition genesis_metadata : bytes := list_byte_of_string "genesis".

(** [MerkleChainAudit.__init__] for a given (non-empty) chain id. *)
Definition chain_init (chain_id : string) (nonce0 : bytes) : result pyexn MerkleChainAudit :=
  let genesis_commitment := _compute_commitment
    (JObj [("event", JStr "chain_created"); ("chain_id", JStr chain_id); ("version", JStr "1.0")]%string)
    None in
  genesis_hash ← _compute_block_hash 0 zero32 genesis_commitment 0 genesis_metadata;
  let g := mkBlock 0 zero32 0 genesis_commitment genesis_metadata genesis_hash nonce0 in
  Ok (mkChain chain_id [g] false None g).

Definition tip (c : MerkleChainAudit) : result pyexn AuditBlock := py_index_z (_blocks c) (-1).
Definition tip_hash (c : MerkleChainAudit) : result pyexn bytes := b ← tip c; Ok (block_hash b).
Definition chain_height (c : MerkleChainAudit) : Z := Z.of_nat (length (_blocks c)).

(** One pass of the inner loop of [_build_levels] and [_build_merkle_tree]:
    pairs are hashed, a last odd node is promoted. *)
Fixpoint next_level (level : list bytes) : list bytes :=
  match level with
  | [] => []
  | [x] => [x]
  | x :: y :: rest => _hash (x ++ y) :: next_level rest
  end.

(** The [while len(levels[-1]) > 1] loop. *)
Fixpoint levels_from (fuel : nat) (level : list bytes) : list (list bytes) :=
  match fuel with
  | 0 => [level]
  | S fuel => if 1 <? length level then level :: levels_from fuel (next_level level) else [level]
  end.

(** [_build_levels]: returns the levels and fills the memo. *)
Definition _build_levels (c : MerkleChainAudit) : MerkleChainAudit * list (list bytes) :=
  match _tree_levels c with
  | Some levels => (c, levels)
  | None =>
      let leaves := map block_hash (_blocks c) in
      let levels := levels_from (length leaves) leaves in
      (mkChain (_chain_id c) (_blocks c) (_dirty c) (Some levels) (_genesis c), levels)
  end.

(** [self._build_levels()[-1][0]] *)
Definition root (c : MerkleChainAudit) : MerkleChainAudit * result pyexn bytes :=
  let '(c, levels) := _build_levels c in
  (c, top ← py_index_z levels (-1); py_index top 0).

Definition _build_merkle_root (c : MerkleChainAudit) : MerkleChainAudit * result pyexn bytes :=
  match _blocks c with
  | [] => (c, Ok zero32)
  | _ => root c
  end.

(** [_build_merkle_tree]: keeps only the current level. *)
Fixpoint merkle_tree_loop (fuel : nat) (level : list bytes) : list bytes :=
  match fuel with
  | 0 => level
  | S fuel => if 1 <? length level then merkle_tree_loop fuel (next_level level) else level
  end.

Definition _build_merkle_tree (leaves : list bytes) : list bytes :=
  match leaves with
  | [] => []
  | _ => merkle_tree_loop (length leaves) leaves
  end.

(** [append(payload, metadata)] at clock reading [now]; the metadata argument
    is [metadata or {}]. *)
Definition append (c : MerkleChainAudit) (payload metadata : json) (now : Q) (nonce : bytes)
    : result pyexn (MerkleChainAudit * AuditBlock) :=
  prev ← tip c;
  let idx := (index prev + 1)%Z in
  let comm := _compute_commitment payload None in
  let meta_bytes := serialize_to_bytes metadata in
  h ← _compute_block_hash idx (block_hash prev) comm now meta_bytes;
  let block := mkBlock idx (block_hash prev) now comm meta_bytes h nonce in
  ok ← block_verify block;
  if negb ok then Err RuntimeError
  else Ok (mkChain (_chain_id c) (_blocks c ++ [block]) true None (_genesis c), block).

(** The loop of [verify_chain]; [prev] is the hash of the preceding block. *)
Fixpoint verify_blocks (prev : option bytes) (blocks : list AuditBlock) : result pyexn bool :=
  match blocks with
  | [] => Ok true
  | b :: rest =>
      ok ← block_verify b;
      if negb ok then Ok false
      else if bool_decide (prev = None ∨ prev = Some (prev_hash b))
           then verify_blocks (Some (block_hash b)) rest
           else Ok false
  end.

Definition verify_chain (c : MerkleChainAudit) : result pyexn bool :=
  verify_blocks None (_blocks c).

(** The loop of [prove_inclusion] over [levels[:-1]]. *)
Fixpoint collect_siblings (levels : list (list bytes)) (idx : nat)
    : result pyexn (list (bytes * bool)) :=
  match levels with
  | [] => Ok []
  | level :: rest =>
      here ← (if idx mod 2 =? 0
              then if idx + 1 <? length level
                   then s ← py_index level (idx + 1); Ok [(s, false)]
                   else Ok []
              else s ← py_index level (idx - 1); Ok [(s, true)]);
      more ← collect_siblings rest (idx / 2);
      Ok (here ++ more)
  end.

Definition prove_inclusion (c : MerkleChainAudit) (block_index : Z)
    : MerkleChainAudit * result pyexn (option MerkleProof) :=
  if (block_index <? 0)%Z || (Z.of_nat (length (_blocks c)) <=? block_index)%Z
  then (c, Ok None)
  else
    let '(c, levels) := _build_levels c in
    (c,
     block ← py_index_z (_blocks c) block_index;
     level0 ← py_index levels 0;
     if length level0 =? 1 then Ok (Some (mkProof block_index (block_hash block) []))
     else
       sibs ← collect_siblings (take (length levels - 1) levels) (Z.to_nat block_index);
       Ok (Some (mkProof block_index (block_hash block) sibs))).

Definition verify_proof (c : MerkleChainAudit) (p : MerkleProof)
    : MerkleChainAudit * result pyexn bool :=
  if (Z.of_nat (length (_blocks c)) <=? proof_index p)%Z then (c, Ok false)
  else
    match py_index_z (_blocks c) (proof_index p) with
    | Err e => (c, Err e)
    | Ok block =>
        let leaf := block_hash block in
        if bool_decide (leaf ≠ proof_hash p) then (c, Ok false)
        else
          let '(c, r) := root c in
          (c, rt ← r; Ok (proof_verify p rt leaf))
    end.

Definition get_block (c : MerkleChainAudit) (idx : Z) : option AuditBlock :=
  if (0 <=? idx)%Z && (idx <? Z.of_nat (length (_blocks c)))%Z
  then _blocks c !! Z.to_nat idx else None.

Definition export_blocks (c : MerkleChainAudit) : list block_export :=
  map (λ b, mkExport (index b) (hex (prev_hash b)) (timestamp b) (hex (commitment b))
              (hex (block_hash b))
              (utf8_decode_replace (metadata b))) (_blocks c).

Definition import_block (nonce : bytes) (bd : block_export) : result pyexn AuditBlock :=
  ph ← fromhex (x_prev_hash bd);
  cm ← fromhex (x_commitment bd);
  bh ← fromhex (x_block_hash bd);
  Ok (mkBlock (x_index bd) ph (x_timestamp bd) cm (utf8_encode (x_metadata bd)) bh nonce).

(** The loop of [import_blocks]: entries of index 0 are skipped. *)
Fixpoint import_loop (nonces : nat → bytes) (blocks_data : list block_export)
    : result pyexn (list AuditBlock) :=
  match blocks_data with
  | [] => Ok []
  | bd :: rest =>
      if (x_index bd =? 0)%Z then import_loop nonces rest
      else
        b ← import_block (nonces (length rest)) bd;
        more ← import_loop nonces rest;
        Ok (b :: more)
  end.

(** [import_blocks]; [nonces] supplies the fresh random nonces. *)
Definition import_blocks (chain_id : string) (nonce0 : bytes) (nonces : nat → bytes)
    (blocks_data : list block_export) : result pyexn MerkleChainAudit :=
  c ← chain_init chain_id nonce0;
  imported ← import_loop nonces blocks_data;
  let c := mkChain (_chain_id c) (_genesis c :: imported) (_dirty c) None (_genesis c) in
  ok ← verify_chain c;
  if negb ok then Err ValueError else Ok c.

Definition direction (sib : bytes * bool) : string :=
  if sib.2 then "left"%string else "right"%string.

Definition create_audit_proof (c : MerkleChainAudit) (task_id tenant_id : string)
    (now : Q) (nonce : bytes) : result pyexn (MerkleChainAudit * audit_proof) :=
  '(c, block) ← append c
    (JObj [("task_id", JStr task_id); ("tenant_id", JStr tenant_id);
           ("event", JStr "task_completed")]%string)
    (JObj [("audit_type", JStr "solution_generation")]%string) now nonce;
  let '(c, p) := prove_inclusion c (index block) in
  p ← p;
  let '(c, r) := root c in
  r ← r;
  v ← verify_chain c;
  Ok (c, mkAuditProof (_chain_id c) (index block) (hex (block_hash block)) (hex r)
           (match p with
            | Some p =>
                Some (map (λ sib, hex sib.1) (siblings p), map direction (siblings p))
            | None => None
            end) v).

(** ** The tree over the block hashes *)

Lemma list_two_ind {A} (P : list A → Prop) :
  P [] → (∀ x, P [x]) → (∀ x y l, P l → P (x :: y :: l)) → ∀ l, P l.
Proof.
  intros H0 H1 H2. fix IH 1. intros [|x [|y l]]; [apply H0|apply H1|apply H2, IH].
Qed.

Lemma next_level_length level : length (next_level level) = (length level + 1) / 2.
Proof.
  induction level as [|x|x y l IH] using list_two_ind; [done|done|].
  cbn [next_level length]. rewrite IH.
  replace (S (S (length l)) + 1) with (length l + 1 + 1 * 2) by lia.
  rewrite Nat.div_add by lia. lia.
Qed.

(** What the parent level holds above a node. *)
Definition parent_of (level : list bytes) (idx : nat) (x : bytes) : bytes :=
  if idx mod 2 =? 0
  then match level !! (idx + 1) with Some s => _hash (x ++ s) | None => x end
  else match level !! (idx - 1) with Some s => _hash (s ++ x) | None => x end.

Lemma next_level_lookup level idx x :
  level !! idx = Some x → next_level level !! (idx / 2) = Some (parent_of level idx x).
Proof.
  revert idx. induction level as [|y|y z l IH] using list_two_ind; intros idx Hx; [done|..].
  - destruct idx; [|done]. injection Hx as ->. done.
  - destruct idx as [|[|idx]]; [by injection Hx as ->..|].
    cbn [next_level]. replace (S (S idx)) with (idx + 1 * 2) at 1 by lia.
    rewrite Nat.div_add, Nat.add_1_r by lia. change (l !! idx = Some x) in Hx.
    change ((?h :: ?t) !! S ?i) with (t !! i). rewrite (IH idx Hx). f_equal. unfold parent_of.
    replace (S (S idx)) with (idx + 1 * 2) by lia. rewrite Nat.Div0.mod_add.
    destruct (Nat.eqb_spec (idx mod 2) 0) as [E|E].
    + by replace (idx + 1 * 2 + 1) with (S (S (idx + 1))) by lia.
    + assert (idx ≠ 0) by (by intros ->).
      by replace (idx + 1 * 2 - 1) with (S (S (idx - 1))) by lia.
Qed.

Lemma levels_from_nonempty fuel level : levels_from fuel level ≠ [].
Proof. destruct fuel; cbn; [done|]. by case_match. Qed.

Lemma take_levels_cons (level : list bytes) ls :
  ls ≠ [] → take (length (level :: ls) - 1) (level :: ls) = level :: take (length ls - 1) ls.
Proof. intros Hne. destruct ls as [|a ls]; [done|]. cbn [length Nat.sub]. by rewrite Nat.sub_0_r. Qed.

Lemma collect_siblings_climb fuel level idx x :
  length level ≤ fuel → level !! idx = Some x →
  ∃ sibs r, collect_siblings (take (length (levels_from fuel level) - 1) (levels_from fuel level)) idx
            = Ok sibs
          ∧ last (levels_from fuel level) = Some [r] ∧ climb x sibs = r.
Proof.
  revert level idx x. induction fuel as [|fuel IH]; intros level idx x Hlen Hx.
  { destruct level; cbn in *; [done|lia]. }
  pose proof (lookup_lt_Some _ _ _ Hx) as Hlt. cbn [levels_from].
  destruct (Nat.ltb_spec 1 (length level)).
  2: { destruct level as [|y [|]]; cbn in *; try lia. destruct idx; [|done].
       injection Hx as ->. by exists [], x. }
  rewrite take_levels_cons by apply levels_from_nonempty.
  destruct (IH (next_level level) (idx / 2) (parent_of level idx x)) as (sibs & r & E1 & E2 & E3).
  { rewrite next_level_length. apply Nat.lt_succ_r, Nat.Div0.div_lt_upper_bound. lia. }
  { by apply next_level_lookup. }
  cbn [collect_siblings]. rewrite E1. unfold parent_of in E3. unfold py_index.
  assert (last (level :: levels_from fuel (next_level level)) = Some [r]) as Elast.
  { rewrite last_cons, E2. done. }
  destruct (Nat.eqb_spec (idx mod 2) 0) as [Ev|Od].
  - destruct (Nat.ltb_spec (idx + 1) (length level)) as [Hs|Hs].
    + destruct (lookup_lt_is_Some_2 level (idx + 1) Hs) as [s Es]. rewrite Es in *.
      bindsimp. by exists ((s, false) :: sibs), r.
    + rewrite (lookup_ge_None_2 _ _ Hs) in E3. bindsimp. by exists sibs, r.
  - assert (idx ≠ 0) by (by intros ->).
    destruct (lookup_lt_is_Some_2 level (idx - 1)) as [s Es]; [lia|]. rewrite Es in *.
    bindsimp. by exists ((s, true) :: sibs), r.
Qed.

Lemma merkle_tree_loop_last fuel level :
  last (levels_from fuel level) = Some (merkle_tree_loop fuel level).
Proof.
  revert level. induction fuel as [|fuel IH]; intros level; [done|].
  cbn [levels_from merkle_tree_loop]. destruct (1 <? length level); [|done].
  by rewrite last_cons, IH.
Qed.

Lemma build_merkle_tree_single leaves :
  leaves ≠ [] →
  ∃ r, _build_merkle_tree leaves = [r] ∧ last (levels_from (length leaves) leaves) = Some [r].
Proof.
  intros Hne. destruct leaves as [|x l] eqn:E; [done|]. rewrite <- E in *.
  destruct (collect_siblings_climb (length leaves) leaves 0 x) as (_ & r & _ & Hr & _);
    [done|by rewrite E|].
  exists r. split; [|done]. rewrite merkle_tree_loop_last in Hr. injection Hr as Hr.
  unfold _build_merkle_tree. rewrite E. rewrite <- E. done.
Qed.

(** ** The chain invariant *)

Record chain_inv (c : MerkleChainAudit) : Prop := {
  inv_genesis : ∃ n c0, chain_init (_chain_id c) n = Ok c0 ∧ _genesis c = _genesis c0;
  inv_head : _blocks c !! 0 = Some (_genesis c);
  inv_index : ∀ i b, _blocks c !! i = Some b → index b = Z.of_nat i;
  inv_verified : verify_chain c = Ok true;
  inv_cache : ∀ ls, _tree_levels c = Some ls →
    ls = levels_from (length (_blocks c)) (map block_hash (_blocks c));
}.

Lemma block_verify_self idx ph ts cm meta h n :
  _compute_block_hash idx ph cm ts meta = Ok h →
  block_verify (mkBlock idx ph ts cm meta h n) = Ok true.
Proof. intros E. unfold block_verify. cbn. rewrite E. cbn. by rewrite bool_decide_true. Qed.

Lemma chain_init_ok cid n : ∃ c, chain_init cid n = Ok c ∧ chain_inv c.
Proof.
  unfold chain_init. set (cm := _compute_commitment _ _).
  destruct (_compute_block_hash 0 zero32 cm 0 genesis_metadata) as [h|] eqn:E; [|done].
  bindsimp. eexists. split; [done|]. split; cbn.
  - exists n. eexists. unfold chain_init. fold cm. rewrite E. by bindsimp.
  - done.
  - intros [|i] b; [|done]. by intros [= <-].
  - unfold verify_chain. cbn [_blocks verify_blocks].
    rewrite (block_verify_self _ _ _ _ _ _ _ E). bindsimp. cbn [negb].
    done.
  - done.
Qed.

Lemma verify_blocks_snoc p bs b :
  verify_blocks p (bs ++ [b]) = Ok true ↔
  verify_blocks p bs = Ok true ∧ block_verify b = Ok true ∧
  match last bs with
  | Some b' => prev_hash b = block_hash b'
  | None => p = None ∨ p = Some (prev_hash b)
  end.
Proof.
  assert (∀ (P : Prop) e, (Err e = Ok true ↔ Err e = @Ok pyexn bool true ∧ P)) as Herr by naive_solver.
  assert (∀ (P : Prop), (Ok false = Ok true ↔ Ok false = @Ok pyexn bool true ∧ P)) as Hfalse by naive_solver.
  revert p. induction bs as [|b0 bs IH]; intros p.
  - cbn [app verify_blocks last]. destruct (block_verify b) as [[]|]; bindsimp; cbn [negb].
    + case_bool_decide as Hd; [tauto|]. split; [done|tauto].
    + split; [done|]. by intros (_ & ? & _).
    + split; [done|]. by intros (_ & ? & _).
  - cbn [app verify_blocks]. destruct (block_verify b0) as [[]|]; bindsimp; cbn [negb]; [|auto..].
    case_bool_decide; [|auto]. rewrite IH, last_cons. destruct (last bs); [done|].
    split; (intros (? & ? & Hx); split_and!; [done|done|]); [|right]; intuition congruence.
Qed.

Lemma tip_last c b : tip c = Ok b ↔ last (_blocks c) = Some b.
Proof.
  unfold tip, py_index_z. cbn [Z.leb]. rewrite last_lookup.
  change (0 <=? -1)%Z with false. cbn iota. destruct (_blocks c) as [|b0 bs] eqn:E; [done|].
  destruct (Z.leb_spec 0 (Z.of_nat (length (b0 :: bs)) + -1)); [|cbn in *; lia].
  unfold py_index. replace (Z.to_nat _) with (pred (length (b0 :: bs))) by (cbn [length]; lia).
  destruct (_ !! _); naive_solver.
Qed.

Lemma inv_tip c : chain_inv c → ∃ b, tip c = Ok b ∧ last (_blocks c) = Some b
  ∧ index b = (chain_height c - 1)%Z.
Proof.
  intros Hc. pose proof (inv_head _ Hc) as Hh. pose proof (lookup_lt_Some _ _ _ Hh).
  destruct (last (_blocks c)) as [b|] eqn:E; [|apply last_None in E; by rewrite E in Hh].
  exists b. split_and!; [by apply tip_last|done|]. rewrite last_lookup in E.
  rewrite (inv_index _ Hc _ _ E). unfold chain_height. lia.
Qed.

Lemma append_ok_inv c payload meta now n c' b :
  chain_inv c → append c payload meta now n = Ok (c', b) →
  chain_inv c' ∧ _blocks c' = _blocks c ++ [b] ∧ index b = chain_height c
  ∧ commitment b = _compute_commitment payload None ∧ _chain_id c' = _chain_id c.
Proof.
  intros Hc E. destruct (inv_tip c Hc) as (t & Ht & Hlast & Hidx).
  unfold append in E. rewrite Ht in E. cbn [mbind result_bind] in E.
  destruct (_compute_block_hash (index t + 1) (block_hash t) (_compute_commitment payload None) now
              (serialize_to_bytes meta)) as [h|] eqn:Eh; [|done].
  cbn [mbind result_bind] in E. rewrite (block_verify_self _ _ _ _ _ _ n Eh) in E.
  cbn [mbind result_bind negb] in E. injection E as <- <-. cbn [index commitment _blocks _chain_id].
  split_and!; [|done|lia|done|done]. destruct Hc as [Hg Hhd Hix Hv _].
  split; cbn [_chain_id _genesis _blocks _tree_levels]; try done.
  - apply lookup_app_l_Some, Hhd.
  - intros i b [Hb|[Hi Hb]]%lookup_app_Some; [by apply Hix|].
    apply list_lookup_singleton_Some in Hb as [Hi' <-]. cbn. rewrite Hidx. unfold chain_height. lia.
  - unfold verify_chain. apply verify_blocks_snoc. cbn [_blocks]. rewrite Hlast.
    split_and!; [apply Hv|by apply block_verify_self|done].
Qed.

Lemma to_bytes_ok z : (0 <= z < 2 ^ 64)%Z → to_bytes_8_big z = Ok (be_bytes 8 z).
Proof.
  intros [H1 H2]. unfold to_bytes_8_big. apply Z.leb_le in H1 as ->. by apply Z.ltb_lt in H2 as ->.
Qed.

Lemma append_succeeds c payload meta now n :
  chain_inv c → (chain_height c < 2 ^ 64)%Z →
  (0 <= Qtrunc (now * 1000000) < 2 ^ 64)%Z →
  ∃ c' b, append c payload meta now n = Ok (c', b).
Proof.
  intros Hc Hh Hts. destruct (inv_tip c Hc) as (t & Ht & Hlast & Hidx).
  unfold append. rewrite Ht. cbn [mbind result_bind].
  assert (0 <= index t + 1 < 2 ^ 64)%Z by (unfold chain_height in *; lia).
  unfold _compute_block_hash at 1. rewrite !to_bytes_ok by done. cbn [mbind result_bind].
  erewrite block_verify_self; [bindsimp; cbn [negb]; eauto|].
  unfold _compute_block_hash. by rewrite !to_bytes_ok by done.
Qed.

Lemma build_levels_inv c :
  chain_inv c →
  let levels := levels_from (length (_blocks c)) (map block_hash (_blocks c)) in
  ∃ c', _build_levels c = (c', levels) ∧ chain_inv c' ∧ _blocks c' = _blocks c
      ∧ _tree_levels c' = Some levels ∧ _chain_id c' = _chain_id c.
Proof.
  intros Hc levels. unfold _build_levels. destruct (_tree_levels c) as [ls|] eqn:E.
  - pose proof (inv_cache _ Hc ls E) as ->. by exists c.
  - rewrite length_map. eexists. split; [done|]. split; [|done].
    destruct Hc. split; try done. by intros ls [= <-].
Qed.

Lemma inv_levels_top c :
  chain_inv c → ∃ r, last (levels_from (length (_blocks c)) (map block_hash (_blocks c))) = Some [r].
Proof.
  intros Hc. pose proof (inv_head _ Hc) as Hh.
  destruct (collect_siblings_climb (length (_blocks c)) (map block_hash (_blocks c)) 0
              (block_hash (_genesis c))) as (_ & r & _ & E & _).
  - by rewrite length_map.
  - by rewrite list_lookup_fmap, Hh.
  - by exists r.
Qed.

Lemma py_index_z_last {A} (l : list A) x : last l = Some x → py_index_z l (-1) = Ok x.
Proof.
  intros E. unfold py_index_z. change (0 <=? -1)%Z with false. cbn iota.
  rewrite last_lookup in E. pose proof (lookup_lt_Some _ _ _ E).
  destruct (Z.leb_spec 0 (Z.of_nat (length l) + -1)); [|lia].
  unfold py_index. replace (Z.to_nat _) with (pred (length l)) by lia. by rewrite E.
Qed.

Lemma root_inv c :
  chain_inv c →
  ∃ c' r, root c = (c', Ok r) ∧ chain_inv c' ∧ _blocks c' = _blocks c ∧ _chain_id c' = _chain_id c
        ∧ last (levels_from (length (_blocks c)) (map block_hash (_blocks c))) = Some [r].
Proof.
  intros Hc. destruct (build_levels_inv c Hc) as (c' & E & Hc' & Hb & _ & Hid).
  destruct (inv_levels_top c Hc) as [r Hr]. unfold root. rewrite E.
  exists c', r. rewrite (py_index_z_last _ _ Hr). done.
Qed.

Lemma prove_inclusion_inv c i b :
  chain_inv c → _blocks c !! i = Some b →
  ∃ c' p r, prove_inclusion c (Z.of_nat i) = (c', Ok (Some p)) ∧ chain_inv c'
    ∧ _blocks c' = _blocks c ∧ _chain_id c' = _chain_id c
    ∧ proof_index p = Z.of_nat i ∧ proof_hash p = block_hash b
    ∧ last (levels_from (length (_blocks c)) (map block_hash (_blocks c))) = Some [r]
    ∧ climb (block_hash b) (siblings p) = r.
Proof.
  intros Hc Hb. pose proof (lookup_lt_Some _ _ _ Hb) as Hlt. unfold prove_inclusion.
  destruct (Z.ltb_spec (Z.of_nat i) 0); [lia|].
  destruct (Z.leb_spec (Z.of_nat (length (_blocks c))) (Z.of_nat i)); [lia|]. cbn [orb].
  destruct (build_levels_inv c Hc) as (c' & -> & Hc' & Hbl & _ & Hid).
  destruct (collect_siblings_climb (length (_blocks c)) (map block_hash (_blocks c)) i (block_hash b))
    as (sibs & r & E1 & E2 & E3).
  { by rewrite length_map. }
  { by rewrite list_lookup_fmap, Hb. }
  rewrite Hbl. unfold py_index_z. destruct (Z.leb_spec 0 (Z.of_nat i)); [|lia].
  unfold py_index. rewrite Nat2Z.id, Hb. bindsimp.
  assert (∃ ls, levels_from (length (_blocks c)) (map block_hash (_blocks c))
                = map block_hash (_blocks c) :: ls) as [ls El].
  { destruct (length (_blocks c)); cbn; [lia|]. case_match; eauto. }
  rewrite El in *. cbn [lookup list_lookup]. bindsimp.
  destruct (Nat.eqb_spec (length (map block_hash (_blocks c))) 1) as [E|E].
  - exists c', (mkProof (Z.of_nat i) (block_hash b) []), r. cbn. split_and!; try done.
    rewrite length_map in E. destruct (_blocks c) as [|b0 [|]] eqn:Eb; cbn in *; try lia.
    destruct i; [|done]. injection Hb as ->. injection El as <-. cbn in E2. by injection E2.
  - rewrite E1. bindsimp. exists c', (mkProof (Z.of_nat i) (block_hash b) sibs), r. done.
Qed.

(** ** Tamper evidence *)

Lemma byte_of_mod z : Byte.to_N (default Byte.x00 (Byte.of_N (Z.to_N (z mod 256)))) = Z.to_N (z mod 256).
Proof.
  pose proof (Z.mod_pos_bound z 256 ltac:(lia)).
  destruct (Byte.of_N (Z.to_N (z mod 256))) as [x|] eqn:E.
  - by apply Byte.to_of_N in E.
  - apply Byte.of_N_None_iff in E. lia.
Qed.

Lemma be_bytes_length n z : length (be_bytes n z) = n.
Proof. revert z. induction n; intros; cbn; [done|]. rewrite length_app, IHn. cbn. lia. Qed.

Lemma be_bytes_inj n z z' :
  (0 <= z < 256 ^ Z.of_nat n)%Z → (0 <= z' < 256 ^ Z.of_nat n)%Z →
  be_bytes n z = be_bytes n z' → z = z'.
Proof.
  revert z z'. induction n as [|n IH]; intros z z' Hz Hz' E.
  - cbn in *. lia.
  - cbn [be_bytes] in E. apply app_inj_2 in E as [E1 [= E2]]; [|done].
    apply (f_equal Byte.to_N) in E2. rewrite !byte_of_mod in E2.
    rewrite Nat2Z.inj_succ, Z.pow_succ_r in * by lia.
    pose proof (Z.mod_pos_bound z 256 ltac:(lia)). pose proof (Z.mod_pos_bound z' 256 ltac:(lia)).
    assert (z / 256 = z' / 256)%Z by
      (apply IH; [split; [apply Z.div_pos; lia|apply Z.div_lt_upper_bound; lia]..|done]).
    rewrite (Z.div_mod z 256), (Z.div_mod z' 256) by lia. lia.
Qed.

(** What a block's hash commits to. *)
Definition block_message (b : AuditBlock) : bytes :=
  be_bytes 8 (index b) ++ prev_hash b ++ commitment b ++
  be_bytes 8 (Qtrunc (timestamp b * 1000000)) ++ metadata b.

Definition committed (b : AuditBlock) : Z * bytes * bytes * Z * bytes * bytes :=
  (index b, prev_hash b, commitment b, Qtrunc (timestamp b * 1000000), metadata b, block_hash b).

Definition wf_block (b : AuditBlock) : bool :=
  (length (prev_hash b) =? 32) && (length (commitment b) =? 32).

Lemma to_bytes_inv z bs : to_bytes_8_big z = Ok bs → (0 <= z < 2 ^ 64)%Z ∧ bs = be_bytes 8 z.
Proof.
  unfold to_bytes_8_big. destruct (Z.leb_spec 0 z), (Z.ltb_spec z (2 ^ 64)); cbn [andb]; try done.
  intros [= <-]. split; [lia|done].
Qed.

Lemma block_verify_inv b :
  block_verify b = Ok true →
  (0 <= index b < 2 ^ 64)%Z ∧ (0 <= Qtrunc (timestamp b * 1000000) < 2 ^ 64)%Z
  ∧ block_hash b = blake2b (block_message b).
Proof.
  unfold block_verify, _compute_block_hash. intros E.
  destruct (to_bytes_8_big (index b)) as [i|] eqn:Ei; [|done]. cbn [mbind result_bind] in E.
  destruct (to_bytes_8_big (Qtrunc (timestamp b * 1000000))) as [ts|] eqn:Et; [|done].
  cbn [mbind result_bind] in E. injection E as E%bool_decide_eq_true.
  apply to_bytes_inv in Ei as [? ->], Et as [? ->]. split_and!; try lia. by rewrite <- E.
Qed.

Lemma block_message_inj b b' :
  block_verify b = Ok true → block_verify b' = Ok true →
  wf_block b = true → wf_block b' = true →
  block_message b = block_message b' → block_hash b = block_hash b' → committed b = committed b'.
Proof.
  intros (Hi & Ht & _)%block_verify_inv (Hi' & Ht' & _)%block_verify_inv W W' E Eh.
  unfold wf_block in *. apply andb_true_iff in W as [W1%Nat.eqb_eq W2%Nat.eqb_eq].
  apply andb_true_iff in W' as [W1'%Nat.eqb_eq W2'%Nat.eqb_eq].
  unfold block_message in E.
  apply app_inj_1 in E as [E1 E]; [|by rewrite !be_bytes_length].
  apply app_inj_1 in E as [E2 E]; [|lia]. apply app_inj_1 in E as [E3 E]; [|lia].
  apply app_inj_1 in E as [E4 E5]; [|by rewrite !be_bytes_length].
  apply be_bytes_inj in E1; [|cbn; lia..]. apply be_bytes_inj in E4; [|cbn; lia..].
  unfold committed. congruence.
Qed.

Lemma tamper_evident bs bs' :
  verify_blocks None bs = Ok true → verify_blocks None bs' = Ok true →
  forallb wf_block bs = true → forallb wf_block bs' = true →
  collision_free blake2b (map block_message bs) (map block_message bs') = true →
  length bs = length bs' → block_hash <$> last bs = block_hash <$> last bs' →
  map committed bs = map committed bs'.
Proof.
  intros V V' W W' Hcf. assert (∀ b b', b ∈ bs → b' ∈ bs' →
    blake2b (block_message b) = blake2b (block_message b') → block_message b = block_message b') as Hc.
  { intros b b' Hb Hb'. apply (collision_free_use _ _ _ _ _ Hcf); by apply list_elem_of_fmap_2. }
  clear Hcf. revert bs' V V' W W' Hc. induction bs as [|b bs IH] using rev_ind; intros bs'.
  { intros _ _ _ _ _ E. by destruct bs'. }
  destruct bs' as [|b' bs' _] using rev_ind; intros V V' W W' Hc Hlen Htip.
  { rewrite length_app in Hlen. cbn in Hlen. lia. }
  rewrite !last_snoc in Htip. injection Htip as Htip.
  rewrite forallb_app in W, W'. cbn in W, W'.
  apply andb_true_iff in W as [W [Wb _]%andb_true_iff], W' as [W' [Wb' _]%andb_true_iff].
  apply verify_blocks_snoc in V as (V & Vb & L), V' as (V' & Vb' & L').
  assert (committed b = committed b') as Ec.
  { apply block_message_inj; try done. apply Hc; [set_solver..|].
    apply block_verify_inv in Vb as (_ & _ & <-), Vb' as (_ & _ & <-). done. }
  rewrite !length_app in Hlen. cbn in Hlen. rewrite !map_app. cbn. f_equal; [|by rewrite Ec].
  apply IH; try done; [set_solver|lia|].
  unfold committed in Ec. injection Ec as _ Ep _ _ _ _.
  destruct (last bs) eqn:E1, (last bs') eqn:E2; cbn; try congruence.
  - apply last_None in E2 as ->. destruct bs; cbn in *; [done|lia].
  - apply last_None in E1 as ->. destruct bs'; cbn in *; [done|lia].
Qed.

(** ** Export and import *)

Definition erase_nonce (b : AuditBlock) : AuditBlock :=
  mkBlock (index b) (prev_hash b) (timestamp b) (commitment b) (metadata b) (block_hash b) [].

Lemma verify_blocks_nonce p bs bs' :
  map erase_nonce bs = map erase_nonce bs' → verify_blocks p bs = verify_blocks p bs'.
Proof.
  revert p bs'. induction bs as [|b bs IH]; intros p [|b' bs'] E; try done.
  cbn in E. injection E as E1 E2 E3 E4 E5 E6 E7. cbn [verify_blocks].
  unfold block_verify. rewrite E1, E2, E3, E4, E5, E6. by rewrite (IH _ bs' E7).
Qed.

Lemma import_export_loop ns bs :
  Forall (λ b, index b ≠ 0%Z ∧ utf8_encode (utf8_decode_replace (metadata b)) = metadata b) bs →
  ∃ bs', import_loop ns (map (λ b, mkExport (index b) (hex (prev_hash b)) (timestamp b)
              (hex (commitment b)) (hex (block_hash b)) (utf8_decode_replace (metadata b))) bs)
         = Ok bs' ∧ map erase_nonce bs' = map erase_nonce bs.
Proof.
  induction 1 as [|b bs [Hi Hm] _ (bs' & IH & E)]; [by exists []|].
  cbn [map import_loop x_index]. destruct (Z.eqb_spec (index b) 0); [done|].
  unfold import_block. cbn [x_prev_hash x_commitment x_block_hash x_metadata x_timestamp x_index].
  rewrite !fromhex_hex, IH, Hm. bindsimp. eexists. split; [done|]. cbn. by rewrite E.
Qed.

Lemma import_export c n ns :
  chain_inv c →
  (∀ b, b ∈ _blocks c → utf8_encode (utf8_decode_replace (metadata b)) = metadata b) →
  ∃ c', import_blocks (_chain_id c) n ns (export_blocks c) = Ok c'
      ∧ _chain_id c' = _chain_id c
      ∧ map erase_nonce (_blocks c') = map erase_nonce (_blocks c).
Proof.
  intros Hc Hm. destruct (inv_genesis _ Hc) as (n0 & c0 & E0 & Eg).
  pose proof (inv_head _ Hc) as Hh.
  destruct (_blocks c) as [|g bs] eqn:Eb; [done|]. injection Hh as ->.
  destruct (chain_init_ok (_chain_id c) n) as (c1 & E1 & _).
  assert (_chain_id c1 = _chain_id c ∧ erase_nonce (_genesis c1) = erase_nonce (_genesis c)) as [Hid Hg].
  { rewrite Eg. unfold chain_init in E0, E1.
    destruct (_compute_block_hash _ _ _ _ _); [|done]. cbn [mbind result_bind] in *.
    injection E0 as <-. by injection E1 as <-. }
  unfold import_blocks. rewrite E1. bindsimp. unfold export_blocks. rewrite Eb.
  cbn [map import_loop x_index]. rewrite (inv_index _ Hc 0 (_genesis c)) by (by rewrite Eb). cbn iota.
  destruct (import_export_loop ns bs) as (bs' & E & Ebs').
  { apply Forall_lookup_2. intros i b Hb. split; [|apply Hm; set_solver by eauto using list_elem_of_lookup_2].
    rewrite (inv_index _ Hc (S i) b) by (by rewrite Eb). lia. }
  change (Z.of_nat 0 =? 0)%Z with true. cbn iota. rewrite E. bindsimp.
  unfold verify_chain. cbn [_blocks].
  rewrite (verify_blocks_nonce None _ (_genesis c :: bs)) by (cbn; congruence).
  pose proof (inv_verified _ Hc) as V. unfold verify_chain in V. rewrite Eb in V. rewrite V.
  bindsimp. cbn [negb]. eexists. split; [done|]. cbn. split; [done|]. congruence.
Qed.

(** The chains the constructor and the mutating or memoising calls produce. *)
Inductive chain_reach : MerkleChainAudit → Prop :=
| reach_init cid n c : chain_init cid n = Ok c → chain_reach c
| reach_append c payload meta now n c' b :
    chain_reach c → append c payload meta now n = Ok (c', b) → chain_reach c'
| reach_root c : chain_reach c → chain_reach (root c).1
| reach_prove c i : chain_reach c → chain_reach (prove_inclusion c i).1.

Lemma reach_inv c : chain_reach c → chain_inv c.
Proof.
  induction 1 as [cid n c E|c payload meta now n c' b _ IH E|c _ IH|c i _ IH].
  - destruct (chain_init_ok cid n) as (c' & E' & Hc). congruence.
  - by apply (append_ok_inv _ _ _ _ _ _ _ IH E).
  - by destruct (root_inv c IH) as (c' & r & -> & Hc & _).
  - unfold prove_inclusion. case_match; [done|].
    destruct (build_levels_inv c IH) as (c' & -> & Hc' & _). done.
Qed.
End chain.

(** ** Claims *)

(** C4: in every chain obtained from the constructor by appends, root reads and
    inclusion proofs, [verify_chain] accepts, block [i] carries index [i] and the
    memoised tree never changes the root a fresh computation gives. *)
Theorem reachable_chain_valid blake2b serialize c :
  chain_reach blake2b serialize c →
  verify_chain blake2b c = Ok true
  ∧ (∀ i b, get_block c i = Some b → index b = i)
  ∧ (root blake2b c).2 =
    (root blake2b (mkChain (_chain_id c) (_blocks c) (_dirty c) None (_genesis c))).2.
Proof.
  intros Hc%reach_inv. split_and!.
  - apply Hc.
  - intros i b. unfold get_block.
    destruct (Z.leb_spec 0 i), (Z.ltb_spec i (Z.of_nat (length (_blocks c)))); cbn [andb]; try done.
    intros Hb%(inv_index _ _ _ Hc). lia.
  - unfold root, _build_levels. cbn. rewrite length_map.
    destruct (_tree_levels c) as [ls|] eqn:E; [|done]. by rewrite (inv_cache _ _ _ Hc ls E).
Qed.

(** [append] on a reachable chain succeeds whenever the next index and the
    clock reading in microseconds fit 8 bytes: the self-verification never
    fails, the old blocks are untouched and the new block commits to the payload. *)
Theorem append_total blake2b serialize c payload meta now n :
  chain_reach blake2b serialize c →
  (chain_height c < 2 ^ 64)%Z → (0 <= Qtrunc (now * 1000000) < 2 ^ 64)%Z →
  ∃ c' b, append blake2b serialize c payload meta now n = Ok (c', b)
    ∧ _blocks c' = _blocks c ++ [b]
    ∧ index b = chain_height c
    ∧ commitment b = blake2b (serialize payload).
Proof.
  intros Hc%reach_inv Hh Ht.
  destruct (append_succeeds blake2b serialize c payload meta now n Hc Hh Ht) as (c' & b & E).
  destruct (append_ok_inv _ _ _ _ _ _ _ _ _ Hc E) as (_ & Hb & Hi & Hcm & _). eauto 10.
Qed.

(** every block of a reachable chain has an inclusion proof, and
    [verify_proof] accepts it: the path of hashes, with odd nodes promoted, folds
    to the Merkle root. *)
Theorem chain_inclusion_complete blake2b serialize c i b :
  chain_reach blake2b serialize c → _blocks c !! i = Some b →
  ∃ p, (prove_inclusion blake2b c (Z.of_nat i)).2 = Ok (Some p)
     ∧ proof_hash p = block_hash b
     ∧ (verify_proof blake2b (prove_inclusion blake2b c (Z.of_nat i)).1 p).2 = Ok true.
Proof.
  intros Hc%reach_inv Hb. pose proof (lookup_lt_Some _ _ _ Hb) as Hlt.
  destruct (prove_inclusion_inv _ _ c i b Hc Hb)
    as (c' & p & r & -> & Hc' & Hbl & _ & Hpi & Hph & Hlast & Hcl).
  exists p. split_and!; [done|done|]. cbn [fst]. unfold verify_proof. rewrite Hbl, Hpi.
  destruct (Z.leb_spec (Z.of_nat (length (_blocks c))) (Z.of_nat i)); [lia|].
  unfold py_index_z. destruct (Z.leb_spec 0 (Z.of_nat i)); [|lia].
  unfold py_index. rewrite Nat2Z.id, Hb. rewrite bool_decide_false by congruence.
  destruct (root_inv _ _ c' Hc') as (c'' & r' & -> & _ & _ & _ & Hlast'). cbn [snd]. bindsimp.
  rewrite Hbl, Hlast in Hlast'. injection Hlast' as <-.
  unfold proof_verify. by rewrite bool_decide_true.
Qed.

(** What [create_audit_proof] hands out is checkable: the chain is reported
    verified, and its hex siblings and directions are those of a path that
    climbs from the reported block hash to the reported root. *)
Theorem create_audit_proof_checkable blake2b serialize c task tenant now n c' ap :
  chain_reach blake2b serialize c →
  create_audit_proof blake2b serialize c task tenant now n = Ok (c', ap) →
  ap_verified ap = true ∧ chain_reach blake2b serialize c' ∧
  ∃ sibs leaf, ap_proof ap = Some (map (λ sib, hex sib.1) sibs, map direction sibs)
    ∧ ap_block_hash ap = hex leaf ∧ ap_root ap = hex (climb blake2b leaf sibs)
    ∧ (∃ b, last (_blocks c') = Some b ∧ block_hash b = leaf ∧ index b = ap_block_index ap).
Proof.
  intros Hr E. pose proof (reach_inv _ _ _ Hr) as Hc. unfold create_audit_proof in E.
  destruct (append _ _ _ _ _ _ _) as [[c1 b]|] eqn:Ea; [|done]. cbn [mbind result_bind] in E.
  pose proof (reach_append _ _ _ _ _ _ _ _ _ Hr Ea) as Hr1.
  destruct (append_ok_inv _ _ _ _ _ _ _ _ _ Hc Ea) as (Hc1 & Hb1 & Hi1 & _ & _).
  assert (_blocks c1 !! length (_blocks c) = Some b) as Hlk
    by (rewrite Hb1, lookup_app_r, Nat.sub_diag by lia; done).
  pose proof (reach_prove _ _ c1 (index b) Hr1) as Hr2.
  unfold chain_height in Hi1. rewrite Hi1 in *.
  destruct (prove_inclusion_inv _ _ c1 _ b Hc1 Hlk)
    as (c2 & p & r & Ep & Hc2 & Hb2 & _ & _ & _ & Hlast & Hcl).
  rewrite Ep in E, Hr2. cbn [fst mbind result_bind] in *.
  pose proof (reach_root _ _ c2 Hr2) as Hr3.
  destruct (root_inv _ _ c2 Hc2) as (c3 & r' & Er & Hc3 & Hb3 & _ & Hlast').
  rewrite Er in E, Hr3. cbn [fst mbind result_bind] in *.
  rewrite (inv_verified _ _ _ Hc3) in E. cbn [mbind result_bind] in E. injection E as <- <-.
  rewrite Hb2, Hlast in Hlast'. injection Hlast' as <-.
  cbn. split_and!; [done|done|]. exists (siblings p), (block_hash b).
  split_and!; [done|done|by rewrite Hcl|]. exists b.
  rewrite Hb3, Hb2, Hb1, last_snoc. done.
Qed.

(** C19: tamper evidence. Two chains whose blocks have 32-byte links and commitments (every block
    that [append] makes has; [verify_chain] does not look), which both verify and have equal
    length and equal tip hash, agree on everything the hashes cover (index, linkage, commitment,
    microsecond timestamp, metadata), unless two different block messages collide. *)
Theorem chain_tamper_evident blake2b c c' :
  verify_chain blake2b c = Ok true → verify_chain blake2b c' = Ok true →
  forallb wf_block (_blocks c) = true → forallb wf_block (_blocks c') = true →
  collision_free blake2b (map block_message (_blocks c)) (map block_message (_blocks c')) = true →
  chain_height c = chain_height c' → tip_hash c = tip_hash c' → _blocks c ≠ [] →
  map committed (_blocks c) = map committed (_blocks c').
Proof.
  intros V V' W W' Hcf Hh Ht Hne. unfold chain_height in Hh.
  apply (tamper_evident blake2b); try done; [lia|]. unfold tip_hash in Ht.
  destruct (last (_blocks c)) as [b|] eqn:E; [|by apply last_None in E].
  destruct (last (_blocks c')) as [b'|] eqn:E';
    [|apply last_None in E'; rewrite E' in Hh; destruct (_blocks c); cbn in *; [done|lia]].
  apply tip_last in E, E'. rewrite E, E' in Ht. injection Ht as Ht. cbn. by rewrite Ht.
Qed.

(** [import_blocks(chain_id, export_blocks())] rebuilds a reachable chain,
    random nonces apart (they are neither hashed nor exported), whenever the
    UTF-8 codec preserves the metadata bytes. *)
Theorem export_import_roundtrip blake2b serialize decode encode c n ns :
  chain_reach blake2b serialize c →
  (∀ b, b ∈ _blocks c → encode (decode (metadata b)) = metadata b) →
  ∃ c', import_blocks blake2b serialize encode (_chain_id c) n ns (export_blocks decode c) = Ok c'
      ∧ _chain_id c' = _chain_id c
      ∧ map erase_nonce (_blocks c') = map erase_nonce (_blocks c).
Proof. intros Hc%reach_inv. by apply import_export. Qed.

(** [_build_merkle_tree] (one level kept) and [_build_levels] (all levels
    kept) compute the same root for every non-empty list of block hashes. *)
Theorem merkle_tree_matches_levels blake2b c :
  _tree_levels c = None →
  (_build_merkle_root blake2b c).2 =
  match _build_merkle_tree blake2b (map block_hash (_blocks c)) with
  | r :: _ => Ok r
  | [] => Ok zero32
  end.
Proof.
  intros E. unfold _build_merkle_root. destruct (_blocks c) as [|b bs] eqn:Eb; [done|].
  rewrite <- Eb. destruct (build_merkle_tree_single blake2b (map block_hash (_blocks c)))
    as (r & -> & Hr); [by rewrite Eb|].
  unfold root, _build_levels. rewrite E. cbn [snd]. by rewrite (py_index_z_last _ _ Hr).
Qed.

(** [verify_chain] does not compare a block's index with its position, so
    [import_blocks] accepts an export whose first block after the genesis claims
    any index [k]; [create_audit_proof] then asks for the proof of a position
    that does not exist and hands out no proof. *)
Theorem import_accepts_index_gap blake2b serialize encode cid n ns k :
  (1 < k < 2 ^ 64 - 1)%Z →
  ∃ data c, import_blocks blake2b serialize encode cid n ns data = Ok c
    ∧ (∃ b, get_block c 1 = Some b ∧ index b = k)
    ∧ ∀ task tenant m c' ap,
        create_audit_proof blake2b serialize c task tenant 0 m = Ok (c', ap) → ap_proof ap = None.
Proof.
  intros Hk. destruct (chain_init_ok blake2b serialize cid n) as (c0 & E0 & Hc0).
  destruct (inv_tip _ _ c0 Hc0) as (g & _ & Hg & _).
  assert (_blocks c0 = [_genesis c0]) as Hb.
  { unfold chain_init in E0. destruct (_compute_block_hash _ _ _ _ _ _); [|done].
    by injection E0 as <-. }
  rewrite Hb in Hg. injection Hg as <-.
  set (h := blake2b (block_message (mkBlock k (block_hash (_genesis c0)) 0 zero32 (encode ""%string) [] []))).
  exists [mkExport k (hex (block_hash (_genesis c0))) 0 (hex zero32) (hex h) ""%string].
  unfold import_blocks. rewrite E0. bindsimp. cbn [import_loop x_index].
  destruct (Z.eqb_spec k 0); [lia|]. unfold import_block.
  cbn [x_prev_hash x_commitment x_block_hash x_metadata x_timestamp x_index].
  rewrite !fromhex_hex. bindsimp.
  set (blk := mkBlock k _ _ _ _ h _).
  assert (block_verify blake2b blk = Ok true) as Hblk.
  { apply block_verify_self. unfold _compute_block_hash. rewrite !to_bytes_ok; [done|(lia || (vm_compute; split; congruence))..]. }
  assert (verify_blocks blake2b None [_genesis c0; blk] = Ok true) as Hv.
  { apply (verify_blocks_snoc blake2b None [_genesis c0] blk). split_and!; [|done|done].
    pose proof (inv_verified _ _ _ Hc0) as V. unfold verify_chain in V. by rewrite Hb in V. }
  unfold verify_chain. cbn [_blocks]. rewrite Hv. bindsimp. cbn [negb].
  eexists. split; [done|]. split.
  { exists blk. done. }
  intros task tenant m c' ap E. unfold create_audit_proof in E.
  destruct (append _ _ _ _ _ _ _) as [[c1 b1]|] eqn:Ea; [|done]. cbn [mbind result_bind] in E.
  assert (index b1 = (k + 1)%Z ∧ length (_blocks c1) = 3) as [Hi Hl].
  { unfold append in Ea. change (tip _) with (@Ok pyexn AuditBlock blk) in Ea.
    cbn [mbind result_bind index block_hash] in Ea.
    destruct (_compute_block_hash blake2b (index blk + 1) _ _ _ _) as [h1|] eqn:Eh; [|done].
    cbn [mbind result_bind] in Ea. rewrite (block_verify_self _ _ _ _ _ _ _ m Eh) in Ea.
    by injection Ea as <- <-. }
  unfold prove_inclusion in E. rewrite Hi, Hl in E.
  destruct (Z.leb_spec (Z.of_nat 3) (k + 1)); [|lia]. rewrite orb_true_r in E.
  cbn [mbind result_bind] in E. destruct (root blake2b c1) as [c2 [r|]]; [|done].
  cbn [mbind result_bind] in E. destruct (verify_chain blake2b c2); [|done].
  by injection E as <- <-.
Qed.

(** ** Witnesses *)

Definition toy_serialize (_ : json) : bytes := list_byte_of_string "{}".

Definition or_empty (r : result pyexn (MerkleChainAudit * AuditBlock)) : MerkleChainAudit :=
  match r with
  | Ok (c, _) => c
  | Err _ => mkChain "" [] false None (mkBlock 0 [] 0 [] [] [] [])
  end.

Definition demo_chain0 : MerkleChainAudit := Eval vm_compute in
  or_empty (c ← chain_init toy_digest toy_serialize "demo" []; Ok (c, _genesis c)).
Definition demo_chain1 : MerkleChainAudit := Eval vm_compute in
  or_empty (append toy_digest toy_serialize demo_chain0 (JStr "a") (JObj []) 5 []).
Definition demo_chain : MerkleChainAudit := Eval vm_compute in
  or_empty (append toy_digest toy_serialize demo_chain1 (JStr "b") (JObj []) 6 []).

Lemma demo_chain_reach : chain_reach toy_digest toy_serialize demo_chain.
Proof.
  apply (reach_append _ _ demo_chain1 (JStr "b") (JObj []) 6 [] demo_chain
           (List.last (_blocks demo_chain) (_genesis demo_chain))); [|vm_compute; reflexivity].
  apply (reach_append _ _ demo_chain0 (JStr "a") (JObj []) 5 [] demo_chain1
           (List.last (_blocks demo_chain1) (_genesis demo_chain))); [|vm_compute; reflexivity].
  apply (reach_init _ _ "demo" []). vm_compute. reflexivity.
Qed.

Lemma reachable_chain_valid_witness : verify_chain toy_digest demo_chain = Ok true.
Proof. apply (reachable_chain_valid toy_digest toy_serialize demo_chain demo_chain_reach). Defined.

Lemma append_total_witness :
  ∃ c' b, append toy_digest toy_serialize demo_chain JNull (JObj []) 7 [] = Ok (c', b)
    ∧ _blocks c' = _blocks demo_chain ++ [b]
    ∧ index b = chain_height demo_chain
    ∧ commitment b = toy_digest (toy_serialize JNull).
Proof.
  apply (append_total toy_digest toy_serialize demo_chain JNull (JObj []) 7 []);
    [exact demo_chain_reach|vm_compute; reflexivity|vm_compute; split; congruence].
Defined.

Lemma chain_inclusion_complete_witness :
  ∃ p, (prove_inclusion toy_digest demo_chain 2).2 = Ok (Some p)
     ∧ (verify_proof toy_digest (prove_inclusion toy_digest demo_chain 2).1 p).2 = Ok true.
Proof.
  destruct (_blocks demo_chain !! 2) as [b|] eqn:E; [|vm_compute in E; discriminate].
  destruct (chain_inclusion_complete toy_digest toy_serialize demo_chain 2 b demo_chain_reach E)
    as (p & H1 & _ & H2).
  exists p. split; assumption.
Defined.

Lemma create_audit_proof_checkable_witness :
  match create_audit_proof toy_digest toy_serialize demo_chain "t1" "acme" 8 [] with
  | Ok (_, ap) => ap_verified ap = true
  | Err _ => False
  end.
Proof.
  destruct (create_audit_proof toy_digest toy_serialize demo_chain "t1" "acme" 8 [])
    as [[c' ap]|e] eqn:E; [|vm_compute in E; discriminate].
  apply (create_audit_proof_checkable toy_digest toy_serialize demo_chain "t1" "acme" 8 [] c' ap
           demo_chain_reach E).
Defined.

(** The demo chain with times that differ by a tenth of a microsecond, and other nonces. *)
Definition shifted_chain : MerkleChainAudit :=
  mkChain "copy" (map (λ b, mkBlock (index b) (prev_hash b) (timestamp b + (1 # 10000000)) (commitment b) (metadata b) (block_hash b) zero32) (_blocks demo_chain))
    true None (_genesis demo_chain).

Lemma chain_tamper_evident_witness : map committed (_blocks demo_chain) = map committed (_blocks shifted_chain).
Proof.
  apply (chain_tamper_evident toy_digest demo_chain shifted_chain);
    vm_compute; congruence.
Defined.

(** Without the condition on lengths it is false, whatever the hash function: the fields are hashed
    without their lengths, so that bytes can be moved from one field to the next.  Two chains of one
    block verify, have the same tip and differ in commitment and metadata. *)
Definition moved_bytes (blake2b : bytes → bytes) (n m : nat) : MerkleChainAudit :=
  let b h := mkBlock 0 zero32 0 (replicate n "000"%byte) (replicate m "000"%byte) h [] in
  let b := b (blake2b (block_message (b []))) in mkChain "x" [b] false None b.

Example short_commitment_undetected blake2b :
  let c := moved_bytes blake2b 32 1 in let c' := moved_bytes blake2b 31 2 in
  verify_chain blake2b c = Ok true ∧ verify_chain blake2b c' = Ok true ∧ chain_height c = chain_height c' ∧ tip_hash c = tip_hash c'
  ∧ map block_message (_blocks c) = map block_message (_blocks c') ∧ map committed (_blocks c) ≠ map committed (_blocks c').
Proof.
  assert (∀ n m, verify_chain blake2b (moved_bytes blake2b n m) = Ok true) as Hv.
  { intros n m. unfold verify_chain, moved_bytes. cbn [_blocks verify_blocks]. set (b := mkBlock _ _ _ _ _ _ _).
    assert (_compute_block_hash blake2b (index b) (prev_hash b) (commitment b) (timestamp b) (metadata b) = Ok (block_hash b)) as E by reflexivity.
    unfold block_verify. rewrite E. cbn [mbind result_bind]. rewrite bool_decide_eq_true_2 by done. cbn [negb]. by rewrite bool_decide_eq_true_2 by (by left). }
  split_and!; [apply Hv|apply Hv|done|vm_compute; reflexivity|vm_compute; reflexivity|vm_compute; congruence].
Qed.

Lemma export_import_roundtrip_witness :
  ∃ c', import_blocks toy_digest toy_serialize list_byte_of_string "demo" [] (λ _, [])
          (export_blocks string_of_list_byte demo_chain) = Ok c'
      ∧ map erase_nonce (_blocks c') = map erase_nonce (_blocks demo_chain).
Proof.
  destruct (export_import_roundtrip toy_digest toy_serialize string_of_list_byte list_byte_of_string
              demo_chain [] (λ _, []) demo_chain_reach) as (c' & E & _ & Hb).
  - intros b _. apply list_byte_of_string_of_list_byte.
  - exists c'. split; assumption.
Defined.

Lemma merkle_tree_matches_levels_witness :
  (_build_merkle_root toy_digest demo_chain).2 =
  match _build_merkle_tree toy_digest (map block_hash (_blocks demo_chain)) with
  | r :: _ => Ok r
  | [] => Ok zero32
  end.
Proof. apply (merkle_tree_matches_levels toy_digest demo_chain). vm_compute. reflexivity. Defined.

Lemma import_accepts_index_gap_witness :
  ∃ data c, import_blocks toy_digest toy_serialize list_byte_of_string "demo" [] (λ _, []) data = Ok c
    ∧ ∃ b, get_block c 1 = Some b ∧ index b = 7%Z.
Proof.
  destruct (import_accepts_index_gap toy_digest toy_serialize list_byte_of_string "demo" [] (λ _, []) 7)
    as (data & c & E & Hb & _); [lia|].
  exists data, c. split; assumption.
Defined.
