(* ===== verification/CircuitBreaker.v ===== *)
(** * Circuit breaker, retries and their combination
      ([noema/resilience/circuit_breaker.py])

    [CircuitBreaker.execute] awaits the protected coroutine between its guard
    and its bookkeeping, so it is modelled as two steps, [enter] and [leave],
    composed by [cb_execute] for a call nothing interleaves with; the
    interleaved executions of several calls are the step relation [cb_step].
    Clock readings ([time.monotonic()]) and durations are rationals. *)
From Stdlib Require Import ZArith QArith Lqa Lia Bool String.
From stdpp Require Import base option numbers sets list relations.
From S2P Require Import Prelude.
Local Open Scope Z_scope.

(** What an awaited coroutine may raise.  [Cancelled] is
    [asyncio.CancelledError], a [BaseException] that [except Exception] does
    not catch. *)
Inductive exn : Type :=
| CircuitBreakerError (recovery_at : Q)
| OtherException (cls : string)
| Cancelled.

Definition is_Exception (e : exn) : bool :=
  match e with Cancelled => false | _ => true end.

Inductive outcome (T : Type) : Type :=
| Returned (t : T)
| Raised (e : exn).
Arguments Returned {T} _.
Arguments Raised {T} _.

Inductive CircuitState : Type := CLOSED | OPEN | HALF_OPEN.

#[global] Instance CircuitState_eq_dec : EqDecision CircuitState.
Proof. solve_decision. Defined.

Record CircuitBreaker := mkBreaker {
  name : string;
  failure_threshold : Z;
  recovery_timeout : Q;
  half_open_max : Z;
  _state : CircuitState;
  _failure_count : Z;
  _success_count : Z;
  _last_failure_time : Q;
  _half_open_calls : Z;
}.

Definition cb_init (name : string) (failure_threshold : Z) (recovery_timeout : Q) (half_open_max : Z)
    : CircuitBreaker :=
  mkBreaker name failure_threshold recovery_timeout half_open_max CLOSED 0 0 0 0.

Definition with_state (b : CircuitBreaker) (st : CircuitState) : CircuitBreaker :=
  mkBreaker (name b) (failure_threshold b) (recovery_timeout b) (half_open_max b) st
    (_failure_count b) (_success_count b) (_last_failure_time b) (_half_open_calls b).

Definition with_half_open_calls (b : CircuitBreaker) (n : Z) : CircuitBreaker :=
  mkBreaker (name b) (failure_threshold b) (recovery_timeout b) (half_open_max b) (_state b)
    (_failure_count b) (_success_count b) (_last_failure_time b) n.

Definition with_counts (b : CircuitBreaker) (failures successes : Z) (last : Q) : CircuitBreaker :=
  mkBreaker (name b) (failure_threshold b) (recovery_timeout b) (half_open_max b) (_state b)
    failures successes last (_half_open_calls b).

(** The [state] property: reading it may move OPEN to HALF_OPEN. *)
Definition state (now : Q) (b : CircuitBreaker) : CircuitBreaker * CircuitState :=
  let b :=
    if bool_decide (_state b = OPEN) && Qle_bool (recovery_timeout b) (now - _last_failure_time b)
    then with_half_open_calls (with_state b HALF_OPEN) 0
    else b in
  (b, _state b).

Definition _on_success (b : CircuitBreaker) : CircuitBreaker :=
  let b := with_counts b 0 (_success_count b + 1) (_last_failure_time b) in
  if bool_decide (_state b = HALF_OPEN) then with_state b CLOSED else b.

Definition _on_failure (now : Q) (b : CircuitBreaker) : CircuitBreaker :=
  let b := with_counts b (_failure_count b + 1) 0 now in
  if bool_decide (_state b = HALF_OPEN) then with_state b OPEN
  else if failure_threshold b <=? _failure_count b then with_state b OPEN
  else b.

(** The guards of [execute], up to the [await]. *)
Definition enter (now : Q) (b : CircuitBreaker) : CircuitBreaker * option exn :=
  let '(b, current_state) := state now b in
  let rejected := CircuitBreakerError (_last_failure_time b + recovery_timeout b) in
  match current_state with
  | OPEN => (b, Some rejected)
  | HALF_OPEN =>
      if half_open_max b <=? _half_open_calls b then (b, Some rejected)
      else (with_half_open_calls b (_half_open_calls b + 1), None)
  | CLOSED => (b, None)
  end.

(** The bookkeeping of [execute] once the awaited call has finished. *)
Definition leave {T} (now : Q) (b : CircuitBreaker) (o : outcome T) : CircuitBreaker :=
  match o with
  | Returned _ => _on_success b
  | Raised (CircuitBreakerError _) => b
  | Raised (OtherException _) => _on_failure now b
  | Raised Cancelled => b
  end.

(** [CircuitBreaker.reset] *)
Definition reset (b : CircuitBreaker) : CircuitBreaker :=
  mkBreaker (name b) (failure_threshold b) (recovery_timeout b) (half_open_max b) CLOSED
    0 0 (_last_failure_time b) (_half_open_calls b).

Definition state_value (s : CircuitState) : string :=
  match s with CLOSED => "closed" | OPEN => "open" | HALF_OPEN => "half_open" end%string.

Record cb_stats := mkStats {
  st_name : string; st_state : string; st_failures : Z; st_successes : Z;
  st_threshold : Z; st_timeout : Q;
}.

(** [CircuitBreaker.stats]: reads [self.state], so it may mutate the breaker. *)
Definition stats (now : Q) (b : CircuitBreaker) : CircuitBreaker * cb_stats :=
  let '(b, s) := state now b in
  (b, mkStats (name b) (state_value s) (_failure_count b) (_success_count b)
        (failure_threshold b) (recovery_timeout b)).

Record RetryPolicy := mkRetry {
  rp_name : string;
  max_retries : Z;
  base_delay : Q;
  max_delay : Q;
  jitter : Q;
  retryable_exceptions : exn → bool;
  non_retryable_exceptions : exn → bool;
}.

(** [_calc_delay]; [u] in [-1, 1] is the random draw: [random.uniform(-r, r)]
    is [u * r]. *)
Definition _calc_delay (p : RetryPolicy) (u : Q) (attempt : nat) : Q :=
  let delay := (base_delay p * inject_Z (2 ^ Z.of_nat attempt))%Q in
  let jitter_range := (delay * jitter p)%Q in
  let delay := (delay + u * jitter_range)%Q in
  Qminb (Qmaxb delay (1 # 10)) (max_delay p).

Section exec.
(** The state of the rest of the program: the protected function, the clock and
    the random source read and change it. *)
Context {S T : Type}.
Context (clock : S → Q) (sleep : Q → S → S) (rand : S → S * Q).

Definition cb_execute (func : S → S * outcome T) (b : CircuitBreaker) (s : S)
    : CircuitBreaker * S * outcome T :=
  match enter (clock s) b with
  | (b, Some e) => (b, s, Raised e)
  | (b, None) => let '(s, o) := func s in (leave (clock s) b o, s, o)
  end.

(** The [for attempt in range(max_retries + 1)] loop of [RetryPolicy.execute];
    [remaining] iterations are left, [attempt] is the loop variable, [X] what the
    retried function changes.  [raise last_exc] with no exception recorded
    raises [TypeError]. *)
Fixpoint retry_loop {X} (p : RetryPolicy) (func : X → X * outcome T) (delay_state : Q → X → X)
    (draw : X → X * Q) (remaining attempt : nat) (last_exc : option exn) (x : X) : X * outcome T :=
  match remaining with
  | O =>
      (x, Raised (match last_exc with Some e => e | None => OtherException "TypeError" end))
  | Datatypes.S remaining =>
      let '(x, o) := func x in
      match o with
      | Returned t => (x, Returned t)
      | Raised e =>
          if is_Exception e && retryable_exceptions p e then
            if non_retryable_exceptions p e then (x, Raised e)
            else if Z.of_nat attempt <? max_retries p then
              let '(x, u) := draw x in
              retry_loop p func delay_state draw remaining (Datatypes.S attempt) (Some e)
                (delay_state (_calc_delay p u attempt) x)
            else retry_loop p func delay_state draw remaining (Datatypes.S attempt) (Some e) x
          else (x, Raised e)
      end
  end.

Definition retry_execute {X} (p : RetryPolicy) (func : X → X * outcome T) (delay_state : Q → X → X)
    (draw : X → X * Q) (x : X) : X * outcome T :=
  retry_loop p func delay_state draw (Z.to_nat (max_retries p + 1)) 0 None x.

(** [ResilientExecutor.execute]: retry around circuit breaker. *)
Definition resilient_execute (p : RetryPolicy) (func : S → S * outcome T)
    (b : CircuitBreaker) (s : S) : CircuitBreaker * S * outcome T :=
  let '((b, s), o) :=
    retry_execute p
      (λ '(b, s), let '(b, s, o) := cb_execute func b s in ((b, s), o))
      (λ d '(b, s), (b, sleep d s))
      (λ '(b, s), let '(s, u) := rand s in ((b, s), u))
      (b, s) in
  (b, s, o).
End exec.

(** ** Interleaved executions

    [inflight] counts the calls past the guard whose coroutine has not finished.
    Any of them may finish at any time, in any way. *)
Inductive cb_step : CircuitBreaker * nat → CircuitBreaker * nat → Prop :=
| step_admit now b b' n :
    enter now b = (b', None) → cb_step (b, n) (b', Datatypes.S n)
| step_reject now b b' e n :
    enter now b = (b', Some e) → cb_step (b, n) (b', n)
| step_finish now b (o : outcome unit) n :
    cb_step (b, Datatypes.S n) (leave now b o, n)
| step_read now b n :
    cb_step (b, n) ((state now b).1, n)
| step_reset b n :
    cb_step (b, n) (reset b, n).

(** [RetryPolicy.stats] and [ResilientExecutor.stats] *)
Definition retry_stats (p : RetryPolicy) : string * Z * Q * Q :=
  (rp_name p, max_retries p, base_delay p, max_delay p).

Definition executor_stats (now : Q) (p : RetryPolicy) (b : CircuitBreaker)
    : CircuitBreaker * (cb_stats * (string * Z * Q * Q)) :=
  let '(b, st) := stats now b in (b, (st, retry_stats p)).

(** ** The breaker's invariant under interleaving *)
Record breaker_inv (b : CircuitBreaker) : Prop := {
  inv_failures : 0 ≤ _failure_count b;
  inv_closed : _state b = CLOSED → _failure_count b < failure_threshold b;
  inv_half_open : _state b = HALF_OPEN → 0 ≤ _half_open_calls b ≤ half_open_max b;
}.

Ltac break_guard :=
  repeat match goal with
  | |- context [bool_decide ?P] => case_bool_decide
  | |- context [if ?c then _ else _] => destruct c eqn:?
  | H : context [if ?c then _ else _] |- _ => destruct c eqn:?
  | H : context [bool_decide ?P] |- _ => case_bool_decide
  end.

Lemma state_inv now b : 0 ≤ half_open_max b → breaker_inv b → breaker_inv (state now b).1.
Proof.
  intros Hm [H1 H2 H3]. unfold state. break_guard; cbn; try done; split; cbn; done || lia.
Qed.

Lemma state_config now b : half_open_max (state now b).1 = half_open_max b ∧
  failure_threshold (state now b).1 = failure_threshold b ∧ (state now b).2 = _state (state now b).1.
Proof. unfold state. by break_guard. Qed.

Lemma enter_inv now b : 0 ≤ half_open_max b → breaker_inv b → breaker_inv (enter now b).1.
Proof.
  intros Hm Hi. pose proof (state_inv now b Hm Hi) as Hs. unfold enter.
  pose proof (state_config now b) as (_ & _ & E).
  destruct (state now b) as [b' st]. cbn in *. subst st.
  destruct (_state b') eqn:Es; [done|done|]. break_guard; [done|].
  destruct Hs as [S1 S2 S3]. split; cbn; [done|congruence|].
  intros Eh. specialize (S3 Eh). apply Z.leb_gt in Heqb0. lia.
Qed.

Lemma leave_inv {T} now b (o : outcome T) :
  0 < failure_threshold b → breaker_inv b → breaker_inv (leave now b o).
Proof.
  intros Ht [H1 H2 H3]. destruct o as [t|[r|c|]]; cbn; [|done| |done].
  - unfold _on_success; cbn. case_bool_decide; split; cbn; try done; lia.
  - unfold _on_failure; cbn. case_bool_decide; [split; cbn; done || lia|].
    destruct (Z.leb_spec (failure_threshold b) (_failure_count b + 1)); split; cbn; try done; lia.
Qed.

Lemma step_config c c' : cb_step c c' →
  half_open_max c'.1 = half_open_max c.1 ∧ failure_threshold c'.1 = failure_threshold c.1.
Proof.
  assert (∀ now b, half_open_max (enter now b).1 = half_open_max b ∧
    failure_threshold (enter now b).1 = failure_threshold b) as He.
  { intros now b. unfold enter. pose proof (state_config now b) as (E1 & E2 & _).
    destruct (state now b) as [b' st]; cbn in *. destruct st; break_guard; done. }
  destruct 1 as [now b b' n E|now b b' e n E|now b o n|now b n|b n]; cbn.
  - specialize (He now b). by rewrite E in He.
  - specialize (He now b). by rewrite E in He.
  - destruct o as [|[]]; cbn; unfold _on_success, _on_failure; cbn; by break_guard.
  - split; apply state_config.
  - done.
Qed.

(** ** What an observer counts

    The counts are made from what happens, not from the counters of the breaker: the failures of
    calls since the last success or reset, the calls admitted since the breaker last became
    HALF_OPEN, and the time of the last failure. *)
Record observed := mkObserved { o_failures : Z; o_probes : Z; o_last : Q }.

Definition note_state (b b' : CircuitBreaker) (g : observed) : observed :=
  if bool_decide (_state b ≠ HALF_OPEN) && bool_decide (_state b' = HALF_OPEN) then mkObserved (o_failures g) 0 (o_last g) else g.

Definition note_admitted (b' : CircuitBreaker) (g : observed) : observed :=
  if bool_decide (_state b' = HALF_OPEN) then mkObserved (o_failures g) (o_probes g + 1) (o_last g) else g.

Definition note_finish {T} (now : Q) (o : outcome T) (g : observed) : observed :=
  match o with
  | Returned _ => mkObserved 0 (o_probes g) (o_last g)
  | Raised (OtherException _) => mkObserved (o_failures g + 1) (o_probes g) now
  | Raised _ => g
  end.

Inductive watched : CircuitBreaker * nat * observed → CircuitBreaker * nat * observed → Prop :=
| watch_admit now b b' n g :
    enter now b = (b', None) → watched (b, n, g) (b', Datatypes.S n, note_admitted b' (note_state b b' g))
| watch_reject now b b' e n g :
    enter now b = (b', Some e) → watched (b, n, g) (b', n, note_state b b' g)
| watch_finish now b (o : outcome unit) n g :
    watched (b, Datatypes.S n, g) (leave now b o, n, note_state b (leave now b o) (note_finish now o g))
| watch_read now b n g :
    watched (b, n, g) ((state now b).1, n, note_state b (state now b).1 g)
| watch_reset b n g :
    watched (b, n, g) (reset b, n, mkObserved 0 (o_probes g) (o_last g)).

(** Every step of the breaker is watched. *)
Lemma step_watched b n b' n' g : cb_step (b, n) (b', n') → ∃ g', watched (b, n, g) (b', n', g').
Proof. inversion 1; subst; eexists; by econstructor. Qed.

(** The counters of the breaker say what was observed. *)
Record agrees (k m : Z) (t : Q) (b : CircuitBreaker) (g : observed) : Prop := {
  ag_config : failure_threshold b = k ∧ half_open_max b = m ∧ recovery_timeout b = t;
  ag_inv : breaker_inv b;
  ag_failures : _failure_count b = o_failures g;
  ag_probes : _state b = HALF_OPEN → _half_open_calls b = o_probes g;
  ag_last : _last_failure_time b = o_last g;
}.

Lemma state_agrees k m t now b g : 0 ≤ m → agrees k m t b g → agrees k m t (state now b).1 (note_state b (state now b).1 g).
Proof.
  intros Hm [(Hk & Hh & Ht) Hi H1 H2 H3]. assert (breaker_inv (state now b).1) as Hi' by (apply state_inv; [lia|done]). revert Hi'. unfold state.
  destruct (_ && _) eqn:E; cbn [fst]; intros Hi'.
  - apply andb_prop in E as [E%bool_decide_eq_true _]. unfold note_state. rewrite E. by split.
  - assert (note_state b b g = g) as -> by (unfold note_state; by destruct (_state b)). by split.
Qed.

Lemma enter_agrees k m t now b g : 0 ≤ m → agrees k m t b g →
  agrees k m t (enter now b).1 (match (enter now b).2 with None => note_admitted (enter now b).1 (note_state b (enter now b).1 g) | Some _ => note_state b (enter now b).1 g end).
Proof.
  intros Hm Ha. pose proof (state_agrees k m t now b g Hm Ha) as Hs. assert (breaker_inv (enter now b).1) as Hi' by (apply enter_inv; [destruct Ha as [(_ & -> & _) _ _ _ _]; lia|apply Ha]). revert Hi'. unfold enter.
  pose proof (state_config now b) as (_ & _ & E). destruct (state now b) as [b1 st]. cbn [fst snd] in *. subst st. destruct (_state b1) eqn:Es.
  - intros _. cbn. unfold note_admitted. by rewrite Es.
  - by intros _.
  - destruct (_ <=? _) eqn:El; [by intros _|]. cbn. intros Hi'. unfold note_admitted, note_state in *. cbn. rewrite Es in *. rewrite !(bool_decide_eq_true_2 (HALF_OPEN = HALF_OPEN)) in * by done. cbn in *.
    destruct Hs as [S1 S2 S3 S4 S5]. split; cbn; [done|done|by destruct (_ && _)| |by destruct (_ && _)]. intros _. rewrite (S4 Es). by destruct (_ && _).
Qed.

Lemma leave_agrees k m t now b (o : outcome unit) g : 0 < k → agrees k m t b g → agrees k m t (leave now b o) (note_state b (leave now b o) (note_finish now o g)).
Proof.
  intros Hk [(E1 & E2 & E3) Hi H1 H2 H3]. assert (breaker_inv (leave now b o)) as Hi' by (apply leave_inv; [lia|done]). revert Hi'.
  assert (note_state b (leave now b o) (note_finish now o g) = note_finish now o g) as ->.
  { unfold note_state. destruct (decide (_state b = HALF_OPEN)) as [Eh|Eh]; [by rewrite bool_decide_eq_false_2 by tauto|].
    rewrite (bool_decide_eq_false_2 (_state (leave now b o) = HALF_OPEN)), andb_false_r; [done|]. destruct o as [u|[]]; cbn; unfold _on_success, _on_failure; break_guard; cbn in *; congruence. }
  destruct o as [u|[r|c|]]; cbn [leave note_finish]; intros Hi'; [|by split| |by split].
  - unfold _on_success in *. cbn in *. case_bool_decide; split; cbn; try done; congruence.
  - unfold _on_failure in *. cbn in *. break_guard; split; cbn; try done; try congruence; lia.
Qed.

(** C13: A watched breaker (positive threshold [k], [m] probes, recovery time [t]), over any
    interleaving of calls that start, finish, are cancelled, of reads and of resets: while it is
    CLOSED fewer than [k] calls have failed since the last success or reset; while it is HALF_OPEN
    at most [m] calls have been admitted since it became so; and the next call is admitted exactly
    if it is CLOSED, or HALF_OPEN with fewer than [m] calls admitted, or OPEN with the recovery
    time over since the last failure (and [m] positive). *)
Theorem breaker_inv_reachable nm k t m b n g :
  0 < k → 0 ≤ m → rtc watched (cb_init nm k t m, 0%nat, mkObserved 0 0 0) (b, n, g) →
  (_state b = CLOSED → o_failures g < k)
  ∧ (_state b = HALF_OPEN → 0 ≤ o_probes g ≤ m)
  ∧ ∀ now, (enter now b).2 = None ↔
      _state b = CLOSED ∨ _state b = HALF_OPEN ∧ o_probes g < m ∨ _state b = OPEN ∧ (t <= now - o_last g)%Q ∧ 0 < m.
Proof.
  intros Hk Hm Hr. assert (agrees k m t b g) as [(E1 & E2 & E3) [I1 I2 I3] H1 H2 H3].
  { remember (cb_init nm k t m, 0%nat, mkObserved 0 0 0) as c0 eqn:E0. remember (b, n, g) as c1 eqn:E1.
    assert (agrees k m t c0.1.1 c0.2) as Hi by (subst; split; cbn; [done|split; cbn; done || lia|done|done|done]). clear E0. revert b n g E1.
    induction Hr as [c|c c' c'' Hs _ IH]; intros b n g ->; [done|]. eapply IH; [|done]. clear IH.
    destruct Hs as [now b1 b2 n1 g1 E|now b1 b2 e n1 g1 E|now b1 o n1 g1|now b1 n1 g1|b1 n1 g1]; cbn [fst snd] in *.
    - pose proof (enter_agrees k m t now b1 g1 Hm Hi) as Ha. by rewrite E in Ha.
    - pose proof (enter_agrees k m t now b1 g1 Hm Hi) as Ha. by rewrite E in Ha.
    - by apply leave_agrees.
    - by apply state_agrees.
    - destruct Hi as [Hc [J1 J2 J3] A1 A2 A3]. split; cbn; [done|split; cbn; try done; destruct Hc; lia|done|done|done]. }
  split_and!; [intros Ec; specialize (I2 Ec); lia|intros Eh; specialize (I3 Eh); rewrite (H2 Eh) in I3; lia|].
  intros now. unfold enter, state. destruct (_state b) eqn:Es; cbn [bool_decide]; rewrite ?Es.
  - rewrite bool_decide_eq_false_2 by done. cbn. rewrite ?Es. split; [by left|done].
  - rewrite bool_decide_eq_true_2 by done. cbn [andb]. rewrite E3, H3. destruct (Qle_bool t (now - o_last g)) eqn:Eq; cbn.
    + apply Qle_bool_iff in Eq. rewrite E2. destruct (Z.leb_spec m 0); cbn; [split; [done|intros [?|[[? _]|(_ & _ & ?)]]; [done..|lia]]|]. split; [intros _; right; right; by split_and!|done].
    + cbn. rewrite ?Es. split; [done|]. intros [?|[[? _]|(_ & Hq & _)]]; [done..|]. apply Qle_bool_iff in Hq. congruence.
  - rewrite bool_decide_eq_false_2 by done. cbn. rewrite ?Es, E2, (H2 eq_refl). destruct (Z.leb_spec m (o_probes g)); cbn; [split; [done|intros [?|[[_ ?]|[? _]]]; [done|lia|done]]|]. split; [intros _; right; by left|done].
Qed.

(** A run: a failure opens the breaker, and after the recovery time a probe is admitted. *)
Definition probing : CircuitBreaker := mkBreaker "peer" 1 10 1 HALF_OPEN 1 0 5 1.

Lemma breaker_inv_reachable_witness :
  0 ≤ 1 ≤ 1 ∧ ((enter 21 probing).2 = None ↔ _state probing = CLOSED ∨ _state probing = HALF_OPEN ∧ 1 < 1 ∨ _state probing = OPEN ∧ (10 <= 21 - 5)%Q ∧ 0 < 1).
Proof.
  assert (rtc watched (cb_init "peer" 1 10 1, 0%nat, mkObserved 0 0 0) (probing, 1%nat, mkObserved 1 1 5)) as Hr.
  { apply (rtc_l _ _ (cb_init "peer" 1 10 1, 1%nat, mkObserved 0 0 0)); [exact (watch_admit 0 (cb_init "peer" 1 10 1) (cb_init "peer" 1 10 1) 0%nat (mkObserved 0 0 0) eq_refl)|].
    apply (rtc_l _ _ (mkBreaker "peer" 1 10 1 OPEN 1 0 5 0, 0%nat, mkObserved 1 0 5)); [exact (watch_finish 5 (cb_init "peer" 1 10 1) (Raised (OtherException "E")) 0%nat (mkObserved 0 0 0))|].
    apply rtc_once. exact (watch_admit 20 (mkBreaker "peer" 1 10 1 OPEN 1 0 5 0) probing 0%nat (mkObserved 1 0 5) eq_refl). }
  destruct (breaker_inv_reachable "peer" 1 10 1 probing 1%nat (mkObserved 1 1 5) ltac:(lia) ltac:(lia) Hr) as (_ & H2 & H3).
  split; [exact (H2 eq_refl)|exact (H3 21%Q)].
Defined.

(** ** Sequential calls *)
Section sequential.
Context {S T : Type} (clock : S → Q).

(** [n] calls one after the other, ignoring what they raise. *)
Fixpoint call_times (n : nat) (func : S → S * outcome T) (b : CircuitBreaker) (s : S)
    : CircuitBreaker * S :=
  match n with
  | O => (b, s)
  | Datatypes.S n =>
      let '(b, s, _) := cb_execute clock func b s in call_times n func b s
  end.

Fixpoint iter_state (n : nat) (func : S → S * outcome T) (s : S) : S :=
  match n with O => s | Datatypes.S n => iter_state n func (func s).1 end.

Lemma closed_failure_call (func : S → S * outcome T) b s cls :
  _state b = CLOSED → (func s).2 = Raised (OtherException cls) →
  cb_execute clock func b s = (_on_failure (clock (func s).1) b, (func s).1, Raised (OtherException cls)).
Proof.
  intros Hc Hf. unfold cb_execute, enter, state. rewrite bool_decide_eq_false_2 by congruence. cbn.
  rewrite Hc. destruct (func s) as [s' o]. cbn in *. by subst.
Qed.

Lemma failures_keep_closed n (func : S → S * outcome T) b s cls :
  (∀ s, (func s).2 = Raised (OtherException cls)) →
  _state b = CLOSED → _failure_count b + Z.of_nat n < failure_threshold b →
  ∃ b', call_times n func b s = (b', iter_state n func s) ∧ _state b' = CLOSED ∧
    _failure_count b' = _failure_count b + Z.of_nat n ∧ failure_threshold b' = failure_threshold b
    ∧ recovery_timeout b' = recovery_timeout b.
Proof.
  intros Hf. revert b s. induction n as [|n IH]; intros b s Hc Hlt.
  - exists b. cbn. split_and!; done || lia.
  - cbn [call_times iter_state]. rewrite (closed_failure_call func b s cls) by auto.
    unfold _on_failure. cbn. rewrite Hc. cbn.
    destruct (Z.leb_spec (failure_threshold b) (_failure_count b + 1)); [lia|].
    edestruct IH as (b' & E & H1 & H2 & H3 & H4); [| |exists b'; split_and!; [exact E|done|..]].
    + done.
    + cbn. lia.
    + cbn in H2. lia.
    + done.
    + done.
Qed.

Lemma call_times_add n m (func : S → S * outcome T) b s :
  call_times (n + m) func b s = (let '(b, s) := call_times n func b s in call_times m func b s).
Proof.
  revert b s. induction n as [|n IH]; intros; [done|]. cbn.
  by destruct (cb_execute clock func b s) as [[b' s'] o].
Qed.

Lemma open_rejects (func : S → S * outcome T) b s :
  _state b = OPEN → (clock s - _last_failure_time b < recovery_timeout b)%Q →
  cb_execute clock func b s =
    (b, s, Raised (CircuitBreakerError (_last_failure_time b + recovery_timeout b))).
Proof.
  intros Ho Ht. unfold cb_execute, enter, state. rewrite bool_decide_eq_true_2 by done.
  rewrite (proj2 (Qle_bool_false _ _)) by done. cbn. by rewrite Ho.
Qed.

(** A closed breaker whose function keeps failing lets exactly
    [failure_threshold] calls through: the first [threshold - 1] leave it
    CLOSED, the next one opens it, and from then on, until [recovery_timeout]
    after the last failure, every call is rejected with [CircuitBreakerError]
    without running the function and without changing the breaker. *)
Theorem opens_exactly_at_threshold (func : S → S * outcome T) nm k t m s cls :
  0 < k → (∀ s, (func s).2 = Raised (OtherException cls)) →
  let b0 := cb_init nm k t m in
  (∀ n, Z.of_nat n < k →
     _state (call_times n func b0 s).1 = CLOSED ∧ (call_times n func b0 s).2 = iter_state n func s) ∧
  let '(b, s') := call_times (Z.to_nat k) func b0 s in
  _state b = OPEN ∧ s' = iter_state (Z.to_nat k) func s ∧ _last_failure_time b = clock s' ∧
  ∀ s'', (clock s'' < clock s' + t)%Q →
    cb_execute clock func b s'' = (b, s'', Raised (CircuitBreakerError (clock s' + t))).
Proof.
  intros Hk Hf b0. split.
  - intros n Hn.
    destruct (failures_keep_closed n func b0 s cls Hf eq_refl) as (b' & -> & ? & _); [done|done].
  - replace (Z.to_nat k) with (Z.to_nat (k - 1) + 1)%nat by lia.
    rewrite call_times_add.
    destruct (failures_keep_closed (Z.to_nat (k - 1)) func b0 s cls Hf eq_refl)
      as (b' & -> & Hc & Hn & Hth & Htm); [cbn; lia|].
    cbn [call_times]. rewrite (closed_failure_call func b' _ cls) by auto.
    assert (∀ n s, iter_state (n + 1) func s = (func (iter_state n func s)).1) as Hit.
    { clear. induction n; intros; [done|]. cbn in *. by rewrite IHn. }
    rewrite Hit. set (s1 := (func _).1).
    assert (_on_failure (clock s1) b' = with_state (with_counts b' (_failure_count b' + 1) 0 (clock s1)) OPEN)
      as ->.
    { unfold _on_failure. cbn. rewrite Hc. rewrite bool_decide_eq_false_2 by done.
      rewrite (proj2 (Z.leb_le _ _)); [done|]. rewrite Hth, Hn. cbn. lia. }
    split_and!; [done..|]. intros s'' Hlt. rewrite open_rejects; [by cbn; rewrite Htm|done|].
    cbn. rewrite Htm. cbn. lra.
Qed.
End sequential.

(** A probe that is cancelled (or raises a nested breaker's error) *)
Definition stuck (b : CircuitBreaker) : Prop :=
  _state b = HALF_OPEN ∧ half_open_max b ≤ _half_open_calls b.

Lemma stuck_state now b : stuck b → state now b = (b, HALF_OPEN).
Proof. intros [Hs _]. unfold state. rewrite bool_decide_eq_false_2 by congruence. cbn. by rewrite Hs. Qed.

Lemma stuck_enter now b :
  stuck b → enter now b = (b, Some (CircuitBreakerError (_last_failure_time b + recovery_timeout b))).
Proof.
  intros Hb. unfold enter. rewrite stuck_state by done. destruct Hb as [_ Hm].
  by rewrite (proj2 (Z.leb_le _ _)).
Qed.

(** Every step that is not a [reset]. *)
Definition step_no_reset (c c' : CircuitBreaker * nat) : Prop :=
  (∃ now, c' = ((enter now c.1).1, match (enter now c.1).2 with None => Datatypes.S c.2 | _ => c.2 end))
  ∨ (∃ now (o : outcome unit) n, c.2 = Datatypes.S n ∧ c' = (leave now c.1 o, n))
  ∨ (∃ now, c' = ((state now c.1).1, c.2)).

(** An open breaker whose recovery timeout has passed admits one probe; when
    that probe is cancelled ([asyncio.timeout], task cancellation) and nothing
    else is in flight, the breaker keeps its state for good: whatever the clock
    says, every later call is rejected and no read of the state moves it, so only
    an explicit [reset] closes it again. *)
Theorem cancelled_probe_wedges_breaker b now now' :
  half_open_max b = 1 → _state b = OPEN → (recovery_timeout b <= now - _last_failure_time b)%Q →
  ∃ b1, enter now b = (b1, None) ∧
    let b2 := leave now' b1 (@Raised unit Cancelled) in
    _state b2 = HALF_OPEN ∧
    (∀ later, ∃ r, enter later b2 = (b2, Some (CircuitBreakerError r))) ∧
    (∀ c, rtc step_no_reset (b2, 0%nat) c → c = (b2, 0%nat)) ∧
    _state (reset b2) = CLOSED.
Proof.
  intros Hm Ho Ht. unfold enter at 1, state. rewrite bool_decide_eq_true_2 by done.
  rewrite (proj2 (Qle_bool_iff _ _)) by done. cbn. rewrite Hm. cbn.
  set (b2 := with_half_open_calls (with_half_open_calls (with_state b HALF_OPEN) 0) 1).
  exists b2. split; [reflexivity|]. cbn [leave].
  assert (stuck b2) as Hst by (split; cbn; [done|rewrite Hm; lia]).
  split_and!; [done| |intros c Hr|done].
  - intros later. eexists. by apply stuck_enter.
  - remember (b2, 0%nat) as c0 eqn:E0 in Hr. induction Hr as [|c1 c2 c3 Hs _ IH]; [done|].
    subst c1. apply IH. destruct Hs as [[t E]|[(t & o & n & E & _)|[t E]]]; cbn [fst snd] in E.
    + by rewrite stuck_enter in E.
    + done.
    + by rewrite stuck_state in E.
Qed.

Definition tripped : CircuitBreaker := _on_failure 0 (cb_init "peer-0" 1 30 1).

Lemma cancelled_probe_wedges_breaker_witness :
  ∃ b1, enter 31 tripped = (b1, None) ∧
    let b2 := leave 36 b1 (@Raised unit Cancelled) in
    _state b2 = HALF_OPEN ∧
    (∀ later, ∃ r, enter later b2 = (b2, Some (CircuitBreakerError r))) ∧
    (∀ c, rtc step_no_reset (b2, 0%nat) c → c = (b2, 0%nat)) ∧
    _state (reset b2) = CLOSED.
Proof.
  apply (cancelled_probe_wedges_breaker tripped 31 36); [reflexivity|reflexivity|].
  apply Qle_bool_iff. reflexivity.
Defined.

(** ** Retries

    [retry_loop] over a state that also records the calls and the pauses. *)
Inductive retry_event := Call | Sleep (d : Q).

Section retry.
Context {X T : Type} (p : RetryPolicy).
Context (func : X → X * outcome T) (pause : Q → X → X) (draw : X → X * Q).

Definition log_call : X * list retry_event → (X * list retry_event) * outcome T :=
  λ '(x, log), let '(x, o) := func x in ((x, log ++ [Call]), o).
Definition log_pause (d : Q) : X * list retry_event → X * list retry_event :=
  λ '(x, log), (pause d x, log ++ [Sleep d]).
Definition log_draw : X * list retry_event → (X * list retry_event) * Q :=
  λ '(x, log), let '(x, u) := draw x in ((x, log), u).

Definition call_log (ds : list Q) : list retry_event := Call :: flat_map (λ d, [Sleep d; Call]) ds.

(** Why the loop may stop before its last attempt. *)
Definition stops (o : outcome T) : Prop :=
  match o with
  | Returned _ => True
  | Raised e => is_Exception e && retryable_exceptions p e = false ∨ non_retryable_exceptions p e = true
  end.

Definition delay_ok (d : Q) : Prop := (Qminb (1 # 10) (max_delay p) <= d <= max_delay p)%Q.

Lemma calc_delay_ok u n : delay_ok (_calc_delay p u n).
Proof.
  unfold _calc_delay, delay_ok. set (y := Qmaxb _ _).
  assert (1 # 10 <= y)%Q by apply Qmaxb_spec.
  pose proof (Qminb_spec y (max_delay p)) as (? & ? & [E|E]);
  pose proof (Qminb_spec (1 # 10) (max_delay p)) as (? & ? & _); rewrite E in *; split; lra.
Qed.

Lemma retry_loop_log n : ∀ attempt last x log, Z.of_nat (attempt + n) = max_retries p + 1 → (0 < n)%nat →
  let '((_, log'), o) :=
    retry_loop p log_call log_pause log_draw n attempt last (x, log) in
  ∃ ds, log' = log ++ call_log ds ∧ (length ds < n)%nat ∧ Forall delay_ok ds
    ∧ ((S (length ds) < n)%nat → stops o).
Proof.
  induction n as [|n IH]; intros attempt last x log Hr Hn; [lia|]. cbn [retry_loop log_call].
  destruct (func x) as [x1 o]. destruct o as [t|e].
  { by exists []; split_and!; [done|cbn; lia|constructor|]. }
  destruct (is_Exception e && retryable_exceptions p e) eqn:Er;
    [destruct (non_retryable_exceptions p e) eqn:En|];
    try (by exists []; split_and!; [done|cbn; lia|constructor|cbn; auto]).
  destruct (Z.ltb_spec (Z.of_nat attempt) (max_retries p)).
  - replace (log_draw (x1, log ++ [Call])) with ((draw x1).1, log ++ [Call], (draw x1).2)
      by (cbn; by destruct (draw x1)).
    destruct (draw x1) as [x2 u]. cbn [fst snd]. set (d := _calc_delay p u attempt).
    specialize (IH (S attempt) (Some e) (pause d x2) ((log ++ [Call]) ++ [Sleep d])).
    change (log_pause d (x2, log ++ [Call])) with (pause d x2, (log ++ [Call]) ++ [Sleep d]).
    destruct (retry_loop p log_call log_pause log_draw _ _ _ _) as [[x3 log'] o].
    destruct IH as (ds & -> & Hl & Hd & Hs); [lia|lia|]. exists (d :: ds). split_and!.
    + unfold call_log. cbn. by rewrite <- !app_assoc.
    + cbn. lia.
    + constructor; [apply calc_delay_ok|done].
    + cbn. intros. apply Hs. lia.
  - assert (n = 0%nat) as -> by lia. cbn.
    exists []; split_and!; [done|cbn; lia|constructor|cbn; lia].
Qed.

(** [RetryPolicy.execute] alternates calls and pauses, makes at least one call
    and at most [max_retries + 1], pauses at most [max_delay] and at least 0.1 s
    (or [max_delay] when that is smaller) between two calls and never after the
    last, and gives up before the last attempt only on a success or on an
    exception the policy does not retry.  With a negative [max_retries] it makes
    no call at all and raises [TypeError]. *)
Theorem retry_schedule x :
  let '((_, log), o) := retry_execute p log_call log_pause log_draw (x, []) in
  if 0 <=? max_retries p then
    ∃ ds, log = call_log ds ∧ Z.of_nat (length ds) ≤ max_retries p ∧ Forall delay_ok ds
      ∧ (Z.of_nat (length ds) < max_retries p → stops o)
  else log = [] ∧ o = Raised (OtherException "TypeError").
Proof.
  unfold retry_execute. destruct (Z.leb_spec 0 (max_retries p)) as [H0|H0].
  - replace (Z.to_nat (max_retries p + 1)) with (S (Z.to_nat (max_retries p))) by lia.
    pose proof (retry_loop_log (S (Z.to_nat (max_retries p))) 0 None x []) as H.
    destruct (retry_loop p log_call log_pause log_draw _ _ _ _) as [[x' log] o].
    destruct H as (ds & -> & Hl & Hd & Hs); [lia|lia|].
    exists ds. split_and!; [done|lia|done|]. intros. apply Hs. lia.
  - by replace (Z.to_nat (max_retries p + 1)) with 0%nat by lia.
Qed.
End retry.

(** The witness of [opens_exactly_at_threshold]: the state is the clock, the
    function fails after one second. *)
Lemma opens_exactly_at_threshold_witness :
  let func := λ s : Q, ((s + 1)%Q, @Raised unit (OtherException "OSError")) in
  _state (call_times id 2 func (cb_init "llm" 3 30 1) 0%Q).1 = CLOSED ∧
  _state (call_times id 3 func (cb_init "llm" 3 30 1) 0%Q).1 = OPEN.
Proof.
  intros func.
  destruct (opens_exactly_at_threshold id func "llm" 3 30 1 0%Q "OSError") as [H1 H2]; [lia|done|].
  split; [by apply H1|].
  destruct (call_times id (Z.to_nat 3) func _ _) as [b s'] eqn:E. change (Z.to_nat 3) with 3%nat in E.
  rewrite E. apply H2.
Defined.
