(* ===== verification/RateLimit.v ===== *)
(** * Sliding-window rate limiter ([noema/api/rate_limit.py])

    The in-memory counter [_SlidingWindowCounter], the Redis-backed counter with
    its in-memory fallback, the client key and the middleware's [dispatch].
    [asyncio.Lock] makes [allow] and the cleanup pass atomic, so each is one
    state-passing function of the clock reading it makes.  The [ipaddress]
    module, SHA-256, Redis and the wrapped application are parameters. *)
From Stdlib Require Import ZArith QArith Qround Lqa Lia Bool Ascii String.
From stdpp Require Import base option numbers sets strings pretty sorting list.
From S2P Require Import Prelude.
Local Open Scope Z_scope.

Definition headers := list (string * string).

Record SlidingWindowCounter := mkCounter {
  window : Z;
  max_requests : Z;
  _hits : list (string * list Q);
  _cleanup_task : bool;
}.

Definition counter_init (window_seconds max_requests : Z) : SlidingWindowCounter :=
  mkCounter window_seconds max_requests [] false.

Definition with_hits (c : SlidingWindowCounter) (h : list (string * list Q)) : SlidingWindowCounter :=
  mkCounter (window c) (max_requests c) h (_cleanup_task c).

Definition hits_of (c : SlidingWindowCounter) (key : string) : list Q := default [] (dget key (_hits c)).

Definition after (cutoff : Q) (hits : list Q) : list Q := filter (λ t, Qltb cutoff t = true) hits.

Definition _prune (c : SlidingWindowCounter) (key : string) (now : Q) : SlidingWindowCounter :=
  let cutoff := (now - inject_Z (window c))%Q in
  match dget key (_hits c) with
  | Some (t :: hits) =>
      match after cutoff (t :: hits) with
      | [] => with_hits c (ddel key (_hits c))
      | kept => with_hits c (dset key kept (_hits c))
      end
  | _ => c
  end.

(** One pass of the [_periodic_cleanup] loop; [max(v) < cutoff] is "every hit is
    below the cutoff". *)
Definition _periodic_cleanup (c : SlidingWindowCounter) (now : Q) : SlidingWindowCounter :=
  let cutoff := (now - inject_Z (window c * 2))%Q in
  let stale_keys :=
    map fst (filter (λ '(_, v), forallb (λ t, Qltb t cutoff) v = true) (_hits c)) in
  with_hits c (foldl (λ h k, ddel k h) (_hits c) stale_keys).

Definition start_cleanup (c : SlidingWindowCounter) : SlidingWindowCounter :=
  mkCounter (window c) (max_requests c) (_hits c) true.

Definition stop_cleanup (c : SlidingWindowCounter) : SlidingWindowCounter :=
  mkCounter (window c) (max_requests c) (_hits c) false.

Definition reject_headers (max_requests reset_at retry_after : Z) : headers :=
  [("X-RateLimit-Limit", pretty max_requests); ("X-RateLimit-Remaining", "0");
   ("X-RateLimit-Reset", pretty reset_at); ("Retry-After", pretty retry_after)]%string.

Definition allow_headers (max_requests remaining reset_at : Z) : headers :=
  [("X-RateLimit-Limit", pretty max_requests); ("X-RateLimit-Remaining", pretty remaining);
   ("X-RateLimit-Reset", pretty reset_at)]%string.

(** [int(retry_after) + 1] *)
Definition retry_after (c : SlidingWindowCounter) (now oldest : Q) : Z :=
  Qtrunc (inject_Z (window c) - (now - oldest)) + 1.

(** [_SlidingWindowCounter.allow].  [self._hits] is a [defaultdict]: reading
    [self._hits[key]] of an absent key stores an empty list there. *)
Definition allow (c : SlidingWindowCounter) (key : string) (now : Q)
    : SlidingWindowCounter * result pyexn (bool * headers) :=
  let c := _prune c key now in
  let current := Z.of_nat (length (hits_of c key)) in
  let remaining := Z.max 0 (max_requests c - current) in
  let reset_at := Qtrunc (now + inject_Z (window c)) in
  if max_requests c <=? current then
    match hits_of c key with
    | [] => (with_hits c (dset key [] (_hits c)), Err IndexError)
    | oldest :: _ =>
        (c, Ok (false, reject_headers (max_requests c) reset_at (retry_after c now oldest)))
    end
  else
    (with_hits c (dset key (hits_of c key ++ [now]) (_hits c)),
     Ok (true, allow_headers (max_requests c) (remaining - 1) reset_at)).

(** ** The client key *)
Section client.
(** [ipaddress.ip_address], [ipaddress.ip_network(_, strict=False)] ([None] is
    [ValueError]) and membership; SHA-256 in hexadecimal. *)
Context {addr network : Type} (addr_eqb : addr → addr → bool).
Context (ip_address : string → option addr) (ip_network : string → option network).
Context (in_network : addr → network → bool) (sha256_hex : string → string).

Definition _ip_in_trusted (ip : string) (trusted : list string) : bool :=
  match ip_address ip with
  | None => false
  | Some address =>
      existsb (λ entry,
        match ip_address entry with Some a => addr_eqb a address | None => false end
        || match ip_network entry with Some n => in_network address n | None => false end) trusted
  end.

Record Request := mkRequest {
  path : string;
  api_key : string;             (* value of the API-key header, "" when absent *)
  forwarded : string;           (* value of X-Forwarded-For, "" when absent *)
  client_host : option string;  (* [request.client.host] *)
}.

(** [s.split(",")[0]] *)
Fixpoint before_comma (s : string) : string :=
  match s with
  | EmptyString => EmptyString
  | String a s => if Ascii.eqb a ","%char then EmptyString else String a (before_comma s)
  end.

Definition _client_key (trusted_proxies : list string) (r : Request) : string :=
  if nonempty (api_key r) then ("k:" +:+ sha256_hex (api_key r))%string
  else
    let peer := default ""%string (client_host r) in
    if nonempty (forwarded r) && nonempty peer && _ip_in_trusted peer trusted_proxies
    then ("ip:" +:+ strip (before_comma (forwarded r)))%string
    else ("ip:" +:+ (if nonempty peer then peer else "unknown"))%string.

Definition _PUBLIC_PATHS : list string :=
  ["/"; "/health"; "/ready"; "/docs"; "/openapi.json"; "/redoc"]%string.

Record Response := mkResponse { status : Z; resp_headers : headers; body : json }.

Record RateLimitMiddleware := mkMiddleware {
  _enabled : bool;
  _trusted_proxies : list string;
  _limiter : SlidingWindowCounter;
}.

Definition with_limiter (m : RateLimitMiddleware) (c : SlidingWindowCounter) : RateLimitMiddleware :=
  mkMiddleware (_enabled m) (_trusted_proxies m) c.

Definition add_headers (hs : headers) (r : Response) : Response :=
  mkResponse (status r) (foldl (λ acc '(h, v), dset h v acc) (resp_headers r) hs) (body r).

Definition too_many (max_requests : Z) (hs : headers) : Response :=
  mkResponse 429 hs
    (JObj [("error", JStr "rate_limit_exceeded");
           ("message", JStr ("Max " +:+ pretty max_requests +:+ " requests per minute"))])%string.

(** [dispatch] with the in-memory limiter; [call_next] is the application behind
    the middleware, [A] its state. *)
Definition dispatch {A} (call_next : Request → A → A * Response) (now : Q)
    (m : RateLimitMiddleware) (r : Request) (a : A)
    : RateLimitMiddleware * A * result pyexn Response :=
  if negb (_enabled m) then let '(a, resp) := call_next r a in (m, a, Ok resp)
  else
    let m := if _cleanup_task (_limiter m) then m else with_limiter m (start_cleanup (_limiter m)) in
    if bool_decide (path r ∈ _PUBLIC_PATHS) then let '(a, resp) := call_next r a in (m, a, Ok resp)
    else
      let key := _client_key (_trusted_proxies m) r in
      let '(c, ans) := allow (_limiter m) key now in
      let m := with_limiter m c in
      match ans with
      | Err e => (m, a, Err e)
      | Ok (false, hs) => (m, a, Ok (too_many (max_requests c) hs))
      | Ok (true, hs) => let '(a, resp) := call_next r a in (m, a, Ok (add_headers hs resp))
      end.
End client.

(** ** The Redis-backed counter *)
Section redis.
Context {R : Type}.

(** The sorted-set commands [allow] issues; [None] is any exception of the client. *)
Record RedisOps := mkRedisOps {
  connect_ping : R → R * bool;
  zremrangebyscore : string → Q → Q → R → R * option unit;
  zcard : string → R → R * option Z;
  zrange_first : string → R → R * option (option Q);   (* score of the first member *)
  zadd : string → Q → R → R * option unit;             (* member f"{now}:{id(key)}" *)
  expire : string → Z → R → R * option unit;
}.

Record RedisCounter := mkRedisCounter {
  rwindow : Z;
  rmax_requests : Z;
  _redis : bool;               (* a connected client is kept *)
  _fallback : SlidingWindowCounter;
  _fallback_active : bool;
}.

Definition redis_counter_init (window_seconds max_requests : Z) : RedisCounter :=
  mkRedisCounter window_seconds max_requests false (counter_init window_seconds max_requests) false.

Definition _ensure_redis (ops : RedisOps) (c : RedisCounter) (r : R) : RedisCounter * R :=
  if _redis c then (c, r)
  else
    let '(r, ok) := connect_ping ops r in
    (mkRedisCounter (rwindow c) (rmax_requests c) ok (_fallback c) (negb ok), r).

Definition redis_start_cleanup (c : RedisCounter) : RedisCounter :=
  mkRedisCounter (rwindow c) (rmax_requests c) (_redis c) (start_cleanup (_fallback c)) (_fallback_active c).

(** The commands between [try] and [except], in order; [None] as soon as one fails. *)
Definition redis_try (ops : RedisOps) (c : RedisCounter) (key : string) (now : Q) (r : R)
    : R * option (bool * headers) :=
  let window_start := (now - inject_Z (rwindow c))%Q in
  let redis_key := ("ratelimit:" +:+ key)%string in
  let '(r, o) := zremrangebyscore ops redis_key 0 window_start r in
  if o is None then (r, None) else
  let '(r, o) := zcard ops redis_key r in
  match o with
  | None => (r, None)
  | Some current =>
      let reset_at := Qtrunc (now + inject_Z (rwindow c)) in
      if rmax_requests c <=? current then
        let '(r, o) := zrange_first ops redis_key r in
        match o with
        | None => (r, None)
        | Some oldest =>
            let retry_after :=
              match oldest with
              | Some s => (inject_Z (rwindow c) - (now - s))%Q
              | None => inject_Z (rwindow c)
              end in
            (r, Some (false, reject_headers (rmax_requests c) reset_at (Qtrunc retry_after + 1)))
        end
      else
        let '(r, o) := zadd ops redis_key now r in
        if o is None then (r, None) else
        let '(r, o) := expire ops redis_key (rwindow c * 2) r in
        if o is None then (r, None) else
        let remaining := Z.max 0 (rmax_requests c - current - 1) in
        (r, Some (true, allow_headers (rmax_requests c) remaining reset_at))
  end.

(** [now] is [time.time()], [mono] the [time.monotonic()] reading of the fallback. *)
Definition redis_allow (ops : RedisOps) (c : RedisCounter) (key : string) (now mono : Q) (r : R)
    : RedisCounter * R * result pyexn (bool * headers) :=
  let fall_back c active r :=
    let '(f, ans) := allow (_fallback c) key mono in
    (mkRedisCounter (rwindow c) (rmax_requests c) (_redis c) f active, r, ans) in
  let '(c, r) := _ensure_redis ops c r in
  if negb (_redis c) then fall_back c (_fallback_active c) r
  else
    match redis_try ops c key now r with
    | (r, Some ans) => (c, r, Ok ans)
    | (r, None) => fall_back c true r
    end.
End redis.

(** ** Sequences of requests

    What the lock serialises: requests and cleanup passes, at clock readings that
    never go back. *)
Inductive op := Req (key : string) (now : Q) | Cleanup (now : Q).

Definition op_time (o : op) : Q := match o with Req _ t => t | Cleanup t => t end.

(** The limiter after the operations, and the accepted requests in order. *)
Fixpoint run (c : SlidingWindowCounter) (ops : list op) : SlidingWindowCounter * list (string * Q) :=
  match ops with
  | [] => (c, [])
  | Req key now :: ops =>
      let '(c, ans) := allow c key now in
      let '(c', log) := run c ops in
      (c', match ans with Ok (true, _) => (key, now) :: log | _ => log end)
  | Cleanup now :: ops => run (_periodic_cleanup c now) ops
  end.

(** The times of the accepted requests of one client. *)
Definition accepted (key : string) (log : list (string * Q)) : list Q :=
  map snd (filter (λ p, p.1 = key) log).

(** Accepted requests in the window that ends at [t]. *)
Definition in_window (w : Z) (t : Q) (times : list Q) : list Q :=
  filter (λ x, Qle_bool x t = true) (after (t - inject_Z w) times).

(** The limiter refines the log of accepted requests: for every key the kept
    hits are the accepted ones after some cutoff no later than [now - window]. *)
Record tracks (c : SlidingWindowCounter) (log : list (string * Q)) (now : Q) : Prop := {
  tr_kept : ∀ key, ∃ cutoff, (cutoff <= now - inject_Z (window c))%Q
      ∧ hits_of c key = after cutoff (accepted key log);
  tr_past : ∀ key, Forall (λ t, (t <= now)%Q) (accepted key log);
  tr_nodup : NoDup (_hits c).*1;
  tr_bound : ∀ key t, Z.of_nat (length (in_window (window c) t (accepted key log))) ≤ max_requests c;
}.

Lemma after_after a b l : (a <= b)%Q → after b (after a l) = after b l.
Proof.
  intros Hab. unfold after. rewrite list_filter_filter. apply list_filter_iff.
  intros x. rewrite !Qltb_lt. split; [tauto|]. intros. split; lra.
Qed.

Lemma after_app a l l' : after a (l ++ l') = after a l ++ after a l'.
Proof. apply filter_app. Qed.

Lemma after_length_mono a b l : (a <= b)%Q → (length (after b l) ≤ length (after a l))%nat.
Proof. intros Hab. rewrite <- (after_after a b) by done. apply length_filter. Qed.

Lemma after_nil a l : Forall (λ t, (t <= a)%Q) l → after a l = [].
Proof.
  induction 1 as [|t l Ht _ IH]; [done|]. unfold after in *. rewrite filter_cons_False; [done|].
  rewrite Qltb_lt. lra.
Qed.

Lemma accepted_app key l l' : accepted key (l ++ l') = accepted key l ++ accepted key l'.
Proof. unfold accepted. by rewrite filter_app, map_app. Qed.

Lemma accepted_snoc key key' now log :
  accepted key (log ++ [(key', now)]) = accepted key log ++ (if decide (key' = key) then [now] else []).
Proof. rewrite accepted_app. unfold accepted at 2. cbn. by case_decide. Qed.

Lemma in_window_app w t l l' : in_window w t (l ++ l') = in_window w t l ++ in_window w t l'.
Proof. unfold in_window. by rewrite after_app, filter_app. Qed.

Lemma in_window_le w t l : (length (in_window w t l) ≤ length (after (t - inject_Z w) l))%nat.
Proof. apply length_filter. Qed.

Lemma in_window_all w t l :
  Forall (λ x, (x <= t)%Q) l → in_window w t l = after (t - inject_Z w) l.
Proof.
  intros Hl. unfold in_window, after. rewrite list_filter_filter.
  induction Hl as [|x l Hx _ IH]; [done|]. rewrite !filter_cons.
  destruct (decide (Qltb (t - inject_Z w) x = true)) as [E|E].
  - rewrite decide_True by (split; [by apply Qle_bool_iff|done]). by rewrite IH.
  - by rewrite decide_False by tauto.
Qed.

Lemma hits_of_with c h key : hits_of (with_hits c h) key = default [] (dget key h).
Proof. done. Qed.

(** [_prune] drops exactly the hits of the key that left the window. *)
Lemma prune_spec c key now :
  window (_prune c key now) = window c ∧ max_requests (_prune c key now) = max_requests c ∧
  hits_of (_prune c key now) key = after (now - inject_Z (window c)) (hits_of c key) ∧
  (∀ k, k ≠ key → hits_of (_prune c key now) k = hits_of c k).
Proof.
  unfold _prune. destruct (dget key (_hits c)) as [[|t l]|] eqn:E;
    [by split_and!; [..|unfold hits_of; rewrite E|]| |by split_and!; [..|unfold hits_of; rewrite E|]].
  unfold hits_of at 2. rewrite E. cbn [default].
  destruct (after _ (t :: l)) as [|t' l'] eqn:Ea; split_and!; [done..| | |done|done| |];
    [|intros k Hk|..|intros k Hk]; rewrite hits_of_with, ?dget_ddel, ?dget_dset.
  all: by rewrite ?decide_True, ?decide_False by done.
Qed.

Lemma prune_nodup c key now : NoDup (_hits c).*1 → NoDup (_hits (_prune c key now)).*1.
Proof.
  intros Hn. unfold _prune. destruct (dget key (_hits c)) as [[|t l]|]; [done| |done].
  destruct (after _ _); [|by apply dset_keys_NoDup].
  eapply sublist_NoDup; [exact Hn|apply ddel_keys_sub].
Qed.

Lemma foldl_ddel_spec (keys : list string) (h : list (string * list Q)) k :
  dget k (foldl (λ h k, ddel k h) h keys) = if decide (k ∈ keys) then None else dget k h.
Proof.
  revert h. induction keys as [|k0 keys IH]; intros h; cbn; [done|]. rewrite IH, dget_ddel.
  destruct (decide (k ∈ keys)), (decide (k = k0)), (decide (k ∈ k0 :: keys)); set_solver.
Qed.

Lemma foldl_ddel_sub (keys : list string) (h : list (string * list Q)) :
  (foldl (λ h k, ddel k h) h keys).*1 `sublist_of` h.*1.
Proof.
  revert h. induction keys as [|k0 keys IH]; intros h; cbn; [done|].
  etrans; [apply IH|apply ddel_keys_sub].
Qed.

(** A cleanup pass only forgets keys whose hits all left the window. *)
Lemma cleanup_spec c now key : 0 ≤ window c → NoDup (_hits c).*1 →
  hits_of (_periodic_cleanup c now) key = hits_of c key ∨
  hits_of (_periodic_cleanup c now) key = after (now - inject_Z (window c)) (hits_of c key).
Proof.
  intros Hw Hnd. unfold _periodic_cleanup. rewrite hits_of_with, foldl_ddel_spec.
  case_decide as Hin; [right|by left]. cbn.
  apply list_elem_of_fmap in Hin as ([k v] & -> & [Hv Hin]%list_elem_of_filter).
  cbn. unfold hits_of. rewrite (dget_mem k v) by done. cbn. symmetry. apply after_nil.
  apply Forall_forall. intros t Ht.
  pose proof (proj1 (forallb_forall _ _) Hv t) as Hlt. rewrite Qltb_lt in Hlt.
  rewrite inject_Z_mult in Hlt. change (inject_Z 2) with 2%Q in Hlt.
  assert (0 <= inject_Z (window c))%Q by (rewrite (Zle_Qle 0) in Hw; done).
  specialize (Hlt (proj1 (list_elem_of_In _ _) Ht)). lra.
Qed.

Section limiter.
Context (w m : Z) (Hw : 0 < w) (Hm : 0 < m).

Definition conf (c : SlidingWindowCounter) : Prop := window c = w ∧ max_requests c = m.

Lemma inject_w_pos : (0 < inject_Z w)%Q.
Proof. change 0%Q with (inject_Z 0). by rewrite <- Zlt_Qlt. Qed.

Lemma tracks_init : tracks (counter_init w m) [] 0 ∧ conf (counter_init w m).
Proof.
  split; [|done]. split; cbn.
  - intros key. exists (0 - inject_Z w)%Q. by split; [cbn; lra|].
  - constructor.
  - constructor.
  - intros. lia.
Qed.

Lemma tracks_later c log now now' : (now <= now')%Q → tracks c log now → tracks c log now'.
Proof.
  intros Hle [H1 H2 H3 H4]. split; [|intros key|done|done].
  - intros key. destruct (H1 key) as (a & Ha & E). exists a. split; [lra|done].
  - eapply Forall_impl; [apply H2|]. cbn. intros. lra.
Qed.

Lemma tracks_cleanup c log now : conf c → tracks c log now → tracks (_periodic_cleanup c now) log now.
Proof.
  intros [Ew Em] [H1 H2 H3 H4]. split; [|done| |done].
  - intros key. destruct (H1 key) as (a & Ha & E). cbn [window _periodic_cleanup with_hits].
    destruct (cleanup_spec c now key) as [->| ->]; [lia|done|by exists a|].
    exists (now - inject_Z (window c))%Q. split; [lra|]. rewrite E. by apply after_after.
  - eapply sublist_NoDup; [exact H3|apply foldl_ddel_sub].
Qed.

(** What [allow] sees of the key once pruned: the accepted requests still in the
    window. *)
Lemma allow_current c log now key : conf c → tracks c log now →
  hits_of (_prune c key now) key = after (now - inject_Z w) (accepted key log).
Proof.
  intros [Ew Em] [H1 _ _ _]. destruct (H1 key) as (a & Ha & E).
  destruct (prune_spec c key now) as (_ & _ & -> & _). rewrite Ew in *. rewrite E.
  by apply after_after.
Qed.

Lemma tracks_prune c log now key : conf c → tracks c log now → tracks (_prune c key now) log now.
Proof.
  intros Hc Ht. pose proof (allow_current c log now key Hc Ht) as Hk. destruct Hc as [Ew Em].
  destruct Ht as [H1 H2 H3 H4]. destruct (prune_spec c key now) as (Pw & Pm & _ & Po).
  split; [|done|by apply prune_nodup|].
  - intros k. rewrite Pw. destruct (decide (k = key)) as [->|Hne].
    + exists (now - inject_Z w)%Q. rewrite Hk, Ew. by split; [lra|].
    + rewrite (Po k Hne). apply H1.
  - rewrite Pw, Pm. done.
Qed.

(** Accepting one more request keeps every window within the limit. *)
Lemma bound_snoc now times t : Forall (λ x, (x <= now)%Q) times →
  Z.of_nat (length (in_window w t times)) ≤ m →
  Z.of_nat (length (after (now - inject_Z w) times)) < m →
  Z.of_nat (length (in_window w t (times ++ [now]))) ≤ m.
Proof.
  intros Hp Hb Hc. rewrite in_window_app, length_app.
  destruct (Qlt_le_dec t now) as [Hlt|Hge].
  - replace (in_window w t [now]) with (@nil Q); [cbn; lia|].
    symmetry. unfold in_window. pose proof (length_filter (λ x, Qle_bool x t = true) (after (t - inject_Z w) [now])).
    unfold after. rewrite list_filter_filter, filter_cons_False; [done|].
    intros [E%Qle_bool_iff _]. lra.
  - pose proof (in_window_le w t [now]) as H1. pose proof (in_window_le w t times) as H2.
    assert (length (after (t - inject_Z w) [now]) ≤ 1)%nat by apply length_filter.
    pose proof (after_length_mono (now - inject_Z w) (t - inject_Z w) times ltac:(lra)). lia.
Qed.

Lemma tracks_accept c log now key : conf c → tracks c log now →
  Z.of_nat (length (hits_of (_prune c key now) key)) < m →
  let c1 := _prune c key now in
  tracks (with_hits c1 (dset key (hits_of c1 key ++ [now]) (_hits c1))) (log ++ [(key, now)]) now.
Proof.
  intros Hc Ht Hlt c1. pose proof (tracks_prune c log now key Hc Ht) as [P1 P2 P3 P4].
  pose proof (allow_current c log now key Hc Ht) as Hk. fold c1 in Hk, P1, P2, P3, P4, Hlt.
  destruct Hc as [Ew Em]. destruct (prune_spec c key now) as (Pw & Pm & _ & _). fold c1 in Pw, Pm.
  rewrite Hk in Hlt. pose proof inject_w_pos as Hwp.
  split; cbn [window max_requests _hits with_hits].
  - intros k. rewrite hits_of_with, dget_dset, accepted_snoc, Pw, Ew.
    destruct (decide (k = key)) as [->|Hne]; cbn.
    + exists (now - inject_Z w)%Q. split; [lra|]. rewrite decide_True by done.
      rewrite after_app, <- Hk. f_equal. unfold after. rewrite filter_cons_True; [done|].
      rewrite Qltb_lt. lra.
    + rewrite decide_False by done. rewrite app_nil_r. rewrite <- Ew, <- Pw. apply P1.
  - intros k. rewrite accepted_snoc. apply Forall_app. split; [apply P2|].
    case_decide; constructor; [lra|constructor].
  - by apply dset_keys_NoDup.
  - intros k t. rewrite accepted_snoc, Pw, Pm, Ew, Em. rewrite Pw, Pm, Ew, Em in P4.
    case_decide; [subst k|rewrite app_nil_r; apply P4]. apply bound_snoc; [apply P2|apply P4|done].
Qed.

Lemma allow_spec c log now key : conf c → tracks c log now →
  let '(c', ans) := allow c key now in
  let n := Z.of_nat (length (after (now - inject_Z w) (accepted key log))) in
  conf c' ∧
  if n <? m then
    ans = Ok (true, allow_headers m (m - n - 1) (Qtrunc (now + inject_Z w))) ∧
    tracks c' (log ++ [(key, now)]) now
  else
    tracks c' log now ∧
    ∃ oldest rest, hits_of c' key = oldest :: rest ∧
      after (now - inject_Z w) (accepted key log) = oldest :: rest ∧
      ans = Ok (false, reject_headers m (Qtrunc (now + inject_Z w)) (retry_after c' now oldest)).
Proof.
  intros Hc Ht. pose proof (allow_current c log now key Hc Ht) as Hk.
  pose proof (tracks_prune c log now key Hc Ht) as Htp.
  pose proof (tracks_accept c log now key Hc Ht) as Hta.
  assert (conf (_prune c key now)) as [Ew Em].
  { unfold conf. destruct (prune_spec c key now) as (-> & -> & _). by destruct Hc. }
  unfold allow. rewrite <- Hk, Ew, Em. cbv zeta in *.
  set (c1 := _prune c key now) in *. set (n := Z.of_nat (length (hits_of c1 key))) in *.
  destruct (Z.leb_spec m n), (Z.ltb_spec n m); try lia.
  - destruct (hits_of c1 key) as [|oldest rest] eqn:Eh; [cbn in n; lia|].
    split; [done|]. split; [done|]. by exists oldest, rest.
  - split; [done|]. split; [|by apply Hta]. do 3 f_equal. lia.
Qed.

(** The clock reading of the last operation. *)
Definition last_time (now : Q) (ops : list op) : Q := foldl (λ _ o, op_time o) now ops.

Lemma last_time_le ops : ∀ a t, StronglySorted Qle (a :: map op_time ops ++ [t]) → (last_time a ops <= t)%Q.
Proof.
  induction ops as [|o ops IH]; intros a t Hs; inversion_clear Hs as [|? ? Hs' Hf]; cbn in *.
  - by apply Forall_inv in Hf.
  - by apply IH.
Qed.

Lemma sorted_prefix a l t : StronglySorted Qle (a :: l ++ [t]) → StronglySorted Qle (a :: l).
Proof. rewrite app_comm_cons. apply StronglySorted_app_1_l. Qed.

Lemma run_tracks ops : ∀ c log now, conf c → tracks c log now →
  StronglySorted Qle (now :: map op_time ops) →
  let '(c', log') := run c ops in
  conf c' ∧ tracks c' (log ++ log') (last_time now ops).
Proof.
  induction ops as [|[key t|t] ops IH]; intros c log now Hc Ht Hs.
  - cbn. by rewrite app_nil_r.
  - cbn [run]. inversion_clear Hs as [|? ? Hs' Hf]. cbn in Hf, Hs'.
    pose proof (Forall_inv Hf) as Hle. apply (tracks_later _ _ _ t) in Ht; [|done].
    pose proof (allow_spec c log t key Hc Ht) as Ha. destruct (allow c key t) as [c1 ans].
    cbv zeta in Ha. destruct Ha as [Hc1 Ha].
    destruct (_ <? m).
    + destruct Ha as [-> Ht1]. specialize (IH c1 _ t Hc1 Ht1 Hs').
      destruct (run c1 ops) as [c' log']. by rewrite <- app_assoc in IH.
    + destruct Ha as (Ht1 & o & r & _ & _ & ->). specialize (IH c1 _ t Hc1 Ht1 Hs').
      by destruct (run c1 ops) as [c' log'].
  - cbn [run]. inversion_clear Hs as [|? ? Hs' Hf]. cbn in Hf, Hs'.
    pose proof (Forall_inv Hf) as Hle. apply (tracks_later _ _ _ t) in Ht; [|done].
    specialize (IH (_periodic_cleanup c t) log t Hc (tracks_cleanup c log t Hc Ht) Hs').
    done.
Qed.
End limiter.

(** A history of requests at non-negative, non-decreasing clock readings. *)
Definition history (ops : list op) : Prop := StronglySorted Qle (0%Q :: map op_time ops).

(** C10: Whatever requests and cleanup passes the limiter serves, no client ever
    gets more than [max_requests] requests through in any window of
    [window_seconds]. *)
Theorem never_exceeds_limit w m ops key t :
  0 < w → 0 < m → history ops →
  let '(_, log) := run (counter_init w m) ops in
  Z.of_nat (length (in_window w t (accepted key log))) ≤ m.
Proof.
  intros Hw Hm Hh. destruct (tracks_init w m Hm) as [Ht Hc].
  pose proof (run_tracks w m Hw Hm ops (counter_init w m) [] 0 Hc Ht Hh) as H.
  destruct (run _ ops) as [c log]. destruct H as [[Ew Em] [_ _ _ H4]].
  specialize (H4 key t). by rewrite Ew, Em in H4.
Qed.

(** [Retry-After] covers the time until the oldest hit leaves the window. *)
Lemma retry_after_bounds w now oldest c :
  window c = w → (now - inject_Z w < oldest)%Q → (oldest <= now)%Q →
  0 < retry_after c now oldest ∧ retry_after c now oldest ≤ w + 1 ∧
  (oldest + inject_Z w < now + inject_Z (retry_after c now oldest))%Q.
Proof.
  intros Ew H1 H2. unfold retry_after, Qtrunc. rewrite Ew.
  set (x := (inject_Z w - (now - oldest))%Q). assert (x == inject_Z w - (now - oldest))%Q as Ex by reflexivity.
  clearbody x. assert (0 < x)%Q as Hx by lra.
  rewrite (proj2 (Qle_bool_iff 0 x)) by lra.
  pose proof (Qlt_floor x) as Hf. pose proof (Qfloor_le x) as Hg.
  assert (0 <= Qfloor x)%Z by (apply (Qfloor_resp_le 0 x); lra).
  split_and!; [lia| |lra].
  assert (inject_Z (Qfloor x) <= inject_Z w)%Q as Hle by lra.
  rewrite <- Zle_Qle in Hle. lia.
Qed.

(** Once the oldest kept hit has left the window, the next request is served. *)
Lemma served_after_retry w m c log now key oldest rest later :
  0 < w → 0 < m → conf w m c → tracks c log now → hits_of c key = oldest :: rest →
  Z.of_nat (length rest) < m → (oldest <= later - inject_Z w)%Q →
  ∃ hs, (allow c key later).2 = Ok (true, hs).
Proof.
  intros Hw Hm [Ew Em] Ht Eh Hr Ho. unfold allow.
  destruct (prune_spec c key later) as (Pw & Pm & Ph & _).
  rewrite Ph, Pm, Eh, Ew, Em. unfold after. rewrite filter_cons_False; [|rewrite Qltb_lt; lra].
  pose proof (length_filter (λ t, Qltb (later - inject_Z w) t = true) rest) as Hf.
  rewrite (proj2 (Z.leb_gt _ _)) by lia. cbn. by eexists.
Qed.

(** The limiter rejects a request exactly when the client already got
    [max_requests] requests through in the window that ends now, it never
    raises, and the [Retry-After] it answers is honest: it is between 1 and
    [window + 1] seconds, and a client that waits that long is served. *)
Theorem reject_exact_and_retry_after_honest w m ops key now :
  0 < w → 0 < m → history (ops ++ [Req key now]) →
  let '(c, log) := run (counter_init w m) ops in
  let n := Z.of_nat (length (in_window w now (accepted key log))) in
  let '(c', ans) := allow c key now in
  (n < m ∧ ∃ hs, ans = Ok (true, hs)) ∨
  (n = m ∧ ∃ reset r, ans = Ok (false, reject_headers m reset r) ∧ 0 < r ≤ w + 1 ∧
     ∀ later, (now + inject_Z r <= later)%Q → ∃ hs, (allow c' key later).2 = Ok (true, hs)).
Proof.
  intros Hw Hm Hh. unfold history in Hh. rewrite map_app in Hh. cbn [map op_time] in Hh.
  destruct (tracks_init w m Hm) as [Ht Hc].
  pose proof (run_tracks w m Hw Hm ops (counter_init w m) [] 0 Hc Ht (sorted_prefix _ _ _ Hh)) as H.
  apply last_time_le in Hh. destruct (run _ ops) as [c log]. destruct H as [Hcc Htt].
  apply (tracks_later _ _ _ now) in Htt; [|done]. cbn [app] in Htt. cbv zeta.
  rewrite in_window_all by apply Htt.
  pose proof (allow_spec w m Hw Hm c log now key Hcc Htt) as Ha.
  destruct (allow c key now) as [c' ans]. cbv zeta in Ha. destruct Ha as [Hc' Ha].
  destruct (Z.ltb_spec (Z.of_nat (length (after (now - inject_Z w) (accepted key log)))) m) as [Hlt|Hge].
  - left. split; [done|]. destruct Ha as [-> _]. by eexists.
  - right. destruct Ha as (Ht' & oldest & rest & Eh & Ea & ->).
    pose proof (tr_bound _ _ _ Htt key now) as Hb.
    rewrite in_window_all in Hb by apply Htt. destruct Hcc as [Ew Em]. rewrite Ew, Em in Hb.
    split; [lia|]. eexists _, (retry_after c' now oldest). split; [done|].
    assert (oldest ∈ after (now - inject_Z w) (accepted key log)) as Hin by (rewrite Ea; left).
    unfold after in Hin. apply list_elem_of_filter in Hin as [Ho Hin]. apply Qltb_lt in Ho.
    assert (oldest <= now)%Q as Hp
      by (pose proof (tr_past _ _ _ Htt key) as Hf; rewrite Forall_forall in Hf; by apply Hf).
    destruct (retry_after_bounds w now oldest c' (proj1 Hc') Ho Hp) as (R1 & R2 & R3).
    split; [lia|]. intros later Hl.
    eapply (served_after_retry w m); [exact Hw|exact Hm|exact Hc'|exact Ht'|exact Eh| |]; [|lra].
    rewrite Ea in Hb. cbn in Hb. lia.
Qed.

Definition demo_ops : list op :=
  [Req "ip:a" 1; Req "ip:a" 2; Req "ip:b" 2; Req "ip:a" 3; Cleanup 4; Req "ip:a" (5 # 1)]%string.

Lemma demo_history : history (demo_ops ++ [Req "ip:a"%string 6%Q]).
Proof.
  unfold history. cbn.
  repeat first [apply SSorted_cons | apply SSorted_nil | apply Forall_nil; exact I
    | apply Forall_cons; split; [unfold Qle; cbn; lia|]].
Qed.

Lemma never_exceeds_limit_witness :
  let '(_, log) := run (counter_init 60 2) (demo_ops ++ [Req "ip:a"%string 6%Q]) in
  Z.of_nat (length (in_window 60 6 (accepted "ip:a" log))) ≤ 2.
Proof. apply (never_exceeds_limit 60 2 _ "ip:a" 6); [lia|lia|apply demo_history]. Defined.

Lemma reject_exact_and_retry_after_honest_witness :
  let '(c, log) := run (counter_init 60 2) demo_ops in
  let n := Z.of_nat (length (in_window 60 6 (accepted "ip:a" log))) in
  let '(c', ans) := allow c "ip:a" 6 in
  (n < 2 ∧ ∃ hs, ans = Ok (true, hs)) ∨
  (n = 2 ∧ ∃ reset r, ans = Ok (false, reject_headers 2 reset r) ∧ 0 < r ≤ 61 ∧
     ∀ later, (6 + inject_Z r <= later)%Q → ∃ hs, (allow c' "ip:a" later).2 = Ok (true, hs)).
Proof.
  apply (reject_exact_and_retry_after_honest 60 2 demo_ops "ip:a" 6); [lia|lia|apply demo_history].
Defined.

(** The demo really has a rejection: the third request of [ip:a]. *)
Example demo_rejects : is_ok (allow (run (counter_init 60 2) demo_ops).1 "ip:a" 6).2 = true
  ∧ accepted "ip:a" (run (counter_init 60 2) demo_ops).2 = [1; 2]%Q.
Proof. by vm_compute. Qed.

(** ** Who is limited *)
Section identity.
Context {addr network : Type} (addr_eqb : addr → addr → bool).
Context (ip_address : string → option addr) (ip_network : string → option network).
Context (in_network : addr → network → bool) (sha256_hex : string → string).
Abbreviation client_key := (_client_key addr_eqb ip_address ip_network in_network sha256_hex).
Abbreviation in_trusted := (_ip_in_trusted addr_eqb ip_address ip_network in_network).

(** The peer's address counts as a proxy. *)
Definition behind_proxy (trusted : list string) (r : Request) : bool :=
  match client_host r with Some h => nonempty h && in_trusted h trusted | None => false end.

Lemma client_key_prefix trusted r :
  ∃ rest, client_key trusted r = ((if nonempty (api_key r) then "k:" else "ip:") +:+ rest)%string.
Proof.
  unfold _client_key. destruct (nonempty (api_key r)); [by eexists|].
  destruct (_ && _); by eexists.
Qed.

(** A client cannot choose its bucket by forging headers: without an API key
    and unless its own address is a trusted proxy, [X-Forwarded-For] has no
    influence on the key; two API keys share a bucket only if SHA-256 maps them
    to the same digest; and an API-key client never shares a bucket with an
    address-identified one. *)
Theorem client_key_unforgeable trusted r1 r2 :
  (api_key r1 = api_key r2 → client_host r1 = client_host r2 → behind_proxy trusted r1 = false →
     client_key trusted r1 = client_key trusted r2) ∧
  (client_key trusted r1 = client_key trusted r2 →
     nonempty (api_key r1) = nonempty (api_key r2) ∧
     (nonempty (api_key r1) = true → sha256_hex (api_key r1) = sha256_hex (api_key r2))).
Proof.
  split.
  - intros E1 E2 Hp. unfold _client_key. unfold behind_proxy in Hp. rewrite <- E1, <- E2.
    destruct (nonempty (api_key r1)); [done|].
    assert (∀ b, b && nonempty (default ""%string (client_host r1)) &&
      in_trusted (default ""%string (client_host r1)) trusted = false) as Hf.
    { intros b. destruct (client_host r1) as [h|]; cbn in *;
        [rewrite <- andb_assoc, Hp|]; by rewrite ?andb_false_r. }
    by rewrite !Hf.
  - intros E. pose proof (client_key_prefix trusted r1) as [x1 F1].
    pose proof (client_key_prefix trusted r2) as [x2 F2]. pose proof E as E'. rewrite F1, F2 in E'.
    unfold _client_key in E.
    destruct (nonempty (api_key r1)), (nonempty (api_key r2)); try discriminate E'.
    + split; [done|]. intros _. by simplify_eq.
    + done.
Qed.
End identity.
