(* ===== verification/Ledger.v ===== *)
(** * Contribution ledger ([noema/billing/ledger.py])

    The in-memory list is bounded, the JSONL file is append-only.  [json.dumps] of
    an entry, and [json.loads] followed by the keyword construction of [LedgerEntry] on a line, are
    parameters; uuids, clock readings and the outcome of each file write come from
    the environment. *)
From Stdlib Require Import ZArith QArith Lqa Lia Bool String.
From stdpp Require Import base option numbers sets strings pretty sorting list.
From S2P Require Import Prelude.
Local Open Scope Z_scope.

Record LedgerEntry := mkEntry {
  entry_id : string;
  timestamp : Q;
  node_id : string;
  task_id : string;
  subtask_id : string;
  kind : string;
  provider : string;
  model : string;
  input_tokens : Z;
  output_tokens : Z;
  total_tokens : Z;
  cost_usd : Q;
  peer : string;
  artifact_ref : string;
  meta : list (string * json);
}.

(** [dataclasses.asdict] *)
Definition to_dict (e : LedgerEntry) : list (string * json) :=
  [("entry_id", JStr (entry_id e)); ("timestamp", JNum (timestamp e)); ("node_id", JStr (node_id e));
   ("task_id", JStr (task_id e)); ("subtask_id", JStr (subtask_id e)); ("kind", JStr (kind e));
   ("provider", JStr (provider e)); ("model", JStr (model e));
   ("input_tokens", JNum (inject_Z (input_tokens e)));
   ("output_tokens", JNum (inject_Z (output_tokens e)));
   ("total_tokens", JNum (inject_Z (total_tokens e))); ("cost_usd", JNum (cost_usd e));
   ("peer", JStr (peer e)); ("artifact_ref", JStr (artifact_ref e)); ("meta", JObj (meta e))]%string.

(** The arguments of [record], the fresh id and clock reading of the entry, and
    whether the write to the file succeeds. *)
Record record_call := mkCall {
  c_entry_id : string; c_timestamp : Q;
  c_node_id : string; c_task_id : string; c_subtask_id : string; c_kind : string;
  c_provider : string; c_model : string; c_input_tokens : Z; c_output_tokens : Z;
  c_cost_usd : Q; c_peer : string; c_artifact_ref : string; c_meta : list (string * json);
  c_write_ok : bool;
}.

Record ContributionLedger := mkLedger {
  path : bool;                (* a file is configured *)
  max_entries : Z;
  _entries : list LedgerEntry;
  file : option (list string); (* the file's lines; [None] when it does not exist *)
}.

Definition ledger_init (path : bool) (max_entries : Z) (file : option (list string)) : ContributionLedger :=
  mkLedger path (Z.max 1 max_entries) [] file.

(** What a line of the file gives: blank after [strip], not JSON, JSON with keys
    [LedgerEntry] does not have, or an entry. *)
Inductive parsed := Blank | Corrupt | BadKeys | Entry (e : LedgerEntry).

Section ledger.
Context (dumps : LedgerEntry → string) (parse_line : string → parsed).

(** The entry [record] builds: negative token counts and costs become 0. *)
Definition make_entry (c : record_call) : LedgerEntry :=
  mkEntry (c_entry_id c) (c_timestamp c) (c_node_id c) (c_task_id c) (c_subtask_id c) (c_kind c)
    (c_provider c) (c_model c) (Z.max (c_input_tokens c) 0) (Z.max (c_output_tokens c) 0)
    (Z.max (c_input_tokens c) 0 + Z.max (c_output_tokens c) 0) (Qmaxb (c_cost_usd c) 0)
    (c_peer c) (c_artifact_ref c) (c_meta c).

Definition _append_to_file (l : ContributionLedger) (e : LedgerEntry) (write_ok : bool) : ContributionLedger :=
  if path l && write_ok
  then mkLedger (path l) (max_entries l) (_entries l) (Some (default [] (file l) ++ [dumps e]))
  else l.

Definition record (l : ContributionLedger) (c : record_call) : ContributionLedger * LedgerEntry :=
  let entry := make_entry c in
  let es := _entries l ++ [entry] in
  let es := if max_entries l <? Z.of_nat (length es) then py_last (Z.to_nat (max_entries l)) es else es in
  (_append_to_file (mkLedger (path l) (max_entries l) es (file l)) entry (c_write_ok c), entry).

(** The accumulator of one node in [per_node]. *)
Record node_agg := mkAgg {
  a_entries : Z; a_input : Z; a_output : Z; a_total : Z; a_cost : Q; a_delegated : Z;
}.

Definition agg0 : node_agg := mkAgg 0 0 0 0 0 0.

Definition agg_add (a : node_agg) (e : LedgerEntry) : node_agg :=
  mkAgg (a_entries a + 1) (a_input a + input_tokens e) (a_output a + output_tokens e)
    (a_total a + total_tokens e) (a_cost a + cost_usd e)
    (if String.eqb (peer e) "" then a_delegated a else a_delegated a + 1).

Definition agg_step (nodes : list (string * node_agg)) (e : LedgerEntry) : list (string * node_agg) :=
  dset (node_id e) (agg_add (default agg0 (dget (node_id e) nodes)) e) nodes.

Definition for_task (task : string) (es : list LedgerEntry) : list LedgerEntry :=
  if String.eqb task "" then es else filter (λ e, task_id e = task) es.

Record node_report := mkReport {
  r_nodes : list (string * node_agg); r_total_cost : Q; r_total_tokens : Z;
}.

Definition sumZ (l : list Z) : Z := foldr Z.add 0 l.
Definition sumQ (l : list Q) : Q := foldr Qplus 0%Q l.

Definition round_agg (a : node_agg) : node_agg :=
  mkAgg (a_entries a) (a_input a) (a_output a) (a_total a) (py_round6 (a_cost a)) (a_delegated a).

Definition per_node (l : ContributionLedger) (task : string) : node_report :=
  let entries := for_task task (_entries l) in
  let nodes := foldl agg_step [] entries in
  mkReport (map (λ '(n, a), (n, round_agg a)) (sorted_items nodes))
    (py_round6 (sumQ (map cost_usd entries))) (sumZ (map total_tokens entries)).

Definition entries_for (l : ContributionLedger) (task : string) : list (list (string * json)) :=
  map to_dict (filter (λ e, task_id e = task) (_entries l)).

Definition audit (l : ContributionLedger) : list (list (string * json)) * Z :=
  (map to_dict (_entries l), Z.of_nat (length (_entries l))).

(** The loop of [load] over the lines: an entry with unknown keys raises
    [TypeError] out of it. *)
Fixpoint load_lines (acc : list LedgerEntry) (lines : list string) : list LedgerEntry * option pyexn :=
  match lines with
  | [] => (acc, None)
  | line :: lines =>
      match parse_line line with
      | Blank | Corrupt => load_lines acc lines
      | BadKeys => (acc, Some TypeError)
      | Entry e => load_lines (acc ++ [e]) lines
      end
  end.

Definition load (l : ContributionLedger) : ContributionLedger * result pyexn Z :=
  match (if path l then file l else None) with
  | None => (mkLedger (path l) (max_entries l) [] (file l), Ok 0)
  | Some lines =>
      let '(es, exn) := load_lines [] lines in
      (mkLedger (path l) (max_entries l) es (file l),
       match exn with Some e => Err e | None => Ok (Z.of_nat (length es)) end)
  end.

(** ** Theorems *)
Definition record_all (l : ContributionLedger) (cs : list record_call) : ContributionLedger :=
  foldl (λ l c, (record l c).1) l cs.

Lemma py_last_snoc {A} n (l : list A) x : (0 < n)%nat →
  py_last n (py_last n l ++ [x]) = py_last n (l ++ [x]).
Proof.
  intros Hn. unfold py_last. rewrite !length_app, !length_drop. cbn.
  destruct (decide (length l < n)%nat) as [Hs|Hs].
  - replace (length l - n)%nat with 0%nat by lia. rewrite drop_0, Nat.sub_0_r. done.
  - replace (length l - (length l - n) + 1 - n)%nat with 1%nat by lia.
    replace (length l + 1 - n)%nat with ((length l - n) + 1)%nat by lia.
    rewrite <- (drop_drop (l ++ [x])). f_equal. rewrite drop_app_le by lia. done.
Qed.

Definition written (cs : list record_call) : list string :=
  map (λ c, dumps (make_entry c)) (filter (λ c, c_write_ok c = true) cs).

Definition file_of (l : ContributionLedger) : list string := default [] (file l).

Lemma record_all_spec cs : ∀ es fl p m, 1 ≤ m →
  let l := record_all (mkLedger p m (py_last (Z.to_nat m) es) fl) cs in
  _entries l = py_last (Z.to_nat m) (es ++ map make_entry cs) ∧
  max_entries l = m ∧ path l = p ∧
  file_of l = default [] fl ++ (if p then written cs else []).
Proof.
  induction cs as [|c cs IH]; intros es fl p m Hm.
  - cbn. rewrite !app_nil_r. split_and!; [done..|]. by destruct p; cbn; rewrite ?app_nil_r.
  - cbn [record_all foldl]. fold record_all.
    assert ((record (mkLedger p m (py_last (Z.to_nat m) es) fl) c).1 =
      mkLedger p m (py_last (Z.to_nat m) (es ++ [make_entry c]))
        (if p && c_write_ok c then Some (default [] fl ++ [dumps (make_entry c)]) else fl)) as E.
    { unfold record, _append_to_file. cbn [fst max_entries _entries path file].
      assert ((if m <? Z.of_nat (length (py_last (Z.to_nat m) es ++ [make_entry c]))
        then py_last (Z.to_nat m) (py_last (Z.to_nat m) es ++ [make_entry c])
        else py_last (Z.to_nat m) es ++ [make_entry c]) = py_last (Z.to_nat m) (es ++ [make_entry c])) as ->.
      { rewrite <- (py_last_snoc (Z.to_nat m) es) by lia.
        destruct (Z.ltb_spec m (Z.of_nat (length (py_last (Z.to_nat m) es ++ [make_entry c])))); [done|].
        symmetry. apply py_last_all. lia. }
      by destruct (p && c_write_ok c). }
    unfold record_all in *. rewrite E.
    specialize (IH (es ++ [make_entry c])
      (if p && c_write_ok c then Some (default [] fl ++ [dumps (make_entry c)]) else fl) p m Hm).
    cbn zeta in IH. destruct IH as (I1 & I2 & I3 & I4). split_and!; [|done|done|].
    + rewrite I1. cbn. by rewrite <- app_assoc.
    + rewrite I4. unfold written. destruct p; cbn [andb]; [|done].
      rewrite filter_cons. destruct (c_write_ok c) eqn:Ew; cbn.
      * by rewrite <- app_assoc.
      * done.
Qed.

(** The ledger never loses an entry it should keep: after any number of
    [record] calls the in-memory list is exactly the last [max_entries] recorded
    entries, oldest first, its length never passes [max(1, max_entries)], every
    entry has non-negative tokens, total and cost and [total = input + output],
    and the file has gained one line per successful write, in order. *)
Theorem ledger_keeps_latest p m fl cs :
  let l := record_all (ledger_init p m fl) cs in
  _entries l = py_last (Z.to_nat (Z.max 1 m)) (map make_entry cs) ∧
  Z.of_nat (length (_entries l)) ≤ Z.max 1 m ∧
  Forall (λ e, 0 ≤ input_tokens e ∧ 0 ≤ output_tokens e ∧ (0 <= cost_usd e)%Q ∧
               total_tokens e = input_tokens e + output_tokens e) (_entries l) ∧
  file_of l = default [] fl ++ (if p then written cs else []).
Proof.
  pose proof (record_all_spec cs [] fl p (Z.max 1 m) ltac:(lia)) as (H1 & H2 & H3 & H4).
  intros l. change (_entries l = py_last (Z.to_nat (Z.max 1 m)) (map make_entry cs)) in H1.
  split_and!; [done| | |done].
  - rewrite H1, py_last_length. lia.
  - rewrite H1. eapply (Forall_drop _ _ _). apply Forall_forall.
    intros e (c & -> & _)%list_elem_of_fmap. cbn. split_and!; [lia..| |done]. apply Qmaxb_spec.
Qed.

(** ** Aggregation *)
Definition of_node (n : string) (es : list LedgerEntry) : list LedgerEntry :=
  filter (λ e, node_id e = n) es.

(** The reference: a node's row is computed from its own entries. *)
Definition agg_of (es : list LedgerEntry) : node_agg := foldl agg_add agg0 es.

Lemma agg_fold_get es : ∀ nodes n,
  default agg0 (dget n (foldl agg_step nodes es)) =
  foldl agg_add (default agg0 (dget n nodes)) (of_node n es).
Proof.
  induction es as [|e es IH]; intros nodes n; [done|].
  cbn [foldl]. rewrite IH. unfold of_node. rewrite filter_cons. unfold agg_step. rewrite dget_dset.
  destruct (decide (n = node_id e)) as [->|Hne].
  - by rewrite decide_True.
  - by rewrite decide_False by congruence.
Qed.

Lemma agg_fold_keys es : ∀ nodes n,
  n ∈ (foldl agg_step nodes es).*1 ↔ n ∈ nodes.*1 ∨ n ∈ map node_id es.
Proof.
  induction es as [|e es IH]; intros nodes n; cbn [foldl map]; [set_solver|].
  rewrite IH. unfold agg_step. rewrite elem_of_dset_keys. set_solver.
Qed.

Lemma agg_fold_nodup es : ∀ nodes, NoDup nodes.*1 → NoDup (foldl agg_step nodes es).*1.
Proof.
  induction es as [|e es IH]; intros nodes Hn; [done|]. cbn. apply IH. by apply dset_keys_NoDup.
Qed.

(** Summing over the groups counts each entry once. *)
Lemma sum_groups (f : LedgerEntry → Z) (names : list string) es :
  NoDup names → (∀ e, e ∈ es → node_id e ∈ names) →
  sumZ (map (λ n, sumZ (map f (of_node n es))) names) = sumZ (map f es).
Proof.
  intros Hnd. induction es as [|e es IH]; intros Hin.
  - clear. induction names; [done|]. done.
  - assert (∀ ns, NoDup ns →
      sumZ (map (λ n, sumZ (map f (of_node n (e :: es)))) ns) =
      (if decide (node_id e ∈ ns) then f e else 0) + sumZ (map (λ n, sumZ (map f (of_node n es))) ns)) as Hs.
    { induction ns as [|n ns IHn]; intros Hns; [done|]. apply list.NoDup_cons in Hns as [Hn Hns].
      cbn [map sumZ foldr]. change (foldr Z.add 0) with sumZ. rewrite IHn by done.
      unfold of_node at 1. rewrite filter_cons. fold (of_node n es).
      destruct (decide (node_id e = n)) as [->|Hne].
      - rewrite (decide_False (P := n ∈ ns)) by done. rewrite decide_True by set_solver.
        cbn. change (foldr Z.add 0) with sumZ. lia.
      - destruct (decide (node_id e ∈ ns)); [rewrite decide_True by set_solver|rewrite decide_False by set_solver];
          unfold of_node; lia. }
    rewrite Hs by done. rewrite decide_True by (apply Hin; left). rewrite IH by (intros; apply Hin; by right).
    done.
Qed.

Lemma agg_add_sums es : ∀ a,
  a_entries (foldl agg_add a es) = a_entries a + Z.of_nat (length es) ∧
  a_total (foldl agg_add a es) = a_total a + sumZ (map total_tokens es).
Proof.
  induction es as [|e es IH]; intros a; cbn [foldl map sumZ foldr length]; [cbn; lia|].
  destruct (IH (agg_add a e)) as [-> ->]. cbn. change (foldr Z.add 0) with sumZ. lia.
Qed.

Lemma sumZ_perm l l' : l ≡ₚ l' → sumZ l = sumZ l'.
Proof. unfold sumZ. induction 1; cbn; lia. Qed.

(** [per_node] reports every node with entries exactly once, in ascending
    order of name, each row being the totals of that node's own entries, and the
    rows add up: the entry counts sum to the number of entries and the tokens to
    the reported total, for the whole ledger and for any one task. *)
Theorem per_node_conserves l task :
  let es := for_task task (_entries l) in
  let rep := per_node l task in
  StronglySorted string_le (map fst (r_nodes rep)) ∧
  NoDup (map fst (r_nodes rep)) ∧
  (∀ n, n ∈ map fst (r_nodes rep) ↔ n ∈ map node_id es) ∧
  (∀ n a, (n, a) ∈ r_nodes rep → a = round_agg (agg_of (of_node n es))) ∧
  sumZ (map (λ p, a_entries p.2) (r_nodes rep)) = Z.of_nat (length es) ∧
  sumZ (map (λ p, a_total p.2) (r_nodes rep)) = r_total_tokens rep.
Proof.
  cbv zeta. set (es := for_task task (_entries l)). unfold per_node. fold es. cbn [r_nodes r_total_tokens].
  set (nodes := foldl agg_step [] es).
  assert (NoDup nodes.*1) as Hnd by (apply agg_fold_nodup; constructor).
  pose proof (sorted_items_perm nodes) as Hp.
  assert (∀ n, n ∈ nodes.*1 ↔ n ∈ map node_id es) as Hk
    by (intros n; unfold nodes; rewrite agg_fold_keys; set_solver).
  assert (∀ n a, (n, a) ∈ nodes → a = agg_of (of_node n es)) as Hrow.
  { intros n a Hin. apply dget_mem in Hin; [|done].
    pose proof (agg_fold_get es [] n) as Hg. fold nodes in Hg. by rewrite Hin in Hg. }
  assert (map fst (map (λ '(n, a), (n, round_agg a)) (sorted_items nodes)) = (sorted_items nodes).*1) as Ek.
  { rewrite map_map. apply map_ext. by intros []. }
  assert (∀ g h, (∀ n, g (round_agg (agg_of (of_node n es))) = sumZ (map h (of_node n es))) →
    sumZ (map (λ p, g p.2) (map (λ '(n, a), (n, round_agg a)) (sorted_items nodes))) = sumZ (map h es)) as Hsum.
  { intros g h Hg. rewrite (sumZ_perm _ (map (λ p, g (round_agg p.2)) nodes)).
    2:{ rewrite map_map, (map_ext _ (λ p, g (round_agg p.2))) by (by intros []). by apply (Permutation_map (λ p, g (round_agg p.2))). }
    rewrite <- (sum_groups h nodes.*1) by (done || intros e He; apply Hk; by apply list_elem_of_fmap_2).
    change (nodes.*1) with (map fst nodes). rewrite map_map. f_equal. apply map_ext_in.
    intros [n a] Hin%list_elem_of_In. cbn. by rewrite (Hrow n a Hin). }
  rewrite Ek. split_and!.
  - apply sorted_items_sorted.
  - by rewrite Hp.
  - intros n. rewrite Hp. apply Hk.
  - intros n a ([n' a'] & [= -> ->] & Hin)%list_elem_of_fmap. rewrite Hp in Hin. f_equal. by apply Hrow.
  - rewrite (Hsum a_entries (λ _, 1)).
    + clear. induction es as [|e es IH]; [done|]. cbn. unfold sumZ in IH. lia.
    + intros n. cbn [a_entries round_agg]. unfold agg_of. rewrite (proj1 (agg_add_sums _ _)). cbn [a_entries agg0].
      generalize (of_node n es). induction l0; [done|]. cbn. unfold sumZ in IHl0. lia.
  - rewrite (Hsum a_total total_tokens); [done|]. intros n. cbn [a_total round_agg]. unfold agg_of.
    by rewrite (proj2 (agg_add_sums _ _)).
Qed.

(** ** Reloading *)
Lemma load_written es acc rest : Forall (λ e, parse_line (dumps e) = Entry e) es →
  load_lines acc (map dumps es ++ rest) = load_lines (acc ++ es) rest.
Proof.
  intros Hp. revert acc. induction Hp as [|e es He _ IH]; intros acc; cbn; [by rewrite app_nil_r|].
  rewrite He, IH, <- app_assoc. done.
Qed.

(** A fresh process that loads the file of a ledger gets every entry whose
    write succeeded, in order, whatever the writer's in-memory cap -- and without
    applying its own: the loaded list is longer than [max_entries] as soon as
    the file is. *)
Theorem load_restores_everything m m' cs :
  Forall (λ c, parse_line (dumps (make_entry c)) = Entry (make_entry c)) cs →
  let w := record_all (ledger_init true m None) cs in
  let kept := map make_entry (filter (λ c, c_write_ok c = true) cs) in
  let '(r, ans) := load (ledger_init true m' (file w)) in
  _entries r = kept ∧ ans = Ok (Z.of_nat (length kept)) ∧ max_entries r = Z.max 1 m' ∧
  (Z.max 1 m' < Z.of_nat (length kept) → max_entries r < Z.of_nat (length (_entries r))).
Proof.
  intros Hp w kept. pose proof (record_all_spec cs [] None true (Z.max 1 m) ltac:(lia)) as (_ & _ & _ & H4).
  change (file_of w = written cs) in H4. unfold load, ledger_init. cbn [path file].
  assert (written cs = map dumps kept) as Ek by (unfold written, kept; by rewrite map_map).
  unfold file_of in H4. destruct (file w) as [lines|]; cbn in H4.
  - subst lines. rewrite Ek, <- (app_nil_r (map dumps kept)), load_written; [done|].
    apply Forall_map, Forall_forall. intros c [_ Hc]%list_elem_of_filter.
    by rewrite Forall_forall in Hp; apply Hp.
  - rewrite Ek in H4. destruct kept; [|done]. done.
Qed.
End ledger.

Definition demo_call (n : Z) : record_call :=
  mkCall "id" 0 "node-a" "t" "" "solution" "" "" n (-1) (1 # 3) "" "" [] true.

(** A codec for the demo entries, which differ only in their token count. *)
Definition demo_dumps (e : LedgerEntry) : string := pretty (input_tokens e).
Definition demo_parse (s : string) : parsed :=
  if String.eqb s "1" then Entry (make_entry (demo_call 1))
  else if String.eqb s "2" then Entry (make_entry (demo_call 2)) else Corrupt.

Lemma load_restores_everything_witness :
  let w := record_all demo_dumps (ledger_init true 1 None) [demo_call 1; demo_call 2] in
  let '(r, ans) := load demo_parse (ledger_init true 1 (file w)) in
  _entries w = [make_entry (demo_call 2)] ∧
  _entries r = [make_entry (demo_call 1); make_entry (demo_call 2)] ∧ ans = Ok 2.
Proof.
  assert (Forall (λ c, demo_parse (demo_dumps (make_entry c)) = Entry (make_entry c))
    [demo_call 1; demo_call 2]) as Hp by (repeat constructor).
  pose proof (load_restores_everything demo_dumps demo_parse 1 1 [demo_call 1; demo_call 2] Hp) as H.
  cbv zeta in *. destruct (load demo_parse _) as [r ans].
  destruct H as (H1 & H2 & _). split_and!; [reflexivity|exact H1|exact H2].
Defined.
