(* ===== verification/CostTracker.v ===== *)
(** * Cost attribution ([noema/billing/cost_tracker.py])

    Costs are exact rationals.  Redis and the database are parameters acting on a
    world [W]; the formatted day and month and the time stamp of a call come from
    the environment. *)
From Stdlib Require Import ZArith QArith Qround Lqa Lia Bool Ascii String.
From stdpp Require Import base option numbers sets strings pretty list.
From S2P Require Import Prelude.
Local Open Scope Z_scope.

Record price := mkPrice { p_input : Q; p_output : Q }.

Definition PRICING : list (string * price) :=
  [("gpt-4o-mini", mkPrice (15 # 100) (60 # 100)); ("gpt-4o", mkPrice (5 # 2) 10);
   ("claude-sonnet-4-5-20250929", mkPrice 3 15); ("claude-sonnet-4-20250514", mkPrice 3 15);
   ("o3", mkPrice 10 40); ("fallback", mkPrice 0 0)]%string.

Definition DEFAULT_PRICING : price := mkPrice (5 # 2) 10.

Definition calculate_cost (model : string) (input_tokens output_tokens : Z) : Q :=
  let pricing := default DEFAULT_PRICING (dget model PRICING) in
  ((inject_Z input_tokens * p_input pricing + inject_Z output_tokens * p_output pricing) / 1000000)%Q.

Record CostRecord := mkCostRecord {
  tenant_id : string; task_id : string; provider : string; model : string;
  input_tokens : Z; output_tokens : Z; cost_usd : Q; timestamp : Q; step_name : string;
}.

Record FileCost := mkFileCost {
  file_path : string; lines_added : Z; tokens_input : Z; tokens_output : Z;
  f_cost_usd : Q; f_model : string; f_task_id : string; repo : string; pr_number : string;
}.

Definition sumZ (l : list Z) : Z := foldr Z.add 0 l.
Definition sumQ (l : list Q) : Q := foldr Qplus 0%Q l.

Definition calculate_line_costs (total_cost : Q) (lines_by_file : list (string * Z)) : list (string * Q) :=
  let total_lines := sumZ (map (λ p, Z.max p.2 0) lines_by_file) in
  if (total_lines <=? 0) || Qle_bool total_cost 0 then map (λ p, (p.1, 0%Q)) lines_by_file
  else map (λ p, (p.1, py_round6 (total_cost * inject_Z (Z.max p.2 0) / inject_Z total_lines)))
         lines_by_file.

Record CostTracker := mkTracker {
  _records : list CostRecord;
  _daily : list (string * Q);
  _monthly : list (string * Q);
  _file_costs : list FileCost;
  _redis : bool;
  _db : bool;
}.

Definition tracker_init (redis db : bool) : CostTracker := mkTracker [] [] [] [] redis db.

Definition _day_key (tenant day : string) : string := ("cost:d:" +:+ tenant +:+ ":" +:+ day)%string.
Definition _month_key (tenant month : string) : string := ("cost:m:" +:+ tenant +:+ ":" +:+ month)%string.

(** One call of [record] and what the clock shows during it. *)
Record usage := mkUsage {
  u_tenant : string; u_task : string; u_provider : string; u_model : string;
  u_input : Z; u_output : Z; u_step : string;
  u_now : Q; u_day : string; u_month : string;
}.

Definition cost_record (u : usage) : CostRecord :=
  let input := if (u_input u <? 0) || (u_output u <? 0) then Z.max (u_input u) 0 else u_input u in
  let output := if (u_input u <? 0) || (u_output u <? 0) then Z.max (u_output u) 0 else u_output u in
  mkCostRecord (u_tenant u) (u_task u) (u_provider u) (u_model u) input output
    (calculate_cost (u_model u) input output) (u_now u) (u_step u).

(** [d[k] = d.get(k, 0) + v] *)
Definition bump (k : string) (v : Q) (d : list (string * Q)) : list (string * Q) :=
  dset k (default 0%Q (dget k d) + v)%Q d.

Section world.
Context {W : Type}.
(** Redis [INCRBY], [EXPIRE] ([false]: the client raised) and [GET] ([None]: raised;
    [Some None]: no such key); the insert into [cost_records], whose errors
    [_write_cost_record] swallows. *)
Record Backends := mkBackends {
  incrby : string → Z → W → W * bool;
  expire : string → Z → W → W * bool;
  redis_get : string → W → W * option (option Z);
  insert_cost_record : CostRecord → W → W;
}.
Context (B : Backends).

(** The four Redis commands of [record]; the first failure skips the rest. *)
Definition redis_add (day_key month_key : string) (cost_int : Z) (w : W) : W :=
  let '(w, ok) := incrby B day_key cost_int w in
  if negb ok then w else
  let '(w, ok) := expire B day_key (86400 * 2) w in
  if negb ok then w else
  let '(w, ok) := incrby B month_key cost_int w in
  if negb ok then w else
  (expire B month_key (86400 * 32) w).1.

Definition _write_cost_record (t : CostTracker) (r : CostRecord) (w : W) : W :=
  if _db t then insert_cost_record B r w else w.

(** [int(cost * 10000)] *)
Definition cost_int (c : Q) : Z := Qtrunc (c * 10000).

Definition record (t : CostTracker) (u : usage) (w : W) : CostTracker * W * CostRecord :=
  let r := cost_record u in
  let day_key := _day_key (u_tenant u) (u_day u) in
  let month_key := _month_key (u_tenant u) (u_month u) in
  let w := if _redis t then redis_add day_key month_key (cost_int (cost_usd r)) w else w in
  let w := _write_cost_record t r w in
  (mkTracker (_records t ++ [r]) (bump day_key (cost_usd r) (_daily t))
     (bump month_key (cost_usd r) (_monthly t)) (_file_costs t) (_redis t) (_db t), w, r).

(** [get_tenant_cost]: (daily, monthly). *)
Definition get_tenant_cost (t : CostTracker) (tenant day month : string) (w : W) : W * (Q * Q) :=
  let day_key := _day_key tenant day in
  let month_key := _month_key tenant month in
  let daily_usd := default 0%Q (dget day_key (_daily t)) in
  let monthly_usd := default 0%Q (dget month_key (_monthly t)) in
  let local := (py_round6 daily_usd, py_round6 monthly_usd) in
  if _redis t then
    match redis_get B day_key w with
    | (w, None) => (w, local)
    | (w, Some d) =>
        match redis_get B month_key w with
        | (w, None) => (w, local)
        | (w, Some m) =>
            (w, (py_round6 (Qmaxb daily_usd (inject_Z (default 0 d) / 10000)),
                 py_round6 (Qmaxb monthly_usd (inject_Z (default 0 m) / 10000))))
        end
    end
  else (w, local).
End world.
Arguments Backends : clear implicits.

Definition get_task_cost (t : CostTracker) (task : string) : Q :=
  py_round6 (sumQ (map cost_usd (filter (λ r, task_id r = task) (_records t)))).

(** [len(s.splitlines())] on Latin-1 text; [open]: the current line has characters. *)
Definition is_linebreak (a : ascii) : bool :=
  let n := nat_of_ascii a in ((10 <=? n) && (n <=? 13) || (28 <=? n) && (n <=? 30) || (n =? 133))%nat.

Fixpoint count_lines (s : string) (opened after_cr : bool) : Z :=
  match s with
  | EmptyString => if opened then 1 else 0
  | String a s =>
      if after_cr && (nat_of_ascii a =? 10)%nat then count_lines s false false
      else if is_linebreak a then 1 + count_lines s false (nat_of_ascii a =? 13)%nat
      else count_lines s true false
  end.

Definition splitlines_len (s : string) : Z := count_lines s false false.

(** [{path: len(content.splitlines()) for path, content in files}] *)
Definition lines_by_file (files : list (string * string)) : list (string * Z) :=
  foldl (λ d '(path, content), dset path (splitlines_len content) d) [] files.

Definition attribute_pr_cost (t : CostTracker) (repo : string) (pr : Z) (task : string)
    (files : list (string * string)) (model : string) : CostTracker * list FileCost :=
  if bool_decide (files = []) then (t, [])
  else
    let total_cost := get_task_cost t task in
    let costs := calculate_line_costs total_cost (lines_by_file files) in
    let attributed :=
      map (λ '(path, content),
             mkFileCost path (splitlines_len content) 0 0 (default 0%Q (dget path costs))
               model task repo (pretty pr)) files in
    (mkTracker (_records t) (_daily t) (_monthly t) (_file_costs t ++ attributed) (_redis t) (_db t),
     attributed).

Record pr_cost := mkPrCost { total_usd : Q; modules : list (string * Q) }.

Definition get_pr_cost (t : CostTracker) (rp : string) (pr : Z) : pr_cost :=
  let records := filter (λ f, repo f = rp ∧ pr_number f = pretty pr) (_file_costs t) in
  let modules := foldl (λ d f, dset (file_path f) (py_round6 (f_cost_usd f)) d) [] records in
  mkPrCost (py_round6 (sumQ (map snd modules))) modules.

Definition module_cost_stats (t : CostTracker) (rp : string) : pr_cost :=
  let records := if String.eqb rp "" then _file_costs t
                 else filter (λ f, repo f = rp) (_file_costs t) in
  let modules := foldl (λ d f, bump (file_path f) (f_cost_usd f) d) [] records in
  mkPrCost (py_round6 (sumQ (map snd modules))) (map (λ p, (p.1, py_round6 p.2)) modules).

Record breakdown := mkBreakdown {
  b_total : Q; by_provider : list (string * Q); by_model : list (string * Q); by_step : list (string * Q);
}.

Definition round_values (d : list (string * Q)) : list (string * Q) := map (λ p, (p.1, py_round6 p.2)) d.

(** [d[key(r)] = d.get(key(r), 0) + r.cost_usd] over the records. *)
Definition group_costs (key : CostRecord → string) (rs : list CostRecord) : list (string * Q) :=
  foldl (λ d r, bump (key r) (cost_usd r) d) [] rs.

Definition step_or_unknown (r : CostRecord) : string :=
  if String.eqb (step_name r) "" then "unknown" else step_name r.

Definition get_breakdown (t : CostTracker) (tenant : string) : breakdown :=
  let filtered := if String.eqb tenant "" then _records t
                  else filter (λ r, tenant_id r = tenant) (_records t) in
  if bool_decide (filtered = []) then mkBreakdown 0 [] [] []
  else mkBreakdown (py_round6 (sumQ (map cost_usd filtered)))
         (round_values (group_costs provider filtered)) (round_values (group_costs model filtered))
         (round_values (group_costs step_or_unknown filtered)).

Definition stats (t : CostTracker) : Z * Q * Z * Z :=
  (Z.of_nat (length (_records t)), py_round6 (sumQ (map cost_usd (_records t))),
   sumZ (map input_tokens (_records t)), sumZ (map output_tokens (_records t))).

(** ** Sums of rationals *)
Lemma sumQ_cons x l : sumQ (x :: l) = (x + sumQ l)%Q.
Proof. done. Qed.

Lemma sumQ_scale (c : Q) (l : list Q) : (sumQ (map (Qmult c) l) == c * sumQ l)%Q.
Proof.
  induction l as [|x l IH]; [change (0 == c * 0)%Q; ring|]. rewrite map_cons, !sumQ_cons, IH. ring.
Qed.

Lemma sumQ_inject (l : list Z) : (sumQ (map inject_Z l) == inject_Z (sumZ l))%Q.
Proof.
  induction l as [|x l IH]; [reflexivity|]. rewrite map_cons, sumQ_cons, IH.
  change (sumZ (x :: l)) with (x + sumZ l). rewrite inject_Z_plus. reflexivity.
Qed.

Lemma sumQ_app l l' : (sumQ (l ++ l') == sumQ l + sumQ l')%Q.
Proof.
  induction l as [|x l IH]; [change (sumQ l' == 0 + sumQ l')%Q; ring|].
  rewrite <- app_comm_cons, !sumQ_cons, IH. ring.
Qed.

Lemma sumQ_rounded (l : list Q) :
  (- (inject_Z (Z.of_nat (length l)) * (1 # 2000000)) <= sumQ (map py_round6 l) - sumQ l
     <= inject_Z (Z.of_nat (length l)) * (1 # 2000000))%Q.
Proof.
  induction l as [|x l IH]; [by vm_compute|].
  rewrite map_cons, !sumQ_cons. cbn [length]. pose proof (py_round6_err x) as [E1 E2].
  replace (Z.of_nat (S (length l))) with (Z.of_nat (length l) + 1) by lia.
  rewrite inject_Z_plus. change (inject_Z 1) with 1%Q.
  set (a := sumQ (map py_round6 l)) in *. set (b := sumQ l) in *.
  set (n := inject_Z (Z.of_nat (length l))) in *. set (r := py_round6 x) in *.
  clearbody a b n r. split; lra.
Qed.

Lemma py_round6_nonneg x : (0 <= x)%Q → (0 <= py_round6 x)%Q.
Proof.
  intros Hx. unfold py_round6, round_half_even.
  assert (0 <= Qfloor (x * 1000000))%Z as Hf by (apply (Qfloor_resp_le 0); lra).
  set (f := Qfloor _) in *. clearbody f.
  assert (∀ z, 0 ≤ z → 0 <= inject_Z z / 1000000)%Q as Hz.
  { intros z Hz. apply Qle_shift_div_l; [lra|]. rewrite Qmult_0_l. by rewrite <- (Zle_Qle 0). }
  destruct (_ ?= _)%Q; [destruct (Z.even f)|..]; apply Hz; lia.
Qed.

Lemma sumQ_shares (c : Q) (M : Z) (files : list (string * Z)) :
  (sumQ (map (λ p, c * inject_Z (Z.max p.2 0) / inject_Z M) files)
   == c / inject_Z M * sumQ (map inject_Z (map (λ p, Z.max p.2 0) files)))%Q.
Proof.
  rewrite <- sumQ_scale. induction files as [|p l IH]; [reflexivity|].
  rewrite !map_cons, !sumQ_cons. unfold Qdiv in *. rewrite IH. ring.
Qed.

(** Attribution conserves money up to rounding: every file of the dict gets
    one non-negative share, a file without lines gets nothing, and the shares add
    up to [total_cost] within half a millionth of a dollar per file. *)
Theorem line_costs_conserve total_cost files :
  (0 < total_cost)%Q → (∃ p, p ∈ files ∧ 0 < p.2) →
  let costs := calculate_line_costs total_cost files in
  let slack := (inject_Z (Z.of_nat (length files)) * (1 # 2000000))%Q in
  map fst costs = map fst files ∧
  Forall (λ p, (0 <= p.2)%Q) costs ∧
  (∀ i path n, files !! i = Some (path, n) → n ≤ 0 → ∃ c, costs !! i = Some (path, c) ∧ (c == 0)%Q) ∧
  (- slack <= sumQ (map snd costs) - total_cost <= slack)%Q.
Proof.
  intros Hc (p0 & Hp0 & Hpos). unfold calculate_line_costs.
  set (L := sumZ (map (λ p, Z.max p.2 0) files)).
  assert (0 < L) as HL.
  { unfold L. clear -Hp0 Hpos.
    assert (∀ l : list (string * Z), 0 ≤ sumZ (map (λ p, Z.max p.2 0) l)) as Hn.
    { induction l; cbn; [lia|]. unfold sumZ in *. lia. }
    induction Hp0 as [x l|x y l Hin IH]; cbn; [specialize (Hn l)|]; unfold sumZ in *; lia. }
  rewrite (proj2 (Z.leb_gt L 0)) by done. rewrite (proj2 (Qle_bool_false total_cost 0)) by done. cbn [orb].
  assert (0 < inject_Z L)%Q as HLq by (by rewrite (Zlt_Qlt 0) in HL).
  split; [|split; [|split]].
  - rewrite map_map. done.
  - apply Forall_map, Forall_forall. intros [path n] _. cbn. apply py_round6_nonneg.
    apply Qle_shift_div_l; [done|]. rewrite Qmult_0_l. apply Qmult_le_0_compat; [lra|].
    rewrite <- (Zle_Qle 0). lia.
  - intros i path n Hi Hn. exists (py_round6 (total_cost * inject_Z (Z.max n 0) / inject_Z L)).
    split; [by rewrite list_lookup_fmap, Hi|]. rewrite Z.max_r by done.
    assert (total_cost * inject_Z 0 / inject_Z L == 0)%Q as E by (unfold Qdiv; change (inject_Z 0) with 0%Q; ring).
    rewrite E. reflexivity.
  - rewrite map_map. cbn [snd].
    set (xs := map (λ p : string * Z, (total_cost * inject_Z (Z.max p.2 0) / inject_Z L)%Q) files).
    assert (map (λ p : string * Z, py_round6 (total_cost * inject_Z (Z.max p.2 0) / inject_Z L)) files
      = map py_round6 xs) as -> by (unfold xs; by rewrite map_map).
    assert (sumQ xs == total_cost)%Q as Hs.
    { assert (sumQ xs == total_cost / inject_Z L * sumQ (map inject_Z (map (λ p, Z.max p.2 0) files)))%Q as ->.
      { apply sumQ_shares. }
      rewrite sumQ_inject. fold L. field. intros E. rewrite E in HLq. by apply Qlt_irrefl in HLq. }
    pose proof (sumQ_rounded xs) as Hr.
    replace (length xs) with (length files) in Hr by (unfold xs; by rewrite length_map).
    set (n := inject_Z (Z.of_nat (length files))) in *. clearbody n. lra.
Qed.

Lemma line_costs_conserve_witness :
  let files := [("a.py", 1); ("b.py", 1); ("c.py", 1); ("gone.py", 0)]%string in
  let costs := calculate_line_costs 1 files in
  (- (4 * (1 # 2000000)) <= sumQ (map snd costs) - 1 <= 4 * (1 # 2000000))%Q.
Proof.
  apply (line_costs_conserve 1 [("a.py", 1); ("b.py", 1); ("c.py", 1); ("gone.py", 0)]%string).
  - reflexivity.
  - exists ("a.py"%string, 1). split; [left|cbn; lia].
Defined.

(** The weights need not sum back to the total: one dollar over three equal files
    comes to 0.999999. *)
Example line_costs_lose_a_millionth :
  ¬ (sumQ (map snd (calculate_line_costs 1 [("a", 1%Z); ("b", 1%Z); ("c", 1%Z)]%string)) == 1)%Q.
Proof. by vm_compute. Qed.

(** ** Tenant counters *)
Lemma append_inj (s s' t t' : string) :
  String.length t = String.length t' → (s +:+ t = s' +:+ t')%string → s = s' ∧ t = t'.
Proof.
  intros Hl. assert (∀ a b, String.length (a +:+ b) = (String.length a + String.length b)%nat) as Hlen.
  { induction a; intros b; [done|]. change (S (String.length (a0 +:+ b)) = S (String.length a0 + String.length b)).
    by rewrite IHa. }
  revert s'. induction s as [|a s IH]; intros [|a' s'] E.
  - done.
  - exfalso. apply (f_equal String.length) in E. rewrite (Hlen (String a' s')) in E.
    change (String.length t = S (String.length s') + String.length t')%nat in E. lia.
  - exfalso. apply (f_equal String.length) in E. rewrite (Hlen (String a s)) in E.
    change (S (String.length s) + String.length t = String.length t')%nat in E. lia.
  - injection E as -> E. by destruct (IH s' E) as [-> ->].
Qed.

(** Month stamps are six characters long ([%Y%m]), so keys do not mix tenants. *)
Lemma month_key_inj t t' m m' : String.length m = String.length m' →
  _month_key t m = _month_key t' m' → t = t' ∧ m = m'.
Proof.
  intros Hl E. unfold _month_key in E.
  assert (t +:+ ":" +:+ m = t' +:+ ":" +:+ m')%string as E1 by (by injection E).
  destruct (append_inj t t' (":" +:+ m) (":" +:+ m')) as [E2 E3]; [|done|].
  - change (S (String.length m) = S (String.length m')). by rewrite Hl.
  - split; [done|]. by injection E3.
Qed.

Section history.
Context {W : Type} (B : Backends W).

Fixpoint record_all (t : CostTracker) (us : list usage) (w : W) : CostTracker * W :=
  match us with
  | [] => (t, w)
  | u :: us => let '(t, w, _) := record B t u w in record_all t us w
  end.

Definition billed (tenant month : string) (us : list usage) : Q :=
  sumQ (map (λ u, cost_usd (cost_record u)) (filter (λ u, u_tenant u = tenant ∧ u_month u = month) us)).

Lemma monthly_spec us : ∀ t w tenant month,
  Forall (λ u, String.length (u_month u) = String.length month) us →
  (default 0 (dget (_month_key tenant month) (_monthly (record_all t us w).1))
   == default 0 (dget (_month_key tenant month) (_monthly t)) + billed tenant month us)%Q.
Proof.
  induction us as [|u us IH]; intros t w tenant month Hl.
  - change (default 0 (dget (_month_key tenant month) (_monthly t)) ==
      default 0 (dget (_month_key tenant month) (_monthly t)) + 0)%Q. ring.
  - apply Forall_cons in Hl as [Hu Hl]. cbn [record_all].
    destruct (record B t u w) as [[t1 w1] r] eqn:E.
    assert (_monthly t1 = bump (_month_key (u_tenant u) (u_month u)) (cost_usd (cost_record u)) (_monthly t)) as Em
      by (unfold record in E; by injection E as <- _ _).
    rewrite IH by done. rewrite Em. unfold bump. rewrite dget_dset.
    unfold billed at 2. rewrite filter_cons.
    destruct (decide (_month_key tenant month = _month_key (u_tenant u) (u_month u))) as [Ek|Ek].
    + apply month_key_inj in Ek as [-> ->]; [|done]. rewrite decide_True by done.
      rewrite map_cons, sumQ_cons. unfold billed. cbn [default from_option id].
      destruct (dget _ (_monthly t)); cbn [default from_option id]; unfold default, id; ring.
    + rewrite decide_False; [reflexivity|]. intros [<- <-]. done.
Qed.

(** The monthly figure [get_tenant_cost] reports without Redis is the cost of
    exactly that tenant's calls of that month: no call is lost, counted twice or
    charged to another tenant, whatever the tenant names contain. *)
Theorem monthly_cost_exact us db w tenant day month :
  Forall (λ u, String.length (u_month u) = String.length month) us →
  let '(t, w) := record_all (tracker_init false db) us w in
  ((get_tenant_cost B t tenant day month w).2.2 == py_round6 (billed tenant month us))%Q.
Proof.
  intros Hl. pose proof (monthly_spec us (tracker_init false db) w tenant month Hl) as H.
  assert (∀ us t w, _redis (record_all t us w).1 = _redis t) as Hr.
  { clear. induction us as [|u us IH]; intros t w; [done|]. cbn [record_all]. unfold record. cbn. by rewrite IH. }
  specialize (Hr us (tracker_init false db) w).
  destruct (record_all (tracker_init false db) us w) as [t w']. unfold get_tenant_cost. cbn in Hr.
  rewrite Hr. cbn [fst snd] in *. rewrite H. apply py_round6_comp.
  change (0 + billed tenant month us == billed tenant month us)%Q. ring.
Qed.

(** ** The Redis counters

    What [INCRBY] and [EXPIRE] document: the first adds to the key it names (or
    fails and changes nothing), the second changes no value. *)
Class CounterLaws (view : W → string → Z) : Prop := {
  incrby_law k n w k' : view (incrby B k n w).1 k' = view w k' ∨
    view (incrby B k n w).1 k' = view w k' + (if decide (k' = k) then n else 0);
  expire_law k n w k' : view (expire B k n w).1 k' = view w k';
  insert_law r w k' : view (insert_cost_record B r w) k' = view w k';
}.

Lemma incrby_zero view `{!CounterLaws view} k w k' : view (incrby B k 0 w).1 k' = view w k'.
Proof. destruct (incrby_law k 0 w k') as [E|E]; rewrite E; [done|]. case_decide; lia. Qed.

Lemma cost_int_small c : (0 <= c)%Q → (c < 1 # 10000)%Q → cost_int c = 0.
Proof.
  intros H0 H1. unfold cost_int, Qtrunc. rewrite (proj2 (Qle_bool_iff _ _)) by lra.
  assert (Qfloor (c * 10000) < 1)%Z.
  { rewrite Zlt_Qlt. eapply Qle_lt_trans; [apply Qfloor_le|]. change (inject_Z 1) with 1%Q. lra. }
  assert (0 <= Qfloor (c * 10000))%Z by (apply (Qfloor_resp_le 0); lra). lia.
Qed.

(** [record] truncates each cost to 1/10000 USD before adding it to Redis, so
    calls that cost less than that are invisible there: however many are
    recorded, no Redis counter moves (and the quota check that falls back on these
    counters sees no spending), although every one of them is billed in memory. *)
Theorem small_costs_vanish_from_redis view `{!CounterLaws view} us t w :
  Forall (λ u, (0 <= cost_usd (cost_record u))%Q ∧ (cost_usd (cost_record u) < 1 # 10000)%Q) us →
  (∀ k, view (record_all t us w).2 k = view w k) ∧
  length (_records (record_all t us w).1) = (length (_records t) + length us)%nat.
Proof.
  intros Hs. revert t w. induction Hs as [|u us [H0 H1] _ IH]; intros t w; [cbn; split; [done|lia]|].
  cbn [record_all]. unfold record. rewrite cost_int_small by done.
  set (w1 := _write_cost_record B t (cost_record u) _).
  assert (∀ k, view w1 k = view w k) as Hw.
  { intros k. subst w1. unfold _write_cost_record.
    assert (view (if _redis t then redis_add B (_day_key (u_tenant u) (u_day u))
      (_month_key (u_tenant u) (u_month u)) 0 w else w) k = view w k) as E.
    { destruct (_redis t); [|done]. unfold redis_add.
      destruct (incrby B _ 0 w) as [w2 ok2] eqn:E2. apply (f_equal fst) in E2. cbn in E2.
      destruct ok2; cbn; [|rewrite <- E2; by apply incrby_zero].
      destruct (expire B _ _ w2) as [w3 ok3] eqn:E3. apply (f_equal fst) in E3. cbn in E3.
      assert (view w3 k = view w k) as E3' by (by rewrite <- E3, expire_law, <- E2, incrby_zero).
      destruct ok3; cbn; [|done].
      destruct (incrby B _ 0 w3) as [w4 ok4] eqn:E4. apply (f_equal fst) in E4. cbn in E4.
      assert (view w4 k = view w k) as E4' by (by rewrite <- E4, incrby_zero).
      destruct ok4; cbn; [|done]. by rewrite expire_law. }
    destruct (_db t); [by rewrite insert_law|done]. }
  match goal with |- context [record_all ?t1 us w1] => destruct (IH t1 w1) as [IH1 IH2] end.
  split; [intros k; by rewrite IH1, Hw|]. rewrite IH2. cbn. rewrite length_app. cbn. lia.
Qed.
End history.

(** ** Witnesses: Redis as a dictionary of counters *)
Definition dict_backends : Backends (list (string * Z)) :=
  mkBackends (λ k n w, (dset k (default 0 (dget k w) + n) w, true)) (λ _ _ w, (w, true))
    (λ k w, (w, Some (dget k w))) (λ _ w, w).

Definition dict_view (w : list (string * Z)) (k : string) : Z := default 0 (dget k w).

#[local] Instance dict_laws : CounterLaws dict_backends dict_view.
Proof.
  split; [|done..]. intros k n w k'. right. cbn. unfold dict_view. rewrite dget_dset.
  case_decide; subst; cbn; lia.
Qed.

Definition demo_usage (tenant : string) (tokens : Z) : usage :=
  mkUsage tenant "task" "openai" "gpt-4o-mini" tokens 0 "" 0 "20250131" "202501".

Lemma monthly_cost_exact_witness :
  let us := [demo_usage "a" 1000000; demo_usage "a:b" 3; demo_usage "a" (-5)] in
  let '(t, w) := record_all dict_backends (tracker_init false false) us [] in
  ((get_tenant_cost dict_backends t "a" "20250131" "202501" w).2.2 == py_round6 (billed "a" "202501" us))%Q.
Proof.
  apply (monthly_cost_exact dict_backends
    [demo_usage "a" 1000000; demo_usage "a:b" 3; demo_usage "a" (-5)] false [] "a" "20250131" "202501").
  repeat constructor.
Defined.

(** A thousand calls of 600 tokens each cost nine cents; Redis shows nothing. *)
Lemma small_costs_vanish_from_redis_witness :
  let us := replicate 1000 (demo_usage "a" 600) in
  (∀ k, dict_view (record_all dict_backends (tracker_init true false) us []).2 k = 0) ∧
  length (_records (record_all dict_backends (tracker_init true false) us []).1) = 1000%nat.
Proof.
  destruct (small_costs_vanish_from_redis dict_backends dict_view (replicate 1000 (demo_usage "a" 600))
    (tracker_init true false) []) as [H1 H2].
  - apply Forall_replicate. split; [apply Qle_bool_iff|apply Qltb_lt]; reflexivity.
  - split; [exact H1|]. rewrite H2. reflexivity.
Defined.
