(* ===== verification/Quotas.v ===== *)
(** * Tenant quotas ([noema/billing/quotas.py]) and token budgets
      ([noema/budget/token_budget.py])

    PostgreSQL and Redis are parameters over a world [W]; [None] is an exception of
    the client.  Without them the manager keeps its own task sets and start times. *)
From Stdlib Require Import ZArith QArith Qround Lqa Lia Bool String.
From stdpp Require Import base option numbers gmap sets strings list.
From S2P Require Import Prelude.
Local Open Scope Z_scope.

Record TenantQuota := mkQuota {
  q_tenant_id : string;
  monthly_budget_usd : Q;
  max_concurrent_tasks : Z;
  max_tasks_per_hour : Z;
  max_input_tokens_per_task : Z;
  enabled_features : list string;
}.

Definition default_quota (tenant : string) : TenantQuota :=
  mkQuota tenant 100 5 100 100000 ["basic"%string].

(** Which limit a [QuotaExceededError] reports. *)
Inductive quota_error := BudgetExceeded | TokensExceeded | HourlyExceeded | ConcurrentExceeded.

Record QuotaManager := mkManager {
  pg : bool;
  redis : bool;
  _defaults_cache : gmap string TenantQuota;
  _active_tasks : gmap string (gset string);
  _task_starts : gmap string (list Q);
}.

Definition manager_init (pg redis : bool) : QuotaManager := mkManager pg redis ∅ ∅ ∅.

Definition with_starts (m : QuotaManager) (s : gmap string (list Q)) : QuotaManager :=
  mkManager (pg m) (redis m) (_defaults_cache m) (_active_tasks m) s.
Definition with_active (m : QuotaManager) (a : gmap string (gset string)) : QuotaManager :=
  mkManager (pg m) (redis m) (_defaults_cache m) a (_task_starts m).

Section world.
Context {W : Type}.
Record QuotaBackends := mkQB {
  fetch_quota : string → W → W * option (option TenantQuota);  (* SELECT * FROM tenant_quotas *)
  upsert_quota : string → TenantQuota → W → W;
  sum_costs : string → W → W * option Q;                       (* SUM(cost_usd) since the 1st *)
  count_hourly : string → W → W * option Z;                    (* COUNT(DISTINCT task_id), one hour *)
  get_month_counter : string → W → W * option (option Z);      (* GET cost:m:<tenant>:<YYYYMM> *)
  sadd_expire : string → string → W → W * bool;
  srem : string → string → W → W * bool;
  scard : string → W → W * option Z;
}.
Context (B : QuotaBackends).

Definition get_quota (m : QuotaManager) (tenant : string) (w : W) : W * TenantQuota :=
  let local := default (default_quota tenant) (_defaults_cache m !! tenant) in
  if pg m then
    match fetch_quota B tenant w with
    | (w, Some (Some q)) => (w, q)
    | (w, _) => (w, local)
    end
  else (w, local).

Definition set_quota (m : QuotaManager) (tenant : string) (q : TenantQuota) (w : W) : QuotaManager * W :=
  (mkManager (pg m) (redis m) (<[tenant := q]> (_defaults_cache m)) (_active_tasks m) (_task_starts m),
   if pg m then upsert_quota B tenant q w else w).

Definition _get_monthly_cost (m : QuotaManager) (tenant : string) (w : W) : W * Q :=
  let from_redis w :=
    if redis m then
      match get_month_counter B tenant w with
      | (w, Some (Some v)) => (w, (inject_Z v / 10000)%Q)
      | (w, _) => (w, 0%Q)
      end
    else (w, 0%Q) in
  if pg m then
    match sum_costs B tenant w with
    | (w, Some c) => (w, c)
    | (w, None) => from_redis w
    end
  else from_redis w.

Definition recent_starts (m : QuotaManager) (tenant : string) (now : Q) : Z :=
  Z.of_nat (length (filter (λ t, Qle_bool (now - 3600) t = true) (default [] (_task_starts m !! tenant)))).

Definition _get_hourly_task_count (m : QuotaManager) (tenant : string) (now : Q) (w : W) : W * Z :=
  if pg m then
    match count_hourly B tenant w with
    | (w, Some n) => (w, n)
    | (w, None) => (w, recent_starts m tenant now)
    end
  else (w, recent_starts m tenant now).

Definition active_count (m : QuotaManager) (tenant : string) : Z :=
  Z.of_nat (size (default ∅ (_active_tasks m !! tenant))).

Definition _get_active_task_count (m : QuotaManager) (tenant : string) (w : W) : W * Z :=
  if redis m then
    match scard B tenant w with
    | (w, Some n) => (w, n)
    | (w, None) => (w, active_count m tenant)
    end
  else (w, active_count m tenant).

Definition check_quota (m : QuotaManager) (tenant : string) (estimated_cost_usd : Q)
    (estimated_input_tokens : Z) (now : Q) (w : W) : W * result quota_error bool :=
  let '(w, quota) := get_quota m tenant w in
  let '(w, over_budget) :=
    if Qltb 0 estimated_cost_usd then
      let '(w, monthly) := _get_monthly_cost m tenant w in
      (w, Qltb (monthly_budget_usd quota) (monthly + estimated_cost_usd))
    else (w, false) in
  if over_budget then (w, Err BudgetExceeded)
  else if (0 <? estimated_input_tokens) && (0 <? max_input_tokens_per_task quota)
          && (max_input_tokens_per_task quota <? estimated_input_tokens)
  then (w, Err TokensExceeded)
  else
    let '(w, hourly) := _get_hourly_task_count m tenant now w in
    if max_tasks_per_hour quota <=? hourly then (w, Err HourlyExceeded)
    else
      let '(w, active) := _get_active_task_count m tenant w in
      if max_concurrent_tasks quota <=? active then (w, Err ConcurrentExceeded)
      else (w, Ok true).

Definition track_active_task (m : QuotaManager) (tenant task : string) (now : Q) (w : W)
    : QuotaManager * W :=
  let starts := default [] (_task_starts m !! tenant) ++ [now] in
  let m := with_starts m
    (<[tenant := filter (λ t, Qle_bool (now - 7200) t = true) starts]> (_task_starts m)) in
  let remember m :=
    with_active m (<[tenant := {[task]} ∪ default ∅ (_active_tasks m !! tenant)]> (_active_tasks m)) in
  if redis m then
    match sadd_expire B tenant task w with
    | (w, true) => (m, w)
    | (w, false) => (remember m, w)
    end
  else (remember m, w).

(** [s.discard(task_id)] on a set that was not stored has no effect. *)
Definition untrack_active_task (m : QuotaManager) (tenant task : string) (w : W) : QuotaManager * W :=
  let forget m :=
    match _active_tasks m !! tenant with
    | Some s => with_active m (<[tenant := s ∖ {[task]}]> (_active_tasks m))
    | None => m
    end in
  if redis m then
    match srem B tenant task w with
    | (w, true) => (m, w)
    | (w, false) => (forget m, w)
    end
  else (forget m, w).
End world.
Arguments QuotaBackends : clear implicits.

(** ** Token budget *)
Module Budget.

Inductive BudgetAction := ALLOW | DEGRADE | SKIP | REJECT.

#[global] Instance BudgetAction_eq_dec : EqDecision BudgetAction.
Proof. solve_decision. Defined.

Record TokenBudget := mkBudget {
  max_tokens : Z;
  warn_at : Q;
  hard_cap_at : Q;
  _used : Z;
  _skipped_steps : list string;
  _degraded : bool;
}.

Definition remaining (b : TokenBudget) : Z := Z.max 0 (max_tokens b - _used b).

Definition fraction_used (b : TokenBudget) : Q := (inject_Z (_used b) / inject_Z (Z.max (max_tokens b) 1))%Q.

Definition record (b : TokenBudget) (tokens : Z) : TokenBudget :=
  mkBudget (max_tokens b) (warn_at b) (hard_cap_at b) (_used b + tokens) (_skipped_steps b) (_degraded b).

Definition check (b : TokenBudget) (estimated_cost : Z) (step_name : string) : TokenBudget * BudgetAction :=
  let projected := _used b + estimated_cost in
  let frac := (inject_Z projected / inject_Z (Z.max (max_tokens b) 1))%Q in
  if Qle_bool (hard_cap_at b) frac then
    (mkBudget (max_tokens b) (warn_at b) (hard_cap_at b) (_used b) (_skipped_steps b ++ [step_name])
       (_degraded b), REJECT)
  else if Qle_bool (warn_at b) frac then
    (mkBudget (max_tokens b) (warn_at b) (hard_cap_at b) (_used b) (_skipped_steps b) true, DEGRADE)
  else (b, ALLOW).

Definition should_degrade (b : TokenBudget) : TokenBudget * bool :=
  if _degraded b then (b, true)
  else
    let '(b, r) := check b 1000 "" in
    (b, bool_decide (r = DEGRADE) || bool_decide (r = SKIP) || bool_decide (r = REJECT)).

Definition skipped_steps (b : TokenBudget) : list string := _skipped_steps b.

Definition reset (b : TokenBudget) : TokenBudget :=
  mkBudget (max_tokens b) (warn_at b) (hard_cap_at b) 0 [] false.

Definition stats (b : TokenBudget) : Z * Z * Z * Q * bool * Z :=
  (max_tokens b, _used b, remaining b, py_round3 (fraction_used b), _degraded b, Z.of_nat (length (_skipped_steps b))).

(** ** A task that asks before it spends *)
Inductive budget_op := Spend (step : string) (tokens : Z) | Ask.

(** Each step runs only if [check] with its real cost does not reject it. *)
Definition run_op (b : TokenBudget) (o : budget_op) : TokenBudget :=
  match o with
  | Spend step n =>
      let '(b, a) := check b n step in
      if bool_decide (a = REJECT) then b else record b n
  | Ask => (should_degrade b).1
  end.

Lemma check_spec b n step :
  let '(b', a) := check b n step in
  max_tokens b' = max_tokens b ∧ hard_cap_at b' = hard_cap_at b ∧ warn_at b' = warn_at b ∧ _used b' = _used b ∧
  (a ≠ REJECT → (inject_Z (_used b + n) < hard_cap_at b * inject_Z (Z.max (max_tokens b) 1))%Q) ∧
  (a = REJECT → _skipped_steps b' = _skipped_steps b ++ [step] ∧ _degraded b' = _degraded b) ∧
  (a ≠ REJECT → _skipped_steps b' = _skipped_steps b) ∧
  (a = DEGRADE → _degraded b' = true) ∧ (a = ALLOW → b' = b).
Proof.
  assert (0 < inject_Z (Z.max (max_tokens b) 1))%Q as Hp.
  { change 0%Q with (inject_Z 0). rewrite <- Zlt_Qlt. lia. }
  unfold check. destruct (Qle_bool (hard_cap_at b) _) eqn:E1.
  - by split_and!.
  - apply Qle_bool_false in E1.
    assert (inject_Z (_used b + n) < hard_cap_at b * inject_Z (Z.max (max_tokens b) 1))%Q as Hlt.
    { apply (Qmult_lt_r _ _ (/ inject_Z (Z.max (max_tokens b) 1))); [by apply Qinv_lt_0_compat|].
      rewrite <- Qmult_assoc, Qmult_inv_r; [by rewrite Qmult_1_r|]. intros E. rewrite E in Hp. done. }
    destruct (Qle_bool (warn_at b) _); by split_and!.
Qed.

(** A task that checks the budget before every step never reaches the hard
    cap: whatever steps it attempts and however often it asks whether to degrade,
    the tokens used stay below [hard_cap_at * max_tokens]. *)
Theorem budget_never_reaches_cap mx wa cap ops :
  (0 < cap)%Q →
  let b := foldl run_op (mkBudget mx wa cap 0 [] false) ops in
  (inject_Z (_used b) < cap * inject_Z (Z.max mx 1))%Q.
Proof.
  intros Hc. assert (0 < inject_Z (Z.max mx 1))%Q as Hm.
  { change 0%Q with (inject_Z 0). rewrite <- Zlt_Qlt. lia. }
  set (inv := λ b, max_tokens b = mx ∧ hard_cap_at b = cap ∧
    (inject_Z (_used b) < cap * inject_Z (Z.max mx 1))%Q).
  assert (∀ b o, inv b → inv (run_op b o)) as Hstep.
  { intros b o (E1 & E2 & Hlt). destruct o as [step n|]; cbn [run_op].
    - pose proof (check_spec b n step) as H. destruct (check b n step) as [b' a].
      destruct H as (F1 & F2 & _ & F4 & F5 & _).
      case_bool_decide; unfold inv; cbn; rewrite F1, F2, F4, E1, E2; [by split_and!|].
      rewrite E1, E2 in F5. split_and!; [done..|]. by apply F5.
    - unfold should_degrade. destruct (_degraded b); [done|].
      pose proof (check_spec b 1000 "") as H. destruct (check b 1000 "") as [b' a].
      destruct H as (F1 & F2 & _ & F4 & _). unfold inv. cbn. rewrite F1, F2, F4. by split_and!. }
  assert (∀ l b, inv b → inv (foldl run_op b l)) as Hall.
  { induction l as [|o l IH]; intros b Hb; [done|]. cbn. apply IH, Hstep, Hb. }
  apply Hall. unfold inv. cbn. split_and!; [done..|].
  by apply Qmult_lt_0_compat.
Qed.

Lemma budget_never_reaches_cap_witness :
  let b := foldl run_op (mkBudget 100 (7 # 10) (95 # 100) 0 [] false)
             [Spend "plan" 60; Ask; Spend "code" 34; Spend "review" 20; Spend "tiny" 0]%string in
  (inject_Z (_used b) < (95 # 100) * inject_Z (Z.max 100 1))%Q ∧ _used b = 94 ∧ _skipped_steps b = [""; "review"]%string.
Proof.
  split; [|by vm_compute].
  apply (budget_never_reaches_cap 100 (7 # 10) (95 # 100)
    [Spend "plan" 60; Ask; Spend "code" 34; Spend "review" 20; Spend "tiny" 0]%string). reflexivity.
Defined.

(** Asking [should_degrade] at the cap records a skipped step with an empty name
    each time it is asked, although no step was attempted. *)
Example asking_records_skips :
  let b := mkBudget 100 (7 # 10) (95 # 100) 50 [] false in
  _skipped_steps (should_degrade (should_degrade b).1).1 = [""; ""]%string.
Proof. by vm_compute. Qed.
End Budget.

(** ** Admission without backends

    Nothing suspends between [check_quota] and [track_active_task] then, so the
    two are one step. *)
Section admission.
Context {W : Type} (B : QuotaBackends W) (w : W).

Inductive quota_op :=
| Start (tenant task : string) (cost : Q) (tokens : Z) (now : Q)
| Finish (tenant task : string).

Definition run_quota_op (m : QuotaManager) (o : quota_op) : QuotaManager :=
  match o with
  | Start tenant task cost tokens now =>
      match (check_quota B m tenant cost tokens now w).2 with
      | Ok _ => (track_active_task B m tenant task now w).1
      | Err _ => m
      end
  | Finish tenant task => (untrack_active_task B m tenant task w).1
  end.

Definition local_quota (m : QuotaManager) (tenant : string) : TenantQuota :=
  default (default_quota tenant) (_defaults_cache m !! tenant).

(** What [check_quota] decides without backends, on every branch. *)
Lemma check_quota_local m tenant cost tokens now :
  pg m = false → redis m = false →
  let q := local_quota m tenant in
  check_quota B m tenant cost tokens now w =
    (w, if Qltb 0 cost && Qltb (monthly_budget_usd q) (0 + cost) then Err BudgetExceeded
        else if (0 <? tokens) && (0 <? max_input_tokens_per_task q) && (max_input_tokens_per_task q <? tokens)
        then Err TokensExceeded
        else if max_tasks_per_hour q <=? recent_starts m tenant now then Err HourlyExceeded
        else if max_concurrent_tasks q <=? active_count m tenant then Err ConcurrentExceeded
        else Ok true).
Proof.
  intros Hp Hr. unfold check_quota, get_quota, _get_monthly_cost, _get_hourly_task_count,
    _get_active_task_count. rewrite Hp, Hr. fold (local_quota m tenant). cbn zeta.
  destruct (Qltb 0 cost); cbn [andb]; [destruct (Qltb (monthly_budget_usd _) _); [done|]|];
    destruct (_ && _ && _); try done; destruct (_ <=? recent_starts _ _ _); try done;
    by destruct (_ <=? _).
Qed.

Lemma track_local m tenant task now : redis m = false →
  let m' := (track_active_task B m tenant task now w).1 in
  pg m' = pg m ∧ redis m' = false ∧ _defaults_cache m' = _defaults_cache m ∧
  active_count m' tenant ≤ active_count m tenant + 1 ∧
  (∀ t, t ≠ tenant → active_count m' t = active_count m t).
Proof.
  intros Hr. unfold track_active_task. cbn zeta. change (redis (with_starts m _)) with (redis m).
  rewrite Hr. cbn. split_and!; [done..| |].
  - unfold active_count. cbn. rewrite lookup_insert_eq. cbn.
    pose proof (size_union_alt {[task]} (default ∅ (_active_tasks m !! tenant))) as E. rewrite E.
    rewrite size_singleton.
    assert (size (default ∅ (_active_tasks m !! tenant) ∖ {[task]}) ≤ size (default ∅ (_active_tasks m !! tenant)))%nat
      by (apply subseteq_size; set_solver). lia.
  - intros t Ht. unfold active_count. cbn. by rewrite lookup_insert_ne.
Qed.

Lemma untrack_local m tenant task t : redis m = false →
  let m' := (untrack_active_task B m tenant task w).1 in
  pg m' = pg m ∧ redis m' = false ∧ _defaults_cache m' = _defaults_cache m ∧
  active_count m' t ≤ active_count m t.
Proof.
  intros Hr. unfold untrack_active_task. rewrite Hr.
  destruct (_active_tasks m !! tenant) as [s|] eqn:E; cbn; split_and!; try done.
  unfold active_count. cbn. destruct (decide (t = tenant)) as [->|Hne].
  - rewrite lookup_insert_eq, E. cbn. apply Nat2Z.inj_le, subseteq_size. set_solver.
  - by rewrite lookup_insert_ne by done.
Qed.

(** Without Redis and PostgreSQL the concurrency limit is enforced: over any
    sequence of admissions and completions no tenant ever has more active tasks
    than its [max_concurrent_tasks] (for limits that are not negative). *)
Theorem concurrency_limit_holds cache ops tenant :
  (∀ t, 0 ≤ max_concurrent_tasks (default (default_quota t) (cache !! t))) →
  let m := foldl run_quota_op (mkManager false false cache ∅ ∅) ops in
  active_count m tenant ≤ max_concurrent_tasks (local_quota m tenant).
Proof.
  intros Hq. set (inv := λ m, pg m = false ∧ redis m = false ∧ _defaults_cache m = cache ∧
    ∀ t, active_count m t ≤ max_concurrent_tasks (default (default_quota t) (cache !! t))).
  assert (∀ m o, inv m → inv (run_quota_op m o)) as Hstep.
  { intros m o (H1 & H2 & H3 & H4). destruct o as [t task cost tokens now|t task]; cbn [run_quota_op].
    - rewrite check_quota_local by done. cbn [snd]. unfold local_quota. rewrite H3.
      destruct (_ && _); [done|]. destruct (_ && _ && _); [done|].
      destruct (_ <=? recent_starts _ _ _); [done|].
      destruct (Z.leb_spec (max_concurrent_tasks (default (default_quota t) (cache !! t))) (active_count m t));
        [done|].
      destruct (track_local m t task now H2) as (F1 & F2 & F3 & F4 & F5).
      split_and!; [congruence..|]. intros t'. destruct (decide (t' = t)) as [->|Hne]; [lia|].
      rewrite F5 by done. apply H4.
    - destruct (untrack_local m t task t H2) as (F1 & F2 & F3 & _).
      split_and!; [congruence..|]. intros t'. destruct (untrack_local m t task t' H2) as (_ & _ & _ & F4).
      specialize (H4 t'). lia. }
  assert (∀ l m, inv m → inv (foldl run_quota_op m l)) as Hall.
  { induction l as [|o l IH]; intros m Hm; [done|]. cbn. apply IH, Hstep, Hm. }
  cbv zeta. unfold local_quota.
  destruct (Hall ops (mkManager false false cache ∅ ∅)) as (_ & _ & E & H); [|by rewrite E].
  split_and!; [done..|]. intros t. unfold active_count. cbn. rewrite lookup_empty. cbn. apply Hq.
Qed.

(** The monthly budget is only looked at for a positive cost estimate: with
    the default [estimated_cost_usd = 0.0] (what the API server passes) the answer
    of [check_quota] does not depend on the budget at all. *)
Theorem budget_ignored_without_estimate m tenant q budget tokens now w0 :
  let with_budget b := mkManager false (redis m)
    (<[tenant := mkQuota (q_tenant_id q) b (max_concurrent_tasks q) (max_tasks_per_hour q)
        (max_input_tokens_per_task q) (enabled_features q)]> (_defaults_cache m))
    (_active_tasks m) (_task_starts m) in
  check_quota B (with_budget budget) tenant 0 tokens now w0 =
  check_quota B (with_budget 0%Q) tenant 0 tokens now w0.
Proof.
  unfold check_quota, get_quota. cbn. by rewrite !lookup_insert_eq.
Qed.
End admission.

(** ** Concrete backends: Redis keeps the task sets, the database is absent *)
Definition set_backends : QuotaBackends (gmap string (gset string)) :=
  mkQB (λ _ w, (w, None)) (λ _ _ w, w) (λ _ w, (w, None)) (λ _ w, (w, None)) (λ _ w, (w, Some None))
    (λ t task w, (<[t := {[task]} ∪ default ∅ (w !! t)]> w, true))
    (λ t task w, (<[t := default ∅ (w !! t) ∖ {[task]}]> w, true))
    (λ t w, (w, Some (Z.of_nat (size (default ∅ (w !! t)))))).

Definition one_task : gmap string TenantQuota :=
  {[ "acme"%string := mkQuota "acme" 100 1 100 0 [] ]}.

Lemma concurrency_limit_holds_witness :
  let m := foldl (run_quota_op set_backends ∅) (mkManager false false one_task ∅ ∅)
    [Start "acme" "t1" 0 0 0; Start "acme" "t2" 0 0 1; Finish "acme" "t1"; Start "acme" "t3" 0 0 2] in
  active_count m "acme" ≤ max_concurrent_tasks (local_quota m "acme").
Proof.
  apply (concurrency_limit_holds set_backends ∅ one_task
    [Start "acme" "t1" 0 0 0; Start "acme" "t2" 0 0 1; Finish "acme" "t1"; Start "acme" "t3" 0 0 2] "acme").
  intros t. unfold one_task. destruct (decide (t = "acme"%string)) as [->|Hne].
  - rewrite lookup_singleton_eq. cbn. lia.
  - rewrite lookup_singleton_ne by congruence. cbn. lia.
Defined.

(** With Redis the calls of [check_quota] and [track_active_task] suspend: two
    requests that both check before either is tracked are both admitted, so a
    tenant limited to one task runs two. *)
Example concurrent_checks_exceed_limit :
  let m := mkManager false true one_task ∅ ∅ in
  let '(w1, ok1) := check_quota set_backends m "acme" 0 0 0 ∅ in
  let '(w2, ok2) := check_quota set_backends m "acme" 0 0 0 w1 in
  let '(m3, w3) := track_active_task set_backends m "acme" "t1" 0 w2 in
  let '(m4, w4) := track_active_task set_backends m3 "acme" "t2" 0 w3 in
  ok1 = Ok true ∧ ok2 = Ok true ∧ (_get_active_task_count set_backends m4 "acme" w4).2 = 2.
Proof. by vm_compute. Qed.
