(* ===== verification/OntologyGraph.v ===== *)
(** * The ontology graph ([noema/ontology/graph.py])

    Entities are an insertion-ordered dictionary, relations a list with two
    indices of positions.  Neighbours, subgraphs, rendering and files are in
    [OntologyQueries]. *)
From Stdlib Require Import ZArith QArith Lqa Lia Bool Ascii String.
From stdpp Require Import base option numbers gmap sets strings sorting list.
From S2P Require Import Prelude.

(** [OntologyError] (a [ValueError] subclass) or a Python exception. *)
Inductive graph_exn :=
| OntologyError
| PyExn (e : pyexn).

Abbreviation gresult := (result graph_exn).

Record Entity := mkEntity {
  name : string;
  type : string;
  attributes : list (string * string);
}.

Record Relation := mkRelation {
  subject : string;
  predicate : string;
  object : string;
  weight : Q;
  metadata : list (string * string);
}.

Fixpoint has_control (s : string) : bool :=
  match s with
  | EmptyString => false
  | String a s => (nat_of_ascii a <? 32)%nat || has_control s
  end.

Definition _clean_name (n : string) : gresult string :=
  let cleaned := strip n in
  if negb (nonempty cleaned) then Err OntologyError
  else if has_control cleaned then Err OntologyError
  else Ok cleaned.

Record OntologyGraph := mkGraph {
  max_entities : Z;
  max_relations : Z;
  _entities : list (string * Entity);
  _relations : list Relation;
  _by_subject : list (string * list nat);
  _by_object : list (string * list nat);
}.

Definition graph_init (max_entities max_relations : Z) : OntologyGraph :=
  mkGraph max_entities max_relations [] [] [] [].

Definition with_entities (g : OntologyGraph) (es : list (string * Entity)) : OntologyGraph :=
  mkGraph (max_entities g) (max_relations g) es (_relations g) (_by_subject g) (_by_object g).

Definition add_entity (g : OntologyGraph) (e : Entity) : gresult OntologyGraph :=
  n ← _clean_name (name e);
  if negb (dmem n (_entities g)) && (max_entities g <=? Z.of_nat (length (_entities g)))%Z
  then Err OntologyError
  else Ok (with_entities g
    (dset n (mkEntity n (strip (if nonempty (type e) then type e else "unknown")) (attributes e))
      (_entities g))).

(** [self._by_subject.get(node, ())] *)
Definition idxs (node : string) (index : list (string * list nat)) : list nat :=
  default [] (dget node index).

(** The loop that looks for an existing triple among the subject's relations. *)
Fixpoint find_triple (rs : list Relation) (pred obj : string) (ix : list nat) : gresult bool :=
  match ix with
  | [] => Ok false
  | i :: ix =>
      match rs !! i with
      | None => Err (PyExn IndexError)
      | Some r =>
          if String.eqb (predicate r) pred && String.eqb (object r) obj then Ok true
          else find_triple rs pred obj ix
      end
  end.

Definition add_relation (g : OntologyGraph) (r : Relation) : gresult OntologyGraph :=
  subj ← _clean_name (subject r);
  obj ← _clean_name (object r);
  if negb (dmem subj (_entities g)) then Err OntologyError
  else if negb (dmem obj (_entities g)) then Err OntologyError
  else
    let pred := strip (predicate r) in
    if negb (nonempty pred) then Err OntologyError
    else
      dup ← find_triple (_relations g) pred obj (idxs subj (_by_subject g));
      if (dup : bool) then Ok g
      else if (max_relations g <=? Z.of_nat (length (_relations g)))%Z then Err OntologyError
      else
        let idx := length (_relations g) in
        Ok (mkGraph (max_entities g) (max_relations g) (_entities g)
              (_relations g ++ [mkRelation subj pred obj (weight r) (metadata r)])
              (dset subj (idxs subj (_by_subject g) ++ [idx]) (_by_subject g))
              (dset obj (idxs obj (_by_object g) ++ [idx]) (_by_object g))).

Definition get_entity (g : OntologyGraph) (n : string) : gresult (option Entity) :=
  n ← _clean_name n; Ok (dget n (_entities g)).

(** [sorted(..., key=lambda e: e.name)] *)
Definition entity_le (a b : Entity) : Prop := string_le (name a) (name b).
#[global] Instance entity_le_dec : RelDecision entity_le := λ a b, string_le_dec (name a) (name b).

Definition entities (g : OntologyGraph) (ty : option string) : list Entity :=
  let all := (_entities g).*2 in
  merge_sort entity_le
    (match ty with None => all | Some t => filter (λ e, type e = t) all end).

Definition relations (g : OntologyGraph) : list Relation := _relations g.

(** ** Cycle detection *)
Inductive color := white | gray | black.

#[global] Instance color_eq_dec : EqDecision color.
Proof. solve_decision. Defined.

(** The inner [for]: pushes the objects of the node's relations that are white or
    gray.  The head of the list is the top of the stack. *)
Fixpoint push_children (g : OntologyGraph) (c : gmap string color) (ix : list nat)
    (stack : list (string * bool)) : gresult (list (string * bool)) :=
  match ix with
  | [] => Ok stack
  | i :: ix =>
      match _relations g !! i with
      | None => Err (PyExn IndexError)
      | Some r =>
          match c !! object r with
          | None => Err (PyExn KeyError)
          | Some black => push_children g c ix stack
          | Some _ => push_children g c ix ((object r, false) :: stack)
          end
      end
  end.

(** The [while stack] loop; [true] is the early [return True]. *)
Fixpoint dfs_loop (fuel : nat) (g : OntologyGraph) (c : gmap string color)
    (stack : list (string * bool)) : gresult (gmap string color * bool) :=
  match fuel with
  | O => Err (PyExn OutOfFuel)
  | S fuel =>
      match stack with
      | [] => Ok (c, false)
      | (node, true) :: stack => dfs_loop fuel g (<[node := black]> c) stack
      | (node, false) :: stack =>
          match c !! node with
          | None => Err (PyExn KeyError)
          | Some gray => Ok (c, true)
          | Some _ =>
              let c := <[node := gray]> c in
              stack ← push_children g c (idxs node (_by_subject g)) ((node, true) :: stack);
              dfs_loop fuel g c stack
          end
      end
  end.

(** The number of edges leaving the entities bounds the pushes of the whole search. *)
Definition out_degree (g : OntologyGraph) (n : string) : nat := length (idxs n (_by_subject g)).
Definition cycle_fuel (g : OntologyGraph) : nat :=
  2 * sum_list (map (out_degree g) (_entities g).*1) + 3.

Fixpoint cycle_from (g : OntologyGraph) (c : gmap string color) (starts : list string) : gresult bool :=
  match starts with
  | [] => Ok false
  | start :: starts =>
      match c !! start with
      | None => Err (PyExn KeyError)
      | Some white =>
          '(c, found) ← dfs_loop (cycle_fuel g) g c [(start, false)];
          if (found : bool) then Ok true else cycle_from g c starts
      | Some _ => cycle_from g c starts
      end
  end.

Definition has_cycle (g : OntologyGraph) : gresult bool :=
  cycle_from g (list_to_map (map (λ n, (n, white)) (_entities g).*1)) (_entities g).*1.

(** ** Bounded path search *)
Definition path_limit : nat := 8.

(** [_dfs]: the loop over the indices and the recursive call, with the list of
    paths found so far; [fuel] bounds the depth of the recursion. *)
Fixpoint path_dfs (fuel : nat) (g : OntologyGraph) (end_ : string) (max_depth : Z) (node : string)
    (path : list string) (paths : list (list string)) : gresult (list (list string)) :=
  match fuel with
  | O => Err (PyExn OutOfFuel)
  | S fuel =>
      if (path_limit <=? length paths)%nat || (max_depth <? Z.of_nat (length path))%Z then Ok paths
      else
        (fix loop (ix : list nat) (paths : list (list string)) : gresult (list (list string)) :=
           match ix with
           | [] => Ok paths
           | i :: ix =>
               match _relations g !! i with
               | None => Err (PyExn IndexError)
               | Some r =>
                   let nxt := object r in
                   if bool_decide (nxt ∈ path) then loop ix paths
                   else
                     let cand := path ++ [nxt] in
                     if String.eqb nxt end_ then
                       let paths := paths ++ [cand] in
                       if (path_limit <=? length paths)%nat then Ok paths else loop ix paths
                     else
                       paths ← path_dfs fuel g end_ max_depth nxt cand paths;
                       loop ix paths
               end
           end) (idxs node (_by_subject g)) paths
  end.

Definition find_paths (g : OntologyGraph) (start end_ : string) (max_depth : Z) : gresult (list (list string)) :=
  start ← _clean_name start;
  end_ ← _clean_name end_;
  if negb (dmem start (_entities g)) || negb (dmem end_ (_entities g)) then Ok []
  else path_dfs (Z.to_nat max_depth + 1) g end_ max_depth start [start] [].

Definition stats (g : OntologyGraph) : gresult (Z * Z * bool) :=
  c ← has_cycle g;
  Ok (Z.of_nat (length (_entities g)), Z.of_nat (length (_relations g)), c).

(** ** Well-formed graphs *)
Definition clean (n : string) : Prop := _clean_name n = Ok n.

(** The positions of the relations a predicate selects, in ascending order. *)
Definition positions (P : Relation → bool) (rs : list Relation) : list nat :=
  filter (λ i, from_option P false (rs !! i) = true) (seq 0 (length rs)).

Definition index_ok (key : Relation → string) (rs : list Relation) (index : list (string * list nat)) : Prop :=
  ∀ n, idxs n index = positions (λ r, String.eqb (key r) n) rs.

Definition triple (r : Relation) : string * string * string := (subject r, predicate r, object r).

Record graph_wf (g : OntologyGraph) : Prop := {
  wf_entities : NoDup (_entities g).*1;
  wf_names : ∀ k e, dget k (_entities g) = Some e → name e = k ∧ clean k;
  wf_endpoints : Forall (λ r, dmem (subject r) (_entities g) = true ∧ dmem (object r) (_entities g) = true
                              ∧ nonempty (predicate r) = true ∧ strip (predicate r) = predicate r) (_relations g);
  wf_triples : NoDup (map triple (_relations g));
  wf_by_subject : index_ok subject (_relations g) (_by_subject g);
  wf_by_object : index_ok object (_relations g) (_by_object g);
  wf_entity_cap : (Z.of_nat (length (_entities g)) ≤ Z.max 0 (max_entities g))%Z;
  wf_relation_cap : (Z.of_nat (length (_relations g)) ≤ Z.max 0 (max_relations g))%Z;
}.

(** ** The mutations preserve well-formedness *)
Lemma dmem_true {V} k (d : list (string * V)) : dmem k d = true ↔ k ∈ d.*1.
Proof. unfold dmem. by rewrite bool_decide_eq_true, dget_is_Some. Qed.

Lemma dmem_dset {V} k k' (v : V) (d : list (string * V)) : dmem k (dset k' v d) = true ↔ k = k' ∨ dmem k d = true.
Proof. by rewrite !dmem_true, elem_of_dset_keys. Qed.

Lemma clean_name_ok n n' : _clean_name n = Ok n' → n' = strip n ∧ clean n'.
Proof.
  unfold clean, _clean_name. destruct (nonempty (strip n)) eqn:E1; cbn; [|done].
  destruct (has_control (strip n)) eqn:E2; [done|]. intros [= <-].
  by rewrite strip_idem, E1, E2.
Qed.

Lemma filter_ext_in {A} (P Q : A → Prop) `{!∀ x, Decision (P x), !∀ x, Decision (Q x)} (l : list A) :
  (∀ x, x ∈ l → P x ↔ Q x) → filter P l = filter Q l.
Proof.
  induction l as [|x l IH]; intros Hpq; [done|]. rewrite !filter_cons.
  rewrite IH by (intros; apply Hpq; by right). specialize (Hpq x ltac:(left)).
  destruct (decide (P x)), (decide (Q x)); tauto.
Qed.

Lemma positions_snoc P rs r :
  positions P (rs ++ [r]) = positions P rs ++ (if P r then [length rs] else []).
Proof.
  unfold positions. rewrite length_app, Nat.add_1_r, seq_S, filter_app. cbn [Nat.add]. f_equal.
  - apply filter_ext_in. intros i [_ Hi]%elem_of_seq. by rewrite lookup_app_l by lia.
  - rewrite filter_cons, filter_nil. rewrite lookup_app_r, Nat.sub_diag by lia. cbn.
    by destruct (P r); case_decide.
Qed.

Lemma elem_of_positions P rs i : i ∈ positions P rs ↔ ∃ r, rs !! i = Some r ∧ P r = true.
Proof.
  unfold positions. rewrite list_elem_of_filter, elem_of_seq. split.
  - intros [HP Hi]. destruct (rs !! i) as [r|] eqn:E; [|done]. by exists r.
  - intros (r & E & HP). rewrite E. apply lookup_lt_Some in E. split; [done|lia].
Qed.

Lemma idxs_dset n n' v index : idxs n (dset n' v index) = if decide (n = n') then v else idxs n index.
Proof. unfold idxs. rewrite dget_dset. by case_decide. Qed.

Lemma index_ok_snoc key rs r index : index_ok key rs index →
  index_ok key (rs ++ [r]) (dset (key r) (idxs (key r) index ++ [length rs]) index).
Proof.
  intros H n. rewrite idxs_dset, positions_snoc. destruct (decide (n = key r)) as [->|Hne].
  - rewrite String.eqb_refl, H. done.
  - rewrite (proj2 (String.eqb_neq (key r) n)) by congruence. rewrite app_nil_r. apply H.
Qed.

(** The duplicate check is exact: it never fails on a well-formed graph, and
    answers whether the triple is recorded. *)
Lemma find_triple_spec rs pred obj ix : (∀ i, i ∈ ix → is_Some (rs !! i)) →
  ∃ b, find_triple rs pred obj ix = Ok b ∧
    (b = true ↔ ∃ i r, i ∈ ix ∧ rs !! i = Some r ∧ predicate r = pred ∧ object r = obj).
Proof.
  induction ix as [|i ix IH]; intros Hin; cbn.
  - exists false. split; [done|]. split; [done|]. intros (i & r & Hi & _). by apply elem_of_nil in Hi.
  - destruct (Hin i) as [r Hr]; [left|]. rewrite Hr.
    destruct (String.eqb (predicate r) pred && String.eqb (object r) obj) eqn:E.
    + exists true. split; [done|]. split; [|done]. intros _. exists i, r.
      apply andb_true_iff in E as [E1%String.eqb_eq E2%String.eqb_eq]. split_and!; [left|done..].
    + destruct IH as (b & -> & Hb); [intros; apply Hin; by right|]. exists b. split; [done|].
      rewrite Hb. split; [intros (j & r' & Hj & ?); exists j, r'; split; [by right|done]|].
      intros (j & r' & [->|Hj]%elem_of_cons & Hj' & E1 & E2); [|by exists j, r'].
      exfalso. simplify_eq. by rewrite !String.eqb_refl in E.
Qed.

Lemma find_triple_wf g subj pred obj : graph_wf g →
  ∃ b, find_triple (_relations g) pred obj (idxs subj (_by_subject g)) = Ok b ∧
    (b = true ↔ (subj, pred, obj) ∈ map triple (_relations g)).
Proof.
  intros Hwf. rewrite (wf_by_subject g Hwf).
  destruct (find_triple_spec (_relations g) pred obj
    (positions (λ r, String.eqb (subject r) subj) (_relations g))) as (b & -> & Hb).
  { intros i (r & -> & _)%elem_of_positions. by eexists. }
  exists b. split; [done|]. rewrite Hb. rewrite list_elem_of_fmap. split.
  - intros (i & r & (r' & E & Es%String.eqb_eq)%elem_of_positions & Er & <- & <-).
    rewrite E in Er. injection Er as ->. subst subj. exists r. split; [done|]. by eapply list_elem_of_lookup_2.
  - intros (r & [= -> -> ->] & [i Hi]%list_elem_of_lookup). exists i, r. split; [|done].
    apply elem_of_positions. exists r. by rewrite String.eqb_refl.
Qed.

Lemma graph_init_wf me mr : graph_wf (graph_init me mr).
Proof. split; cbn; try constructor; try done; try lia. Qed.

Lemma add_entity_wf g e g' : graph_wf g → add_entity g e = Ok g' →
  graph_wf g' ∧ _relations g' = _relations g ∧ _by_subject g' = _by_subject g ∧ _by_object g' = _by_object g ∧
  max_entities g' = max_entities g ∧ max_relations g' = max_relations g ∧
  (∀ n, n ∈ (_entities g').*1 ↔ n = strip (name e) ∨ n ∈ (_entities g).*1).
Proof.
  intros [H1 H2 H3 H4 H5 H6 H7 H8]. unfold add_entity.
  intros (n & Hn & Hg)%result_bind_ok. destruct (clean_name_ok _ _ Hn) as [En Hc].
  destruct (negb (dmem n (_entities g)) && _) eqn:Ecap; [done|]. injection Hg as <-.
  split; [|split_and!; try done; intros k; cbn; by rewrite elem_of_dset_keys, En].
  split; cbn; [by apply dset_keys_NoDup| |..]; try done.
  - intros k e'. rewrite dget_dset. case_decide; [|by apply H2]. intros [= <-]. by subst k.
  - eapply Forall_impl; [exact H3|]. cbn. intros r (? & ? & ?). rewrite !dmem_dset. split_and!; tauto.
  - destruct (dmem n (_entities g)) eqn:Em; cbn in Ecap.
    + rewrite dset_length_mem by (by apply dmem_true). done.
    + rewrite dset_length_fresh by (rewrite <- dmem_true; congruence). apply Z.leb_gt in Ecap. lia.
Qed.

Lemma add_relation_wf g r g' : graph_wf g → add_relation g r = Ok g' →
  graph_wf g' ∧ _entities g' = _entities g ∧
  max_entities g' = max_entities g ∧ max_relations g' = max_relations g ∧
  let t := (strip (subject r), strip (predicate r), strip (object r)) in
  (g' = g ∧ t ∈ map triple (_relations g)) ∨
  (t ∉ map triple (_relations g) ∧
   ∃ r', triple r' = t ∧ weight r' = weight r ∧ metadata r' = metadata r ∧ _relations g' = _relations g ++ [r']).
Proof.
  intros Hwf. unfold add_relation.
  intros (subj & Hs & (obj & Ho & Hg)%result_bind_ok)%result_bind_ok.
  destruct (clean_name_ok _ _ Hs) as [Es _], (clean_name_ok _ _ Ho) as [Eo _].
  destruct (dmem subj (_entities g)) eqn:Ms; [cbn in Hg|done].
  destruct (dmem obj (_entities g)) eqn:Mo; [cbn in Hg|done].
  destruct (nonempty (strip (predicate r))) eqn:Ep; [cbn [negb] in Hg|done].
  destruct (find_triple_wf g subj (strip (predicate r)) obj Hwf) as (b & Eb & Hb).
  rewrite Eb in Hg. cbn in Hg. subst subj obj. destruct b.
  - injection Hg as <-. split_and!; [done..|]. left. split; [done|]. by apply Hb.
  - assert (¬ (strip (subject r), strip (predicate r), strip (object r)) ∈ map triple (_relations g)) as Hfresh.
    { intros Hin. apply Hb in Hin. done. }
    destruct (Z.leb_spec (max_relations g) (Z.of_nat (length (_relations g)))); [done|]. injection Hg as <-.
    destruct Hwf as [H1 H2 H3 H4 H5 H6 H7 H8]. split_and!; [|done..|].
    + set (r' := mkRelation _ _ _ _ _). split; cbn; [done|done|..]; try done.
      * apply Forall_app. split; [done|]. apply Forall_singleton. by split_and!; [..|apply strip_idem].
      * rewrite map_app. apply list.NoDup_app. split_and!; [done| |apply NoDup_singleton].
        intros x Hx Hx'%list_elem_of_singleton. by subst x.
      * apply (index_ok_snoc subject (_relations g) r' _ H5).
      * apply (index_ok_snoc object (_relations g) r' _ H6).
      * rewrite length_app. cbn. lia.
    + right. split; [done|]. by eexists (mkRelation _ _ _ _ _).
Qed.

(** What a client of the graph can do; a call that raises leaves it unchanged. *)
Inductive graph_op := AddEntity (e : Entity) | AddRelation (r : Relation).

Definition run_op (g : OntologyGraph) (o : graph_op) : OntologyGraph :=
  match (match o with AddEntity e => add_entity g e | AddRelation r => add_relation g r end) with
  | Ok g' => g'
  | Err _ => g
  end.

Lemma run_op_wf g o : graph_wf g → graph_wf (run_op g o) ∧
  max_entities (run_op g o) = max_entities g ∧ max_relations (run_op g o) = max_relations g.
Proof.
  intros Hwf. unfold run_op. destruct o as [e|r].
  - destruct (add_entity g e) as [g'|] eqn:E; [|done].
    destruct (add_entity_wf g e g' Hwf E) as (? & _ & _ & _ & ? & ? & _). done.
  - destruct (add_relation g r) as [g'|] eqn:E; [|done].
    destruct (add_relation_wf g r g' Hwf E) as (? & _ & ? & ? & _). done.
Qed.

Lemma run_ops_wf ops : ∀ g, graph_wf g → graph_wf (foldl run_op g ops).
Proof.
  induction ops as [|o ops IH]; intros g Hwf; [done|]. cbn. apply IH. by apply run_op_wf.
Qed.

(** C20: Every graph the constructor and any sequence of [add_entity] and
    [add_relation] calls produce is well-formed: entity keys are distinct, clean
    and equal to the entity's name; both endpoints of every relation are entities
    and its predicate is stripped and not empty; no triple is recorded twice; both indices list
    exactly the positions of their relations; and the two caps are respected. *)
Theorem reachable_graph_wf me mr ops :
  let g := foldl run_op (graph_init me mr) ops in
  graph_wf g ∧ (Z.of_nat (length (_entities g)) ≤ Z.max 0 me)%Z ∧
  (Z.of_nat (length (_relations g)) ≤ Z.max 0 mr)%Z.
Proof.
  assert (∀ ops g, graph_wf g → max_entities g = me → max_relations g = mr →
    max_entities (foldl run_op g ops) = me ∧ max_relations (foldl run_op g ops) = mr) as Hcaps.
  { clear. induction ops as [|o ops IH]; intros g Hwf E1 E2; [done|]. cbn.
    destruct (run_op_wf g o Hwf) as (Hw & F1 & F2). apply IH; congruence. }
  cbv zeta. pose proof (run_ops_wf ops _ (graph_init_wf me mr)) as Hwf.
  destruct (Hcaps ops _ (graph_init_wf me mr) eq_refl eq_refl) as [E1 E2].
  split; [done|]. destruct Hwf as [_ _ _ _ _ _ H7 H8]. rewrite E1 in H7. rewrite E2 in H8. done.
Qed.

(** ** Edges *)
Definition edge (g : OntologyGraph) (x y : string) : Prop :=
  ∃ r, r ∈ _relations g ∧ subject r = x ∧ object r = y.

(** The objects of a node's outgoing relations, in index order. *)
Definition succs (g : OntologyGraph) (x : string) : list string :=
  map object (omap (λ i, _relations g !! i) (idxs x (_by_subject g))).

Lemma elem_of_succs g x y : graph_wf g → y ∈ succs g x ↔ edge g x y.
Proof.
  intros Hwf. unfold succs, edge. rewrite (wf_by_subject g Hwf), list_elem_of_fmap. split.
  - intros (r & -> & (i & (r' & E & Es%String.eqb_eq)%elem_of_positions & Er)%list_elem_of_omap).
    rewrite E in Er. injection Er as ->. exists r. split_and!; [by eapply list_elem_of_lookup_2|done..].
  - intros (r & [i Hi]%list_elem_of_lookup & <- & <-). exists r. split; [done|].
    apply list_elem_of_omap. exists i. split; [|done]. apply elem_of_positions. exists r.
    by rewrite String.eqb_refl.
Qed.

Lemma edge_entities g x y : graph_wf g → edge g x y → x ∈ (_entities g).*1 ∧ y ∈ (_entities g).*1.
Proof.
  intros Hwf (r & Hr & <- & <-). pose proof (wf_endpoints g Hwf) as H. rewrite Forall_forall in H.
  destruct (H r Hr) as (H1 & H2 & _). by rewrite !dmem_true in *.
Qed.

Lemma idxs_valid g x i : graph_wf g → i ∈ idxs x (_by_subject g) → is_Some (_relations g !! i).
Proof. intros Hwf. rewrite (wf_by_subject g Hwf). intros (r & -> & _)%elem_of_positions. by eexists. Qed.
