(* ===== verification/OntologyCycles.v ===== *)
(** * Correctness of [OntologyGraph.has_cycle]

    The iterative three-colour depth-first search answers exactly whether the
    graph has a directed cycle, and its loop ends within the fuel of the model.
    The proof follows the stack: the expanded entries form a path, the finished
    nodes a list in which every edge points to a node finished earlier.  A node
    pushed by several parents may be coloured gray a second time; the invariant
    shows that this happens only with nothing above it on the stack. *)
From Stdlib Require Import ZArith Lia Bool String.
From stdpp Require Import base option numbers gmap sets strings relations list.
From S2P Require Import Prelude OntologyGraph.

Definition cyclic (g : OntologyGraph) : Prop := ∃ x, tc (edge g) x x.

(** The innermost expanded entry. *)
Fixpoint top_marker (st : list (string * bool)) : option string :=
  match st with
  | [] => None
  | (x, true) :: _ => Some x
  | (_, false) :: st => top_marker st
  end.

Section search.
Context (g : OntologyGraph) (Hwf : graph_wf g).
Abbreviation V := ((_entities g).*1).

(** Finished nodes, last finished first. *)
Fixpoint topo (D : list string) : Prop :=
  match D with
  | [] => True
  | x :: D => (∀ y, edge g x y → y ∈ D) ∧ topo D
  end.

(** Every entry was pushed by the innermost expanded entry below it. *)
Fixpoint chain (st : list (string * bool)) : Prop :=
  match st with
  | [] => True
  | (x, _) :: st => (∀ m, top_marker st = Some m → edge g m x) ∧ chain st
  end.

(** Reading the stack from the top, [above] being the nodes already read: an
    expanded node that is not finished has its remaining successors above it, and
    an expanded node that is finished has nothing above it. *)
Fixpoint pending (D : list string) (above : list string) (st : list (string * bool)) : Prop :=
  match st with
  | [] => True
  | (m, true) :: st =>
      (m ∉ D → ∀ y, edge g m y → y ∈ D ∨ y ∈ above) ∧ (m ∈ D → above = []) ∧
      (m, true) ∉ st ∧ pending D (m :: above) st
  | (m, false) :: st => pending D (m :: above) st
  end.

Record inv (c : gmap string color) (st : list (string * bool)) (D : list string) : Prop := {
  inv_dom : ∀ x, is_Some (c !! x) ↔ x ∈ V;
  inv_stack : ∀ x b, (x, b) ∈ st → x ∈ V;
  inv_gray : ∀ x, c !! x = Some gray ↔ (x, true) ∈ st;
  inv_black : ∀ x, c !! x = Some black ↔ x ∈ D ∧ (x, true) ∉ st;
  inv_topo : topo D;
  inv_chain : chain st;
  inv_pending : pending D [] st;
}.

Lemma topo_closed D x y : topo D → x ∈ D → edge g x y → y ∈ D.
Proof.
  induction D as [|z D IH]; intros Ht Hx He; [by apply elem_of_nil in Hx|].
  destruct Ht as [Hz Ht]. right. apply elem_of_cons in Hx as [->|Hx]; [by apply Hz|by apply IH].
Qed.

Lemma topo_closed_tc D x y : topo D → x ∈ D → tc (edge g) x y → y ∈ D.
Proof.
  intros Ht Hx Hp. induction Hp as [x y He|x y z He _ IH]; [by eapply topo_closed|].
  apply IH. by eapply topo_closed.
Qed.

Lemma topo_acyclic D x : topo D → x ∈ D → ¬ tc (edge g) x x.
Proof.
  induction D as [|z D IH]; intros Ht Hx Hc; [by apply elem_of_nil in Hx|].
  destruct Ht as [Hz Ht]. destruct (decide (x ∈ D)) as [Hd|Hd]; [by apply (IH Ht Hd)|].
  apply elem_of_cons in Hx as [->|Hx]; [|done]. apply Hd.
  inversion Hc as [x y He|x y w He Hp]; subst; [by apply Hz|].
  eapply topo_closed_tc; [done| |done]. by apply Hz.
Qed.

(** A gray node met again is reachable from itself. *)
Lemma chain_reach st n m : chain st → (n, true) ∈ st → top_marker st = Some m → rtc (edge g) n m.
Proof.
  revert m. induction st as [|[x b] st IH]; intros m Hc Hin Ht; [by apply elem_of_nil in Hin|].
  destruct Hc as [Hx Hc]. destruct b; cbn in Ht.
  - injection Ht as ->. apply elem_of_cons in Hin as [[= ->]|Hin]; [apply rtc_refl|].
    destruct (top_marker st) as [m'|] eqn:Em.
    + eapply rtc_r; [by apply IH|by apply Hx].
    + exfalso. clear -Hin Em. induction st as [|[y []] st IH]; [by apply elem_of_nil in Hin|done|].
      apply elem_of_cons in Hin as [?|?]; [done|]. by apply IH.
  - apply elem_of_cons in Hin as [?|Hin]; [done|]. by apply IH.
Qed.

Lemma gray_pop_cyclic st n : chain ((n, false) :: st) → (n, true) ∈ st → cyclic g.
Proof.
  intros [Hn Hc] Hin. destruct (top_marker st) as [m|] eqn:Em.
  - exists n. eapply tc_rtc_l; [by apply (chain_reach st n m)|]. apply tc_once. by apply Hn.
  - exfalso. clear -Hin Em. induction st as [|[y []] st IH]; [by apply elem_of_nil in Hin|done|].
    apply elem_of_cons in Hin as [?|?]; [done|]. by apply IH.
Qed.

(** [pending] only depends on what is above as a set, and on whether it is empty. *)
Lemma pending_mono D D' above above' st :
  (∀ y, y ∈ D → y ∈ D') → (∀ y, y ∈ above → y ∈ D' ∨ y ∈ above') →
  (∀ m, (m, true) ∈ st → m ∈ D' → m ∈ D) → (above = [] → above' = []) →
  pending D above st → pending D' above' st.
Proof.
  revert above above'. induction st as [|[m b] st IH]; intros above above' HD Ha Hm He Hp; [done|].
  destruct b; cbn in *.
  - destruct Hp as (P1 & P2 & P3 & P4). split_and!.
    + intros Hn y Hy. destruct (P1 ltac:(naive_solver) y Hy) as [?|?]; auto.
    + intros HmD. apply He, P2, Hm; [left|done].
    + done.
    + eapply IH; [exact HD| | | |exact P4]; [set_solver|set_solver|done].
  - eapply IH; [exact HD| | | |exact Hp]; [set_solver|set_solver|done].
Qed.

(** With something above, no expanded node below is finished. *)
Lemma pending_unfinished D above st m :
  above ≠ [] → pending D above st → (m, true) ∈ st → m ∉ D.
Proof.
  revert above. induction st as [|[x b] st IH]; intros above Ha Hp Hin; [by apply elem_of_nil in Hin|].
  destruct b; cbn in Hp.
  - destruct Hp as (P1 & P2 & P3 & P4). apply elem_of_cons in Hin as [[= ->]|Hin].
    + intros Hd. by apply Ha, P2.
    + by apply (IH (x :: above)).
  - apply elem_of_cons in Hin as [?|Hin]; [done|]. by apply (IH (x :: above)).
Qed.

(** ** The inner loop *)
Lemma push_children_spec c ix st :
  (∀ i, i ∈ ix → ∃ r, _relations g !! i = Some r ∧ is_Some (c !! object r)) →
  push_children g c ix st =
    Ok (reverse (map (λ y, (y, false))
          (filter (λ y, c !! y ≠ Some black) (map object (omap (λ i, _relations g !! i) ix)))) ++ st).
Proof.
  revert st. induction ix as [|i ix IH]; intros st Hi; [done|].
  destruct (Hi i) as (r & Hr & [col Hc]); [left|]. cbn [push_children omap list_omap]. rewrite Hr, Hc.
  cbn [map]. rewrite filter_cons.
  assert (∀ j, j ∈ ix → ∃ r, _relations g !! j = Some r ∧ is_Some (c !! object r)) as Hi'
    by (intros; apply Hi; by right).
  destruct col; rewrite IH by done.
  - rewrite decide_True by congruence. cbn [map]. by rewrite reverse_cons, <- app_assoc.
  - rewrite decide_True by congruence. cbn [map]. by rewrite reverse_cons, <- app_assoc.
  - rewrite decide_False by naive_solver. done.
Qed.

(** ** One iteration of the outer loop preserves the invariant *)
Definition kids (c : gmap string color) (n : string) : list string :=
  reverse (filter (λ y, c !! y ≠ Some black) (succs g n)).

Definition entries (ys : list string) : list (string * bool) := map (λ y, (y, false)) ys.

Lemma elem_of_entries x b ys : (x, b) ∈ entries ys ↔ b = false ∧ x ∈ ys.
Proof. unfold entries. rewrite list_elem_of_fmap. naive_solver. Qed.

Lemma marker_entries x ys st : (x, true) ∈ entries ys ++ st ↔ (x, true) ∈ st.
Proof. rewrite elem_of_app, elem_of_entries. naive_solver. Qed.

Lemma elem_of_kids c n y : y ∈ kids c n ↔ edge g n y ∧ c !! y ≠ Some black.
Proof.
  unfold kids. rewrite elem_of_reverse, list_elem_of_filter, (elem_of_succs g n y Hwf). tauto.
Qed.

Lemma top_marker_entries ys n st : top_marker (entries ys ++ (n, true) :: st) = Some n.
Proof. by induction ys. Qed.

Lemma chain_entries ys n st :
  (∀ y, y ∈ ys → edge g n y) → chain ((n, true) :: st) → chain (entries ys ++ (n, true) :: st).
Proof.
  induction ys as [|y ys IH]; intros He Hc; [done|]. split; [|apply IH; [set_solver|done]].
  intros m Hm. fold (entries ys) in Hm. change (map (λ y, (y, false)) ys) with (entries ys) in Hm.
  rewrite top_marker_entries in Hm. injection Hm as <-. apply He. left.
Qed.

Lemma pending_entries D above ys st :
  pending D (reverse ys ++ above) st → pending D above (entries ys ++ st).
Proof.
  revert above. induction ys as [|y ys IH]; intros above Hp; [done|]. cbn.
  apply IH. by rewrite reverse_cons, <- app_assoc in Hp.
Qed.

Lemma colored (c : gmap string color) x col : (∀ x, is_Some (c !! x) ↔ x ∈ V) → c !! x = Some col → x ∈ V.
Proof. intros Hd E. apply Hd. by eexists. Qed.

Lemma expand_white c n st D : inv c ((n, false) :: st) D → c !! n = Some white →
  let c' := <[n := gray]> c in inv c' (entries (kids c' n) ++ (n, true) :: st) D.
Proof.
  intros [H1 H2 H3 H4 H5 H6 H7] Hn c'.
  assert (n ∈ V) as HV by (by eapply colored).
  assert ((n, true) ∉ st) as Hns.
  { intros Hin. assert (c !! n = Some gray) by (apply H3; by right). congruence. }
  assert (n ∉ D) as HnD.
  { intros Hd. assert (c !! n = Some black); [apply H4; split; [done|]|congruence]. set_solver. }
  split.
  - intros x. unfold c'. rewrite lookup_insert_is_Some. rewrite H1. split; [|by destruct (decide (n = x)); auto].
    intros [<-|[_ ?]]; done.
  - intros x b [[_ Hx]%elem_of_entries|[[= -> ->]|Hx]%elem_of_cons]%elem_of_app.
    + apply elem_of_kids in Hx as [Hx _]. by apply (edge_entities g n x Hwf).
    + done.
    + apply (H2 x b). by right.
  - intros x. rewrite marker_entries, elem_of_cons. unfold c'. destruct (decide (x = n)) as [->|Hne].
    + rewrite lookup_insert_eq. naive_solver.
    + rewrite lookup_insert_ne by done. rewrite H3, elem_of_cons. naive_solver.
  - intros x. rewrite marker_entries, elem_of_cons. unfold c'. destruct (decide (x = n)) as [->|Hne].
    + rewrite lookup_insert_eq. naive_solver.
    + rewrite lookup_insert_ne by done. rewrite H4, elem_of_cons. naive_solver.
  - done.
  - apply chain_entries; [intros y [? _]%elem_of_kids; done|done].
  - apply pending_entries. rewrite app_nil_r. cbn. split_and!; [|done|done|].
    + intros _ y Hy. rewrite elem_of_reverse. destruct (decide (c' !! y = Some black)) as [Hb|Hb].
      * left. unfold c' in Hb. destruct (decide (y = n)) as [->|Hne];
          [by rewrite lookup_insert_eq in Hb|]. rewrite lookup_insert_ne in Hb by done. by apply H4.
      * right. by apply elem_of_kids.
    + eapply pending_mono; [..|exact H7]; [done|set_solver|done|done].
Qed.

Lemma expand_black c n st D : inv c ((n, false) :: st) D → c !! n = Some black →
  let c' := <[n := gray]> c in kids c' n = [] ∧ inv c' ((n, true) :: st) D.
Proof.
  intros [H1 H2 H3 H4 H5 H6 H7] Hn c'. apply H4 in Hn as Hd. destruct Hd as [HnD Hns].
  assert (n ∈ V) as HV by (by eapply colored).
  assert (∀ m, (m, true) ∈ st → m ∉ D) as Hun by (intros m; by apply (pending_unfinished D [n] st m)).
  assert ((n, true) ∉ st) as Hns' by (intros Hin; by apply (Hun n Hin)).
  split.
  - apply elem_of_nil_inv. intros y Hy. apply elem_of_kids in Hy as [Hy Hb]. apply Hb.
    assert (y ∈ D) as HyD by (by eapply topo_closed).
    assert (y ≠ n) as Hne.
    { intros ->. apply (topo_acyclic D n H5 HnD). by apply tc_once. }
    unfold c'. rewrite lookup_insert_ne by done. apply H4. split; [done|].
    intros [?|Hin]%elem_of_cons; [done|]. by apply (Hun y Hin).
  - split.
    + intros x. unfold c'. rewrite lookup_insert_is_Some, H1. split; [|by destruct (decide (n = x)); auto].
      intros [<-|[_ ?]]; done.
    + intros x b [[= -> ->]|Hx]%elem_of_cons; [done|]. apply (H2 x b). by right.
    + intros x. rewrite elem_of_cons. unfold c'. destruct (decide (x = n)) as [->|Hne].
      * rewrite lookup_insert_eq. naive_solver.
      * rewrite lookup_insert_ne by done. rewrite H3, elem_of_cons. naive_solver.
    + intros x. rewrite elem_of_cons. unfold c'. destruct (decide (x = n)) as [->|Hne].
      * rewrite lookup_insert_eq. naive_solver.
      * rewrite lookup_insert_ne by done. rewrite H4, elem_of_cons. naive_solver.
    + done.
    + done.
    + cbn in *. split_and!; done.
Qed.

Definition finish (n : string) (D : list string) : list string := if decide (n ∈ D) then D else n :: D.

Lemma elem_of_finish x n D : x ∈ finish n D ↔ x = n ∨ x ∈ D.
Proof. unfold finish. case_decide; set_solver. Qed.

Lemma pop_marker c n st D : inv c ((n, true) :: st) D → inv (<[n := black]> c) st (finish n D).
Proof.
  intros [H1 H2 H3 H4 H5 H6 H7]. cbn in H7. destruct H7 as (P1 & P2 & Hns & P4).
  assert (n ∈ V) as HV by (apply (H2 n true); left).
  split.
  - intros x. rewrite lookup_insert_is_Some, H1. split; [|by destruct (decide (n = x)); auto].
    intros [<-|[_ ?]]; done.
  - intros x b Hx. apply (H2 x b). by right.
  - intros x. destruct (decide (x = n)) as [->|Hne].
    + rewrite lookup_insert_eq. naive_solver.
    + rewrite lookup_insert_ne by done. rewrite H3, elem_of_cons. naive_solver.
  - intros x. rewrite elem_of_finish. destruct (decide (x = n)) as [->|Hne].
    + rewrite lookup_insert_eq. naive_solver.
    + rewrite lookup_insert_ne by done. rewrite H4, elem_of_cons. naive_solver.
  - unfold finish. case_decide as Hd; [done|]. split; [|done]. intros y Hy.
    destruct (P1 Hd y Hy) as [?|Hn]; [done|by apply elem_of_nil in Hn].
  - by destruct H6.
  - eapply pending_mono; [..|exact P4].
    + intros y. rewrite elem_of_finish. auto.
    + intros y Hy%list_elem_of_singleton. left. apply elem_of_finish. auto.
    + intros m Hm [->|?]%elem_of_finish; [done|done].
    + done.
Qed.

(** ** Termination

    Work left: two units for an entry to expand, one for an expanded entry, two
    for every edge that leaves a white node. *)
Definition white_weight (c : gmap string color) (l : list string) : nat :=
  sum_list (map (λ x, if decide (c !! x = Some white) then out_degree g x else 0) l).

Definition stack_weight (st : list (string * bool)) : nat :=
  sum_list (map (λ p : string * bool, if p.2 then 1 else 2) st).

Definition work (c : gmap string color) (st : list (string * bool)) : nat :=
  stack_weight st + 2 * white_weight c V.

Lemma white_weight_same c n col l : c !! n ≠ Some white → col ≠ white →
  white_weight (<[n := col]> c) l = white_weight c l.
Proof.
  intros H1 H2. unfold white_weight. f_equal. apply map_ext. intros x.
  destruct (decide (x = n)) as [->|Hne].
  - rewrite lookup_insert_eq, !decide_False by congruence. done.
  - by rewrite lookup_insert_ne by done.
Qed.

Lemma white_weight_expand c n l : NoDup l → n ∈ l → c !! n = Some white →
  white_weight (<[n := gray]> c) l + out_degree g n = white_weight c l.
Proof.
  intros Hnd Hin Hw. induction Hnd as [|x l Hx Hnd IH]; [by apply elem_of_nil in Hin|].
  unfold white_weight in *. cbn [map sum_list]. destruct (decide (x = n)) as [->|Hne].
  - rewrite lookup_insert_eq, Hw. rewrite decide_False by congruence. rewrite decide_True by done.
    assert (sum_list (map (λ x, if decide (<[n:=gray]> c !! x = Some white) then out_degree g x else 0) l)
      = sum_list (map (λ x, if decide (c !! x = Some white) then out_degree g x else 0) l)) as ->; [|cbn; lia].
    f_equal. apply map_ext_in. intros y Hy%list_elem_of_In. rewrite lookup_insert_ne; [done|]. by intros ->.
  - rewrite lookup_insert_ne by done. apply elem_of_cons in Hin as [->|Hin]; [done|].
    specialize (IH Hin). cbn in *. lia.
Qed.

Lemma white_weight_le c l : white_weight c l ≤ sum_list (map (out_degree g) l).
Proof.
  unfold white_weight. induction l as [|x l IH]; [done|]. cbn. case_decide; lia.
Qed.

Lemma stack_weight_app st st' : stack_weight (st ++ st') = stack_weight st + stack_weight st'.
Proof. unfold stack_weight. induction st as [|p st IH]; [done|]. cbn. rewrite IH. lia. Qed.

Lemma stack_weight_entries ys : stack_weight (entries ys) = 2 * length ys.
Proof.
  induction ys as [|y ys IH]; [done|].
  change (stack_weight (entries (y :: ys))) with (2 + stack_weight (entries ys)). rewrite IH. cbn [length]. lia.
Qed.

Lemma kids_length c n : length (kids c n) ≤ out_degree g n.
Proof.
  unfold kids, succs, out_degree. rewrite length_reverse. etrans; [apply length_filter|].
  rewrite length_map. induction (idxs n (_by_subject g)) as [|i l IH]; [done|]. cbn.
  destruct (_relations g !! i); cbn; lia.
Qed.

Lemma push_kids c n st : (∀ x, is_Some (c !! x) ↔ x ∈ V) →
  push_children g c (idxs n (_by_subject g)) st = Ok (entries (kids c n) ++ st).
Proof.
  intros Hd. rewrite push_children_spec.
  - unfold kids, entries, succs. rewrite <- fmap_reverse. done.
  - intros i Hi. pose proof (idxs_valid g n i Hwf Hi) as [r Hr]. exists r. split; [done|].
    apply Hd. pose proof (wf_endpoints g Hwf) as He. rewrite Forall_forall in He.
    apply dmem_true. apply (He r). by eapply list_elem_of_lookup_2.
Qed.

(** The loop ends within its fuel; it answers [true] only on a cyclic graph, and
    otherwise finishes everything on the stack. *)
Lemma dfs_loop_spec fuel : ∀ c st D, inv c st D → work c st < fuel →
  ∃ c' found, dfs_loop fuel g c st = Ok (c', found) ∧
    if (found : bool) then cyclic g
    else ∃ D', inv c' [] D' ∧ (∀ x, x ∈ D → x ∈ D') ∧ (∀ x b, (x, b) ∈ st → x ∈ D').
Proof.
  induction fuel as [|fuel IH]; intros c st D Hi Hw; [lia|]. cbn [dfs_loop].
  destruct st as [|[n b] st].
  { exists c, false. split; [done|]. exists D. split_and!; [done|done|]. intros x b Hx. by apply elem_of_nil in Hx. }
  assert (∀ c1 st1 D1, inv c1 st1 D1 → work c1 st1 < fuel →
    (∀ x, x ∈ D → x ∈ D1) → (∀ x b, (x, b) ∈ st → (x, b) ∈ st1) → (n ∈ D1 ∨ ∃ b, (n, b) ∈ st1) →
    ∃ c' found, dfs_loop fuel g c1 st1 = Ok (c', found) ∧
    if (found : bool) then cyclic g
    else ∃ D', inv c' [] D' ∧ (∀ x, x ∈ D → x ∈ D') ∧ (∀ x b0, (x, b0) ∈ (n, b) :: st → x ∈ D')) as Hnext.
  { intros c1 st1 D1 Hi1 Hw1 HD Hst Hn1. destruct (IH c1 st1 D1 Hi1 Hw1) as (c' & found & E & Hf).
    exists c', found. split; [done|]. destruct found; [done|]. destruct Hf as (D' & F1 & F2 & F3).
    exists D'. split_and!; [done|auto|]. intros x b0 [[= -> ->]|Hx]%elem_of_cons.
    - destruct Hn1 as [?|[b1 ?]]; [auto|by apply (F3 n b1)].
    - apply (F3 x b0). auto. }
  destruct b.
  - pose proof (pop_marker c n st D Hi) as Hi'. apply (Hnext _ _ _ Hi').
    + unfold work in *. rewrite white_weight_same; [|rewrite (proj2 (inv_gray _ _ _ Hi n)) by left; done|done].
      unfold stack_weight in *. cbn in Hw. lia.
    + intros x Hx. apply elem_of_finish. auto.
    + done.
    + left. apply elem_of_finish. auto.
  - assert (n ∈ V) as HV by (apply (inv_stack _ _ _ Hi n false); left).
    destruct (proj2 (inv_dom _ _ _ Hi n) HV) as [col Hc]. rewrite Hc. destruct col.
    + pose proof (expand_white c n st D Hi Hc) as Hi'. cbn in Hi'.
      rewrite push_kids by apply Hi'. cbn [mbind result_bind]. apply (Hnext _ _ _ Hi').
      * unfold work in *. rewrite stack_weight_app, stack_weight_entries.
        pose proof (kids_length (<[n:=gray]> c) n).
        pose proof (white_weight_expand c n V (wf_entities g Hwf) HV Hc).
        unfold stack_weight in *. cbn in *. lia.
      * done.
      * intros x b Hx. apply elem_of_app. right. by right.
      * right. exists true. apply elem_of_app. right. left.
    + exists c, true. split; [done|]. eapply gray_pop_cyclic; [apply (inv_chain _ _ _ Hi)|].
      apply (inv_gray _ _ _ Hi) in Hc. apply elem_of_cons in Hc as [?|?]; done.
    + destruct (expand_black c n st D Hi Hc) as [Ek Hi']. cbn in Ek, Hi'.
      rewrite push_kids by apply Hi'. rewrite Ek. cbn [mbind result_bind entries map app].
      apply (Hnext _ _ _ Hi').
      * unfold work in *. rewrite white_weight_same by congruence. unfold stack_weight in *. cbn in *. lia.
      * done.
      * intros x b Hx. by right.
      * right. exists true. left.
Qed.

Lemma start_inv c D start : inv c [] D → start ∈ V → inv c [(start, false)] D.
Proof.
  intros [H1 H2 H3 H4 H5 H6 H7] Hs.
  assert (∀ x, (x, true) ∈ [(start, false)] ↔ (x, true) ∈ @nil (string * bool)) as He.
  { intros x. rewrite list_elem_of_singleton. split; [done|]. intros Hx. by apply elem_of_nil in Hx. }
  split; [done| | | |done|done|done].
  - intros x b [= -> ->]%list_elem_of_singleton. done.
  - intros x. by rewrite He.
  - intros x. by rewrite He.
Qed.

Lemma cycle_from_spec starts : ∀ c D, inv c [] D → (∀ x, x ∈ starts → x ∈ V) →
  ∃ b, cycle_from g c starts = Ok b ∧
    if (b : bool) then cyclic g
    else ∃ D', topo D' ∧ (∀ x, x ∈ D → x ∈ D') ∧ (∀ x, x ∈ starts → x ∈ D').
Proof.
  induction starts as [|s starts IH]; intros c D Hi Hs; cbn [cycle_from].
  { exists false. split; [done|]. exists D. split_and!; [apply Hi|done|]. intros x Hx. by apply elem_of_nil in Hx. }
  assert (s ∈ V) as HsV by (apply Hs; left).
  assert (∀ x, x ∈ starts → x ∈ V) as Hs' by (intros; apply Hs; by right).
  destruct (proj2 (inv_dom _ _ _ Hi s) HsV) as [col Hc]. rewrite Hc. destruct col.
  - destruct (dfs_loop_spec (cycle_fuel g) c [(s, false)] D) as (c' & found & E & Hf).
    + by apply start_inv.
    + unfold work, cycle_fuel. pose proof (white_weight_le c V). unfold stack_weight. cbn. lia.
    + rewrite E. cbn [mbind result_bind]. destruct found; [by exists true|]. destruct Hf as (D1 & F1 & F2 & F3).
      destruct (IH c' D1 F1 Hs') as (b & -> & Hb). exists b. split; [done|]. destruct b; [done|].
      destruct Hb as (D' & G1 & G2 & G3). exists D'. split_and!; [done|auto|].
      intros x [->|Hx]%elem_of_cons; [|auto]. apply G2, (F3 s false). left.
  - exfalso. apply (inv_gray _ _ _ Hi) in Hc. by apply elem_of_nil in Hc.
  - destruct (IH c D Hi Hs') as (b & -> & Hb). exists b. split; [done|]. destruct b; [done|].
    destruct Hb as (D' & G1 & G2 & G3). exists D'. split_and!; [done|done|].
    intros x [->|Hx]%elem_of_cons; [|auto]. apply G2. by apply (inv_black _ _ _ Hi) in Hc as [? _].
Qed.

Definition all_white : gmap string color := list_to_map (map (λ n, (n, white)) V).

Lemma all_white_lookup x : all_white !! x = if decide (x ∈ V) then Some white else None.
Proof.
  unfold all_white. induction V as [|y l IH]; [done|]. cbn [map list_to_map foldr].
  destruct (decide (x = y)) as [->|Hne].
  - rewrite lookup_insert_eq, decide_True by left. done.
  - rewrite lookup_insert_ne by done. rewrite IH. repeat case_decide; set_solver.
Qed.

Lemma init_inv : inv all_white [] [].
Proof.
  assert (∀ P : string * bool, P ∉ @nil (string * bool)) as He by (intros; apply not_elem_of_nil).
  split; [..|done|done|done].
  - intros x. rewrite all_white_lookup. case_decide as Hd.
    + split; [done|by eexists].
    + split; [by intros [? ?]|done].
  - intros x b Hx. by apply elem_of_nil in Hx.
  - intros x. rewrite all_white_lookup. split; [by case_decide|]. intros Hx. by apply He in Hx.
  - intros x. rewrite all_white_lookup. split; [by case_decide|]. intros [Hx _]. by apply elem_of_nil in Hx.
Qed.
End search.

Lemma has_cycle_spec g : graph_wf g → ∃ b, has_cycle g = Ok b ∧ (b = true ↔ cyclic g).
Proof.
  intros Hwf. destruct (cycle_from_spec g Hwf (_entities g).*1 (all_white g) []) as (b & E & Hb).
  - by apply init_inv.
  - done.
  - exists b. split; [done|]. destruct b; [done|]. split; [done|].
    intros [x Hc]. destruct Hb as (D & Ht & _ & HD). exfalso.
    apply (topo_acyclic g D x Ht); [|done]. apply HD.
    assert (∃ y, edge g x y) as [y He] by (inversion Hc; eauto).
    by apply (edge_entities g x y Hwf).
Qed.

(** C6: On every graph that [add_entity] and [add_relation] can build,
    [has_cycle] terminates without an exception and returns [True] exactly when
    some entity is reachable from itself along one or more relations. *)
Theorem has_cycle_correct me mr ops :
  let g := foldl run_op (graph_init me mr) ops in
  ∃ b, has_cycle g = Ok b ∧ (b = true ↔ ∃ x, tc (edge g) x x).
Proof. cbv zeta. apply has_cycle_spec. apply run_ops_wf, graph_init_wf. Qed.
