(* ===== verification/OntologyLearning.v ===== *)
(** * Epistemic validation and axiom crystallisation
      ([noema/ontology/hypothesis.py], [validator.py], [orl.py])

    The validator is the only gate between what the language model proposes and
    the ontology.  The model call, JSON extraction, pydantic's validation of a
    hypothesis and the atomic file write are parameters. *)
From Stdlib Require Import ZArith QArith Lqa Lia Bool String.
From stdpp Require Import base option numbers gmap sets strings relations sorting list.
From S2P Require Import Prelude OntologyGraph OntologyCycles.

Inductive Predicate := requires | forbids.

#[global] Instance Predicate_eq_dec : EqDecision Predicate.
Proof. solve_decision. Defined.

Definition pred_str (p : Predicate) : string :=
  match p with requires => "requires" | forbids => "forbids" end.

Record OntologicalHypothesis := mkHyp {
  h_subject : string;
  h_predicate : Predicate;
  h_object : string;
  rationale : string;
  confidence : Q;
  source : string;
  trigger : string;
}.

(** The rejection reasons (their text also names the offending parts). *)
Inductive reason :=
| LowConfidence | UnknownSubject | UnknownObject | AlreadyPresent | Contradicts
| InvalidSubjectType | InvalidObjectType | CycleCheckUnavailable | CreatesCycle.

Inductive ValidationResult := accept | reject (r : reason).

Definition _OPPOSITES (p : Predicate) : Predicate :=
  match p with requires => forbids | forbids => requires end.

Record EpistemicValidator := mkValidator {
  min_confidence : Q;
  type_rules : list (string * (list string * list string));
}.

Fixpoint add_all {A} (add : OntologyGraph → A → gresult OntologyGraph) (g : OntologyGraph) (l : list A)
    : gresult OntologyGraph :=
  match l with
  | [] => Ok g
  | x :: l => g ← add g x; add_all add g l
  end.

Definition _would_create_cycle (h : OntologicalHypothesis) (g : OntologyGraph) : gresult bool :=
  c ← add_all add_entity (graph_init (max_entities g) (max_relations g)) (entities g None);
  c ← add_all add_relation c (relations g);
  c ← add_relation c (mkRelation (h_subject h) (pred_str (h_predicate h)) (h_object h) (confidence h) []);
  has_cycle c.

(** The loop over the existing relations. *)
Fixpoint check_existing (h : OntologicalHypothesis) (rs : list Relation) : option reason :=
  match rs with
  | [] => None
  | r :: rs =>
      if String.eqb (subject r) (h_subject h) && String.eqb (object r) (h_object h)
         && String.eqb (predicate r) (pred_str (h_predicate h)) then Some AlreadyPresent
      else if String.eqb (subject r) (h_subject h) && String.eqb (object r) (h_object h)
         && String.eqb (predicate r) (pred_str (_OPPOSITES (h_predicate h))) then Some Contradicts
      else check_existing h rs
  end.

Definition in_list (s : string) (l : list string) : bool := bool_decide (s ∈ l).

Definition check_types (v : EpistemicValidator) (h : OntologicalHypothesis) (g : OntologyGraph)
    : gresult (option reason) :=
  match dget (pred_str (h_predicate h)) (type_rules v) with
  | None => Ok None
  | Some (allowed_subjects, allowed_objects) =>
      s ← get_entity g (h_subject h);
      o ← get_entity g (h_object h);
      match s, o with
      | Some s, Some o =>
          if negb (in_list (type s) allowed_subjects) then Ok (Some InvalidSubjectType)
          else if negb (in_list (type o) allowed_objects) then Ok (Some InvalidObjectType)
          else Ok None
      | _, _ => Err (PyExn AssertionError)
      end
  end.

(** [validate]: [get_entity] may raise on a name that is blank or has control
    characters, and nothing catches that here. *)
Definition validate (v : EpistemicValidator) (h : OntologicalHypothesis) (g : OntologyGraph)
    : gresult ValidationResult :=
  if Qltb (confidence h) (min_confidence v) then Ok (reject LowConfidence)
  else
    s ← get_entity g (h_subject h);
    if bool_decide (is_Some s) then
      o ← get_entity g (h_object h);
      if bool_decide (is_Some o) then
        match check_existing h (relations g) with
        | Some r => Ok (reject r)
        | None =>
            t ← check_types v h g;
            match t with
            | Some r => Ok (reject r)
            | None =>
                match _would_create_cycle h g with
                | Err _ => Ok (reject CycleCheckUnavailable)
                | Ok true => Ok (reject CreatesCycle)
                | Ok false => Ok accept
                end
            end
        end
      else Ok (reject UnknownObject)
    else Ok (reject UnknownSubject).

(** ** Crystallisation *)
Inductive outcome :=
| LlmUnavailable | OntologyEmpty | LlmError | Unparsable | InvalidHypothesis | ValidatorError
| Rejected (r : reason) | OntologyFailed | Accepted.

Record CrystallizationResult := mkResult {
  accepted : bool; why : outcome; hypothesis : option OntologicalHypothesis;
}.

Definition model_fields : list string :=
  ["subject"; "predicate"; "object"; "rationale"; "confidence"; "source"; "trigger"]%string.

Section orl.
(** [complete]: the model's answer, [None] when the call raises; [extract_json]:
    [extract_fenced_json] when it gives a dict; [parse_hypothesis]: pydantic on the
    kept fields, the fixed source and the trigger; [fmt2]: [f"{x:.2f}"]; [save]:
    whether the atomic write succeeds. *)
Context (llm_name : string) (complete : string → option string).
Context (extract_json : string → option (list (string * json))).
Context (parse_hypothesis : list (string * json) → string → string → option OntologicalHypothesis).
Context (fmt2 : Q → string) (save : OntologyGraph → bool).

Definition _llm_available : bool := negb (String.eqb llm_name "fallback").

Definition axiom_of (h : OntologicalHypothesis) : Relation :=
  mkRelation (h_subject h) (pred_str (h_predicate h)) (h_object h) (confidence h)
    [("source", source h); ("trigger", trigger h); ("rationale", String.substring 0 500 (rationale h));
     ("confidence", fmt2 (confidence h))]%string.

(** Keyword arguments given twice ([source], [trigger]) are a [TypeError]. *)
Definition build_hypothesis (d : list (string * json)) (task_id : string) : option OntologicalHypothesis :=
  let kept := filter (λ p, p.1 ∈ model_fields) d in
  if dmem "source"%string kept || dmem "trigger"%string kept then None
  else parse_hypothesis kept "healer_orl" task_id.

(** [persist] tells whether a path was given; [prompt] stands for the two messages. *)
Definition crystallize_axiom (v : EpistemicValidator) (g : OntologyGraph) (prompt task_id : string)
    (persist : bool) : gresult (OntologyGraph * CrystallizationResult) :=
  if negb _llm_available then Ok (g, mkResult false LlmUnavailable None)
  else
    '(n, _, _) ← stats g;
    if (n =? 0)%Z then Ok (g, mkResult false OntologyEmpty None) else
    match complete prompt with
    | None => Ok (g, mkResult false LlmError None)
    | Some content =>
        match extract_json content with
        | None => Ok (g, mkResult false Unparsable None)
        | Some d =>
            match build_hypothesis d task_id with
            | None => Ok (g, mkResult false InvalidHypothesis None)
            | Some h =>
                match validate v h g with
                | Err _ => Ok (g, mkResult false ValidatorError (Some h))
                | Ok (reject r) => Ok (g, mkResult false (Rejected r) (Some h))
                | Ok accept =>
                    match add_relation g (axiom_of h) with
                    | Err _ => Ok (g, mkResult false OntologyFailed (Some h))
                    | Ok g' =>
                        if persist && negb (save g') then Ok (g', mkResult false OntologyFailed (Some h))
                        else Ok (g', mkResult true Accepted (Some h))
                    end
                end
            end
        end
    end.
End orl.

(** ** The candidate graph has the edges of the graph and the new one *)
Lemma add_entities_spec l : ∀ c c', graph_wf c → _relations c = [] →
  add_all add_entity c l = Ok c' → graph_wf c' ∧ _relations c' = [].
Proof.
  induction l as [|e l IH]; intros c c' Hwf Hr; [by intros [= <-]|].
  intros (c1 & E & H1)%result_bind_ok. destruct (add_entity_wf c e c1 Hwf E) as (W & R & _).
  apply (IH c1); [done|congruence|done].
Qed.

(** Relations of a well-formed graph are already clean. *)
Definition normal (r : Relation) : Prop :=
  strip (subject r) = subject r ∧ strip (predicate r) = predicate r ∧ strip (object r) = object r.

Lemma clean_strip n : clean n → strip n = n.
Proof. intros Hc. by destruct (clean_name_ok n n Hc) as [<- _]. Qed.

Lemma wf_normal g r : graph_wf g → r ∈ _relations g → normal r.
Proof.
  intros Hwf Hr. pose proof (wf_endpoints g Hwf) as He. rewrite Forall_forall in He.
  destruct (He r Hr) as (H1 & H2 & _ & H3).
  assert (∀ k, dmem k (_entities g) = true → strip k = k) as Hk.
  { intros k [e E]%dmem_true%dget_is_Some. apply clean_strip. by apply (wf_names g Hwf k e). }
  split_and!; auto.
Qed.

Lemma edge_triple g x y : edge g x y ↔ ∃ p, (x, p, y) ∈ map triple (_relations g).
Proof.
  unfold edge. split.
  - intros (r & Hr & <- & <-). exists (predicate r). apply list_elem_of_fmap. by exists r.
  - intros (p & (r & [= -> -> ->] & Hr)%list_elem_of_fmap). by exists r.
Qed.

Lemma add_relation_triples g r g' : graph_wf g → add_relation g r = Ok g' →
  graph_wf g' ∧ ∀ t, t ∈ map triple (_relations g') ↔
    t ∈ map triple (_relations g) ∨ t = (strip (subject r), strip (predicate r), strip (object r)).
Proof.
  intros Hwf E. destruct (add_relation_wf g r g' Hwf E) as (W & _ & _ & _ & H). split; [done|].
  intros t. destruct H as [[-> Hin]|(_ & r' & Er & _ & _ & ->)].
  - split; [tauto|]. intros [?| ->]; done.
  - rewrite map_app, elem_of_app. cbn. rewrite Er. by rewrite list_elem_of_singleton.
Qed.

Lemma add_relations_triples l : ∀ c c', graph_wf c → Forall normal l →
  add_all add_relation c l = Ok c' →
  graph_wf c' ∧ ∀ t, t ∈ map triple (_relations c') ↔ t ∈ map triple (_relations c) ∨ t ∈ map triple l.
Proof.
  induction l as [|r l IH]; intros c c' Hwf Hn.
  - intros [= <-]. split; [done|]. intros t. cbn. split; [tauto|]. intros [?|Ht]; [done|].
    by apply elem_of_nil in Ht.
  - apply Forall_cons in Hn as [(N1 & N2 & N3) Hn].
    intros (c1 & E & H1)%result_bind_ok.
    destruct (add_relation_triples c r c1 Hwf E) as [W T]. rewrite N1, N2, N3 in T.
    destruct (IH c1 c' W Hn H1) as [W' T']. split; [done|]. intros t. rewrite T', T.
    cbn. rewrite elem_of_cons. fold (triple r). tauto.
Qed.

Lemma cyclic_ext g g' : (∀ x y, edge g x y ↔ edge g' x y) → cyclic g → cyclic g'.
Proof.
  intros He [x Hc]. exists x. revert Hc. generalize x at 2 4. intros y Hc.
  induction Hc as [a b H|a b c H _ IH]; [apply tc_once; by apply He|].
  eapply tc_l; [by apply He|done].
Qed.

(** An accepted hypothesis cannot close a cycle, whatever spelling of the names it
    uses: the check ran on the very edges the graph gets. *)
Lemma accepted_acyclic v h g r g' : graph_wf g → validate v h g = Ok accept →
  subject r = h_subject h → predicate r = pred_str (h_predicate h) → object r = h_object h →
  add_relation g r = Ok g' → graph_wf g' ∧ has_cycle g' = Ok false.
Proof.
  intros Hwf Hv E1 E2 E3 Hadd. unfold validate in Hv.
  destruct (Qltb _ _); [done|].
  apply result_bind_ok in Hv as (s & _ & Hv). destruct (bool_decide (is_Some s)); [|done].
  apply result_bind_ok in Hv as (o & _ & Hv). destruct (bool_decide (is_Some o)); [|done].
  destruct (check_existing h (relations g)); [done|].
  apply result_bind_ok in Hv as (t & _ & Hv). destruct t; [done|].
  destruct (_would_create_cycle h g) as [[]|] eqn:Ec; [done| |done]. unfold _would_create_cycle in Ec.
  apply result_bind_ok in Ec as (c1 & C1 & Ec). apply result_bind_ok in Ec as (c2 & C2 & Ec).
  apply result_bind_ok in Ec as (c3 & C3 & Ec).
  destruct (add_entities_spec _ _ _ (graph_init_wf _ _) eq_refl C1) as [W1 R1].
  assert (Forall normal (relations g)) as Hn
    by (apply Forall_forall; intros r' Hr'; by apply (wf_normal g)).
  destruct (add_relations_triples _ _ _ W1 Hn C2) as [W2 T2].
  destruct (add_relation_triples _ _ _ W2 C3) as [W3 T3].
  destruct (add_relation_triples _ _ _ Hwf Hadd) as [W' T']. split; [done|].
  destruct (has_cycle_spec g' W') as (b & -> & Hb). destruct b; [|done]. exfalso.
  destruct (has_cycle_spec c3 W3) as (b3 & F3 & Hb3). rewrite F3 in Ec. injection Ec as ->.
  assert (cyclic c3) as Hc; [|apply Hb3 in Hc; done].
  apply (cyclic_ext g'); [|by apply Hb]. intros x y. rewrite !edge_triple.
  setoid_rewrite T3. setoid_rewrite T2. setoid_rewrite T'. rewrite R1, E1, E2, E3. cbn.
  split; intros (p & H); exists p; unfold relations in *; [tauto|].
  destruct H as [[Hf|H]|H]; [by apply elem_of_nil in Hf|tauto..].
Qed.

Section crystallise.
Context (llm_name : string) (complete : string → option string).
Context (extract_json : string → option (list (string * json))).
Context (parse_hypothesis : list (string * json) → string → string → option OntologicalHypothesis).
Context (fmt2 : Q → string) (save : OntologyGraph → bool).
Abbreviation crystallize :=
  (crystallize_axiom llm_name complete extract_json parse_hypothesis fmt2 save).

(** Whatever the language model answers, crystallising on a well-formed
    ontology never raises, and either leaves the graph untouched with a negative
    result, or the hypothesis passed the validator and the graph gained at most
    the one relation it states, with its provenance; the new graph is then
    well-formed and free of directed cycles.  A positive result always means the
    latter. *)
Theorem crystallize_safe v g prompt task persist : graph_wf g →
  ∃ g' res, crystallize v g prompt task persist = Ok (g', res) ∧
    ((g' = g ∧ accepted res = false) ∨
     (∃ h, hypothesis res = Some h ∧ validate v h g = Ok accept ∧
        graph_wf g' ∧ has_cycle g' = Ok false ∧
        (_relations g' = _relations g ∨
         ∃ r, _relations g' = _relations g ++ [r] ∧ subject r = strip (h_subject h) ∧
              object r = strip (h_object h) ∧ weight r = confidence h ∧
              dget "source"%string (metadata r) = Some (source h) ∧
              dget "trigger"%string (metadata r) = Some (trigger h)))).
Proof.
  intros Hwf. unfold crystallize_axiom. destruct (negb _); [by eexists _, _; split; [|left]|].
  unfold stats. destruct (has_cycle_spec g Hwf) as (b & -> & _). cbn [mbind result_bind].
  destruct (_ =? 0)%Z; [by eexists _, _; split; [|left]|].
  destruct (complete prompt) as [content|]; [|by eexists _, _; split; [|left]].
  destruct (extract_json content) as [d|]; [|by eexists _, _; split; [|left]].
  destruct (build_hypothesis parse_hypothesis d task) as [h|]; [|by eexists _, _; split; [|left]].
  destruct (validate v h g) as [[|r]|] eqn:Ev; [|by eexists _, _; split; [|left]..].
  destruct (add_relation g (axiom_of fmt2 h)) as [g'|] eqn:Ea; [|by eexists _, _; split; [|left]].
  destruct (accepted_acyclic v h g (axiom_of fmt2 h) g' Hwf Ev eq_refl eq_refl eq_refl Ea) as [W Hc].
  destruct (add_relation_wf g _ g' Hwf Ea) as (_ & _ & _ & _ & H).
  assert (_relations g' = _relations g ∨
         ∃ r, _relations g' = _relations g ++ [r] ∧ subject r = strip (h_subject h) ∧
              object r = strip (h_object h) ∧ weight r = confidence h ∧
              dget "source"%string (metadata r) = Some (source h) ∧
              dget "trigger"%string (metadata r) = Some (trigger h)) as Hr.
  { destruct H as [[-> _]|(_ & r & Er & Ew & Em & ->)]; [by left|]. right. exists r.
    injection Er as -> _ ->. by rewrite Ew, Em. }
  destruct (persist && negb (save g')); eexists _, _; (split; [done|]); right; exists h; by split_and!.
Qed.
End crystallise.

(** ** A concrete ontology: [Payment] forbids [Retry] *)
Definition demo_graph : OntologyGraph :=
  foldl run_op (graph_init 10 10)
    [AddEntity (mkEntity "Payment" "Service" []); AddEntity (mkEntity "Retry" "Policy" []);
     AddEntity (mkEntity "Ledger" "Database" []); AddRelation (mkRelation "Payment" "forbids" "Retry" 1 []);
     AddRelation (mkRelation "Retry" "requires" "Ledger" 1 [])].

Definition demo_validator : EpistemicValidator := mkValidator (1 # 2) [].

Definition demo_hyp (subj : string) (p : Predicate) (obj : string) : OntologicalHypothesis :=
  mkHyp subj p obj "why" (9 # 10) "healer_orl" "t-1".

Lemma demo_graph_wf : graph_wf demo_graph.
Proof. apply run_ops_wf, graph_init_wf. Qed.

Lemma crystallize_safe_witness :
  ∃ g' res, crystallize_axiom "openai" Some (λ _, Some []) (λ _ _ _, Some (demo_hyp "Payment" requires "Ledger"))
      (λ _, "0.90"%string) (λ _, true) demo_validator demo_graph "p" "t-1" true = Ok (g', res) ∧
    ((g' = demo_graph ∧ accepted res = false) ∨
     (∃ h, hypothesis res = Some h ∧ validate demo_validator h demo_graph = Ok accept ∧
        graph_wf g' ∧ has_cycle g' = Ok false ∧
        (_relations g' = _relations demo_graph ∨
         ∃ r, _relations g' = _relations demo_graph ++ [r] ∧ subject r = strip (h_subject h) ∧
              object r = strip (h_object h) ∧ weight r = confidence h ∧
              dget "source"%string (metadata r) = Some (source h) ∧
              dget "trigger"%string (metadata r) = Some (trigger h)))).
Proof.
  apply (crystallize_safe "openai" Some (λ _, Some []) (λ _ _ _, Some (demo_hyp "Payment" requires "Ledger"))
    (λ _, "0.90"%string) (λ _, true) demo_validator demo_graph "p" "t-1" true).
  apply demo_graph_wf.
Defined.

(** The validator's own example behaviours on that graph. *)
Example validator_branches :
  validate demo_validator (demo_hyp "Payment" requires "Ledger") demo_graph = Ok accept ∧
  validate demo_validator (demo_hyp "Payment" requires "Retry") demo_graph = Ok (reject Contradicts) ∧
  validate demo_validator (demo_hyp "Payment" forbids "Retry") demo_graph = Ok (reject AlreadyPresent) ∧
  validate demo_validator (demo_hyp "Ledger" requires "Payment") demo_graph = Ok (reject CreatesCycle) ∧
  validate demo_validator (demo_hyp "Ghost" requires "Payment") demo_graph = Ok (reject UnknownSubject).
Proof. by vm_compute. Qed.

(** The duplicate and contradiction checks compare the hypothesis' names as
    spelled, while the graph stores them stripped: with a trailing space the
    validator accepts a hypothesis that contradicts a recorded axiom, and the
    graph then holds both [Payment forbids Retry] and [Payment requires Retry]. *)
Theorem contradiction_slips_through :
  let h := demo_hyp "Payment " requires "Retry" in
  validate demo_validator h demo_graph = Ok accept ∧
  ∃ g', add_relation demo_graph (axiom_of (λ _, "0.90"%string) h) = Ok g' ∧
    ("Payment", "forbids", "Retry")%string ∈ map triple (_relations g') ∧
    ("Payment", "requires", "Retry")%string ∈ map triple (_relations g').
Proof.
  split; [by vm_compute|]. eexists. split; [by vm_compute|]. cbn.
  split; [left|right; right; left].
Qed.

(** [validate] says it never raises, but a blank name (which the hypothesis'
    minimum length of one admits) makes it raise. *)
Example validate_raises :
  validate demo_validator (demo_hyp " " requires "Retry") demo_graph = Err OntologyError.
Proof. by vm_compute. Qed.
