(* ===== verification/Federation.v ===== *)
(** * Federation router ([noema/federation/router.py])

    [execute] runs one [delegate] coroutine per sub-task and joins them with
    [asyncio.gather].  A coroutine is a small state machine that moves at its
    awaits; [fire] performs one move of one sub-task on the shared router state
    (circuit breakers, round-robin cursor, ledger), and a schedule is any sequence
    of moves.  Peers, the local executor, the clock and the outcome of ledger
    writes are given by the moves.  The breakers and the ledger are the models of
    [CircuitBreaker] and [Ledger]. *)
From Stdlib Require Import ZArith QArith Lqa Lia Bool Ascii String.
From stdpp Require Import base option numbers sets strings pretty relations list.
From S2P Require Import Prelude CircuitBreaker Ledger.
Local Open Scope Z_scope.

(** ** Peer addresses *)
Record PeerNode := mkPeer { host : string; port : Z }.

Definition digit (a : ascii) : option Z :=
  let n := Z.of_nat (nat_of_ascii a) in
  if (48 <=? n) && (n <=? 57) then Some (n - 48) else None.

(** [port.isdigit()] and [int(port)] *)
Fixpoint digits (acc : Z) (s : string) : option Z :=
  match s with
  | EmptyString => Some acc
  | String a s => match digit a with Some d => digits (acc * 10 + d) s | None => None end
  end.

Definition int_of_digits (s : string) : option Z := if nonempty s then digits 0 s else None.

Definition parse (address : string) : result pyexn PeerNode :=
  match rpartition address with
  | None => Err ValueError
  | Some (host, port) =>
      if nonempty host then
        match int_of_digits port with
        | Some n => Ok (mkPeer host n)
        | None => Err ValueError
        end
      else Err ValueError
  end.

Definition address (p : PeerNode) : string := (host p +:+ ":" +:+ pretty (port p))%string.

(** ** Results and router state *)
Definition response := list (string * json).

Record DelegationResult := mkDelegation {
  subtask_id : string;
  description : string;
  r_peer : string;
  r_status : string;
  r_response : response;
  r_error : string;
  r_attempts : Z;
}.

Record FederationRouter := mkRouter {
  _executors : list (string * CircuitBreaker);   (* address -> circuit breaker *)
  retry : RetryPolicy;
  has_local : bool;                              (* a local executor is configured *)
  ledger : option ContributionLedger;
  r_node_id : string;
  _robin : Z;
}.

(** An open circuit must fail fast: [CircuitBreakerError] is not retried. *)
Definition federation_policy (max_retries : Z) (base_delay max_delay : Q) : RetryPolicy :=
  mkRetry "federation" max_retries base_delay max_delay (2 # 10) (λ _, true)
    (λ e, match e with CircuitBreakerError _ => true | _ => false end).

(** [FederationRouter.__init__]: a repeated address keeps one executor. *)
Fixpoint executors_of (failure_threshold : Z) (recovery_timeout : Q) (peers : list PeerNode)
    : list (string * CircuitBreaker) → list (string * CircuitBreaker) :=
  match peers with
  | [] => λ d, d
  | p :: peers => λ d, executors_of failure_threshold recovery_timeout peers
      (dset (address p) (cb_init ("federation:" +:+ address p)%string failure_threshold recovery_timeout 1) d)
  end.

Fixpoint parse_all (peers : list string) : result pyexn (list PeerNode) :=
  match peers with
  | [] => Ok []
  | a :: peers => p ← parse a; ps ← parse_all peers; Ok (p :: ps)
  end.

Definition router_init (peers : list string) (has_local : bool) (ledger : option ContributionLedger)
    (node_id : string) (max_retries : Z) (base_delay max_delay : Q) (failure_threshold : Z)
    (recovery_timeout : Q) : result pyexn FederationRouter :=
  ps ← parse_all peers;
  Ok (mkRouter (executors_of failure_threshold recovery_timeout ps [])
        (federation_policy max_retries base_delay max_delay) has_local ledger node_id 0).

Definition with_executors (r : FederationRouter) (ex : list (string * CircuitBreaker)) : FederationRouter :=
  mkRouter ex (retry r) (has_local r) (ledger r) (r_node_id r) (_robin r).
Definition with_robin (r : FederationRouter) (n : Z) : FederationRouter :=
  mkRouter (_executors r) (retry r) (has_local r) (ledger r) (r_node_id r) n.
Definition with_ledger (r : FederationRouter) (l : option ContributionLedger) : FederationRouter :=
  mkRouter (_executors r) (retry r) (has_local r) l (r_node_id r) (_robin r).

(** [healthy_peers]: reading [state] may move a breaker to HALF_OPEN. *)
Definition healthy_peers (now : Q) (r : FederationRouter) : FederationRouter * list string :=
  let ex := map (λ '(a, b), (a, (state now b).1)) (_executors r) in
  (with_executors r ex, map fst (filter (λ p, state_value (_state p.2) ≠ "open"%string) ex)).

Definition circuit_stats (now : Q) (r : FederationRouter) : FederationRouter * list (string * cb_stats) :=
  (with_executors r (map (λ '(a, b), (a, (stats now b).1)) (_executors r)),
   map (λ '(a, b), (a, (stats now b).2)) (_executors r)).

(** ** One sub-task *)
Inductive task_state :=
| Waiting
| Trying (addr : string) (attempts : Z)      (* before an attempt, or sleeping after one *)
| InFlight (addr : string) (attempts : Z)    (* awaiting the peer *)
| Fallback (reason : string)                    (* about to run, or running, locally *)
| Done (res : DelegationResult)
| Crashed (e : pyexn).                          (* the coroutine raised *)

(** What the environment supplies for a ledger entry. *)
Record stamp := mkStamp { s_id : string; s_time : Q; s_write_ok : bool; s_duration : Q }.

Section router.
(** Python's [int(...)], [float(...)] ([None]: it raises) and [str(...)] on a
    value of a response; how the ledger prints an entry. *)
Context (int_of : json → option Z) (float_of : json → option Q) (str_of : json → string).
Context (dumps : LedgerEntry → string).

(** [x or 0] *)
Definition truthy (j : json) : bool :=
  match j with
  | JNull => false
  | JBool b => b
  | JNum q => negb (Qeq_bool q 0)
  | JStr s => nonempty s
  | JArr l => negb (bool_decide (length l = 0%nat))
  | JObj d => negb (bool_decide (length d = 0%nat))
  end.

Definition get_int (k : string) (d : response) : result pyexn Z :=
  match dget k d with
  | Some j => if truthy j then match int_of j with Some n => Ok n | None => Err ValueError end else Ok 0
  | None => Ok 0
  end.

Definition get_float (k : string) (d : response) : result pyexn Q :=
  match dget k d with
  | Some j => if truthy j then match float_of j with Some n => Ok n | None => Err ValueError end else Ok 0%Q
  | None => Ok 0%Q
  end.

Definition get_str (k : string) (d : response) : string :=
  match dget k d with Some j => str_of j | None => "" end.

Definition call_of (node : string) (res : DelegationResult) (st : stamp) (ti to : Z) (cost : Q) : record_call :=
  mkCall (s_id st) (s_time st) node (subtask_id res) ""
    (if String.eqb (r_status res) "delegated" then "subtask" else "delegation-" +:+ r_status res)
    "" "" ti to cost (r_peer res) (get_str "solution_id" (r_response res))
    [("description", JStr (String.substring 0 200 (description res)));
     ("duration_ms", JNum (s_duration st)); ("quality", JStr (get_str "quality" (r_response res)))]
    (s_write_ok st).

(** [_record]; a response value that is not a number makes it raise. *)
Definition _record (r : FederationRouter) (res : DelegationResult) (st : stamp) : result pyexn FederationRouter :=
  match ledger r with
  | None => Ok r
  | Some l =>
      ti ← get_int "tokens_input" (r_response res);
      to ← get_int "tokens_output" (r_response res);
      cost ← get_float "cost_usd" (r_response res);
      Ok (with_ledger r (Some (Ledger.record dumps l (call_of (r_node_id r) res st ti to cost)).1))
  end.

Definition conclude (r : FederationRouter) (res : DelegationResult) (st : stamp) : FederationRouter * task_state :=
  match _record r res st with
  | Ok r => (r, Done res)
  | Err e => (r, Crashed e)
  end.

(** The moves of a sub-task. *)
Inductive move :=
| Start (now : Q)                                      (* [delegate] up to its first await *)
| Attempt (now : Q)                                    (* the breaker's guard *)
| Respond (now : Q) (o : outcome response) (st : stamp) (* the peer call finishes *)
| TimeUp (now : Q)                                     (* [asyncio.timeout] fires *)
| RunLocal (o : option response) (msg : string) (st : stamp). (* [_run_local] *)

Definition exn_reason (address : string) (e : exn) : string :=
  match e with
  | CircuitBreakerError _ => "circuit open on " +:+ address
  | OtherException c => c
  | Cancelled => "timeout delegating to " +:+ address
  end.

Definition breaker (r : FederationRouter) (a : string) : option CircuitBreaker := dget a (_executors r).
Definition set_breaker (r : FederationRouter) (a : string) (b : CircuitBreaker) : FederationRouter :=
  with_executors r (dset a b (_executors r)).

(** [DelegationResult] of a sub-task that was not delegated. *)
Definition local_result (id desc reason : string) (o : option response) (msg : string) (has_local : bool)
    : DelegationResult :=
  if negb has_local then mkDelegation id desc "" "failed" [] reason 0
  else match o with
       | Some resp => mkDelegation id desc "" "local" resp reason 0
       | None => mkDelegation id desc "" "failed" [] (reason +:+ "; local: " +:+ msg) 0
       end.

(** One move of the sub-task [id]; [None] when the move does not apply. *)
Definition move_task (r : FederationRouter) (id desc : string) (s : task_state) (m : move)
    : option (FederationRouter * task_state) :=
  match s, m with
  | Waiting, Start now =>
      let '(r, healthy) := healthy_peers now r in
      match healthy !! Z.to_nat (_robin r mod Z.of_nat (length healthy)) with
      | None => Some (r, Fallback "no healthy peers")
      | Some a =>
          let r := with_robin r (_robin r + 1) in
          Some (r, if max_retries (retry r) <? 0 then Fallback "TypeError" else Trying a 0)
      end
  | Trying a k, Attempt now =>
      match breaker r a with
      | None => None
      | Some b =>
          match enter now b with
          | (b, Some e) => Some (set_breaker r a b, Fallback (exn_reason a e))
          | (b, None) => Some (set_breaker r a b, InFlight a (k + 1))
          end
      end
  | InFlight a k, Respond now o st =>
      match breaker r a with
      | None => None
      | Some b =>
          match o with
          | Raised Cancelled => None                      (* that is [TimeUp] *)
          | Returned resp =>
              Some (conclude (set_breaker r a (leave now b o))
                      (mkDelegation id desc a "delegated" resp "" k) st)
          | Raised e =>
              let r := set_breaker r a (leave now b o) in
              Some (r, if non_retryable_exceptions (retry r) e then Fallback (exn_reason a e)
                       else if k - 1 <? max_retries (retry r) then Trying a k
                       else Fallback (exn_reason a e))
          end
      end
  | Trying a k, TimeUp now => Some (r, Fallback ("timeout delegating to " +:+ a))
  | InFlight a k, TimeUp now =>
      match breaker r a with
      | None => None
      | Some b => Some (set_breaker r a (leave now b (@Raised response Cancelled)),
                        Fallback ("timeout delegating to " +:+ a))
      end
  | Fallback reason, RunLocal o msg st =>
      Some (conclude r (local_result id desc reason o msg (has_local r)) st)
  | _, _ => None
  end.

Record config := mkConfig {
  router : FederationRouter;
  tasks : list (string * string * task_state);     (* id, description, state *)
}.

Definition fire (c : config) (i : nat) (m : move) : option config :=
  match tasks c !! i with
  | None => None
  | Some (id, desc, s) =>
      match move_task (router c) id desc s m with
      | None => None
      | Some (r, s) => Some (mkConfig r (<[i := (id, desc, s)]> (tasks c)))
      end
  end.

(** A schedule: moves of sub-tasks in any order. *)
Fixpoint run (c : config) (ms : list (nat * move)) : option config :=
  match ms with
  | [] => Some c
  | (i, m) :: ms => match fire c i m with Some c => run c ms | None => None end
  end.

(** ** Split, fan out, re-join *)
Definition sub_ids (task_id : string) (n : nat) : list string :=
  map (λ i, if nonempty task_id then task_id +:+ ":" +:+ pretty (Z.of_nat i) else pretty (Z.of_nat i)) (seq 0 n).

Definition split (r : FederationRouter) (title : string) (subtasks : list string) (task_id : string) : config :=
  let subtasks := if bool_decide (length subtasks = 0%nat) then [title] else subtasks in
  mkConfig r (zip_with (λ id desc, (id, desc, Waiting)) (sub_ids task_id (length subtasks)) subtasks).

Record summary := mkSummary {
  s_subtasks : list DelegationResult;
  s_total : Z;
  s_delegated : Z;
  s_local : Z;
  s_failed : Z;
  s_peers_used : list string;
}.

Definition count_status (st : string) (rs : list DelegationResult) : Z :=
  Z.of_nat (length (filter (λ r, r_status r = st) rs)).

Definition peers_used (rs : list DelegationResult) : list string :=
  sorted_strings (remove_dups (filter (λ p, nonempty p = true) (map r_peer rs))).

(** [asyncio.gather] gives the results in submission order, or raises the first
    exception. *)
Fixpoint gather (ts : list (string * string * task_state)) : option (result pyexn (list DelegationResult)) :=
  match ts with
  | [] => Some (Ok [])
  | (_, _, Done res) :: ts =>
      match gather ts with
      | Some (Ok rs) => Some (Ok (res :: rs))
      | r => r
      end
  | (_, _, Crashed e) :: _ => Some (Err e)
  | _ :: _ => None
  end.

Definition summarize (rs : list DelegationResult) : summary :=
  mkSummary rs (Z.of_nat (length rs)) (count_status "delegated" rs) (count_status "local" rs)
    (count_status "failed" rs) (peers_used rs).
End router.

(** ** Addresses round-trip *)
Lemma digits_no_colon s : ∀ acc n, digits acc s = Some n → rpartition s = None.
Proof.
  induction s as [|a s IH]; intros acc n; [done|]. cbn [digits rpartition].
  destruct (digit a) as [d|] eqn:Ed; [|done]. intros H. rewrite (IH _ _ H).
  destruct (Ascii.eqb_spec a ":"%char) as [->|]; [done|done].
Qed.

Lemma digit_char n : (n < 10)%N → digit (pretty_N_char n) = Some (Z.of_N n).
Proof.
  intros Hn. assert (n = 0 ∨ n = 1 ∨ n = 2 ∨ n = 3 ∨ n = 4 ∨ n = 5 ∨ n = 6 ∨ n = 7 ∨ n = 8 ∨ n = 9)%N as H by lia.
  by destruct H as [->|[->|[->|[->|[->|[->|[->|[->|[->| ->]]]]]]]]].
Qed.

Lemma digits_pretty_go x : ∀ s acc, acc = 0 → digits acc (pretty_N_go x s) = digits (Z.of_N x) s.
Proof.
  induction (N.lt_wf_0 x) as [x _ IH]; intros s acc ->.
  destruct (decide (x = 0)%N) as [->|Hx]; [by rewrite pretty_N_go_0|].
  rewrite pretty_N_go_step by lia. rewrite IH by (try done; apply N.div_lt; lia).
  cbn [digits]. rewrite digit_char by (apply N.mod_lt; lia).
  f_equal. rewrite (N.div_mod x 10) at 3 by done. lia.
Qed.

Lemma digits_pretty z : 0 ≤ z → int_of_digits (pretty z) = Some z.
Proof.
  intros Hz. assert (∀ x, digits 0 (pretty (Npos x)) = Some (Zpos x) ∧ nonempty (pretty (Npos x)) = true) as Hp.
  { intros x. assert (digits 0 (pretty (N.pos x)) = Some (Z.pos x)) as E.
    { unfold pretty, pretty_N. rewrite decide_False by done. by rewrite digits_pretty_go. }
    split; [done|]. unfold nonempty. destruct (String.eqb_spec (pretty (N.pos x)) ""); [|done].
    rewrite e in E. done. }
  unfold int_of_digits. destruct z as [|x|x]; [done| |lia].
  destruct (Hp x) as [H1 H2]. change (pretty (Z.pos x)) with (pretty (N.pos x)). by rewrite H2, H1.
Qed.

(** A peer's printed address parses back to the peer, for any host (colons
    included, as in IPv6) and any port that is not negative; [parse] accepts
    nothing without a host or with a port that is not decimal. *)
Theorem peer_address_roundtrip :
  (∀ p, nonempty (host p) = true → 0 ≤ port p → parse (address p) = Ok p) ∧
  (∀ a p, parse a = Ok p → nonempty (host p) = true ∧
     ∃ digits, rpartition a = Some (host p, digits) ∧ int_of_digits digits = Some (port p)).
Proof.
  split.
  - intros [h n] Hh Hn. cbn in *. unfold parse, address. cbn [host port].
    pose proof (digits_pretty n Hn) as Hd. unfold int_of_digits in Hd.
    destruct (nonempty (pretty n)) eqn:En; [|done].
    rewrite rpartition_join by (by eapply digits_no_colon). rewrite Hh. unfold int_of_digits. by rewrite En, Hd.
  - intros a p. unfold parse. destruct (rpartition a) as [[h d]|] eqn:Ea; [|done].
    destruct (nonempty h) eqn:Eh; [|done]. destruct (int_of_digits d) eqn:Ed; [|done].
    intros [= <-]. cbn. split; [done|]. by exists d.
Qed.

(** ** Every schedule terminates with one recorded result per sub-task *)
Section schedules.
Context (int_of : json → option Z) (float_of : json → option Q) (str_of : json → string).
Context (dumps : LedgerEntry → string).
Abbreviation move_task := (move_task int_of float_of str_of dumps).
Abbreviation fire := (fire int_of float_of str_of dumps).
Abbreviation run := (run int_of float_of str_of dumps).
Abbreviation conclude := (conclude int_of float_of str_of dumps).

(** Parts of the router no move changes. *)
Definition same_setup (r r' : FederationRouter) : Prop :=
  (_executors r').*1 = (_executors r).*1 ∧ retry r' = retry r ∧ has_local r' = has_local r ∧
  r_node_id r' = r_node_id r.

(** What is known of a sub-task in each state. *)
Definition task_ok (r : FederationRouter) (id desc : string) (s : task_state) : Prop :=
  match s with
  | Trying a k => a ∈ (_executors r).*1 ∧ 0 ≤ k ≤ max_retries (retry r)
  | InFlight a k => a ∈ (_executors r).*1 ∧ 1 ≤ k ≤ max_retries (retry r) + 1
  | Done res =>
      subtask_id res = id ∧ description res = desc ∧
      (r_status res = "delegated"%string ∧ r_peer res ∈ (_executors r).*1 ∧
         1 ≤ r_attempts res ≤ max_retries (retry r) + 1
       ∨ (r_status res = "local" ∨ r_status res = "failed")%string ∧ r_peer res = ""%string)
  | _ => True
  end.

Lemma same_setup_refl r : same_setup r r.
Proof. done. Qed.

Lemma set_breaker_setup r a b b' : breaker r a = Some b → same_setup r (set_breaker r a b').
Proof.
  intros Hb. unfold same_setup, set_breaker. cbn. split_and!; [|done..].
  apply dset_keys_mem. apply dget_is_Some. by eexists.
Qed.

Lemma breaker_known r a : a ∈ (_executors r).*1 → is_Some (breaker r a).
Proof. apply dget_is_Some. Qed.

Lemma record_setup r res st r' : _record int_of float_of str_of dumps r res st = Ok r' →
  same_setup r r' ∧
  match ledger r, ledger r' with
  | Some l, Some l' => ∃ c, c_task_id c = subtask_id res ∧ l' = (Ledger.record dumps l c).1
  | None, None => True
  | _, _ => False
  end.
Proof.
  unfold _record. destruct (ledger r) as [l|] eqn:El.
  - intros (ti & _ & (to & _ & (cost & _ & [= <-])%result_bind_ok)%result_bind_ok)%result_bind_ok.
    split; [done|]. by exists (call_of str_of (r_node_id r) res st ti to cost).
  - intros [= <-]. by rewrite El.
Qed.

Definition is_done (s : task_state) : bool := match s with Done _ => true | _ => false end.

(** How one move changes the ledger: an entry for the sub-task exactly when it is
    done. *)
Definition ledger_step (l l' : option ContributionLedger) (id : string) (s : task_state) : Prop :=
  match l, l' with
  | Some l, Some l' =>
      if is_done s then ∃ c, c_task_id c = id ∧ l' = (Ledger.record dumps l c).1 else l' = l
  | None, None => True
  | _, _ => False
  end.

Lemma ledger_step_same l id s : is_done s = false → ledger_step l l id s.
Proof. intros Hs. unfold ledger_step. destruct l; [|done]. by rewrite Hs. Qed.

Lemma conclude_spec r res st id desc :
  subtask_id res = id → description res = desc → task_ok r id desc (Done res) →
  let '(r', s') := conclude r res st in
  same_setup r r' ∧ task_ok r' id desc s' ∧ ledger_step (ledger r) (ledger r') id s' ∧
  (s' = Done res ∨ ∃ e, s' = Crashed e).
Proof.
  intros <- <- Hok. unfold Federation.conclude.
  destruct (_record int_of float_of str_of dumps r res st) as [r'|e] eqn:E.
  - destruct (record_setup _ _ _ _ E) as [Hs Hl]. split_and!; [done| | |by left].
    + destruct Hs as (E1 & E2 & _). unfold task_ok in *. by rewrite E1, E2.
    + unfold ledger_step. destruct (ledger r), (ledger r'); try done.
  - split_and!; [done|done|by apply ledger_step_same|right; by exists e].
Qed.

(** The potential of a sub-task: an upper bound on the moves it has left. *)
Definition rank (r : FederationRouter) (s : task_state) : Z :=
  let n := Z.max 0 (max_retries (retry r) + 1) in
  match s with
  | Waiting => 2 * n + 3
  | Trying _ k => 2 * (n - k) + 2
  | InFlight _ k => 2 * (n - k) + 3
  | Fallback _ => 1
  | Done _ | Crashed _ => 0
  end.

Lemma rank_nonneg r id desc s : task_ok r id desc s → 0 ≤ rank r s.
Proof. destruct s; cbn; lia. Qed.

Lemma healthy_setup now r : let '(r', healthy) := healthy_peers now r in
  same_setup r r' ∧ ledger r' = ledger r ∧ (∀ a, a ∈ healthy → a ∈ (_executors r').*1).
Proof.
  unfold healthy_peers. split_and!; [|done|].
  - unfold same_setup. cbn. split_and!; [|done..].
    generalize (_executors r). intros l. induction l as [|[a b] l IH]; [done|]. cbn. f_equal. apply IH.
  - intros a (p & -> & [_ Hp]%list_elem_of_filter)%list_elem_of_fmap. cbn. by apply list_elem_of_fmap_2.
Qed.

Lemma move_spec r id desc s m r' s' : task_ok r id desc s →
  move_task r id desc s m = Some (r', s') →
  same_setup r r' ∧ task_ok r' id desc s' ∧ ledger_step (ledger r) (ledger r') id s' ∧
  is_done s = false ∧ rank r' s' < rank r s.
Proof.
  intros Hok Hm.
  destruct s, m; cbn [Federation.move_task] in Hm; try done.
  - pose proof (healthy_setup now r) as Hh. destruct (healthy_peers now r) as [r1 healthy].
    destruct Hh as (Hs & Hl & Hin). destruct (healthy !! _) as [a|] eqn:Ea.
    + injection Hm as <- <-. destruct Hs as (E1 & E2 & E3 & E4).
      assert (a ∈ (_executors r1).*1) by (apply Hin; by eapply list_elem_of_lookup_2). cbn.
      destruct (Z.ltb_spec (max_retries (retry r1)) 0); cbn; rewrite Hl, E2 in *;
        split_and!; try done; try (by apply ledger_step_same); lia.
    + injection Hm as <- <-. split_and!; [done|done|rewrite Hl; by apply ledger_step_same|done|].
      destruct Hs as (_ & E2 & _). cbn. lia.
  - destruct Hok as [Ha Hk]. destruct (breaker r addr) as [b|] eqn:Eb; [|done].
    destruct (enter now b) as [b' [e|]]; injection Hm as <- <-;
      pose proof (set_breaker_setup r addr b b' Eb) as Hs; pose proof Hs as (E1 & E2 & _);
      (split; [done|]); unfold task_ok, rank; rewrite ?E1, ?E2; split_and!; try done; try (by apply ledger_step_same); lia.
  - destruct Hok as [Ha Hk]. injection Hm as <- <-. cbn.
    split_and!; try done; try (by apply ledger_step_same); lia.
  - destruct Hok as [Ha Hk]. destruct (breaker r addr) as [b|] eqn:Eb; [|done].
    set (r1 := set_breaker r addr (leave now b o)) in *.
    assert (same_setup r r1) as Hs by (by eapply set_breaker_setup).
    assert (ledger r1 = ledger r) as El by done. clearbody r1. destruct Hs as (E1 & E2 & E3 & E4).
    destruct o as [resp|e].
    + pose proof (conclude_spec r1 (mkDelegation id desc addr "delegated" resp "" attempts) st id desc
        eq_refl eq_refl) as Hc.
      injection Hm as Hm. rewrite Hm in Hc. destruct Hc as (S2 & T2 & L2 & F2).
      { unfold task_ok. cbn. rewrite E1, E2. by split_and!; [..|left]. }
      destruct S2 as (G1 & G2 & G3 & G4).
      rewrite <- El.
      split_and!; [unfold same_setup; split_and!; congruence|done|done|done|].
      destruct F2 as [->|[e ->]]; cbn; lia.
    + assert (Some (r1, if non_retryable_exceptions (retry r1) e then Fallback (exn_reason addr e)
        else if attempts - 1 <? max_retries (retry r1) then Trying addr attempts
        else Fallback (exn_reason addr e)) = Some (r', s')) as Hm' by (by destruct e).
      clear Hm. injection Hm' as <- <-. rewrite El. split; [done|].
      destruct (non_retryable_exceptions (retry r1) e);
        [|destruct (Z.ltb_spec (attempts - 1) (max_retries (retry r1)))]; unfold task_ok, rank; rewrite ?E1, ?E2 in *;
        split_and!; try done; try (by apply ledger_step_same); lia.
  - destruct Hok as [Ha Hk]. destruct (breaker r addr) as [b|] eqn:Eb; [|done].
    injection Hm as <- <-.
    pose proof (set_breaker_setup r addr b (leave now b (@Raised response Cancelled)) Eb) as Hs.
    split_and!; [done|done|by apply ledger_step_same|done|]. cbn. lia.
  - injection Hm as Hm.
    pose proof (conclude_spec r (local_result id desc reason o msg (has_local r)) st id desc) as Hc.
    rewrite Hm in Hc. destruct Hc as (S2 & T2 & L2 & F2).
    + unfold local_result. by destruct (has_local r), o.
    + unfold local_result. by destruct (has_local r), o.
    + unfold local_result. destruct (has_local r), o; cbn; (split_and!; [done..|]); right; auto.
    + split_and!; [done|done|done|done|]. destruct F2 as [->|[e ->]]; cbn; lia.
Qed.

Definition done_ids (ts : list (string * string * task_state)) : list string :=
  map (λ t, t.1.1) (filter (λ t, is_done t.2 = true) ts).

Definition total_rank (c : config) : Z := foldr Z.add 0 (map (λ t, rank (router c) t.2) (tasks c)).

Record inv (c0 c : config) : Prop := {
  inv_setup : same_setup (router c0) (router c);
  inv_names : map fst (tasks c) = map fst (tasks c0);
  inv_tasks : Forall (λ t, task_ok (router c) t.1.1 t.1.2 t.2) (tasks c);
  inv_ledger : match ledger (router c0), ledger (router c) with
    | Some l0, Some l => ∃ calls, l = record_all dumps l0 calls ∧
        map c_task_id calls ≡ₚ done_ids (tasks c)
    | None, None => True
    | _, _ => False
    end;
}.

Lemma task_ok_setup r r' id desc s : same_setup r r' → task_ok r id desc s → task_ok r' id desc s.
Proof. intros (E1 & E2 & _) Hok. unfold task_ok in *. by rewrite E1, E2. Qed.

Lemma rank_setup r r' s : same_setup r r' → rank r' s = rank r s.
Proof. intros (_ & E2 & _). unfold rank. by rewrite E2. Qed.

Lemma sum_insert (f : string * string * task_state → Z) ts i t t' : ts !! i = Some t →
  foldr Z.add 0 (map f (<[i := t']> ts)) = foldr Z.add 0 (map f ts) - f t + f t'.
Proof.
  revert i. induction ts as [|x ts IH]; intros [|i] Hi; try done; cbn in Hi.
  - injection Hi as ->. cbn. lia.
  - change (<[S i := t']> (x :: ts)) with (x :: <[i := t']> ts). cbn [map foldr].
    rewrite (IH i) by done. lia.
Qed.

Lemma done_ids_insert ts i id desc s s' : ts !! i = Some (id, desc, s) → is_done s = false →
  done_ids (<[i := (id, desc, s')]> ts) ≡ₚ (if is_done s' then [id] else []) ++ done_ids ts.
Proof.
  unfold done_ids. revert i. induction ts as [|x ts IH]; intros [|i] Hi Hs; try done; cbn in Hi.
  - injection Hi as ->. change (<[0%nat := (id, desc, s')]> ((id, desc, s) :: ts)) with ((id, desc, s') :: ts).
    rewrite !filter_cons. cbn [snd]. rewrite Hs.
    rewrite (decide_False (P := false = true)) by done. by destruct (is_done s'); case_decide.
  - change (<[S i := (id, desc, s')]> (x :: ts)) with (x :: <[i := (id, desc, s')]> ts).
    rewrite !filter_cons. specialize (IH i Hi Hs).
    case_decide; cbn [map]; [|done]. rewrite IH. by destruct (is_done s'); cbn; [constructor|].
Qed.

Lemma fire_inv c0 c i m c' : inv c0 c → fire c i m = Some c' → inv c0 c' ∧ total_rank c' + 1 ≤ total_rank c.
Proof.
  intros [H1 H2 H3 H4] Hf. unfold Federation.fire in Hf.
  destruct (tasks c !! i) as [[[id desc] s]|] eqn:Ei; [|done].
  destruct (move_task (router c) id desc s m) as [[r s']|] eqn:Em; [|done]. injection Hf as <-.
  assert (task_ok (router c) id desc s) as Hok.
  { rewrite Forall_forall in H3. apply (H3 (id, desc, s)). by eapply list_elem_of_lookup_2. }
  destruct (move_spec _ _ _ _ _ _ _ Hok Em) as (S1 & T1 & L1 & D1 & R1). split; [split|]; cbn.
  - destruct H1 as (? & ? & ? & ?), S1 as (? & ? & ? & ?). unfold same_setup. split_and!; congruence.
  - rewrite list_fmap_insert. cbn. rewrite list_insert_id; [done|]. by rewrite list_lookup_fmap, Ei.
  - apply Forall_insert; [|done]. eapply Forall_impl; [exact H3|]. intros t. by apply task_ok_setup.
  - unfold ledger_step in L1. destruct (ledger (router c0)) as [l0|], (ledger (router c)) as [l|]; try done;
      destruct (ledger r) as [l'|]; try done.
    destruct H4 as (calls & -> & Hp). pose proof (done_ids_insert _ _ _ _ _ s' Ei D1) as Hd.
    destruct (is_done s').
    + destruct L1 as (call & <- & ->). exists (calls ++ [call]). split.
      * unfold record_all. by rewrite foldl_snoc.
      * rewrite map_app, Hd, Hp. cbn. by rewrite Permutation_app_comm.
    + subst l'. exists calls. split; [done|]. by rewrite Hd.
  - unfold total_rank. cbn. rewrite (sum_insert _ _ _ _ _ Ei). cbn.
    rewrite (map_ext (λ t, rank r t.2) (λ t, rank (router c) t.2)) by (intros; by apply rank_setup).
    rewrite (rank_setup (router c) r s S1). lia.
Qed.

Lemma run_inv ms : ∀ c0 c c', inv c0 c → run c ms = Some c' →
  inv c0 c' ∧ total_rank c' + Z.of_nat (length ms) ≤ total_rank c.
Proof.
  induction ms as [|[i m] ms IH]; intros c0 c c' Hi Hr; cbn in Hr.
  - injection Hr as <-. cbn. split; [done|lia].
  - destruct (fire c i m) as [c1|] eqn:E; [|done]. destruct (fire_inv _ _ _ _ _ Hi E) as [I1 R1].
    destruct (IH _ _ _ I1 Hr) as [I2 R2]. split; [done|]. cbn [length]. lia.
Qed.

Definition fan_out (title : string) (subtasks : list string) : list string :=
  if bool_decide (length subtasks = 0%nat) then [title] else subtasks.

Lemma split_names r title subtasks task_id :
  map fst (tasks (split r title subtasks task_id)) =
    zip (sub_ids task_id (length (fan_out title subtasks))) (fan_out title subtasks) ∧
  Forall (λ t, t.2 = Waiting) (tasks (split r title subtasks task_id)).
Proof.
  unfold split. fold (fan_out title subtasks). cbn [tasks]. split.
  - rewrite <- (map_id (zip _ _)). generalize (sub_ids task_id (length (fan_out title subtasks))).
    generalize (fan_out title subtasks). intros l l'. revert l. induction l' as [|x l' IH]; intros [|y l]; try done.
    cbn. f_equal. apply IH.
  - generalize (sub_ids task_id (length (fan_out title subtasks))). generalize (fan_out title subtasks).
    intros l l'. revert l. induction l' as [|x l' IH]; intros [|y l]; try done. cbn. by constructor.
Qed.

Lemma waiting_not_done (ts : list (string * string * task_state)) :
  Forall (λ t, t.2 = Waiting) ts → done_ids ts = [].
Proof.
  unfold done_ids. induction 1 as [|t ts Ht _ IH]; [done|]. rewrite filter_cons, Ht.
  by rewrite decide_False by done.
Qed.

Lemma waiting_rank r (ts : list (string * string * task_state)) : Forall (λ t, t.2 = Waiting) ts →
  foldr Z.add 0 (map (λ t, rank r t.2) ts) =
    Z.of_nat (length ts) * (2 * Z.max 0 (max_retries (retry r) + 1) + 3).
Proof. induction 1 as [|t ts Ht _ IH]; [done|]. cbn [map foldr length]. rewrite IH, Ht. cbn [rank]. lia. Qed.

Lemma split_inv r title subtasks task_id :
  let c := split r title subtasks task_id in
  inv c c ∧ total_rank c = Z.of_nat (length (fan_out title subtasks)) * (2 * Z.max 0 (max_retries (retry r) + 1) + 3).
Proof.
  cbv zeta. destruct (split_names r title subtasks task_id) as [Hn Hw].
  assert (length (tasks (split r title subtasks task_id)) = length (fan_out title subtasks)) as Hl.
  { rewrite <- (length_map fst), Hn, length_zip_with. unfold sub_ids. rewrite length_map, length_seq. lia. }
  split.
  - split; [done|done| |].
    + eapply Forall_impl; [exact Hw|]. by intros [[id desc] s] ->.
    + change (router (split r title subtasks task_id)) with r. destruct (ledger r) as [l|]; [|done].
      exists []. split; [done|]. by rewrite waiting_not_done.
  - rewrite <- Hl. unfold total_rank. change (router (split r title subtasks task_id)) with r.
    by apply waiting_rank.
Qed.

Definition no_stamp : stamp := mkStamp "" 0 false 0.

(** A sub-task that is not finished can always move. *)
Lemma progress c0 c : inv c0 c → gather (tasks c) = None → ∃ i m c', fire c i m = Some c'.
Proof.
  intros [_ _ Hok _] Hg.
  assert (∃ i id desc s, tasks c !! i = Some (id, desc, s) ∧
    match s with Done _ | Crashed _ => False | _ => True end) as (i & id & desc & s & Ei & Hs).
  { clear Hok. induction (tasks c) as [|[[id desc] s] ts IH]; [done|].
    destruct s as [| | | |res|e];
      try (exists 0%nat, id, desc; eexists; split; [reflexivity|exact I]); [|done]. cbn in Hg. destruct (gather ts) as [[]|]; try done.
    destruct IH as (i & id' & desc' & s' & Hi); [done|]. by exists (S i), id', desc', s'. }
  rewrite Forall_forall in Hok. specialize (Hok _ (list_elem_of_lookup_2 _ _ _ Ei)). cbn in Hok.
  exists i. unfold Federation.fire. rewrite Ei. destruct s; try done; cbn in Hok.
  - exists (Start 0). cbn [Federation.move_task]. destruct (healthy_peers 0 (router c)) as [r1 h].
    destruct (h !! Z.to_nat (_robin r1 mod Z.of_nat (length h))); eexists; reflexivity.
  - exists (TimeUp 0). by eexists.
  - exists (TimeUp 0). cbn [Federation.move_task].
    destruct (breaker_known (router c) addr) as [b ->]; [apply Hok|]. eexists; reflexivity.
  - exists (RunLocal None "" no_stamp). cbn [Federation.move_task].
    destruct (conclude (router c) _ no_stamp). eexists; reflexivity.
Qed.

(** C14: However peers, timeouts and retries interleave, federated execution
    terminates: no schedule is longer than [2 * (max_retries + 1) + 3] moves per
    sub-task, and until every sub-task has a result some sub-task can move. *)
Theorem federation_terminates r title subtasks task_id ms c :
  run (split r title subtasks task_id) ms = Some c →
  Z.of_nat (length ms) ≤
    Z.of_nat (length (fan_out title subtasks)) * (2 * Z.max 0 (max_retries (retry r) + 1) + 3) ∧
  ((∃ i m c', fire c i m = Some c') ∨ ∃ res, gather (tasks c) = Some res).
Proof.
  intros Hr. destruct (split_inv r title subtasks task_id) as [Hi Ht]. cbv zeta in Hi, Ht.
  destruct (run_inv _ _ _ _ Hi Hr) as [Hi' Hl]. split.
  - assert (0 ≤ total_rank c); [|lia]. unfold total_rank. destruct Hi' as [_ _ Hok _].
    induction Hok as [|t ts Ht1 _ IH]; cbn; [lia|]. pose proof (rank_nonneg _ _ _ _ Ht1). lia.
  - destruct (gather (tasks c)) eqn:Eg; [right; by eexists|left]. by eapply progress.
Qed.

Lemma gather_ok ts rs : gather ts = Some (Ok rs) → map snd ts = map Done rs.
Proof.
  revert rs. induction ts as [|[[id desc] s] ts IH]; intros rs Hg; cbn in Hg; [by injection Hg as <-|].
  destruct s; try done. destruct (gather ts) as [[rs'|]|]; try done. injection Hg as <-. cbn. by rewrite (IH rs').
Qed.

(** The join is positional and complete: when every sub-task has its result,
    they are in submission order with the ids and descriptions submitted; each was
    delegated to a configured peer within the retry budget, run locally, or
    failed, and the three counters of the summary add up to the number of
    sub-tasks; and a configured ledger got exactly one entry per sub-task. *)
Theorem federation_join r title subtasks task_id ms c rs :
  run (split r title subtasks task_id) ms = Some c → gather (tasks c) = Some (Ok rs) →
  map (λ d, (subtask_id d, description d)) rs =
    zip (sub_ids task_id (length (fan_out title subtasks))) (fan_out title subtasks) ∧
  let s := summarize rs in
  s_delegated s + s_local s + s_failed s = s_total s ∧
  s_total s = Z.of_nat (length (fan_out title subtasks)) ∧
  Forall (λ d, r_status d = "delegated"%string →
            r_peer d ∈ (_executors r).*1 ∧ 1 ≤ r_attempts d ≤ max_retries (retry r) + 1) rs ∧
  match ledger r, ledger (router c) with
  | Some l0, Some l => ∃ calls, l = record_all dumps l0 calls ∧
      map c_task_id calls ≡ₚ sub_ids task_id (length (fan_out title subtasks))
  | None, None => True
  | _, _ => False
  end.
Proof.
  intros Hr Hg. destruct (split_inv r title subtasks task_id) as [Hi _]. cbv zeta in Hi.
  destruct (run_inv _ _ _ _ Hi Hr) as [[S1 N1 T1 L1] _]. apply gather_ok in Hg.
  destruct (split_names r title subtasks task_id) as [Hn _]. rewrite Hn in N1.
  set (names := zip (sub_ids task_id (length (fan_out title subtasks))) (fan_out title subtasks)) in *.
  assert (tasks c = zip_with (λ nd d, (nd, Done d)) names rs) as Ht.
  { rewrite <- N1. clear -Hg. revert rs Hg. induction (tasks c) as [|[[id desc] s] ts IH]; intros [|d rs] Hg;
      try done. cbn in *. injection Hg as -> Hg. f_equal. by apply IH. }
  assert (length names = length (fan_out title subtasks)) as Hl.
  { unfold names, sub_ids. rewrite length_zip_with, length_map, length_seq. lia. }
  assert (length rs = length names) as Hlr.
  { apply (f_equal length) in N1, Hg. rewrite !length_map in *. congruence. }
  assert (Forall2 (λ nd d, task_ok (router c) nd.1 nd.2 (Done d)) names rs) as Hall.
  { rewrite Ht in T1. clear -T1 Hlr. revert rs T1 Hlr. induction names as [|nd names IH]; intros [|d rs] T1 Hlr;
      try done. cbn in T1. apply Forall_cons in T1 as [Ta Tb]. constructor; [done|].
    apply IH; [done|]. cbn in Hlr. lia. }
  destruct S1 as (E1 & E2 & _). change (router (split r title subtasks task_id)) with r in *.
  split; [|cbv zeta; split_and!].
  - clear -Hall. induction Hall as [|[id desc] d names rs (H1 & H2 & _) _ IH]; [done|]. cbn in *. by rewrite IH, H1, H2.
  - cbn [s_delegated s_local s_failed s_total summarize]. unfold count_status. clear -Hall.
    induction Hall as [|[id desc] d names rs (_ & _ & Hs) _ IH]; [done|]. rewrite !filter_cons. cbn [length].
    destruct Hs as [(Es & _)|([Es|Es] & _)]; rewrite Es;
      repeat first [rewrite decide_True by done | rewrite decide_False by done]; cbn [length]; lia.
  - cbn [s_total summarize]. rewrite Hlr. lia.
  - clear -Hall E1 E2. induction Hall as [|[id desc] d names rs (_ & _ & Hs) _ IH]; [constructor|].
    constructor; [|done]. intros Es. destruct Hs as [(_ & Hp & Ha)|([Es'|Es'] & _)]; [|congruence..].
    by rewrite E1, E2 in *.
  - destruct (ledger r) as [l0|], (ledger (router c)) as [l|]; try done.
    destruct L1 as (calls & -> & Hp). exists calls. split; [done|]. rewrite Hp.
    assert (done_ids (tasks c) = map fst names) as ->.
    { rewrite Ht. clear -Hlr. revert rs Hlr. unfold done_ids.
      induction names as [|nd names IH]; intros [|d rs] Hlr; try done. cbn [zip_with].
      rewrite filter_cons. cbn [snd is_done]. rewrite decide_True by done. cbn [map]. f_equal.
      apply IH. cbn in Hlr. lia. }
    unfold names. rewrite fst_zip; [done|]. unfold sub_ids. rewrite length_map, length_seq. lia.
Qed.
End schedules.

(** ** A peer whose half-open probe timed out

    The breaker is then [stuck] (see [CircuitBreaker.cancelled_probe_wedges_breaker]);
    the router keeps listing the peer as healthy and keeps sending sub-tasks its
    way, and each of them falls back without the peer being called. *)
Lemma stuck_peer_listed_but_unusable int_of float_of str_of dumps r a b now id desc k :
  breaker r a = Some b → stuck b →
  a ∈ (healthy_peers now r).2 ∧ breaker (healthy_peers now r).1 a = Some b ∧
  ∃ reason, move_task int_of float_of str_of dumps r id desc (Trying a k) (Attempt now)
            = Some (set_breaker r a b, Fallback reason).
Proof.
  intros Hb Hs. split_and!.
  - unfold healthy_peers. cbn [snd]. apply list_elem_of_fmap. exists (a, b). split; [done|].
    apply list_elem_of_filter. split.
    + cbn. destruct Hs as [-> _]. done.
    + apply list_elem_of_fmap. exists (a, b). split; [by rewrite stuck_state|]. by apply dget_Some_mem.
  - unfold breaker, healthy_peers in *. cbn [fst _executors with_executors].
    induction (_executors r) as [|[a' b'] l IH]; [done|]. cbn [map]. unfold dget in *. fold (@dget string) in *.
    destruct (decide (a = a')) as [->|Hne]; [|by apply IH]. injection Hb as ->. by rewrite stuck_state.
  - cbn [move_task]. rewrite Hb, stuck_enter by done. by eexists.
Qed.

(** ** A concrete run: two sub-tasks, one delegated, one timed out and run locally *)
Definition demo_int (j : json) : option Z := match j with JNum q => Some (Qtrunc q) | _ => None end.
Definition demo_float (j : json) : option Q := match j with JNum q => Some q | _ => None end.
Definition demo_str (j : json) : string := match j with JStr s => s | _ => "" end.

Definition demo_router : FederationRouter :=
  match router_init ["n1:50051"; "n2:50051"; "n1:050051"] true (Some (ledger_init false 10 None)) "me"
          2 (5 # 100) 1 3 30 with
  | Ok r => r
  | Err _ => mkRouter [] (federation_policy 0 0 0) false None "" 0
  end.

Definition demo_moves : list (nat * move) :=
  [(0%nat, Start 0); (1%nat, Start 0); (1%nat, Attempt 1); (0%nat, Attempt 1);
   (1%nat, Respond 2 (Raised (OtherException "OSError")) no_stamp);
   (0%nat, Respond 3 (Returned [("solution_id", JStr "s1"); ("tokens_input", JNum 7)]) no_stamp);
   (1%nat, Attempt 4); (1%nat, TimeUp 99); (1%nat, RunLocal (Some []) "" no_stamp)].

Definition demo_final : config :=
  default (mkConfig demo_router [])
    (run demo_int demo_float demo_str (λ _, ""%string) (split demo_router "t" ["a"; "b"] "job") demo_moves).

Lemma demo_run : run demo_int demo_float demo_str (λ _, ""%string)
  (split demo_router "t" ["a"; "b"]%string "job") demo_moves = Some demo_final.
Proof. vm_compute. reflexivity. Qed.

Lemma federation_terminates_witness :
  Z.of_nat (length demo_moves) ≤
    Z.of_nat (length (fan_out "t" ["a"; "b"]%string)) * (2 * Z.max 0 (max_retries (retry demo_router) + 1) + 3) ∧
  ((∃ i m c', fire demo_int demo_float demo_str (λ _, ""%string) demo_final i m = Some c') ∨
   ∃ res, gather (tasks demo_final) = Some res).
Proof.
  exact (federation_terminates demo_int demo_float demo_str (λ _, ""%string) demo_router "t" ["a"; "b"]%string
    "job" demo_moves demo_final demo_run).
Defined.

Definition demo_results : list DelegationResult :=
  match gather (tasks demo_final) with Some (Ok rs) => rs | _ => [] end.

Lemma demo_gather : gather (tasks demo_final) = Some (Ok demo_results).
Proof. vm_compute. reflexivity. Qed.

Lemma federation_join_witness :
  map (λ d, (subtask_id d, r_status d, r_peer d)) demo_results =
    [("job:0", "delegated", "n1:50051"); ("job:1", "local", "")]%string ∧
  s_delegated (summarize demo_results) + s_local (summarize demo_results) + s_failed (summarize demo_results)
    = s_total (summarize demo_results).
Proof.
  split; [by vm_compute|].
  exact (proj1 (proj2 (federation_join demo_int demo_float demo_str (λ _, ""%string) demo_router "t"
    ["a"; "b"]%string "job" demo_moves demo_final demo_results demo_run demo_gather))).
Defined.

(** What a peer really answers ([grpc/client.py]) has no token counts and no cost,
    so a delegated sub-task is recorded with zero tokens and zero cost. *)
Example delegated_work_is_recorded_as_free r st a k :
  let resp := [("solution_id", JStr "s1"); ("task_id", JStr "t"); ("title", JStr "x");
               ("quality", JStr "high"); ("confidence", JNum 1); ("error", JStr "")]%string in
  ledger r = Some (ledger_init false 10 None) →
  ∃ r' e, _record demo_int demo_float demo_str (λ _, ""%string) r
            (mkDelegation "0" "d" a "delegated" resp "" k) st = Ok r' ∧
    match ledger r' with Some l => _entries l = [e] | None => False end ∧
    total_tokens e = 0 ∧ (cost_usd e == 0)%Q.
Proof. intros resp Hl. unfold _record. rewrite Hl. by eexists _, _. Qed.
