(* ===== verification/EventBus.v ===== *)
(** * Event bus ([noema/core/events.py])

    The consumer loop awaits each handler, so publications, subscriptions and
    [stop] interleave with deliveries; the bus is a labelled transition system
    whose labels are those atomic pieces.  [current] is the event the loop is
    dispatching with the handlers still to call.  What a handler does is in the
    label: it returns or it raises. *)
From Stdlib Require Import ZArith Lia Bool String.
From stdpp Require Import base option numbers sets strings list.
From S2P Require Import Prelude.
Local Open Scope Z_scope.

Record Event := mkEvent { type : string; payload : list (string * json); id : string; source : string }.

Definition handler := nat.   (* handlers are compared by identity *)

Record EventBus := mkBus {
  maxsize : Z;
  _subscribers : list (string * list handler);
  _queue : list Event;
  _dead_letters : list (Event * string);
  _running : bool;
  _published : Z;
  _delivered : Z;
  _failed : Z;
  current : option (Event * list handler);
}.

Definition bus_init (max_queue : Z) : EventBus := mkBus max_queue [] [] [] false 0 0 0 None.

Definition subs (t : string) (b : EventBus) : list handler := default [] (dget t (_subscribers b)).

Definition with_subs (b : EventBus) (s : list (string * list handler)) : EventBus :=
  mkBus (maxsize b) s (_queue b) (_dead_letters b) (_running b) (_published b) (_delivered b) (_failed b) (current b).

Definition subscribe (t : string) (h : handler) (b : EventBus) : EventBus :=
  with_subs b (dset t (subs t b ++ [h]) (_subscribers b)).

(** [list.remove]: the first occurrence. *)
Fixpoint remove_first (h : handler) (l : list handler) : list handler :=
  match l with
  | [] => []
  | x :: l => if (x =? h)%nat then l else x :: remove_first h l
  end.

(** The list of an unknown type is a fresh one: nothing is stored. *)
Definition unsubscribe (t : string) (h : handler) (b : EventBus) : EventBus :=
  match dget t (_subscribers b) with
  | Some hs => if bool_decide (h ∈ hs) then with_subs b (dset t (remove_first h hs) (_subscribers b)) else b
  | None => b
  end.

Definition start (b : EventBus) : EventBus :=
  mkBus (maxsize b) (_subscribers b) (_queue b) (_dead_letters b) true (_published b) (_delivered b) (_failed b)
    (current b).

(** Stopping cancels the loop: an event being dispatched is abandoned. *)
Definition stop (b : EventBus) : EventBus :=
  mkBus (maxsize b) (_subscribers b) (_queue b) (_dead_letters b) false (_published b) (_delivered b) (_failed b)
    None.

(** [asyncio.Queue.full]: a size of zero or less means no bound. *)
Definition queue_full (b : EventBus) : bool :=
  (0 <? maxsize b) && (maxsize b <=? Z.of_nat (length (_queue b))).

Definition publish (e : Event) (b : EventBus) : EventBus :=
  if queue_full b then
    let dl := _dead_letters b ++ [(e, "Queue full"%string)] in
    let dl := if 1000 <? Z.of_nat (length dl) then drop 1 dl else dl in
    mkBus (maxsize b) (_subscribers b) (_queue b) dl (_running b) (_published b) (_delivered b) (_failed b + 1)
      (current b)
  else
    mkBus (maxsize b) (_subscribers b) (_queue b ++ [e]) (_dead_letters b) (_running b) (_published b + 1)
      (_delivered b) (_failed b) (current b).

(** The loop takes the next event and fixes its handlers. *)
Definition take_event (b : EventBus) : option EventBus :=
  match _running b, current b, _queue b with
  | true, None, e :: q =>
      let handlers := subs (type e) b ++ subs "*" b in
      Some (mkBus (maxsize b) (_subscribers b) q (_dead_letters b) (_running b) (_published b)
              (if bool_decide (handlers = []) then _delivered b + 1 else _delivered b) (_failed b)
              (if bool_decide (handlers = []) then None else Some (e, handlers)))
  | _, _, _ => None
  end.

(** The next handler of the current event returns ([None]) or raises. *)
Definition run_handler (exc : option string) (b : EventBus) : option EventBus :=
  match current b with
  | Some (e, h :: hs) =>
      let next := if bool_decide (hs = []) then None else Some (e, hs) in
      Some (match exc with
            | None => mkBus (maxsize b) (_subscribers b) (_queue b) (_dead_letters b) (_running b) (_published b)
                        (_delivered b + 1) (_failed b) next
            | Some msg => mkBus (maxsize b) (_subscribers b) (_queue b) (_dead_letters b ++ [(e, msg)]) (_running b)
                        (_published b) (_delivered b) (_failed b + 1) next
            end)
  | _ => None
  end.

Record bus_stats := mkStats {
  st_published : Z; st_delivered : Z; st_failed : Z; st_queue : Z; st_dead : Z; st_subs : list (string * Z);
}.

Definition stats (b : EventBus) : bus_stats :=
  mkStats (_published b) (_delivered b) (_failed b) (Z.of_nat (length (_queue b)))
    (Z.of_nat (length (_dead_letters b))) (map (λ p, (p.1, Z.of_nat (length p.2))) (_subscribers b)).

Inductive label :=
| LSubscribe (t : string) (h : handler) | LUnsubscribe (t : string) (h : handler)
| LPublish (e : Event) | LStart | LStop | LTake | LHandler (exc : option string).

Definition step (b : EventBus) (l : label) : option EventBus :=
  match l with
  | LSubscribe t h => Some (subscribe t h b)
  | LUnsubscribe t h => Some (unsubscribe t h b)
  | LPublish e => Some (publish e b)
  | LStart => Some (start b)
  | LStop => Some (stop b)
  | LTake => take_event b
  | LHandler exc => run_handler exc b
  end.

(** A run together with what an observer sees: the events accepted, the events the
    loop took, and the (event, handler) calls made, each in order. *)
Record trace := mkTrace {
  accepted : list Event;
  taken : list (Event * list handler);
  called : list (Event * handler);
}.

Definition observe (b : EventBus) (l : label) (t : trace) : trace :=
  match l with
  | LPublish e => if queue_full b then t else mkTrace (accepted t ++ [e]) (taken t) (called t)
  | LTake =>
      match _queue b with
      | e :: _ => mkTrace (accepted t) (taken t ++ [(e, subs (type e) b ++ subs "*" b)]) (called t)
      | [] => t
      end
  | LHandler _ =>
      match current b with
      | Some (e, h :: _) => mkTrace (accepted t) (taken t) (called t ++ [(e, h)])
      | _ => t
      end
  | _ => t
  end.

Fixpoint run (b : EventBus) (t : trace) (ls : list label) : option (EventBus * trace) :=
  match ls with
  | [] => Some (b, t)
  | l :: ls => match step b l with Some b' => run b' (observe b l t) ls | None => None end
  end.

Definition start_trace : trace := mkTrace [] [] [].

(** The calls due for the events taken so far, minus the rest of the current one. *)
Definition due (t : list (Event * list handler)) : list (Event * handler) :=
  concat (map (λ p, map (pair p.1) p.2) t).

Definition rest (c : option (Event * list handler)) : list (Event * handler) :=
  match c with None => [] | Some (e, hs) => map (pair e) hs end.

Record inv (b : EventBus) (t : trace) : Prop := {
  inv_fifo : accepted t = map fst (taken t) ++ _queue b;
  inv_published : _published b = Z.of_nat (length (accepted t));
  inv_bound : 0 < maxsize b → Z.of_nat (length (_queue b)) ≤ maxsize b;
  inv_calls : called t ++ rest (current b) = due (taken t);
  inv_current : ∀ e hs, current b = Some (e, hs) → hs ≠ [];
}.

Lemma due_snoc t p : due (t ++ [p]) = due t ++ map (pair p.1) p.2.
Proof. unfold due. rewrite map_app, concat_app. cbn. by rewrite app_nil_r. Qed.

Lemma step_inv b t l b' : inv b t → l ≠ LStop → step b l = Some b' → inv b' (observe b l t).
Proof.
  intros [H1 H2 H3 H4 H5] Hl Hs. destruct l; cbn in Hs; try done.
  - injection Hs as <-. done.
  - injection Hs as <-. unfold unsubscribe. destruct (dget t0 (_subscribers b)); [|done].
    by case_bool_decide.
  - injection Hs as <-. unfold publish. cbn [observe]. destruct (queue_full b) eqn:Eq; [done|].
    unfold queue_full in Eq. split; cbn; [|rewrite H2, length_app; cbn; lia| |done|done].
    + by rewrite H1, app_assoc.
    + intros Hm. rewrite length_app. cbn. rewrite (proj2 (Z.ltb_lt 0 (maxsize b))) in Eq by done.
      cbn in Eq. apply Z.leb_gt in Eq. lia.
  - injection Hs as <-. done.
  - unfold take_event in Hs. destruct (_running b), (current b) as [|] eqn:Ec, (_queue b) as [|e q] eqn:Eq; try done.
    injection Hs as <-. cbn [observe]. rewrite Eq. cbn in H4. rewrite app_nil_r in H4.
    split; cbn [accepted taken called _queue _published maxsize current].
    + rewrite H1, map_app. cbn. by rewrite <- app_assoc.
    + done.
    + intros Hm. specialize (H3 Hm). cbn in H3. lia.
    + rewrite due_snoc, H4. cbn [fst snd]. case_bool_decide as Hh; [by rewrite Hh|done].
    + intros e0 hs. case_bool_decide as Hh; [done|]. intros [= <- <-]. done.
  - unfold run_handler in Hs. destruct (current b) as [[e [|h hs]]|] eqn:Ec; try done.
    injection Hs as <-. cbn [observe]. rewrite Ec.
    assert (called t ++ [(e, h)] ++ rest (if bool_decide (hs = []) then None else Some (e, hs)) = due (taken t)) as Hc.
    { rewrite <- H4. cbn. case_bool_decide as Hh; [by subst hs|done]. }
    assert (∀ e0 hs0, (if bool_decide (hs = []) then None else Some (e, hs)) = Some (e0, hs0) → hs0 ≠ []) as Hn.
    { intros e0 hs0. case_bool_decide as Hh; [done|]. by intros [= <- <-]. }
    destruct exc; (split; cbn [accepted taken called _queue _published maxsize current];
      [done|done|done|by rewrite <- app_assoc|done]).
Qed.

(** C21: As long as [stop] is not called, delivery is FIFO and exactly-once: over any
    interleaving of publications, subscriptions and handler calls, the events the
    loop has taken followed by the queue are the accepted events in publication
    order, and the handler calls made so far, followed by the ones left for the
    current event, are exactly one call per handler subscribed (to the type or to
    [*]) when the event was taken; the queue never passes its maximum size. *)
Theorem delivery_fifo_exactly_once max_queue ls b t :
  Forall (λ l, l ≠ LStop) ls → run (bus_init max_queue) start_trace ls = Some (b, t) →
  accepted t = map fst (taken t) ++ _queue b ∧
  called t ++ rest (current b) = due (taken t) ∧
  _published b = Z.of_nat (length (accepted t)) ∧
  (0 < maxsize b → Z.of_nat (length (_queue b)) ≤ maxsize b).
Proof.
  intros Hl Hr. assert (inv (bus_init max_queue) start_trace) as Hi by (split; cbn; try done; lia).
  assert (inv b t) as [H1 H2 H3 H4 _]; [|done].
  revert Hi Hr. generalize (bus_init max_queue) start_trace. induction Hl as [|l ls Hne _ IH]; intros b0 t0 Hi Hr.
  - by injection Hr as <- <-.
  - cbn in Hr. destruct (step b0 l) as [b1|] eqn:Es; [|done]. eapply IH; [|exact Hr]. by apply step_inv.
Qed.

Definition ev (n : string) : Event := mkEvent n [] n "".

Definition demo_labels : list label :=
  [LSubscribe "a" 1%nat; LSubscribe "*" 2%nat; LStart; LPublish (ev "a"); LPublish (ev "b"); LTake;
   LPublish (ev "a"); LHandler None; LHandler (Some "boom"); LTake]%string.

Definition demo_run : EventBus * trace :=
  Eval vm_compute in default (bus_init 2, start_trace) (run (bus_init 2) start_trace demo_labels).

Lemma delivery_fifo_exactly_once_witness :
  accepted demo_run.2 = map fst (taken demo_run.2) ++ _queue demo_run.1 ∧
  called demo_run.2 ++ rest (current demo_run.1) = due (taken demo_run.2) ∧
  _published demo_run.1 = Z.of_nat (length (accepted demo_run.2)) ∧
  (0 < maxsize demo_run.1 → Z.of_nat (length (_queue demo_run.1)) ≤ maxsize demo_run.1).
Proof.
  apply (delivery_fifo_exactly_once 2 demo_labels demo_run.1 demo_run.2); [|reflexivity].
  repeat constructor; done.
Defined.

(** One event whose only handler fails. *)
Definition failing_round : list label := [LPublish (ev "a"); LTake; LHandler (Some "boom"%string)].

Lemma failing_round_adds b t : _running b = true → current b = None → _queue b = [] →
  queue_full b = false → subs "a" b ++ subs "*" b = [1%nat] →
  ∃ b' t', run b t failing_round = Some (b', t') ∧ _running b' = true ∧ current b' = None ∧ _queue b' = [] ∧
    maxsize b' = maxsize b ∧ _subscribers b' = _subscribers b ∧
    length (_dead_letters b') = S (length (_dead_letters b)).
Proof.
  intros Hr Hc Hq Hf Hs. cbn. unfold publish. rewrite Hf. unfold take_event. cbn. rewrite Hr, Hc, Hq. cbn.
  unfold subs in *. cbn. rewrite Hs. cbn. eexists _, _. split; [reflexivity|]. cbn.
  split_and!; try done. rewrite length_app. cbn. lia.
Qed.

(** Only the queue-full path bounds the dead letters (to 1000): a handler that
    keeps failing adds one dead letter per event for ever, so for every size there
    is a run that reaches it. *)
Theorem dead_letters_unbounded n :
  ∃ ls b t, run (bus_init 1000) start_trace ls = Some (b, t) ∧ length (_dead_letters b) = n.
Proof.
  assert (∃ ls b t, run (bus_init 1000) start_trace ls = Some (b, t) ∧ length (_dead_letters b) = n ∧
    _running b = true ∧ current b = None ∧ _queue b = [] ∧ maxsize b = 1000 ∧
    _subscribers b = [("a"%string, [1%nat])]) as (ls & b & t & H1 & H2 & _); [|by exists ls, b, t].
  induction n as [|n (ls & b & t & H1 & H2 & H3 & H4 & H5 & H6 & H7)].
  - exists [LSubscribe "a" 1%nat; LStart]. eexists _, _. split; [reflexivity|]. done.
  - destruct (failing_round_adds b t) as (b' & t' & R & R1 & R2 & R3 & R4 & R5 & R6); try done.
    + unfold queue_full. by rewrite H6, H5.
    + unfold subs. by rewrite H7.
    + exists (ls ++ failing_round), b', t'. split_and!; try congruence; try done.
      assert (∀ ls1 ls2 b0 t0 b1 t1, run b0 t0 ls1 = Some (b1, t1) → run b0 t0 (ls1 ++ ls2) = run b1 t1 ls2) as Happ.
      { clear. induction ls1 as [|l ls1 IH]; intros ls2 b0 t0 b1 t1 Hr; cbn in *; [by injection Hr as -> ->|].
        destruct (step b0 l); [|done]. by apply IH. }
      by rewrite (Happ ls failing_round _ _ b t H1).
Qed.
