(* ===== verification/SemanticCache.v ===== *)
(** * Semantic response cache ([noema/cache.py])

    Entries are an insertion-ordered dictionary keyed by prompt hash and tenant.
    The hash (SHA-256 of the JSON of the messages), the embedder, the context's
    tenant and the clock are parameters; similarities are exact rationals. *)
From Stdlib Require Import ZArith QArith Lqa Lia Bool Ascii String.
From stdpp Require Import base option numbers sets strings list.
From S2P Require Import Prelude.
Local Open Scope Z_scope.

Record CacheEntry := mkEntry {
  prompt_hash : string;
  response : string;
  model : string;
  tokens_used : Z;
  timestamp : Q;
  hit_count : Z;
  embedding : list Q;
}.

Record SemanticCache := mkCache {
  max_size : Z;
  similarity_threshold : Q;
  _entries : list (string * CacheEntry);
  hits : Z;
  misses : Z;
  evictions : Z;
}.

Definition cache_init (max_size : Z) (threshold : Q) : SemanticCache := mkCache max_size threshold [] 0 0 0.

Definition message := list (string * string).

(** [" ".join(m.get("content", "") for m in messages)] *)
Fixpoint join_space (l : list string) : string :=
  match l with
  | [] => ""
  | [s] => s
  | s :: l => (s +:+ " " +:+ join_space l)%string
  end.

Definition _prompt_text (messages : list message) : string :=
  join_space (map (λ m, default ""%string (dget "content"%string m)) messages).

Fixpoint ends_with (suffix s : string) : bool :=
  String.eqb s suffix || match s with EmptyString => false | String _ s => ends_with suffix s end.

Fixpoint dot (a b : list Q) : Q :=
  match a, b with x :: a, y :: b => (x * y + dot a b)%Q | _, _ => 0%Q end.

(** [np.argmax]: the first position of the greatest value. *)
Fixpoint argmax (best : string * Q) (l : list (string * Q)) : string * Q :=
  match l with
  | [] => best
  | p :: l => argmax (if Qltb best.2 p.2 then p else best) l
  end.

Definition bump_hit (e : CacheEntry) : CacheEntry :=
  mkEntry (prompt_hash e) (response e) (model e) (tokens_used e) (timestamp e) (hit_count e + 1) (embedding e).

(** [min(self._entries.keys(), key=timestamp)]: the first oldest key. *)
Fixpoint oldest (best : string * CacheEntry) (l : list (string * CacheEntry)) : string :=
  match l with
  | [] => best.1
  | p :: l => oldest (if Qltb (timestamp p.2) (timestamp best.2) then p else best) l
  end.

Lemma ddel_subset k (d : list (string * CacheEntry)) p : p ∈ ddel k d → p ∈ d.
Proof. induction d as [|[k' v] d IH]; cbn; [done|]. case_decide; set_solver. Qed.

Lemma dset_elem k (v : CacheEntry) (d : list (string * CacheEntry)) p : p ∈ dset k v d → p = (k, v) ∨ p ∈ d.
Proof.
  induction d as [|[k' v'] d IH]; [cbn; set_solver|].
  change (dset k v ((k', v') :: d)) with (if decide (k = k') then (k', v) :: d else (k', v') :: dset k v d).
  case_decide; subst; set_solver.
Qed.

Section cache.
Context (hash : list message → string) (embed : string → list Q).

Definition effective_tenant (tenant_id context_tenant : string) : string :=
  if nonempty tenant_id then tenant_id else context_tenant.

Definition tenant_suffix (t : string) : string := (":t=" +:+ t)%string.

Definition cache_key (messages : list message) (t : string) : string := (hash messages +:+ tenant_suffix t)%string.

Definition hit (c : SemanticCache) (key : string) (e : CacheEntry) : SemanticCache * option string :=
  (mkCache (max_size c) (similarity_threshold c) (dset key (bump_hit e) (_entries c)) (hits c + 1) (misses c)
     (evictions c), Some (response e)).

Definition miss (c : SemanticCache) : SemanticCache * option string :=
  (mkCache (max_size c) (similarity_threshold c) (_entries c) (hits c) (misses c + 1) (evictions c), None).

(** The candidates of the semantic lookup with their similarities. *)
Definition candidates (c : SemanticCache) (qvec : list Q) (mdl t : string) : list (string * Q) :=
  map (λ p, (p.1, dot (embedding p.2) qvec))
    (filter (λ p, ends_with (tenant_suffix t) p.1 = true ∧ embedding p.2 ≠ [] ∧ model p.2 = mdl) (_entries c)).

Definition get (c : SemanticCache) (messages : list message) (mdl tenant_id context_tenant : string)
    : SemanticCache * option string :=
  let t := effective_tenant tenant_id context_tenant in
  let key := cache_key messages t in
  match dget key (_entries c) with
  | Some e => hit c key e
  | None =>
      if 10 <? Z.of_nat (length (_entries c)) then
        match candidates c (embed (_prompt_text messages)) mdl t with
        | [] => miss c
        | p :: l =>
            let '(best_key, best_sim) := argmax p l in
            if Qle_bool (similarity_threshold c) best_sim then
              match dget best_key (_entries c) with
              | Some e => hit c best_key e
              | None => miss c
              end
            else miss c
        end
      else miss c
  end.

(** [set]; [min] of an empty dictionary raises [ValueError]. *)
Definition set (c : SemanticCache) (messages : list message) (resp mdl : string) (tokens : Z)
    (tenant_id context_tenant : string) (now : Q) : result pyexn SemanticCache :=
  c ← (if max_size c <=? Z.of_nat (length (_entries c)) then
         match _entries c with
         | [] => Err ValueError
         | p :: l => Ok (mkCache (max_size c) (similarity_threshold c) (ddel (oldest p l) (_entries c))
                           (hits c) (misses c) (evictions c + 1))
         end
       else Ok c);
  let key := cache_key messages (effective_tenant tenant_id context_tenant) in
  Ok (mkCache (max_size c) (similarity_threshold c)
        (dset key (mkEntry key resp mdl tokens now 1 (embed (_prompt_text messages))) (_entries c))
        (hits c) (misses c) (evictions c)).

Definition clear (c : SemanticCache) : SemanticCache :=
  mkCache (max_size c) (similarity_threshold c) [] 0 0 0.

Definition stats (c : SemanticCache) : Z * Z * Z * Z * Q * Z * Q :=
  let total := hits c + misses c in
  (Z.of_nat (length (_entries c)), max_size c, hits c, misses c,
   (if 0 <? total then py_round3 (inject_Z (hits c) / inject_Z total) else 0)%Q, evictions c,
   similarity_threshold c).

(** ** Histories of calls *)
Inductive cache_op :=
| OSet (messages : list message) (resp mdl : string) (tokens : Z) (tenant : string) (now : Q)
| OGet (messages : list message) (mdl tenant : string)
| OClear.

(** The tenant is given explicitly, so the context does not matter. *)
Definition run_op (c : SemanticCache) (o : cache_op) : SemanticCache :=
  match o with
  | OSet ms resp mdl tok t now => match set c ms resp mdl tok t "default" now with Ok c => c | Err _ => c end
  | OGet ms mdl t => (get c ms mdl t "default").1
  | OClear => clear c
  end.

(** Tenant names as the API accepts them here: not empty and without a colon. *)
Definition plain (t : string) : Prop := nonempty t = true ∧ rpartition t = None.

Definition op_plain (o : cache_op) : Prop :=
  match o with OSet _ _ _ _ t _ => plain t | OGet _ _ t => plain t | OClear => True end.

(** Some [set] of the history stored this response for this tenant. *)
Definition stored (ops : list cache_op) (t resp : string) : Prop :=
  ∃ ms mdl tok now, OSet ms resp mdl tok t now ∈ ops.

(** Every entry is kept under the key of a tenant for whom its response was stored. *)
Record owned (ops : list cache_op) (c : SemanticCache) : Prop := {
  inv_nodup : NoDup (_entries c).*1;
  inv_owner : ∀ k e, (k, e) ∈ _entries c →
    ∃ ms t, k = cache_key ms t ∧ plain t ∧ stored ops t (response e);
}.

Record inv (ops : list cache_op) (c : SemanticCache) : Prop := {
  inv_owned : owned ops c;
  inv_size : 0 < max_size c → Z.of_nat (length (_entries c)) ≤ max_size c;
}.

Lemma ends_with_spec suffix s : ends_with suffix s = true → ∃ p, s = (p +:+ suffix)%string.
Proof.
  induction s as [|a s IH]; intros H; cbn [ends_with] in H; apply orb_true_iff in H as [<-%String.eqb_eq|H].
  - by exists ""%string.
  - done.
  - by exists ""%string.
  - destruct (IH H) as [p ->]. by exists (String a p).
Qed.

Lemma no_colon_prefix t : rpartition t = None → rpartition ("t=" +:+ t)%string = None.
Proof. intros H. change ("t=" +:+ t)%string with (String "t" (String "=" t)). cbn [rpartition]. by rewrite H. Qed.

(** The tenant of a key is what follows its last colon. *)
Lemma suffix_inj p p' t t' : rpartition t = None → rpartition t' = None →
  (p +:+ tenant_suffix t = p' +:+ tenant_suffix t')%string → t = t'.
Proof.
  intros H1 H2 E. unfold tenant_suffix in E.
  change (p +:+ ":" +:+ ("t=" +:+ t) = p' +:+ ":" +:+ ("t=" +:+ t'))%string in E.
  pose proof (rpartition_join p _ (no_colon_prefix t H1)) as R1.
  pose proof (rpartition_join p' _ (no_colon_prefix t' H2)) as R2.
  rewrite E, R2 in R1. simplify_eq. done.
Qed.

Lemma argmax_in best l : argmax best l = best ∨ argmax best l ∈ l.
Proof.
  revert best. induction l as [|p l IH]; intros best; [by left|]. cbn.
  destruct (IH (if Qltb best.2 p.2 then p else best)) as [->|H].
  - destruct (Qltb best.2 p.2); [right; left|by left].
  - right. by right.
Qed.

Lemma oldest_in p l : oldest p l ∈ (p :: l).*1.
Proof.
  revert p. induction l as [|q l IH]; intros p; cbn; [left|].
  specialize (IH (if Qltb (timestamp q.2) (timestamp p.2) then q else p)). cbn in IH.
  apply elem_of_cons in IH as [->|H]; [|set_solver]. destruct (Qltb _ _); set_solver.
Qed.

Lemma ddel_length_lt k (d : list (string * CacheEntry)) : k ∈ d.*1 → (length (ddel k d) < length d)%nat.
Proof.
  induction d as [|[k' v] d IH]; cbn; [by intros ?%elem_of_nil|].
  assert (length (ddel k d) ≤ length d)%nat.
  { pose proof (sublist_length _ _ (ddel_keys_sub k d)) as H. by rewrite !length_fmap in H. }
  intros [->|Hin]%elem_of_cons; case_decide; cbn; try done; [lia|lia|].
  specialize (IH Hin). lia.
Qed.

(** What [get] returns is a stored entry of the tenant who asks. *)
Lemma get_owner ops c ms mdl t ctx resp : owned ops c → plain t →
  (get c ms mdl t ctx).2 = Some resp → stored ops t resp.
Proof.
  intros Hi [Ht1 Ht2]. unfold get, effective_tenant. rewrite Ht1.
  assert (∀ k e p, dget k (_entries c) = Some e → k = (p +:+ tenant_suffix t)%string → stored ops t (response e)) as Hown.
  { intros k e p Hk Ep. apply dget_Some_mem in Hk. destruct (inv_owner _ _ Hi k e Hk) as (ms' & t' & Ek & [_ Hc] & Hs).
    rewrite Ek in Ep. unfold cache_key in Ep. by apply suffix_inj in Ep as ->. }
  destruct (dget (cache_key ms t) (_entries c)) as [e|] eqn:Ee.
  - intros [= <-]. by eapply Hown.
  - destruct (10 <? _); [|done]. destruct (candidates c _ mdl t) as [|p l] eqn:Ec; [done|].
    pose proof (argmax_in p l) as Hm. destruct (argmax p l) as [bk bs] eqn:Em.
    destruct (Qle_bool _ _); [|done]. destruct (dget bk (_entries c)) as [e|] eqn:Eb; [|done].
    intros [= <-]. assert ((bk, bs) ∈ candidates c (embed (_prompt_text ms)) mdl t) as Hin.
    { rewrite Ec. destruct Hm as [->|Hm]; [left|by right]. }
    apply list_elem_of_fmap in Hin as (q & [= -> ->] & [[Hs _] _]%list_elem_of_filter).
    apply ends_with_spec in Hs as [p' Hp]. by eapply Hown.
Qed.

Lemma hit_owned ops c k e : owned ops c → dget k (_entries c) = Some e → owned ops (hit c k e).1.
Proof.
  intros [H1 H2] Hk. split; cbn; [by apply dset_keys_NoDup|].
  intros k' e' [[= -> ->]|Hin']%dset_elem; [|by apply H2]. by apply dget_Some_mem, H2 in Hk.
Qed.

(** A lookup is a hit, which counts in an entry, or a miss. *)
Lemma get_step c ms mdl t ctx : (∃ k e, dget k (_entries c) = Some e ∧ get c ms mdl t ctx = hit c k e) ∨ get c ms mdl t ctx = miss c.
Proof.
  unfold get. destruct (dget (cache_key _ _) _) eqn:E; [left; eauto|].
  destruct (10 <? _); [|by right]. destruct (candidates _ _ _ _); [by right|].
  destruct (argmax _ _) as [bk bs]. destruct (Qle_bool _ _); [|by right].
  destruct (dget bk _) eqn:Eb; [left; eauto|by right].
Qed.

Lemma get_owned ops c ms mdl t ctx : owned ops c → owned ops (get c ms mdl t ctx).1.
Proof. intros Hi. destruct (get_step c ms mdl t ctx) as [(k & e & Hk & ->)| ->]; [by apply hit_owned|]. by destruct Hi. Qed.

Lemma get_inv ops c ms mdl t ctx : inv ops c → inv ops (get c ms mdl t ctx).1.
Proof.
  intros [H1 H2]. split; [by apply get_owned|]. destruct (get_step c ms mdl t ctx) as [(k & e & Hk & ->)| ->]; [|done].
  cbn [hit fst _entries max_size]. rewrite dset_length_mem; [done|]. apply dget_is_Some. by eexists.
Qed.

Lemma stored_mono ops o t resp : stored ops t resp → stored (ops ++ [o]) t resp.
Proof. intros (ms & mdl & tok & now & H). exists ms, mdl, tok, now. apply elem_of_app. by left. Qed.

Lemma owned_mono ops o c : owned ops c → owned (ops ++ [o]) c.
Proof.
  intros [H1 H2]. split; [done|]. intros k e Hk. destruct (H2 k e Hk) as (ms & t & ? & ? & ?).
  exists ms, t. split_and!; [done|done|by apply stored_mono].
Qed.

Lemma inv_mono ops o c : inv ops c → inv (ops ++ [o]) c.
Proof. intros [H1 H2]. split; [by apply owned_mono|done]. Qed.

(** The room [set] makes. *)
Lemma evict_owned ops c c1 : owned ops c →
  (if max_size c <=? Z.of_nat (length (_entries c)) then
     match _entries c with
     | [] => Err ValueError
     | p :: l => Ok (mkCache (max_size c) (similarity_threshold c) (ddel (oldest p l) (_entries c)) (hits c) (misses c) (evictions c + 1))
     end
   else Ok c) = Ok c1 →
  owned ops c1 ∧ max_size c1 = max_size c ∧
  ((0 < max_size c → Z.of_nat (length (_entries c)) ≤ max_size c) → 0 < max_size c → Z.of_nat (length (_entries c1)) < max_size c).
Proof.
  intros Hi E1. destruct (Z.leb_spec (max_size c) (Z.of_nat (length (_entries c)))).
  - destruct (_entries c) as [|p l] eqn:Ee; [done|]. destruct Hi as [H1 H2]. rewrite Ee in *.
    pose proof (ddel_length_lt (oldest p l) (p :: l) (oldest_in p l)) as Hd.
    pose proof (ddel_keys_sub (oldest p l) (p :: l)) as Hk.
    pose proof (ddel_subset (oldest p l) (p :: l)) as Hs.
    set (d := ddel (oldest p l) (p :: l)) in *. clearbody d. injection E1 as <-. cbn [_entries max_size].
    split_and!; [|done|intros H3 Hm; specialize (H3 Hm); lia].
    split; cbn [_entries max_size].
    + eapply sublist_NoDup; [exact H1|exact Hk].
    + intros k e Hke%Hs. by apply H2.
  - injection E1 as <-. done.
Qed.

Lemma set_owned ops c ms resp mdl tok t ctx now c' : owned ops c → plain t →
  set c ms resp mdl tok t ctx now = Ok c' →
  owned (ops ++ [OSet ms resp mdl tok t now]) c' ∧ max_size c' = max_size c.
Proof.
  intros Hi Ht. unfold set, effective_tenant. rewrite (proj1 Ht).
  intros (c1 & E1 & [= <-])%result_bind_ok. destruct (evict_owned ops c c1 Hi E1) as (Hi1 & Em & _).
  split; [|by cbn]. destruct (owned_mono ops (OSet ms resp mdl tok t now) c1 Hi1) as [H1 H2]. split; cbn.
  - by apply dset_keys_NoDup.
  - intros k e [[= -> ->]|Hin]%dset_elem; [|by apply H2]. exists ms, t. split_and!; [done|done|].
    exists ms, mdl, tok, now. apply elem_of_app. right. left.
Qed.

Lemma set_inv ops c ms resp mdl tok t now c' : inv ops c → plain t →
  set c ms resp mdl tok t "default" now = Ok c' →
  inv (ops ++ [OSet ms resp mdl tok t now]) c' ∧ max_size c' = max_size c.
Proof.
  intros Hi Ht Hs. destruct (set_owned _ _ _ _ _ _ _ _ _ _ (inv_owned _ _ Hi) Ht Hs) as [Ho Em]. split; [|done]. split; [done|]. rewrite Em.
  revert Hs. unfold set, effective_tenant. rewrite (proj1 Ht). intros (c1 & E1 & [= <-])%result_bind_ok. cbn [_entries].
  destruct (evict_owned ops c c1 (inv_owned _ _ Hi) E1) as (_ & _ & Hlt). intros Hm. specialize (Hlt (inv_size _ _ Hi) Hm).
  destruct (decide (cache_key ms t ∈ (_entries c1).*1)).
  - rewrite dset_length_mem by done. lia.
  - rewrite dset_length_fresh by done. lia.
Qed.

Lemma cache_run_inv ops : ∀ pre c, Forall op_plain ops → inv pre c →
  inv (pre ++ ops) (foldl run_op c ops) ∧ max_size (foldl run_op c ops) = max_size c.
Proof.
  induction ops as [|o ops IH]; intros pre c Hp Hi; [by rewrite app_nil_r|].
  apply Forall_cons in Hp as [Ho Hp]. cbn [foldl].
  assert (inv (pre ++ [o]) (run_op c o) ∧ max_size (run_op c o) = max_size c) as [Hi' Hm].
  { destruct o as [ms resp mdl tok t now|ms mdl t|]; cbn [run_op].
    - destruct (set c ms resp mdl tok t "default" now) as [c'|] eqn:E; [by apply set_inv|].
      split; [by apply inv_mono|done].
    - split; [by apply inv_mono, get_inv|]. unfold get. repeat case_match; done.
    - split; [|done]. split; [|cbn; intros; lia]. split; cbn; [constructor|]. intros k e Hk. by apply elem_of_nil in Hk. }
  destruct (IH (pre ++ [o]) (run_op c o) Hp Hi') as [H1 H2]. rewrite <- app_assoc in H1. split; [done|congruence].
Qed.

(** The cache keeps tenants apart and stays within its size: after any history
    of calls by tenants whose names have no colon, a lookup -- exact or by
    similarity -- only ever returns a response that was stored for the tenant who
    asks, and the number of entries does not pass [max_size]. *)
Theorem cache_tenant_isolation size threshold ops ms mdl t resp :
  Forall op_plain ops → plain t → 0 < size →
  let c := foldl run_op (cache_init size threshold) ops in
  Z.of_nat (length (_entries c)) ≤ size ∧
  ((get c ms mdl t "default").2 = Some resp → stored ops t resp).
Proof.
  intros Hp Ht Hs. cbv zeta.
  assert (inv [] (cache_init size threshold)) as Hi.
  { split; [|cbn; intros; lia]. split; cbn; [constructor|]. intros k e Hk. by apply elem_of_nil in Hk. }
  destruct (cache_run_inv ops [] _ Hp Hi) as [H1 H2]. cbn in H1, H2. split.
  - pose proof (inv_size _ _ H1) as H3. rewrite H2 in H3. by apply H3.
  - apply get_owner; [by apply inv_owned|done].
Qed.
End cache.

(** ** Witness and a cross-tenant leak

    Prompts embed to one of two orthogonal vectors. *)
Definition msg (s : string) : list message := [[("content"%string, s)]].
Definition demo_hash (ms : list message) : string := _prompt_text ms.
Definition demo_embed (s : string) : list Q := if String.eqb s "other" then [0; 1]%Q else [1; 0]%Q.

Lemma cache_tenant_isolation_witness :
  let c := foldl (run_op demo_hash demo_embed) (cache_init 2 (92 # 100))
    [OSet (msg "p") "r1" "gpt" 1 "acme" 0; OSet (msg "p") "r2" "gpt" 1 "globex" 1; OGet (msg "p") "gpt" "acme"] in
  Z.of_nat (length (_entries c)) ≤ 2 ∧
  ((get demo_hash demo_embed c (msg "p") "gpt" "acme" "default").2 = Some "r1"%string →
   stored [OSet (msg "p") "r1" "gpt" 1 "acme" 0; OSet (msg "p") "r2" "gpt" 1 "globex" 1; OGet (msg "p") "gpt" "acme"]
     "acme" "r1").
Proof.
  apply (cache_tenant_isolation demo_hash demo_embed 2 (92 # 100)
    [OSet (msg "p") "r1" "gpt" 1 "acme" 0; OSet (msg "p") "r2" "gpt" 1 "globex" 1; OGet (msg "p") "gpt" "acme"]
    (msg "p") "gpt" "acme" "r1"); [repeat constructor|split; reflexivity|lia].
Defined.

Definition leak_ops : list cache_op :=
  map (λ n, OSet (msg n) "filler" "gpt" 1 "other" 0) ["1"; "2"; "3"; "4"; "5"; "6"; "7"; "8"; "9"; "0"]%string
  ++ [OSet (msg "secret plan") "secret answer" "gpt" 1 "evil:t=acme" 1]%string.

(** The similarity lookup recognises a tenant's entries by the end of the key
    only: a tenant named [evil:t=acme] shares its key suffix with [acme], so [acme]
    is served a response that was stored for the other tenant. *)
Theorem tenant_suffix_leak :
  let c := foldl (run_op demo_hash demo_embed) (cache_init 500 (92 # 100)) leak_ops in
  (get demo_hash demo_embed c (msg "a similar prompt") "gpt" "acme" "default").2 = Some "secret answer"%string ∧
  ¬ stored leak_ops "acme" "secret answer".
Proof.
  split; [by vm_compute|]. intros (ms & mdl & tok & now & H).
  repeat (apply elem_of_cons in H as [?|H]; [congruence|]). by apply elem_of_nil in H.
Qed.

(** An exact hit ignores the model: the answer cached from one model is served to a
    request for another. *)
Example exact_hit_ignores_model :
  let c := run_op demo_hash demo_embed (cache_init 5 1) (OSet (msg "p") "cheap answer" "gpt-4o-mini" 1 "acme" 0) in
  (get demo_hash demo_embed c (msg "p") "o3" "acme" "default").2 = Some "cheap answer"%string.
Proof. by vm_compute. Qed.
