(* ===== verification/FeatureFlags.v ===== *)
(** * Feature flags ([noema/config/feature_flags.py])

    Overrides per tenant, defaults, and a cache of answers keyed by
    [ff:<tenant>:<flag>].  Redis and PostgreSQL are parameters over a world [W];
    [asyncio.create_task] of a Redis write only queues it ([_pending]). *)
From Stdlib Require Import ZArith Lia Bool Ascii String.
From stdpp Require Import base option numbers sets strings list.
From S2P Require Import Prelude.

Definition DEFAULT_FLAGS : list (string * bool) :=
  [("reflexion", true); ("pairwise_judge", true); ("advanced_security", false); ("graph_rag", false);
   ("multi_modal", false); ("sandbox_execution", true); ("cost_tracking", true); ("audit_logging", true)]%string.

Record FeatureFlagService := mkService {
  pg : bool;
  redis : bool;
  _cache : list (string * bool);
  _overrides : list (string * list (string * bool));
  _defaults : list (string * bool);
  _pending : list (string * bool);
}.

Definition service_init (pg redis : bool) : FeatureFlagService := mkService pg redis [] [] DEFAULT_FLAGS [].

(** [f"ff:{tenant_id or 'global'}:{flag_name}"] *)
Definition tenant_part (tenant : option string) : string :=
  match tenant with Some t => if nonempty t then t else "global" | None => "global" end.

Definition cache_key (t flag : string) : string := ("ff:" +:+ t +:+ ":" +:+ flag)%string.

(** [_set_cache] *)
Definition _set_cache (s : FeatureFlagService) (key : string) (v : bool) : FeatureFlagService :=
  mkService (pg s) (redis s) (dset key v (_cache s)) (_overrides s) (_defaults s)
    (if redis s then _pending s ++ [(key, v)] else _pending s).

Definition override (s : FeatureFlagService) (t flag : string) : option bool :=
  match dget t (_overrides s) with Some d => dget flag d | None => None end.

Section world.
Context {W : Type}.
Record FlagBackends := mkFB {
  redis_get : string → W → W * option (option string);       (* [None]: the client raised *)
  redis_delete : string → W → W;
  fetch_override : string → string → W → W * option (option bool);
  upsert_override : string → string → bool → W → W;
  fetch_all : string → W → W * option (list (string * bool));
}.
Context (B : FlagBackends).

(** The part of [is_enabled] after the caches. *)
Definition resolve (s : FeatureFlagService) (flag : string) (tenant : option string) (w : W)
    : FeatureFlagService * W * bool :=
  let key := cache_key (tenant_part tenant) flag in
  let from_default w :=
    let v := default false (dget flag (_defaults s)) in (_set_cache s key v, w, v) in
  match tenant with
  | Some t =>
      if nonempty t then
        match override s t flag with
        | Some v => (_set_cache s key v, w, v)
        | None =>
            if pg s then
              match fetch_override B t flag w with
              | (w, Some (Some v)) => (_set_cache s key v, w, v)
              | (w, _) => from_default w
              end
            else from_default w
        end
      else from_default w
  | None => from_default w
  end.

Definition is_enabled (s : FeatureFlagService) (flag : string) (tenant : option string) (w : W)
    : FeatureFlagService * W * bool :=
  let key := cache_key (tenant_part tenant) flag in
  let local w :=
    match dget key (_cache s) with
    | Some v => (s, w, v)
    | None => resolve s flag tenant w
    end in
  if redis s then
    match redis_get B key w with
    | (w, Some (Some cached)) => (s, w, String.eqb (lower cached) "true")
    | (w, _) => local w
    end
  else local w.

Definition set_flag (s : FeatureFlagService) (t flag : string) (enabled : bool) (w : W)
    : FeatureFlagService * W :=
  let ov := dset t (dset flag enabled (default [] (dget t (_overrides s)))) (_overrides s) in
  let w := if pg s then upsert_override B t flag enabled w else w in
  let key := cache_key t flag in
  (mkService (pg s) (redis s) (ddel key (_cache s)) ov (_defaults s) (_pending s),
   if redis s then redis_delete B key w else w).

Fixpoint ask_all (s : FeatureFlagService) (flags : list string) (tenant : option string) (w : W)
    (acc : list (string * bool)) : FeatureFlagService * W * list (string * bool) :=
  match flags with
  | [] => (s, w, acc)
  | f :: flags => let '(s, w, v) := is_enabled s f tenant w in ask_all s flags tenant w (dset f v acc)
  end.

Definition get_all_flags (s : FeatureFlagService) (tenant : option string) (w : W)
    : FeatureFlagService * W * list (string * bool) :=
  let slow w := ask_all s (_defaults s).*1 tenant w [] in
  match tenant with
  | Some t =>
      if nonempty t && pg s then
        match fetch_all B t w with
        | (w, Some overrides) =>
            (s, w, foldl (λ d '(f, v), dset f v d) (_defaults s) overrides)
        | (w, None) => slow w
        end
      else slow w
  | None => slow w
  end.
End world.
Arguments FlagBackends : clear implicits.

(** ** The answer a tenant should get

    Without backends: the last override set for the tenant, else the default. *)
Inductive flag_op := OSet (t flag : string) (v : bool) | OAsk (flag : string) (tenant : option string).

Fixpoint last_set (ops : list flag_op) (t flag : string) : option bool :=
  match ops with
  | [] => None
  | OSet t' f' v :: ops =>
      match last_set ops t flag with
      | Some v => Some v
      | None => if String.eqb t t' && String.eqb flag f' then Some v else None
      end
  | OAsk _ _ :: ops => last_set ops t flag
  end.

Definition spec (ops : list flag_op) (flag : string) (tenant : option string) : bool :=
  let d := default false (dget flag DEFAULT_FLAGS) in
  match tenant with
  | Some t => default d (last_set ops t flag)
  | None => d
  end.

(** Names that cannot be confused inside a cache key. *)
Definition plain_tenant (t : string) : Prop := nonempty t = true ∧ t ≠ "global"%string.
Definition plain_flag (f : string) : Prop := rpartition f = None.
Definition op_plain (o : flag_op) : Prop :=
  match o with
  | OSet t f _ => plain_tenant t ∧ plain_flag f
  | OAsk f tn => plain_flag f ∧ match tn with Some t => plain_tenant t | None => True end
  end.

Section flags.
Context {W : Type} (B : FlagBackends W) (w : W).

Definition run_op (s : FeatureFlagService) (o : flag_op) : FeatureFlagService :=
  match o with
  | OSet t f v => (set_flag B s t f v w).1
  | OAsk f tn => (is_enabled B s f tn w).1.1
  end.

Record inv (ops : list flag_op) (s : FeatureFlagService) : Prop := {
  inv_pg : pg s = false;
  inv_redis : redis s = false;
  inv_defaults : _defaults s = DEFAULT_FLAGS;
  inv_overrides : ∀ t f, override s t f = last_set ops t f;
  inv_cache : ∀ tn f v, plain_flag f → match tn with Some t => plain_tenant t | None => True end →
    dget (cache_key (tenant_part tn) f) (_cache s) = Some v → v = spec ops f tn;
}.

Lemma key_inj t t' f f' : plain_flag f → plain_flag f' → cache_key t f = cache_key t' f' → t = t' ∧ f = f'.
Proof.
  intros H1 H2 E. unfold cache_key in E.
  assert (∀ x y, ("ff:" +:+ x +:+ ":" +:+ y = ("ff:" +:+ x) +:+ ":" +:+ y)%string) as Ha by done.
  rewrite !Ha in E. pose proof (rpartition_join ("ff:" +:+ t)%string f H1) as R1.
  pose proof (rpartition_join ("ff:" +:+ t')%string f' H2) as R2. rewrite E, R2 in R1.
  injection R1 as E1 E2. by simplify_eq.
Qed.

Lemma tenant_part_inj tn tn' :
  match tn with Some t => plain_tenant t | None => True end →
  match tn' with Some t => plain_tenant t | None => True end →
  tenant_part tn = tenant_part tn' → tn = tn'.
Proof.
  destruct tn as [t|], tn' as [t'|]; cbn; try done.
  - intros [H1 _] [H2 _]. rewrite H1, H2. by intros ->.
  - intros [H1 H2] _. rewrite H1. done.
  - intros _ [H1 H2]. rewrite H1. by intros <-.
Qed.

Lemma last_set_snoc ops o t f :
  last_set (ops ++ [o]) t f =
    match o with
    | OSet t' f' v => if String.eqb t t' && String.eqb f f' then Some v else last_set ops t f
    | OAsk _ _ => last_set ops t f
    end.
Proof.
  induction ops as [|o' ops IH]; cbn; [by destruct o|].
  rewrite IH. destruct o as [t1 f1 v1|]; [|done]. destruct o' as [t2 f2 v2|]; [|done].
  destruct (_ && _) eqn:E; [done|]. done.
Qed.

Lemma override_set s t flag v t' f' :
  override (set_flag B s t flag v w).1 t' f' =
    if String.eqb t' t && String.eqb f' flag then Some v else override s t' f'.
Proof.
  unfold override, set_flag. cbn [fst _overrides]. rewrite dget_dset.
  destruct (String.eqb_spec t' t) as [->|Hne].
  - rewrite decide_True by done. rewrite dget_dset.
    destruct (String.eqb_spec f' flag) as [->|Hf]; [by rewrite decide_True|rewrite decide_False by done].
    by destruct (dget t (_overrides s)).
  - by rewrite decide_False.
Qed.

Lemma flags_set_inv ops s t flag v : inv ops s → plain_tenant t → plain_flag flag →
  inv (ops ++ [OSet t flag v]) (run_op s (OSet t flag v)).
Proof.
  intros [H1 H2 H3 H4 H5] Ht Hf. split; [done..| |]; cbn [run_op].
  - intros t' f'. by rewrite override_set, last_set_snoc, H4.
  - intros tn f u Hpf Hpt. cbn [fst set_flag _cache]. rewrite dget_ddel. case_decide as Hk; [done|].
    intros Hc. rewrite (H5 tn f u Hpf Hpt Hc). unfold spec. destruct tn as [t'|]; [|done].
    rewrite last_set_snoc. destruct (String.eqb_spec t' t) as [->|], (String.eqb_spec f flag) as [->|]; try done.
    exfalso. apply Hk. cbn. destruct Ht as [-> _]. done.
Qed.

(** Without a cached answer [resolve] computes the specified one. *)
Lemma resolve_spec ops s f tn : inv ops s → match tn with Some t => plain_tenant t | None => True end →
  resolve B s f tn w = (_set_cache s (cache_key (tenant_part tn) f) (spec ops f tn), w, spec ops f tn).
Proof.
  intros [H1 H2 H3 H4 H5] Ht. unfold resolve, spec. rewrite H1, H3. destruct tn as [t|]; [|done].
  destruct Ht as [Hn _]. rewrite Hn, H4. by destruct (last_set ops t f).
Qed.

Lemma ask_spec ops s f tn : inv ops s → plain_flag f →
  match tn with Some t => plain_tenant t | None => True end →
  let '(s', _, v) := is_enabled B s f tn w in v = spec ops f tn ∧ inv ops s'.
Proof.
  intros Hi Hf Ht. pose proof Hi as [H1 H2 H3 H4 H5]. unfold is_enabled. rewrite H2.
  destruct (dget _ (_cache s)) as [v|] eqn:Ec; [split; [by apply H5|done]|].
  rewrite (resolve_spec ops) by done. split; [done|]. split; [done..|].
  intros tn' f' v Hf' Ht'. cbn [_cache _set_cache]. rewrite dget_dset.
  case_decide as Hk; [|by apply H5]. intros [= <-].
  apply key_inj in Hk as [Hk ->]; [|done|done]. by apply tenant_part_inj in Hk as ->.
Qed.

(** Without Redis and PostgreSQL, flags behave as documented -- the tenant's
    override, else the global default -- over any history of [set_flag] and
    [is_enabled] calls: the cache never serves a stale answer or another tenant's
    (for flag names without a colon and tenants not named [global]). *)
Theorem flags_follow_overrides ops flag tenant :
  Forall op_plain ops → plain_flag flag → match tenant with Some t => plain_tenant t | None => True end →
  (is_enabled B (foldl run_op (service_init false false) ops) flag tenant w).2 = spec ops flag tenant.
Proof.
  intros Hp Hf Ht.
  assert (∀ ops2 ops1 s, Forall op_plain ops2 → inv ops1 s → inv (ops1 ++ ops2) (foldl run_op s ops2)) as Hrun.
  { clear. induction ops2 as [|o ops2 IH]; intros ops1 s Hp Hi; [by rewrite app_nil_r|].
    apply Forall_cons in Hp as [Ho Hp]. cbn [foldl].
    assert (inv (ops1 ++ [o]) (run_op s o)) as Hi'.
    { destruct o as [t f v|f tn]; [destruct Ho; by apply flags_set_inv|]. destruct Ho as [Hf Ht].
      pose proof (ask_spec ops1 s f tn Hi Hf Ht) as H. cbn [run_op].
      destruct (is_enabled B s f tn w) as [[s' w'] v]. destruct H as [_ [G1 G2 G3 G4 G5]]. cbn.
      split; try done.
      - intros t0 f0. by rewrite last_set_snoc, G4.
      - intros tn0 f0 v0 P1 P2 E. rewrite (G5 tn0 f0 v0 P1 P2 E). unfold spec. destruct tn0; [|done].
        by rewrite last_set_snoc. }
    specialize (IH _ _ Hp Hi'). by rewrite <- app_assoc in IH. }
  pose proof (ask_spec ops (foldl run_op (service_init false false) ops) flag tenant) as H.
  destruct (is_enabled B _ flag tenant w) as [[s' w'] v]. destruct H as [Hv _]; [|done|done|exact Hv].
  apply (Hrun ops [] (service_init false false) Hp). by split.
Qed.
End flags.

Definition no_backends : FlagBackends unit :=
  mkFB (λ _ w, (w, None)) (λ _ w, w) (λ _ _ w, (w, None)) (λ _ _ _ w, w) (λ _ w, (w, None)).

Lemma flags_follow_overrides_witness :
  (is_enabled no_backends
     (foldl (run_op no_backends tt) (service_init false false)
        [OAsk "graph_rag" (Some "acme"); OSet "acme" "graph_rag" true; OAsk "graph_rag" None])
     "graph_rag" (Some "acme"%string) tt).2 =
  spec [OAsk "graph_rag" (Some "acme"); OSet "acme" "graph_rag" true; OAsk "graph_rag" None] "graph_rag"
    (Some "acme"%string).
Proof.
  apply (flags_follow_overrides no_backends tt
    [OAsk "graph_rag" (Some "acme"); OSet "acme" "graph_rag" true; OAsk "graph_rag" None]%string
    "graph_rag" (Some "acme"%string)).
  - repeat constructor; done.
  - done.
  - by split.
Defined.

(** The cache key does not separate tenant and flag: tenant [a] asking for flag
    [b:c] is answered from the cache entry of tenant [a:b] and flag [c]. *)
Example cache_key_collision :
  let s := foldl (run_op no_backends tt) (service_init false false)
             [OSet "a:b" "c" true; OAsk "c" (Some "a:b")]%string in
  (is_enabled no_backends s "b:c" (Some "a"%string) tt).2 = true ∧
  override s "a" "b:c" = None.
Proof. by vm_compute. Qed.
