(* ===== verification/ModelRouter.v ===== *)
(** * Model router ([noema/routing/model_router.py])

    Selection of a model tier and completion over the provider fallback chain,
    each provider behind its circuit breaker (the model of [CircuitBreaker]).
    [create_llm_provider] and the providers are parameters. *)
From Stdlib Require Import ZArith QArith Lqa Lia Bool String.
From stdpp Require Import base option numbers sets strings list.
From S2P Require Import Prelude CircuitBreaker CostTracker.
Local Open Scope Z_scope.

Record ModelTier := mkTier {
  t_provider : string;
  t_model : string;
  cost_per_1m_input : Q;
  cost_per_1m_output : Q;
  max_tokens : Z;
  suitable_for : list string;
}.

Definition TIERS : list ModelTier :=
  [mkTier "openai" "gpt-4o-mini" (15 # 100) (60 # 100) 16000 ["trivial"; "simple"];
   mkTier "openai" "gpt-4o" (5 # 2) 10 16000 ["moderate"];
   mkTier "anthropic" "claude-sonnet-4-5-20250929" 3 15 16000 ["complex"];
   mkTier "openai" "o3" 10 40 16000 ["extreme"; "security_critical"]]%string.

Definition _fallback_chain : list string := ["openai"; "anthropic"; "ollama"; "fallback"]%string.

Definition in_tags (t : string) (tags : list string) : bool := bool_decide (t ∈ map lower tags).

Definition suits (tier_name : string) (t : ModelTier) : bool := bool_decide (tier_name ∈ suitable_for t).

Section router.
Context {P S : Type}.
(** [create_llm_provider(name, model)], [None] when it raises. *)
Context (create : string → option string → option P).
(** A provider's [complete], and the clock. *)
Context (call : P → S → S * outcome string) (clock : S → Q).

Record ModelRouter := mkRouter {
  _tiers : list ModelTier;
  _breakers : list (string * CircuitBreaker);
  _providers : list (string * P);
}.

Definition provider_breaker (name : string) : CircuitBreaker := cb_init ("provider." +:+ name)%string 5 30 1.

Definition router_init : ModelRouter :=
  mkRouter TIERS (map (λ n, (n, provider_breaker n)) _fallback_chain)
    (omap (λ n, match create n None with Some p => Some (n, p) | None => None end) _fallback_chain).

Definition provider_key (name : string) (model : option string) : string :=
  match model with Some m => if nonempty m then (name +:+ "@" +:+ m)%string else name | None => name end.

Definition add_provider (r : ModelRouter) (key : string) (p : P) (name : string) : ModelRouter :=
  mkRouter (_tiers r)
    (if negb (String.eqb key name) && negb (dmem name (_breakers r))
     then dset name (provider_breaker name) (_breakers r) else _breakers r)
    (dset key p (_providers r)).

(** [_get_provider] without a model: the exception of the factory is re-raised. *)
Definition get_plain (r : ModelRouter) (name : string) (model : option string) : ModelRouter * result pyexn P :=
  match dget name (_providers r) with
  | Some p => (r, Ok p)
  | None =>
      match create name model with
      | Some p => (add_provider r name p name, Ok p)
      | None => (r, Err RuntimeError)
      end
  end.

Definition _get_provider (r : ModelRouter) (name : string) (model : option string) : ModelRouter * result pyexn P :=
  let key := provider_key name model in
  if String.eqb key name then get_plain r name model
  else
    match dget key (_providers r) with
    | Some p => (r, Ok p)
    | None =>
        match create name model with
        | Some p => (add_provider r key p name, Ok p)
        | None => get_plain r name None
        end
    end.

Definition tier_name (complexity : string) (tags : list string) : string :=
  if in_tags "security" tags || in_tags "critical" tags then "extreme" else lower complexity.

Definition select (r : ModelRouter) (complexity : string) (tags : list string) (degraded : bool)
    : ModelRouter * result pyexn P :=
  if degraded then _get_provider r "openai" None
  else
    match List.find (suits (tier_name complexity tags)) (rev (_tiers r)) with
    | Some t => _get_provider r (t_provider t) (Some (t_model t))
    | None => _get_provider r "openai" None
    end.

(** The outcome of [complete]: the content and the provider that gave it,
    [AllProvidersFailedError], or a [CancelledError] that passes through. *)
Inductive completion := Completed (content : string) (name : string) | AllProvidersFailed | WasCancelled.

Fixpoint try_chain (r : ModelRouter) (chain : list string) (s : S) : ModelRouter * S * result pyexn completion :=
  match chain with
  | [] => (r, s, Ok AllProvidersFailed)
  | name :: chain =>
      match dget name (_providers r) with
      | None => try_chain r chain s
      | Some p =>
          match dget name (_breakers r) with
          | None => (r, s, Err KeyError)
          | Some b =>
              let '(b, s, o) := cb_execute clock (call p) b s in
              let r := mkRouter (_tiers r) (dset name b (_breakers r)) (_providers r) in
              match o with
              | Returned content => (r, s, Ok (Completed content name))
              | Raised Cancelled => (r, s, Ok WasCancelled)
              | Raised _ => try_chain r chain s
              end
          end
      end
  end.

Definition complete (r : ModelRouter) (s : S) : ModelRouter * S * result pyexn completion :=
  try_chain r _fallback_chain s.

Definition provider_health (now : Q) (r : ModelRouter) : ModelRouter * list (string * cb_stats) :=
  foldl (λ '(r, acc) name,
    match dget name (_providers r), dget name (_breakers r) with
    | Some _, Some b =>
        let '(b, st) := CircuitBreaker.stats now b in
        (mkRouter (_tiers r) (dset name b (_breakers r)) (_providers r), acc ++ [(name, st)])
    | _, _ => (r, acc)
    end) (r, []) _fallback_chain.

Definition estimated_cost (r : ModelRouter) (complexity : string) (input_tokens output_tokens : Z) : Q :=
  match List.find (suits (lower complexity)) (_tiers r) with
  | Some t => py_round6 (inject_Z input_tokens / 1000000 * cost_per_1m_input t
                         + inject_Z output_tokens / 1000000 * cost_per_1m_output t)
  | None => 0
  end.

Definition tiers (r : ModelRouter) : list (string * string * list string) :=
  map (λ t, (t_provider t, t_model t, suitable_for t)) (_tiers r).
End router.
Arguments ModelRouter : clear implicits.

(** ** Theorems *)

Lemma tier_price t : List.In t TIERS →
  dget (t_model t) PRICING = Some (mkPrice (cost_per_1m_input t) (cost_per_1m_output t)).
Proof. intros [<-|[<-|[<-|[<-|[]]]]]; by vm_compute. Qed.

(** The router's tiers and the billing table agree: for every complexity a tier
    serves, the router's estimate is the billed cost of that tier's model, rounded
    to six decimals -- and the tier found is the one [select] uses. *)
Theorem estimate_matches_billing {P} (create : string → option string → option P) complexity i o t :
  let r := router_init create in
  List.find (suits (lower complexity)) (_tiers r) = Some t →
  (estimated_cost r complexity i o == py_round6 (calculate_cost (t_model t) i o))%Q ∧
  List.find (suits (tier_name complexity [])) (rev (_tiers r)) = Some t.
Proof.
  intros r Hf. split.
  - unfold estimated_cost. rewrite Hf. apply py_round6_comp. unfold calculate_cost.
    apply List.find_some in Hf as [Hin _]. rewrite (tier_price t Hin).
    cbn [default from_option p_input p_output]. unfold id. cbn [p_input p_output]. field.
  - unfold tier_name. change (in_tags "security" [] || in_tags "critical" []) with false. cbv iota.
    cbn [r router_init _tiers TIERS rev List.find app] in *. unfold suits in *. cbn [suitable_for] in *.
    repeat case_bool_decide; simplify_eq; try done; exfalso;
      repeat match goal with
      | H : _ ∈ _ :: _ |- _ => apply elem_of_cons in H as [H|H]
      | H : _ ∈ [] |- _ => by apply elem_of_nil in H
      end; congruence.
Qed.

Lemma estimate_matches_billing_witness :
  (estimated_cost (router_init (λ n (_ : option string), Some n)) "Moderate" 1000 200
   == py_round6 (calculate_cost "gpt-4o" 1000 200))%Q.
Proof.
  apply (estimate_matches_billing (λ n (_ : option string), Some n) "Moderate" 1000 200
    (mkTier "openai" "gpt-4o" (5 # 2) 10 16000 ["moderate"%string])). by vm_compute.
Defined.

Section availability.
Context {P S : Type} (call : P → S → S * outcome string) (clock : S → Q).
Context (never_cancelled : ∀ p s, (call p s).2 ≠ Raised Cancelled).

(** Every provider has a breaker (the constructor gives each name one). *)
Definition breakers_ok (r : ModelRouter P) : Prop :=
  ∀ n, is_Some (dget n (_providers r)) → is_Some (dget n (_breakers r)).

Lemma closed_success p b s content : _state b = CLOSED → (call p s).2 = Returned content →
  ∃ b' s', cb_execute clock (call p) b s = (b', s', Returned content).
Proof.
  intros Hb Hc. unfold cb_execute, enter, state. rewrite bool_decide_eq_false_2 by congruence. cbn. rewrite Hb.
  destruct (call p s) as [s' o]. cbn in Hc. subst o. by eexists _, _.
Qed.

Lemma execute_not_cancelled p b s : (cb_execute clock (call p) b s).2 ≠ Raised Cancelled.
Proof.
  unfold cb_execute. destruct (enter (clock s) b) as [b' [e|]] eqn:E.
  - cbn. unfold enter in E. destruct (state (clock s) b) as [b1 st]. destruct st; [|by injection E as <- <-|].
    + done.
    + destruct (_ <=? _); [by injection E as <- <-|done].
  - specialize (never_cancelled p s). destruct (call p s). done.
Qed.

(** One healthy provider is enough: if some provider of the fallback chain has
    a closed breaker and answers, [complete] returns an answer -- from it or from a
    provider before it in the chain -- however the others fail. *)
Theorem one_healthy_provider_suffices r chain s name p b :
  breakers_ok r → name ∈ chain → dget name (_providers r) = Some p → dget name (_breakers r) = Some b →
  _state b = CLOSED → (∀ s, ∃ content, (call p s).2 = Returned content) →
  ∃ r' s' content n pre post, try_chain call clock r chain s = (r', s', Ok (Completed content n)) ∧
    chain = pre ++ n :: post ∧ (n = name ∨ name ∈ post).
Proof.
  intros Hok Hin Hp Hb Hc Hs. revert r s Hok Hp Hb.
  induction chain as [|m chain IH]; intros r s Hok Hp Hb; [by apply elem_of_nil in Hin|].
  cbn [try_chain]. destruct (decide (m = name)) as [->|Hne].
  - rewrite Hp, Hb. destruct (Hs s) as [content E]. destruct (closed_success p b s content Hc E) as (b' & s' & ->).
    eexists _, _, content, name, [], chain. split_and!; [reflexivity|done|by left].
  - apply elem_of_cons in Hin as [->|Hin]; [done|]. destruct (dget m (_providers r)) as [q|] eqn:Eq.
    + destruct (Hok m) as [bm Ebm]; [by rewrite Eq|]. rewrite Ebm.
      pose proof (execute_not_cancelled q bm s) as Hnc.
      destruct (cb_execute clock (call q) bm s) as [[b' s'] o]. cbn in Hnc.
      set (r1 := mkRouter (_tiers r) (dset m b' (_breakers r)) (_providers r)).
      assert (∃ r' s'' content n pre post, try_chain call clock r1 chain s' = (r', s'', Ok (Completed content n)) ∧
        m :: chain = pre ++ n :: post ∧ (n = name ∨ name ∈ post)) as Hrest.
      { destruct (IH Hin r1 s') as (r' & s'' & content & n & pre & post & E & -> & Hn).
        - intros n Hn. cbn. rewrite dget_dset. case_decide; [by eexists|by apply Hok].
        - done.
        - cbn. by rewrite dget_dset_ne.
        - by exists r', s'', content, n, (m :: pre), post. }
      destruct o as [content|[t|c|]]; [|done|done|done].
      eexists _, _, content, m, [], chain. split_and!; [reflexivity|done|by right].
    + destruct (IH Hin r s Hok Hp Hb) as (r' & s' & content & n & pre & post & E & -> & Hn).
      by exists r', s', content, n, (m :: pre), post.
Qed.
End availability.

Definition demo_call (p : string) (s : Q) : Q * outcome string :=
  ((s + 1)%Q, if String.eqb p "fallback" then Returned "offline answer"%string
              else Raised (OtherException "ConnectionError")).

Lemma one_healthy_provider_suffices_witness :
  ∃ r' s' content n pre post,
    try_chain demo_call id (router_init (λ n _, Some n)) _fallback_chain 0%Q = (r', s', Ok (Completed content n)) ∧
    _fallback_chain = pre ++ n :: post ∧ (n = "fallback"%string ∨ "fallback"%string ∈ post).
Proof.
  apply (one_healthy_provider_suffices demo_call id) with (p := "fallback"%string) (b := provider_breaker "fallback").
  - intros p s. unfold demo_call. cbn. by destruct (String.eqb p "fallback").
  - intros n [p Hp]. apply dget_Some_mem in Hp. cbn in Hp.
    repeat (apply elem_of_cons in Hp as [[= -> ->]|Hp]; [by eexists|]). by apply elem_of_nil in Hp.
  - by do 3 right; left.
  - reflexivity.
  - reflexivity.
  - reflexivity.
  - intros s. by eexists.
Defined.
