(* ===== verification/Regex.v ===== *)
(** * Regular expressions as the sources use them

    A backtracking matcher with Python's [re] semantics (leftmost match, greedy
    repetition, ordered alternatives, numbered groups) for the operators that occur
    in [noema/neurosymbolic/symbolic.py], and the decimal numbers its groups
    capture.  Strings are sequences of code points below 256. *)
From Stdlib Require Import ZArith QArith Lia Bool Ascii String.
From stdpp Require Import base option numbers strings list.
From S2P Require Import Prelude.

Inductive re :=
| Eps
| Ch (p : ascii → bool)
| Seq (a b : re)
| Alt (a b : re)
| Opt (a : re)
| Star (a : re)
| Grp (n : nat) (a : re)
| WB.                     (* \b *)

Definition code (a : ascii) : nat := nat_of_ascii a.
Definition between (lo hi : nat) (a : ascii) : bool := ((lo <=? code a) && (code a <=? hi))%nat.
Definition is_digit (a : ascii) : bool := between 48 57 a.

(** [\w]: letters, digits and the underscore. *)
Definition is_word (a : ascii) : bool :=
  is_digit a || between 65 90 a || between 97 122 a || (code a =? 95)%nat || (code a =? 170)%nat
  || (code a =? 181)%nat || between 178 179 a || between 185 186 a || between 188 190 a
  || (between 192 255 a && negb (code a =? 215)%nat && negb (code a =? 247)%nat).

Definition word_at (a : option ascii) : bool := match a with Some a => is_word a | None => false end.
Definition next_char (s : string) : option ascii := match s with String a _ => Some a | EmptyString => None end.

Definition captures := list (nat * string).

Section matcher.
Context {R : Type}.

Fixpoint rmatch (r : re) (prev : option ascii) (s : string) (caps : captures)
    (k : option ascii → string → captures → option R) {struct r} : option R :=
  match r with
  | Eps => k prev s caps
  | Ch p =>
      match s with
      | String a s => if p a then k (Some a) s caps else None
      | EmptyString => None
      end
  | Seq a b => rmatch a prev s caps (λ prev s caps, rmatch b prev s caps k)
  | Alt a b =>
      match rmatch a prev s caps k with
      | Some x => Some x
      | None => rmatch b prev s caps k
      end
  | Opt a =>
      match rmatch a prev s caps k with
      | Some x => Some x
      | None => k prev s caps
      end
  | Star a =>
      (fix star (n : nat) (prev : option ascii) (s : string) (caps : captures) : option R :=
         match n with
         | O => None
         | S n =>
             match rmatch a prev s caps (λ prev' s' caps',
                     if (String.length s' <? String.length s)%nat then star n prev' s' caps' else None) with
             | Some x => Some x
             | None => k prev s caps
             end
         end) (S (String.length s)) prev s caps
  | Grp n a =>
      rmatch a prev s caps (λ prev' s' caps',
        k prev' s' ((n, String.substring 0 (String.length s - String.length s') s) :: caps'))
  | WB => if xorb (word_at prev) (word_at (next_char s)) then k prev s caps else None
  end.
End matcher.

(** [re.search]: the groups of the leftmost match. *)
Fixpoint search_from (r : re) (prev : option ascii) (s : string) : option captures :=
  match rmatch r prev s [] (λ _ _ caps, Some caps) with
  | Some caps => Some caps
  | None => match s with String a s => search_from r (Some a) s | EmptyString => None end
  end.

Definition search (r : re) (s : string) : option captures := search_from r None s.

(** [match.group(n)] for a group that took part in the match. *)
Definition group (n : nat) (caps : captures) : string := default ""%string (dget n caps).

(** ** Building blocks *)
Definition chr (a : ascii) : re := Ch (λ b, Ascii.eqb a b).
Fixpoint lit (s : string) : re :=
  match s with EmptyString => Eps | String a s => Seq (chr a) (lit s) end.
Definition plus (a : re) : re := Seq a (Star a).
Definition sp : re := Ch is_space.                       (* \s *)
Definition sps : re := plus sp.                          (* \s+ *)
Definition sp0 : re := Star sp.                          (* \s* *)
Definition dgt : re := Ch is_digit.                      (* \d *)
Definition sign : re := Opt (Ch (λ a, Ascii.eqb a "-" || Ascii.eqb a "+"))%char.   (* [-+]? *)
(** [[-+]?\d+(?:\.\d+)?] *)
Definition number : re := Seq sign (Seq (plus dgt) (Opt (Seq (chr ".") (plus dgt)))).
(** [[-+]?[\d.]+] *)
Definition loose_number : re := Seq sign (plus (Ch (λ a, is_digit a || Ascii.eqb a "."%char))).
(** [[a-zµ]*] *)
Definition unit_suffix : re := Star (Ch (λ a, between 97 122 a || (code a =? 181)%nat)).

(** ** [float(s)] on what the groups capture: an optional sign, digits and at most
    one point, with at least one digit. *)
Fixpoint digits_value (s : string) (acc : Z) : option Z :=
  match s with
  | EmptyString => Some acc
  | String a s => if is_digit a then digits_value s (acc * 10 + Z.of_nat (code a - 48)) else None
  end.

Fixpoint split_point (s : string) : string * option string :=
  match s with
  | EmptyString => (EmptyString, None)
  | String a s =>
      if Ascii.eqb a "."%char then (EmptyString, Some s)
      else let '(l, r) := split_point s in (String a l, r)
  end.

Definition unsigned_float (s : string) : option Q :=
  let '(l, r) := split_point s in
  let r := default EmptyString r in
  if nonempty (l +:+ r) then
    match digits_value l 0, digits_value r 0 with
    | Some i, Some f => Some (inject_Z i + inject_Z f / inject_Z (10 ^ Z.of_nat (String.length r)))%Q
    | _, _ => None
    end
  else None.

Definition float_of (s : string) : option Q :=
  match s with
  | String a s' =>
      if Ascii.eqb a "-"%char then match unsigned_float s' with Some q => Some (- q)%Q | None => None end
      else if Ascii.eqb a "+"%char then unsigned_float s'
      else unsigned_float s
  | EmptyString => None
  end.

Example search_between :
  search (Seq (lit "between") (Seq sps (Seq (Grp 1 loose_number) (Seq sps (Seq (lit "and") (Seq sps (Grp 2 loose_number)))))))
    "keep it between 2 and -5.5 please" = Some [(2, "-5.5"); (1, "2")]%string
  ∧ option_map Qred (float_of "-5.5") = Some (-11 # 2)%Q ∧ float_of "1.2.3" = None ∧ float_of "." = None.
Proof. by vm_compute. Qed.
