(* ===== verification/Symbolic.v ===== *)
(** * Symbolic engine ([noema/neurosymbolic/symbolic.py])

    From an untrusted task description to solver assertions, and from a candidate
    solution to a verdict.  The Z3 package is a parameter: [check] is
    [Solver.check] on the list of assertions, with the documented meaning of its
    answers as hypotheses of the theorems.  Numbers are exact rationals. *)
From Stdlib Require Import ZArith QArith Qround Lqa Lia Bool Ascii String.
From stdpp Require Import base option numbers sets strings pretty list.
From S2P Require Import Prelude Regex.

(** ** Names *)
Fixpoint map_string (f : ascii → ascii) (s : string) : string :=
  match s with EmptyString => EmptyString | String a s => String (f a) (map_string f s) end.

Definition is_ident (a : ascii) : bool :=
  is_digit a || between 65 90 a || between 97 122 a || Ascii.eqb a "_"%char.

(** [re.sub(r"_+", "_", s)] *)
Fixpoint collapse (after_underscore : bool) (s : string) : string :=
  match s with
  | EmptyString => EmptyString
  | String a s =>
      if Ascii.eqb a "_"%char
      then if after_underscore then collapse true s else String a (collapse true s)
      else String a (collapse false s)
  end.

(** [s.strip("_")] *)
Fixpoint lstrip_us (s : string) : string :=
  match s with
  | String a s' => if Ascii.eqb a "_"%char then lstrip_us s' else s
  | EmptyString => EmptyString
  end.
Fixpoint rstrip_us (s : string) : string :=
  match s with
  | EmptyString => EmptyString
  | String a s' =>
      match rstrip_us s' with
      | EmptyString => if Ascii.eqb a "_"%char then EmptyString else String a EmptyString
      | t => String a t
      end
  end.

Definition starts_with_digit (s : string) : bool :=
  match s with String a _ => is_digit a | EmptyString => false end.

Definition _sanitize_var_name (name fallback : string) : string :=
  let text := strip name in
  if negb (nonempty text) then fallback
  else
    let safe := map_string (λ a, if is_ident a then a else "_"%char) text in
    let safe := rstrip_us (lstrip_us (collapse false safe)) in
    let safe := if negb (nonempty safe) || starts_with_digit safe then ("v_" +:+ safe)%string else safe in
    if nonempty safe then safe else fallback.

(** [while candidate in seen] of [_unique_names]: the counter and the first free
    candidate; [n] bounds the tries. *)
Definition numbered (name : string) (i : Z) : string := (name +:+ "_" +:+ pretty i)%string.

Fixpoint free_name (n : nat) (name : string) (i : Z) (seen : list (string * Z)) : option (Z * string) :=
  match n with
  | O => None
  | S n => if dmem (numbered name i) seen then free_name n name (i + 1) seen else Some (i, numbered name i)
  end.

Fixpoint unique_loop (seen : list (string * Z)) (names : list string) : result pyexn (list string) :=
  match names with
  | [] => Ok []
  | name :: names =>
      match dget name seen with
      | None => out ← unique_loop (dset name 0%Z seen) names; Ok (name :: out)
      | Some i =>
          match free_name (S (length seen)) name (i + 1) seen with
          | None => Err OutOfFuel
          | Some (j, candidate) =>
              out ← unique_loop (dset candidate 0%Z (dset name j seen)) names; Ok (candidate :: out)
          end
      end
  end.

Definition _unique_names (names : list string) : result pyexn (list string) := unique_loop [] names.

(** ** Bounds from text *)
Definition _BOUND_TEXT_KEYS : list string :=
  ["constraints"; "description"; "requirement"; "text"; "condition"; "rule"; "statement"]%string.

Inductive bound_kind := lower_bound | upper_bound | exact.

(** Words separated by [\s+], then [\s+], the number and its unit. *)
Fixpoint words (l : list string) : re :=
  match l with
  | [] => Eps
  | [w] => lit w
  | w :: l => Seq (lit w) (Seq sps (words l))
  end.

Definition measure : re := Seq sps (Seq (Grp 1 number) (Seq sp0 (Grp 2 unit_suffix))).
Definition phrase (ws : list string) : re := Seq (words ws) measure.
Definition phrase_alt (ws : list string) (a b : string) : re :=
  Seq (words ws) (Seq sps (Seq (Alt (lit a) (lit b)) measure)).

Definition _BOUND_PATTERNS : list (re * bound_kind) :=
  [(phrase ["no"; "less"; "than"], lower_bound);
   (phrase ["no"; "more"; "than"], upper_bound);
   (phrase_alt ["must"; "stay"] "below" "under", upper_bound);
   (phrase_alt ["must"; "stay"] "above" "over", lower_bound);
   (phrase ["must"; "not"; "exceed"], upper_bound);
   (phrase ["must"; "not"; "go"; "above"], upper_bound);
   (phrase ["greater"; "than"; "or"; "equal"; "to"], lower_bound);
   (phrase ["less"; "than"; "or"; "equal"; "to"], upper_bound);
   (phrase ["at"; "least"], lower_bound);
   (phrase ["at"; "most"], upper_bound);
   (Seq (lit "minimum") (Seq (Opt (lit "ly")) measure), lower_bound);
   (Seq (lit "maximum") (Seq (Opt (lit "ly")) measure), upper_bound);
   (phrase ["up"; "to"], upper_bound);
   (phrase ["exactly"], exact);
   (Seq WB (Seq (lit "exceed") (Seq (Opt (lit "s")) measure)), upper_bound);
   (Seq WB (phrase ["below"]), upper_bound);
   (Seq WB (phrase ["above"]), lower_bound)]%string.

Definition _unit_scale (suffix : string) : Q :=
  let unit := lower (strip suffix) in
  if bool_decide (unit ∈ ["ms"; "millisecond"; "milliseconds"]%string) then (1 # 1000)%Q
  else if bool_decide (unit ∈ ["us"; String (ascii_of_nat 181) "s"; "microsecond"; "microseconds"]%string)
  then (1 # 1000000)%Q
  else 1%Q.

Definition bounds := (option Q * option Q)%type.

(** [lo if lower is None else max(lower, lo)] and its dual *)
Definition raise_lower (v : Q) (b : bounds) : bounds :=
  (Some (match b.1 with None => v | Some l => Qmaxb l v end), b.2).
Definition cut_upper (v : Q) (b : bounds) : bounds :=
  (b.1, Some (match b.2 with None => v | Some u => Qminb u v end)).

Definition float_group (n : nat) (caps : captures) : result pyexn Q :=
  match float_of (group n caps) with Some q => Ok q | None => Err ValueError end.

(** A two-sided, a lower and an upper pattern of the body. *)
Definition apply_range (r : re) (text : string) (b : bounds) : result pyexn bounds :=
  match search r text with
  | None => Ok b
  | Some caps => lo ← float_group 1 caps; hi ← float_group 2 caps; Ok (cut_upper hi (raise_lower lo b))
  end.
Definition apply_lower (r : re) (text : string) (b : bounds) : result pyexn bounds :=
  match search r text with
  | None => Ok b
  | Some caps => lo ← float_group 1 caps; Ok (raise_lower lo b)
  end.
Definition apply_upper (r : re) (text : string) (b : bounds) : result pyexn bounds :=
  match search r text with
  | None => Ok b
  | Some caps => hi ← float_group 1 caps; Ok (cut_upper hi b)
  end.

Definition bracket (a b : ascii) : re := Ch (λ c, Ascii.eqb c a || Ascii.eqb c b).

Definition in_pattern : re :=
  Seq (lit "in") (Seq sp0 (Seq (bracket "[" "(") (Seq sp0 (Seq (Grp 1 loose_number) (Seq sp0 (Seq (chr ",")
    (Seq sp0 (Seq (Grp 2 loose_number) (Seq sp0 (bracket "]" ")")))))))))).
Definition between_pattern : re :=
  Seq (lit "between") (Seq sps (Seq (Grp 1 loose_number) (Seq sps (Seq (lit "and") (Seq sps (Grp 2 loose_number)))))).
Definition ge_pattern : re := Seq (lit ">=") (Seq sp0 (Grp 1 loose_number)).
Definition le_pattern : re := Seq (lit "<=") (Seq sp0 (Grp 1 loose_number)).
Definition keyed (w : string) : re :=
  Seq WB (Seq (lit w) (Seq sp0 (Seq (Opt (bracket ":" "=")) (Seq sp0 (Grp 1 loose_number))))).

Definition apply_phrase (b : bounds) (text : string) (p : re * bound_kind) : result pyexn bounds :=
  match search p.1 text with
  | None => Ok b
  | Some caps =>
      v ← float_group 1 caps;
      let value := (v * _unit_scale (group 2 caps))%Q in
      Ok (match p.2 with
          | lower_bound => raise_lower value b
          | upper_bound => cut_upper value b
          | exact => cut_upper value (raise_lower value b)
          end)
  end.

Fixpoint fold_result {A B} (f : B → A → result pyexn B) (b : B) (l : list A) : result pyexn B :=
  match l with [] => Ok b | x :: l => b ← f b x; fold_result f b l end.

Definition bounds_of_text (b : bounds) (text : string) : result pyexn bounds :=
  let lowered := lower text in
  b ← apply_range in_pattern lowered b;
  b ← apply_range between_pattern lowered b;
  b ← apply_lower ge_pattern lowered b;
  b ← apply_upper le_pattern lowered b;
  b ← apply_lower (keyed "min") lowered b;
  b ← apply_upper (keyed "max") lowered b;
  fold_result (λ b p, apply_phrase b lowered p) b _BOUND_PATTERNS.

Definition dict := list (string * json).

Definition truthy (j : json) : bool :=
  match j with
  | JNull => false
  | JBool b => b
  | JNum q => negb (Qeq_bool q 0)
  | JStr s => nonempty s
  | JArr l => match l with [] => false | _ => true end
  | JObj d => match d with [] => false | _ => true end
  end.

(** [a or b] *)
Definition py_or (a : option json) (b : option json) : option json :=
  match a with Some j => if truthy j then a else b | None => b end.

Section symbolic.
(** [str(x)] of a value that is not a string, and [float(s)] of an arbitrary
    string ([None]: [ValueError]). *)
Context (repr : json → string) (float_str : string → option Q).

Definition py_str (j : json) : string := match j with JStr s => s | _ => repr j end.

Definition _to_num (v : option json) : option Q :=
  match v with
  | Some (JNum q) => Some q
  | Some (JStr s) => float_str (strip s)
  | _ => None
  end.

Definition _bound_text_parts (req : dict) : list string :=
  concat (map (λ key,
    match dget key req with
    | Some (JStr s) => if nonempty s then [s] else []
    | Some (JArr l) => map py_str l
    | _ => []
    end) _BOUND_TEXT_KEYS).

Definition _extract_bounds (req : dict) : result pyexn bounds :=
  fold_result bounds_of_text (_to_num (dget "min"%string req), _to_num (dget "max"%string req))
    (_bound_text_parts req).

(** ** Solver terms *)
Inductive zvar := ZInt (n : string) | ZReal (n : string) | ZBool (n : string).

Inductive assertion :=
| Ge (v : zvar) (q : Q)
| Le (v : zvar) (q : Q)
| EqNum (v : zvar) (q : Q)
| EqBool (v : zvar) (b : bool).

Inductive z3_result := sat | unsat | unknown.
#[global] Instance z3_result_eq_dec : EqDecision z3_result.
Proof. solve_decision. Defined.

Record Constraint := mkConstraint {
  name : string;
  expression : list assertion;    (* [And] of the clauses *)
  variable : zvar;
}.

Record TaskGraph := mkGraph {
  requirements : list Constraint;
  constraints : list Constraint;
  goals : json;
  variables : list (string * zvar);
}.

Definition _candidate_name (req : json) (index : nat) : string :=
  match req with
  | JObj d => match py_or (dget "name"%string d) (py_or (dget "category"%string d) None) with
              | Some j => if truthy j then py_str j else ""
              | None => "" end
  | _ => ("req_" +:+ pretty (Z.of_nat index))%string
  end.

Definition is_integer (q : Q) : bool := Qeq_bool (inject_Z (Qfloor q)) q.

Definition fractional (v : option Q) : bool := match v with Some q => negb (is_integer q) | None => false end.

(** The conjuncts of the requirement's formula. *)
Definition clauses (var : zvar) (l u : option Q) : list assertion :=
  match l with Some q => [Ge var q] | None => [] end ++ match u with Some q => [Le var q] | None => [] end.

(** [_parse_requirement]: [None] for a requirement that is skipped, a failed
    [float] included. *)
Definition _parse_requirement (req : json) (nm : string) : option Constraint :=
  match req with
  | JObj d =>
      let numeric := match dget "type"%string d with
                     | None => true
                     | Some (JStr s) => String.eqb s "numeric"
                     | Some _ => false
                     end in
      if numeric then
        match _extract_bounds d with
        | Err _ => None
        | Ok (None, None) => None
        | Ok (l, u) =>
            let var := if fractional l || fractional u then ZReal nm else ZInt nm in
            Some (mkConstraint nm (clauses var l u) var)
        end
      else None
  | _ => None
  end.

Definition _parse_constraint (const : json) (nm : string) : option Constraint :=
  match const with
  | JObj _ => Some (mkConstraint nm [EqBool (ZBool nm) true] (ZBool nm))
  | _ => None
  end.

(** The two loops of [parse_task]: the list is full when it holds
    [max_constraints]; a skipped item does not count. *)
Fixpoint parse_items (parse : json → string → option Constraint) (max_constraints : Z)
    (items : list (json * string)) (acc : list Constraint) (vars : list (string * zvar))
    : list Constraint * list (string * zvar) :=
  match items with
  | [] => (acc, vars)
  | (item, nm) :: items =>
      if (max_constraints <=? Z.of_nat (length acc))%Z then (acc, vars)
      else
        match parse item nm with
        | Some c => parse_items parse max_constraints items (acc ++ [c]) (dset (name c) (variable c) vars)
        | None => parse_items parse max_constraints items acc vars
        end
  end.

Fixpoint enumerate {A} (i : nat) (l : list A) : list (nat * A) :=
  match l with [] => [] | x :: l => (i, x) :: enumerate (S i) l end.

Definition item_names (prefix : string) (items : list json) : result pyexn (list string) :=
  _unique_names (map (λ '(i, r), _sanitize_var_name (_candidate_name r i) (prefix +:+ pretty (Z.of_nat i)))
                   (enumerate 0 items)).

(** The elements of [for x in j]; [None]: the value is not iterable. *)
Definition iter_json (j : json) : option (list json) :=
  match j with
  | JArr l => Some l
  | JStr s => Some (map (λ a, JStr (String a EmptyString)) (list_ascii_of_string s))
  | JObj d => Some (map (λ p, JStr p.1) d)
  | _ => None
  end.

(** [len] succeeds on strings, lists and dicts. *)
Definition has_len (j : json) : bool :=
  match j with JStr _ | JArr _ | JObj _ => true | _ => false end.

Definition _validate_task_structure (task : dict) : result pyexn (list json) :=
  match dget "requirements"%string task with Some (JArr reqs) => Ok reqs | _ => Err ValueError end.

(** [parse_task]; the log call takes the length of the goals. *)
Definition parse_task (max_constraints : Z) (task : dict) : result pyexn TaskGraph :=
  reqs ← _validate_task_structure task;
  req_names ← item_names "req_" reqs;
  let '(rs, vars) := parse_items _parse_requirement max_constraints (zip reqs req_names) [] [] in
  match iter_json (default (JArr []) (dget "constraints"%string task)) with
  | Some consts =>
      const_names ← item_names "constraint_" consts;
      let '(cs, vars) := parse_items _parse_constraint max_constraints (zip consts const_names) [] vars in
      let gs := default (JArr []) (dget "goals"%string task) in
      if has_len gs then Ok (mkGraph rs cs gs vars) else Err TypeError
  | None => Err TypeError
  end.

(** ** Verification *)
Inductive value := VNum (q : Q) | VBool (b : bool).

Definition true_words : list string := ["true"; "1"; "yes"; "on"]%string.
Definition false_words : list string := ["false"; "0"; "no"; "off"]%string.

Definition _coerce_value (var : zvar) (v : json) : option value :=
  match var with
  | ZBool _ =>
      match v with
      | JBool b => Some (VBool b)
      | JNum q => Some (VBool (negb (Qeq_bool q 0)))
      | JStr s =>
          let low := lower (strip s) in
          if bool_decide (low ∈ true_words) then Some (VBool true)
          else if bool_decide (low ∈ false_words) then Some (VBool false)
          else None
      | _ => None
      end
  | ZInt _ =>
      match _to_num (Some v) with
      | Some q => if is_integer q then Some (VNum q) else None
      | None => None
      end
  | ZReal _ => match _to_num (Some v) with Some q => Some (VNum q) | None => None end
  end.

Definition eq_assertion (var : zvar) (v : value) : assertion :=
  match v with VNum q => EqNum var q | VBool b => EqBool var b end.

Inductive violation :=
| Unsatisfiable | Uncheckable (n : string) | Violated (n : string) | NothingMatched
| Unavailable | VerificationTimeout.

Context (check : list assertion → z3_result).

Definition is_unsat (r : z3_result) : bool := match r with unsat => true | _ => false end.

(** The loop over the solution; [checked] counts the values that were checked. *)
Fixpoint check_values (base : list assertion) (vars : list (string * zvar)) (solution : dict) (checked : nat)
    : bool * list violation * nat :=
  match solution with
  | [] => (true, [], checked)
  | (n, v) :: solution =>
      match dget n vars with
      | None => check_values base vars solution checked
      | Some var =>
          match _coerce_value var v with
          | None => (false, [Uncheckable n], checked)
          | Some c =>
              if is_unsat (check (base ++ [eq_assertion var c])) then (false, [Violated n], checked)
              else check_values base vars solution (S checked)
          end
      end
  end.

Definition _check_solution (base : list assertion) (solution : dict) (g : TaskGraph) : bool * list violation :=
  if is_unsat (check base) then (false, [Unsatisfiable])
  else
    match check_values base (variables g) solution 0 with
    | (false, vs, _) => (false, vs)
    | (true, _, checked) =>
        if (checked =? 0)%nat && match solution with [] => false | _ => true end
        then (false, [NothingMatched]) else (true, [])
    end.

(** [verify_solution]; [timed_out] tells whether [asyncio.wait_for] gave up. *)
Definition verify_solution (degraded timed_out : bool) (solution : dict) (g : TaskGraph) : bool * list violation :=
  if degraded then (false, [Unavailable])
  else
    let base := concat (map expression (requirements g)) in
    match requirements g, constraints g with
    | [], [] => (true, [])
    | _, _ => if timed_out then (false, [VerificationTimeout]) else _check_solution base solution g
    end.
End symbolic.

(** ** Unique names *)
Lemma append_inj_l (s t t' : string) : (s +:+ t = s +:+ t')%string → t = t'.
Proof. induction s as [|a s IH]; [done|]. intros E. apply IH. by injection E. Qed.

Lemma numbered_inj nm i j : numbered nm i = numbered nm j → i = j.
Proof.
  unfold numbered. intros E. apply append_inj_l in E. apply append_inj_l in E. by apply (inj pretty) in E.
Qed.

(** Among more candidates than taken names one is free. *)
Lemma free_name_spec n nm : ∀ i seen, (length seen < n)%nat →
  ∃ j, free_name n nm i seen = Some (j, numbered nm j) ∧ dmem (numbered nm j) seen = false.
Proof.
  assert (∀ n i (seen : list (string * Z)), free_name n nm i seen = None →
    ∀ k, (k < n)%nat → numbered nm (i + Z.of_nat k) ∈ seen.*1) as Hall.
  { clear. induction n as [|n IH]; intros i seen Hf k Hk; [lia|]. cbn in Hf.
    destruct (dmem (numbered nm i) seen) eqn:E; [|done].
    destruct k as [|k].
    - rewrite Z.add_0_r. apply dget_is_Some. unfold dmem in E. by apply bool_decide_eq_true in E.
    - replace (i + Z.of_nat (S k))%Z with (i + 1 + Z.of_nat k)%Z by lia. apply IH; [done|lia]. }
  intros i seen Hn. destruct (free_name n nm i seen) as [[j c]|] eqn:E.
  - exists j. clear Hall Hn. revert i E. induction n as [|n IH]; intros i E; [done|]. cbn in E.
    destruct (dmem (numbered nm i) seen) eqn:Em; [by apply (IH (i + 1)%Z)|]. injection E as -> <-. done.
  - exfalso. specialize (Hall n i seen E).
    assert (map (λ k, numbered nm (i + Z.of_nat k)) (seq 0 n) ⊆ seen.*1) as Hsub.
    { intros x (k & -> & [_ Hk]%elem_of_seq)%list_elem_of_fmap. apply Hall. lia. }
    apply NoDup_submseteq, submseteq_length in Hsub.
    + rewrite length_map, length_seq, length_fmap in Hsub. lia.
    + apply NoDup_fmap_2_strong; [|apply NoDup_seq]. intros x y _ _ E1%numbered_inj. lia.
Qed.

Lemma dmem_false_key {V} k (d : list (string * V)) : dmem k d = false ↔ k ∉ d.*1.
Proof. unfold dmem. by rewrite bool_decide_eq_false, dget_is_Some. Qed.

Lemma unique_loop_spec names : ∀ seen, ∃ out, unique_loop seen names = Ok out ∧
  length out = length names ∧ NoDup out ∧ ∀ x, x ∈ out → x ∉ seen.*1.
Proof.
  induction names as [|nm names IH]; intros seen; cbn [unique_loop].
  { exists []. split_and!; [done|done|constructor|]. intros x Hx. by apply elem_of_nil in Hx. }
  assert (∀ c seen', c ∉ seen.*1 → (∀ x, x ∈ seen'.*1 ↔ x = c ∨ x ∈ seen.*1) →
    ∃ out, (out ← unique_loop seen' names; Ok (c :: out)) = Ok out ∧ length out = S (length names) ∧
      NoDup out ∧ ∀ x, x ∈ out → x ∉ seen.*1) as Hnext.
  { intros c seen' Hc Hs. destruct (IH seen') as (out & -> & Hl & Hn & Hx). exists (c :: out).
    split_and!; [done|cbn; lia| |].
    - apply list.NoDup_cons. split; [|done]. intros Hin. apply (Hx c Hin), Hs. by left.
    - intros x [->|Hin]%elem_of_cons; [done|]. intros Hin'. apply (Hx x Hin), Hs. by right. }
  destruct (dget nm seen) as [i|] eqn:E.
  - destruct (free_name_spec (S (length seen)) nm (i + 1) seen) as (j & -> & Hf); [lia|].
    apply dmem_false_key in Hf. apply Hnext; [done|]. intros x. rewrite !elem_of_dset_keys.
    assert (nm ∈ seen.*1) by (apply dget_is_Some; by eexists). naive_solver.
  - apply Hnext; [by apply dget_None|]. intros x. by rewrite elem_of_dset_keys.
Qed.

(** [_unique_names] terminates and gives pairwise different names, one per
    input name and in the same order, so no two requirements of a task can share a
    solver variable. *)
Theorem unique_names_distinct names :
  ∃ out, _unique_names names = Ok out ∧ length out = length names ∧ NoDup out.
Proof. destruct (unique_loop_spec names []) as (out & E & Hl & Hn & _). by exists out. Qed.

(** The first collision is numbered 1, not 2. *)
Example unique_names_example :
  _unique_names ["x"; "x"; "x_1"; "x"]%string = Ok ["x"; "x_1"; "x_1_1"; "x_2"]%string.
Proof. by vm_compute. Qed.

(** ** Bounds only narrow *)
Definition narrower (b c : bounds) : Prop :=
  (∀ l, c.1 = Some l → ∃ l', b.1 = Some l' ∧ (l <= l')%Q) ∧
  (∀ u, c.2 = Some u → ∃ u', b.2 = Some u' ∧ (u' <= u)%Q).

#[global] Instance narrower_preorder : PreOrder narrower.
Proof.
  split.
  - intros b. split; intros q E; exists q; (split; [done|lra]).
  - intros a b c [H1 H2] [H3 H4]. split; intros q E.
    + destruct (H3 q E) as (q' & E' & ?). destruct (H1 q' E') as (q'' & ? & ?). exists q''. split; [done|lra].
    + destruct (H4 q E) as (q' & E' & ?). destruct (H2 q' E') as (q'' & ? & ?). exists q''. split; [done|lra].
Qed.

Lemma narrower_none b : narrower b (None, None).
Proof. by split. Qed.

(** A step of the extraction: it narrows, and keeps the order of ranges. *)
Definition narrows (f : bounds → result pyexn bounds) : Prop :=
  (∀ b b', f b = Ok b' → narrower b' b) ∧
  (∀ b c b' c', narrower b c → f b = Ok b' → f c = Ok c' → narrower b' c').

Lemma raise_lower_narrows v : narrows (λ b, Ok (raise_lower v b)).
Proof.
  split.
  - intros [l u] b' [= <-]; split; cbn [fst snd raise_lower]; intros q ->; eexists; (split; [done|]);
      [apply Qmaxb_spec|lra].
  - intros [l u] [l0 u0] b' c' [H1 H2] [= <-] [= <-]. split; cbn [fst snd raise_lower] in *; [|exact H2].
    intros q [= <-]. eexists. split; [done|]. destruct l0 as [l0|].
    + destruct (H1 l0 eq_refl) as (l' & -> & ?).
      pose proof (Qmaxb_spec l' v) as (? & ? & _). destruct (Qmaxb_spec l0 v) as (_ & _ & [->| ->]); lra.
    + destruct l as [l|]; [apply Qmaxb_spec|lra].
Qed.

Lemma cut_upper_narrows v : narrows (λ b, Ok (cut_upper v b)).
Proof.
  split.
  - intros [l u] b' [= <-]; split; cbn [fst snd cut_upper]; intros q ->; eexists; (split; [done|]);
      [lra|apply Qminb_spec].
  - intros [l u] [l0 u0] b' c' [H1 H2] [= <-] [= <-]. split; cbn [fst snd cut_upper] in *; [exact H1|].
    intros q [= <-]. eexists. split; [done|]. destruct u0 as [u0|].
    + destruct (H2 u0 eq_refl) as (u' & -> & ?).
      pose proof (Qminb_spec u' v) as (? & ? & _). destruct (Qminb_spec u0 v) as (_ & _ & [->| ->]); lra.
    + destruct u as [u|]; [apply Qminb_spec|lra].
Qed.

Lemma keep_narrows : narrows Ok.
Proof. split; [by intros ?? [= <-]|by intros ???? ? [= <-] [= <-]]. Qed.

Lemma fail_narrows e : narrows (λ _, Err e).
Proof. by split. Qed.

Lemma bind_narrows f g : narrows f → narrows g → narrows (λ b, b ← f b; g b).
Proof.
  intros [F1 F2] [G1 G2]. split.
  - intros b b' E. destruct (f b) as [b1|] eqn:Ef; [|done]. cbn in E. etrans; eauto.
  - intros b c b' c' Hbc E E'. destruct (f b) as [b1|] eqn:Ef, (f c) as [c1|] eqn:Eg; try done. cbn in *. eauto.
Qed.

Lemma read_narrows {A} (r : result pyexn A) f : (∀ x, narrows (f x)) → narrows (λ b, x ← r; f x b).
Proof. intros Hf. destruct r as [x|e]; [apply Hf|apply fail_narrows]. Qed.

Create HintDb narrowing.
#[export] Hint Resolve keep_narrows fail_narrows raise_lower_narrows cut_upper_narrows : narrowing.

Lemma both_narrow lo hi : narrows (λ b, Ok (cut_upper hi (raise_lower lo b))).
Proof. apply (bind_narrows (λ b, Ok (raise_lower lo b)) (λ b, Ok (cut_upper hi b))); auto with narrowing. Qed.

Lemma apply_range_narrows r text : narrows (apply_range r text).
Proof.
  unfold apply_range. destruct (search r text) as [caps|]; [|apply keep_narrows].
  apply (read_narrows (float_group 1 caps) (λ lo b, hi ← float_group 2 caps; Ok (cut_upper hi (raise_lower lo b)))).
  intros lo. apply (read_narrows (float_group 2 caps) (λ hi b, Ok (cut_upper hi (raise_lower lo b)))).
  intros hi. apply both_narrow.
Qed.

Lemma apply_lower_narrows r text : narrows (apply_lower r text).
Proof.
  unfold apply_lower. destruct (search r text) as [caps|]; [|apply keep_narrows].
  apply (read_narrows (float_group 1 caps) (λ lo b, Ok (raise_lower lo b))). auto with narrowing.
Qed.

Lemma apply_upper_narrows r text : narrows (apply_upper r text).
Proof.
  unfold apply_upper. destruct (search r text) as [caps|]; [|apply keep_narrows].
  apply (read_narrows (float_group 1 caps) (λ hi b, Ok (cut_upper hi b))). auto with narrowing.
Qed.

Lemma apply_phrase_narrows text p : narrows (λ b, apply_phrase b text p).
Proof.
  unfold apply_phrase. destruct (search p.1 text) as [caps|]; [|apply keep_narrows].
  apply (read_narrows (float_group 1 caps) (λ v b, let value := (v * _unit_scale (group 2 caps))%Q in
    Ok (match p.2 with lower_bound => raise_lower value b | upper_bound => cut_upper value b
        | exact => cut_upper value (raise_lower value b) end))).
  intros v. destruct p.2; cbn; auto using both_narrow with narrowing.
Qed.

Lemma fold_narrows {A} (f : bounds → A → result pyexn bounds) l :
  (∀ x, narrows (λ b, f b x)) → narrows (λ b, fold_result f b l).
Proof.
  intros Hf. induction l as [|x l IH]; [apply keep_narrows|].
  exact (bind_narrows (λ b, f b x) (λ b, fold_result f b l) (Hf x) IH).
Qed.

Lemma bounds_of_text_narrows text : narrows (λ b, bounds_of_text b text).
Proof.
  unfold bounds_of_text. cbv zeta. set (t := lower text).
  apply (bind_narrows (apply_range in_pattern t)); [apply apply_range_narrows|].
  apply (bind_narrows (apply_range between_pattern t)); [apply apply_range_narrows|].
  apply (bind_narrows (apply_lower ge_pattern t)); [apply apply_lower_narrows|].
  apply (bind_narrows (apply_upper le_pattern t)); [apply apply_upper_narrows|].
  apply (bind_narrows (apply_lower (keyed "min") t)); [apply apply_lower_narrows|].
  apply (bind_narrows (apply_upper (keyed "max") t)); [apply apply_upper_narrows|].
  apply (fold_narrows (λ b p, apply_phrase b t p)). intros p. apply apply_phrase_narrows.
Qed.

Lemma fold_texts_narrower texts b b' : fold_result bounds_of_text b texts = Ok b' →
  narrower b' b ∧ ∀ t c, t ∈ texts → bounds_of_text (None, None) t = Ok c → narrower b' c.
Proof.
  revert b. induction texts as [|t texts IH]; intros b E; cbn in E.
  { injection E as <-. split; [done|]. intros t c Ht. by apply elem_of_nil in Ht. }
  destruct (bounds_of_text b t) as [b1|] eqn:E1; [|done]. cbn in E. destruct (IH _ E) as [Hn Ht].
  destruct (bounds_of_text_narrows t) as [N1 N2]. split; [etrans; [exact Hn|by apply N1]|].
  intros t' c [->|Hin]%elem_of_cons Ec; [|eauto].
  etrans; [exact Hn|]. by eapply N2; [apply narrower_none|..].
Qed.

(** the range [_extract_bounds] gives a requirement is never wider than its
    explicit [min] and [max], nor than the range any single text of it declares,
    whichever of the patterns matched: repeated bounds only narrow. *)
Theorem extract_bounds_narrows repr float_str d b : _extract_bounds repr float_str d = Ok b →
  narrower b (_to_num float_str (dget "min"%string d), _to_num float_str (dget "max"%string d)) ∧
  ∀ t c, t ∈ _bound_text_parts repr d → bounds_of_text (None, None) t = Ok c → narrower b c.
Proof. apply fold_texts_narrower. Qed.

Lemma extract_bounds_narrows_witness :
  narrower (Some 5, Some 150)%Q (Some 2, None)%Q ∧
  ∀ t c, t ∈ ["at least 5, at most 200"; "between 1 and 150"]%string →
    bounds_of_text (None, None) t = Ok c → narrower (Some 5, Some 150)%Q c.
Proof.
  exact (extract_bounds_narrows (λ _, ""%string) (λ _, None)
    [("min", JNum 2); ("description", JStr "at least 5, at most 200"); ("text", JStr "between 1 and 150")]%string
    (Some 5, Some 150)%Q ltac:(by vm_compute)).
Defined.

(** ** Meaning of the solver's answers *)
#[global] Instance zvar_eq_dec : EqDecision zvar.
Proof. solve_decision. Defined.

Record valuation := mkVal { ints : string → Z; reals : string → Q; bools : string → bool }.

Definition num_at (σ : valuation) (v : zvar) : option Q :=
  match v with ZInt n => Some (inject_Z (ints σ n)) | ZReal n => Some (reals σ n) | ZBool _ => None end.

Definition holds (σ : valuation) (a : assertion) : Prop :=
  match a with
  | Ge v q => ∃ x, num_at σ v = Some x ∧ (q <= x)%Q
  | Le v q => ∃ x, num_at σ v = Some x ∧ (x <= q)%Q
  | EqNum v q => ∃ x, num_at σ v = Some x ∧ (x == q)%Q
  | EqBool (ZBool n) b => bools σ n = b
  | EqBool _ _ => False
  end.

Definition satisfiable (l : list assertion) : Prop := ∃ σ, Forall (holds σ) l.

(** A number lies within a requirement's bounds. *)
Definition at_value (q : Q) (a : assertion) : Prop :=
  match a with Ge _ l => (l <= q)%Q | Le _ u => (q <= u)%Q | _ => True end.
Definition within (c : Constraint) (q : Q) : Prop := Forall (at_value q) (expression c).

(** What [_parse_requirement] builds. *)
Definition is_requirement (c : Constraint) : Prop :=
  ∃ l u, let var := if fractional l || fractional u then ZReal (name c) else ZInt (name c) in
    variable c = var ∧ expression c = clauses var l u ∧ (l ≠ None ∨ u ≠ None).

Lemma parse_requirement_shape repr float_str j nm c :
  _parse_requirement repr float_str j nm = Some c → name c = nm ∧ is_requirement c.
Proof.
  unfold _parse_requirement. intros Hp. destruct j as [| | | | |d]; try done.
  destruct (match dget "type" d with None => true | Some (JStr s) => String.eqb s "numeric" | Some _ => false end);
    [|done].
  destruct (_extract_bounds repr float_str d) as [[l u]|]; [|done].
  assert (c = mkConstraint nm (clauses (if fractional l || fractional u then ZReal nm else ZInt nm) l u)
    (if fractional l || fractional u then ZReal nm else ZInt nm) ∧ (l ≠ None ∨ u ≠ None)) as [-> Hb].
  { destruct l, u; try done; injection Hp as <-; split; auto; by (left + right). }
  split; [done|]. exists l, u. done.
Qed.

Lemma parse_items_spec parse max items : ∀ acc vars rs vars',
  parse_items parse max items acc vars = (rs, vars') →
  (∀ j nm c, parse j nm = Some c → name c = nm) →
  ∃ new, rs = acc ++ new ∧ map name new `sublist_of` items.*2 ∧
    (∀ c, c ∈ new → ∃ j nm, parse j nm = Some c).
Proof.
  induction items as [|[j nm] items IH]; intros acc vars rs vars' Hp Hn; cbn [parse_items] in Hp.
  { injection Hp as <- <-. exists []. rewrite app_nil_r. split_and!; [done|constructor|].
    intros c Hc. by apply elem_of_nil in Hc. }
  destruct (_ <=? _)%Z.
  { injection Hp as <- <-. exists []. rewrite app_nil_r. split_and!; [done|apply sublist_nil_l|].
    intros c Hc. by apply elem_of_nil in Hc. }
  destruct (parse j nm) as [c|] eqn:Ec.
  - destruct (IH _ _ _ _ Hp Hn) as (new & -> & Hs & Hc). exists (c :: new). rewrite <- app_assoc.
    split_and!; [done| |].
    + cbn. rewrite (Hn _ _ _ Ec). by apply sublist_skip.
    + intros c' [->|H']%elem_of_cons; [by exists j, nm|auto].
  - destruct (IH _ _ _ _ Hp Hn) as (new & -> & Hs & Hc). exists new. split_and!; [done| |done].
    by apply sublist_cons.
Qed.

Section exactness.
Context (repr : json → string) (float_str : string → option Q).

Lemma item_names_NoDup prefix items ns : item_names repr prefix items = Ok ns → NoDup ns.
Proof.
  unfold item_names, _unique_names. intros E.
  match type of E with unique_loop [] ?l = _ => destruct (unique_loop_spec l []) as (out & E' & _ & Hn & _) end.
  rewrite E' in E. by injection E as <-.
Qed.

(** The requirements of a parsed task have bounds on variables of their own. *)
Lemma parse_task_shape max task g : parse_task repr float_str max task = Ok g →
  NoDup (map name (requirements g)) ∧ Forall is_requirement (requirements g).
Proof.
  unfold parse_task. intros Hp. destruct (_validate_task_structure task) as [l|]; [|done]. cbn [mbind result_bind] in Hp.
  destruct (item_names repr "req_" l) as [ns|] eqn:En; [|done]. cbn [mbind result_bind] in Hp.
  destruct (parse_items _ max (zip l ns) [] []) as [rs vars] eqn:Er.
  assert (requirements g = rs) as ->.
  { destruct (iter_json _) as [consts|]; [|done].
    destruct (item_names repr "constraint_" consts) as [cn|]; [|done]. cbn [mbind result_bind] in Hp.
    destruct (parse_items _ max (zip consts cn) [] vars) as [cs vars'].
    destruct (has_len _); [|done]. by injection Hp as <-. }
  apply parse_items_spec in Er as (new & -> & Hs & Hc).
  2:{ intros j nm c Hj. by apply parse_requirement_shape in Hj as []. }
  cbn [app]. split.
  - eapply sublist_NoDup; [|exact Hs]. eapply sublist_NoDup; [exact (item_names_NoDup _ _ _ En)|].
    clear. revert ns. induction l as [|x l IH]; intros [|n ns]; cbn; try apply sublist_nil_l.
    apply sublist_skip, IH.
  - apply Forall_forall. intros c (j & nm & Hj)%Hc. by apply parse_requirement_shape in Hj as [].
Qed.

(** *** Building a valuation *)
Definition set_num (σ : valuation) (v : zvar) (q : Q) : valuation :=
  match v with
  | ZInt n => mkVal (λ m, if decide (m = n) then Qfloor q else ints σ m) (reals σ) (bools σ)
  | ZReal n => mkVal (ints σ) (λ m, if decide (m = n) then q else reals σ m) (bools σ)
  | ZBool _ => σ
  end.

Definition fits (v : zvar) (q : Q) : Prop :=
  match v with ZInt _ => is_integer q = true | ZReal _ => True | ZBool _ => False end.

Lemma set_num_same σ v q : fits v q → ∃ x, num_at (set_num σ v q) v = Some x ∧ (x == q)%Q.
Proof.
  destruct v; cbn; [| |done]; intros Hf; eexists; (split; [done|]); rewrite decide_True by done.
  - by apply Qeq_bool_eq.
  - reflexivity.
Qed.

Lemma set_num_other σ v w q : v ≠ w → num_at (set_num σ v q) w = num_at σ w.
Proof. intros. destruct v, w; cbn; try done; case_decide; congruence. Qed.

Lemma at_value_proper x y a : (x == y)%Q → at_value x a → at_value y a.
Proof. intros E. destruct a; cbn; try done; by rewrite E. Qed.

Lemma clauses_hold σ var l u x : num_at σ var = Some x →
  Forall (holds σ) (clauses var l u) ↔ Forall (at_value x) (clauses var l u).
Proof.
  intros E. assert (∀ q, holds σ (Ge var q) ↔ (q <= x)%Q) as H1.
  { intros q. cbn. rewrite E. split; [intros (? & [= <-] & ?); done|eauto]. }
  assert (∀ q, holds σ (Le var q) ↔ (x <= q)%Q) as H2.
  { intros q. cbn. rewrite E. split; [intros (? & [= <-] & ?); done|eauto]. }
  unfold clauses. rewrite !Forall_app. destruct l as [l|], u as [u|]; rewrite ?Forall_singleton, ?Forall_nil, ?H1, ?H2;
    cbn [at_value]; tauto.
Qed.

Lemma requirement_holds σ c x : is_requirement c → num_at σ (variable c) = Some x →
  Forall (holds σ) (expression c) ↔ within c x.
Proof. intros (l & u & Ev & Ee & _) E. unfold within. rewrite Ee. apply clauses_hold. by rewrite <- Ev. Qed.

Lemma requirement_numeric σ c : is_requirement c → ∃ x, num_at σ (variable c) = Some x.
Proof. intros (l & u & -> & _). destruct (_ || _); cbn; eauto. Qed.

Lemma requirement_var_name c c' : is_requirement c → is_requirement c' → variable c = variable c' → name c = name c'.
Proof. intros (l & u & -> & _) (l' & u' & -> & _). by repeat destruct (_ || _); intros [=]. Qed.

(** A range that contains a number contains one of the variable's sort. *)
Lemma requirement_fits c q : is_requirement c → within c q → ∃ q', fits (variable c) q' ∧ within c q'.
Proof.
  intros (l & u & Ev & Ee & Hb) Hw. unfold within in *. rewrite Ev, Ee in *. revert Hw.
  destruct (fractional l || fractional u) eqn:Ef; [by exists q|]. intros Hw.
  apply orb_false_iff in Ef as [Fl Fu].
  assert (∀ z, fractional (Some z) = false → fits (ZInt (name c)) z) as Hfit.
  { intros z Hz. cbn in *. by apply negb_false_iff in Hz. }
  unfold clauses in *. rewrite Forall_app in Hw. setoid_rewrite Forall_app.
  destruct l as [l|].
  - exists l. split; [by apply Hfit|]. split; [apply Forall_singleton; cbn [at_value]; lra|].
    destruct u as [u|]; [|done]. destruct Hw as [Hw1 Hw2].
    rewrite Forall_singleton in Hw1. rewrite Forall_singleton in Hw2. apply Forall_singleton.
    exact (Qle_trans _ _ _ Hw1 Hw2).
  - destruct u as [u|]; [|naive_solver]. exists u. split; [by apply Hfit|]. split; [done|].
    apply Forall_singleton. cbn [at_value]. lra.
Qed.

(** Ranges of different variables are met together, at the chosen values. *)
Lemma requirements_met_at reqs (P : Constraint → Q → Prop) σ0 :
  NoDup (map name reqs) → Forall is_requirement reqs →
  (∀ c, c ∈ reqs → ∃ q, fits (variable c) q ∧ within c q ∧ P c q) →
  ∃ σ, bools σ = bools σ0 ∧
    (∀ v, v ∉ map variable reqs → num_at σ v = num_at σ0 v) ∧
    ∀ c, c ∈ reqs → ∃ q x, num_at σ (variable c) = Some x ∧ (x == q)%Q ∧ within c q ∧ P c q.
Proof.
  induction reqs as [|c reqs IH]; intros Hn Hr Hq.
  { exists σ0. split_and!; [done|done|]. intros c Hc. by apply elem_of_nil in Hc. }
  cbn in Hn. apply list.NoDup_cons in Hn as [Hnew Hn]. apply Forall_cons in Hr as [Hc Hr].
  destruct IH as (σ & Hb & Ho & Hs); [done|done|intros c' Hc'; apply Hq; by right|].
  destruct (Hq c) as (q & Hf & Hw & HP); [by left|].
  assert (∀ c', c' ∈ reqs → variable c ≠ variable c') as Hne.
  { intros c' Hc' E. apply Hnew. rewrite (requirement_var_name c c'); [|done|by rewrite Forall_forall in Hr; auto|done].
    apply list_elem_of_fmap. eauto. }
  exists (set_num σ (variable c) q). split_and!.
  - rewrite <- Hb. by destruct (variable c).
  - intros v Hv. cbn in Hv. apply not_elem_of_cons in Hv as [Hv1 Hv2]. rewrite set_num_other by done. auto.
  - intros c' [->|Hc']%elem_of_cons.
    + destruct (set_num_same σ (variable c) q Hf) as (x & E & Ex). exists q, x. done.
    + destruct (Hs c' Hc') as (q' & x & E & Ex & Hw' & HP'). exists q', x. split_and!; [|done..].
      rewrite set_num_other; auto.
Qed.

Lemma is_unsat_false (P : Prop) r : (r = unsat ↔ ¬ P) → is_unsat r = false → ¬ ¬ P.
Proof. intros Hr Hu Hn. apply Hr in Hn. by subst. Qed.

(** All ranges are non-empty and hold the given value of one variable: the query
    is satisfiable, and only then. *)
Definition admits (reqs : list Constraint) (var : zvar) (v : value) : Prop :=
  ∀ c, c ∈ reqs → variable c = var → ∃ q, v = VNum q ∧ within c q.

Definition feasible (reqs : list Constraint) : Prop := ∀ c, c ∈ reqs → ∃ q, within c q.

Definition default_valuation : valuation := mkVal (λ _, 0%Z) (λ _, 0%Q) (λ _, false).

Lemma base_holds σ reqs : Forall (holds σ) (concat (map expression reqs)) ↔
  ∀ c, c ∈ reqs → Forall (holds σ) (expression c).
Proof. rewrite Forall_concat, Forall_map, Forall_forall. done. Qed.

Lemma within_proper c x y : (x == y)%Q → within c x → within c y.
Proof. intros E Hw. eapply Forall_impl; [exact Hw|]. intros a. by apply at_value_proper. Qed.

Lemma feasible_satisfiable reqs : NoDup (map name reqs) → Forall is_requirement reqs →
  satisfiable (concat (map expression reqs)) ↔ feasible reqs.
Proof.
  intros Hn Hr. pose proof (proj1 (Forall_forall _ _) Hr) as Hr'. split.
  - intros [σ Hσ] c Hc. destruct (requirement_numeric σ c) as (x & E); [auto|]. exists x.
    apply (requirement_holds σ c x); auto. by eapply base_holds.
  - intros Hf. destruct (requirements_met_at reqs (λ _ _, True) default_valuation) as (σ & _ & _ & Hσ); [done|done| |].
    { intros c Hc. destruct (Hf c Hc) as (q & Hq). destruct (requirement_fits c q) as (q' & ? & ?); auto. eauto. }
    exists σ. apply base_holds. intros c Hc. destruct (Hσ c Hc) as (q & x & E & Ex & Hw & _).
    apply (requirement_holds σ c x); [auto|done|]. by apply (within_proper c q x).
Qed.

(** A coerced value is of its variable's sort. *)
Lemma coerce_sort var v x : _coerce_value float_str var v = Some x →
  match x with VNum q => fits var q | VBool _ => ∃ n, var = ZBool n end.
Proof.
  unfold _coerce_value. destruct var as [n|n|n]; intros E.
  - destruct (_to_num _ _); [|done]. destruct (is_integer q) eqn:Ei; [|done]. by injection E as <-.
  - destruct (_to_num _ _); [|done]. by injection E as <-.
  - destruct v; try done; try (injection E as <-; by eexists).
    repeat case_bool_decide; try done; injection E as <-; by eexists.
Qed.

Definition set_bool (σ : valuation) (n : string) (b : bool) : valuation :=
  mkVal (ints σ) (reals σ) (λ m, if decide (m = n) then b else bools σ m).

Lemma query_satisfiable reqs var v x : NoDup (map name reqs) → Forall is_requirement reqs →
  _coerce_value float_str var v = Some x →
  satisfiable (concat (map expression reqs) ++ [eq_assertion var x]) ↔ feasible reqs ∧ admits reqs var x.
Proof.
  intros Hn Hr Hx. apply coerce_sort in Hx. pose proof (proj1 (Forall_forall _ _) Hr) as Hr'. split.
  - intros [σ Hσ]. apply Forall_app in Hσ as [Hσ He]. split; [apply feasible_satisfiable; [done|done|by exists σ]|].
    intros c Hc Ev. rewrite Forall_singleton in He. pose proof (proj1 (base_holds σ reqs) Hσ c Hc) as Hh.
    destruct x as [q|b]; cbn in He.
    + destruct He as (y & E & Ey). exists q. split; [done|]. apply (within_proper c y q Ey).
      apply (requirement_holds σ c y); [auto|by rewrite Ev|done].
    + destruct Hx as [n ->]. destruct (requirement_numeric σ c) as (y & E); [auto|]. by rewrite Ev in E.
  - intros [Hf Ha].
    assert (∃ σ0, holds σ0 (eq_assertion var x)) as [σ0 H0].
    { destruct x as [q|b].
      - exists (set_num default_valuation var q). by apply set_num_same.
      - destruct Hx as [n ->]. exists (set_bool default_valuation n b). cbn. by rewrite decide_True. }
    destruct (requirements_met_at reqs (λ c q, variable c = var → x = VNum q) σ0) as (σ & Hb & Ho & Hσ); [done|done| |].
    { intros c Hc. destruct (decide (variable c = var)) as [Ev|Ev].
      - destruct (Ha c Hc Ev) as (q & -> & Hw). exists q. rewrite Ev. done.
      - destruct (Hf c Hc) as (q & Hq). destruct (requirement_fits c q) as (q' & ? & ?); auto. exists q'. done. }
    exists σ. apply Forall_app. split.
    + apply base_holds. intros c Hc. destruct (Hσ c Hc) as (q & y & E & Ey & Hw & _).
      apply (requirement_holds σ c y); [auto|done|]. by apply (within_proper c q y).
    + apply Forall_singleton. destruct x as [q|b].
      * destruct (decide (var ∈ map variable reqs)) as [Hv|Hv]; [apply list_elem_of_fmap in Hv as (c & -> & Hc)|].
        -- destruct (Hσ c Hc) as (q' & y & E & Ey & _ & HP). injection (HP eq_refl) as <-. by exists y.
        -- cbn in *. by rewrite Ho.
      * destruct Hx as [n ->]. cbn in *. by rewrite Hb.
Qed.

(** *** The verdict *)
Context (check : list assertion → z3_result).

Lemma check_values_true base vars solution : ∀ k k',
  check_values float_str check base vars solution k = (true, [], k') ↔
  (∀ n v var, (n, v) ∈ solution → dget n vars = Some var →
     ∃ x, _coerce_value float_str var v = Some x ∧ check (base ++ [eq_assertion var x]) ≠ unsat) ∧
  k' = (k + length (List.filter (λ p, dmem p.1 vars) solution))%nat.
Proof.
  induction solution as [|[n v] solution IH]; intros k k'.
  { cbn. split; [intros [= <-]; split; [|lia]|intros [_ ->]; f_equal; lia].
    intros n v var Hin. by apply elem_of_nil in Hin. }
  cbn [check_values List.filter]. setoid_rewrite elem_of_cons. unfold dmem at 1. cbn [fst].
  destruct (dget n vars) as [var|] eqn:Ed.
  - rewrite bool_decide_true by done. cbn [length]. destruct (_coerce_value float_str var v) as [x|] eqn:Ex.
    + destruct (decide (check (base ++ [eq_assertion var x]) = unsat)) as [Ec|Ec].
      * rewrite Ec. split; [done|]. intros [Hx _]. destruct (Hx n v var) as (x' & E & ?); [by left|done|congruence].
      * assert (is_unsat (check (base ++ [eq_assertion var x])) = false) as -> by (by destruct (check _)).
        rewrite IH. split; (intros [H1 ->]; split; [|lia]); naive_solver.
    + split; [done|]. intros [Hx _]. destruct (Hx n v var) as (x & E & _); [by left|done|congruence].
  - rewrite bool_decide_false by (intros [? ?]; done). rewrite IH. naive_solver.
Qed.

Lemma check_values_verdict base vars solution k : ∃ vs k',
  check_values float_str check base vars solution k = (match vs with [] => true | _ => false end, vs, k').
Proof.
  revert k. induction solution as [|[n v] solution IH]; intros k; cbn [check_values]; [by exists [], k|].
  destruct (dget n vars); [|done]. destruct (_coerce_value _ _ _); [|by exists [Uncheckable n], k].
  destruct (is_unsat _); [by exists [Violated n], k|done].
Qed.

(** The solver queries of a run, and that Z3 answers them. *)
Definition base_of (g : TaskGraph) : list assertion := concat (map expression (requirements g)).

Definition queries (g : TaskGraph) (solution : dict) : list (list assertion) :=
  base_of g :: concat (map (λ p,
    match dget p.1 (variables g) with
    | Some var => match _coerce_value float_str var p.2 with
                  | Some x => [base_of g ++ [eq_assertion var x]]
                  | None => [] end
    | None => []
    end) solution).

Definition decided (l : list assertion) : Prop :=
  check l = sat ∧ satisfiable l ∨ check l = unsat ∧ ¬ satisfiable l.

Lemma decided_unsat l : decided l → check l ≠ unsat ↔ satisfiable l.
Proof. intros [[-> ?]|[-> ?]]; naive_solver. Qed.

Lemma mem_queries g solution n v var x : (n, v) ∈ solution → dget n (variables g) = Some var →
  _coerce_value float_str var v = Some x → base_of g ++ [eq_assertion var x] ∈ queries g solution.
Proof.
  intros Hin Hd Hx. apply elem_of_cons. right. apply list_elem_of_In, in_concat. eexists. split.
  - apply in_map, list_elem_of_In, Hin.
  - cbn. rewrite Hd, Hx. by left.
Qed.

Lemma match_filter vars (solution : dict) :
  length (List.filter (λ p, dmem p.1 vars) solution) ≠ 0%nat ↔
  ∃ n v, (n, v) ∈ solution ∧ n ∈ (vars : list (string * zvar)).*1.
Proof.
  induction solution as [|[n v] solution IH].
  - cbn. split; [done|]. intros (? & ? & Hin & _). by apply elem_of_nil in Hin.
  - cbn [List.filter fst]. setoid_rewrite elem_of_cons.
    destruct (dmem n vars) eqn:E; [|apply dmem_false_key in E; rewrite IH; naive_solver].
    split; [|done]. intros _. exists n, v. split; [by left|].
    apply dget_is_Some. unfold dmem in E. by apply bool_decide_eq_true in E.
Qed.

(** The values a solution may give: whatever names a variable of the graph can be coerced to the
    sort of the variable its name stands for, and lies within the bounds of every requirement on
    that very variable; and something names a variable, unless the solution is empty. *)
Definition acceptable (g : TaskGraph) (solution : dict) : Prop :=
  feasible (requirements g) ∧
  (∀ n v var, (n, v) ∈ solution → dget n (variables g) = Some var →
     ∃ x, _coerce_value float_str var v = Some x ∧ admits (requirements g) var x) ∧
  (solution = [] ∨ ∃ n v, (n, v) ∈ solution ∧ n ∈ (variables g).*1).

(** C8: the verdict on the graph of a parsed task.  Without Z3 every solution is refused; a graph
    without requirements and constraints accepts every solution; otherwise a timeout refuses.  In
    the remaining case, with a solver that answers sat or unsat, and rightly, on each query it is
    asked here, [verify_solution] accepts exactly the [acceptable] solutions: every requirement
    has a non-empty range, each entry that names a variable has a value of the sort of the
    variable the name stands for, within the bounds of the requirements on that variable, and at
    least one entry names a variable unless the solution is empty.  (A name that a constraint has
    taken over from a requirement stands for the constraint's variable.) *)
Theorem verify_solution_exact max task g solution :
  parse_task repr float_str max task = Ok g →
  (∀ l, l ∈ queries g solution → decided l) →
  (∀ timed_out, (verify_solution float_str check true timed_out solution g).1 = false)
  ∧ (requirements g = [] ∧ constraints g = [] → ∀ timed_out, verify_solution float_str check false timed_out solution g = (true, []))
  ∧ (requirements g ≠ [] ∨ constraints g ≠ [] →
      (verify_solution float_str check false true solution g).1 = false
      ∧ (verify_solution float_str check false false solution g = (true, []) ↔ acceptable g solution)).
Proof.
  intros Hp Hdec. split_and!; [done|unfold verify_solution; by intros [-> ->] ?|].
  intros Hsome. split; [unfold verify_solution; destruct (requirements g), (constraints g); naive_solver|]. unfold acceptable. apply parse_task_shape in Hp as [Hn Hr].
  assert (verify_solution float_str check false false solution g = _check_solution float_str check (base_of g) solution g) as ->.
  { unfold verify_solution, base_of. destruct (requirements g), (constraints g); naive_solver. }
  pose proof (decided_unsat _ (Hdec (base_of g) (list_elem_of_here _ _))) as Hbase.
  unfold base_of at 2 in Hbase. rewrite feasible_satisfiable in Hbase by done.
  unfold _check_solution. destruct (decide (check (base_of g) = unsat)) as [Eb|Eb].
  { rewrite Eb. split; [done|]. intros [Hf _]. by destruct (proj2 Hbase Hf). }
  assert (is_unsat (check (base_of g)) = false) as -> by (by destruct (check _)).
  apply Hbase in Eb.
  assert ((∀ n v var, (n, v) ∈ solution → dget n (variables g) = Some var →
       ∃ x, _coerce_value float_str var v = Some x ∧ admits (requirements g) var x) ↔
    (∀ n v var, (n, v) ∈ solution → dget n (variables g) = Some var →
       ∃ x, _coerce_value float_str var v = Some x ∧ check (base_of g ++ [eq_assertion var x]) ≠ unsat)) as ->.
  { assert (∀ n v var x, (n, v) ∈ solution → dget n (variables g) = Some var →
      _coerce_value float_str var v = Some x →
      admits (requirements g) var x ↔ check (base_of g ++ [eq_assertion var x]) ≠ unsat) as Hq.
    { intros n v var x Hin Hd Hx. rewrite decided_unsat by (apply Hdec; by eapply mem_queries).
      unfold base_of. rewrite (query_satisfiable _ _ v) by done. naive_solver. }
    split; intros Ha n v var Hin Hd; destruct (Ha n v var Hin Hd) as (x & Hx & Hc);
      exists x; (split; [done|]); by eapply Hq. }
  destruct (check_values_verdict (base_of g) (variables g) solution 0) as (vs & k & Ev).
  pose proof (check_values_true (base_of g) (variables g) solution 0 k) as Ht. rewrite Ev in Ht |- *.
  destruct vs as [|w vs].
  - destruct (proj1 Ht eq_refl) as [Hall ->]. pose proof (match_filter (variables g) solution) as Hm.
    destruct solution as [|p solution]; [naive_solver|]. rewrite andb_true_r. cbn [Nat.add] in *.
    destruct (Nat.eqb_spec (length (List.filter (λ p, dmem p.1 (variables g)) (p :: solution))) 0) as [E0|E0].
    + split; [done|]. intros (_ & _ & [?|Hex]); [done|]. by apply Hm in Hex.
    + split; [|done]. intros _. split_and!; [done|done|]. right. by apply Hm.
  - split; [done|]. intros (_ & Hall & _). exfalso.
    pose proof (check_values_true (base_of g) (variables g) solution 0
      (0 + length (List.filter (λ p, dmem p.1 (variables g)) solution))) as Ht'.
    rewrite Ev in Ht'. discriminate (proj2 Ht' (conj Hall eq_refl)).
Qed.
End exactness.

(** A task, a solution within its bounds, and the two queries decided. *)
Definition latency_task : dict :=
  [("requirements", JArr [JObj [("name", JStr "latency"); ("description", JStr "must stay below 200 and at least 5")];
                          JObj [("name", JStr "share"); ("min", JNum (1 # 2)); ("max", JNum 1)]])]%string.

Definition latency_graph : TaskGraph :=
  mkGraph
    [mkConstraint "latency" [Ge (ZInt "latency") 5; Le (ZInt "latency") 200] (ZInt "latency");
     mkConstraint "share" [Ge (ZReal "share") (1 # 2); Le (ZReal "share") 1] (ZReal "share")]
    [] (JArr []) [("latency", ZInt "latency"); ("share", ZReal "share")]%string.

Lemma latency_task_parses : parse_task (λ _, ""%string) (λ _, None) 1000 latency_task = Ok latency_graph.
Proof. by vm_compute. Qed.

Lemma latency_query_sat : ∀ l,
  l ∈ queries (λ _, None) latency_graph [("latency", JNum 120); ("comment", JStr "fast")]%string →
  decided (λ _, sat) l.
Proof.
  intros l Hl. left. split; [done|]. exists (mkVal (λ _, 120%Z) (λ _, 1%Q) (λ _, false)).
  apply list_elem_of_In in Hl. vm_compute in Hl. destruct Hl as [<-|[<-|[]]]; repeat constructor; eexists; (split; [reflexivity|]); by vm_compute.
Qed.

Lemma latency_requirements : requirements latency_graph ≠ [] ∨ constraints latency_graph ≠ [].
Proof. by left. Qed.

Lemma verify_solution_exact_witness :
  verify_solution (λ _, None) (λ _, sat) false false
    [("latency", JNum 120); ("comment", JStr "fast")]%string latency_graph = (true, []) ↔
  acceptable (λ _, None) latency_graph [("latency", JNum 120); ("comment", JStr "fast")]%string.
Proof.
  destruct (verify_solution_exact (λ _, ""%string) (λ _, None) (λ _, sat) 1000 latency_task latency_graph
    [("latency", JNum 120); ("comment", JStr "fast")]%string latency_task_parses latency_query_sat) as (_ & _ & H).
  exact (proj2 (H latency_requirements)).
Defined.

(** ** Corner cases of the verdict *)
(** A constraint with a requirement's name takes its place in [graph.variables]:
    the entry is then compared with the constraint's Boolean, never with the
    bounds, whatever the solver answers on satisfiable queries. *)
Definition shadowing_task : dict :=
  [("requirements", JArr [JObj [("name", JStr "latency"); ("max", JNum 200)]]);
   ("constraints", JArr [JObj [("name", JStr "Latency!")]; JObj [("name", JStr "latency")]])]%string.

Example shadowed_requirement : ∃ g,
  parse_task (λ _, ""%string) (λ _, None) 1000 shadowing_task = Ok g ∧
  dget "latency"%string (variables g) = Some (ZBool "latency") ∧
  verify_solution (λ _, None) (λ _, sat) false false [("latency"%string, JNum 5000)] g = (true, []).
Proof. eexists. split; [by vm_compute|]. split; by vm_compute. Qed.

(** A malformed number drops the whole requirement, its other bounds included; and
    a graph with nothing left accepts every solution. *)
Example malformed_number_drops_requirement : ∃ g,
  parse_task (λ _, ""%string) (λ _, None) 1000
    [("requirements", JArr [JObj [("name", JStr "cost"); ("max", JNum 10);
                                  ("description", JStr "cost <= 10.")];
                            JObj [("name", JStr "size"); ("max", JNum 10);
                                  ("description", JStr "size <= 1.2.3")]])]%string = Ok g ∧
  map name (requirements g) = ["cost"]%string.
Proof. eexists. split; [by vm_compute|]. by vm_compute. Qed.

Example nothing_to_verify_accepts float_str check solution gs vars :
  verify_solution float_str check false false solution (mkGraph [] [] gs vars) = (true, []).
Proof. done. Qed.

(** An undecided query counts as a pass. *)
Example unknown_accepts :
  verify_solution (λ _, None) (λ _, unknown) false false [("latency"%string, JNum 5000)] latency_graph = (true, []).
Proof. by vm_compute. Qed.
