(* ===== verification/NeuroSymbolic.v ===== *)
(** * NeuroSymbolic engine ([noema/neurosymbolic/engine.py], [static.py],
      [evolution.py], [noema/tracing/reasoning_trace.py])

    The refine-verify loop of [think]: parse the task, ask the model for a
    hypothesis, verify it, refine on violations, record and commit the outcome.
    The parts outside are a [world]: what the language model answers to each call,
    what the solver pool and the solver answer in each round, the causal estimator,
    and whether a trace file can be written.  The effects are a state and exception
    monad; the stream of yielded events is part of the state. *)
From Stdlib Require Import ZArith QArith Qround Lia Bool Ascii String.
From stdpp Require Import base option numbers strings pretty list.
From S2P Require Import Prelude Regex Symbolic.

(** ** Static analysis of the code inside a hypothesis *)
Definition _CODE_HINT_KEYS : list string :=
  ["code"; "implementation"; "implementation_code"; "source"; "snippet"; "python"; "solution_code"]%string.

Record StaticAnalysisVerdict := mkVerdict {
  analyzed : bool;
  code_snippets : nat;
  passed : bool;
  issues : list string;
}.

Definition no_verdict : StaticAnalysisVerdict := mkVerdict false 0 true [].

Fixpoint has_newline (s : string) : bool :=
  match s with EmptyString => false | String a s => (nat_of_ascii a =? 10)%nat || has_newline s end.

Section static.
(** [ast.parse]: for each statement of the module whether it is an [ast.Expr], or
    [None] for a [SyntaxError]; [analyze_code]: the rendered issues. *)
Context (ast_parse : string → option (list bool)) (analyze_code : string → list string).

Definition _is_python_code (text : string) : bool :=
  if (String.length (strip text) <? 4)%nat then false
  else match ast_parse text with
       | None => false
       | Some [true] => has_newline text
       | Some _ => true
       end.

Fixpoint _find_code_strings (value : json) : list string :=
  match value with
  | JObj d =>
      (fix items (d : list (string * json)) :=
         match d with
         | [] => []
         | (key, item) :: d =>
             match item with
             | JStr s => if bool_decide (key ∈ _CODE_HINT_KEYS) || _is_python_code s then [s] else []
             | _ => _find_code_strings item
             end ++ items d
         end) d
  | JArr l => (fix elems (l : list json) :=
                 match l with [] => [] | x :: l => _find_code_strings x ++ elems l end) l
  | _ => []
  end.

Definition analyze_solution_static (solution : dict) : StaticAnalysisVerdict :=
  let snippets := _find_code_strings (JObj solution) in
  match snippets with
  | [] => no_verdict
  | _ =>
      let found := map (λ '(i, s), map (λ issue, ("snippet " +:+ pretty (Z.of_nat (S i)) +:+ ": " +:+ issue)%string)
                                     (analyze_code s)) (enumerate 0 snippets) in
      mkVerdict true (length snippets) (forallb (λ l, match l with [] => true | _ => false end) found) (concat found)
  end.
End static.

(** ** Configuration, metrics, records *)
Record config := mkConfig {
  max_refinement_attempts : nat;
  enable_evolution : bool;
  enable_causal : bool;
  trace_dir : string;
}.

(** [__init__]: the configuration checks. *)
Definition NeuroSymbolicEngine_init (max_refinements : Z) (verification_timeout : Q) (max_counterfactuals : Z)
    (evolution causal : bool) (dir : string) : result pyexn config :=
  if (max_refinements <? 1)%Z then Err ValueError
  else if Qle_bool verification_timeout 0 then Err ValueError
  else if (max_counterfactuals <? 0)%Z then Err ValueError
  else Ok (mkConfig (Z.to_nat max_refinements) evolution causal dir).

Record metrics := mkMetrics {
  tasks_processed : Z;
  tasks_successful : Z;
  tasks_failed : Z;
  total_refinements : Z;
  total_llm_calls : Z;
}.

(** An entry of [EvolutionEngine._outcomes]. *)
Record outcome := mkOutcome { is_successful : bool; o_violations : list violation; hypothesis_keys : list string }.

(** [EvolutionEngine.get_stats]: total, successful, failed, success rate. *)
Definition get_stats (l : list outcome) : Z * Z * Z * Q :=
  match l with
  | [] => (0, 0, 0, 0%Q)%Z
  | _ =>
      let successful := Z.of_nat (length (List.filter is_successful l)) in
      let total := Z.of_nat (length l) in
      (total, successful, (total - successful)%Z, (inject_Z successful / inject_Z total)%Q)
  end.

Inductive exn :=
| NotStarted | ValidationError | SymbolicVerificationError | Python (e : pyexn) | External (msg : string).

Record VerificationRound := mkRound {
  attempt : nat;
  hypothesis : dict;
  static_verdict : StaticAnalysisVerdict;
  symbolic_valid : bool;
  violations : list violation;
}.

Inductive verdict := Completed | Failed | Errored.

Record ReasoningTrace := mkTrace {
  t_task : dict;
  t_rounds : list VerificationRound;
  t_outcome : verdict;
  t_attempts : nat;
  final_hypothesis : option dict;
  final_static_verdict : option StaticAnalysisVerdict;
  final_symbolic_valid : option bool;
  final_violations : list violation;
  t_error : option exn;
}.

Inductive ThinkEvent :=
| ParsingStarted
| ParsingCompleted (requirements_count constraints_count : nat)
| HypothesisStarted
| HypothesisCompleted (keys : list string)
| VerificationStarted (attempt : nat) (v : StaticAnalysisVerdict)
| VerificationCompleted (attempt : nat) (is_valid : bool) (violations_count : nat) (v : StaticAnalysisVerdict)
| RefinementStarted (attempt : nat)
| RefinementCompleted (attempt : nat)
| CausalStarted
| CausalCompleted (count : nat)
| ThinkCompleted (solution : dict) (attempts : nat) (v : StaticAnalysisVerdict) (causal : list json)
| ThinkFailed (attempts : nat) (v : StaticAnalysisVerdict)
| ThinkError (e : exn).

(** ** The world of one [think] call *)
Record norm_requirement := mkNorm { category : string; description : string; priority : Z }.

Record solver_call := mkCall {
  pool_exhausted : bool;                     (* no solver within a second *)
  timed_out : bool;                          (* the verification timeout *)
  check : list assertion → z3_result;
}.

Record world := mkWorld {
  generate_hypothesis : dict → result string dict;
  refine_hypothesis : nat → dict → list violation → dict → result string dict;
  solver : nat → solver_call;
  causal_engine : list norm_requirement → list string → list (string * string * Q) → string → result string (list json);
  write_trace : ReasoningTrace → option string;      (* the error, if the file cannot be written *)
}.

Record st := mkSt {
  _metrics : metrics;
  _outcomes : list outcome;
  traces : list ReasoningTrace;              (* the files of [trace_dir] *)
  events : list ThinkEvent;                  (* yielded so far *)
  trace_rounds : list VerificationRound;     (* the locals the error path reads *)
  l_hypothesis : option dict;
  l_static : option StaticAnalysisVerdict;
  l_valid : option bool;
  l_violations : list violation;
}.

(** ** State and exceptions *)
Definition M (A : Type) : Type := st → st * result exn A.
#[global] Instance M_ret : MRet M := λ A a s, (s, Ok a).
#[global] Instance M_bind : MBind M := λ A B f m s,
  match m s with (s, Ok a) => f a s | (s, Err e) => (s, Err e) end.

Definition modify (f : st → st) : M () := λ s, (f s, Ok ()).
Definition get : M st := λ s, (s, Ok s).
Definition raise {A} (e : exn) : M A := λ s, (s, Err e).
Definition lift {A} (r : result exn A) : M A := λ s, (s, r).
(** [try: m except Exception as exc: h exc] *)
Definition try_except {A} (m : M A) (h : exn → M A) : M A := λ s,
  match m s with (s, Err e) => h e s | r => r end.

Definition external {A} (r : result string A) : M A :=
  lift (match r with Ok a => Ok a | Err e => Err (External e) end).

Definition yield (e : ThinkEvent) : M () := modify (λ s,
  mkSt (_metrics s) (_outcomes s) (traces s) (events s ++ [e]) (trace_rounds s) (l_hypothesis s) (l_static s)
    (l_valid s) (l_violations s)).

Definition count (f : metrics → metrics) : M () := modify (λ s,
  mkSt (f (_metrics s)) (_outcomes s) (traces s) (events s) (trace_rounds s) (l_hypothesis s) (l_static s)
    (l_valid s) (l_violations s)).

Definition add_success (m : metrics) : metrics :=
  mkMetrics (tasks_processed m + 1) (tasks_successful m + 1) (tasks_failed m) (total_refinements m) (total_llm_calls m).
Definition add_failure (m : metrics) : metrics :=
  mkMetrics (tasks_processed m + 1) (tasks_successful m) (tasks_failed m + 1) (total_refinements m) (total_llm_calls m).
Definition add_llm_call (m : metrics) : metrics :=
  mkMetrics (tasks_processed m) (tasks_successful m) (tasks_failed m) (total_refinements m) (total_llm_calls m + 1).
Definition add_refinement (m : metrics) : metrics :=
  mkMetrics (tasks_processed m) (tasks_successful m) (tasks_failed m) (total_refinements m + 1) (total_llm_calls m + 1).

(** [EvolutionEngine.record_outcome] *)
Definition record_outcome (cfg : config) (hyp : dict) (ok : bool) (vs : list violation) : M () :=
  if enable_evolution cfg
  then modify (λ s, mkSt (_metrics s) (_outcomes s ++ [mkOutcome ok vs hyp.*1]) (traces s) (events s) (trace_rounds s)
                      (l_hypothesis s) (l_static s) (l_valid s) (l_violations s))
  else mret ().

Definition record_round (r : VerificationRound) : M () := modify (λ s,
  mkSt (_metrics s) (_outcomes s) (traces s) (events s) (trace_rounds s ++ [r]) (Some (hypothesis r))
    (Some (static_verdict r)) (Some (symbolic_valid r)) (violations r)).

(** [_commit_trace] with [build_reasoning_trace] and [commit_reasoning_trace]. *)
Definition _commit_trace (cfg : config) (w : world) (task : dict) (o : verdict) (attempts : nat)
    (error : option exn) : M () := λ s,
  if negb (nonempty (trace_dir cfg)) then (s, Ok ())
  else
    let trace := mkTrace task (trace_rounds s) o attempts (l_hypothesis s) (l_static s) (l_valid s)
                   (l_violations s) error in
    match write_trace w trace with
    | Some msg => (s, Err (External msg))
    | None => (mkSt (_metrics s) (_outcomes s) (traces s ++ [trace]) (events s) (trace_rounds s) (l_hypothesis s)
                 (l_static s) (l_valid s) (l_violations s), Ok ())
    end.

(** ** Validation of the task *)
Definition task_keys : list string := ["requirements"; "constraints"; "goals"; "variables"]%string.

Definition is_dict_list (j : json) : bool :=
  match j with JArr l => forallb (λ x, match x with JObj _ => true | _ => false end) l | _ => false end.
Definition is_str_list (j : json) : bool :=
  match j with JArr l => forallb (λ x, match x with JStr _ => true | _ => false end) l | _ => false end.
Definition is_dict (j : json) : bool := match j with JObj _ => true | _ => false end.

(** [NeuroSymbolicTaskInput.model_validate] (strict, unknown keys forbidden) and
    [model_dump]. *)
Definition model_validate (task : dict) : result exn dict :=
  let field key ok (dflt : json) :=
    match dget key task with Some j => if (ok j : bool) then Some j else None | None => Some dflt end in
  if negb (forallb (λ p, bool_decide (p.1 ∈ task_keys)) task) then Err ValidationError
  else
    match field "requirements" is_dict_list (JArr []), field "constraints" is_dict_list (JArr []),
          field "goals" is_str_list (JArr []), field "variables" is_dict (JObj []) with
    | Some r, Some c, Some g, Some v =>
        Ok [("requirements", r); ("constraints", c); ("goals", g); ("variables", v)]
    | _, _, _, _ => Err ValidationError
    end%string.

(** ** Causal analysis *)
Section causal.
(** [str(x)] of a value that is not a string; [int(s)] of a string ([None]:
    [ValueError]). *)
Context (repr : json → string) (int_str : string → option Z).

Definition _coerce_priority (value : json) : Z :=
  let clamp z := Z.min (Z.max z 0) 10 in
  match value with
  | JBool b => clamp (if b then 1 else 0)%Z
  | JNum q => clamp (Qtrunc q)
  | JStr s => match int_str s with Some z => clamp z | None => 5 end
  | _ => 5
  end.

Definition get_or (key : string) (d : dict) (dflt : json) : json := default dflt (dget key d).

Definition _dependency_node_name (r : norm_requirement) : string :=
  (category r +:+ "_" +:+ substring 0 20 (description r))%string.

Definition normalize (j : json) : norm_requirement :=
  match j with
  | JObj d => mkNorm (py_str repr (get_or "category" d (JStr "unknown"))) (py_str repr (get_or "description" d (JStr "")))
                (_coerce_priority (get_or "priority" d (JNum 5)))
  | _ => mkNorm "unknown" "" 5
  end.

Definition constraint_name (p : nat * json) : string :=
  match p.2 with
  | JObj d => py_str repr (get_or "name" d (JStr ("c_" +:+ pretty (Z.of_nat p.1))))
  | _ => ("c_" +:+ pretty (Z.of_nat p.1))%string
  end.

(** The dominance edges of [_compute_counterfactuals_blocking]; an element is never
    compared with itself. *)
Definition dependencies (reqs : list norm_requirement) : list (string * string * Q) :=
  concat (map (λ '(i, r), concat (map (λ '(j, o),
    if (i =? j)%nat then []
    else if (priority o <? priority r)%Z then [(_dependency_node_name r, _dependency_node_name o, 1 # 2)] else [])
    (enumerate 0 reqs))) (enumerate 0 reqs)).

Definition elements (j : option json) : list json := match j with Some (JArr l) => l | _ => [] end.

Definition _run_causal_analysis (w : world) (task : dict) : result string (list json) :=
  let reqs := map normalize (elements (dget "requirements"%string task)) in
  let consts := map constraint_name (enumerate 0 (elements (dget "constraints"%string task))) in
  match reqs, consts with
  | [], [] => Ok []
  | _, _ => causal_engine w reqs consts (dependencies reqs) (py_str repr (get_or "description" task (JStr "")))
  end.
End causal.

(** ** Verification with the solver pool

    [SymbolicEngine.verify_solution]: the solver is taken from the pool first, and
    an exhausted pool raises. *)
Definition verify_call (float_str : string → option Q) (degraded : bool) (call : solver_call) (hyp : dict)
    (g : TaskGraph) : result exn (bool * list violation) :=
  if negb degraded && pool_exhausted call then Err SymbolicVerificationError
  else Ok (verify_solution float_str (check call) degraded (timed_out call) hyp g).

Definition max_constraints : Z := 1000.

Definition parse (repr : json → string) (float_str : string → option Q) (task : dict) : result exn TaskGraph :=
  match parse_task repr float_str max_constraints task with Ok g => Ok g | Err e => Err (Python e) end.

(** ** [think] *)
Section think.
Context (repr : json → string) (float_str : string → option Q) (int_str : string → option Z).
Context (ast_parse : string → option (list bool)) (analyze_code : string → list string).
Context (cfg : config) (degraded : bool) (w : world).

(** Verification in round [k]. *)
Definition verify_round (k : nat) (hyp : dict) (g : TaskGraph) : result exn (bool * list violation) :=
  verify_call float_str degraded (solver w k) hyp g.

Definition static_of (hyp : dict) : StaticAnalysisVerdict := analyze_solution_static ast_parse analyze_code hyp.

(** The branch of a valid hypothesis in attempt [k]. *)
Definition succeed (task hyp : dict) (k : nat) : M () :=
  count add_success;;
  record_outcome cfg hyp true [];;
  causal ← ((if enable_causal cfg
            then yield CausalStarted;;
                 a ← external (_run_causal_analysis repr int_str w task);
                 yield (CausalCompleted (length a));;
                 mret a
            else mret []) : M (list json));
  yield (ThinkCompleted hyp k (static_of hyp) causal);;
  _commit_trace cfg w task Completed k None.

(** The loop over [range(max_refinement_attempts)]: [n] rounds are left, [i] is the
    loop variable; [true] when the generator returned. *)
Fixpoint rounds (n : nat) (i : nat) (task hyp : dict) (g : TaskGraph) : M (bool * dict) :=
  match n with
  | O => mret (false, hyp)
  | S n =>
      let v := static_of hyp in
      yield (VerificationStarted (S i) v);;
      r ← lift (verify_round i hyp g);
      record_round (mkRound (S i) hyp v r.1 r.2);;
      yield (VerificationCompleted (S i) r.1 (length r.2) v);;
      if (r.1 : bool) then succeed task hyp (S i);; mret (true, hyp)
      else if (Z.of_nat i <? Z.of_nat (max_refinement_attempts cfg) - 1)%Z
      then
        yield (RefinementStarted (S i));;
        hyp' ← external (refine_hypothesis w i hyp r.2 task);
        count add_refinement;;
        yield (RefinementCompleted (S i));;
        rounds n (S i) task hyp' g
      else rounds n (S i) task hyp g
  end.

(** After the last round without a valid hypothesis. *)
Definition give_up_run (task hyp : dict) : M () :=
  count add_failure;;
  s ← get;
  record_outcome cfg hyp false (l_violations s);;
  yield (ThinkFailed (max_refinement_attempts cfg) (default no_verdict (l_static s)));;
  _commit_trace cfg w task Failed (max_refinement_attempts cfg) None.

(** The [try] block. *)
Definition think_body (task : dict) : M () :=
  yield ParsingStarted;;
  g ← lift (parse repr float_str task);
  yield (ParsingCompleted (length (requirements g)) (length (constraints g)));;
  yield HypothesisStarted;;
  hyp ← external (generate_hypothesis w task);
  count add_llm_call;;
  yield (HypothesisCompleted hyp.*1);;
  r ← rounds (max_refinement_attempts cfg) 0 task hyp g;
  if (r.1 : bool) then mret () else give_up_run task r.2.

(** The [except] block. *)
Definition think_error (task : dict) (e : exn) : M () :=
  count add_failure;;
  yield (ThinkError e);;
  s ← get;
  _commit_trace cfg w task Errored (match length (trace_rounds s) with O => 1 | n => n end) (Some e);;
  raise e.

(** The locals [think] binds before the [try]. *)
Definition fresh_locals : M () := modify (λ s,
  mkSt (_metrics s) (_outcomes s) (traces s) [] [] None None None []).

Definition think (started : bool) (task : dict) : M () :=
  if negb started then raise NotStarted
  else
    task_dict ← lift (model_validate task);
    fresh_locals;;
    try_except (think_body task_dict) (think_error task_dict).
End think.

(** ** Starting and stopping

    The flags of the engine and of its parts; the batch processor's task is [None]
    before the first start, then [Some] whether it still runs. *)
Record lifecycle := mkLife {
  _started : bool;
  _initialized : bool;
  _degraded : bool;
  _solver_pool : nat;
  _batch_processor_task : option bool;
}.

Definition created : lifecycle := mkLife false false false 0 None.

(** [SymbolicEngine.initialize], given whether [z3] can be imported. *)
Definition initialize (z3 : bool) (l : lifecycle) : lifecycle :=
  if _initialized l then l
  else if z3 then mkLife (_started l) true false (_solver_pool l + 10) (_batch_processor_task l)
  else mkLife (_started l) true true (_solver_pool l) (_batch_processor_task l).

(** [NeuralInterface.start] and [stop] *)
Definition neural_start (l : lifecycle) : lifecycle :=
  match _batch_processor_task l with
  | None => mkLife (_started l) (_initialized l) (_degraded l) (_solver_pool l) (Some true)
  | Some _ => l
  end.
Definition neural_stop (l : lifecycle) : lifecycle :=
  match _batch_processor_task l with
  | None => l
  | Some _ => mkLife (_started l) (_initialized l) (_degraded l) (_solver_pool l) (Some false)
  end.

Definition set_started (b : bool) (l : lifecycle) : lifecycle :=
  mkLife b (_initialized l) (_degraded l) (_solver_pool l) (_batch_processor_task l).

Definition start (z3 : bool) (l : lifecycle) : lifecycle :=
  if _started l then l else set_started true (neural_start (initialize z3 l)).
Definition stop (l : lifecycle) : lifecycle :=
  if _started l then set_started false (neural_stop l) else l.

(** [get_metrics]: the success rate. *)
Definition success_rate (m : metrics) : Q :=
  if (0 <? tasks_processed m)%Z then inject_Z (tasks_successful m) / inject_Z (tasks_processed m) else 0.

(** ** Replaying a trace ([reverify_reasoning_trace]) *)
#[global] Instance verdict_eq_dec : EqDecision StaticAnalysisVerdict.
Proof. solve_decision. Defined.

Record ReplayVerdict := mkReplay {
  matches : bool;
  static_matches : option bool;
  symbolic_matches : option bool;
  replayed_static : option StaticAnalysisVerdict;
  replayed_valid : option bool;
  replayed_violations : list violation;
}.

Section replay.
Context (repr : json → string) (float_str : string → option Q).
Context (ast_parse : string → option (list bool)) (analyze_code : string → list string).

Definition reverify_reasoning_trace (degraded : bool) (call : solver_call) (t : ReasoningTrace) : result exn ReplayVerdict :=
  let static := match final_hypothesis t with
                | Some h => Some (analyze_solution_static ast_parse analyze_code h)
                | None => None end in
  let static_ok := match static with
                   | Some v => Some (bool_decide (Some v = final_static_verdict t))
                   | None => None end in
  sym ← (match final_hypothesis t, final_symbolic_valid t with
         | Some h, Some recorded =>
             match parse repr float_str (t_task t) with
             | Ok g => r ← verify_call float_str degraded call h g; Ok (Some (recorded, r))
             | Err e => Err e
             end
         | _, _ => Ok None
         end : result exn (option (bool * (bool * list violation))));
  let sym_ok := match sym with Some (recorded, (v, _)) => Some (Bool.eqb v recorded) | None => None end in
  Ok (mkReplay (default true static_ok && default true sym_ok) static_ok sym_ok static
        (match sym with Some (_, (v, _)) => Some v | None => None end)
        (match sym with Some (_, (_, vs)) => vs | None => final_violations t end)).
End replay.

(** ** Invariants of runs *)
Definition keeps (I : st → Prop) {A} (m : M A) : Prop := ∀ s, I s → I (m s).1.

Section keeps.
Context (I : st → Prop).

Lemma keeps_ret {A} (a : A) : keeps I (mret a).
Proof. by intros s. Qed.

Lemma keeps_bind {A B} (m : M A) (f : A → M B) : keeps I m → (∀ a, keeps I (f a)) → keeps I (m ≫= f).
Proof.
  intros Hm Hf s Hs. specialize (Hm s Hs). unfold mbind, M_bind. destruct (m s) as [s' [a|e]]; [by apply Hf|done].
Qed.

Lemma keeps_lift {A B} (r : result exn A) (f : A → M B) :
  (∀ a, r = Ok a → keeps I (f a)) → keeps I (lift r ≫= f).
Proof. intros Hf s Hs. unfold mbind, M_bind, lift. destruct r as [a|e]; [by apply Hf|done]. Qed.

Lemma keeps_external {A} (r : result string A) : keeps I (external r).
Proof. by intros s. Qed.

Lemma keeps_get {A} (f : st → M A) : (∀ x, keeps I (f x)) → keeps I (get ≫= f).
Proof. intros Hf s Hs. by apply Hf. Qed.

Lemma keeps_try {A} (m : M A) h : keeps I m → (∀ e, keeps I (h e)) → keeps I (try_except m h).
Proof.
  intros Hm Hh s Hs. specialize (Hm s Hs). unfold try_except. destruct (m s) as [s' [a|e]]; [done|by apply Hh].
Qed.

Lemma keeps_raise {A} e : keeps I (raise (A := A) e).
Proof. by intros s. Qed.
End keeps.

Create HintDb keeping.
#[export] Hint Resolve keeps_ret keeps_bind keeps_external keeps_raise keeps_get : keeping.
#[export] Hint Extern 3 (keeps _ (if ?b then _ else _)) => destruct b : keeping.

(** *** Only verified solutions are reported *)
Section runs.
Context (repr : json → string) (float_str : string → option Q) (int_str : string → option Z).
Context (ast_parse : string → option (list bool)) (analyze_code : string → list string).
Context (cfg : config) (degraded : bool) (w : world).

Local Notation verify_round := (verify_round float_str degraded w).
Local Notation static_of := (static_of ast_parse analyze_code).
Local Notation succeed := (succeed repr int_str ast_parse analyze_code cfg w).
Local Notation rounds := (rounds repr float_str int_str ast_parse analyze_code cfg degraded w).
Local Notation think_body := (think_body repr float_str int_str ast_parse analyze_code cfg degraded w).
Local Notation think := (think repr float_str int_str ast_parse analyze_code cfg degraded w).

Definition accepted (g : TaskGraph) (sol : dict) (k : nat) : Prop :=
  (1 ≤ k ≤ max_refinement_attempts cfg)%nat ∧ ∃ vs, verify_round (k - 1) sol g = Ok (true, vs).

(** Every reported solution is accepted. *)
Definition reports_ok (P : dict → nat → Prop) (s : st) : Prop :=
  ∀ sol k v c, ThinkCompleted sol k v c ∈ events s → P sol k ∧ v = static_of sol.

Lemma yield_reports P e : (∀ sol k v c, e = ThinkCompleted sol k v c → P sol k ∧ v = static_of sol) →
  keeps (reports_ok P) (yield e).
Proof.
  intros He s Hs sol k v c Hin. cbn in Hin. apply elem_of_app in Hin as [Hin|Hin]; [eauto|].
  apply list_elem_of_singleton in Hin. symmetry in Hin. eauto.
Qed.

Lemma count_reports P f : keeps (reports_ok P) (count f).
Proof. by intros s Hs. Qed.
Lemma record_outcome_reports P hyp ok vs : keeps (reports_ok P) (record_outcome cfg hyp ok vs).
Proof. unfold record_outcome. destruct (enable_evolution cfg); by intros s Hs. Qed.
Lemma record_round_reports P r : keeps (reports_ok P) (record_round r).
Proof. by intros s Hs. Qed.
Lemma commit_reports P task o n e : keeps (reports_ok P) (_commit_trace cfg w task o n e).
Proof.
  intros s Hs. unfold _commit_trace. destruct (negb _); [done|]. cbv zeta. by destruct (write_trace _ _).
Qed.

Local Hint Resolve count_reports record_outcome_reports record_round_reports commit_reports : keeping.
Local Hint Extern 2 (keeps (reports_ok _) (yield _)) => (apply yield_reports; discriminate) : keeping.

Lemma succeed_reports (P : dict → nat → Prop) task hyp k : P hyp k → keeps (reports_ok P) (succeed task hyp k).
Proof.
  intros HP. unfold NeuroSymbolic.succeed. repeat (apply keeps_bind; [eauto 8 with keeping|intros ?]).
  - apply yield_reports. by intros ???? [= -> -> -> ->].
  - auto with keeping.
Qed.

Lemma rounds_reports (P : dict → nat → Prop) task g n i hyp :
  (∀ sol k, (k < i + n)%nat → (∃ vs, verify_round k sol g = Ok (true, vs)) → P sol (S k)) →
  keeps (reports_ok P) (rounds n i task hyp g).
Proof.
  revert i hyp. induction n as [|n IH]; intros i hyp HP; cbn [NeuroSymbolic.rounds]; [apply keeps_ret|].
  apply keeps_bind; [auto with keeping|intros _]. apply keeps_lift. intros [ok vs] Hv. cbn [fst snd].
  assert (∀ hyp', keeps (reports_ok P) (rounds n (S i) task hyp' g)) as Hnext.
  { intros hyp'. apply IH. intros. apply HP; [lia|done]. }
  apply keeps_bind; [auto with keeping|intros _]. apply keeps_bind; [auto with keeping|intros _].
  destruct ok.
  - apply keeps_bind; [|auto with keeping]. apply succeed_reports. apply HP; [lia|eauto].
  - destruct (_ <? _)%Z; [|auto]. repeat (apply keeps_bind; [auto with keeping|intros ?]). auto.
Qed.

Lemma body_reports (P : dict → nat → Prop) task :
  (∀ g sol k, parse repr float_str task = Ok g → accepted g sol k → P sol k) →
  keeps (reports_ok P) (think_body task).
Proof.
  intros HP. unfold NeuroSymbolic.think_body. apply keeps_bind; [auto with keeping|intros _].
  apply keeps_lift. intros g Hg.
  do 5 (apply keeps_bind; [auto with keeping|intros ?]).
  apply keeps_bind.
  - apply rounds_reports. intros sol k Hk Hv. apply (HP g); [done|]. split; [lia|].
    by replace (S k - 1)%nat with k by lia.
  - intros [[] hyp]; [apply keeps_ret|]. unfold give_up_run. auto 10 with keeping.
Qed.

Lemma think_reports started task t (P : dict → nat → Prop) s :
  model_validate task = Ok t →
  (∀ g sol k, parse repr float_str t = Ok g → accepted g sol k → P sol k) →
  started = true → reports_ok P (think started task s).1.
Proof.
  intros Ht HP ->. unfold NeuroSymbolic.think, mbind, M_bind, lift. cbn [negb]. rewrite Ht.
  apply (keeps_try (reports_ok P)).
  - by apply body_reports.
  - intros e. unfold think_error. auto 10 with keeping.
  - intros sol k v c Hin. by apply elem_of_nil in Hin.
Qed.

(** C5: a solution that [think] reports as completed is one the symbolic engine
    accepted: the task validated and parsed, the reported attempt is within the
    configured bound, the verification of that very solution in that round answered
    valid, and the reported static verdict is the solution's.  This holds for
    whatever the model, the solver, the causal estimator and the disk do. *)
Theorem think_reports_verified started task s s' r sol k v c :
  events s = [] → think started task s = (s', r) → ThinkCompleted sol k v c ∈ events s' →
  ∃ t g, model_validate task = Ok t ∧ parse repr float_str t = Ok g ∧ accepted g sol k ∧ v = static_of sol.
Proof.
  intros H0 E Hin. destruct started.
  2:{ cbn in E. injection E as <- _. rewrite H0 in Hin. by apply elem_of_nil in Hin. }
  destruct (model_validate task) as [t|e] eqn:Ht.
  2:{ unfold NeuroSymbolic.think, mbind, M_bind, lift in E. cbn [negb] in E. rewrite Ht in E.
      injection E as <- _. rewrite H0 in Hin. by apply elem_of_nil in Hin. }
  pose proof (think_reports true task t (λ sol k, ∃ g, parse repr float_str t = Ok g ∧ accepted g sol k) s Ht) as Hr.
  rewrite E in Hr. destruct (Hr ltac:(eauto) eq_refl sol k v c Hin) as [(g & ? & ?) ?]. eauto 6.
Qed.

(** *** Committed traces can be replayed *)
Local Notation replay := (reverify_reasoning_trace repr float_str ast_parse analyze_code degraded).

(** A trace whose final fields are those of a round that was verified. *)
Definition replays (call : solver_call) (tr : ReasoningTrace) : Prop :=
  ∃ v, replay call tr = Ok v ∧ matches v = true.

Definition locals_ok (g : option TaskGraph) (s : st) : Prop :=
  match l_hypothesis s, l_static s, l_valid s with
  | Some h, Some v, Some b => v = static_of h ∧ ∃ g' k, g = Some g' ∧ verify_round k h g' = Ok (b, l_violations s)
  | None, None, None => True
  | _, _, _ => False
  end.

Definition traces_ok (call : solver_call) (old : list ReasoningTrace) (g : option TaskGraph) (s : st) : Prop :=
  (∃ new, traces s = old ++ new ∧ Forall (replays call) new) ∧ locals_ok g s.

Section replaying.
Context (call : solver_call) (old : list ReasoningTrace) (task : dict).
Hypothesis same_solver : ∀ k, solver w k = call.

Lemma locals_replay g s o n e : locals_ok g s → (∀ g', g = Some g' → parse repr float_str task = Ok g') →
  replays call (mkTrace task (trace_rounds s) o n (l_hypothesis s) (l_static s) (l_valid s) (l_violations s) e).
Proof.
  unfold locals_ok, replays, reverify_reasoning_trace. intros Hl Hg. cbn [final_hypothesis final_static_verdict
    final_symbolic_valid final_violations t_task].
  destruct (l_hypothesis s) as [h|], (l_static s) as [v|], (l_valid s) as [b|]; try done; [|by eexists].
  destruct Hl as (-> & g' & k & -> & Hv). rewrite (Hg g' eq_refl).
  unfold NeuroSymbolic.verify_round in Hv. rewrite same_solver in Hv. rewrite Hv. cbn.
  eexists. split; [done|]. cbn. rewrite bool_decide_true by done. by destruct b.
Qed.

Lemma yield_traces g e : keeps (traces_ok call old g) (yield e).
Proof. by intros s Hs. Qed.
Lemma count_traces g f : keeps (traces_ok call old g) (count f).
Proof. by intros s Hs. Qed.
Lemma record_outcome_traces g hyp ok vs : keeps (traces_ok call old g) (record_outcome cfg hyp ok vs).
Proof. unfold record_outcome. destruct (enable_evolution cfg); by intros s Hs. Qed.
Lemma commit_traces g o n e : (∀ g', g = Some g' → parse repr float_str task = Ok g') →
  keeps (traces_ok call old g) (_commit_trace cfg w task o n e).
Proof.
  intros Hg s [(new & Hn & Hf) Hl]. unfold _commit_trace. destruct (negb _); [split; [by exists new|done]|].
  cbv zeta. destruct (write_trace _ _); [split; [by exists new|done]|]. split; [|done].
  exists (new ++ [mkTrace task (trace_rounds s) o n (l_hypothesis s) (l_static s) (l_valid s) (l_violations s) e]).
  cbn. rewrite Hn, app_assoc. split; [done|]. apply Forall_app. split; [done|]. apply Forall_singleton.
  by apply (locals_replay g).
Qed.
Lemma record_round_traces g k hyp b vs : verify_round k hyp g = Ok (b, vs) →
  keeps (traces_ok call old (Some g)) (record_round (mkRound (S k) hyp (static_of hyp) b vs)).
Proof. intros Hv s [Hn _]. split; [done|]. split; [done|]. by exists g, k. Qed.

Local Hint Resolve yield_traces count_traces record_outcome_traces commit_traces : keeping.

Lemma rounds_traces g n i hyp : parse repr float_str task = Ok g →
  keeps (traces_ok call old (Some g)) (rounds n i task hyp g).
Proof.
  intros Hg. assert (∀ g', Some g = Some g' → parse repr float_str task = Ok g') as Hg' by (by intros ? [= <-]).
  revert i hyp. induction n as [|n IH]; intros i hyp; cbn [NeuroSymbolic.rounds]; [apply keeps_ret|].
  apply keeps_bind; [auto with keeping|intros _]. apply keeps_lift. intros [ok vs] Hv. cbn [fst snd].
  apply keeps_bind; [by apply record_round_traces|intros _]. apply keeps_bind; [auto with keeping|intros _].
  destruct ok.
  - apply keeps_bind; [|auto with keeping]. unfold NeuroSymbolic.succeed.
    repeat (apply keeps_bind; [eauto 8 with keeping|intros ?]). auto with keeping.
  - destruct (_ <? _)%Z; [|auto]. repeat (apply keeps_bind; [auto with keeping|intros ?]). auto.
Qed.

Definition parsed : option TaskGraph := match parse repr float_str task with Ok g => Some g | Err _ => None end.

Lemma parsed_spec g' : parsed = Some g' → parse repr float_str task = Ok g'.
Proof. unfold parsed. by destruct (parse _ _ _) as [g|]; intros [= ->]. Qed.

Lemma body_traces : keeps (traces_ok call old parsed) (think_body task).
Proof.
  pose proof parsed_spec as Hp. unfold NeuroSymbolic.think_body. apply keeps_bind; [auto with keeping|intros _].
  apply keeps_lift. intros g Hg. do 5 (apply keeps_bind; [auto with keeping|intros ?]).
  apply keeps_bind.
  - unfold parsed. rewrite Hg. by apply rounds_traces.
  - intros [[] hyp]; [apply keeps_ret|]. unfold give_up_run. auto 10 with keeping.
Qed.
End replaying.

(** every trace file a run commits, of a completed, failed or errored run, is
    reproduced by [reverify_reasoning_trace] without the model: replaying the final
    hypothesis against the recorded task gives the recorded static and symbolic
    verdicts, and [matches] holds, when the solver answers the replay as it answered
    the run. *)
Theorem committed_traces_replay call started task s s' r :
  (∀ k, solver w k = call) → think started task s = (s', r) →
  ∃ new, traces s' = traces s ++ new ∧ Forall (replays call) new.
Proof.
  intros Hs E. assert (∃ new, traces s = traces s ++ new ∧ Forall (replays call) new) as Hnone.
  { exists []. by rewrite app_nil_r. }
  destruct started; [|injection E as <- _; done].
  unfold NeuroSymbolic.think, mbind, M_bind, lift in E. cbn [negb] in E.
  destruct (model_validate task) as [t|e]; [|injection E as <- _; done].
  assert (keeps (traces_ok call (traces s) (parsed t)) (try_except (think_body t) (think_error cfg w t))) as Hk.
  { apply keeps_try; [by apply body_traces|]. intros e. unfold think_error.
    pose proof (parsed_spec t). auto 10 using yield_traces, count_traces, commit_traces with keeping. }
  unfold fresh_locals, modify in E. match type of E with ?m ?s1 = _ => specialize (Hk s1) end.
  rewrite E in Hk. apply Hk. by split.
Qed.

(** *** Counters and terminal events *)
Definition terminal (e : ThinkEvent) : bool :=
  match e with ThinkCompleted _ _ _ _ | ThinkFailed _ _ | ThinkError _ => true | _ => false end.

Definition terminals (s : st) : Z := Z.of_nat (length (List.filter terminal (events s))).

Local Open Scope Z_scope.
(** From [s] to [s'] the counters grew by [a] successes, [b] failures and [c]
    terminal events, and by at most [n] calls of the model, each but [d] of them a
    refinement. *)
Definition grew (s s' : st) (a b c d n : Z) : Prop :=
  tasks_successful (_metrics s') = tasks_successful (_metrics s) + a ∧
  tasks_failed (_metrics s') = tasks_failed (_metrics s) + b ∧
  tasks_processed (_metrics s') = tasks_processed (_metrics s) + a + b ∧
  terminals s' = terminals s + c ∧
  total_llm_calls (_metrics s') - total_refinements (_metrics s') =
    total_llm_calls (_metrics s) - total_refinements (_metrics s) + d ∧
  0 <= total_llm_calls (_metrics s') - total_llm_calls (_metrics s) <= n.

Lemma grew_trans s1 s2 s3 a b c d n a' b' c' d' n' :
  grew s1 s2 a b c d n → grew s2 s3 a' b' c' d' n' → grew s1 s3 (a + a') (b + b') (c + c') (d + d') (n + n').
Proof. unfold grew. lia. Qed.

Lemma grew_mono s1 s2 a b c d n n' : grew s1 s2 a b c d n → n <= n' → grew s1 s2 a b c d n'.
Proof. unfold grew. lia. Qed.

Ltac grow :=
  unfold grew, terminals, count, modify; cbn [fst _metrics events tasks_processed tasks_successful tasks_failed total_refinements
    total_llm_calls add_success add_failure add_llm_call add_refinement traces];
  rewrite ?List.filter_app, ?length_app, ?Nat2Z.inj_add; cbn [List.filter terminal length]; lia.

Lemma yield_grew e s : grew s (yield e s).1 0 0 (if terminal e then 1 else 0) 0 0.
Proof. cbn. destruct (terminal e) eqn:Et; unfold grew, terminals; cbn [events _metrics]; rewrite List.filter_app;
  cbn [List.filter]; rewrite Et, length_app; cbn [length]; lia. Qed.

Lemma commit_grew task o n e s : grew s (_commit_trace cfg w task o n e s).1 0 0 0 0 0.
Proof. unfold _commit_trace. destruct (negb _); [grow|]. cbv zeta. destruct (write_trace _ _); grow. Qed.

Lemma outcome_grew hyp ok vs s : ∃ s', record_outcome cfg hyp ok vs s = (s', Ok ()) ∧ grew s s' 0 0 0 0 0.
Proof. unfold record_outcome. destruct (enable_evolution cfg); eexists; (split; [done|]); grow. Qed.

(** Both ways a computation can end. *)
Definition ends {A} (m : M A) (s : st) (Q : A → st → Prop) (E : st → Prop) : Prop :=
  match m s with (s', Ok a) => Q a s' | (s', Err _) => E s' end.

Lemma ends_bind {A B} (m : M A) (f : A → M B) s Q E :
  ends m s (λ a s', ends (f a) s' Q E) E → ends (m ≫= f) s Q E.
Proof. unfold ends, mbind, M_bind. by destruct (m s) as [s' [a|e]]. Qed.

Lemma ends_yield {B} e (f : () → M B) s a b c d n Q E s0 :
  grew s0 s a b c d n →
  (∀ s', grew s0 s' a b (c + if terminal e then 1 else 0) d n → ends (f ()) s' Q E) →
  ends (yield e ≫= f) s Q E.
Proof.
  intros Hg Hf. apply ends_bind. change (ends (f ()) (yield e s).1 Q E). apply Hf.
  pose proof (grew_trans _ _ _ _ _ _ _ _ _ _ _ _ _ Hg (yield_grew e s)) as Ht. by rewrite !Z.add_0_r in Ht.
Qed.

Lemma ends_commit task o n e s a b c d m s0 (Q : () → st → Prop) (E : st → Prop) :
  grew s0 s a b c d m → (∀ s', grew s0 s' a b c d m → Q () s' ∧ E s') →
  ends (_commit_trace cfg w task o n e) s Q E.
Proof.
  intros Hg Hf. pose proof (grew_trans _ _ _ _ _ _ _ _ _ _ _ _ _ Hg (commit_grew task o n e s)) as Ht.
  rewrite !Z.add_0_r in Ht. unfold ends. destruct (_commit_trace cfg w task o n e s) as [s' [[]|]]; by apply Hf.
Qed.

(** A run of the success branch. *)
Lemma succeed_grew task hyp k s0 s d n : grew s0 s 0 0 0 d n →
  ends (succeed task hyp k) s (λ _ s', grew s0 s' 1 0 1 d n)
    (λ s', grew s0 s' 1 0 0 d n ∨ grew s0 s' 1 0 1 d n).
Proof.
  intros Hg. unfold NeuroSymbolic.succeed. apply ends_bind.
  assert (grew s0 (count add_success s).1 1 0 0 d n) as H1 by (revert Hg; grow).
  change (ends (record_outcome cfg hyp true [] ≫= λ _, (((if enable_causal cfg
            then yield CausalStarted;;
                 a ← external (_run_causal_analysis repr int_str w task);
                 yield (CausalCompleted (length a));;
                 mret a
            else mret []) : M (list json)) ≫= λ causal,
    yield (ThinkCompleted hyp k (static_of hyp) causal);; _commit_trace cfg w task Completed k None))
    (count add_success s).1 (λ _ s', grew s0 s' 1 0 1 d n) (λ s', grew s0 s' 1 0 0 d n ∨ grew s0 s' 1 0 1 d n)).
  revert H1. generalize (count add_success s).1. clear s Hg. intros s Hg. apply ends_bind.
  destruct (outcome_grew hyp true [] s) as (s2 & E2 & H2). unfold ends at 1. rewrite E2.
  pose proof (grew_trans _ _ _ _ _ _ _ _ _ _ _ _ _ Hg H2) as H3. rewrite !Z.add_0_r in H3. clear s Hg E2 H2.
  apply ends_bind.
  assert (∀ s a, grew s0 s 1 0 0 d n →
    ends (yield (ThinkCompleted hyp k (static_of hyp) a);; _commit_trace cfg w task Completed k None) s
      (λ _ s', grew s0 s' 1 0 1 d n) (λ s', grew s0 s' 1 0 0 d n ∨ grew s0 s' 1 0 1 d n)) as Hlast.
  { intros s a Hs. eapply ends_yield; [exact Hs|]. intros s' Hs'. eapply ends_commit; [exact Hs'|]. auto. }
  destruct (enable_causal cfg); [|apply Hlast; done].
  eapply ends_yield; [exact H3|]. intros s4 H4. apply ends_bind. unfold external, lift, ends at 1.
  destruct (_run_causal_analysis repr int_str w task); [|by left].
  eapply ends_yield; [exact H4|]. intros s5 H5. apply Hlast, H5.
Qed.

(** The states an interrupted run can be in. *)
Definition interrupted (s0 : st) (d n : Z) (s : st) : Prop :=
  ∃ a b c, grew s0 s a b c d n ∧ 0 <= a + b <= 1 ∧ 0 <= a ∧ 0 <= b ∧ 0 <= c <= a + b.

Lemma ends_mono {A} (m : M A) s (Q Q' : A → st → Prop) (E E' : st → Prop) :
  ends m s Q E → (∀ a s', Q a s' → Q' a s') → (∀ s', E s' → E' s') → ends m s Q' E'.
Proof. unfold ends. destruct (m s) as [s' [a|e]]; auto. Qed.

Lemma rounds_grew task g n : ∀ i hyp s0 s d m, grew s0 s 0 0 0 d m →
  let m' := m + Z.max 0 (Z.of_nat (max_refinement_attempts cfg) - 1 - Z.of_nat i) in
  ends (rounds n i task hyp g) s
    (λ r s', grew s0 s' (if r.1 : bool then 1 else 0) 0 (if r.1 : bool then 1 else 0) d m') (interrupted s0 d m').
Proof.
  induction n as [|n IH]; intros i hyp s0 s d m Hg m'; cbn [NeuroSymbolic.rounds].
  { eapply grew_mono; [exact Hg|lia]. }
  assert (∀ s', grew s0 s' 0 0 0 d m → interrupted s0 d m' s') as Hstop.
  { intros s' H'. exists 0, 0, 0. split; [|lia]. eapply grew_mono; [exact H'|lia]. }
  eapply ends_yield; [exact Hg|]. intros s1 H1. apply ends_bind. unfold lift, ends at 1.
  destruct (verify_round i hyp g) as [[ok vs]|]; [|by apply Hstop]. cbn [fst snd].
  apply ends_bind. unfold record_round, modify, ends at 1.
  match goal with |- ends _ ?x _ _ => assert (grew s0 x 0 0 0 d m) as H2 by (revert H1; grow); revert H2; generalize x end.
  intros s2 H2. eapply ends_yield; [exact H2|]. intros s3 H3. destruct ok.
  - apply ends_bind. eapply ends_mono; [by apply succeed_grew| |].
    + intros [] s' H'. cbn. eapply grew_mono; [exact H'|lia].
    + intros s' [H'|H']; [exists 1, 0, 0|exists 1, 0, 1]; (split; [eapply grew_mono; [exact H'|lia]|lia]).
  - destruct (_ <? _) eqn:El.
    + eapply ends_yield; [exact H3|]. intros s4 H4. apply ends_bind. unfold external, lift, ends at 1.
      destruct (refine_hypothesis w i hyp vs task) as [hyp'|]; [|by apply Hstop].
      apply ends_bind. unfold count, modify, ends at 1.
      match goal with |- ends _ ?x _ _ =>
        assert (grew s0 x 0 0 0 d (m + 1)) as H5 by (revert H4; grow); revert H5; generalize x end.
      intros s5 H5. eapply ends_yield; [exact H5|]. intros s6 H6. apply Z.ltb_lt in El.
      specialize (IH (S i) hyp' s0 s6 d (m + 1) H6). cbv zeta in IH.
      replace (m + 1 + _) with m' in IH by lia. exact IH.
    + specialize (IH (S i) hyp s0 s3 d m H3). apply Z.ltb_ge in El. cbv zeta in IH.
      replace (m + _) with m' in IH by lia. exact IH.
Qed.

Lemma give_up_grew task hyp s0 s d n : grew s0 s 0 0 0 d n →
  ends (give_up_run cfg w task hyp) s (λ _ s', grew s0 s' 0 1 1 d n) (interrupted s0 d n).
Proof.
  intros Hg. unfold give_up_run. apply ends_bind. unfold count, modify, ends at 1.
  match goal with |- ends _ ?x _ _ => assert (grew s0 x 0 1 0 d n) as H2 by (revert Hg; grow); revert H2; generalize x end.
  clear s Hg. intros s Hg. apply ends_bind. unfold get, ends at 1. apply ends_bind.
  destruct (outcome_grew hyp false (l_violations s) s) as (s2 & E2 & H2). unfold ends at 1. rewrite E2.
  pose proof (grew_trans _ _ _ _ _ _ _ _ _ _ _ _ _ Hg H2) as H3. rewrite !Z.add_0_r in H3.
  eapply ends_yield; [exact H3|]. intros s4 H4. eapply ends_commit; [exact H4|]. intros s' H'. split; [exact H'|].
  exists 0, 1, 1. split; [exact H'|lia].
Qed.

Lemma body_grew task s : (1 ≤ max_refinement_attempts cfg)%nat →
  let n := Z.of_nat (max_refinement_attempts cfg) in
  ends (think_body task) s
    (λ _ s', ∃ a b, grew s s' a b 1 1 n ∧ 0 <= a ∧ 0 <= b ∧ a + b = 1) (λ s', ∃ d, 0 <= d <= 1 ∧ interrupted s d n s').
Proof.
  intros Hm n. assert (grew s s 0 0 0 0 0) as Hg by grow. unfold NeuroSymbolic.think_body.
  assert (∀ s', grew s s' 0 0 0 0 0 → ∃ d, 0 <= d <= 1 ∧ interrupted s d n s') as Hstop.
  { intros s' H'. exists 0. split; [lia|]. exists 0, 0, 0. split; [|lia]. eapply grew_mono; [exact H'|lia]. }
  eapply ends_yield; [exact Hg|]. intros s1 H1. apply ends_bind. unfold lift, ends at 1.
  destruct (parse repr float_str task) as [g|]; [|by apply Hstop].
  eapply ends_yield; [exact H1|]. intros s2 H2. eapply ends_yield; [exact H2|]. intros s3 H3.
  apply ends_bind. unfold external, lift, ends at 1.
  destruct (generate_hypothesis w task) as [hyp|]; [|by apply Hstop].
  apply ends_bind. unfold count, modify, ends at 1.
  match goal with |- ends _ ?x _ _ => assert (grew s x 0 0 0 1 1) as H4 by (revert H3; grow); revert H4; generalize x end.
  intros s4 H4. eapply ends_yield; [exact H4|]. intros s5 H5. apply ends_bind.
  pose proof (rounds_grew task g (max_refinement_attempts cfg) 0 hyp s s5 1 1 H5) as Hr. cbv zeta in Hr.
  replace (1 + _) with n in Hr by lia. eapply ends_mono; [exact Hr| |by intros s' H'; exists 1].
  intros [[] hyp'] s6 H6; cbn [fst snd] in *.
  - exists 1, 0. split; [exact H6|lia].
  - eapply ends_mono; [by apply give_up_grew|by intros ? s' H'; exists 0, 1|by intros s' H'; exists 1].
Qed.

Lemma error_grew task e s : ends (think_error cfg w task e) s (λ _ _, False) (λ s', grew s s' 0 1 1 0 0).
Proof.
  unfold think_error. apply ends_bind. unfold count, modify, ends at 1.
  match goal with |- ends _ ?x _ _ => assert (grew s x 0 1 0 0 0) as H2 by grow; revert H2; generalize x end.
  intros s1 H1. eapply ends_yield; [exact H1|]. intros s2 H2. apply ends_bind. unfold get, ends at 1.
  apply ends_bind. by eapply ends_commit; [exact H2|].
Qed.

(** a run of [think] on a started engine and a valid task keeps the counters
    consistent and bounded whatever the world answers: processed tasks stay the sum
    of successes and failures, the model is called at most
    [max_refinement_attempts] times, a run that ends without an exception counts
    one task and yields exactly one terminal event, and a run that raises has
    counted one or two tasks. *)
Theorem think_counts task t s s' r :
  (1 ≤ max_refinement_attempts cfg)%nat → model_validate task = Ok t → think true task s = (s', r) →
  ∃ a b, 0 <= a ∧ 0 <= b ∧
    tasks_successful (_metrics s') = tasks_successful (_metrics s) + a ∧
    tasks_failed (_metrics s') = tasks_failed (_metrics s) + b ∧
    tasks_processed (_metrics s') = tasks_processed (_metrics s) + (a + b) ∧
    0 <= total_llm_calls (_metrics s') - total_llm_calls (_metrics s) <= Z.of_nat (max_refinement_attempts cfg) ∧
    match r with
    | Ok _ => a + b = 1 ∧ terminals s' = 1
    | Err _ => 1 <= a + b <= 2 ∧ 1 <= b
    end.
Proof.
  intros Hm Ht E. unfold NeuroSymbolic.think, mbind, M_bind, lift in E. cbn [negb] in E. rewrite Ht in E.
  unfold fresh_locals, modify, try_except in E.
  match type of E with context [think_body t ?x] => set (s1 := x) in E end.
  pose proof (body_grew t s1 Hm) as Hb. cbv zeta in Hb. unfold ends in Hb.
  assert (_metrics s1 = _metrics s ∧ terminals s1 = 0) as [Em Et] by done. clearbody s1.
  destruct (think_body t s1) as [s2 [[]|e]].
  - injection E as <- <-. destruct Hb as (a & b & Hg & ? & ? & ?). unfold grew in Hg. rewrite Em, Et in Hg.
    exists a, b. lia.
  - destruct Hb as (d & Hd & a & b & c & Hg & Hab). pose proof (error_grew t e s2) as He. unfold ends in He.
    rewrite E in He. destruct r as [[]|e']; [done|]. unfold grew in *. rewrite Em, Et in Hg.
    exists a, (b + 1). lia.
Qed.
End runs.

(** ** Witnesses *)
Definition demo_task : dict :=
  [("requirements", JArr [JObj [("name", JStr "latency"); ("max", JNum 200)]])]%string.

(** The model first proposes 500, then 120; the solver knows the one bound. *)
Definition demo_check (l : list assertion) : z3_result :=
  if existsb (λ a, match a with EqNum _ q => negb (Qle_bool q 200) | _ => false end) l then unsat else sat.

Definition demo_world (disk : option string) : world :=
  mkWorld (λ _, Ok [("latency", JNum 500)]%string) (λ _ _ _ _, Ok [("latency", JNum 120)]%string)
    (λ _, mkCall false false demo_check) (λ _ _ _ _, Ok []) (λ _, disk).

Definition demo_config : config := mkConfig 3 true false "traces".
Definition demo_state : st := mkSt (mkMetrics 0 0 0 0 0) [] [] [] [] None None None [].

Definition demo_run (disk : option string) : st * result exn () :=
  think (λ _, ""%string) (λ _, None) (λ _, None) (λ _, None) (λ _, []) demo_config false (demo_world disk) true
    demo_task demo_state.

Definition demo_done : st := Eval vm_compute in (demo_run None).1.

Lemma demo_run_ok :
  think (λ _, ""%string) (λ _, None) (λ _, None) (λ _, None) (λ _, []) demo_config false (demo_world None) true
    demo_task demo_state = (demo_done, Ok ()).
Proof. by vm_compute. Qed.

Lemma demo_events : ThinkCompleted [("latency"%string, JNum 120)] 2 no_verdict [] ∈ events demo_done.
Proof. apply list_elem_of_In. vm_compute. tauto. Qed.

Lemma think_reports_verified_witness : ∃ t g,
  model_validate demo_task = Ok t ∧ parse (λ _, ""%string) (λ _, None) t = Ok g ∧
  accepted (λ _, None) demo_config false (demo_world None) g [("latency"%string, JNum 120)] 2 ∧
  no_verdict = static_of (λ _, None) (λ _, []) [("latency"%string, JNum 120)].
Proof.
  exact (think_reports_verified (λ _, ""%string) (λ _, None) (λ _, None) (λ _, None) (λ _, []) demo_config false
    (demo_world None) true demo_task demo_state demo_done (Ok ()) [("latency"%string, JNum 120)] 2 no_verdict []
    eq_refl demo_run_ok demo_events).
Defined.

Lemma demo_solver : ∀ k, solver (demo_world None) k = mkCall false false demo_check.
Proof. done. Qed.

Lemma committed_traces_replay_witness : ∃ new, traces demo_done = traces demo_state ++ new ∧
  Forall (replays (λ _, ""%string) (λ _, None) (λ _, None) (λ _, []) false (mkCall false false demo_check)) new.
Proof.
  exact (committed_traces_replay (λ _, ""%string) (λ _, None) (λ _, None) (λ _, None) (λ _, []) demo_config false
    (demo_world None) (mkCall false false demo_check) true demo_task demo_state demo_done (Ok ()) demo_solver demo_run_ok).
Defined.

Definition demo_valid : dict := Eval vm_compute in
  match model_validate demo_task with Ok t => t | Err _ => [] end.

Lemma demo_validates : model_validate demo_task = Ok demo_valid.
Proof. by vm_compute. Qed.

Lemma demo_attempts : (1 ≤ max_refinement_attempts demo_config)%nat.
Proof. cbn. lia. Qed.

Lemma think_counts_witness : ∃ a b, (0 <= a)%Z ∧ (0 <= b)%Z ∧
  tasks_successful (_metrics demo_done) = (0 + a)%Z ∧ tasks_failed (_metrics demo_done) = (0 + b)%Z ∧
  tasks_processed (_metrics demo_done) = (0 + (a + b))%Z ∧
  (0 <= total_llm_calls (_metrics demo_done) - 0 <= 3)%Z ∧ (a + b = 1)%Z ∧ terminals demo_done = 1%Z.
Proof.
  exact (think_counts (λ _, ""%string) (λ _, None) (λ _, None) (λ _, None) (λ _, []) demo_config false
    (demo_world None) demo_task demo_valid demo_state demo_done (Ok ()) demo_attempts demo_validates demo_run_ok).
Defined.

(** When the trace cannot be written after a verified solution, the same task is
    counted as a success and as a failure, and two terminal events are yielded. *)
Example commit_failure_counts_twice :
  let '(s, r) := demo_run (Some "disk full"%string) in
  r = Err (External "disk full") ∧ _metrics s = mkMetrics 2 1 1 1 2 ∧ terminals s = 2%Z.
Proof. by vm_compute. Qed.

(** ** Starting and stopping *)
(** However often the engine is started and stopped, the pool holds ten solvers
    exactly when Z3 was found at the first start, and none before it. *)
Definition life_ok (l : lifecycle) : Prop :=
  _solver_pool l = (if _initialized l && negb (_degraded l) then 10 else 0)%nat ∧
  (_started l = true → _initialized l = true).

Lemma start_stop_ok z3 l : life_ok l → life_ok (start z3 l) ∧ life_ok (stop l).
Proof.
  intros [Hp Hi]. destruct l as [[] [] [] p [[]|]]; cbn in *; destruct z3; unfold life_ok; cbn; subst;
    repeat split; try done; auto.
Qed.

(** After a restart the batch processor does not run: [start] only looks whether
    there ever was a task. *)
Example restart_has_no_processor : _batch_processor_task (start true (stop (start true created))) = Some false.
Proof. done. Qed.
