(* ===== verification/Hierarchy.v ===== *)
(** * Worker hierarchy ([noema/workers/hierarchy.py])

    [execute] and [execute_batch] over one semaphore, as a transition system: each
    [process] coroutine is a task with the await it stands at, and every step is the
    code from one await to the next.  The callbacks answer through the actions. *)
From Stdlib Require Import ZArith Lia Bool Ascii String.
From stdpp Require Import base option numbers strings list.
From S2P Require Import Prelude.

Inductive HierarchyTaskState := PENDING | DECOMPOSING | RUNNING | COLLECTING | COMPLETED | FAILED.

(** Results: what the executor returns, the exceptions [gather] returns as values,
    the list of the subtasks' results, and the stub without executor. *)
Inductive hval :=
| Val (s : string)
| Exc (e : string)
| Many (l : list hval)
| NoExecutor (description : string).

(** Where the coroutine of a task stands. *)
Inductive loc := AtSemaphore | AtDecomposer | AtExecutor | AtGather | AtAggregator | Finished.
#[global] Instance loc_eq_dec : EqDecision loc.
Proof. solve_decision. Defined.

Record HierarchyTask := mkTask {
  description : string;
  state : HierarchyTaskState;
  result : option hval;
  error : option string;
  subtasks : list nat;            (* positions in the task table *)
  parent_id : option nat;
  depth : nat;
  at_ : loc;
}.

Record hierarchy := mkHier {
  tasks : list HierarchyTask;     (* in order of creation *)
  _semaphore : nat;               (* free permits *)
  _node_counter : nat;
}.

Record settings := mkSettings {
  max_depth : nat;
  max_children : nat;
  max_concurrent : nat;
  decomposer : bool;              (* whether the callback is given *)
  executor : bool;
  aggregator : bool;
}.

(** The checks of [WorkerHierarchy.__init__]. *)
Definition hierarchy_settings (depth children concurrent : Z) (d e a : bool) : Prelude.result pyexn settings :=
  if (depth <? 1)%Z then Err ValueError
  else if (children <? 1)%Z then Err ValueError
  else if (concurrent <? 1)%Z then Err ValueError
  else Ok (mkSettings (Z.to_nat depth) (Z.to_nat children) (Z.to_nat concurrent) d e a).

Section hierarchy.
Context (cfg : settings).

(** A task that enters [process]: it decomposes unless at the maximal depth. *)
Definition enter_process (t : HierarchyTask) : HierarchyTask :=
  if decomposer cfg && (depth t <? max_depth cfg)%nat
  then mkTask (description t) DECOMPOSING (result t) (error t) (subtasks t) (parent_id t) (depth t) AtDecomposer
  else mkTask (description t) RUNNING (result t) (error t) (subtasks t) (parent_id t) (depth t) AtExecutor.

Definition fresh_task (parent : option nat) (d : nat) (desc : string) : HierarchyTask :=
  mkTask desc PENDING None None [] parent d AtSemaphore.

(** The end of [process]. *)
Definition finish (t : HierarchyTask) (r : Prelude.result string hval) : HierarchyTask :=
  match r with
  | Ok v => mkTask (description t) COMPLETED (Some v) (error t) (subtasks t) (parent_id t) (depth t) Finished
  | Err e => mkTask (description t) FAILED (result t) (Some e) (subtasks t) (parent_id t) (depth t) Finished
  end.

(** [gather] returns a subtask's result or its exception. *)
Definition outcome (t : HierarchyTask) : option hval :=
  match at_ t, error t with
  | Finished, Some e => Some (Exc e)
  | Finished, None => result t
  | _, _ => None
  end.

Definition move_to (t : HierarchyTask) (s : HierarchyTaskState) (l : loc) (subs : list nat) : HierarchyTask :=
  mkTask (description t) s (result t) (error t) subs (parent_id t) (depth t) l.

(** Leaving [async with self._semaphore]; the root never entered it. *)
Definition release (t : HierarchyTask) (permits : nat) : nat :=
  match parent_id t with Some _ => S permits | None => permits end.

Inductive action :=
| Acquire (i : nat)
| Decompose (i : nat) (r : Prelude.result string (list string))
| Execute (i : nat) (r : Prelude.result string hval)
| Gather (i : nat)
| Aggregate (i : nat) (r : Prelude.result string hval).

Definition set_task (h : hierarchy) (i : nat) (t : HierarchyTask) : hierarchy :=
  mkHier (<[i := t]> (tasks h)) (_semaphore h) (_node_counter h).

Definition complete (h : hierarchy) (i : nat) (t : HierarchyTask) (r : Prelude.result string hval) : hierarchy :=
  mkHier (<[i := finish t r]> (tasks h)) (release t (_semaphore h)) (_node_counter h).

(** One step; [None] when the action does not apply. *)
Definition fire (h : hierarchy) (a : action) : option hierarchy :=
  match a with
  | Acquire i =>
      match tasks h !! i, _semaphore h with
      | Some t, S permits =>
          if bool_decide (at_ t = AtSemaphore)
          then Some (mkHier (<[i := enter_process t]> (tasks h)) permits (S (_node_counter h)))
          else None
      | _, _ => None
      end
  | Decompose i r =>
      match tasks h !! i with
      | Some t =>
          if bool_decide (at_ t = AtDecomposer) then
            match r with
            | Err e => Some (complete h i t (Err e))
            | Ok [] => Some (set_task h i (move_to t DECOMPOSING AtExecutor (subtasks t)))
            | Ok descs =>
                let children := map (fresh_task (Some i) (S (depth t))) (take (max_children cfg) descs) in
                Some (mkHier (<[i := move_to t COLLECTING AtGather (seq (length (tasks h)) (length children))]>
                                (tasks h) ++ children)
                        (_semaphore h) (_node_counter h))
            end
          else None
      | None => None
      end
  | Execute i r =>
      match tasks h !! i with
      | Some t =>
          if bool_decide (at_ t = AtExecutor)
          then Some (complete h i t (if executor cfg then r else Ok (NoExecutor (description t))))
          else None
      | None => None
      end
  | Gather i =>
      match tasks h !! i with
      | Some t =>
          if bool_decide (at_ t = AtGather) then
            match mapM (λ j, tasks h !! j ≫= outcome) (subtasks t) with
            | Some rs => Some (if aggregator cfg then set_task h i (move_to t COLLECTING AtAggregator (subtasks t))
                               else complete h i t (Ok (Many rs)))
            | None => None
            end
          else None
      | None => None
      end
  | Aggregate i r =>
      match tasks h !! i with
      | Some t => if bool_decide (at_ t = AtAggregator) then Some (complete h i t r) else None
      | None => None
      end
  end.

Definition run (h : hierarchy) (l : list action) : option hierarchy := exec fire h l.

(** [execute_batch] (one description: [execute]): the root coroutines start at once,
    outside the semaphore. *)
Definition execute_batch (descs : list string) : hierarchy :=
  mkHier (map (λ d, enter_process (fresh_task None 0 d)) descs) (max_concurrent cfg) 1.

Definition finished (h : hierarchy) : Prop := ∀ t, t ∈ tasks h → at_ t = Finished.

(** No action applies any more. *)
Definition stuck (h : hierarchy) : Prop := ∀ a, fire h a = None.
End hierarchy.

(** ** The invariant *)
Definition holder (t : HierarchyTask) : bool :=
  match parent_id t with
  | Some _ => negb (bool_decide (at_ t = AtSemaphore) || bool_decide (at_ t = Finished))
  | None => false
  end.

(** The sub-workers that hold a permit. *)
Definition holders (l : list HierarchyTask) : nat := length (List.filter holder l).

Lemma holders_app l k : holders (l ++ k) = (holders l + holders k)%nat.
Proof. unfold holders. by rewrite List.filter_app, length_app. Qed.

Lemma holders_insert l i t t' : l !! i = Some t →
  (holders (<[i := t']> l) + Nat.b2n (holder t) = holders l + Nat.b2n (holder t'))%nat.
Proof.
  revert i. induction l as [|x l IH]; intros [|i] E; try done.
  - injection E as ->. unfold holders. cbn. destruct (holder t), (holder t'); cbn; lia.
  - specialize (IH i E). change (<[S i := t']> (x :: l)) with (x :: <[i := t']> l). unfold holders in *.
    cbn [List.filter]. destruct (holder x); cbn [length]; lia.
Qed.

Lemma holder_finish t r : holder (finish t r) = false.
Proof. unfold holder. by destruct r; cbn; destruct (parent_id t). Qed.

Lemma holder_busy t : at_ t ≠ Finished → at_ t ≠ AtSemaphore →
  holder t = match parent_id t with Some _ => true | None => false end.
Proof. intros. unfold holder. rewrite !bool_decide_false by done. done. Qed.

Section invariant.
Context (cfg : settings).

Record task_ok (t : HierarchyTask) : Prop := {
  ok_depth : (depth t <= max_depth cfg)%nat;
  ok_decomposer : at_ t = AtDecomposer → decomposer cfg = true ∧ (depth t < max_depth cfg)%nat;
  ok_gather : at_ t = AtGather ∨ at_ t = AtAggregator → (depth t < max_depth cfg)%nat;
  ok_children : (length (subtasks t) <= max_children cfg)%nat;
  ok_semaphore : at_ t = AtSemaphore → parent_id t ≠ None;
  ok_fresh : at_ t = AtSemaphore ∨ at_ t = AtDecomposer → subtasks t = [];
  ok_below : parent_id t ≠ None → (1 <= depth t)%nat;
  ok_open : at_ t ≠ Finished → error t = None;
  ok_result : at_ t = Finished → is_Some (outcome t);
}.

Definition links_ok (l : list HierarchyTask) : Prop := ∀ i t j, l !! i = Some t → j ∈ subtasks t →
  (i < j)%nat ∧ ∃ c, l !! j = Some c ∧ parent_id c = Some i ∧ depth c = S (depth t).

Record hinv (h : hierarchy) : Prop := {
  inv_permits : (_semaphore h + holders (tasks h) = max_concurrent cfg)%nat;
  inv_tasks : Forall task_ok (tasks h);
  inv_links : links_ok (tasks h);
}.

Lemma hinv_task h i t : hinv h → tasks h !! i = Some t → task_ok t.
Proof. intros Hh E. eapply Forall_lookup_1; [apply Hh|done]. Qed.

(** Changing a task in place keeps the links. *)
Lemma links_insert l i t t' : links_ok l → l !! i = Some t →
  depth t' = depth t → parent_id t' = parent_id t → subtasks t' = subtasks t → links_ok (<[i := t']> l).
Proof.
  intros Hl Hi Hd Hp Hs k u j Hk Hj.
  assert (∃ u0, l !! k = Some u0 ∧ depth u0 = depth u ∧ subtasks u0 = subtasks u) as (u0 & Hu0 & Hdu & Hsu).
  { apply list_lookup_insert_Some in Hk as [(<- & <- & _)|[_ Hk]]; eauto 6. }
  rewrite <- Hsu in Hj. destruct (Hl k u0 j Hu0 Hj) as (? & c & Hc & Hpc & Hdc). split; [done|].
  rewrite <- Hdu. destruct (decide (i = j)) as [->|Hne].
  - exists t'. rewrite list_lookup_insert_eq by (by eapply lookup_lt_Some). simplify_eq. split; [done|].
    split; congruence.
  - exists c. by rewrite list_lookup_insert_ne.
Qed.

Lemma hinv_update h i t t' permits n : hinv h → tasks h !! i = Some t →
  depth t' = depth t → parent_id t' = parent_id t → subtasks t' = subtasks t → task_ok t' →
  (permits + Nat.b2n (holder t') = _semaphore h + Nat.b2n (holder t))%nat →
  hinv (mkHier (<[i := t']> (tasks h)) permits n).
Proof.
  intros [Hp Ht Hl] E Hd Hpar Hs Hok Hperm. split; cbn [tasks _semaphore].
  - pose proof (holders_insert _ _ _ t' E). lia.
  - by apply Forall_insert.
  - by eapply links_insert.
Qed.

Lemma enter_ok t : task_ok t → at_ t = AtSemaphore → task_ok (enter_process cfg t).
Proof.
  intros [] E. unfold enter_process. assert (error t = None) by (apply ok_open0; congruence).
  destruct (decomposer cfg && _) eqn:Ed; split; cbn; try done; try (by intros [?|?]); try (intros _; by auto).
  apply andb_true_iff in Ed as [? ?%Nat.ltb_lt]. done.
Qed.

Lemma finish_ok t r : task_ok t → at_ t ≠ Finished → task_ok (finish t r).
Proof.
  intros [] E. assert (error t = None) as He by auto. destruct r; split; cbn; try done; try (by intros [?|?]).
  unfold outcome. cbn. by rewrite He.
Qed.

Lemma complete_inv h i t r : hinv h → tasks h !! i = Some t → at_ t ≠ Finished → at_ t ≠ AtSemaphore →
  hinv (complete h i t r).
Proof.
  intros Hh E Hf Hs. eapply hinv_update; [done|done|by destruct r..| |].
  - apply finish_ok; [by eapply hinv_task|done].
  - rewrite holder_finish, holder_busy by done. unfold release. destruct (parent_id t); cbn; lia.
Qed.

Lemma move_ok t s l : task_ok t → at_ t ≠ Finished →
  l = AtExecutor ∨ l = AtAggregator ∧ (depth t < max_depth cfg)%nat → task_ok (move_to t s l (subtasks t)).
Proof. intros [] E [->|[-> ?]]; split; cbn; try done; try (by intros [?|?]); auto. Qed.

(** Spawning the subtasks of a decomposition. *)
Lemma spawn_inv h i t descs n : hinv h → tasks h !! i = Some t → at_ t = AtDecomposer →
  let children := map (fresh_task (Some i) (S (depth t))) (take (max_children cfg) descs) in
  hinv (mkHier (<[i := move_to t COLLECTING AtGather (seq (length (tasks h)) (length children))]> (tasks h) ++ children)
          (_semaphore h) n).
Proof.
  intros Hh E Ha children. pose proof (hinv_task _ _ _ Hh E) as Hok. destruct Hh as [Hp Ht Hl].
  destruct (ok_decomposer _ Hok Ha) as [_ Hd].
  assert (length children <= max_children cfg)%nat as Hc by (unfold children; rewrite length_map, length_take; lia).
  set (t' := move_to t COLLECTING AtGather (seq (length (tasks h)) (length children))).
  pose proof (lookup_lt_Some _ _ _ E) as Hi.
  split; cbn [tasks _semaphore].
  - rewrite holders_app. pose proof (holders_insert _ _ _ t' E) as Hho.
    rewrite (holder_busy t), (holder_busy t') in Hho by (cbn; congruence).
    assert (holders children = 0%nat) as ->.
    { unfold children. generalize (take (max_children cfg) descs). intros l. induction l as [|x l IH]; [done|].
      unfold holders in *. cbn. exact IH. }
    change (parent_id t') with (parent_id t) in Hho. destruct (parent_id t); cbn in Hho; lia.
  - apply Forall_app. split.
    + apply Forall_insert; [done|]. pose proof (ok_open _ Hok) as Ho. destruct Hok. split; cbn; try done.
      * by rewrite length_seq.
      * by intros [?|?].
      * intros _. apply Ho. congruence.
    + apply Forall_forall. intros c (x & -> & _)%list_elem_of_fmap. split; cbn; try done; try lia; try (by intros [?|?]).
  - intros k u j Hk Hj. apply lookup_app_Some in Hk as [Hk|[Hlen Hk]].
    + apply list_lookup_insert_Some in Hk as [(<- & <- & _)|[Hne Hk]].
      * cbn in Hj. apply elem_of_seq in Hj as [Hj1 Hj2]. split; [lia|].
        assert (j - length (tasks h) < length children)%nat as Hjc by lia.
        apply lookup_lt_is_Some_2 in Hjc as [c Hcj]. exists c. rewrite lookup_app_r by (rewrite length_insert; lia).
        rewrite length_insert. split; [done|]. apply list_elem_of_lookup_2 in Hcj.
        apply list_elem_of_fmap in Hcj as (x & -> & _). done.
      * destruct (Hl k u j Hk Hj) as (Hkj & c & Hcj & Hpc & Hdc). split; [done|].
        pose proof (lookup_lt_Some _ _ _ Hcj) as Hjl. rewrite lookup_app_l by (by rewrite length_insert).
        destruct (decide (i = j)) as [->|Hij].
        -- exists t'. rewrite list_lookup_insert_eq by done. simplify_eq. done.
        -- exists c. by rewrite list_lookup_insert_ne.
    + apply list_elem_of_lookup_2 in Hk. apply list_elem_of_fmap in Hk as (x & -> & _). by apply elem_of_nil in Hj.
Qed.

Lemma fire_hinv h a h' : hinv h → fire cfg h a = Some h' → hinv h'.
Proof.
  intros Hh Hf. destruct a as [i|i r|i r|i|i r]; cbn [fire] in Hf; destruct (tasks h !! i) as [t|] eqn:E; try done;
    pose proof (hinv_task _ _ _ Hh E) as Hok.
  - destruct (_semaphore h) as [|permits] eqn:Ep; [done|]. case_bool_decide as Ha; [|done]. injection Hf as <-.
    eapply hinv_update; [done|done| | | |by apply enter_ok|].
    1-3: unfold enter_process; by destruct (_ && _).
    assert (holder t = false) as -> by (unfold holder; rewrite Ha; by destruct (parent_id t)).
    pose proof (ok_semaphore _ Hok Ha) as Hpar.
    assert (parent_id (enter_process cfg t) = parent_id t) as Ee by (unfold enter_process; by destruct (_ && _)).
    rewrite holder_busy by (unfold enter_process; by destruct (_ && _)). rewrite Ee, Ep.
    destruct (parent_id t); [cbn; lia|done].
  - case_bool_decide as Ha; [|done]. destruct r as [[|d descs]|e].
    + injection Hf as <-. eapply hinv_update; [done|done|done|done|done| |].
      * apply move_ok; [done|congruence|by left].
      * rewrite !holder_busy by (cbn; congruence). done.
    + injection Hf as <-. by apply spawn_inv.
    + injection Hf as <-. apply complete_inv; [done|done|congruence..].
  - case_bool_decide as Ha; [|done]. injection Hf as <-. apply complete_inv; [done|done|congruence..].
  - case_bool_decide as Ha; [|done]. destruct (mapM _ _) as [rs|]; [|done]. injection Hf as <-.
    destruct (aggregator cfg); [|apply complete_inv; [done|done|congruence..]].
    eapply hinv_update; [done|done|done|done|done| |].
    + apply move_ok; [done|congruence|]. right. split; [done|]. apply (ok_gather _ Hok). by left.
    + rewrite !holder_busy by (cbn; congruence). done.
  - case_bool_decide as Ha; [|done]. injection Hf as <-. apply complete_inv; [done|done|congruence..].
Qed.

Lemma batch_hinv descs : hinv (execute_batch cfg descs).
Proof.
  assert (∀ d, let t := enter_process cfg (fresh_task None 0 d) in
    task_ok t ∧ holder t = false ∧ subtasks t = []) as Hroot.
  { intros d. unfold enter_process. cbn [depth fresh_task]. destruct (decomposer cfg && _) eqn:Ed; cbn.
    - apply andb_true_iff in Ed as [? ?%Nat.ltb_lt].
      split_and!; [|done|done]. split; cbn; try done; try lia; try (by intros [?|?]); try apply Nat.le_0_l.
    - split_and!; [|done|done]. split; cbn; try done; try lia; try (by intros [?|?]); try apply Nat.le_0_l. }
  split; cbn [tasks _semaphore execute_batch].
  - assert (holders (map (λ d, enter_process cfg (fresh_task None 0 d)) descs) = 0%nat) as ->; [|lia].
    unfold holders. induction descs as [|d descs IH]; [done|]. cbn [map List.filter].
    by rewrite (proj1 (proj2 (Hroot d))).
  - apply Forall_forall. intros t (d & -> & _)%list_elem_of_fmap. apply Hroot.
  - intros i t j Hi Hj. apply list_elem_of_lookup_2 in Hi. apply list_elem_of_fmap in Hi as (d & -> & _).
    rewrite (proj2 (proj2 (Hroot d))) in Hj. by apply elem_of_nil in Hj.
Qed.

Lemma run_hinv l h h' : hinv h → run cfg h l = Some h' → hinv h'.
Proof.
  apply (exec_invariant (fire cfg) hinv (λ _, True)); [|apply Forall_true_all]. intros s a s' Hs _. by apply fire_hinv.
Qed.
End invariant.

(** in every interleaving at most [max_concurrent] sub-workers are in flight,
    exactly the permits that are taken; no task lies deeper than [max_depth] or has
    more than [max_children] subtasks; and every subtask knows its parent and is one
    level below it. *)
Theorem hierarchy_bounded cfg descs l h : run cfg (execute_batch cfg descs) l = Some h →
  (_semaphore h + holders (tasks h) = max_concurrent cfg)%nat ∧
  (∀ t, t ∈ tasks h → (depth t <= max_depth cfg)%nat ∧ (length (subtasks t) <= max_children cfg)%nat) ∧
  links_ok (tasks h).
Proof.
  intros Hr. destruct (run_hinv cfg l _ _ (batch_hinv cfg descs) Hr) as [Hp Ht Hl]. split_and!; [done| |done].
  intros t Hin. rewrite Forall_forall in Ht. destruct (Ht t Hin). done.
Qed.

Lemma hierarchy_bounded_witness :
  (1 + holders (tasks (default (mkHier [] 0 0)
        (run (mkSettings 2 3 2 true true false) (execute_batch (mkSettings 2 3 2 true true false) ["job"%string])
           [Decompose 0 (Ok ["a"; "b"; "c"]%string); Acquire 2]))) = 2)%nat.
Proof.
  exact (proj1 (hierarchy_bounded (mkSettings 2 3 2 true true false) ["job"%string]
    [Decompose 0 (Ok ["a"; "b"; "c"]%string); Acquire 2]
    (default (mkHier [] 0 0)
        (run (mkSettings 2 3 2 true true false) (execute_batch (mkSettings 2 3 2 true true false) ["job"%string])
           [Decompose 0 (Ok ["a"; "b"; "c"]%string); Acquire 2])) eq_refl)).
Defined.

(** ** Termination *)
Section termination.
Context (cfg : settings).

(** The steps a task can still cause when [r] levels may be added below it. *)
Fixpoint cost (r : nat) : nat :=
  match r with O => 1 | S r => 3 + max_children cfg * (1 + cost r) end.

Definition rank (t : HierarchyTask) : nat :=
  match at_ t with
  | AtSemaphore => 1 + cost (max_depth cfg - depth t)
  | AtDecomposer => cost (max_depth cfg - depth t)
  | AtExecutor => 1
  | AtGather => 2
  | AtAggregator => 1
  | Finished => 0
  end.

Definition total (l : list HierarchyTask) : nat := sum_list (map rank l).

Lemma cost_pos r : (1 <= cost r)%nat.
Proof. destruct r; cbn; lia. Qed.

Lemma total_app l k : total (l ++ k) = (total l + total k)%nat.
Proof. unfold total. by rewrite map_app, sum_list_with_app. Qed.

Lemma total_insert l i t t' : l !! i = Some t → (total (<[i := t']> l) + rank t = total l + rank t')%nat.
Proof.
  revert i. induction l as [|x l IH]; intros [|i] E; try done.
  - injection E as ->. unfold total. cbn. lia.
  - specialize (IH i E). change (<[S i := t']> (x :: l)) with (x :: <[i := t']> l). unfold total in *. cbn in *. lia.
Qed.

Lemma complete_total h i t r : tasks h !! i = Some t → (1 <= rank t)%nat →
  (total (tasks (complete h i t r)) < total (tasks h))%nat.
Proof.
  intros E Hr. unfold complete. cbn [tasks]. pose proof (total_insert _ _ _ (finish t r) E).
  assert (rank (finish t r) = 0%nat) by (by destruct r). lia.
Qed.

Lemma enter_rank t : (rank (enter_process cfg t) <= cost (max_depth cfg - depth t))%nat.
Proof. unfold enter_process. destruct (_ && _); unfold rank; cbn [at_ depth]; [done|apply cost_pos]. Qed.

Lemma spawn_total i d l : total (map (fresh_task (Some i) d) l) = (length l * (1 + cost (max_depth cfg - d)))%nat.
Proof.
  induction l as [|x l IH]; [done|].
  change (total (map (fresh_task (Some i) d) (x :: l))) with
    (1 + cost (max_depth cfg - d) + total (map (fresh_task (Some i) d) l))%nat. rewrite IH. cbn [length]. lia.
Qed.

Lemma fire_total h a h' : hinv cfg h → fire cfg h a = Some h' → (total (tasks h') < total (tasks h))%nat.
Proof.
  intros Hh Hf. destruct a as [i|i r|i r|i|i r]; cbn [fire] in Hf; destruct (tasks h !! i) as [t|] eqn:E; try done;
    pose proof (hinv_task _ _ _ _ Hh E) as Hok.
  - destruct (_semaphore h); [done|]. case_bool_decide as Ha; [|done]. injection Hf as <-. cbn [tasks].
    pose proof (total_insert _ _ _ (enter_process cfg t) E). pose proof (enter_rank t).
    assert (rank t = S (cost (max_depth cfg - depth t))) by (unfold rank; by rewrite Ha). lia.
  - case_bool_decide as Ha; [|done]. destruct (ok_decomposer _ _ Hok Ha) as [_ Hd].
    assert (rank t = (3 + max_children cfg * (1 + cost (max_depth cfg - S (depth t))))%nat) as Hr.
    { unfold rank. rewrite Ha. replace (max_depth cfg - depth t)%nat with (S (max_depth cfg - S (depth t))) by lia. done. }
    destruct r as [[|d descs]|e].
    + injection Hf as <-. cbn [tasks set_task].
      pose proof (total_insert _ _ _ (move_to t DECOMPOSING AtExecutor (subtasks t)) E) as Ht. cbn [rank at_ move_to] in Ht. lia.
    + injection Hf as <-. cbn [tasks]. rewrite total_app, spawn_total.
      match goal with |- context [<[i := ?x]> _] => pose proof (total_insert _ _ _ x E) as Ht end.
      cbn [rank at_ move_to] in Ht. rewrite length_take. nia.
    + injection Hf as <-. apply complete_total; [done|]. rewrite Hr. lia.
  - case_bool_decide as Ha; [|done]. injection Hf as <-. apply complete_total; [done|]. unfold rank. by rewrite Ha.
  - case_bool_decide as Ha; [|done]. destruct (mapM _ _) as [rs|]; [|done]. injection Hf as <-.
    destruct (aggregator cfg); [|apply complete_total; [done|]; unfold rank; rewrite Ha; lia].
    cbn [tasks set_task]. pose proof (total_insert _ _ _ (move_to t COLLECTING AtAggregator (subtasks t)) E) as Ht.
    cbn [rank at_ move_to] in Ht. assert (rank t = 2%nat) by (unfold rank; by rewrite Ha). lia.
  - case_bool_decide as Ha; [|done]. injection Hf as <-. apply complete_total; [done|]. unfold rank. by rewrite Ha.
Qed.

Lemma run_total l h h' : hinv cfg h → run cfg h l = Some h' → (length l + total (tasks h') <= total (tasks h))%nat.
Proof.
  apply (exec_bound (fire cfg) (hinv cfg) (λ h, total (tasks h))). intros s a s' Hs E.
  split; [by eapply fire_hinv|by eapply fire_total].
Qed.
End termination.

(** a batch always comes to rest: whatever the callbacks answer and in
    whatever order the coroutines run, it takes at most [cost max_depth] steps per
    root task, a number fixed by [max_depth] and [max_children]. *)
Theorem hierarchy_terminates cfg descs l h : run cfg (execute_batch cfg descs) l = Some h →
  (length l <= length descs * cost cfg (max_depth cfg))%nat.
Proof.
  intros Hr. pose proof (run_total cfg l _ _ (batch_hinv cfg descs) Hr) as Ht.
  assert (total cfg (tasks (execute_batch cfg descs)) <= length descs * cost cfg (max_depth cfg))%nat; [|lia].
  cbn [tasks execute_batch]. clear Hr Ht. induction descs as [|d descs IH]; [done|]. unfold total in *. cbn [map length].
  pose proof (enter_rank cfg (fresh_task None 0 d)) as He. cbn [depth fresh_task] in He. rewrite Nat.sub_0_r in He.
  cbn [sum_list_with] in *. unfold id at 1. lia.
Qed.

Lemma hierarchy_terminates_witness : (2 <= 1 * 33)%nat.
Proof.
  exact (hierarchy_terminates (mkSettings 2 3 2 true true false) ["job"%string]
    [Decompose 0 (Ok ["a"; "b"; "c"]%string); Acquire 2]
    (default (mkHier [] 0 0)
        (run (mkSettings 2 3 2 true true false) (execute_batch (mkSettings 2 3 2 true true false) ["job"%string])
           [Decompose 0 (Ok ["a"; "b"; "c"]%string); Acquire 2])) eq_refl).
Defined.

(** ** Deadlock *)
Section deadlock.
Context (cfg : settings).
Hypothesis Hdec : decomposer cfg = true.

(** The waiting subtasks take the permits one after the other. *)
Lemma acquire_all t n : at_ t = AtSemaphore → ∀ pre post m c, ∃ c',
  run cfg (mkHier (pre ++ replicate n t ++ post) (n + m) c) (map Acquire (seq (length pre) n)) =
    Some (mkHier (pre ++ replicate n (enter_process cfg t) ++ post) m c').
Proof.
  intros Ha. induction n as [|n IH]; intros pre post m c; [by exists c|]. cbn [seq map]. unfold run. cbn [exec].
  assert (fire cfg (mkHier (pre ++ replicate (S n) t ++ post) (S n + m) c) (Acquire (length pre)) =
    Some (mkHier ((pre ++ [enter_process cfg t]) ++ replicate n t ++ post) (n + m) (S c))) as ->.
  { change (replicate (S n) t ++ post) with (t :: replicate n t ++ post).
    cbn [fire tasks _semaphore Nat.add _node_counter]. rewrite list_lookup_middle by done. rewrite bool_decide_true by done.
    rewrite insert_app_r_alt, Nat.sub_diag by lia. cbn. by rewrite <- app_assoc. }
  destruct (IH (pre ++ [enter_process cfg t]) post m (S c)) as (c' & IH'). exists c'.
  rewrite length_app, Nat.add_1_r in IH'. unfold run in IH'. rewrite IH'. by rewrite <- app_assoc.
Qed.

(** Each of them asks for one more subtask. *)
Lemma decompose_all t n d : at_ t = AtDecomposer → (1 <= max_children cfg)%nat → ∀ pre post c, ∃ ms ls,
  run cfg (mkHier (pre ++ replicate n t ++ post) 0 c) (map (λ i, Decompose i (Ok [d])) (seq (length pre) n)) =
    Some (mkHier (pre ++ ms ++ post ++ ls) 0 c) ∧ length ms = n ∧
  Forall (λ u, at_ u = AtGather ∧ ∃ j, subtasks u = [j] ∧ (length pre + n + length post <= j)%nat) ms ∧
  Forall (λ u, at_ u = AtSemaphore) ls.
Proof.
  intros Ha Hm. induction n as [|n IH]; intros pre post c.
  { exists [], []. cbn. rewrite app_nil_r. done. }
  cbn [seq map]. unfold run. cbn [exec].
  set (mid := move_to t COLLECTING AtGather [(length pre + (S n + length post))%nat]).
  set (leaf := fresh_task (Some (length pre)) (S (depth t)) d).
  assert (fire cfg (mkHier (pre ++ replicate (S n) t ++ post) 0 c) (Decompose (length pre) (Ok [d])) =
    Some (mkHier ((pre ++ [mid]) ++ replicate n t ++ post ++ [leaf]) 0 c)) as ->.
  { change (replicate (S n) t ++ post) with (t :: replicate n t ++ post).
    cbn [fire tasks]. rewrite list_lookup_middle by done. rewrite bool_decide_true by done.
    destruct (max_children cfg) as [|k]; [lia|]. cbn [take]. rewrite take_nil.
    cbn [map length seq _semaphore _node_counter].
    rewrite insert_app_r_alt, Nat.sub_diag by lia.
    rewrite length_app. cbn [length]. rewrite length_app, length_replicate.
    change (S (n + length post)) with (S n + length post)%nat.
    rewrite <- !app_assoc. cbn. by rewrite <- app_assoc. }
  destruct (IH (pre ++ [mid]) (post ++ [leaf]) c) as (ms & ls & Hr & Hl & Hms & Hls).
  rewrite length_app, Nat.add_1_r in Hr. exists (mid :: ms), (leaf :: ls). split_and!.
  - unfold run in Hr. rewrite Hr. by rewrite <- !app_assoc.
  - cbn. by rewrite Hl.
  - constructor.
    + split; [done|]. eexists. split; [done|]. lia.
    + eapply Forall_impl; [exact Hms|]. intros u (? & j & ? & Hj). rewrite !length_app in Hj. cbn in Hj.
      split; [done|]. exists j. split; [done|lia].
  - by constructor.
Qed.

(** A run in which nobody can go on: no permit is free and every task waits for a
    permit or for an unfinished subtask. *)
Lemma waiting_stuck h : _semaphore h = 0%nat →
  (∀ t, t ∈ tasks h → at_ t = AtSemaphore ∨
     at_ t = AtGather ∧ ∃ j js, subtasks t = j :: js ∧ ∀ u, tasks h !! j = Some u → at_ u ≠ Finished) →
  stuck cfg h.
Proof.
  intros H0 Hw a. destruct a as [i|i r|i r|i|i r]; cbn [fire]; destruct (tasks h !! i) as [t|] eqn:E; try done;
    [by rewrite H0|..]; destruct (Hw t (list_elem_of_lookup_2 _ _ _ E)) as [Ha|(Ha & j & js & Hs & Hj)]; rewrite Ha; try done.
  cbn. rewrite Hs. cbn [mapM]. destruct (tasks h !! j) as [u|] eqn:Eu; [|done]. specialize (Hj u eq_refl).
  cbn. unfold outcome. by destruct (at_ u).
Qed.

Lemma first_decomposition k desc : max_concurrent cfg = S k → (S k <= max_children cfg)%nat → (1 <= max_depth cfg)%nat →
  fire cfg (execute_batch cfg [desc]) (Decompose 0 (Ok (replicate (S k) desc))) =
    Some (mkHier ([move_to (enter_process cfg (fresh_task None 0 desc)) COLLECTING AtGather (seq 1 (S k))] ++
                  replicate (S k) (fresh_task (Some 0%nat) 1 desc) ++ []) (S k + 0) 1).
Proof.
  intros Hk Hc Hd. unfold execute_batch. rewrite Hk, app_nil_r, Nat.add_0_r.
  assert (at_ (enter_process cfg (fresh_task None 0 desc)) = AtDecomposer) as Ha.
  { unfold enter_process. rewrite Hdec. cbn [depth fresh_task andb]. by destruct (Nat.ltb_spec 0 (max_depth cfg)); [|lia]. }
  assert (depth (enter_process cfg (fresh_task None 0 desc)) = 0%nat) as Hdep.
  { unfold enter_process. by destruct (_ && _). }
  cbn [map fire tasks lookup list_lookup]. rewrite bool_decide_true by done.
  change (replicate (S k) desc) with (desc :: replicate k desc) at 1. cbv iota zeta.
  rewrite take_ge by (rewrite length_replicate; lia). rewrite Hdep.
  assert (∀ n, map (fresh_task (Some 0%nat) 1) (replicate n desc) = replicate n (fresh_task (Some 0%nat) 1 desc)) as ->.
  { intros n. induction n as [|n IH]; [done|]. cbn. by rewrite IH. }
  rewrite length_replicate. done.
Qed.

Lemma deadlock_reached desc : (1 <= max_concurrent cfg <= max_children cfg)%nat → (2 <= max_depth cfg)%nat →
  ∃ l h, run cfg (execute_batch cfg [desc]) l = Some h ∧ stuck cfg h ∧ ¬ finished h.
Proof.
  intros [Hk Hc] Hd. destruct (max_concurrent cfg) as [|k] eqn:Ek; [lia|].
  set (root := move_to (enter_process cfg (fresh_task None 0 desc)) COLLECTING AtGather (seq 1 (S k))).
  set (child := fresh_task (Some 0%nat) 1 desc).
  pose proof (first_decomposition k desc Ek Hc ltac:(lia)) as H1. fold root child in H1.
  destruct (acquire_all child (S k) eq_refl [root] [] 0 1) as (c & H2).
  assert (at_ (enter_process cfg child) = AtDecomposer) as Ha.
  { unfold enter_process. rewrite Hdec. cbn [depth child fresh_task andb]. by destruct (Nat.ltb_spec 1 (max_depth cfg)); [|lia]. }
  destruct (decompose_all (enter_process cfg child) (S k) desc Ha ltac:(lia) [root] [] c) as (ms & ls & H3 & Hlen & Hms & Hls).
  exists (Decompose 0 (Ok (replicate (S k) desc)) ::
      map Acquire (seq (length [root]) (S k)) ++ map (λ i, Decompose i (Ok [desc])) (seq (length [root]) (S k))).
  eexists. split_and!.
  - unfold run in *. cbn [exec]. rewrite H1, exec_app, H2. exact H3.
  - apply waiting_stuck; [done|]. cbn [tasks]. intros t [Ht|[Ht|Ht]%elem_of_app]%elem_of_app.
    + apply list_elem_of_singleton in Ht as ->. right. split; [done|]. exists 1%nat, (seq 2 k). split; [done|].
      intros u Hu. change (([root] ++ ms ++ [] ++ ls) !! 1%nat) with ((ms ++ [] ++ ls) !! 0%nat) in Hu.
      destruct ms as [|m ms]; [done|]. injection Hu as <-. apply Forall_cons in Hms as [[-> _] _]. done.
    + rewrite Forall_forall in Hms. destruct (Hms t Ht) as (? & j & Hj & Hle). right. split; [done|]. exists j, [].
      split; [done|]. intros u Hu. cbn [length] in Hle. rewrite lookup_app_r in Hu by (cbn; lia).
      rewrite lookup_app_r in Hu by (rewrite Hlen; cbn; lia). cbn [app] in Hu.
      rewrite Forall_forall in Hls. rewrite (Hls u); [done|]. by eapply list_elem_of_lookup_2.
    + left. rewrite Forall_forall in Hls. by apply Hls.
  - intros Hf. discriminate (Hf root (list_elem_of_here _ _)).
Qed.
End deadlock.

(** the hierarchy can hang: for every configuration with a decomposer, a
    [max_depth] of at least 2 and no fewer [max_children] than [max_concurrent]
    permits, a task whose parts are split once more has a run that ends with all
    permits held by tasks waiting for subtasks that wait for a permit; no coroutine
    can continue, and [execute] never returns. *)
Theorem hierarchy_can_deadlock cfg desc : decomposer cfg = true →
  (1 <= max_concurrent cfg <= max_children cfg)%nat → (2 <= max_depth cfg)%nat →
  ∃ l h, run cfg (execute_batch cfg [desc]) l = Some h ∧ stuck cfg h ∧ ¬ finished h.
Proof. intros. by apply deadlock_reached. Qed.

(** The default limits of [WorkerHierarchy]. *)
Definition default_settings : settings := mkSettings 10 100 50 true true true.

Lemma hierarchy_can_deadlock_witness : ∃ l h,
  run default_settings (execute_batch default_settings ["build"%string]) l = Some h ∧
  stuck default_settings h ∧ ¬ finished h.
Proof. apply (hierarchy_can_deadlock default_settings "build"); cbn; lia || reflexivity. Defined.

(** ** Progress with one level of decomposition *)
Lemma mapM_all_Some {A B} (f : A → option B) l : (∀ x, x ∈ l → is_Some (f x)) → is_Some (mapM f l).
Proof. intros Hl. apply mapM_is_Some. by apply Forall_forall. Qed.

Lemma no_holders l : (∀ t, t ∈ l → holder t = false) → holders l = 0%nat.
Proof.
  intros Hl. unfold holders. induction l as [|t l IH]; [done|]. cbn. rewrite (Hl t) by (by left).
  apply IH. intros u Hu. apply Hl. by right.
Qed.

(** Either a task can take a step of its own, or all of them wait or are finished. *)
Lemma busy_or_waiting cfg h : (∃ a, is_Some (fire cfg h a)) ∨
  ∀ t, t ∈ tasks h → at_ t = AtSemaphore ∨ at_ t = AtGather ∨ at_ t = Finished.
Proof.
  assert (∀ l : list HierarchyTask, (∃ t, t ∈ l ∧ (at_ t = AtDecomposer ∨ at_ t = AtExecutor ∨ at_ t = AtAggregator)) ∨
    ∀ t, t ∈ l → at_ t = AtSemaphore ∨ at_ t = AtGather ∨ at_ t = Finished) as Hl.
  { induction l as [|t l IH]; [by right; intros t Ht; apply elem_of_nil in Ht|].
    destruct IH as [(u & ? & ?)|IH]; [left; exists u; split; [by right|done]|].
    destruct (at_ t) eqn:E;
      try (left; exists t; split; [by left|by auto]);
      right; intros u [->|Hu]%elem_of_cons; auto. }
  destruct (Hl (tasks h)) as [(t & Ht & Ha)|Hw]; [left|by right].
  apply list_elem_of_lookup_1 in Ht as [i Hi]. destruct Ha as [Ha|[Ha|Ha]].
  - exists (Decompose i (Err ""%string)). cbn [fire]. rewrite Hi, Ha. by eexists.
  - exists (Execute i (Err ""%string)). cbn [fire]. rewrite Hi, Ha. by eexists.
  - exists (Aggregate i (Err ""%string)). cbn [fire]. rewrite Hi, Ha. by eexists.
Qed.

(** Among waiting tasks the last one that gathers has finished subtasks. *)
Lemma last_gather cfg h : hinv cfg h → (∀ t, t ∈ tasks h → at_ t = AtGather ∨ at_ t = Finished) →
  finished h ∨ ∃ i, is_Some (fire cfg h (Gather i)).
Proof.
  intros Hh Hw. destruct (decide (Exists (λ t, at_ t = AtGather) (tasks h))) as [Hex|Hno].
  2:{ left. intros t Ht. destruct (Hw t Ht) as [Ha|]; [|done]. exfalso. apply Hno, Exists_exists. eauto. }
  right.
  assert (∀ n i t, (length (tasks h) - i <= n)%nat → tasks h !! i = Some t → at_ t = AtGather →
    ∃ i, is_Some (fire cfg h (Gather i))) as Hlast.
  { induction n as [|n IH]; intros i t Hn Hi Ha; [apply lookup_lt_Some in Hi; lia|].
    destruct (decide (Exists (λ j, at_ <$> tasks h !! j = Some AtGather) (subtasks t))) as [Hc|Hc].
    - apply Exists_exists in Hc as (j & Hj & (u & Hau & Hu)%fmap_Some).
      destruct (inv_links _ _ Hh i t j Hi Hj) as [Hij _]. apply (IH j u); [lia|done|done].
    - exists i. cbn [fire]. rewrite Hi, Ha, bool_decide_true by done.
      assert (is_Some (mapM (λ j, tasks h !! j ≫= outcome) (subtasks t))) as [rs ->]; [|by eexists].
      apply mapM_all_Some. intros j Hj. destruct (inv_links _ _ Hh i t j Hi Hj) as (_ & u & Hu & _).
      rewrite Hu. cbn. apply (ok_result cfg); [by eapply hinv_task|].
      destruct (Hw u (list_elem_of_lookup_2 _ _ _ Hu)); [|done]. exfalso. apply Hc, Exists_exists. exists j. split; [done|].
      rewrite Hu. cbn. by f_equal. }
  apply Exists_exists in Hex as (t & Ht & Ha). apply list_elem_of_lookup_1 in Ht as [i Hi]. by eapply Hlast.
Qed.

(** with [max_depth] 1 the hierarchy never hangs: in every reachable state
    either all tasks are finished or some coroutine can continue. *)
Theorem flat_hierarchy_progress cfg descs l h :
  max_depth cfg = 1%nat → (1 <= max_concurrent cfg)%nat →
  run cfg (execute_batch cfg descs) l = Some h → finished h ∨ ∃ a, is_Some (fire cfg h a).
Proof.
  intros Hd Hk Hr. pose proof (run_hinv cfg l _ _ (batch_hinv cfg descs) Hr) as Hh.
  destruct (busy_or_waiting cfg h) as [|Hw]; [by right|].
  destruct (decide (Exists (λ t, at_ t = AtSemaphore) (tasks h))) as [Hex|Hno].
  - right. apply Exists_exists in Hex as (t & Ht & Ha). apply list_elem_of_lookup_1 in Ht as [i Hi].
    exists (Acquire i). cbn [fire]. rewrite Hi, Ha, bool_decide_true by done.
    assert (holders (tasks h) = 0%nat) as H0.
    { apply no_holders. intros u Hu. unfold holder.
      destruct (Hw u Hu) as [->|[Hau| ->]]; [by destruct (parent_id u)| |by destruct (parent_id u)].
      pose proof (proj1 (Forall_forall _ _) (inv_tasks _ _ Hh) u Hu) as Hok.
      pose proof (ok_gather _ _ Hok (or_introl Hau)) as Hg. pose proof (ok_below _ _ Hok) as Hb.
      destruct (parent_id u) eqn:Hpu; [|done]. specialize (Hb ltac:(congruence)). lia. }
    pose proof (inv_permits _ _ Hh). destruct (_semaphore h); [lia|by eexists].
  - destruct (last_gather cfg h Hh) as [|[i Hi]]; [|by left|by right; exists (Gather i)].
    intros t Ht. destruct (Hw t Ht) as [Ha|]; [|done]. exfalso. apply Hno, Exists_exists. eauto.
Qed.

Lemma flat_hierarchy_progress_witness :
  finished (execute_batch (mkSettings 1 3 1 true true false) ["job"%string]) ∨
  ∃ a, is_Some (fire (mkSettings 1 3 1 true true false)
                  (execute_batch (mkSettings 1 3 1 true true false) ["job"%string]) a).
Proof.
  exact (flat_hierarchy_progress (mkSettings 1 3 1 true true false) ["job"%string] []
    (execute_batch (mkSettings 1 3 1 true true false) ["job"%string]) eq_refl (le_n 1) eq_refl).
Defined.
