(* ===== verification/Pool.v ===== *)
(** * Worker pool ([noema/workers/pool.py])

    Submitters, the bounded queue and the worker coroutines as a transition system;
    a step is the code of one coroutine from one await to the next.  The functions
    that are submitted answer through the actions. *)
From Stdlib Require Import ZArith Lia Bool Ascii String.
From stdpp Require Import base option numbers strings list.
From S2P Require Import Prelude.

Inductive WorkerState := IDLE | BUSY | SHUTDOWN.
Inductive TaskState := PENDING | RUNNING | COMPLETED | FAILED.
#[global] Instance TaskState_eq_dec : EqDecision TaskState.
Proof. solve_decision. Defined.

Definition value := string.
Definition outcome := Prelude.result string value.       (* what the submitted function does *)

(** Where the coroutine of [submit] stands; a returned value is [None] when the
    task has no result. *)
Inductive submitter :=
| Putting
| Waiting
| Returned (r : Prelude.result string (option value)).

Record WorkerTask := mkTask {
  t_state : TaskState;
  t_result : option value;
  t_error : option string;
  t_done : bool;                  (* the event *)
  t_submitter : submitter;
}.

Record Worker := mkWorker {
  w_state : WorkerState;
  current_task : option nat;
  tasks_completed : Z;
  w_alive : bool;                 (* its coroutine is in [_worker_tasks] *)
}.

Record WorkerPool := mkPool {
  max_workers : nat;
  max_queue_size : nat;
  workers : list Worker;
  _queue : list nat;
  tasks : list WorkerTask;        (* every task ever submitted, in order *)
  _tasks : list nat;              (* the keys of [_tasks] *)
  _running : bool;
  total_submitted : Z;
  total_completed : Z;
  total_failed : Z;
  enqueued : list nat;            (* history: puts, starts, ends and cancellations *)
  begun : list nat;
  ended : list (nat * outcome);
  cancelled : list nat;
}.

(** [WorkerPool.__init__] *)
Definition pool_init (workers queue : Z) : Prelude.result pyexn WorkerPool :=
  if (workers <? 1)%Z then Err ValueError
  else Ok (mkPool (Z.to_nat workers) (Z.to_nat queue) [] [] [] [] false 0 0 0 [] [] [] []).

Definition idle_worker : Worker := mkWorker IDLE None 0 true.

Definition start (p : WorkerPool) : WorkerPool :=
  if _running p then p
  else mkPool (max_workers p) (max_queue_size p) (workers p ++ replicate (max_workers p) idle_worker) (_queue p)
         (tasks p) (_tasks p) true (total_submitted p) (total_completed p) (total_failed p) (enqueued p) (begun p)
         (ended p) (cancelled p).

(** [Queue.full]: a size of zero is no bound. *)
Definition full (p : WorkerPool) : bool :=
  match max_queue_size p with O => false | n => (n <=? length (_queue p))%nat end.

Definition set_done (t : WorkerTask) : WorkerTask :=
  mkTask (t_state t) (t_result t) (t_error t) true (t_submitter t).

(** The [finally] of a worker whose function was cancelled. *)
Definition stop_worker (w : Worker) : Worker :=
  match w_state w, w_alive w with
  | BUSY, true => mkWorker IDLE None (tasks_completed w) false
  | _, _ => mkWorker SHUTDOWN (current_task w) (tasks_completed w) false
  end.

(** The tasks whose functions are running. *)
Definition flying (w : Worker) : option nat := if w_alive w then current_task w else None.
Definition in_flight (p : WorkerPool) : list nat := omap flying (workers p).

(** [shutdown]: the events of the known tasks, then of the cancelled ones. *)
Definition shutdown (p : WorkerPool) : WorkerPool :=
  mkPool (max_workers p) (max_queue_size p) (map stop_worker (workers p)) (_queue p)
    (imap (λ i t, if bool_decide (i ∈ _tasks p ++ in_flight p) then set_done t else t) (tasks p))
    [] false (total_submitted p) (total_completed p) (total_failed p) (enqueued p) (begun p) (ended p)
    (cancelled p ++ in_flight p).

Inductive action :=
| Start
| Shutdown
| Submit                          (* [submit] up to the put *)
| Put (i : nat)
| Wake (i : nat)                  (* [done.wait] returns and [submit] ends *)
| Take (w : nat)                  (* a worker gets the next task *)
| Finish (w : nat) (r : outcome).

Definition with_submitter (t : WorkerTask) (s : submitter) : WorkerTask :=
  mkTask (t_state t) (t_result t) (t_error t) (t_done t) s.

Definition fire (p : WorkerPool) (a : action) : option WorkerPool :=
  match a with
  | Start => Some (start p)
  | Shutdown => Some (shutdown p)
  | Submit =>
      if _running p then
        Some (mkPool (max_workers p) (max_queue_size p) (workers p) (_queue p)
                (tasks p ++ [mkTask PENDING None None false Putting]) (_tasks p ++ [length (tasks p)]) true
                (total_submitted p + 1) (total_completed p) (total_failed p) (enqueued p) (begun p)
                (ended p) (cancelled p))
      else None                   (* [RuntimeError] *)
  | Put i =>
      match tasks p !! i with
      | Some t =>
          match t_submitter t with
          | Putting =>
              if full p then None
              else Some (mkPool (max_workers p) (max_queue_size p) (workers p) (_queue p ++ [i])
                           (<[i := with_submitter t Waiting]> (tasks p)) (_tasks p) (_running p) (total_submitted p)
                           (total_completed p) (total_failed p) (enqueued p ++ [i]) (begun p)
                           (ended p) (cancelled p))
          | _ => None
          end
      | None => None
      end
  | Wake i =>
      match tasks p !! i with
      | Some t =>
          match t_submitter t, t_done t with
          | Waiting, true =>
              let r := if bool_decide (t_state t = FAILED) then Err (default ""%string (t_error t)) else Ok (t_result t) in
              Some (mkPool (max_workers p) (max_queue_size p) (workers p) (_queue p)
                      (<[i := with_submitter t (Returned r)]> (tasks p)) (List.filter (λ j, negb (j =? i)%nat) (_tasks p))
                      (_running p) (total_submitted p) (total_completed p) (total_failed p) (enqueued p) (begun p)
                (ended p) (cancelled p))
          | _, _ => None
          end
      | None => None
      end
  | Take w =>
      match workers p !! w, _queue p with
      | Some wk, i :: queue =>
          match w_alive wk, current_task wk, tasks p !! i with
          | true, None, Some t =>
              Some (mkPool (max_workers p) (max_queue_size p)
                      (<[w := mkWorker BUSY (Some i) (tasks_completed wk) true]> (workers p)) queue
                      (<[i := mkTask RUNNING (t_result t) (t_error t) (t_done t) (t_submitter t)]> (tasks p)) (_tasks p)
                      (_running p) (total_submitted p) (total_completed p) (total_failed p) (enqueued p) (begun p ++ [i])
                      (ended p) (cancelled p))
          | _, _, _ => None
          end
      | _, _ => None
      end
  | Finish w r =>
      match workers p !! w with
      | Some wk =>
          match w_alive wk, current_task wk with
          | true, Some i =>
              match tasks p !! i with
              | Some t =>
                  let '(t', n, c, f) :=
                    match r with
                    | Ok v => (mkTask COMPLETED (Some v) (t_error t) true (t_submitter t), 1, 1, 0)%Z
                    | Err e => (mkTask FAILED (t_result t) (Some e) true (t_submitter t), 0, 0, 1)%Z
                    end in
                  Some (mkPool (max_workers p) (max_queue_size p)
                          (<[w := mkWorker IDLE None (tasks_completed wk + n) true]> (workers p)) (_queue p)
                          (<[i := t']> (tasks p)) (_tasks p) (_running p) (total_submitted p)
                          (total_completed p + c) (total_failed p + f) (enqueued p) (begun p)
                          (ended p ++ [(i, r)]) (cancelled p))
              | None => None
              end
          | _, _ => None
          end
      | None => None
      end
  end.

Definition run (p : WorkerPool) (l : list action) : option WorkerPool := exec fire p l.

(** ** Invariants *)
Definition alive_count (l : list Worker) : nat := length (List.filter w_alive l).

(** What a task knows about its end is what a worker reported. *)
Record facts (h : list (nat * outcome)) (i : nat) (t : WorkerTask) : Prop := {
  f_result : ∀ v, t_result t = Some v → (i, Ok v) ∈ h;
  f_error : t_state t = FAILED → ∃ e, t_error t = Some e ∧ (i, Err e) ∈ h;
  f_value : ∀ v, t_submitter t = Returned (Ok (Some v)) → (i, Ok v) ∈ h;
  f_raised : ∀ e, t_submitter t = Returned (Err e) → (i, Err e) ∈ h;
}.

Record pinv (p : WorkerPool) : Prop := {
  pi_fifo : begun p ++ _queue p = enqueued p;
  pi_once : NoDup (enqueued p);
  pi_known : ∀ i, i ∈ enqueued p → ∃ t, tasks p !! i = Some t ∧ t_submitter t ≠ Putting;
  pi_begun : begun p ≡ₚ (ended p).*1 ++ in_flight p ++ cancelled p;
  pi_alive : alive_count (workers p) = if _running p then max_workers p else 0%nat;
  pi_queue : max_queue_size p = 0%nat ∨ (length (_queue p) <= max_queue_size p)%nat;
  pi_facts : ∀ i t, tasks p !! i = Some t → facts (ended p) i t;
}.

Lemma facts_mono h h' i t : facts h i t → (∀ x, x ∈ h → x ∈ h') → facts h' i t.
Proof. intros [] Hs. split; naive_solver. Qed.

Lemma omap_flying x l : omap flying (x :: l) = match flying x with Some i => i :: omap flying l | None => omap flying l end.
Proof. done. Qed.

(** Replacing one worker. *)
Lemma flying_insert l w wk wk' : l !! w = Some wk → flying wk = None →
  omap flying (<[w := wk']> l) ≡ₚ match flying wk' with Some i => [i] | None => [] end ++ omap flying l.
Proof.
  revert w. induction l as [|x l IH]; intros [|w] E Hf; try done.
  - injection E as ->. change (<[0%nat := wk']> (wk :: l)) with (wk' :: l). rewrite !omap_flying, Hf.
    by destruct (flying wk').
  - change (<[S w := wk']> (x :: l)) with (x :: <[w := wk']> l). rewrite !omap_flying. specialize (IH w E Hf).
    destruct (flying x); [|done]. rewrite IH. destruct (flying wk'); [|done]. apply Permutation_swap.
Qed.

Lemma flying_remove l w wk wk' i : l !! w = Some wk → flying wk = Some i → flying wk' = None →
  omap flying l ≡ₚ i :: omap flying (<[w := wk']> l).
Proof.
  intros E Hf Hf'. pose proof (flying_insert (<[w := wk']> l) w wk' wk) as Hp.
  rewrite Hf, list_insert_insert_eq, (list_insert_id l w wk E) in Hp. apply Hp; [|done].
  apply list_lookup_insert_eq. by eapply lookup_lt_Some.
Qed.

Lemma alive_insert l w wk wk' : l !! w = Some wk → w_alive wk' = w_alive wk →
  alive_count (<[w := wk']> l) = alive_count l.
Proof.
  intros E Ha. unfold alive_count. revert w E. induction l as [|x l IH]; intros [|w] E; try done.
  - injection E as ->. cbn. rewrite Ha. by destruct (w_alive wk).
  - change (<[S w := wk']> (x :: l)) with (x :: <[w := wk']> l). cbn [List.filter].
    destruct (w_alive x); cbn [length]; by rewrite (IH w E).
Qed.

Lemma in_flight_alive p : (length (in_flight p) <= alive_count (workers p))%nat.
Proof.
  unfold in_flight, alive_count. induction (workers p) as [|w l IH]; [done|]. rewrite omap_flying. unfold flying at 1.
  cbn [List.filter]. destruct (w_alive w); [destruct (current_task w)|]; cbn [length]; lia.
Qed.

(** The table after a change of one task. *)
Lemma insert_facts h h' (l : list WorkerTask) i t t' : (∀ j u, l !! j = Some u → facts h j u) → (∀ x, x ∈ h → x ∈ h') →
  l !! i = Some t → facts h' i t' → ∀ j u, <[i := t']> l !! j = Some u → facts h' j u.
Proof.
  intros Hl Hs Hi Ht j u Hj. apply list_lookup_insert_Some in Hj as [(<- & <- & _)|[_ Hj]]; [done|].
  eapply facts_mono; eauto.
Qed.

Lemma insert_known (l : list WorkerTask) i t t' (q : list nat) : l !! i = Some t → t_submitter t' ≠ Putting ∨ t_submitter t' = t_submitter t →
  (∀ j, j ∈ q → ∃ u, l !! j = Some u ∧ t_submitter u ≠ Putting) →
  ∀ j, j ∈ q → ∃ u, <[i := t']> l !! j = Some u ∧ t_submitter u ≠ Putting.
Proof.
  intros Hi Ht Hq j Hj. destruct (Hq j Hj) as (u & Hu & Hs). destruct (decide (i = j)) as [->|Hne].
  - exists t'. rewrite list_lookup_insert_eq by (by eapply lookup_lt_Some). simplify_eq. split; [done|].
    destruct Ht as [?| ->]; done.
  - exists u. by rewrite list_lookup_insert_ne.
Qed.

Lemma init_pinv w q p : pool_init w q = Ok p → pinv p.
Proof.
  unfold pool_init. destruct (w <? 1)%Z; [done|]. intros [= <-]. split; cbn; try done.
  - constructor.
  - intros i Hi. by apply elem_of_nil in Hi.
  - right. lia.
Qed.

Lemma start_pinv p : pinv p → pinv (start p).
Proof.
  intros Hp. unfold start. destruct (_running p) eqn:Er; [done|]. destruct Hp as [H1 H2 H3 H4 H5 H6 H7].
  assert (∀ n, alive_count (replicate n idle_worker) = n) as Hr.
  { intros n. unfold alive_count. induction n as [|n IH]; [done|]. cbn. by rewrite IH. }
  assert (∀ n, omap flying (replicate n idle_worker) = []) as Ho by (by intros n; induction n).
  split; cbn [begun _queue enqueued tasks ended cancelled workers _running max_workers max_queue_size]; try done.
  - unfold in_flight. cbn [workers]. rewrite omap_app, Ho, app_nil_r. exact H4.
  - rewrite Er in H5. unfold alive_count in *. rewrite List.filter_app, length_app, H5. apply Hr.
Qed.

Lemma shutdown_pinv p : pinv p → pinv (shutdown p).
Proof.
  intros [H1 H2 H3 H4 H5 H6 H7].
  assert (∀ i u, tasks (shutdown p) !! i = Some u → ∃ t, tasks p !! i = Some t ∧ (u = t ∨ u = set_done t)) as Ht.
  { intros i u. cbn. rewrite list_lookup_imap. destruct (tasks p !! i) as [t|]; [|done]. intros [= <-].
    exists t. split; [done|]. case_bool_decide; auto. }
  assert (∀ l, alive_count (map stop_worker l) = 0%nat ∧ omap flying (map stop_worker l) = []) as Hs.
  { intros l. unfold alive_count. induction l as [|[[] c n []] l IH]; [done|..]; exact IH. }
  split; try done.
  - intros i Hi. destruct (H3 i Hi) as (t & Et & Hp). cbn. rewrite list_lookup_imap, Et. cbn.
    eexists. split; [done|]. case_bool_decide; done.
  - unfold in_flight at 1. cbn [workers shutdown ended cancelled begun]. rewrite (proj2 (Hs _)). cbn [app].
    rewrite H4. apply Permutation_app_head, Permutation_app_comm.
  - cbn. apply Hs.
  - intros i u Hu. cbn [ended shutdown]. destruct (Ht i u Hu) as (t & Et & [->| ->]); [by apply H7|].
    destruct (H7 i t Et). by split.
Qed.

(** The step of each coroutine. *)
Lemma put_pinv p i t : pinv p → tasks p !! i = Some t → t_submitter t = Putting → full p = false →
  pinv (mkPool (max_workers p) (max_queue_size p) (workers p) (_queue p ++ [i])
          (<[i := with_submitter t Waiting]> (tasks p)) (_tasks p) (_running p) (total_submitted p)
          (total_completed p) (total_failed p) (enqueued p ++ [i]) (begun p) (ended p) (cancelled p)).
Proof.
  intros [H1 H2 H3 H4 H5 H6 H7] E Hs Hf.
  assert (i ∉ enqueued p) as Hnew by (intros Hi; destruct (H3 i Hi) as (u & Eu & ?); congruence).
  split; cbn [begun _queue enqueued tasks ended cancelled workers _running max_workers max_queue_size]; try done.
  - by rewrite app_assoc, H1.
  - apply NoDup_app. split_and!; [done| |apply NoDup_singleton].
    intros j Hj ->%list_elem_of_singleton. done.
  - intros j [Hj|Hj]%elem_of_app.
    + by eapply insert_known; [exact E|left|exact H3|].
    + apply list_elem_of_singleton in Hj as ->. eexists.
      rewrite list_lookup_insert_eq by (by eapply lookup_lt_Some). done.
  - unfold full in Hf. destruct (max_queue_size p) as [|n]; [by left|]. apply Nat.leb_gt in Hf. right.
    rewrite length_app. cbn. lia.
  - eapply insert_facts; [exact H7|done|exact E|]. destruct (H7 i t E). by split.
Qed.

Lemma wake_pinv p i t l : pinv p → tasks p !! i = Some t → t_submitter t = Waiting →
  let r := if bool_decide (t_state t = FAILED) then Err (default ""%string (t_error t)) else Ok (t_result t) in
  pinv (mkPool (max_workers p) (max_queue_size p) (workers p) (_queue p)
          (<[i := with_submitter t (Returned r)]> (tasks p)) l (_running p) (total_submitted p)
          (total_completed p) (total_failed p) (enqueued p) (begun p) (ended p) (cancelled p)).
Proof.
  intros [H1 H2 H3 H4 H5 H6 H7] E Hs r.
  split; cbn [begun _queue enqueued tasks ended cancelled workers _running max_workers max_queue_size]; try done.
  - intros j Hj. by eapply insert_known; [exact E|left|exact H3|].
  - eapply insert_facts; [exact H7|done|exact E|]. destruct (H7 i t E) as [F1 F2 F3 F4].
    split; cbn [t_result t_state t_error t_submitter with_submitter]; [done|done| |]; unfold r; case_bool_decide as Hb;
      intros x [= Hx]; [by apply F1|]. destruct (F2 Hb) as (e & Ee & ?). rewrite Ee in Hx. cbn in Hx. by subst.
Qed.

Lemma take_pinv p w wk i q t n : pinv p → workers p !! w = Some wk → _queue p = i :: q → w_alive wk = true →
  current_task wk = None → tasks p !! i = Some t →
  pinv (mkPool (max_workers p) (max_queue_size p) (<[w := mkWorker BUSY (Some i) n true]> (workers p)) q
          (<[i := mkTask RUNNING (t_result t) (t_error t) (t_done t) (t_submitter t)]> (tasks p)) (_tasks p)
          (_running p) (total_submitted p) (total_completed p) (total_failed p) (enqueued p) (begun p ++ [i])
          (ended p) (cancelled p)).
Proof.
  intros [H1 H2 H3 H4 H5 H6 H7] Ew Eq Ha Hc E.
  split; cbn [begun _queue enqueued tasks ended cancelled workers _running max_workers max_queue_size]; try done.
  - rewrite <- app_assoc. cbn. by rewrite <- Eq.
  - intros j Hj. eapply insert_known; [exact E|by right|exact H3|done].
  - unfold in_flight. cbn [workers].
    rewrite (flying_insert _ _ _ (mkWorker BUSY (Some i) n true) Ew) by (unfold flying; by rewrite Ha).
    cbn [flying w_alive current_task app]. rewrite H4. change (omap flying (workers p)) with (in_flight p).
    rewrite (Permutation_app_comm _ [i]). cbn. by rewrite <- Permutation_middle.
  - by rewrite (alive_insert _ _ _ _ Ew).
  - destruct H6 as [?|H6]; [by left|right]. rewrite Eq in H6. cbn in H6. lia.
  - eapply insert_facts; [exact H7|done|exact E|]. by destruct (H7 i t E).
Qed.

Lemma finish_pinv p w wk i t r n c f : pinv p → workers p !! w = Some wk → w_alive wk = true →
  current_task wk = Some i → tasks p !! i = Some t →
  let t' := match r with
            | Ok v => mkTask COMPLETED (Some v) (t_error t) true (t_submitter t)
            | Err e => mkTask FAILED (t_result t) (Some e) true (t_submitter t) end in
  pinv (mkPool (max_workers p) (max_queue_size p) (<[w := mkWorker IDLE None n true]> (workers p)) (_queue p)
          (<[i := t']> (tasks p)) (_tasks p) (_running p) (total_submitted p) c f (enqueued p) (begun p)
          (ended p ++ [(i, r)]) (cancelled p)).
Proof.
  intros [H1 H2 H3 H4 H5 H6 H7] Ew Ha Hc E t'.
  split; cbn [begun _queue enqueued tasks ended cancelled workers _running max_workers max_queue_size]; try done.
  - intros j Hj. eapply insert_known; [exact E|right; by destruct r|exact H3|done].
  - unfold in_flight in *. cbn [workers]. rewrite H4.
    rewrite (flying_remove _ _ _ (mkWorker IDLE None n true) i Ew) by (unfold flying; by rewrite ?Ha).
    rewrite fmap_app. cbn. by rewrite <- app_assoc.
  - by rewrite (alive_insert _ _ _ _ Ew).
  - eapply insert_facts; [exact H7| |exact E|].
    + intros x Hx. apply elem_of_app. by left.
    + destruct (H7 i t E) as [F1 F2 F3 F4]. unfold t'. destruct r as [v|e]; split; cbn; try done.
      * intros v' [= <-]. apply elem_of_app. right. by apply list_elem_of_singleton.
      * intros v' Hv. apply elem_of_app. left. by apply F3.
      * intros e Hv. apply elem_of_app. left. by apply F4.
      * intros v Hv. apply elem_of_app. left. by apply F1.
      * intros _. exists e. split; [done|]. apply elem_of_app. right. by apply list_elem_of_singleton.
      * intros v' Hv. apply elem_of_app. left. by apply F3.
      * intros e' Hv. apply elem_of_app. left. by apply F4.
Qed.

Lemma submit_pinv p n : pinv p → _running p = true →
  pinv (mkPool (max_workers p) (max_queue_size p) (workers p) (_queue p)
          (tasks p ++ [mkTask PENDING None None false Putting]) (_tasks p ++ [length (tasks p)]) true
          n (total_completed p) (total_failed p) (enqueued p) (begun p) (ended p) (cancelled p)).
Proof.
  intros [H1 H2 H3 H4 H5 H6 H7] Er.
  split; cbn [begun _queue enqueued tasks ended cancelled workers _running max_workers max_queue_size]; try done.
  - intros i Hi. destruct (H3 i Hi) as (t & Et & ?). exists t. split; [|done]. by apply lookup_app_l_Some.
  - by rewrite Er in H5.
  - intros i t [Ht|[_ Ht]]%lookup_app_Some; [by apply H7|].
    destruct (i - length (tasks p))%nat; [|done]. injection Ht as <-. by split.
Qed.

Lemma fire_pinv p a p' : pinv p → fire p a = Some p' → pinv p'.
Proof.
  intros Hp Hf. destruct a as [| | |i|i|w|w r]; cbn [fire] in Hf.
  - injection Hf as <-. by apply start_pinv.
  - injection Hf as <-. by apply shutdown_pinv.
  - destruct (_running p) eqn:Er; [|done]. injection Hf as <-. by apply submit_pinv.
  - destruct (tasks p !! i) as [t|] eqn:E; [|done]. destruct (t_submitter t) eqn:Es; try done.
    destruct (full p) eqn:Ef; [done|]. injection Hf as <-. by apply put_pinv.
  - destruct (tasks p !! i) as [t|] eqn:E; [|done]. destruct (t_submitter t) eqn:Es; try done.
    destruct (t_done t); [|done]. injection Hf as <-. by apply wake_pinv.
  - destruct (workers p !! w) as [wk|] eqn:Ew; [|done]. destruct (_queue p) as [|i q] eqn:Eq; [done|].
    destruct (w_alive wk) eqn:Ea; [|done]. destruct (current_task wk) eqn:Ec; [done|].
    destruct (tasks p !! i) as [t|] eqn:E; [|done]. injection Hf as <-. by eapply take_pinv.
  - destruct (workers p !! w) as [wk|] eqn:Ew; [|done]. destruct (w_alive wk) eqn:Ea; [|done].
    destruct (current_task wk) as [i|] eqn:Ec; [|done]. destruct (tasks p !! i) as [t|] eqn:E; [|done].
    destruct r as [v|e]; injection Hf as <-; [by apply (finish_pinv p w wk i t (Ok v))|by apply (finish_pinv p w wk i t (Err e))].
Qed.

Lemma run_pinv l p p' : pinv p → run p l = Some p' → pinv p'.
Proof.
  apply (exec_invariant fire pinv (λ _, True)); [|apply Forall_true_all]. intros s a s' Hs _. by apply fire_pinv.
Qed.

Lemma fire_limits p a p' : fire p a = Some p' →
  max_workers p' = max_workers p ∧ max_queue_size p' = max_queue_size p.
Proof.
  intros Hf. destruct a as [| | |i|i|w|w r]; cbn [fire] in Hf; unfold start in Hf;
    repeat first [done | case_match | (injection Hf as <-; cbn; done)].
Qed.

Lemma run_limits l p p' : run p l = Some p' →
  max_workers p' = max_workers p ∧ max_queue_size p' = max_queue_size p.
Proof.
  intros Hr. split; eapply exec_constant; try exact Hr; intros s a s' E; by apply fire_limits in E as [? ?].
Qed.

(** over any interleaving of submitters, workers, starts and shutdowns the
    tasks are begun in the order they were enqueued and each at most once; a begun
    task has ended, is running, or was cancelled by a shutdown, exactly one of
    them; at most [max_workers] run at a time and the queue stays within
    [max_queue_size]. *)
Theorem pool_exactly_once w q p0 l p : pool_init w q = Ok p0 → run p0 l = Some p →
  begun p ++ _queue p = enqueued p ∧ NoDup (enqueued p) ∧
  begun p ≡ₚ (ended p).*1 ++ in_flight p ++ cancelled p ∧
  (Z.of_nat (length (in_flight p)) <= w)%Z ∧ ((q <= 0)%Z ∨ (Z.of_nat (length (_queue p)) <= q)%Z).
Proof.
  intros H0 Hr. pose proof (run_pinv l _ _ (init_pinv _ _ _ H0) Hr) as [H1 H2 _ H4 H5 H6 _].
  destruct (run_limits l _ _ Hr) as [Hw Hq]. unfold pool_init in H0. destruct (Z.ltb_spec w 1); [done|].
  injection H0 as <-. cbn in Hw, Hq. split_and!; [done|done|done| |lia].
  pose proof (in_flight_alive p). rewrite H5, Hw in H0. destruct (_running p); lia.
Qed.

(** ** Results *)
(** Without a shutdown a set event means that the task has ended. *)
Definition settled_task (h : list (nat * outcome)) (i : nat) (t : WorkerTask) : Prop :=
  (t_done t = true → i ∈ h.*1 ∧ (t_state t = FAILED ∨ t_result t ≠ None)) ∧ t_submitter t ≠ Returned (Ok None).

Definition settled_in (h : list (nat * outcome)) (l : list WorkerTask) : Prop :=
  ∀ i t, l !! i = Some t → settled_task h i t.

Definition settled (p : WorkerPool) : Prop := settled_in (ended p) (tasks p).

Lemma insert_settled l h h' i t' : settled_in h l → (∀ j, j ∈ h.*1 → j ∈ h'.*1) → settled_task h' i t' →
  settled_in h' (<[i := t']> l).
Proof.
  intros Hl Hs Ht j t Hj. apply list_lookup_insert_Some in Hj as [(<- & <- & _)|[_ Hj]]; [done|].
  destruct (Hl j t Hj) as [H1 H2]. split; [|done]. intros Hd. destruct (H1 Hd). auto.
Qed.

Lemma fire_settled p a p' : pinv p → settled p → a ≠ Shutdown → fire p a = Some p' → settled p'.
Proof.
  intros Hp Hs Ha Hf. destruct a as [| | |i|i|w|w r]; cbn [fire] in Hf; try done.
  - injection Hf as <-. unfold start. by destruct (_running p).
  - destruct (_running p) eqn:Er; [|done]. injection Hf as <-. intros i t [Ht|[_ Ht]]%lookup_app_Some; [by apply Hs|].
    destruct (i - length (tasks p))%nat; [|done]. injection Ht as <-. done.
  - destruct (tasks p !! i) as [t|] eqn:E; [|done]. destruct (t_submitter t) eqn:Es; try done.
    destruct (full p) eqn:Ef; [done|]. injection Hf as <-. unfold settled; cbn [tasks ended]; eapply insert_settled; [exact Hs|done|].
    destruct (Hs i t E). done.
  - destruct (tasks p !! i) as [t|] eqn:E; [|done]. destruct (t_submitter t) eqn:Es; try done.
    destruct (t_done t) eqn:Ed; [|done]. injection Hf as <-. unfold settled; cbn [tasks ended]; eapply insert_settled; [exact Hs|done|].
    destruct (Hs i t E) as [H1 H2]. destruct (H1 Ed) as [Hin Hr]. cbn [t_done t_state t_result t_submitter with_submitter].
    split; [done|]. case_bool_decide; [done|]. destruct Hr as [?|Hr]; [done|]. intros [= ?]. done.
  - destruct (workers p !! w) as [wk|] eqn:Ew; [|done]. destruct (_queue p) as [|i q] eqn:Eq; [done|].
    destruct (w_alive wk) eqn:Ea; [|done]. destruct (current_task wk) eqn:Ec; [done|].
    destruct (tasks p !! i) as [t|] eqn:E; [|done]. injection Hf as <-. unfold settled; cbn [tasks ended]; eapply insert_settled; [exact Hs|done|].
    destruct (Hs i t E) as [H1 H2]. cbn. split; [|done]. intros Hd. exfalso. destruct (H1 Hd) as [Hin _].
    pose proof (pi_once _ Hp) as Hn. rewrite <- (pi_fifo _ Hp), Eq in Hn. apply NoDup_app in Hn as (_ & Hn & _).
    apply (Hn i); [|by left]. rewrite (pi_begun _ Hp). apply elem_of_app. by left.
  - destruct (workers p !! w) as [wk|] eqn:Ew; [|done]. destruct (w_alive wk) eqn:Ea; [|done].
    destruct (current_task wk) as [i|] eqn:Ec; [|done]. destruct (tasks p !! i) as [t|] eqn:E; [|done].
    destruct (Hs i t E) as [_ H2].
    destruct r as [v|e]; injection Hf as <-; (unfold settled; cbn [tasks ended]; eapply insert_settled; [exact Hs| |];
      [intros j Hj; rewrite fmap_app; apply elem_of_app; by left|]); cbn; (split; [|done]); intros _;
      rewrite fmap_app; (split; [apply elem_of_app; right; by left|auto]).
Qed.

Lemma run_settled l p p' : pinv p → settled p → Shutdown ∉ l → run p l = Some p' → settled p'.
Proof.
  intros Hp Hs Hn Hr.
  cut (pinv p' ∧ settled p'); [by intros []|].
  apply (exec_invariant fire (λ p, pinv p ∧ settled p) (λ a, a ≠ Shutdown) l p p'); [|..|done|done].
  - intros s a s' [H1 H2] Ha E. split; [by eapply fire_pinv|by eapply fire_settled].
  - apply Forall_forall. intros a Ha ->. done.
Qed.

#[global] Instance action_eq_dec : EqDecision action.
Proof. unfold outcome, value. assert (EqDecision (Prelude.result string string)) by solve_decision. solve_decision. Defined.

(** [submit] hands back the outcome of its own function: a value or an
    exception it returns is the one a worker got from that task; a result of [None]
    in place of an outcome occurs only when the pool was shut down. *)
Theorem submit_returns_own_result w q p0 l p i t r : pool_init w q = Ok p0 → run p0 l = Some p →
  tasks p !! i = Some t → t_submitter t = Returned r →
  match r with
  | Ok (Some v) => (i, Ok v) ∈ ended p
  | Err e => (i, Err e) ∈ ended p
  | Ok None => Shutdown ∈ l
  end.
Proof.
  intros H0 Hr Ht Hs. pose proof (init_pinv _ _ _ H0) as Hp0.
  pose proof (pi_facts _ (run_pinv l _ _ Hp0 Hr) i t Ht) as [_ _ F3 F4].
  destruct r as [[v|]|e]; [by apply F3| |by apply F4].
  destruct (decide (Shutdown ∈ l)) as [|Hn]; [done|]. exfalso.
  assert (settled p0) as Hs0.
  { unfold pool_init in H0. destruct (w <? 1)%Z; [done|]. injection H0 as <-. by intros ?? ?. }
  destruct (run_settled l _ _ Hp0 Hs0 Hn Hr i t Ht). done.
Qed.

(** ** Witnesses *)
Definition demo_pool : WorkerPool := mkPool 2 5 [] [] [] [] false 0 0 0 [] [] [] [].
Definition demo_actions : list action := [Start; Submit; Put 0; Take 1; Finish 1 (Ok "42"%string); Wake 0].
Definition demo_end : WorkerPool := Eval vm_compute in default demo_pool (run demo_pool demo_actions).

Lemma demo_runs : run demo_pool demo_actions = Some demo_end.
Proof. by vm_compute. Qed.

Lemma pool_exactly_once_witness :
  begun demo_end ++ _queue demo_end = enqueued demo_end ∧ NoDup (enqueued demo_end) ∧
  begun demo_end ≡ₚ (ended demo_end).*1 ++ in_flight demo_end ++ cancelled demo_end ∧
  (Z.of_nat (length (in_flight demo_end)) <= 2)%Z ∧
  ((5 <= 0)%Z ∨ (Z.of_nat (length (_queue demo_end)) <= 5)%Z).
Proof. exact (pool_exactly_once 2 5 demo_pool demo_actions demo_end eq_refl demo_runs). Defined.

Definition demo_task : WorkerTask := mkTask COMPLETED (Some "42"%string) None true (Returned (Ok (Some "42"%string))).

Lemma submit_returns_own_result_witness : (0%nat, Ok "42"%string) ∈ ended demo_end.
Proof.
  exact (submit_returns_own_result 2 5 demo_pool demo_actions demo_end 0 demo_task (Ok (Some "42"%string)) eq_refl demo_runs
    eq_refl eq_refl).
Defined.

(** ** Shutdown *)
(** A task that was still queued at a shutdown returns [None] to its submitter, and
    is executed all the same after the next start. *)
Example shutdown_returns_none : ∃ p,
  run demo_pool [Start; Submit; Put 0; Shutdown; Wake 0; Start; Take 2] = Some p ∧
  t_submitter <$> tasks p !! 0%nat = Some (Returned (Ok None)) ∧ in_flight p = [0%nat].
Proof. eexists. split; [by vm_compute|]. split; by vm_compute. Qed.

(** A submitter that waits for a place in a full queue is not released by a
    shutdown: neither the put nor the wait can continue, and no worker is left to
    make room. *)
Example shutdown_leaves_submitter_hanging : ∃ p,
  run (mkPool 1 1 [] [] [] [] false 0 0 0 [] [] [] []) [Start; Submit; Put 0; Submit; Shutdown; Wake 0] = Some p ∧
  t_submitter <$> tasks p !! 1%nat = Some Putting ∧ fire p (Put 1) = None ∧ fire p (Wake 1) = None ∧
  ∀ w, fire p (Take w) = None.
Proof. eexists. split; [by vm_compute|]. split_and!; [by vm_compute..|]. intros [|[|w]]; done. Qed.
