(* ===== verification/Prompts.v ===== *)
(** * Prompts of the chain of thought ([noema/core/chain_of_thought.py])

    The fixed system prompts, the builders of the user prompts and the compression
    of earlier answers.  Double quotes of the source text are written as back
    quotes and restored by [quoted].  [json.loads], [json.dumps] and [repr] are
    parameters. *)
From Stdlib Require Import ZArith QArith Lia Bool Ascii String.
From stdpp Require Import base option numbers strings list.
From S2P Require Import Prelude Symbolic.
Local Open Scope string_scope.
Local Open Scope list_scope.
Local Open Scope nat_scope.

(** The text with every back quote replaced by a double quote. *)
Definition quoted (s : string) : string :=
  map_string (λ a, if Ascii.eqb a "`"%char then "034"%char else a) s.

Definition _analyst_system : string := quoted
"You are a senior systems analyst. Analyze the given task deeply.
Return a structured JSON analysis with:
{
  `domain`: `string`,
  `complexity`: `trivial|simple|moderate|complex|extreme`,
  `scale`: `small|medium|large|enterprise`,
  `key_challenges`: [`list`],
  `non_functional_requirements`: [`list`],
  `estimated_team_size`: number,
  `estimated_timeline_weeks`: number,
  `risk_factors`: [{`risk`: `...`, `probability`: `low|medium|high`, `impact`: `low|medium|high`, `mitigation`: `...`}],
  `success_criteria`: [`list`],
  `similar_projects`: [`list`]
}
Return ONLY valid JSON, no markdown blocks.".

Definition _architect_system : string := quoted
"You are a principal software architect with 15+ years of experience.
Design the optimal architecture for the given task.
Return structured JSON:
{
  `pattern`: {`name`: `...`, `description`: `...`, `pros`: [...], `cons`: [...], `when_to_use`: `...`},
  `high_level_design`: `...`,
  `components`: [{`name`: `...`, `type`: `service|database|cache|queue|gateway|worker`, `responsibility`: `...`, `tech`: `...`, `interfaces`: [...]}],
  `communication`: {`sync`: `REST|gRPC|GraphQL`, `async`: `Kafka|RabbitMQ|Redis Streams`, `patterns`: [`CQRS`, `Event Sourcing`, `Saga`]},
  `data_flow`: `...`,
  `scalability_strategy`: `...`,
  `trade_offs`: [{`decision`: `...`, `rationale`: `...`, `alternatives_rejected`: [...]}]
}
Return ONLY valid JSON.".

Definition _stack_system : string := quoted
"You are a technology advisor. Select the optimal tech stack.
Consider: maturity, ecosystem, team expertise, performance, cost, long-term maintenance.
Return structured JSON:
{
  `languages`: [{`name`: `...`, `version`: `...`, `why`: `...`}],
  `frameworks`: [{`name`: `...`, `version`: `...`, `why`: `...`, `alternatives_considered`: [...]}],
  `databases`: [{`name`: `...`, `type`: `relational|document|cache|search|time-series`, `why`: `...`, `use_case`: `...`}],
  `infrastructure`: [{`tool`: `...`, `purpose`: `...`}],
  `monitoring`: [{`tool`: `...`, `purpose`: `...`}],
  `development_tools`: [{`tool`: `...`, `purpose`: `...`}],
  `total_monthly_cost_estimate`: `...`,
  `learning_curve`: `low|medium|high`,
  `ecosystem_maturity`: `experimental|growing|mature|enterprise`
}
Return ONLY valid JSON.".

Definition _component_system : string := quoted
"You are a software designer. Design detailed component specifications.
Return structured JSON:
{
  `components`: [
    {
      `name`: `...`, `type`: `...`, `description`: `...`,
      `interfaces`: [{`method`: `...`, `input`: `...`, `output`: `...`, `description`: `...`}],
      `dependencies`: [`...`],
      `internal_modules`: [{`name`: `...`, `responsibility`: `...`}],
      `error_handling`: `...`, `logging_strategy`: `...`
    }
  ],
  `dependency_graph`: `...`,
  `shared_libraries`: [`...`]
}
Return ONLY valid JSON.".

Definition _data_model_system : string := quoted
"You are a database architect. Design the data model.
Return structured JSON:
{
  `database`: `PostgreSQL|MongoDB|etc`,
  `tables`: [
    {
      `name`: `...`, `description`: `...`,
      `columns`: [{`name`: `...`, `type`: `...`, `constraints`: `...`, `description`: `...`}],
      `indexes`: [{`columns`: [...], `type`: `btree|hash|gin|gist`, `purpose`: `...`}],
      `partitioning`: {`strategy`: `range|hash|list`, `key`: `...`, `reason`: `...`}
    }
  ],
  `relationships`: [{`from`: `...`, `to`: `...`, `type`: `one-to-one|one-to-many|many-to-many`, `foreign_key`: `...`}],
  `migrations_strategy`: `...`,
  `seed_data_strategy`: `...`
}
Return ONLY valid JSON.".

Definition _api_system : string := quoted
"You are an API designer. Design RESTful or GraphQL APIs.
Return structured JSON:
{
  `api_style`: `REST|GraphQL|gRPC`,
  `base_url`: `/api/v1`,
  `authentication`: `JWT|OAuth2|API_KEY`,
  `endpoints`: [
    {
      `method`: `GET|POST|PUT|DELETE|PATCH`, `path`: `/resource`,
      `description`: `...`, `request_body`: {`field`: `type`}, `response`: {`field`: `type`},
      `status_codes`: [200, 201, 400, 404, 500],
      `rate_limit`: `...`, `permissions`: [`...`]
    }
  ],
  `error_response_format`: {`error`: `string`, `code`: `string`, `details`: {}},
  `pagination`: `cursor|offset|keyset`,
  `versioning_strategy`: `...`
}
Return ONLY valid JSON.".

Definition _codegen_system : string := quoted
"You are a senior developer. Generate PRODUCTION-READY code.
Write complete, working code. No placeholders, no TODOs, no pseudocode.
Use proper error handling, type hints, docstrings, logging.

For each file return:
{
  `files`: [
    {
      `path`: `src/module/file.py`,
      `language`: `python`,
      `content`: `full working code here`,
      `description`: `what this file does`
    }
  ],
  `entry_points`: [`main.py`],
  `setup_commands`: [`pip install ...`]
}

Code must be:
- Complete and runnable
- Well-typed (type hints)
- Properly structured (classes, functions, modules)
- With error handling
- With logging
- Following clean architecture principles

Return ONLY valid JSON.".

Definition _testing_system : string := quoted
"You are a QA architect. Design comprehensive testing strategy.
Return structured JSON:
{
  `testing_pyramid`: {`unit`: `%`, `integration`: `%`, `e2e`: `%`},
  `test_framework`: `...`,
  `test_files`: [{`path`: `...`, `description`: `...`, `test_count`: number, `key_scenarios`: [`...`]}],
  `ci_integration`: `...`,
  `coverage_target`: `90%`,
  `performance_testing`: `...`,
  `security_testing`: `...`
}
Return ONLY valid JSON.".

Definition _security_system : string := quoted
"You are a security engineer. Perform security analysis and provide hardening measures.
Return structured JSON:
{
  `threat_model`: [{`threat`: `...`, `likelihood`: `low|medium|high`, `impact`: `low|medium|high`, `mitigation`: `...`}],
  `owasp_checks`: [{`category`: `...`, `status`: `pass|needs_attention`, `recommendation`: `...`}],
  `authentication`: {`method`: `...`, `implementation`: `...`},
  `authorization`: {`model`: `RBAC|ABAC`, `implementation`: `...`},
  `data_protection`: {`encryption_at_rest`: `...`, `encryption_in_transit`: `...`, `pii_handling`: `...`},
  `secrets_management`: `...`,
  `dependency_audit`: `...`,
  `penetration_testing`: `...`
}
Return ONLY valid JSON.".

Definition _optimization_system : string := quoted
"You are a performance engineer. Design optimization strategy.
Return structured JSON:
{
  `caching`: {`strategy`: `...`, `layers`: [{`level`: `L1|L2|L3`, `tool`: `...`, `ttl`: `...`, `invalidation`: `...`}]},
  `database_optimization`: [`...`],
  `async_processing`: {`tool`: `...`, `patterns`: [`...`]},
  `cdn_strategy`: `...`,
  `lazy_loading`: `...`,
  `connection_pooling`: {`min`: ..., `max`: ..., `timeout`: ...},
  `monitoring_metrics`: [`...`],
  `load_testing`: {`tool`: `...`, `targets`: [...]}
}
Return ONLY valid JSON.".

Definition _deployment_system : string := quoted
"You are a DevOps engineer. Design deployment and infrastructure.
Return structured JSON:
{
  `containerization`: {`dockerfile`: `...`, `multi_stage`: true, `base_image`: `...`},
  `orchestration`: {`platform`: `kubernetes|ecs|cloud-run`, `config`: `...`},
  `ci_cd`: {`provider`: `github-actions|gitlab-ci|jenkins`, `stages`: [...]},
  `environment_strategy`: {`dev`: `...`, `staging`: `...`, `production`: `...`},
  `monitoring`: {`metrics`: `...`, `logging`: `...`, `tracing`: `...`},
  `scaling`: {`horizontal`: `...`, `vertical`: `...`, `auto_scaling_rules`: [...]},
  `backup_strategy`: `...`,
  `disaster_recovery`: `...`
}
Return ONLY valid JSON.".

Definition _repair_system : string := quoted
"You are a senior debugger. The previous attempt failed with specific errors.
Analyze the errors and propose a repaired plan.
Return structured JSON:
{
  `root_cause`: `what went wrong`,
  `fixes`: [{`step`: `...`, `action`: `...`, `rationale`: `...`}],
  `revised_architecture`: `changes to architecture if needed`,
  `risk_of_regression`: `low|medium|high`
}
Return ONLY valid JSON.".

Definition _review_system : string := quoted
"You are a technical lead performing final review.
Review all decisions and provide overall assessment.
Return structured JSON:
{
  `overall_quality`: `1-10`,
  `architecture_score`: `1-10`,
  `code_quality_score`: `1-10`,
  `security_score`: `1-10`,
  `performance_score`: `1-10`,
  `maintainability_score`: `1-10`,
  `strengths`: [`...`],
  `weaknesses`: [`...`],
  `improvements`: [`...`],
  `production_readiness`: `ready|needs-work|major-issues`,
  `confidence`: `0.0-1.0`,
  `final_summary`: `one paragraph summary`
}
Return ONLY valid JSON.".

(** ** Strings *)

(** [s[:n]] *)
Definition prefix (n : nat) (s : string) : string := String.substring 0 n s.

(** The newline character. *)
Definition nl : string := String "010"%char "".

(** [sep.join(l)] *)
Definition join (sep : string) (l : list string) : string := String.concat sep l.

Lemma prefix_length n s : String.length (prefix n s) = Nat.min n (String.length s).
Proof.
  unfold prefix. revert n. induction s as [|a s IH]; intros [|n]; cbn; [done..|]. by rewrite IH.
Qed.

Lemma length_append s t : String.length (s +:+ t) = (String.length s + String.length t)%nat.
Proof. induction s as [|a s IH]; cbn; [done|]. by rewrite <- IH. Qed.

Section prompts.
(** [json.loads] ([None]: [ValueError]), [json.dumps(_, ensure_ascii=False)] without
    and with [indent=2], and [str] of a value that is not a string. *)
Context (loads : string → option json) (dumps dumps_indent : json → string) (repr : json → string).

(** The value [_compress] keeps for one entry of a JSON object. *)
Definition compress_value (v : json) : json :=
  match v with
  | JStr s => if (200 <? String.length s)%nat then JStr (prefix 200 s +:+ "...") else v
  | JArr l => if (5 <? length l)%nat then JArr (take 5 l) else v
  | JObj d => JObj (map (λ '(k, x), (k, JStr (prefix 100 (py_str repr x)))) (take 8 d))
  | _ => v
  end.

Definition truncated (text : string) (max_chars : nat) : string := prefix max_chars text +:+ "...".

Definition _compress (text : string) (max_chars : nat) : string :=
  if (String.length text <=? max_chars)%nat then text
  else
    match loads text with
    | Some (JObj data) =>
        let result := dumps (JObj (map (λ '(k, v), (k, compress_value v)) data)) in
        if (String.length result <=? max_chars)%nat then result else truncated text max_chars
    | Some (JArr data) =>
        if (5 <? length data)%nat then dumps (JArr (take 5 data)) else truncated text max_chars
    | _ => truncated text max_chars
    end.

(** ** The user prompts *)

(** [r.get(key, default)] in an f-string. *)
Definition field (key : string) (dflt : json) (r : dict) : string :=
  py_str repr (default dflt (dget key r)).

Definition requirement_line (r : dict) : string :=
  "  - [" +:+ field "category" (JStr "general") r +:+ "] " +:+ field "description" (JStr "") r
    +:+ " (priority: " +:+ field "priority" (JNum 5) r +:+ ")".

Definition _analyst_prompt (task : string) (tags : list string) (reqs : list dict) (knowledge ontology : string) : string :=
  join nl
    (["Task: " +:+ task; "Tags: " +:+ join ", " tags]
     ++ (match reqs with [] => [] | _ => "Requirements:" :: map requirement_line reqs end)
     ++ (if nonempty ontology
         then [nl +:+ "[ONTOLOGICAL AXIOMS - DO NOT VIOLATE]" +:+ nl +:+ prefix 2000 ontology] else [])
     ++ (if nonempty knowledge then [nl +:+ "Relevant knowledge:" +:+ nl +:+ prefix 2000 knowledge] else [])).

Definition _architect_prompt (analysis graph : string) : string :=
  join nl
    (["Analysis from previous step:" +:+ nl +:+ prefix 3000 analysis]
     ++ (if nonempty graph then [nl +:+ "Knowledge graph suggestions:" +:+ nl +:+ prefix 1000 graph] else [])
     ++ [nl +:+ "Design the optimal architecture. Return ONLY valid JSON."]).

(** A headed excerpt and the blank line after it: ["{title}:\n{text[:n]}\n\n"]. *)
Definition excerpt (title : string) (n : nat) (text : string) : string :=
  title +:+ ":" +:+ nl +:+ prefix n text +:+ nl +:+ nl.

Definition _stack_prompt (architecture : string) (tags : list string) : string :=
  excerpt "Architecture design" 3000 architecture +:+ "Tags: " +:+ join ", " tags +:+ nl +:+ nl
    +:+ "Select the optimal tech stack. Return ONLY valid JSON.".

Definition _component_prompt (architecture stack : string) : string :=
  excerpt "Architecture" 2000 architecture +:+ excerpt "Stack" 1000 stack
    +:+ "Design detailed component specifications. Return ONLY valid JSON.".

Definition _data_model_prompt (components stack : string) (reqs : list dict) : string :=
  excerpt "Components" 2000 components +:+ excerpt "Stack" 500 stack
    +:+ "Requirements: " +:+ repr (JArr (map JObj reqs)) +:+ nl +:+ nl
    +:+ "Design the data model. Return ONLY valid JSON.".

Definition _api_prompt (components stack : string) (reqs : list dict) : string :=
  excerpt "Components" 2000 components +:+ excerpt "Stack" 500 stack
    +:+ "Design the API layer. Return ONLY valid JSON.".

Definition _codegen_prompt (stack api data components : string) : string :=
  excerpt "Stack" 1000 stack +:+ excerpt "API Design" 2000 api +:+ excerpt "Data Model" 2000 data
    +:+ excerpt "Components" 1000 components
    +:+ "Generate complete, production-ready code for ALL files. Return ONLY valid JSON.".

Definition _testing_prompt (stack api components : string) : string :=
  excerpt "Stack" 500 stack +:+ excerpt "API" 1500 api +:+ excerpt "Components" 1000 components
    +:+ "Design testing strategy. Return ONLY valid JSON.".

Definition _security_prompt (stack api components : string) : string :=
  excerpt "Stack" 500 stack +:+ excerpt "API" 1500 api +:+ excerpt "Components" 1000 components
    +:+ "Perform security analysis. Return ONLY valid JSON.".

Definition _optimization_prompt (stack components arch : string) : string :=
  excerpt "Stack" 500 stack +:+ excerpt "Components" 1000 components +:+ excerpt "Architecture" 1000 arch
    +:+ "Design optimization strategy. Return ONLY valid JSON.".

Definition _deployment_prompt (stack components : string) : string :=
  excerpt "Stack" 500 stack +:+ excerpt "Components" 1000 components
    +:+ "Design deployment infrastructure. Return ONLY valid JSON.".

(** [_repair_prompt] reads two entries of the context: the earlier errors and the
    analysis. *)
Definition _repair_prompt (errors : list string) (analysis : option string) : string :=
  let error_block :=
    match errors with
    | [] => "No prior errors"
    | _ => join nl (map (λ e, "  - " +:+ e) (py_last 5 errors))
    end in
  "Previous attempt errors:" +:+ nl +:+ error_block +:+ nl +:+ nl
    +:+ excerpt "Analysis" 2000 (default "No analysis available" analysis)
    +:+ "Analyze these failures and propose a repaired design. Return ONLY valid JSON.".

Definition _review_prompt (context : dict) : string :=
  "Full project context:" +:+ nl
    +:+ prefix 4000 (dumps_indent (JObj (map (λ '(k, v), (k, JStr (prefix 500 (py_str repr v)))) context)))
    +:+ nl +:+ nl +:+ "Perform final review. Return ONLY valid JSON.".

(** What is cut stays within [max_chars] and the three dots, unless the text is a
    JSON array of more than five elements, whose first five are kept whole. *)
Lemma compress_length text n :
  (∀ data, loads text = Some (JArr data) → (length data ≤ 5)%nat) →
  (String.length (_compress text n) ≤ n + 3)%nat.
Proof.
  intros Ha. assert (String.length (truncated text n) ≤ n + 3)%nat as Ht.
  { unfold truncated. rewrite length_append, prefix_length. cbn. lia. }
  unfold _compress. destruct (Nat.leb_spec (String.length text) n); [lia|].
  destruct (loads text) as [[| | | |data|data]|] eqn:E; try done.
  - specialize (Ha data eq_refl). destruct (Nat.ltb_spec 5 (length data)); [lia|done].
  - match goal with |- context [(?a <=? n)%nat] => destruct (Nat.leb_spec a n) end; [lia|done].
Qed.

Lemma excerpt_length title n text :
  String.length (excerpt title n text) = (String.length title + 4 + min n (String.length text))%nat.
Proof. unfold excerpt. rewrite !length_append, prefix_length. cbn. lia. Qed.
End prompts.
