(* ===== verification/ChainOfThought.v ===== *)
(** * Chain of thought ([noema/core/chain_of_thought.py])

    The planner, the dependency graph of the steps, its topological levels and the
    executor [reason], which runs the steps of a level concurrently.  The executor
    is a transition system: the coroutine [reason] and one task per running step,
    cut at their awaits, over the shared token budget ([Quotas]), model router
    ([ModelRouter]) and context.  The callbacks are taken to return. *)
From Stdlib Require Import ZArith QArith Lia Bool Ascii String.
From stdpp Require Import base option numbers sets strings pretty list.
From S2P Require Import Prelude Symbolic Quotas ModelRouter Prompts.
Local Open Scope string_scope.
Local Open Scope list_scope.
Local Open Scope nat_scope.

Inductive StepStatus := PENDING | RUNNING | COMPLETED | SKIPPED | FAILED.

#[global] Instance StepStatus_eq_dec : EqDecision StepStatus.
Proof. solve_decision. Defined.

Record CoTStep := mkStep {
  name : string;
  role : string;
  depends_on : list string;
  system_prompt : string;
  user_prompt : string;
  st_result : string;
  confidence : Q;
  status : StepStatus;
  duration_ms : Q;
  tokens_used : Z;
}.

Definition new_step (name role : string) (depends_on : list string) (system_prompt user_prompt : string) : CoTStep :=
  mkStep name role depends_on system_prompt user_prompt "" 0 PENDING 0 0.

Definition with_deps (s : CoTStep) (deps : list string) : CoTStep :=
  mkStep (name s) (role s) deps (system_prompt s) (user_prompt s) (st_result s) (confidence s) (status s)
    (duration_ms s) (tokens_used s).

Definition with_status (s : CoTStep) (x : StepStatus) : CoTStep :=
  mkStep (name s) (role s) (depends_on s) (system_prompt s) (user_prompt s) (st_result s) (confidence s) x
    (duration_ms s) (tokens_used s).

Definition with_result (s : CoTStep) (x : string) : CoTStep :=
  mkStep (name s) (role s) (depends_on s) (system_prompt s) (user_prompt s) x (confidence s) (status s)
    (duration_ms s) (tokens_used s).

Definition with_prompt (s : CoTStep) (x : string) : CoTStep :=
  mkStep (name s) (role s) (depends_on s) (system_prompt s) x (st_result s) (confidence s) (status s)
    (duration_ms s) (tokens_used s).

Definition status_value (x : StepStatus) : string :=
  match x with
  | PENDING => "pending" | RUNNING => "running" | COMPLETED => "completed" | SKIPPED => "skipped" | FAILED => "failed"
  end.

(** [round(x, n)] for [n] = 1 and 2. *)
Definition py_round (scale : Q) (x : Q) : Q := (inject_Z (round_half_even (x * scale)) / scale)%Q.

Definition to_dict (s : CoTStep) : dict :=
  [("name", JStr (name s)); ("role", JStr (role s)); ("status", JStr (status_value (status s)));
   ("duration_ms", JNum (py_round 10 (duration_ms s))); ("confidence", JNum (py_round 100 (confidence s)));
   ("tokens_used", JNum (inject_Z (tokens_used s)));
   ("result_preview", JStr (if nonempty (st_result s) then prefix 200 (st_result s) else ""))].

Record ThoughtNode := mkNode {
  tn_step : nat;
  tn_role : string;
  tn_prompt : string;
  tn_response : string;
  tn_name : string;
  tn_confidence : Q;
}.

(** ** The planner *)
Definition ALL_STEPS : list string :=
  ["repair"; "analysis"; "architecture"; "stack"; "components"; "data_model"; "api_design"; "codegen"; "testing";
   "security"; "optimization"; "deployment"; "review"].

Definition MINIMAL_STEPS : list string := ["analysis"; "architecture"; "stack"; "codegen"; "review"].

(** [l.insert(i, x)] *)
Definition list_insert {A} (i : nat) (x : A) (l : list A) : list A := take i l ++ x :: drop i l.

Definition any_tag (ts tags : list string) : bool := existsb (λ t, bool_decide (t ∈ map lower tags)) ts.

Definition plan (task_tags : list string) (complexity error_context : string) (past_attempts : list string)
    : list string :=
  if bool_decide (lower complexity ∈ ["trivial"; "simple"]) then MINIMAL_STEPS
  else
    let steps :=
      ["analysis"; "architecture"; "stack"; "components"]
      ++ (if any_tag ["data"; "database"] task_tags then ["data_model"] else [])
      ++ (if any_tag ["api"; "web"; "rest"] task_tags then ["api_design"] else [])
      ++ ["codegen"]
      ++ (if any_tag ["test"; "qa"] task_tags then ["testing"] else [])
      ++ (if any_tag ["security"; "auth"] task_tags then ["security"] else [])
      ++ (if any_tag ["performance"; "high-load"] task_tags then ["optimization"] else [])
      ++ ["deployment"; "review"] in
    if nonempty error_context && negb (bool_decide (past_attempts = [])) then
      list_insert (if bool_decide ("analysis" ∈ steps) then 1 else 0) "repair" steps
    else steps.

(** ** The dependency graph *)

(** [step_defs] of [_build_dag]; the analysis prompt is the only one known when the
    graph is built. *)
Definition step_defs (analyst_prompt : string) : list CoTStep :=
  [new_step "analysis" "analyst" [] _analyst_system analyst_prompt;
   new_step "architecture" "architect" ["analysis"] _architect_system "";
   new_step "stack" "architect" ["architecture"] _stack_system "";
   new_step "components" "architect" ["architecture"; "stack"] _component_system "";
   new_step "data_model" "developer" ["components"; "stack"] _data_model_system "";
   new_step "api_design" "developer" ["components"; "stack"] _api_system "";
   new_step "codegen" "developer" ["stack"; "api_design"; "data_model"; "components"] _codegen_system "";
   new_step "testing" "developer" ["codegen"; "stack"; "api_design"; "components"] _testing_system "";
   new_step "security" "reviewer" ["codegen"; "stack"; "api_design"; "components"] _security_system "";
   new_step "optimization" "optimizer" ["codegen"; "stack"; "components"; "architecture"] _optimization_system "";
   new_step "deployment" "devops" ["stack"; "components"] _deployment_system "";
   new_step "review" "reviewer"
     ["analysis"; "architecture"; "stack"; "components"; "data_model"; "api_design"; "codegen"; "testing";
      "security"; "optimization"; "deployment"] _review_system "";
   new_step "repair" "debugger" ["analysis"] _repair_system ""].

(** The step called [n] among [steps]. *)
Definition get_step (n : string) (steps : list CoTStep) : option CoTStep :=
  List.find (λ s, String.eqb (name s) n) steps.

Definition step_def (analyst_prompt n : string) : option CoTStep := get_step n (step_defs analyst_prompt).
Arguments step_def : simpl never.

Definition in_set (l : list string) (x : string) : bool := bool_decide (x ∈ l).

(** The steps [_build_dag] leaves in [self._steps]: the planned ones in the order of
    [ALL_STEPS], with their dependencies cut to planned steps. *)
Definition _build_dag (planned : list string) (analyst_prompt : string) : list CoTStep :=
  omap (λ n, s ← step_def analyst_prompt n; Some (with_deps s (List.filter (in_set planned) (depends_on s))))
    (List.filter (in_set planned) ALL_STEPS).

Arguments _build_dag : simpl never.

(** ** Topological levels (Kahn)

    One pass moves the ready steps of [remaining] into a level; [list.remove] takes
    out the first equal element, so that of equal steps, which are ready together,
    none stays behind. *)
Definition ready (added : list string) (s : CoTStep) : bool := forallb (in_set added) (depends_on s).

Fixpoint levels_loop (fuel : nat) (added : list string) (remaining : list CoTStep) : result pyexn (list (list CoTStep)) :=
  match remaining with
  | [] => Ok []
  | _ =>
      match fuel with
      | O => Err OutOfFuel
      | S fuel =>
          match List.partition (ready added) remaining with
          | ([], _) => Ok []
          | (level, rest) => ls ← levels_loop fuel (added ++ map name level) rest; Ok (level :: ls)
          end
      end
  end.

Definition _topological_levels (steps : list CoTStep) : result pyexn (list (list CoTStep)) :=
  levels_loop (length steps) [] steps.

(** Names that can ever be produced: those of a step all of whose dependencies
    can. *)
Inductive producible (steps : list CoTStep) : string → Prop :=
| produce s : s ∈ steps → (∀ d, d ∈ depends_on s → producible steps d) → producible steps (name s).

Definition schedulable (steps : list CoTStep) (s : CoTStep) : Prop :=
  s ∈ steps ∧ ∀ d, d ∈ depends_on s → producible steps d.

(** Levels over what was [added] before: each is non-empty, needs only what is
    there, and nothing of a later level could have run yet. *)
Fixpoint layered (added : list string) (ls : list (list CoTStep)) : Prop :=
  match ls with
  | [] => True
  | l :: ls =>
      l ≠ [] ∧ (∀ s, s ∈ l → ready added s = true) ∧ (∀ s, s ∈ concat ls → ready added s = false)
      ∧ layered (added ++ map name l) ls
  end.

Lemma in_set_spec l x : in_set l x = true ↔ x ∈ l.
Proof. apply bool_decide_eq_true. Qed.

Lemma ready_spec added s : ready added s = true ↔ ∀ d, d ∈ depends_on s → d ∈ added.
Proof.
  unfold ready. rewrite forallb_forall. setoid_rewrite in_set_spec. by setoid_rewrite list_elem_of_In.
Qed.

Lemma partition_spec {A} (f : A → bool) l :
  List.partition f l = (List.filter f l, List.filter (λ x, negb (f x)) l).
Proof. induction l as [|x l IH]; cbn; [done|]. rewrite IH. by destruct (f x). Qed.

Lemma elem_of_List_filter {A} (f : A → bool) l x : x ∈ List.filter f l ↔ f x = true ∧ x ∈ l.
Proof. rewrite list_elem_of_In, filter_In, <- list_elem_of_In. naive_solver. Qed.

Lemma filter_split {A} (f : A → bool) l : l ≡ₚ List.filter f l ++ List.filter (λ x, negb (f x)) l.
Proof.
  induction l as [|x l IH]; cbn; [done|]. destruct (f x); cbn; [by constructor|].
  rewrite <- Permutation_middle. by constructor.
Qed.

Lemma levels_loop_spec fuel added remaining :
  length remaining ≤ fuel →
  ∃ ls rest, levels_loop fuel added remaining = Ok ls ∧ remaining ≡ₚ concat ls ++ rest ∧ layered added ls
    ∧ ∀ s, s ∈ rest → ready (added ++ map name (concat ls)) s = false.
Proof.
  revert added remaining. induction fuel as [|fuel IH]; intros added [|s remaining] Hf; try (cbn in Hf; lia);
    [by exists [], []; split_and!; [..|set_solver]..|].
  cbn [levels_loop]. rewrite partition_spec.
  set (l := List.filter (ready added) (s :: remaining)).
  set (rest := List.filter (λ x, negb (ready added x)) (s :: remaining)).
  assert (s :: remaining ≡ₚ l ++ rest) as Hsp by apply filter_split.
  assert (∀ x, x ∈ rest → ready added x = false) as Hr.
  { intros x [Hx _]%elem_of_List_filter. by apply negb_true_iff. }
  assert (∀ x, x ∈ l → ready added x = true) as Hl by (by intros x [Hx _]%elem_of_List_filter).
  clearbody l rest. destruct l as [|x l].
  - exists [], rest. split_and!; [done|done|done|]. cbn. rewrite app_nil_r. done.
  - assert (length rest ≤ fuel) as Hlen.
    { apply Permutation_length in Hsp. rewrite length_app in Hsp. cbn in Hsp, Hf. lia. }
    destruct (IH (added ++ map name (x :: l)) rest Hlen) as (ls & rest' & E & Hp & Hlay & Hnr).
    exists ((x :: l) :: ls), rest'. rewrite E. split_and!.
    + done.
    + rewrite Hsp, Hp. cbn. by rewrite <- app_assoc.
    + cbn [layered]. split_and!; [done|done| |done].
      intros y Hy. apply Hr. rewrite Hp. set_solver.
    + intros y Hy. cbn [concat]. rewrite map_app, app_assoc. by apply Hnr.
Qed.

(** What [layered] says about a step of level [i]. *)
Lemma layered_at added ls i l s :
  layered added ls → ls !! i = Some l → s ∈ l →
  (∀ d, d ∈ depends_on s → d ∈ added ∨ ∃ j k, j < i ∧ ls !! j = Some k ∧ d ∈ map name k)
  ∧ (0 < i → ∃ d k, d ∈ depends_on s ∧ ls !! pred i = Some k ∧ d ∈ map name k).
Proof.
  revert added i. induction ls as [|l0 ls IH]; intros added i; [done|].
  intros (_ & Hin & Hout & Hlay) Hi Hs. destruct i as [|i]; cbn in Hi.
  - injection Hi as ->. split; [|lia]. intros d Hd. left. revert d Hd. by apply ready_spec, Hin.
  - destruct (IH _ _ Hlay Hi Hs) as [H1 H2]. split.
    + intros d Hd. destruct (H1 d Hd) as [[?|?]%elem_of_app|(j & k & ? & ? & ?)]; [by left| |].
      * right. exists 0, l0. split_and!; [lia|done..].
      * right. exists (S j), k. split_and!; [lia|done..].
    + intros _. destruct i as [|i].
      * assert (ready added s = false) as Hn.
        { apply Hout. rewrite list_elem_of_In, in_concat. exists l. rewrite <- !list_elem_of_In. split; [|done].
          by apply list_elem_of_lookup_2 with 0. }
        assert (ready (added ++ map name l0) s = true) as Hy.
        { destruct ls as [|l1 ls]; [done|]. cbn in Hi. injection Hi as ->. destruct Hlay as (_ & Hl & _). auto. }
        rewrite ready_spec in Hy. apply not_true_iff_false in Hn. rewrite ready_spec in Hn.
        destruct (decide (Exists (λ d, d ∉ added) (depends_on s))) as [(d & Hd & Hx)%Exists_exists|Hx].
        -- exists d, l0. split_and!; [done..|]. destruct (elem_of_app added (map name l0) d). set_solver.
        -- exfalso. apply Hn. intros d Hd. destruct (decide (d ∈ added)); [done|]. exfalso. apply Hx.
           apply Exists_exists. eauto.
      * destruct H2 as (d & k & ? & ? & ?); [lia|]. exists d, k. done.
Qed.

Lemma layered_producible steps added ls :
  layered added ls → (∀ s, s ∈ concat ls → s ∈ steps) → (∀ d, d ∈ added → producible steps d) →
  ∀ s, s ∈ concat ls → schedulable steps s.
Proof.
  revert added. induction ls as [|l ls IH]; intros added; [cbn; set_solver|].
  intros (_ & Hin & _ & Hlay) Hsub Ha s. cbn in Hsub |- *.
  assert (∀ s, s ∈ l → schedulable steps s) as Hl.
  { intros x Hx. split; [set_solver|]. intros d Hd. apply Ha. revert d Hd. by apply ready_spec, Hin. }
  intros [Hs|Hs]%elem_of_app; [by apply Hl|].
  eapply IH; [done|set_solver| |done].
  intros d [Hd|Hd]%elem_of_app; [by apply Ha|]. apply list_elem_of_fmap in Hd as (x & -> & Hx).
  destruct (Hl x Hx) as [? ?]. by constructor.
Qed.

(** What is left over when no step is ready can never run. *)
Lemma leftover_unschedulable steps ls rest :
  steps ≡ₚ concat ls ++ rest → (∀ s, s ∈ rest → ready (map name (concat ls)) s = false) →
  ∀ s, s ∈ rest → ¬ schedulable steps s.
Proof.
  intros Hp Hr. assert (∀ d, producible steps d → d ∈ map name (concat ls)) as Hprod.
  { induction 1 as [s Hs _ IH]. rewrite Hp in Hs. apply elem_of_app in Hs as [Hs|Hs].
    - apply list_elem_of_fmap. by exists s.
    - apply Hr in Hs. apply not_true_iff_false in Hs. exfalso. by apply Hs, ready_spec. }
  intros s Hs [_ Hd]. apply Hr in Hs. apply not_true_iff_false in Hs. apply Hs, ready_spec. auto.
Qed.

(** C7: [_topological_levels] always returns and is exact: the levels hold each step
    as often as the input does, exactly those steps whose dependencies can be
    produced (steps on or behind a cycle, or behind an unknown name, are dropped); a
    step's dependencies are produced in earlier levels, one of them in the level just
    before, so no step waits longer than its longest chain of dependencies. *)
Theorem topological_levels_exact steps :
  ∃ ls rest, _topological_levels steps = Ok ls ∧ steps ≡ₚ concat ls ++ rest
    ∧ (∀ s, s ∈ concat ls ↔ schedulable steps s) ∧ (∀ s, s ∈ rest → ¬ schedulable steps s)
    ∧ ∀ i l s, ls !! i = Some l → s ∈ l →
        (∀ d, d ∈ depends_on s → ∃ j k, j < i ∧ ls !! j = Some k ∧ d ∈ map name k)
        ∧ (0 < i → ∃ d k, d ∈ depends_on s ∧ ls !! pred i = Some k ∧ d ∈ map name k).
Proof.
  destruct (levels_loop_spec (length steps) [] steps) as (ls & rest & E & Hp & Hlay & Hr); [done|].
  assert (∀ s, s ∈ concat ls → schedulable steps s) as Hsch.
  { apply (layered_producible steps []); [done| |set_solver]. intros s Hs. rewrite Hp. set_solver. }
  pose proof (leftover_unschedulable _ _ _ Hp Hr) as Hrest.
  exists ls, rest. split_and!; [done|done| |done|].
  - intros s. split; [apply Hsch|]. intros Hs. pose proof Hs as [Hin _]. rewrite Hp in Hin.
    apply elem_of_app in Hin as [?|?]; [done|]. by apply Hrest in Hs.
  - intros i l s Hi Hs. destruct (layered_at _ _ _ _ _ Hlay Hi Hs) as [H1 H2]. split; [|done].
    intros d Hd. destruct (H1 d Hd) as [?|?]; [set_solver|done].
Qed.

(** A linear order of the steps in which dependencies come first. *)
Definition rank (n : string) : nat :=
  match list_find (λ x, n = x) ("analysis" :: ALL_STEPS) with Some (i, _) => i | None => 0 end.

Lemma step_defs_ranked p n :
  n ∈ ALL_STEPS →
  ∃ s, step_def p n = Some s ∧ name s = n
    ∧ (n ≠ "analysis" → user_prompt s = "")
    ∧ ∀ d, d ∈ depends_on s → d ∈ ALL_STEPS ∧ rank d < rank n.
Proof.
  set (ok := λ n, match step_def p n with
    | Some s => String.eqb (name s) n && (String.eqb n "analysis" || String.eqb (user_prompt s) "")
        && forallb (λ d, in_set ALL_STEPS d && (rank d <? rank n)) (depends_on s)
    | None => false end).
  assert (forallb ok ALL_STEPS = true) as H by (vm_compute; done).
  intros Hn. rewrite forallb_forall in H. specialize (H n). rewrite <- list_elem_of_In in H. specialize (H Hn).
  unfold ok in H. destruct (step_def p n) as [s|]; [|done]. exists s.
  apply andb_prop in H as [[H1%String.eqb_eq H2]%andb_prop H3]. split_and!; [done|done| |].
  - intros Hne. apply orb_prop in H2 as [?%String.eqb_eq|?%String.eqb_eq]; done.
  - rewrite forallb_forall in H3. intros d Hd. apply list_elem_of_In in Hd. specialize (H3 d Hd).
    apply andb_prop in H3 as [?%in_set_spec ?%Nat.ltb_lt]. done.
Qed.

Lemma elem_of_build_dag planned p s :
  s ∈ _build_dag planned p →
  ∃ s0, step_def p (name s) = Some s0 ∧ s = with_deps s0 (List.filter (in_set planned) (depends_on s0))
    ∧ name s ∈ planned ∧ name s ∈ ALL_STEPS.
Proof.
  unfold _build_dag. rewrite list_elem_of_omap. intros (n & [Hp Hn]%elem_of_List_filter & E).
  apply in_set_spec in Hp. destruct (step_defs_ranked p n Hn) as (s0 & E0 & <- & _ & _). rewrite E0 in E.
  cbn in E. injection E as <-. exists s0. done.
Qed.

Lemma build_dag_names planned p : map name (_build_dag planned p) = List.filter (in_set planned) ALL_STEPS.
Proof.
  assert (∀ l, (∀ n, n ∈ l → n ∈ ALL_STEPS) → map name (omap (λ n, s ← step_def p n;
    Some (with_deps s (List.filter (in_set planned) (depends_on s)))) l) = l) as H.
  { induction l as [|n l IH]; intros Hl; [done|].
    destruct (step_defs_ranked p n) as (s0 & E0 & Hn & _ & _); [apply Hl; set_solver|]. cbn. rewrite E0. cbn.
    rewrite IH by (intros; apply Hl; set_solver). by f_equal. }
  apply H. intros n [_ ?]%elem_of_List_filter. done.
Qed.

Lemma build_dag_dep planned p s d :
  s ∈ _build_dag planned p → d ∈ depends_on s →
  rank d < rank (name s) ∧ ∃ s', s' ∈ _build_dag planned p ∧ name s' = d.
Proof.
  intros (s0 & E0 & -> & Hp & Hn)%elem_of_build_dag Hd. cbn in *.
  apply elem_of_List_filter in Hd as [Hdp Hd]. apply in_set_spec in Hdp.
  destruct (step_defs_ranked p _ Hn) as (s1 & E1 & _ & _ & Hr). rewrite E0 in E1. injection E1 as <-.
  destruct (Hr d Hd) as [HdA Hlt]. split; [done|].
  assert (d ∈ map name (_build_dag planned p)) as Hin.
  { rewrite build_dag_names. apply elem_of_List_filter. by rewrite in_set_spec. }
  apply list_elem_of_fmap in Hin as (s' & -> & ?). by exists s'.
Qed.

Lemma build_dag_schedulable planned p s : s ∈ _build_dag planned p → schedulable (_build_dag planned p) s.
Proof.
  assert (∀ k s, rank (name s) < k → s ∈ _build_dag planned p → schedulable (_build_dag planned p) s) as H.
  { induction k as [|k IH]; [lia|]. intros x Hk Hx. split; [done|]. intros d Hd.
    destruct (build_dag_dep _ _ _ _ Hx Hd) as (Hlt & s' & Hs' & <-).
    destruct (IH s') as [_ ?]; [lia|done|]. by constructor. }
  apply (H (S (rank (name s)))). lia.
Qed.

(** Every planned step is scheduled. *)
Lemma build_dag_levels planned p :
  ∃ ls, _topological_levels (_build_dag planned p) = Ok ls ∧ concat ls ≡ₚ _build_dag planned p ∧ layered [] ls.
Proof.
  destruct (levels_loop_spec (length (_build_dag planned p)) [] (_build_dag planned p))
    as (ls & rest & E & Hp & Hlay & Hr); [done|].
  exists ls. split_and!; [done| |done]. destruct rest as [|s rest]; [by rewrite app_nil_r in Hp|]. exfalso.
  apply (leftover_unschedulable _ _ _ Hp Hr s); [set_solver|].
  apply build_dag_schedulable. rewrite Hp. set_solver.
Qed.

Lemma plan_known tags cx err past :
  NoDup (plan tags cx err past) ∧ ∀ n, n ∈ plan tags cx err past → n ∈ ALL_STEPS.
Proof.
  assert (∀ l, bool_decide (NoDup l ∧ Forall (λ n, n ∈ ALL_STEPS) l) = true →
    NoDup l ∧ ∀ n, n ∈ l → n ∈ ALL_STEPS) as H.
  { intros l [? Hl]%bool_decide_eq_true. split; [done|]. by apply Forall_forall. }
  apply H. unfold plan. destruct (bool_decide (lower cx ∈ _)); [vm_compute; done|].
  destruct (any_tag ["data"; "database"] tags), (any_tag ["api"; "web"; "rest"] tags), (any_tag ["test"; "qa"] tags),
    (any_tag ["security"; "auth"] tags), (any_tag ["performance"; "high-load"] tags);
    destruct (nonempty err && _); vm_compute; done.
Qed.

(** Whatever the tags, complexity and earlier errors, the planned steps (each
    planned once) are all scheduled: the levels of the graph built for the plan are a
    rearrangement of the plan, so no planned step is lost to a cycle or to a missing
    dependency. *)
Theorem plan_fully_scheduled tags cx err past prompt :
  ∃ ls, _topological_levels (_build_dag (plan tags cx err past) prompt) = Ok ls
    ∧ map name (concat ls) ≡ₚ plan tags cx err past ∧ NoDup (plan tags cx err past).
Proof.
  destruct (plan_known tags cx err past) as [Hnd Hin].
  destruct (build_dag_levels (plan tags cx err past) prompt) as (ls & E & Hp & _).
  exists ls. split_and!; [done| |done]. etrans; [apply Permutation_map, Hp|]. rewrite build_dag_names.
  apply NoDup_Permutation; [|done|].
  - apply NoDup_ListNoDup, List.NoDup_filter, NoDup_ListNoDup. apply (bool_decide_eq_true_1 _). by vm_compute.
  - intros n. rewrite elem_of_List_filter, in_set_spec. naive_solver.
Qed.

(** ** The context

    [self._context]: the fixed entries, the errors of earlier attempts if there are
    any, and the results of the steps in the order they were stored (the step names
    differ from the fixed keys). *)
Record Context := mkContext {
  c_task : string;
  c_tags : list string;
  c_requirements : list dict;
  c_knowledge : string;
  c_graph : string;
  c_ontology : string;
  _reflexion_errors : list string;
  results : list (string * string);
}.

Definition store (c : Context) (n r : string) : Context :=
  mkContext (c_task c) (c_tags c) (c_requirements c) (c_knowledge c) (c_graph c) (c_ontology c)
    (_reflexion_errors c) (dset n r (results c)).

(** [context.get(n, "")] for a step name. *)
Definition result_of (c : Context) (n : string) : string := default "" (dget n (results c)).

(** The context as the dictionary of the code. *)
Definition context_dict (c : Context) : dict :=
  [("task", JStr (c_task c)); ("tags", JArr (map JStr (c_tags c)));
   ("requirements", JArr (map JObj (c_requirements c))); ("knowledge", JStr (c_knowledge c));
   ("graph", JStr (c_graph c)); ("ontology", JStr (c_ontology c))]
  ++ (match _reflexion_errors c with [] => [] | es => [("_reflexion_errors", JArr (map JStr es))] end)
  ++ map (λ '(n, r), (n, JStr r)) (results c).

Record LLMResponse := mkResponse { content : string; r_tokens_used : option Z; finish_reason : string }.

Definition messages := (string * string)%type.

Section executor.
Context (loads : string → option json) (dumps dumps_indent : json → string) (repr : json → string).
(** The providers, the factory of the model router and the text of its exception. *)
Context {P : Type} (create : string → option string → option P) (create_error : string).
Context (llm : P).

Abbreviation compress := (_compress loads dumps repr).

(** The prompts that depend on the context only. *)
Definition context_prompt (c : Context) (n : string) : string :=
  let part n k := compress (result_of c n) k in
  if String.eqb n "architecture" then
    _architect_prompt (part "analysis" 2000) (c_graph c)
  else if String.eqb n "stack" then
    _stack_prompt (part "architecture" 2000) (c_tags c)
  else if String.eqb n "components" then
    _component_prompt (part "architecture" 1500) (part "stack" 800)
  else if String.eqb n "data_model" then
    _data_model_prompt repr (part "components" 1500) (part "stack" 400) (c_requirements c)
  else if String.eqb n "api_design" then
    _api_prompt (part "components" 1500) (part "stack" 400) (c_requirements c)
  else if String.eqb n "codegen" then
    _codegen_prompt (part "stack" 800) (part "api_design" 1500) (part "data_model" 1500) (part "components" 800)
  else if String.eqb n "testing" then
    _testing_prompt (part "stack" 400) (part "api_design" 1000) (part "components" 800)
  else if String.eqb n "security" then
    _security_prompt (part "stack" 400) (part "api_design" 1000) (part "components" 800)
  else if String.eqb n "optimization" then
    _optimization_prompt (part "stack" 400) (part "components" 800) (part "architecture" 800)
  else if String.eqb n "deployment" then
    _deployment_prompt (part "stack" 400) (part "components" 800)
  else if String.eqb n "review" then
    _review_prompt dumps_indent repr (context_dict c)
  else if String.eqb n "repair" then
    _repair_prompt (_reflexion_errors c) (dget "analysis" (results c))
  else "".

Arguments context_prompt : simpl never.

Definition _resolve_prompt (c : Context) (s : CoTStep) : string :=
  if String.eqb (name s) "analysis" then user_prompt s else context_prompt c (name s).

(** ** The state of a run

    A task is created by [reason], then runs up to the await of [complete], then
    to its end; the levels still to come, the steps of the current level not yet
    looked at and the counter [completed] are locals of [reason].  [calls] lists the
    calls of [complete] in the order they were made. *)
Inductive task_state :=
| Created
| Waiting
| Finished (e : option string).   (* the text of the exception, [None]: returned *)

Inductive event := StepStart (n detail : string) (completed total : nat) | StepEnd (n detail : string) (completed total : nat).

Record cot := mkCot {
  chain : list ThoughtNode;
  _context : Context;
  _steps : list CoTStep;
  _model_router : option (ModelRouter P);
  _token_budget : option Budget.TokenBudget;
  levels : list (list string);
  level : list string;
  tasks : list (string * task_state);
  completed : nat;
  calls : list (string * P * messages);
  events : list event;
}.

Definition update_step (n : string) (f : CoTStep → CoTStep) (steps : list CoTStep) : list CoTStep :=
  map (λ s, if String.eqb (name s) n then f s else s) steps.

Arguments get_step : simpl never.
Arguments update_step : simpl never.

(** [_execute_step] up to its await: [inl] the provider and messages of the call,
    [inr] the task is over. *)
Definition begin_step (c : Context) (budget : option Budget.TokenBudget) (router : option (ModelRouter P)) (s : CoTStep)
    : CoTStep * option Budget.TokenBudget * option (ModelRouter P) * (P * messages + option string) :=
  let s := with_prompt s (_resolve_prompt c s) in
  if negb (nonempty (user_prompt s)) then (with_status s SKIPPED, budget, router, inr None)
  else
    let msgs := (system_prompt s, user_prompt s) in
    let estimated_tokens := Z.of_nat (String.length (system_prompt s) + String.length (user_prompt s)) in
    match budget with
    | None => (s, None, router, inl (llm, msgs))
    | Some b =>
        let '(b, action) := Budget.check b (estimated_tokens / 2) (name s) in
        if bool_decide (action = Budget.SKIP) then
          (with_result (with_status s SKIPPED) ("[Budget skipped] Token budget exhausted for: " +:+ name s),
           Some b, router, inr None)
        else
          match router with
          | None => (s, Some b, None, inl (llm, msgs))
          | Some r =>
              let '(b, degrade) := Budget.should_degrade b in
              if (degrade : bool) then
                match select create r "simple" [] true with
                | (r, Ok p) => (s, Some b, Some r, inl (p, msgs))
                | (r, Err _) => (s, Some b, Some r, inr (Some create_error))
                end
              else (s, Some b, Some r, inl (llm, msgs))
          end
    end.

Definition response_confidence (r : LLMResponse) : Q :=
  if negb (nonempty (content r)) then 0
  else if String.eqb (finish_reason r) "length" then 4 # 10
  else if String.eqb (finish_reason r) "stop" then 7 # 10
  else 1 # 2.

(** [_execute_step] after its await. *)
Definition answered (s : CoTStep) (r : LLMResponse) (duration : Q) : CoTStep :=
  mkStep (name s) (role s) (depends_on s) (system_prompt s) (user_prompt s) (content r) (response_confidence r)
    (status s) duration (default 0%Z (r_tokens_used r)).

Definition record_tokens (r : LLMResponse) (budget : option Budget.TokenBudget) : option Budget.TokenBudget :=
  match budget, r_tokens_used r with
  | Some b, Some n => if Z.eqb n 0 then budget else Some (Budget.record b n)
  | _, _ => budget
  end.

Definition thought (k : nat) (s : CoTStep) (r : LLMResponse) : ThoughtNode :=
  mkNode (k + 1) (role s) (prefix 500 (user_prompt s)) (content r) (name s) (response_confidence r).

(** ** The actions of the event loop *)
Inductive action :=
| NextLevel                                             (* [for level in levels] *)
| Spawn                                                 (* the next [step in level] *)
| Begin (n : string)                                    (* a created task starts *)
| Answer (n : string) (duration : Q) (o : result string LLMResponse)   (* [complete] returns or raises *)
| Collect.                                              (* [gather] is done *)

Definition set_task (t : cot) (steps : list CoTStep) (n : string) (x : task_state) : cot :=
  mkCot (chain t) (_context t) steps (_model_router t) (_token_budget t) (levels t) (level t)
    (dset n x (tasks t)) (completed t) (calls t) (events t).

Definition all_finished (l : list (string * task_state)) : bool :=
  forallb (λ '(_, x), match x with Finished _ => true | _ => false end) l.

(** The loop over the results of [gather]: status and context of one step. *)
Definition collect_one (t : cot) (p : string * task_state) : cot :=
  let '(n, x) := p in
  match get_step n (_steps t) with
  | None => t
  | Some s =>
      let done := completed t + 1 in
      let fin c steps detail :=
        mkCot (chain t) c steps (_model_router t) (_token_budget t) (levels t) (level t) (tasks t) done (calls t)
          (events t ++ [StepEnd n detail done (length (_steps t))]) in
      match x with
      | Finished (Some e) =>
          fin (_context t) (update_step n (λ s, with_result (with_status s FAILED) ("Error: " +:+ e)) (_steps t))
            ("FAILED: " +:+ e)
      | _ =>
          if bool_decide (status s = SKIPPED) then fin (_context t) (_steps t) "SKIPPED"
          else fin (store (_context t) n (st_result s)) (update_step n (λ s, with_status s COMPLETED) (_steps t))
                 (prefix 200 (st_result s))
      end
  end.

Definition cot_step (t : cot) (a : action) : option cot :=
  match a with
  | NextLevel =>
      match level t, tasks t, levels t with
      | [], [], l :: ls =>
          Some (mkCot (chain t) (_context t) (_steps t) (_model_router t) (_token_budget t) ls l [] (completed t)
                  (calls t) (events t))
      | _, _, _ => None
      end
  | Spawn =>
      match level t with
      | [] => None
      | n :: rest =>
          match get_step n (_steps t) with
          | None => None
          | Some s =>
              let next steps ts k evs :=
                mkCot (chain t) (_context t) steps (_model_router t) (_token_budget t) (levels t) rest ts k (calls t)
                  (events t ++ evs) in
              if bool_decide (status s = SKIPPED) then Some (next (_steps t) (tasks t) (completed t + 1) [])
              else if bool_decide (status s = COMPLETED) then
                Some (next (_steps t) (tasks t) (completed t + 1)
                        [StepEnd n (prefix 200 (st_result s)) (completed t + 1) (length (_steps t))])
              else
                Some (next (update_step n (λ s, with_status s RUNNING) (_steps t)) (dset n Created (tasks t))
                        (completed t) [StepStart n (role s +:+ ":" +:+ n) (completed t) (length (_steps t))])
          end
      end
  | Begin n =>
      match dget n (tasks t), get_step n (_steps t) with
      | Some Created, Some s =>
          let '(s', budget, router, o) := begin_step (_context t) (_token_budget t) (_model_router t) s in
          let state := match o with inl _ => Waiting | inr e => Finished e end in
          let call := match o with inl (p, m) => [(n, p, m)] | inr _ => [] end in
          Some (mkCot (chain t) (_context t) (update_step n (λ _, s') (_steps t)) router budget (levels t) (level t)
                  (dset n state (tasks t)) (completed t) (calls t ++ call) (events t))
      | _, _ => None
      end
  | Answer n d o =>
      match dget n (tasks t), get_step n (_steps t) with
      | Some Waiting, Some s =>
          match o with
          | Err e => Some (set_task t (_steps t) n (Finished (Some e)))
          | Ok r =>
              let s' := answered s r d in
              Some (mkCot (chain t ++ [thought (length (chain t)) s' r]) (_context t)
                      (update_step n (λ _, s') (_steps t)) (_model_router t) (record_tokens r (_token_budget t))
                      (levels t) (level t) (dset n (Finished None) (tasks t)) (completed t) (calls t) (events t))
          end
      | _, _ => None
      end
  | Collect =>
      match level t, tasks t with
      | [], _ :: _ =>
          if all_finished (tasks t) then
            let t := foldl collect_one t (tasks t) in
            Some (mkCot (chain t) (_context t) (_steps t) (_model_router t) (_token_budget t) (levels t) (level t) []
                    (completed t) (calls t) (events t))
          else None
      | _, _ => None
      end
  end.

(** ** The run *)
Definition restore_step (resume_context : list (string * string)) (s : CoTStep) : CoTStep :=
  match dget (name s) resume_context with
  | Some r => with_result (with_status s COMPLETED) r
  | None => s
  end.

Definition restore_context (resume_context : list (string * string)) (c : Context) (s : CoTStep) : Context :=
  match dget (name s) resume_context with Some r => store c (name s) r | None => c end.

(** The arguments of [reason]; [reflexion_errors] and [resume_context] are empty when
    the code has [None]. *)
Record request := mkRequest {
  task_description : string;
  task_tags : list string;
  rq_requirements : list dict;
  knowledge_context : string;
  graph_context : string;
  ontology_context : string;
  complexity : string;
  reflexion_errors : list string;
  resume_context : list (string * string);
}.

Definition planned_steps (q : request) : list string :=
  plan (task_tags q) (complexity q) (join nl (py_last 3 (reflexion_errors q))) (reflexion_errors q).

Definition dag (q : request) : list CoTStep :=
  _build_dag (planned_steps q)
    (_analyst_prompt repr (task_description q) (task_tags q) (rq_requirements q) (knowledge_context q)
       (ontology_context q)).

Arguments dag : simpl never.

Definition initial_context (q : request) : Context :=
  mkContext (task_description q) (task_tags q) (rq_requirements q) (knowledge_context q) (graph_context q)
    (ontology_context q) (reflexion_errors q) [].

(** [reason] up to its loop over the levels. *)
Definition reason_start (router : option (ModelRouter P)) (budget : option Budget.TokenBudget) (q : request)
    : result pyexn cot :=
  let steps := map (restore_step (resume_context q)) (dag q) in
  ls ← _topological_levels steps;
  Ok (mkCot [] (foldl (restore_context (resume_context q)) (initial_context q) (dag q)) steps router budget
        (map (map name) ls) [] [] 0 [] [StepStart "planner" "Planner" 0 (length (planned_steps q))]).

(** [reason] returns when the levels are used up. *)
Definition reason_done (t : cot) : bool :=
  match levels t, level t, tasks t with [], [], [] => true | _, _, _ => false end.

Definition get_chain_summary (t : cot) : list dict :=
  map (λ n, [("step", JNum (inject_Z (Z.of_nat (tn_step n)))); ("role", JStr (tn_role n));
             ("response_preview", JStr (prefix 200 (tn_response n))); ("confidence", JNum (tn_confidence n))]) (chain t).

(** ** Reference evaluation

    [answer] is a language model whose reply depends on the messages only.  The
    reference evaluates the levels one after the other, every step of a level in the
    context the level started with. *)
Context (answer : messages → result string LLMResponse).

Definition eval_step (c : Context) (s : CoTStep) : option string :=
  match answer (system_prompt s, _resolve_prompt c s) with Ok r => Some (content r) | Err _ => None end.

Definition eval_into (steps : list CoTStep) (c acc : Context) (n : string) : Context :=
  match get_step n steps with
  | Some s =>
      if bool_decide (status s = COMPLETED) then acc
      else match eval_step c s with Some r => store acc n r | None => acc end
  | None => acc
  end.

Definition eval_level (steps : list CoTStep) (c : Context) (l : list string) : Context :=
  foldl (eval_into steps c) c l.

Definition reason_reference (steps : list CoTStep) (c : Context) (ls : list (list string)) : Context :=
  foldl (eval_level steps) c ls.

(** The call of step [n], if it was made. *)
Definition call_of (n : string) (cs : list (string * P * messages)) : option (string * P * messages) :=
  List.find (λ '(m, _, _), String.eqb m n) cs.

Arguments call_of : simpl never.

(** The transition system in which every call is answered by [answer]. *)
Definition oracle_step (t : cot) (a : action) : option cot :=
  match a with
  | Answer n d _ =>
      match call_of n (calls t) with
      | Some (_, _, msgs) => cot_step t (Answer n d (answer msgs))
      | None => None
      end
  | _ => cot_step t a
  end.

Lemma get_step_name n steps s : get_step n steps = Some s → name s = n ∧ s ∈ steps.
Proof. intros H. apply find_some in H as [? ?%String.eqb_eq]. by rewrite list_elem_of_In. Qed.

Lemma get_step_update n m f steps :
  (∀ s, name s = m → name (f s) = m) →
  get_step n (update_step m f steps) = if String.eqb n m then f <$> get_step n steps else get_step n steps.
Proof.
  intros Hf. unfold get_step, update_step. induction steps as [|s steps IH]; [by destruct (String.eqb n m)|].
  cbn [map List.find]. rewrite IH. destruct (String.eqb_spec (name s) m) as [E|E]; rewrite ?(Hf s E), ?E;
    destruct (String.eqb_spec n m) as [->|Hn]; rewrite ?String.eqb_refl; try done.
  - destruct (String.eqb_spec m n); [congruence|done].
  - destruct (String.eqb_spec (name s) m); done.
Qed.

Lemma update_step_names m f steps :
  (∀ s, name s = m → name (f s) = m) → map name (update_step m f steps) = map name steps.
Proof.
  intros Hf. unfold update_step. rewrite map_map. apply map_ext. intros s.
  destruct (String.eqb_spec (name s) m) as [E|]; [by rewrite Hf|done].
Qed.

Lemma resolve_with_prompt c c' s : _resolve_prompt c' (with_prompt s (_resolve_prompt c s)) = _resolve_prompt c' s.
Proof. unfold _resolve_prompt. cbn. by destruct (String.eqb (name s) "analysis"). Qed.

Lemma call_of_app n m p msgs cs :
  call_of n (cs ++ [(m, p, msgs)]) =
    match call_of n cs with Some x => Some x | None => if String.eqb m n then Some (m, p, msgs) else None end.
Proof.
  unfold call_of. induction cs as [|[[m' p'] x] cs IH]; cbn; [done|]. rewrite IH. by destruct (String.eqb m' n).
Qed.

Lemma call_of_None n cs : call_of n cs = None ↔ n ∉ map (λ '(m, _, _), m) cs.
Proof.
  unfold call_of. induction cs as [|[[m p] x] cs IH]; cbn; [set_solver|].
  destruct (String.eqb_spec m n) as [->|]; [set_solver|]. rewrite IH, not_elem_of_cons. naive_solver.
Qed.

(** No prompt of a known step is empty. *)
Lemma resolve_nonempty c s :
  name s ∈ ALL_STEPS → (name s = "analysis" → nonempty (user_prompt s) = true) →
  nonempty (_resolve_prompt c s) = true.
Proof.
  intros Hn Ha. unfold _resolve_prompt. destruct (String.eqb_spec (name s) "analysis") as [|Hne]; [auto|].
  assert (Forall (λ n, n ≠ "analysis" → nonempty (context_prompt c n) = true) ALL_STEPS) as H.
  { repeat constructor; intros; try done. unfold context_prompt, _architect_prompt, join.
    by destruct (nonempty (c_graph c)). }
  rewrite Forall_forall in H. by apply H.
Qed.

Lemma check_never_skips b n m : (Budget.check b n m).2 ≠ Budget.SKIP.
Proof. unfold Budget.check. repeat case_match; simplify_eq; done. Qed.

(** The router, if there is one, has its degraded provider at hand. *)
Definition routable (router : option (ModelRouter P)) : Prop :=
  match router with Some r => is_Some (dget "openai" (_providers r)) | None => True end.

Lemma begin_step_calls c budget router s :
  nonempty (_resolve_prompt c s) = true → routable router →
  ∃ budget' p, begin_step c budget router s =
    (with_prompt s (_resolve_prompt c s), budget', router, inl (p, (system_prompt s, _resolve_prompt c s))).
Proof.
  intros Hne Hr. unfold begin_step. cbn [user_prompt with_prompt system_prompt]. rewrite Hne. cbn [negb].
  destruct budget as [b|]; [|by eexists _, _].
  destruct (Budget.check b _ _) as [b' a] eqn:E.
  pose proof (check_never_skips b (Z.of_nat (String.length (system_prompt s)
    + String.length (_resolve_prompt c s)) / 2) (name s)) as Hs. cbn [name with_prompt] in E. rewrite E in Hs. cbn in Hs.
  rewrite bool_decide_eq_false_2 by done. destruct router as [r|]; [|by eexists _, _].
  destruct (Budget.should_degrade b') as [b2 d]. destruct d; [|by eexists _, _].
  destruct Hr as [p Hp]. unfold select, _get_provider, get_plain. cbn. rewrite Hp. by eexists _, _.
Qed.

(** ** The invariant of runs *)
Section run.
Context (steps0 : list CoTStep) (router0 : option (ModelRouter P)).
Context (Hnd0 : NoDup (map name steps0)) (Hroutable : routable router0).
Context (Hknown : ∀ s, s ∈ steps0 →
  name s ∈ ALL_STEPS ∧ (name s = "analysis" → nonempty (user_prompt s) = true) ∧ (status s = PENDING ∨ status s = COMPLETED)).

(** A step during the run and the step it started as. *)
Definition same_step (s0 s : CoTStep) : Prop :=
  name s = name s0 ∧ system_prompt s = system_prompt s0 ∧ (∀ c, _resolve_prompt c s = _resolve_prompt c s0).

Definition called (t : cot) (n : string) : Prop := is_Some (call_of n (calls t)).

Definition task_ok (t : cot) (n : string) (x : task_state) : Prop :=
  ∃ s0 s, get_step n steps0 = Some s0 ∧ get_step n (_steps t) = Some s ∧ same_step s0 s
    ∧ status s = RUNNING ∧ status s0 = PENDING
    ∧ match x with
      | Created => ¬ called t n
      | Waiting => ∃ p, call_of n (calls t) = Some (n, p, (system_prompt s0, _resolve_prompt (_context t) s0))
      | Finished None => called t n ∧ eval_step (_context t) s0 = Some (st_result s)
      | Finished (Some _) => called t n ∧ eval_step (_context t) s0 = None
      end.

Definition waiting_names (t : cot) : list string := level t ++ concat (levels t).

Record run_inv (t : cot) : Prop := mkInv {
  inv_nodup : NoDup ((tasks t).*1 ++ waiting_names t);
  inv_tasks : ∀ n x, (n, x) ∈ tasks t → task_ok t n x;
  inv_waiting : ∀ n, n ∈ waiting_names t →
    ∃ s, get_step n steps0 = Some s ∧ get_step n (_steps t) = Some s ∧ ¬ called t n;
  inv_settled : ∀ n s0, get_step n steps0 = Some s0 → n ∉ (tasks t).*1 → n ∉ waiting_names t →
    ∃ s, get_step n (_steps t) = Some s
      ∧ (status s0 = COMPLETED ∧ s = s0 ∧ ¬ called t n
         ∨ status s0 = PENDING ∧ called t n ∧ (status s = COMPLETED ∨ status s = FAILED));
  inv_calls : NoDup (map (λ '(m, _, _), m) (calls t)) ∧ ∀ n, called t n → n ∈ map name steps0;
  inv_router : _model_router t = router0;
}.

(** What the reference makes of the rest of the run. *)
Definition forecast (t : cot) : Context :=
  reason_reference steps0 (foldl (eval_into steps0 (_context t)) (_context t) ((tasks t).*1 ++ level t)) (levels t).

Lemma task_ok_frame t t' n x :
  get_step n (_steps t') = get_step n (_steps t) → call_of n (calls t') = call_of n (calls t) →
  _context t' = _context t → task_ok t n x → task_ok t' n x.
Proof. unfold task_ok, called. intros -> -> ->. done. Qed.

(** Changing the state of one task leaves the invariant to be shown for that task. *)
Lemma inv_change_task t t' n x y :
  run_inv t → (n, x) ∈ tasks t → tasks t' = dset n y (tasks t) →
  level t' = level t → levels t' = levels t → _context t' = _context t → _model_router t' = _model_router t →
  (∀ m, m ≠ n → get_step m (_steps t') = get_step m (_steps t) ∧ call_of m (calls t') = call_of m (calls t)) →
  NoDup (map (λ '(m, _, _), m) (calls t')) →
  task_ok t' n y → run_inv t' ∧ forecast t' = forecast t.
Proof.
  intros Hinv Hin Ht Hl Hls Hc Hr Hframe Hcalls Hok.
  assert (n ∈ (tasks t).*1) as Hn by (apply list_elem_of_fmap; by exists (n, x)).
  assert ((tasks t').*1 = (tasks t).*1) as Hk by (rewrite Ht; by apply dset_keys_mem).
  assert (waiting_names t' = waiting_names t) as Hw by (unfold waiting_names; by rewrite Hl, Hls).
  pose proof (inv_nodup _ Hinv) as Hnd. pose proof (list.NoDup_app (tasks t).*1 (waiting_names t)) as [Hsplit _].
  destruct (Hsplit Hnd) as (Hnd1 & Hdisj & _).
  split; [|unfold forecast; by rewrite Hk, Hl, Hls, Hc]. constructor.
  - by rewrite Hk, Hw.
  - intros m z Hm. destruct (decide (m = n)) as [->|Hmn].
    + assert (dget n (tasks t') = Some z) as Hz by (apply dget_mem; [by rewrite Hk|done]).
      rewrite Ht, dget_dset_eq in Hz. by injection Hz as <-.
    + destruct (Hframe m Hmn) as [? ?]. apply (task_ok_frame t); [done..|]. apply (inv_tasks _ Hinv).
      apply dget_Some_mem. rewrite <- (dget_dset_ne m n y) by done. rewrite <- Ht. apply dget_mem; [by rewrite Hk|done].
  - intros m Hm. rewrite Hw in Hm. assert (m ≠ n) as Hmn by (intros ->; by apply (Hdisj n)).
    destruct (Hframe m Hmn) as [E1 E2]. unfold called. rewrite E1, E2. by apply (inv_waiting _ Hinv).
  - intros m s0 Hm Hm1 Hm2. rewrite Hk in Hm1. rewrite Hw in Hm2. assert (m ≠ n) as Hmn by naive_solver.
    destruct (Hframe m Hmn) as [E1 E2]. unfold called. rewrite E1, E2. by apply (inv_settled _ Hinv).
  - split; [done|]. intros m Hm. destruct (decide (m = n)) as [->|Hmn].
    + destruct Hok as (s0 & s & H0 & _). apply get_step_name in H0 as [<- ?]. apply list_elem_of_fmap. by exists s0.
    + destruct (Hframe m Hmn) as [E1 E2]. apply (inv_calls _ Hinv). unfold called in *. by rewrite <- E2.
  - rewrite Hr. apply (inv_router _ Hinv).
Qed.

Lemma inv_begin t t' n : run_inv t → cot_step t (Begin n) = Some t' → run_inv t' ∧ forecast t' = forecast t.
Proof.
  intros Hinv E. cbn in E. destruct (dget n (tasks t)) as [[| |]|] eqn:Ed; try done.
  apply dget_Some_mem in Ed. pose proof (inv_tasks _ Hinv _ _ Ed) as (s0 & s & H0 & Hs & Hsame & Hst & Hst0 & Hnc).
  destruct Hsame as (Hname & Hsys & Hres). rewrite Hs in E.
  destruct (get_step_name _ _ _ H0) as [Hn0 Hin0]. destruct (Hknown s0 Hin0) as (HA & Hpr & _).
  destruct (begin_step_calls (_context t) (_token_budget t) (_model_router t) s) as (b' & p & Eb).
  { rewrite Hres. by apply resolve_nonempty. }
  { by rewrite (inv_router _ Hinv). }
  rewrite Eb in E. injection E as <-.
  assert (call_of n (calls t) = None) as Hcn by (by apply eq_None_not_Some).
  eapply (inv_change_task _ _ n Created Waiting); cbn; try done.
  - intros m Hm. rewrite get_step_update by (intros; cbn; congruence). rewrite call_of_app.
    destruct (String.eqb_spec m n), (String.eqb_spec n m); try congruence. by destruct (call_of m (calls t)).
  - rewrite map_app. cbn. apply list.NoDup_app. split_and!; [apply (inv_calls _ Hinv)| |apply NoDup_singleton].
    apply call_of_None in Hcn. set_solver.
  - exists s0, (with_prompt s (_resolve_prompt (_context t) s)). cbn. split_and!; try done.
    + rewrite get_step_update by (intros; cbn; congruence). by rewrite String.eqb_refl, Hs.
    + split_and!; cbn; [done..|]. intros c. by rewrite resolve_with_prompt.
    + exists p. rewrite call_of_app, Hcn, String.eqb_refl. by rewrite Hsys, Hres.
Qed.

Lemma inv_answer t t' n d o : run_inv t → oracle_step t (Answer n d o) = Some t' → run_inv t' ∧ forecast t' = forecast t.
Proof.
  intros Hinv E. cbn in E. destruct (call_of n (calls t)) as [[[m p] msgs]|] eqn:Ec; [|done].
  destruct (dget n (tasks t)) as [[| |]|] eqn:Ed; try done.
  apply dget_Some_mem in Ed. pose proof (inv_tasks _ Hinv _ _ Ed) as (s0 & s & H0 & Hs & Hsame & Hst & Hst0 & p' & Hc).
  rewrite Ec in Hc. injection Hc as -> <- ->. rewrite Hs in E.
  assert (called t n) as Hcalled by (unfold called; rewrite Ec; eauto).
  destruct (answer _) as [r|e] eqn:Ea; injection E as <-;
    eapply (inv_change_task _ _ n Waiting _); cbn; try done; try (by apply (inv_calls _ Hinv)).
  - intros k Hk. rewrite get_step_update by (intros; cbn; apply get_step_name in Hs; naive_solver).
    by destruct (String.eqb_spec k n).
  - exists s0, (answered s r d). destruct Hsame as (? & ? & Hres). split_and!; try done.
    + cbn. rewrite get_step_update by (intros; cbn; apply get_step_name in Hs; naive_solver).
      by rewrite String.eqb_refl, Hs.
    + unfold eval_step. cbn. by rewrite Ea.
  - exists s0, s. split_and!; try done. unfold eval_step. cbn. by rewrite Ea.
Qed.

Lemma inv_next t t' : run_inv t → cot_step t NextLevel = Some t' → run_inv t' ∧ forecast t' = forecast t.
Proof.
  intros Hinv E. cbn in E. destruct (level t) eqn:El; [|done]. destruct (tasks t) eqn:Et; [|done].
  destruct (levels t) as [|l ls] eqn:Els; [done|]. injection E as <-.
  assert (∀ (P : list string → Prop), P (waiting_names t) → P (l ++ concat ls)) as Hw.
  { intros Q. unfold waiting_names. by rewrite El, Els. }
  split; [|unfold forecast; cbn; by rewrite El, Els, Et].
  destruct Hinv as [H1 H2 H3 H4 H5 H6]. constructor; cbn; try done; unfold waiting_names in *; rewrite ?El, ?Els, ?Et in *; done.
Qed.

Lemma inv_spawn t t' : run_inv t → cot_step t Spawn = Some t' → run_inv t' ∧ forecast t' = forecast t.
Proof.
  intros Hinv E. cbn in E. destruct (level t) as [|n rest] eqn:El; [done|].
  assert (waiting_names t = n :: rest ++ concat (levels t)) as Hw by (unfold waiting_names; by rewrite El).
  destruct (inv_waiting _ Hinv n) as (s & H0 & Hs & Hnc); [rewrite Hw; set_solver|]. rewrite Hs in E.
  destruct (get_step_name _ _ _ H0) as [Hn0 Hin0]. destruct (Hknown s Hin0) as (_ & _ & Hst).
  pose proof (inv_nodup _ Hinv) as Hnd. rewrite Hw in Hnd.
  rewrite bool_decide_eq_false_2 in E by (destruct Hst; congruence).
  destruct Hst as [Hst|Hst].
  - rewrite bool_decide_eq_false_2 in E by congruence. injection E as <-.
    assert (n ∉ (tasks t).*1) as Hfresh.
    { apply list.NoDup_app in Hnd as (_ & Hd & _). intros Hx. apply (Hd n Hx). set_solver. }
    split; [|unfold forecast; cbn; rewrite dset_keys_fresh, fmap_app, <- app_assoc, El by done; done].
    assert (∀ m, m ≠ n → get_step m (update_step n (λ s, with_status s RUNNING) (_steps t)) = get_step m (_steps t))
      as Hframe.
    { intros m Hm. rewrite get_step_update by done. by destruct (String.eqb_spec m n). }
    assert (∀ m, m ∈ rest ++ concat (levels t) → m ≠ n) as Hne.
    { intros m Hm ->. apply list.NoDup_app in Hnd as (_ & _ & Hd). apply list.NoDup_cons in Hd as [Hd _]. done. }
    constructor; cbn; try apply Hinv.
    + rewrite dset_keys_fresh, fmap_app by done. unfold waiting_names. cbn. by rewrite <- app_assoc.
    + intros m x. rewrite dset_keys_fresh by done. intros [Hm|Hm%list_elem_of_singleton]%elem_of_app.
      * apply (task_ok_frame t); cbn; [|done|done|by apply (inv_tasks _ Hinv)]. apply Hframe. intros ->.
        apply Hfresh. apply list_elem_of_fmap. by exists (n, x).
      * injection Hm as -> ->. exists s, (with_status s RUNNING). split_and!; cbn; try done.
        rewrite get_step_update by done. by rewrite String.eqb_refl, Hs.
    + intros m Hm. unfold waiting_names in Hm. cbn in Hm. rewrite Hframe by auto.
      apply (inv_waiting _ Hinv). rewrite Hw. set_solver.
    + intros m s0 Hm Hm1 Hm2. unfold waiting_names in Hm2. cbn in Hm2.
      rewrite elem_of_dset_keys in Hm1. rewrite Hframe by naive_solver.
      apply (inv_settled _ Hinv m s0 Hm); [naive_solver|]. rewrite Hw. apply not_elem_of_cons. naive_solver.
  - rewrite bool_decide_eq_true_2 in E by done. injection E as <-.
    split.
    + constructor; cbn; try apply Hinv.
      * unfold waiting_names. cbn. apply (sublist_NoDup _ _ Hnd). apply sublist_app; [done|]. by apply sublist_cons.
      * intros m Hm. apply (inv_waiting _ Hinv). rewrite Hw. unfold waiting_names in Hm. cbn in Hm. set_solver.
      * intros m s0 Hm Hm1 Hm2. destruct (decide (m = n)) as [->|Hmn].
        -- rewrite H0 in Hm. injection Hm as <-. exists s. split; [done|]. by left.
        -- apply (inv_settled _ Hinv m s0 Hm); [done|]. rewrite Hw. unfold waiting_names in Hm2. cbn in Hm2.
           apply not_elem_of_cons. done.
    + unfold forecast. cbn. rewrite El, !foldl_app. cbn. f_equal. f_equal.
      unfold eval_into at 2. rewrite H0. by rewrite bool_decide_eq_true_2.
Qed.

(** The collection of the results [l], evaluated in the context [c0]. *)
Lemma collect_loop c0 l t :
  NoDup l.*1 → all_finished l = true →
  (∀ n x, (n, x) ∈ l → ∃ s0 s, get_step n steps0 = Some s0 ∧ get_step n (_steps t) = Some s ∧ same_step s0 s
     ∧ status s = RUNNING ∧ status s0 = PENDING
     ∧ match x with Finished None => eval_step c0 s0 = Some (st_result s) | _ => eval_step c0 s0 = None end) →
  let t' := foldl collect_one t l in
  _context t' = foldl (eval_into steps0 c0) (_context t) l.*1
  ∧ levels t' = levels t ∧ level t' = level t ∧ calls t' = calls t ∧ _model_router t' = _model_router t
  ∧ (∀ m, m ∉ l.*1 → get_step m (_steps t') = get_step m (_steps t))
  ∧ (∀ m, m ∈ l.*1 → ∃ s, get_step m (_steps t') = Some s ∧ (status s = COMPLETED ∨ status s = FAILED)).
Proof.
  revert t. induction l as [|[n x] l IH]; intros t Hnd Hfin Hok; [cbn; split_and!; try done; set_solver|].
  apply list.NoDup_cons in Hnd as [Hn Hnd]. cbn in Hfin. apply andb_prop in Hfin as [Hx Hfin].
  destruct (Hok n x) as (s0 & s & H0 & Hs & Hsame & Hst & Hst0 & Hev); [set_solver|].
  cbn [foldl fmap list_fmap].
  set (t1 := collect_one t (n, x)).
  assert (_context t1 = eval_into steps0 c0 (_context t) n ∧ levels t1 = levels t ∧ level t1 = level t
    ∧ calls t1 = calls t ∧ _model_router t1 = _model_router t
    ∧ (∀ m, m ≠ n → get_step m (_steps t1) = get_step m (_steps t))
    ∧ ∃ s, get_step n (_steps t1) = Some s ∧ (status s = COMPLETED ∨ status s = FAILED)) as H1.
  { unfold t1, collect_one, eval_into. rewrite Hs, H0. rewrite (bool_decide_eq_false_2 (status s0 = COMPLETED)) by congruence.
    rewrite (bool_decide_eq_false_2 (status s = SKIPPED)) by congruence.
    destruct x as [| |[e|]]; try done; cbn; rewrite Hev; split_and!; try done;
      try (intros m Hm; rewrite get_step_update by done; by destruct (String.eqb_spec m n));
      rewrite get_step_update, String.eqb_refl, Hs by done; cbn; (eexists; split; [done|]; cbn; auto). }
  destruct H1 as (Ec & Els & El & Ecl & Er & Hfr & Hdone). clearbody t1.
  destruct (IH t1 Hnd Hfin) as (F1 & F2 & F3 & F4 & F5 & F6 & F7).
  { intros m y Hm. rewrite Hfr; [apply Hok; set_solver|]. intros ->. apply Hn, list_elem_of_fmap. by exists (n, y). }
  rewrite F1, F2, F3, F4, F5, Ec, Els, El, Ecl, Er. split_and!; try done.
  - intros m [? ?]%not_elem_of_cons. by rewrite F6, Hfr.
  - intros m [->|?]%elem_of_cons; [|by apply F7]. by rewrite F6.
Qed.

Lemma all_finished_elem l n x : all_finished l = true → (n, x) ∈ l → ∃ e, x = Finished e.
Proof.
  unfold all_finished. rewrite forallb_forall. intros H Hx%list_elem_of_In. specialize (H _ Hx).
  destruct x; [done|done|eauto].
Qed.

Lemma inv_collect t t' : run_inv t → cot_step t Collect = Some t' → run_inv t' ∧ forecast t' = forecast t.
Proof.
  intros Hinv E. cbn in E. destruct (level t) eqn:El; [|done].
  pose proof (inv_nodup _ Hinv) as Hnd. apply list.NoDup_app in Hnd as (Hndt & Hdisj & Hndw).
  destruct (tasks t) as [|p l] eqn:Et; [done|]. rewrite <- Et in *.
  destruct (all_finished (tasks t)) eqn:Ef; [|done]. injection E as <-.
  destruct (collect_loop (_context t) (tasks t) t) as (F1 & F2 & F3 & F4 & F5 & F6 & F7); [done|done| |].
  { intros n x Hx. destruct (inv_tasks _ Hinv _ _ Hx) as (s0 & s & ? & ? & ? & ? & ? & Hm). exists s0, s.
    destruct (all_finished_elem _ _ _ Ef Hx) as [[e|] ->]; destruct Hm; split_and!; done. }
  set (t1 := foldl collect_one t (tasks t)) in *. clearbody t1.
  assert (∀ n, n ∈ (tasks t).*1 → ∃ s0, get_step n steps0 = Some s0 ∧ status s0 = PENDING ∧ called t n) as Hcalled.
  { intros n Hn. apply list_elem_of_fmap in Hn as ([n' x] & -> & Hx).
    destruct (inv_tasks _ Hinv _ _ Hx) as (s0 & s & ? & ? & ? & ? & ? & Hm). exists s0.
    destruct (all_finished_elem _ _ _ Ef Hx) as [[e|] ->]; destruct Hm; split_and!; done. }
  split.
  - constructor; cbn.
    + unfold waiting_names in *. cbn. by rewrite F2, F3.
    + set_solver.
    + intros n Hn. assert (n ∈ waiting_names t) as Hn' by (unfold waiting_names in *; cbn in Hn; by rewrite <- F2, <- F3).
      unfold called. cbn. rewrite F4, F6; [by apply (inv_waiting _ Hinv)|]. intros Hx. by apply (Hdisj n).
    + intros n s0 H0 _ Hn. assert (n ∉ waiting_names t) as Hn' by (unfold waiting_names in *; cbn in Hn; by rewrite <- F2, <- F3).
      unfold called. cbn. rewrite F4. destruct (decide (n ∈ (tasks t).*1)) as [Hin|Hout].
      * destruct (F7 n Hin) as (s & Hs & Hst). destruct (Hcalled n Hin) as (s0' & H0' & ? & ?).
        rewrite H0 in H0'. injection H0' as <-. exists s. split; [done|]. right. done.
      * rewrite F6 by done. by apply (inv_settled _ Hinv).
    + unfold called. cbn. rewrite F4. apply (inv_calls _ Hinv).
    + rewrite F5. apply (inv_router _ Hinv).
  - unfold forecast. cbn. rewrite F1, F2, F3, El. cbn. by rewrite app_nil_r.
Qed.

Lemma inv_step t a t' : run_inv t → oracle_step t a = Some t' → run_inv t' ∧ forecast t' = forecast t.
Proof.
  intros Hinv E. destruct a; [eapply inv_next|eapply inv_spawn|eapply inv_begin|eapply inv_answer|eapply inv_collect]; done.
Qed.

Lemma run_forecast acts t t' :
  run_inv t → exec oracle_step t acts = Some t' → run_inv t' ∧ forecast t' = forecast t.
Proof.
  intros Hinv Hr. revert Hr. revert Hinv. revert t. induction acts as [|a acts IH]; intros t Hinv Hr; cbn in Hr;
    [by injection Hr as <-|]. destruct (oracle_step t a) as [t1|] eqn:E; [|done].
  destruct (inv_step _ _ _ Hinv E) as [H1 <-]. by apply IH.
Qed.

(** ** Progress *)
Definition weight (x : task_state) : nat := match x with Created => 3 | Waiting => 2 | Finished _ => 1 end.

Definition work (t : cot) : nat :=
  length (levels t) + 4 * length (concat (levels t)) + 4 * length (level t) + sum_list_with weight (tasks t).*2.

Lemma work_dset (n : string) x y l :
  dget n l = Some x → sum_list_with weight (dset n y l).*2 + weight x = sum_list_with weight l.*2 + weight y.
Proof.
  induction l as [|[m z] l IH]; [done|]. rewrite dget_cons, dset_cons. case_decide; intros E.
  - injection E as <-. cbn. lia.
  - specialize (IH E). cbn. lia.
Qed.

Lemma work_decreases t a t' : run_inv t → oracle_step t a = Some t' → work t' < work t.
Proof.
  intros Hinv E. destruct a as [| |n|n d o|]; cbn in E.
  - destruct (level t) eqn:El; [|done]. destruct (tasks t) eqn:Et; [|done].
    destruct (levels t) as [|l ls] eqn:Els; [done|]. injection E as <-. unfold work. cbn. rewrite El, Els, Et. cbn.
    rewrite length_app. lia.
  - destruct (level t) as [|n rest] eqn:El; [done|].
    assert (dget n (tasks t) = None) as Hfresh.
    { apply dget_None. pose proof (inv_nodup _ Hinv) as Hnd. apply list.NoDup_app in Hnd as (_ & Hd & _).
      intros Hx. apply (Hd n Hx). unfold waiting_names. rewrite El. set_solver. }
    destruct (get_step n (_steps t)) as [s|]; [|done].
    do 2 (case_bool_decide; [injection E as <-; unfold work; cbn; rewrite El; cbn; lia|]).
    injection E as <-. unfold work. cbn. rewrite El, dset_keys_fresh, fmap_app by (by apply dget_None).
    rewrite sum_list_with_app. cbn. lia.
  - destruct (dget n (tasks t)) as [[| |]|] eqn:Ed; try done. destruct (get_step n (_steps t)) as [s|]; [|done].
    destruct (begin_step _ _ _ _) as [[[s' b] r] o]. injection E as <-. unfold work. cbn.
    pose proof (work_dset n Created (match o with inl _ => Waiting | inr e => Finished e end) _ Ed) as H. cbn in H.
    destruct o; cbn in *; lia.
  - destruct (call_of n (calls t)) as [[[m p] msgs]|]; [|done].
    destruct (dget n (tasks t)) as [[| |]|] eqn:Ed; try done. destruct (get_step n (_steps t)) as [s|]; [|done].
    destruct (answer msgs) as [r|e]; injection E as <-; unfold work; cbn.
    + pose proof (work_dset n Waiting (Finished None) _ Ed) as H. cbn in H. lia.
    + pose proof (work_dset n Waiting (Finished (Some e)) _ Ed) as H. cbn in H. lia.
  - destruct (level t) eqn:El; [|done]. destruct (tasks t) as [|p l] eqn:Et; [done|].
    destruct (all_finished (p :: l)) eqn:Ef; [|done]. injection E as <-.
    assert (∀ k u, levels (foldl collect_one u k) = levels u ∧ level (foldl collect_one u k) = level u) as Hk.
    { induction k as [|[n x] k IH]; intros u; [done|]. cbn [foldl]. destruct (IH (collect_one u (n, x))) as [-> ->].
      unfold collect_one. destruct (get_step n (_steps u)); [|done]. by repeat case_match. }
    unfold work. cbn [levels level tasks]. destruct (Hk (p :: l) t) as [F1 F2]. cbn [foldl] in F1, F2.
    rewrite F1, F2, El, Et. cbn.
    destruct p as [n x]. cbn. destruct x; cbn; lia.
Qed.

Lemma unfinished_elem l : all_finished l = false → ∃ n x, (n, x) ∈ l ∧ 1 < weight x.
Proof.
  induction l as [|[n x] l IH]; [done|]. cbn. intros H. destruct x as [| |e].
  - exists n, Created. split; [set_solver|cbn; lia].
  - exists n, Waiting. split; [set_solver|cbn; lia].
  - destruct (IH H) as (m & y & ? & ?). exists m, y. split; [set_solver|done].
Qed.

(** A run that is not over can go on. *)
Lemma run_progress t : run_inv t → reason_done t = false → ∃ a t', oracle_step t a = Some t'.
Proof.
  intros Hinv Hd.
  destruct (all_finished (tasks t)) eqn:Hfin; [|apply unfinished_elem in Hfin as (n & x & Hin & Hx)].
  2:{ pose proof (inv_tasks _ Hinv _ _ Hin) as (s0 & s & _ & Hs & _ & _ & _ & Hm).
    assert (dget n (tasks t) = Some x) as Hg.
    { apply dget_mem; [|done]. pose proof (inv_nodup _ Hinv) as Hnd. by apply list.NoDup_app in Hnd as (? & _). }
    destruct x as [| |]; [| |cbn in Hx; lia].
    - exists (Begin n). cbn. rewrite Hg, Hs. destruct (begin_step _ _ _ _) as [[[? ?] ?] ?]. eauto.
    - destruct Hm as [p Hc]. exists (Answer n 0 (Err "")). cbn. rewrite Hc, Hg, Hs. destruct (answer _); eauto. }
  unfold reason_done in Hd. destruct (level t) as [|n rest] eqn:El.
  - destruct (tasks t) as [|p l] eqn:Et.
    + destruct (levels t) as [|l ls] eqn:Els; [done|]. exists NextLevel. cbn. rewrite El, Et, Els. eauto.
    + exists Collect. cbn. rewrite El, Et, Hfin. eauto.
  - destruct (inv_waiting _ Hinv n) as (s & _ & Hs & _); [unfold waiting_names; rewrite El; set_solver|].
    exists Spawn. cbn. rewrite El, Hs. repeat case_match; eauto.
Qed.
End run.

(** ** From the start *)
Lemma levels_loop_map (f : CoTStep → CoTStep) fuel added l :
  (∀ s, name (f s) = name s ∧ depends_on (f s) = depends_on s) →
  levels_loop fuel added (map f l) = (map (map f)) <$> levels_loop fuel added l.
Proof.
  intros Hf. revert added l. induction fuel as [|fuel IH]; intros added [|s l]; try done.
  cbn [levels_loop]. change (map f (s :: l)) with (f s :: map f l) at 1. cbn [levels_loop].
  change (f s :: map f l) with (map f (s :: l)). rewrite !partition_spec.
  assert (∀ g, (∀ x, g (f x) = g x) → ∀ k, List.filter g (map f k) = map f (List.filter g k)) as Hfil.
  { intros g Hg. induction k as [|x k IHk]; [done|]. cbn. rewrite Hg, IHk. by destruct (g x). }
  assert (∀ x, ready added (f x) = ready added x) as Hr by (intros x; unfold ready; by destruct (Hf x) as [_ ->]).
  rewrite !Hfil by (intros x; by rewrite ?Hr). destruct (List.filter (ready added) (s :: l)) as [|x k]; [done|].
  assert (map name (map f (x :: k)) = map name (x :: k)) as Hn.
  { rewrite map_map. apply map_ext. intros y. apply Hf. }
  change (map f (x :: k)) with (f x :: map f k) in *. rewrite Hn, IH. by destruct (levels_loop fuel _ _).
Qed.

Lemma restore_same rc s : name (restore_step rc s) = name s ∧ depends_on (restore_step rc s) = depends_on s.
Proof. unfold restore_step. by destruct (dget (name s) rc). Qed.

Lemma analyst_prompt_nonempty task tags reqs k o : nonempty (_analyst_prompt repr task tags reqs k o) = true.
Proof. done. Qed.

Lemma get_step_elem s steps : NoDup (map name steps) → s ∈ steps → get_step (name s) steps = Some s.
Proof.
  unfold get_step. induction steps as [|x steps IH]; cbn; [set_solver|].
  intros [Hx Hnd]%list.NoDup_cons [->|Hs]%elem_of_cons; [by rewrite String.eqb_refl|].
  destruct (String.eqb_spec (name x) (name s)) as [E|]; [|auto]. exfalso. apply Hx, list_elem_of_fmap. by exists s.
Qed.

Lemma dag_nodup q : NoDup (map name (dag q)).
Proof.
  unfold dag. rewrite build_dag_names. apply NoDup_ListNoDup, List.NoDup_filter, NoDup_ListNoDup.
  apply (bool_decide_eq_true_1 _). by vm_compute.
Qed.

Lemma dag_step q s :
  s ∈ dag q →
  name s ∈ ALL_STEPS ∧ (name s = "analysis" → nonempty (user_prompt s) = true) ∧ status s = PENDING.
Proof.
  unfold dag. set (p := _analyst_prompt _ _ _ _ _ _). intros (s0 & E & -> & _ & HA)%elem_of_build_dag.
  assert (nonempty p = true) as Hp by apply analyst_prompt_nonempty. clearbody p. cbn in *.
  assert (Forall (λ s, (name s = "analysis" → user_prompt s = p) ∧ status s = PENDING) (step_defs p)) as H.
  { unfold step_defs. repeat (constructor; [by split|]). constructor. }
  apply get_step_name in E as [_ Hin]. rewrite Forall_forall in H. destruct (H _ Hin) as [H1 H2].
  split_and!; [done| |done]. intros Hn. by rewrite H1.
Qed.

Lemma layered_length added ls : layered added ls → length ls ≤ length (concat ls).
Proof.
  revert added. induction ls as [|l ls IH]; intros added; [done|]. intros (Hl & _ & _ & Hlay). apply IH in Hlay. cbn.
  rewrite length_app. destruct l; [done|]. cbn. lia.
Qed.

Lemma fresh_run_inv rc d ls c router budget evs :
  NoDup (map name d) → concat ls ≡ₚ d →
  let steps := map (restore_step rc) d in
  let t0 := mkCot [] c steps router budget (map (map name) (map (map (restore_step rc)) ls)) [] [] 0 [] evs in
  run_inv steps router t0 ∧ NoDup (map name steps) ∧ concat (levels t0) ≡ₚ map name d.
Proof.
  intros Hnd0 Hp steps t0. assert (map name steps = map name d) as Hn.
  { unfold steps. rewrite map_map. apply map_ext. intros s. apply restore_same. }
  assert (NoDup (map name steps)) as Hnd by (by rewrite Hn).
  assert (concat (levels t0) ≡ₚ map name d) as Hc.
  { rewrite <- Hp. unfold t0. cbn [levels]. rewrite <- concat_map, <- concat_map, map_map.
    rewrite (map_ext _ name); [done|]. intros s. apply restore_same. }
  split_and!; [|done|done]. clearbody steps. constructor; [|..|done]; unfold waiting_names; cbn [level tasks].
  - by rewrite Hc.
  - set_solver.
  - intros n Hin. cbn [app] in Hin. rewrite Hc, <- Hn in Hin.
    apply list_elem_of_fmap in Hin as (s & -> & Hs). exists s. cbn [t0 _steps]. rewrite get_step_elem by done.
    split_and!; [done..|]. unfold called. cbn. by intros [? ?].
  - intros n s0 [<- Hs]%get_step_name _ Hout. exfalso. apply Hout. cbn [app]. rewrite Hc, <- Hn.
    apply list_elem_of_fmap. by exists s0.
  - split; [constructor|]. unfold called. cbn. by intros ? [? ?].
Qed.

Lemma reason_start_inv router budget q :
  ∃ t0, reason_start router budget q = Ok t0 ∧ run_inv (_steps t0) router t0 ∧ NoDup (map name (_steps t0))
    ∧ _steps t0 = map (restore_step (resume_context q)) (dag q)
    ∧ concat (levels t0) ≡ₚ map name (dag q) ∧ level t0 = [] ∧ tasks t0 = [] ∧ length (levels t0) ≤ length (dag q).
Proof.
  assert (∃ ls, _topological_levels (dag q) = Ok ls ∧ concat ls ≡ₚ dag q ∧ layered [] ls)
    as (ls & E & Hp & Hlay) by apply build_dag_levels.
  pose proof (dag_nodup q) as Hnd. unfold reason_start, _topological_levels in *. revert E Hp Hnd.
  generalize (dag q) as d. intros d E Hp Hnd.
  rewrite length_map, levels_loop_map, E by apply restore_same. cbn [fmap result_fmap mbind result_bind].
  eexists. split; [reflexivity|]. cbn [_steps level tasks].
  destruct (fresh_run_inv (resume_context q) d ls (foldl (restore_context (resume_context q)) (initial_context q) d) router
    budget [StepStart "planner" "Planner" 0 (length (planned_steps q))] Hnd Hp) as (H1 & H2 & H3).
  split_and!; [exact H1|exact H2|reflexivity|exact H3|reflexivity|reflexivity|].
  cbn [levels]. rewrite !length_map. rewrite (layered_length _ _ Hlay). by rewrite Hp.
Qed.

Lemma restored_known q s :
  s ∈ map (restore_step (resume_context q)) (dag q) →
  name s ∈ ALL_STEPS ∧ (name s = "analysis" → nonempty (user_prompt s) = true) ∧ (status s = PENDING ∨ status s = COMPLETED).
Proof.
  intros (s0 & -> & H0)%list_elem_of_fmap. destruct (dag_step _ _ H0) as (? & ? & ?). unfold restore_step.
  destruct (dget (name s0) (resume_context q)); cbn; auto.
Qed.

Lemma names_count (l : list string) n : NoDup l → n ∈ l → List.count_occ String.string_dec l n = 1.
Proof. intros Hnd Hn. apply NoDup_count_occ'; [by apply NoDup_ListNoDup|by apply list_elem_of_In]. Qed.

(** How often [complete] was called for step [n]. *)
Definition call_count (t : cot) (n : string) : nat :=
  List.count_occ String.string_dec (map (λ '(m, _, _), m) (calls t)) n.

Lemma call_count_called t n :
  NoDup (map (λ '(m, _, _), m) (calls t)) → (called t n → call_count t n = 1) ∧ (¬ called t n → call_count t n = 0).
Proof.
  intros Hnd. unfold called, call_count. split; intros H.
  - apply names_count; [done|]. destruct (decide (n ∈ map (λ '(m, _, _), m) (calls t))) as [|Hn]; [done|].
    apply call_of_None in Hn. rewrite Hn in H. by destruct H.
  - apply count_occ_not_In. rewrite <- list_elem_of_In. apply call_of_None. by apply eq_None_not_Some.
Qed.

Lemma planned_in_dag q n : n ∈ planned_steps q → n ∈ map name (dag q).
Proof.
  intros Hn. unfold dag. rewrite build_dag_names. apply elem_of_List_filter. rewrite in_set_spec.
  split; [done|]. by eapply plan_known.
Qed.

(** C3: However the event loop interleaves the steps of a level, a finished [reason]
    returns the context of the reference, which evaluates level after level and every
    step of a level in the context the level started with: a step sees the results of
    all earlier levels and of none of its siblings.  A step restored from a checkpoint
    keeps its result and is not asked again; every other planned step is asked
    exactly once and ends as completed or failed, none is left pending or skipped,
    whatever the token budget says.  The model's reply may depend on the messages
    only, and the router needs its degraded provider. *)
Theorem reason_matches_reference router budget q acts t0 t :
  routable router → reason_start router budget q = Ok t0 → exec oracle_step t0 acts = Some t → reason_done t = true →
  _context t = reason_reference (_steps t0) (_context t0) (levels t0)
  ∧ ∀ n, n ∈ planned_steps q → ∃ s, get_step n (_steps t) = Some s
      ∧ match dget n (resume_context q) with
        | Some r => call_count t n = 0 ∧ status s = COMPLETED ∧ st_result s = r
        | None => call_count t n = 1 ∧ (status s = COMPLETED ∨ status s = FAILED)
        end.
Proof.
  intros Hr E Hex Hd. destruct (reason_start_inv router budget q) as (t0' & E' & Hinv & Hnd & Hst & _ & Hl & Ht & _).
  rewrite E in E'. injection E' as <-.
  assert (∀ s, s ∈ _steps t0 → name s ∈ ALL_STEPS ∧ (name s = "analysis" → nonempty (user_prompt s) = true)
    ∧ (status s = PENDING ∨ status s = COMPLETED)) as Hk by (rewrite Hst; apply restored_known).
  destruct (run_forecast _ _ Hnd Hr Hk acts t0 t Hinv Hex) as [Hi Hf].
  unfold reason_done in Hd. destruct (levels t) eqn:El; [|done]. destruct (level t) eqn:El1; [|done].
  destruct (tasks t) eqn:Et; [|done]. split.
  { unfold forecast in Hf. rewrite El, El1, Et, Hl, Ht in Hf. exact Hf. }
  intros n Hn. apply planned_in_dag, list_elem_of_fmap in Hn as (sd & -> & Hsd).
  destruct (restore_same (resume_context q) sd) as [Hname _].
  assert (get_step (name sd) (_steps t0) = Some (restore_step (resume_context q) sd)) as H0.
  { rewrite <- Hname. apply get_step_elem; [done|]. rewrite Hst. apply list_elem_of_fmap. by exists sd. }
  destruct (call_count_called t (name sd) (proj1 (inv_calls _ _ _ Hi))) as [Hc1 Hc0].
  destruct (inv_settled _ _ _ Hi (name sd) _ H0) as (s & Hs & Hcase).
  { rewrite Et. set_solver. } { unfold waiting_names. rewrite El, El1. set_solver. }
  destruct (dag_step _ _ Hsd) as (_ & _ & Hpend).
  exists s. split; [done|]. unfold restore_step in Hcase.
  destruct (dget (name sd) (resume_context q)) as [r|]; cbn in Hcase;
    destruct Hcase as [(? & -> & ?)|(? & ? & ?)]; try congruence; auto.
Qed.

(** C15: [reason] always gets to its end: a run makes at most five actions per planned
    step, and as long as it is not over some action can be taken, whatever was
    answered and however the steps interleaved so far. *)
Theorem reason_terminates router budget q acts t0 t :
  routable router → reason_start router budget q = Ok t0 → exec oracle_step t0 acts = Some t →
  length acts ≤ 5 * length (planned_steps q) ∧ (reason_done t = false → ∃ a t', oracle_step t a = Some t').
Proof.
  intros Hr E Hex. destruct (reason_start_inv router budget q) as (t0' & E' & Hinv & Hnd & Hst & Hc & Hl & Ht & Hlen).
  rewrite E in E'. injection E' as <-.
  assert (∀ s, s ∈ _steps t0 → name s ∈ ALL_STEPS ∧ (name s = "analysis" → nonempty (user_prompt s) = true)
    ∧ (status s = PENDING ∨ status s = COMPLETED)) as Hk by (rewrite Hst; apply restored_known).
  destruct (run_forecast _ _ Hnd Hr Hk acts t0 t Hinv Hex) as [Hi _].
  split; [|by apply (run_progress (_steps t0) router)].
  assert (length acts + work t ≤ work t0) as Hb.
  { apply (exec_bound oracle_step (run_inv (_steps t0) router) work); [|done|done]. intros u a u' Hu Hs.
    split; [by apply (inv_step _ _ Hnd Hr Hk u a u')|by eapply work_decreases]. }
  assert (length (dag q) ≤ length (planned_steps q)) as Hdag.
  { rewrite <- (length_map name (dag q)). apply NoDup_incl_length; [apply NoDup_ListNoDup, dag_nodup|].
    intros n. rewrite <- !list_elem_of_In. unfold dag. rewrite build_dag_names.
    by intros [?%in_set_spec _]%elem_of_List_filter. }
  unfold work in Hb. rewrite Hl, Ht in Hb. apply Permutation_length in Hc. rewrite length_map in Hc. cbn in Hb. lia.
Qed.
End executor.

(** ** Bounds of the prompts *)

(** The steps whose prompt has no unbounded part (the analysis prompt holds the task
    and the requirements, the stack prompt the tags, the data model prompt the
    requirements, the repair prompt the errors). *)
Definition bounded_steps : list string :=
  ["architecture"; "components"; "api_design"; "codegen"; "testing"; "security"; "optimization"; "deployment"; "review"].

Ltac string_lengths :=
  rewrite ?length_append, ?excerpt_length, ?prefix_length; cbn [String.length nl].

Lemma architect_prompt_length a g : (Z.of_nat (String.length (_architect_prompt a g)) ≤ 4200)%Z.
Proof.
  unfold _architect_prompt, join. destruct (nonempty g); cbn [app String.concat]; string_lengths; lia.
Qed.

(** The prompts of these nine steps are at most 6200 characters long, whatever
    the earlier steps answered and whatever the JSON codec does: the cuts of the prompt
    builders hold even where [_compress] returns more than it was asked to. *)
Theorem prompts_bounded loads dumps dumps_indent repr c s :
  name s ∈ bounded_steps → (Z.of_nat (String.length (_resolve_prompt loads dumps dumps_indent repr c s)) ≤ 6200)%Z.
Proof.
  unfold _resolve_prompt. generalize (name s). intros n Hn.
  assert (Forall (λ n, (Z.of_nat (String.length (context_prompt loads dumps dumps_indent repr c n)) ≤ 6200)%Z)
    bounded_steps) as H.
  { unfold bounded_steps. repeat (apply Forall_cons; split); [..|by apply Forall_nil]; unfold context_prompt;
      cbn [String.eqb Ascii.eqb Bool.eqb]; [etrans; [apply architect_prompt_length|]; lia|..];
      unfold _component_prompt, _api_prompt, _codegen_prompt, _testing_prompt, _security_prompt, _optimization_prompt,
        _deployment_prompt, _review_prompt; string_lengths; lia. }
  rewrite Forall_forall in H. specialize (H n Hn).
  destruct (String.eqb_spec n "analysis") as [->|]; [|done]. exfalso. revert Hn. apply (bool_decide_eq_false_1 _).
  by vm_compute.
Qed.

Lemma prompts_bounded_witness :
  let s := new_step "codegen" "developer" ["stack"] _codegen_system "" in
  let c := mkContext "task" [] [] "" "" "" [] [("stack", "python")] in
  (Z.of_nat (String.length (_resolve_prompt (λ _, None) (λ _, "") (λ _, "") (λ _, "") c s)) ≤ 6200)%Z.
Proof.
  intros s c. apply (prompts_bounded (λ _, None) (λ _, "") (λ _, "") (λ _, "") c s).
  apply (bool_decide_eq_true_1 _). by vm_compute.
Defined.

(** [_compress] itself keeps the first five elements of a long JSON array, however
    long they are. *)
Example compress_exceeds_limit :
  let big := JStr "0123456789" in
  let loads _ := Some (JArr [big; big; big; big; big; big]) in
  let dumps j := match j with JArr l => join "," (map (λ x, match x with JStr s => s | _ => "" end) l) | _ => "" end in
  String.length (_compress loads dumps (λ _, "") (join "," (replicate 6 "0123456789")) 20) = 54.
Proof. by vm_compute. Qed.

(** ** A run *)
Definition demo_request : request :=
  mkRequest "Build a shop" ["api"] [] "" "" "" "moderate" ["judge: no tests"] [("analysis", "known")].

Definition demo_answer (m : messages) : result string LLMResponse :=
  if nonempty (prefix 1 m.2) then Ok (mkResponse "done" (Some 7%Z) "stop") else Err "empty".

(** The actions that run a level of steps one after the other. *)
Definition run_steps (l : list string) : list action :=
  NextLevel :: map (λ _, Spawn) l ++ concat (map (λ n, [Begin n; Answer n 0 (Err "")]) l) ++ [Collect].

(** The two steps of the second level overlap; the others run one by one. *)
Definition demo_actions : list action :=
  [NextLevel; Spawn]
  ++ [NextLevel; Spawn; Begin "repair"; Spawn; Begin "architecture"; Answer "architecture" 0 (Err "");
      Answer "repair" 0 (Err ""); Collect]
  ++ run_steps ["stack"] ++ run_steps ["components"] ++ run_steps ["api_design"; "deployment"]
  ++ run_steps ["codegen"] ++ run_steps ["review"].

Definition demo_start : result pyexn (@cot unit) :=
  reason_start (λ _, "[]") None (Some (Budget.mkBudget 10 (7 # 10) (95 # 100) 50 [] false)) demo_request.

Definition demo_step : @cot unit → action → option cot :=
  oracle_step (λ _, None) (λ _, "[]") (λ _, "{}") (λ _, "[]") (λ _ _, None) "down" tt demo_answer.

Definition demo_run : option (@cot unit) :=
  match demo_start with Ok t => exec demo_step t demo_actions | Err _ => None end.

Lemma reason_matches_reference_witness :
  ∃ t0 t, demo_start = Ok t0 ∧ exec demo_step t0 demo_actions = Some t ∧ call_count t "review" = 1
    ∧ dget "review" (results (_context t)) = Some "done"
    ∧ ∃ s, get_step "review" (_steps t) = Some s ∧ (status s = COMPLETED ∨ status s = FAILED).
Proof.
  assert (is_ok demo_start = true) as H0 by (by vm_compute). destruct demo_start as [t0|] eqn:E0; [clear H0|done].
  destruct (exec demo_step t0 demo_actions) as [t|] eqn:E1.
  2:{ assert (demo_run = None) as Hn by (unfold demo_run; by rewrite E0, E1).
    assert (reason_done <$> demo_run = Some true) as H by (by vm_compute). by rewrite Hn in H. }
  assert (demo_run = Some t) as Hr by (unfold demo_run; by rewrite E0, E1).
  assert (reason_done <$> demo_run = Some true) as Hd by (by vm_compute). rewrite Hr in Hd. injection Hd as Hd.
  assert ((λ t, dget "review" (results (_context t))) <$> demo_run = Some (Some "done")) as Hv by (by vm_compute).
  rewrite Hr in Hv. injection Hv as Hv.
  assert ("review" ∈ planned_steps demo_request) as Hin by (apply (bool_decide_eq_true_1 _); by vm_compute).
  destruct (reason_matches_reference (λ _, None) (λ _, "[]") (λ _, "{}") (λ _, "[]") (λ _ _, None) "down" tt demo_answer
    None _ demo_request demo_actions t0 t I E0 E1 Hd) as [_ H].
  destruct (H _ Hin) as (s & Hs & Hc & Hst). exists t0, t.
  split; [exact eq_refl|]. split; [exact E1|]. split; [exact Hc|]. split; [exact Hv|]. exists s. split; [exact Hs|exact Hst].
Defined.

Lemma reason_terminates_witness :
  ∃ t0, demo_start = Ok t0 ∧ length (A := action) [] ≤ 5 * length (planned_steps demo_request)
    ∧ ∃ a t', demo_step t0 a = Some t'.
Proof.
  assert (is_ok demo_start = true) as H0 by (by vm_compute). destruct demo_start as [t0|] eqn:E0; [clear H0|done].
  destruct (reason_terminates (λ _, None) (λ _, "[]") (λ _, "{}") (λ _, "[]") (λ _ _, None) "down" tt demo_answer
    None _ demo_request [] t0 t0 I E0 eq_refl) as [H1 H2]. exists t0.
  split; [exact eq_refl|]. split; [exact H1|]. apply H2.
  assert (reason_done <$> (match demo_start with Ok t => Some t | Err _ => None end) = Some false) as H by (by vm_compute).
  rewrite E0 in H. by injection H.
Defined.

(** The budget of this run is exhausted before it starts: the budget rejects (and
    records as skipped) every step, and every step is asked nevertheless. *)
Example exhausted_budget_skips_nothing :
  (λ t, (map (λ '(n, _, _), n) (calls t), Budget.skipped_steps <$> _token_budget t)) <$> demo_run
  = let l := ["repair"; "architecture"; "stack"; "components"; "api_design"; "deployment"; "codegen"; "review"] in
    Some (l, Some l).
Proof. by vm_compute. Qed.

(** ** [reason_with_reflexion]

    [run] is [reason] as a function of the attempt number and the errors; the loop
    makes at most [max_attempts] = 3 rounds. *)
Record ReflexionState := mkReflexion { attempt : nat; last_errors : list string; max_attempts : nat }.

Fixpoint reflexion_loop (fuel : nat) (run : nat → list string → Context) (judge_feedback : string) (st : ReflexionState)
    : result pyexn (Context * option ReflexionState) :=
  match fuel with
  | O => Err OutOfFuel
  | S fuel =>
      let last_context := run (attempt st) (if (1 <? attempt st)%nat then last_errors st else []) in
      let st := mkReflexion (attempt st + 1) (last_errors st) (max_attempts st) in
      if negb (nonempty judge_feedback) || (max_attempts st <? attempt st)%nat then
        Ok (last_context, if (2 <? attempt st)%nat then Some st else None)
      else
        reflexion_loop fuel run judge_feedback
          (mkReflexion (attempt st)
             (last_errors st ++ ["Attempt " +:+ pretty (attempt st - 1) +:+ " judge: " +:+ prefix 200 judge_feedback])
             (max_attempts st))
  end.

Definition reason_with_reflexion (run : nat → list string → Context) (judge_feedback : string)
    : result pyexn (Context * option ReflexionState) :=
  reflexion_loop 3 run judge_feedback (mkReflexion 1 [] 3).

(** Without feedback there is one attempt; with feedback there are always three, and
    the feedback never changes: each attempt is told once more what the last one was
    told. *)
Lemma reflexion_attempts run fb :
  let err k := "Attempt " +:+ pretty k +:+ " judge: " +:+ prefix 200 fb in
  reason_with_reflexion run fb =
    Ok (if nonempty fb then (run 3 [err 1; err 2], Some (mkReflexion 4 [err 1; err 2] 3)) else (run 1 [], None)).
Proof. unfold reason_with_reflexion. cbn. by destruct (nonempty fb). Qed.

(** ** The names a run stores *)
Section keys.
Context (loads : string → option json) (dumps dumps_indent : json → string) (repr : json → string).
Context {P : Type} (create : string → option string → option P) (create_error : string) (llm : P).

Definition known_names (t : @cot P) : Prop :=
  (∀ n, n ∈ (results (_context t)).*1 → n ∈ ALL_STEPS) ∧ (∀ n, n ∈ map name (_steps t) → n ∈ ALL_STEPS).

Lemma store_known (c : Context) n r :
  n ∈ ALL_STEPS → (∀ m, m ∈ (results c).*1 → m ∈ ALL_STEPS) → ∀ m, m ∈ (results (store c n r)).*1 → m ∈ ALL_STEPS.
Proof. intros Hn Hc m. cbn. rewrite elem_of_dset_keys. naive_solver. Qed.

Lemma get_step_known (t : @cot P) n s : known_names t → get_step n (_steps t) = Some s → n ∈ ALL_STEPS.
Proof.
  intros [_ Hs] [<- Hin]%get_step_name. apply Hs. apply list_elem_of_fmap. by exists s.
Qed.

Lemma collect_known (t : @cot P) p : known_names t → known_names (collect_one t p).
Proof.
  intros Hk. destruct p as [n x]. unfold collect_one. destruct (get_step n (_steps t)) as [s|] eqn:E; [|done].
  pose proof (get_step_known _ _ _ Hk E) as Hn. destruct Hk as [H1 H2].
  assert (known_names (mkCot (chain t) (store (_context t) n (st_result s))
    (update_step n (λ s, with_status s COMPLETED) (_steps t)) (_model_router t) (_token_budget t) (levels t) (level t)
    (tasks t) (completed t) (calls t) (events t))) as [H3 H4].
  { split; cbn; [by apply store_known|]. by rewrite update_step_names. }
  destruct x as [| |[e|]]; [case_bool_decide..| |case_bool_decide]; split; cbn;
    first [exact H1|exact H2|exact H3|exact H4|by rewrite update_step_names by done].
Qed.

Lemma begin_step_name c b r s : name (begin_step loads dumps dumps_indent repr create create_error llm c b r s).1.1.1 = name s.
Proof. unfold begin_step. repeat case_match; simplify_eq; done. Qed.

Lemma step_known t a t' :
  known_names t → cot_step loads dumps dumps_indent repr create create_error llm t a = Some t' → known_names t'.
Proof.
  intros Hk E. assert (∀ (u : @cot P), _context u = _context t → map name (_steps u) = map name (_steps t) → known_names u)
    as Hsame by (unfold known_names; intros u -> ->; done).
  destruct a as [| |n|n d o|]; cbn in E.
  - repeat (case_match; try done). injection E as <-. by apply Hsame.
  - destruct (level t); [done|]. destruct (get_step _ _); [|done].
    repeat case_bool_decide; injection E as <-; apply Hsame; try done. cbn. by rewrite update_step_names.
  - destruct (dget n (tasks t)) as [[| |]|]; try done. destruct (get_step n (_steps t)) as [s|] eqn:Es; [|done].
    pose proof (begin_step_name (_context t) (_token_budget t) (_model_router t) s) as Hn.
    destruct (begin_step _ _ _ _ _ _ _ _ _ _ _) as [[[s' b] r] o]. injection E as <-. cbn in Hn.
    apply Hsame; [done|]. cbn. apply update_step_names. intros _ _. rewrite Hn. apply (get_step_name _ _ _ Es).
  - destruct (dget n (tasks t)) as [[| |]|]; try done. destruct (get_step n (_steps t)) as [s|] eqn:Es; [|done].
    destruct o; injection E as <-; apply Hsame; cbn; try done. apply update_step_names. intros _ _. cbn.
    apply (get_step_name _ _ _ Es).
  - destruct (level t); [|done]. destruct (tasks t) as [|p l] eqn:Et; [done|]. rewrite <- Et in E.
    destruct (all_finished (tasks t)); [|done]. injection E as <-.
    assert (∀ k u, known_names u → known_names (foldl collect_one u k)) as Hl.
    { induction k as [|q k IH]; intros u Hu; [done|]. cbn. by apply IH, collect_known. }
    exact (Hl (tasks t) t Hk).
Qed.

(** Every result of every run is stored under a step name. *)
Lemma reason_known router budget q acts t0 t :
  reason_start repr router budget q = Ok t0 →
  exec (cot_step loads dumps dumps_indent repr create create_error llm) t0 acts = Some t →
  ∀ n, n ∈ (results (_context t)).*1 → n ∈ ALL_STEPS.
Proof.
  intros E Hex. assert (known_names t) as [H _]; [|done].
  eapply (exec_invariant _ known_names (λ _, True)); [|apply Forall_true_all| |exact Hex].
  { intros s a s' Hs _ Hstep. by eapply step_known. }
  unfold reason_start in E. destruct (_topological_levels _); [|done]. injection E as <-.
  assert (∀ s, s ∈ dag repr q → name s ∈ ALL_STEPS) as Hd by (intros s Hs; by apply dag_step in Hs as [? _]).
  revert Hd. generalize (dag repr q) as d. intros d Hd. split; cbn.
  - assert (∀ m, m ∈ (results (initial_context q)).*1 → m ∈ ALL_STEPS) as H0 by (cbn; set_solver).
    revert H0. generalize (initial_context q) as c. revert Hd. induction d as [|s d IH]; intros Hd c Hc; [done|].
    cbn. apply IH; [set_solver|]. unfold restore_context. destruct (dget _ _); [|done].
    apply store_known; [|done]. apply Hd. set_solver.
  - intros n. rewrite map_map. intros (s & -> & Hs)%list_elem_of_fmap. destruct (restore_same (resume_context q) s) as [-> _].
    by apply Hd.
Qed.
End keys.
