(* ===== verification/Checkpoint.v ===== *)
(** * Checkpoints ([noema/core/checkpoint.py])

    The file store for the progress of a task.  A directory is an
    insertion-ordered dictionary from file names to texts; saving writes a temporary
    file and renames it, and may be cut off anywhere ([crash]).  The Redis client the
    constructor opens is never used by the methods.  The JSON codec, [str] and the
    clock are parameters. *)
From Stdlib Require Import ZArith QArith Lia Bool Ascii String.
From stdpp Require Import base option numbers sets strings list.
From S2P Require Import Prelude Symbolic Prompts.
Local Open Scope string_scope.
Local Open Scope list_scope.
Local Open Scope nat_scope.

Record DAGCheckpoint := mkCheckpoint {
  task_id : string;
  tenant_id : string;
  session_id : string;
  attempt : Z;
  completed_steps : list string;
  step_results : list (string * string);
  token_budget_used : Z;
  context : dict;
  timestamp : Q;
}.

(** ** File names *)

(** The characters of [[A-Za-z0-9_.-]]. *)
Definition safe_char (a : ascii) : bool :=
  let n := nat_of_ascii a in
  ((65 <=? n) && (n <=? 90) || (97 <=? n) && (n <=? 122) || (48 <=? n) && (n <=? 57)
   || (n =? 95) || (n =? 46) || (n =? 45))%nat.

(** The characters [strip] removes: a dot or an underscore. *)
Definition dot_or_us (a : ascii) : bool := let n := nat_of_ascii a in ((n =? 46) || (n =? 95))%nat.

Fixpoint lstrip_by (f : ascii → bool) (s : string) : string :=
  match s with EmptyString => "" | String a t => if f a then lstrip_by f t else s end.

Fixpoint rstrip_by (f : ascii → bool) (s : string) : string :=
  match s with
  | EmptyString => ""
  | String a t =>
      match rstrip_by f t with
      | EmptyString => if f a then "" else String a ""
      | t => String a t
      end
  end.

Definition _safe_name (value : string) : string :=
  let value := map_string (λ a, if safe_char a then a else "_"%char) value in
  let value := rstrip_by dot_or_us (lstrip_by dot_or_us value) in
  if nonempty value then value else "unknown".

(** The name of the file in the directory of the store. *)
Definition _file_path (task tenant : string) : string :=
  _safe_name tenant +:+ "__" +:+ _safe_name task +:+ ".json".

(** [path.with_suffix(path.suffix + ".tmp")] for a path that ends in ".json". *)
Definition tmp_path (path : string) : string := path +:+ ".tmp".

Definition _checkpoint_key (task tenant : string) : string := "noema:ckpt:" +:+ tenant +:+ ":" +:+ task.

Section store.
Context (dumps : json → string) (loads : string → option json) (repr : json → string).

Definition directory := list (string * string).

Definition _safe_str (v : json) (max_len : nat) : string := prefix max_len (py_str repr v).

(** The dictionary [save] writes, [now] being [time.time()]. *)
Definition checkpoint_data (cp : DAGCheckpoint) (now : Q) : dict :=
  [("task_id", JStr (task_id cp)); ("tenant_id", JStr (tenant_id cp)); ("session_id", JStr (session_id cp));
   ("attempt", JNum (inject_Z (attempt cp))); ("completed_steps", JArr (map JStr (completed_steps cp)));
   ("step_results", JObj (map (λ '(k, v), (k, JStr v)) (step_results cp)));
   ("token_budget_used", JNum (inject_Z (token_budget_used cp)));
   ("context", JObj (map (λ '(k, v), (k, JStr (_safe_str v 500))) (context cp)));
   ("timestamp", JNum now)].

(** Where [_write] stops: before anything, with part of the text in the temporary
    file, before the rename, or not at all. *)
Inductive crash := BeforeWrite | DuringWrite (part : string) | BeforeRename | NoCrash.

#[global] Instance crash_eq_dec : EqDecision crash.
Proof. solve_decision. Defined.

Definition save (fs : directory) (cp : DAGCheckpoint) (now : Q) (c : crash) : directory :=
  let payload := dumps (JObj (checkpoint_data cp now)) in
  let path := _file_path (task_id cp) (tenant_id cp) in
  match c with
  | BeforeWrite => fs
  | DuringWrite part => dset (tmp_path path) part fs
  | BeforeRename => dset (tmp_path path) payload fs
  | NoCrash => ddel (tmp_path path) (dset path payload fs)
  end.

(** What [load] returns: the values as the JSON text has them. *)
Record loaded := mkLoaded {
  l_task_id : json;
  l_tenant_id : json;
  l_session_id : json;
  l_attempt : json;
  l_completed_steps : json;
  l_step_results : json;
  l_token_budget_used : json;
  l_context : json;
  l_timestamp : json;
}.

Definition _read_text_if_exists (fs : directory) (path : string) : option string := dget path fs.

(** [KeyError] and decoding errors are caught; indexing a value that is not a
    dictionary raises [TypeError], which is not. *)
Definition load (fs : directory) (task tenant : string) : result pyexn (option loaded) :=
  match _read_text_if_exists fs (_file_path task tenant) with
  | None => Ok None
  | Some text =>
      match loads text with
      | None => Ok None
      | Some (JObj data) =>
          match dget "task_id" data with
          | None => Ok None
          | Some tid =>
              let get k d := default d (dget k data) in
              Ok (Some (mkLoaded tid (get "tenant_id" (JStr tenant)) (get "session_id" (JStr "")) (get "attempt" (JNum 1))
                          (get "completed_steps" (JArr [])) (get "step_results" (JObj [])) (get "token_budget_used" (JNum 0))
                          (get "context" (JObj [])) (get "timestamp" (JNum 0))))
          end
      | Some _ => Err TypeError
      end
  end.

Definition delete (fs : directory) (task tenant : string) : directory := ddel (_file_path task tenant) fs.

Definition has_checkpoint (fs : directory) (task tenant : string) : bool := dmem (_file_path task tenant) fs.

(** ** File names stay apart and inside the directory *)
Lemma tmp_not_checkpoint path task tenant : tmp_path path ≠ _file_path task tenant.
Proof.
  intros E. apply (f_equal last_char) in E. unfold tmp_path, _file_path in E.
  rewrite (last_char_app _ _ "p"%char) in E by done.
  rewrite (last_char_app _ _ "n"%char) in E; [done|]. by do 2 apply last_char_app.
Qed.

(** Every character of [s] satisfies [f]. *)
Fixpoint all_chars (f : ascii → bool) (s : string) : bool :=
  match s with EmptyString => true | String a t => f a && all_chars f t end.

Lemma all_chars_app f s t : all_chars f (s +:+ t) = all_chars f s && all_chars f t.
Proof. induction s as [|a s IH]; [done|]. change (String a s +:+ t) with (String a (s +:+ t)). cbn. rewrite IH. by rewrite andb_assoc. Qed.

Lemma all_chars_lstrip f g s : all_chars f s = true → all_chars f (lstrip_by g s) = true.
Proof. induction s as [|a s IH]; [done|]. cbn. intros [? ?]%andb_prop. destruct (g a); [auto|]. cbn. by apply andb_true_intro. Qed.

Lemma all_chars_rstrip f g s : all_chars f s = true → all_chars f (rstrip_by g s) = true.
Proof.
  induction s as [|a s IH]; [done|]. cbn. intros [Ha Hs]%andb_prop. specialize (IH Hs).
  destruct (rstrip_by g s) as [|b t]; [destruct (g a); cbn; [done|by rewrite Ha]|].
  change (f a && all_chars f (String b t) = true). by rewrite Ha, IH.
Qed.

Lemma safe_name_safe s : all_chars safe_char (_safe_name s) = true.
Proof.
  unfold _safe_name. destruct (nonempty _); [|done]. apply all_chars_rstrip, all_chars_lstrip.
  induction s as [|a s IH]; [done|]. cbn. apply andb_true_intro. split; [|done].
  destruct (safe_char a) eqn:E; [by rewrite E|done].
Qed.

(** ** What a save does to the directory *)

(** Every other checkpoint keeps its text, and the one that is saved has its old or
    its new text, wherever the save stops. *)
Lemma save_files fs cp now c task tenant :
  dget (_file_path task tenant) (save fs cp now c) =
    if decide (c = NoCrash ∧ _file_path task tenant = _file_path (task_id cp) (tenant_id cp))
    then Some (dumps (JObj (checkpoint_data cp now))) else dget (_file_path task tenant) fs.
Proof.
  unfold save. destruct c; rewrite ?dget_ddel, ?dget_dset;
    pose proof (λ E, tmp_not_checkpoint (_file_path (task_id cp) (tenant_id cp)) task tenant (eq_sym E)) as Hne;
    repeat case_decide; naive_solver.
Qed.

Lemma load_file fs fs' task tenant :
  dget (_file_path task tenant) fs = dget (_file_path task tenant) fs' → load fs task tenant = load fs' task tenant.
Proof. unfold load, _read_text_if_exists. by intros ->. Qed.

(** C9: Saving is atomic, and what a resumed run needs comes back.  A save that was cut off
    anywhere changes no checkpoint at all.  After a complete save [load] returns the task,
    the tenant, the session, the attempt, the completed steps, their results and the token
    count as they were; of the context it returns, for each key, the value as text cut off
    at 500 characters, and the timestamp is the time of the save.  Checkpoints under other
    file names are left alone (two tenants can share a file name:
    [tenants_share_a_checkpoint]); a deleted checkpoint loads as [None].  The JSON codec
    has to read back the object it wrote. *)
Theorem checkpoint_crash_safe fs cp now c :
  loads (dumps (JObj (checkpoint_data cp now))) = Some (JObj (checkpoint_data cp now)) →
  (c ≠ NoCrash → ∀ task tenant, load (save fs cp now c) task tenant = load fs task tenant)
  ∧ (∃ x, load (save fs cp now NoCrash) (task_id cp) (tenant_id cp) = Ok (Some x)
       ∧ l_task_id x = JStr (task_id cp) ∧ l_tenant_id x = JStr (tenant_id cp) ∧ l_session_id x = JStr (session_id cp)
       ∧ l_attempt x = JNum (inject_Z (attempt cp)) ∧ l_completed_steps x = JArr (map JStr (completed_steps cp))
       ∧ l_step_results x = JObj (prod_map id JStr <$> step_results cp) ∧ l_token_budget_used x = JNum (inject_Z (token_budget_used cp))
       ∧ l_context x = JObj (prod_map id (λ v, JStr (prefix 500 (py_str repr v))) <$> context cp) ∧ l_timestamp x = JNum now)
  ∧ (∀ task tenant, _file_path task tenant ≠ _file_path (task_id cp) (tenant_id cp) →
       load (save fs cp now c) task tenant = load fs task tenant)
  ∧ ∀ task tenant, load (delete fs task tenant) task tenant = Ok None.
Proof.
  intros Hc. split_and!.
  - intros Hn task tenant. apply load_file. rewrite save_files. by rewrite decide_False by tauto.
  - unfold load, _read_text_if_exists. rewrite save_files, decide_True by done. rewrite Hc. eexists. split_and!; [reflexivity..| |reflexivity| |reflexivity].
    + transitivity (JObj (map (λ '(k, v), (k, JStr v)) (step_results cp))); [reflexivity|]. f_equal. apply map_ext. by intros [].
    + transitivity (JObj (map (λ '(k, v), (k, JStr (_safe_str v 500))) (context cp))); [reflexivity|]. f_equal. apply map_ext. by intros [].
  - intros task tenant Hne. apply load_file. rewrite save_files. by rewrite decide_False by tauto.
  - intros task tenant. unfold load, _read_text_if_exists, delete. by rewrite dget_ddel, decide_True.
Qed.

(** The name of every file a save touches consists of letters, digits, dots, dashes
    and underscores: no separator, so it stays in the directory. *)
Lemma file_path_confined task tenant :
  all_chars safe_char (_file_path task tenant) = true ∧ all_chars safe_char (tmp_path (_file_path task tenant)) = true.
Proof.
  assert (all_chars safe_char (_file_path task tenant) = true) as H.
  { unfold _file_path. by rewrite !all_chars_app, !safe_name_safe. }
  split; [done|]. unfold tmp_path. by rewrite all_chars_app, H.
Qed.
End store.

(** ** A checkpoint, with a codec that knows its text *)
Definition demo_checkpoint : DAGCheckpoint :=
  mkCheckpoint "c" "a__b" "s" 2 ["analysis"] [("analysis", "plan")] 10 [("task", JStr "Build")] 0.

Definition demo_data : json := JObj (checkpoint_data (λ _, "") demo_checkpoint 7).
Definition demo_dumps (j : json) : string := match j with JObj _ => "{}" | _ => "" end.
Definition demo_loads (s : string) : option json := if String.eqb s "{}" then Some demo_data else None.

Lemma checkpoint_crash_safe_witness :
  ∃ x, load demo_loads (save demo_dumps (λ _, "") [] demo_checkpoint 7 NoCrash) "c" "a__b" = Ok (Some x)
    ∧ l_completed_steps x = JArr [JStr "analysis"] ∧ l_step_results x = JObj [("analysis", JStr "plan")].
Proof.
  destruct (checkpoint_crash_safe demo_dumps demo_loads (λ _, "") [] demo_checkpoint 7 NoCrash eq_refl) as (_ & (x & Hx & _ & _ & _ & _ & Hs & Hr & _) & _).
  exists x. split; [exact Hx|]. split; [exact Hs|exact Hr].
Defined.

(** Tenant ["a"] loads the checkpoint of tenant ["a__b"]: the file name does not tell
    the two apart, and the stored tenant is not compared. *)
Example tenants_share_a_checkpoint :
  _file_path "b__c" "a" = _file_path "c" "a__b" ∧ _file_path "c" "acme/eu" = _file_path "c" "acme_eu"
  ∧ l_tenant_id <$> (match load demo_loads (save demo_dumps (λ _, "") [] demo_checkpoint 7 NoCrash) "b__c" "a" with
                     | Ok o => o | Err _ => None end) = Some (JStr "a__b").
Proof. by vm_compute. Qed.

(** A checkpoint file that holds JSON but no object makes [load] raise. *)
Example load_raises_on_array :
  load (λ _, Some (JArr [])) [(_file_path "c" "a", "[]")] "c" "a" = Err TypeError.
Proof. by vm_compute. Qed.
