(* ===== verification/CoreTypes.v ===== *)
(** * Core types ([noema/core/types.py], [noema/utils/json_utils.py], [noema/context.py])

    Tasks, solutions and thought processes, the extraction of JSON from model
    answers and the tenant variable.  Pydantic models are records; the fields
    pydantic validates when a model is built from untrusted values are checked where
    the model is built ([as_str], [as_strs]: a [ValidationError], which is a
    [ValueError]).  Identifiers and timestamps the defaults generate are left out. *)
From Stdlib Require Import ZArith QArith Lqa Lia Bool Ascii String.
From stdpp Require Import base option numbers sets strings list.
From S2P Require Import Prelude Symbolic Prompts.
Local Open Scope string_scope.
Local Open Scope list_scope.
Local Open Scope nat_scope.

Inductive TaskComplexity := TRIVIAL | SIMPLE | MODERATE | COMPLEX | EXTREME.

Definition complexity_value (c : TaskComplexity) : string :=
  match c with
  | TRIVIAL => "trivial" | SIMPLE => "simple" | MODERATE => "moderate" | COMPLEX => "complex" | EXTREME => "extreme"
  end.

Inductive SolutionQuality := DRAFT | ACCEPTABLE | GOOD | EXCELLENT | MASTERPIECE.

#[global] Instance SolutionQuality_eq_dec : EqDecision SolutionQuality.
Proof. solve_decision. Defined.

Definition quality_value (q : SolutionQuality) : string :=
  match q with
  | DRAFT => "draft" | ACCEPTABLE => "acceptable" | GOOD => "good" | EXCELLENT => "excellent" | MASTERPIECE => "masterpiece"
  end.

Record TechStack := mkStack {
  languages : list string;
  frameworks : list string;
  databases : list string;
  infrastructure : list string;
  tools : list string;
  cloud : list string;
}.

Definition empty_stack : TechStack := mkStack [] [] [] [] [] [].

Definition stack_summary (t : TechStack) : string :=
  let part label l := match l with [] => [] | _ => [label +:+ ": " +:+ join ", " l] end in
  match (part "Languages" (languages t) ++ part "Frameworks" (frameworks t) ++ part "Databases" (databases t)
          ++ part "Infrastructure" (infrastructure t) ++ part "Cloud" (cloud t))%list with
  | [] => "Undefined"
  | parts => join " | " parts
  end.

Record ArchitecturePattern := mkPattern {
  ap_name : string;
  ap_description : string;
  pros : list string;
  cons : list string;
}.

Record Requirement := mkRequirement {
  rq_category : string;
  rq_description : string;
  rq_priority : Z;
  rq_constraints : list string;
}.

Record Task := mkTask {
  id : string;
  title : string;
  description : string;
  requirements : list Requirement;
  preferred_stack : option TechStack;
  complexity : TaskComplexity;
  tags : list string;
}.

Record CodeBlock := mkBlock {
  filename : string;
  language : string;
  content : string;
  cb_description : string;
}.

Record Solution := mkSolution {
  task_id : string;
  s_title : string;
  summary : string;
  architecture : option ArchitecturePattern;
  stack : TechStack;
  code_blocks : list CodeBlock;
  performance_notes : list string;
  security_notes : list string;
  quality : SolutionQuality;
  confidence : Q;
  metadata : dict;
}.

(** A solution with the defaults of the model. *)
Definition new_solution (task_id title summary : string) : Solution :=
  mkSolution task_id title summary None empty_stack [] [] [] DRAFT (1 # 2) [].

Definition with_metadata (s : Solution) (k : string) (v : json) : Solution :=
  mkSolution (task_id s) (s_title s) (summary s) (architecture s) (stack s) (code_blocks s) (performance_notes s)
    (security_notes s) (quality s) (confidence s) (dset k v (metadata s)).

Record ThoughtStep := mkThoughtStep {
  step_number : nat;
  kernel : string;
  input_summary : string;
  output_summary : string;
  st_confidence : Q;
}.

Record ThoughtProcess := mkThought {
  tp_task_id : string;
  steps : list ThoughtStep;
  final_reasoning : string;
  duration_ms : Q;
}.

Definition in_unit (q : Q) : bool := Qle_bool 0 q && Qle_bool q 1.

(** [add_step]: the confidence is validated to lie between 0 and 1. *)
Definition add_step (t : ThoughtProcess) (kernel input output : string) (conf : Q) : result pyexn ThoughtProcess :=
  if in_unit conf then
    Ok (mkThought (tp_task_id t) (steps t ++ [mkThoughtStep (length (steps t) + 1) kernel input output conf])
          (final_reasoning t) (duration_ms t))
  else Err ValueError.

Definition Qsum (l : list Q) : Q := foldr Qplus 0%Q l.

Definition avg_confidence (t : ThoughtProcess) : Q :=
  match steps t with
  | [] => 0
  | l => Qsum (map st_confidence l) / inject_Z (Z.of_nat (length l))
  end.

(** What pydantic accepts as a [str] and as a [list[str]]. *)
Definition as_str (j : json) : result pyexn string := match j with JStr s => Ok s | _ => Err ValueError end.

Fixpoint mapM_result {A B} (f : A → result pyexn B) (l : list A) : result pyexn (list B) :=
  match l with
  | [] => Ok []
  | x :: l => y ← f x; ys ← mapM_result f l; Ok (y :: ys)
  end.

Definition as_strs (j : json) : result pyexn (list string) :=
  match j with JArr l => mapM_result as_str l | _ => Err ValueError end.

(** The average of confidences between 0 and 1 is between 0 and 1. *)
Lemma Qsum_bounds l : Forall (λ q, 0 <= q <= 1)%Q l → (0 <= Qsum l <= inject_Z (Z.of_nat (length l)))%Q.
Proof.
  induction 1 as [|q l [? ?] _ [? ?]]; [split; apply Qle_refl|].
  change (Qsum (q :: l)) with (q + Qsum l)%Q. change (length (q :: l)) with (S (length l)).
  rewrite Nat2Z.inj_succ, <- Z.add_1_r, inject_Z_plus. change (inject_Z 1) with 1%Q. lra.
Qed.

Lemma avg_confidence_bounds t :
  Forall (λ s, 0 <= st_confidence s <= 1)%Q (steps t) → (0 <= avg_confidence t <= 1)%Q.
Proof.
  intros H. unfold avg_confidence. destruct (steps t) as [|s l] eqn:E; [lra|].
  assert (0 <= Qsum (map st_confidence (s :: l)) <= inject_Z (Z.of_nat (length (s :: l))))%Q as [H1 H2].
  { rewrite <- (length_map st_confidence). apply Qsum_bounds. rewrite Forall_map. done. }
  set (n := inject_Z (Z.of_nat (length (s :: l)))) in *.
  assert (0 < n)%Q as Hn. { unfold n. change 0%Q with (inject_Z 0). rewrite <- Zlt_Qlt. cbn. lia. }
  split.
  - apply Qle_shift_div_l; [done|]. lra.
  - apply Qle_shift_div_r; [done|]. lra.
Qed.

(** ** JSON from model answers *)

(** [s[i:]] *)
Definition suffix_from (i : nat) (s : string) : string := String.substring i (String.length s - i) s.
(** [s[i:j]] for [i <= j] *)
Definition slice (i j : nat) (s : string) : string := String.substring i (j - i) s.

(** The text between the first [open] and the next fence. *)
Definition fenced (open t : string) (i : nat) : string :=
  let start := i + String.length open in
  match String.index start "```" t with
  | Some e => strip (slice start e t)
  | None => strip (suffix_from start t)
  end.

Definition strip_fences (text : string) : string :=
  let t := strip text in
  match String.index 0 "```json" t with
  | Some i => fenced "```json" t i
  | None =>
      match String.index 0 "```" t with
      | Some i => fenced "```" t i
      | None => t
      end
  end.

(** [s.rfind(c)] for one character. *)
Fixpoint rfind (c : ascii) (s : string) : option nat :=
  match s with
  | EmptyString => None
  | String a t =>
      match rfind c t with
      | Some i => Some (S i)
      | None => if Ascii.eqb a c then Some 0 else None
      end
  end.

Section codec.
Context (loads : string → option json).

(** One pass of the last resort: the span from the first [open] to the last [close]. *)
Definition span_json (open : string) (close : ascii) (text : string) : option json :=
  match String.index 0 open text, rfind close text with
  | Some first, Some last => if (first <? last)%nat then loads (slice first (last + 1) text) else None
  | _, _ => None
  end.

(** [extract_fenced_json(text, default=None)] *)
Definition extract_fenced_json (text : string) : option json :=
  match loads (strip_fences text) with
  | Some j => Some j
  | None =>
      match span_json "{" "}"%char text with
      | Some j => Some j
      | None => span_json "[" "]"%char text
      end
  end.
End codec.

(** ** The tenant variable

    [set_tenant_id] returns the value [reset_tenant_id] puts back. *)
Definition set_tenant_id (current new : string) : string * string := (new, current).
Definition reset_tenant_id (token : string) : string := token.
