(* ===== verification/Judge.v ===== *)
(** * Judge ([noema/judge.py])

    Evaluation of a solution by a language model: the prompts, the parsing of the
    verdict, pairwise comparison and critique.  The model's [complete], the JSON codec
    and [float] of a string are parameters. *)
From Stdlib Require Import ZArith QArith Qabs Lqa Lia Bool Ascii String.
From stdpp Require Import base option numbers sets strings pretty list.
From S2P Require Import Prelude Symbolic Prompts CoreTypes.
Local Open Scope string_scope.
Local Open Scope list_scope.
Local Open Scope nat_scope.

Record JudgeScore := mkScore {
  sc_architecture : Q;
  sc_code_quality : Q;
  sc_security : Q;
  sc_performance : Q;
  sc_maintainability : Q;
  sc_completeness : Q;
  overall : Q;
}.

Definition no_score : JudgeScore := mkScore 0 0 0 0 0 0 0.

(** The fields that are copied from the model's JSON are JSON values. *)
Record JudgeVerdict := mkJVerdict {
  passed : bool;
  scores : JudgeScore;
  strengths : json;
  weaknesses : json;
  improvements : json;
  production_readiness : json;
  j_summary : json;
  raw_feedback : string;
}.

Definition failed_verdict (summary raw : string) : JudgeVerdict :=
  mkJVerdict false no_score (JArr []) (JArr []) (JArr []) (JStr "needs-work") (JStr summary) raw.

Record PairwiseResult := mkPairwise {
  winner : json;
  winner_index : nat;
  rationale : json;
  scores_a : JudgeScore;
  scores_b : JudgeScore;
}.

Definition JUDGE_SYSTEM_PROMPT : string := quoted
"You are a senior technical lead evaluating an AI-generated solution.
You must be CRITICAL and HONEST. Grade each category from 0.0 to 1.0.

Evaluation criteria:
- architecture: design quality, patterns, scalability, trade-offs
- code_quality: readability, structure, typing, error handling
- security: threat model, OWASP coverage, data protection
- performance: caching, optimization, async processing
- maintainability: modularity, documentation, testing strategy
- completeness: how well the solution addresses the original task

Return ONLY valid JSON:
{
  `scores`: {`architecture`: 0.0-1.0, `code_quality`: 0.0-1.0, `security`: 0.0-1.0, `performance`: 0.0-1.0, `maintainability`: 0.0-1.0, `completeness`: 0.0-1.0, `overall`: 0.0-1.0},
  `strengths`: [`list of 2-3 key strengths`],
  `weaknesses`: [`list of 2-3 key weaknesses`],
  `improvements`: [`list of 2-3 actionable improvements`],
  `production_readiness`: `ready|needs-work|major-issues`,
  `summary`: `one paragraph summary of the evaluation`
}

Be strict. A score above 0.8 should mean truly excellent. Below 0.4 means major issues.".

Definition PAIRWISE_SYSTEM_PROMPT : string := quoted
"You are a senior technical lead comparing TWO AI-generated solutions (A and B).
Select the BETTER solution and explain your choice.

Consider: architecture quality, code quality, security, performance, maintainability, completeness.

Return ONLY valid JSON:
{
  `winner`: `A` or `B`,
  `rationale`: `detailed comparison explaining why the winner is better`,
  `scores_a`: {`architecture`: 0.0-1.0, `code_quality`: 0.0-1.0, `security`: 0.0-1.0, `performance`: 0.0-1.0, `maintainability`: 0.0-1.0, `completeness`: 0.0-1.0, `overall`: 0.0-1.0},
  `scores_b`: {`architecture`: 0.0-1.0, `code_quality`: 0.0-1.0, `security`: 0.0-1.0, `performance`: 0.0-1.0, `maintainability`: 0.0-1.0, `completeness`: 0.0-1.0, `overall`: 0.0-1.0}
}

Be specific about differences. A tie is not acceptable — choose one.".

Definition CRITIC_SYSTEM_PROMPT : string := quoted
"You are a DEVIL'S ADVOCATE. Your job is to find hallucinations, logical holes, and vulnerabilities.
Be aggressive and critical. Assume the solution has hidden problems.

For each issue found, rate:
- severity: `low` (minor), `medium` (real concern), `high` (blocker), `critical` (must fix)
- type: `hallucination` (claim not supported by code/facts), `logic_hole` (missing case/edge), `vulnerability` (security), `overengineering` (unnecessary complexity)

Return ONLY valid JSON:
{
  `issues`: [
    {
      `severity`: `low|medium|high|critical`,
      `type`: `hallucination|logic_hole|vulnerability|overengineering`,
      `description`: `what the problem is`,
      `evidence`: `why you believe this is a problem`,
      `suggestion`: `how to fix it`
    }
  ],
  `summary`: `overall assessment of trustworthiness`,
  `trust_score`: 0.0-1.0
}".

(** The floats Python's [float] can read. *)
Inductive pyfloat := Fin (q : Q) | PosInf | NegInf | NaN.

(** [x[:n]]: strings and lists can be sliced. *)
Definition py_slice (n : nat) (j : json) : result pyexn json :=
  match j with
  | JStr s => Ok (JStr (prefix n s))
  | JArr l => Ok (JArr (take n l))
  | _ => Err TypeError
  end.

(** [d.get(k, v)], for a value that need not be a dictionary. *)
Definition py_get (k : string) (dflt : json) (j : json) : result pyexn json :=
  match j with JObj d => Ok (default dflt (dget k d)) | _ => Err AttributeError end.

(** ** Prompts *)
Definition section (heading : string) (lines : list string) : string := nl +:+ heading +:+ nl +:+ join nl lines.

Definition judge_prompt (s : Solution) (task_description : string) (task_tags checklist : list string) : string :=
  join nl
    (["## Task" +:+ nl +:+ task_description; "Tags: " +:+ join ", " task_tags;
      nl +:+ "## Solution: " +:+ s_title s; section "### Summary" [prefix 500 (summary s)]]
     ++ (match checklist with [] => [] | _ => [section "### Required Checklist" (map (λ i, "- [ ] " +:+ i) checklist)] end)
     ++ (match architecture s with
         | Some a => [section "### Architecture" ["Pattern: " +:+ ap_name a; prefix 500 (ap_description a)]]
         | None => [] end)
     ++ [section "### Tech Stack" [stack_summary (stack s)]]
     ++ (match code_blocks s with
         | [] => []
         | _ => [section "### Generated Files"
                   (map (λ c, "- " +:+ filename c +:+ " (" +:+ language c +:+ ", " +:+ pretty (String.length (content c))
                                +:+ " chars)") (take 5 (code_blocks s)))]
         end)
     ++ (match performance_notes s with [] => [] | l => [section "### Performance" (take 5 l)] end)
     ++ (match security_notes s with [] => [] | l => [section "### Security" (take 5 l)] end))%list.

(** [_summarize] of the pairwise comparison. *)
Definition _summarize (s : Solution) : string :=
  join nl
    (["Title: " +:+ s_title s; "Summary: " +:+ prefix 300 (summary s)]
     ++ (match architecture s with
         | Some a => ["Architecture: " +:+ ap_name a +:+ " - " +:+ prefix 200 (ap_description a)] | None => [] end)
     ++ ["Stack: " +:+ prefix 200 (stack_summary (stack s))]
     ++ (match code_blocks s with
         | [] => []
         | l => ("Files: " +:+ pretty (length l) +:+ " files")
                  :: map (λ c, "  " +:+ filename c +:+ " (" +:+ pretty (String.length (content c)) +:+ " chars)") (take 3 l)
         end))%list.

Definition pairwise_prompt (a b : Solution) (task_description : string) (task_tags : list string) : string :=
  join nl
    ["## Task" +:+ nl +:+ task_description; "Tags: " +:+ join ", " task_tags;
     nl +:+ "## Solution A" +:+ nl +:+ _summarize a; nl +:+ "## Solution B" +:+ nl +:+ _summarize b;
     nl +:+ "Compare solutions A and B. Select the better one. Return ONLY valid JSON."].

Definition critic_prompt (s : Solution) (task_description : string) : string :=
  join nl
    (["## Task" +:+ nl +:+ task_description; "## Solution: " +:+ s_title s;
      section "### Summary" [prefix 500 (summary s)]]
     ++ map (λ c, nl +:+ "--- " +:+ filename c +:+ " ---" +:+ nl +:+ prefix 2000 (content c)) (take 3 (code_blocks s)))%list.

Section judge.
(** [loads] gives [None] for a text that is not JSON; one whose parsing raises another exception
    (nested too deeply, an integer of more than 4300 digits) fails the verdict as well, with the
    summary of an exception. *)
Context (loads : string → option json) (float_str : string → option pyfloat).
(** [llm.complete(messages)]: the content, or the text of the exception. *)
Context (complete : string → string → result string string).

(** An integer that no float can hold; a number literal with a fraction or an exponent is a float
    already, and none of this size is finite. *)
Definition too_big_for_float (q : Q) : bool := Qle_bool (inject_Z (2 ^ 1024 - 2 ^ 970)) (Qabs q).

(** [float(value)]; the inner [None] is a [TypeError] or [ValueError]. *)
Definition py_float (j : json) : result pyexn (option pyfloat) :=
  match j with
  | JNum q => if too_big_for_float q then Err OverflowError else Ok (Some (Fin q))
  | JBool b => Ok (Some (Fin (if b then 1 else 0)))
  | JStr s => Ok (float_str s)
  | _ => Ok None
  end.

(** An [OverflowError] is not caught here. *)
Definition _score (value : json) : result pyexn Q :=
  f ← py_float value;
  Ok (match f with
      | Some (Fin q) => Qmaxb 0 (Qminb 1 q)
      | Some PosInf => 1%Q
      | Some NegInf => 0%Q
      | Some NaN | None => 0%Q
      end).

Definition score_field (k : string) (d : dict) : result pyexn Q := _score (default JNull (dget k d)).

Definition _parse_scores (j : json) : result pyexn JudgeScore :=
  match j with
  | JObj d =>
      a ← score_field "architecture" d; q ← score_field "code_quality" d; s ← score_field "security" d;
      p ← score_field "performance" d; m ← score_field "maintainability" d; c ← score_field "completeness" d;
      o ← score_field "overall" d; Ok (mkScore a q s p m c o)
  | _ => Err AttributeError
  end.

Definition scores_json (s : JudgeScore) : json :=
  JObj [("architecture", JNum (sc_architecture s)); ("code_quality", JNum (sc_code_quality s));
        ("security", JNum (sc_security s)); ("performance", JNum (sc_performance s));
        ("maintainability", JNum (sc_maintainability s)); ("completeness", JNum (sc_completeness s));
        ("overall", JNum (overall s))].

(** [_parse_verdict]; the metadata of the solution are set before the last field can
    raise, so the solution is part of every outcome. *)
Definition _parse_verdict (raw : string) (s : Solution) : Solution * result pyexn JudgeVerdict :=
  match loads (strip_fences raw) with
  | None => (s, Ok (failed_verdict "Raw (unparseable) judge feedback" (prefix 500 raw)))
  | Some (JObj data) =>
      let get k dflt := default dflt (dget k data) in
      match _parse_scores (get "scores" (JObj [])) with
      | Err e => (s, Err e)
      | Ok sc =>
          let s := with_metadata (with_metadata s "judge_scores" (scores_json sc))
                     "judge_weaknesses" (get "weaknesses" (JArr [])) in
          (s, summ ← py_slice 500 (get "summary" (JStr ""));
              Ok (mkJVerdict (Qle_bool (1 # 2) (overall sc)) sc (get "strengths" (JArr [])) (get "weaknesses" (JArr []))
                    (get "improvements" (JArr [])) (get "production_readiness" (JStr "needs-work")) summ (prefix 500 raw)))
      end
  | Some _ => (s, Err AttributeError)
  end.

(** [evaluate_solution]: every exception becomes a failed verdict (the texts of the
    exceptions Python raises itself are left out). *)
Definition evaluate_solution (s : Solution) (task_description : string) (task_tags checklist : list string)
    : Solution * JudgeVerdict :=
  match complete JUDGE_SYSTEM_PROMPT (judge_prompt s task_description task_tags checklist) with
  | Err e => (s, failed_verdict ("Judge evaluation skipped: " +:+ e) "")
  | Ok raw =>
      match _parse_verdict raw s with
      | (s, Ok v) => (s, v)
      | (s, Err e) => (s, failed_verdict "Judge evaluation skipped" "")
      end
  end.

Definition _parse_pairwise (raw : string) : result pyexn PairwiseResult :=
  match loads (strip_fences raw) with
  | None => Ok (mkPairwise (JStr "A") 0 (JStr (prefix 300 raw)) no_score no_score)
  | Some (JObj data) =>
      let get k dflt := default dflt (dget k data) in
      let w := get "winner" (JStr "A") in
      a ← _parse_scores (get "scores_a" (JObj []));
      b ← _parse_scores (get "scores_b" (JObj []));
      Ok (mkPairwise w (match w with JStr "A" => 0 | _ => 1 end) (get "rationale" (JStr "")) a b)
  | Some _ => Err AttributeError
  end.

Definition evaluate_pairwise (a b : Solution) (task_description : string) (task_tags : list string) : PairwiseResult :=
  match complete PAIRWISE_SYSTEM_PROMPT (pairwise_prompt a b task_description task_tags) with
  | Ok raw =>
      match _parse_pairwise raw with
      | Ok r => r
      | Err _ => mkPairwise (JStr "") 0 (JStr "Pairwise judge error") no_score no_score
      end
  | Err e => mkPairwise (JStr "") 0 (JStr ("Pairwise judge error: " +:+ e)) no_score no_score
  end.

Definition critique_solution (s : Solution) (task_description : string) : json :=
  let failed e := JObj [("issues", JArr []); ("summary", JStr ("Critique failed: " +:+ e)); ("trust_score", JNum (1 # 2))] in
  match complete CRITIC_SYSTEM_PROMPT (critic_prompt s task_description) with
  | Err e => failed e
  | Ok raw => match loads (strip_fences raw) with Some j => j | None => failed "invalid JSON" end
  end.

(** ** Scores and verdicts *)
Lemma score_bounds j q : _score j = Ok q → (0 <= q <= 1)%Q.
Proof.
  assert (0 <= 0 <= 1)%Q as H0 by (split; discriminate). assert (0 <= 1 <= 1)%Q as H1 by (split; discriminate).
  unfold _score. destruct (py_float j) as [[[r| | |]|]|]; cbn; intros [= <-]; try done.
  destruct (Qmaxb_spec 0 (Qminb 1 r)) as (Ha & Hb & Hc). destruct (Qminb_spec 1 r) as (Hd & _ & _).
  split; [done|]. destruct Hc as [-> | ->]; lra.
Qed.

Definition score_ok (s : JudgeScore) : Prop :=
  Forall (λ q, 0 <= q <= 1)%Q
    [sc_architecture s; sc_code_quality s; sc_security s; sc_performance s; sc_maintainability s; sc_completeness s;
     overall s].

Definition score_names : list string := ["architecture"; "code_quality"; "security"; "performance"; "maintainability"; "completeness"; "overall"].

Lemma parse_scores_obj d :
  match _parse_scores (JObj d) with
  | Ok sc => score_ok sc ∧ score_field "overall" d = Ok (overall sc) ∧ Forall (λ k, is_ok (score_field k d) = true) score_names
  | Err _ => Exists (λ k, is_ok (score_field k d) = false) score_names
  end.
Proof.
  cbn [_parse_scores]. unfold score_names.
  destruct (score_field "architecture" d) as [a|] eqn:E1; cbn [mbind result_bind]; [|left; by rewrite E1].
  destruct (score_field "code_quality" d) as [q|] eqn:E2; cbn [mbind result_bind]; [|right; left; by rewrite E2].
  destruct (score_field "security" d) as [x|] eqn:E3; cbn [mbind result_bind]; [|do 2 right; left; by rewrite E3].
  destruct (score_field "performance" d) as [p|] eqn:E4; cbn [mbind result_bind]; [|do 3 right; left; by rewrite E4].
  destruct (score_field "maintainability" d) as [m|] eqn:E5; cbn [mbind result_bind]; [|do 4 right; left; by rewrite E5].
  destruct (score_field "completeness" d) as [c|] eqn:E6; cbn [mbind result_bind]; [|do 5 right; left; by rewrite E6].
  destruct (score_field "overall" d) as [o|] eqn:E7; cbn [mbind result_bind]; [|do 6 right; left; by rewrite E7].
  split_and!; [|done|repeat (constructor; [by rewrite ?E1, ?E2, ?E3, ?E4, ?E5, ?E6, ?E7|]); constructor].
  unfold score_ok. cbn. repeat (constructor; [eapply score_bounds; eassumption|]). constructor.
Qed.

Lemma parse_scores_ok j sc : _parse_scores j = Ok sc → score_ok sc.
Proof. destruct j as [| | | | |d]; [done..|]. intros E. pose proof (parse_scores_obj d) as H. rewrite E in H. apply H. Qed.

(** What a passing answer looks like: a JSON object whose scores are an object with an
    overall score of at least one half, none of its seven scores being an integer no float can
    hold, and whose summary can be cut (a text or a list, or missing). *)
Definition passing (raw : string) : Prop :=
  ∃ data sd q, loads (strip_fences raw) = Some (JObj data)
    ∧ default (JObj []) (dget "scores" data) = JObj sd
    ∧ score_field "overall" sd = Ok q ∧ (1 # 2 <= q)%Q
    ∧ Forall (λ k, ∀ n, dget k sd = Some (JNum n) → too_big_for_float n = false) score_names
    ∧ match dget "summary" data with None | Some (JStr _) | Some (JArr _) => True | _ => False end.

Lemma score_field_ok k d : is_ok (score_field k d) = true ↔ ∀ n, dget k d = Some (JNum n) → too_big_for_float n = false.
Proof.
  unfold score_field, _score, py_float. destruct (dget k d) as [[|b|n|s|l|o]|]; cbn; try (split; [by intros _ ? ?|done]).
  destruct (too_big_for_float n) eqn:E; cbn; split; [done|intros H; by rewrite (H n eq_refl) in E|by intros _ ? [= <-]|done].
Qed.

Lemma slice_ok data : is_ok (py_slice 500 (default (JStr "") (dget "summary" data))) = true ↔
  match dget "summary" data with None | Some (JStr _) | Some (JArr _) => True | _ => False end.
Proof. by destruct (dget "summary" data) as [[]|]. Qed.

Lemma parse_verdict_passes raw s :
  (∃ s' v, _parse_verdict raw s = (s', Ok v) ∧ passed v = true) ↔ passing raw.
Proof.
  unfold _parse_verdict, passing. destruct (loads (strip_fences raw)) as [[| | | | |data]|];
    try (split; [by intros (? & ? & [= <- <-] & ?)|by intros (? & ? & ? & ? & _)]);
    try (split; [by intros (? & ? & ? & ?)|by intros (? & ? & ? & ? & _)]).
  destruct (default (JObj []) (dget "scores" data)) as [| | | | |sd] eqn:Es;
    try (split; [by intros (? & ? & ? & ?)|intros (? & ? & ? & [= <-] & Hs & _); congruence]).
  pose proof (parse_scores_obj sd) as Hsc. pose proof (slice_ok data) as Hsl. destruct (_parse_scores (JObj sd)) as [sc|e].
  - destruct Hsc as (_ & Ho & Hall). destruct (py_slice 500 _) as [sl|e] eqn:Esl; cbn [mbind result_bind].
    + split.
      * intros (s' & v & [= <- <-] & Hp). exists data, sd, (overall sc). split_and!; try done; [by apply Qle_bool_iff| |by apply Hsl].
        eapply Forall_impl; [exact Hall|]. intros k. apply score_field_ok.
      * intros (d & sd' & q & [= <-] & Hs & Hq & Hp & _). rewrite Es in Hs. injection Hs as <-. eexists _, _. split; [done|]. cbn. apply Qle_bool_iff. congruence.
    + split; [by intros (? & ? & ? & ?)|]. intros (d & sd' & q & [= <-] & _ & _ & _ & _ & Hk). by apply Hsl in Hk.
  - split; [by intros (? & ? & ? & ?)|]. intros (d & sd' & q & [= <-] & Hs & _ & _ & Hk & _). rewrite Es in Hs. injection Hs as <-.
    rewrite Forall_forall in Hk. apply Exists_exists in Hsc as (k & Hin & Hf). specialize (Hk k Hin). apply score_field_ok in Hk. congruence.
Qed.

(** C16: The judge fails closed: [evaluate_solution] never raises, its scores are
    between 0 and 1 whatever JSON the model sends, and the verdict is a pass exactly
    when the model answered with a JSON object whose scores are an object with an overall
    score of at least one half after clamping, none of the scores is an integer beyond the
    range of floats, and whose summary is a text, a list or missing; an error of the model,
    unparseable text or a score of the wrong type is a fail. *)
Theorem judge_fail_closed s descr ts cl :
  let v := (evaluate_solution s descr ts cl).2 in
  score_ok (scores v)
  ∧ (passed v = true ↔ ∃ raw, complete JUDGE_SYSTEM_PROMPT (judge_prompt s descr ts cl) = Ok raw ∧ passing raw).
Proof.
  assert (score_ok no_score) as H0 by (by repeat constructor).
  unfold evaluate_solution. destruct (complete _ _) as [raw|e]; cbn.
  - pose proof (parse_verdict_passes raw s) as Hp.
    assert (∀ s' v, _parse_verdict raw s = (s', Ok v) → score_ok (scores v)) as Hsc.
    { unfold _parse_verdict. intros s' v. destruct (loads _) as [[| | | | |data]|]; try done; [|by intros [= <- <-]].
      destruct (_parse_scores _) as [sc|] eqn:E; [|done]. apply parse_scores_ok in E.
      destruct (py_slice 500 _); cbn; [by intros [= <- <-]|done]. }
    destruct (_parse_verdict raw s) as [s' [v|e]]; cbn.
    + split; [by eapply Hsc|]. split.
      * intros Hv. exists raw. split; [done|]. apply Hp. eauto.
      * intros (r & [= <-] & (s2 & v2 & [= <- <-] & Hv)%Hp). done.
    + split; [done|]. split; [done|]. by intros (r & [= <-] & (s2 & v2 & ? & _)%Hp).
  - split; [done|]. split; [done|]. by intros (r & ? & _).
Qed.

(** A pairwise comparison that cannot be parsed counts as a win of the first
    solution. *)
Lemma pairwise_unparseable raw :
  loads (strip_fences raw) = None →
  _parse_pairwise raw = Ok (mkPairwise (JStr "A") 0 (JStr (prefix 300 raw)) no_score no_score).
Proof. unfold _parse_pairwise. by intros ->. Qed.
End judge.
