(* ===== verification/Healer.v ===== *)
(** * Self-healing execution ([noema/healer/engine.py])

    [execute_with_healing] runs a function through a list of healing actions, each
    with its retries.  The function is a parameter that acts on a state; it returns,
    raises an [Exception], or is cancelled (a [BaseException] the healer does not
    catch).  Pauses are recorded in the state of the run. *)
From Stdlib Require Import ZArith QArith Qpower Lqa Lia Bool String.
From stdpp Require Import base option numbers sets strings pretty list.
From S2P Require Import Prelude OntologyGraph OntologyLearning.
Local Open Scope string_scope.
Local Open Scope list_scope.
Local Open Scope nat_scope.

Inductive HealingAction := RETRY | RETRY_WITH_CONTEXT | FALLBACK | ROLLBACK | SKIP | ESCALATE.

#[global] Instance HealingAction_eq_dec : EqDecision HealingAction.
Proof. solve_decision. Defined.

Definition action_value (a : HealingAction) : string :=
  match a with
  | RETRY => "retry" | RETRY_WITH_CONTEXT => "retry_with_context" | FALLBACK => "fallback"
  | ROLLBACK => "rollback" | SKIP => "skip" | ESCALATE => "escalate"
  end.

Record HealingResult := mkHealing {
  original_error : string;
  action_taken : string;
  succeeded : bool;
  details : string;
}.

Record HealingStrategy := mkStrategy {
  max_retries : nat;
  backoff_base : Q;
  backoff_max : Q;
  actions : list HealingAction;
}.

Definition default_strategy : HealingStrategy := mkStrategy 3 1 30 [RETRY; RETRY_WITH_CONTEXT; FALLBACK].

Record SelfHealer := mkHealer {
  history : list HealingResult;
  _success_count : nat;
  _failure_count : nat;
  _strategies_applied : list (string * nat);
}.

Definition healer_init : SelfHealer := mkHealer [] 0 0 [].

(** The healing context of a retry: the previous error and the attempt. *)
Record healing_context := mkHContext { previous_error : string; retry_count : nat }.

Inductive call_outcome (A : Type) := Returned (a : A) | Raised (e : string) | Cancelled.
Arguments Returned {A} _.
Arguments Raised {A} _.
Arguments Cancelled {A}.

(** How [execute_with_healing] ends. *)
Inductive ending (A : Type) := Value (a : A) | FallbackValue | NoneValue | Reraised (e : string) | WasCancelled.
Arguments Value {A} _.
Arguments FallbackValue {A}.
Arguments NoneValue {A}.
Arguments Reraised {A} _.
Arguments WasCancelled {A}.

Section healer.
Context {St A : Type}.
(** The function, called with the healing context when it accepts one, and whether it
    does; whether the caller gave a fallback value. *)
Context (func : option healing_context → St → St * call_outcome A) (supports_context has_fallback : bool).
Context (strategy : HealingStrategy).

(** The run: the healer, the state of the function, the locals, the number of calls
    and the pauses. *)
Record run := mkRun {
  healer : SelfHealer;
  fstate : St;
  last_error : option string;
  hcontext : option healing_context;
  calls : nat;
  pauses : list Q;
}.

Definition log_result (h : SelfHealer) (hr : HealingResult) (success : bool) : SelfHealer :=
  mkHealer (history h ++ [hr]) (_success_count h + if success then 1 else 0) (_failure_count h + if success then 0 else 1)
    (_strategies_applied h).

Definition applied (h : SelfHealer) (a : HealingAction) : SelfHealer :=
  mkHealer (history h) (_success_count h) (_failure_count h)
    (dset (action_value a) (default 0 (dget (action_value a) (_strategies_applied h)) + 1) (_strategies_applied h)).

Definition with_healer (r : run) (h : SelfHealer) : run :=
  mkRun h (fstate r) (last_error r) (hcontext r) (calls r) (pauses r).

Definition delay (attempt : nat) : Q := Qminb (backoff_base strategy * inject_Z (2 ^ Z.of_nat attempt)) (backoff_max strategy).

(** One call: [inl] the run goes on, [inr] it is over. *)
Definition attempt_once (r : run) (a : HealingAction) (attempt : nat) : run * option (ending A) :=
  let '(s, o) := func (if supports_context then hcontext r else None) (fstate r) in
  let r := mkRun (healer r) s (last_error r) (hcontext r) (calls r + 1) (pauses r) in
  match o with
  | Cancelled => (r, Some WasCancelled)
  | Returned v =>
      let hr := mkHealing (default "" (last_error r))
                  ("succeeded_on_" +:+ action_value a +:+ "_attempt_" +:+ pretty (attempt + 1)) true "" in
      (with_healer r (log_result (healer r) hr true), Some (Value v))
  | Raised e =>
      let r := mkRun (applied (healer r) a) (fstate r) (Some e) (hcontext r) (calls r) (pauses r) in
      let over taken ok details o :=
        (with_healer r (log_result (healer r) (mkHealing e taken ok details) false), Some o) in
      match a with
      | RETRY => (mkRun (healer r) (fstate r) (last_error r) (hcontext r) (calls r) (pauses r ++ [delay attempt]), None)
      | RETRY_WITH_CONTEXT =>
          (mkRun (healer r) (fstate r) (last_error r) (Some (mkHContext e attempt)) (calls r)
             (pauses r ++ [delay attempt]), None)
      | FALLBACK => over "fallback" has_fallback "Used fallback value" FallbackValue
      | SKIP => over "skip" false "Skipped due to failure" NoneValue
      | ROLLBACK => over "rollback" false "Rollback requested" (Reraised e)
      | ESCALATE => over "escalate" false "Escalating to caller" (Reraised e)
      end
  end.

(** [for attempt in range(max_retries)]: [n] attempts are left. *)
Fixpoint attempts (r : run) (a : HealingAction) (n attempt : nat) : run * option (ending A) :=
  match n with
  | O => (r, None)
  | S n =>
      match attempt_once r a attempt with
      | (r, Some o) => (r, Some o)
      | (r, None) => attempts r a n (attempt + 1)
      end
  end.

(** [for action in self.strategy.actions] *)
Fixpoint all_actions (r : run) (l : list HealingAction) : run * option (ending A) :=
  match l with
  | [] => (r, None)
  | a :: l =>
      match attempts r a (max_retries strategy) 0 with
      | (r, Some o) => (r, Some o)
      | (r, None) => all_actions r l
      end
  end.

Definition execute_with_healing (h : SelfHealer) (s : St) : run * ending A :=
  match all_actions (mkRun h s None None 0 []) (actions strategy) with
  | (r, Some o) => (r, o)
  | (r, None) =>
      let hr := mkHealing (default "None" (last_error r)) "all_strategies_exhausted" false "" in
      (with_healer r (log_result (healer r) hr false),
       match last_error r with Some e => Reraised e | None => FallbackValue end)
  end.

(** ** Bounds on calls and pauses *)
Definition is_retry (a : HealingAction) : bool :=
  match a with RETRY | RETRY_WITH_CONTEXT => true | _ => false end.

(** The calls the actions can make: all retries of a retrying action, one call of any
    other. *)
Definition budget (l : list HealingAction) : nat :=
  sum_list_with (λ a, if is_retry a then max_retries strategy else min 1 (max_retries strategy)) l.

Definition totals (h : SelfHealer) : nat := _success_count h + _failure_count h.

Lemma attempt_once_spec r a k :
  let '(r', o) := attempt_once r a k in
  calls r' = calls r + 1 ∧ length (pauses r') ≤ length (pauses r) + 1
  ∧ totals (healer r') = totals (healer r) + (match o with None | Some WasCancelled => 0 | _ => 1 end)
  ∧ length (history (healer r')) = length (history (healer r)) + (match o with None | Some WasCancelled => 0 | _ => 1 end)
  ∧ (is_retry a = false → is_Some o)
  ∧ (o = None → is_Some (last_error r'))
  ∧ (Forall (λ p, p <= backoff_max strategy)%Q (pauses r) → Forall (λ p, p <= backoff_max strategy)%Q (pauses r')).
Proof.
  unfold attempt_once. destruct (func _ _) as [s [v|e|]].
  - cbn. unfold totals. cbn. rewrite length_app. cbn. split_and!; try lia; try done.
  - assert (delay k <= backoff_max strategy)%Q as Hd by (unfold delay; apply Qminb_spec).
    destruct a; cbn; unfold totals; cbn; rewrite ?length_app; cbn; split_and!; try lia; try done; eauto;
      (intros Hf; apply Forall_app; split; [done|]; by constructor).
  - cbn. split_and!; try lia; try done.
Qed.

Lemma attempts_spec n : ∀ r a k,
  let '(r', o) := attempts r a n k in
  calls r' ≤ calls r + (if is_retry a then n else min 1 n)
  ∧ length (pauses r') + calls r ≤ length (pauses r) + calls r'
  ∧ totals (healer r') = totals (healer r) + (match o with None | Some WasCancelled => 0 | _ => 1 end)
  ∧ length (history (healer r')) = length (history (healer r)) + (match o with None | Some WasCancelled => 0 | _ => 1 end)
  ∧ (is_retry a = false → 0 < n → is_Some o)
  ∧ (o = None → 0 < n → is_Some (last_error r'))
  ∧ (o = None → n = 0 → last_error r' = last_error r)
  ∧ (Forall (λ p, p <= backoff_max strategy)%Q (pauses r) → Forall (λ p, p <= backoff_max strategy)%Q (pauses r')).
Proof.
  induction n as [|n IH]; intros r a k; cbn [attempts].
  { split_and!; try lia; try done. }
  pose proof (attempt_once_spec r a k) as H. destruct (attempt_once r a k) as [r1 [o|]].
  - destruct H as (H1 & H2 & H3 & H4 & H5 & H6 & H7). split_and!; try done; try lia. destruct (is_retry a); lia.
  - destruct H as (H1 & H2 & H3 & H4 & H5 & H6 & H7). specialize (IH r1 a (k + 1)).
    assert (is_retry a = true) as Ha. { destruct (is_retry a); [done|]. by destruct H5. }
    destruct (attempts r1 a n (k + 1)) as [r2 o]. destruct IH as (I1 & I2 & I3 & I4 & I5 & I6 & I7 & I8).
    rewrite Ha in *. split_and!; try lia; try done; try auto.
    intros Ho _. destruct n; [|apply I6; [done|lia]]. rewrite I7; [by apply H6|done|done].
Qed.

Lemma all_actions_spec l : ∀ r,
  let '(r', o) := all_actions r l in
  calls r' ≤ calls r + budget l
  ∧ length (pauses r') + calls r ≤ length (pauses r) + calls r'
  ∧ totals (healer r') = totals (healer r) + (match o with None | Some WasCancelled => 0 | _ => 1 end)
  ∧ length (history (healer r')) = length (history (healer r)) + (match o with None | Some WasCancelled => 0 | _ => 1 end)
  ∧ (Forall (λ p, p <= backoff_max strategy)%Q (pauses r) → Forall (λ p, p <= backoff_max strategy)%Q (pauses r')).
Proof.
  induction l as [|a l IH]; intros r; cbn [all_actions].
  { split_and!; try lia; try done. }
  pose proof (attempts_spec (max_retries strategy) r a 0) as H.
  change (budget (a :: l)) with ((if is_retry a then max_retries strategy else min 1 (max_retries strategy)) + budget l).
  destruct (attempts r a (max_retries strategy) 0) as [r1 [o|]];
    destruct H as (H1 & H2 & H3 & H4 & _ & _ & _ & H8).
  - split_and!; try done; lia.
  - specialize (IH r1). destruct (all_actions r1 l) as [r2 o].
    destruct IH as (I1 & I2 & I3 & I4 & I5). split_and!; try lia. auto.
Qed.

(** ** The reference: a schedule of calls, then the fallback

    A scheduled call is its number within its action and whether a failure of it is told to the
    calls that follow. *)
Definition schedule (pre : list HealingAction) : list (bool * nat) :=
  concat (map (λ a, map (λ k, (bool_decide (a = RETRY_WITH_CONTEXT), k)) (seq 0 (max_retries strategy))) pre).

(** [told]: the last failure that is told, if there was one. *)
Fixpoint tries (l : list (bool * nat)) (told : option healing_context) (s : St) : St * ending A :=
  match func (if supports_context then told else None) s with
  | (s, Returned v) => (s, Value v)
  | (s, Cancelled) => (s, WasCancelled)
  | (s, Raised e) =>
      match l with
      | [] => (s, FallbackValue)
      | (tell, k) :: l => tries l (if tell then Some (mkHContext e k) else told) s
      end
  end.

Definition healed (pre : list HealingAction) (s : St) : St * ending A :=
  if max_retries strategy =? 0 then (s, FallbackValue) else tries (schedule pre) None s.

(** The outcome of a run, with what follows a run that goes on. *)
Definition finish (p : run * option (ending A)) (k : run → St * ending A) : St * ending A :=
  match p with (r, Some o) => (fstate r, o) | (r, None) => k r end.

Lemma attempts_scheduled n a k rest : is_retry a = true →
  ∀ r i, (∀ r, k r = tries rest (hcontext r) (fstate r)) →
  finish (attempts r a n i) k = tries (map (λ k, (bool_decide (a = RETRY_WITH_CONTEXT), k)) (seq i n) ++ rest) (hcontext r) (fstate r).
Proof.
  intros Ha. induction n as [|n IH]; intros r i Hk; [apply Hk|]. cbn [attempts seq map app tries].
  unfold attempt_once. destruct (func _ (fstate r)) as [s [v|e|]]; [done| |done].
  destruct a; try done; (rewrite IH by done); by rewrite Nat.add_1_r.
Qed.

Lemma all_actions_scheduled l r after : forallb is_retry l = true → 0 < max_retries strategy →
  finish (all_actions r (l ++ [FALLBACK])) after = tries (schedule l) (hcontext r) (fstate r) ∧ is_Some (all_actions r (l ++ [FALLBACK])).2.
Proof.
  intros Hl Hm. revert r. induction l as [|a l IH]; intros r.
  - cbn [app all_actions schedule map concat]. destruct (max_retries strategy) as [|m] eqn:Em; [lia|]. cbn [attempts].
    unfold attempt_once. cbn [tries]. destruct (func _ (fstate r)) as [s' [v|e|]]; cbn; eauto.
  - cbn in Hl. apply andb_prop in Hl as [Hl1 Hl2]. specialize (IH Hl2). change ((a :: l) ++ [FALLBACK]) with (a :: (l ++ [FALLBACK])). cbn [all_actions].
    change (schedule (a :: l)) with (map (λ k, (bool_decide (a = RETRY_WITH_CONTEXT), k)) (seq 0 (max_retries strategy)) ++ schedule l).
    rewrite <- (attempts_scheduled (max_retries strategy) a (λ r, finish (all_actions r (l ++ [FALLBACK])) after) (schedule l) Hl1 r 0) by (intros r'; apply IH).
    destruct (attempts r a (max_retries strategy) 0) as [r1 [o|]]; cbn; [eauto|]. split; [done|]. apply IH.
Qed.

Lemma no_retries l r : max_retries strategy = 0 → all_actions r l = (r, None).
Proof. intros Hm. induction l as [|a l IH]; [done|]. cbn [all_actions]. by rewrite Hm. Qed.

Lemma healing_schedule_length pre : length (schedule pre) = length pre * max_retries strategy.
Proof. unfold schedule. induction pre as [|a pre IH]; [done|]. cbn [map concat length Nat.mul]. by rewrite length_app, IH, length_map, length_seq. Qed.

(** C17: With retrying actions and a final fallback (the default strategy is of this form)
    [execute_with_healing] is the reference [healed]: it makes the calls of a fixed schedule,
    [max_retries] for each retrying action, and one more, until one of them returns or is
    cancelled, and then gives the fallback value; it raises nothing.  A function that accepts a
    healing context is told with each call the last failure under [RETRY_WITH_CONTEXT] before
    it, with the number of that attempt, and nothing before there was one; any other function is
    called without.  A strategy without retries calls nothing and gives the fallback value. *)
Theorem healing_is_bounded_tries pre h s :
  forallb is_retry pre = true → actions strategy = pre ++ [FALLBACK] →
  let '(r, o) := execute_with_healing h s in
  (fstate r, o) = healed pre s ∧ length (schedule pre) = length pre * max_retries strategy.
Proof.
  intros Hp Ha. pose proof (healing_schedule_length pre) as Hl. unfold execute_with_healing, healed. rewrite Ha. destruct (Nat.eqb_spec (max_retries strategy) 0) as [Hm|Hm].
  - by rewrite no_retries.
  - destruct (all_actions_scheduled pre (mkRun h s None None 0 []) (λ r, (fstate r, NoneValue)) Hp ltac:(lia)) as [H1 [o H2]].
    destruct (all_actions _ _) as [r o']. cbn in H2. subst o'. by split.
Qed.

(** The calls, pauses and counters of one execution: bounded calls and pauses, and
    exactly one history entry and one count unless the execution was cancelled. *)
Lemma healing_accounting h s :
  let '(r, o) := execute_with_healing h s in
  let n := match o with WasCancelled => 0 | _ => 1 end in
  calls r ≤ budget (actions strategy) ∧ length (pauses r) ≤ calls r
  ∧ Forall (λ p, p <= backoff_max strategy)%Q (pauses r)
  ∧ totals (healer r) = totals h + n ∧ length (history (healer r)) = length (history h) + n.
Proof.
  unfold execute_with_healing. pose proof (all_actions_spec (actions strategy) (mkRun h s None None 0 [])) as H.
  destruct (all_actions _ _) as [r [o|]]; destruct H as (H1 & H2 & H3 & H4 & H5); cbn in *.
  - split_and!; try lia; try (apply H5; constructor); destruct o; done.
  - unfold totals in *. cbn. rewrite length_app. cbn. split_and!; try lia; try (apply H5; constructor);
      destruct (last_error r); cbn; lia.
Qed.

Definition get_stats (h : SelfHealer) : nat * nat * nat * Q * list (string * nat) :=
  let total := totals h in
  (total, _success_count h, _failure_count h,
   (inject_Z (Z.of_nat (_success_count h)) / inject_Z (Z.max (Z.of_nat total) 1))%Q, _strategies_applied h).
End healer.

(** ** Learning from a repaired failure

    [_propose_ontological_axiom]: [crystallize] is [crystallize_axiom] with the healer's
    model, the codes and the path; an exception, or a missing model or ontology, gives
    [False]. *)
Definition _propose_ontological_axiom (has_llm : bool) (ontology : option OntologyGraph)
    (crystallize : OntologyGraph → gresult (OntologyGraph * CrystallizationResult)) : option OntologyGraph * bool :=
  match ontology with
  | Some g =>
      if has_llm then
        match crystallize g with
        | Ok (g', res) => (Some g', accepted res)
        | Err _ => (Some g, false)
        end
      else (ontology, false)
  | None => (None, false)
  end.

(** A function that raises six times and keeps what it is told. *)
Definition flaky (c : option healing_context) (l : list (option healing_context)) : list (option healing_context) * call_outcome string :=
  (l ++ [c], if (length l <? 6)%nat then Raised "down" else Returned "up").

Lemma healing_is_bounded_tries_witness :
  let '(r, o) := execute_with_healing flaky true true default_strategy healer_init [] in
  (fstate r, o) = healed flaky true default_strategy [RETRY; RETRY_WITH_CONTEXT] [] ∧ o = Value "up"
  ∧ fstate r = [None; None; None; None; Some (mkHContext "down" 0); Some (mkHContext "down" 1); Some (mkHContext "down" 2)].
Proof.
  pose proof (healing_is_bounded_tries flaky true true default_strategy [RETRY; RETRY_WITH_CONTEXT] healer_init [] eq_refl eq_refl) as H.
  assert ((execute_with_healing flaky true true default_strategy healer_init []).2 = Value "up") as H1
    by (vm_compute; reflexivity).
  assert (fstate (execute_with_healing flaky true true default_strategy healer_init []).1 = [None; None; None; None; Some (mkHContext "down" 0); Some (mkHContext "down" 1); Some (mkHContext "down" 2)]) as H2
    by (vm_compute; reflexivity).
  destruct (execute_with_healing flaky true true default_strategy healer_init []) as [r o].
  split; [exact (proj1 H)|]. split; [exact H1|exact H2].
Defined.
