(* ===== verification/Assembly.v ===== *)
(** * Solutions from model output ([noema/core/engine.py], the helpers of [NoemaEngine])

    Input validation, the projection of a task onto the neurosymbolic contract, the
    assembly of solutions from chain-of-thought contexts, kernels and neurosymbolic
    results, quality tiers and the static gate.  Values that come from a model are
    JSON, and every operation Python rejects on them ([None[:200]], iteration over a
    number, a pydantic field of the wrong type) is an error of the result. *)
From Stdlib Require Import ZArith QArith Lqa Lia Bool Ascii String.
From stdpp Require Import base option numbers sets strings pretty list.
From S2P Require Import Prelude Regex Symbolic Prompts ChainOfThought NeuroSymbolic CoreTypes Judge.
Local Open Scope string_scope.
Local Open Scope list_scope.
Local Open Scope nat_scope.

(** ** Memory limits of the sandbox *)
Definition is_unit (a : ascii) : bool := Ascii.eqb a "k" || Ascii.eqb a "m" || Ascii.eqb a "g".

(** [\s*(\d+)\s*([kmg]?)\s*] *)
Definition memory_pattern : re := Seq sp0 (Seq (Grp 1 (plus dgt)) (Seq sp0 (Seq (Grp 2 (Opt (Ch is_unit))) sp0))).

(** [re.fullmatch] *)
Definition fullmatch (r : re) (s : string) : option captures :=
  rmatch r None s [] (λ _ rest caps, if nonempty rest then None else Some caps).

Definition _parse_memory_mb (value : string) : Z :=
  match fullmatch memory_pattern (lower value) with
  | None => 256
  | Some caps =>
      let amount := default 0%Z (digits_value (group 1 caps) 0) in
      let unit := group 2 caps in
      if String.eqb unit "g" then Z.max 1 (amount * 1024)
      else if String.eqb unit "k" then Z.max 1 (amount / 1024)
      else Z.max 1 amount
  end.

Record SandboxSettings := mkSandbox {
  sb_enabled : bool;
  sb_timeout : Z;
  sb_max_memory : string;
  sb_max_cpus : Q;
  sb_network_disabled : bool;
  sb_docker_image : string;
  verify_think : bool;
  verify_think_enforce : bool;
}.

Record SandboxConfig := mkSandboxConfig {
  sc_enabled : bool;
  sc_timeout : Z;
  max_memory_mb : Z;
  max_cpus : Q;
  network_isolation : bool;
  docker_image : string;
}.

Definition _sandbox_config_from_settings (sb : SandboxSettings) : SandboxConfig :=
  mkSandboxConfig (sb_enabled sb) (sb_timeout sb) (_parse_memory_mb (sb_max_memory sb)) (sb_max_cpus sb)
    (sb_network_disabled sb) (sb_docker_image sb).

(** ** Input limits *)
Definition limit (ok : bool) : result pyexn () := if ok then Ok () else Err ValueError.

Definition validate_requirement (r : Requirement) : result pyexn () :=
  limit (String.length (rq_category r) <=? 50);;
  limit (Z.of_nat (String.length (rq_description r)) <=? 2000)%Z;;
  limit (length (rq_constraints r) <=? 20);;
  limit (forallb (λ c, (Z.of_nat (String.length c) <=? 500)%Z) (rq_constraints r)).

Fixpoint validate_requirements (l : list Requirement) : result pyexn () :=
  match l with [] => Ok () | r :: l => validate_requirement r;; validate_requirements l end.

(** The checks at the start of [_think_impl]. *)
Definition validate_task (t : Task) : result pyexn () :=
  limit (Z.of_nat (String.length (description t)) <=? 100000)%Z;;
  limit (length (tags t) <=? 100);;
  limit (length (requirements t) <=? 50);;
  validate_requirements (requirements t).

(** ** The neurosymbolic contract *)
Definition ns_requirement (p : nat * Requirement) : json :=
  let '(index, r) := p in
  JObj [("name", JStr (if nonempty (rq_category r) then rq_category r else "req_" +:+ pretty index));
        ("type", JStr "numeric"); ("min", JNull); ("max", JNull);
        ("constraints", JArr (map JStr (rq_constraints r))); ("description", JStr (rq_description r));
        ("priority", JNum (inject_Z (rq_priority r)))].

Definition _prepare_neurosymbolic_task (t : Task) : dict :=
  [("requirements", JArr (map ns_requirement (enumerate 0 (requirements t)))); ("constraints", JArr []);
   ("goals", JArr [JStr (title t); JStr (description t)]); ("variables", JObj [])].

(** A prepared task is valid input for the neurosymbolic engine, as it is. *)
Lemma prepared_task_valid t : model_validate (_prepare_neurosymbolic_task t) = Ok (_prepare_neurosymbolic_task t).
Proof.
  unfold model_validate, _prepare_neurosymbolic_task.
  assert (is_dict_list (JArr (map ns_requirement (enumerate 0 (requirements t)))) = true) as H.
  { cbn [is_dict_list]. generalize (enumerate 0 (requirements t)). induction l as [|[i r] l IH]; [done|]. exact IH. }
  revert H. generalize (JArr (map ns_requirement (enumerate 0 (requirements t)))). intros j H.
  lazy -[is_dict_list title description]. by rewrite H.
Qed.

(** ** File names and languages *)

(** [path.rsplit(".", 1)[-1] if "." in path else "py"] *)
Definition extension (path : string) : string :=
  match rfind "."%char path with Some i => suffix_from (i + 1) path | None => "py" end.

Definition lang_of (lang_map : list (string * string)) (path : string) : string :=
  let ext := extension path in default ext (dget ext lang_map).

Definition ns_langs : list (string * string) := [("py", "python"); ("ts", "typescript"); ("js", "javascript")].

Definition cot_langs : list (string * string) :=
  [("py", "python"); ("ts", "typescript"); ("js", "javascript"); ("go", "go"); ("rs", "rust"); ("java", "java");
   ("yml", "yaml"); ("yaml", "yaml")].

(** [d.get("path") or d.get("filename") or "main.py"] *)
Definition path_of (d : dict) : json :=
  default (JStr "main.py") (py_or (dget "path" d) (py_or (dget "filename" d) (Some (JStr "main.py")))).

(** The file name of a code block: ["." in path] raises on numbers, [rsplit] on lists
    that contain a dot, and pydantic on what is left. *)
Definition block_path (d : dict) : result pyexn string :=
  match path_of d with
  | JStr s => Ok s
  | JArr l => if existsb (λ j, match j with JStr s => String.eqb s "." | _ => false end) l then Err AttributeError
              else Err ValueError
  | JObj o => if dmem "." o then Err AttributeError else Err ValueError
  | _ => Err TypeError
  end.

Definition build_block (lang_map : list (string * string)) (d : dict) (content : json) : result pyexn CodeBlock :=
  path ← block_path d;
  c ← as_str content;
  descr ← as_str (default (JStr "") (dget "description" d));
  Ok (mkBlock path (lang_of lang_map path) c descr).

(** The code blocks of a list of entries; [entry] gives [None] for one that is skipped. *)
Fixpoint blocks (entry : json → result pyexn (option CodeBlock)) (l : list json) : result pyexn (list CodeBlock) :=
  match l with
  | [] => Ok []
  | x :: l =>
      b ← entry x;
      bs ← blocks entry l;
      Ok (match b with Some b => b :: bs | None => bs end)
  end.

Section assembly.
Context (loads : string → option json) (dumps : json → string) (repr : json → string).

(** ** From a neurosymbolic result *)
Definition ns_entry (cb : json) : result pyexn (option CodeBlock) :=
  match cb with
  | JObj d =>
      match dget "content" d with
      | Some c => if truthy c then b ← build_block ns_langs d c; Ok (Some b) else Ok None
      | None => Ok None
      end
  | _ => Ok None
  end.

(** A field of a pydantic model, with the default of [get]. *)
Definition str_field (k dflt : string) (d : dict) : result pyexn string := as_str (default (JStr dflt) (dget k d)).
Definition strs_field (k : string) (d : dict) : result pyexn (list string) := as_strs (default (JArr []) (dget k d)).

Definition ns_architecture (sol : dict) : result pyexn (option ArchitecturePattern) :=
  match dget "architecture" sol with
  | Some (JObj arch) =>
      n ← str_field "name" "NeuroSymbolic Design" arch;
      d ← str_field "description" "" arch;
      p ← strs_field "pros" arch;
      c ← strs_field "cons" arch;
      Ok (Some (mkPattern n d p c))
  | _ => Ok None
  end.

Definition ns_stack (sol : dict) : result pyexn TechStack :=
  match dget "stack" sol with
  | Some (JObj st) =>
      l ← strs_field "languages" st;
      f ← strs_field "frameworks" st;
      d ← strs_field "databases" st;
      i ← strs_field "infrastructure" st;
      Ok (mkStack l f d i [] [])
  | _ => Ok empty_stack
  end.

Definition _convert_neurosymbolic_to_solution (sol : dict) (t : Task) : result pyexn Solution :=
  summ ← as_str (default (default (JStr "") (dget "description" sol)) (dget "summary" sol));
  arch ← ns_architecture sol;
  st ← ns_stack sol;
  bs ← (match default (default (JArr []) (dget "files" sol)) (dget "code_blocks" sol) with
        | JArr l => blocks ns_entry (take 10 l)
        | _ => Ok []
        end);
  Ok (mkSolution (id t) ("NeuroSymbolic Solution: " +:+ title t) summ arch st bs [] [] DRAFT (1 # 2) []).

(** ** From a reasoning dictionary *)
Definition _safe_parse (data : json) : json :=
  match data with
  | JObj _ | JArr _ => data
  | JStr s =>
      match extract_fenced_json loads s with
      | Some JNull | None => JObj [("raw", JStr (prefix 500 (strip s)))]
      | Some j => j
      end
  | _ => JObj []
  end.

Definition parsed (k : string) (reasoning : dict) : json := _safe_parse (default (JStr "{}") (dget k reasoning)).

(** A part of the summary: [artifact.get(key, "")[:200]]. *)
Definition summary_part (k field : string) (reasoning : dict) : result pyexn (list json) :=
  match parsed k reasoning with
  | JObj d => p ← py_slice 200 (default (JStr "") (dget field d)); Ok [p]
  | _ => Ok []
  end.

(** [sep.join(parts)] *)
Definition join_json (sep : string) (l : list json) : result pyexn string :=
  strs ← mapM_result (λ j, match j with JStr s => Ok s | _ => Err TypeError end) l; Ok (join sep strs).

Definition _extract_summary (reasoning : dict) : result pyexn string :=
  a ← summary_part "architecture" "high_level_design" reasoning;
  r ← summary_part "review" "final_summary" reasoning;
  joined ← join_json " | " (List.filter truthy (a ++ r));
  Ok (if nonempty joined then joined else "Solution generated via Chain-of-Thought reasoning").

(** [[x.get(key, "") if isinstance(x, dict) else str(x) for x in ...]] as a [list[str]]. *)
Definition named_items (key : string) (j : json) : result pyexn (list string) :=
  match iter_json j with
  | None => Err TypeError
  | Some l => mapM_result (λ x, match x with
                                | JObj d => as_str (default (JStr "") (dget key d))
                                | _ => Ok (py_str repr x) end) l
  end.

Definition assemble_stack (reasoning : dict) : result pyexn TechStack :=
  match parsed "stack" reasoning with
  | JObj d =>
      let items k key := named_items key (default (JArr []) (dget k d)) in
      l ← items "languages" "name";
      f ← items "frameworks" "name";
      db ← items "databases" "name";
      i ← items "infrastructure" "tool";
      Ok (mkStack l f db i [] [])
  | _ => Ok empty_stack
  end.

Definition strings_of (j : json) : list string := match j with JArr l => map (py_str repr) l | _ => [] end.

Definition assemble_architecture (reasoning : dict) : option ArchitecturePattern :=
  match parsed "architecture" reasoning with
  | JObj arch =>
      match dget "pattern" arch with
      | Some (JObj p) =>
          Some (mkPattern (py_str repr (default (JStr "Custom") (dget "name" p)))
                  (py_str repr (default (default (JStr "") (dget "high_level_design" arch)) (dget "description" p)))
                  (strings_of (default (JArr []) (dget "pros" p))) (strings_of (default (JArr []) (dget "cons" p))))
      | _ => None
      end
  | _ => None
  end.

(** [len(content)] where it is needed: on numbers it raises. *)
Definition py_len (j : json) : result pyexn Z :=
  match j with
  | JStr s => Ok (Z.of_nat (String.length s))
  | JArr l => Ok (Z.of_nat (length l))
  | JObj d => Ok (Z.of_nat (length d))
  | _ => Err TypeError
  end.

Definition cot_entry (f : json) : result pyexn (option CodeBlock) :=
  match f with
  | JObj d =>
      let content := default (JStr "") (dget "content" d) in
      if truthy content then
        n ← py_len content;
        if (10 <? n)%Z && (n <=? 200000)%Z then b ← build_block cot_langs d content; Ok (Some b) else Ok None
      else Ok None
  | _ => Ok None
  end.

(** The elements of [x[:n]] in a loop. *)
Definition sliced_items (n : nat) (j : json) : result pyexn (list json) :=
  s ← py_slice n j; match iter_json s with Some l => Ok l | None => Err TypeError end.

Definition assemble_blocks (reasoning : dict) : result pyexn (list CodeBlock) :=
  match parsed "code" reasoning with
  | JObj d =>
      match dget "files" d with
      | Some files => l ← sliced_items 50 files; blocks cot_entry l
      | None => Ok []
      end
  | _ => Ok []
  end.

Definition performance (reasoning : dict) : list string :=
  match parsed "optimization" reasoning with
  | JObj d =>
      concat (map (λ '(key, val),
        match val with
        | JObj _ => ["[" +:+ key +:+ "] " +:+ prefix 200 (dumps val)]
        | JArr l => map (λ item, "[" +:+ key +:+ "] " +:+ prefix 200 (py_str repr item)) (take 3 l)
        | _ => []
        end) d)
  | _ => []
  end.

Definition threat_note (threat : json) : list string :=
  match threat with
  | JObj d =>
      let f k dflt := py_str repr (default (JStr dflt) (dget k d)) in
      ["[" +:+ f "likelihood" "medium" +:+ "] " +:+ f "threat" "" +:+ ": " +:+ f "mitigation" ""]
  | _ => []
  end.

Definition security (reasoning : dict) : result pyexn (list string) :=
  match parsed "security" reasoning with
  | JObj d => l ← sliced_items 5 (default (JArr []) (dget "threat_model" d)); Ok (concat (map threat_note l))
  | _ => Ok []
  end.

Definition _assemble_solution_from_reasoning (llm_name llm_model : string) (t : Task) (reasoning : dict)
    : result pyexn Solution :=
  summ ← _extract_summary reasoning;
  st ← assemble_stack reasoning;
  bs ← assemble_blocks reasoning;
  sec ← security reasoning;
  Ok (mkSolution (id t) ("Solution: " +:+ title t) summ (assemble_architecture reasoning) st bs (performance reasoning) sec
        DRAFT (1 # 2)
        [("llm_provider", JStr llm_name); ("llm_model", JStr llm_model);
         ("review", JStr (prefix 500 (py_str repr (default (JStr "") (dget "review" reasoning)))))]).

(** ** Kernels, the degraded mode *)

(** [_run_kernel]: [kernel] is the registered kernel's [execute] on the task ([None]: not
    registered), with the type and text of the exception it raises. *)
Definition _run_kernel (kernel_name kwargs : string) (t : Task) (thought : ThoughtProcess)
    (kernel : option (result string json)) : result pyexn (ThoughtProcess * dict) :=
  let input := "Task: " +:+ title t +:+ " | " +:+ kwargs in
  let note i o (c : Q) (d : dict) : result pyexn (ThoughtProcess * dict) :=
    th ← add_step thought kernel_name i o c; Ok (th, d) in
  match kernel with
  | None => note (title t) "Kernel not found" 0%Q []
  | Some (Err e) => note input ("Kernel failed: " +:+ e) 0%Q []
  | Some (Ok (JObj d)) =>
      let confidence :=
        match dget "_confidence" d with
        | Some (JNum q) => q
        | Some (JBool b) => if b then 1 else 0
        | _ => 7 # 10
        end%Q in
      note input (prefix 200 (repr (JObj d))) confidence d
  | Some (Ok _) => note input "Kernel returned non-dict" 0%Q []
  end.

Definition default_stack : TechStack :=
  mkStack ["Python"; "TypeScript"] ["FastAPI"; "React"] ["PostgreSQL"; "Redis"] ["Docker"] [] [].

(** [_select_stack]: [candidates] is what the knowledge store finds ([None]: it raised). *)
Definition _select_stack (t : Task) (candidates : option (list TechStack)) : TechStack :=
  match preferred_stack t with
  | Some st => st
  | None => match candidates with Some (st :: _) => st | _ => default_stack end
  end.

Definition stack_dump (t : TechStack) : json :=
  let l xs := JArr (map JStr xs) in
  JObj [("languages", l (languages t)); ("frameworks", l (frameworks t)); ("databases", l (databases t));
        ("infrastructure", l (infrastructure t)); ("tools", l (tools t)); ("cloud", l (cloud t))].

(** [_fallback_solution_payload]: [None] when the provider raised. *)
Definition _fallback_solution_payload (response : option string) : dict :=
  match response with
  | Some content => match extract_fenced_json loads content with Some (JObj d) => d | _ => [] end
  | None => []
  end.

(** [template.get("code", {}).get("files", [])], the dictionaries among them. *)
Definition template_files (template : dict) : result pyexn (list json) :=
  code ← py_get "files" (JArr []) (default (JObj []) (dget "code" template));
  Ok (match code with JArr l => List.filter (λ f, match f with JObj _ => true | _ => false end) l | _ => [] end).

(** [_kernel_based_reasoning], given what the kernels, the knowledge store and the
    fallback provider do. *)
Definition _kernel_based_reasoning (t : Task) (thought : ThoughtProcess) (kernel : string → option (result string json))
    (candidates : option (list TechStack)) (response : option string) : result pyexn (ThoughtProcess * dict) :=
  '(thought, analysis) ← _run_kernel "analysis" "{'phase': 'full'}" t thought (kernel "analysis");
  let st := _select_stack t candidates in
  '(thought, arch) ← _run_kernel "architecture" "{'phase': 'design'}" t thought (kernel "architecture");
  '(thought, opts) ← _run_kernel "optimization" "{}" t thought (kernel "optimization");
  '(thought, sec) ← _run_kernel "security" "{}" t thought (kernel "security");
  let template := _fallback_solution_payload response in
  files ← template_files template;
  thought ← (match files with
             | [] => Ok thought
             | _ => add_step thought "codegen" ("Generate code files for '" +:+ title t +:+ "'")
                      (pretty (length files) +:+ " files from template solution") (9 # 10)
             end : result pyexn ThoughtProcess);
  Ok (thought,
      [("analysis", JObj analysis); ("architecture", JObj arch); ("stack", stack_dump st); ("optimization", JObj opts);
       ("security", JObj sec); ("code", JObj [("files", JArr files)]);
       ("review", default (JObj []) (dget "review" template))]).

(** ** Quality *)
Definition tier (score : Q) : SolutionQuality :=
  if Qle_bool (9 # 10) score then MASTERPIECE
  else if Qle_bool (3 # 4) score then EXCELLENT
  else if Qle_bool (3 # 5) score then GOOD
  else if Qle_bool (2 # 5) score then ACCEPTABLE
  else DRAFT.

Definition _evaluate_quality (s : Solution) (t : ThoughtProcess) : Solution :=
  let score := avg_confidence t in
  mkSolution (task_id s) (s_title s) (summary s) (architecture s) (stack s) (code_blocks s) (performance_notes s)
    (security_notes s) (tier score) score (metadata s).

(** [_build_reasoning]; [percent] renders [{x:.0%}]. *)
Definition _build_reasoning (percent : Q → string) (llm_name : string) (t : ThoughtProcess) (s : Solution) : string :=
  join nl
    (["Task: " +:+ s_title s; "Steps: " +:+ pretty (length (steps t)) +:+ " | LLM: " +:+ llm_name]
     ++ map (λ x, "  [" +:+ kernel x +:+ "] -> " +:+ prefix 80 (output_summary x) +:+ "... ("
                    +:+ percent (st_confidence x) +:+ ")") (steps t)
     ++ ["Confidence: " +:+ percent (avg_confidence t) +:+ " | Quality: " +:+ quality_value (quality s)])%list.

(** ** Context from knowledge *)
Definition knowledge_line (r : dict) : result pyexn string :=
  let get k dflt := default dflt (dget k r) in
  let t := get "title" (get "name" (JStr "")) in
  c ← py_slice 300 (get "content" (get "description" (JStr "")));
  Ok ("[" +:+ py_str repr (get "type" (JStr "knowledge")) +:+ "] " +:+ py_str repr t +:+ ": " +:+ py_str repr c).

(** [_gather_knowledge_context]: [None] when the search raised. *)
Definition _gather_knowledge_context (found : option (list dict)) : result pyexn string :=
  match found with
  | None => Ok ""
  | Some l => lines ← mapM_result knowledge_line l; Ok (join nl lines)
  end.

Definition graph_line (comp : json) : list string :=
  match comp with
  | JObj d =>
      let f k := py_str repr (default (JStr "?") (dget k d)) in
      [f "from" +:+ " -> " +:+ f "to" +:+ " (" +:+ f "relationship" +:+ ")"]
  | _ => []
  end.

(** [_gather_graph_context]: [None] when the knowledge graph raised. *)
Definition _gather_graph_context (recs : option json) : result pyexn string :=
  match recs with
  | Some (JObj d) => l ← sliced_items 15 (default (JArr []) (dget "components" d)); Ok (join nl (concat (map graph_line l)))
  | _ => Ok ""
  end.
End assembly.

(** ** The static gate of [think] *)
Record ValidationResult := mkVR { ast_valid : bool; static_passed : bool }.

Record gate_verdict := mkGate { g_enabled : bool; g_passed : bool; g_files : list (string * bool); g_summary : string }.

Definition is_python (b : CodeBlock) : bool := bool_decide (lower (language b) ∈ ["python"; "py"]).

Section gate.
(** [SandboxEngine.validate_code_block] *)
Context (validate : CodeBlock → ValidationResult).

Definition max_blocks : nat := 50.
Definition max_block_chars : Z := 200000.

Definition block_passes (b : CodeBlock) : bool :=
  if (max_block_chars <? Z.of_nat (String.length (content b)))%Z then false
  else ast_valid (validate b) && static_passed (validate b).

(** [_verify_think_solution], with the number of files that pass in the summary. *)
Definition _verify_think_solution (enabled : bool) (s : Solution) : gate_verdict :=
  if negb enabled then mkGate false true [] ""
  else
    match List.filter is_python (code_blocks s) with
    | [] => mkGate true true [] "no python code blocks to verify"
    | l =>
        if (max_blocks <? length l)%nat then
          mkGate true false []
            (pretty (length l) +:+ " python files exceed the " +:+ pretty max_blocks +:+ "-file static gate limit")
        else
          let files := map (λ b, (filename b, block_passes b)) l in
          mkGate true (forallb block_passes l) files
            (pretty (length (List.filter snd files)) +:+ "/" +:+ pretty (length files) +:+ " python files passed the static gate")
    end.

(** What the enabled gate accepts: at most fifty Python blocks, each small enough and
    valid. *)
Definition gate_ok (s : Solution) : Prop :=
  length (List.filter is_python (code_blocks s)) ≤ max_blocks
  ∧ ∀ b, b ∈ code_blocks s → is_python b = true →
      (Z.of_nat (String.length (content b)) ≤ max_block_chars)%Z
      ∧ ast_valid (validate b) = true ∧ static_passed (validate b) = true.

Lemma block_passes_spec b :
  block_passes b = true ↔
    (Z.of_nat (String.length (content b)) ≤ max_block_chars)%Z ∧ ast_valid (validate b) = true ∧ static_passed (validate b) = true.
Proof.
  unfold block_passes. destruct (Z.ltb_spec max_block_chars (Z.of_nat (String.length (content b)))).
  - split; [done|lia].
  - rewrite andb_true_iff. split; [by split|tauto].
Qed.

Lemma gate_exact s : g_passed (_verify_think_solution true s) = true ↔ gate_ok s.
Proof.
  assert (∀ P : CodeBlock → Prop, (∀ b, b ∈ code_blocks s → is_python b = true → P b) ↔
    Forall P (List.filter is_python (code_blocks s))) as Hall.
  { intros P. rewrite Forall_forall. setoid_rewrite elem_of_List_filter. naive_solver. }
  unfold _verify_think_solution, gate_ok. rewrite Hall. cbn [negb].
  destruct (List.filter is_python (code_blocks s)) as [|b l]; [cbn; split; [split; [lia|constructor]|done]|].
  destruct (Nat.ltb_spec max_blocks (length (b :: l))); cbn [g_passed]; [split; [done|lia]|].
  rewrite forallb_forall. split.
  - intros H'. split; [done|]. apply Forall_forall. intros x Hx. apply block_passes_spec, H'. by apply list_elem_of_In.
  - intros [_ Hf] x Hx. apply list_elem_of_In in Hx. rewrite Forall_forall in Hf. by apply block_passes_spec, Hf.
Qed.
End gate.

(** ** What can be assembled *)
Lemma blocks_all entry (R : CodeBlock → Prop) l bs :
  (∀ x b, entry x = Ok (Some b) → R b) → blocks entry l = Ok bs → length bs ≤ length l ∧ Forall R bs.
Proof.
  intros He. revert bs. induction l as [|x l IH]; intros bs Hb; [by injection Hb as <-|].
  cbn [blocks] in Hb. apply result_bind_ok in Hb as (o & Eo & Hb). apply result_bind_ok in Hb as (bs' & Eb & Hb).
  injection Hb as <-. destruct (IH _ Eb) as [Hl Hf]. destruct o as [b|]; cbn; split; try lia; try done.
  constructor; [by eapply He|done].
Qed.

Section theorems.
Context (loads : string → option json) (dumps : json → string) (repr : json → string).

Lemma cot_entry_bounds x b :
  cot_entry x = Ok (Some b) → (10 < Z.of_nat (String.length (content b)) ≤ 200000)%Z.
Proof.
  unfold cot_entry. destruct x as [| | | | |d]; try done. set (c := default _ _). destruct (truthy c); [|done].
  intros (n & En & H)%result_bind_ok. destruct ((10 <? n)%Z && (n <=? 200000)%Z) eqn:E; [|done].
  apply andb_prop in E as [E1%Z.ltb_lt E2%Z.leb_le]. apply result_bind_ok in H as (b' & Hb & [= ->]).
  unfold build_block in Hb. apply result_bind_ok in Hb as (p & _ & Hb). apply result_bind_ok in Hb as (s & Hs & Hb).
  apply result_bind_ok in Hb as (dd & _ & [= <-]). cbn. destruct c; try done. injection Hs as ->. injection En as <-. done.
Qed.

Lemma sliced_items_length n j l : sliced_items n j = Ok l → length l ≤ n.
Proof.
  unfold sliced_items. intros (s & Es & H)%result_bind_ok. destruct j; try done; injection Es as <-; cbn in H; injection H as <-.
  - rewrite length_map. pose proof (prefix_length n s0) as Hp. revert Hp. generalize (prefix n s0). intros t Ht.
    assert (length (list_ascii_of_string t) = String.length t) as -> by (clear; induction t; cbn; congruence). lia.
  - rewrite length_take. lia.
Qed.

(** Whatever JSON a model sends, an assembled solution has at most fifty code
    blocks of eleven to 200000 characters each, so the size limits of the static gate
    never reject what this assembly produced. *)
Theorem assembled_blocks_bounded name model t reasoning s :
  _assemble_solution_from_reasoning loads dumps repr name model t reasoning = Ok s →
  length (code_blocks s) ≤ max_blocks
  ∧ Forall (λ b, (10 < Z.of_nat (String.length (content b)) ≤ max_block_chars)%Z) (code_blocks s).
Proof.
  unfold _assemble_solution_from_reasoning. intros (? & _ & H)%result_bind_ok. apply result_bind_ok in H as (? & _ & H).
  apply result_bind_ok in H as (bs & Hb & H). apply result_bind_ok in H as (? & _ & [= <-]). cbn.
  unfold assemble_blocks in Hb. destruct (parsed loads "code" reasoning) as [| | | | |d]; try (injection Hb as <-; split; [cbn; lia|constructor]).
  destruct (dget "files" d) as [files|]; [|injection Hb as <-; split; [cbn; lia|constructor]].
  apply result_bind_ok in Hb as (l & Hl & Hb). apply sliced_items_length in Hl.
  destruct (blocks_all _ _ _ _ cot_entry_bounds Hb) as [? ?]. split; [unfold max_blocks; lia|done].
Qed.

(** Only the key ["code"] is read for code, and a chain of thought stores its code
    under ["codegen"]. *)
Lemma context_without_code c :
  (∀ n, n ∈ (results c).*1 → n ∈ ALL_STEPS) → dget "code" (context_dict c) = None.
Proof.
  intros Hk. apply dget_None. unfold context_dict. rewrite !fmap_app, !elem_of_app.
  assert ("code" ∉ ALL_STEPS) as Hc by (apply (bool_decide_eq_false_1 _); by vm_compute).
  assert ("code" ∉ ["task"; "tags"; "requirements"; "knowledge"; "graph"; "ontology"; "_reflexion_errors"]) as H7
    by (apply (bool_decide_eq_false_1 _); by vm_compute).
  intros [H|[H|H]].
  - apply H7. cbn in H. set_solver.
  - apply H7. destruct (_reflexion_errors c); cbn in H; set_solver.
  - apply Hc, Hk. rewrite <- list_fmap_compose in H. apply list_elem_of_fmap in H as ([n r] & E & Hin). cbn in E. subst n.
    apply list_elem_of_fmap. by exists ("code", r).
Qed.

(** A solution assembled from a finished chain of thought never has code
    blocks, whatever the model answered in any step: the assembler looks for the key
    ["code"], which no run stores (the generated code is under ["codegen"]).  The JSON
    codec has to read ["{}"], the default, as an empty object. *)
Theorem cot_solutions_have_no_code dumps_indent {P} (create : string → option string → option P) create_error llm
    router budget q acts t0 t name model task s :
  loads "{}" = Some (JObj []) →
  reason_start repr router budget q = Ok t0 →
  exec (cot_step loads dumps dumps_indent repr create create_error llm) t0 acts = Some t →
  _assemble_solution_from_reasoning loads dumps repr name model task (context_dict (_context t)) = Ok s →
  code_blocks s = [].
Proof.
  intros Hl Hs Hex H.
  assert (parsed loads "code" (context_dict (_context t)) = JObj []) as Hp.
  { unfold parsed. rewrite context_without_code by (by eapply reason_known). cbn.
    unfold extract_fenced_json. change (strip_fences "{}") with "{}". by rewrite Hl. }
  unfold _assemble_solution_from_reasoning in H. apply result_bind_ok in H as (? & _ & H).
  apply result_bind_ok in H as (? & _ & H). apply result_bind_ok in H as (bs & Hb & H).
  apply result_bind_ok in H as (? & _ & [= <-]). cbn. unfold assemble_blocks in Hb. rewrite Hp in Hb. by injection Hb as <-.
Qed.
End theorems.

(** ** Examples *)
Definition demo_loads (s : string) : option json :=
  if String.eqb s "{}" then Some (JObj [])
  else if String.eqb s "CODE" then Some (JObj [("files", JArr [JObj [("path", JStr "shop.py"); ("content", JStr "print('shop open')")]])])
  else None.

Definition demo_task : Task := mkTask "t1" "Shop" "Build a shop" [mkRequirement "latency" "fast" 5 ["<= 10"]] None MODERATE ["api"].

(** The run of the chain of thought in which every step answers, codegen with code. *)
Definition code_actions : list action :=
  map (λ a, match a with
            | Answer n d _ => Answer n d (Ok (mkResponse (if String.eqb n "codegen" then "CODE" else "{}") (Some 5%Z) "stop"))
            | _ => a end) demo_actions.

Definition demo_cot : option (@cot unit) :=
  match reason_start (λ _, "[]") None None demo_request with
  | Ok t => exec (cot_step demo_loads (λ _, "[]") (λ _, "{}") (λ _, "[]") (λ _ _, None) "down" tt) t code_actions
  | Err _ => None
  end.

Lemma cot_solutions_have_no_code_witness :
  ∃ t s, demo_cot = Some t ∧ dget "codegen" (results (_context t)) = Some "CODE"
    ∧ _assemble_solution_from_reasoning demo_loads (λ _, "[]") (λ _, "[]") "openai" "gpt" demo_task (context_dict (_context t)) = Ok s
    ∧ code_blocks s = [].
Proof.
  assert ((λ t, dget "codegen" (results (_context t))) <$> demo_cot = Some (Some "CODE")) as H1 by (vm_compute; reflexivity).
  assert ((λ t, is_ok (_assemble_solution_from_reasoning demo_loads (λ _, "[]") (λ _, "[]") "openai" "gpt" demo_task
    (context_dict (_context t)))) <$> demo_cot = Some true) as H2 by (vm_compute; reflexivity).
  assert (demo_cot = match reason_start (λ _, "[]") None None demo_request with
    | Ok t => exec (cot_step demo_loads (λ _, "[]") (λ _, "{}") (λ _, "[]") (λ _ _, None) "down" tt) t code_actions
    | Err _ => None end) as H3 by reflexivity.
  destruct demo_cot as [t|]; [|discriminate H1]. injection H1 as H1. injection H2 as H2.
  destruct (reason_start (λ _, "[]") None None demo_request) as [t0|] eqn:E0; [|discriminate H3]. symmetry in H3.
  destruct (_assemble_solution_from_reasoning demo_loads (λ _, "[]") (λ _, "[]") "openai" "gpt" demo_task
    (context_dict (_context t))) as [s|] eqn:E; [|discriminate H2].
  exists t, s. split; [reflexivity|]. split; [exact H1|]. split; [exact E|].
  exact (cot_solutions_have_no_code demo_loads (λ _, "[]") (λ _, "[]") (λ _, "{}") (λ _ _, None) "down" tt None None demo_request
    code_actions t0 t "openai" "gpt" demo_task s eq_refl E0 H3 E).
Defined.

(** In degraded mode the same file does become a code block. *)
Definition demo_reasoning : result pyexn (ThoughtProcess * dict) :=
  _kernel_based_reasoning (λ _, Some (JObj [("code", JObj [("files", JArr [JObj [("path", JStr "shop.py");
    ("content", JStr "print('shop open')")]])])])) (λ _, "") demo_task (mkThought "t1" [] "" 0) (λ _, None) None (Some "any").

Lemma assembled_blocks_bounded_witness :
  ∃ th d s, demo_reasoning = Ok (th, d)
    ∧ _assemble_solution_from_reasoning demo_loads (λ _, "[]") (λ _, "[]") "fallback" "none" demo_task d = Ok s
    ∧ map filename (code_blocks s) = ["shop.py"] ∧ length (code_blocks s) ≤ max_blocks.
Proof.
  assert ((λ '(_, d), (λ s, map filename (code_blocks s)) <$> _assemble_solution_from_reasoning demo_loads (λ _, "[]") (λ _, "[]")
    "fallback" "none" demo_task d) <$> demo_reasoning = Ok (Ok ["shop.py"])) as H by (vm_compute; reflexivity).
  destruct demo_reasoning as [[th d]|]; [|discriminate H]. injection H as H.
  destruct (_assemble_solution_from_reasoning demo_loads (λ _, "[]") (λ _, "[]") "fallback" "none" demo_task d) as [s|] eqn:E;
    [|discriminate H]. injection H as H.
  exists th, d, s. split; [reflexivity|]. split; [exact E|]. split; [exact H|].
  apply (assembled_blocks_bounded demo_loads (λ _, "[]") (λ _, "[]") "fallback" "none" demo_task d s E).
Defined.

(** A stack whose languages are [null], or a high-level design that is, makes the
    assembly raise. *)
Example malformed_fields_raise :
  let asm k v := _assemble_solution_from_reasoning demo_loads (λ _, "[]") (λ _, "None") "openai" "gpt" demo_task [(k, v)] in
  asm "stack" (JObj [("languages", JNull)]) = Err TypeError
  ∧ asm "stack" (JObj [("languages", JArr [JObj [("name", JNum 3)]])]) = Err ValueError
  ∧ asm "architecture" (JObj [("high_level_design", JNull)]) = Err TypeError
  ∧ asm "code" (JObj [("files", JArr [JObj [("path", JNum 1); ("content", JStr "print('shop open')")]])]) = Err TypeError.
Proof. vm_compute. done. Qed.

(** The same holds for a verified neurosymbolic result with a numeric summary. *)
Example malformed_summary_raises :
  _convert_neurosymbolic_to_solution [("summary", JNum 5); ("latency", JNum 7)] demo_task = Err ValueError.
Proof. vm_compute. done. Qed.

Example memory_limits :
  map _parse_memory_mb ["256m"; "1g"; "512"; " 2 G "; "100k"; "0"; "1.5g"; ""] = [256; 1024; 512; 2048; 1; 1; 256; 256]%Z.
Proof. vm_compute. done. Qed.
