(* ===== verification/Engine.v ===== *)
(** * The engine's [think] ([noema/core/engine.py])

    The pipeline of [NoemaEngine.think]: tenant scope and timeout, checkpoint resume,
    the neurosymbolic fast path, the chain of thought with healing, judge and
    reflexion, the degraded mode, and the gates every solution passes before it is
    returned.  The effects are a state and exception monad over the engine; what the
    components outside answer is a [world].  The timeout of [think] cancels the call
    at one of its awaits: [awaits_left] counts the awaits before it fires.  Work handed
    to a thread ([asyncio.to_thread]) is done even when its await is cancelled.  Tracing
    and logging are left out, and the engine is taken to be initialised. *)
From Stdlib Require Import ZArith QArith Lia Bool Ascii String.
From stdpp Require Import base option numbers sets strings pretty list.
From S2P Require Import Prelude Symbolic Prompts OntologyGraph OntologyLearning ChainOfThought Checkpoint Healer NeuroSymbolic CoreTypes Judge Assembly.
Local Open Scope string_scope.
Local Open Scope list_scope.
Local Open Scope nat_scope.

Record settings := mkSettings { sandbox : SandboxSettings; judge_enforce : bool; fallback_to_cot : bool }.

Inductive eexn :=
| Cancelled                                   (* the timeout fired inside the call *)
| ThinkTimeoutError
| SandboxValidationError (summary : string)
| JudgeError
| MaxRefinementsExceededError (attempts : nat)
| NeuroSymbolicRaised (e : exn)
| Reasoning (e : string)                      (* re-raised by the healer *)
| Py (e : pyexn).

Record episode := mkEpisode {
  ep_description : string;
  ep_summary : string;
  ep_stack : string;
  ep_outcome : string;
  ep_tags : list string;
  ep_quality : string;
  ep_confidence : Q;
}.

Record engine := mkEngine {
  tenant : string;                            (* the context variable *)
  checkpoints : directory;
  episodes : list episode;
  procedures : list (string * list string * list string);
  ehealer : SelfHealer;
  axioms : list (string * string * string);   (* failed code, fixed code, error summary proposed to the ontology *)
  judge_calls : nat;
  saves : nat;
  awaits_left : option nat;
}.

(** What the rest of the system answers during one call. *)
Record world := mkWorld {
  ns_think : option (dict → list ThinkEvent * option exn);     (* the events it yields, and how it ends *)
  search_episodes : option (list (string * string));           (* descriptions and outcomes; [None]: it raised *)
  knowledge_found : option (list dict);
  graph_found : option json;
  ontology_text : string;
  llm_name : string;
  llm_model : string;
  cot_run : nat → request → nat → call_outcome Context * list ThoughtNode;   (* attempt, arguments, call *)
  judge_answer : nat → string → string → result string string;
  save_stops : nat → crash;
  delete_fails : bool;
  record_fails : bool;
  procedure_fails : bool;
  validate : CodeBlock → ValidationResult;
  kernels : string → option (result string json);
  stacks : option (list TechStack);
  fallback_answer : option string;
  clock : Q;
  span_id : string;                                            (* [tracer.current_span_id] *)
  tokens_used : Z;                                             (* of the token budget *)
  exn_text : pyexn → string;                                   (* [str(e)] *)
}.

(** ** The monad *)
Definition EM (A : Type) : Type := engine → engine * result eexn A.
#[global] Instance EM_ret : MRet EM := λ A a s, (s, Ok a).
#[global] Instance EM_bind : MBind EM := λ A B f m s,
  match m s with (s, Ok a) => f a s | (s, Err e) => (s, Err e) end.

Definition throw {A} (e : eexn) : EM A := λ s, (s, Err e).
Definition reads {A} (f : engine → A) : EM A := λ s, (s, Ok (f s)).
Definition updates (f : engine → engine) : EM () := λ s, (f s, Ok ()).
Definition liftPy {A} (r : result pyexn A) : EM A := λ s, (s, match r with Ok a => Ok a | Err e => Err (Py e) end).

(** An await: the timeout may fire here. *)
Definition await : EM () := λ s,
  match awaits_left s with
  | Some O => (s, Err Cancelled)
  | Some (S n) =>
      (mkEngine (tenant s) (checkpoints s) (episodes s) (procedures s) (ehealer s) (axioms s) (judge_calls s) (saves s)
         (Some n), Ok ())
  | None => (s, Ok ())
  end.

Definition set_checkpoints (d : directory) (s : engine) : engine :=
  mkEngine (tenant s) d (episodes s) (procedures s) (ehealer s) (axioms s) (judge_calls s) (saves s) (awaits_left s).
Definition set_tenant (x : string) (s : engine) : engine :=
  mkEngine x (checkpoints s) (episodes s) (procedures s) (ehealer s) (axioms s) (judge_calls s) (saves s) (awaits_left s).
Definition add_episode (e : episode) (s : engine) : engine :=
  mkEngine (tenant s) (checkpoints s) (episodes s ++ [e]) (procedures s) (ehealer s) (axioms s) (judge_calls s) (saves s)
    (awaits_left s).
Definition add_procedure (p : string * list string * list string) (s : engine) : engine :=
  mkEngine (tenant s) (checkpoints s) (episodes s) (procedures s ++ [p]) (ehealer s) (axioms s) (judge_calls s) (saves s)
    (awaits_left s).
Definition set_healer (h : SelfHealer) (s : engine) : engine :=
  mkEngine (tenant s) (checkpoints s) (episodes s) (procedures s) h (axioms s) (judge_calls s) (saves s) (awaits_left s).
Definition add_axiom (a : string * string * string) (s : engine) : engine :=
  mkEngine (tenant s) (checkpoints s) (episodes s) (procedures s) (ehealer s) (axioms s ++ [a]) (judge_calls s) (saves s)
    (awaits_left s).
Definition count_judge (s : engine) : engine :=
  mkEngine (tenant s) (checkpoints s) (episodes s) (procedures s) (ehealer s) (axioms s) (judge_calls s + 1) (saves s)
    (awaits_left s).
Definition count_save (s : engine) : engine :=
  mkEngine (tenant s) (checkpoints s) (episodes s) (procedures s) (ehealer s) (axioms s) (judge_calls s) (saves s + 1)
    (awaits_left s).

Create HintDb engine.

(** ** Relations every part of the call respects *)
Definition respects (R : engine → engine → Prop) {A} (m : EM A) : Prop := ∀ s, R s (m s).1.

Section respects.
Context (R : engine → engine → Prop) `{!PreOrder R}.

Lemma respects_pure {A} (m : EM A) : (∀ s, (m s).1 = s) → respects R m.
Proof. intros H s. by rewrite H. Qed.

Lemma respects_bind {A B} (m : EM A) (f : A → EM B) : respects R m → (∀ a, respects R (f a)) → respects R (m ≫= f).
Proof.
  intros Hm Hf s. specialize (Hm s). unfold mbind, EM_bind. destruct (m s) as [s' [a|e]]; [|done].
  etrans; [exact Hm|apply Hf].
Qed.

Lemma respects_ret {A} (a : A) : respects R (mret a).
Proof. by apply respects_pure. Qed.
Lemma respects_throw {A} e : respects R (throw (A := A) e).
Proof. by apply respects_pure. Qed.
Lemma respects_reads {A} (f : engine → A) : respects R (reads f).
Proof. by apply respects_pure. Qed.
Lemma respects_lift {A} (r : result pyexn A) : respects R (liftPy r).
Proof. by apply respects_pure. Qed.
End respects.

(** Walks through a computation; the database [engine] knows its parts. *)
Ltac walk :=
  repeat match goal with
  | |- respects _ (mbind _ _) => apply respects_bind; [apply _| |intros ?]
  | |- respects _ (mret _) => apply respects_ret; apply _
  | |- respects _ (throw _) => apply respects_throw; apply _
  | |- respects _ (reads _) => apply respects_reads; apply _
  | |- respects _ (liftPy _) => apply respects_lift; apply _
  | |- respects _ (if ?b then _ else _) => destruct b
  | |- respects _ (match ?x with _ => _ end) => destruct x
  | |- respects _ _ => progress (auto with engine)
  end.

Section engine.
Context (loads : string → option json) (dumps : json → string) (repr : json → string).
Context (float_str : string → option pyfloat) (percent : Q → string).
Context (cfg : settings) (w : world).

Definition new_thought (t : Task) : ThoughtProcess := mkThought (id t) [] "" 0.

(** ** Every exit: [_finalize_solution] *)
Definition python_code (s : Solution) : string :=
  join (nl +:+ nl) (map content (List.filter is_python (code_blocks s))).

Definition good_quality (s : Solution) : bool := bool_decide (quality s ∈ [MASTERPIECE; EXCELLENT; GOOD]).

Definition gate_json (v : gate_verdict) : json :=
  JObj [("enabled", JBool (g_enabled v)); ("passed", JBool (g_passed v));
        ("files", JArr (map (λ '(f, ok), JObj [("file", JStr f); ("passed", JBool ok)]) (g_files v)));
        ("summary", JStr (g_summary v))].

Definition episode_of (t : Task) (s : Solution) : episode :=
  mkEpisode (title t +:+ ": " +:+ description t) (prefix 500 (summary s))
    (join ", " (languages (stack s) ++ frameworks (stack s))) (if good_quality s then "success" else "partial") (tags t)
    (quality_value (quality s)) (confidence s).

(** The gates. *)
Definition run_gates (s : Solution) : EM Solution :=
  await;;
  let v := _verify_think_solution (validate w) (verify_think (sandbox cfg)) s in
  s ← (if g_enabled v then
         if negb (g_passed v) && verify_think_enforce (sandbox cfg) then throw (SandboxValidationError (g_summary v))
         else mret (with_metadata s "sandbox" (gate_json v))
       else mret s : EM Solution);
  match dget "judge_passed" (metadata s) with
  | Some (JBool false) => if judge_enforce cfg then throw JudgeError else mret s
  | _ => mret s
  end.

(** What follows accepted gates: memory, checkpoint, procedures. *)
Definition record_success (t : Task) (s : Solution) (thought : ThoughtProcess) : EM () :=
  (if record_fails w then mret () else updates (add_episode (episode_of t s)));;
  ten ← reads tenant;
  (if delete_fails w then mret () else updates (λ e, set_checkpoints (delete (checkpoints e) (id t) ten) e));;
  await;;
  if bool_decide (quality s ∈ [MASTERPIECE; EXCELLENT]) && negb (procedure_fails w)
  then updates (add_procedure ("solution_" +:+ map_string (λ a, if Ascii.eqb a " "%char then "_"%char else a)
                                                (prefix 30 (title t)), map kernel (steps thought), tags t))
  else mret ().

Definition _finalize_solution (t : Task) (s : Solution) (thought : ThoughtProcess) : EM (Solution * ThoughtProcess) :=
  let thought := mkThought (tp_task_id thought) (steps thought) (_build_reasoning percent (llm_name w) thought s)
                   (duration_ms thought) in
  s ← run_gates s;
  record_success t s thought;;
  mret (s, thought).

(** ** The neurosymbolic path

    The loop over [neurosymbolic.think] stops at the first [completed] or [failed]
    event. *)
Inductive ns_outcome :=
| NsSolved (solution : dict) (causal : list json)
| NsFailed (attempts : nat)
| NsRaised (e : exn)
| NsEnded.

Fixpoint consume (evs : list ThinkEvent) (err : option exn) : ns_outcome :=
  match evs with
  | ThinkCompleted sol _ _ causal :: _ => NsSolved sol causal
  | ThinkFailed k _ :: _ => NsFailed k
  | _ :: evs => consume evs err
  | [] => match err with Some e => NsRaised e | None => NsEnded end
  end.

(** The body of the [try]: [None] to go on with the chain of thought. *)
Definition ns_body (think : dict → list ThinkEvent * option exn) (t : Task) (thought : ThoughtProcess)
    : EM (option (Solution * ThoughtProcess)) :=
  await;;
  let '(evs, err) := think (_prepare_neurosymbolic_task t) in
  match consume evs err with
  | NsSolved sol causal =>
      s ← liftPy (_convert_neurosymbolic_to_solution sol t);
      let s := match causal with [] => s | _ => with_metadata s "causal_analysis" (JArr causal) end in
      r ← _finalize_solution t s thought;
      mret (Some r)
  | NsFailed k => if fallback_to_cot cfg then mret None else throw (MaxRefinementsExceededError k)
  | NsRaised e => throw (NeuroSymbolicRaised e)
  | NsEnded => mret None
  end.

(** The [except] clauses: the two named errors and a cancellation pass, anything else
    falls back if that is allowed. *)
Definition ns_path (t : Task) (thought : ThoughtProcess) : EM (option (Solution * ThoughtProcess)) :=
  match ns_think w with
  | None => mret None
  | Some think => λ s,
      match ns_body think t thought s with
      | (s', Err e) =>
          match e with
          | SandboxValidationError _ | MaxRefinementsExceededError _ | Cancelled => (s', Err e)
          | _ => if fallback_to_cot cfg then (s', Ok None) else (s', Err e)
          end
      | r => r
      end
  end.

(** ** The chain of thought with healing *)
Definition fallback_reasoning : dict :=
  [("raw", JStr "Chain-of-Thought reasoning failed, using minimal fallback")].

(** [healer.execute_with_healing(self.cot.reason, ...)] and the chain it leaves. *)
Definition heal_reason (attempt : nat) (q : request) : EM (dict * list ThoughtNode) :=
  await;;
  h ← reads ehealer;
  let func (_ : option healing_context) (st : nat * list ThoughtNode) :=
    let '(o, chain) := cot_run w attempt q st.1 in ((S st.1, chain), o) in
  let '(r, o) := execute_with_healing func false true default_strategy h (0, []) in
  updates (set_healer (healer r));;
  match o with
  | Value c => mret (context_dict c, (fstate r).2)
  | FallbackValue => mret (fallback_reasoning, (fstate r).2)
  | NoneValue => mret ([], (fstate r).2)
  | Reraised e => throw (Reasoning e)
  | WasCancelled => throw Cancelled
  end.

(** [for node in self.cot.chain: thought.add_step(...)] *)
Fixpoint add_nodes (thought : ThoughtProcess) (l : list ThoughtNode) : result pyexn ThoughtProcess :=
  match l with
  | [] => Ok thought
  | n :: l =>
      th ← add_step thought (tn_role n) (prefix 200 (tn_prompt n)) (prefix 200 (tn_response n)) (tn_confidence n);
      add_nodes th l
  end.

Definition task_text (t : Task) : string := title t +:+ ": " +:+ description t.

Definition requirement_dump (r : Requirement) : dict :=
  [("category", JStr (rq_category r)); ("description", JStr (rq_description r));
   ("priority", JNum (inject_Z (rq_priority r))); ("constraints", JArr (map JStr (rq_constraints r)))].

(** ["; ".join(verdict.weaknesses[:3])] *)
Definition error_summary (v : JudgeVerdict) : result pyexn string :=
  l ← sliced_items 3 (weaknesses v); join_json "; " l.

Definition checkpoint_of (t : Task) (ten : string) (attempt : nat) (chain : list ThoughtNode) (err : string) : DAGCheckpoint :=
  let named := List.filter (λ n, nonempty (tn_name n)) chain in
  mkCheckpoint (id t) ten (span_id w) (Z.of_nat attempt) (map tn_name named)
    (foldl (λ d n, dset (tn_name n) (tn_response n) d) [] named) (tokens_used w) [("reflexion_state", JStr err)] 0.

Definition save_checkpoint (t : Task) (attempt : nat) (chain : list ThoughtNode) (err : string) : EM () :=
  ten ← reads tenant;
  updates (λ e, count_save (set_checkpoints
    (save dumps repr (checkpoints e) (checkpoint_of t ten (attempt + 1) chain err) (clock w) (save_stops w attempt)) e));;
  await.

(** One round of the reflexion loop: the reasoning, its solution and the verdict. *)
Definition reflexion_round (t : Task) (q : request) (attempt : nat) (thought : ThoughtProcess)
    : EM (ThoughtProcess * list ThoughtNode * Solution * JudgeVerdict) :=
  '(reasoning, chain) ← heal_reason attempt q;
  thought ← liftPy (add_nodes thought chain);
  s ← liftPy (_assemble_solution_from_reasoning loads dumps repr (llm_name w) (llm_model w) t reasoning);
  let s := _evaluate_quality s thought in
  await;;
  updates count_judge;;
  let '(s, v) := evaluate_solution loads float_str (judge_answer w attempt) s (task_text t) (tags t) [] in
  mret (thought, chain, s, v).

Definition judged (s : Solution) (passed : bool) (attempt : nat) : Solution :=
  with_metadata (with_metadata s "judge_passed" (JBool passed)) "judge_reflexion_attempt"
    (JNum (inject_Z (Z.of_nat attempt))).

(** [for reflexion_attempt in range(1, 4)]: [n] rounds are left; the result has the last
    attempt, whether the judge passed it, the code of the first attempt and the last
    error. *)
Fixpoint reflexion_loop (n : nat) (t : Task) (q : request) (attempt : nat) (thought : ThoughtProcess) (first_code err : string)
    : EM (ThoughtProcess * Solution * bool * nat * string * string) :=
  match n with
  | O => throw (Py AssertionError)          (* the loop runs at least once *)
  | S n =>
      '(thought, chain, s, v) ← reflexion_round t q attempt thought;
      let first_code := if (attempt =? 1)%nat then python_code s else first_code in
      let s := judged s (Judge.passed v) attempt in
      if Judge.passed v then mret (thought, s, true, attempt, first_code, err)
      else
        match error_summary v with
        | Err e =>
            mret (thought, with_metadata s "judge_error" (JStr (exn_text w e)), false, attempt, first_code, err)
        | Ok err =>
            if (attempt <? 3)%nat then
              save_checkpoint t attempt chain err;;
              reflexion_loop n t
                (mkRequest (task_description q) (task_tags q) (rq_requirements q) (knowledge_context q) (graph_context q)
                   (ontology_context q) (ChainOfThought.complexity q) ["Judge: " +:+ err] [])
                (attempt + 1) thought first_code err
            else mret (thought, s, false, attempt, first_code, err)
        end
  end.

Definition memory_context (past : list (string * string)) : string :=
  join nl (map (λ '(d, o), "[Past] " +:+ prefix 100 d +:+ " → " +:+ o) past).

(** The context for the prompts. *)
Definition gather (t : Task) (resume : list (string * string)) : EM request :=
  await;;
  kn ← liftPy (_gather_knowledge_context repr (knowledge_found w));
  gr ← liftPy (_gather_graph_context repr (graph_found w));
  let kn := match search_episodes w with
            | Some ((_ :: _) as past) => kn +:+ nl +:+ nl +:+ memory_context past
            | _ => kn
            end in
  mret (mkRequest (task_text t) (tags t) (map requirement_dump (requirements t)) kn gr (ontology_text w)
          (complexity_value (complexity t)) [] resume).

(** The path with a language model. *)
Definition cot_path (t : Task) (q : request) (thought : ThoughtProcess) : EM (Solution * ThoughtProcess) :=
  '(thought, s, ok, attempt, first_code, err) ← reflexion_loop 3 t q 1 thought "" "";
  (if (1 <? attempt)%nat && ok && nonempty first_code
   then updates (add_axiom (first_code, python_code s, err)) else mret ());;
  mret (s, thought).

(** The path without one. *)
Definition degraded_path (t : Task) (thought : ThoughtProcess) : EM (Solution * ThoughtProcess) :=
  await;;
  '(thought, reasoning) ← liftPy (_kernel_based_reasoning loads repr t thought (kernels w) (stacks w) (fallback_answer w));
  s ← liftPy (_assemble_solution_from_reasoning loads dumps repr (llm_name w) (llm_model w) t reasoning);
  mret (_evaluate_quality s thought, thought).

(** The results of a checkpoint; [dict(x or {})] of anything but an object with texts,
    which no save writes, is taken to raise. *)
Definition resume_of (j : json) : result pyexn (list (string * string)) :=
  if negb (truthy j) then Ok []
  else match j with
       | JObj d => mapM_result (λ '(k, v), match v with JStr s => Ok (k, s) | _ => Err TypeError end) d
       | _ => Err TypeError
       end.

Definition _think_impl (t : Task) : EM (Solution * ThoughtProcess) :=
  liftPy (validate_task t);;
  await;;
  ten ← reads tenant;
  fs ← reads checkpoints;
  ckpt ← liftPy (load loads fs (id t) ten);
  resume ← liftPy (match ckpt with Some c => resume_of (l_step_results c) | None => Ok [] end);
  let thought := new_thought t in
  r ← ns_path t thought;
  match r with
  | Some r => mret r
  | None =>
      q ← gather t resume;
      '(s, thought) ← (if String.eqb (llm_name w) "fallback" then degraded_path t thought else cot_path t q thought);
      _finalize_solution t s thought
  end.

(** [think]: the tenant of the caller, unless it is the default; the variable is reset
    in every case, and a cancellation is reported as a timeout. *)
Definition effective_tenant (own caller : string) : string := if String.eqb caller "default" then own else caller.

Definition think (own : string) (t : Task) : EM (Solution * ThoughtProcess) := λ s,
  let caller := tenant s in
  let '(s', r) := _think_impl t (set_tenant (effective_tenant own caller) s) in
  (set_tenant caller s', match r with Err Cancelled => Err ThinkTimeoutError | r => r end).
End engine.

Section engine_proofs.
Context (loads : string → option json) (dumps : json → string) (repr : json → string).
Context (float_str : string → option pyfloat) (percent : Q → string).
Context (cfg : settings) (w : world).

Local Notation run_gates := (run_gates cfg w).
Local Notation record_success := (record_success w).
Local Notation finalize := (_finalize_solution percent cfg w).
Local Notation ns_body := (ns_body percent cfg w).
Local Notation ns_path := (ns_path percent cfg w).
Local Notation heal_reason := (heal_reason w).
Local Notation save_checkpoint := (save_checkpoint dumps repr w).
Local Notation reflexion_round := (reflexion_round loads dumps repr float_str w).
Local Notation reflexion_loop := (reflexion_loop loads dumps repr float_str w).
Local Notation gather := (gather repr w).
Local Notation cot_path := (cot_path loads dumps repr float_str w).
Local Notation degraded_path := (degraded_path loads dumps repr w).
Local Notation think_impl := (_think_impl loads dumps repr float_str percent cfg w).
Local Notation think := (think loads dumps repr float_str percent cfg w).

(** *** The counters of judge calls and saves *)
Definition same_counts (s s' : engine) : Prop := judge_calls s' = judge_calls s ∧ saves s' = saves s.

#[local] Instance same_counts_pre : PreOrder same_counts.
Proof. split; [by intros s|]. intros a b c [? ?] [? ?]. unfold same_counts. by split; etrans. Qed.

Lemma await_counts : respects same_counts await.
Proof. intros s. unfold await. by repeat case_match. Qed.

Lemma updates_counts f : (∀ s, same_counts s (f s)) → respects same_counts (updates f).
Proof. intros H s. apply H. Qed.
#[local] Hint Resolve await_counts : engine.
#[local] Hint Extern 1 (respects same_counts (updates _)) => apply updates_counts; intros; split; reflexivity : engine.

Lemma gates_counts s : respects same_counts (run_gates s).
Proof. unfold Engine.run_gates. walk. Qed.

Lemma success_counts t s th : respects same_counts (record_success t s th).
Proof. unfold Engine.record_success. walk. Qed.
#[local] Hint Resolve gates_counts success_counts : engine.

Lemma finalize_counts t s th : respects same_counts (finalize t s th).
Proof. unfold _finalize_solution. walk. Qed.
#[local] Hint Resolve finalize_counts : engine.

Lemma ns_path_counts t th : respects same_counts (ns_path t th).
Proof.
  unfold Engine.ns_path. destruct (ns_think w) as [think|]; [|walk].
  assert (respects same_counts (ns_body think t th)) as H.
  { unfold Engine.ns_body. walk. }
  intros s. specialize (H s). destruct (ns_body think t th s) as [s' [r|e]]; [done|]. by destruct e, (fallback_to_cot cfg).
Qed.

Lemma heal_counts n q : respects same_counts (heal_reason n q).
Proof. unfold Engine.heal_reason. walk. Qed.
#[local] Hint Resolve ns_path_counts heal_counts : engine.

Lemma gather_counts t r : respects same_counts (gather t r).
Proof. unfold Engine.gather. walk. Qed.

Lemma degraded_counts t th : respects same_counts (degraded_path t th).
Proof. unfold Engine.degraded_path. walk. Qed.
#[local] Hint Resolve gather_counts degraded_counts : engine.

(** At most [j] judge calls and [k] saves. *)
Definition uses (j k : nat) (s s' : engine) : Prop := judge_calls s' ≤ judge_calls s + j ∧ saves s' ≤ saves s + k.

Lemma uses_bind {A B} j k j' k' (m : EM A) (f : A → EM B) :
  respects (uses j k) m → (∀ a, respects (uses j' k') (f a)) → respects (uses (j + j') (k + k')) (m ≫= f).
Proof.
  intros Hm Hf s. specialize (Hm s). unfold mbind, EM_bind. destruct (m s) as [s' [a|e]].
  - specialize (Hf a s'). unfold uses in *. cbn in *. lia.
  - unfold uses in *. cbn in *. lia.
Qed.

Lemma counts_uses {A} j k (m : EM A) : respects same_counts m → respects (uses j k) m.
Proof. intros H s. destruct (H s). unfold uses. lia. Qed.

Lemma uses_skip {A B} j k (m : EM A) (f : A → EM B) :
  respects same_counts m → (∀ a, respects (uses j k) (f a)) → respects (uses j k) (m ≫= f).
Proof. intros Hm Hf. apply (uses_bind 0 0 j k); [by apply counts_uses|done]. Qed.

Lemma round_uses t q n th : respects (uses 1 0) (reflexion_round t q n th).
Proof.
  unfold Engine.reflexion_round. apply uses_skip; [walk|intros [reasoning chain]].
  do 2 (apply uses_skip; [walk|intros ?]). apply uses_skip; [walk|intros _]. apply (uses_bind 1 0 0 0).
  - intros s. split; cbn; lia.
  - intros _. apply counts_uses. walk.
Qed.

Lemma save_uses t n chain err : respects (uses 0 1) (save_checkpoint t n chain err).
Proof.
  unfold Engine.save_checkpoint. apply uses_skip; [walk|intros ten]. apply (uses_bind 0 1 0 0).
  - intros s. split; cbn; lia.
  - intros _. apply counts_uses. walk.
Qed.

Lemma loop_uses n : ∀ t q attempt th code err,
  n + attempt = 4 → respects (uses n (3 - attempt)) (reflexion_loop n t q attempt th code err).
Proof.
  induction n as [|n IH]; intros t q attempt th code err Hn; cbn [Engine.reflexion_loop].
  { apply counts_uses. walk. }
  apply (uses_bind 1 0 n (3 - attempt)); [apply round_uses|]. intros [[[th' chain] s] v].
  destruct (Judge.passed v); [apply counts_uses; walk|].
  destruct (error_summary v) as [err'|]; [|apply counts_uses; walk].
  destruct (Nat.ltb_spec attempt 3); [|apply counts_uses; walk].
  replace (3 - attempt) with (1 + (3 - (attempt + 1))) by lia.
  apply (uses_bind 0 1 n (3 - (attempt + 1))); [apply save_uses|]. intros _. apply IH. lia.
Qed.

Lemma think_uses t : respects (uses 3 2) (think_impl t).
Proof.
  unfold _think_impl. do 6 (apply uses_skip; [walk|intros ?]). apply uses_skip; [walk|]. intros [r|].
  { apply counts_uses. walk. }
  apply uses_skip; [walk|]. intros q. apply (uses_bind 3 2 0 0).
  - destruct (String.eqb (llm_name w) "fallback"); [apply counts_uses; walk|].
    unfold Engine.cot_path. apply (uses_bind 3 2 0 0); [by apply loop_uses|].
    intros [[[[[th s] ok] n] code] err]. apply counts_uses. walk.
  - intros [s th]. apply counts_uses. walk.
Qed.

(** *** Checkpoints *)

(** Nothing happens to checkpoints under other file names than that of the task. *)
Definition isolates (t : Task) (s s' : engine) : Prop :=
  tenant s' = tenant s
  ∧ ∀ task ten, _file_path task ten ≠ _file_path (id t) (tenant s) →
      dget (_file_path task ten) (checkpoints s') = dget (_file_path task ten) (checkpoints s).

#[local] Instance isolates_pre t : PreOrder (isolates t).
Proof.
  split; [by intros s|]. intros a b c [T1 H1] [T2 H2]. split; [congruence|]. intros task ten Hne.
  rewrite H2 by (by rewrite T1). by apply H1.
Qed.

(** No checkpoint is lost. *)
Definition keeps_checkpoints (s s' : engine) : Prop :=
  tenant s' = tenant s
  ∧ ∀ task ten, is_Some (dget (_file_path task ten) (checkpoints s)) → is_Some (dget (_file_path task ten) (checkpoints s')).

#[local] Instance keeps_pre : PreOrder keeps_checkpoints.
Proof. split; [by intros s|]. intros a b c [T1 H1] [T2 H2]. split; [congruence|]. auto. Qed.

Lemma await_same R `{!PreOrder R} : (∀ s s', tenant s' = tenant s → checkpoints s' = checkpoints s → R s s') → respects R await.
Proof. intros H s. apply H; unfold await; by repeat case_match. Qed.

Lemma updates_same R f :
  (∀ s s', tenant s' = tenant s → checkpoints s' = checkpoints s → R s s') →
  (∀ s, tenant (f s) = tenant s ∧ checkpoints (f s) = checkpoints s) → respects R (updates f).
Proof. intros H Hf s. destruct (Hf s). by apply H. Qed.

Lemma isolates_same t s s' : tenant s' = tenant s → checkpoints s' = checkpoints s → isolates t s s'.
Proof. intros ? E. split; [done|]. by rewrite E. Qed.

Lemma keeps_same s s' : tenant s' = tenant s → checkpoints s' = checkpoints s → keeps_checkpoints s s'.
Proof. intros ? E. split; [done|]. by rewrite E. Qed.

#[local] Hint Extern 1 (respects (isolates _) await) => apply await_same; [apply _|apply isolates_same] : engine.
#[local] Hint Extern 1 (respects keeps_checkpoints await) => apply await_same; [apply _|apply keeps_same] : engine.
#[local] Hint Extern 1 (respects (isolates _) (updates _)) =>
  apply updates_same; [apply isolates_same|intros; split; reflexivity] : engine.
#[local] Hint Extern 1 (respects keeps_checkpoints (updates _)) =>
  apply updates_same; [apply keeps_same|intros; split; reflexivity] : engine.

(** Reading the state gives what the state has. *)
Lemma respects_get R {A B} (f : engine → A) (k : A → EM B) : (∀ s, R s (k (f s) s).1) → respects R (reads f ≫= k).
Proof. intros H s. apply H. Qed.

Lemma respects_then (R : engine → engine → Prop) `{!PreOrder R} {A B} (m : EM A) (k : A → EM B) s :
  R s (m s).1 → (∀ a, respects R (k a)) → R s ((m ≫= k) s).1.
Proof.
  intros Hm Hk. unfold mbind, EM_bind. destruct (m s) as [s' [a|e]]; [|done]. etrans; [exact Hm|apply Hk].
Qed.

Lemma save_isolates t n chain err : respects (isolates t) (save_checkpoint t n chain err).
Proof.
  unfold Engine.save_checkpoint. apply respects_get. intros s. apply (respects_then (isolates t)); [| intros; walk].
  split; [done|]. intros task ten Hne. cbn. rewrite (save_files dumps loads repr). rewrite decide_False by (cbn; naive_solver). done.
Qed.

Lemma save_keeps t n chain err : respects keeps_checkpoints (save_checkpoint t n chain err).
Proof.
  unfold Engine.save_checkpoint. apply respects_get. intros s. apply (respects_then keeps_checkpoints); [| intros; walk].
  split; [done|]. intros task ten. cbn. rewrite (save_files dumps loads repr). case_decide; [by eauto|done].
Qed.

Lemma success_isolates t s th : respects (isolates t) (record_success t s th).
Proof.
  unfold Engine.record_success. apply respects_bind; [apply _|walk|intros _]. apply respects_get. intros e.
  apply (respects_then (isolates t)); [| intros; walk]. destruct (delete_fails w); [done|]. split; [done|].
  intros task ten Hne. cbn. unfold delete. by rewrite dget_ddel, decide_False.
Qed.

Lemma gates_isolates t s : respects (isolates t) (run_gates s).
Proof. unfold Engine.run_gates. walk. Qed.
Lemma gates_keeps s : respects keeps_checkpoints (run_gates s).
Proof. unfold Engine.run_gates. walk. Qed.
Lemma heal_isolates t n q : respects (isolates t) (heal_reason n q).
Proof. unfold Engine.heal_reason. walk. Qed.
Lemma heal_keeps n q : respects keeps_checkpoints (heal_reason n q).
Proof. unfold Engine.heal_reason. walk. Qed.
#[local] Hint Resolve save_isolates save_keeps success_isolates gates_isolates gates_keeps heal_isolates heal_keeps : engine.

Lemma round_isolates t t' q n th : respects (isolates t') (reflexion_round t q n th).
Proof. unfold Engine.reflexion_round. walk. Qed.
Lemma round_keeps t q n th : respects keeps_checkpoints (reflexion_round t q n th).
Proof. unfold Engine.reflexion_round. walk. Qed.
Lemma gather_isolates t t' r : respects (isolates t') (gather t r).
Proof. unfold Engine.gather. walk. Qed.
Lemma gather_keeps t r : respects keeps_checkpoints (gather t r).
Proof. unfold Engine.gather. walk. Qed.
Lemma degraded_isolates t t' th : respects (isolates t') (degraded_path t th).
Proof. unfold Engine.degraded_path. walk. Qed.
Lemma degraded_keeps t th : respects keeps_checkpoints (degraded_path t th).
Proof. unfold Engine.degraded_path. walk. Qed.
#[local] Hint Resolve round_isolates round_keeps gather_isolates gather_keeps degraded_isolates degraded_keeps : engine.

Lemma loop_isolates n t q a th c e : respects (isolates t) (reflexion_loop n t q a th c e).
Proof. revert q a th c e. induction n as [|n IH]; intros; cbn [Engine.reflexion_loop]; walk. Qed.
Lemma loop_keeps n t q a th c e : respects keeps_checkpoints (reflexion_loop n t q a th c e).
Proof. revert q a th c e. induction n as [|n IH]; intros; cbn [Engine.reflexion_loop]; walk. Qed.
#[local] Hint Resolve loop_isolates loop_keeps : engine.

Lemma cot_isolates t q th : respects (isolates t) (cot_path t q th).
Proof. unfold Engine.cot_path. walk. Qed.
Lemma cot_keeps t q th : respects keeps_checkpoints (cot_path t q th).
Proof. unfold Engine.cot_path. walk. Qed.
Lemma finalize_isolates t s th : respects (isolates t) (finalize t s th).
Proof. unfold _finalize_solution. walk. Qed.
#[local] Hint Resolve cot_isolates cot_keeps finalize_isolates : engine.

(** The handler of the neurosymbolic path changes nothing. *)
Lemma ns_path_handler R t th :
  (∀ think, ns_think w = Some think → respects R (ns_body think t th)) → (∀ s, R s s) → respects R (ns_path t th).
Proof.
  intros H Hr. unfold Engine.ns_path. destruct (ns_think w) as [think|]; [|intros s; apply Hr].
  intros s. specialize (H think eq_refl s). destruct (ns_body think t th s) as [s' [r|e]]; [done|].
  by destruct e, (fallback_to_cot cfg).
Qed.

Lemma ns_path_isolates t th : respects (isolates t) (ns_path t th).
Proof. apply ns_path_handler; [|done]. intros think _. unfold Engine.ns_body. walk. Qed.
#[local] Hint Resolve ns_path_isolates : engine.

Lemma think_isolates t : respects (isolates t) (think_impl t).
Proof. unfold _think_impl. walk. Qed.

(** A computation that returns or is cancelled, or keeps all checkpoints. *)
Definition keeps_on_error {A} (m : EM A) : Prop :=
  ∀ s, match m s with (s', Err e) => e = Cancelled ∨ keeps_checkpoints s s' | _ => True end.

Lemma keeps_on_error_bind {A B} (m : EM A) (f : A → EM B) :
  respects keeps_checkpoints m → (∀ a, keeps_on_error (f a)) → keeps_on_error (m ≫= f).
Proof.
  intros Hm Hf s. specialize (Hm s). unfold mbind, EM_bind. destruct (m s) as [s' [a|e]]; [|by right].
  specialize (Hf a s'). destruct (f a s') as [s'' [b|e]]; [done|]. destruct Hf as [?|?]; [by left|]. right. by etrans.
Qed.

Lemma success_errors t s th e : match record_success t s th e with (_, Err x) => x = Cancelled | _ => True end.
Proof.
  unfold Engine.record_success, mbind, EM_bind, reads, updates, mret, EM_ret, await.
  destruct (record_fails w), (delete_fails w); cbn; repeat case_match; simplify_eq; done.
Qed.

Lemma finalize_on_error t s th : keeps_on_error (finalize t s th).
Proof.
  unfold _finalize_solution. apply keeps_on_error_bind; [auto with engine|]. intros s' e. unfold mbind, EM_bind.
  pose proof (success_errors t s' (mkThought (tp_task_id th) (steps th) (_build_reasoning percent (llm_name w) th s)
    (duration_ms th)) e) as H. destruct (record_success _ _ _ _) as [e' [u|x]]; [done|]. by left.
Qed.

(** The neurosymbolic path keeps the checkpoints unless it returns a solution. *)
Lemma ns_path_keeps t th e :
  match ns_path t th e with
  | (e', Ok None) => keeps_checkpoints e e'
  | (_, Ok (Some _)) => True
  | (e', Err x) => x = Cancelled ∨ keeps_checkpoints e e'
  end.
Proof.
  unfold Engine.ns_path. destruct (ns_think w) as [think|]; [|done].
  assert (match ns_body think t th e with
    | (e', Ok None) => keeps_checkpoints e e' | (_, Ok (Some _)) => True
    | (e', Err x) => x = Cancelled ∨ keeps_checkpoints e e' end) as H.
  { unfold Engine.ns_body, mbind at 1, EM_bind at 1.
    assert (respects keeps_checkpoints await) as Ha by auto with engine. specialize (Ha e).
    destruct (await e) as [e1 [u|x]]; [|by right]. cbn in Ha. destruct (think _) as [evs err].
    destruct (consume evs err) as [sol causal|k|x|]; [|destruct (fallback_to_cot cfg)|by right|done]; [|done|by right].
    unfold mbind at 1, EM_bind at 1, liftPy. destruct (_convert_neurosymbolic_to_solution sol t) as [s|x]; [|by right].
    pose proof (finalize_on_error t (match causal with [] => s | _ => with_metadata s "causal_analysis" (JArr causal) end)
      th e1) as Hf. unfold mbind, EM_bind. destruct (finalize t _ th e1) as [e2 [r|x]]; [done|].
    destruct Hf as [?|?]; [by left|]. right. by etrans. }
  destruct (ns_body think t th e) as [e' [r|x]]; [done|].
  destruct x, (fallback_to_cot cfg), H; try done; by (left + right).
Qed.

(** What holds whenever a computation returns. *)
Definition on_return {A} (Q : A → engine → Prop) (m : EM A) : Prop :=
  ∀ s, match m s with (s', Ok a) => Q a s' | _ => True end.

Lemma on_return_bind {A B} (Q : B → engine → Prop) (m : EM A) (f : A → EM B) :
  (∀ a, on_return Q (f a)) → on_return Q (m ≫= f).
Proof. intros Hf s. unfold mbind, EM_bind. destruct (m s) as [s' [a|e]]; [apply Hf|done]. Qed.

Lemma on_return_step {A B} (R : A → Prop) (Q : B → engine → Prop) (m : EM A) (f : A → EM B) :
  on_return (λ a _, R a) m → (∀ a, R a → on_return Q (f a)) → on_return Q (m ≫= f).
Proof.
  intros Hm Hf s. specialize (Hm s). unfold mbind, EM_bind. destruct (m s) as [s' [a|e]]; [by apply Hf|done].
Qed.

(** The checkpoint of the task is gone. *)
Definition cleared (t : Task) (e : engine) : Prop :=
  delete_fails w = false → dget (_file_path (id t) (tenant e)) (checkpoints e) = None.

Lemma success_clears t s th : on_return (λ _ e, cleared t e) (record_success t s th).
Proof.
  unfold Engine.record_success. apply on_return_bind. intros _ e.
  assert (∀ A (m : EM A) e', (∀ e, tenant (m e).1 = tenant e ∧ checkpoints (m e).1 = checkpoints e) → cleared t e' →
    match m e' with (e2, Ok _) => cleared t e2 | _ => True end) as Hkeep.
  { intros A m e' Hm Hc. destruct (Hm e') as [H1 H2]. destruct (m e') as [e2 [a|x]]; [|done]. unfold cleared in *. cbn in *.
    by rewrite H1, H2. }
  unfold mbind, EM_bind, reads. destruct (delete_fails w) eqn:Ed.
  { repeat case_match; done || (unfold cleared; congruence). }
  set (e1 := set_checkpoints (delete (checkpoints e) (id t) (tenant e)) e).
  assert (cleared t e1) as Hc. { intros _. cbn. unfold delete. by rewrite dget_ddel, decide_True. }
  change (updates (λ e0, set_checkpoints (delete (checkpoints e0) (id t) (tenant e)) e0) e) with (e1, Ok () : result eexn ()).
  cbn. assert (∀ e, tenant (await e).1 = tenant e ∧ checkpoints (await e).1 = checkpoints e) as Ha.
  { intros e'. unfold await. by repeat case_match. }
  pose proof (Hkeep _ await e1 Ha Hc) as H1. destruct (await e1) as [e2 [u|x]]; [|done].
  apply Hkeep; [|done]. intros e'. by destruct (_ && _).
Qed.

Lemma finalize_clears t s th : on_return (λ _ e, cleared t e) (finalize t s th).
Proof.
  unfold _finalize_solution. apply on_return_bind. intros s' e. unfold mbind, EM_bind.
  pose proof (success_clears t s' (mkThought (tp_task_id th) (steps th) (_build_reasoning percent (llm_name w) th s)
    (duration_ms th)) e) as H. by destruct (record_success _ _ _ e) as [e' [u|x]].
Qed.

(** What the neurosymbolic path returns, it returns through [_finalize_solution]. *)
Lemma ns_path_returns t th (Q : Solution * ThoughtProcess → engine → Prop) :
  (∀ s, dget "judge_passed" (metadata s) = None → on_return Q (finalize t s th)) →
  on_return (λ r e, match r with Some r => Q r e | None => True end) (ns_path t th).
Proof.
  intros Hf. unfold Engine.ns_path. destruct (ns_think w) as [think|]; [|done].
  assert (on_return (λ r e, match r with Some r => Q r e | None => True end) (ns_body think t th)) as H.
  { unfold Engine.ns_body. apply on_return_bind. intros _. destruct (think _) as [evs err].
    destruct (consume evs err) as [sol causal|k|x|]; [|by destruct (fallback_to_cot cfg)|done|done].
    intros e. unfold mbind at 1, EM_bind at 1, liftPy.
    destruct (_convert_neurosymbolic_to_solution sol t) as [s|x] eqn:Ec; [|done].
    assert (metadata s = []) as Hm.
    { unfold _convert_neurosymbolic_to_solution in Ec. apply result_bind_ok in Ec as (? & _ & Ec).
      do 3 (apply result_bind_ok in Ec as (? & _ & Ec)). by injection Ec as <-. }
    unfold mbind, EM_bind. match goal with |- context [finalize t ?s' th e] => pose proof (Hf s') as Hs end.
    match type of Hs with ?P → _ => assert P as Hp by (destruct causal; cbn; by rewrite Hm) end.
    specialize (Hs Hp e). by destruct (finalize t _ th e) as [e2 [r|x]]. }
  intros e. specialize (H e). destruct (ns_body think t th e) as [e' [r|x]]; [done|].
  by destruct x, (fallback_to_cot cfg).
Qed.

Lemma think_clears t : on_return (λ _ e, cleared t e) (think_impl t).
Proof.
  unfold _think_impl. do 6 (apply on_return_bind; intros ?). intros e. unfold mbind at 1, EM_bind at 1.
  pose proof (ns_path_returns t (new_thought t) (λ _ e, cleared t e) (λ s _, finalize_clears t s _) e) as H.
  destruct (ns_path t (new_thought t) e) as [e' [[r|]|x]]; [done| |done].
  revert e'. apply on_return_bind. intros q. apply on_return_bind. intros [s th]. apply finalize_clears.
Qed.

Lemma think_keeps_on_error t : keeps_on_error (think_impl t).
Proof.
  unfold _think_impl. do 5 (apply keeps_on_error_bind; [walk|intros ?]).
  apply keeps_on_error_bind; [walk|intros resume]. intros e. unfold mbind at 1, EM_bind at 1.
  pose proof (ns_path_keeps t (new_thought t) e) as H.
  destruct (ns_path t (new_thought t) e) as [e' [[r|]|x]]; [done| |done].
  assert (keeps_on_error (q ← gather t resume; '(s, thought) ← (if String.eqb (llm_name w) "fallback" then degraded_path t (new_thought t)
    else cot_path t q (new_thought t)); finalize t s thought)) as Hm.
  { apply keeps_on_error_bind; [auto with engine|]. intros q. apply keeps_on_error_bind.
    - destruct (String.eqb (llm_name w) "fallback"); auto with engine.
    - intros [s th]. apply finalize_on_error. }
  specialize (Hm e'). cbn zeta. match goal with |- match ?m e' with _ => _ end => destruct (m e') as [e2 [r|x]] end; [done|].
  destruct Hm as [?|?]; [by left|]. right. by etrans.
Qed.

(** *** The gates *)
Definition gated (s : Solution) : Prop :=
  (verify_think (sandbox cfg) = true → verify_think_enforce (sandbox cfg) = true → gate_ok (validate w) s)
  ∧ (judge_enforce cfg = true → dget "judge_passed" (metadata s) ≠ Some (JBool false)).

Lemma gates_return s :
  on_return (λ s' _, gated s' ∧ dget "judge_passed" (metadata s') = dget "judge_passed" (metadata s)) (run_gates s).
Proof.
  unfold Engine.run_gates. apply on_return_bind. intros _. set (v := _verify_think_solution _ _ s).
  assert (g_enabled v = verify_think (sandbox cfg)) as Hen.
  { unfold v, _verify_think_solution. destruct (verify_think (sandbox cfg)); [|done]. cbn. by repeat case_match. }
  apply (on_return_step (λ s', (verify_think (sandbox cfg) = true → verify_think_enforce (sandbox cfg) = true →
      gate_ok (validate w) s') ∧ dget "judge_passed" (metadata s') = dget "judge_passed" (metadata s))).
  - rewrite Hen. destruct (verify_think (sandbox cfg)) eqn:Ev; [|by intros e].
    destruct (g_passed v) eqn:Ep; cbn [negb andb].
    + intros e. cbn. split; [|by rewrite dget_dset_ne]. intros _ _.
      assert (gate_ok (validate w) s) as [H1 H2] by (apply gate_exact; exact Ep). by split.
    + destruct (verify_think_enforce (sandbox cfg)) eqn:Ee; [done|]. intros e. cbn. split; [done|]. by rewrite dget_dset_ne.
  - intros s' [Hg Hj]. unfold gated. rewrite <- Hj. destruct (dget "judge_passed" (metadata s')) as [[|[]| | | |]|] eqn:E;
      try (by intros e; cbn; rewrite ?E). destruct (judge_enforce cfg) eqn:En; [done|]. intros e. cbn. by rewrite E.
Qed.

Lemma finalize_gated t s th :
  on_return (λ r _, gated r.1 ∧ dget "judge_passed" (metadata r.1) = dget "judge_passed" (metadata s)) (finalize t s th).
Proof.
  unfold _finalize_solution. eapply on_return_step; [apply gates_return|]. intros s' H. apply on_return_bind.
  intros _ e. exact H.
Qed.

Lemma loop_judged n : ∀ t q a th c e,
  on_return (λ r _, ∃ b, dget "judge_passed" (metadata r.1.1.1.1.2) = Some (JBool b)) (reflexion_loop n t q a th c e).
Proof.
  assert (∀ s b k, dget "judge_passed" (metadata (judged s b k)) = Some (JBool b)) as Hj.
  { intros s b k. unfold judged. cbn. rewrite dget_dset_ne by done. apply dget_dset_eq. }
  induction n as [|n IH]; intros t q a th c e; cbn [Engine.reflexion_loop]; [done|].
  apply on_return_bind. intros [[[th' chain] s] v]. destruct (Judge.passed v) eqn:Ep; [intros y; exists true; exact (Hj s true a)|].
  destruct (error_summary v) as [err|].
  - destruct (a <? 3); [|intros y; exists false; exact (Hj s false a)]. apply on_return_bind. intros _. apply IH.
  - intros y. exists false. cbn. rewrite dget_dset_ne by done. exact (Hj s false a).
Qed.

Lemma cot_judged t q th : on_return (λ r _, ∃ b, dget "judge_passed" (metadata r.1) = Some (JBool b)) (cot_path t q th).
Proof.
  unfold Engine.cot_path. eapply on_return_step; [apply loop_judged|]. intros [[[[[th1 s1] ok] n] code] err] Hb.
  apply on_return_bind. intros _ y. exact Hb.
Qed.

(** C1: The enforced gates cannot be bypassed: whichever path a solution takes through
    [think], if it is returned then, with the static gate enforced, it has at most
    fifty Python blocks, all of bounded size and accepted by the validator, and, with
    the judge enforced, it carries no negative verdict; without a neurosymbolic engine
    and with a real language model it then carries a positive one. *)
Theorem think_gates_enforced own t e e' s th :
  think own t e = (e', Ok (s, th)) →
  gated s
  ∧ (judge_enforce cfg = true → ns_think w = None → llm_name w ≠ "fallback" →
     dget "judge_passed" (metadata s) = Some (JBool true)).
Proof.
  unfold Engine.think. destruct (think_impl t (set_tenant _ e)) as [e1 r] eqn:E. intros H. injection H as _ Hr.
  assert (r = Ok (s, th)) as -> by (by destruct r as [?|[]]). clear Hr.
  set (Q := λ (r : Solution * ThoughtProcess) (_ : engine), gated r.1 ∧ (judge_enforce cfg = true → ns_think w = None →
    llm_name w ≠ "fallback" → dget "judge_passed" (metadata r.1) = Some (JBool true))).
  assert (on_return Q (think_impl t)) as HQ; [|specialize (HQ (set_tenant (effective_tenant own (tenant e)) e));
    rewrite E in HQ; exact HQ].
  assert (∀ s th, (∃ b, dget "judge_passed" (metadata s) = Some (JBool b)) ∨ llm_name w = "fallback" ∨ ns_think w ≠ None →
    on_return Q (finalize t s th)) as Hfin.
  { intros s0 th0 Hs x. pose proof (finalize_gated t s0 th0 x) as Hg. destruct (finalize t s0 th0 x) as [x' [r|]]; [|done].
    destruct Hg as [Hg Hj]. split; [done|]. intros Hen Hns Hll. destruct Hs as [[b Hb]|[?|?]]; [|done|done].
    rewrite Hb in Hj. rewrite Hj. destruct Hg as [_ Hg]. specialize (Hg Hen). rewrite Hj in Hg. by destruct b. }
  unfold _think_impl. do 6 (apply on_return_bind; intros ?). intros y. unfold mbind at 1, EM_bind at 1.
  pose proof (λ H, ns_path_returns t (new_thought t) Q H y) as Hns.
  destruct (decide (ns_think w = None)) as [Hn|Hn].
  - clear Hns. unfold Engine.ns_path. rewrite Hn. unfold mret at 1, EM_ret at 1. cbv beta iota. revert y. apply on_return_bind. intros q.
    apply (on_return_step (λ r, (∃ b, dget "judge_passed" (metadata r.1) = Some (JBool b)) ∨ llm_name w = "fallback")).
    + destruct (String.eqb_spec (llm_name w) "fallback") as [Hl|Hl]; [intros y; repeat case_match; auto|].
      intros y. pose proof (cot_judged t q (new_thought t) y) as Hj. destruct (cot_path t q _ y) as [y' [r|]]; [by left|done].
    + intros [s1 th1] Hs. apply Hfin. cbn in Hs. tauto.
  - specialize (Hns (λ s _, Hfin s _ (or_intror (or_intror Hn)))).
    destruct (ns_path t (new_thought t) y) as [y' [[r|]|err]]; [done| |done].
    revert y'. clear Hns. apply on_return_bind. intros q. apply on_return_bind. intros [s1 th1]. apply Hfin. auto.
Qed.

(** C11: The call is scoped and bounded, and a rejected solution stays resumable.  Every
    outcome leaves the caller's tenant variable as it was, touches no checkpoint file but
    the one named after the task and the effective tenant (names that the store makes
    equal share a file, see [Checkpoint.tenants_share_a_checkpoint]), asks the judge at
    most three times and saves at most twice.  An error other than the timeout loses no
    checkpoint; when a solution is returned and the file can be removed, that file is
    gone. *)
Theorem think_scoped_and_resumable own t e :
  let '(e', r) := think own t e in
  let path := _file_path (id t) (effective_tenant own (tenant e)) in
  tenant e' = tenant e
  ∧ (∀ task ten, _file_path task ten ≠ path →
       dget (_file_path task ten) (checkpoints e') = dget (_file_path task ten) (checkpoints e))
  ∧ judge_calls e' ≤ judge_calls e + 3 ∧ saves e' ≤ saves e + 2
  ∧ match r with
    | Ok _ => delete_fails w = false → dget path (checkpoints e') = None
    | Err ThinkTimeoutError => True
    | Err _ => ∀ task ten, is_Some (dget (_file_path task ten) (checkpoints e)) →
                 is_Some (dget (_file_path task ten) (checkpoints e'))
    end.
Proof.
  unfold Engine.think. set (e0 := set_tenant (effective_tenant own (tenant e)) e).
  destruct (think_isolates t e0) as [Ht Hi]. destruct (think_uses t e0) as [Hu1 Hu2].
  pose proof (think_clears t e0) as Hc. pose proof (think_keeps_on_error t e0) as Hk.
  destruct (think_impl t e0) as [e1 r]. cbn in *. split_and!; [done|exact Hi|done|done|].
  destruct r as [a|x]; [by intros Hd; rewrite <- Ht; apply Hc|].
  destruct x; try done; destruct Hk as [?|[_ Hk]]; done.
Qed.
End engine_proofs.

(** ** Runs *)
Definition demo_chain : list ThoughtNode := [mkNode 1 "analyst" "Task" "plan" "analysis" (7 # 10)].

Definition demo_context : Context := mkContext "Shop" [] [] "" "" "" [] [("analysis", "plan")].

Definition demo_sandbox : SandboxSettings := mkSandbox true 30 "256m" 1 true "python" true true.

Definition demo_settings : settings := mkSettings demo_sandbox true true.

(** The JSON texts of the judge: a fail with a weakness and a pass; ["{}"] and the text of
    a checkpoint are read as objects. *)
Definition engine_loads (s : string) : option json :=
  if String.eqb s "{}" then Some (JObj [])
  else if String.eqb s "PASS" then Some (JObj [("scores", JObj [("overall", JNum (8 # 10))])])
  else if String.eqb s "FAIL" then Some (JObj [("scores", JObj [("overall", JNum (1 # 10))]); ("weaknesses", JArr [JStr "no tests"])])
  else if String.eqb s "CKPT" then Some (JObj [("task_id", JStr "t1"); ("step_results", JObj [("analysis", JStr "plan")])])
  else None.

(** The judge passes the solution in attempt [k]. *)
Definition demo_world (k : nat) : world :=
  mkWorld None None None None "" "openai" "gpt" (λ _ _ _, (Healer.Returned demo_context, demo_chain))
    (λ n _ _, Ok (if (n <? k)%nat then "FAIL" else "PASS")) (λ _, NoCrash) false false false (λ _, mkVR true true)
    (λ _, None) None None 0 "" 0 (λ _, "TypeError").

Definition demo_engine (awaits : option nat) : engine := mkEngine "acme" [] [] [] healer_init [] 0 0 awaits.

Abbreviation demo_think k awaits :=
  (think engine_loads (λ _, "CKPT") (λ _, "x") (λ _, None) (λ _, "70%") demo_settings (demo_world k) "own" demo_task
     (demo_engine awaits)).

Lemma demo_returns : is_ok (demo_think 2 None).2 = true ∧ judge_calls (demo_think 2 None).1 = 2.
Proof. vm_compute. split; reflexivity. Qed.

Lemma think_gates_enforced_witness :
  ∃ e' s th, demo_think 2 None = (e', Ok (s, th)) ∧ judge_calls e' = 2 ∧ dget "judge_passed" (metadata s) = Some (JBool true).
Proof.
  destruct demo_returns as [H1 H2]. destruct (demo_think 2 None) as [e' [[s th]|x]] eqn:E; [|discriminate H1].
  exists e', s, th. split; [exact eq_refl|]. split; [exact H2|].
  pose proof (think_gates_enforced engine_loads (λ _, "CKPT") (λ _, "x") (λ _, None) (λ _, "70%") demo_settings (demo_world 2)
    "own" demo_task (demo_engine None) e' s th E) as [_ H]. apply H; [exact eq_refl|exact eq_refl|discriminate].
Defined.

(** A judge that never passes the solution: it is rejected after three attempts, and
    the checkpoint of the second is still there. *)
Example rejected_solution_is_resumable :
  (demo_think 9 None).2 = Err JudgeError ∧ (checkpoints (demo_think 9 None).1).*1 = [_file_path "t1" "acme"]
  ∧ judge_calls (demo_think 9 None).1 = 3 ∧ saves (demo_think 9 None).1 = 2.
Proof. vm_compute. done. Qed.

(** The checkpoint holds the answers the judge rejected: a later call restores all of
    them, and a restored step is not asked again. *)
Example resume_restores_rejected_answers :
  (c ← load engine_loads (checkpoints (demo_think 9 None).1) "t1" "acme";
   resume_of (match c with Some c => l_step_results c | None => JNull end)) = Ok [("analysis", "plan")].
Proof. vm_compute. done. Qed.

(** The timeout that fires at the very last await reports a failure although the
    episode is recorded as done and the checkpoint is gone. *)
Example late_timeout_loses_checkpoint :
  let before := demo_think 2 (Some 7) in let at_end := demo_think 2 (Some 8) in
  before.2 = Err ThinkTimeoutError ∧ length (checkpoints before.1) = 1 ∧ episodes before.1 = []
  ∧ at_end.2 = Err ThinkTimeoutError ∧ checkpoints at_end.1 = [] ∧ length (episodes at_end.1) = 1
  ∧ is_ok (demo_think 2 (Some 9)).2 = true.
Proof. vm_compute. done. Qed.

(** ** The fast path over the neurosymbolic engine *)
Section fast_path.
Context (repr : json → string) (to_float : string → option Q) (int_str : string → option Z).
Context (ast_parse : string → option (list bool)) (analyze_code : string → list string).
Context (ncfg : NeuroSymbolic.config) (degraded : bool) (nw : NeuroSymbolic.world).

(** The neurosymbolic engine of [NeuroSymbolic] as the engine sees it: the events it
    yields and how it ends. *)
Definition ns_run (started : bool) (st : NeuroSymbolic.st) (task : dict) : list ThinkEvent * option exn :=
  let '(st', r) := NeuroSymbolic.think repr to_float int_str ast_parse analyze_code ncfg degraded nw started task st in
  (NeuroSymbolic.events st', match r with Ok _ => None | Err e => Some e end).

Lemma consume_solved evs err sol causal :
  consume evs err = NsSolved sol causal → ∃ k v, ThinkCompleted sol k v causal ∈ evs.
Proof.
  induction evs as [|e evs IH]; cbn; [by destruct err|].
  assert (consume evs err = NsSolved sol causal → ∃ k v, ThinkCompleted sol k v causal ∈ e :: evs) as H.
  { intros (k & v & Hin)%IH. exists k, v. by right. }
  destruct e; try exact H; [|discriminate]. intros [= -> ->]. eexists _, _. by left.
Qed.

(** C12: What the fast path converts into a solution was verified: if the loop over a
    fresh run of the neurosymbolic engine stops at a solution, then the task the engine
    prepared parses, and the symbolic engine accepted that very solution for it within
    the attempt bound. *)
Theorem fast_path_verified started st t sol causal :
  NeuroSymbolic.events st = [] →
  (let '(evs, err) := ns_run started st (_prepare_neurosymbolic_task t) in consume evs err) = NsSolved sol causal →
  ∃ g k, NeuroSymbolic.parse repr to_float (_prepare_neurosymbolic_task t) = Ok g
    ∧ NeuroSymbolic.accepted to_float ncfg degraded nw g sol k.
Proof.
  intros H0 Hc. unfold ns_run in Hc. destruct (NeuroSymbolic.think _ _ _ _ _ _ _ _ _ _ _) as [st' r] eqn:E.
  apply consume_solved in Hc as (k & v & Hin). destruct started.
  2:{ unfold NeuroSymbolic.think in E. cbn in E. injection E as <- _. rewrite H0 in Hin. by apply elem_of_nil in Hin. }
  pose proof (think_reports repr to_float int_str ast_parse analyze_code ncfg degraded nw true _ _
    (λ sol k, ∃ g, NeuroSymbolic.parse repr to_float (_prepare_neurosymbolic_task t) = Ok g
       ∧ NeuroSymbolic.accepted to_float ncfg degraded nw g sol k) st (prepared_task_valid t)) as Hr.
  rewrite E in Hr. destruct (Hr ltac:(eauto) eq_refl sol k v causal Hin) as [(g & ? & ?) _]. eauto.
Qed.
End fast_path.

Definition bounded_task : Task := mkTask "t2" "Fast" "Keep it fast" [mkRequirement "latency" "response time" 5 ["<= 200"]] None MODERATE [].

Abbreviation demo_fast :=
  (ns_run (λ _, "") (λ _, None) (λ _, None) (λ _, None) (λ _, []) NeuroSymbolic.demo_config false
     (NeuroSymbolic.demo_world None) true NeuroSymbolic.demo_state (_prepare_neurosymbolic_task bounded_task)).

Lemma demo_fast_solved : (let '(evs, err) := demo_fast in consume evs err) = NsSolved [("latency", JNum 120)] [].
Proof. vm_compute. reflexivity. Qed.

Lemma fast_path_verified_witness :
  ∃ g k, NeuroSymbolic.parse (λ _, "") (λ _, None) (_prepare_neurosymbolic_task bounded_task) = Ok g
    ∧ NeuroSymbolic.accepted (λ _, None) NeuroSymbolic.demo_config false (NeuroSymbolic.demo_world None) g
        [("latency", JNum 120)] k.
Proof.
  exact (fast_path_verified (λ _, "") (λ _, None) (λ _, None) (λ _, None) (λ _, []) NeuroSymbolic.demo_config false
    (NeuroSymbolic.demo_world None) true NeuroSymbolic.demo_state bounded_task [("latency", JNum 120)] [] eq_refl demo_fast_solved).
Defined.
