(* ===== verification/DiGraph.v ===== *)
(** * Directed graphs as the code uses them

    [causal/graph.py] and [knowledge/graph.py] keep a [networkx.DiGraph].  The class
    [DiGraph] lists the operations they call and [DiGraphLaws] what the networkx
    documentation promises of them; the components are proved against the class.
    [dgraph], adjacency as an insertion-ordered dictionary with a saturating search
    for ancestors and descendants, implements it and serves the witnesses. *)
From Stdlib Require Import ZArith QArith Lia Bool Ascii String.
From stdpp Require Import base option sets strings relations list.
From S2P Require Import Prelude.
Local Open Scope nat_scope.

(** [W] is the data of an edge.  [None] stands for the [NetworkXError] of an unknown
    node or edge. *)
Class DiGraph (W G : Type) := {
  nx_empty : G;
  nx_add_node : string → G → G;
  nx_add_edge : string → string → W → G → G;
  nx_remove_node : string → G → option G;
  nx_remove_edge : string → string → G → option G;
  nx_nodes : G → list string;
  nx_edges : G → list (string * string);
  get_edge_data : G → string → string → option W;
  predecessors : G → string → option (list string);
  successors : G → string → option (list string);
  ancestors : G → string → option (list string);
  descendants : G → string → option (list string);
  is_directed_acyclic_graph : G → bool;
}.

Section edge.
Context `{DiGraph W G}.

Definition edge (g : G) (u v : string) : Prop := is_Some (get_edge_data g u v).
Definition acyclic (g : G) : Prop := ∀ n, ¬ tc (edge g) n n.
Definition has_edge (g : G) (u v : string) : bool := bool_decide (edge g u v).

(** A query about one node: unknown nodes raise, known ones get the duplicate-free list
    of the nodes that satisfy [P]. *)
Definition answers (g : G) (f : G → string → option (list string)) (P : string → string → Prop) : Prop :=
  ∀ n, (n ∉ nx_nodes g → f g n = None)
     ∧ (n ∈ nx_nodes g → ∃ l, f g n = Some l ∧ NoDup l ∧ ∀ x, x ∈ l ↔ P x n).
End edge.

Class DiGraphLaws W G `{!DiGraph W G} := {
  empty_nodes : nx_nodes nx_empty = [];
  empty_edges : ∀ u v, get_edge_data nx_empty u v = None;
  add_node_nodes : ∀ n g x, x ∈ nx_nodes (nx_add_node n g) ↔ x = n ∨ x ∈ nx_nodes g;
  add_node_edges : ∀ n g u v, get_edge_data (nx_add_node n g) u v = get_edge_data g u v;
  add_edge_nodes : ∀ a b w g x, x ∈ nx_nodes (nx_add_edge a b w g) ↔ x = a ∨ x = b ∨ x ∈ nx_nodes g;
  add_edge_edges : ∀ a b w g u v,
    get_edge_data (nx_add_edge a b w g) u v = if decide ((u, v) = (a, b)) then Some w else get_edge_data g u v;
  remove_node_none : ∀ n g, nx_remove_node n g = None ↔ n ∉ nx_nodes g;
  remove_node_nodes : ∀ n g g' x, nx_remove_node n g = Some g' → x ∈ nx_nodes g' ↔ x ≠ n ∧ x ∈ nx_nodes g;
  remove_node_edges : ∀ n g g' u v, nx_remove_node n g = Some g' →
    get_edge_data g' u v = if decide (u = n ∨ v = n) then None else get_edge_data g u v;
  remove_edge_none : ∀ a b g, nx_remove_edge a b g = None ↔ ¬ edge g a b;
  remove_edge_nodes : ∀ a b g g' x, nx_remove_edge a b g = Some g' → x ∈ nx_nodes g' ↔ x ∈ nx_nodes g;
  remove_edge_edges : ∀ a b g g' u v, nx_remove_edge a b g = Some g' →
    get_edge_data g' u v = if decide ((u, v) = (a, b)) then None else get_edge_data g u v;
  nx_edges_spec : ∀ g u v, (u, v) ∈ nx_edges g ↔ edge g u v;
  predecessors_spec : ∀ g, answers g predecessors (λ x n, edge g x n);
  successors_spec : ∀ g, answers g successors (λ x n, edge g n x);
  edge_nodes : ∀ g u v, edge g u v → u ∈ nx_nodes g ∧ v ∈ nx_nodes g;
  ancestors_spec : ∀ g, answers g ancestors (λ x n, x ≠ n ∧ tc (edge g) x n);
  descendants_spec : ∀ g, answers g descendants (λ x n, x ≠ n ∧ tc (edge g) n x);
  is_dag_spec : ∀ g, is_directed_acyclic_graph g = true ↔ acyclic g;
}.

(** ** Saturation: everything a relation reaches inside a finite universe *)
Section reach.
Context {A : Type} `{EqDecision A} (R : A → A → Prop) `{!RelDecision R} (univ : list A).

Definition expand (seen : list A) : list A :=
  seen ++ filter (λ y, y ∉ seen ∧ Exists (λ x, R x y) seen) univ.

Definition reach (n : A) : list A := Nat.iter (S (length univ)) expand (filter (R n) univ).

Definition closed (l : list A) : Prop := ∀ x y, x ∈ l → R x y → y ∈ univ → y ∈ l.

Hypothesis univ_nodup : NoDup univ.

Lemma expand_invariant n seen :
  NoDup seen ∧ (∀ x, x ∈ seen → x ∈ univ ∧ tc R n x) →
  NoDup (expand seen) ∧ (∀ x, x ∈ expand seen → x ∈ univ ∧ tc R n x).
Proof using univ_nodup.
  intros [Hnd Hin]. unfold expand. split.
  - apply NoDup_app. split; [done|]. split; [|by apply NoDup_filter].
    intros x Hx (Hx2 & _)%list_elem_of_filter. naive_solver.
  - intros x [Hx|Hx]%elem_of_app; [by apply Hin|].
    apply list_elem_of_filter in Hx as ((_ & (y & Hy & Hr)%Exists_exists) & Hu). split; [done|].
    destruct (Hin y Hy) as [_ Ht]. eapply tc_r; [exact Ht|done].
Qed.

Lemma reach_invariant n k :
  let l := Nat.iter k expand (filter (R n) univ) in
  NoDup l ∧ (∀ x, x ∈ l → x ∈ univ ∧ tc R n x).
Proof using univ_nodup.
  induction k as [|k IH]; cbn; [|by apply expand_invariant].
  split; [by apply NoDup_filter|]. intros x (? & ?)%list_elem_of_filter. split; [done|by apply tc_once].
Qed.

Lemma expand_progress l : closed l ∨ length l < length (expand l).
Proof using.
  unfold expand. destruct (filter _ univ) as [|y t] eqn:E; [|right; rewrite length_app; cbn; lia].
  left. intros x y Hx Hr Hu. destruct (decide (y ∈ l)) as [|Hn]; [done|].
  assert (y ∈ @nil A) as Hin; [|by apply not_elem_of_nil in Hin].
  rewrite <- E. apply list_elem_of_filter. split; [|done]. split; [done|].
  apply Exists_exists. eauto.
Qed.

Lemma expand_closed l : closed l → closed (expand l).
Proof using.
  intros Hc x y [Hx|Hx]%elem_of_app Hr Hu; unfold expand; apply elem_of_app; [left; eauto|].
  apply list_elem_of_filter in Hx as ((Hx & (z & Hz & Hzx)%Exists_exists) & Hxu).
  destruct Hx. eauto.
Qed.

Lemma reach_closed n : closed (reach n).
Proof using univ_nodup.
  assert (∀ k, closed (Nat.iter k expand (filter (R n) univ)) ∨ k ≤ length (Nat.iter k expand (filter (R n) univ))) as H.
  { induction k as [|k IH]; [right; lia|].
    change (Nat.iter (S k) expand (filter (R n) univ)) with (expand (Nat.iter k expand (filter (R n) univ))).
    destruct IH as [IH|IH]; [left; by apply expand_closed|]. revert IH.
    generalize (Nat.iter k expand (filter (R n) univ)) as l. intros l IH.
    destruct (expand_progress l); [left; by apply expand_closed|right; lia]. }
  destruct (H (S (length univ))) as [|Hlen]; [done|].
  destruct (reach_invariant n (S (length univ))) as [Hnd Hin].
  apply (NoDup_submseteq _ univ) in Hnd; [|intros x Hx; by apply Hin].
  apply submseteq_length in Hnd. lia.
Qed.

(** When the relation stays inside the universe, [reach] is exactly its transitive
    closure. *)
Lemma elem_of_reach n x : (∀ u v, R u v → v ∈ univ) → x ∈ reach n ↔ tc R n x.
Proof using univ_nodup.
  intros Hu. split; [intros Hx; by apply (reach_invariant n (S (length univ)))|].
  intros Ht. pose proof (reach_closed n) as Hc.
  assert (∀ y, R n y → y ∈ reach n) as Hs.
  { intros y Hy. unfold reach. generalize (S (length univ)) as k.
    induction k as [|k IH]; cbn; [apply list_elem_of_filter; eauto|]. unfold expand at 1.
    apply elem_of_app. by left. }
  clear - Ht Hc Hs Hu. revert Hc Hs. generalize (reach n). intros l Hl.
  induction Ht as [a b Hab|a b c Hab Hbc IH]; intros Hs; [by apply Hs|].
  apply IH. intros y Hy. eapply Hl; [by apply Hs|exact Hy|by eapply Hu].
Qed.

Lemma reach_nodup n : NoDup (reach n).
Proof using univ_nodup. by destruct (reach_invariant n (S (length univ))). Qed.
End reach.

(** ** An implementation

    The nodes are those added and the ends of the edges. *)
Record dgraph (W : Type) := mkDgraph {
  added : list string;
  dedges : list (string * string * W);
}.
Arguments mkDgraph {W} _ _.
Arguments added {W} _.
Arguments dedges {W} _.

Section dgraph.
Context {W : Type}.
Implicit Types g : dgraph W.

Definition dnodes g : list string := remove_dups (added g ++ map (λ p, p.1.1) (dedges g) ++ map (λ p, p.1.2) (dedges g)).

Definition dedge_data g (u v : string) : option W := dget (u, v) (dedges g).
Definition dedge g (u v : string) : Prop := is_Some (dedge_data g u v).

#[local] Instance dedge_dec g : RelDecision (dedge g).
Proof. intros u v. unfold dedge. apply _. Defined.

#[local] Instance dedge_rev_dec g : RelDecision (λ u v, dedge g v u).
Proof. intros u v. unfold dedge. apply _. Defined.

Definition dremove_node (n : string) g : option (dgraph W) :=
  if decide (n ∈ dnodes g)
  then Some (mkDgraph (filter (λ x, x ≠ n) (dnodes g)) (filter (λ p, ¬ (p.1.1 = n ∨ p.1.2 = n)) (dedges g)))
  else None.

Definition dremove_edge (a b : string) g : option (dgraph W) :=
  if decide (dedge g a b) then Some (mkDgraph (dnodes g) (filter (λ p, p.1 ≠ (a, b)) (dedges g))) else None.

Definition ask g (f : string → list string) (n : string) : option (list string) :=
  if decide (n ∈ dnodes g) then Some (f n) else None.

#[global] Instance dgraph_digraph : DiGraph W (dgraph W) := {
  nx_empty := mkDgraph [] [];
  nx_add_node n g := mkDgraph (added g ++ [n]) (dedges g);
  nx_add_edge a b w g := mkDgraph (added g) (dset (a, b) w (dedges g));
  nx_remove_node := dremove_node;
  nx_remove_edge := dremove_edge;
  nx_nodes := dnodes;
  nx_edges g := remove_dups (dedges g).*1;
  get_edge_data := dedge_data;
  predecessors g := ask g (λ n, filter (λ x, dedge g x n) (dnodes g));
  successors g := ask g (λ n, filter (dedge g n) (dnodes g));
  ancestors g := ask g (λ n, filter (λ x, x ≠ n) (reach (λ u v, dedge g v u) (dnodes g) n));
  descendants g := ask g (λ n, filter (λ x, x ≠ n) (reach (dedge g) (dnodes g) n));
  is_directed_acyclic_graph g := forallb (λ n, bool_decide (n ∉ reach (dedge g) (dnodes g) n)) (dnodes g);
}.

Lemma dget_filter (P : string * string → Prop) `{!∀ k, Decision (P k)} (d : list (string * string * W)) k
    (f : string * string * W → Prop) `{!∀ p, Decision (f p)} :
  (∀ p, f p ↔ P p.1) → dget k (filter f d) = if decide (P k) then dget k d else None.
Proof.
  intros Hf. induction d as [|[k' v] d IH]; [by case_decide|]. rewrite filter_cons.
  specialize (Hf (k', v)). cbn in Hf.
  destruct (decide (f (k', v))) as [Hp|Hp]; rewrite ?dget_cons, IH; destruct (decide (k = k')) as [->|];
    repeat case_decide; tauto.
Qed.

Lemma dedge_iff g u v : dedge g u v ↔ (u, v) ∈ (dedges g).*1.
Proof. apply dget_is_Some. Qed.

Lemma elem_of_dnodes g x : x ∈ dnodes g ↔ x ∈ added g ∨ ∃ y, dedge g x y ∨ dedge g y x.
Proof.
  unfold dnodes. rewrite elem_of_remove_dups, !elem_of_app. setoid_rewrite dedge_iff.
  rewrite !list_elem_of_fmap. split.
  - intros [?|[([[a b] w] & -> & H)|([[a b] w] & -> & H)]]; [by left| |]; right; cbn.
    + exists b. left. apply list_elem_of_fmap. by exists (a, b, w).
    + exists a. right. apply list_elem_of_fmap. by exists (a, b, w).
  - intros [?|[y [([[a b] w] & E & H)%list_elem_of_fmap|([[a b] w] & E & H)%list_elem_of_fmap]]]; [by left| |];
      cbn in E; simplify_eq; right; [left|right]; by exists (a, b, w).
Qed.

Lemma dedge_nodes g u v : dedge g u v → u ∈ dnodes g ∧ v ∈ dnodes g.
Proof. rewrite !elem_of_dnodes. intros H. split; right; eauto. Qed.

Lemma dnodes_nodup g : NoDup (dnodes g).
Proof. apply NoDup_remove_dups. Qed.

Lemma ask_answers g f P :
  (∀ n, NoDup (f g n) ∧ ∀ x, x ∈ f g n ↔ P x n) → answers g (λ g, ask g (f g)) P.
Proof.
  intros H n. unfold ask. cbn [nx_nodes dgraph_digraph]. split; intros Hn; case_decide; try done.
  destruct (H n). eauto.
Qed.

Lemma tc_reverse (R : string → string → Prop) x y : tc (λ u v, R v u) x y ↔ tc R y x.
Proof.
  split; (induction 1 as [? ? H|? ? ? H _ IH]; [by apply tc_once|eapply tc_r; [exact IH|exact H]]).
Qed.

Lemma tc_dedge_nodes g x y : tc (dedge g) x y → x ∈ dnodes g ∧ y ∈ dnodes g.
Proof. induction 1 as [x y H|x y z H _ IH]; destruct (dedge_nodes g x y H); naive_solver. Qed.

#[global] Instance dgraph_laws : DiGraphLaws W (dgraph W).
Proof.
  split; unfold edge, acyclic; cbn [nx_empty nx_add_node nx_add_edge nx_remove_node nx_remove_edge nx_nodes nx_edges
    get_edge_data predecessors successors ancestors descendants is_directed_acyclic_graph dgraph_digraph].
  - done.
  - done.
  - intros n g x. rewrite !elem_of_dnodes. unfold dedge, dedge_data. cbn. rewrite elem_of_app, list_elem_of_singleton. naive_solver.
  - done.
  - intros a b w g x. rewrite !elem_of_dnodes. unfold dedge, dedge_data. cbn. setoid_rewrite dget_dset. split.
    + intros [?|[y [H|H]]]; [auto|case_decide; naive_solver..].
    + intros [->|[->|[?|[y H]]]]; [right; exists b; left; by rewrite decide_True|right; exists a; right; by rewrite decide_True|auto|].
      right. exists y. destruct H; [left|right]; by case_decide.
  - intros a b w g u v. unfold dedge_data. cbn. rewrite dget_dset. done.
  - intros n g. unfold dremove_node. by case_decide.
  - intros n g g' x. unfold dremove_node. case_decide; [|done]. intros [= <-]. rewrite (elem_of_dnodes (mkDgraph _ _)).
    unfold dedge, dedge_data. cbn. rewrite list_elem_of_filter.
    setoid_rewrite (dget_filter (λ k, ¬ (k.1 = n ∨ k.2 = n))); [|done..]. split; [|auto].
    intros [?|[y [Hy|Hy]]]; [done| |]; (case_decide as Hd; [|by destruct Hy]); cbn in Hd;
      (split; [intros ->; by destruct Hd; auto|]); apply elem_of_dnodes; eauto.
  - intros n g g' u v. unfold dremove_node. case_decide; [|done]. intros [= <-]. unfold dedge_data. cbn.
    rewrite (dget_filter (λ k, ¬ (k.1 = n ∨ k.2 = n))); [|done]. cbn. repeat case_decide; tauto.
  - intros a b g. unfold dremove_edge, dedge. case_decide; naive_solver.
  - intros a b g g' x. unfold dremove_edge. case_decide; [|done]. intros [= <-]. rewrite (elem_of_dnodes (mkDgraph _ _)).
    unfold dedge, dedge_data. cbn. setoid_rewrite (dget_filter (λ k, k ≠ (a, b))); [|done..]. split; [|auto].
    intros [?|[y [Hy|Hy]]]; [done| |]; (case_decide; [|by destruct Hy]); apply elem_of_dnodes; eauto.
  - intros a b g g' u v. unfold dremove_edge. case_decide; [|done]. intros [= <-]. unfold dedge_data. cbn.
    rewrite (dget_filter (λ k, k ≠ (a, b))); [|done]. repeat case_decide; congruence.
  - intros g u v. rewrite elem_of_remove_dups. symmetry. apply dedge_iff.
  - intros g. apply ask_answers. intros n. split; [apply NoDup_filter, dnodes_nodup|].
    intros x. rewrite list_elem_of_filter. split; [tauto|]. intros Hx. split; [done|]. by apply (dedge_nodes g x n).
  - intros g. apply ask_answers. intros n. split; [apply NoDup_filter, dnodes_nodup|].
    intros x. rewrite list_elem_of_filter. split; [tauto|]. intros Hx. split; [done|]. by apply (dedge_nodes g n x).
  - apply dedge_nodes.
  - intros g. apply ask_answers. intros n. split; [apply NoDup_filter, reach_nodup, dnodes_nodup|].
    intros x. rewrite list_elem_of_filter, elem_of_reach, tc_reverse; [done|apply dnodes_nodup|].
    intros u v. apply dedge_nodes.
  - intros g. apply ask_answers. intros n. split; [apply NoDup_filter, reach_nodup, dnodes_nodup|].
    intros x. rewrite list_elem_of_filter, elem_of_reach; [done|apply dnodes_nodup|].
    intros u v. apply dedge_nodes.
  - intros g. rewrite forallb_forall. split; intros H n Hn.
    + assert (n ∈ dnodes g) as Hin by (by apply (tc_dedge_nodes g n n)).
      apply list_elem_of_In, H, bool_decide_eq_true in Hin. apply Hin, elem_of_reach; [apply dnodes_nodup| |done].
      intros u v. apply dedge_nodes.
    + apply bool_decide_eq_true. rewrite elem_of_reach; [apply H|apply dnodes_nodup|]. intros u v. apply dedge_nodes.
Qed.
End dgraph.
