(* ===== verification/Causal.v ===== *)
(** * The causal graph and the counterfactual engine

    [causal/graph.py] and [causal/engine.py], over the interface [DiGraph] of the
    networkx graph.  Identifiers from [uuid4] are an argument ([ids], one per call);
    floats are exact rationals; [round(x, 4)] is kept.  Messages of exceptions are
    left out.

    The theorems: the three queries return exactly the sets their definitions
    describe; an estimate is at least the current value and its confidence lies in a
    fixed interval; the analysis that [NeuroSymbolic] starts on normalised
    requirements never fails when their labels differ. *)
From Stdlib Require Import ZArith QArith Qabs Lqa Lia Bool Ascii String.
From stdpp Require Import base option numbers sets strings pretty relations sorting list.
From S2P Require Import Prelude Symbolic NeuroSymbolic Prompts DiGraph.
Local Open Scope string_scope.
Local Open Scope list_scope.
Local Open Scope nat_scope.

Inductive VariableType := CONTINUOUS | CATEGORICAL | BINARY.

Definition type_value (t : VariableType) : string :=
  match t with CONTINUOUS => "continuous" | CATEGORICAL => "categorical" | BINARY => "binary" end.

Record CausalNode := mkCausalNode {
  cn_id : string;
  cn_name : string;
  var_type : VariableType;
  domain : option (Q * Q);
  structural_equation : string;
}.

(** What [add_edge] stores with an edge. *)
Record edge_attr := mkAttr { strength : Q; delay : Q }.

Record InterventionResult := mkIntervention {
  target_variable : string;
  intervention_value : Q;
  estimated_effect : Q;
  confidence : Q;
  backdoor_variables : list string;
  frontdoor_variables : list string;
  counterfactual : option (list (string * Q));
}.

(** The exceptions: [ValueError] of the graph's own checks, the errors of networkx. *)
Inductive cexn := NotADag | NodeNotFound (n : string) | NetworkXError | PyErr (e : pyexn).

Abbreviation cresult := (result cexn).

Definition nx {A} (o : option A) : cresult A := match o with Some a => Ok a | None => Err NetworkXError end.

Section causal.
Context `{DiGraph edge_attr G}.

Record CausalGraph := mkCausal {
  _graph : G;
  _nodes : list (string * CausalNode);
  _node_values : list (string * Q);
  _node_domains : list (string * (Q * Q));
}.

Definition causal_init : CausalGraph := mkCausal nx_empty [] [] [].

Definition add_node (node : CausalNode) (value : Q) (g : CausalGraph) : CausalGraph :=
  mkCausal (nx_add_node (cn_id node) (_graph g)) (dset (cn_id node) node (_nodes g))
    (dset (cn_id node) value (_node_values g))
    (match domain node with Some d => dset (cn_id node) d (_node_domains g) | None => _node_domains g end).

Definition has_node (n : string) (g : CausalGraph) : bool := dmem n (_nodes g).

Definition add_edge (s t : string) (a : edge_attr) (g : CausalGraph) : cresult CausalGraph :=
  if negb (has_node s g) || negb (has_node t g) then Err (PyErr ValueError)
  else Ok (mkCausal (nx_add_edge s t a (_graph g)) (_nodes g) (_node_values g) (_node_domains g)).

(** The dictionaries are updated before networkx raises for an unknown node. *)
Definition remove_node (n : string) (g : CausalGraph) : CausalGraph * cresult () :=
  let g' h := mkCausal h (ddel n (_nodes g)) (ddel n (_node_values g)) (ddel n (_node_domains g)) in
  match nx_remove_node n (_graph g) with
  | Some h => (g' h, Ok ())
  | None => (g' (_graph g), Err NetworkXError)
  end.

Definition remove_edge (s t : string) (g : CausalGraph) : cresult CausalGraph :=
  h ← nx (nx_remove_edge s t (_graph g));
  Ok (mkCausal h (_nodes g) (_node_values g) (_node_domains g)).

Definition get_parents (n : string) (g : CausalGraph) : cresult (list string) := nx (predecessors (_graph g) n).
Definition get_children (n : string) (g : CausalGraph) : cresult (list string) := nx (successors (_graph g) n).
Definition get_ancestors (n : string) (g : CausalGraph) : cresult (list string) := nx (ancestors (_graph g) n).
Definition get_descendants (n : string) (g : CausalGraph) : cresult (list string) := nx (descendants (_graph g) n).
Definition get_all_nodes (g : CausalGraph) : list CausalNode := (_nodes g).*2.
Definition node_ids (g : CausalGraph) : list string := (_nodes g).*1.
Definition validate_dag (g : CausalGraph) : bool := is_directed_acyclic_graph (_graph g).

(** [sorted(set(l))] *)
Definition sorted_set (l : list string) : list string := sorted_strings (remove_dups l).

(** The nodes of the graph other than the two for which [f], which may raise, holds. *)
Fixpoint select (f : string → cresult bool) (l : list string) : cresult (list string) :=
  match l with
  | [] => Ok []
  | n :: l => b ← f n; r ← select f l; Ok (if (b : bool) then n :: r else r)
  end.

Definition others (t o : string) (g : CausalGraph) : list string := filter (λ n, n ≠ t ∧ n ≠ o) (node_ids g).

Definition find_confounders (t o : string) (exclude : list string) (g : CausalGraph) : cresult (list string) :=
  if negb (validate_dag g) then Err NotADag
  else if negb (has_node t g) then Err (NodeNotFound t)
  else if negb (has_node o g) then Err (NodeNotFound o)
  else
    l ← select (λ n, ps ← get_parents o g; Ok (bool_decide (n ∈ ps) && has_edge (_graph g) n t))
          (filter (λ n, n ∉ exclude) (others t o g));
    Ok (sorted_set l).

Definition find_instruments (t o : string) (g : CausalGraph) : cresult (list string) :=
  if negb (validate_dag g) then Err NotADag
  else
    l ← select (λ n,
          if has_edge (_graph g) n t && negb (has_edge (_graph g) n o) then
            anc ← get_ancestors o g;
            if bool_decide (n ∈ anc) then Ok false
            else desc ← get_descendants n g; Ok (bool_decide (t ∈ desc))
          else Ok false) (others t o g);
    Ok (sorted_set l).

Definition find_mediators (t o : string) (g : CausalGraph) : cresult (list string) :=
  if negb (validate_dag g) then Err NotADag
  else
    l ← select (λ n, anc ← get_ancestors o g; desc ← get_descendants t g;
                  Ok (bool_decide (n ∈ anc) && bool_decide (n ∈ desc))) (others t o g);
    Ok (sorted_set l).

(** ** Estimates *)
Definition value_of (g : CausalGraph) (n : string) : Q := default 0%Q (dget n (_node_values g)).

(** [get_edge_data(u, v)] with a default strength. *)
Definition strength_of (g : CausalGraph) (u v : string) (dflt : Q) : Q :=
  match get_edge_data (_graph g) u v with Some a => strength a | None => dflt end.

Definition Qsum (l : list Q) : Q := foldr Qplus 0%Q l.

(** The contribution of one child of the treatment. *)
Definition path_effect (g : CausalGraph) (t o c : string) : cresult Q :=
  let s := strength_of g t c 1 in
  if String.eqb c o then Ok s
  else desc ← get_descendants c g; Ok (if bool_decide (o ∈ desc) then (s * (1 # 2))%Q else 0%Q).

Fixpoint mapM_c {A B} (f : A → cresult B) (l : list A) : cresult (list B) :=
  match l with [] => Ok [] | x :: l => y ← f x; ys ← mapM_c f l; Ok (y :: ys) end.

Definition confounder_bias (g : CausalGraph) (t o c : string) : Q :=
  match get_edge_data (_graph g) c t, get_edge_data (_graph g) c o with
  | Some a, Some b => (strength a * strength b * Qabs (value_of g c))%Q
  | _, _ => 0%Q
  end.

Definition mediator_effect (g : CausalGraph) (t o m : string) : Q :=
  match get_edge_data (_graph g) t m, get_edge_data (_graph g) m o with
  | Some a, Some b => (strength a * strength b)%Q
  | _, _ => 0%Q
  end.

Definition py_round4 (x : Q) : Q := (inject_Z (round_half_even (x * 10000)) / 10000)%Q.

Definition ate_confidence (backdoor frontdoor : list string) : Q :=
  Qmaxb (1 # 10) (Qminb 1 (1 / (1 + inject_Z (Z.of_nat (length backdoor)) * (1 # 10)
                                  + inject_Z (Z.of_nat (length frontdoor)) * (1 # 20)))%Q).

(** One entry of the counterfactual table: nodes with an influenced parent. *)
Definition counterfactual_entry (g : CausalGraph) (t o : string) (influencers : list string) (acc : list (string * Q))
    (p : string * CausalNode) : cresult (list (string * Q)) :=
  let '(n, node) := p in
  if String.eqb n o || String.eqb n t then Ok acc
  else
    parents ← get_parents n g;
    if existsb (λ x, bool_decide (x ∈ influencers)) parents then
      let d := Qsum (map (λ x, strength_of g x n (1 # 2) * (1 # 10))%Q parents) in
      Ok (dset (if nonempty (cn_name node) then cn_name node else n) (value_of g n + d)%Q acc)
    else Ok acc.

Fixpoint counterfactuals (g : CausalGraph) (t o : string) (influencers : list string) (acc : list (string * Q))
    (l : list (string * CausalNode)) : cresult (list (string * Q)) :=
  match l with
  | [] => Ok acc
  | p :: l => acc ← counterfactual_entry g t o influencers acc p; counterfactuals g t o influencers acc l
  end.

Definition total_effect (direct mediated bias delta : Q) : Q :=
  Qmaxb 0 (direct * delta + mediated * delta - bias * (1 # 10))%Q.

Definition estimate_ate (t o : string) (value : Q) (g : CausalGraph) : cresult InterventionResult :=
  if negb (validate_dag g) then Err NotADag
  else
    backdoor ← find_confounders t o [] g;
    frontdoor ← find_mediators t o g;
    let current := value_of g o in
    let delta := (value - value_of g t)%Q in
    if Qeq_bool delta 0 then Ok (mkIntervention o value current 1 backdoor frontdoor None)
    else
      cs ← get_children t g;
      effects ← mapM_c (path_effect g t o) cs;
      let bias := Qsum (map (confounder_bias g t o) backdoor) in
      let mediated := Qsum (map (mediator_effect g t o) frontdoor) in
      cf ← counterfactuals g t o (t :: backdoor ++ frontdoor) [] (_nodes g);
      Ok (mkIntervention o value (py_round4 (current + total_effect (Qsum effects) mediated bias delta))
            (py_round4 (ate_confidence backdoor frontdoor)) backdoor frontdoor
            (match cf with [] => None | _ => Some cf end)).

(** The evidence stays in the graph. *)
Definition estimate_counterfactual (t o : string) (value : Q) (evidence : list (string * Q)) (g : CausalGraph)
    : CausalGraph * cresult InterventionResult :=
  let values := foldl (λ vs '(k, v), if dmem k vs then dset k v vs else vs) (_node_values g) evidence in
  let g := mkCausal (_graph g) (_nodes g) values (_node_domains g) in
  (g, estimate_ate t o value g).

(** ** Construction from requirements *)
Definition as_float (to_float : string → option Q) (j : json) : cresult Q :=
  match j with
  | JNum q => Ok q
  | JBool b => Ok (if b then 1%Q else 0%Q)
  | JStr s => match to_float s with Some q => Ok q | None => Err (PyErr ValueError) end
  | _ => Err (PyErr TypeError)
  end.

(** [category + "_" + description[:20]]; anything but strings raises. *)
Definition requirement_name (req : list (string * json)) : cresult string :=
  match default (JStr "unknown") (dget "category" req), default (JStr "") (dget "description" req) with
  | JStr c, JStr d => Ok (c +:+ "_" +:+ substring 0 20 d)
  | _, _ => Err (PyErr TypeError)
  end.

Section from_requirements.
Context (to_float : string → option Q) (ids : nat → string).

(** [k] identifiers were drawn before; the result has the graph and [req_map]. *)
Fixpoint requirement_nodes (k : nat) (reqs : list (list (string * json))) (g : CausalGraph) (req_map : list (string * string))
    : cresult (CausalGraph * list (string * string)) :=
  match reqs with
  | [] => Ok (g, req_map)
  | req :: reqs =>
      name ← requirement_name req;
      priority ← as_float to_float (default (JNum 5) (dget "priority" req));
      requirement_nodes (S k) reqs
        (add_node (mkCausalNode (ids k) name CONTINUOUS (Some (0, 10)%Q) "") priority g) (dset name (ids k) req_map)
  end.

Fixpoint requirement_edges (deps : list (string * string * Q)) (req_map : list (string * string)) (g : CausalGraph)
    : cresult CausalGraph :=
  match deps with
  | [] => Ok g
  | (s, t, w) :: deps =>
      g ← match dget s req_map, dget t req_map with
          | Some si, Some ti => if nonempty si && nonempty ti then add_edge si ti (mkAttr w 0) g else Ok g
          | _, _ => Ok g
          end;
      requirement_edges deps req_map g
  end.

Definition from_requirements (reqs : list (list (string * json))) (deps : list (string * string * Q)) : cresult CausalGraph :=
  '(g, req_map) ← requirement_nodes 0 reqs causal_init [];
  requirement_edges deps req_map g.

(** ** The engine *)
Record metrics := mkMetrics {
  graphs_built : nat;
  interventions_run : nat;
  counterfactuals_estimated : nat;
  mean_confidence : Q;
  total_confidence : Q;
}.

Record CausalEngine := mkCausalEngine {
  _enabled : bool;
  _max_counterfactuals : nat;
  _metrics : metrics;
}.

Definition fresh_metrics : metrics := mkMetrics 0 0 0 0 0.
Definition causal_engine_init (enabled : bool) (max : nat) : CausalEngine := mkCausalEngine enabled max fresh_metrics.
Definition reset_metrics (e : CausalEngine) : CausalEngine := mkCausalEngine (_enabled e) (_max_counterfactuals e) fresh_metrics.

Definition set_metrics (m : metrics) (e : CausalEngine) : CausalEngine :=
  mkCausalEngine (_enabled e) (_max_counterfactuals e) m.

(** The nodes of the constraints, named by [c["name"]] as f-strings print it. *)
Fixpoint constraint_nodes (k : nat) (names : list string) (g : CausalGraph) : CausalGraph :=
  match names with
  | [] => g
  | c :: names =>
      constraint_nodes (S k) names (add_node (mkCausalNode (ids k) ("constraint_" +:+ c) CATEGORICAL None "") 1 g)
  end.

Definition build_graph (e : CausalEngine) (reqs : list (list (string * json))) (constraints : list string)
    (deps : list (string * string * Q)) : CausalEngine * cresult CausalGraph :=
  match from_requirements reqs deps with
  | Err x => (e, Err x)
  | Ok g =>
      let m := _metrics e in
      (set_metrics (mkMetrics (graphs_built m + 1) (interventions_run m) (counterfactuals_estimated m) (mean_confidence m)
         (total_confidence m)) e, Ok (constraint_nodes (length reqs) constraints g))
  end.

Definition counted (r : InterventionResult) (m : metrics) : metrics :=
  let n := counterfactuals_estimated m + 1 in
  let total := (total_confidence m + confidence r)%Q in
  mkMetrics (graphs_built m) (interventions_run m + 1) n (total / inject_Z (Z.of_nat (max 1 n)))%Q total.

Definition analyze_counterfactual (e : CausalEngine) (g : CausalGraph) (t o : string) (value : Q)
    : CausalEngine * cresult (option InterventionResult) :=
  if negb (_enabled e) then (e, Ok None)
  else if negb (has_node t g) then (e, Ok None)
  else if negb (has_node o g) then (e, Ok None)
  else match estimate_ate t o value g with
       | Err x => (e, Err x)
       | Ok r => (set_metrics (counted r (_metrics e)) e, Ok (Some r))
       end.

Record analysis := mkAnalysis {
  variable : string;
  intervention_1x : Q * Q;
  intervention_2x : option (Q * Q);
  an_backdoor : list string;
  an_mediators : list string;
}.

Fixpoint analyze_nodes (e : CausalEngine) (g : CausalGraph) (main : string) (count : nat) (l : list CausalNode)
    (results : list analysis) : CausalEngine * cresult (list analysis) :=
  match l with
  | [] => (e, Ok results)
  | node :: l =>
      if (_max_counterfactuals e <=? count)%nat then (e, Ok results)
      else if String.eqb (cn_id node) main then analyze_nodes e g main count l results
      else
        let '(e, r) := analyze_counterfactual e g (cn_id node) main 1 in
        match r with
        | Err x => (e, Err x)
        | Ok None => analyze_nodes e g main count l results
        | Ok (Some r) =>
            let '(e, alt) := analyze_counterfactual e g (cn_id node) main 2 in
            match alt with
            | Err x => (e, Err x)
            | Ok alt =>
                analyze_nodes e g main (count + 1) l
                  (results ++ [mkAnalysis (if nonempty (cn_name node) then cn_name node else cn_id node)
                     (estimated_effect r, confidence r) ((λ a, (estimated_effect a, confidence a)) <$> alt)
                     (backdoor_variables r) (frontdoor_variables r)])
            end
        end
  end.

Definition analyze_all_counterfactuals (e : CausalEngine) (g : CausalGraph) : CausalEngine * cresult (list analysis) :=
  if negb (_enabled e) then (e, Ok [])
  else
    let nodes := get_all_nodes g in
    let main := match last nodes with Some n => cn_id n | None => "" end in
    if nonempty main then analyze_nodes e g main 0 nodes [] else (e, Ok []).
End from_requirements.
End causal.

(** ** Well-formed graphs

    The dictionaries and networkx agree on the nodes; a node is stored under its id. *)
Section queries.
Context {G : Type} `{!DiGraph edge_attr G, !DiGraphLaws edge_attr G}.
Implicit Types g : @CausalGraph G.

Record causal_wf g : Prop := {
  wf_nodes : ∀ n, n ∈ nx_nodes (_graph g) ↔ n ∈ node_ids g;
  wf_nodup : NoDup (node_ids g);
  wf_ids : ∀ n node, (n, node) ∈ _nodes g → cn_id node = n;
}.

Lemma has_node_true n g : has_node n g = true ↔ n ∈ node_ids g.
Proof. unfold has_node, dmem, node_ids. by rewrite bool_decide_eq_true, dget_is_Some. Qed.

Lemma causal_init_wf : causal_wf causal_init.
Proof. split; cbn; [intros n; by rewrite empty_nodes|constructor|intros ? ? Hi; by apply not_elem_of_nil in Hi]. Qed.

Lemma add_node_wf node v g : causal_wf g → causal_wf (add_node node v g).
Proof.
  intros [Hn Hd Hi]. split; unfold node_ids in *; cbn.
  - intros n. by rewrite add_node_nodes, elem_of_dset_keys, Hn.
  - by apply dset_keys_NoDup.
  - intros n nd Hin%dget_mem; [|by apply dset_keys_NoDup]. rewrite dget_dset in Hin. case_decide; [congruence|].
    by apply Hi, dget_Some_mem.
Qed.

Lemma add_edge_ok s t a g :
  causal_wf g → s ∈ node_ids g → t ∈ node_ids g →
  ∃ g', add_edge s t a g = Ok g' ∧ causal_wf g' ∧ _nodes g' = _nodes g ∧ _node_values g' = _node_values g
    ∧ ∀ u v, get_edge_data (_graph g') u v
             = if decide ((u, v) = (s, t)) then Some a else get_edge_data (_graph g) u v.
Proof.
  intros [Hn Hd Hi] Hs Ht. unfold add_edge.
  rewrite (proj2 (has_node_true s g) Hs), (proj2 (has_node_true t g) Ht). cbn [negb orb].
  eexists. split; [done|]. split; [|split; [done|]; split; [done|intros; apply add_edge_edges]].
  split; unfold node_ids in *; cbn; [|done..]. intros n. rewrite add_edge_nodes, Hn. naive_solver.
Qed.

Lemma remove_node_wf n g g' : causal_wf g → remove_node n g = (g', Ok ()) → causal_wf g'.
Proof.
  intros [Hn Hd Hi]. unfold remove_node. destruct (nx_remove_node n (_graph g)) as [h|] eqn:E; [|done].
  intros [= <-]. split; unfold node_ids in *; cbn.
  - intros x. rewrite (remove_node_nodes n (_graph g) h x E), Hn, <- !dget_is_Some, dget_ddel.
    case_decide; [|naive_solver]. split; [naive_solver|by intros [? ?]].
  - eapply sublist_NoDup; [exact Hd|apply ddel_keys_sub].
  - intros x nd Hin%dget_mem; [|eapply sublist_NoDup; [exact Hd|apply ddel_keys_sub]].
    rewrite dget_ddel in Hin. case_decide; [done|]. by apply Hi, dget_Some_mem.
Qed.

(** ** The queries *)
Lemma select_exact f (P : string → Prop) l :
  (∀ n, n ∈ l → ∃ b, f n = Ok b ∧ (b = true ↔ P n)) → ∃ r, select f l = Ok r ∧ ∀ x, x ∈ r ↔ x ∈ l ∧ P x.
Proof.
  induction l as [|n l IH]; intros Hf; [exists []; split; [done|set_solver]|].
  destruct (Hf n) as (b & E & Hb); [by left|]. destruct IH as (r & Er & Hr); [intros; apply Hf; by right|].
  cbn [select]. rewrite E, Er. bindsimp. eexists. split; [done|]. intros x.
  destruct b; rewrite ?elem_of_cons, Hr; [|naive_solver].
  split; [|naive_solver]. intros [->|?]; [split; [by left|by apply Hb]|naive_solver].
Qed.

Lemma elem_of_sorted_set x l : x ∈ sorted_set l ↔ x ∈ l.
Proof. unfold sorted_set, sorted_strings. by rewrite merge_sort_Permutation, elem_of_remove_dups. Qed.

(** A sorted duplicate-free list of the nodes that satisfy [P]. *)
Definition lists (r : cresult (list string)) (P : string → Prop) : Prop :=
  ∃ l, r = Ok l ∧ StronglySorted string_le l ∧ NoDup l ∧ ∀ n, n ∈ l ↔ P n.

Lemma select_lists f (P Q : string → Prop) l :
  (∀ n, n ∈ l → ∃ b, f n = Ok b ∧ (b = true ↔ P n)) → (∀ n, n ∈ l ∧ P n ↔ Q n) →
  lists (l ← select f l; Ok (sorted_set l)) Q.
Proof.
  intros Hf HQ. destruct (select_exact f P l Hf) as (r & -> & Hr). bindsimp.
  eexists. split; [done|]. split; [apply StronglySorted_merge_sort; apply _|]. split.
  - unfold sorted_set, sorted_strings. rewrite merge_sort_Permutation. apply NoDup_remove_dups.
  - intros n. by rewrite elem_of_sorted_set, Hr.
Qed.

Lemma lists_nil r P : lists r P → (∀ n, ¬ P n) → r = Ok [].
Proof. intros (l & -> & _ & _ & Hl) Hn. destruct l as [|x l]; [done|]. destruct (Hn x). apply Hl. by left. Qed.

Lemma elem_of_others n t o g : n ∈ others t o g ↔ n ≠ t ∧ n ≠ o ∧ n ∈ node_ids g.
Proof. unfold others. rewrite list_elem_of_filter. tauto. Qed.

Lemma tc_edge_nodes (h : G) u v : tc (edge h) u v → u ∈ nx_nodes h ∧ v ∈ nx_nodes h.
Proof. induction 1 as [u v E|u v w E _ IH]; destruct (edge_nodes h u v E); naive_solver. Qed.

(** The query of a known node, in the error monad. *)
Lemma asked (h : G) f P n : answers h f P → n ∈ nx_nodes h → ∃ l, nx (f h n) = Ok l ∧ NoDup l ∧ ∀ x, x ∈ l ↔ P x n.
Proof. intros Ha Hn. destruct (Ha n) as [_ (l & -> & Hl)]; [done|]. by exists l. Qed.

Section dag.
Context (g : @CausalGraph G) (Hwf : causal_wf g) (Hdag : acyclic (_graph g)).

Lemma dag_valid : validate_dag g = true.
Proof using Hdag DiGraphLaws0. by apply is_dag_spec. Qed.

Lemma has_edge_true u v : has_edge (_graph g) u v = true ↔ edge (_graph g) u v.
Proof. apply bool_decide_eq_true. Qed.

Lemma confounders_list t o ex :
  t ∈ node_ids g → o ∈ node_ids g →
  lists (find_confounders t o ex g) (λ n, n ≠ t ∧ n ≠ o ∧ n ∉ ex ∧ edge (_graph g) n t ∧ edge (_graph g) n o).
Proof using Hwf Hdag DiGraphLaws0.
  intros Ht Ho. unfold find_confounders. rewrite dag_valid, (proj2 (has_node_true t g) Ht), (proj2 (has_node_true o g) Ho).
  cbn [negb]. destruct (asked (_graph g) predecessors _ o (predecessors_spec _)) as (ps & E & _ & Hps); [by apply wf_nodes|].
  eapply (select_lists _ (λ n, edge (_graph g) n t ∧ edge (_graph g) n o)).
  - intros n _. unfold get_parents. rewrite E. bindsimp. eexists. split; [done|].
    rewrite andb_true_iff, bool_decide_eq_true, has_edge_true, Hps. tauto.
  - intros n. rewrite list_elem_of_filter, elem_of_others. split; [tauto|]. intros (? & ? & ? & He & ?).
    split; [|done]. repeat (split; [done|]). by apply (wf_nodes g), (edge_nodes _ n t).
Qed.

Lemma mediators_list t o :
  t ∈ node_ids g → o ∈ node_ids g →
  lists (find_mediators t o g) (λ n, n ≠ t ∧ n ≠ o ∧ tc (edge (_graph g)) t n ∧ tc (edge (_graph g)) n o).
Proof using Hwf Hdag DiGraphLaws0.
  intros Ht Ho. unfold find_mediators. rewrite dag_valid. cbn [negb].
  destruct (asked (_graph g) ancestors _ o (ancestors_spec _)) as (an & Ea & _ & Ha); [by apply wf_nodes|].
  destruct (asked (_graph g) descendants _ t (descendants_spec _)) as (ds & Ed & _ & Hd); [by apply wf_nodes|].
  eapply (select_lists _ (λ n, n ≠ t ∧ n ≠ o ∧ tc (edge (_graph g)) t n ∧ tc (edge (_graph g)) n o)).
  - intros n (Hnt & Hno & _)%elem_of_others. unfold get_ancestors, get_descendants. rewrite Ea, Ed. bindsimp.
    eexists. split; [done|]. rewrite andb_true_iff, !bool_decide_eq_true, Ha, Hd. tauto.
  - intros n. rewrite elem_of_others. split; [tauto|]. intros (? & ? & H1 & H2). split; [|done]. repeat (split; [done|]).
    by apply (wf_nodes g), (tc_edge_nodes _ n o).
Qed.

Lemma instruments_list t o :
  t ∈ node_ids g → o ∈ node_ids g →
  lists (find_instruments t o g) (λ n, n ≠ t ∧ n ≠ o ∧ edge (_graph g) n t ∧ ¬ tc (edge (_graph g)) n o).
Proof using Hwf Hdag DiGraphLaws0.
  intros Ht Ho. unfold find_instruments. rewrite dag_valid. cbn [negb].
  destruct (asked (_graph g) ancestors _ o (ancestors_spec _)) as (an & Ea & _ & Ha); [by apply wf_nodes|].
  eapply (select_lists _ (λ n, edge (_graph g) n t ∧ ¬ tc (edge (_graph g)) n o)).
  - intros n (Hnt & Hno & Hn)%elem_of_others. unfold get_ancestors, get_descendants.
    destruct (has_edge (_graph g) n t) eqn:E1; cbn [andb].
    2: { exists false. split; [done|]. rewrite <- has_edge_true, E1. naive_solver. }
    apply has_edge_true in E1.
    destruct (has_edge (_graph g) n o) eqn:E2; cbn [negb].
    { exists false. split; [done|]. apply has_edge_true in E2. split; [done|]. intros [_ []]. by apply tc_once. }
    rewrite Ea. bindsimp. destruct (bool_decide (n ∈ an)) eqn:E3.
    { exists false. split; [done|]. apply bool_decide_eq_true, Ha in E3. naive_solver. }
    destruct (asked (_graph g) descendants _ n (descendants_spec _)) as (ds & Ed & _ & Hd); [by apply wf_nodes|].
    rewrite Ed. bindsimp. eexists. split; [done|]. rewrite bool_decide_eq_true, Hd.
    apply bool_decide_eq_false in E3. rewrite Ha in E3. split; [naive_solver|].
    intros _. split; [done|by apply tc_once].
  - intros n. rewrite elem_of_others. split; [tauto|]. intros (? & ? & H1 & ?). split; [|done]. repeat (split; [done|]).
    by apply (wf_nodes g), (edge_nodes _ n t).
Qed.

(** ** Estimates *)
Lemma mapM_c_ok {A B} (f : A → cresult B) l :
  (∀ x, x ∈ l → ∃ y, f x = Ok y) → ∃ ys, mapM_c f l = Ok ys.
Proof.
  induction l as [|x l IH]; intros Hf; [by eexists|]. destruct (Hf x) as [y Ey]; [by left|].
  destruct IH as [ys Eys]; [intros; apply Hf; by right|]. cbn [mapM_c]. rewrite Ey, Eys. by eexists.
Qed.

Lemma counterfactuals_ok t o inf acc l :
  (∀ p, p ∈ l → p.1 ∈ node_ids g) → ∃ cf, counterfactuals g t o inf acc l = Ok cf.
Proof using Hwf DiGraphLaws0.
  revert acc. induction l as [|[n node] l IH]; intros acc Hl; [by eexists|]. cbn [counterfactuals].
  assert (∃ acc', counterfactual_entry g t o inf acc (n, node) = Ok acc') as [acc' ->].
  { unfold counterfactual_entry. destruct (String.eqb n o || String.eqb n t); [by eexists|].
    destruct (asked (_graph g) predecessors _ n (predecessors_spec _)) as (ps & E & _).
    { apply (wf_nodes g Hwf), (Hl (n, node)). by left. }
    unfold get_parents. rewrite E. bindsimp. destruct (existsb _ ps); by eexists. }
  bindsimp. apply IH. intros p Hp. apply Hl. by right.
Qed.

Lemma path_effects t o :
  t ∈ node_ids g → ∃ cs, get_children t g = Ok cs ∧ (∀ c, c ∈ cs ↔ edge (_graph g) t c)
    ∧ ∃ es, mapM_c (path_effect g t o) cs = Ok es.
Proof using Hwf DiGraphLaws0.
  intros Ht. destruct (asked (_graph g) successors _ t (successors_spec _)) as (cs & E & _ & Hcs); [by apply wf_nodes|].
  exists cs. split; [done|]. split; [done|]. apply mapM_c_ok. intros c Hc. unfold path_effect.
  destruct (String.eqb c o); [by eexists|]. apply Hcs, edge_nodes in Hc as [_ Hc].
  destruct (asked (_graph g) descendants _ c (descendants_spec _)) as (ds & Ed & _); [done|].
  unfold get_descendants. rewrite Ed. bindsimp. by eexists.
Qed.
End dag.

Lemma total_effect_nonneg d m b x : (0 <= total_effect d m b x)%Q.
Proof. unfold total_effect. apply Qmaxb_spec. Qed.

Lemma round_half_even_mono x y : (x <= y)%Q → (round_half_even x <= round_half_even y)%Z.
Proof.
  intros Hxy. destruct (Z.le_gt_cases (round_half_even x) (round_half_even y)) as [|Hgt]; [done|].
  pose proof (round_half_even_err x) as [_ Hx]. pose proof (round_half_even_err y) as [Hy _].
  assert (inject_Z (round_half_even y) + 1 <= inject_Z (round_half_even x))%Q as Hq.
  { change 1%Q with (inject_Z 1). rewrite <- inject_Z_plus, <- Zle_Qle. lia. }
  assert (x == y)%Q as E by lra. rewrite E in Hgt. lia.
Qed.

Lemma py_round4_mono x y : (x <= y)%Q → (py_round4 x <= py_round4 y)%Q.
Proof.
  intros Hxy. unfold py_round4. unfold Qdiv. apply Qmult_le_compat_r; [|done].
  rewrite <- Zle_Qle. apply round_half_even_mono. lra.
Qed.

Lemma ate_confidence_bounds b f : (1 # 10 <= ate_confidence b f <= 1)%Q.
Proof.
  unfold ate_confidence. match goal with |- context [Qminb 1 ?q] => generalize q end. intros x.
  pose proof (Qminb_spec 1 x) as (H1 & _). pose proof (Qmaxb_spec (1 # 10) (Qminb 1 x)) as (H2 & _ & [E|E]);
    split; try exact H2; rewrite E; [done|exact H1].
Qed.

(** What [estimate_ate] promises about [t] and [o]. *)
Record estimate_spec g (t o : string) (v : Q) (r : InterventionResult) : Prop := {
  es_target : target_variable r = o;
  es_confidence : (1 # 10 <= confidence r <= 1)%Q;
  es_effect : (py_round4 (value_of g o) <= estimated_effect r)%Q ∨ (v == value_of g t ∧ estimated_effect r = value_of g o)%Q;
  es_backdoor : ∀ n, n ∈ backdoor_variables r ↔ n ≠ t ∧ n ≠ o ∧ edge (_graph g) n t ∧ edge (_graph g) n o;
  es_frontdoor : ∀ n, n ∈ frontdoor_variables r ↔ n ≠ t ∧ n ≠ o ∧ tc (edge (_graph g)) t n ∧ tc (edge (_graph g)) n o;
}.

Lemma estimate_ate_ok g t o v :
  causal_wf g → acyclic (_graph g) → t ∈ node_ids g → o ∈ node_ids g →
  ∃ r, estimate_ate t o v g = Ok r ∧ estimate_spec g t o v r.
Proof.
  intros Hwf Hdag Ht Ho. unfold estimate_ate. rewrite dag_valid by done. cbn [negb].
  destruct (confounders_list g Hwf Hdag t o [] Ht Ho) as (bd & -> & _ & _ & Hb). bindsimp.
  destruct (mediators_list g Hwf Hdag t o Ht Ho) as (fd & -> & _ & _ & Hf). bindsimp.
  destruct (Qeq_bool (v - value_of g t) 0) eqn:Eq.
  { eexists. split; [done|]. apply Qeq_bool_iff in Eq. split; cbn; [done|lra|right; split; [lra|done]| |done].
    intros n. rewrite Hb. set_solver. }
  destruct (path_effects g Hwf t o Ht) as (cs & -> & _ & es & Ees). bindsimp. rewrite Ees. bindsimp.
  destruct (counterfactuals_ok g Hwf t o (t :: bd ++ fd) [] (_nodes g)) as [cf ->].
  { intros [n nd] Hin. apply list_elem_of_fmap. by exists (n, nd). }
  bindsimp. eexists. split; [done|]. split; cbn; [done| |left|intros n; rewrite Hb; set_solver|done].
  - destruct (ate_confidence_bounds bd fd) as [H1 H2]. apply py_round4_mono in H1, H2.
    change (py_round4 (1 # 10)) with (1000 # 10000)%Q in H1. change (py_round4 1) with (10000 # 10000)%Q in H2. lra.
  - apply py_round4_mono. pose proof (total_effect_nonneg (Qsum es) (Qsum (map (mediator_effect g t o) fd))
      (Qsum (map (confounder_bias g t o) bd)) (v - value_of g t)). lra.
Qed.

(** On a cyclic graph every causal query refuses. *)
Lemma cyclic_refused g t o v :
  ¬ acyclic (_graph g) →
  find_confounders t o [] g = Err NotADag ∧ find_instruments t o g = Err NotADag ∧ find_mediators t o g = Err NotADag
  ∧ estimate_ate t o v g = Err NotADag.
Proof.
  intros Hc. assert (validate_dag g = false) as E.
  { unfold validate_dag. destruct (is_directed_acyclic_graph (_graph g)) eqn:E; [|done]. by apply is_dag_spec in E. }
  unfold find_confounders, find_instruments, find_mediators, estimate_ate. by rewrite E.
Qed.
End queries.

(** ** From requirements to an analysis *)
Definition req_dict (r : norm_requirement) : list (string * json) :=
  [("category", JStr (category r)); ("description", JStr (description r)); ("priority", JNum (inject_Z (priority r)))].

Section analysis.
Context {G : Type} `{!DiGraph edge_attr G, !DiGraphLaws edge_attr G}.
Context (to_float : string → option Q) (ids : nat → string).
Implicit Types g : @CausalGraph G.

(** [g'] is [g] with the nodes [new] added and no edges. *)
Record extends g g' (new : list string) : Prop := {
  ext_wf : causal_wf g';
  ext_ids : node_ids g' = node_ids g ++ new;
  ext_edges : ∀ u v, get_edge_data (_graph g') u v = get_edge_data (_graph g) u v;
  ext_values : ∀ n, n ∈ node_ids g → value_of g' n = value_of g n;
}.

Lemma extends_refl g : causal_wf g → extends g g [].
Proof. intros Hwf. split; [done|by rewrite app_nil_r|done..]. Qed.

Lemma extends_trans g1 g2 g3 l k : extends g1 g2 l → extends g2 g3 k → extends g1 g3 (l ++ k).
Proof.
  intros [W1 I1 E1 V1] [W2 I2 E2 V2]. split; [done|by rewrite I2, I1, app_assoc|intros; by rewrite E2|].
  intros n Hn. rewrite V2; [by apply V1|]. rewrite I1. set_solver.
Qed.

Lemma add_fresh g node v :
  causal_wf g → cn_id node ∉ node_ids g →
  extends g (add_node node v g) [cn_id node] ∧ value_of (add_node node v g) (cn_id node) = v.
Proof.
  intros Hwf Hf. split; [split|].
  - by apply add_node_wf.
  - unfold node_ids, add_node. cbn. rewrite dset_keys_fresh by done. by rewrite fmap_app.
  - intros. apply add_node_edges.
  - intros n Hn. unfold value_of, add_node. cbn. rewrite dget_dset_ne; [done|]. by intros ->.
  - unfold value_of, add_node. cbn. by rewrite dget_dset_eq.
Qed.

Lemma fresh_tail k n g g1 :
  extends g g1 [ids k] → ids k ∉ map ids (seq (S k) n) → (∀ i, i < S n → ids (k + i) ∉ node_ids g) →
  ∀ i, i < n → ids (S k + i) ∉ node_ids g1.
Proof.
  intros Hext Hk Hfresh i Hi. rewrite (ext_ids _ _ _ Hext). intros [Hin|Hin]%elem_of_app.
  - apply (Hfresh (S i)); [lia|]. by rewrite <- Nat.add_succ_comm.
  - apply list_elem_of_singleton in Hin. apply Hk. rewrite <- Hin. apply list_elem_of_fmap.
    exists (S k + i). split; [done|]. apply elem_of_seq. lia.
Qed.

Lemma requirement_nodes_ok rs k g m :
  causal_wf g → NoDup (map ids (seq k (length rs))) → (∀ i, i < length rs → ids (k + i) ∉ node_ids g) →
  NoDup (map _dependency_node_name rs) →
  ∃ g' m', requirement_nodes to_float ids k (map req_dict rs) g m = Ok (g', m')
    ∧ extends g g' (map ids (seq k (length rs)))
    ∧ (∀ i r, rs !! i = Some r → dget (_dependency_node_name r) m' = Some (ids (k + i))
         ∧ value_of g' (ids (k + i)) = inject_Z (priority r))
    ∧ (∀ x, x ∉ map _dependency_node_name rs → dget x m' = dget x m).
Proof.
  revert k g m. induction rs as [|r rs IH]; intros k g m Hwf Hids Hfresh Hnames.
  { exists g, m. split; [done|]. split; [by apply extends_refl|]. split; [|done]. by intros i r ?. }
  cbn [map length seq] in *. apply NoDup_cons in Hids as [Hk Hids]. apply NoDup_cons in Hnames as [Hn Hnames].
  pose proof (Hfresh 0 ltac:(lia)) as Hf. rewrite Nat.add_0_r in Hf.
  change (requirement_nodes to_float ids k (req_dict r :: map req_dict rs) g m) with
    (requirement_nodes to_float ids (S k) (map req_dict rs)
       (add_node (mkCausalNode (ids k) (_dependency_node_name r) CONTINUOUS (Some (0, 10)%Q) "") (inject_Z (priority r)) g)
       (dset (_dependency_node_name r) (ids k) m)).
  destruct (add_fresh g (mkCausalNode (ids k) (_dependency_node_name r) CONTINUOUS (Some (0, 10)%Q) "")
              (inject_Z (priority r)) Hwf Hf) as [Hext Hval].
  match type of Hext with extends _ ?x _ => set (g1 := x) in * end. cbn [cn_id] in Hext, Hval.
  destruct (IH (S k) g1 (dset (_dependency_node_name r) (ids k) m)) as (g' & m' & E & Hext' & Hrs & Hm);
    [apply Hext|done|by eapply fresh_tail|done|].
  exists g', m'. split; [done|]. split; [exact (extends_trans _ _ _ _ _ Hext Hext')|]. split.
  - intros [|i] r' Hr'; cbn in Hr'; [simplify_eq|rewrite <- Nat.add_succ_comm; by apply Hrs].
    rewrite Nat.add_0_r. split.
    + rewrite Hm by done. apply dget_dset_eq.
    + rewrite (ext_values _ _ _ Hext'); [done|]. rewrite (ext_ids _ _ _ Hext). set_solver.
  - intros x [Hx1 Hx2]%not_elem_of_cons. rewrite Hm by done. by apply dget_dset_ne.
Qed.

(** Edges only go from larger to smaller values. *)
Definition descending g : Prop := ∀ u v, edge (_graph g) u v → (value_of g v < value_of g u)%Q.

Lemma descending_acyclic g : descending g → acyclic (_graph g).
Proof.
  intros Hd n Hn.
  assert (∀ u v, tc (edge (_graph g)) u v → (value_of g v < value_of g u)%Q) as H.
  { induction 1 as [u v E|u v w E _ IH]; [by apply Hd|]. specialize (Hd u v E). lra. }
  specialize (H n n Hn). lra.
Qed.

Lemma requirement_edges_ok deps m g :
  causal_wf g → descending g →
  (∀ s t w si ti, (s, t, w) ∈ deps → dget s m = Some si → dget t m = Some ti →
     si ∈ node_ids g ∧ ti ∈ node_ids g ∧ (value_of g ti < value_of g si)%Q) →
  ∃ g', requirement_edges deps m g = Ok g' ∧ causal_wf g' ∧ descending g' ∧ _nodes g' = _nodes g
    ∧ _node_values g' = _node_values g.
Proof.
  revert g. induction deps as [|[[s t] w] deps IH]; intros g Hwf Hd Hdeps; [by exists g|]. cbn [requirement_edges].
  assert (∃ g1, match dget s m, dget t m with
                | Some si, Some ti => if nonempty si && nonempty ti then add_edge si ti (mkAttr w 0) g else Ok g
                | _, _ => Ok g
                end = Ok g1 ∧ causal_wf g1 ∧ descending g1 ∧ _nodes g1 = _nodes g ∧ _node_values g1 = _node_values g)
    as (g1 & -> & Hwf1 & Hd1 & En & Ev).
  { destruct (dget s m) as [si|] eqn:Es; [|by exists g]. destruct (dget t m) as [ti|] eqn:Et; [|by exists g].
    destruct (nonempty si && nonempty ti); [|by exists g].
    destruct (Hdeps s t w si ti) as (Hs & Ht & Hlt); [by left|done..|].
    destruct (add_edge_ok si ti (mkAttr w 0) g Hwf Hs Ht) as (g1 & E & Hwf1 & En & Ev & Hedge).
    exists g1. repeat (split; [done|]). split; [|done]. intros u v. unfold edge. rewrite Hedge. unfold value_of.
    rewrite Ev. case_decide; [intros _; simplify_eq; exact Hlt|]. apply Hd. }
  bindsimp. destruct (IH g1 Hwf1 Hd1) as (g' & E & Hwf' & Hd' & En' & Ev').
  { intros s' t' w' si ti Hin Hs Ht. unfold node_ids, value_of. rewrite En, Ev.
    apply (Hdeps s' t' w'); [by right|done..]. }
  exists g'. by rewrite En', Ev', En, Ev.
Qed.

Lemma constraint_nodes_ok cs k g :
  causal_wf g → NoDup (map ids (seq k (length cs))) → (∀ i, i < length cs → ids (k + i) ∉ node_ids g) →
  extends g (constraint_nodes ids k cs g) (map ids (seq k (length cs)))
  ∧ ∀ i, i < length cs → value_of (constraint_nodes ids k cs g) (ids (k + i)) = 1%Q.
Proof.
  revert k g. induction cs as [|c cs IH]; intros k g Hwf Hids Hfresh; [split; [by apply extends_refl|cbn; lia]|].
  cbn [map length seq constraint_nodes] in *. apply NoDup_cons in Hids as [Hk Hids].
  pose proof (Hfresh 0 ltac:(lia)) as Hf. rewrite Nat.add_0_r in Hf.
  destruct (add_fresh g (mkCausalNode (ids k) ("constraint_" +:+ c) CATEGORICAL None "") 1 Hwf Hf) as [Hext Hval].
  match type of Hext with extends _ ?x _ => set (g1 := x) in * end. cbn [cn_id] in Hext, Hval.
  destruct (IH (S k) g1) as [Hext' Hv]; [apply Hext|done|by eapply fresh_tail|].
  split; [exact (extends_trans _ _ _ _ _ Hext Hext')|].
  intros [|i] Hi; [|rewrite <- Nat.add_succ_comm; apply Hv; lia].
  rewrite Nat.add_0_r, (ext_values _ _ _ Hext'); [done|]. rewrite (ext_ids _ _ _ Hext). set_solver.
Qed.

Lemma elem_of_enumerate {A} (l : list A) k i x : (i, x) ∈ enumerate k l → k ≤ i ∧ l !! (i - k) = Some x.
Proof.
  revert k. induction l as [|y l IH]; intros k Hin; [by apply not_elem_of_nil in Hin|].
  cbn [enumerate] in Hin. apply elem_of_cons in Hin as [E|Hin]; [simplify_eq; by rewrite Nat.sub_diag|].
  apply IH in Hin as [Hle Hl]. split; [lia|]. replace (i - k) with (S (i - S k)) by lia. done.
Qed.

Lemma elem_of_concat {A} (x : A) ls : x ∈ concat ls ↔ ∃ l, x ∈ l ∧ l ∈ ls.
Proof. rewrite list_elem_of_In, in_concat. setoid_rewrite list_elem_of_In. naive_solver. Qed.

Lemma elem_of_dependencies rs s t w :
  (s, t, w) ∈ dependencies rs →
  ∃ i j r o, rs !! i = Some r ∧ rs !! j = Some o ∧ (priority o < priority r)%Z
    ∧ s = _dependency_node_name r ∧ t = _dependency_node_name o.
Proof.
  unfold dependencies. intros (l & Hl & ([i r] & -> & Hi)%list_elem_of_fmap)%elem_of_concat.
  apply elem_of_concat in Hl as (l & Hl & ([j o] & -> & Hj)%list_elem_of_fmap).
  apply elem_of_enumerate in Hi as [_ Hi], Hj as [_ Hj]. rewrite Nat.sub_0_r in Hi, Hj.
  destruct (i =? j)%nat; [by apply not_elem_of_nil in Hl|].
  destruct (priority o <? priority r)%Z eqn:Hp; [|by apply not_elem_of_nil in Hl].
  apply list_elem_of_singleton in Hl. simplify_eq. exists i, j, r, o. by rewrite <- Z.ltb_lt.
Qed.

(** The graph [_compute_counterfactuals_blocking] builds. *)
Lemma build_graph_ok e rs cs :
  NoDup (map ids (seq 0 (length rs + length cs))) → NoDup (map _dependency_node_name rs) →
  ∃ e' g, build_graph to_float ids e (map req_dict rs) cs (dependencies rs) = (e', Ok g)
    ∧ _enabled e' = _enabled e ∧ _max_counterfactuals e' = _max_counterfactuals e
    ∧ counterfactuals_estimated (_metrics e') = counterfactuals_estimated (_metrics e)
    ∧ causal_wf g ∧ acyclic (_graph g) ∧ node_ids g = map ids (seq 0 (length rs + length cs))
    ∧ ∀ i, length rs ≤ i < length rs + length cs →
        value_of g (ids i) = 1%Q ∧ ∀ u, ¬ edge (_graph g) u (ids i) ∧ ¬ edge (_graph g) (ids i) u.
Proof.
  intros Hids Hnames. rewrite seq_app, map_app in Hids. apply NoDup_app in Hids as (Hids1 & Hdisj & Hids2).
  destruct (requirement_nodes_ok rs 0 (@causal_init G _) [] causal_init_wf Hids1) as (g1 & m & E1 & Hext & Hrs & Hm);
    [intros i _; apply not_elem_of_nil|done|].
  destruct (requirement_edges_ok (dependencies rs) m g1) as (g2 & E2 & Hwf2 & Hd2 & En & Ev); [apply Hext| | |].
  { intros u v. unfold edge. rewrite (ext_edges _ _ _ Hext). cbn. rewrite empty_edges. by intros [? ?]. }
  { intros s t w si ti (i & j & r & o & Hi & Hj & Hp & -> & ->)%elem_of_dependencies Hs Ht.
    destruct (Hrs i r Hi) as [Hs' Vs]. destruct (Hrs j o Hj) as [Ht' Vt]. simplify_eq. rewrite Vs, Vt.
    rewrite (ext_ids _ _ _ Hext). cbn. apply lookup_lt_Some in Hi, Hj.
    split_and!; [| |by rewrite <- Zlt_Qlt]; apply list_elem_of_fmap; eexists; (split; [done|]); apply elem_of_seq; lia. }
  assert (node_ids g2 = map ids (seq 0 (length rs))) as Hn2.
  { unfold node_ids. rewrite En. apply (ext_ids _ _ _ Hext). }
  assert (∀ i, length rs ≤ i < length rs + length cs → ids i ∉ node_ids g2) as Hfresh.
  { intros i Hi. rewrite Hn2. intros Hin. apply (Hdisj _ Hin). apply list_elem_of_fmap. exists i. split; [done|].
    apply elem_of_seq. lia. }
  destruct (constraint_nodes_ok cs (length rs) g2 Hwf2 Hids2) as [Hext3 Hv]; [intros; apply Hfresh; lia|].
  unfold build_graph, from_requirements. rewrite E1. bindsimp. rewrite E2. rewrite length_map.
  eexists _, _. split; [done|]. cbn [_enabled _max_counterfactuals _metrics set_metrics counterfactuals_estimated].
  do 3 (split; [done|]). split; [apply Hext3|]. split.
  { intros n Hn. apply (descending_acyclic g2 Hd2 n). revert Hn. generalize n at 2 4. intros n' Hn.
    induction Hn as [u v E|u v w E _ IH]; unfold edge in E; rewrite (ext_edges _ _ _ Hext3) in E; [by apply tc_once|by eapply tc_l]. }
  split; [by rewrite (ext_ids _ _ _ Hext3), Hn2, seq_app, map_app|].
  intros i Hi. split; [replace i with (length rs + (i - length rs)) by lia; apply Hv; lia|].
  intros u. unfold edge. rewrite !(ext_edges _ _ _ Hext3).
  split; intros He; apply edge_nodes in He as [? ?]; apply (Hfresh i Hi); by apply wf_nodes.
Qed.

(** ** The analysis *)
Lemma analyze_ok e g t o v :
  causal_wf g → acyclic (_graph g) → t ∈ node_ids g → o ∈ node_ids g → _enabled e = true →
  ∃ r, analyze_counterfactual e g t o v = (set_metrics (counted r (_metrics e)) e, Ok (Some r))
    ∧ estimate_ate t o v g = Ok r.
Proof.
  intros Hwf Hd Ht Ho He. unfold analyze_counterfactual.
  rewrite He, (proj2 (has_node_true t g) Ht), (proj2 (has_node_true o g) Ho). cbn [negb].
  destruct (estimate_ate_ok g t o v Hwf Hd Ht Ho) as (r & E & _). exists r. by rewrite E.
Qed.

(** One result of the analysis, with the two estimates behind it. *)
Definition result_of_node g (main : string) (a : analysis) : Prop :=
  ∃ n r1 r2, n ∈ node_ids g ∧ estimate_ate n main 1 g = Ok r1 ∧ estimate_ate n main 2 g = Ok r2
    ∧ intervention_1x a = (estimated_effect r1, confidence r1) ∧ intervention_2x a = Some (estimated_effect r2, confidence r2)
    ∧ an_backdoor a = backdoor_variables r1 ∧ an_mediators a = frontdoor_variables r1.

Lemma analyze_nodes_ok e g main count l acc :
  causal_wf g → acyclic (_graph g) → main ∈ node_ids g → _enabled e = true → (∀ n, n ∈ l → cn_id n ∈ node_ids g) →
  ∃ e' rs, analyze_nodes e g main count l acc = (e', Ok (acc ++ rs))
    ∧ length rs = min (_max_counterfactuals e - count) (length (filter (λ n, cn_id n ≠ main) l))
    ∧ counterfactuals_estimated (_metrics e') = counterfactuals_estimated (_metrics e) + 2 * length rs
    ∧ Forall (result_of_node g main) rs.
Proof.
  intros Hwf Hd Hm. revert e count acc. induction l as [|n l IH]; intros e count acc He Hl.
  { exists e, []. rewrite app_nil_r. cbn. split_and!; [done|lia|lia|constructor]. }
  cbn [analyze_nodes]. destruct (_max_counterfactuals e <=? count)%nat eqn:Emax.
  { apply Nat.leb_le in Emax. exists e, []. rewrite app_nil_r. cbn [length]. split_and!; [done|lia|lia|constructor]. }
  apply Nat.leb_gt in Emax. rewrite filter_cons. destruct (String.eqb_spec (cn_id n) main) as [En|En].
  { rewrite decide_False by tauto. apply IH; [done|]. intros; apply Hl; by right. }
  rewrite decide_True by done. assert (cn_id n ∈ node_ids g) as Hn by (apply Hl; by left).
  destruct (analyze_ok e g (cn_id n) main 1 Hwf Hd Hn Hm He) as (r1 & -> & Hr1).
  match goal with |- context [analyze_counterfactual ?x] => set (e1 := x) end.
  destruct (analyze_ok e1 g (cn_id n) main 2 Hwf Hd Hn Hm) as (r2 & -> & Hr2); [done|].
  match goal with |- context [analyze_nodes ?x _ _ _ _ (_ ++ [?a])] => set (e2 := x); set (a1 := a) end.
  destruct (IH e2 (count + 1) (acc ++ [a1])) as (e' & rs & E & Hlen & Hc & Hrs); [done|intros; apply Hl; by right|].
  exists e', (a1 :: rs). rewrite E, <- app_assoc. split; [done|]. cbn [length].
  replace (_max_counterfactuals e2) with (_max_counterfactuals e) in Hlen by done.
  replace (counterfactuals_estimated (_metrics e2)) with (counterfactuals_estimated (_metrics e) + 1 + 1) in Hc by done.
  split; [rewrite Hlen; lia|]. split; [lia|]. constructor; [|done].
  by exists (cn_id n), r1, r2.
Qed.

Lemma all_nodes_ids g : causal_wf g → cn_id <$> get_all_nodes g = node_ids g.
Proof.
  intros [_ _ Hi]. unfold get_all_nodes, node_ids. rewrite <- list_fmap_compose.
  apply list_fmap_ext. intros i [n nd] Hl. cbn. by apply Hi, (list_elem_of_lookup_2 _ i).
Qed.

Lemma filter_all {A} (P : A → Prop) `{!∀ x, Decision (P x)} (l : list A) : (∀ x, x ∈ l → P x) → filter P l = l.
Proof.
  induction l as [|x l IH]; intros Hl; [done|]. rewrite filter_cons, decide_True by (apply Hl; by left).
  f_equal. apply IH. intros y Hy. apply Hl. by right.
Qed.

Lemma filter_last (l : list CausalNode) x :
  NoDup (cn_id <$> (l ++ [x])) → filter (λ n, cn_id n ≠ cn_id x) (l ++ [x]) = l.
Proof.
  rewrite fmap_app. cbn. intros (_ & Hx & _)%NoDup_app. rewrite filter_app, filter_cons, decide_False by tauto.
  rewrite filter_nil, app_nil_r. apply filter_all. intros n Hn E.
  apply (Hx (cn_id n)); [by apply list_elem_of_fmap_2|]. rewrite E. by left.
Qed.

(** The analysis of a well-formed acyclic graph: every node but the last, up to the
    limit. *)
Lemma analyze_all_ok e g :
  causal_wf g → acyclic (_graph g) → _enabled e = true → (∀ n, n ∈ node_ids g → nonempty n = true) →
  ∃ e' rs, analyze_all_counterfactuals e g = (e', Ok rs)
    ∧ length rs = min (_max_counterfactuals e) (pred (length (node_ids g)))
    ∧ counterfactuals_estimated (_metrics e') = counterfactuals_estimated (_metrics e) + 2 * length rs
    ∧ ∀ main, last (node_ids g) = Some main → Forall (result_of_node g main) rs.
Proof.
  intros Hwf Hd He Hne. unfold analyze_all_counterfactuals. rewrite He. cbn [negb].
  pose proof (all_nodes_ids g Hwf) as Hids. pose proof (wf_nodup g Hwf) as Hnd. rewrite <- Hids in *.
  destruct (get_all_nodes g) as [|x l _] eqn:El using rev_ind.
  { exists e, []. cbn. split_and!; [done|lia|lia|done]. }
  rewrite fmap_app, !last_snoc. cbn [fmap list_fmap]. rewrite last_snoc, length_app, length_fmap. cbn [length].
  assert (∀ n, n ∈ l ++ [x] → cn_id n ∈ node_ids g) as Hin.
  { intros n Hn. rewrite <- (all_nodes_ids g Hwf), El. by apply list_elem_of_fmap_2. }
  rewrite (Hne (cn_id x)) by (rewrite fmap_app; set_solver).
  destruct (analyze_nodes_ok e g (cn_id x) 0 (l ++ [x]) [] Hwf Hd) as (e' & rs & E & Hlen & Hc & Hrs);
    [apply Hin; set_solver|done|done|].
  exists e', rs. rewrite E. split; [done|]. rewrite filter_last, Nat.sub_0_r in Hlen by done.
  split; [rewrite Hlen; f_equal; lia|]. split; [done|]. intros main [= <-]. done.
Qed.

(** ** An outcome without edges *)
Lemma isolated_no_path (h : G) o u : (∀ u, ¬ edge h u o) → ¬ tc (edge h) u o.
Proof. intros Hi Ht. induction Ht as [u o E|u v o E _ IH]; [by apply (Hi u)|by apply IH]. Qed.

Lemma Qsum_zero l : Forall (λ x, x = 0%Q) l → Qsum l = 0%Q.
Proof. induction 1 as [|x l -> _ IH]; [done|]. cbn. fold (Qsum l). by rewrite IH. Qed.

Lemma zero_effects g t o cs es :
  (∀ u, ¬ edge (_graph g) u o) → (∀ c, c ∈ cs → edge (_graph g) t c) →
  mapM_c (path_effect g t o) cs = Ok es → Qsum es = 0%Q.
Proof.
  intros Hi. revert es. induction cs as [|c cs IH]; intros es Hcs E; [by simplify_eq/=|].
  cbn [mapM_c] in E. apply result_bind_ok in E as (x & Ex & (ys & Ey & [= <-])%result_bind_ok).
  cbn. fold (Qsum ys). rewrite (IH ys) by (auto; intros; apply Hcs; by right).
  assert (edge (_graph g) t c) as Hc by (apply Hcs; by left).
  unfold path_effect in Ex. destruct (String.eqb_spec c o) as [->|]; [by destruct (Hi t)|].
  apply result_bind_ok in Ex as (ds & Ed & [= <-]).
  destruct (edge_nodes _ _ _ Hc) as [_ Hn].
  destruct (asked (_graph g) descendants _ c (descendants_spec _) Hn) as (ds' & Ed' & _ & Hds).
  unfold get_descendants in Ed. rewrite Ed' in Ed. simplify_eq. rewrite bool_decide_eq_false_2; [done|].
  rewrite Hds. intros [_ Ht]. by apply (isolated_no_path _ _ _ Hi Ht).
Qed.

Lemma isolated_estimate g t o v r :
  causal_wf g → acyclic (_graph g) → t ∈ node_ids g → o ∈ node_ids g → (∀ u, ¬ edge (_graph g) u o) → value_of g o = 1%Q →
  estimate_ate t o v g = Ok r →
  (estimated_effect r == 1 ∧ confidence r == 1)%Q ∧ backdoor_variables r = [] ∧ frontdoor_variables r = [].
Proof.
  intros Hwf Hd Ht Ho Hi Hv. unfold estimate_ate. rewrite dag_valid by done. cbn [negb].
  rewrite (lists_nil _ _ (confounders_list g Hwf Hd t o [] Ht Ho)) by naive_solver. bindsimp.
  rewrite (lists_nil _ _ (mediators_list g Hwf Hd t o Ht Ho))
    by (intros n (_ & _ & _ & Hp); by apply (isolated_no_path _ _ _ Hi Hp)). bindsimp.
  destruct (Qeq_bool _ _); [intros [= <-]; cbn; by rewrite Hv|].
  destruct (path_effects g Hwf t o Ht) as (cs & -> & Hcs & es & Ees). bindsimp. rewrite Ees. bindsimp.
  intros (cf & _ & [= <-])%result_bind_ok. cbn [estimated_effect confidence backdoor_variables frontdoor_variables map].
  rewrite (zero_effects g t o cs es Hi) by (done || intros c; apply Hcs). split; [|done]. split; [|done].
  rewrite Hv. change (Qsum []) with 0%Q. generalize (v - value_of g t)%Q. intros d.
  assert (1 + total_effect 0 0 0 d == 1)%Q as E; [|unfold py_round4; by rewrite E].
  unfold total_effect. destruct (Qmaxb_spec 0 (0 * d + 0 * d - 0 * (1 # 10))) as (_ & _ & [->| ->]); lra.
Qed.

(** C23: The causal queries are exact.  On a well-formed graph without a cycle
    [find_confounders], [find_mediators] and [find_instruments] return, sorted and
    without duplicates, exactly the common parents of treatment and outcome, the nodes
    on directed paths between them, and the parents of the treatment without a path to
    the outcome; [estimate_ate] succeeds, reports these sets, a confidence between 0.1
    and 1 and never an effect below the current value.  On a cyclic graph all four
    refuse. *)
Theorem causal_queries_exact g t o v :
  causal_wf g → t ∈ node_ids g → o ∈ node_ids g →
  (acyclic (_graph g) →
     lists (find_confounders t o [] g) (λ n, n ≠ t ∧ n ≠ o ∧ n ∉ [] ∧ edge (_graph g) n t ∧ edge (_graph g) n o)
     ∧ lists (find_mediators t o g) (λ n, n ≠ t ∧ n ≠ o ∧ tc (edge (_graph g)) t n ∧ tc (edge (_graph g)) n o)
     ∧ lists (find_instruments t o g) (λ n, n ≠ t ∧ n ≠ o ∧ edge (_graph g) n t ∧ ¬ tc (edge (_graph g)) n o)
     ∧ ∃ r, estimate_ate t o v g = Ok r ∧ estimate_spec g t o v r)
  ∧ (¬ acyclic (_graph g) →
     find_confounders t o [] g = Err NotADag ∧ find_instruments t o g = Err NotADag ∧ find_mediators t o g = Err NotADag
     ∧ estimate_ate t o v g = Err NotADag).
Proof.
  intros Hwf Ht Ho. split; [|apply cyclic_refused]. intros Hd. split_and!; [by apply confounders_list|
    by apply mediators_list|by apply instruments_list|by apply estimate_ate_ok].
Qed.

(** Whenever the treatment can influence the outcome there are no instruments: a parent
    of the treatment then has a path to the outcome through it, and [find_instruments]
    rejects every node with such a path. *)
Theorem no_instrument_for_an_effect g t o :
  causal_wf g → acyclic (_graph g) → t ∈ node_ids g → o ∈ node_ids g → tc (edge (_graph g)) t o →
  find_instruments t o g = Ok [].
Proof.
  intros Hwf Hd Ht Ho Hp. apply (lists_nil _ _ (instruments_list g Hwf Hd t o Ht Ho)).
  intros n (_ & _ & He & Hn). apply Hn. eapply tc_l; [exact He|exact Hp].
Qed.

(** The analysis behind the neurosymbolic engine never fails on requirements with
    distinct labels: the priority edges it derives are acyclic, every node but the last
    (up to the configured limit) is analysed with two interventions, each counted, and
    every reported confidence lies between 0.1 and 1.  The identifiers drawn have to be
    distinct and non-empty. *)
Theorem causal_analysis_total e rs cs :
  NoDup (map ids (seq 0 (length rs + length cs))) → (∀ i, nonempty (ids i) = true) →
  NoDup (map _dependency_node_name rs) → _enabled e = true →
  ∃ e1 g e2 l, build_graph to_float ids e (map req_dict rs) cs (dependencies rs) = (e1, Ok (g : @CausalGraph G))
    ∧ analyze_all_counterfactuals e1 g = (e2, Ok l)
    ∧ length l = min (_max_counterfactuals e) (pred (length rs + length cs))
    ∧ counterfactuals_estimated (_metrics e2) = counterfactuals_estimated (_metrics e) + 2 * length l
    ∧ Forall (λ a, (1 # 10 <= (intervention_1x a).2 <= 1)%Q
                   ∧ ∃ x, intervention_2x a = Some x ∧ (1 # 10 <= x.2 <= 1)%Q) l.
Proof.
  intros Hids Hne Hnames He.
  destruct (build_graph_ok e rs cs Hids Hnames) as (e1 & g & E & He1 & Hmax & Hcount & Hwf & Hd & Hn & _).
  destruct (analyze_all_ok e1 g Hwf Hd) as (e2 & l & El & Hlen & Hc & Hl); [congruence| |].
  { intros n. rewrite Hn. intros (i & -> & _)%list_elem_of_fmap. done. }
  exists e1, g, e2, l. rewrite Hn, length_map, length_seq, Hmax in Hlen. rewrite Hcount in Hc.
  do 4 (split; [done|]). destruct l as [|a l]; [constructor|].
  assert (∃ main, last (node_ids g) = Some main) as [main Hmain].
  { rewrite Hn. destruct (length rs + length cs) as [|n]; [cbn in Hlen; lia|].
    rewrite seq_S, map_app. cbn. rewrite last_snoc. eauto. }
  assert (main ∈ node_ids g) as Hin by (by apply last_Some_elem_of).
  eapply Forall_impl; [apply (Hl main Hmain)|]. intros b (n & r1 & r2 & Hnn & E1 & E2 & -> & -> & _).
  destruct (estimate_ate_ok g n main 1 Hwf Hd Hnn Hin) as (r1' & E1' & S1).
  destruct (estimate_ate_ok g n main 2 Hwf Hd Hnn Hin) as (r2' & E2' & S2).
  assert (r1' = r1) as -> by congruence. assert (r2' = r2) as -> by congruence.
  split; [apply S1|]. eexists. split; [done|]. apply S2.
Qed.

(** A task with at least one constraint gets an empty analysis: the outcome is the node
    of the last constraint, which no edge touches, so every variable is reported with
    effect 1, confidence 1 and no other variables, whatever the requirements say. *)
Theorem constraints_void_analysis e rs cs e1 g e2 l :
  NoDup (map ids (seq 0 (length rs + length cs))) → (∀ i, nonempty (ids i) = true) →
  NoDup (map _dependency_node_name rs) → _enabled e = true → cs ≠ [] →
  build_graph to_float ids e (map req_dict rs) cs (dependencies rs) = (e1, Ok (g : @CausalGraph G)) →
  analyze_all_counterfactuals e1 g = (e2, Ok l) →
  Forall (λ a, ((intervention_1x a).1 == 1 ∧ (intervention_1x a).2 == 1)%Q ∧ an_backdoor a = [] ∧ an_mediators a = []) l.
Proof.
  intros Hids Hne Hnames He Hcs Eb Ea.
  destruct (build_graph_ok e rs cs Hids Hnames) as (e1' & g' & E & He1 & _ & _ & Hwf & Hd & Hn & Hiso).
  rewrite E in Eb. injection Eb as -> ->.
  destruct (analyze_all_ok e1 g Hwf Hd) as (e2' & l' & El & _ & _ & Hl); [congruence| |].
  { intros n. rewrite Hn. intros (i & -> & _)%list_elem_of_fmap. done. }
  rewrite El in Ea. injection Ea as -> ->. set (k := length rs + pred (length cs)).
  assert (length rs ≤ k < length rs + length cs) as Hk by (destruct cs; [done|unfold k; cbn; lia]).
  assert (last (node_ids g) = Some (ids k)) as Hmain.
  { rewrite Hn. replace (length rs + length cs) with (S k) by (destruct cs; [done|unfold k; cbn; lia]).
    rewrite seq_S, map_app. cbn. by rewrite last_snoc. }
  assert (ids k ∈ node_ids g) as Hin by (by apply last_Some_elem_of).
  destruct (Hiso k Hk) as [Hv Hedge].
  eapply Forall_impl; [apply (Hl _ Hmain)|]. intros a (n & r1 & r2 & Hnn & E1 & _ & -> & _ & -> & ->).
  apply (isolated_estimate g n (ids k) 1 r1); try done. intros u. apply Hedge.
Qed.
End analysis.

(** ** Concrete graphs *)
Definition demo_ids (n : nat) : string := "n" +:+ pretty (N.of_nat n).

Abbreviation demo_build rs cs :=
  (build_graph (G := dgraph edge_attr) (λ _, None) demo_ids (causal_engine_init true 5) (map req_dict rs) cs (dependencies rs)).

Definition latency : norm_requirement := mkNorm "performance" "latency below 200 ms" 9.
Definition budget_req : norm_requirement := mkNorm "cost" "stay cheap" 4.

Lemma demo_ids_nonempty i : nonempty (demo_ids i) = true.
Proof. done. Qed.

Lemma causal_analysis_total_witness :
  ∃ e1 g e2 l, demo_build [latency; budget_req] [] = (e1, Ok g) ∧ analyze_all_counterfactuals e1 g = (e2, Ok l) ∧ length l = 1.
Proof.
  destruct (causal_analysis_total (G := dgraph edge_attr) (λ _, None) demo_ids (causal_engine_init true 5)
    [latency; budget_req] []) as (e1 & g & e2 & l & E1 & E2 & Hlen & _).
  - vm_compute. repeat (constructor; [set_solver|]). constructor.
  - exact demo_ids_nonempty.
  - vm_compute. repeat (constructor; [set_solver|]). constructor.
  - done.
  - by exists e1, g, e2, l.
Defined.

Definition causal_demo_node (n : string) : CausalNode := mkCausalNode n n CONTINUOUS None "".

(** [a] causes [b] with strength [w]. *)
Definition arrow (w : Q) : @CausalGraph (dgraph edge_attr) :=
  let g := add_node (causal_demo_node "b") 1 (add_node (causal_demo_node "a") 3 causal_init) in
  match add_edge "a" "b" (mkAttr w 0) g with Ok g => g | Err _ => g end.

Lemma arrow_wf w : causal_wf (arrow w).
Proof.
  unfold arrow. set (g := add_node _ _ _).
  assert (causal_wf g) as Hwf by (unfold g; by repeat apply add_node_wf; apply causal_init_wf).
  destruct (add_edge_ok "a" "b" (mkAttr w 0) g Hwf) as (g' & -> & Hwf' & _); [by left|by right; left|done].
Qed.

Lemma causal_queries_exact_witness :
  ∃ r, estimate_ate "a" "b" 2 (arrow (1 # 2)) = Ok r ∧ estimate_spec (arrow (1 # 2)) "a" "b" 2 r.
Proof.
  eapply (causal_queries_exact (arrow (1 # 2)) "a" "b" 2).
  - apply arrow_wf.
  - vm_compute. left.
  - vm_compute. right. left.
  - apply is_dag_spec. vm_compute. reflexivity.
Defined.

(** An intervention that lowers a cause of the outcome is estimated to change nothing:
    the sum is cut off at zero. *)
Example lowering_a_cause_has_no_effect :
  estimated_effect <$> estimate_ate "a" "b" 0 (arrow 1) = Ok (10000 # 10000)%Q
  ∧ value_of (arrow 1) "b" = 1%Q.
Proof. split; vm_compute; reflexivity. Qed.

(** Two requirements with the same category and the same first twenty characters of
    their descriptions share a label; with different priorities the graph gets a
    self-loop and the analysis raises. *)
Example same_label_aborts_analysis :
  match demo_build [mkNorm "performance" "latency below 200 ms for reads" 9;
                    mkNorm "performance" "latency below 200 ms for writes" 4] [] with
  | (e, Ok g) => (analyze_all_counterfactuals e g).2 = Err NotADag
  | _ => False
  end.
Proof. vm_compute. reflexivity. Qed.
