(* ===== verification/Gate.v ===== *)
(** * The merge gate and the Lean verifier

    [experiments/gate.py] and [verifiers/lean.py].  Reading the worktree, running git,
    the Python parser, the sandbox, the language model behind the judge and the [lean]
    binary are parameters; each may fail.  The theorem says exactly when the gate
    passes, composed with the verifier. *)
From Stdlib Require Import ZArith QArith Lia Bool Ascii String.
From stdpp Require Import base option numbers sets strings pretty list.
From S2P Require Import Prelude Symbolic Prompts SemanticCache OntologyGraph CoreTypes Judge.
Local Open Scope string_scope.
Local Open Scope list_scope.
Local Open Scope nat_scope.

(** ** Strings *)
(** A line boundary of [str.splitlines], "\r\n" apart. *)
Definition is_line_break (a : ascii) : bool :=
  existsb (Nat.eqb (nat_of_ascii a)) [10; 11; 12; 13; 28; 29; 30; 133].

(** The lines of [s], [acc] being the reversed beginning of the current one. *)
Fixpoint splitlines_from (acc s : string) : list string :=
  match s with
  | EmptyString => if nonempty acc then [acc] else []
  | String a t =>
      if is_line_break a then
        acc :: match t with
               | String b t' => if Nat.eqb (nat_of_ascii a) 13 && Nat.eqb (nat_of_ascii b) 10 then splitlines_from "" t'
                                else splitlines_from "" t
               | EmptyString => []
               end
      else splitlines_from (acc +:+ String a "") t
  end.

Definition splitlines (s : string) : list string := splitlines_from "" s.

Definition ends_with_any (suffixes : list string) (s : string) : bool := existsb (λ x, ends_with x s) suffixes.

(** The parts of a path between its slashes. *)
Fixpoint split_slash (acc s : string) : list string :=
  match s with
  | EmptyString => [acc]
  | String a t => if Ascii.eqb a "/"%char then acc :: split_slash "" t else split_slash (acc +:+ String a "") t
  end.

(** [Path(p).name] *)
Definition path_name (p : string) : string :=
  default "" (last (filter (λ c, nonempty c && negb (String.eqb c ".") = true) (split_slash "" p))).

(** ** The Lean verifier *)
Record VerifierResult := mkVerifierResult { verified : bool; files_checked : nat; output : string; v_error : string }.

(** How the file could be written and the runner ended: exit code, stdout, stderr. *)
Abbreviation lean_run := (result string (Z * string * string)).

Section lean.
Context (available : bool) (lean_binary : string) (runner : string → string → lean_run).

Definition verify_lean_source (source file_name : string) : VerifierResult :=
  if negb available then mkVerifierResult false 0 "" ("lean_not_installed:" +:+ lean_binary)
  else match runner source file_name with
       | Err e => mkVerifierResult false 0 "" ("lean_run_failed:" +:+ e)
       | Ok (code, out, err) =>
           let output := strip (out +:+ nl +:+ err) in
           mkVerifierResult (code =? 0)%Z 1 output
             (if (code =? 0)%Z then ""
              else if nonempty (prefix 500 output) then prefix 500 output else "lean_exit_" +:+ pretty code)
       end.

Definition lean_file_name (path : string) : string :=
  if nonempty (path_name path) then path_name path else "obligation.lean".

Definition check_file (f : string * string) : VerifierResult := verify_lean_source f.2 (lean_file_name f.1).

(** The checks run concurrently under a semaphore; [gather] returns them in order. *)
Definition verify_files (files : list (string * string)) : VerifierResult :=
  let lean_files := filter (λ f, ends_with ".lean" f.1 = true) files in
  match lean_files with
  | [] => mkVerifierResult true 0 "" ""
  | _ =>
      let results := map (λ f, (f, check_file f)) lean_files in
      let errors := map (λ '(f, r), f.1 +:+ ": " +:+ v_error r)
                      (filter (λ p, negb (verified p.2) && nonempty (v_error p.2) = true) results) in
      let outputs := filter (λ o, nonempty o = true) (map (λ p, output p.2) results) in
      mkVerifierResult (forallb (λ p, verified p.2) results) (length lean_files)
        (prefix 2000 (join nl outputs)) (prefix 500 (join "; " errors))
  end.

Lemma verify_files_exact files :
  verified (verify_files files) = true ↔ ∀ f, f ∈ files → ends_with ".lean" f.1 = true → verified (check_file f) = true.
Proof.
  unfold verify_files. set (l := filter _ files).
  assert (∀ f, f ∈ l ↔ f ∈ files ∧ ends_with ".lean" f.1 = true) as Hl.
  { intros f. unfold l. rewrite list_elem_of_filter. tauto. }
  clearbody l. destruct l as [|x l].
  - split; [|done]. intros _ f Hf He. assert (f ∈ @nil (string * string)) as Hn by (by apply Hl). by apply not_elem_of_nil in Hn.
  - cbn [verified]. rewrite forallb_forall. setoid_rewrite <- list_elem_of_In. setoid_rewrite list_elem_of_fmap. split.
    + intros H f Hf He. apply (H (f, check_file f)). exists f. split; [done|]. by apply Hl.
    + intros H p (f & -> & [Hf He]%Hl). by apply H.
Qed.
End lean.

(** ** Data *)
Record changed_file := mkFile { f_path : string; f_language : string; f_content : string }.

(** [read_text] of a path. *)
Inductive read_outcome := Text (s : string) | OsError | DecodeError.

(** What [ast.walk] meets that matters here. *)
Inductive pynode := NameNode (id : string) | ClassDefNode (name : string) | FunctionDefNode (name : string) | OtherNode.

Record GateConfig := mkGateConfig {
  judge_threshold : Q;
  sandbox_enabled : bool;
  run_tests : bool;
  include_suffixes : list string;
  explicit_files : option (list (string * string));          (* path and content *)
  git_diff : result string string;                           (* stdout, or the runner raised *)
  judge : result string (Solution → result string JudgeVerdict);   (* building the default one may raise *)
  sandbox : list changed_file → bool → result string (bool * string);   (* all_valid, summary *)
  verifier : option (list (string * string) → result string VerifierResult);
  require_spec_patterns : list string;
  ontology : option OntologyGraph;
}.

Record GateReport := mkReport {
  gr_passed : bool;
  changed_files : nat;
  judge_score : Q;
  judge_passed : bool;
  judge_summary : string;
  sandbox_all_valid : option bool;
  sandbox_summary : string;
  formal_verified : option bool;
  formal_error : string;
  blocked_by : list string;
  ontology_violations : list string;
  note : string;
}.

Section gate.
Context (read_text : string → read_outcome) (parse : string → option (list pynode)) (fmt3 : Q → string)
        (repr : json → string).

(** ** The changed files *)
Definition _changed_file_paths (stdout : string) : list string :=
  let out := strip stdout in
  if nonempty out then filter (λ line, nonempty (strip line) = true) (splitlines out) else [].

Definition language_of (path : string) : string := if ends_with ".py" path then "python" else "text".

Fixpoint read_files (paths : list string) : result string (list changed_file) :=
  match paths with
  | [] => Ok []
  | p :: paths =>
      match read_text p with
      | Text s => fs ← read_files paths; Ok (mkFile p (language_of p) s :: fs)
      | OsError => read_files paths
      | DecodeError => Err "UnicodeDecodeError"
      end
  end.

Definition _raw_changed_files (cfg : GateConfig) : result string (list changed_file) :=
  match explicit_files cfg with
  | Some l => Ok (map (λ '(p, c), mkFile p (language_of p) c) l)
  | None => out ← git_diff cfg; read_files (_changed_file_paths out)
  end.

Definition included (cfg : GateConfig) (raw : list changed_file) : list changed_file :=
  filter (λ f, ends_with_any (include_suffixes cfg) (f_path f) = true) raw.

Definition _collect_files (cfg : GateConfig) : result string (list changed_file) :=
  raw ← _raw_changed_files cfg; Ok (included cfg raw).

(** ** Axioms of the ontology *)
Definition node_ids (n : pynode) : list string :=
  match n with NameNode s | ClassDefNode s | FunctionDefNode s => [s] | OtherNode => [] end.

Definition _referenced_identifiers (content : string) : list string :=
  match parse content with None => [] | Some nodes => concat (map node_ids nodes) end.

(** [requires.setdefault] keeps the first object of a subject. *)
Definition requires_of (rels : list Relation) : list (string * string) :=
  foldl (λ d r, if String.eqb (predicate r) "requires" then
                  match dget (subject r) d with Some _ => d | None => dset (subject r) (object r) d end
                else d) [] rels.

Definition forbids_of (rels : list Relation) : list (string * string) :=
  remove_dups (map (λ r, (subject r, object r)) (filter (λ r, predicate r = "forbids") rels)).

Definition file_violations (req forb : list (string * string)) (f : changed_file) : list string :=
  if negb (ends_with ".py" (f_path f)) then []
  else
    let ids := _referenced_identifiers (f_content f) in
    map (λ '(s, o), "ontology:" +:+ f_path f +:+ ":" +:+ s +:+ " requires " +:+ o)
      (filter (λ p, p.1 ∈ ids ∧ p.2 ∉ ids) req)
    ++ map (λ '(s, o), "ontology:" +:+ f_path f +:+ ":" +:+ s +:+ " forbids " +:+ o)
      (filter (λ p, p.1 ∈ ids ∧ p.2 ∈ ids) forb).

Definition _ontology_violations (files : list changed_file) (g : OntologyGraph) : list string :=
  let req := requires_of (_relations g) in
  let forb := forbids_of (_relations g) in
  match req, forb with
  | [], [] => []
  | _, _ => concat (map (file_violations req forb) files)
  end.

(** ** Missing specifications *)
Definition starts_with (p s : string) : bool := String.prefix p s.

(** [path[: -len(".py")]] *)
Definition py_stem (path : string) : string := substring 0 (String.length path - 3) path.

Definition spec_candidates (path : string) : list string :=
  let stem := py_stem path in
  [stem +:+ ".lean"; "specs/" +:+ stem +:+ ".lean"; "specs/" +:+ path_name stem +:+ ".lean"].

Definition needs_spec (patterns : list string) (path : string) : bool :=
  ends_with ".py" path && existsb (λ p, starts_with p path) patterns.

Definition _missing_formal_specs (files : list changed_file) (lean_paths : list string) (patterns : list string) : list string :=
  map f_path (filter (λ f, needs_spec patterns (f_path f)
                           && negb (existsb (λ c, bool_decide (c ∈ lean_paths)) (spec_candidates (f_path f))) = true) files).

(** ** The gate *)
Definition lean_files (raw : list changed_file) : list (string * string) :=
  map (λ f, (f_path f, f_content f)) (filter (λ f, ends_with ".lean" (f_path f) = true) raw).

(** The formal stage: verdict, error text and the reasons to block. *)
Definition formal_stage (cfg : GateConfig) (raw files : list changed_file) : option bool * string * list string :=
  match verifier cfg with
  | None => (None, "", [])
  | Some verify =>
      let lean := lean_files raw in
      let '(v, err) :=
        match lean with
        | [] => (None, "")
        | _ => match verify lean with
               | Ok r => (Some (verified r), v_error r)
               | Err e => (Some false, "verifier_crashed:" +:+ e)
               end
        end in
      let blocks := match v with Some false => ["formal_verification"] | _ => [] end in
      let missing := match require_spec_patterns cfg with
                     | [] => []
                     | ps => map (λ p, "missing_formal_spec:" +:+ p) (_missing_formal_specs files (map fst lean) ps)
                     end in
      (v, err, blocks ++ missing)
  end.

Definition sandbox_stage (cfg : GateConfig) (files : list changed_file) : option bool * string * list string :=
  if sandbox_enabled cfg then
    let '(ok, s) := match sandbox cfg files (run_tests cfg) with
                    | Ok p => p
                    | Err e => (false, "sandbox_error:" +:+ e)
                    end in
    (Some ok, s, if (ok : bool) then [] else ["sandbox"])
  else (None, "", []).

Definition gate_solution (files : list changed_file) : Solution :=
  let s := new_solution "merge-gate" "Pull request changes" ("Changed files: " +:+ pretty (Z.of_nat (length files))) in
  mkSolution (CoreTypes.task_id s) (s_title s) (CoreTypes.summary s) (architecture s) (stack s)
    (map (λ f, mkBlock (f_path f) (f_language f) (f_content f) "") files) (performance_notes s) (security_notes s)
    (quality s) (confidence s) (CoreTypes.metadata s).

(** Score, verdict, summary and the reasons to block. *)
Definition judge_stage (cfg : GateConfig) (run : Solution → result string JudgeVerdict) (files : list changed_file)
    : Q * bool * string * list string :=
  let '(score, ok, sum, err) :=
    match run (gate_solution files) with
    | Ok v => (overall (scores v), Judge.passed v, py_str repr (j_summary v), [])
    | Err e => (0%Q, false, "", ["judge_error:" +:+ e])
    end in
  (score, ok, sum,
   err ++ if Qltb score (judge_threshold cfg)
          then ["judge_score=" +:+ fmt3 score +:+ " < threshold=" +:+ fmt3 (judge_threshold cfg)] else []).

Definition no_reasons (l : list string) : bool := match l with [] => true | _ => false end.

Definition run_merge_gate (cfg : GateConfig) : result string GateReport :=
  raw ← _raw_changed_files cfg;
  let files := included cfg raw in
  let violations := match ontology cfg with Some g => _ontology_violations files g | None => [] end in
  let '(fv, fe, fblocks) := formal_stage cfg raw files in
  let blocked := violations ++ fblocks in
  match files with
  | [] => Ok (mkReport (no_reasons blocked) 0 0 false "" None "" fv fe blocked violations "no_changed_files")
  | _ =>
      let '(sv, ss, sblocks) := sandbox_stage cfg files in
      run ← judge cfg;
      let '(score, ok, sum, jblocks) := judge_stage cfg run files in
      let blocked := blocked ++ sblocks ++ jblocks in
      Ok (mkReport (no_reasons blocked) (length files) score ok sum sv ss fv fe blocked violations "")
  end.

(** The report that is written and the exit code. *)
Definition run_gate_cli (cfg : GateConfig) : GateReport * Z :=
  let r := match run_merge_gate cfg with
           | Ok r => r
           | Err e => mkReport false 0 0 false "" None "" None "" ["gate_error:" +:+ e] [] "gate_error"
           end in
  (r, if gr_passed r then 0%Z else 1%Z).

(** ** When the gate passes *)
(** The first [requires] relation of its subject. *)
Definition first_requires (rels : list Relation) (s o : string) : Prop :=
  ∃ before r after, rels = before ++ r :: after ∧ predicate r = "requires" ∧ subject r = s ∧ object r = o
    ∧ ∀ r', r' ∈ before → predicate r' = "requires" → subject r' ≠ s.

Definition axioms_hold (files : list changed_file) (g : OntologyGraph) : Prop :=
  ∀ f, f ∈ files → ends_with ".py" (f_path f) = true →
    let ids := _referenced_identifiers (f_content f) in
    (∀ s o, first_requires (_relations g) s o → s ∈ ids → o ∈ ids)
    ∧ (∀ r, r ∈ _relations g → predicate r = "forbids" → ¬ (subject r ∈ ids ∧ object r ∈ ids)).

Definition proofs_hold (cfg : GateConfig) (raw files : list changed_file) : Prop :=
  ∀ verify, verifier cfg = Some verify →
    (lean_files raw ≠ [] → ∃ v, verify (lean_files raw) = Ok v ∧ verified v = true)
    ∧ ∀ f, f ∈ files → needs_spec (require_spec_patterns cfg) (f_path f) = true →
        ∃ c, c ∈ spec_candidates (f_path f) ∧ c ∈ map fst (lean_files raw).

Definition reviews_hold (cfg : GateConfig) (files : list changed_file) : Prop :=
  (sandbox_enabled cfg = true → ∃ s, sandbox cfg files (run_tests cfg) = Ok (true, s))
  ∧ ∃ run v, judge cfg = Ok run ∧ run (gate_solution files) = Ok v ∧ (judge_threshold cfg <= overall (scores v))%Q.

Lemma no_reasons_app l k : no_reasons (l ++ k) = true ↔ no_reasons l = true ∧ no_reasons k = true.
Proof. destruct l; cbn; naive_solver. Qed.

Lemma no_reasons_map {A} (f : A → string) l : no_reasons (map f l) = true ↔ l = [].
Proof. by destruct l. Qed.

Lemma no_reasons_concat ls : no_reasons (concat ls) = true ↔ ∀ l, l ∈ ls → no_reasons l = true.
Proof.
  induction ls as [|l ls IH]; cbn; [set_solver|]. rewrite no_reasons_app, IH. setoid_rewrite elem_of_cons. naive_solver.
Qed.

Lemma filter_none {A} (P : A → Prop) `{!∀ x, Decision (P x)} (l : list A) : filter P l = [] ↔ ∀ x, x ∈ l → ¬ P x.
Proof.
  induction l as [|x l IH]; [set_solver|]. rewrite filter_cons. setoid_rewrite elem_of_cons.
  case_decide; [naive_solver|]. rewrite IH. naive_solver.
Qed.

Lemma file_violations_none req forb f :
  no_reasons (file_violations req forb f) = true ↔
  (ends_with ".py" (f_path f) = true →
     let ids := _referenced_identifiers (f_content f) in
     (∀ s o, (s, o) ∈ req → s ∈ ids → o ∈ ids) ∧ (∀ s o, (s, o) ∈ forb → ¬ (s ∈ ids ∧ o ∈ ids))).
Proof.
  unfold file_violations. destruct (ends_with ".py" (f_path f)); cbn [negb]; [|naive_solver].
  rewrite no_reasons_app, !no_reasons_map, !filter_none. split.
  - intros [H1 H2] _. split; [|intros s o Hin Hb; by apply (H2 (s, o))].
    intros s o Hin Hs. destruct (decide (o ∈ _referenced_identifiers (f_content f))); [done|].
    by destruct (H1 (s, o) Hin).
  - intros H. destruct (H eq_refl) as [H1 H2]. split; intros [s o] Hin; [|by apply H2].
    intros [Hs Ho]. apply Ho. by eapply H1.
Qed.

Lemma elem_of_forbids s o rels :
  (s, o) ∈ forbids_of rels ↔ ∃ r, r ∈ rels ∧ predicate r = "forbids" ∧ subject r = s ∧ object r = o.
Proof.
  unfold forbids_of. rewrite elem_of_remove_dups, list_elem_of_fmap. setoid_rewrite list_elem_of_filter. naive_solver.
Qed.

Lemma requires_of_snoc rels r : requires_of (rels ++ [r]) =
  (if String.eqb (predicate r) "requires" then match dget (subject r) (requires_of rels) with Some _ => requires_of rels | None => dset (subject r) (object r) (requires_of rels) end
   else requires_of rels).
Proof. unfold requires_of. by rewrite foldl_app. Qed.

Lemma requires_of_spec rels : NoDup (requires_of rels).*1 ∧
  (∀ s, dget s (requires_of rels) = None ↔ ∀ r, r ∈ rels → predicate r = "requires" → subject r ≠ s)
  ∧ ∀ s o, dget s (requires_of rels) = Some o ↔ first_requires rels s o.
Proof.
  induction rels as [|r rels (Hn & Hnone & Hsome)] using rev_ind.
  { split_and!; [constructor|intros s; split; [by intros _ x ?%not_elem_of_nil|done]|]. intros s o. split; [done|]. by intros ([|] & x & after & ? & _). }
  assert (∀ s o, first_requires (rels ++ [r]) s o ↔ first_requires rels s o ∨ predicate r = "requires" ∧ subject r = s ∧ object r = o ∧ ∀ r', r' ∈ rels → predicate r' = "requires" → subject r' ≠ s) as Hfirst.
  { intros s o. split.
    - intros (before & x & after & E & Hp & Hs & Ho & Hb). destruct after as [|y after _] using rev_ind.
      + apply app_inj_tail in E as [<- <-]. by right.
      + rewrite app_comm_cons, app_assoc in E. apply app_inj_tail in E as [-> <-]. left. by exists before, x, after.
    - intros [(before & x & after & -> & H)|(Hp & Hs & Ho & Hb)]; [exists before, x, (after ++ [r]); by rewrite <- app_assoc|by exists rels, r, []]. }
  rewrite requires_of_snoc. destruct (String.eqb_spec (predicate r) "requires") as [Ep|Ep]; [destruct (dget (subject r) (requires_of rels)) as [o0|] eqn:E|].
  - split_and!; [done| |].
    + intros s. rewrite Hnone. setoid_rewrite elem_of_app. setoid_rewrite list_elem_of_singleton. split; [|naive_solver]. intros H x [Hx| ->] Hp; [by apply H|]. intros <-. apply Hnone in H. congruence.
    + intros s o. rewrite Hsome, Hfirst. split; [by left|]. intros [?|(_ & <- & _ & Hb)]; [done|]. apply Hnone in Hb. congruence.
  - pose proof (proj1 (Hnone _) E) as Hb. split_and!; [by apply dset_keys_NoDup| |].
    + intros s. rewrite dget_dset. setoid_rewrite elem_of_app. setoid_rewrite list_elem_of_singleton. case_decide as Hs; [subst; split; [done|intros H; by destruct (H r (or_intror eq_refl) Ep)]|].
      rewrite Hnone. split; [|naive_solver]. intros H x [Hx| ->] Hp; [by apply H|congruence].
    + intros s o. rewrite dget_dset, Hfirst. case_decide as Hs; [subst|rewrite Hsome; split; [by left|]; intros [?|(_ & ? & _)]; [done|congruence]].
      split; [intros [= <-]; right; by split_and!|]. intros [H|(_ & _ & -> & _)]; [|done]. apply Hsome in H. congruence.
  - split_and!; [done| |].
    + intros s. rewrite Hnone. setoid_rewrite elem_of_app. setoid_rewrite list_elem_of_singleton. naive_solver.
    + intros s o. rewrite Hsome, Hfirst. split; [by left|]. by intros [?|(? & _)].
Qed.

Lemma elem_of_requires s o rels : (s, o) ∈ requires_of rels ↔ first_requires rels s o.
Proof.
  destruct (requires_of_spec rels) as (Hn & _ & <-). split; [by apply dget_mem|]. apply dget_Some_mem.
Qed.

Lemma ontology_violations_none files g : no_reasons (_ontology_violations files g) = true ↔ axioms_hold files g.
Proof.
  assert (no_reasons (_ontology_violations files g) = true ↔
    ∀ f, f ∈ files → no_reasons (file_violations (requires_of (_relations g)) (forbids_of (_relations g)) f) = true) as ->.
  { unfold _ontology_violations.
    assert (∀ req forb, no_reasons (concat (map (file_violations req forb) files)) = true ↔
      ∀ f, f ∈ files → no_reasons (file_violations req forb f) = true) as H.
    { intros req forb. rewrite no_reasons_concat. setoid_rewrite list_elem_of_fmap. split; [eauto|].
      intros H l (f & -> & Hf). auto. }
    destruct (requires_of (_relations g)), (forbids_of (_relations g)); [|apply H..].
    split; [|done]. intros _ f _. unfold file_violations. by destruct (ends_with _ _). }
  unfold axioms_hold. setoid_rewrite file_violations_none.
  split; intros H f Hf Hpy; destruct (H f Hf Hpy) as [H1 H2]; (split; [intros s o Hs; by apply H1, elem_of_requires|]).
  - intros r Hr Hp. apply H2, elem_of_forbids. eauto.
  - intros s o (r & Hr & Hp & <- & <-)%elem_of_forbids. by apply H2.
Qed.

Lemma missing_specs_none files leans patterns :
  _missing_formal_specs files leans patterns = [] ↔
  ∀ f, f ∈ files → needs_spec patterns (f_path f) = true → ∃ c, c ∈ spec_candidates (f_path f) ∧ c ∈ leans.
Proof.
  unfold _missing_formal_specs. set (P := λ f, _ = true).
  assert (map f_path (filter P files) = [] ↔ filter P files = []) as -> by (by destruct (filter P files)).
  rewrite filter_none. unfold P. clear P. split; intros H f Hf.
  - intros Hn. specialize (H f Hf). rewrite Hn in H. cbn [andb] in H. apply not_true_iff_false, negb_false_iff in H.
    apply existsb_exists in H as (c & Hc & Hl%bool_decide_eq_true). exists c. by rewrite list_elem_of_In.
  - intros [Hn Hx%negb_true_iff]%andb_true_iff. destruct (H f Hf Hn) as (c & Hc & Hl).
    apply not_true_iff_false in Hx. apply Hx, existsb_exists. exists c. rewrite <- list_elem_of_In.
    split; [done|]. by apply bool_decide_eq_true.
Qed.

Lemma formal_stage_none cfg raw files :
  no_reasons (formal_stage cfg raw files).2 = true ↔ proofs_hold cfg raw files.
Proof.
  unfold formal_stage, proofs_hold. destruct (verifier cfg) as [verify|]; [|naive_solver].
  set (v := match lean_files raw with [] => _ | _ => _ end).
  assert ((match v.1 with Some false => ["formal_verification"] | _ => [] end = []) ↔
    (lean_files raw ≠ [] → ∃ x, verify (lean_files raw) = Ok x ∧ verified x = true)) as Hv.
  { unfold v. destruct (lean_files raw) as [|x l] eqn:El; [naive_solver|]. rewrite <- El.
    destruct (verify (lean_files raw)) as [r|e]; cbn; [destruct (verified r) eqn:Er|]; split; try done.
    - by eauto.
    - intros H. destruct (H ltac:(by rewrite El)) as (? & [= <-] & ?). congruence.
    - intros H. by destruct (H ltac:(by rewrite El)) as (? & ? & ?). }
  destruct v as [fv fe]. cbn [fst snd] in *. rewrite no_reasons_app.
  assert (no_reasons (match require_spec_patterns cfg with
    | [] => [] | _ => map (λ p, "missing_formal_spec:" +:+ p)
                        (_missing_formal_specs files (map fst (lean_files raw)) (require_spec_patterns cfg)) end) = true
    ↔ _missing_formal_specs files (map fst (lean_files raw)) (require_spec_patterns cfg) = []) as Hm.
  { destruct (require_spec_patterns cfg) as [|x l]; [|apply no_reasons_map]. split; [|done]. intros _.
    apply missing_specs_none. intros f _. unfold needs_spec. cbn. by rewrite andb_false_r. }
  destruct (require_spec_patterns cfg) as [|x l] eqn:Ep; rewrite Hm, missing_specs_none;
    (split; [intros [H1 H2] ? [= <-]; split; [apply Hv; by destruct fv as [[]|]|done]
            |intros H; destruct (H verify eq_refl) as [H1 H2]; split; [apply Hv in H1; by destruct fv as [[]|]|done]]).
Qed.

Lemma sandbox_none cfg files :
  no_reasons (sandbox_stage cfg files).2 = true ↔
  (sandbox_enabled cfg = true → ∃ s, sandbox cfg files (run_tests cfg) = Ok (true, s)).
Proof.
  unfold sandbox_stage. destruct (sandbox_enabled cfg); [|naive_solver].
  destruct (sandbox cfg files (run_tests cfg)) as [[[] s]|e]; cbn; split; try done; [eauto|..];
    intros H; destruct (H eq_refl); congruence.
Qed.

Lemma judge_none cfg files run :
  no_reasons (judge_stage cfg run files).2 = true ↔
  ∃ v, run (gate_solution files) = Ok v ∧ (judge_threshold cfg <= overall (scores v))%Q.
Proof.
  unfold judge_stage. destruct (run (gate_solution files)) as [v|e]; cbn; [|naive_solver].
  destruct (Qltb (overall (scores v)) (judge_threshold cfg)) eqn:E; cbn; [apply Qltb_lt in E|apply Qltb_ge in E; naive_solver].
  split; [done|]. intros (v' & [= <-] & Hv). exfalso. by apply (Qlt_not_le _ _ E).
Qed.

Lemma gate_exit_zero cfg :
  (run_gate_cli cfg).2 = 0%Z ↔
  ∃ raw, _raw_changed_files cfg = Ok raw
    ∧ (∀ g, ontology cfg = Some g → axioms_hold (included cfg raw) g)
    ∧ proofs_hold cfg raw (included cfg raw)
    ∧ (included cfg raw ≠ [] → reviews_hold cfg (included cfg raw)).
Proof.
  unfold run_gate_cli, run_merge_gate. destruct (_raw_changed_files cfg) as [raw|e]; bindsimp; [|cbn; naive_solver].
  set (files := included cfg raw). set (viol := match ontology cfg with Some g => _ | None => _ end).
  assert (no_reasons viol = true ↔ ∀ g, ontology cfg = Some g → axioms_hold files g) as Hviol.
  { unfold viol. destruct (ontology cfg) as [g|]; [rewrite ontology_violations_none; naive_solver|naive_solver]. }
  pose proof (formal_stage_none cfg raw files) as Hform.
  destruct (formal_stage cfg raw files) as [[fv fe] fb]. cbn [snd] in Hform.
  transitivity (no_reasons (viol ++ fb) = true ∧ (files ≠ [] → reviews_hold cfg files)).
  2: { rewrite no_reasons_app, Hviol, Hform. split; [intros [[? ?] ?]; by exists raw|].
       by intros (? & [= <-] & ? & ? & ?). }
  assert (∀ b : bool, (if b then 0%Z else 1%Z) = 0%Z ↔ b = true) as Hb by (by intros []).
  destruct files as [|f files'] eqn:Ef; [cbv zeta; cbn [gr_passed snd]; etransitivity; [apply Hb|naive_solver]|]. rewrite <- Ef.
  unfold reviews_hold. pose proof (sandbox_none cfg files) as Hs.
  destruct (sandbox_stage cfg files) as [[sv ss] sb]. cbn [snd] in Hs.
  destruct (judge cfg) as [run|e]; bindsimp; cbv zeta; cbn [gr_passed snd].
  2: { split; [done|]. intros [_ H]. destruct (H ltac:(by rewrite Ef)) as [_ (? & ? & ? & ?)]. done. }
  pose proof (judge_none cfg files run) as Hj. destruct (judge_stage cfg run files) as [[[sc ok] sm] jb]. cbn [snd] in Hj.
  cbn [gr_passed snd]. etransitivity; [apply Hb|]. rewrite app_assoc, (no_reasons_app _ jb), (no_reasons_app _ sb), Hs, Hj.
  assert (files ≠ []) as Hne by (by rewrite Ef). clear - Hne. split.
  - intros [[? ?] (v & ? & ?)]. split; [done|]. intros _. split; [done|]. by exists run, v.
  - intros [? H]. destruct (H Hne) as [? (run' & v & [= <-] & ? & ?)]. split; [done|]. by exists v.
Qed.

End gate.

(** ** Concrete runs *)
Definition gate_cfg (g : option OntologyGraph) (diff : result string string) (files : option (list (string * string))) : GateConfig :=
  mkGateConfig (7 # 10) false false [".py"] files diff
    (Ok (λ _, Ok (mkJVerdict true (mkScore 0 0 0 0 0 0 (9 # 10)) (JArr []) (JArr []) (JArr []) (JStr "ready") (JStr "fine") "")))
    (λ _ _, Ok (true, "")) None [] g.

Definition gate_parse (s : string) : option (list pynode) := Some (map NameNode (split_slash "" s)).

Abbreviation demo_gate cfg := (run_gate_cli (λ _, OsError) gate_parse (λ _, "") (λ _, "") cfg).

(** git prints nothing when it fails (an unknown target, no repository), its exit code
    is not looked at, and the gate passes with no files. *)
Example git_failure_passes : (demo_gate (gate_cfg None (Ok "") None)).2 = 0%Z.
Proof. vm_compute. reflexivity. Qed.

(** Only the first [requires] axiom of a subject is enforced: a file that uses the
    payment code without the audit log passes. *)
Definition payment_axioms : OntologyGraph :=
  mkGraph 10 10 [] [mkRelation "Payment" "requires" "Lock" 1 []; mkRelation "Payment" "requires" "AuditLog" 1 []] [] [].

Example second_requires_is_ignored :
  (demo_gate (gate_cfg (Some payment_axioms) (Ok "") (Some [("app/pay.py", "Payment/Lock")]))).2 = 0%Z
  ∧ (demo_gate (gate_cfg (Some payment_axioms) (Ok "") (Some [("app/pay.py", "Payment/AuditLog")]))).2 = 1%Z.
Proof. split; vm_compute; reflexivity. Qed.

(** A changed file that is not UTF-8 raises out of [run_merge_gate], which documents
    that it never raises; the command still blocks. *)
Example undecodable_file_raises :
  run_merge_gate (λ _, DecodeError) gate_parse (λ _, "") (λ _, "") (gate_cfg None (Ok "app/pay.py") None)
  = Err "UnicodeDecodeError".
Proof. vm_compute. reflexivity. Qed.
