(* ===== verification/AuditLog.v ===== *)
(** * The audit logger

    [audit/logger.py] over the Merkle trees of [MerkleProof].  [log] is cut at the
    await of its database insert: [log_begin] is everything before it, [log_end] what
    follows a failed or successful insert, so that concurrent calls can interleave.
    The fallback directory is a list of files with their lines; a write may fail.
    SHA-256, the canonical serialisation, the JSON codec, [str(int)] as bytes, ISO
    dates and the answers of PostgreSQL are parameters.

    The theorems: in file mode every logged event whose record was written can be
    proved against the current root, a restart recovers the leaf hashes in order, and
    queries stay within the tenant. *)
From Stdlib Require Import ZArith QArith Qround Lia Bool Ascii String.
From stdpp Require Import base option numbers sets strings sorting list.
From S2P Require Import Prelude MerkleProof.
Local Open Scope string_scope.
Local Open Scope list_scope.
Local Open Scope nat_scope.

Abbreviation obj := (list (string * json)).

(** ** Tenant file names *)
Definition tenant_char (a : ascii) : bool :=
  let n := nat_of_ascii a in
  ((65 <=? n) && (n <=? 90)) || ((97 <=? n) && (n <=? 122)) || ((48 <=? n) && (n <=? 57))
  || existsb (Ascii.eqb a) ["_"%char; "."%char; "-"%char].

(** [re.sub("[^A-Za-z0-9_.-]+", "_", s)]; [inside] says that the previous character
    belonged to a run that was replaced. *)
Fixpoint sub_runs (inside : bool) (s : string) : string :=
  match s with
  | EmptyString => ""
  | String a t =>
      if tenant_char a then String a (sub_runs false t)
      else if inside then sub_runs true t else String "_" (sub_runs true t)
  end.

Definition _tenant_filename (tenant : string) : result pyexn string :=
  let name := sub_runs false tenant in
  if String.eqb name "" || String.eqb name "." || String.eqb name ".." || (100 <? String.length name)%nat
  then Err ValueError else Ok name.

(** ** Events *)
Record AuditEvent := mkEvent {
  timestamp : string;                    (* in ISO form *)
  event_type : string;
  tenant_id : string;
  user_id : string;
  task_id : option string;
  details : obj;                         (* [None] became [{}] *)
  ip_address : option string;
  user_agent : option string;
  commitment : option string;
  chain_link : option string;
  ev_index : option nat;
}.

Definition opt_str (o : option string) : json := match o with Some s => JStr s | None => JNull end.

(** [_build_leaf_data] of an event. *)
Definition leaf_of_event (e : AuditEvent) : json :=
  JObj [("timestamp", JStr (timestamp e)); ("event_type", JStr (event_type e)); ("tenant_id", JStr (tenant_id e));
        ("user_id", JStr (user_id e)); ("task_id", opt_str (task_id e)); ("details", JObj (details e))].

(** [asdict] of an event, as [_write_fallback] stores it. *)
Definition record_of (e : AuditEvent) : obj :=
  [("timestamp", JStr (timestamp e)); ("event_type", JStr (event_type e)); ("tenant_id", JStr (tenant_id e));
   ("user_id", JStr (user_id e)); ("task_id", opt_str (task_id e)); ("details", JObj (details e));
   ("ip_address", opt_str (ip_address e)); ("user_agent", opt_str (user_agent e)); ("commitment", opt_str (commitment e));
   ("chain_link", opt_str (chain_link e));
   ("block_index", match ev_index e with Some i => JNum (inject_Z (Z.of_nat i)) | None => JNull end)].

(** [isinstance(x, int)] *)
Definition as_int (j : option json) : option Z :=
  match j with
  | Some (JNum q) => if Qeq_bool q (inject_Z (Qfloor q)) then Some (Qfloor q) else None
  | Some (JBool b) => Some (if b then 1%Z else 0%Z)
  | _ => None
  end.

Definition index_key (r : obj) : Z := default 0%Z (as_int (dget "block_index" r)).

Definition key_le (r1 r2 : obj) : Prop := (index_key r1 <= index_key r2)%Z.
#[global] Instance key_le_dec : RelDecision key_le.
Proof. intros r1 r2. unfold key_le. apply _. Defined.

Definition sort_by_index (l : list obj) : list obj := merge_sort key_le l.

(** The hashes of the records that carry a readable commitment. *)
Definition hashes_of (l : list obj) : list bytes :=
  concat (map (λ r, match dget "commitment" r with
                    | Some (JStr c) => if nonempty c then match fromhex c with Ok b => [b] | Err _ => [] end else []
                    | _ => []
                    end) l).

Record AuditLogger := mkLogger {
  pg : bool;                             (* a pool is configured *)
  _initialized : bool;
  _file_fallback : bool;
  _leaf_hashes : list bytes;
  _tree : option IncrementalMerkleTree;
}.

(** File names with their lines. *)
Abbreviation audit_dir := (list (string * list string)).

Section audit.
Context (sha256 : bytes → bytes) (serialize : json → bytes) (dumps : json → string) (loads : string → option json)
        (str_bytes : nat → bytes) (repr : json → string).

Abbreviation safe_hash := (_safe_hash sha256).

Definition logger_init (has_pg : bool) : AuditLogger := mkLogger has_pg false false [] None.

Definition with_tree (l : AuditLogger) (t : IncrementalMerkleTree) : AuditLogger :=
  mkLogger (pg l) (_initialized l) (_file_fallback l) (_leaf_hashes l) (Some t).

Definition _sync_tree (l : AuditLogger) : result pyexn AuditLogger :=
  match _tree l with
  | Some t => if (count t =? length (_leaf_hashes l))%nat then Ok l
              else t ← tree_init sha256 (_leaf_hashes l); Ok (with_tree l t)
  | None => t ← tree_init sha256 (_leaf_hashes l); Ok (with_tree l t)
  end.

(** ** Reading files *)

(** The rows of a file; a line that is not JSON is skipped. *)
Definition rows_of (lines : list string) : list json :=
  concat (map (λ l, let l := strip l in if nonempty l then match loads l with Some j => [j] | None => [] end else []) lines).

(** [r.get] of a row that is not an object raises. *)
Fixpoint as_objects (rows : list json) : result pyexn (list obj) :=
  match rows with
  | [] => Ok []
  | JObj d :: rows => ds ← as_objects rows; Ok (d :: ds)
  | _ => Err AttributeError
  end.

Definition _load_leaf_hashes_fallback (dir : audit_dir) : result pyexn (list bytes) :=
  rs ← as_objects (concat (map (λ f, rows_of f.2) dir));
  Ok (hashes_of (sort_by_index rs)).

(** Rows of [SELECT commitment ... ORDER BY block_index]; any error gives []. *)
Fixpoint decode_all (l : list string) : result pyexn (list bytes) :=
  match l with [] => Ok [] | c :: l => b ← fromhex c; bs ← decode_all l; Ok (b :: bs) end.

Definition _load_leaf_hashes (rows : option (list string)) : list bytes :=
  match rows with
  | Some l => match decode_all l with Ok bs => bs | Err _ => [] end
  | None => []
  end.

Definition set_leaves (l : AuditLogger) (hs : list bytes) : AuditLogger :=
  mkLogger (pg l) (_initialized l) (_file_fallback l) hs (_tree l).

(** [initialize]: [table_ok] says whether the table statements succeeded, [rows] what the
    select returned. *)
Definition initialize (l : AuditLogger) (table_ok : bool) (rows : option (list string)) (dir : audit_dir)
    : result pyexn AuditLogger :=
  let fallback :=
    hs ← _load_leaf_hashes_fallback dir;
    _sync_tree (set_leaves (mkLogger (pg l) true true (_leaf_hashes l) (_tree l)) hs) in
  if pg l && negb (_file_fallback l) && table_ok then
    match _sync_tree (set_leaves l (_load_leaf_hashes rows)) with
    | Ok l => Ok (mkLogger (pg l) true (_file_fallback l) (_leaf_hashes l) (_tree l))
    | Err _ => fallback
    end
  else fallback.

(** ** Logging *)
Definition _get_prev_root (l : AuditLogger) : result pyexn (AuditLogger * bytes) :=
  l ← _sync_tree l;
  match _tree l with Some t => r ← root t; Ok (l, r) | None => Ok (l, zero32) end.

Definition stamped (e : AuditEvent) (c k : string) (i : nat) : AuditEvent :=
  mkEvent (timestamp e) (event_type e) (tenant_id e) (user_id e) (task_id e) (details e) (ip_address e) (user_agent e)
    (Some c) (Some k) (Some i).

(** [log] up to its await, for an initialised logger. *)
Definition log_begin (l : AuditLogger) (e : AuditEvent) : result pyexn (AuditLogger * AuditEvent) :=
  let payload := serialize (leaf_of_event e) in
  let i := length (_leaf_hashes l) in
  let c := safe_hash payload in
  '(l, prev) ← _get_prev_root l;
  let link := safe_hash (prev ++ payload ++ str_bytes i) in
  let e := stamped e (hex c) (hex link) i in
  let l := mkLogger (pg l) (_initialized l) (_file_fallback l) (_leaf_hashes l ++ [c]) (_tree l) in
  match _tree l with
  | Some t => t ← tree_append sha256 t c; Ok (with_tree l t, e)
  | None => l ← _sync_tree l; Ok (l, e)
  end.

(** Appending a line; [ok] is false for an [OSError], which is only logged. *)
Definition append_line (dir : audit_dir) (file line : string) : audit_dir :=
  dset file (default [] (dget file dir) ++ [line]) dir.

Definition _write_fallback (dir : audit_dir) (e : AuditEvent) (ok : bool) : result pyexn audit_dir :=
  name ← _tenant_filename (tenant_id e);
  Ok (if ok then append_line dir (name +:+ ".jsonl") (dumps (JObj (record_of e))) else dir).

(** [log] after its await: [insert] is [Some true] for a stored row, [Some false] for a
    failed insert, [None] when no insert was tried. *)
Definition log_end (l : AuditLogger) (dir : audit_dir) (e : AuditEvent) (insert : option bool) (write_ok : bool)
    : AuditLogger * result pyexn audit_dir :=
  match insert with
  | Some true => (l, Ok dir)
  | Some false => (mkLogger (pg l) (_initialized l) true (_leaf_hashes l) (_tree l), _write_fallback dir e write_ok)
  | None => (l, _write_fallback dir e write_ok)
  end.

Definition uses_pg (l : AuditLogger) : bool := negb (_file_fallback l) && pg l.

(** ** Proofs *)

(** [_build_leaf_data] of a stored row, for the fields the files and the query have. *)
Definition leaf_of_row (r : obj) : result pyexn json :=
  match dget "timestamp" r, dget "event_type" r, dget "tenant_id" r, dget "user_id" r with
  | Some ts, Some ty, Some tn, Some u =>
      let det := default JNull (dget "details" r) in
      Ok (JObj [("timestamp", JStr (match ts with JStr s => s | j => repr j end)); ("event_type", ty); ("tenant_id", tn);
                ("user_id", u); ("task_id", default JNull (dget "task_id" r));
                ("details", match det with
                            | JNull | JBool false | JStr "" | JArr [] | JObj [] => JObj []
                            | JNum q => if Qeq_bool q 0 then JObj [] else det
                            | _ => det
                            end)])
  | _, _, _, _ => Err KeyError
  end.

Definition is_target (tenant task : string) (r : obj) : bool :=
  match dget "task_id" r, dget "tenant_id" r with
  | Some (JStr x), Some (JStr y) => String.eqb x task && String.eqb y tenant
  | _, _ => false
  end.

(** The last row of the task in the tenant's file. *)
Definition target_record (tenant task : string) (rs : list obj) : option obj :=
  last (filter (λ r, is_target tenant task r = true) rs).

(** The proof with the leaf data it is for; the index is that of the record. *)
Definition _get_proof_fallback (l : AuditLogger) (dir : audit_dir) (tenant task : string)
    : result pyexn (AuditLogger * (InclusionProof * json)) :=
  name ← _tenant_filename tenant;
  match dget (name +:+ ".jsonl") dir with
  | None => Err ValueError
  | Some lines =>
      rs ← as_objects (rows_of lines);
      match target_record tenant task rs with
      | None => Err ValueError
      | Some r =>
          let hs := hashes_of (sort_by_index rs) in
          leaf ← leaf_of_row r;
          let raw := default (JNum 0) (dget "block_index" r) in
          match as_int (Some raw) with
          | None => match hs with [] => Err ValueError | _ => Err TypeError end
          | Some i =>
              if negb (bool_decide (_leaf_hashes l = [])) && (0 <=? i)%Z && (i <? Z.of_nat (length (_leaf_hashes l)))%Z then
                l ← _sync_tree l;
                match _tree l with
                | Some t =>
                    p ← (if (count t =? length (_leaf_hashes l))%nat then inclusion_proof sha256 serialize t leaf i
                         else generate_inclusion_proof sha256 serialize leaf i (_leaf_hashes l));
                    Ok (l, (p, leaf))
                | None => p ← generate_inclusion_proof sha256 serialize leaf i (_leaf_hashes l); Ok (l, (p, leaf))
                end
              else p ← generate_inclusion_proof sha256 serialize leaf i hs; Ok (l, (p, leaf))
          end
      end
  end.

(** The row of the proof query: its columns do not include [task_id]. *)
Record pg_row := mkPgRow {
  r_block_index : Z;
  r_details : json;
  r_event_type : string;
  r_timestamp : string;
  r_user_id : string;
  r_tenant_id : string;
  r_commitment : string;
}.

Definition row_dict (r : pg_row) : obj :=
  [("block_index", JNum (inject_Z (r_block_index r))); ("details", r_details r); ("event_type", JStr (r_event_type r));
   ("timestamp", JStr (r_timestamp r)); ("user_id", JStr (r_user_id r)); ("tenant_id", JStr (r_tenant_id r));
   ("commitment", JStr (r_commitment r))].

(** [fetched] is the answer of the query, [reload] that of the select of hashes. *)
Definition get_proof_for_task (l : AuditLogger) (dir : audit_dir) (tenant task : string)
    (fetched : option (option pg_row)) (reload : option (list string)) : result pyexn (AuditLogger * (InclusionProof * json)) :=
  if _file_fallback l || negb (pg l) then _get_proof_fallback l dir tenant task
  else match fetched with
       | None => _get_proof_fallback l dir tenant task
       | Some None => Err ValueError
       | Some (Some r) =>
           let attempt :=
             leaf ← leaf_of_row (row_dict r);
             let l := match _leaf_hashes l with [] => set_leaves l (_load_leaf_hashes reload) | _ => l end in
             l ← _sync_tree l;
             match _tree l with
             | None => Err RuntimeError
             | Some t => p ← inclusion_proof sha256 serialize t leaf (r_block_index r); Ok (l, (p, leaf))
             end in
           match attempt with
           | Ok x => Ok x
           | Err ValueError => Err ValueError
           | Err _ => _get_proof_fallback l dir tenant task
           end
       end.

(** ** Runs

    [logged] lists the stamped events in the order of their [log_begin]; [inflight] those
    whose insert is not answered yet. *)
Record sys := mkSys {
  lg : AuditLogger;
  dir : audit_dir;
  inflight : list AuditEvent;
  logged : list AuditEvent;
}.

Inductive act :=
| Log (e : AuditEvent) (write_ok : bool)                 (* a call of [log], up to its await or its end *)
| Inserted (k : nat) (ok write_ok : bool).               (* the insert of the [k]-th waiting call is answered *)

(** A write that raises (an invalid tenant name) leaves the directory unchanged. *)
Definition settle (s : sys) (l : AuditLogger) (wait done : list AuditEvent) (e : AuditEvent) (ins : option bool) (ok : bool) : sys :=
  let '(l, r) := log_end l (dir s) e ins ok in
  mkSys l (match r with Ok d => d | Err _ => dir s end) wait done.

Definition audit_step (s : sys) (a : act) : option sys :=
  match a with
  | Log e ok =>
      match log_begin (lg s) e with
      | Err _ => None
      | Ok (l, e) =>
          Some (if uses_pg l then mkSys l (dir s) (inflight s ++ [e]) (logged s ++ [e])
                else settle s l (inflight s) (logged s ++ [e]) e None ok)
      end
  | Inserted k ok wok =>
      match inflight s !! k with
      | None => None
      | Some e => Some (settle s (lg s) (take k (inflight s) ++ drop (S k) (inflight s)) (logged s) e (Some ok) wok)
      end
  end.

Definition audit_start (l : AuditLogger) : sys := mkSys l [] [] [].

Definition leaf_hash_of (e : AuditEvent) : bytes := safe_hash (serialize (leaf_of_event e)).
Definition line_of (e : AuditEvent) : string := dumps (JObj (record_of e)).

(** A line of [file] that an event wrote. *)
Definition written (evs : list AuditEvent) (file line : string) : Prop :=
  ∃ e name, e ∈ evs ∧ _tenant_filename (tenant_id e) = Ok name ∧ file = name +:+ ".jsonl" ∧ line = line_of e.

Record audit_inv (s : sys) : Prop := {
  inv_hashes : _leaf_hashes (lg s) = map leaf_hash_of (logged s);
  inv_tree : ∀ t, _tree (lg s) = Some t → tree_inv sha256 t ∧ _real t = _leaf_hashes (lg s);
  inv_index : ∀ i e, logged s !! i = Some e → ev_index e = Some i ∧ commitment e = Some (hex (leaf_hash_of e));
  inv_waiting : ∀ e, e ∈ inflight s → e ∈ logged s;
  inv_files : ∀ file lines, dget file (dir s) = Some lines → ∀ line, line ∈ lines → written (logged s) file line;
}.

Lemma sync_tree_ok l :
  (∀ t, _tree l = Some t → tree_inv sha256 t ∧ _real t = _leaf_hashes l) →
  ∃ t, _sync_tree l = Ok (with_tree l t) ∧ tree_inv sha256 t ∧ _real t = _leaf_hashes l.
Proof.
  intros Ht. unfold _sync_tree. destruct (tree_init_inv sha256 (_leaf_hashes l)) as (t0 & -> & Hi0 & Hr0).
  destruct (_tree l) as [t|] eqn:E; [|by exists t0]. destruct (Ht t eq_refl) as [Hi Hr].
  unfold count. rewrite Hr, Nat.eqb_refl. exists t. split; [|done]. unfold with_tree. rewrite <- E. by destruct l.
Qed.

Lemma log_begin_ok l e :
  (∀ t, _tree l = Some t → tree_inv sha256 t ∧ _real t = _leaf_hashes l) →
  ∃ t link, log_begin l e = Ok (mkLogger (pg l) (_initialized l) (_file_fallback l) (_leaf_hashes l ++ [leaf_hash_of e]) (Some t),
      stamped e (hex (leaf_hash_of e)) link (length (_leaf_hashes l)))
    ∧ tree_inv sha256 t ∧ _real t = _leaf_hashes l ++ [leaf_hash_of e].
Proof.
  intros Ht. unfold log_begin, _get_prev_root. destruct (sync_tree_ok l Ht) as (t & -> & Hi & Hr). bindsimp.
  cbn [_tree with_tree pg _initialized _file_fallback _leaf_hashes]. rewrite (inv_root sha256) by done.
  assert (∃ r, compute_root sha256 (_real t) = Ok r) as [r ->].
  { destruct (decide (_real t = [])) as [->|Hne]; [by eexists|]. rewrite compute_root_spec by done. by eexists. }
  bindsimp. destruct (tree_append_inv sha256 t (leaf_hash_of e) Hi) as (t' & E & Hi' & Hr').
  unfold leaf_hash_of in E. cbn [_tree with_tree]. rewrite E. bindsimp. eexists t', _. split; [done|]. split; [done|]. by rewrite Hr', Hr.
Qed.

Lemma append_line_files d evs e name file lines :
  (∀ f ls, dget f d = Some ls → ∀ l, l ∈ ls → written evs f l) → e ∈ evs → _tenant_filename (tenant_id e) = Ok name →
  dget file (append_line d (name +:+ ".jsonl") (line_of e)) = Some lines → ∀ line, line ∈ lines → written evs file line.
Proof.
  intros Hd He Hn. unfold append_line. rewrite dget_dset. case_decide as Hf; [|apply Hd].
  intros [= <-] line [Hl|Hl]%elem_of_app.
  - destruct (dget (name +:+ ".jsonl") d) as [ls|] eqn:E; [|by apply not_elem_of_nil in Hl]. subst. by eapply Hd.
  - apply list_elem_of_singleton in Hl as ->. by exists e, name.
Qed.

Lemma settle_inv s l wait evs e ins ok :
  _leaf_hashes l = map leaf_hash_of evs → (∀ t, _tree l = Some t → tree_inv sha256 t ∧ _real t = _leaf_hashes l) →
  (∀ i e, evs !! i = Some e → ev_index e = Some i ∧ commitment e = Some (hex (leaf_hash_of e))) →
  (∀ x, x ∈ wait → x ∈ evs) → (∀ f ls, dget f (dir s) = Some ls → ∀ x, x ∈ ls → written evs f x) → e ∈ evs →
  audit_inv (settle s l wait evs e ins ok).
Proof.
  intros Hh Ht Hidx Hw Hf He. unfold settle, log_end, _write_fallback.
  assert (∀ b file ls, dget file (match (name ← _tenant_filename (tenant_id e);
      Ok (if b : bool then append_line (dir s) (name +:+ ".jsonl") (dumps (JObj (record_of e))) else dir s))
      with Ok d => d | Err _ => dir s end) = Some ls → ∀ line, line ∈ ls → written evs file line) as Hd.
  { intros b file ls. destruct (_tenant_filename (tenant_id e)) as [name|x] eqn:En; bindsimp; [|apply Hf].
    destruct b; [|apply Hf]. by apply (append_line_files (dir s) evs e name). }
  destruct ins as [[]|]; split; cbn [lg dir inflight logged _leaf_hashes _tree]; try done; apply Hd.
Qed.

Lemma log_step_data s e link :
  audit_inv s → e = stamped e (hex (leaf_hash_of e)) link (length (logged s)) →
  (∀ i x, (logged s ++ [e]) !! i = Some x → ev_index x = Some i ∧ commitment x = Some (hex (leaf_hash_of x)))
  ∧ (∀ f ls, dget f (dir s) = Some ls → ∀ x, x ∈ ls → written (logged s ++ [e]) f x)
  ∧ (∀ x, x ∈ inflight s → x ∈ logged s ++ [e]).
Proof.
  intros [Hh Ht Hi Hw Hf] He. split_and!; [| |set_solver].
  - intros i x [Hx|[Hle Hx]]%lookup_app_Some; [by apply Hi|].
    destruct (i - length (logged s)) as [|k] eqn:Ek; [|by destruct k]. cbn in Hx. simplify_eq.
    rewrite He. cbn. split; [f_equal; lia|done].
  - intros f ls E x Hx. destruct (Hf f ls E x Hx) as (e' & name & Hin & H). exists e', name. split; [set_solver|done].
Qed.

Lemma audit_step_inv s a s' : audit_inv s → audit_step s a = Some s' → audit_inv s'.
Proof.
  intros Hinv. destruct a as [e ok|k ok wok]; cbn [audit_step].
  - destruct (log_begin_ok (lg s) e (inv_tree s Hinv)) as (t & link & -> & Hti & Htr). intros [= <-].
    set (e' := stamped _ _ _ _). assert (length (_leaf_hashes (lg s)) = length (logged s)) as Hlen.
    { rewrite (inv_hashes s Hinv). apply length_map. }
    assert (leaf_hash_of e' = leaf_hash_of e) as Hle by done.
    destruct (log_step_data s e' link Hinv) as (H1 & H2 & H3); [unfold e'; rewrite Hlen; done|].
    assert (_leaf_hashes (lg s) ++ [leaf_hash_of e] = map leaf_hash_of (logged s ++ [e'])) as Hh.
    { rewrite map_app, (inv_hashes s Hinv). done. }
    assert (e' ∈ logged s ++ [e']) as He by set_solver.
    case_match; [split; cbn [lg dir inflight logged _leaf_hashes _tree]; [done|by intros ? [= <-]|done| |done]|].
    + intros x [Hx|Hx]%elem_of_app; [by apply H3|]. by apply list_elem_of_singleton in Hx as ->.
    + apply settle_inv; cbn [lg dir inflight logged _leaf_hashes _tree]; [done|by intros ? [= <-]|done..].
  - destruct (inflight s !! k) as [e|] eqn:Ek; [|done]. intros [= <-]. destruct Hinv as [Hh Ht Hi Hw Hf].
    apply list_elem_of_lookup_2 in Ek as Hin. apply settle_inv; [done..| |done|by apply Hw].
    intros x [Hx|Hx]%elem_of_app; apply Hw.
    + by apply (subseteq_take k (inflight s)).
    + by apply (subseteq_drop (S k) (inflight s)).
Qed.

(** ** Reading back *)

(** The codec gives back the record of the event, and its line is not changed by
    [strip]. *)
Definition readable (e : AuditEvent) : Prop :=
  strip (line_of e) = line_of e ∧ nonempty (line_of e) = true ∧ loads (line_of e) = Some (JObj (record_of e)).

Lemma rows_of_lines evs : Forall readable evs → rows_of (map line_of evs) = map (λ e, JObj (record_of e)) evs.
Proof.
  induction 1 as [|e evs (Hs & Hn & Hl) _ IH]; [done|]. unfold rows_of in *. cbn [map concat].
  rewrite Hs, Hn, Hl, IH. done.
Qed.

Lemma as_objects_rows evs : as_objects (map (λ e, JObj (record_of e)) evs) = Ok (map record_of evs).
Proof. induction evs as [|e evs IH]; [done|]. cbn [map as_objects]. by rewrite IH. Qed.

Lemma as_int_nat i : as_int (Some (JNum (inject_Z (Z.of_nat i)))) = Some (Z.of_nat i).
Proof. unfold as_int. rewrite Qfloor_Z. by rewrite (proj2 (Qeq_bool_iff _ _)). Qed.

Lemma leaf_of_record e : leaf_of_row (record_of e) = Ok (leaf_of_event e).
Proof.
  unfold leaf_of_row, leaf_of_event.
  change (dget "timestamp" (record_of e)) with (Some (JStr (timestamp e))).
  change (dget "event_type" (record_of e)) with (Some (JStr (event_type e))).
  change (dget "tenant_id" (record_of e)) with (Some (JStr (tenant_id e))).
  change (dget "user_id" (record_of e)) with (Some (JStr (user_id e))).
  change (dget "task_id" (record_of e)) with (Some (opt_str (task_id e))).
  change (dget "details" (record_of e)) with (Some (JObj (details e))).
  cbn [default from_option id]. by destruct (details e).
Qed.

Lemma is_target_record tenant task e :
  is_target tenant task (record_of e) = true ↔ task_id e = Some task ∧ tenant_id e = tenant.
Proof.
  unfold is_target. change (dget "tenant_id" (record_of e)) with (Some (JStr (tenant_id e))).
  change (dget "task_id" (record_of e)) with (Some (opt_str (task_id e))).
  destruct (task_id e) as [x|]; cbn [opt_str]; [|naive_solver].
  rewrite andb_true_iff, !String.eqb_eq. naive_solver.
Qed.

Lemma target_record_spec tenant task evs e0 :
  e0 ∈ evs → task_id e0 = Some task → tenant_id e0 = tenant →
  ∃ e, target_record tenant task (map record_of evs) = Some (record_of e) ∧ e ∈ evs ∧ task_id e = Some task ∧ tenant_id e = tenant.
Proof.
  intros He Ht Hn. unfold target_record.
  assert (record_of e0 ∈ filter (λ r, is_target tenant task r = true) (map record_of evs)) as Hin.
  { apply list_elem_of_filter. split; [by apply is_target_record|]. apply list_elem_of_fmap. by exists e0. }
  destruct (last (filter _ _)) as [r|] eqn:E; [|apply last_None in E; rewrite E in Hin; by apply not_elem_of_nil in Hin].
  apply last_Some_elem_of, list_elem_of_filter in E as [Hr (e & -> & Hev)%list_elem_of_fmap].
  apply is_target_record in Hr as [? ?]. by exists e.
Qed.

(** The events behind the lines of a file. *)
Lemma file_events s file lines :
  audit_inv s → dget file (dir s) = Some lines →
  ∃ evs, lines = map line_of evs ∧ ∀ e, e ∈ evs → e ∈ logged s.
Proof.
  intros Hinv E. pose proof (inv_files s Hinv file lines E) as Hl. clear E. induction lines as [|x lines IH].
  { exists []. split; [done|]. intros e He. by apply not_elem_of_nil in He. }
  destruct IH as (evs & -> & Hevs); [intros; apply Hl; by right|].
  destruct (Hl x) as (e & name & He & _ & _ & ->); [by left|]. exists (e :: evs). split; [done|].
  intros e' [->|?]%elem_of_cons; auto.
Qed.

Lemma proof_fallback_ok s tenant task name lines e0 :
  audit_inv s → Forall readable (logged s) → _tenant_filename tenant = Ok name →
  dget (name +:+ ".jsonl") (dir s) = Some lines → e0 ∈ logged s → line_of e0 ∈ lines →
  tenant_id e0 = tenant → task_id e0 = Some task →
  ∃ l' p e, _get_proof_fallback (lg s) (dir s) tenant task = Ok (l', (p, leaf_of_event e))
    ∧ e ∈ logged s ∧ tenant_id e = tenant ∧ task_id e = Some task
    ∧ compute_root sha256 (_leaf_hashes (lg s)) = Ok (root_hash p)
    ∧ verify_inclusion_proof sha256 serialize p (leaf_of_event e) = true.
Proof.
  intros Hinv Hread Hname Hfile He0 Hline Htn Htk. destruct (file_events s _ _ Hinv Hfile) as (evs & -> & Hevs).
  assert (Forall readable evs) as Hr by (apply Forall_forall; intros e He; rewrite Forall_forall in Hread; auto).
  assert (∃ e1, e1 ∈ evs ∧ tenant_id e1 = tenant ∧ task_id e1 = Some task) as (e1 & He1 & Htn1 & Htk1).
  { apply list_elem_of_fmap in Hline as (e1 & El & He1). exists e1. split; [done|].
    rewrite Forall_forall in Hread. destruct (Hread e0 He0) as (_ & _ & H0). destruct (Hread e1 (Hevs _ He1)) as (_ & _ & H1).
    rewrite El in H0. rewrite H0 in H1. injection H1 as _ _ Ht _ Hk _ _ _ _ _ _. split; [congruence|].
    destruct (task_id e0), (task_id e1); cbn in Hk; congruence. }
  unfold _get_proof_fallback. rewrite Hname. bindsimp. rewrite Hfile, rows_of_lines, as_objects_rows by done. bindsimp.
  destruct (target_record_spec tenant task evs e1 He1 Htk1 Htn1) as (e & -> & He & Htk' & Htn').
  rewrite leaf_of_record. bindsimp. specialize (Hevs e He). apply list_elem_of_lookup in Hevs as [i Hi].
  destruct (inv_index s Hinv i e Hi) as [Hidx _].
  change (dget "block_index" (record_of e)) with
    (Some (match ev_index e with Some i => JNum (inject_Z (Z.of_nat i)) | None => JNull end)).
  rewrite Hidx. cbn [default from_option id]. rewrite as_int_nat.
  assert (i < length (_leaf_hashes (lg s))) as Hlt.
  { rewrite (inv_hashes s Hinv), length_map. by eapply lookup_lt_Some. }
  rewrite bool_decide_eq_false_2 by (intros Hn; rewrite Hn in Hlt; cbn in Hlt; lia). cbn [negb andb].
  rewrite (proj2 (Z.leb_le 0 _)), (proj2 (Z.ltb_lt _ _)) by lia. cbn [andb].
  destruct (sync_tree_ok (lg s) (inv_tree s Hinv)) as (t & -> & Hti & Htr). bindsimp. cbn [_tree with_tree _leaf_hashes].
  unfold count. rewrite Htr, Nat.eqb_refl, (inv_inclusion_proof sha256 serialize) by done. rewrite Htr.
  destruct (inclusion_proof_complete sha256 serialize (_leaf_hashes (lg s)) i (leaf_of_event e)) as (p & Ep & Hroot & _ & Hv).
  { rewrite (inv_hashes s Hinv), list_lookup_fmap, Hi. done. }
  destruct (_leaf_hashes (lg s)) as [|h hs] eqn:Eh; [cbn in Hlt; lia|]. rewrite <- Eh in *. rewrite Ep. bindsimp.
  eexists _, p, e. split_and!; [done|by eapply list_elem_of_lookup_2|done..].
Qed.

(** ** Restart *)
Lemma concat_append_line (d : audit_dir) file line :
  concat (map snd (append_line d file line)) ≡ₚ line :: concat (map snd d).
Proof.
  unfold append_line. induction d as [|[f ls] d IH]; [done|]. rewrite dget_cons, dset_cons.
  case_decide; cbn [map concat snd]; [|rewrite IH; by rewrite Permutation_middle].
  cbn [default from_option id]. rewrite <- app_assoc. cbn. by rewrite Permutation_middle.
Qed.

Lemma rows_of_concat (d : audit_dir) : concat (map (λ f, rows_of f.2) d) = rows_of (concat (map snd d)).
Proof. unfold rows_of. induction d as [|f d IH]; [done|]. cbn [map concat]. by rewrite IH, map_app, concat_app. Qed.

(** Hashes read back in index order are the leaf hashes in log order. *)
Lemma hashes_of_records evs :
  (∀ i e, evs !! i = Some e → ev_index e = Some i ∧ commitment e = Some (hex (leaf_hash_of e))) →
  (∀ e, e ∈ evs → nonempty (hex (leaf_hash_of e)) = true) →
  hashes_of (map record_of evs) = map leaf_hash_of evs.
Proof.
  intros Hi Hne. assert (∀ e, e ∈ evs → commitment e = Some (hex (leaf_hash_of e))) as Hc.
  { intros e [i He]%list_elem_of_lookup. by apply (Hi i e He). }
  clear Hi. unfold hashes_of. induction evs as [|e evs IH]; [done|]. cbn [map concat].
  rewrite IH by (intros; (apply Hc || apply Hne); by right).
  change (dget "commitment" (record_of e)) with (Some (opt_str (commitment e))).
  rewrite (Hc e) by left. cbn [opt_str]. rewrite Hne by left. by rewrite fromhex_hex.
Qed.

Lemma index_key_record e i : ev_index e = Some i → index_key (record_of e) = Z.of_nat i.
Proof.
  intros Hi. unfold index_key.
  change (dget "block_index" (record_of e)) with
    (Some (match ev_index e with Some i => JNum (inject_Z (Z.of_nat i)) | None => JNull end)).
  rewrite Hi. by rewrite as_int_nat.
Qed.

Lemma sorted_records evs k :
  (∀ i e, evs !! i = Some e → ev_index e = Some (k + i)) → StronglySorted key_le (map record_of evs).
Proof.
  revert k. induction evs as [|e evs IH]; intros k Hi; [constructor|]. cbn [map]. constructor.
  - apply (IH (S k)). intros i e' He. rewrite Nat.add_succ_comm. by apply (Hi (S i)).
  - apply Forall_fmap, Forall_forall. intros e' [i He]%list_elem_of_lookup. unfold key_le, compose.
    rewrite (index_key_record e k), (index_key_record e' (k + S i)); [lia|by apply (Hi (S i))|].
    rewrite <- (Nat.add_0_r k). by apply (Hi 0).
Qed.

#[local] Instance key_le_trans : Transitive key_le.
Proof. intros x y z. unfold key_le. lia. Qed.
#[local] Instance key_le_total : Total key_le.
Proof. intros x y. unfold key_le. lia. Qed.

Lemma sort_recovers evs rs :
  (∀ i e, evs !! i = Some e → ev_index e = Some i) → rs ≡ₚ map record_of evs → sort_by_index rs = map record_of evs.
Proof.
  intros Hi Hp. unfold sort_by_index. apply (StronglySorted_unique_strong key_le).
  - intros x y Hx Hy Hxy Hyx. rewrite merge_sort_Permutation, Hp in Hx.
    apply list_elem_of_fmap in Hx as (e & -> & [i He]%list_elem_of_lookup).
    apply list_elem_of_fmap in Hy as (e' & -> & [j He']%list_elem_of_lookup). unfold key_le in *.
    rewrite (index_key_record e i), (index_key_record e' j) in * by auto. assert (i = j) as -> by lia. by simplify_eq.
  - apply StronglySorted_merge_sort; apply _.
  - by apply (sorted_records evs 0).
  - rewrite merge_sort_Permutation. done.
Qed.

(** All records are in the directory. *)
Definition all_written (s : sys) : Prop := concat (map snd (dir s)) ≡ₚ map line_of (logged s).

Definition file_mode (a : act) : Prop :=
  match a with Log e ok => ok = true ∧ ∃ name, _tenant_filename (tenant_id e) = Ok name | Inserted _ _ _ => False end.

Lemma all_written_step s a s' :
  audit_inv s → all_written s → uses_pg (lg s) = false → file_mode a → audit_step s a = Some s' →
  all_written s' ∧ uses_pg (lg s') = false.
Proof.
  intros Hinv Hall Hpg Ha. destruct a as [e ok|]; [|done]. destruct Ha as [-> [name Hn]]. cbn [audit_step].
  destruct (log_begin_ok (lg s) e (inv_tree s Hinv)) as (t & link & -> & _). intros [= <-].
  unfold uses_pg in *. cbn [_file_fallback pg]. rewrite Hpg.
  unfold settle, log_end, _write_fallback. cbn [tenant_id stamped]. rewrite Hn. bindsimp.
  split; [|done]. unfold all_written in *. cbn [dir logged]. rewrite concat_append_line, Hall, map_app. cbn [map].
  by rewrite Permutation_app_comm.
Qed.

Lemma audit_start_inv l : _leaf_hashes l = [] → _tree l = None → audit_inv (audit_start l).
Proof.
  intros Hh Ht. split; cbn.
  - done.
  - by rewrite Ht.
  - done.
  - intros e He. by apply not_elem_of_nil in He.
  - done.
Qed.

Lemma audit_run_inv l acts s :
  _leaf_hashes l = [] → _tree l = None → exec audit_step (audit_start l) acts = Some s → audit_inv s.
Proof.
  intros Hh Ht. apply (exec_invariant audit_step audit_inv (λ _, True)); [|apply Forall_true_all|by apply audit_start_inv].
  intros s1 a s2 H1 _ E. by eapply audit_step_inv.
Qed.

(** C25: Proofs from the tenants' files, in a process that started with an empty log.
    Whatever calls interleaved, inserts failed or writes were lost: if an event of the
    tenant and task was logged and its record is in the tenant's file, the file fallback
    returns a proof for an event of that tenant and task, which verifies for exactly the
    data returned with it and whose root is the Merkle root over all events logged so far,
    in order.  The JSON codec has to read back the records.  (Proofs from the database are
    another matter, see [database_proofs_do_not_verify]; so is a process that starts from
    files in which records are missing.) *)
Theorem audit_proofs_verify l acts s tenant task name lines e0 :
  _leaf_hashes l = [] → _tree l = None → exec audit_step (audit_start l) acts = Some s → Forall readable (logged s) →
  _tenant_filename tenant = Ok name → dget (name +:+ ".jsonl") (dir s) = Some lines →
  e0 ∈ logged s → line_of e0 ∈ lines → tenant_id e0 = tenant → task_id e0 = Some task →
  ∃ l' p e, _get_proof_fallback (lg s) (dir s) tenant task = Ok (l', (p, leaf_of_event e))
    ∧ e ∈ logged s ∧ tenant_id e = tenant ∧ task_id e = Some task
    ∧ compute_root sha256 (map leaf_hash_of (logged s)) = Ok (root_hash p)
    ∧ verify_inclusion_proof sha256 serialize p (leaf_of_event e) = true.
Proof.
  intros Hh Ht Hex Hr Hn Hf He Hl Htn Htk. pose proof (audit_run_inv l acts s Hh Ht Hex) as Hinv.
  rewrite <- (inv_hashes s Hinv). by eapply proof_fallback_ok.
Qed.

(** A restart recovers the log.  When every record was written to the files (no
    database, no failed write), a new logger that initialises from the directory has
    the same leaf hashes in the same order, although the records are spread over one
    file per tenant, and so the same Merkle root. *)
Theorem audit_restart_recovers l acts s :
  _leaf_hashes l = [] → _tree l = None → uses_pg l = false → exec audit_step (audit_start l) acts = Some s →
  Forall file_mode acts → Forall readable (logged s) → (∀ m, nonempty (hex (sha256 m)) = true) →
  ∃ l', initialize (logger_init (pg l)) false None (dir s) = Ok l' ∧ _leaf_hashes l' = _leaf_hashes (lg s)
    ∧ ∃ t, _tree l' = Some t ∧ root t = compute_root sha256 (_leaf_hashes (lg s)).
Proof.
  intros Hh Ht Hpg Hex Hf Hr Hne. pose proof (audit_run_inv l acts s Hh Ht Hex) as Hinv.
  assert (audit_inv s ∧ all_written s ∧ uses_pg (lg s) = false) as (_ & Hall & _).
  { revert Hex. apply (exec_invariant audit_step (λ s, audit_inv s ∧ all_written s ∧ uses_pg (lg s) = false) file_mode); [|done|].
    - intros s1 a s2 (H1 & H2 & H3) Ha E. split; [by eapply audit_step_inv|by eapply all_written_step].
    - split; [by apply audit_start_inv|split; [apply Permutation_refl|done]]. }
  assert (∃ evs, evs ≡ₚ logged s ∧ concat (map snd (dir s)) = map line_of evs) as (evs & Hp & El).
  { unfold all_written in Hall. apply Permutation_map_inv in Hall as (evs & E & Hp). by exists evs. }
  assert (_load_leaf_hashes_fallback (dir s) = Ok (_leaf_hashes (lg s))) as Eload.
  { unfold _load_leaf_hashes_fallback. rewrite rows_of_concat, El, rows_of_lines, as_objects_rows by (by rewrite Hp).
    bindsimp. rewrite (sort_recovers (logged s)).
    - rewrite hashes_of_records, (inv_hashes s Hinv); [done|apply Hinv|]. intros e _. apply Hne.
    - intros i e He. by apply (inv_index s Hinv).
    - by rewrite Hp. }
  unfold initialize. rewrite Eload. rewrite andb_false_r. bindsimp.
  match goal with |- context [_sync_tree ?x] => destruct (sync_tree_ok x) as (t & -> & Hti & Htr); [done|] end.
  eexists. split; [done|]. split; [done|]. exists t. split; [done|]. by rewrite (inv_root sha256), Htr.
Qed.

End audit.

(** ** Queries on the files *)
Section queries.
Context (loads : string → option json) (fromisoformat : string → result pyexn Q).

(** Whether the row's time satisfies [ok]; rows without a string timestamp compare a
    value that is no date and raise. *)
Definition time_ok (r : obj) (ok : Q → bool) : result pyexn bool :=
  match default (JStr "") (dget "timestamp" r) with
  | JStr s => t ← fromisoformat s; Ok (ok t)
  | _ => Err TypeError
  end.

Definition row_matches (tenant : string) (ty : option string) (start_time end_time : option Q) (r : obj) : result pyexn bool :=
  if negb (match dget "tenant_id" r with Some (JStr s) => String.eqb s tenant | _ => false end) then Ok false
  else if match ty with
          | Some x => nonempty x && negb (match dget "event_type" r with Some (JStr s) => String.eqb s x | _ => false end)
          | None => false
          end then Ok false
  else
    a ← match start_time with Some s => time_ok r (Qle_bool s) | None => Ok true end;
    if negb a then Ok false
    else match end_time with Some e => time_ok r (λ t, Qle_bool t e) | None => Ok true end.

Fixpoint matching (tenant : string) (ty : option string) (start_time end_time : option Q) (rs : list obj)
    : result pyexn (list obj) :=
  match rs with
  | [] => Ok []
  | r :: rs =>
      b ← row_matches tenant ty start_time end_time r;
      l ← matching tenant ty start_time end_time rs;
      Ok (if (b : bool) then r :: l else l)
  end.

Definition stamp_of (r : obj) : string := match dget "timestamp" r with Some (JStr s) => s | _ => "" end.
Definition later (r1 r2 : obj) : Prop := string_le (stamp_of r2) (stamp_of r1).
#[local] Instance later_dec : RelDecision later.
Proof. intros r1 r2. unfold later. apply _. Defined.

Definition _query_fallback (dir : audit_dir) (tenant : string) (ty : option string) (start_time end_time : option Q) (limit : nat)
    : result pyexn (list obj) :=
  name ← _tenant_filename tenant;
  match dget (name +:+ ".jsonl") dir with
  | None => Ok []
  | Some lines =>
      rs ← as_objects (rows_of loads lines);
      l ← matching tenant ty start_time end_time rs;
      Ok (take limit (merge_sort later l))
  end.

(** Queries on the files never return another tenant's rows, even when two tenants share
    a file name. *)
Lemma query_isolated d tenant ty t1 t2 limit rows :
  _query_fallback d tenant ty t1 t2 limit = Ok rows → Forall (λ r, dget "tenant_id" r = Some (JStr tenant)) rows.
Proof.
  unfold _query_fallback. intros (name & _ & H)%result_bind_ok.
  destruct (dget _ d) as [lines|]; [|simplify_eq; constructor].
  apply result_bind_ok in H as (rs & _ & (l & Hm & [= <-])%result_bind_ok). apply Forall_take.
  rewrite merge_sort_Permutation. revert l Hm. induction rs as [|r rs IH]; intros l Hm; [simplify_eq/=; constructor|].
  cbn [matching] in Hm. apply result_bind_ok in Hm as (b & Hb & (l' & Hl & [= <-])%result_bind_ok).
  destruct b; [|auto]. constructor; [|auto]. unfold row_matches in Hb.
  destruct (dget "tenant_id" r) as [v|]; [|by simplify_eq]. destruct v as [| | |x| |]; try by simplify_eq.
  destruct (String.eqb_spec x tenant) as [E|E]; [by rewrite E|done].
Qed.
End queries.

(** A file name is one path segment. *)
Lemma tenant_filename_safe tenant name :
  _tenant_filename tenant = Ok name → name ≠ "" ∧ name ≠ "." ∧ name ≠ ".." ∧ index 0 "/" name = None.
Proof.
  unfold _tenant_filename. set (n := sub_runs false tenant).
  assert (∀ b s, index 0 "/" (sub_runs b s) = None) as Hi.
  { intros b s. revert b. induction s as [|a s IH]; intros b; [done|]. cbn [sub_runs].
    assert (∀ c t, c ≠ "/"%char → index 0 "/" t = None → index 0 "/" (String c t) = None) as Hc.
    { intros c t Hne Ht. cbn [index prefix]. rewrite Ht. cbn [String.prefix]. destruct (ascii_dec "/" c); [congruence|done]. }
    destruct (tenant_char a) eqn:Ea; [apply Hc; [by intros ->|done]|]. destruct b; [done|]. apply Hc; [done|done]. }
  destruct (String.eqb_spec n ""), (String.eqb_spec n "."), (String.eqb_spec n ".."), (100 <? String.length n)%nat;
    cbn [orb]; try done. intros [= <-]. split_and!; [done..|]. apply Hi.
Qed.

(** ** Concrete runs *)
Definition demo_event (tenant task : string) : AuditEvent :=
  mkEvent "2025-01-01T00:00:00" "task.created" tenant "u1" (Some task) [] None None None None None.

(** A serialisation that tells these leaves apart. *)
Definition demo_serialize (j : json) : bytes :=
  match j with
  | JObj d => concat (map (λ p, match p.2 with JStr s => list_byte_of_string s | _ => [Byte.x00] end) d)
  | _ => []
  end.

(** A codec for the records of the run: a record is named by its tenant. *)
Definition audit_dumps (j : json) : string :=
  match j with JObj d => match dget "tenant_id" d with Some (JStr s) => s | _ => "" end | _ => "" end.

Abbreviation demo_step := (audit_step toy_digest demo_serialize audit_dumps (λ _, [])).
Definition file_logger : AuditLogger := mkLogger false true true [] None.
Definition demo_acts : list act := [Log (demo_event "b" "t2") true; Log (demo_event "a" "t1") true].
Definition audit_demo_run : option sys := exec demo_step (audit_start file_logger) demo_acts.
Definition demo_logged : list AuditEvent := match audit_demo_run with Some s => logged s | None => [] end.

Definition audit_loads (line : string) : option json :=
  (λ e, JObj (record_of e)) <$> find (λ e, String.eqb (tenant_id e) line) demo_logged.

Lemma demo_readable : Forall (readable audit_dumps audit_loads) demo_logged.
Proof. repeat constructor; vm_compute; reflexivity. Qed.

Lemma audit_proofs_verify_witness :
  ∃ s l' p e, exec demo_step (audit_start file_logger) demo_acts = Some s
    ∧ _get_proof_fallback toy_digest demo_serialize audit_loads (λ _, "") (lg s) (dir s) "a" "t1"
      = Ok (l', (p, leaf_of_event e))
    ∧ verify_inclusion_proof toy_digest demo_serialize p (leaf_of_event e) = true.
Proof.
  destruct audit_demo_run as [s|] eqn:E; [|vm_compute in E; discriminate E].
  assert (demo_logged = logged s) as El by (unfold demo_logged; by rewrite E).
  destruct (audit_proofs_verify toy_digest demo_serialize audit_dumps audit_loads (λ _, []) (λ _, "") file_logger demo_acts s
    "a" "t1" "a" ["a"] (default (demo_event "" "") (demo_logged !! 1))) as (l' & p & e & H1 & _ & _ & _ & _ & H2);
    [done|done|exact E|rewrite <- El; exact demo_readable|reflexivity| | | |vm_compute; reflexivity..|].
  - assert (dget "a.jsonl" <$> (dir <$> audit_demo_run) = Some (Some ["a"])) as Hd by (vm_compute; reflexivity).
    rewrite E in Hd. cbn in Hd. by injection Hd.
  - rewrite <- El. vm_compute. right. left.
  - vm_compute. left.
  - by exists s, l', p, e.
Defined.

Lemma audit_restart_recovers_witness :
  ∃ s l', exec demo_step (audit_start file_logger) demo_acts = Some s
    ∧ initialize toy_digest audit_loads (logger_init false) false None (dir s) = Ok l'
    ∧ _leaf_hashes l' = _leaf_hashes (lg s).
Proof.
  destruct audit_demo_run as [s|] eqn:E; [|vm_compute in E; discriminate E].
  assert (demo_logged = logged s) as El by (unfold demo_logged; by rewrite E).
  destruct (audit_restart_recovers toy_digest demo_serialize audit_dumps audit_loads (λ _, []) file_logger demo_acts s)
    as (l' & H1 & H2 & _); [done|done|done|exact E| |rewrite <- El; exact demo_readable|done|by exists s, l'].
  repeat constructor; by eexists.
Defined.

(** With PostgreSQL the proof query does not select [task_id], so the leaf data built
    from the row has no task and is not the data that was committed: the proof that is
    returned does not verify. *)
Example database_proofs_do_not_verify :
  match log_begin toy_digest demo_serialize (λ _, []) (mkLogger true true false [] None) (demo_event "b" "t2") with
  | Ok (l, _) =>
      match log_begin toy_digest demo_serialize (λ _, []) l (demo_event "a" "t1") with
      | Ok (l, e) =>
          match get_proof_for_task toy_digest demo_serialize audit_loads (λ _, "") l [] "a" "t1"
                  (Some (Some (mkPgRow 1 (JObj []) (event_type e) (timestamp e) (user_id e) "a" (default "" (commitment e))))) None with
          | Ok (_, (p, leaf)) => verify_inclusion_proof toy_digest demo_serialize p leaf = false
          | Err _ => False
          end
      | Err _ => False
      end
  | Err _ => False
  end.
Proof. vm_compute. reflexivity. Qed.

(** A lost write is only logged.  After a restart the later record still has its old
    index, which the shorter list of hashes does not reach, and its proof raises. *)
Example lost_write_breaks_later_proofs :
  match exec demo_step (audit_start file_logger) [Log (demo_event "b" "t2") false; Log (demo_event "a" "t1") true] with
  | Some s =>
      match initialize toy_digest audit_loads (logger_init false) false None (dir s) with
      | Ok l => _get_proof_fallback toy_digest demo_serialize audit_loads (λ _, "") l (dir s) "a" "t1" = Err IndexError
      | Err _ => False
      end
  | None => False
  end.
Proof. vm_compute. reflexivity. Qed.
