(* ===== verification/StaticCheck.v ===== *)
(** * The static pass over generated code

    [sandbox/static_check.py]: import hygiene and undefined names.  [ast.parse] is a
    parameter; what it returns is a tree whose nodes carry what the pass looks at (a
    [label]) and their children with the field they stand in (a [role]), in the order
    of [iter_child_nodes].

    The pass promises to flag no name that Python would resolve.  [binds] states which
    names a piece of code binds in its own scope, following the language reference and
    not the pass; the theorem proves the promise for code without [match], [except*],
    type parameters, [global], wildcard imports, nested walrus targets and walrus targets
    inside lambdas, and for names that do not begin with two underscores: the names the
    interpreter binds by itself in modules and classes, and those it mangles.  Examples
    show that the exclusions are needed. *)
From Stdlib Require Import ZArith Lia Bool Ascii String.
From stdpp Require Import base option numbers sets strings list.
From S2P Require Import Prelude.
Local Open Scope string_scope.
Local Open Scope list_scope.
Local Open Scope nat_scope.

(** ** Syntax trees *)
Inductive ctx := Load | Store | Del.

Inductive label :=
(* expressions *)
| LName (id : string) (c : ctx) (line : Z)
| LNamedExpr
| LLambda (params : list string)
| LComp                                        (* list, set, dict comprehension, generator *)
| LExpr                                        (* any other expression *)
(* statements *)
| LFunctionDef (name : string) (params : list string)
| LClassDef (name : string)
| LImport (names : list (string * option string)) (line : Z)
| LImportFrom (module : option string) (names : list (string * option string)) (level : nat) (line : Z)
| LAssign | LAnnAssign | LAugAssign
| LFor | LWith | LIf | LWhile | LTry
| LSimple                                      (* Return, Raise, Assert, Expr, Delete *)
| LGlobal                                      (* Global, Nonlocal *)
| LInert                                       (* Pass, Break, Continue *)
| LStmt                                        (* any other statement: Match, TryStar *)
(* neither *)
| LHandler (name : option string)              (* ExceptHandler *)
| LCapture (name : string)                     (* MatchAs, MatchStar, a type parameter *)
| LAux.                                        (* comprehension, withitem, arguments, keyword, match_case *)

Inductive role :=
| RTarget | RValue | RIter | RIfs | RElt | RBody | ROrelse | RFinal | RTest | RDecorator | RArgs | RDefault | RBase
| RKeyword | RItem | RContext | RVars | RHandler | RType | RGen | ROther.

#[global] Instance role_eq_dec : EqDecision role.
Proof. solve_decision. Defined.

Inductive ast := Node (l : label) (cs : list (role * ast)).

Definition label_of (a : ast) : label := match a with Node l _ => l end.
Definition fields (a : ast) : list (role * ast) := match a with Node _ cs => cs end.
Definition iter_child_nodes (a : ast) : list ast := map snd (fields a).

Definition is_expr (a : ast) : bool :=
  match label_of a with LName _ _ _ | LNamedExpr | LLambda _ | LComp | LExpr => true | _ => false end.

Definition is_stmt (a : ast) : bool :=
  match label_of a with
  | LFunctionDef _ _ | LClassDef _ | LImport _ _ | LImportFrom _ _ _ _ | LAssign | LAnnAssign | LAugAssign | LFor | LWith
  | LIf | LWhile | LTry | LSimple | LGlobal | LInert | LStmt => true
  | _ => false
  end.

(** [ast.walk] takes nodes from the front of a queue and appends their children: it
    yields the nodes level by level. *)
Fixpoint join_levels (u v : list (list ast)) : list (list ast) :=
  match u, v with
  | [], _ => v
  | _, [] => u
  | x :: u, y :: v => (x ++ y) :: join_levels u v
  end.

Fixpoint levels (a : ast) : list (list ast) :=
  match a with Node l cs => [a] :: foldr join_levels [] (map (λ p, levels p.2) cs) end.

Definition walk (a : ast) : list ast := concat (levels a).

(** The children in the fields [rs]. *)
Definition among (rs : list role) (r : role) : bool := bool_decide (r ∈ rs).

(** ** Bindings *)

(** [_target_names] *)
Definition stored_name (a : ast) : list string :=
  match label_of a with LName x Store _ => [x] | _ => [] end.
Definition _target_names (a : ast) : list string := concat (map stored_name (walk a)).

(** What the loop of [_bind_walrus_targets] adds for one node it takes from its stack. *)
Fixpoint walrus (a : ast) : list string :=
  match a with
  | Node LNamedExpr cs => concat (map (λ p, if among [RTarget] p.1 then _target_names p.2 else []) cs)
  | Node (LFunctionDef _ _) _ | Node (LClassDef _) _ | Node (LLambda _) _ => []
  | Node _ cs => concat (map (λ p, walrus p.2) cs)
  end.

Definition _bind_walrus_targets (stmt : ast) : list string := concat (map walrus (iter_child_nodes stmt)).

Definition root_of (dotted : string) : string :=
  match index 0 "." dotted with Some i => substring 0 i dotted | None => dotted end.

Definition alias_name (p : string * option string) : list string :=
  if String.eqb p.1 "*" then []
  else [match p.2 with Some s => if nonempty s then s else root_of p.1 | None => root_of p.1 end].

(** The names of the targets in the fields [rs]. *)
Definition targets (rs : list role) (cs : list (role * ast)) : list string :=
  concat (map (λ p, if among rs p.1 then _target_names p.2 else []) cs).

Fixpoint _bind_stmt (a : ast) : list string :=
  match a with
  | Node l cs =>
      let own :=
        match l with
        | LFunctionDef n _ | LClassDef n => [n]
        | LImport names _ | LImportFrom _ names _ _ => concat (map alias_name names)
        | LAssign | LAnnAssign | LAugAssign => targets [RTarget] cs
        | LFor => targets [RTarget] cs ++ concat (map (λ p, if among [RBody; ROrelse] p.1 then _bind_stmt p.2 else []) cs)
        | LWith =>
            concat (map (λ p, if among [RItem] p.1 then targets [RVars] (fields p.2) else []) cs)
            ++ concat (map (λ p, if among [RBody] p.1 then _bind_stmt p.2 else []) cs)
        | LIf | LWhile => concat (map (λ p, if among [RBody; ROrelse] p.1 then _bind_stmt p.2 else []) cs)
        | LHandler n =>
            match n with Some n => if nonempty n then [n] else [] | None => [] end
            ++ concat (map (λ p, if among [RBody] p.1 then _bind_stmt p.2 else []) cs)
        | LTry =>
            concat (map (λ p, if among [RBody; ROrelse; RFinal] p.1 then _bind_stmt p.2 else []) cs)
            ++ concat (map (λ p, if among [RHandler] p.1 then
                                   match p.2 with
                                   | Node hl hcs =>
                                       match hl with LHandler (Some n) => if nonempty n then [n] else [] | _ => [] end
                                       ++ concat (map (λ q, if among [RBody] q.1 then _bind_stmt q.2 else []) hcs)
                                   end
                                 else []) cs)
        | _ => []
        end in
      _bind_walrus_targets a ++ own
  end.

Definition _bindings (stmts : list ast) : list string := concat (map _bind_stmt stmts).

(** ** Undefined names *)
Record StaticIssue := mkIssue { i_line : Z; rule : string; message : string }.

Section pass.
Context (builtins : list string) (stdlib : list string).

Definition _IMPLICIT : list string :=
  ["__name__"; "__file__"; "__doc__"; "__package__"; "__loader__"; "__spec__"; "__builtins__"; "__annotations__"].

(** [st]: the names of the scopes, the innermost first. *)
Definition _resolves (st : list (list string)) (x : string) : bool :=
  existsb (λ scope, bool_decide (x ∈ scope)) st || bool_decide (x ∈ builtins) || bool_decide (x ∈ _IMPLICIT).

(** The targets of the generators of a comprehension. *)
Definition gen_targets (cs : list (role * ast)) : list string :=
  concat (map (λ p, if among [RGen] p.1 then targets [RTarget] (fields p.2) else []) cs).

(** Lines and names of the reports. *)
Fixpoint _visit_expr (st : list (list string)) (a : ast) : list (Z * string) :=
  match a with
  | Node l cs =>
      match l with
      | LName x Load line => if _resolves st x then [] else [(line, x)]
      | LName _ _ _ => []
      | LLambda ps => concat (map (λ p, if among [RBody] p.1 then _visit_expr (ps :: st) p.2 else []) cs)
      | LComp =>
          let st := gen_targets cs :: st in
          concat (map (λ p, if among [RGen] p.1 then
                              match p.2 with
                              | Node _ gs => concat (map (λ q, if among [RIter; RIfs] q.1 then _visit_expr st q.2 else []) gs)
                              end
                            else []) cs)
          ++ concat (map (λ p, if among [RElt] p.1 then _visit_expr st p.2 else []) cs)
      | LNamedExpr => concat (map (λ p, if among [RValue] p.1 then _visit_expr st p.2 else []) cs)
      | _ => concat (map (λ p, if is_expr p.2 then _visit_expr st p.2 else []) cs)
      end
  end.

(** Visiting the children in the fields [rs] of a node. *)
Definition visit_fields (rs : list role) (st : list (list string)) (cs : list (role * ast)) : list (Z * string) :=
  concat (map (λ p, if among rs p.1 then _visit_expr st p.2 else []) cs).

(** ... of their children in the fields [qs]. *)
Definition visit_inner (rs qs : list role) (st : list (list string)) (cs : list (role * ast)) : list (Z * string) :=
  concat (map (λ p, if among rs p.1 then visit_fields qs st (fields p.2) else []) cs).

Definition body_of (rs : list role) (cs : list (role * ast)) : list ast :=
  map snd (filter (λ p, among rs p.1 = true) cs).

Fixpoint _visit_stmt (st : list (list string)) (a : ast) : list (Z * string) :=
  match a with
  | Node l cs =>
      let stmts rs st := concat (map (λ p, if among rs p.1 then _visit_stmt st p.2 else []) cs) in
      match l with
      | LFunctionDef _ ps =>
          visit_fields [RDecorator] st cs ++ visit_inner [RArgs] [RDefault] st cs
          ++ stmts [RBody] ((_bindings (body_of [RBody] cs) ++ ps) :: st)
      | LClassDef _ =>
          visit_fields [RDecorator] st cs ++ visit_fields [RBase] st cs ++ visit_inner [RKeyword] [RValue] st cs
          ++ stmts [RBody] (_bindings (body_of [RBody] cs) :: st)
      | LFor => visit_fields [RIter] st cs ++ stmts [RBody; ROrelse] st
      | LWith => visit_inner [RItem] [RContext] st cs ++ stmts [RBody] st
      | LWhile | LIf => visit_fields [RTest] st cs ++ stmts [RBody; ROrelse] st
      | LTry =>
          concat (map (λ p, if among [RHandler] p.1 then
                              match p.2 with
                              | Node _ hs => visit_fields [RType] st hs
                                  ++ concat (map (λ q, if among [RBody] q.1 then _visit_stmt st q.2 else []) hs)
                              end
                            else []) cs)
          ++ stmts [RBody; ROrelse; RFinal] st
      | LSimple | LAssign | LAnnAssign | LAugAssign => concat (map (λ p, if is_expr p.2 then _visit_expr st p.2 else []) cs)
      | LImport _ _ | LImportFrom _ _ _ _ | LGlobal | LInert => []
      | _ => concat (map (λ p, if is_expr p.2 then _visit_expr st p.2
                               else if is_stmt p.2 then _visit_stmt st p.2 else []) cs)
      end
  end.

Definition find_undefined (tree : ast) : list (Z * string) :=
  let body := body_of [RBody] (fields tree) in
  concat (map (_visit_stmt [_bindings body]) body).

(** ** Imports *)
Definition import_not_allowed (line : Z) (root : string) : StaticIssue :=
  mkIssue line "import-not-allowed" ("import '" +:+ root +:+ "' is not available in the sandbox").

Definition node_import_issues (allowed : list string) (a : ast) : list StaticIssue :=
  match label_of a with
  | LImport names line =>
      concat (map (λ n, let root := root_of n.1 in if bool_decide (root ∈ allowed) then [] else [import_not_allowed line root]) names)
  | LImportFrom module names level line =>
      if (0 <? level)%nat then [mkIssue line "relative-import" "relative imports are not allowed"]
      else concat (map (λ n,
        if String.eqb n.1 "*" then [mkIssue line "wildcard-import" "wildcard imports ('import *') are not allowed"]
        else let root := root_of (default "" module) in
             if nonempty root && negb (bool_decide (root ∈ allowed)) then [import_not_allowed line root] else []) names)
  | _ => []
  end.

Definition _import_issues (allowed : list string) (tree : ast) : list StaticIssue :=
  concat (map (node_import_issues allowed) (walk tree)).

(** [parse]: the module, or line and message of the [SyntaxError]. *)
Definition analyze_code (parse : string → result (option Z * string) ast) (code : string) (allowed_imports : list string)
    : list StaticIssue :=
  match parse code with
  | Err (line, msg) =>
      [mkIssue (match line with Some l => if (l =? 0)%Z then 1%Z else l | None => 1%Z end) "syntax"
         (if nonempty msg then msg else "invalid syntax")]
  | Ok tree =>
      _import_issues allowed_imports tree
      ++ map (λ '(line, x), mkIssue line "undefined-name" ("'" +:+ x +:+ "' is never defined")) (find_undefined tree)
  end.
End pass.

(** ** What Python binds

    [binds a x]: executing [a] in some scope binds [x] in that scope.  Bindings of a
    part count for the whole unless the part opens a scope of its own: the bodies of
    functions, classes and lambdas, the targets of comprehensions. *)
Definition has_body (l : label) : bool :=
  match l with LFunctionDef _ _ | LClassDef _ | LLambda _ => true | _ => false end.

(** The names of a target: a name, or the names of the parts of a tuple, list or starred
    target. *)
Inductive target_name : ast → string → Prop :=
| T_name x line cs : target_name (Node (LName x Store line) cs) x
| T_part cs r c x : (r, c) ∈ cs → target_name c x → target_name (Node LExpr cs) x.

(** [x] is the part of [dotted] before its first dot. *)
Definition before_dot (dotted x : string) : Prop :=
  (∀ u v, x ≠ u +:+ "." +:+ v) ∧ (dotted = x ∨ ∃ rest, dotted = x +:+ "." +:+ rest).

(** The name under which an import gives its module or attribute: the one after [as], or
    the first of the path. *)
Definition imported_as (p : string * option string) (x : string) : Prop :=
  p.1 ≠ "*" ∧ match p.2 with Some s => nonempty s = true ∧ x = s | None => before_dot p.1 x end.

Inductive binds : ast → string → Prop :=
| B_walrus cs t x : (RTarget, t) ∈ cs → target_name t x → binds (Node LNamedExpr cs) x
| B_target l cs t x :
    l ∈ [LAssign; LAnnAssign; LAugAssign; LFor] → (RTarget, t) ∈ cs → target_name t x → binds (Node l cs) x
| B_with cs i t x : (RItem, i) ∈ cs → (RVars, t) ∈ fields i → target_name t x → binds (Node LWith cs) x
| B_def n ps cs : binds (Node (LFunctionDef n ps) cs) n
| B_class n cs : binds (Node (LClassDef n) cs) n
| B_import names line cs p x : p ∈ names → imported_as p x → binds (Node (LImport names line) cs) x
| B_import_from m names lv line cs p x : p ∈ names → imported_as p x → binds (Node (LImportFrom m names lv line) cs) x
| B_handler n cs : nonempty n = true → binds (Node (LHandler (Some n)) cs) n
| B_capture n cs : binds (Node (LCapture n) cs) n
| B_part l cs r c x : has_body l = false → (r, c) ∈ cs → binds c x → binds (Node l cs) x
| B_outer l cs r c x : has_body l = true → r ≠ RBody → (r, c) ∈ cs → binds c x → binds (Node l cs) x.

(** The names a list of statements binds. *)
Definition scope_of (stmts : list ast) (x : string) : Prop := ∃ s, s ∈ stmts ∧ binds s x.

(** The names of the targets of a comprehension. *)
Definition comprehension_scope (cs : list (role * ast)) (x : string) : Prop :=
  ∃ g t, (RGen, g) ∈ cs ∧ (RTarget, t) ∈ fields g ∧ target_name t x.

(** What the interpreter binds by itself: in the globals of a module, and in the body of a
    class ([__class__] for the functions inside it). *)
Definition module_names : list string :=
  ["__name__"; "__file__"; "__doc__"; "__package__"; "__loader__"; "__spec__"; "__builtins__"; "__annotations__";
   "__cached__"; "__path__"].
Definition class_names : list string := ["__module__"; "__qualname__"; "__firstlineno__"; "__class__"].
Definition class_scope (body : list ast) (x : string) : Prop := x ∈ class_names ∨ scope_of body x.

(** Names the interpreter may bind by itself or mangle. *)
Definition underscored (x : string) : bool := String.prefix "__" x.

(** [occurs E a E' x line]: inside [a], which stands in the scopes [E], the name [x] is
    read at [line] in the scopes [E'] (the innermost first). *)
Inductive occurs : list (string → Prop) → ast → list (string → Prop) → string → Z → Prop :=
| O_name E x line cs : occurs E (Node (LName x Load line) cs) E x line
| O_part E l cs r c E' x line :
    has_body l = false → l ≠ LComp → (r, c) ∈ cs → occurs E c E' x line → occurs E (Node l cs) E' x line
| O_outer E l cs r c E' x line :
    has_body l = true → r ≠ RBody → (r, c) ∈ cs → occurs E c E' x line → occurs E (Node l cs) E' x line
| O_lambda E ps cs c E' x line :
    (RBody, c) ∈ cs → occurs ((λ y, y ∈ ps ∨ scope_of (body_of [RBody] cs) y) :: E) c E' x line →
    occurs E (Node (LLambda ps) cs) E' x line
| O_comp E cs r c E' x line :
    (r, c) ∈ cs → occurs (comprehension_scope cs :: E) c E' x line → occurs E (Node LComp cs) E' x line
| O_function E n ps cs c E' x line :
    (RBody, c) ∈ cs → occurs ((λ y, y ∈ ps ∨ scope_of (body_of [RBody] cs) y) :: E) c E' x line →
    occurs E (Node (LFunctionDef n ps) cs) E' x line
| O_class E n cs c E' x line :
    (RBody, c) ∈ cs → occurs (class_scope (body_of [RBody] cs) :: E) c E' x line →
    occurs E (Node (LClassDef n) cs) E' x line.

(** ** The code the theorem is about *)
Fixpoint has_walrus (a : ast) : bool :=
  match a with
  | Node l cs => match l with LNamedExpr => true | _ => false end || existsb (λ p, has_walrus p.2) cs
  end.

Definition body_roles (l : label) : list role :=
  match l with
  | LFunctionDef _ _ | LClassDef _ | LWith | LHandler _ => [RBody]
  | LFor | LIf | LWhile => [RBody; ROrelse]
  | LTry => [RBody; ROrelse; RFinal]
  | _ => []
  end.

(** Statements stand in bodies, handlers in [try], and the fields that hold auxiliary
    nodes hold nothing else: every tree of [ast.parse] is like that. *)
Definition placed (l : label) (p : role * ast) : bool :=
  Bool.eqb (is_stmt p.2) (among (body_roles l) p.1)
  && match label_of p.2, l with LHandler _, LTry => among [RHandler] p.1 | LHandler _, _ => false | _, _ => negb (among [RHandler] p.1) end
  && (if among [RGen; RItem; RArgs; RKeyword] p.1 then match label_of p.2 with LAux => true | _ => false end else true).

Definition plain_node (l : label) (cs : list (role * ast)) : bool :=
  match l with
  | LStmt | LCapture _ | LGlobal => false
  | LImportFrom _ names _ _ => forallb (λ n, negb (String.eqb n.1 "*")) names
  | LNamedExpr | LLambda _ => forallb (λ p, negb (has_walrus p.2)) cs
  | _ => true
  end && forallb (placed l) cs.

Fixpoint plain (a : ast) : bool :=
  match a with Node l cs => plain_node l cs && forallb (λ p, plain p.2) cs end.

Lemma ast_ind' (P : ast → Prop) : (∀ l cs, (∀ r c, (r, c) ∈ cs → P c) → P (Node l cs)) → ∀ a, P a.
Proof.
  intros H. fix IH 1. intros [l cs]. apply H. induction cs as [|[r0 c0] cs IHcs]; intros r c Hin.
  - exfalso. exact (not_elem_of_nil _ Hin).
  - apply elem_of_cons in Hin as [[= -> ->]|Hin]; [apply IH|exact (IHcs r c Hin)].
Qed.

Lemma elem_of_join u v n : n ∈ concat (join_levels u v) ↔ n ∈ concat u ∨ n ∈ concat v.
Proof.
  revert v. induction u as [|x u IH]; intros [|y v]; cbn [join_levels concat]; try set_solver.
Qed.

(** [ast.walk] reaches the node itself and everything below it. *)
Lemma elem_of_walk l cs n : n ∈ walk (Node l cs) ↔ n = Node l cs ∨ ∃ r c, (r, c) ∈ cs ∧ n ∈ walk c.
Proof.
  unfold walk. cbn [levels concat]. rewrite elem_of_app, list_elem_of_singleton. apply or_iff_compat_l.
  induction cs as [|[r c] cs IH]; cbn [map foldr snd]; [set_solver|]. rewrite elem_of_join, IH. set_solver.
Qed.

Lemma target_name_found t x : target_name t x → x ∈ _target_names t.
Proof.
  unfold _target_names. induction 1 as [x line cs|cs r c x Hin _ IH]; rewrite elem_of_concat_map.
  - exists (Node (LName x Store line) cs). split; [apply elem_of_walk; by left|by left].
  - apply elem_of_concat_map in IH as (n & Hn & Hx). exists n. split; [|done]. apply elem_of_walk. right. by exists r, c.
Qed.

Lemma root_of_spec dotted x : before_dot dotted x → root_of dotted = x.
Proof.
  unfold root_of. intros [Hx Hd].
  assert (∀ a y, (∀ u v, String a y ≠ u +:+ "." +:+ v) → a ≠ "."%char ∧ ∀ u v, y ≠ u +:+ "." +:+ v) as Hcons.
  { intros a y H. split; [intros ->; by apply (H "" y)|]. intros u v ->. by apply (H (String a u) v). }
  destruct Hd as [->|[rest ->]].
  - assert (index 0 "." x = None) as ->; [|done]. induction x as [|a x IH]; [done|].
    apply Hcons in Hx as [Ha Hx]. cbn [index String.prefix].
    destruct (ascii_dec "." a) as [<-|_]; [done|]. by rewrite (IH Hx).
  - assert (index 0 "." (x +:+ "." +:+ rest) = Some (String.length x)) as ->.
    { induction x as [|a x IH]; [by destruct rest|]. apply Hcons in Hx as [Ha Hx].
      change (String a x +:+ "." +:+ rest) with (String a (x +:+ "." +:+ rest)). cbn [index String.prefix String.length].
      destruct (ascii_dec "." a) as [<-|_]; [done|]. by rewrite (IH Hx). }
    clear Hx. induction x as [|a x IH]; [by destruct rest|]. exact (f_equal (String a) IH).
Qed.

Lemma alias_name_found p x : imported_as p x → x ∈ alias_name p.
Proof.
  unfold imported_as, alias_name. intros [Hs Hx]. rewrite (proj2 (String.eqb_neq _ _) Hs).
  apply list_elem_of_singleton. destruct p.2 as [a|]; [destruct Hx as [-> ->]; done|by rewrite (root_of_spec _ _ Hx)].
Qed.

Lemma gen_targets_found cs x : comprehension_scope cs x → x ∈ gen_targets cs.
Proof.
  intros (g & t & Hg & Ht & Hx%target_name_found). apply elem_of_concat_map. exists (RGen, g). split; [done|].
  cbn [fst snd]. apply elem_of_concat_map. by exists (RTarget, t).
Qed.

Lemma plain_child l cs r c : plain (Node l cs) = true → (r, c) ∈ cs → plain c = true ∧ placed l (r, c) = true.
Proof.
  cbn [plain]. unfold plain_node. rewrite !andb_true_iff, !forallb_forall. intros [[_ Hp] Hc] Hin%list_elem_of_In.
  split; [by apply (Hc (r, c))|by apply Hp].
Qed.

Lemma placed_spec l r c :
  placed l (r, c) = true →
  (is_stmt c = true ↔ r ∈ body_roles l)
  ∧ (∀ n, label_of c = LHandler n → l = LTry ∧ r = RHandler)
  ∧ (r ∈ [RGen; RItem; RArgs; RKeyword] → label_of c = LAux)
  ∧ (r = RHandler → ∃ n, label_of c = LHandler n).
Proof.
  unfold placed. cbn [fst snd]. rewrite !andb_true_iff. intros [[H1%eqb_prop H2] H3].
  rewrite H1. unfold among in *. split_and!; [apply bool_decide_eq_true| | |].
  - intros n Hn. rewrite Hn in H2. destruct l; try done. apply bool_decide_eq_true in H2. set_solver.
  - intros Hr. rewrite bool_decide_eq_true_2 in H3 by done. by destruct (label_of c).
  - intros ->. destruct (label_of c); try done. by eexists.
Qed.

Lemma has_walrus_child l cs r c : has_walrus (Node l cs) = false → (r, c) ∈ cs → has_walrus c = false.
Proof.
  cbn [has_walrus]. intros [_ H]%orb_false_iff Hin. destruct (has_walrus c) eqn:E; [|done].
  rewrite <- H. symmetry. apply existsb_exists. exists (r, c). split; [by apply list_elem_of_In|done].
Qed.

(** An expression or auxiliary node; its bindings are walrus targets. *)
Definition inner (a : ast) : Prop := is_stmt a = false ∧ match label_of a with LHandler _ => False | _ => True end.

Lemma inner_child l cs r c : inner (Node l cs) → plain (Node l cs) = true → (r, c) ∈ cs → inner c.
Proof.
  intros [Hs Hh] Hp Hin. apply (plain_child l cs r c Hp) in Hin as [_ (Hst & Hha & _)%placed_spec].
  unfold inner. unfold is_stmt in Hs. cbn [label_of] in Hs, Hh. split.
  - apply not_true_iff_false. rewrite Hst. destruct l; cbn; try done; set_solver.
  - destruct (label_of c) eqn:Ec; try done. by destruct (Hha _ eq_refl) as [-> _].
Qed.

Lemma no_walrus_no_binds a x : inner a → plain a = true → has_walrus a = false → ¬ binds a x.
Proof.
  induction a as [l cs IH] using ast_ind'. intros Hi Hp Hw Hb.
  assert (∀ r c, (r, c) ∈ cs → ¬ binds c x) as Hc.
  { intros r c Hin. apply (IH r c Hin); [by eapply inner_child|by apply (plain_child l cs r)|by eapply has_walrus_child]. }
  destruct Hi as [Hs Hh]. unfold is_stmt in Hs. cbn [label_of] in *. inversion Hb; subst; try done.
  - set_solver.
  - by eapply Hc.
  - by eapply Hc.
Qed.

(** Bindings inside expressions are what the walrus scan finds. *)
Lemma walrus_complete a x : inner a → plain a = true → binds a x → x ∈ walrus a.
Proof.
  induction a as [l cs IH] using ast_ind'. intros Hi Hp Hb.
  assert (∀ r c, (r, c) ∈ cs → binds c x → x ∈ walrus c) as Hc.
  { intros r c Hin. apply (IH r c Hin); [by eapply inner_child|by apply (plain_child l cs r)]. }
  assert (∀ r c, (r, c) ∈ cs → has_walrus c = false → ¬ binds c x) as Hn.
  { intros r c Hin. apply no_walrus_no_binds; [by eapply inner_child|by apply (plain_child l cs r)]. }
  assert (∀ r c, l = LNamedExpr ∨ (∃ ps, l = LLambda ps) → (r, c) ∈ cs → ¬ binds c x) as Hnw.
  { intros r c Hl Hin. apply (Hn r c Hin). cbn [plain] in Hp. unfold plain_node in Hp.
    destruct Hl as [->|[ps ->]]; apply andb_true_iff in Hp as [[Hp _]%andb_true_iff _]; rewrite forallb_forall in Hp;
      by apply negb_true_iff, (Hp (r, c)), list_elem_of_In. }
  destruct Hi as [Hs Hh]. unfold is_stmt in Hs. cbn [label_of] in *. inversion Hb; subst; try done.
  - cbn [walrus]. apply elem_of_concat_map. exists (RTarget, t). split; [done|by apply target_name_found].
  - set_solver.
  - assert (l ≠ LNamedExpr) as Hne by (intros ->; by eapply Hnw; [left| |]).
    assert (x ∈ concat (map (λ p, walrus p.2) cs)) as Hin.
    { apply elem_of_concat_map. exists (r, c). split; [done|]. by eapply Hc. }
    by destruct l.
  - exfalso. eapply Hnw; [right| |done]; [|done]. destruct l; try done. by eexists.
Qed.

Lemma bind_walrus_elem l cs r c x : (r, c) ∈ cs → x ∈ walrus c → x ∈ _bind_walrus_targets (Node l cs).
Proof.
  intros Hin Hx. unfold _bind_walrus_targets, iter_child_nodes. apply elem_of_concat_map. exists c. split; [|done].
  apply list_elem_of_fmap. by exists (r, c).
Qed.

Lemma among_true rs r : among rs r = true ↔ r ∈ rs.
Proof. apply bool_decide_eq_true. Qed.

(** A body of the node contributes the bindings of its statements. *)
Lemma elem_of_bodies rs (f : ast → list string) cs r c x :
  (r, c) ∈ cs → r ∈ rs → x ∈ f c → x ∈ concat (map (λ p, if among rs p.1 then f p.2 else []) cs).
Proof.
  intros Hin Hr Hx. apply elem_of_concat_map. exists (r, c). split; [done|]. cbn [fst snd].
  by rewrite (proj2 (among_true rs r) Hr).
Qed.

Definition is_handler (a : ast) : bool := match label_of a with LHandler _ => true | _ => false end.

Lemma body_bindings l cs r c x :
  (r, c) ∈ cs → r ∈ body_roles l → has_body l = false → x ∈ _bind_stmt c → x ∈ _bind_stmt (Node l cs).
Proof.
  intros Hin Hr Hb Hx. cbn [_bind_stmt]. apply elem_of_app. right.
  destruct l; cbn [body_roles has_body] in *; try done; try (by apply not_elem_of_nil in Hr);
    repeat (apply elem_of_app; first [by left; eapply (elem_of_bodies _ _bind_stmt)|right]);
    by eapply (elem_of_bodies _ _bind_stmt).
Qed.

Lemma handler_bindings cs h x :
  (RHandler, h) ∈ cs → is_handler h = true → x ∈ _bind_stmt h → x ∈ _bind_stmt (Node LTry cs).
Proof.
  intros Hin Hh Hx. destruct h as [hl hcs]. destruct hl; try done. cbn [_bind_stmt] in Hx |- *.
  apply elem_of_app in Hx as [Hx|Hx]; apply elem_of_app.
  - left. eapply bind_walrus_elem; [exact Hin|]. unfold _bind_walrus_targets, iter_child_nodes in Hx.
    cbn [walrus fields] in *. rewrite map_map in Hx. exact Hx.
  - right. apply elem_of_app. right. apply elem_of_concat_map. exists (RHandler, Node (LHandler name) hcs).
    split; [done|]. exact Hx.
Qed.

(** The names [_bind_stmt] records are all that the statement binds. *)
Lemma bind_stmt_complete a x :
  plain a = true → is_stmt a = true ∨ is_handler a = true → binds a x → x ∈ _bind_stmt a.
Proof.
  induction a as [l cs IH] using ast_ind'. intros Hp Hk Hb.
  assert (∀ r c, (r, c) ∈ cs → (has_body l = true → r ≠ RBody) → binds c x → x ∈ _bind_stmt (Node l cs)) as Hc.
  { intros r c Hin Hr Hbc. destruct (plain_child l cs r c Hp Hin) as [Hpc (Hst & Hha & _)%placed_spec].
    destruct (is_stmt c) eqn:Es.
    - assert (r ∈ body_roles l) as Hpl by (by apply Hst). eapply body_bindings; [exact Hin|exact Hpl| |].
      + destruct (has_body l) eqn:Ehb; [|done]. specialize (Hr eq_refl).
        destruct l; try done; cbn in Hpl; set_solver.
      + apply (IH r c Hin); auto.
    - destruct (is_handler c) eqn:Eh.
      + assert (l = LTry ∧ r = RHandler) as [-> ->].
        { unfold is_handler in Eh. destruct (label_of c) eqn:Ec; try done. by eapply Hha. }
        apply (handler_bindings cs c); [done|done|]. apply (IH RHandler c Hin); auto.
      + cbn [_bind_stmt]. apply elem_of_app. left. eapply bind_walrus_elem; [exact Hin|].
        apply walrus_complete; [|done..]. split; [done|]. unfold is_handler in Eh. by destruct (label_of c). }
  inversion Hb; subst; try (by eapply Hc; [eassumption|congruence|eassumption]); cbn [_bind_stmt]; try (apply elem_of_app; right).
  - by destruct Hk.
  - assert (x ∈ targets [RTarget] cs) as Ht by (eapply (elem_of_bodies _ _target_names); [done|by left|by apply target_name_found]).
    assert (l = LAssign ∨ l = LAnnAssign ∨ l = LAugAssign ∨ l = LFor) as [-> |[-> |[-> | ->]]] by set_solver; try done.
    apply elem_of_app. by left.
  - apply elem_of_app. left. apply elem_of_concat_map. exists (RItem, i). split; [done|]. cbn [fst snd].
    rewrite (proj2 (among_true [RItem] RItem)) by left. eapply (elem_of_bodies _ _target_names); [done|by left|by apply target_name_found].
  - by left.
  - by left.
  - apply elem_of_concat_map. eauto using alias_name_found.
  - apply elem_of_concat_map. eauto using alias_name_found.
  - apply elem_of_app. left. match goal with E : nonempty _ = true |- _ => rewrite E end. by left.
  - by destruct Hk.
Qed.

(** ** Reports *)
Section sound.
Context (builtins : list string).

(** No scope of [E], no builtin and no name of the module provides [x]. *)
Definition unknown (E : list (string → Prop)) (x : string) : Prop :=
  Forall (λ P, ¬ P x) E ∧ x ∉ builtins ∧ x ∉ module_names.

(** The scopes of the pass know at least the names of Python's, the underscored ones
    apart. *)
Definition covers (st : list (list string)) (E : list (string → Prop)) : Prop :=
  Forall2 (λ scope P, ∀ y, underscored y = false → P y → y ∈ scope) st E.

Lemma all_underscored names x : x ∈ names → forallb underscored names = true → underscored x = true.
Proof. rewrite forallb_forall. intros Hx%list_elem_of_In H. by apply H. Qed.

Lemma unresolved_unknown st E x :
  covers st E → _resolves builtins st x = false → underscored x = false → unknown E x.
Proof.
  intros Hc. unfold _resolves. rewrite !orb_false_iff. intros [[H1 H2%bool_decide_eq_false] _] Hu.
  split; [|split; [done|]]; cycle 1.
  { intros Hm%all_underscored; [congruence|done]. }
  induction Hc as [|scope P st E HP _ IH]; [constructor|]. cbn in H1.
  apply orb_false_iff in H1 as [Hx%bool_decide_eq_false H1]. constructor; [|by apply IH]. intros Hp. by apply Hx, HP.
Qed.

(** A report inside [a] is about a name that occurs there and that nothing provides. *)
Definition justified (E : list (string → Prop)) (a : ast) (rep : Z * string) : Prop :=
  ∃ E', occurs E a E' rep.2 rep.1 ∧ (underscored rep.2 = false → unknown E' rep.2).

Lemma justified_part E l cs r c rep :
  has_body l = false → l ≠ LComp → (r, c) ∈ cs → justified E c rep → justified E (Node l cs) rep.
Proof. intros Hb Hl Hin (E' & Ho & Hu). exists E'. split; [|done]. by eapply O_part. Qed.

Lemma justified_outer E l cs r c rep :
  has_body l = true → r ≠ RBody → (r, c) ∈ cs → justified E c rep → justified E (Node l cs) rep.
Proof. intros Hb Hl Hin (E' & Ho & Hu). exists E'. split; [|done]. by eapply O_outer. Qed.

Lemma elem_of_visits (f : ast → list (Z * string)) (b : role * ast → bool) cs rep :
  rep ∈ concat (map (λ p, if b p then f p.2 else []) cs) → ∃ r c, (r, c) ∈ cs ∧ b (r, c) = true ∧ rep ∈ f c.
Proof.
  intros ([r c] & Hin & Hrep)%elem_of_concat_map. cbn [snd] in Hrep. destruct (b (r, c)) eqn:E; [by exists r, c|].
  by apply not_elem_of_nil in Hrep.
Qed.

Lemma expr_inner a : is_expr a = true → inner a.
Proof. unfold is_expr, inner, is_stmt. by destruct (label_of a). Qed.

Definition expr_sound (a : ast) : Prop :=
  ∀ st E rep, plain a = true → inner a → covers st E → rep ∈ _visit_expr builtins st a → justified E a rep.

Lemma lambda_covers params cs st E :
  plain (Node (LLambda params) cs) = true → covers st E →
  covers (params :: st) ((λ y, y ∈ params ∨ scope_of (body_of [RBody] cs) y) :: E).
Proof.
  intros Hp Hc. constructor; [|done]. intros y _ [Hy|(s & Hs & Hb)]; [done|]. exfalso. revert Hb.
  unfold body_of in Hs. apply list_elem_of_fmap in Hs as ([r' s'] & -> & [_ Hin']%list_elem_of_filter).
  apply no_walrus_no_binds; [by apply (inner_child (LLambda params) cs r' s')|by apply (plain_child (LLambda params) cs r')|].
  cbn [plain] in Hp. unfold plain_node in Hp. apply andb_true_iff in Hp as [[Hp _]%andb_true_iff _].
  rewrite forallb_forall in Hp. by apply negb_true_iff, (Hp (r', s')), list_elem_of_In.
Qed.

(** The fields of an auxiliary node. *)
Lemma aux_fields E l cs rs g qs st rep :
  plain (Node l cs) = true → (rs, g) ∈ cs → rs ∈ [RGen; RItem; RArgs; RKeyword] →
  (∀ r c, (r, c) ∈ fields g → expr_sound c) → covers st E →
  rep ∈ concat (map (λ q, if among qs q.1 then _visit_expr builtins st q.2 else []) (fields g)) → justified E g rep.
Proof.
  intros Hp Hin Hrs Hs Hc Hrep. destruct (plain_child _ _ _ _ Hp Hin) as [Hpg (_ & _ & Haux & _)%placed_spec].
  specialize (Haux Hrs). destruct g as [gl gs]. cbn in Haux. subst gl. cbn [fields] in *.
  apply (elem_of_visits (_visit_expr builtins st) (λ q, among qs q.1)) in Hrep as (r & c & Hinc & _ & Hrep).
  apply (justified_part E LAux gs r c); [done..|]. apply (Hs r c Hinc st); [by eapply plain_child| |done..].
  by apply (inner_child LAux gs r c).
Qed.

Lemma visit_expr_sound_all a : expr_sound a ∧ ∀ r c, (r, c) ∈ fields a → expr_sound c.
Proof.
  induction a as [l cs IH] using ast_ind'. split; [|intros r c Hin; by apply (IH r c Hin)].
  intros st E rep Hp Hi Hc Hrep.
  assert (∀ r c st E, (r, c) ∈ cs → covers st E → rep ∈ _visit_expr builtins st c → justified E c rep) as IHc.
  { intros r c st' E' Hin. apply (IH r c Hin); [by eapply plain_child|by eapply inner_child]. }
  cbn [_visit_expr] in Hrep. destruct l; try (by destruct Hi as [? ?]);
    try (apply (elem_of_visits (_visit_expr builtins st) (λ p, is_expr p.2)) in Hrep as (r & c & Hin & _ & Hrep);
         by eapply justified_part, IHc).
  - destruct c; try (by apply not_elem_of_nil in Hrep).
    destruct (_resolves builtins st id) eqn:Er; [by apply not_elem_of_nil in Hrep|].
    apply list_elem_of_singleton in Hrep as ->. exists E. split; [apply O_name|by eapply unresolved_unknown].
  - apply (elem_of_visits (_visit_expr builtins st) (λ p, among [RValue] p.1)) in Hrep as (r & c & Hin & _ & Hrep).
    by eapply justified_part, IHc.
  - apply (elem_of_visits (_visit_expr builtins (params :: st)) (λ p, among [RBody] p.1)) in Hrep as (r & c & Hin & Hr & Hrep).
    apply among_true, list_elem_of_singleton in Hr. cbn in Hr. subst r.
    destruct (IHc RBody c _ _ Hin (lambda_covers _ _ _ _ Hp Hc) Hrep) as (E' & Ho & Hu).
    exists E'. split; [by eapply O_lambda|done].
  - assert (covers (gen_targets cs :: st) (comprehension_scope cs :: E)) as Hc' by (constructor; eauto using gen_targets_found).
    assert (∃ r c, (r, c) ∈ cs ∧ justified (comprehension_scope cs :: E) c rep) as (r & c & Hin & E' & Ho & Hu);
      [|exists E'; split; [by eapply O_comp|done]].
    apply elem_of_app in Hrep as [Hrep|Hrep].
    + apply elem_of_concat_map in Hrep as ([r g] & Hin & Hrep). cbn [fst snd] in Hrep.
      destruct (among [RGen] r) eqn:Er; [|by apply not_elem_of_nil in Hrep].
      apply among_true, list_elem_of_singleton in Er as ->. exists RGen, g. split; [done|].
      apply (aux_fields _ LComp cs RGen g [RIter; RIfs] (gen_targets cs :: st)); [done|done|by left|apply (IH RGen g Hin)|done|].
      by destruct g.
    + apply (elem_of_visits (_visit_expr builtins (gen_targets cs :: st)) (λ p, among [RElt] p.1)) in Hrep
        as (r & c & Hin & _ & Hrep). exists r, c. split; [done|]. by eapply IHc.
Qed.

Lemma visit_expr_sound a : expr_sound a.
Proof. apply visit_expr_sound_all. Qed.

(** The expressions in the fields [rs], and in the fields [qs] of auxiliary nodes. *)
Lemma fields_sound l cs rs st E rep :
  plain (Node l cs) = true → (∀ r, r ∈ rs → r ∉ body_roles l ∧ r ≠ RHandler) → covers st E →
  rep ∈ visit_fields builtins rs st cs → ∃ r c, (r, c) ∈ cs ∧ r ∈ rs ∧ justified E c rep.
Proof.
  intros Hp Hrs Hc Hrep.
  apply (elem_of_visits (_visit_expr builtins st) (λ p, among rs p.1)) in Hrep as (r & c & Hin & Hr%among_true & Hrep).
  exists r, c. split_and!; [done|done|]. destruct (plain_child _ _ _ _ Hp Hin) as [Hpc (Hst & Hha & _)%placed_spec].
  destruct (Hrs r Hr) as [Hb Hn]. apply (visit_expr_sound c st); [done| |done..].
  split; [apply not_true_iff_false; by rewrite Hst|].
  destruct (label_of c) eqn:Ec; try done. by destruct (Hha _ eq_refl) as [_ ?].
Qed.

Lemma inner_sound l cs rs qs st E rep :
  plain (Node l cs) = true → (∀ r, r ∈ rs → r ∈ [RGen; RItem; RArgs; RKeyword]) → covers st E →
  rep ∈ visit_inner builtins rs qs st cs → ∃ r c, (r, c) ∈ cs ∧ r ∈ rs ∧ justified E c rep.
Proof.
  intros Hp Hrs Hc ([r g] & Hin & Hrep)%elem_of_concat_map. cbn [fst snd] in Hrep.
  destruct (among rs r) eqn:Er; [|by apply not_elem_of_nil in Hrep]. apply among_true in Er.
  exists r, g. split_and!; [done|done|].
  apply (aux_fields E l cs r g qs st); [done|done|by apply Hrs|intros; apply visit_expr_sound|done..].
Qed.

Definition stmt_sound (a : ast) : Prop :=
  ∀ st E rep, plain a = true → is_stmt a = true → covers st E → rep ∈ _visit_stmt builtins st a → justified E a rep.

Lemma stmts_sound l cs rs st E rep :
  plain (Node l cs) = true → (∀ r c, (r, c) ∈ cs → stmt_sound c) → (∀ r, r ∈ rs → r ∈ body_roles l) → covers st E →
  rep ∈ concat (map (λ p, if among rs p.1 then _visit_stmt builtins st p.2 else []) cs) →
  ∃ r c, (r, c) ∈ cs ∧ r ∈ rs ∧ justified E c rep.
Proof.
  intros Hp IH Hrs Hc Hrep.
  apply (elem_of_visits (_visit_stmt builtins st) (λ p, among rs p.1)) in Hrep as (r & c & Hin & Hr%among_true & Hrep).
  exists r, c. split_and!; [done|done|]. destruct (plain_child _ _ _ _ Hp Hin) as [Hpc (Hst & _)%placed_spec].
  apply (IH r c Hin st); [done| |done..]. by apply Hst, Hrs.
Qed.

(** The scope the pass opens for a function or class body knows all its names. *)
Lemma body_covers l cs y :
  plain (Node l cs) = true → RBody ∈ body_roles l → scope_of (body_of [RBody] cs) y → y ∈ _bindings (body_of [RBody] cs).
Proof.
  intros Hp Hl (s & Hs & Hb). apply elem_of_concat_map. exists s. split; [done|].
  unfold body_of in Hs. apply list_elem_of_fmap in Hs as ([r c] & -> & [Hr Hin]%list_elem_of_filter).
  apply among_true, list_elem_of_singleton in Hr. cbn in Hr. subst r.
  destruct (plain_child _ _ _ _ Hp Hin) as [Hpc (Hst & _)%placed_spec].
  apply bind_stmt_complete; [done| |done]. left. by apply Hst.
Qed.

Ltac from_part E :=
  let r := fresh in let c := fresh in let Hin := fresh in let Hj := fresh in
  intros (r & c & Hin & ? & Hj); apply (justified_part E _ _ r c); [done|done|done|exact Hj].

Lemma handlers_sound cs st E rep :
  plain (Node LTry cs) = true → (∀ r c, (r, c) ∈ cs → ∀ r' c', (r', c') ∈ fields c → stmt_sound c') → covers st E →
  rep ∈ concat (map (λ p, if among [RHandler] p.1 then
                            match p.2 with
                            | Node _ hs => visit_fields builtins [RType] st hs
                                ++ concat (map (λ q, if among [RBody] q.1 then _visit_stmt builtins st q.2 else []) hs)
                            end
                          else []) cs) →
  justified E (Node LTry cs) rep.
Proof.
  intros Hp IH Hc ([r h] & Hin & Hrep)%elem_of_concat_map. cbn [fst snd] in Hrep.
  destruct (among [RHandler] r) eqn:Er; [|by apply not_elem_of_nil in Hrep].
  apply among_true, list_elem_of_singleton in Er as ->.
  destruct (plain_child _ _ _ _ Hp Hin) as [Hph (_ & _ & _ & Hh)%placed_spec]. specialize (IH _ _ Hin).
  destruct (Hh eq_refl) as [n Hn]. destruct h as [hl hs]. cbn [label_of fields] in *. subst hl.
  apply (justified_part E LTry cs RHandler (Node (LHandler n) hs)); [done..|]. apply elem_of_app in Hrep as [Hrep|Hrep].
  - apply (fields_sound (LHandler n) hs [RType] st E) in Hrep; [|done|cbn; set_solver|done]. revert Hrep. from_part E.
  - apply (stmts_sound (LHandler n) hs [RBody] st E) in Hrep; [|done|done|cbn; set_solver|done]. revert Hrep. from_part E.
Qed.

(** A report comes from a field of the node that stands in the scopes of the node. *)
Ltac exprs E l cs rs :=
  match goal with
  | H : _ ∈ visit_fields _ _ _ _ |- _ => apply (fields_sound l cs rs _ E) in H; [|done|cbn; set_solver|done]
  | H : _ ∈ visit_inner _ _ _ _ _ |- _ => apply (inner_sound l cs rs _ _ E) in H; [|done|set_solver|done]
  | H : _ ∈ concat _ |- _ => apply (stmts_sound l cs rs _ E) in H; [|done|done|cbn; set_solver|done]
  end.

Lemma simple_sound l cs st E rep :
  plain (Node l cs) = true → has_body l = false → l ≠ LComp → covers st E →
  rep ∈ concat (map (λ p, if is_expr p.2 then _visit_expr builtins st p.2 else []) cs) → justified E (Node l cs) rep.
Proof.
  intros Hp Hb Hl Hc Hrep.
  apply (elem_of_visits (_visit_expr builtins st) (λ p, is_expr p.2)) in Hrep as (r & c & Hin & He & Hrep).
  apply (justified_part E l cs r c); [done..|]. apply (visit_expr_sound c st); [|by apply expr_inner|done..].
  by eapply plain_child.
Qed.

Lemma def_sound name params cs st E rep :
  plain (Node (LFunctionDef name params) cs) = true → (∀ r c, (r, c) ∈ cs → stmt_sound c) → covers st E →
  rep ∈ _visit_stmt builtins st (Node (LFunctionDef name params) cs) → justified E (Node (LFunctionDef name params) cs) rep.
Proof.
  intros Hp IH Hc Hrep. cbn [_visit_stmt] in Hrep. rewrite !elem_of_app in Hrep. destruct Hrep as [Hrep|[Hrep|Hrep]].
  - exprs E (LFunctionDef name params) cs [RDecorator]. destruct Hrep as (r & c & Hin & Hr & Hj).
    apply (justified_outer E _ cs r c); [done|set_solver|done..].
  - exprs E (LFunctionDef name params) cs [RArgs]. destruct Hrep as (r & c & Hin & Hr & Hj).
    apply (justified_outer E _ cs r c); [done|set_solver|done..].
  - set (E' := (λ y, y ∈ params ∨ scope_of (body_of [RBody] cs) y) :: E).
    assert (covers ((_bindings (body_of [RBody] cs) ++ params) :: st) E') as Hc'.
    { constructor; [|done]. intros y _ [Hy|Hy]; apply elem_of_app; [by right|left]. by eapply body_covers; [done|left|]. }
    exprs E' (LFunctionDef name params) cs [RBody]. destruct Hrep as (r & c & Hin & Hr & E2 & Ho & Hu).
    apply list_elem_of_singleton in Hr as ->. exists E2. split; [by eapply O_function|done].
Qed.

Lemma class_sound name cs st E rep :
  plain (Node (LClassDef name) cs) = true → (∀ r c, (r, c) ∈ cs → stmt_sound c) → covers st E →
  rep ∈ _visit_stmt builtins st (Node (LClassDef name) cs) → justified E (Node (LClassDef name) cs) rep.
Proof.
  intros Hp IH Hc Hrep. cbn [_visit_stmt] in Hrep. rewrite !elem_of_app in Hrep. destruct Hrep as [Hrep|[Hrep|[Hrep|Hrep]]].
  1: exprs E (LClassDef name) cs [RDecorator]. 2: exprs E (LClassDef name) cs [RBase]. 3: exprs E (LClassDef name) cs [RKeyword].
  1-3: destruct Hrep as (r & c & Hin & Hr & Hj); apply (justified_outer E _ cs r c); [done|set_solver|done..].
  assert (covers (_bindings (body_of [RBody] cs) :: st) (class_scope (body_of [RBody] cs) :: E)) as Hc'.
  { constructor; [|done]. intros y Hu [Hy|Hy]; [apply all_underscored in Hy; [congruence|done]|]. by eapply body_covers; [done|left|]. }
  exprs (class_scope (body_of [RBody] cs) :: E) (LClassDef name) cs [RBody]. destruct Hrep as (r & c & Hin & Hr & E2 & Ho & Hu).
  apply list_elem_of_singleton in Hr as ->. exists E2. split; [by eapply O_class|done].
Qed.

Lemma visit_stmt_sound_all a : stmt_sound a ∧ ∀ r c, (r, c) ∈ fields a → stmt_sound c.
Proof.
  induction a as [l cs IH] using ast_ind'. split; [|intros r c Hin; by apply (IH r c Hin)].
  intros st E rep Hp Hs Hc Hrep.
  assert (∀ r c, (r, c) ∈ cs → stmt_sound c) as IHs by (intros r c Hin; apply (IH r c Hin)).
  assert (∀ r c, (r, c) ∈ cs → ∀ r' c', (r', c') ∈ fields c → stmt_sound c') as IHh by (intros r c Hin; apply (IH r c Hin)).
  destruct l; try done; try (by apply def_sound with st); try (by apply class_sound with st); cbn [_visit_stmt] in Hrep;
    try (by apply not_elem_of_nil in Hrep); try (by eapply simple_sound); apply elem_of_app in Hrep as [Hrep|Hrep].
  - exprs E LFor cs [RIter]. revert Hrep. from_part E.
  - exprs E LFor cs [RBody; ROrelse]. revert Hrep. from_part E.
  - exprs E LWith cs [RItem]. revert Hrep. from_part E.
  - exprs E LWith cs [RBody]. revert Hrep. from_part E.
  - exprs E LIf cs [RTest]. revert Hrep. from_part E.
  - exprs E LIf cs [RBody; ROrelse]. revert Hrep. from_part E.
  - exprs E LWhile cs [RTest]. revert Hrep. from_part E.
  - exprs E LWhile cs [RBody; ROrelse]. revert Hrep. from_part E.
  - by apply handlers_sound with st.
  - exprs E LTry cs [RBody; ROrelse; RFinal]. revert Hrep. from_part E.
Qed.

Lemma visit_stmt_sound a : stmt_sound a.
Proof. apply visit_stmt_sound_all. Qed.
End sound.

(** ** The pass as a whole *)
(** [below a n]: [n] is a node of the tree [a]. *)
Inductive below : ast → ast → Prop :=
| Below_refl a : below a a
| Below_child l cs r c n : (r, c) ∈ cs → below c n → below (Node l cs) n.

Lemma walk_below a n : n ∈ walk a ↔ below a n.
Proof.
  induction a as [l cs IH] using ast_ind'. rewrite elem_of_walk. split.
  - intros [->|(r & c & Hin & Hn)]; [constructor|]. eapply Below_child; [exact Hin|]. by apply (IH r c).
  - inversion 1 as [|? ? r c ? Hin Hb]; subst; [by left|]. right. exists r, c. split; [done|]. by apply (IH r c).
Qed.

Definition import_ok (allowed : list string) (a : ast) : Prop :=
  match label_of a with
  | LImport names _ => ∀ p, p ∈ names → root_of p.1 ∈ allowed
  | LImportFrom module names level _ =>
      level = 0 ∧ ∀ p, p ∈ names → p.1 ≠ "*" ∧ (root_of (default "" module) = "" ∨ root_of (default "" module) ∈ allowed)
  | _ => True
  end.

Definition import_rules : list string := ["relative-import"; "wildcard-import"; "import-not-allowed"].

Lemma concat_map_nil {A B} (f : A → list B) l : concat (map f l) = [] ↔ ∀ x, x ∈ l → f x = [].
Proof.
  induction l as [|a l IH]; cbn [map concat]; [set_solver|]. split.
  - intros [Ha Hl]%app_eq_nil x [->|Hx]%elem_of_cons; [done|by apply IH].
  - intros H. rewrite (H a) by left. apply IH. intros x Hx. apply H. by right.
Qed.

Lemma nonempty_false s : nonempty s = false ↔ s = "".
Proof. by destruct s. Qed.

Lemma node_imports_exact allowed a : node_import_issues allowed a = [] ↔ import_ok allowed a.
Proof.
  unfold node_import_issues, import_ok. destruct (label_of a); try done.
  - rewrite concat_map_nil. apply forall_proper; intros p. case_bool_decide; naive_solver.
  - destruct (Nat.ltb_spec 0 level) as [Hl|Hl]; [split; [done|intros [? _]; lia]|]. rewrite concat_map_nil. split.
    + intros H. split; [lia|]. intros p Hp. specialize (H p Hp). destruct (String.eqb_spec p.1 "*") as [?|Hn]; [done|].
      split; [done|]. destruct (nonempty (root_of (default "" module))) eqn:En.
      * case_bool_decide; [by right|done].
      * left. by apply nonempty_false.
    + intros [_ H] p Hp. destruct (H p Hp) as [Hn Hr]. rewrite (proj2 (String.eqb_neq _ _) Hn).
      destruct Hr as [->|Hr]; [done|]. rewrite (bool_decide_eq_true_2 _ Hr). by rewrite andb_false_r.
Qed.

Lemma import_rule allowed a i : i ∈ node_import_issues allowed a → rule i ∈ import_rules.
Proof.
  unfold node_import_issues, import_rules. destruct (label_of a); try (by intros ?%not_elem_of_nil).
  - intros (p & _ & Hi)%elem_of_concat_map. case_bool_decide; set_solver.
  - destruct (0 <? level)%nat; [intros ->%list_elem_of_singleton; set_solver|].
    intros (p & _ & Hi)%elem_of_concat_map. destruct (String.eqb p.1 "*"); [set_solver|].
    destruct (_ && _); set_solver.
Qed.

(** Import hygiene is exact.  The pass reports a syntax error or an import issue
    unless the code parses and every import anywhere in it, in nested functions and
    conditional blocks too, is absolute, names no wildcard and has a root module that
    the sandbox offers. *)
Theorem imports_checked builtins parse code allowed :
  (∀ i, i ∈ analyze_code builtins parse code allowed → rule i ∉ "syntax" :: import_rules) ↔
  ∃ tree, parse code = Ok tree ∧ ∀ n, below tree n → import_ok allowed n.
Proof.
  unfold analyze_code. destruct (parse code) as [tree|[line msg]].
  - split.
    + intros H. exists tree. split; [done|]. intros n Hn. apply node_imports_exact.
      destruct (node_import_issues allowed n) as [|i rest] eqn:Ei; [done|]. exfalso.
      apply (H i); [|right; apply (import_rule allowed n); rewrite Ei; by left].
      apply elem_of_app. left. apply elem_of_concat_map. exists n. split; [by apply walk_below|]. rewrite Ei. by left.
    + intros (t & [= <-] & H) i [Hi|Hi]%elem_of_app.
      * apply elem_of_concat_map in Hi as (n & Hn & Hi). rewrite (proj2 (node_imports_exact allowed n)) in Hi;
          [by apply not_elem_of_nil in Hi|]. by apply H, walk_below.
      * apply list_elem_of_fmap in Hi as ([line x] & -> & _). cbn [rule]. set_solver.
  - split; [|by intros (tree & ? & _)]. intros H. exfalso. eapply H; [by left|]. by left.
Qed.

(** The statements of a module that the theorem below is about. *)
Definition plain_module (tree : ast) : bool := forallb (λ s, plain s && is_stmt s) (body_of [RBody] (fields tree)).

Lemma find_undefined_sound builtins tree line x :
  plain_module tree = true → (line, x) ∈ find_undefined builtins tree →
  ∃ s E, s ∈ body_of [RBody] (fields tree) ∧ occurs [scope_of (body_of [RBody] (fields tree))] s E x line
         ∧ (underscored x = false → unknown builtins E x).
Proof.
  unfold plain_module, find_undefined. rewrite forallb_forall. intros Hp (s & Hs & Hrep)%elem_of_concat_map.
  assert (∀ s, s ∈ body_of [RBody] (fields tree) → plain s = true ∧ is_stmt s = true) as Hps.
  { intros s' Hs'. by apply andb_true_iff, Hp, list_elem_of_In. }
  assert (covers [_bindings (body_of [RBody] (fields tree))] [scope_of (body_of [RBody] (fields tree))]) as Hc.
  { constructor; [|constructor]. intros y _ (s' & Hs' & Hb). apply elem_of_concat_map. exists s'. split; [done|].
    apply bind_stmt_complete; [by apply Hps|left; by apply Hps|done]. }
  destruct (visit_stmt_sound builtins s _ _ _ (proj1 (Hps s Hs)) (proj2 (Hps s Hs)) Hc Hrep) as (E & Ho & Hu).
  by exists s, E.
Qed.


(** ** Examples *)
Definition load (x : string) : ast := Node (LName x Load 1) [].
Definition store (x : string) : ast := Node (LName x Store 1) [].
Definition expr_stmt (a : ast) : ast := Node LSimple [(RValue, a)].
Definition walrus_of (x : string) (v : ast) : ast := Node LNamedExpr [(RTarget, store x); (RValue, v)].
Definition module_of (stmts : list ast) : ast := Node LAux (map (λ s, (RBody, s)) stmts).

(** def f(a): y = a + z *)
Definition def_f : ast :=
  Node (LFunctionDef "f" ["a"])
    [(RArgs, Node LAux []);
     (RBody, Node LAssign [(RTarget, store "y"); (RValue, Node LExpr [(ROther, load "a"); (ROther, load "z")])])].


(** case x: print(x) *)
Example match_capture_is_flagged :
  find_undefined ["print"; "v"]
    (module_of [Node LStmt
       [(ROther, load "v");
        (ROther, Node LAux [(ROther, Node (LCapture "x") []); (RBody, expr_stmt (load "x"))])];
       expr_stmt (load "x")]) = [(1%Z, "x")].
Proof. reflexivity. Qed.

(** (a := (b := 1)); print(b) *)
Example nested_walrus_is_flagged :
  find_undefined [] (module_of [expr_stmt (walrus_of "a" (walrus_of "b" (Node LExpr []))); expr_stmt (load "b")])
  = [(1%Z, "b")].
Proof. reflexivity. Qed.

(** f = lambda: (a := 1) + a *)
Example lambda_walrus_is_flagged :
  find_undefined [] (module_of [Node LAssign [(RTarget, store "f");
    (RValue, Node (LLambda []) [(RBody, Node LExpr [(ROther, walrus_of "a" (Node LExpr [])); (ROther, load "a")])])]])
  = [(1%Z, "a")].
Proof. reflexivity. Qed.

(** def f(): global x; x = 1
    f(); x *)
Example global_assignment_is_flagged :
  find_undefined [] (module_of
    [Node (LFunctionDef "f" []) [(RBody, Node LGlobal []); (RBody, Node LAssign [(RTarget, store "x"); (RValue, Node LExpr [])])];
     expr_stmt (Node LExpr [(ROther, load "f")]); expr_stmt (load "x")]) = [(1%Z, "x")].
Proof. reflexivity. Qed.

(** try: y = 1
    except* E as e: e
    y *)
Example except_star_is_flagged :
  find_undefined ["E"] (module_of
    [Node LStmt [(RBody, Node LAssign [(RTarget, store "y"); (RValue, Node LExpr [])])]; expr_stmt (load "y")])
  = [(1%Z, "y")].
Proof. reflexivity. Qed.

(** class A:
        q = __qualname__
        def m(self): return __class__
    __cached__ *)
Example implicit_names_are_flagged :
  find_undefined ["print"] (module_of
    [Node (LClassDef "A")
       [(RBody, Node LAssign [(RTarget, store "q"); (RValue, load "__qualname__")]);
        (RBody, Node (LFunctionDef "m" ["self"]) [(RArgs, Node LAux []); (RBody, expr_stmt (load "__class__"))])];
     expr_stmt (load "__cached__")])
  = [(1%Z, "__qualname__"); (1%Z, "__class__"); (1%Z, "__cached__")].
Proof. reflexivity. Qed.

(** _A__x = 1
    class A: y = __x *)
Example mangled_name_is_flagged :
  find_undefined [] (module_of
    [Node LAssign [(RTarget, store "_A__x"); (RValue, Node LExpr [])];
     Node (LClassDef "A") [(RBody, Node LAssign [(RTarget, store "y"); (RValue, load "__x")])]]) = [(1%Z, "__x")].
Proof. reflexivity. Qed.
