(* ===== verification/AtomicIO.v ===== *)
(** * Atomic files with rotating backups ([noema/utils/atomic_io.py])

    The files of a directory are a finite map from names to contents.  Every system
    call may work, fail with [OSError], or be the point where the process dies; a call
    that writes a file may leave a part of the content behind.  [io] is the monad of
    such calls: it threads the files and a list of [fault]s, one per call.  Hoare
    triples with a second postcondition, for code that was left by an exception or a
    crash, structure the proofs.

    [json.dump] and [json.load] are parameters; [os.fdopen], [os.fsync] and [stat] only
    matter for their failures; names are those of files in one directory of a POSIX
    file system, where a rename replaces its target. *)
From Stdlib Require Import ZArith Lia Bool Ascii String.
From stdpp Require Import base option numbers gmap pretty strings list.
From S2P Require Import Prelude.
Local Open Scope string_scope.
Local Open Scope list_scope.
Local Open Scope nat_scope.

Abbreviation files := (gmap string string).

(** ** System calls *)
Inductive fault := Works | OsErr (part : string) | Crash (part : string).

Inductive outcome (A : Type) := Done (a : A) | Raised | Crashed.
Arguments Done {A} _.
Arguments Raised {A}.
Arguments Crashed {A}.

Definition io (A : Type) : Type := files * list fault → files * list fault * outcome A.

#[global] Instance io_ret : MRet io := λ A a w, (w, Done a).
#[global] Instance io_bind : MBind io := λ A B f m w,
  match m w with
  | (w, Done a) => f a w
  | (w, Raised) => (w, Raised)
  | (w, Crashed) => (w, Crashed)
  end.

(** A call that does [act], or leaves [torn part] when it fails. *)
Definition call (act : files → files) (torn : string → files → files) : io () := λ '(fs, flts),
  match flts with
  | [] => (act fs, [], Done ())
  | Works :: flts => (act fs, flts, Done ())
  | OsErr part :: flts => (torn part fs, flts, Raised)
  | Crash part :: flts => (torn part fs, flts, Crashed)
  end.

Definition whole (act : files → files) : io () := call act (λ _, id).

Definition is_file (p : string) : io bool := λ w, (w, Done (bool_decide (is_Some (w.1 !! p)))).
Definition content (p : string) (fs : files) : string := default "" (fs !! p).

Definition unlink (p : string) : io () := whole (delete p).
Definition rename (p q : string) : io () := whole (λ fs, <[q := content p fs]> (delete p fs)).
Definition copy2 (p q : string) : io () := call (λ fs, <[q := content p fs]> fs) (λ part, <[q := part]>).
Definition mkstemp (p : string) : io () := whole <[p := ""]>.
Definition write (p text : string) : io () := call <[p := text]> (λ part, <[p := part]>).
Definition fsync : io () := whole id.

(** [with suppress(OSError)] *)
Definition suppress (m : io ()) : io () := λ w, match m w with (w, Raised) => (w, Done ()) | r => r end.

(** [try: m except BaseException: h; raise] *)
Definition on_error {A} (m : io A) (h : io ()) : io A := λ w,
  match m w with
  | (w, Raised) => match h w with (w, Crashed) => (w, Crashed) | (w, _) => (w, Raised) end
  | r => r
  end.

Definition when (b : bool) (m : io ()) : io () := if b then m else mret ().

(** ** Names *)

(** Everything before the last dot, unless the dot is the first or last character. *)
Fixpoint before_last_dot (s : string) : option string :=
  match s with
  | EmptyString => None
  | String a t =>
      match before_last_dot t with
      | Some u => Some (String a u)
      | None => if Ascii.eqb a "." then Some "" else None
      end
  end.

Definition path_stem (p : string) : string :=
  match before_last_dot p with
  | Some stem => if nonempty stem && negb (String.eqb p (stem +:+ ".")) then stem else p
  | None => p
  end.

Definition with_suffix (p suffix : string) : string := path_stem p +:+ suffix.

Definition bak (p : string) (i : nat) : string := with_suffix p (".bak." +:+ pretty (N.of_nat i)).

(** ** Backups *)

(** [for i in range(n, 0, -1)] *)
Fixpoint shift (p : string) (n : nat) : io () :=
  match n with
  | 0 => mret ()
  | S m => src ← is_file (bak p n); when src (rename (bak p n) (bak p (n + 1)));; shift p m
  end.

Definition _rotate_backups (p : string) (max_backups : nat) : io () :=
  match max_backups with
  | 0 => mret ()
  | S n =>
      oldest ← is_file (bak p max_backups); when oldest (unlink (bak p max_backups));;
      shift p n;;
      copy2 p (bak p 1)
  end.

Section json.
Context (dumps : json → string).

(** [rnd]: what [mkstemp] puts between prefix and suffix. *)
Definition tmp_name (p rnd : string) : string := path_stem p +:+ "." +:+ rnd +:+ ".tmp".

(** The body of the [try]: after the rename the directory is synchronised, if
    possible, and the size is read for the log. *)
Definition replace_file (p tmp text : string) : io () :=
  write tmp text;; fsync;; rename tmp p;; suppress fsync;; whole id.

Definition atomic_write_json (p : string) (data : json) (backup : bool) (backup_count : nat) (rnd : string) : io () :=
  exists_ ← is_file p;
  when (backup && exists_) (_rotate_backups p backup_count);;
  let tmp := tmp_name p rnd in
  mkstemp tmp;;
  on_error (replace_file p tmp (dumps data)) (suppress (unlink tmp)).

(** What [open] and [json.load] make of a file. *)
Inductive parsed := Parsed (j : json) | BadJson | BadUtf8.

Context (loads : string → parsed).

(** [d]: the default; [err], [bak_err]: opening the file, or the backup, fails. *)
Definition atomic_read_json (p : string) (d : option json) (fs : files) (err bak_err : bool) : result pyexn json :=
  let d := default (JObj []) d in
  let from_backup :=
    match fs !! with_suffix p ".bak.1" with
    | None => Ok d
    | Some text =>
        if bak_err then Ok d
        else match loads text with Parsed j => Ok j | BadJson => Ok d | BadUtf8 => Err ValueError end
    end in
  match fs !! p with
  | None => Ok d
  | Some text =>
      if err then from_backup
      else match loads text with Parsed j => Ok j | BadJson => from_backup | BadUtf8 => Err ValueError end
  end.
End json.

(** ** Triples *)
Definition triple {A} (P : files → Prop) (m : io A) (Q : A → files → Prop) (X : files → Prop) : Prop :=
  ∀ fs flts, P fs → match m (fs, flts) with (w, Done a) => Q a w.1 | (w, _) => X w.1 end.

Lemma triple_ret {A} (a : A) (Q : A → files → Prop) X : triple (Q a) (mret a) Q X.
Proof. by intros fs flts. Qed.

Lemma triple_bind {A B} P (m : io A) (f : A → io B) Q R X :
  triple P m Q X → (∀ a, triple (Q a) (f a) R X) → triple P (m ≫= f) R X.
Proof.
  intros Hm Hf fs flts HP. specialize (Hm fs flts HP). unfold mbind, io_bind.
  destruct (m (fs, flts)) as [[fs' flts'] [a| |]]; [|done..]. by apply Hf.
Qed.

Lemma triple_seq {A B} P (m : io A) (m' : io B) Q R X :
  triple P m (λ _, Q) X → triple Q m' R X → triple P (m ≫= λ _, m') R X.
Proof. intros Hm Hm'. eapply triple_bind; [exact Hm|done]. Qed.

Lemma triple_weaken {A} P P' (m : io A) (Q Q' : A → files → Prop) (X X' : files → Prop) :
  triple P m Q X → (∀ fs, P' fs → P fs) → (∀ a fs, Q a fs → Q' a fs) → (∀ fs, X fs → X' fs) → triple P' m Q' X'.
Proof.
  intros H HP HQ HX fs flts Hp. specialize (H fs flts (HP fs Hp)). destruct (m (fs, flts)) as [w [a| |]]; auto.
Qed.

Lemma triple_call P act torn (Q : () → files → Prop) (X : files → Prop) :
  (∀ fs, P fs → Q () (act fs)) → (∀ fs part, P fs → X (torn part fs)) → triple P (call act torn) Q X.
Proof. intros Ha Ht fs [|[]] HP; cbn; auto. Qed.

Lemma triple_is_file P p (Q : bool → files → Prop) X :
  (∀ fs, P fs → Q (bool_decide (is_Some (fs !! p))) fs) → triple P (is_file p) Q X.
Proof. intros H fs flts HP. cbn. auto. Qed.

Lemma triple_suppress P m (Q : () → files → Prop) X : triple P m Q X → (∀ fs, X fs → Q () fs) → triple P (suppress m) Q X.
Proof.
  intros H HX fs flts HP. specialize (H fs flts HP). unfold suppress. destruct (m (fs, flts)) as [w [[]| |]]; auto.
Qed.

Lemma triple_on_error {A} P (m : io A) h Q X :
  triple P m Q X → triple X h (λ _, X) X → triple P (on_error m h) Q X.
Proof.
  intros H Hh fs flts HP. specialize (H fs flts HP). unfold on_error. destruct (m (fs, flts)) as [[fs' flts'] [a| |]]; auto.
  specialize (Hh fs' flts' H). by destruct (h (fs', flts')) as [w [[]| |]].
Qed.

Lemma triple_when P b (m : io ()) (Q : () → files → Prop) X :
  (b = true → triple P m Q X) → (b = false → ∀ fs, P fs → Q () fs) → triple P (when b m) Q X.
Proof. destruct b; intros Ht Hf; [by apply Ht|]. intros fs flts HP. by apply Hf. Qed.

(** Without faults code returns. *)
Definition calm {A} (m : io A) : Prop := ∀ fs, ∃ fs' a, m (fs, []) = (fs', [], Done a).

Lemma calm_ret {A} (a : A) : calm (mret a).
Proof. intros fs. by exists fs, a. Qed.

Lemma calm_bind {A B} (m : io A) (f : A → io B) : calm m → (∀ a, calm (f a)) → calm (m ≫= f).
Proof. intros Hm Hf fs. destruct (Hm fs) as (fs' & a & E). unfold mbind, io_bind. rewrite E. apply Hf. Qed.

Lemma calm_call act torn : calm (call act torn).
Proof. intros fs. by exists (act fs), (). Qed.

Lemma calm_is_file p : calm (is_file p).
Proof. intros fs. by eexists _, _. Qed.

Lemma calm_suppress m : calm m → calm (suppress m).
Proof. intros Hm fs. destruct (Hm fs) as (fs' & a & E). unfold suppress. rewrite E. by exists fs', a. Qed.

Lemma calm_on_error {A} (m : io A) h : calm m → calm (on_error m h).
Proof. intros Hm fs. destruct (Hm fs) as (fs' & a & E). unfold on_error. rewrite E. by exists fs', a. Qed.

Lemma calm_when b m : calm m → calm (when b m).
Proof. destruct b; [done|]. intros _. apply calm_ret. Qed.

Create HintDb calm.
#[export] Hint Resolve calm_ret calm_bind calm_call calm_is_file calm_suppress calm_on_error calm_when : calm.

Lemma calm_shift p n : calm (shift p n).
Proof. induction n as [|n IH]; cbn [shift]; unfold rename, whole; auto 10 with calm. Qed.
#[export] Hint Resolve calm_shift : calm.

Lemma calm_rotate p k : calm (_rotate_backups p k).
Proof. destruct k as [|k]; cbn [_rotate_backups]; unfold unlink, copy2, whole; auto 10 with calm. Qed.
#[export] Hint Resolve calm_rotate : calm.

Lemma calm_write dumps p data backup k rnd : calm (atomic_write_json dumps p data backup k rnd).
Proof.
  unfold atomic_write_json, replace_file, mkstemp, write, rename, fsync, whole. apply calm_bind; [auto with calm|].
  intros b. cbn zeta. auto 10 with calm.
Qed.
#[export] Hint Resolve calm_write : calm.

(** ** Names stay apart *)
Definition is_digit_char (a : ascii) : bool := let n := nat_of_ascii a in (48 <=? n)%nat && (n <=? 57)%nat.

Lemma last_char_go x s a : last_char s = Some a → last_char (pretty_N_go x s) = Some a.
Proof.
  revert s a. induction (N.lt_wf_0 x) as [x _ IH]. intros s a Hs.
  destruct (decide (x = 0)%N) as [->|Hx]; [by rewrite pretty_N_go_0|].
  rewrite pretty_N_go_step by lia. apply IH; [apply N.div_lt; lia|]. by destruct s.
Qed.

Lemma pretty_last_digit (n : N) : ∃ a, last_char (pretty n) = Some a ∧ is_digit_char a = true.
Proof.
  unfold pretty, pretty_N. destruct (decide (n = 0)%N) as [->|Hn]; [by eexists|].
  rewrite pretty_N_go_step by lia. eexists. split; [by apply last_char_go|].
  unfold pretty_N_char. repeat case_match; done.
Qed.

Lemma bak_last p i : ∃ a, last_char (bak p i) = Some a ∧ is_digit_char a = true.
Proof.
  destruct (pretty_last_digit (N.of_nat i)) as (a & Ha & Hd). exists a. split; [|done].
  unfold bak, with_suffix. by do 2 apply last_char_app.
Qed.

Lemma bak_inj p i j : bak p i = bak p j → i = j.
Proof.
  unfold bak, with_suffix. intros E. apply (inj (String.append (path_stem p))) in E.
  apply (inj (String.append ".bak.")) in E. apply (inj pretty) in E. lia.
Qed.

Section names.
Context (p rnd : string) (Hp : last_char p = Some "n"%char).

Lemma bak_ne_path i : bak p i ≠ p.
Proof. intros E. destruct (bak_last p i) as (a & Ha & Hd). rewrite E, Hp in Ha. by injection Ha as <-. Qed.

Lemma tmp_last : last_char (tmp_name p rnd) = Some "p"%char.
Proof. unfold tmp_name. by do 3 apply last_char_app. Qed.

Lemma tmp_ne_path : tmp_name p rnd ≠ p.
Proof. intros E. pose proof tmp_last as H. rewrite E, Hp in H. done. Qed.

Lemma bak_ne_tmp i : bak p i ≠ tmp_name p rnd.
Proof. intros E. destruct (bak_last p i) as (a & Ha & Hd). rewrite E, tmp_last in Ha. by injection Ha as <-. Qed.
End names.

(** ** All or nothing *)
Section write.
Context (dumps : json → string) (p rnd text : string) (k : nat) (fs0 : files).
Context (Hp : last_char p = Some "n"%char).

Definition is_backup (q : string) : Prop := ∃ i, 1 ≤ i ≤ k ∧ q = bak p i.

(** Only files in [T] differ from the start. *)
Definition only (T : string → Prop) (fs : files) : Prop := ∀ q, ¬ T q → fs !! q = fs0 !! q.

Lemma only_insert (T : string → Prop) q c fs : T q → only T fs → only T (<[q := c]> fs).
Proof. intros Hq H r Hr. rewrite lookup_insert_ne; [by apply H|]. by intros ->. Qed.

Lemma only_delete (T : string → Prop) q fs : T q → only T fs → only T (delete q fs).
Proof. intros Hq H r Hr. rewrite lookup_delete_ne; [by apply H|]. by intros ->. Qed.

Lemma only_mono (T T' : string → Prop) fs : (∀ q, T q → T' q) → only T fs → only T' fs.
Proof. intros HT H q Hq. apply H. auto. Qed.

Lemma backup_i i : 1 ≤ i ≤ k → is_backup (bak p i).
Proof. intros Hi. by exists i. Qed.

Lemma rename_only T q r : T q → T r → triple (only T) (rename q r) (λ _, only T) (only T).
Proof. intros Hq Hr. apply triple_call; [|done]. intros fs H. by apply only_insert, only_delete. Qed.

Lemma shift_only n : n < k → triple (only is_backup) (shift p n) (λ _, only is_backup) (only is_backup).
Proof.
  induction n as [|n IH]; intros Hn; cbn [shift]; [apply (triple_ret () (λ _, only is_backup))|].
  eapply triple_bind; [by apply (triple_is_file _ _ (λ _, only is_backup))|]. intros b. cbn beta.
  eapply triple_seq; [|apply IH; lia].
  apply triple_when; [|done]. intros _. apply rename_only; apply backup_i; lia.
Qed.

Lemma rotate_only m : m = k → triple (only is_backup) (_rotate_backups p m) (λ _, only is_backup) (only is_backup).
Proof.
  destruct m as [|n]; intros Ek; cbn [_rotate_backups]; [apply (triple_ret () (λ _, only is_backup))|].
  eapply triple_bind; [by apply (triple_is_file _ _ (λ _, only is_backup))|]. intros b. cbn beta.
  eapply triple_seq.
  - apply (triple_when _ _ _ (λ _, only is_backup)); [|done]. intros _. apply triple_call; [|done]. intros fs.
    apply only_delete, backup_i. lia.
  - eapply triple_seq; [apply shift_only; lia|].
    apply triple_call; intros; apply only_insert; try done; apply backup_i; lia.
Qed.

Abbreviation tmp := (tmp_name p rnd).
Definition staging (q : string) : Prop := is_backup q ∨ q = tmp.
Definition touched (q : string) : Prop := staging q ∨ q = p.

(** The file has its old or its new content. *)
Definition old_or_new (fs : files) : Prop := only touched fs ∧ (fs !! p = fs0 !! p ∨ fs !! p = Some text).

Lemma path_not_staging : ¬ staging p.
Proof. intros [(i & _ & E)|E]; symmetry in E; [by eapply bak_ne_path|by eapply tmp_ne_path]. Qed.

Lemma staged_old fs : only staging fs → old_or_new fs.
Proof.
  intros H. split; [eapply only_mono; [|exact H]; by left|]. left. apply H, path_not_staging.
Qed.

Definition written_new (fs : files) : Prop := only touched fs ∧ fs !! p = Some text ∧ fs !! tmp = None.

Lemma written_old_or_new fs : written_new fs → old_or_new fs.
Proof. intros (H & Hn & _). split; [done|by right]. Qed.

Lemma replace_triple : triple (only staging) (replace_file p tmp text) (λ _, written_new) old_or_new.
Proof.
  unfold replace_file.
  eapply (triple_seq _ _ _ (λ fs, only staging fs ∧ fs !! tmp = Some text)).
  { apply triple_call; intros fs.
    - intros H. split; [apply only_insert; [by right|done]|apply lookup_insert_eq].
    - intros part H. apply staged_old, only_insert; [by right|done]. }
  eapply (triple_seq _ _ _ (λ fs, only staging fs ∧ fs !! tmp = Some text)).
  { apply triple_call; [done|]. intros fs part [H _]. by apply staged_old. }
  eapply (triple_seq _ _ _ written_new).
  { apply triple_call; intros fs; [|intros part [H _]; by apply staged_old]. intros [H Ht]. unfold content. rewrite Ht. cbn [default].
    split_and!; [|apply lookup_insert_eq|].
    - apply only_insert; [by right|]. apply only_delete; [left; by right|]. eapply only_mono; [|exact H]. by left.
    - rewrite lookup_insert_ne, lookup_delete_eq by (intros E; symmetry in E; by eapply tmp_ne_path). done. }
  eapply (triple_seq _ _ _ written_new).
  - apply (triple_weaken written_new written_new _ (λ _, written_new) _ written_new);
      [|done..|apply written_old_or_new].
    apply triple_suppress; [|done]. by apply triple_call.
  - apply triple_call; [done|]. intros fs _. apply written_old_or_new.
Qed.

Lemma cleanup_triple : triple old_or_new (suppress (unlink tmp)) (λ _, old_or_new) old_or_new.
Proof.
  apply triple_suppress; [|done]. apply triple_call; [|done]. intros fs [H Hc]. split.
  - apply only_delete; [left; by right|done].
  - by rewrite lookup_delete_ne by (by apply tmp_ne_path).
Qed.

Lemma write_triple data backup :
  dumps data = text →
  triple (only (λ _, False)) (atomic_write_json dumps p data backup k rnd) (λ _, written_new) old_or_new.
Proof.
  intros Ed. unfold atomic_write_json.
  eapply triple_bind; [by apply (triple_is_file _ _ (λ _, only (λ _, False)))|]. intros b. cbn beta.
  eapply (triple_seq _ _ _ (only is_backup)).
  { apply triple_when; [|intros _ fs; by apply only_mono]. intros _.
    eapply triple_weaken; [by apply rotate_only|intros fs; by apply only_mono|done|].
    intros fs H. apply staged_old. eapply only_mono; [|exact H]. by left. }
  cbn zeta. rewrite Ed. eapply (triple_seq _ _ _ (only staging)).
  - apply triple_call; intros fs.
    + intros H. apply only_insert; [by right|]. eapply only_mono; [|exact H]. by left.
    + intros _ H. apply staged_old. eapply only_mono; [|exact H]. by left.
  - apply triple_on_error; [apply replace_triple|apply cleanup_triple].
Qed.
End write.

(** The triple clients use: [C] is about the old content, [R] about other files. *)
Lemma triple_write dumps p data backup k rnd (C : option string → Prop) (R : files → Prop) :
  last_char p = Some "n"%char →
  (∀ fs fs' : files, (∀ q, ¬ touched p rnd k q → fs' !! q = fs !! q) → R fs → R fs') →
  triple (λ fs, C (fs !! p) ∧ R fs) (atomic_write_json dumps p data backup k rnd)
    (λ _ fs, fs !! p = Some (dumps data) ∧ R fs) (λ fs, (C (fs !! p) ∨ fs !! p = Some (dumps data)) ∧ R fs).
Proof.
  intros Hp HR fs flts [HC Hfs].
  pose proof (write_triple dumps p rnd (dumps data) k fs Hp data backup eq_refl fs flts (λ q _, eq_refl)) as H.
  destruct (atomic_write_json dumps p data backup k rnd (fs, flts)) as [w [a| |]].
  - destruct H as (Hf & Hn & _). split; [done|by eapply HR].
  - destruct H as [Hf Hc]. split; [|by eapply HR]. destruct Hc as [Hc|Hc]; [left; by rewrite Hc|by right].
  - destruct H as [Hf Hc]. split; [|by eapply HR]. destruct Hc as [Hc|Hc]; [left; by rewrite Hc|by right].
Qed.

(** Writing a file leaves files alone whose names start differently. *)
Lemma other_file p q rnd k a b :
  String.get 0 (path_stem p) = Some a → String.get 0 p = Some a → String.get 0 q = Some b → a ≠ b → ¬ touched p rnd k q.
Proof.
  intros Hs Hp Hq Hne.
  assert (∀ t, String.get 0 (path_stem p +:+ t) = Some a) as Hst by (intros t; destruct (path_stem p); [done|exact Hs]).
  intros [[(i & _ & ->)| ->]| ->]; [unfold bak, with_suffix in Hq|unfold tmp_name in Hq|]; rewrite ?Hst in Hq; congruence.
Qed.

(** C27: Replacing a document is all or nothing.  The file exists and can be parsed, its
    name ends as [.json] does, and the codec reads back what it wrote.  Wherever a system
    call of [atomic_write_json] fails or the process dies, a reader afterwards gets the old
    document or the new one, never a torn one or the default; if the call returns, it is the
    new one and no temporary file is left.  Only the file, its numbered backups and the
    temporary file are touched. *)
Theorem atomic_write_safe dumps loads p data backup k rnd fs flts old old_data d :
  last_char p = Some "n"%char → fs !! p = Some old → loads old = Parsed old_data → loads (dumps data) = Parsed data →
  let '(fs', _, o) := atomic_write_json dumps p data backup k rnd (fs, flts) in
  (atomic_read_json loads p d fs' false false = Ok old_data ∨ atomic_read_json loads p d fs' false false = Ok data)
  ∧ (o = Done () → atomic_read_json loads p d fs' false false = Ok data ∧ fs' !! tmp_name p rnd = None)
  ∧ ∀ q, ¬ touched p rnd k q → fs' !! q = fs !! q.
Proof.
  intros Hp Ho Hlo Hln.
  pose proof (write_triple dumps p rnd (dumps data) k fs Hp data backup eq_refl fs flts) as H.
  destruct (atomic_write_json dumps p data backup k rnd (fs, flts)) as [[fs' flts'] o].
  assert (∀ t j, fs' !! p = Some t → loads t = Parsed j → atomic_read_json loads p d fs' false false = Ok j) as Hread.
  { intros t j Ht Hj. unfold atomic_read_json. by rewrite Ht, Hj. }
  assert (old_or_new p rnd (dumps data) k fs fs') as [Hf Hc].
  { destruct o as [[]| |]; [apply written_old_or_new|..]; by apply H. }
  split_and!; [| |exact Hf].
  - destruct Hc as [Hc|Hc]; [left|right]; (eapply Hread; [|done]); [by rewrite Hc|done].
  - intros ->. destruct H as (_ & Hn & Ht); [done|]. split; [|done]. by eapply Hread.
Qed.

(** ** The backups are the previous versions *)
Section history.
Context (dumps : json → string) (p : string) (Hp : last_char p = Some "n"%char).

Lemma shift_run n (fs : files) :
  fs !! bak p (n + 1) = None →
  ∃ fs', shift p n (fs, []) = (fs', [], Done ()) ∧ fs' !! bak p 1 = None
    ∧ (∀ i, 1 ≤ i ≤ n → fs' !! bak p (i + 1) = fs !! bak p i)
    ∧ ∀ i, n + 1 < i → fs' !! bak p i = fs !! bak p i.
Proof.
  revert fs. induction n as [|n IH]; intros fs Hn; cbn [shift]; [exists fs; split_and!; try done; lia|].
  unfold mbind, io_bind, is_file. cbn [fst].
  assert (∃ fs1, when (bool_decide (is_Some (fs !! bak p (S n)))) (rename (bak p (S n)) (bak p (S n + 1))) (fs, [])
                 = (fs1, [], Done ())
    ∧ fs1 !! bak p (n + 1) = None ∧ fs1 !! bak p (S n + 1) = fs !! bak p (S n)
    ∧ ∀ i, i ≠ S n → i ≠ S n + 1 → fs1 !! bak p i = fs !! bak p i) as (fs1 & -> & H1 & H2 & H3).
  { replace (n + 1) with (S n) by lia. unfold when, rename, whole, call, content.
    case_bool_decide as Hs; [destruct Hs as [c Hc]; rewrite Hc; eexists; split; [done|]|].
    - assert (∀ i, i ≠ S n + 1 → bak p (S n + 1) ≠ bak p i) as Hne by (intros i Hi E; apply bak_inj in E; lia).
      assert (∀ i, i ≠ S n → bak p (S n) ≠ bak p i) as Hne' by (intros i Hi E; apply bak_inj in E; lia).
      split_and!; [rewrite lookup_insert_ne by (apply Hne; lia); apply lookup_delete_eq|apply lookup_insert_eq|].
      intros i Hi Hi'. by rewrite lookup_insert_ne, lookup_delete_ne by auto.
    - apply eq_None_not_Some in Hs. exists fs. split_and!; [done|done|by rewrite Hs|done]. }
  destruct (IH fs1 H1) as (fs' & -> & Hb & Hi & Hr). exists fs'. split_and!; [done|done|..].
  - intros i Hle. destruct (decide (i = S n)) as [->|Hne].
    + rewrite (Hr (S n + 1)) by lia. done.
    + rewrite Hi by lia. apply H3; lia.
  - intros i Hlt. rewrite Hr by lia. apply H3; lia.
Qed.

Lemma rotate_run k (fs : files) c :
  fs !! p = Some c →
  ∃ fs', _rotate_backups p k (fs, []) = (fs', [], Done ()) ∧ fs' !! p = Some c
    ∧ (0 < k → fs' !! bak p 1 = Some c) ∧ ∀ i, 1 ≤ i < k → fs' !! bak p (i + 1) = fs !! bak p i.
Proof.
  intros Hc. destruct k as [|n]; cbn [_rotate_backups]; [exists fs; split_and!; try done; lia|].
  unfold mbind, io_bind, is_file. cbn [fst].
  assert (∃ fs1, when (bool_decide (is_Some (fs !! bak p (S n)))) (unlink (bak p (S n))) (fs, []) = (fs1, [], Done ())
    ∧ fs1 !! bak p (n + 1) = None ∧ fs1 !! p = Some c ∧ ∀ i, i ≠ S n → fs1 !! bak p i = fs !! bak p i)
    as (fs1 & -> & H1 & H2 & H3).
  { replace (n + 1) with (S n) by lia. unfold when, unlink, whole, call.
    case_bool_decide as Hs; [eexists; split; [done|]|exists fs; split_and!; try done; by apply eq_None_not_Some].
    split_and!; [apply lookup_delete_eq|by rewrite lookup_delete_ne by (by apply bak_ne_path)|].
    intros i Hi. apply lookup_delete_ne. intros E. apply bak_inj in E. lia. }
  destruct (shift_run n fs1 H1) as (fs2 & E2 & Hb & Hi & _).
  pose proof (shift_only p (S n) fs1 n (Nat.lt_succ_diag_r n) fs1 [] (λ _ _, eq_refl)) as Hfr.
  rewrite E2 in Hfr |- *. cbn [fst] in Hfr.
  assert (fs2 !! p = Some c) as Hp2.
  { rewrite (Hfr p); [done|]. intros (i & _ & E). symmetry in E. by eapply bak_ne_path. }
  unfold copy2, call, content. rewrite Hp2. cbn [default]. eexists. split_and!; [done|..].
  - by rewrite lookup_insert_ne by (by apply bak_ne_path).
  - intros _. apply lookup_insert_eq.
  - intros i Hlt. rewrite lookup_insert_ne by (intros E; apply bak_inj in E; lia). rewrite Hi by lia. apply H3. lia.
Qed.

(** Writes without faults; each with the random part of its temporary name. *)
Fixpoint write_all (k : nat) (ws : list (string * json)) (fs : files) : files :=
  match ws with
  | [] => fs
  | (rnd, data) :: ws => write_all k ws (atomic_write_json dumps p data true k rnd (fs, [])).1.1
  end.

(** The file, then its backups. *)
Definition version (i : nat) : string := match i with 0 => p | _ => bak p i end.

Lemma version_not_tmp rnd i : version i ≠ tmp_name p rnd.
Proof. destruct i; [intros E; symmetry in E; by eapply tmp_ne_path|by apply bak_ne_tmp]. Qed.

Lemma replace_run rnd text (fs : files) :
  ∃ fs', on_error (replace_file p (tmp_name p rnd) text) (suppress (unlink (tmp_name p rnd))) (fs, []) = (fs', [], Done ())
    ∧ fs' !! p = Some text ∧ ∀ i, fs' !! bak p i = fs !! bak p i.
Proof.
  eexists. split; [reflexivity|]. cbn. rewrite lookup_insert_eq. split; [unfold content; by rewrite lookup_insert_eq|].
  intros i. rewrite lookup_insert_ne by (intros E; symmetry in E; by eapply bak_ne_path).
  by rewrite lookup_delete_ne, lookup_insert_ne by (intros E; symmetry in E; by eapply bak_ne_tmp).
Qed.

Lemma write_run k rnd data (fs : files) :
  (∀ i, 1 ≤ i ≤ k → fs !! p = None → fs !! bak p i = None) →
  ∃ fs', atomic_write_json dumps p data true k rnd (fs, []) = (fs', [], Done ()) ∧ fs' !! p = Some (dumps data)
    ∧ ∀ i, i < k → fs' !! version (S i) = fs !! version i.
Proof.
  intros Hnone. unfold atomic_write_json, mbind, io_bind, is_file. cbn [fst andb].
  destruct (fs !! p) as [c|] eqn:Ec.
  - rewrite bool_decide_eq_true_2 by done. cbn [when].
    destruct (rotate_run k fs c Ec) as (fs1 & -> & H1 & H2 & H3). unfold mkstemp, whole, call.
    destruct (replace_run rnd (dumps data) (<[tmp_name p rnd := ""]> fs1)) as (fs' & -> & Hn & Hb).
    exists fs'. split_and!; [done|done|]. intros i Hi. cbn [version].
    rewrite Hb, lookup_insert_ne by (intros E; symmetry in E; by eapply bak_ne_tmp).
    destruct i as [|i]; cbn [version]; [rewrite H2 by lia; done|]. rewrite <- (H3 (S i)) by lia. do 2 f_equal. lia.
  - rewrite bool_decide_eq_false_2 by (intros [? ?]; done). cbn [when]. unfold mret, io_ret, mkstemp, whole, call.
    destruct (replace_run rnd (dumps data) (<[tmp_name p rnd := ""]> fs)) as (fs' & -> & Hn & Hb).
    exists fs'. split_and!; [done|done|]. intros i Hi. cbn [version].
    rewrite Hb, lookup_insert_ne by (intros E; symmetry in E; by eapply bak_ne_tmp).
    rewrite Hnone by (done || lia). destruct i; cbn [version]; [done|by rewrite Hnone by (done || lia)].
Qed.

Lemma write_all_versions k ws (fs : files) (h : list string) :
  (∀ i, i ≤ k → fs !! version i = h !! i) →
  ∀ i, i ≤ k → write_all k ws fs !! version i = (reverse (map (λ w, dumps w.2) ws) ++ h) !! i.
Proof.
  revert fs h. induction ws as [|[rnd data] ws IH]; intros fs h Hh; [exact Hh|]. cbn [write_all map].
  destruct (write_run k rnd data fs) as (fs' & -> & Hn & Hv).
  { intros i Hi Hpn. pose proof (Hh 0 ltac:(lia)) as H0. cbn [version] in H0. rewrite Hpn in H0.
    destruct h as [|x h]; [|done]. destruct i as [|i]; [lia|]. exact (Hh (S i) ltac:(lia)). }
  cbn [fst]. intros i Hi. rewrite reverse_cons, <- app_assoc. apply (IH fs' (dumps data :: h)); [|done].
  intros [|j] Hj; cbn [version]; [done|]. change ((dumps data :: h) !! S j) with (h !! j). rewrite <- (Hh j) by lia. apply (Hv j). lia.
Qed.
End history.

(** The numbered backups are the previous versions.  After any number of writes to a
    new file, the file holds the last document and backup [i] the one written [i] writes
    before it, for the last [k] of them. *)
Theorem backups_are_history dumps p k ws (fs : files) i :
  last_char p = Some "n"%char → (∀ j, j ≤ k → fs !! version p j = None) → i ≤ k →
  write_all dumps p k ws fs !! version p i = reverse (map (λ w, dumps w.2) ws) !! i.
Proof.
  intros Hp Hnew Hi. rewrite <- (app_nil_r (reverse _)). by apply write_all_versions.
Qed.

(** ** Concrete runs *)
Definition io_dumps (j : json) : string := match j with JStr s => "s" +:+ s | _ => "null" end.
Definition io_loads (s : string) : parsed :=
  match s with String "s" t => Parsed (JStr t) | String "x" _ => BadUtf8 | _ => BadJson end.

Lemma backups_are_history_witness :
  write_all io_dumps "m.json" 2 [("a", JStr "1"); ("b", JStr "2"); ("c", JStr "3"); ("d", JStr "4")] ∅ !! "m.bak.2"
  = Some "s2".
Proof.
  rewrite (backups_are_history io_dumps "m.json" 2 _ ∅ 2); [reflexivity|reflexivity| |lia].
  intros j _. apply lookup_empty.
Defined.

(** The process dies while the second version is being written. *)
Lemma atomic_write_safe_witness :
  let fs := <["m.json" := "s1"]> ∅ in
  let '(fs', _, o) := atomic_write_json io_dumps "m.json" (JStr "2") true 2 "r" (fs, [Works; Works; Crash "s"]) in
  o = Crashed ∧
  (atomic_read_json io_loads "m.json" None fs' false false = Ok (JStr "1")
   ∨ atomic_read_json io_loads "m.json" None fs' false false = Ok (JStr "2")).
Proof.
  pose proof (atomic_write_safe io_dumps io_loads "m.json" (JStr "2") true 2 "r" (<["m.json" := "s1"]> ∅)
                [Works; Works; Crash "s"] "s1" (JStr "1") None eq_refl eq_refl eq_refl eq_refl) as H.
  vm_compute in H |- *. split; [reflexivity|exact (proj1 H)].
Defined.

(** The backups are rotated before the write.  When writes keep failing, each attempt
    pushes an old version out, until all backups are copies of the current file. *)
Definition failed_write (fs : files) : files :=
  (atomic_write_json io_dumps "m.json" (JStr "new") true 2 "r" (fs, [Works; Works; Works; Works; OsErr ""])).1.1.

Example failed_writes_flush_backups :
  let fs := write_all io_dumps "m.json" 2 [("a", JStr "1"); ("b", JStr "2"); ("c", JStr "3")] ∅ in
  (fs !! "m.bak.1", fs !! "m.bak.2") = (Some "s2", Some "s1")
  ∧ let fs := failed_write (failed_write fs) in (fs !! "m.json", fs !! "m.bak.1", fs !! "m.bak.2") = (Some "s3", Some "s3", Some "s3").
Proof. vm_compute. split; reflexivity. Qed.

(** A file that is not UTF-8 raises, although a good backup is there and the function
    says that corrupt files give the default. *)
Example undecodable_json_raises :
  atomic_read_json io_loads "m.json" None (<["m.json" := "x"]> (<["m.bak.1" := "s1"]> ∅)) false false = Err ValueError.
Proof. reflexivity. Qed.
