(* ===== verification/Memory.v ===== *)
(** * The three-tier memory and its vector index

    [noema/memory/store.py] ([MemoryStore]: episodes, facts and procedures, persisted
    with a debounced automatic save) and the index of [noema/embeddings.py]
    ([HNSWIndex] under [_DenseVectorIndex]).

    Vectors, embeddings, cosine similarity, [np.argsort] and FAISS are parameters, as are
    the JSON codec and pydantic's validation; the files and their atomic writes are
    those of [AtomicIO].  The timer of [loop.call_later] is a flag, its firing an action.
    [PostgresMemoryStore], whose [save] is a coroutine, is in [PgMemory]. *)
From Stdlib Require Import ZArith QArith Lia Lqa Bool Ascii String.
From stdpp Require Import base option numbers gmap sorting strings list.
From S2P Require Import Prelude AtomicIO.
Local Open Scope string_scope.
Local Open Scope list_scope.
Local Open Scope nat_scope.

(** ** The vector index *)
Section index.
Context {V : Type} (normalize : V → V) (cosine_similarity : V → V → Q).
Context (argsort : list Q → list nat) (faiss : bool) (faiss_search : list (list V) → V → nat → list (Q * Z)).

(** [_faiss_index]: the batches of vectors added to the FAISS index, if there is one; what
    it answers may depend on how the vectors were batched. *)
Record HNSWIndex := mkHnsw {
  _ids : list string;
  _chunks : list (list V);
  _vectors : list V;
  _concatenated : bool;
  _faiss_index : option (list (list V));
}.

Definition hnsw_init : HNSWIndex := mkHnsw [] [] [] true (if faiss then Some [] else None).

Definition _materialize (ix : HNSWIndex) : HNSWIndex * list V :=
  if _concatenated ix then (ix, _vectors ix)
  else let v := concat (_chunks ix) in (mkHnsw (_ids ix) (_chunks ix) v true (_faiss_index ix), v).

Definition add (ids : list string) (vectors : list V) (ix : HNSWIndex) : HNSWIndex :=
  match ids with
  | [] => ix
  | _ => mkHnsw (_ids ix ++ ids) (_chunks ix ++ [vectors]) (_vectors ix) false
           ((λ l, l ++ [map normalize vectors]) <$> _faiss_index ix)
  end.

Definition reset (ix : HNSWIndex) : HNSWIndex := mkHnsw [] [] [] true ((λ _, []) <$> _faiss_index ix).

(** [max(0, 1 - d2 * d2 / 2)] for the answers with a valid index. *)
Definition faiss_hit (ids : list string) (p : Q * Z) : option (string * Q) :=
  if (0 <=? p.2)%Z then (λ id, (id, Qmaxb 0 (1 - p.1 * p.1 / 2))) <$> ids !! Z.to_nat p.2 else None.

Fixpoint hits (ids : list string) (sims : list Q) (l : list nat) : result pyexn (list (string * Q)) :=
  match l with
  | [] => Ok []
  | i :: l => id ← py_index ids i; s ← py_index sims i; r ← hits ids sims l; Ok ((id, s) :: r)
  end.

Definition hnsw_search (ix : HNSWIndex) (q : V) (top_k : nat) : HNSWIndex * result pyexn (list (string * Q)) :=
  match _ids ix with
  | [] => (ix, Ok [])
  | _ =>
      let q := normalize q in
      let k := min top_k (length (_ids ix)) in
      let numpy :=
        let '(ix, vectors) := _materialize ix in
        match vectors with
        | [] => (ix, Ok [])
        | _ => let sims := map (cosine_similarity q) vectors in (ix, hits (_ids ix) sims (take k (argsort sims)))
        end in
      match _faiss_index ix with
      | Some batches =>
          match concat batches with
          | [] => numpy
          | _ => (ix, Ok (omap (faiss_hit (_ids ix)) (faiss_search batches q k)))
          end
      | None => numpy
      end
  end.

(** [_DenseVectorIndex] with [embed], the embedding of a text.  [_fallback_embed] leaves
    the row of an empty text uninitialised: nothing is stated about such texts, and the
    documents are never empty ([doc_text]). *)
Context (embed : string → V).

Record dense_index := mkDense { _index : option HNSWIndex; d_dirty : bool }.

Definition dense_init : dense_index := mkDense None true.

Definition build (documents : list (string * string)) (d : dense_index) : dense_index :=
  match documents with
  | [] => mkDense (Some hnsw_init) (d_dirty d)
  | _ => mkDense (Some (add documents.*1 (map embed documents.*2) hnsw_init)) false
  end.

Definition add_document (doc_id text : string) (d : dense_index) : dense_index :=
  mkDense (Some (add [doc_id] [embed text] (default hnsw_init (_index d)))) (d_dirty d).

Definition search (query : string) (top_k : nat) (d : dense_index) : dense_index * result pyexn (list (string * Q)) :=
  match _index d with
  | None => (d, Ok [])
  | Some ix =>
      match _ids ix with
      | [] => (d, Ok [])
      | _ => let '(ix, r) := hnsw_search ix (embed query) top_k in (mkDense (Some ix) (d_dirty d), r)
      end
  end.

(** *** What the index holds *)
Definition rows (ix : HNSWIndex) : list V := concat (_chunks ix).

Record index_inv (ix : HNSWIndex) : Prop := {
  ii_ids : length (_ids ix) = length (rows ix);
  ii_vectors : _concatenated ix = true → _vectors ix = rows ix;
  ii_faiss : _faiss_index ix = if faiss then Some (map (map normalize) (_chunks ix)) else None;
}.

Lemma memory_init_inv : index_inv hnsw_init.
Proof. split; [done|done|]. unfold hnsw_init, rows. cbn. by destruct faiss. Qed.

Lemma add_rows ids vs ix : ids ≠ [] → rows (add ids vs ix) = rows ix ++ vs.
Proof. destruct ids; [done|]. intros _. unfold rows. cbn [add _chunks]. rewrite concat_app. cbn. by rewrite app_nil_r. Qed.

Lemma add_inv ids vs ix : length ids = length vs → index_inv ix → index_inv (add ids vs ix).
Proof.
  intros Hl [H1 H2 H3]. destruct (decide (ids = [])) as [->|Hne]; [done|].
  split; rewrite ?(add_rows ids) by done; unfold add; destruct ids as [|i ids]; try done; cbn [_ids _faiss_index].
  - rewrite !length_app, H1. cbn in *. lia.
  - rewrite H3. destruct faiss; [|done]. cbn [fmap option_fmap option_map add _chunks]. by rewrite map_app.
Qed.

Lemma materialize_rows ix : index_inv ix → (_materialize ix).2 = rows ix.
Proof. intros [_ H _]. unfold _materialize. destruct (_concatenated ix); [by apply H|done]. Qed.

(** Without FAISS the answer depends on the identifiers and the vectors only. *)
Lemma search_rows ix ix' q k :
  faiss = false → index_inv ix → index_inv ix' → _ids ix = _ids ix' → rows ix = rows ix' →
  (hnsw_search ix q k).2 = (hnsw_search ix' q k).2.
Proof.
  intros Hf Hi Hi' Hids Hrows. unfold hnsw_search. rewrite (ii_faiss ix Hi), (ii_faiss ix' Hi'), Hf, Hids.
  destruct (_ids ix') as [|i ids] eqn:Ei; [done|].
  pose proof (materialize_rows ix Hi) as Hm. pose proof (materialize_rows ix' Hi') as Hm'.
  assert (_ids (_materialize ix).1 = i :: ids) as E1.
  { unfold _materialize. by destruct (_concatenated ix). }
  assert (_ids (_materialize ix').1 = i :: ids) as E2.
  { unfold _materialize. by destruct (_concatenated ix'). }
  destruct (_materialize ix) as [jx v], (_materialize ix') as [jx' v']. cbn [fst snd] in *. subst v v'.
  rewrite Hrows, E1, E2. by destruct (rows ix').
Qed.

Lemma build_abs docs d :
  ∃ ix, _index (build docs d) = Some ix ∧ index_inv ix ∧ _ids ix = docs.*1 ∧ rows ix = map embed docs.*2.
Proof.
  destruct docs as [|[i t] docs]; [exists hnsw_init; split_and!; try done; apply memory_init_inv|].
  eexists. split; [done|]. split; [apply add_inv; [by rewrite length_map, !length_fmap|apply memory_init_inv]|].
  split; [done|]. by rewrite add_rows.
Qed.

Lemma add_documents_abs docs d ix :
  _index d = Some ix → index_inv ix →
  ∃ ix', _index (foldl (λ d p, add_document p.1 p.2 d) d docs) = Some ix' ∧ index_inv ix'
    ∧ _ids ix' = _ids ix ++ docs.*1 ∧ rows ix' = rows ix ++ map embed docs.*2.
Proof.
  revert d ix. induction docs as [|[i t] docs IH]; intros d ix Hd Hi; cbn [foldl].
  - exists ix. cbn. by rewrite !app_nil_r.
  - destruct (IH (add_document i t d) (add [i] [embed t] ix)) as (ix' & H1 & H2 & H3 & H4).
    + unfold add_document. by rewrite Hd.
    + by apply add_inv.
    + exists ix'. rewrite H3, H4, add_rows by done. cbn. by rewrite <- !app_assoc.
Qed.

(** Without FAISS, indexing documents one by one, as they are recorded, answers every
    query as an index rebuilt from all of them. *)
Lemma incremental_index_equals_rebuild docs new d q k :
  faiss = false →
  (search q k (foldl (λ d p, add_document p.1 p.2 d) (build docs d) new)).2 = (search q k (build (docs ++ new) d)).2.
Proof.
  intros Hf. destruct (build_abs docs d) as (ix & E & Hi & Hids & Hr).
  destruct (add_documents_abs new (build docs d) ix E Hi) as (ix1 & E1 & Hi1 & Hids1 & Hr1).
  destruct (build_abs (docs ++ new) d) as (ix2 & E2 & Hi2 & Hids2 & Hr2).
  unfold search. rewrite E1, E2.
  assert (_ids ix1 = _ids ix2) as Hii by (by rewrite Hids1, Hids2, Hids, fmap_app).
  assert (rows ix1 = rows ix2) as Hrr by (by rewrite Hr1, Hr2, Hr, fmap_app, map_app).
  pose proof (search_rows ix1 ix2 (embed q) k Hf Hi1 Hi2 Hii Hrr) as H. rewrite Hii. destruct (_ids ix2); [done|].
  destruct (hnsw_search ix1 _ k), (hnsw_search ix2 _ k). exact H.
Qed.

(** [np.argsort(-sims)] *)
Definition argsort_law : Prop := ∀ sims,
  argsort sims ≡ₚ seq 0 (length sims)
  ∧ StronglySorted (λ i j, (default 0 (sims !! j) <= default 0 (sims !! i))%Q) (argsort sims).

Lemma hits_ok ids sims l :
  length ids = length sims → Forall (λ i, i < length sims) l →
  hits ids sims l = Ok (map (λ i, (default "" (ids !! i), default 0%Q (sims !! i))) l).
Proof.
  intros Hl. induction 1 as [|i l Hi Hf IH]; [done|]. cbn [hits map]. unfold py_index.
  destruct (lookup_lt_is_Some_2 ids i) as [id ->]; [lia|]. destruct (lookup_lt_is_Some_2 sims i) as [s ->]; [lia|].
  bindsimp. by rewrite IH.
Qed.

(** Without FAISS a search returns the [top_k] most similar documents, best first. *)
Lemma search_top_k ix q k :
  argsort_law → faiss = false → index_inv ix →
  let sims := map (cosine_similarity (normalize q)) (rows ix) in
  ∃ best rest, (hnsw_search ix q k).2 = Ok (map (λ i, (default "" (_ids ix !! i), default 0%Q (sims !! i))) best)
    ∧ best ++ rest ≡ₚ seq 0 (length (rows ix)) ∧ length best = min k (length (rows ix))
    ∧ ∀ i j, i ∈ best → j ∈ rest → (default 0 (sims !! j) <= default 0 (sims !! i))%Q.
Proof.
  intros Ha Hf Hi sims. pose proof (ii_ids ix Hi) as Hlen. unfold hnsw_search.
  destruct (_ids ix) as [|id ids] eqn:Ei.
  { exists [], []. destruct (rows ix); [|done]. split_and!; try done. cbn. lia. }
  rewrite (ii_faiss ix Hi), Hf. pose proof (materialize_rows ix Hi) as Hm.
  assert (_ids (_materialize ix).1 = _ids ix) as Eids by (unfold _materialize; by destruct (_concatenated ix)).
  destruct (_materialize ix) as [jx v]. cbn [fst snd] in *. subst v. rewrite Eids.
  assert (length sims = length (rows ix)) as Hs by apply length_map.
  destruct (Ha sims) as [Hp Hsort]. rewrite Hs in Hp.
  set (n := min k (length (id :: ids))). exists (take n (argsort sims)), (drop n (argsort sims)).
  rewrite take_drop. split_and!; [|done| |].
  - destruct (rows ix) as [|r rs] eqn:Er; [done|]. fold sims. rewrite Ei. apply hits_ok; [congruence|].
    apply Forall_take, Forall_forall. intros i Hin. rewrite Hp in Hin. apply elem_of_seq in Hin. lia.
  - rewrite length_take, Hp, length_seq. unfold n. lia.
  - intros i j Hin Hjn. rewrite <- (take_drop n (argsort sims)) in Hsort.
    apply StronglySorted_app in Hsort as (Hx & _ & _). by apply Hx.
Qed.
End index.

(** ** The records *)
Record EpisodicMemory := mkEpisode {
  e_id : string;
  e_timestamp : Q;
  task_description : string;
  solution_summary : string;
  tech_stack : string;
  e_outcome : string;
  duration_seconds : Q;
  error_message : string;
  e_tags : list string;
  e_context : list (string * json);
}.

Record SemanticMemory := mkFact {
  s_id : string;
  topic : string;
  fact : string;
  s_confidence : Q;
  s_source : string;
  use_count : nat;
  last_used : Q;
  s_tags : list string;
}.

Record ProceduralMemory := mkProc {
  p_id : string;
  procedure_name : string;
  steps : list string;
  success_rate : Q;
  times_applied : nat;
  times_succeeded : nat;
  avg_duration : Q;
  prerequisites : list string;
  p_tags : list string;
}.

(** [model_dump] and the constructor applied to a dictionary. *)
Class Model (A : Type) := { model_dump : A → json; validate : json → option A }.

(** The constructor accepts what was dumped. *)
Definition valid {A} `{!Model A} (a : A) : Prop := validate (model_dump a) = Some a.

(** [store.extend] over the validated items: what was added before an item that
    does not validate stays. *)
Fixpoint load_items {A} `{!Model A} (items : list json) : list A :=
  match items with
  | [] => []
  | x :: items => match validate x with Some a => a :: load_items items | None => [] end
  end.

(** Iterating over anything but a list raises or yields no dictionaries. *)
Definition load_store {A} `{!Model A} (data : json) : list A :=
  match data with JArr items => load_items items | _ => [] end.

Lemma load_items_dump {A} `{!Model A} (l : list A) : Forall valid l → load_items (map model_dump l) = l.
Proof. induction 1 as [|a l Ha Hl IH]; cbn; [done|]. by rewrite Ha, IH. Qed.

Definition doc_text (parts : list string) (tags : list string) : string :=
  String.concat " " (parts ++ [String.concat " " tags]).
Definition episode_text (e : EpisodicMemory) : string :=
  doc_text [task_description e; solution_summary e; tech_stack e] (e_tags e).
Definition fact_text (m : SemanticMemory) : string := doc_text [topic m; fact m] (s_tags m).

Section store.
Context {V : Type} (normalize : V → V) (cosine_similarity : V → V → Q).
Context (argsort : list Q → list nat) (faiss : bool) (faiss_search : list (list V) → V → nat → list (Q * Z)) (embed : string → V).
Context `{!Model EpisodicMemory, !Model SemanticMemory, !Model ProceduralMemory}.
Context (dumps : json → string) (loads : string → parsed).

(** [_debounce_handle]: a save is scheduled. *)
Record MemoryStore := mkStore {
  episodic : list EpisodicMemory;
  semantic : list SemanticMemory;
  procedural : list ProceduralMemory;
  _episodic_index : @dense_index V;
  _semantic_index : @dense_index V;
  _dirty : bool;
  _auto_save : bool;
  _backup_count : nat;
  _debounce_handle : bool;
}.

Definition _episodic_path : string := "episodic.json".
Definition _semantic_path : string := "semantic.json".
Definition _procedural_path : string := "procedural.json".

Definition read_store (p : string) (fs : files) : result pyexn json := atomic_read_json loads p (Some (JArr [])) fs false false.

Definition ep_docs (l : list EpisodicMemory) : list (string * string) := map (λ e, (e_id e, episode_text e)) l.
Definition sem_docs (l : list SemanticMemory) : list (string * string) := map (λ m, (s_id m, fact_text m)) l.

Abbreviation build := (build normalize faiss embed).
Abbreviation add_document := (add_document normalize faiss embed).
Abbreviation search := (search normalize cosine_similarity argsort faiss_search embed).

Definition _rebuild_indexes (st : MemoryStore) : MemoryStore :=
  mkStore (episodic st) (semantic st) (procedural st) (build (ep_docs (episodic st)) (_episodic_index st))
    (build (sem_docs (semantic st)) (_semantic_index st)) (_dirty st) (_auto_save st) (_backup_count st) (_debounce_handle st).

Definition _restore_from_disk (fs : files) (st : MemoryStore) : result pyexn MemoryStore :=
  e ← read_store _episodic_path fs;
  s ← read_store _semantic_path fs;
  p ← read_store _procedural_path fs;
  Ok (_rebuild_indexes (mkStore (load_store e) (load_store s) (load_store p) (_episodic_index st) (_semantic_index st)
        (_dirty st) (_auto_save st) (_backup_count st) (_debounce_handle st))).

Definition memory_init (fs : files) (auto_save : bool) (backup_count : nat) : result pyexn MemoryStore :=
  _restore_from_disk fs (mkStore [] [] [] dense_init dense_init false auto_save backup_count false).

(** *** Saving *)
Record names := mkNames { rnd1 : string; rnd2 : string; rnd3 : string }.

Definition save_files (st : MemoryStore) (r : names) : io () :=
  atomic_write_json dumps _episodic_path (JArr (map model_dump (episodic st))) true (_backup_count st) (rnd1 r);;
  atomic_write_json dumps _semantic_path (JArr (map model_dump (semantic st))) true (_backup_count st) (rnd2 r);;
  atomic_write_json dumps _procedural_path (JArr (map model_dump (procedural st))) true (_backup_count st) (rnd3 r).

Definition set_flags (st : MemoryStore) (dirty handle : bool) : MemoryStore :=
  mkStore (episodic st) (semantic st) (procedural st) (_episodic_index st) (_semantic_index st) dirty (_auto_save st)
    (_backup_count st) handle.

(** The result says whether [save] returned ([None] is a crash). *)
Definition save (st : MemoryStore) (fs : files) (r : names) (flts : list fault) : MemoryStore * files * option bool :=
  match save_files st r (fs, flts) with
  | (fs, _, Done _) => (set_flags st false false, fs, Some true)
  | (fs, _, Raised) => (set_flags st (_dirty st) false, fs, Some false)
  | (fs, _, Crashed) => (set_flags st (_dirty st) false, fs, None)
  end.

(** [loop]: whether an event loop is running. *)
Definition _mark_dirty (loop : bool) (st : MemoryStore) (fs : files) (r : names) (flts : list fault) : MemoryStore * files * option bool :=
  let st := set_flags st true (_debounce_handle st) in
  if negb (_auto_save st) then (st, fs, Some true)
  else if negb loop then save st fs r flts
  else (set_flags st true true, fs, Some true).

Definition _debounced_save (st : MemoryStore) (fs : files) (r : names) (flts : list fault) : MemoryStore * files * option bool :=
  let st := set_flags st (_dirty st) false in
  if negb (_dirty st) then (st, fs, Some true) else save st fs r flts.

Definition flush (st : MemoryStore) (fs : files) (r : names) (flts : list fault) : MemoryStore * files * option bool :=
  if _dirty st then save st fs r flts else (st, fs, Some true).

(** *** Changes; [_mark_dirty] follows each of them *)
Definition with_semantic (st : MemoryStore) (l : list SemanticMemory) (ix : dense_index) : MemoryStore :=
  mkStore (episodic st) l (procedural st) (_episodic_index st) ix (_dirty st) (_auto_save st) (_backup_count st) (_debounce_handle st).
Definition with_procedural (st : MemoryStore) (l : list ProceduralMemory) : MemoryStore :=
  mkStore (episodic st) (semantic st) l (_episodic_index st) (_semantic_index st) (_dirty st) (_auto_save st) (_backup_count st)
    (_debounce_handle st).

Definition record_episode (ep : EpisodicMemory) (st : MemoryStore) : MemoryStore :=
  mkStore (episodic st ++ [ep]) (semantic st) (procedural st) (add_document (e_id ep) (episode_text ep) (_episodic_index st))
    (_semantic_index st) (_dirty st) (_auto_save st) (_backup_count st) (_debounce_handle st).

Definition learn_fact (m : SemanticMemory) (st : MemoryStore) : MemoryStore :=
  with_semantic st (semantic st ++ [m]) (add_document (s_id m) (fact_text m) (_semantic_index st)).

(** [{x.id: x for x in l}]: the last position of every identifier. *)
Definition position {A} (key : A → string) (id : string) (l : list A) : option nat :=
  last (map fst (filter (λ p, key p.2 = id) (imap pair l))).

Definition search_episodes (query : string) (limit : nat) (st : MemoryStore) : MemoryStore * result pyexn (list EpisodicMemory) :=
  let '(ix, r) := search query limit (_episodic_index st) in
  (mkStore (episodic st) (semantic st) (procedural st) ix (_semantic_index st) (_dirty st) (_auto_save st) (_backup_count st)
     (_debounce_handle st),
   match r with
   | Ok l => Ok (omap (λ p, match position e_id p.1 (episodic st) with Some i => episodic st !! i | None => None end) l)
   | Err e => Err e
   end).

Definition newer (a b : EpisodicMemory) : bool := Qltb (e_timestamp b) (e_timestamp a).
Definition get_recent_episodes (limit : nat) (st : MemoryStore) : list EpisodicMemory :=
  take limit (stable_sort newer (episodic st)).

Definition used (now : Q) (m : SemanticMemory) : SemanticMemory :=
  mkFact (s_id m) (topic m) (fact m) (s_confidence m) (s_source m) (use_count m + 1) now (s_tags m).

(** The loop over the hits: the objects found, as positions, and the updated list. *)
Fixpoint use_hits (ids : list string) (now : Q) (l : list SemanticMemory) : list SemanticMemory * list nat :=
  match ids with
  | [] => (l, [])
  | id :: ids =>
      match position s_id id l with
      | Some i => let '(l, found) := use_hits ids now (alter (used now) i l) in (l, i :: found)
      | None => use_hits ids now l
      end
  end.

Definition weight (m : SemanticMemory) : Q := (s_confidence m * inject_Z (Z.of_nat (use_count m)))%Q.
Definition heavier (a b : SemanticMemory) : bool := Qltb (weight b) (weight a).

Definition search_knowledge (query : string) (limit : nat) (now : Q) (st : MemoryStore)
    : MemoryStore * result pyexn (list SemanticMemory) :=
  let '(ix, r) := search query limit (_semantic_index st) in
  match r with
  | Err e => (with_semantic st (semantic st) ix, Err e)
  | Ok l =>
      let '(sem, found) := use_hits l.*1 now (semantic st) in
      (with_semantic st sem ix, Ok (take limit (stable_sort heavier (omap (λ i, sem !! i) found))))
  end.

Definition get_facts_by_topic (t : string) (st : MemoryStore) : list SemanticMemory :=
  filter (λ m, lower (topic m) = lower t) (semantic st).

Definition store_procedure (p : ProceduralMemory) (st : MemoryStore) : MemoryStore :=
  with_procedural st (procedural st ++ [p]).

Definition named (name : string) (p : ProceduralMemory) : Prop := lower (procedure_name p) = lower name.
#[global] Instance named_dec name p : Decision (named name p).
Proof. unfold named. apply _. Defined.

Definition find_procedure (name : string) (st : MemoryStore) : option (nat * ProceduralMemory) := list_find (named name) (procedural st).

Definition applied (succeeded : bool) (duration : Q) (p : ProceduralMemory) : ProceduralMemory :=
  let n := times_applied p + 1 in
  let ok := if succeeded then times_succeeded p + 1 else times_succeeded p in
  let q (n : nat) := inject_Z (Z.of_nat n) in
  mkProc (p_id p) (procedure_name p) (steps p) (q ok / q (max n 1)%nat)%Q n ok
    (if (n =? 1)%nat then duration else ((avg_duration p * q (n - 1)%nat + duration) / q n)%Q) (prerequisites p) (p_tags p).

(** The flag says whether there was such a procedure: only then the store is marked. *)
Definition record_procedure_outcome (name : string) (succeeded : bool) (duration : Q) (st : MemoryStore) : MemoryStore * bool :=
  match find_procedure name st with
  | Some (i, _) => (with_procedural st (alter (applied succeeded duration) i (procedural st)), true)
  | None => (st, false)
  end.

Definition contains (sub s : string) : bool := match index 0 sub s with Some _ => true | None => false end.
Definition search_procedures (query : string) (st : MemoryStore) : list ProceduralMemory :=
  filter (λ p, contains (lower query) (lower (procedure_name p)) || existsb (λ t, contains (lower query) (lower t)) (p_tags p) = true)
    (procedural st).

Record memory_stats := mkStats {
  st_episodic_count : nat;
  st_semantic_count : nat;
  st_procedural_count : nat;
  st_successes : nat;
  st_failures : nat;
  st_success_rate : Q;
  st_avg_confidence : Q;
  st_avg_success_rate : Q;
}.

Definition of_nat_q (n : nat) : Q := inject_Z (Z.of_nat n).
Definition stats (st : MemoryStore) : memory_stats :=
  let successes := length (filter (λ e, e_outcome e = "success") (episodic st)) in
  let failures := length (filter (λ e, e_outcome e = "failure") (episodic st)) in
  let mean (l : list Q) := (foldr Qplus 0 l / of_nat_q (max (length l) 1%nat))%Q in
  mkStats (length (episodic st)) (length (semantic st)) (length (procedural st)) successes failures
    (of_nat_q successes / of_nat_q (max (successes + failures)%nat 1%nat))%Q
    (mean (map s_confidence (semantic st))) (mean (map success_rate (procedural st))).

(** ** Runs

    [stalled]: the last attempt to save raised.  A step that crashes has no successor. *)
Record msys := mkMsys { store : MemoryStore; disk : files; stalled : bool }.

Inductive mact :=
| MRecord (ep : EpisodicMemory)
| MLearn (m : SemanticMemory)
| MSearchEpisodes (query : string) (limit : nat)
| MSearch (query : string) (limit : nat) (now : Q)
| MStore (p : ProceduralMemory)
| MOutcome (name : string) (succeeded : bool) (duration : Q)
| MTimer
| MFlush
| MSave.

(** The circumstances of an action: an event loop, random names, faults. *)
Record menv := mkEnv { in_loop : bool; rnds : names; faults : list fault }.

Definition settle (r : MemoryStore * files * option bool) : option msys :=
  match r with (st, fs, Some ok) => Some (mkMsys st fs (negb ok)) | (_, _, None) => None end.

Definition mark (st : MemoryStore) (s : msys) (e : menv) : option msys :=
  settle (_mark_dirty (in_loop e) st (disk s) (rnds e) (faults e)).

Definition memory_step (s : msys) (ae : mact * menv) : option msys :=
  let '(a, e) := ae in
  let st := store s in
  match a with
  | MRecord ep => mark (record_episode ep st) s e
  | MLearn m => mark (learn_fact m st) s e
  | MSearchEpisodes q k => Some (mkMsys (search_episodes q k st).1 (disk s) (stalled s))
  | MSearch q k now =>
      match search_knowledge q k now st with
      | (st, Ok _) => mark st s e
      | (st, Err _) => Some (mkMsys st (disk s) (stalled s))
      end
  | MStore p => mark (store_procedure p st) s e
  | MOutcome n ok d => let '(st, found) := record_procedure_outcome n ok d st in if found then mark st s e else Some s
  | MTimer => if _debounce_handle st then settle (_debounced_save st (disk s) (rnds e) (faults e)) else None
  | MFlush => settle (flush st (disk s) (rnds e) (faults e))
  | MSave => settle (save st (disk s) (rnds e) (faults e))
  end.

(** *** The indices follow the lists *)
Definition indexes (d : dense_index) (docs : list (string * string)) : Prop :=
  ∃ ix, _index d = Some ix ∧ index_inv normalize faiss ix ∧ _ids ix = docs.*1 ∧ rows ix = map embed docs.*2.

Lemma build_indexes docs d : indexes (build docs d) docs.
Proof. apply build_abs. Qed.

Lemma add_indexes i t d docs : indexes d docs → indexes (add_document i t d) (docs ++ [(i, t)]).
Proof.
  intros (ix & E & Hi & H1 & H2).
  destruct (add_documents_abs normalize faiss embed [(i, t)] d ix E Hi) as (ix' & E' & Hi' & H1' & H2').
  exists ix'. split_and!; [exact E'|exact Hi'|by rewrite H1', H1, fmap_app|by rewrite H2', H2, fmap_app, map_app].
Qed.

Lemma search_keeps q k d docs : indexes d docs → indexes (search q k d).1 docs.
Proof.
  intros (ix & E & Hi & H1 & H2). unfold Memory.search. rewrite E.
  destruct (_ids ix) as [|i ids] eqn:Ei; [exists ix; by rewrite Ei|]. unfold hnsw_search. rewrite Ei.
  assert (index_inv normalize faiss (_materialize ix).1 ∧ _ids (_materialize ix).1 = _ids ix ∧ rows (_materialize ix).1 = rows ix)
    as (Hm & Hmi & Hmr).
  { unfold _materialize. destruct (_concatenated ix); [done|]. split; [|done]. destruct Hi. by split. }
  assert (indexes (mkDense (Some (_materialize ix).1) (d_dirty d)) docs) as Hmat.
  { exists (_materialize ix).1. split_and!; [done|done|congruence|congruence]. }
  assert (indexes (mkDense (Some ix) (d_dirty d)) docs) as Hsame by (exists ix; split_and!; try done; congruence).
  destruct (_materialize ix) as [jx v]. cbn [fst] in *.
  destruct (_faiss_index ix) as [b|]; [destruct (concat b); [|exact Hsame]|]; destruct v; exact Hmat.
Qed.

Lemma indexes_search q k d d' docs :
  faiss = false → indexes d docs → indexes d' docs → (search q k d).2 = (search q k d').2.
Proof.
  intros Hf (ix & E & Hi & H1 & H2) (ix' & E' & Hi' & H1' & H2'). unfold Memory.search. rewrite E, E'.
  assert (_ids ix = _ids ix') as Hii by congruence. assert (rows ix = rows ix') as Hrr by congruence.
  pose proof (search_rows normalize cosine_similarity argsort faiss faiss_search ix ix' (embed q) k Hf Hi Hi' Hii Hrr) as H.
  rewrite Hii. destruct (_ids ix'); [done|].
  destruct (hnsw_search _ _ _ _ ix _ k), (hnsw_search _ _ _ _ ix' _ k). exact H.
Qed.

(** *** The files follow the lists *)

(** A file that a new store reads as [l]. *)
Definition holds {A} `{!Model A} (l : list A) (c : option string) : Prop :=
  c = Some (dumps (JArr (map model_dump l)))
  ∨ match c with Some t => ∃ j, loads t = Parsed j ∧ load_store j = l | None => l = [] end.

Definition saved (st : MemoryStore) (fs : files) : Prop :=
  holds (episodic st) (fs !! _episodic_path) ∧ holds (semantic st) (fs !! _semantic_path)
  ∧ holds (procedural st) (fs !! _procedural_path).

Lemma saved_triple st r (C1 C2 C3 : option string → Prop) :
  triple (λ fs, C1 (fs !! _episodic_path) ∧ C2 (fs !! _semantic_path) ∧ C3 (fs !! _procedural_path)) (save_files st r)
    (λ _, saved st)
    (λ fs, (C1 (fs !! _episodic_path) ∨ holds (episodic st) (fs !! _episodic_path))
           ∧ (C2 (fs !! _semantic_path) ∨ holds (semantic st) (fs !! _semantic_path))
           ∧ (C3 (fs !! _procedural_path) ∨ holds (procedural st) (fs !! _procedural_path))).
Proof.
  assert (∀ (fs fs' : files) p q k rnd a b, (∀ q, ¬ touched p rnd k q → fs' !! q = fs !! q) →
    String.get 0 (path_stem p) = Some a → String.get 0 p = Some a → String.get 0 q = Some b → a ≠ b →
    fs' !! q = fs !! q) as Hother.
  { intros fs fs' p q k rnd a b H Ha Hp Hq Hne. apply H. by eapply other_file. }
  unfold save_files. eapply triple_seq; [|eapply triple_seq].
  - eapply triple_weaken;
      [apply (triple_write dumps _episodic_path _ true (_backup_count st) (rnd1 r) C1
                (λ fs, C2 (fs !! _semantic_path) ∧ C3 (fs !! _procedural_path)))|..]; [done| |done|exact (λ _ fs H, H)|].
    + intros fs fs' H [H2 H3].
      by rewrite (Hother fs fs' _ _semantic_path _ _ _ _ H eq_refl eq_refl eq_refl),
        (Hother fs fs' _ _procedural_path _ _ _ _ H eq_refl eq_refl eq_refl).
    + intros fs [[H1|H1] [H2 H3]]; split_and!; auto. right. by left.
  - eapply triple_weaken;
      [apply (triple_write dumps _semantic_path _ true (_backup_count st) (rnd2 r) C2
                (λ fs, holds (episodic st) (fs !! _episodic_path) ∧ C3 (fs !! _procedural_path)))|..];
      [done| | |exact (λ _ fs H, H)|].
    + intros fs fs' H [H2 H3].
      by rewrite (Hother fs fs' _ _episodic_path _ _ _ _ H eq_refl eq_refl eq_refl),
        (Hother fs fs' _ _procedural_path _ _ _ _ H eq_refl eq_refl eq_refl).
    + intros fs (H1 & H2 & H3). split_and!; auto. by left.
    + intros fs [[H1|H1] [H2 H3]]; split_and!; auto. right. by left.
  - eapply triple_weaken;
      [apply (triple_write dumps _procedural_path _ true (_backup_count st) (rnd3 r) C3
                (λ fs, holds (episodic st) (fs !! _episodic_path) ∧ holds (semantic st) (fs !! _semantic_path)))|..];
      [done| | | |].
    + intros fs fs' H [H2 H3].
      by rewrite (Hother fs fs' _ _episodic_path _ _ _ _ H eq_refl eq_refl eq_refl),
        (Hother fs fs' _ _semantic_path _ _ _ _ H eq_refl eq_refl eq_refl).
    + intros fs (H1 & H2 & H3). split_and!; auto. by left.
    + intros _ fs (H1 & H2 & H3). split_and!; auto. by left.
    + intros fs [[H1|H1] [H2 H3]]; split_and!; auto. right. by left.
Qed.

Record memory_inv (s : msys) : Prop := {
  mi_episodes : indexes (_episodic_index (store s)) (ep_docs (episodic (store s)));
  mi_facts : indexes (_semantic_index (store s)) (sem_docs (semantic (store s)));
  mi_saved : _dirty (store s) = false → saved (store s) (disk s);
  mi_scheduled : _dirty (store s) = true → _auto_save (store s) = true → _debounce_handle (store s) = true ∨ stalled s = true;
}.

Definition indexed (st : MemoryStore) : Prop :=
  indexes (_episodic_index st) (ep_docs (episodic st)) ∧ indexes (_semantic_index st) (sem_docs (semantic st)).

Lemma save_inv st fs r flts s' :
  indexed st → (_dirty st = false → saved st fs) → settle (save st fs r flts) = Some s' → memory_inv s'.
Proof.
  intros [H1 H2] Hs. unfold save.
  pose proof (saved_triple st r (λ c, _dirty st = false → holds (episodic st) c) (λ c, _dirty st = false → holds (semantic st) c)
    (λ c, _dirty st = false → holds (procedural st) c) fs flts) as Ht. cbn beta in Ht.
  destruct (save_files st r (fs, flts)) as [[fs' flts'] [[]| |]]; cbn [settle]; intros [= <-].
  - split; cbn; try done. intros _. apply Ht. split_and!; intros Hd; apply (Hs Hd).
  - split; cbn; try done; [|by right]. intros Hd. destruct Ht as (Ha & Hb & Hc); [split_and!; intros _; apply (Hs Hd)|].
    split_and!; [destruct Ha|destruct Hb|destruct Hc]; auto.
Qed.

Lemma mark_inv st s e s' : indexed st → mark st s e = Some s' → memory_inv s'.
Proof.
  intros Hi. unfold mark, _mark_dirty. destruct (_auto_save (set_flags st true (_debounce_handle st))) eqn:Ea; cbn [negb].
  - destruct (in_loop e); cbn [negb]; [intros [= <-]; split; cbn; try done; [apply Hi|apply Hi|by left]|].
    by apply save_inv.
  - intros [= <-]. split; cbn; try done; [apply Hi|apply Hi|]. cbn in Ea. congruence.
Qed.

Lemma use_hits_docs ids now l : sem_docs (use_hits ids now l).1 = sem_docs l.
Proof.
  revert l. induction ids as [|id ids IH]; intros l; cbn [use_hits]; [done|].
  destruct (position s_id id l) as [i|]; [|apply IH]. pose proof (IH (alter (used now) i l)) as H.
  destruct (use_hits ids now _) as [l' f]. cbn [fst] in *. rewrite H. unfold sem_docs.
  apply list_eq. intros j. rewrite !list_lookup_fmap. destruct (decide (i = j)) as [->|Hne].
  - rewrite list_lookup_alter_eq. by destruct (l !! j).
  - by rewrite list_lookup_alter_ne.
Qed.

Lemma memory_step_inv s ae s' : memory_inv s → memory_step s ae = Some s' → memory_inv s'.
Proof.
  intros [H1 H2 H3 H4]. destruct ae as [a e]. destruct a; cbn [memory_step].
  - apply mark_inv. split; cbn; [|done]. unfold ep_docs. rewrite map_app. by apply add_indexes.
  - apply mark_inv. split; cbn; [done|]. unfold sem_docs. rewrite map_app. by apply add_indexes.
  - intros [= <-]. unfold search_episodes. pose proof (search_keeps query limit _ _ H1) as Hk.
    destruct (search query limit (_episodic_index (store s))) as [ix r]. by split.
  - unfold search_knowledge. pose proof (search_keeps query limit _ _ H2) as Hk.
    destruct (search query limit (_semantic_index (store s))) as [ix [l|x]]; cbn [fst] in Hk.
    + pose proof (use_hits_docs l.*1 now (semantic (store s))) as Hd.
      destruct (use_hits l.*1 now (semantic (store s))) as [sem found]. cbn [fst] in Hd.
      apply mark_inv. split; [done|]. change (indexes ix (sem_docs sem)). by rewrite Hd.
    + intros [= <-]. by split.
  - apply mark_inv. by split.
  - unfold record_procedure_outcome. destruct (find_procedure name (store s)) as [[i p]|].
    + apply mark_inv. by split.
    + intros [= <-]. by split.
  - destruct (_debounce_handle (store s)); [|done]. unfold _debounced_save. cbn [_dirty set_flags].
    destruct (_dirty (store s)) eqn:Ed; cbn [negb]; [|intros [= <-]; split; cbn; try done; auto; congruence].
    apply save_inv; [by split|]. cbn. congruence.
  - unfold flush. destruct (_dirty (store s)) eqn:Ed; [|intros [= <-]; split; cbn; try done; auto; congruence].
    apply save_inv; [by split|congruence].
  - apply save_inv; [by split|done].
Qed.

(** The files of the start are missing or can be decoded. *)
Definition decodable (fs : files) : Prop :=
  ∀ p t, p ∈ [_episodic_path; _semantic_path; _procedural_path] → fs !! p = Some t → ∃ j, loads t = Parsed j.

(** The codec reads back the documents of a list, and pydantic the records. *)
Definition readable {A} `{!Model A} (l : list A) : Prop :=
  loads (dumps (JArr (map model_dump l))) = Parsed (JArr (map model_dump l)) ∧ Forall valid l.

Lemma read_holds {A} `{!Model A} p (fs : files) (l : list A) :
  holds l (fs !! p) → readable l → ∃ j, read_store p fs = Ok j ∧ load_store j = l.
Proof.
  intros Hh [Hr Hv]. unfold read_store, atomic_read_json. destruct Hh as [->|Hh].
  - rewrite Hr. eexists. split; [done|]. by apply load_items_dump.
  - destruct (fs !! p) as [t|]; [|subst l; by eexists]. destruct Hh as (j & -> & Hl). by exists j.
Qed.

Lemma holds_read {A} `{!Model A} p (fs : files) j :
  decodable fs → p ∈ [_episodic_path; _semantic_path; _procedural_path] → read_store p fs = Ok j →
  holds (load_store j : list A) (fs !! p).
Proof.
  intros Hd Hp H. right. revert H. unfold read_store, atomic_read_json.
  destruct (fs !! p) as [t|] eqn:E; intros H; [|by simplify_eq].
  destruct (Hd p t Hp E) as [j' Ej]. rewrite Ej in H. injection H as ->. by exists j.
Qed.

Lemma init_ok fs auto count st :
  memory_init fs auto count = Ok st ↔
  ∃ e x p, read_store _episodic_path fs = Ok e ∧ read_store _semantic_path fs = Ok x ∧ read_store _procedural_path fs = Ok p
    ∧ st = _rebuild_indexes (mkStore (load_store e) (load_store x) (load_store p) dense_init dense_init false auto count false).
Proof.
  unfold memory_init, _restore_from_disk. rewrite result_bind_ok. setoid_rewrite result_bind_ok.
  setoid_rewrite result_bind_ok. split.
  - intros (e & He & x & Hx & p & Hp & [= <-]). by exists e, x, p.
  - intros (e & x & p & He & Hx & Hp & ->). eauto 10.
Qed.

Lemma init_memory_inv fs auto count st : decodable fs → memory_init fs auto count = Ok st → memory_inv (mkMsys st fs false).
Proof.
  intros Hd (e & x & p & He & Hx & Hp & ->)%init_ok. split; cbn [store _rebuild_indexes]; try done; try apply build_indexes.
  intros _. split_and!; (apply holds_read; [done|set_solver|done]).
Qed.

Lemma settle_calm st fs r : ∃ s', settle (save st fs r []) = Some s' ∧ _dirty (store s') = false.
Proof.
  assert (calm (save_files st r)) as Hc by (unfold save_files; auto 10 with calm).
  unfold save. destruct (Hc fs) as (fs' & a & ->). by eexists.
Qed.

(** C28: Nothing that was remembered gets lost on the way to the disk.  Start from files
    that are missing or can be decoded and run any sequence of operations, with saves
    failing or not.  If the store is clean and the JSON codec and pydantic read back what
    they wrote for its records, a new store that reads the directory has the same
    episodes, facts and procedures; with the numpy backend it answers every non-empty
    query as the running one does, although that one indexed incrementally.  If the store
    is not clean and saves automatically, a save is scheduled unless the last attempt
    raised; and when the timer fires on a working disk, the store is clean. *)
Theorem memory_restart_transparent fs auto count st acts s :
  decodable fs → memory_init fs auto count = Ok st → exec memory_step (mkMsys st fs false) acts = Some s →
  (_dirty (store s) = false →
   readable (episodic (store s)) → readable (semantic (store s)) → readable (procedural (store s)) →
   ∃ st', memory_init (disk s) auto count = Ok st' ∧ episodic st' = episodic (store s)
     ∧ semantic st' = semantic (store s) ∧ procedural st' = procedural (store s)
     ∧ (faiss = false → ∀ q k now, q ≠ "" →
                  (search_episodes q k st').2 = (search_episodes q k (store s)).2
                  ∧ (search_knowledge q k now st').2 = (search_knowledge q k now (store s)).2))
  ∧ (_dirty (store s) = true → _auto_save (store s) = true → _debounce_handle (store s) = true ∨ stalled s = true)
  ∧ (_debounce_handle (store s) = true →
     ∀ r, ∃ s', memory_step s (MTimer, mkEnv true r []) = Some s' ∧ _dirty (store s') = false).
Proof.
  intros Hd Hst Hex. assert (memory_inv s) as [H1 H2 H3 H4].
  { eapply (exec_invariant memory_step memory_inv (λ _, True)); [|apply Forall_true_all|by eapply init_memory_inv|exact Hex].
    intros s1 a s2 Hi _. by apply memory_step_inv. }
  split_and!; [|done|].
  - intros Hclean Re Rs Rp. destruct (H3 Hclean) as (He & Hs & Hp).
    destruct (read_holds _ _ _ He Re) as (je & Ee & Le). destruct (read_holds _ _ _ Hs Rs) as (js & Es & Ls).
    destruct (read_holds _ _ _ Hp Rp) as (jp & Ep & Lp). eexists. split; [apply init_ok; by eexists je, js, jp|].
    rewrite Le, Ls, Lp. split_and!; [done..|]. intros Hf q k now _. split.
    + unfold search_episodes. cbn [_rebuild_indexes _episodic_index episodic].
      pose proof (indexes_search q k _ _ _ Hf (build_indexes (ep_docs (episodic (store s))) dense_init) H1) as E.
      destruct (search q k (build _ _)), (search q k (_episodic_index _)). cbn [fst snd] in *. by rewrite E.
    + unfold search_knowledge. cbn [_rebuild_indexes _semantic_index semantic].
      pose proof (indexes_search q k _ _ _ Hf (build_indexes (sem_docs (semantic (store s))) dense_init) H2) as E.
      destruct (search q k (build _ _)) as [? r1], (search q k (_semantic_index _)) as [? r2]. cbn [fst snd] in *. subst r2.
      destruct r1 as [l|x]; [|done]. by destruct (use_hits l.*1 now (semantic (store s))).
  - intros Hh r. cbn [memory_step disk rnds faults]. rewrite Hh. unfold _debounced_save. cbn [_dirty set_flags].
    destruct (_dirty (store s)) eqn:Ed; cbn [negb]; [apply settle_calm|by eexists].
Qed.
End store.

(** ** Statistics of procedures *)
Definition outcomes (os : list (bool * Q)) (p : ProceduralMemory) : ProceduralMemory := foldl (λ p o, applied o.1 o.2 p) p os.
Definition Qtotal (l : list Q) : Q := foldr Qplus 0%Q l.

Lemma Qtotal_snoc l x : (Qtotal (l ++ [x]) == Qtotal l + x)%Q.
Proof. induction l as [|y l IH]; cbn; [ring|]. unfold Qtotal in *. rewrite IH. ring. Qed.

Lemma of_nat_pos n : 0 < n → (0 < of_nat_q n)%Q.
Proof. intros Hn. unfold of_nat_q, Qlt, inject_Z. cbn. lia. Qed.

Lemma of_nat_S n : (of_nat_q (n + 1) == of_nat_q n + 1)%Q.
Proof. unfold of_nat_q. rewrite Nat2Z.inj_add, inject_Z_plus. reflexivity. Qed.

(** The success rate is the share of successes and the average duration the mean over
    all recorded applications. *)
Lemma procedure_stats_exact p os :
  times_applied p = 0 → times_succeeded p = 0 → os ≠ [] →
  let p' := outcomes os p in let n := length os in let ok := length (filter (λ o, o.1 = true) os) in
  times_applied p' = n ∧ times_succeeded p' = ok ∧ (success_rate p' == of_nat_q ok / of_nat_q n)%Q
  ∧ (avg_duration p' == Qtotal os.*2 / of_nat_q n)%Q.
Proof.
  intros H0 H1. induction os as [|[b d] os IH] using rev_ind; [done|]. intros _.
  unfold outcomes. rewrite foldl_snoc. fold (outcomes os p).
  assert (times_applied (outcomes os p) = length os ∧ times_succeeded (outcomes os p) = length (filter (λ o, o.1 = true) os)
          ∧ (0 < length os → (avg_duration (outcomes os p) == Qtotal os.*2 / of_nat_q (length os))%Q)) as (Ea & Es & Eavg).
  { destruct os as [|o os']; [cbn; split_and!; [done|done|lia]|]. destruct IH as (A & B & _ & D); [done|]. done. }
  cbn [fst snd]. rewrite length_app. cbn [length]. unfold applied. cbn [times_applied times_succeeded success_rate avg_duration].
  rewrite Ea, Es, filter_app, length_app.
  assert ((if b then length (filter (λ o, o.1 = true) os) + 1 else length (filter (λ o, o.1 = true) os))
          = length (filter (λ o, o.1 = true) os) + length (filter (λ o, o.1 = true) [(b, d)])) as Eb.
  { destruct b; [rewrite filter_cons_True by done|rewrite filter_cons_False by done]; rewrite filter_nil; cbn; lia. }
  rewrite Eb. split_and!; [done|done| |].
  - replace (max (length os + 1) 1) with (length os + 1) by lia. reflexivity.
  - rewrite fmap_app. cbn [fmap list_fmap]. rewrite Qtotal_snoc. destruct (Nat.eqb_spec (length os + 1) 1) as [E|E].
    + destruct os; [|cbn in E; lia]. unfold of_nat_q. cbn. field.
    + replace (length os + 1 - 1) with (length os) by lia. rewrite Eavg by lia. rewrite of_nat_S.
      fold (of_nat_q (length os)) (of_nat_q (length os + 1)). rewrite of_nat_S.
      cbn [snd]. pose proof (of_nat_pos (length os) ltac:(lia)). field. split; lra.
Qed.

(** What FAISS answers may change with a restart, which adds in one batch what was added
    one by one. *)
Example batches_matter :
  let search ix := (hnsw_search id (λ _ _, 0%Q) (λ l, seq 0 (length l)) (λ b _ _, map (λ i, (0%Q, Z.of_nat i)) (seq 0 (length b))) ix tt 2).2 in
  let one := add id ["a"; "b"] [tt; tt] (hnsw_init true) in
  let two := add id ["b"] [tt] (add id ["a"] [tt] (hnsw_init true)) in
  _ids one = _ids two ∧ rows one = rows two ∧ search one ≠ search two.
Proof. vm_compute. split_and!; [reflexivity|reflexivity|discriminate]. Qed.

(** ** Concrete runs *)
Definition demo_episode (id : string) : EpisodicMemory := mkEpisode id 0 "task" "summary" "" "success" 0 "" [] [].
Definition demo_fact (id : string) : SemanticMemory := mkFact id "topic" "fact" 1 "" 0 0 [].
Definition demo_proc (id : string) : ProceduralMemory := mkProc id "deploy" [] 1 0 0 0 [] [].

Definition by_id {A} (id : A → string) (make : string → A) : Model A :=
  {| model_dump a := JStr (id a); validate j := match j with JStr s => Some (make s) | _ => None end |}.
#[local] Instance demo_e : Model EpisodicMemory := by_id e_id demo_episode.
#[local] Instance demo_s : Model SemanticMemory := by_id s_id demo_fact.
#[local] Instance demo_p : Model ProceduralMemory := by_id p_id demo_proc.

Definition memory_dumps (j : json) : string :=
  match j with
  | JArr l => "[" +:+ String.concat "" (map (λ x, match x with JStr s => s +:+ ";" | _ => "?" end) l)
  | _ => "?"
  end.

Definition memory_loads (t : string) : parsed :=
  if String.eqb t "[" then Parsed (JArr [])
  else if String.eqb t "[e1;" then Parsed (JArr [JStr "e1"])
  else if String.eqb t "[e1;e2;" then Parsed (JArr [JStr "e1"; JStr "e2"])
  else if String.eqb t "[bad" then Parsed (JArr [JStr "e1"; JNull; JStr "e2"])
  else BadJson.

Definition same (a b : string) : Q := if String.eqb a b then 1 else 0.
Abbreviation demo_init := (@memory_init string id false id demo_e demo_s demo_p memory_loads).
Abbreviation demo_memory_step :=
  (@memory_step string id same (λ l, seq 0 (length l)) false (λ _ _ _, []) id demo_e demo_s demo_p memory_dumps).

Definition demo_rnds : names := mkNames "a" "b" "c".
Definition demo_memory_run : list (mact * menv) :=
  [(MRecord (demo_episode "e1"), mkEnv true demo_rnds []); (MTimer, mkEnv true demo_rnds [])].

Lemma memory_restart_transparent_witness :
  ∃ st s, demo_init ∅ true 5 = Ok st ∧ exec demo_memory_step (mkMsys st ∅ false) demo_memory_run = Some s
    ∧ ∃ st', demo_init (disk s) true 5 = Ok st' ∧ episodic st' = [demo_episode "e1"].
Proof.
  destruct (demo_init ∅ true 5) as [st|e] eqn:Est; [|vm_compute in Est; discriminate Est].
  destruct (exec demo_memory_step (mkMsys st ∅ false) demo_memory_run) as [s|] eqn:Es;
    [|vm_compute in Est; injection Est as <-; vm_compute in Es; discriminate Es].
  exists st, s. split; [reflexivity|]. split; [exact Es|].
  assert (_dirty (store s) = false ∧ episodic (store s) = [demo_episode "e1"] ∧ semantic (store s) = [] ∧ procedural (store s) = [])
    as (Hd & He & Hs & Hp).
  { vm_compute in Est. injection Est as <-. vm_compute in Es. injection Es as <-. vm_compute. split_and!; reflexivity. }
  destruct (memory_restart_transparent id same (λ l, seq 0 (length l)) false (λ _ _ _, []) id memory_dumps memory_loads
              ∅ true 5 st demo_memory_run s) as [H _].
  - intros p t _ E. rewrite lookup_empty in E. discriminate E.
  - exact Est.
  - exact Es.
  - destruct (H Hd) as (st' & E1 & E2 & _).
    + rewrite He. split; [reflexivity|]. repeat constructor.
    + rewrite Hs. split; [reflexivity|constructor].
    + rewrite Hp. split; [reflexivity|constructor].
    + exists st'. split; [exact E1|]. rewrite E2. exact He.
Defined.

(** A record that does not validate hides those after it, and the next save makes the
    loss permanent (until then the backup has them). *)
Example bad_record_truncates_memory :
  match demo_init (<["episodic.json" := "[bad"]> ∅) true 5 with
  | Ok st =>
      episodic st = [demo_episode "e1"] ∧
      (@save string demo_e demo_s demo_p memory_dumps st (<["episodic.json" := "[bad"]> ∅) demo_rnds []).1.2 !! "episodic.json" = Some "[e1;"
  | Err _ => False
  end.
Proof. vm_compute. split; reflexivity. Qed.

(** With a corrupt file the store comes from the backup; a save that fails after the
    rotation has replaced that backup by the corrupt file. *)
Example failed_save_loses_the_backup :
  let fs := <["episodic.bak.1" := "[e1;"]> (<["episodic.json" := "{"]> ∅) in
  match demo_init fs true 1 with
  | Ok st =>
      episodic st = [demo_episode "e1"] ∧
      let fs := (@save string demo_e demo_s demo_p memory_dumps st fs demo_rnds [Works; Works; OsErr ""]).1.2 in
      match demo_init fs true 1 with Ok st => episodic st = [] | Err _ => False end
  | Err _ => False
  end.
Proof. vm_compute. split; reflexivity. Qed.
