(* ===== verification/Pipeline.v ===== *)
(** * Pipelines ([noema/pipelines/engine.py])

    A pipeline runs its steps in order, each with a condition, retries and a timeout.
    What a step runs is a parameter of it: the kernel of the registry or the function of
    the step, given the number of the attempt and, for a function, the context, which it
    may change.  An attempt returns a dictionary, runs into [asyncio.wait_for]'s timeout
    or raises.  The steps are objects that keep their status from one run to the next.
    Durations are left out. *)
From Stdlib Require Import ZArith Lia Bool Ascii String.
From stdpp Require Import base option numbers sets strings list.
From S2P Require Import Prelude.
Local Open Scope string_scope.
Local Open Scope list_scope.
Local Open Scope nat_scope.

Inductive StepStatus := PENDING | RUNNING | COMPLETED | FAILED | SKIPPED.

#[global] Instance status_eq_dec : EqDecision StepStatus.
Proof. solve_decision. Defined.

Definition context := list (string * json).

Inductive attempt := Returned (r : list (string * json)) | TimedOut | Threw (msg : string).

Record PipelineStep := mkStep {
  name : string;
  kernel_name : option string;
  func : option (nat → context → context * attempt);
  phase : string;
  condition : option (context → result pyexn bool);
  retry_count : Z;
  timeout_text : string;                                  (* [timeout_seconds] as f-strings print it *)
  status : StepStatus;
  result_ : list (string * json);
  error : option string;
}.

Definition with_status (s : PipelineStep) (st : StepStatus) : PipelineStep :=
  mkStep (name s) (kernel_name s) (func s) (phase s) (condition s) (retry_count s) (timeout_text s) st (result_ s) (error s).
Definition with_result (s : PipelineStep) (r : list (string * json)) : PipelineStep :=
  mkStep (name s) (kernel_name s) (func s) (phase s) (condition s) (retry_count s) (timeout_text s) COMPLETED r (error s).
Definition with_error (s : PipelineStep) (e : string) : PipelineStep :=
  mkStep (name s) (kernel_name s) (func s) (phase s) (condition s) (retry_count s) (timeout_text s) (status s) (result_ s) (Some e).

Record PipelineResult := mkResult {
  pipeline_name : string;
  r_steps : list PipelineStep;
  final_output : context;
  success : bool;
}.

Definition completed_steps (r : PipelineResult) : nat := length (filter (λ s, status s = COMPLETED) (r_steps r)).
Definition failed_steps (r : PipelineResult) : nat := length (filter (λ s, status s = FAILED) (r_steps r)).

Record Pipeline := mkPipeline {
  p_name : string;
  p_steps : list PipelineStep;
  _on_step_complete : list (PipelineStep → result pyexn ());
  _on_error : list (PipelineStep → option string → result pyexn ());
}.

Definition pipeline_init (n : string) : Pipeline := mkPipeline n [] [] [].

Definition add_step (n : string) (kernel : option string) (f : option (nat → context → context * attempt)) (ph : string)
    (cond : option (context → result pyexn bool)) (retries : Z) (timeout : string) (p : Pipeline) : Pipeline :=
  mkPipeline (p_name p) (p_steps p ++ [mkStep n kernel f ph cond retries timeout PENDING [] None]) (_on_step_complete p) (_on_error p).

Definition on_step_complete (cb : PipelineStep → result pyexn ()) (p : Pipeline) : Pipeline :=
  mkPipeline (p_name p) (p_steps p) (_on_step_complete p ++ [cb]) (_on_error p).
Definition on_error (cb : PipelineStep → option string → result pyexn ()) (p : Pipeline) : Pipeline :=
  mkPipeline (p_name p) (p_steps p) (_on_step_complete p) (_on_error p ++ [cb]).

Section run.
(** The registry of the engine: [None] without an engine. *)
Context (noema : option (string → option (nat → attempt))).

Definition truthy_name (k : option string) : option string :=
  match k with Some s => if nonempty s then Some s else None | None => None end.

(** The body of the [try], for attempt [i]. *)
Definition run_attempt (s : PipelineStep) (i : nat) (ctx : context) : context * attempt :=
  match truthy_name (kernel_name s), noema with
  | Some k, Some kernels =>
      (ctx, match kernels k with
            | Some run => run i
            | None => Returned [("error", JStr ("Kernel '" +:+ k +:+ "' not found"))]
            end)
  | _, _ => match func s with Some f => f i ctx | None => (ctx, Returned [("status", JStr "noop")]) end
  end.

(** The attempts from [i] on, [n] of them; the last component counts those made. *)
Fixpoint attempts (n i : nat) (s : PipelineStep) (ctx : context) : PipelineStep * context * nat :=
  match n with
  | 0 => (s, ctx, 0)
  | S n =>
      match run_attempt s i ctx with
      | (ctx, Returned r) => (with_result s r, dset (name s) (JObj r) ctx, 1)
      | (ctx, other) =>
          let s := with_error s (match other with Threw e => e | _ => "Timeout after " +:+ timeout_text s +:+ "s" end) in
          match n with
          | 0 => (with_status s FAILED, ctx, 1)
          | _ => let '(s, ctx, k) := attempts n (S i) s ctx in (s, ctx, S k)
          end
      end
  end.

Fixpoint call_all {A} (cbs : list (A → result pyexn ())) (a : A) : result pyexn () :=
  match cbs with [] => Ok () | cb :: cbs => _ ← cb a; call_all cbs a end.

(** One step; the flag says whether it failed. *)
Definition run_step (p : Pipeline) (s : PipelineStep) (ctx : context) : result pyexn (PipelineStep * context * bool) :=
  go ← match condition s with Some c => c ctx | None => Ok true end;
  if negb go then Ok (with_status s SKIPPED, ctx, false)
  else
    let '(s, ctx, _) := attempts (Z.to_nat (retry_count s + 1)) 0 (with_status s RUNNING) ctx in
    _ ← call_all (_on_step_complete p) s;
    if decide (status s = FAILED) then _ ← call_all (map (λ cb s, cb s (error s)) (_on_error p)) s; Ok (s, ctx, true)
    else Ok (s, ctx, false).

Fixpoint run_steps (p : Pipeline) (l : list PipelineStep) (ctx : context) : result pyexn (list PipelineStep * context * bool) :=
  match l with
  | [] => Ok ([], ctx, true)
  | s :: l =>
      '(s, ctx, failed) ← run_step p s ctx;
      '(l, ctx, ok) ← run_steps p l ctx;
      Ok (s :: l, ctx, negb failed && ok)
  end.

(** The pipeline afterwards holds the steps with their new status. *)
Definition execute (p : Pipeline) (task : json) (initial : context) : result pyexn (Pipeline * PipelineResult) :=
  '(l, ctx, ok) ← run_steps p (p_steps p) (dset "task" task initial);
  Ok (mkPipeline (p_name p) l (_on_step_complete p) (_on_error p), mkResult (p_name p) l ctx ok).

(** ** Correctness *)

(** What one attempt loop does, attempt by attempt: [tried s i ctx n k s' ctx'] with [n]
    attempts left makes [k] of them, all but the last failing. *)
Inductive tried (s : PipelineStep) : nat → context → nat → nat → StepStatus → context → Prop :=
| T_none i ctx : tried s i ctx 0 0 (status s) ctx
| T_done i ctx n ctx' r :
    run_attempt s i ctx = (ctx', Returned r) → tried s i ctx (S n) 1 COMPLETED (dset (name s) (JObj r) ctx')
| T_last i ctx ctx' a :
    run_attempt s i ctx = (ctx', a) → (∀ r, a ≠ Returned r) → tried s i ctx 1 1 FAILED ctx'
| T_retry i ctx n k ctx1 a st ctx' :
    run_attempt s i ctx = (ctx1, a) → (∀ r, a ≠ Returned r) → tried s (S i) ctx1 (S n) k st ctx' →
    tried s i ctx (S (S n)) (S k) st ctx'.

(** Only status, result and error of a step change. *)
Definition same_step (s s' : PipelineStep) : Prop :=
  name s' = name s ∧ kernel_name s' = kernel_name s ∧ func s' = func s ∧ phase s' = phase s ∧ condition s' = condition s
  ∧ retry_count s' = retry_count s ∧ timeout_text s' = timeout_text s.

Lemma run_attempt_same s s' i ctx : same_step s s' → run_attempt s' i ctx = run_attempt s i ctx.
Proof. intros (_ & Hk & Hf & _). unfold run_attempt. by rewrite Hk, Hf. Qed.

Lemma tried_same s s' i ctx n k st ctx' :
  same_step s s' → status s = status s' → tried s' i ctx n k st ctx' → tried s i ctx n k st ctx'.
Proof.
  intros Hs Hst. induction 1 as [i ctx|i ctx n ctx' r E|i ctx ctx' a E Ha|i ctx n k ctx1 a st ctx' E Ha _ IH];
    rewrite ?(run_attempt_same s s' i ctx Hs) in *.
  - rewrite <- Hst. constructor.
  - destruct Hs as (-> & _). by constructor.
  - by econstructor.
  - by econstructor.
Qed.

Lemma attempts_tried n i s ctx s' ctx' k :
  attempts n i s ctx = (s', ctx', k) → same_step s s' ∧ tried s i ctx n k (status s') ctx'.
Proof.
  revert i s ctx s' ctx' k. induction n as [|n IH]; intros i s ctx s' ctx' k; cbn [attempts].
  - intros [= <- <- <-]. split; [done|constructor].
  - destruct (run_attempt s i ctx) as [ctx1 a] eqn:E. destruct a as [r| |e].
    + intros [= <- <- <-]. split; [done|]. by eapply T_done.
    + destruct n as [|n]; [intros [= <- <- <-]; split; [done|by eapply T_last]|].
      match goal with |- context [attempts (S n) (S i) ?s1 ctx1] => destruct (attempts (S n) (S i) s1 ctx1) as [[s2 c2] k2] eqn:E2 end.
      intros [= <- <- <-]. apply IH in E2 as [Hs Ht]. split; [done|]. eapply T_retry; [exact E|done|].
      eapply tried_same; [|..|exact Ht]; done.
    + destruct n as [|n]; [intros [= <- <- <-]; split; [done|by eapply T_last]|].
      match goal with |- context [attempts (S n) (S i) ?s1 ctx1] => destruct (attempts (S n) (S i) s1 ctx1) as [[s2 c2] k2] eqn:E2 end.
      intros [= <- <- <-]. apply IH in E2 as [Hs Ht]. split; [done|]. eapply T_retry; [exact E|done|].
      eapply tried_same; [|..|exact Ht]; done.
Qed.

Lemma tried_count s i ctx n k st ctx' :
  tried s i ctx n k st ctx' → k ≤ n ∧ (0 < n → (st = COMPLETED ∨ st = FAILED) ∧ 0 < k ∧ (st = FAILED → k = n)).
Proof.
  induction 1 as [i ctx|i ctx n ctx' r E|i ctx ctx' a E Ha|i ctx n k ctx1 a st ctx' E Ha _ IH]; split; try lia; intros Hn.
  - split_and!; [by left|lia|done].
  - split_and!; [by right|lia|done].
  - destruct IH as [IH1 IH2]. destruct IH2 as (A & B & C); [lia|]. split_and!; [done|lia|]. intros Hf. by rewrite C.
Qed.

(** The fate of a step in the context it is reached in. *)
Definition step_outcome (s s' : PipelineStep) (ctx ctx' : context) : Prop :=
  same_step s s' ∧
  ((∃ c, condition s = Some c ∧ c ctx = Ok false ∧ status s' = SKIPPED ∧ ctx' = ctx)
   ∨ (∀ c, condition s = Some c → c ctx = Ok true)
     ∧ ∃ k, tried (with_status s RUNNING) 0 ctx (Z.to_nat (retry_count s + 1)) k (status s') ctx').

Inductive outcomes : list PipelineStep → context → list PipelineStep → context → Prop :=
| Out_nil ctx : outcomes [] ctx [] ctx
| Out_cons s s' l l' ctx ctx1 ctx' :
    step_outcome s s' ctx ctx1 → outcomes l ctx1 l' ctx' → outcomes (s :: l) ctx (s' :: l') ctx'.

Lemma run_step_outcome p s ctx s' ctx' failed :
  run_step p s ctx = Ok (s', ctx', failed) → step_outcome s s' ctx ctx' ∧ failed = bool_decide (status s' = FAILED).
Proof.
  unfold run_step. rewrite result_bind_ok. intros (go & Hgo & H). destruct go; cbn [negb] in H.
  - destruct (attempts _ 0 (with_status s RUNNING) ctx) as [[s1 c1] k] eqn:E. apply attempts_tried in E as [Hs Ht].
    apply result_bind_ok in H as (_ & _ & H).
    assert (step_outcome s s1 ctx c1) as Ho.
    { split; [done|]. right. split; [|by exists k]. intros c Hc. by rewrite Hc in Hgo. }
    destruct (decide (status s1 = FAILED)) as [Hf|Hf].
    + apply result_bind_ok in H as (_ & _ & [= <- <- <-]). split; [done|]. by rewrite bool_decide_eq_true_2.
    + injection H as <- <- <-. split; [done|]. by rewrite bool_decide_eq_false_2.
  - injection H as <- <- <-. split; [|done]. split; [done|]. left. destruct (condition s) as [c|] eqn:Ec; [|done].
    exists c. done.
Qed.

Lemma run_steps_outcome p l ctx l' ctx' ok :
  run_steps p l ctx = Ok (l', ctx', ok) → outcomes l ctx l' ctx' ∧ ok = forallb (λ s, bool_decide (status s ≠ FAILED)) l'.
Proof.
  revert ctx l' ctx' ok. induction l as [|s l IH]; intros ctx l' ctx' ok; cbn [run_steps].
  - intros [= <- <- <-]. split; [constructor|done].
  - rewrite result_bind_ok. intros ([[s1 c1] f] & Hs & H). apply result_bind_ok in H as ([[l1 c2] ok1] & Hl & [= <- <- <-]).
    apply run_step_outcome in Hs as [Hs ->]. apply IH in Hl as [Hl ->]. split; [by econstructor|]. cbn. f_equal.
    case_bool_decide; case_bool_decide; done.
Qed.

Lemma call_all_ok {A} (cbs : list (A → result pyexn ())) a : (∀ cb, cb ∈ cbs → cb a = Ok ()) → call_all cbs a = Ok ().
Proof.
  induction cbs as [|cb cbs IH]; intros H; [done|]. cbn. rewrite (H cb) by left. bindsimp. apply IH. intros c Hc. apply H. by right.
Qed.

(** Conditions and callbacks that do not raise. *)
Record quiet (p : Pipeline) : Prop := {
  q_condition s c ctx : s ∈ p_steps p → condition s = Some c → ∃ b, c ctx = Ok b;
  q_complete cb s : cb ∈ _on_step_complete p → cb s = Ok ();
  q_error cb s e : cb ∈ _on_error p → cb s e = Ok ();
}.

Lemma run_steps_total p l ctx : quiet p → (∀ s, s ∈ l → s ∈ p_steps p) → ∃ r, run_steps p l ctx = Ok r.
Proof.
  intros Hq. revert ctx. induction l as [|s l IH]; intros ctx Hl; cbn [run_steps]; [by eexists|].
  assert (∃ r, run_step p s ctx = Ok r) as [[[s1 c1] f] ->].
  { unfold run_step.
    assert (∃ b, match condition s with Some c => c ctx | None => Ok true end = Ok b) as [b ->].
    { destruct (condition s) as [c|] eqn:Ec; [|by eexists]. eapply (q_condition p Hq); [|done]. apply Hl. by left. }
    bindsimp. destruct b; cbn [negb]; [|by eexists]. destruct (attempts _ 0 _ ctx) as [[s1 c1] k].
    rewrite (call_all_ok (_on_step_complete p) s1) by (intros cb; apply (q_complete p Hq)). bindsimp.
    destruct (decide (status s1 = FAILED)); [|by eexists].
    rewrite call_all_ok; [by eexists|]. intros cb (cb' & -> & Hcb)%list_elem_of_fmap. by apply (q_error p Hq). }
  bindsimp. destruct (IH c1) as [[[l1 c2] ok] ->]; [intros s' Hs'; apply Hl; by right|]. by eexists.
Qed.

Lemma outcomes_settled l ctx l' ctx' :
  outcomes l ctx l' ctx' → Forall (λ s, (0 <= retry_count s)%Z) l →
  Forall (λ s, status s = COMPLETED ∨ status s = FAILED ∨ status s = SKIPPED) l'.
Proof.
  induction 1 as [|s s' l l' ctx ctx1 ctx' [_ Ho] _ IH]; [constructor|]. intros [Hr Hl]%Forall_cons.
  constructor; [|by apply IH]. destruct Ho as [(c & _ & _ & -> & _)|(_ & k & Ht)]; [auto|].
  apply tried_count in Ht as [_ Ht]. destruct Ht as ([->| ->] & _); auto. lia.
Qed.

(** A run of a pipeline takes the steps in their order.  With conditions and
    callbacks that do not raise it always returns; a step is skipped exactly if its
    condition is false in the context the steps before it left, otherwise it is attempted
    until it returns, at most one more time than it has retries, and has failed exactly
    if all these attempts failed; a failure does not stop the steps after it; the run is
    a success exactly if no step failed. *)
Theorem pipeline_runs p task ctx :
  quiet p →
  ∃ p' r, execute p task ctx = Ok (p', r) ∧ p_steps p' = r_steps r
    ∧ outcomes (p_steps p) (dset "task" task ctx) (r_steps r) (final_output r)
    ∧ (success r = true ↔ ∀ s, s ∈ r_steps r → status s ≠ FAILED)
    ∧ (Forall (λ s, (0 <= retry_count s)%Z) (p_steps p) →
       completed_steps r + failed_steps r + length (filter (λ s, status s = SKIPPED) (r_steps r)) = length (p_steps p)).
Proof.
  intros Hq. destruct (run_steps_total p (p_steps p) (dset "task" task ctx) Hq) as [[[l c] ok] E]; [done|].
  unfold execute. rewrite E. bindsimp. eexists _, _. split; [done|]. apply run_steps_outcome in E as [Ho ->].
  split_and!; [done|exact Ho|..]; cbn [success r_steps].
  - rewrite forallb_forall. split.
    + intros H s Hs. apply list_elem_of_In in Hs. apply H, bool_decide_eq_true in Hs. done.
    + intros H s Hs. apply bool_decide_eq_true, H. by apply list_elem_of_In.
  - intros Hr. pose proof (outcomes_settled _ _ _ _ Ho Hr) as Hs. unfold completed_steps, failed_steps. cbn [r_steps].
    replace (length (p_steps p)) with (length l) by (clear -Ho; induction Ho; cbn; congruence).
    clear -Hs. induction Hs as [|s l Hs _ IH]; [done|]. rewrite !filter_cons. destruct Hs as [E|[E|E]]; rewrite E; repeat (case_decide; try done); cbn [length]; lia.
Qed.
End run.

(** ** The built-in pipelines *)
Definition kernel_step (n ph timeout : string) : Pipeline → Pipeline := add_step n (Some n) None ph None 0 timeout.

Definition create_fullstack_pipeline : Pipeline :=
  kernel_step "security" "" "30.0" (kernel_step "optimization" "" "30.0" (kernel_step "codegen" "" "30.0"
    (kernel_step "architecture" "design" "30.0" (kernel_step "analysis" "full" "30.0" (pipeline_init "fullstack_generation"))))).
Definition create_quick_prototype_pipeline : Pipeline :=
  kernel_step "codegen" "" "15.0" (kernel_step "analysis" "full" "10.0" (pipeline_init "quick_prototype")).
Definition create_security_audit_pipeline : Pipeline :=
  kernel_step "optimization" "" "30.0" (kernel_step "security" "" "30.0" (kernel_step "analysis" "full" "30.0" (pipeline_init "security_audit"))).
Definition create_architecture_review_pipeline : Pipeline :=
  kernel_step "security" "" "30.0" (kernel_step "architecture" "design" "30.0"
    (kernel_step "analysis" "analyze" "30.0" (pipeline_init "architecture_review"))).

Lemma pipeline_runs_witness :
  ∃ p r, execute (Some (λ _, Some (λ _, TimedOut))) create_quick_prototype_pipeline JNull [] = Ok (p, r)
    ∧ (success r = true ↔ ∀ s, s ∈ r_steps r → status s ≠ FAILED).
Proof.
  destruct (pipeline_runs (Some (λ _, Some (λ _, TimedOut))) create_quick_prototype_pipeline JNull [])
    as (p & r & E & _ & _ & H & _); [|by exists p, r].
  split; [|by intros cb s Hcb%not_elem_of_nil|by intros cb s e Hcb%not_elem_of_nil].
  intros s c ctx Hs Hc. exfalso. cbn in Hs. repeat (apply elem_of_cons in Hs as [->|Hs]; [discriminate Hc|]).
  by apply not_elem_of_nil in Hs.
Defined.

(** A kernel that does not exist completes the step and the run succeeds. *)
Example missing_kernel_is_success :
  match execute (Some (λ _, None)) create_security_audit_pipeline JNull [] with
  | Ok (_, r) => success r = true ∧ map status (r_steps r) = [COMPLETED; COMPLETED; COMPLETED]
  | Err _ => False
  end.
Proof. vm_compute. split; reflexivity. Qed.

(** The error of an earlier attempt stays on a step that completed after all. *)
Example error_of_a_completed_step :
  match execute (Some (λ _, Some (λ i, if (i =? 0)%nat then TimedOut else Returned []))) 
          (add_step "k" (Some "k") None "" None 1 "30.0" (pipeline_init "p")) JNull [] with
  | Ok (_, r) => map (λ s, (status s, error s)) (r_steps r) = [(COMPLETED, Some "Timeout after 30.0s")]
  | Err _ => False
  end.
Proof. vm_compute. reflexivity. Qed.

(** A negative number of retries makes no attempt: the step stays running and the run
    succeeds. *)
Example negative_retries_never_run :
  match execute None (add_step "k" (Some "k") None "" None (-1) "30.0" (pipeline_init "p")) JNull [] with
  | Ok (_, r) => success r = true ∧ map status (r_steps r) = [RUNNING]
  | Err _ => False
  end.
Proof. vm_compute. split; reflexivity. Qed.
