(* ===== verification/Agents.v ===== *)
(** * Sub-agents and their orchestrator ([noema/agents/base.py], [noema/agents/orchestrator.py])

    An agent has a name, a role and three coroutines, which return a dictionary or
    raise.  [_gather_agent_results] runs one coroutine per agent under the orchestrator's
    semaphore; several calls can be under way at once and share it.  A call of a
    coroutine is a job: it queues for the semaphore, in the order in which the jobs were
    created, runs, and ends with its result or with the error as a dictionary.  The
    results of the six built-in agents are computed from the task and the solution. *)
From Stdlib Require Import ZArith QArith Lia Bool Ascii String.
From stdpp Require Import base option numbers sets pretty strings list.
From S2P Require Import Prelude Symbolic Prompts CoreTypes.
Local Open Scope string_scope.
Local Open Scope list_scope.
Local Open Scope nat_scope.

Inductive AgentRole := ARCHITECT | DEVELOPER | REVIEWER | ANALYST | DEVOPS | SECURITY | DBA | FRONTEND | AI_ENGINEER | LEAD.

#[global] Instance role_eq_dec : EqDecision AgentRole.
Proof. solve_decision. Defined.

Definition role_value (r : AgentRole) : string :=
  match r with
  | ARCHITECT => "architect" | DEVELOPER => "developer" | REVIEWER => "reviewer" | ANALYST => "analyst" | DEVOPS => "devops"
  | SECURITY => "security" | DBA => "dba" | FRONTEND => "frontend" | AI_ENGINEER => "ai_engineer" | LEAD => "lead"
  end.

Definition obj := list (string * json).

(** What a coroutine of an agent ends with: [Err] carries [str(e)]. *)
Definition body := result string obj.

Record BaseAgent := mkAgent {
  role : AgentRole;
  a_name : string;
  analyze : Task → body;
  contribute : Task → Solution → obj → body;
  review : Solution → body;
}.

(** ** The built-in agents *)
Definition strs (l : list string) : json := JArr (map JStr l).
Definition num (n : nat) : json := JNum (inject_Z (Z.of_nat n)).

Definition base_review (r : AgentRole) (n : string) (_ : Solution) : body :=
  Ok [("agent", JStr n); ("role", JStr (role_value r)); ("approved", JBool true); ("comments", JArr []); ("suggestions", JArr [])].

Definition has_tag (t : Task) (x : string) : bool := bool_decide (x ∈ map lower (tags t)).

Definition _classify_domain (t : Task) : string :=
  if has_tag t "web" then "web-application"
  else if has_tag t "ml" || has_tag t "ai" then "ml-system"
  else if has_tag t "data" then "data-platform" else "general".

Definition _estimate_scale (t : Task) : string :=
  if has_tag t "high-load" then "high" else if has_tag t "enterprise" then "enterprise" else "standard".

Definition count_of (j : option json) : result string nat :=
  match j with
  | None => Ok 0
  | Some (JArr l) => Ok (length l)
  | Some (JObj d) => Ok (length d)
  | Some (JStr s) => Ok (String.length s)
  | Some _ => Err "object has no len()"
  end.

Definition ArchitectAgent : BaseAgent := mkAgent ARCHITECT "lead_architect"
  (λ t, Ok [("domain", JStr (_classify_domain t)); ("scale", JStr (_estimate_scale t)); ("key_decisions", JArr [])])
  (λ _ _ ctx, n ← count_of (dget "components" ctx);
     Ok [("layer", JStr "architecture"); ("patterns_recommended", strs ["modular"; "clean-separation"]); ("component_count", num n)])
  (base_review ARCHITECT "lead_architect").

Definition DeveloperAgent : BaseAgent := mkAgent DEVELOPER "lead_developer"
  (λ t, Ok [("modules_needed", num (length (requirements t))); ("complexity_assessment", JStr (complexity_value (complexity t)));
            ("recommended_patterns", strs ["repository"; "service-layer"; "dependency-injection"])])
  (λ _ s _, Ok [("layer", JStr "implementation"); ("files_generated", num (length (code_blocks s)));
                ("patterns_applied", strs ["repository"; "service"; "handler"])])
  (base_review DEVELOPER "lead_developer").

Definition attack_surface (t : Task) : list string :=
  (if has_tag t "web" || has_tag t "api" then ["xss"; "sqli"; "csrf"; "rate-limiting"] else [])
  ++ (if has_tag t "auth" then ["brute-force"; "token-theft"; "session-hijack"] else []).

Definition mentions (sub s : string) : bool := match index 0 sub (lower s) with Some _ => true | None => false end.
Definition security_issues (s : Solution) : list string := filter (λ n, mentions "vulnerability" n = true) (security_notes s).

Definition security_review (s : Solution) : body :=
  let issues := security_issues s in
  Ok [("agent", JStr "security_specialist"); ("role", JStr (role_value SECURITY)); ("approved", JBool (length issues =? 0)%nat);
      ("comments", strs (security_notes s)); ("issues", strs issues)].

Definition SecurityAgent : BaseAgent := mkAgent SECURITY "security_specialist"
  (λ t, Ok [("attack_surface", strs (attack_surface t)); ("compliance_requirements", strs ["OWASP Top 10"])])
  (λ _ _ _, Ok [("layer", JStr "security"); ("checks_added", strs ["input-validation"; "rate-limiting"; "cors"; "csp"])])
  security_review.

Definition DevOpsAgent : BaseAgent := mkAgent DEVOPS "devops_engineer"
  (λ _, Ok [("deployment_target", JStr "kubernetes"); ("ci_cd", JStr "github-actions");
            ("monitoring_stack", strs ["prometheus"; "grafana"; "alertmanager"])])
  (λ _ _ _, Ok [("layer", JStr "infrastructure");
                ("configs_generated", strs ["Dockerfile"; "docker-compose.yml"; "k8s-manifests"; "github-actions"])])
  (base_review DEVOPS "devops_engineer").

Definition DBAAgent : BaseAgent := mkAgent DBA "database_architect"
  (λ _, Ok [("data_volume", JStr "unknown"); ("consistency_requirements", JStr "eventual"); ("recommended_db", JStr "postgresql")])
  (λ _ _ _, Ok [("layer", JStr "database"); ("tables", JArr []); ("indexes", JArr []); ("migrations", JArr [])])
  (base_review DBA "database_architect").

Definition AIEngineerAgent : BaseAgent := mkAgent AI_ENGINEER "ml_engineer"
  (λ _, Ok [("model_type", JStr "unknown"); ("inference_requirements", JStr "real-time"); ("training_data", JStr "required")])
  (λ _ _ _, Ok [("layer", JStr "ml"); ("pipeline_steps", strs ["ingestion"; "preprocessing"; "training"; "evaluation"; "serving"])])
  (base_review AI_ENGINEER "ml_engineer").

(** ** The roster *)
Record AgentOrchestrator := mkOrch { agents : list (string * BaseAgent); max_concurrent : nat; _initialized : bool }.

Definition orchestrator_init (cap : Z) : result pyexn AgentOrchestrator :=
  if (cap <? 1)%Z then Err ValueError else Ok (mkOrch [] (Z.to_nat cap) false).

Definition register_agent (a : BaseAgent) (o : AgentOrchestrator) : AgentOrchestrator :=
  mkOrch (dset (a_name a) a (agents o)) (max_concurrent o) (_initialized o).

Definition default_agents : list BaseAgent :=
  [ArchitectAgent; DeveloperAgent; SecurityAgent; DevOpsAgent; DBAAgent; AIEngineerAgent].

Definition initialize (o : AgentOrchestrator) : AgentOrchestrator :=
  if _initialized o then o
  else let o := foldl (λ o a, register_agent a o) o default_agents in mkOrch (agents o) (max_concurrent o) true.

Definition shutdown (o : AgentOrchestrator) : AgentOrchestrator := mkOrch [] (max_concurrent o) false.

Definition get_agent_for_role (r : AgentRole) (o : AgentOrchestrator) : option BaseAgent :=
  snd <$> list_find (λ a, role a = r) (agents o).*2.

(** The coroutines of a fan-out, by agent. *)
Definition get_analyses (t : Task) (o : AgentOrchestrator) : list (string * body) :=
  map (λ p, (p.1, analyze p.2 t)) (agents o).
Definition get_contributions (t : Task) (s : Solution) (ctx : obj) (o : AgentOrchestrator) : list (string * body) :=
  map (λ p, (p.1, contribute p.2 t s ctx)) (agents o).
Definition review_solution (s : Solution) (o : AgentOrchestrator) : list (string * body) :=
  map (λ p, (p.1, review p.2 s)) (agents o).

(** ** The fan-out as a transition system *)

(** [_run] after its coroutine: the error as a dictionary. *)
Definition captured (b : body) : obj := match b with Ok d => d | Err e => [("error", JStr e)] end.

Inductive job_state := Queued | Running | Finished.

#[global] Instance job_state_eq_dec : EqDecision job_state.
Proof. solve_decision. Defined.

(** [j_group]: the call of [_gather_agent_results] the job belongs to. *)
Record job := mkJob { j_group : nat; j_name : string; j_body : body; j_state : job_state }.

(** [calls]: the coroutines of each call so far. *)
Record gathers := mkGathers { cap : nat; jobs : list job; calls : list (list (string * body)) }.

(** [Gather]: a call creates its tasks; [Start]: the longest-waiting task gets the
    semaphore; [Finish i]: a running task ends. *)
Inductive gact := Gather (coros : list (string * body)) | Start | Finish (i : nat).

Definition set_job (j : job) (st : job_state) : job := mkJob (j_group j) (j_name j) (j_body j) st.
Definition in_state (st : job_state) (j : job) : bool := bool_decide (j_state j = st).
Definition running (g : gathers) : nat := length (filter (λ j, j_state j = Running) (jobs g)).

Definition gather_step (g : gathers) (a : gact) : option gathers :=
  match a with
  | Gather coros => Some (mkGathers (cap g) (jobs g ++ map (λ c, mkJob (length (calls g)) c.1 c.2 Queued) coros) (calls g ++ [coros]))
  | Start =>
      match list_find (λ j, j_state j = Queued) (jobs g) with
      | Some (i, j) =>
          if (running g <? cap g)%nat then Some (mkGathers (cap g) (<[i := set_job j Running]> (jobs g)) (calls g)) else None
      | None => None
      end
  | Finish i =>
      match jobs g !! i with
      | Some j => if in_state Running j then Some (mkGathers (cap g) (<[i := set_job j Finished]> (jobs g)) (calls g)) else None
      | None => None
      end
  end.

(** [dict(results)] of a call all of whose tasks have finished. *)
Definition group_jobs (n : nat) (g : gathers) : list job := filter (λ j, j_group j = n) (jobs g).
Definition to_dict (l : list (string * obj)) : list (string * obj) := foldl (λ d p, dset p.1 p.2 d) [] l.

Definition _gather_agent_results (n : nat) (g : gathers) : option (list (string * obj)) :=
  let l := group_jobs n g in
  if forallb (in_state Finished) l then Some (to_dict (map (λ j, (j_name j, captured (j_body j))) l)) else None.

(** ** Every fan-out completes *)
Definition job_of (j : job) : string * body := (j_name j, j_body j).

Record gather_inv (g : gathers) : Prop := {
  gi_cap : running g ≤ cap g;
  gi_groups j : j ∈ jobs g → j_group j < length (calls g);
  gi_calls n coros : calls g !! n = Some coros → map job_of (group_jobs n g) = coros;
}.

Lemma insert_filter (P : job → Prop) `{!∀ j, Decision (P j)} (l : list job) i j j' :
  l !! i = Some j → (P j ↔ P j') → job_of j = job_of j' →
  map job_of (filter P (<[i := j']> l)) = map job_of (filter P l) ∧ length (filter P (<[i := j']> l)) = length (filter P l).
Proof.
  intros Hi HP Hj. rewrite <- !(length_map job_of).
  assert (map job_of (filter P (<[i := j']> l)) = map job_of (filter P l)) as ->; [|done].
  rewrite (insert_take_drop l i j') by (by eapply lookup_lt_Some). rewrite <- (take_drop_middle l i j Hi) at 3.
  rewrite !filter_app, !map_app, !filter_cons. f_equal. destruct (decide (P j')), (decide (P j)); cbn; try tauto. by rewrite Hj.
Qed.

Lemma insert_count (P : job → Prop) `{!∀ j, Decision (P j)} (l : list job) i j j' :
  l !! i = Some j →
  length (filter P (<[i := j']> l)) + (if decide (P j) then 1 else 0) = length (filter P l) + (if decide (P j') then 1 else 0).
Proof.
  intros Hi. rewrite (insert_take_drop l i j') by (by eapply lookup_lt_Some).
  rewrite <- (take_drop_middle l i j Hi) at 3. rewrite !filter_app, !length_app, !filter_cons.
  destruct (decide (P j')), (decide (P j)); cbn; lia.
Qed.

Lemma set_job_inv g i j st :
  gather_inv g → jobs g !! i = Some j → running (mkGathers (cap g) (<[i := set_job j st]> (jobs g)) (calls g)) ≤ cap g →
  gather_inv (mkGathers (cap g) (<[i := set_job j st]> (jobs g)) (calls g)).
Proof.
  intros [H1 H2 H3] Hi Hr. split; [done| |]; cbn [jobs calls].
  - intros x Hx. apply list_elem_of_lookup in Hx as [k Hk]. apply list_lookup_insert_Some in Hk as [(-> & <- & _)|[_ Hk]].
    + apply (H2 j). by eapply list_elem_of_lookup_2.
    + apply H2. by eapply list_elem_of_lookup_2.
  - intros n coros Hc. unfold group_jobs. cbn [jobs]. rewrite <- (H3 n coros Hc).
    by apply (insert_filter (λ j, j_group j = n) (jobs g) i j (set_job j st) Hi).
Qed.

Lemma gather_step_inv g a g' : gather_inv g → gather_step g a = Some g' → gather_inv g' ∧ cap g' = cap g.
Proof.
  intros Hg. destruct a as [coros| |i]; cbn [gather_step].
  - intros [= <-]. split; [|done]. destruct Hg as [H1 H2 H3].
    assert (∀ n P `{!∀ j, Decision (P j)}, (∀ c : string * body, ¬ P (mkJob n c.1 c.2 Queued)) →
      filter P (map (λ c, mkJob n c.1 c.2 Queued) coros) = []) as Hnone.
    { intros n P ? HP. induction coros as [|c coros IH]; [done|]. cbn [map]. rewrite filter_cons_False by apply HP. done. }
    split; cbn [jobs calls cap].
    + unfold running in *. cbn [jobs]. rewrite filter_app, (Hnone _ (λ j, j_state j = Running)), app_nil_r by done. done.
    + intros j [Hj|Hj]%elem_of_app; rewrite length_app; cbn; [specialize (H2 j Hj); lia|].
      apply list_elem_of_fmap in Hj as (c & -> & _). cbn. lia.
    + intros n c Hc. unfold group_jobs. cbn [jobs]. rewrite filter_app, map_app. apply lookup_app_Some in Hc as [Hc|[Hl Hc]].
      * rewrite (Hnone _ (λ j, j_group j = n)), app_nil_r; [by apply H3|]. cbn. intros _. apply lookup_lt_Some in Hc. lia.
      * apply list_lookup_singleton_Some in Hc as [Hn <-].
        assert (filter (λ j, j_group j = n) (jobs g) = []) as ->.
        { apply elem_of_nil_inv. intros j [Hj Hin]%list_elem_of_filter. specialize (H2 j Hin). lia. }
        cbn [app map]. assert (n = length (calls g)) as -> by lia. clear. induction coros as [|[x b] l IH]; [done|].
        cbn [map]. rewrite filter_cons_True by done. cbn [map]. by rewrite IH.
  - destruct (list_find _ (jobs g)) as [[i j]|] eqn:E; [|done]. destruct (Nat.ltb_spec (running g) (cap g)) as [Hlt|]; [|done].
    apply list_find_Some in E as (Hi & Hj & _). intros [= <-]. split; [|done]. apply set_job_inv; [done|done|].
    pose proof (insert_count (λ j, j_state j = Running) (jobs g) i j (set_job j Running) Hi) as Hc. unfold running in *. cbn [jobs] in *.
    repeat case_decide; lia.
  - destruct (jobs g !! i) as [j|] eqn:Hi; [|done]. unfold in_state. case_bool_decide as Hj; [|done].
    intros [= <-]. split; [|done]. apply set_job_inv; [done|done|].
    pose proof (insert_count (λ j, j_state j = Running) (jobs g) i j (set_job j Finished) Hi) as Hc. pose proof (gi_cap g Hg).
    unfold running in *. cbn [jobs] in *. repeat case_decide; cbn in *; try done; lia.
Qed.

(** Two steps per queued job, one per running job. *)
Definition job_cost (j : job) : nat := match j_state j with Queued => 2 | Running => 1 | Finished => 0 end.
Definition pending (g : gathers) : nat := foldr Nat.add 0 (map job_cost (jobs g)).

Definition scheduling (a : gact) : Prop := match a with Gather _ => False | _ => True end.

Lemma cost_insert (l : list job) i j j' :
  l !! i = Some j → foldr Nat.add 0 (map job_cost (<[i := j']> l)) + job_cost j = foldr Nat.add 0 (map job_cost l) + job_cost j'.
Proof.
  intros Hi. rewrite (insert_take_drop l i j') by (by eapply lookup_lt_Some).
  rewrite <- (take_drop_middle l i j Hi) at 3. rewrite !map_app. cbn [map].
  assert (∀ a b, foldr Nat.add 0 (a ++ b) = foldr Nat.add 0 a + foldr Nat.add 0 b) as Happ by (intros a b; induction a as [|x a IH]; cbn; lia).
  rewrite !Happ. cbn. lia.
Qed.

Lemma scheduling_cost g a g' : scheduling a → gather_step g a = Some g' → S (pending g') = pending g.
Proof.
  intros Ha. unfold pending. destruct a as [coros| |i]; [done| |]; cbn [gather_step].
  - destruct (list_find _ (jobs g)) as [[i j]|] eqn:E; [|done]. destruct (running g <? cap g); [|done]. intros [= <-].
    apply list_find_Some in E as (Hi & Hj & _). pose proof (cost_insert (jobs g) i j (set_job j Running) Hi) as Hc.
    unfold job_cost in Hc at 2 4. cbn in *. rewrite Hj in Hc. lia.
  - destruct (jobs g !! i) as [j|] eqn:Hi; [|done]. unfold in_state. case_bool_decide as Hj; [|done]. intros [= <-].
    pose proof (cost_insert (jobs g) i j (set_job j Finished) Hi) as Hc. unfold job_cost in Hc at 2 4. cbn in *.
    rewrite Hj in Hc. lia.
Qed.

Lemma schedule_length g acts g' :
  Forall scheduling acts → exec gather_step g acts = Some g' → length acts + pending g' = pending g.
Proof.
  intros Ha. revert g. induction Ha as [|a acts Ha _ IH]; intros g Hex; cbn in Hex; [by injection Hex as <-|].
  destruct (gather_step g a) as [g1|] eqn:E; [|done]. apply scheduling_cost in E; [|done]. apply IH in Hex. cbn. lia.
Qed.

(** As long as a job has not finished, something can happen. *)
Lemma gather_progress g :
  1 ≤ cap g → pending g ≠ 0 → ∃ a g', scheduling a ∧ gather_step g a = Some g'.
Proof.
  intros Hcap Hp. destruct (list_find (λ j, j_state j = Running) (jobs g)) as [[i j]|] eqn:Er.
  - apply list_find_Some in Er as (Hi & Hr & _). exists (Finish i). cbn [gather_step]. rewrite Hi. unfold in_state.
    rewrite bool_decide_eq_true_2 by done. by eexists.
  - apply list_find_None in Er. exists Start. cbn [gather_step].
    destruct (list_find (λ j, j_state j = Queued) (jobs g)) as [[i j]|] eqn:E.
    + assert (running g = 0) as -> .
      { unfold running. apply length_zero_iff_nil, elem_of_nil_inv. intros x [Hx Hin]%list_elem_of_filter.
        rewrite Forall_forall in Er. by apply (Er x). }
      destruct (Nat.ltb_spec 0 (cap g)); [by eexists|lia].
    + exfalso. apply Hp. unfold pending. apply list_find_None in E. revert Er E. generalize (jobs g). clear. intros l Hr Hq.
      induction l as [|j l IH]; [done|]. apply Forall_cons in Hq as [Hj Hl]. apply Forall_cons in Hr as [Hj' Hl'].
      cbn. rewrite IH by done. unfold job_cost. by destruct (j_state j).
Qed.

Lemma to_dict_nodup (l : list (string * obj)) : NoDup l.*1 → to_dict l = l.
Proof.
  unfold to_dict. assert (∀ d : list (string * obj), NoDup (d ++ l).*1 → foldl (λ d p, dset p.1 p.2 d) d l = d ++ l) as H;
    [|intros Hn; by rewrite H].
  induction l as [|[k v] l IH]; intros d Hn; cbn [foldl]; [by rewrite app_nil_r|]. cbn [fst snd].
  assert (dset k v d = d ++ [(k, v)]) as ->.
  { apply dset_keys_fresh. rewrite fmap_app in Hn. apply NoDup_app in Hn as (_ & Hd & _). intros Hin. apply (Hd k Hin). by left. }
  rewrite IH; by rewrite <- app_assoc.
Qed.

(** Fan-outs complete.  With any number of concurrent calls on one semaphore, at
    most [max_concurrent] agents run at a time; whatever the order in which agents
    finish, scheduling goes on until all have finished and takes exactly two steps per
    agent; and then every call returns, in the order of its agents, the dictionary each
    of them returned, or its error as a dictionary, and never raises. *)
Theorem agents_fan_out c acts g acts' g' :
  1 ≤ c → exec gather_step (mkGathers c [] []) acts = Some g →
  Forall scheduling acts' → exec gather_step g acts' = Some g' →
  running g' ≤ c ∧ length acts' + pending g' = pending g
  ∧ (pending g' ≠ 0 → ∃ a g'', scheduling a ∧ gather_step g' a = Some g'')
  ∧ (pending g' = 0 → ∀ n coros, calls g' !! n = Some coros → NoDup coros.*1 →
     _gather_agent_results n g' = Some (map (λ c, (c.1, captured c.2)) coros)).
Proof.
  intros Hc Hex Hs Hex'.
  assert (gather_inv g' ∧ cap g' = c) as [Hi Hcap].
  { eapply (exec_invariant gather_step (λ g, gather_inv g ∧ cap g = c) (λ _, True) (acts ++ acts') (mkGathers c [] []));
      [|apply Forall_true_all| |rewrite exec_app, Hex; exact Hex'].
    - intros s a s' [H1 H2] _ E. apply gather_step_inv in E as [H3 H4]; [|done]. split; [done|congruence].
    - split; [|done]. split; [unfold running; cbn; lia|by intros j Hj%not_elem_of_nil|done]. }
  split_and!; [rewrite <- Hcap; apply Hi|by apply schedule_length|apply gather_progress; lia|].
  intros Hp n coros Hn Hnd. unfold _gather_agent_results.
  assert (∀ j, j ∈ jobs g' → j_state j = Finished) as Hfin.
  { clear -Hp. unfold pending in Hp. induction (jobs g') as [|x l IH]; [by intros j Hj%not_elem_of_nil|].
    cbn in Hp. intros j [->|Hj]%elem_of_cons; [|apply IH; [lia|done]]. unfold job_cost in Hp. destruct (j_state x); [lia|lia|done]. }
  assert (forallb (in_state Finished) (group_jobs n g') = true) as ->.
  { apply forallb_forall. intros j [_ Hj]%list_elem_of_In%list_elem_of_filter. apply bool_decide_eq_true. by apply Hfin. }
  f_equal. rewrite <- (gi_calls g' Hi n coros Hn), map_map.
  rewrite (to_dict_nodup _); [done|]. rewrite <- (gi_calls g' Hi n coros Hn) in Hnd. clear -Hnd.
  rewrite <- list_fmap_compose in Hnd. rewrite <- list_fmap_compose. exact Hnd.
Qed.

(** ** Assembling a solution *)
Section assemble.
Context (repr : json → string).

(** What iterating over a value yields. *)
Definition iter_json (j : json) : result pyexn (list json) :=
  match j with
  | JArr l => Ok l
  | JObj d => Ok (map JStr d.*1)
  | JStr s => Ok (map (λ a, JStr (String a "")) (String.list_ascii_of_string s))
  | _ => Err TypeError
  end.

Definition as_complexity (j : json) : result pyexn () :=
  match j with
  | JStr s => if bool_decide (s ∈ ["trivial"; "simple"; "moderate"; "complex"; "extreme"]) then Ok () else Err ValueError
  | _ => Err ValueError
  end.

(** [ArchitecturePattern] from a dictionary; other keys are ignored. *)
Definition pattern_of (j : json) : result pyexn ArchitecturePattern :=
  match j with
  | JObj d =>
      n ← match dget "name" d with Some x => as_str x | None => Err ValueError end;
      desc ← match dget "description" d with Some x => as_str x | None => Err ValueError end;
      p ← as_strs (default (JArr []) (dget "pros" d));
      c ← as_strs (default (JArr []) (dget "cons" d));
      _ ← as_strs (default (JArr []) (dget "use_cases" d));
      _ ← as_complexity (default (JStr "moderate") (dget "complexity" d));
      Ok (mkPattern n desc p c)
  | _ => Err TypeError
  end.

Definition block_of (j : json) : result pyexn (list CodeBlock) :=
  match j with
  | JObj d =>
      match dget "filename" d with
      | None => Ok []
      | Some f =>
          f ← as_str f;
          l ← as_str (default (JStr "python") (dget "language" d));
          c ← as_str (default (JStr "") (dget "content" d));
          desc ← as_str (default (JStr "") (dget "description" d));
          Ok [mkBlock f l c desc]
      end
  | _ => Ok []
  end.

Definition note (tag dflt head : string) (j : json) : result pyexn string :=
  match j with
  | JObj d =>
      let get k x := py_str repr (default (JStr x) (dget k d)) in
      Ok ("[" +:+ get tag dflt +:+ "] " +:+ get head "N/A" +:+ ": " +:+ get "description" "")
  | _ => Err AttributeError
  end.

Definition notes (key tag dflt head : string) (d : obj) : result pyexn (list string) :=
  match d with
  | [] => Ok []
  | _ => l ← iter_json (default (JArr []) (dget key d)); mapM_result (note tag dflt head) l
  end.

Definition len_json (j : json) : result pyexn nat :=
  match j with JArr l => Ok (length l) | JObj d => Ok (length d) | JStr s => Ok (String.length s) | _ => Err TypeError end.

Definition _build_summary (t : Task) (arch : obj) (st : TechStack) : result pyexn string :=
  pat ← match dget "pattern" arch with
        | Some (JObj p) => Ok ["Architecture: " +:+ py_str repr (default (JStr "N/A") (dget "name" p))]
        | Some _ => Err AttributeError
        | None => Ok []
        end;
  comps ← match dget "components" arch with
          | Some c => n ← len_json c; Ok ["Components: " +:+ pretty (N.of_nat n)]
          | None => Ok []
          end;
  Ok (join " | " (["Solution for: " +:+ title t; "Stack: " +:+ stack_summary st] ++ pat ++ comps
                  ++ ["Complexity: " +:+ complexity_value (complexity t)])).

(** The context the agents get. *)
Definition contribution_context (arch optimizations security : obj) : obj :=
  [("architecture", JObj arch); ("optimizations", JObj optimizations); ("security", JObj security)].

Definition layers (contributions : list (string * obj)) : obj :=
  map (λ p, (p.1, default (JStr "unknown") (dget "layer" p.2))) (filter (λ p, dget "error" p.2 = None) contributions).

(** [gather]: the fan-out; the second component is the deployment section. *)
Definition assemble_solution (o : AgentOrchestrator) (gather : list (string * body) → list (string * obj)) (t : Task)
    (st : TechStack) (arch : obj) (blocks : list json) (optimizations security : obj) : result pyexn (Solution * json) :=
  summ ← _build_summary t arch st;
  pat ← match dget "pattern" arch with Some p => x ← pattern_of p; Ok (Some x) | None => Ok None end;
  cbs ← mapM_result block_of blocks;
  perf ← notes "strategies" "category" "general" "strategy" optimizations;
  sec ← notes "checks" "severity" "info" "check" security;
  let s := mkSolution (CoreTypes.id t) ("Solution: " +:+ title t) summ pat st (concat cbs) perf sec DRAFT (1 # 2) [] in
  let contributions := gather (get_contributions t s (contribution_context arch optimizations security) o) in
  Ok (with_metadata s "agent_contributions" (JObj (layers contributions)), default (JObj []) (dget "deployment" arch)).

(** The solution names the layer of every agent whose contribution succeeded. *)
Lemma assembled_layers o t st arch blocks opts sec s d :
  assemble_solution o (map (λ c, (c.1, captured c.2))) t st arch blocks opts sec = Ok (s, d) →
  ∃ s0, dget "agent_contributions" (metadata s)
        = Some (JObj (layers (map (λ c, (c.1, captured c.2)) (get_contributions t s0 (contribution_context arch opts sec) o)))).
Proof.
  unfold assemble_solution. rewrite result_bind_ok. intros (summ & _ & H).
  do 4 (apply result_bind_ok in H as (? & _ & H)). injection H as <- _.
  eexists. unfold with_metadata. cbn [metadata]. by rewrite dget_dset_eq.
Qed.
End assemble.

(** ** Concrete runs *)
Definition demo_calls : list gact :=
  [Gather [("a", Ok [("x", JNull)]); ("b", Err "boom")]; Gather [("a", Ok [])]].

Lemma agents_fan_out_witness :
  ∃ g g', exec gather_step (mkGathers 1 [] []) demo_calls = Some g
    ∧ exec gather_step g [Start; Finish 0; Start; Finish 1; Start; Finish 2] = Some g'
    ∧ _gather_agent_results 0 g' = Some [("a", [("x", JNull)]); ("b", [("error", JStr "boom")])].
Proof.
  destruct (exec gather_step (mkGathers 1 [] []) demo_calls) as [g|] eqn:E; [|vm_compute in E; discriminate E].
  destruct (exec gather_step g [Start; Finish 0; Start; Finish 1; Start; Finish 2]) as [g'|] eqn:E';
    [|vm_compute in E; injection E as <-; vm_compute in E'; discriminate E'].
  exists g, g'. split; [reflexivity|]. split; [exact E'|].
  destruct (agents_fan_out 1 demo_calls g [Start; Finish 0; Start; Finish 1; Start; Finish 2] g') as (_ & _ & _ & H).
  - lia.
  - exact E.
  - repeat constructor.
  - exact E'.
  - vm_compute in E. injection E as <-. vm_compute in E'. injection E' as <-.
    apply (H eq_refl 0 [("a", Ok [("x", JNull)]); ("b", Err "boom")] eq_refl).
    repeat constructor; set_solver.
Defined.

(** The context [assemble_solution] builds has no components, so the architect counts
    none, however many the architecture has. *)
Example architect_counts_no_components t s arch :
  contribute ArchitectAgent t s (contribution_context [("components", arch)] [] [])
  = Ok [("layer", JStr "architecture"); ("patterns_recommended", strs ["modular"; "clean-separation"]); ("component_count", num 0)].
Proof. reflexivity. Qed.
