(* ===== verification/Autonomy.v ===== *)
(** * From incident to pull request ([noema/autonomy])

    [incidents.py]: alerts of Sentry and of webhooks become incidents, tasks and branch
    names; [github.py]: the client that writes a fix to a branch and opens, approves and
    merges its pull request; [fixer.py]: the loop that asks the engine for a fix,
    validates it, submits it and, if enabled, runs the merge gate and merges.

    GitHub is a parameter: a function from the requests so far to the next response, so
    that every answer is possible.  A computation [gh] carries the list of requests sent;
    the theorems are about that list.  The engine's [think] and [validate_solution] and
    the gate runner are parameters; the default runner is the model of [Gate].  Random
    identifiers and the clock are arguments; the attribution of costs, whose failures are
    caught, is left out. *)
From Stdlib Require Import ZArith QArith Lia Bool Ascii String.
From stdpp Require Import base option numbers sets pretty strings list.
From S2P Require Import Prelude Symbolic Prompts SemanticCache OntologyGraph CoreTypes Judge Gate.
Local Open Scope string_scope.
Local Open Scope list_scope.
Local Open Scope nat_scope.

(** ** Incidents *)
Record Incident := mkIncident {
  inc_id : string;
  inc_title : string;
  inc_description : string;
  stack_trace : string;
  inc_source : string;
  inc_tags : list string;
  occurred_at : Q;
  raw : json;
}.

Definition obj := list (string * json).

Section incidents.
Context (repr : json → string) (loads : string → option json) (to_float : json → result pyexn Q).
Context (new_id : string) (now : Q).

Abbreviation str := (py_str repr).

(** [j.get(k, d)] *)
Definition jget (j : json) (k : string) (d : json) : result pyexn json :=
  match j with JObj o => Ok (default d (dget k o)) | _ => Err AttributeError end.

(** [a or b] *)
Definition or_else (a b : json) : json := if truthy a then a else b.

Definition first_char (s : string) : list json := map (λ a, JStr (String a "")) (String.list_ascii_of_string s).

(** Iterating over a value. *)
Definition items (j : json) : result pyexn (list json) :=
  match j with
  | JArr l => Ok l
  | JObj o => Ok (map JStr o.*1)
  | JStr s => Ok (first_char s)
  | _ => Err TypeError
  end.

(** [j[0]] *)
Definition head_item (j : json) : result pyexn json :=
  match j with
  | JArr (x :: _) => Ok x
  | JArr [] => Err IndexError
  | JStr (String a _) => Ok (JStr (String a ""))
  | JStr EmptyString => Err IndexError
  | JObj _ => Err KeyError
  | _ => Err TypeError
  end.

(** The first lines of the three [_sentry] functions. *)
Definition sentry_event (payload : obj) : json :=
  match or_else (default JNull (dget "event" payload)) (JObj payload) with
  | JStr s => default (JObj []) (loads s)
  | e => e
  end.

Definition _sentry_title (payload : obj) : result pyexn string :=
  let event := sentry_event payload in
  t ← jget event "title" JNull;
  if truthy t then Ok (prefix 200 (str t))
  else
    m ← jget event "message" JNull;
    if truthy m then Ok (prefix 200 (str m))
    else
      exc ← jget event "exception" (JObj []);
      values ← jget exc "values" (JArr [JObj []]);
      first ← head_item values;
      ty ← jget first "type" (JStr "");
      Ok (prefix 200 (if truthy ty then str ty else "Production incident")).

Definition frame_line (frame : json) : result pyexn string :=
  f ← jget frame "filename" (JStr "");
  fn ← jget frame "function" (JStr "");
  line ← jget frame "lineno" (JStr "");
  Ok ("  File " +:+ repr (JStr (str f)) +:+ ", line " +:+ str line +:+ ", in " +:+ str fn).

(** [l[:20]] of a list or a string. *)
Definition first_20 (j : json) : result pyexn (list json) :=
  match j with JArr l => Ok (take 20 l) | JStr s => Ok (take 20 (first_char s)) | _ => Err TypeError end.

Definition entry_lines (entry : json) : result pyexn (list string) :=
  value ← jget entry "value" (JStr "");
  st ← jget entry "stacktrace" (JStr "");
  tree ← jget entry "stacktrace" (JObj []);
  frames ← jget tree "frames" (JArr []);
  fs ← first_20 frames;
  lines ← mapM_result frame_line fs;
  Ok ([str value] ++ lines ++ if nonempty (str st) then [str st] else []).

Definition _sentry_stack (payload : obj) : result pyexn string :=
  let event := sentry_event payload in
  exc ← jget event "exception" (JObj []);
  values ← jget exc "values" (JArr []);
  l ← items values;
  frames ← mapM_result entry_lines l;
  match concat frames with
  | [] => s ← jget event "stacktrace" (JStr ""); Ok (str s)
  | fs => Ok (join nl fs)
  end.

Definition context_part (event : json) (k : string) : result pyexn (list string) :=
  v ← jget event k JNull; Ok (if truthy v then [k +:+ "=" +:+ str v] else []).

Definition _sentry_context (payload : obj) : result pyexn string :=
  ps ← mapM_result (context_part (sentry_event payload)) ["environment"; "release"; "server_name"; "culprit"];
  Ok (join "; " (concat ps)).

(** [str(t[1]) for t in tags if isinstance(t, (list, tuple)) and len(t) == 2] *)
Definition _sentry_tags (body : obj) : list string :=
  match dget "event" body with
  | Some (JObj e) =>
      match default (JArr []) (dget "tags" e) with
      | JArr tags => omap (λ t, match t with JArr [_; x] => Some (str x) | _ => None end) tags
      | _ => []
      end
  | _ => []
  end.

Definition tags_of (j : json) : result pyexn (list string) := l ← items j; Ok (take 20 (map str l)).

(** A string field of a dictionary, [get] with a default. *)
Definition sget (o : obj) (k d : string) : string := str (default (JStr d) (dget k o)).
Definition or_id (o : obj) : string := str (or_else (default JNull (dget "id" o)) (JStr new_id)).

Definition plain_incident (o : obj) (body : obj) (title source : string) : result pyexn Incident :=
  tags ← tags_of (default (JArr []) (dget "tags" o));
  at_ ← match dget "occurred_at" o with Some j => to_float j | None => Ok now end;
  Ok (mkIncident (or_id o) title (prefix 2000 (sget o "description" "")) (sget o "stack_trace" "") source tags at_ (JObj body)).

Definition parse_incident (payload : obj) : result pyexn Incident :=
  let body := match dget "payload" payload with Some (JObj b) => b | _ => payload end in
  let event := default JNull (dget "event" body) in
  let source := str (default (JStr (if truthy event then "sentry" else "webhook")) (dget "source" body)) in
  match dget "incident" body with
  | Some (JObj (x :: inc')) =>
      let inc := x :: inc' in
      plain_incident inc body (prefix 200 (str (or_else (default JNull (dget "title" inc)) (JStr "Incident")))) source
  | _ =>
      if truthy event || String.eqb source "sentry" then
        let event_obj := match event with JObj e => e | _ => body end in
        let id0 := or_else (default JNull (dget "id" event_obj)) (default JNull (dget "id" body)) in
        stack ← _sentry_stack body;
        ctx ← _sentry_context body;
        formatted ← jget (default (JObj []) (dget "logentry" event_obj)) "formatted" (JStr "");
        let d0 := str (or_else formatted (or_else (default (JStr "") (dget "message" event_obj)) (JStr ""))) in
        let d := if nonempty ctx then (if nonempty d0 then d0 +:+ " (" +:+ ctx +:+ ")" else ctx) else d0 in
        t ← _sentry_title body;
        Ok (mkIncident (prefix 32 (str (or_else id0 (JStr new_id)))) t (prefix 2000 d) stack "sentry" (take 20 (_sentry_tags body)) now
              (JObj body))
      else
        plain_incident body body
          (prefix 200 (str (or_else (default JNull (dget "title" body)) (or_else (default JNull (dget "message" body)) (JStr "Incident")))))
          source
  end.
End incidents.

(** The fields of the task that matter to the engine. *)
Record fix_task := mkFixTask { ft_title : string; ft_description : string; ft_tags : list string }.

Definition incident_to_task (i : Incident) : fix_task :=
  let d := if nonempty (inc_description i) then inc_description i
           else "Reproduce and fix the incident: " +:+ inc_title i in
  let d := if nonempty (stack_trace i) then d +:+ nl +:+ nl +:+ "Stack trace:" +:+ nl +:+ prefix 3000 (stack_trace i) else d in
  let add tags t := if bool_decide (t ∈ tags) then tags else tags ++ [t] in
  mkFixTask ("Fix: " +:+ inc_title i) d (take 20 (add (add (inc_tags i) "bug") "incident")).

(** [re.sub] of runs outside [[a-z0-9]] by "-". *)
Definition slug_char (a : ascii) : bool :=
  let n := nat_of_ascii a in ((97 <=? n) && (n <=? 122) || (48 <=? n) && (n <=? 57))%nat.

Fixpoint slug_runs (inside : bool) (s : string) : string :=
  match s with
  | EmptyString => ""
  | String a t =>
      if slug_char a then String a (slug_runs false t)
      else if inside then slug_runs true t else String "-" (slug_runs true t)
  end.

Fixpoint lstrip_dash (s : string) : string :=
  match s with String a t => if Ascii.eqb a "-" then lstrip_dash t else s | EmptyString => "" end.
Fixpoint rstrip_dash (s : string) : string :=
  match s with
  | EmptyString => ""
  | String a t => match rstrip_dash t with EmptyString => if Ascii.eqb a "-" then "" else String a "" | t => String a t end
  end.

Definition incident_slug (title : string) : string :=
  let s := prefix 40 (rstrip_dash (lstrip_dash (slug_runs false (lower title)))) in
  if nonempty s then s else "incident".

Definition incident_branch_name (i : Incident) : string :=
  "noema-fix/" +:+ prefix 8 (inc_id i) +:+ "-" +:+ incident_slug (inc_title i).

(** ** GitHub *)
Inductive request :=
| GetRef (branch : string)
| CreateRef (branch sha : string)
| GetContents (branch path : string)
| PutFile (branch path content : string) (sha : option string)
| OpenPR (branch title body : string)
| Approve (pr : Z)
| Merge (pr : Z).

(** Status code and body of a response; [Err] is a failure of the transport. *)
Definition response := result string (Z * json).

Section github.
Context (server : list request → request → response) (repr : json → string).
Context (base_branch : string).

(** The requests sent so far, the latest last; [Err] carries [str(e)]. *)
Definition gh (A : Type) : Type := list request → list request * result string A.

#[global] Instance gh_ret : MRet gh := λ A a tr, (tr, Ok a).
#[global] Instance gh_bind : MBind gh := λ A B f m tr,
  match m tr with (tr, Ok a) => f a tr | (tr, Err e) => (tr, Err e) end.

Definition send (r : request) : gh (Z * json) := λ tr, (tr ++ [r], server tr r).
Definition throw {A} (e : string) : gh A := λ tr, (tr, Err e).

Definition _raise_for_status (resp : Z * json) (what : string) : gh () :=
  if (resp.1 <? 300)%Z then mret ()
  else throw ("GitHub " +:+ what +:+ " failed: " +:+ pretty resp.1).

Definition field (j : json) (k : string) : gh json :=
  match j with
  | JObj o => match dget k o with Some x => mret x | None => throw ("'" +:+ k +:+ "'") end
  | _ => throw "not a dictionary"
  end.

(** [data.get(k, d)] *)
Definition get_field (j : json) (k : string) (d : json) : gh json :=
  match j with JObj o => mret (default d (dget k o)) | _ => throw "no attribute 'get'" end.

Definition to_int (j : json) : gh Z :=
  match j with JNum q => mret (Qtrunc q) | JBool b => mret (if b then 1%Z else 0%Z) | _ => throw "invalid literal for int()" end.

Definition _base_branch_sha : gh string :=
  resp ← send (GetRef base_branch);
  _raise_for_status resp ("resolve base branch " +:+ base_branch);;
  o ← field resp.2 "object";
  sha ← field o "sha";
  mret (py_str repr sha).

Definition create_branch (branch : string) : gh string :=
  base_sha ← _base_branch_sha;
  resp ← send (CreateRef branch base_sha);
  if (resp.1 =? 422)%Z then mret base_sha
  else _raise_for_status resp ("create branch " +:+ branch);; mret base_sha.

Definition _file_sha (branch path : string) : gh (option string) :=
  resp ← send (GetContents branch path);
  if (resp.1 =? 404)%Z then mret None
  else
    _raise_for_status resp ("stat " +:+ path);;
    match resp.2 with
    | JArr _ => mret None
    | d => x ← get_field d "sha" JNull; mret (Some (py_str repr (or_else x (JStr ""))))
    end.

Definition write_file (branch path content : string) (create_branch_if_missing : bool) : gh () :=
  (if create_branch_if_missing then create_branch branch else mret "");;
  sha ← _file_sha branch path;
  resp ← send (PutFile branch path content (match sha with Some s => if nonempty s then Some s else None | None => None end));
  _raise_for_status resp ("write " +:+ path).

Definition open_pr (branch title body : string) : gh (Z * string) :=
  resp ← send (OpenPR branch title body);
  _raise_for_status resp ("open PR for " +:+ branch);;
  n ← field resp.2 "number";
  n ← to_int n;
  u ← field resp.2 "html_url";
  mret (n, py_str repr u).

Definition approve_pr (pr : Z) : gh () :=
  resp ← send (Approve pr);
  _raise_for_status resp ("approve PR #" +:+ pretty pr);;
  i ← get_field resp.2 "id" (JNum 0);
  to_int i;;
  mret ().

(** Whether it was merged, and the commit. *)
Definition merge_pr (pr : Z) : gh (bool * string) :=
  resp ← send (Merge pr);
  _raise_for_status resp ("merge PR #" +:+ pretty pr);;
  m ← get_field resp.2 "merged" (JBool true);
  s ← get_field resp.2 "sha" (JStr "");
  mret (truthy m, py_str repr s).

Fixpoint write_files (branch : string) (files : list (string * string)) : gh () :=
  match files with
  | [] => mret ()
  | (path, content) :: files => write_file branch path content false;; write_files branch files
  end.

Record pull := mkPull { pr_branch : string; pr_number : Z; pr_url : string; pr_files : nat }.

(** [branch] is never empty here: the fixer always names one. *)
Definition submit_fix_pr (files : list (string * string)) (title body branch : string) : gh pull :=
  create_branch branch;;
  write_files branch files;;
  pr ← open_pr branch title body;
  mret (mkPull branch pr.1 pr.2 (length files)).

(** ** The fixer *)

(** [s.lstrip("/")] *)
Fixpoint lstrip_slash (s : string) : string :=
  match s with String a t => if Ascii.eqb a "/" then lstrip_slash t else s | EmptyString => "" end.

Definition underscore (a : ascii) : ascii := if Ascii.eqb a " " then "_"%char else a.

Definition _block_path (b : CodeBlock) : string :=
  let f := lstrip_slash (strip (filename b)) in
  if nonempty f then f
  else
    let l := lower (if nonempty (language b) then language b else "py") in
    let ext := if String.eqb l "python" || String.eqb l "py" then "py" else "txt" in
    map_string underscore ("fix_" +:+ (if nonempty (cb_description b) then cb_description b else "file") +:+ "_") +:+ "." +:+ ext.

Fixpoint solution_files_from (seen : list string) (l : list CodeBlock) : list (string * string) :=
  match l with
  | [] => []
  | b :: l =>
      let p := _block_path b in
      if bool_decide (p ∈ seen) then solution_files_from seen l else (p, content b) :: solution_files_from (p :: seen) l
  end.
Definition _solution_files (s : Solution) : list (string * string) := solution_files_from [] (code_blocks s).

Context (percent : Q → string).

Definition _pr_body (i : Incident) (s : Solution) : string :=
  join nl
    (["Automated fix for incident **" +:+ inc_id i +:+ "**: " +:+ inc_title i; ""; "- Incident source: " +:+ inc_source i;
      "- Solution summary: " +:+ prefix 500 (CoreTypes.summary s);
      "- Quality: " +:+ quality_value (quality s) +:+ " | Confidence: " +:+ percent (confidence s)]
     ++ (if nonempty (stack_trace i)
         then [""; "### Reproducing stack trace"; "```"; prefix 1500 (stack_trace i); "```"] else [])
     ++ [""; "_Generated by Noema autonomy loop. Validated in the sandbox before opening._"]).

Context (think : fix_task → result string Solution) (validate : Solution → bool → result string (bool * string)).
Context (gate_runner : list (string * string) → result string (bool * list string)).      (* passed, blocked_by *)
Context (auto_approve auto_merge : bool).

Inductive fix_status := FixGenerationFailed | ValidationFailed | NoChanges | PrFailed | PrCreated.

Record fix_result := mkFix {
  status : fix_status;
  fix_pr : option pull;
  fix_error : string;
  merge_gate_passed : option bool;
  merge_gate_blocked_by : list string;
  merge_gate_error : option string;
  merge_gate_approved : bool;
  merged : option (bool * string);
}.

Definition failed (st : fix_status) (e : string) : fix_result := mkFix st None e None [] None false None.

(** [try: m except Exception as e: h e] *)
Definition catch {A} (m : gh A) (h : string → gh A) : gh A := λ tr,
  match m tr with (tr, Err e) => h e tr | r => r end.

(** What approving and merging add to the result. *)
Record applied := mkApplied { ap_approved : bool; ap_merged : option (bool * string); ap_error : option string }.

Definition auto_apply (pr : Z) : gh applied :=
  approved ← catch (approve_pr pr;; mret (None : option string)) (λ e, mret (Some e));
  match approved with
  | Some e => mret (mkApplied false None (Some e))
  | None =>
      if auto_merge then
        catch (m ← merge_pr pr; mret (mkApplied true (Some m) None)) (λ e, mret (mkApplied true None (Some e)))
      else mret (mkApplied true None None)
  end.

Definition _run_merge_gate (files : list (string * string)) (p : pull) : gh fix_result :=
  match gate_runner files with
  | Err e => mret (mkFix PrCreated (Some p) "" None [] (Some e) false None)
  | Ok (false, blocks) => mret (mkFix PrCreated (Some p) "" (Some false) blocks None false None)
  | Ok (true, blocks) =>
      a ← auto_apply (pr_number p);
      mret (mkFix PrCreated (Some p) "" (Some true) blocks (ap_error a) (ap_approved a) (ap_merged a))
  end.

Definition handle_incident (i : Incident) : gh fix_result :=
  match think (incident_to_task i) with
  | Err e => mret (failed FixGenerationFailed e)
  | Ok s =>
      match validate s true with
      | Err e => mret (failed ValidationFailed e)
      | Ok (false, summary) => mret (failed ValidationFailed summary)
      | Ok (true, _) =>
          match code_blocks s with
          | [] => mret (failed NoChanges "")
          | _ =>
              let files := _solution_files s in
              pr ← catch (p ← submit_fix_pr files ("fix: " +:+ inc_title i) (_pr_body i s) (incident_branch_name i); mret (Ok p))
                     (λ e, mret (Err e));
              match (pr : result string pull) with
              | Err e => mret (failed PrFailed e)
              | Ok p =>
                  if auto_approve then _run_merge_gate files p
                  else mret (mkFix PrCreated (Some p) "" None [] None false None)
              end
          end
      end
  end.

(** ** Which requests are sent *)
Definition adds {A} (S : request → Prop) (m : gh A) : Prop := ∀ tr, ∃ new, (m tr).1 = tr ++ new ∧ Forall S new.

Lemma adds_ret {A} S (a : A) : adds S (mret a).
Proof. intros tr. exists []. by rewrite app_nil_r. Qed.

Lemma adds_throw {A} S e : adds S (throw e : gh A).
Proof. intros tr. exists []. by rewrite app_nil_r. Qed.

Lemma adds_send (S : request → Prop) r : S r → adds S (send r).
Proof. intros Hr tr. exists [r]. by repeat constructor. Qed.

Lemma adds_bind {A B} S (m : gh A) (f : A → gh B) : adds S m → (∀ a, adds S (f a)) → adds S (m ≫= f).
Proof.
  intros Hm Hf tr. destruct (Hm tr) as (n1 & E1 & H1). unfold mbind, gh_bind. destruct (m tr) as [tr1 [a|e]]; cbn [fst] in E1; subst tr1.
  - destruct (Hf a (tr ++ n1)) as (n2 & E2 & H2). exists (n1 ++ n2). rewrite E2, app_assoc. split; [done|by apply Forall_app].
  - by exists n1.
Qed.

Lemma adds_catch {A} S (m : gh A) h : adds S m → (∀ e, adds S (h e)) → adds S (catch m h).
Proof.
  intros Hm Hh tr. destruct (Hm tr) as (n1 & E1 & H1). unfold catch. destruct (m tr) as [tr1 [a|e]]; cbn [fst] in E1; subst tr1.
  - by exists n1.
  - destruct (Hh e (tr ++ n1)) as (n2 & E2 & H2). exists (n1 ++ n2). rewrite E2, app_assoc. split; [done|by apply Forall_app].
Qed.

Lemma adds_if {A} S (b : bool) (m m' : gh A) : adds S m → adds S m' → adds S (if b then m else m').
Proof. by destruct b. Qed.

Create HintDb gh.
#[local] Hint Resolve adds_ret adds_throw adds_bind adds_catch adds_if : gh.

Lemma adds_status S r w : adds S (_raise_for_status r w).
Proof. unfold _raise_for_status. auto with gh. Qed.
Lemma adds_field S j k : adds S (field j k).
Proof. unfold field. destruct j as [| | | | |o]; auto with gh. destruct (dget k o); auto with gh. Qed.
Lemma adds_get_field S j k d : adds S (get_field j k d).
Proof. unfold get_field. destruct j; auto with gh. Qed.
Lemma adds_to_int S j : adds S (to_int j).
Proof. unfold to_int. destruct j; auto with gh. Qed.
#[local] Hint Resolve adds_status adds_field adds_get_field adds_to_int : gh.

(** Requests that neither approve nor merge. *)
Definition harmless (r : request) : Prop := match r with Approve _ | Merge _ => False | _ => True end.

Lemma adds_branch b : adds harmless (create_branch b).
Proof.
  unfold create_branch, _base_branch_sha.
  repeat first [apply adds_bind; intros| apply adds_send; done| apply adds_if|solve [auto with gh]].
Qed.

Lemma adds_file b p : adds harmless (_file_sha b p).
Proof.
  unfold _file_sha. apply adds_bind; [by apply adds_send|]. intros [c j]. apply adds_if; [auto with gh|].
  apply adds_bind; [auto with gh|]. intros _. cbn [snd].
  destruct j; first [apply adds_ret|apply adds_bind; [apply adds_get_field|intros; apply adds_ret]].
Qed.

Lemma gh_bind_ok {A B} (m : gh A) (f : A → gh B) tr tr2 b :
  (m ≫= f) tr = (tr2, Ok b) → ∃ tr1 a, m tr = (tr1, Ok a) ∧ f a tr1 = (tr2, Ok b).
Proof. unfold mbind, gh_bind. destruct (m tr) as [tr1 [a|e]]; [|done]. intros H. by exists tr1, a. Qed.

(** The trace only grows. *)
Lemma adds_grows {A} S (m : gh A) tr tr' a : adds S m → m tr = (tr', a) → ∃ new, tr' = tr ++ new ∧ Forall S new.
Proof. intros Hm E. destruct (Hm tr) as (new & En & Hs). rewrite E in En. by exists new. Qed.

Lemma adds_write b p c : adds harmless (write_file b p c false).
Proof.
  unfold write_file. apply adds_bind; [auto with gh|]. intros _. apply adds_bind; [apply adds_file|]. intros sha.
  apply adds_bind; [by apply adds_send|]. auto with gh.
Qed.

Lemma adds_writes b files : adds harmless (write_files b files).
Proof.
  induction files as [|[p c] files IH]; cbn [write_files]; [apply adds_ret|]. apply adds_bind; [apply adds_write|done].
Qed.

(** The request was sent, after the requests [before], and GitHub answered it with [body]
    and a status below 300. *)
Definition accepted (before : list request) (r : request) (body : json) : Prop :=
  ∃ st, server before r = Ok (st, body) ∧ (st < 300)%Z.
Definition taken (tr : list request) (r : request) (body : json) : Prop :=
  ∃ before after, tr = before ++ r :: after ∧ accepted before r body.

Lemma taken_grow tr new r body : taken tr r body → taken (tr ++ new) r body.
Proof. intros (a & b & -> & H). exists a, (b ++ new). by rewrite <- app_assoc. Qed.

Lemma status_ok resp what tr tr' : _raise_for_status resp what tr = (tr', Ok ()) → tr' = tr ∧ (resp.1 < 300)%Z.
Proof. unfold _raise_for_status. destruct (Z.ltb_spec resp.1 300); [|done]. by intros [= <-]. Qed.

(** A request followed by the test of its status. *)
Lemma send_checked {A} r what (f : Z * json → gh A) tr tr' a :
  (resp ← send r; _raise_for_status resp what;; f resp) tr = (tr', Ok a) →
  ∃ resp, accepted tr r resp.2 ∧ f resp (tr ++ [r]) = (tr', Ok a).
Proof.
  intros (tr1 & resp & [= <- E] & H)%gh_bind_ok. apply gh_bind_ok in H as (tr2 & [] & [-> Hs]%status_ok & H).
  exists resp. split; [|done]. exists resp.1. by rewrite E, <- surjective_pairing.
Qed.

(** A write that returns has put the file. *)
Lemma write_file_puts b p c tr tr' : write_file b p c false tr = (tr', Ok ()) → ∃ sha body, taken tr' (PutFile b p c sha) body.
Proof.
  unfold write_file. intros (tr1 & x & [= <- _] & H)%gh_bind_ok.
  apply gh_bind_ok in H as (tr2 & sha & _ & H). apply gh_bind_ok in H as (tr3 & resp & E & [-> Hs]%status_ok).
  injection E as <- E. eexists _, resp.2, tr2, []. split; [done|]. exists resp.1. by rewrite E, <- surjective_pairing.
Qed.

Lemma write_files_puts b files tr tr' :
  write_files b files tr = (tr', Ok ()) → ∀ p c, (p, c) ∈ files → ∃ sha body, taken tr' (PutFile b p c sha) body.
Proof.
  revert tr. induction files as [|[q d] files IH]; intros tr H p c Hin; [by apply not_elem_of_nil in Hin|].
  cbn [write_files] in H. apply gh_bind_ok in H as (tr1 & [] & E & H).
  apply elem_of_cons in Hin as [[= -> ->]|Hin]; [|by eapply IH].
  apply write_file_puts in E as (sha & body & Hs). exists sha, body.
  apply (adds_grows harmless) in H as (new & -> & _); [|apply adds_writes]. by apply taken_grow.
Qed.

Lemma adds_submit files t body b : adds harmless (submit_fix_pr files t body b).
Proof.
  unfold submit_fix_pr, open_pr. apply adds_bind; [apply adds_branch|]. intros _. apply adds_bind; [apply adds_writes|]. intros _.
  repeat first [apply adds_bind; intros| apply adds_send; done|solve [auto with gh]].
Qed.

(** The answer [j] to the request that opened a pull request gives it the number [n]. *)
Definition numbered (j : json) (n : Z) : Prop :=
  ∃ o x, j = JObj o ∧ dget "number" o = Some x ∧ (to_int x []).2 = Ok n.

Lemma submit_puts files t body b tr tr' p :
  submit_fix_pr files t body b tr = (tr', Ok p) →
  (∀ q c, (q, c) ∈ files → ∃ sha body, taken tr' (PutFile b q c sha) body)
  ∧ ∃ j, taken tr' (OpenPR b t body) j ∧ numbered j (pr_number p).
Proof.
  unfold submit_fix_pr. intros (tr1 & x & _ & H)%gh_bind_ok. apply gh_bind_ok in H as (tr2 & [] & E & H).
  apply gh_bind_ok in H as (tr3 & pr & Eo & [= -> <-]). unfold open_pr in Eo.
  apply send_checked in Eo as (resp & Ha & H). apply gh_bind_ok in H as (tr4 & x1 & Ef & H).
  apply gh_bind_ok in H as (tr5 & n & En & H). apply gh_bind_ok in H as (tr6 & u & Eu & [= -> <-]).
  unfold field in Ef, Eu. destruct resp.2 as [| | | | |o] eqn:Er; try done.
  destruct (dget "number" o) as [y|] eqn:Ey; [|done]. injection Ef as <- ->.
  destruct (dget "html_url" o); [|done]. injection Eu as -> _.
  assert (tr' = tr2 ++ [OpenPR b t body] ∧ (to_int x1 []).2 = Ok n) as [-> Hn].
  { unfold to_int in *. destruct x1; try done; injection En as -> <-; done. }
  split.
  - intros q c Hin. destruct (write_files_puts _ _ _ _ E q c Hin) as (sha & bd & Hs). exists sha, bd. by apply taken_grow.
  - exists (JObj o). split; [by exists tr2, []|]. by exists o, x1.
Qed.

(** Approving and merging send one or two requests. *)
Lemma approve_trace pr tr : (approve_pr pr tr).1 = tr ++ [Approve pr].
Proof.
  unfold approve_pr. unfold mbind at 1, gh_bind at 1, send. destruct (server tr (Approve pr)) as [resp|e]; [|done].
  match goal with |- (?m (tr ++ [Approve pr])).1 = _ => assert (adds (λ _, False) m) as Hm by auto with gh end.
  destruct (Hm (tr ++ [Approve pr])) as (new & -> & Hn). destruct new as [|x new]; [by rewrite app_nil_r|].
  apply Forall_cons in Hn as [[] _].
Qed.

Lemma merge_trace pr tr : (merge_pr pr tr).1 = tr ++ [Merge pr].
Proof.
  unfold merge_pr. unfold mbind at 1, gh_bind at 1, send. destruct (server tr (Merge pr)) as [resp|e]; [|done].
  match goal with |- (?m (tr ++ [Merge pr])).1 = _ => assert (adds (λ _, False) m) as Hm by auto 8 with gh end.
  destruct (Hm (tr ++ [Merge pr])) as (new & -> & Hn). destruct new as [|x new]; [by rewrite app_nil_r|].
  apply Forall_cons in Hn as [[] _].
Qed.

Lemma approve_accepted pr tr : (approve_pr pr tr).2 = Ok () → ∃ body, accepted tr (Approve pr) body.
Proof.
  intros H. destruct (approve_pr pr tr) as [tr' r] eqn:E. cbn in H. subst r.
  apply send_checked in E as (resp & Ha & _). by exists resp.2.
Qed.

Lemma auto_apply_trace pr tr :
  ∃ a, (auto_apply pr tr).2 = Ok a
    ∧ ((auto_apply pr tr).1 = tr ++ [Approve pr] ∧ ap_merged a = None
       ∨ auto_merge = true ∧ (auto_apply pr tr).1 = tr ++ [Approve pr; Merge pr] ∧ ap_approved a = true
         ∧ ∃ body, accepted tr (Approve pr) body).
Proof.
  unfold auto_apply, catch, mbind, gh_bind. pose proof (approve_trace pr tr) as Ha. pose proof (approve_accepted pr tr) as Hb.
  destruct (approve_pr pr tr) as [tr1 [[]|e]]; cbn [fst] in Ha; subst tr1; cbn [mret gh_ret fst snd].
  - destruct auto_merge; [|by eexists; split; [done|left]]. pose proof (merge_trace pr (tr ++ [Approve pr])) as Hm.
    destruct (merge_pr pr (tr ++ [Approve pr])) as [tr2 [m|e]]; cbn [fst] in Hm; subst tr2; rewrite <- app_assoc;
      (eexists; split; [done|right; split_and!; [done..|by apply Hb]]).
  - eexists. split; [done|]. by left.
Qed.

Lemma solution_files_nodup seen l : NoDup (solution_files_from seen l).*1 ∧ ∀ p, p ∈ (solution_files_from seen l).*1 → p ∉ seen.
Proof.
  revert seen. induction l as [|b l IH]; intros seen; cbn [solution_files_from]; [split; [constructor|]; by intros p Hp%not_elem_of_nil|].
  case_bool_decide as Hin; [apply IH|]. destruct (IH (_block_path b :: seen)) as [H1 H2]. cbn. split.
  - constructor; [|done]. intros Hp. apply (H2 _ Hp). by left.
  - intros p [->|Hp]%elem_of_cons; [done|]. specialize (H2 p Hp). set_solver.
Qed.

(** A fix that was generated and passed validation, its tests included. *)
Definition validated (i : Incident) (s : Solution) : Prop :=
  think (incident_to_task i) = Ok s ∧ (∃ summary, validate s true = Ok (true, summary)) ∧ code_blocks s ≠ [].

(** The requests of one run of the loop. *)
Inductive fix_trace (i : Incident) : list request → Prop :=
| F_nothing : (∀ s, ¬ validated i s) → fix_trace i []
| F_submit s tr : validated i s → Forall harmless tr → fix_trace i tr
| F_apply s tr n blocks more :
    validated i s → Forall harmless tr →
    (∀ p c, (p, c) ∈ _solution_files s → ∃ sha body, taken tr (PutFile (incident_branch_name i) p c sha) body) →
    (∃ t b j, taken tr (OpenPR (incident_branch_name i) t b) j ∧ numbered j n) →
    auto_approve = true → gate_runner (_solution_files s) = Ok (true, blocks) →
    more = [] ∨ more = [Merge n] ∧ auto_merge = true ∧ (∃ body, accepted tr (Approve n) body) → fix_trace i (tr ++ [Approve n] ++ more).

Lemma handle_trace i : fix_trace i (handle_incident i []).1 ∧ ∃ r, (handle_incident i []).2 = Ok r.
Proof.
  unfold handle_incident. destruct (think (incident_to_task i)) as [s|e] eqn:Et;
    [|split; [apply F_nothing; intros s (E & _); congruence|by eexists]].
  destruct (validate s true) as [[[] summ]|e] eqn:Ev;
    [|split; [apply F_nothing; intros s' (E & (x & E2) & _); congruence|by eexists]..].
  destruct (code_blocks s) as [|b bs] eqn:Eb; [split; [apply F_nothing; intros s' (E & _ & E2); congruence|by eexists]|].
  assert (validated i s) as Hval by (split_and!; [done|by exists summ|by rewrite Eb]).
  set (files := _solution_files s). unfold mbind at 1 3, gh_bind at 1 3, catch at 1 2, mbind at 1 2, gh_bind at 1 2.
  pose proof (adds_submit files ("fix: " +:+ inc_title i) (_pr_body i s) (incident_branch_name i) []) as (new & En & Hnew).
  pose proof (submit_puts files ("fix: " +:+ inc_title i) (_pr_body i s) (incident_branch_name i) []) as Hputs.
  destruct (submit_fix_pr files _ _ _ []) as [tr [p|e]]; cbn [fst] in En; subst tr; cbn [mret gh_ret];
    [|split; [by eapply F_submit|by eexists]]. destruct (Hputs new p eq_refl) as [Hput Hopen]. rewrite app_nil_l in *.
  destruct auto_approve eqn:Ea; [|split; [by eapply F_submit|by eexists]].
  unfold _run_merge_gate. destruct (gate_runner files) as [[[] blocks]|e] eqn:Eg; [|split; [by eapply F_submit|by eexists]..].
  destruct (auto_apply_trace (pr_number p) new) as (a & E2 & Hc).
  unfold mbind, gh_bind. destruct (auto_apply (pr_number p) new) as [tr r]. cbn [fst snd] in *. subst r. split; [|by eexists].
  destruct Hc as [[-> _]|(Hm & -> & _ & Hacc)].
  - rewrite <- (app_nil_r [Approve _]). eapply (F_apply i s new (pr_number p) blocks []); eauto 10.
  - eapply (F_apply i s new (pr_number p) blocks [Merge (pr_number p)]); eauto 10.
Qed.
End github.

(** ** The default gate *)
Section default_gate.
Context (read_text : string → read_outcome) (parse : string → option (list pynode)) (fmt3 : Q → string) (repr : json → string).
Context (threshold : Q) (the_judge : result string (Solution → result string JudgeVerdict)).
Context (the_sandbox : list changed_file → bool → result string (bool * string)).
Context (lean : option (list (string * string) → result string VerifierResult)) (required : list string).

(** The settings of the autonomy block: [lean] is set if [lean_verifier] is. *)
Definition fix_gate_config (files : list (string * string)) : GateConfig :=
  mkGateConfig threshold true false [".py"] (Some files) (Ok "") the_judge the_sandbox lean
    (match lean with Some _ => required | None => [] end) None.

Definition _default_gate_runner (files : list (string * string)) : result string (bool * list string) :=
  r ← run_merge_gate read_text parse fmt3 repr (fix_gate_config files); Ok (gr_passed r, blocked_by r).

Definition as_changed (files : list (string * string)) : list changed_file := map (λ '(p, c), mkFile p (language_of p) c) files.

Lemma default_gate_passed files blocks :
  _default_gate_runner files = Ok (true, blocks) →
  let cfg := fix_gate_config files in
  proofs_hold cfg (as_changed files) (included cfg (as_changed files))
  ∧ (included cfg (as_changed files) ≠ [] → reviews_hold cfg (included cfg (as_changed files))).
Proof.
  unfold _default_gate_runner. rewrite result_bind_ok. intros (r & Hr & [= Hp _]).
  assert ((run_gate_cli read_text parse fmt3 repr (fix_gate_config files)).2 = 0%Z) as Hz.
  { unfold run_gate_cli. rewrite Hr. cbn [snd]. by rewrite Hp. }
  apply gate_exit_zero in Hz as (raw & [= <-] & _ & H1 & H2). done.
Qed.

Section loop.
Context (server : list request → request → response) (base_branch : string) (percent : Q → string).
Context (think : fix_task → result string Solution) (validate : Solution → bool → result string (bool * string)).
Context (auto_approve auto_merge : bool).

Abbreviation run := (handle_incident server repr base_branch percent think validate _default_gate_runner auto_approve auto_merge).

(** C29: The autonomy loop fails closed.  Whatever GitHub, the engine and the gate answer,
    handling a parsed incident with an engine at hand returns a report.  GitHub hears
    nothing unless the engine produced code that passed validation with its tests.  A pull
    request is approved only if this is enabled, GitHub had accepted all files of the fix
    on the branch and opened the pull request with that number for it, and the merge gate
    passed for exactly these files: Lean accepted the changed proofs, required
    specifications are there, and, if there are Python files among them, the sandbox found
    them valid and the judge scored them at or above the threshold.  It is merged only if
    this is enabled too, right after GitHub accepted the approval.  Files that an existing
    branch brings along are not part of the fix, and the gate does not see them
    ([existing_branch_is_merged]). *)
Theorem autonomy_fails_closed i :
  (∃ r, (run i []).2 = Ok r)
  ∧ ((∀ s, ¬ validated think validate i s) → (run i []).1 = [])
  ∧ ∀ n, Approve n ∈ (run i []).1 ∨ Merge n ∈ (run i []).1 →
    ∃ s pre more, validated think validate i s ∧ (run i []).1 = pre ++ [Approve n] ++ more
      ∧ (more = [] ∨ more = [Merge n] ∧ auto_merge = true ∧ ∃ body, accepted server pre (Approve n) body)
      ∧ auto_approve = true ∧ Forall harmless pre
      ∧ (∀ p c, (p, c) ∈ _solution_files s → ∃ sha body, taken server pre (PutFile (incident_branch_name i) p c sha) body)
      ∧ (∃ t b j, taken server pre (OpenPR (incident_branch_name i) t b) j ∧ numbered j n)
      ∧ let cfg := fix_gate_config (_solution_files s) in
        let python := included cfg (as_changed (_solution_files s)) in
        proofs_hold cfg (as_changed (_solution_files s)) python ∧ (python ≠ [] → reviews_hold cfg python).
Proof.
  destruct (handle_trace server repr base_branch percent think validate _default_gate_runner auto_approve auto_merge i) as [Ht Hr].
  split; [done|].
  assert (∀ l r, Forall harmless l → r ∈ l → harmless r) as Hh by (intros l r Hl Hin; rewrite Forall_forall in Hl; by apply Hl).
  inversion Ht as [Hn E|s tr Hv Hq E|s tr n blocks more Hv Hq Hputs Ho Ha Hg Hm E].
  - split; [done|]. intros n [H|H]; by apply not_elem_of_nil in H.
  - split; [intros Hn; by destruct (Hn s)|]. intros n [H|H]; destruct (Hh _ _ Hq H).
  - split; [intros Hn; by destruct (Hn s)|]. intros m Hin.
    assert (m = n) as ->.
    { destruct Hin as [Hin|Hin]; apply elem_of_app in Hin as [Hin|Hin]; try (by destruct (Hh _ _ Hq Hin));
        (apply elem_of_cons in Hin as [Hin|Hin]; [congruence|]);
        destruct Hm as [->|[-> _]]; try (by apply not_elem_of_nil in Hin); apply list_elem_of_singleton in Hin; congruence. }
    exists s, tr, more. split_and!; try done; by apply (default_gate_passed _ blocks Hg).
Qed.
End loop.
End default_gate.

(** ** Concrete runs *)
Definition ok_server (_ : list request) (r : request) : response :=
  match r with
  | GetRef _ => Ok (200%Z, JObj [("object", JObj [("sha", JStr "abc")])])
  | GetContents _ _ => Ok (404%Z, JNull)
  | OpenPR _ _ _ => Ok (201%Z, JObj [("number", JNum 7); ("html_url", JStr "url")])
  | _ => Ok (200%Z, JObj [])
  end.

Definition fix_of (path : string) (_ : fix_task) : result string Solution :=
  Ok (mkSolution "t" "fix" "summary" None empty_stack [mkBlock path "text" "rm -rf /" ""] [] [] DRAFT (1 # 2) []).

Definition demo_incident : Incident := mkIncident "i1" "Boom" "it broke" "" "webhook" [] 0 JNull.

Definition demo_fix (server : list request → request → response) (path : string) : list request :=
  (handle_incident server (λ _, "") "main" (λ _, "50%") (fix_of path) (λ _ _, Ok (true, ""))
     (_default_gate_runner (λ _, OsError) (λ _, None) (λ _, "") (λ _, "") (7 # 10) (Err "no judge") (λ _ _, Err "no sandbox") None [])
     true true demo_incident []).1.

(** A fix without Python files is merged although there is neither a judge nor a
    sandbox: the gate only looks at [.py] files and passes when there are none. *)
Example merged_without_review :
  demo_fix ok_server "deploy.sh"
  = [GetRef "main"; CreateRef "noema-fix/i1-boom" "abc"; GetContents "noema-fix/i1-boom" "deploy.sh";
     PutFile "noema-fix/i1-boom" "deploy.sh" "rm -rf /" None;
     OpenPR "noema-fix/i1-boom" "fix: Boom" (_pr_body (λ _, "50%") demo_incident
       (mkSolution "t" "fix" "summary" None empty_stack [mkBlock "deploy.sh" "text" "rm -rf /" ""] [] [] DRAFT (1 # 2) []));
     Approve 7; Merge 7]
  ∧ Merge 7 ∉ demo_fix ok_server "deploy.py".
Proof. split; [vm_compute; reflexivity|]. vm_compute. intros H. repeat (apply elem_of_cons in H as [H|H]; [discriminate H|]). by apply not_elem_of_nil in H. Qed.

(** A branch that exists already (422) is reused with whatever is on it. *)
Definition existing_branch (tr : list request) (r : request) : response :=
  match r with CreateRef _ _ => Ok (422%Z, JNull) | _ => ok_server tr r end.

Example existing_branch_is_merged : Merge 7 ∈ demo_fix existing_branch "deploy.sh".
Proof. vm_compute. repeat first [left|right]. Qed.

(** The identifier of the payload goes into the branch name as it is, although the name
    is documented to be safe for git. *)
Example unsafe_branch_name :
  incident_branch_name (mkIncident "../a b~1" "Boom" "" "" "webhook" [] 0 JNull) = "noema-fix/../a b~1-boom".
Proof. reflexivity. Qed.

(** Sentry sends [null] for exceptions without frames; parsing such an alert raises. *)
Example null_stacktrace_raises :
  parse_incident (λ _, "None") (λ _, None) (λ _, Ok 0%Q) "id" 0
    [("event", JObj [("exception", JObj [("values", JArr [JObj [("type", JStr "E"); ("stacktrace", JNull)]])])])]
  = Err AttributeError.
Proof. reflexivity. Qed.
