(* ===== verification/Webhooks.v ===== *)
(** * Webhooks ([noema/api/webhooks.py])

    Registration with a check of the URL, delivery of events to registered URLs, and the
    signed endpoint for incidents.  [urlparse], [ipaddress.ip_address], HMAC-SHA-256 (its
    hexadecimal digest) and [json.dumps] are parameters, as are the queue of jobs and the
    fixer behind the endpoint.

    The dispatcher is a transition system: its loop takes an event, walks over the
    dictionary of registrations and posts, with retries; every post awaits, and meanwhile
    events are emitted and webhooks come and go.  Python's iterator over a dictionary
    raises when the size has changed; if keys were exchanged without a change of size it
    may yield any of the entries, and the label of the step names them. *)
From Stdlib Require Import ZArith Lia Bool Ascii String.
From stdpp Require Import base option numbers sets strings list.
From S2P Require Import Prelude.
Local Open Scope string_scope.
Local Open Scope list_scope.
Local Open Scope nat_scope.

(** ** URLs *)
Record parsed_url := mkUrl {
  scheme : string;
  netloc : string;
  hostname : option string;
  username : option string;
  port : option (option Z);         (* [None]: reading it raises *)
  u_path : string;
}.

Record ip_class := mkIp { is_private : bool; is_loopback : bool; is_link_local : bool; is_reserved : bool }.

Section urls.
Context (urlparse : string → result string parsed_url) (ip_address : string → option ip_class).

Definition blocked_hostnames : list string := ["localhost"; "0.0.0.0"; "127.0.0.1"; "::1"; "metadata.google.internal"].

(** [Err]: the [ValueError] with its message. *)
Definition _validate_webhook_url (url : string) : result string () :=
  match urlparse url with
  | Err e => Err ("Invalid URL: " +:+ e)
  | Ok u =>
      if negb (nonempty (scheme u)) then Err "URL must have a scheme (http or https)"
      else if negb (bool_decide (scheme u ∈ ["http"; "https"])) then
        Err ("URL scheme must be http or https, got " +:+ scheme u)
      else if negb (nonempty (netloc u)) then Err "URL must have a hostname"
      else
        match hostname u with
        | None => Err "URL must have a hostname"
        | Some h =>
            if negb (nonempty h) then Err "URL must have a hostname"
            else if bool_decide (lower h ∈ blocked_hostnames) then Err ("Blocked hostname: " +:+ h)
            else
              match ip_address h with
              | Some ip =>
                  if is_private ip || is_loopback ip || is_link_local ip || is_reserved ip then Err ("Blocked IP range: " +:+ h)
                  else Ok ()
              | None => Ok ()
              end
        end
  end.

Definition sub (i n : nat) (s : string) : string := substring i n s.
Definition tail_chars (n : nat) (s : string) : string := substring (String.length s - n) n s.

Definition mask_host (h : string) : string :=
  let n := String.length h in
  if (n <=? 6)%nat then (if (4 <? n)%nat then sub 0 2 h +:+ "***" +:+ tail_chars 2 h else sub 0 1 h +:+ "***")
  else sub 0 3 h +:+ "***" +:+ tail_chars 3 h.

Context (show : Z → string).

Definition _mask_url (url : string) : string :=
  let fallback := if (20 <? String.length url)%nat then sub 0 15 url +:+ "***" else url in
  match urlparse url with
  | Err _ => fallback
  | Ok u =>
      match port u with
      | None => fallback
      | Some p =>
          let m := mask_host (default "" (hostname u)) in
          scheme u +:+ "://" +:+ m
          +:+ (match username u with Some x => if nonempty x then "@" +:+ m else "" | None => "" end)
          +:+ (match p with Some n => if (n =? 0)%Z then "" else ":" +:+ show n | None => "" end)
          +:+ (if nonempty (u_path u) then u_path u else "/")
      end
  end.
End urls.

(** ** Signatures *)
Section signatures.
Context (hmac : string → string → string).

(** [s.partition("=")], the parts around the separator. *)
Fixpoint partition_eq (s : string) : string * string :=
  match s with
  | EmptyString => ("", "")
  | String a t => if Ascii.eqb a "=" then ("", t) else let '(x, y) := partition_eq t in (String a x, y)
  end.

(** [compare_digest] raises on characters beyond ASCII, which is a mismatch. *)
Definition _verify_signature (secret body : string) (provided : option string) : bool :=
  match provided with
  | None => false
  | Some p =>
      if negb (nonempty p) then false
      else
        let '(algo, digest) := partition_eq p in
        if negb (String.eqb algo "sha256") || negb (String.length digest =? 64)%nat then false
        else String.eqb (hmac secret body) digest
  end.

(** What the endpoint for incidents does. *)
Inductive incident_reply := Unauthorized (detail : string) | QueuedJob (job : string) | Inline.

(** [enqueue]: the job queue took the payload; otherwise the fixer runs in place. *)
Definition incident_webhook (secret body : string) (signature : option string) (enqueue : result string string) : incident_reply :=
  if negb (nonempty secret) then Unauthorized "Webhook secret not configured — rejecting request (fail-closed)"
  else if negb (_verify_signature secret body signature) then Unauthorized "Invalid or missing X-Noema-Signature"
  else match enqueue with Ok job => QueuedJob job | Err _ => Inline end.

Lemma partition_join x y : (∀ i, String.get i x ≠ Some "="%char) → partition_eq (x +:+ "=" +:+ y) = (x, y).
Proof.
  induction x as [|a x IH]; intros Hx; [done|]. change (String a x +:+ "=" +:+ y) with (String a (x +:+ "=" +:+ y)). cbn [partition_eq].
  destruct (Ascii.eqb_spec a "=") as [->|Ha]; [by destruct (Hx 0)|]. rewrite IH; [done|]. intros i. apply (Hx (S i)).
Qed.

Lemma partition_inv p x y : partition_eq p = (x, y) → x = p ∧ y = "" ∨ p = x +:+ "=" +:+ y.
Proof.
  revert x y. induction p as [|a p IH]; intros x y; cbn [partition_eq]; [intros [= <- <-]; by left|].
  destruct (Ascii.eqb_spec a "=") as [->|Ha]; [intros [= <- <-]; by right|].
  destruct (partition_eq p) as [x' y']. intros [= <- <-]. destruct (IH x' y' eq_refl) as [[-> ->]| ->]; [by left|by right].
Qed.

Lemma verify_signature_exact secret body p :
  (∀ k m, String.length (hmac k m) = 64) → _verify_signature secret body (Some p) = true ↔ p = "sha256=" +:+ hmac secret body.
Proof.
  intros Hlen. unfold _verify_signature. split.
  - destruct (nonempty p); [|done]. cbn [negb]. destruct (partition_eq p) as [algo digest] eqn:E.
    destruct (String.eqb_spec algo "sha256") as [->|]; [|done]. destruct (Nat.eqb_spec (String.length digest) 64) as [Hd|]; [|done].
    cbn [negb orb]. intros <-%String.eqb_eq. apply partition_inv in E as [[_ E]| ->]; [|done]. by rewrite E in Hd.
  - intros ->. change (nonempty ("sha256=" +:+ hmac secret body)) with true. cbn [negb].
    change ("sha256=" +:+ hmac secret body) with ("sha256" +:+ "=" +:+ hmac secret body). rewrite partition_join.
    + rewrite Hlen. cbn [negb orb String.eqb Nat.eqb]. by rewrite String.eqb_refl.
    + intros i. do 7 (destruct i as [|i]; [done|]). by destruct i.
Qed.

(** The endpoint acts on a body exactly if a secret is configured and the header carries the
    digest of that body under it. *)
Lemma incident_fails_closed sec body sig enqueue :
  (∀ k m, String.length (hmac k m) = 64) →
  (∀ d, incident_webhook sec body sig enqueue ≠ Unauthorized d) ↔ sec ≠ "" ∧ sig = Some ("sha256=" +:+ hmac sec body).
Proof.
  intros Hlen. unfold incident_webhook, nonempty. destruct (String.eqb_spec sec "") as [->|Hne]; cbn [negb].
  { split; [intros H; by destruct (H _ eq_refl)|by intros []]. }
  destruct sig as [p|]; [|split; [intros H; by destruct (H _ eq_refl)|by intros []]].
  pose proof (verify_signature_exact sec body p Hlen) as Hv. destruct (_verify_signature sec body (Some p)); cbn [negb].
  - split; [intros _; split; [done|]; f_equal; by apply Hv|]. intros _ d. by destruct enqueue.
  - split; [intros H; by destruct (H _ eq_refl)|]. intros [_ [= E]]. by apply Hv in E.
Qed.
End signatures.

(** ** The dispatcher *)
Record WebhookRegistration := mkReg { url : string; secret : string; events : list string; retry_count : Z; timeout : Z }.

(** The body of a registration request, after the model has been validated. *)
Record WebhookRegisterRequest := mkRequest { r_url : string; r_secret : string; r_events : list string; r_retry_count : Z }.

Definition request_valid (r : WebhookRegisterRequest) : bool :=
  (1 <=? String.length (r_url r))%nat && (String.length (r_url r) <=? 2048)%nat
  && (String.length (r_secret r) <=? 512)%nat && (length (r_events r) <=? 50)%nat
  && (1 <=? r_retry_count r)%Z && (r_retry_count r <=? 10)%Z.

Definition registration_of (r : WebhookRegisterRequest) : WebhookRegistration :=
  mkReg (r_url r) (r_secret r) (r_events r) (r_retry_count r) 10.

Section dispatcher.
Context {J : Type} (urlparse : string → result string parsed_url) (ip_address : string → option ip_class).
Context (hmac : string → string → string) (dumps : J → option string).

Record hook_event := mkHookEvent { type : string; payload : J }.

Record post := mkPost { to : string; p_body : string; signature : option string; attempt : nat; p_timeout : Z }.

(** A dispatch waiting for the answer to a post: the registration and attempt it is for,
    the iterator (the size of the dictionary it started on and its position) and whether
    keys came or went since. *)
Record dispatch := mkDispatch { d_event : hook_event; d_body : string; d_reg : WebhookRegistration; d_attempt : nat;
  it_size : nat; it_pos : nat; stale : bool }.

Inductive worker := NoTask | Idle | Busy (d : dispatch) | Cancelled.

(** [emitted], [taken], [accepted] and [sent] are history: the events emitted, those the
    loop has taken, the registrations ever accepted and the posts made. *)
Record Dispatcher := mkDispatcher { _registrations : list (string * WebhookRegistration); _queue : list hook_event; _worker_task : worker;
  emitted : list hook_event; taken : list hook_event; accepted : list WebhookRegistration; sent : list (hook_event * post) }.

Definition dispatcher_init : Dispatcher := mkDispatcher [] [] NoTask [] [] [] [].

Definition with_worker (s : Dispatcher) (w : worker) : Dispatcher :=
  mkDispatcher (_registrations s) (_queue s) w (emitted s) (taken s) (accepted s) (sent s).

Definition start (s : Dispatcher) : Dispatcher :=
  match _worker_task s with NoTask => with_worker s Idle | _ => s end.

(** The cancelled task stays in [_worker_task]. *)
Definition stop (s : Dispatcher) : Dispatcher :=
  match _worker_task s with NoTask => s | _ => with_worker s Cancelled end.

Definition mark_stale (w : worker) : worker :=
  match w with
  | Busy d => Busy (mkDispatch (d_event d) (d_body d) (d_reg d) (d_attempt d) (it_size d) (it_pos d) true)
  | _ => w
  end.

Definition register (id : string) (reg : WebhookRegistration) (s : Dispatcher) : Dispatcher :=
  mkDispatcher (dset id reg (_registrations s)) (_queue s)
    (if dmem id (_registrations s) then _worker_task s else mark_stale (_worker_task s))
    (emitted s) (taken s) (reg :: accepted s) (sent s).

Definition unregister (id : string) (s : Dispatcher) : Dispatcher :=
  mkDispatcher (ddel id (_registrations s)) (_queue s)
    (if dmem id (_registrations s) then mark_stale (_worker_task s) else _worker_task s)
    (emitted s) (taken s) (accepted s) (sent s).

Definition list_registrations (show : Z → string) (s : Dispatcher) : list (string * (string * list string * Z * Z)) :=
  map (λ '(wid, reg), (wid, (_mask_url urlparse show (url reg), events reg, retry_count reg, timeout reg))) (_registrations s).

Definition emit (e : hook_event) (s : Dispatcher) : Dispatcher :=
  mkDispatcher (_registrations s) (_queue s ++ [e]) (_worker_task s) (emitted s ++ [e]) (taken s) (accepted s) (sent s).

(** The endpoint: 422 for a body out of bounds, 400 for a refused URL. *)
Inductive register_reply := Unprocessable | BadRequest (detail : string) | Registered (webhook_id : string).

Definition register_webhook (id : string) (r : WebhookRegisterRequest) (s : Dispatcher) : register_reply * Dispatcher :=
  if negb (request_valid r) then (Unprocessable, s)
  else
    match _validate_webhook_url urlparse ip_address (r_url r) with
    | Err e => (BadRequest ("Invalid webhook URL: " +:+ e), s)
    | Ok _ => (Registered id, register id (registration_of r) s)
    end.

Definition wants (e : hook_event) (reg : WebhookRegistration) : bool :=
  bool_decide ("*" ∈ events reg) || bool_decide (type e ∈ events reg).

Definition post_of (reg : WebhookRegistration) (body : string) (n : nat) : post :=
  mkPost (url reg) body (if nonempty (secret reg) then Some (hmac (secret reg) body) else None) n (timeout reg).

(** The next registration an attempt is made for, with the position after it: others are
    passed over without awaiting. *)
Fixpoint next_target (e : hook_event) (l : list WebhookRegistration) (pos : nat) : option (WebhookRegistration * nat) :=
  match l with
  | [] => None
  | reg :: l => if wants e reg && (0 <? retry_count reg)%Z then Some (reg, S pos) else next_target e l (S pos)
  end.

Definition issue (s : Dispatcher) (d : dispatch) : Dispatcher :=
  mkDispatcher (_registrations s) (_queue s) (Busy d) (emitted s) (taken s) (accepted s)
    (sent s ++ [(d_event d, post_of (d_reg d) (d_body d) (d_attempt d))]).

(** On to the next item of the iterator.  A changed size raises, which ends the dispatch;
    with keys exchanged the interpreter may yield any of the entries: [choice] names them. *)
Definition advance (choice : list nat) (s : Dispatcher) (e : hook_event) (body : string) (size pos : nat) (st : bool) : Dispatcher :=
  if negb (length (_registrations s) =? size)%nat then with_worker s Idle
  else
    let items := if st then omap (λ i, _registrations s !! i) choice else drop pos (_registrations s) in
    match next_target e (map snd items) pos with
    | None => with_worker s Idle
    | Some (reg, pos') => issue s (mkDispatch e body reg 0 size pos' st)
    end.

(** What a post came to: an answer, or a timeout or other exception. *)
Inductive reply := Status (code : Z) | Raised.

Definition delivered (r : reply) : bool := match r with Status c => (c <? 500)%Z | Raised => false end.

Inductive action :=
  | Start
  | Stop
  | Register (id : string) (r : WebhookRegisterRequest)
  | Unregister (id : string)
  | Emit (e : hook_event)
  | Take
  | Reply (r : reply) (choice : list nat).

(** [json.dumps] may raise, which drops the event. *)
Definition take (s : Dispatcher) : option Dispatcher :=
  match _worker_task s, _queue s with
  | Idle, e :: q =>
      let s := mkDispatcher (_registrations s) q Idle (emitted s) (taken s ++ [e]) (accepted s) (sent s) in
      Some (match dumps (payload e) with
            | None => s
            | Some body => advance [] s e body (length (_registrations s)) 0 false
            end)
  | _, _ => None
  end.

Definition answer (r : reply) (choice : list nat) (s : Dispatcher) : option Dispatcher :=
  match _worker_task s with
  | Busy d =>
      Some (if delivered r || (retry_count (d_reg d) <=? Z.of_nat (S (d_attempt d)))%Z
            then advance choice s (d_event d) (d_body d) (it_size d) (it_pos d) (stale d)
            else issue s (mkDispatch (d_event d) (d_body d) (d_reg d) (S (d_attempt d)) (it_size d) (it_pos d) (stale d)))
  | _ => None
  end.

Definition hook_step (s : Dispatcher) (a : action) : option Dispatcher :=
  match a with
  | Start => Some (start s)
  | Stop => Some (stop s)
  | Register id r => Some (register_webhook id r s).2
  | Unregister id => Some (unregister id s)
  | Emit e => Some (emit e s)
  | Take => take s
  | Reply r choice => answer r choice s
  end.

(** *** Every post is accounted for *)
Definition vetted (reg : WebhookRegistration) : Prop :=
  _validate_webhook_url urlparse ip_address (url reg) = Ok () ∧ (1 <= retry_count reg <= 10)%Z.

(** [p] is attempt number [attempt p] to tell the owner of [reg] about [e]. *)
Definition proper_post (e : hook_event) (p : post) (reg : WebhookRegistration) : Prop :=
  wants e reg = true ∧ dumps (payload e) = Some (p_body p) ∧ p = post_of reg (p_body p) (attempt p)
  ∧ (Z.of_nat (attempt p) < retry_count reg)%Z.

Record hook_inv (s : Dispatcher) : Prop := {
  inv_fifo : taken s ++ _queue s = emitted s;
  inv_vetted : ∀ reg, reg ∈ accepted s → vetted reg;
  inv_regs : ∀ reg, reg ∈ map snd (_registrations s) → reg ∈ accepted s;
  inv_busy : ∀ d, _worker_task s = Busy d →
    d_event d ∈ taken s ∧ d_reg d ∈ accepted s ∧ proper_post (d_event d) (post_of (d_reg d) (d_body d) (d_attempt d)) (d_reg d);
  inv_sent : ∀ e p, (e, p) ∈ sent s → e ∈ taken s ∧ ∃ reg, reg ∈ accepted s ∧ proper_post e p reg;
}.

Lemma dset_values id reg (d : list (string * WebhookRegistration)) x : x ∈ map snd (dset id reg d) → x = reg ∨ x ∈ map snd d.
Proof.
  induction d as [|[k v] d IH]; [cbn; set_solver|]. rewrite dset_cons. case_decide; cbn [map snd]; set_solver.
Qed.

Lemma ddel_values id (d : list (string * WebhookRegistration)) x : x ∈ map snd (ddel id d) → x ∈ map snd d.
Proof.
  induction d as [|[k v] d IH]; [done|]. simpl. case_decide; cbn [map snd]; set_solver.
Qed.

Lemma next_target_spec e l pos reg pos' :
  next_target e l pos = Some (reg, pos') → reg ∈ l ∧ wants e reg = true ∧ (0 < retry_count reg)%Z.
Proof.
  revert pos. induction l as [|x l IH]; intros pos; cbn [next_target]; [done|].
  destruct (wants e x && (0 <? retry_count x)%Z) eqn:E; [|intros H%IH; set_solver].
  intros [= <- _]. apply andb_true_iff in E as [? ?%Z.ltb_lt]. set_solver.
Qed.

Lemma mark_stale_busy w d : mark_stale w = Busy d → ∃ d0, w = Busy d0 ∧ d_event d0 = d_event d ∧ d_reg d0 = d_reg d
  ∧ d_body d0 = d_body d ∧ d_attempt d0 = d_attempt d.
Proof. destruct w as [| |d0|]; try done. intros [= <-]. by exists d0. Qed.

Lemma issue_inv s d :
  hook_inv s → d_event d ∈ taken s → d_reg d ∈ accepted s →
  proper_post (d_event d) (post_of (d_reg d) (d_body d) (d_attempt d)) (d_reg d) → hook_inv (issue s d).
Proof.
  intros [H1 H2 H3 H4 H5] Ht Ha Hp. split; cbn; try done.
  - intros d' [= <-]. done.
  - intros e p [Hin|[= -> ->]%list_elem_of_singleton]%elem_of_app; [by apply H5|]. split; [done|]. by exists (d_reg d).
Qed.

Lemma idle_inv s w : hook_inv s → (∀ d, w ≠ Busy d) → hook_inv (with_worker s w).
Proof. intros [H1 H2 H3 H4 H5] Hw. split; cbn; try done. intros d E. by destruct (Hw d). Qed.

Lemma advance_inv choice s e body size pos st :
  hook_inv s → e ∈ taken s → dumps (payload e) = Some body → hook_inv (advance choice s e body size pos st).
Proof.
  intros Hs Ht Hb. unfold advance. destruct (_ =? size)%nat; cbn [negb]; [|by apply idle_inv].
  destruct (next_target _ _ _) as [[reg pos']|] eqn:E; [|by apply idle_inv].
  apply next_target_spec in E as (Hin & Hw & Hr). apply issue_inv; cbn; try done.
  apply (inv_regs s Hs). destruct st.
  - apply list_elem_of_fmap in Hin as ([k v] & -> & Hin). apply list_elem_of_omap in Hin as (i & _ & Hi).
    apply list_elem_of_lookup_2 in Hi. by apply (list_elem_of_fmap_2 snd) in Hi.
  - apply list_elem_of_fmap in Hin as (kv & -> & Hin). apply list_elem_of_fmap_2.
    rewrite <- (take_drop pos (_registrations s)). apply elem_of_app. by right.
Qed.

Lemma register_inv id reg s : hook_inv s → vetted reg → hook_inv (register id reg s).
Proof.
  intros [H1 H2 H3 H4 H5] Hv. split; cbn; try done.
  - intros x [->|Hx]%elem_of_cons; [done|by apply H2].
  - intros x Hx. apply elem_of_cons. apply dset_values in Hx as [->|Hx]; [by left|right; by apply H3].
  - intros d. assert (∀ w, w = Busy d → w = _worker_task s ∨ w = mark_stale (_worker_task s) →
      d_event d ∈ taken s ∧ d_reg d ∈ reg :: accepted s ∧ proper_post (d_event d) (post_of (d_reg d) (d_body d) (d_attempt d)) (d_reg d)) as Hd.
    { intros w -> [E|E].
      - destruct (H4 d (eq_sym E)) as (?&?&?). set_solver.
      - apply eq_sym, mark_stale_busy in E as (d0 & E & <- & <- & <- & <-). destruct (H4 d0 E) as (?&?&?). set_solver. }
    destruct (dmem _ _); intros E; [apply (Hd _ E)|apply (Hd _ E)]; auto.
  - intros e p Hep. destruct (H5 e p Hep) as (? & r & ? & ?). split; [done|]. exists r. split; [set_solver|done].
Qed.

Lemma unregister_inv id s : hook_inv s → hook_inv (unregister id s).
Proof.
  intros [H1 H2 H3 H4 H5]. split; cbn; try done.
  - intros x Hx%ddel_values. by apply H3.
  - intros d. destruct (dmem _ _); [|apply H4]. intros E%mark_stale_busy. destruct E as (d0 & E & <- & <- & <- & <-). by apply H4.
Qed.

Lemma registration_vetted r : request_valid r = true →
  _validate_webhook_url urlparse ip_address (r_url r) = Ok () → vetted (registration_of r).
Proof.
  unfold request_valid. rewrite !andb_true_iff. intros ((_ & H1%Z.leb_le) & H2%Z.leb_le) Hu. by split.
Qed.

Lemma hook_step_inv s a s' : hook_inv s → True → hook_step s a = Some s' → hook_inv s'.
Proof.
  intros Hs _. destruct a as [| |id r|id|e| |r choice]; cbn [hook_step].
  - intros [= <-]. unfold start. destruct (_worker_task s); try done. by apply idle_inv.
  - intros [= <-]. unfold stop. destruct (_worker_task s); try done; by apply idle_inv.
  - intros [= <-]. unfold register_webhook. destruct (request_valid r) eqn:Er; [|done]. cbn [negb].
    destruct (_validate_webhook_url _ _ _) as [[]|] eqn:Ev; [|done]. cbn [snd]. apply register_inv; [done|]. by apply registration_vetted.
  - intros [= <-]. by apply unregister_inv.
  - intros [= <-]. destruct Hs as [H1 H2 H3 H4 H5]. split; cbn; try done. by rewrite app_assoc, H1.
  - unfold take. destruct (_worker_task s) eqn:Ew; try done. destruct (_queue s) as [|e q] eqn:Eq; [done|]. intros [= <-].
    assert (hook_inv (mkDispatcher (_registrations s) q Idle (emitted s) (taken s ++ [e]) (accepted s) (sent s))) as Hs'.
    { destruct Hs as [H1 H2 H3 H4 H5]. split; cbn; try done; [by rewrite <- app_assoc, <- H1, Eq|].
      intros e' p Hep. destruct (H5 e' p Hep) as [? ?]. split; [set_solver|done]. }
    destruct (dumps _) as [body|] eqn:Eb; [|done]. apply advance_inv; [done|cbn; set_solver|done].
  - unfold answer. destruct (_worker_task s) as [| |d|] eqn:Ew; try done. intros [= <-].
    destruct (inv_busy s Hs d Ew) as (Ht & Ha & Hw & Hb & Hp & Hn).
    destruct (_ || _) eqn:E; [by apply advance_inv|]. apply orb_false_iff in E as [_ E%Z.leb_gt]. by apply issue_inv.
Qed.

Lemma hook_inv_reachable l s : exec hook_step dispatcher_init l = Some s → hook_inv s.
Proof.
  apply (exec_invariant _ hook_inv (λ _, True)); [apply hook_step_inv|apply Forall_true_all|].
  split; cbn; try done; set_solver.
Qed.

(** *** A dispatch nobody interferes with *)
Section undisturbed.
Context (outcome : post → reply).

(** At most [k] attempts from number [n] on, up to the first answer below 500. *)
Fixpoint tries (reg : WebhookRegistration) (body : string) (k n : nat) : list post :=
  match k with
  | 0 => []
  | S k => let p := post_of reg body n in p :: (if delivered (outcome p) then [] else tries reg body k (S n))
  end.

(** What the documented behaviour amounts to for one event. *)
Definition deliveries (e : hook_event) (body : string) (regs : list WebhookRegistration) : list post :=
  concat (map (λ reg, if wants e reg then tries reg body (Z.to_nat (retry_count reg)) 0 else []) regs).

(** The worker with each post answered by [outcome] and nothing else going on. *)
Fixpoint serve (fuel : nat) (s : Dispatcher) : Dispatcher :=
  match fuel, _worker_task s with
  | S fuel, Busy d =>
      match answer (outcome (post_of (d_reg d) (d_body d) (d_attempt d))) [] s with Some s' => serve fuel s' | None => s end
  | _, _ => s
  end.

Definition log (e : hook_event) (ps : list post) : list (hook_event * post) := map (pair e) ps.

Definition after (s : Dispatcher) (w : worker) (ps : list (hook_event * post)) : Dispatcher :=
  mkDispatcher (_registrations s) (_queue s) w (emitted s) (taken s) (accepted s) (sent s ++ ps).

Definition budget (regs : list WebhookRegistration) : nat := sum_list (map (λ reg, Z.to_nat (retry_count reg)) regs).

Lemma deliveries_cons e body reg regs :
  deliveries e body (reg :: regs)
  = (if wants e reg && (0 <? retry_count reg)%Z then tries reg body (Z.to_nat (retry_count reg)) 0 else []) ++ deliveries e body regs.
Proof.
  unfold deliveries. cbn [map concat]. f_equal. destruct (wants e reg); cbn [andb]; [|done].
  destruct (Z.ltb_spec 0 (retry_count reg)); [done|]. by replace (Z.to_nat (retry_count reg)) with 0 by lia.
Qed.

Lemma advance_item s e body pos k reg rest :
  drop pos (_registrations s) = (k, reg) :: rest →
  advance [] s e body (length (_registrations s)) pos false
  = if wants e reg && (0 <? retry_count reg)%Z then issue s (mkDispatch e body reg 0 (length (_registrations s)) (S pos) false)
    else advance [] s e body (length (_registrations s)) (S pos) false.
Proof.
  intros Hd. unfold advance. rewrite Nat.eqb_refl. cbn [negb]. rewrite Hd. cbn [map snd next_target].
  destruct (_ && _); [done|]. replace (drop (S pos) (_registrations s)) with rest; [done|].
  change (S pos) with (1 + pos). by rewrite Nat.add_comm, <- drop_drop, Hd.
Qed.

(** The attempts for one registration, the first post being out already. *)
Lemma serve_tries s e body reg pos k n :
  _worker_task s = Busy (mkDispatch e body reg n (length (_registrations s)) pos false) →
  S k = (Z.to_nat (retry_count reg) - n)%nat →
  ∃ j w, (j ≤ S k)%nat ∧ ∀ fuel, serve (j + fuel) s
    = serve fuel (advance [] (after s w (log e (tail (tries reg body (S k) n)))) e body (length (_registrations s)) pos false).
Proof.
  revert s n. induction k as [|k IH]; intros s n Hw Hk.
  - exists 1, (_worker_task s). split; [done|]. intros fuel. cbn [Nat.add serve]. rewrite Hw. unfold answer at 1. rewrite Hw.
    cbn [d_reg d_attempt d_event d_body it_size it_pos stale]. rewrite (proj2 (Z.leb_le _ _)), orb_true_r by lia.
    f_equal. unfold after. cbn [tries tail]. assert (∀ b : bool, log e (if b then [] else []) = []) as -> by (by intros []).
    rewrite app_nil_r, <- Hw. by destruct s.
  - cbn [tries tail]. destruct (delivered (outcome (post_of reg body n))) eqn:Ed.
    + exists 1, (_worker_task s). split; [lia|]. intros fuel. cbn [Nat.add serve]. rewrite Hw. unfold answer at 1. rewrite Hw.
      cbn [d_reg d_attempt d_event d_body it_size it_pos stale]. rewrite Ed. cbn [orb]. f_equal. unfold after. cbn [log map].
      rewrite app_nil_r, <- Hw. by destruct s.
    + set (s1 := issue s (mkDispatch e body reg (S n) (length (_registrations s)) pos false)).
      destruct (IH s1 (S n)) as (j & w & Hj & Hrun); [done|lia|]. exists (S j), w. split; [lia|]. intros fuel.
      cbn [Nat.add serve]. rewrite Hw. unfold answer at 1. rewrite Hw. cbn [d_reg d_attempt d_event d_body it_size it_pos stale].
      rewrite Ed, (proj2 (Z.leb_gt _ _)) by lia. cbn [orb]. fold s1. rewrite Hrun. f_equal. unfold after, s1. cbn [tries tail log map].
      cbn. by rewrite <- app_assoc.
Qed.

Lemma serve_items s e body items pos fuel :
  drop pos (_registrations s) = items → (budget (map snd items) ≤ fuel)%nat →
  serve fuel (advance [] s e body (length (_registrations s)) pos false) = after s Idle (log e (deliveries e body (map snd items))).
Proof.
  revert s pos fuel. induction items as [|[k reg] items IH]; intros s pos fuel Hd Hf.
  - unfold advance. rewrite Nat.eqb_refl, Hd. cbn. unfold after. rewrite app_nil_r. by destruct fuel.
  - rewrite (advance_item s e body pos k reg items Hd). assert (drop (S pos) (_registrations s) = items) as Hd'.
    { change (S pos) with (1 + pos). by rewrite Nat.add_comm, <- drop_drop, Hd. }
    cbn [map snd]. rewrite deliveries_cons. change (budget (map snd ((k, reg) :: items))) with (Z.to_nat (retry_count reg) + budget (map snd items)) in Hf.
    destruct (wants e reg && (0 <? retry_count reg)%Z) eqn:E; [|by apply IH; [|lia]].
    apply andb_true_iff in E as [_ E%Z.ltb_lt]. set (s1 := issue s _).
    destruct (serve_tries s1 e body reg (S pos) (pred (Z.to_nat (retry_count reg))) 0) as (j & w & Hj & Hrun); [done|lia|].
    replace fuel with (j + (fuel - j)) by lia. rewrite Hrun, (IH (after s1 w _)) by (done || lia).
    replace (S (pred (Z.to_nat (retry_count reg)))) with (Z.to_nat (retry_count reg)) by lia.
    unfold after, s1. cbn. destruct (Z.to_nat (retry_count reg)) as [|m] eqn:Em; [lia|]. cbn [tries tail].
    unfold log. rewrite map_app. cbn [map]. rewrite <- !app_assoc. by cbn.
Qed.
End undisturbed.

Lemma budget_bound regs : (∀ reg, reg ∈ regs → vetted reg) → (budget regs ≤ 10 * length regs)%nat.
Proof.
  induction regs as [|reg regs IH]; intros Hv; [done|]. cbn [length]. unfold budget in *. cbn [map sum_list].
  destruct (Hv reg) as [_ ?]; [set_solver|]. assert (sum_list (map (λ reg, Z.to_nat (retry_count reg)) regs) ≤ 10 * length regs)%nat by (apply IH; set_solver). cbn. lia.
Qed.

(** In every state the dispatcher can reach, events are taken in the order they were
    emitted and none is lost before it is taken; each post made is for a taken event, to a
    registration whose URL was accepted and whose filter matches, with the serialised
    payload, its HMAC if there is a secret, and an attempt number below the registration's
    limit; and when the worker takes an event and nothing interferes, it makes exactly the
    documented attempts (for each matching registration in order, until an answer below 500
    or the limit) and is idle again after at most ten per registration. *)
Theorem webhook_delivery (outcome : post → reply) l s :
  exec hook_step dispatcher_init l = Some s →
  taken s ++ _queue s = emitted s
  ∧ (∀ e p, (e, p) ∈ sent s → e ∈ taken s ∧ ∃ reg, vetted reg ∧ proper_post e p reg)
  ∧ (∀ e q body, _worker_task s = Idle → _queue s = e :: q → dumps (payload e) = Some body →
      ∃ s1, hook_step s Take = Some s1
        ∧ serve outcome (10 * length (_registrations s)) s1
          = mkDispatcher (_registrations s) q Idle (emitted s) (taken s ++ [e]) (accepted s)
              (sent s ++ log e (deliveries outcome e body (map snd (_registrations s))))).
Proof.
  intros Hs%hook_inv_reachable. split; [apply (inv_fifo s Hs)|]. split.
  - intros e p Hep. destruct (inv_sent s Hs e p Hep) as (? & reg & Hr & ?). split; [done|]. exists reg. split; [by apply (inv_vetted s Hs)|done].
  - intros e q body Hw Hq Hb. cbn [hook_step]. unfold take. rewrite Hw, Hq, Hb. eexists. split; [done|].
    set (s0 := mkDispatcher _ _ _ _ _ _ _). apply (serve_items outcome s0 e body (_registrations s) 0); [done|].
    etrans; [apply budget_bound|by rewrite length_map]. intros reg Hr. by apply (inv_vetted s Hs), (inv_regs s Hs).
Qed.
End dispatcher.

(** ** Concrete runs *)
Definition demo_parse (u : string) : result string parsed_url := Ok (mkUrl "https" u (Some u) None (Some None) "/").
Definition demo_step := hook_step (J := string) demo_parse (λ _, None) (λ k m, k +:+ m) Some.
Definition demo_hook (u : string) : WebhookRegisterRequest := mkRequest u "" ["*"] 3.
Definition demo_event : hook_event (J := string) := mkHookEvent "task.done" "{}".
Definition demo_setup : list (action (J := string)) :=
  [Start; Register "a" (demo_hook "a.example"); Register "b" (demo_hook "b.example"); Emit demo_event].

Lemma webhook_delivery_witness :
  ∃ s s1, exec demo_step dispatcher_init demo_setup = Some s ∧ demo_step s Take = Some s1
    ∧ sent (serve (λ k m, k +:+ m) (λ p, if String.eqb (to p) "a.example" then Raised else Status 200) 20 s1)
      = log demo_event [mkPost "a.example" "{}" None 0 10; mkPost "a.example" "{}" None 1 10;
          mkPost "a.example" "{}" None 2 10; mkPost "b.example" "{}" None 0 10].
Proof.
  pose (o := λ p, if String.eqb (to p) "a.example" then Raised else Status 200).
  destruct (exec demo_step dispatcher_init demo_setup) as [s|] eqn:E; [|by vm_compute in E]. exists s.
  destruct (webhook_delivery _ _ _ _ o _ _ E) as (_ & _ & H). vm_compute in E. injection E as <-.
  destruct (H demo_event [] "{}" eq_refl eq_refl eq_refl) as (s1 & H1 & Hs). exists s1. split; [done|]. split; [exact H1|].
  change 20 with (10 * 2). etrans; [apply (f_equal sent Hs)|]. by vm_compute.
Defined.

(** A webhook registered while an event is being delivered costs the remaining webhooks
    that event: the iterator raises, and the loop logs it and goes on. *)
Example registration_drops_deliveries :
  (λ s, (map (λ ep, to ep.2) (sent s), _worker_task s))
    <$> exec demo_step dispatcher_init (demo_setup ++ [Take; Register "c" (demo_hook "c.example"); Reply (Status 200) []])
  = Some (["a.example"], Idle).
Proof. by vm_compute. Qed.

(** A stopped dispatcher does not start again, and events pile up. *)
Example stopped_dispatcher_stays_stopped :
  (λ s, (_worker_task s, length (_queue s))) <$> exec demo_step dispatcher_init (demo_setup ++ [Stop; Start; Emit demo_event]) = Some (Cancelled, 2)
  ∧ exec demo_step dispatcher_init (demo_setup ++ [Stop; Start; Take]) = None.
Proof. split; by vm_compute. Qed.

(** Only dotted addresses are addresses for [ip_address]: the loopback address written as a
    number, which resolvers accept, passes. *)
Example numeric_loopback_passes : _validate_webhook_url demo_parse (λ _, None) "2130706433" = Ok ().
Proof. by vm_compute. Qed.
