(* ===== verification/Degradation.v ===== *)
(** * Cancellation and graceful degradation ([noema/resilience/cancellation.py],
    [noema/resilience/graceful_degradation.py])

    [CancellationManager.execute_with_cancellation] is cut at its await: a call registers
    a task, the event loop settles the task some time later and resumes the caller after
    that.  Callers can be cancelled themselves while they wait.

    [GracefulDegradation] keeps a dictionary in front of Redis and files behind PostgreSQL.
    Its methods run one at a time here; a call to Redis has its effect or not, and succeeds
    or raises independently of that, as a timeout does.  Redis itself is a map, from which
    keys with a time to live may disappear. *)
From Stdlib Require Import ZArith Lia Bool String.
From stdpp Require Import base gmap option sets strings list.
From S2P Require Import Prelude.
Local Open Scope string_scope.
Local Open Scope list_scope.
Local Open Scope nat_scope.

(** ** Cancellation *)
Module Cancellation.
Section manager.
Context {V : Type}.

(** How a coroutine ends. *)
Inductive ending := Value (v : V) | Raises (e : string) | Cancelled.

(** What the caller gets. *)
Inductive reply := Returned (v : V) | Raised (e : string) | CancelledTaskError.

(** A call: its task (with the ending once it is done, and whether cancellation was
    requested), whether the caller was cancelled after the task was done, and what the
    caller got. *)
Record call := mkCall { c_id : string; ended : option ending; requested : bool; interrupted : bool; got : option reply }.

Record CancellationManager := mkManager { _tasks : list (string * nat); calls : list call }.

Definition manager_init : CancellationManager := mkManager [] [].

Inductive action :=
  | Execute (task_id : string)
  | Cancel (task_id : string)
  | CancelAll
  | Settle (n : nat) (e : ending)
  | Interrupt (n : nat)
  | Resume (n : nat).

Definition execute_with_cancellation (task_id : string) (m : CancellationManager) : result string CancellationManager :=
  if dmem task_id (_tasks m) then Err ("Task " +:+ task_id +:+ " already in progress")
  else Ok (mkManager (dset task_id (length (calls m)) (_tasks m)) (calls m ++ [mkCall task_id None false false None])).

Definition request_cancel (c : call) : call := mkCall (c_id c) (ended c) true (interrupted c) (got c).

Definition cancel (task_id : string) (m : CancellationManager) : bool * CancellationManager :=
  match dget task_id (_tasks m) ≫= (λ n, (calls m !! n) ≫= λ c, Some (n, c)) with
  | Some (n, c) =>
      match ended c with
      | None => (true, mkManager (_tasks m) (<[n := request_cancel c]> (calls m)))
      | Some _ => (false, m)
      end
  | None => (false, m)
  end.

Definition get_active (m : CancellationManager) : list string := (_tasks m).*1.

Definition cancel_one (cm : nat * CancellationManager) (id : string) : nat * CancellationManager :=
  let '(ok, m) := cancel id cm.2 in ((if ok : bool then S cm.1 else cm.1), m).

Definition cancel_all (m : CancellationManager) : nat * CancellationManager :=
  foldl cancel_one (0, m) (get_active m).

Definition settle (e : ending) (c : call) : call := mkCall (c_id c) (Some e) (requested c) (interrupted c) (got c).

(** Cancelling the waiting caller cancels the task it waits for; if that is done already,
    the caller is resumed with [CancelledError]. *)
Definition interrupt (c : call) : call :=
  match ended c with
  | None => request_cancel c
  | Some _ => mkCall (c_id c) (ended c) (requested c) true (got c)
  end.

Definition reply_of (interrupted : bool) (e : ending) : reply :=
  if interrupted then CancelledTaskError
  else match e with Value v => Returned v | Raises x => Raised x | Cancelled => CancelledTaskError end.

Definition resume (r : reply) (c : call) : call := mkCall (c_id c) (ended c) (requested c) (interrupted c) (Some r).

Definition manager_step (m : CancellationManager) (a : action) : option CancellationManager :=
  match a with
  | Execute id => Some (match execute_with_cancellation id m with Ok m' => m' | Err _ => m end)
  | Cancel id => Some (cancel id m).2
  | CancelAll => Some (cancel_all m).2
  | Settle n e =>
      match calls m !! n with
      | Some c => match ended c with None => Some (mkManager (_tasks m) (<[n := settle e c]> (calls m))) | Some _ => None end
      | None => None
      end
  | Interrupt n =>
      match calls m !! n with
      | Some c => match got c with None => Some (mkManager (_tasks m) (<[n := interrupt c]> (calls m))) | Some _ => None end
      | None => None
      end
  | Resume n =>
      match calls m !! n with
      | Some c =>
          match ended c, got c with
          | Some e, None => Some (mkManager (ddel (c_id c) (_tasks m)) (<[n := resume (reply_of (interrupted c) e) c]> (calls m)))
          | _, _ => None
          end
      | None => None
      end
  end.

(** *** The registry is the set of calls under way *)
Definition call_ok (c : call) : Prop :=
  match got c with Some r => ∃ e, ended c = Some e ∧ r = reply_of (interrupted c) e | None => True end.

Record manager_inv (m : CancellationManager) : Prop := {
  registry : ∀ id n, dget id (_tasks m) = Some n ↔ ∃ c, calls m !! n = Some c ∧ c_id c = id ∧ got c = None;
  all_ok : ∀ n c, calls m !! n = Some c → call_ok c;
}.

Lemma update_inv m n c c' :
  manager_inv m → calls m !! n = Some c → c_id c' = c_id c → got c' = got c → call_ok c' →
  manager_inv (mkManager (_tasks m) (<[n := c']> (calls m))).
Proof.
  intros [H1 H2] Hn Hid Hgot Hok. split; cbn.
  - intros id k. rewrite H1. destruct (decide (k = n)) as [->|Hk].
    + rewrite list_lookup_insert_eq by (by eapply lookup_lt_Some). rewrite Hn. split.
      * intros (x & [= <-] & ? & ?). exists c'. by rewrite Hid, Hgot.
      * intros (x & [= <-] & ? & ?). exists c. by rewrite <- Hid, <- Hgot.
    + by rewrite list_lookup_insert_ne by done.
  - intros k x. destruct (decide (k = n)) as [->|Hk].
    + rewrite list_lookup_insert_eq by (by eapply lookup_lt_Some). by intros [= <-].
    + rewrite list_lookup_insert_ne by done. apply H2.
Qed.

Lemma cancel_inv id m : manager_inv m → manager_inv (cancel id m).2.
Proof.
  intros Hm. unfold cancel. destruct (dget id (_tasks m)) as [n|]; [|done]. cbn. destruct (calls m !! n) as [c|] eqn:En; [|done]. cbn.
  destruct (ended c) eqn:Ee; [done|]. cbn. eapply update_inv; [done|done|done|done|]. apply (all_ok m Hm n c En).
Qed.

Lemma cancel_all_inv l cm : manager_inv cm.2 → manager_inv (foldl cancel_one cm l).2.
Proof.
  revert cm. induction l as [|id l IH]; intros cm Hm; [done|]. cbn. apply IH. unfold cancel_one.
  pose proof (cancel_inv id cm.2 Hm). by destruct (cancel id cm.2).
Qed.

Lemma execute_inv id m m' : manager_inv m → execute_with_cancellation id m = Ok m' → manager_inv m'.
Proof.
  intros [H1 H2]. unfold execute_with_cancellation, dmem. destruct (bool_decide_reflect (is_Some (dget id (_tasks m)))) as [|Hno]; [done|].
  apply eq_None_not_Some in Hno. intros [= <-]. split; cbn.
  - intros k n. rewrite dget_dset. destruct (decide (k = id)) as [->|Hk].
    + split.
      * intros [= <-]. rewrite list_lookup_middle by done. by eexists.
      * intros (c & Hc & Hid & Hg). apply lookup_app_Some in Hc as [Hc|[Hlen Hc]].
        -- assert (dget id (_tasks m) = Some n) as E by (apply H1; by exists c). congruence.
        -- f_equal. apply lookup_lt_Some in Hc. cbn in Hc. lia.
    + rewrite H1. split; intros (c & Hc & Hid & Hg); exists c; split_and!; try done.
      * by apply lookup_app_l_Some.
      * apply lookup_app_Some in Hc as [Hc|[_ Hc]]; [done|]. apply list_lookup_singleton_Some in Hc as [_ <-]. by destruct Hk.
  - intros n c [Hc|[_ Hc]]%lookup_app_Some; [by apply (H2 n)|]. by apply list_lookup_singleton_Some in Hc as [_ <-].
Qed.

Lemma resume_inv m n c e :
  manager_inv m → calls m !! n = Some c → ended c = Some e → got c = None →
  manager_inv (mkManager (ddel (c_id c) (_tasks m)) (<[n := resume (reply_of (interrupted c) e) c]> (calls m))).
Proof.
  intros [H1 H2] Hn He Hg. assert (dget (c_id c) (_tasks m) = Some n) as Hreg by (apply H1; by exists c). split; cbn.
  - intros id k. rewrite dget_ddel. destruct (decide (k = n)) as [->|Hk].
    + rewrite list_lookup_insert_eq by (by eapply lookup_lt_Some). split; [|by intros (x & [= <-] & _ & ?)].
      case_decide; [done|]. rewrite H1. intros (x & Hx & <- & _). congruence.
    + rewrite list_lookup_insert_ne by done. rewrite <- H1. case_decide as Hid; [|done]. subst id. split; [done|]. intros E. congruence.
  - intros k x. destruct (decide (k = n)) as [->|Hk].
    + rewrite list_lookup_insert_eq by (by eapply lookup_lt_Some). intros [= <-]. cbn. by exists e.
    + rewrite list_lookup_insert_ne by done. apply H2.
Qed.

Lemma manager_step_inv m a m' : manager_inv m → True → manager_step m a = Some m' → manager_inv m'.
Proof.
  intros Hm _. destruct a as [id|id| |n e|n|n]; cbn [manager_step].
  - intros [= <-]. destruct (execute_with_cancellation id m) as [m1|] eqn:E; [|done]. by eapply execute_inv.
  - intros [= <-]. by apply cancel_inv.
  - intros [= <-]. by apply cancel_all_inv.
  - destruct (calls m !! n) as [c|] eqn:En; [|done]. destruct (ended c) eqn:Ee; [done|]. intros [= <-].
    eapply update_inv; try done. pose proof (all_ok m Hm n c En) as Hc. unfold call_ok in *. cbn. destruct (got c) as [r|]; [|done].
    destruct Hc as (? & ? & _). congruence.
  - destruct (calls m !! n) as [c|] eqn:En; [|done]. destruct (got c) eqn:Eg; [done|]. intros [= <-].
    eapply update_inv; try done; unfold call_ok, interrupt; destruct (ended c); cbn; by rewrite ?Eg.
  - destruct (calls m !! n) as [c|] eqn:En; [|done]. destruct (ended c) as [e|] eqn:Ee; [|done]. destruct (got c) eqn:Eg; [done|].
    intros [= <-]. by apply resume_inv.
Qed.

Lemma cancel_true id m : manager_inv m →
  (cancel id m).1 = true ↔ ∃ n c, calls m !! n = Some c ∧ c_id c = id ∧ got c = None ∧ ended c = None.
Proof.
  intros [H1 H2]. unfold cancel. split.
  - destruct (dget id (_tasks m)) as [n|] eqn:E; [|done]. cbn. apply H1 in E as (c & Hc & ? & ?). rewrite Hc. cbn.
    destruct (ended c) eqn:Ee; [done|]. intros _. by exists n, c.
  - intros (n & c & Hc & <- & Hg & He). assert (dget (c_id c) (_tasks m) = Some n) as -> by (apply H1; by exists c).
    cbn. rewrite Hc. cbn. by rewrite He.
Qed.

(** The manager keeps exactly the calls that are under way, at most one per identifier; a
    second call with such an identifier is refused and no other; [cancel] succeeds exactly
    if the task of the identifier has not ended; and each caller gets the ending of its
    own task, or [CancelledTaskError] if the task or the caller itself was cancelled. *)
Theorem cancellation_sound l m :
  exec manager_step manager_init l = Some m →
  (∀ id, id ∈ get_active m ↔ ∃ n c, calls m !! n = Some c ∧ c_id c = id ∧ got c = None)
  ∧ (∀ n n' c c', calls m !! n = Some c → calls m !! n' = Some c' → got c = None → got c' = None → c_id c = c_id c' → n = n')
  ∧ (∀ id, (∃ e, execute_with_cancellation id m = Err e) ↔ id ∈ get_active m)
  ∧ (∀ id, (cancel id m).1 = true ↔ ∃ n c, calls m !! n = Some c ∧ c_id c = id ∧ got c = None ∧ ended c = None)
  ∧ (∀ n c r, calls m !! n = Some c → got c = Some r → ∃ e, ended c = Some e ∧ r = reply_of (interrupted c) e).
Proof.
  intros Hl. assert (manager_inv m) as Hm.
  { revert Hl. apply (exec_invariant _ manager_inv (λ _, True)); [apply manager_step_inv|apply Forall_true_all|].
    split; cbn; [|done]. intros id n. split; [done|]. by intros (c & Hc & _). }
  pose proof Hm as [H1 H2]. split_and!.
  - intros id. unfold get_active. rewrite <- dget_is_Some. split.
    + intros [n (c & ?)%H1]. by exists n, c.
    + intros (n & c & ?). exists n. apply H1. by exists c.
  - intros n n' c c' Hc Hc' Hg Hg' E. apply (inj Some). rewrite <- (proj2 (H1 (c_id c) n)) by (by exists c). apply H1. by exists c'.
  - intros id. unfold execute_with_cancellation, get_active, dmem. rewrite <- dget_is_Some. case_bool_decide; [|split; [by intros []|done]].
    split; [done|]. by eexists.
  - intros id. by apply cancel_true.
  - intros n c r Hc Hg. pose proof (H2 n c Hc) as Hok. unfold call_ok in Hok. by rewrite Hg in Hok.
Qed.
End manager.

(** A caller under a timeout or in a cancelled task group gets [CancelledTaskError]
    instead of its own [CancelledError]: the cancellation is swallowed. *)
Example outer_cancellation_is_swallowed :
  (λ m, (map got (calls m), map requested (calls m)))
    <$> exec (manager_step (V := nat)) manager_init [Execute "t"; Settle 0 (Value 1); Interrupt 0; Resume 0]
  = Some ([Some CancelledTaskError], [false]).
Proof. reflexivity. Qed.
End Cancellation.

(** ** Graceful degradation *)
Section degradation.
Context {V Row : Type}.

(** A call to a service: whether it had its effect, and whether it raised. *)
Record fate := mkFate { effective : bool; raised : bool }.

(** [redis] is [None] without a client.  [wanted] and [volatile] are history: what the
    client has stored, and the keys last stored with a time to live. *)
Record GracefulDegradation := mkDegradation {
  redis : option (gmap string V);
  pg : bool;
  _memory_cache : list (string * V);
  _redis_healthy : bool;
  _pg_healthy : bool;
  fallback_files : list (string * (string * nat));
  wanted : gmap string V;
  volatile : gset string;
}.

Definition degradation_init (redis : option (gmap string V)) (pg : bool) : GracefulDegradation :=
  mkDegradation redis pg [] (bool_decide (is_Some redis)) pg [] ∅ ∅.

Definition set_health (r p : bool) (g : GracefulDegradation) : GracefulDegradation :=
  mkDegradation (redis g) (pg g) (_memory_cache g) r p (fallback_files g) (wanted g) (volatile g).

Definition set_redis (r : gmap string V) (g : GracefulDegradation) : GracefulDegradation :=
  mkDegradation (Some r) (pg g) (_memory_cache g) (_redis_healthy g) (_pg_healthy g) (fallback_files g) (wanted g) (volatile g).

Definition check_health (redis_ok pg_ok : bool) (g : GracefulDegradation) : GracefulDegradation :=
  set_health (if redis g then redis_ok else _redis_healthy g) (if pg g then pg_ok else _pg_healthy g) g.

Definition redis_down (g : GracefulDegradation) : GracefulDegradation := set_health false (_pg_healthy g) g.

Definition cache_get (key : string) (f : fate) (g : GracefulDegradation) : option V * GracefulDegradation :=
  match redis g with
  | Some r =>
      if _redis_healthy g then
        if raised f then (dget key (_memory_cache g), redis_down g) else (r !! key, g)
      else (dget key (_memory_cache g), g)
  | None => (dget key (_memory_cache g), g)
  end.

(** The part of [cache_set] and [cache_delete] that talks to Redis. *)
Definition on_redis (change : gmap string V → gmap string V) (f : fate) (g : GracefulDegradation) : GracefulDegradation :=
  match redis g with
  | Some r =>
      if _redis_healthy g then
        let g := if effective f || negb (raised f) then set_redis (change r) g else g in
        if raised f then redis_down g else g
      else g
  | None => g
  end.

(** A [ttl] of [None] or 0 stores without expiry. *)
Definition expires (ttl : option Z) : bool := match ttl with Some n => negb (n =? 0)%Z | None => false end.

Definition cache_set (key : string) (value : V) (ttl : option Z) (f : fate) (g : GracefulDegradation) : GracefulDegradation :=
  on_redis <[key := value]> f
    (mkDegradation (redis g) (pg g) (dset key value (_memory_cache g)) (_redis_healthy g) (_pg_healthy g) (fallback_files g)
       (<[key := value]> (wanted g)) (if expires ttl then {[key]} ∪ volatile g else volatile g ∖ {[key]})).

Definition cache_delete (key : string) (f : fate) (g : GracefulDegradation) : GracefulDegradation :=
  on_redis (delete key) f
    (mkDegradation (redis g) (pg g) (ddel key (_memory_cache g)) (_redis_healthy g) (_pg_healthy g) (fallback_files g)
       (delete key (wanted g)) (volatile g)).

(** The file is named after the time; it has the text of the query and the number of its
    arguments.  Failure to write it is only logged. *)
Definition _write_fallback (query : string) (args : nat) (ts : string) (written : bool) (g : GracefulDegradation) : GracefulDegradation :=
  if written then
    mkDegradation (redis g) (pg g) (_memory_cache g) (_redis_healthy g) (_pg_healthy g)
      (dset ("query_" +:+ ts +:+ ".json") (query, args) (fallback_files g)) (wanted g) (volatile g)
  else g.

(** [Some] answer of the pool, or [None] with the query put aside. *)
Definition db_execute (query : string) (args : nat) (answer : option Row) (ts : string) (written : bool) (g : GracefulDegradation) :
    option Row * GracefulDegradation :=
  if negb (_pg_healthy g) || negb (pg g) then (None, _write_fallback query args ts written g)
  else
    match answer with
    | Some a => (Some a, g)
    | None => (None, _write_fallback query args ts written (set_health (_redis_healthy g) false g))
    end.

Definition db_fetch (rows : option (list Row)) (g : GracefulDegradation) : list Row * GracefulDegradation :=
  if _pg_healthy g && pg g then
    match rows with Some l => (l, g) | None => ([], set_health (_redis_healthy g) false g) end
  else ([], g).

Definition get_status (g : GracefulDegradation) : string * string * nat :=
  ((if _redis_healthy g then "healthy" else "degraded"), (if _pg_healthy g then "healthy" else "degraded"), length (_memory_cache g)).

Inductive gact :=
  | Health (redis_ok pg_ok : bool)
  | Get (key : string) (f : fate)
  | Set_ (key : string) (value : V) (ttl : option Z) (f : fate)
  | Delete (key : string) (f : fate)
  | Expire (key : string)
  | Query (query : string) (args : nat) (answer : option Row) (ts : string) (written : bool)
  | Fetch (rows : option (list Row)).

Definition degradation_step (g : GracefulDegradation) (a : gact) : option GracefulDegradation :=
  match a with
  | Health r p => Some (check_health r p g)
  | Get k f => Some (cache_get k f g).2
  | Set_ k v ttl f => Some (cache_set k v ttl f g)
  | Delete k f => Some (cache_delete k f g)
  | Expire k => if decide (k ∈ volatile g) then (λ r, set_redis (delete k r) g) <$> redis g else None
  | Query q n a ts w => Some (db_execute q n a ts w g).2
  | Fetch rows => Some (db_fetch rows g).2
  end.

(** Redis comes back: the outage is over and reads go to Redis again. *)
Definition no_recovery (a : gact) : Prop := match a with Health true _ => False | _ => True end.

Record cache_inv (g : GracefulDegradation) : Prop := {
  memory_exact : ∀ k, dget k (_memory_cache g) = wanted g !! k;
  redis_exact : ∀ r k, redis g = Some r → _redis_healthy g = true → r !! k = wanted g !! k ∨ k ∈ volatile g ∧ r !! k = None;
}.

Lemma set_health_inv r p g : (r = true → _redis_healthy g = true) → cache_inv g → cache_inv (set_health r p g).
Proof. intros Hr [H1 H2]. split; cbn; [done|]. intros m k Hm E. apply H2; [done|]. by apply Hr. Qed.

Lemma write_fallback_inv q n ts w g : cache_inv g → cache_inv (_write_fallback q n ts w g).
Proof. intros [H1 H2]. unfold _write_fallback. by destruct w. Qed.

Lemma on_redis_inv change f g :
  (∀ k, dget k (_memory_cache g) = wanted g !! k) →
  (∀ r k, redis g = Some r → _redis_healthy g = true → change r !! k = wanted g !! k ∨ k ∈ volatile g ∧ change r !! k = None) →
  cache_inv (on_redis change f g).
Proof.
  intros H1 H2. unfold on_redis. destruct (redis g) as [r|] eqn:Er; [|split; [done|by rewrite Er]].
  destruct (_redis_healthy g) eqn:Eh; [|split; [done|intros ? ? _ E; congruence]].
  destruct (raised f); [split; [destruct (_ || _); exact H1|done]|]. rewrite orb_true_r. split; [done|]. cbn. intros r' k [= <-] _. by apply H2.
Qed.

Lemma degradation_step_inv g a g' : cache_inv g → no_recovery a → degradation_step g a = Some g' → cache_inv g'.
Proof.
  intros Hg Ha. pose proof Hg as [H1 H2]. destruct a as [r p|k f|k v ttl f|k f|k|q n a ts w|rows]; cbn [degradation_step].
  - intros [= <-]. destruct r; [done|]. apply set_health_inv; [|done]. by destruct (redis g).
  - intros [= <-]. unfold cache_get. destruct (redis g); [|done]. destruct (_redis_healthy g); [|done].
    destruct (raised f); [|done]. by apply set_health_inv.
  - intros [= <-]. unfold cache_set. apply on_redis_inv; cbn.
    + intros k'. rewrite dget_dset. destruct (decide (k' = k)) as [->|Hk]; [by rewrite lookup_insert_eq|]. by rewrite lookup_insert_ne.
    + intros r k' Hr Hh. destruct (decide (k' = k)) as [->|Hk]; [left; by rewrite !lookup_insert_eq|]. rewrite !lookup_insert_ne by done.
      destruct (H2 r k' Hr Hh) as [?|[? ?]]; [by left|right]. split; [|done]. destruct (expires ttl); set_solver.
  - intros [= <-]. unfold cache_delete. apply on_redis_inv; cbn.
    + intros k'. rewrite dget_ddel. destruct (decide (k' = k)) as [->|Hk]; [by rewrite lookup_delete_eq|]. by rewrite lookup_delete_ne.
    + intros r k' Hr Hh. destruct (decide (k' = k)) as [->|Hk]; [left; by rewrite !lookup_delete_eq|]. rewrite !lookup_delete_ne by done. by apply H2.
  - case_decide as Hk; [|done]. destruct (redis g) as [r|] eqn:Er; [|done]. intros [= <-]. split; cbn; [done|].
    intros r' k' [= <-] Hh. destruct (decide (k' = k)) as [->|Hne]; [right; by rewrite lookup_delete_eq|].
    rewrite lookup_delete_ne by done. by apply H2.
  - intros [= <-]. unfold db_execute. destruct (_ || _); [by apply write_fallback_inv|]. destruct a; [done|]. cbn.
    apply write_fallback_inv. by apply set_health_inv.
  - intros [= <-]. unfold db_fetch. destruct (_ && _); [|done]. destruct rows; [done|]. by apply set_health_inv.
Qed.

(** The fallback of the cache is transparent until Redis comes back.  Whatever calls
    to Redis fail, with or without effect, as long as no health check has found Redis
    healthy again [cache_get] returns what was last stored under the key, or nothing if it
    was deleted or never stored; only a key stored with a time to live may be missing
    while it is still wanted.  The database side never loses track of a statement: it was
    answered by the pool, or it is the latest entry under its time in the fallback
    directory, unless that write failed. *)
Theorem degradation_transparent r p l g :
  exec degradation_step (degradation_init r p) l = Some g → Forall no_recovery l → (∀ m, r = Some m → m = ∅) →
  (∀ k f, (cache_get k f g).1 = wanted g !! k ∨ k ∈ volatile g ∧ (cache_get k f g).1 = None)
  ∧ (∀ q n a ts, match (db_execute q n a ts true g).1 with
       | Some x => a = Some x ∧ pg g = true
       | None => dget ("query_" +:+ ts +:+ ".json") (fallback_files (db_execute q n a ts true g).2) = Some (q, n)
       end).
Proof.
  intros Hl Hrec Hr. assert (cache_inv g) as [H1 H2].
  { revert Hrec Hl. intros Hrec. apply (exec_invariant _ cache_inv no_recovery); [apply degradation_step_inv|done|].
    split; cbn; [done|]. intros m k -> _. left. by rewrite (Hr m eq_refl). }
  split.
  - intros k f. unfold cache_get. destruct (redis g) as [m|] eqn:Em; [|left; apply H1].
    destruct (_redis_healthy g) eqn:Eh; [|left; apply H1]. destruct (raised f); [left; apply H1|]. by apply H2.
  - intros q n a ts. unfold db_execute. destruct (_pg_healthy g); cbn [negb orb].
    + destruct (pg g) eqn:Ep; cbn [negb]; [destruct a as [x|]; [done|]|]; cbn; apply dget_dset_eq.
    + cbn. apply dget_dset_eq.
Qed.
End degradation.

Definition demo_degradation := degradation_step (V := string) (Row := string).
Definition calm : fate := mkFate true false.
Definition timeout_after : fate := mkFate true true.

Lemma degradation_transparent_witness :
  ∃ g, exec demo_degradation (degradation_init (Some ∅) true)
         [Set_ "a" "1" None calm; Set_ "a" "2" None (mkFate false true); Query "insert" 2 None "t1" true] = Some g
    ∧ (cache_get "a" calm g).1 = Some "2".
Proof.
  destruct (exec demo_degradation _ _) as [g|] eqn:E; [|by vm_compute in E]. exists g. split; [done|].
  destruct (degradation_transparent _ _ _ _ E ltac:(repeat constructor) ltac:(by intros m [= <-])) as [H _].
  specialize (H "a" calm). vm_compute in E. injection E as <-. destruct H as [H|[H _]]; [exact H|]. by vm_compute in H.
Defined.

(** After an outage Redis still has what was deleted meanwhile, and not what was stored. *)
Example deleted_key_returns_after_recovery :
  (λ g, ((cache_get "a" calm g).1, (cache_get "b" calm g).1, dget "b" (_memory_cache g)))
    <$> exec demo_degradation (degradation_init (Some ∅) true)
          [Set_ "a" "1" None calm; Health false true; Delete "a" calm; Set_ "b" "2" None calm; Health true true]
  = Some (Some "1", None, Some "2").
Proof. by vm_compute. Qed.

(** The dictionary has no times to live: during an outage an expired value is served. *)
Example expired_value_during_outage :
  (λ g, ((cache_get "a" calm g).1, (cache_get "a" timeout_after g).1))
    <$> exec demo_degradation (degradation_init (Some ∅) true) [Set_ "a" "1" (Some 1%Z) calm; Expire "a"]
  = Some (None, Some "1").
Proof. by vm_compute. Qed.

(** Two statements put aside at the same time of the clock share a file: one is lost. *)
Example fallback_file_overwritten :
  fallback_files <$> exec demo_degradation (degradation_init None false) [Query "q1" 0 None "t" true; Query "q2" 0 None "t" true]
  = Some [("query_t.json", ("q2", 0))].
Proof. by vm_compute. Qed.
