(* ===== verification/Evolution.v ===== *)
(** * Self-evolution ([noema/evolution/engine.py], [noema/evolution/git_evolution.py])

    [EvolutionEngine] looks for issues in its own sources, asks the language model for
    patches and lands them under a policy: switched off, tested first, proposed only.  The
    worktree is a map from names to contents; the order of [rglob], the language model,
    [json.loads], the test suite and the compiler of [py_compile] are parameters.  Each run
    of the tests may answer differently, so the suite is a function of the number of the run
    and of the worktree it runs on; likewise the language model.  Reading a file as text
    turns its line ends into newlines; [py_compile] leaves bytecode under [__pycache__].
    What the tests write into the worktree is not modelled, and file operations fail only
    for text that UTF-8 cannot encode.

    [Git] has the branch workflow over a repository of which only the documented effects
    of the git commands are assumed. *)
From Stdlib Require Import ZArith QArith Lia Bool Ascii String.
From stdpp Require Import base gmap option sets strings pretty list.
From S2P Require Import Prelude.
Local Open Scope string_scope.
Local Open Scope list_scope.
Local Open Scope nat_scope.

Abbreviation files := (gmap string string).

(** ** Text *)
Definition nl : string := String (ascii_of_nat 10) "".

Definition quoted (s : string) : string := let q := String (ascii_of_nat 34) "" in q +:+ s +:+ q.

Definition occurs (sub s : string) : bool := match String.index 0 sub s with Some _ => true | None => false end.

(** [s.split(c)]. *)
Fixpoint split_on (c : ascii) (s : string) : list string :=
  match s with
  | EmptyString => [""]
  | String a t =>
      if Ascii.eqb a c then "" :: split_on c t
      else match split_on c t with l :: ls => String a l :: ls | [] => [String a ""] end
  end.

Definition lf : ascii := ascii_of_nat 10.
Definition cr : ascii := ascii_of_nat 13.
Definition split_lines : string → list string := split_on lf.

(** What [read_text] makes of the line ends. *)
Fixpoint universal (s : string) : string :=
  match s with
  | EmptyString => ""
  | String a t =>
      if Ascii.eqb a cr then
        match t with
        | String b t' => if Ascii.eqb b lf then String lf (universal t') else String lf (universal t)
        | EmptyString => String lf ""
        end
      else String a (universal t)
  end.

(** ** Names of files, relative to the project *)
Definition path_parts (n : string) : list string := split_on "/" n.

(** Everything but the bytecode. *)
Definition source (n : string) : bool := negb (bool_decide ("__pycache__" ∈ path_parts n)).

(** [importlib.util.cache_from_source], the file [py_compile] writes; [tag] is the one of
    the interpreter. *)
Definition base_stem (b : string) : string :=
  match rev (split_on "." b) with
  | [] => b
  | ext :: l => let base := String.concat "." (rev l) in if nonempty base then base else ext
  end.
Definition cache_from_source (tag n : string) : string :=
  String.concat "" (map (λ d, d +:+ "/") (removelast (path_parts n))) +:+ "__pycache__/"
  +:+ base_stem (List.last (path_parts n) "") +:+ "." +:+ tag +:+ ".pyc".

Lemma append_assoc (a b c : string) : (a +:+ b) +:+ c = a +:+ (b +:+ c).
Proof. induction a as [|x a IH]; [done|]. exact (f_equal (String x) IH). Qed.

Lemma split_on_app c a b : split_on c (a +:+ String c b) = split_on c a ++ split_on c b.
Proof.
  induction a as [|x a IH]; [change ("" +:+ String c b) with (String c b); cbn [split_on]; by rewrite Ascii.eqb_refl|].
  change (String x a +:+ String c b) with (String x (a +:+ String c b)). cbn [split_on]. rewrite IH.
  destruct (Ascii.eqb x c); [done|]. destruct (split_on c a) as [|l ls] eqn:E; [|done].
  destruct a as [|y a]; [done|]. cbn [split_on] in E. destruct (Ascii.eqb y c); [done|]. by destruct (split_on c a).
Qed.

Lemma cache_not_source tag n : source (cache_from_source tag n) = false.
Proof.
  unfold source, cache_from_source. apply negb_false_iff, bool_decide_eq_true. induction (removelast (path_parts n)) as [|d ds IH].
  - cbn [map String.concat]. unfold path_parts. change ("__pycache__/" +:+ ?x) with ("__pycache__" +:+ String "/" x).
    change ("" +:+ ?x) with x. rewrite split_on_app. apply elem_of_app. left. vm_compute. left.
  - assert (String.concat "" (map (λ d, d +:+ "/") (d :: ds)) = d +:+ String "/" (String.concat "" (map (λ d, d +:+ "/") ds))) as ->.
    { cbn [map String.concat]. destruct (map (λ d, d +:+ "/") ds) as [|x l]; [done|]. by rewrite append_assoc. }
    rewrite append_assoc. unfold path_parts. change (String "/" ?a +:+ ?b) with (String "/" (a +:+ b)).
    rewrite split_on_app. apply elem_of_app. by right.
Qed.

Fixpoint last_char (s : string) : option ascii :=
  match s with EmptyString => None | String a t => match last_char t with Some b => Some b | None => Some a end end.

Lemma file_last_char a b c : last_char b = Some c → last_char (a +:+ b) = Some c.
Proof.
  intros Hb. induction a as [|x a IH]; [done|]. change (String x a +:+ b) with (String x (a +:+ b)). cbn [last_char].
  by rewrite IH.
Qed.

Lemma cache_not_backup tag n k : k +:+ ".bak" ≠ cache_from_source tag n.
Proof.
  intros E. assert (last_char (k +:+ ".bak") = Some "k"%char) as Hk by (by apply file_last_char).
  rewrite E in Hk. assert (last_char (cache_from_source tag n) = Some "c"%char); [|congruence]. by repeat apply file_last_char.
Qed.

Lemma backup_differs n : n +:+ ".bak" ≠ n.
Proof.
  induction n as [|a n IH]; [done|]. change (String a n +:+ ".bak") with (String a (n +:+ ".bak")). intros [= E]. by apply IH.
Qed.

Lemma backup_longer n : 4 ≤ String.length (n +:+ ".bak").
Proof. induction n as [|a n IH]; [done|]. change (4 ≤ S (String.length (n +:+ ".bak"))). lia. Qed.

Lemma backup_inj n k : n +:+ ".bak" = k +:+ ".bak" → n = k.
Proof.
  revert k. induction n as [|a n IH]; intros [|b k]; [done|..].
  - intros E. apply (f_equal String.length) in E. change (4 = S (String.length (k +:+ ".bak"))) in E. pose proof (backup_longer k). lia.
  - intros E. apply (f_equal String.length) in E. change (S (String.length (n +:+ ".bak")) = 4) in E. pose proof (backup_longer n). lia.
  - intros [= -> E]. f_equal. by apply IH.
Qed.

Lemma universal_idem s : universal (universal s) = universal s.
Proof.
  assert (∀ n s, String.length s ≤ n → universal (universal s) = universal s) as H; [|by eapply H].
  induction n as [|n IH]; intros [|a t] Hl; try done; [cbn in Hl; lia|]. cbn [String.length] in Hl. cbn [universal].
  destruct (Ascii.eqb a cr) eqn:Ea.
  - destruct t as [|b t']; [done|]. cbn [String.length] in Hl. destruct (Ascii.eqb b lf).
    + change (String lf (universal (universal t')) = String lf (universal t')). f_equal. apply IH. lia.
    + change (String lf (universal (universal (String b t'))) = String lf (universal (String b t'))). f_equal. apply IH. cbn. lia.
  - cbn [universal]. rewrite Ea. f_equal. apply IH. lia.
Qed.

(** What follows the first newline: [s.split(newline, 1)[1]], which may be missing. *)
Fixpoint after_newline (s : string) : option string :=
  match s with
  | EmptyString => None
  | String a t => if Ascii.eqb a (ascii_of_nat 10) then Some t else after_newline t
  end.

Definition has_suffix (suf s : string) : bool :=
  (String.length suf <=? String.length s)%nat
  && String.eqb (substring (String.length s - String.length suf) (String.length suf) s) suf.

(** The text inside a fenced block; [None] is an [IndexError]. *)
Definition unfence (text : string) : option string :=
  if String.prefix "```" text then
    (λ t, if has_suffix "```" t then substring 0 (String.length t - 3) t else t) <$> after_newline text
  else Some text.

(** ** Patches and results *)
Record EvolutionPatch := mkPatch {
  target : string; description : string; original_code : string; patched_code : string; rationale : string; confidence : Q;
  applied : bool; tests_passed : bool; tests_output : string;
}.

Definition with_tests (ok : bool) (out : string) (p : EvolutionPatch) : EvolutionPatch :=
  mkPatch (target p) (description p) (original_code p) (patched_code p) (rationale p) (confidence p) (applied p) ok out.

Definition with_applied (b : bool) (p : EvolutionPatch) : EvolutionPatch :=
  mkPatch (target p) (description p) (original_code p) (patched_code p) (rationale p) (confidence p) b (tests_passed p) (tests_output p).

Definition with_original (c : string) (p : EvolutionPatch) : EvolutionPatch :=
  mkPatch (target p) (description p) c (patched_code p) (rationale p) (confidence p) (applied p) (tests_passed p) (tests_output p).

Record EvolutionResult := mkResult {
  patches_generated : nat; patches_applied : nat; patches_proposed : nat; patches_rejected : nat;
  evolution_cycle : nat; summary : string; improvements : list string;
}.

Record EvolutionEngine := mkEngine {
  enabled : bool; test_before_apply : bool; auto_apply : bool; max_patches_per_cycle : Z;
  history : list EvolutionResult; patches : list EvolutionPatch; _cycle : nat;
}.

(** An argument that is given overrides the setting. *)
Definition engine_init (settings : bool * bool * bool) (max_patches : Z) (en test auto : option bool) : EvolutionEngine :=
  let '(s_en, s_test, s_auto) := settings in
  mkEngine (default s_en en) (default s_test test) (default s_auto auto) max_patches [] [] 0.

Record issue := mkIssue { i_file : string; i_type : string; severity : string }.

Record analysis := mkAnalysis { issues : list issue; splits : list (string * nat); total_files : nat }.

(** How the test runner ends. *)
Inductive test_outcome := Ran (ok : bool) (output : string) | RunnerRaised (e : string) | RunnerCancelled.

(** The subprocess of the default runner. *)
Inductive proc_outcome := Exited (code : Z) (stdout stderr : string) | TimedOut.

Definition _default_test_runner (proc : nat → files → proc_outcome) (n : nat) (fs : files) : test_outcome :=
  match proc n fs with
  | Exited code out err => Ran (code =? 0)%Z (out +:+ err)
  | TimedOut => Ran false "tests timed out after 300s"
  end.

(** What ends a cycle early: it is cancelled while the tests run, or the patched code
    has characters that UTF-8 does not encode. *)
Inductive abort := Cancelled | EncodeError.

Section engine.
Context (rglob : files → list string) (root_parts : list string) (tag : string) (decodes encodes : string → bool).
Context (complete : nat → string → option string) (loads : string → option json) (as_float : json → option Q).
Context (test_runner : nat → files → test_outcome) (bytecode : string → string → option string).

(** *** Analysis *)
Definition excluded : list string :=
  [".venv"; "venv"; "env"; ".git"; "__pycache__"; "node_modules"; "build"; "dist"; ".mypy_cache"; ".pytest_cache";
   ".ruff_cache"; ".hypothesis"; ".benchmarks"; ".noema"; ".idea"; ".vscode"].

Definition is_def (line : string) : bool := let l := strip line in String.prefix "def " l || String.prefix "async def " l.

Definition analyze_content (name content : string) : list issue * list (string * nat) :=
  if (String.length content <? 50)%nat then ([], [])
  else
    let lines := split_lines content in
    let func_count := length (filter (λ l, is_def l = true) lines) in
    ((if occurs "TODO" content || occurs "FIXME" content then [mkIssue name "todo_fixme" "medium"] else [])
     ++ (if occurs "except:" content || occurs "except Exception:" content then [mkIssue name "bare_except" "low"] else [])
     ++ (if (500 <? length lines)%nat then [mkIssue name "large_file" "medium"] else []),
     if (20 <? func_count)%nat then [(name, func_count)] else []).

Definition analyze_file (fs : files) (name : string) : list issue * list (string * nat) :=
  if existsb (λ p, bool_decide (p ∈ excluded)) (root_parts ++ path_parts name) then ([], [])
  else
    match fs !! name with
    | Some content => if decodes content then analyze_content name (universal content) else ([], [])
    | None => ([], [])
    end.

Definition analyze_self (fs : files) : analysis :=
  let found := map (analyze_file fs) (rglob fs) in
  mkAnalysis (concat (map fst found)) (concat (map snd found)) (length (rglob fs)).

(** *** Generation *)
Definition patch_prompt (target_file : string) (i : issue) (content : string) : string :=
  "You are a code improvement engine. Analyze this code and generate a patch." +:+ nl +:+ nl
  +:+ "File: " +:+ target_file +:+ nl +:+ "Issue type: " +:+ i_type i +:+ nl +:+ "Issue severity: " +:+ severity i +:+ nl +:+ nl
  +:+ "Code:" +:+ nl +:+ "```python" +:+ nl +:+ substring 0 4000 content +:+ nl +:+ "```" +:+ nl +:+ nl
  +:+ "Respond in JSON:" +:+ nl +:+ "{" +:+ nl
  +:+ "    " +:+ quoted "patched_code" +:+ ": " +:+ quoted "the full improved code" +:+ "," +:+ nl
  +:+ "    " +:+ quoted "rationale" +:+ ": " +:+ quoted "why this change improves the code" +:+ "," +:+ nl
  +:+ "    " +:+ quoted "confidence" +:+ ": 0.0-1.0," +:+ nl
  +:+ "    " +:+ quoted "description" +:+ ": " +:+ quoted "what changed" +:+ nl +:+ "}" +:+ nl.

Definition str_or (k dflt : string) (d : list (string * json)) : option string :=
  match dget k d with Some (JStr s) => Some s | Some _ => None | None => Some dflt end.

(** The patch in the answer of the model; [None] if anything about it is wrong. *)
Definition parse_patch (target_file content response : string) : option EvolutionPatch :=
  unfence (strip response) ≫= λ text,
  match loads text with
  | Some (JObj d) =>
      str_or "description" "" d ≫= λ descr, str_or "patched_code" content d ≫= λ code, str_or "rationale" "" d ≫= λ why,
      (match dget "confidence" d with Some j => as_float j | None => Some (1 # 2)%Q end) ≫= λ conf,
      Some (mkPatch target_file descr content code why conf false false "")
  | _ => None
  end.

Definition generate_patch (n : nat) (target_file : string) (i : issue) (fs : files) : option EvolutionPatch :=
  (universal <$> fs !! target_file) ≫= λ content,
  complete n (patch_prompt target_file i content) ≫= parse_patch target_file content.

(** *** Landing *)

(** [write_text] empties the file before it finds that the text cannot be encoded; here
    the handler puts the original back. *)
Definition apply_patch (p : EvolutionPatch) (dry_run : bool) (fs : files) : bool * EvolutionPatch * files :=
  match fs !! target p with
  | None => (false, p, fs)
  | Some current =>
      if dry_run then (true, p, fs)
      else
        let original := if nonempty (original_code p) then original_code p else universal current in
        let backup := target p +:+ ".bak" in
        let fs := <[backup := original]> fs in
        let failed fs := (false, with_applied false (with_tests false (tests_output p) p), delete backup (<[target p := original]> fs)) in
        if encodes (patched_code p) then
          let fs := <[target p := patched_code p]> fs in
          match bytecode (target p) (patched_code p) with
          | Some code => (true, with_applied true p, delete backup (<[cache_from_source tag (target p) := code]> fs))
          | None => failed fs
          end
        else failed (<[target p := ""]> fs)
  end.

(** The worktree with the number of test runs so far. *)
Record world := mkWorld { tree : files; runs : nat }.

(** [Err]: the cycle ends with an exception; of the engine nothing is kept track of then
    but the worktree. *)
Definition _validate_and_land (e : EvolutionEngine) (p : EvolutionPatch) (w : world) : result abort (bool * EvolutionPatch) * world :=
  match tree w !! target p with
  | None => (Ok (false, p), w)
  | Some current =>
      let original := if nonempty (original_code p) then original_code p else universal current in
      let p := with_original original p in
      let land (p : EvolutionPatch) (w : world) :=
        if negb (auto_apply e) then (Ok (true, with_applied false p), mkWorld (<[target p := original]> (tree w)) (runs w))
        else let '(ok, p, fs) := apply_patch p false (tree w) in (Ok (ok, p), mkWorld fs (runs w)) in
      if test_before_apply e then
        if encodes (patched_code p) then
          let patched := <[target p := patched_code p]> (tree w) in
          let red output := (Ok (false, with_tests false output p), mkWorld (<[target p := original]> patched) (S (runs w))) in
          match test_runner (runs w) patched with
          | Ran true output => land (with_tests true output p) (mkWorld patched (S (runs w)))
          | Ran false output => red output
          | RunnerRaised x => red x
          | RunnerCancelled => (Err Cancelled, mkWorld patched (S (runs w)))
          end
        else (Err EncodeError, mkWorld (<[target p := ""]> (tree w)) (runs w))
      else land p w
  end.

Definition bump (p : EvolutionPatch) (landed : bool) (r : EvolutionResult) : EvolutionResult :=
  let '(a, o, j) := if negb landed then (0, 0, 1) else if applied p then (1, 0, 0) else (0, 1, 0) in
  mkResult (S (patches_generated r)) (patches_applied r + a) (patches_proposed r + o) (patches_rejected r + j) (evolution_cycle r) (summary r)
    (improvements r ++ if (landed && applied p)%bool then ["Applied patch to " +:+ target p +:+ ": " +:+ description p] else []).

(** The loop over the issues; the third component counts the calls of the generator. *)
Fixpoint evolve (generate : nat → string → issue → files → option EvolutionPatch) (e : EvolutionEngine) (n : nat) (l : list issue)
    (ps : list EvolutionPatch) (r : EvolutionResult) (w : world) : result abort (list EvolutionPatch * EvolutionResult) * world :=
  match l with
  | [] => (Ok (ps, r), w)
  | i :: l =>
      match generate n (i_file i) i (tree w) with
      | None => evolve generate e (S n) l ps r w
      | Some p =>
          let '(res, w) := _validate_and_land e p w in
          match res with
          | Err x => (Err x, w)
          | Ok (landed, p) => evolve generate e (S n) l (ps ++ [p]) (bump p landed r) w
          end
      end
  end.

(** [xs[:n]]. *)
Definition py_prefix {A} (n : Z) (l : list A) : list A :=
  if (n <? 0)%Z then take (length l - Z.to_nat (- n)) l else take (Z.to_nat n) l.

Definition cycle_summary (r : EvolutionResult) : string :=
  let s n := pretty (N.of_nat n) in
  "Cycle " +:+ s (evolution_cycle r) +:+ ": " +:+ s (patches_generated r) +:+ " generated, " +:+ s (patches_applied r) +:+ " applied, "
  +:+ s (patches_proposed r) +:+ " proposed, " +:+ s (patches_rejected r) +:+ " rejected".

Definition with_summary (t : string) (r : EvolutionResult) : EvolutionResult :=
  mkResult (patches_generated r) (patches_applied r) (patches_proposed r) (patches_rejected r) (evolution_cycle r) t (improvements r).

Definition finish_cycle (e : EvolutionEngine) (ps : list EvolutionPatch) (r : EvolutionResult) : EvolutionEngine :=
  mkEngine (enabled e) (test_before_apply e) (auto_apply e) (max_patches_per_cycle e) (history e ++ [r]) (patches e ++ ps) (_cycle e).

Definition run_evolution_cycle (generate : nat → string → issue → files → option EvolutionPatch) (e : EvolutionEngine) (w : world) :
    result abort (EvolutionResult * EvolutionEngine) * world :=
  let e := mkEngine (enabled e) (test_before_apply e) (auto_apply e) (max_patches_per_cycle e) (history e) (patches e) (S (_cycle e)) in
  let r := mkResult 0 0 0 0 (_cycle e) "" [] in
  if negb (enabled e) then
    let r := with_summary ("Cycle " +:+ pretty (N.of_nat (_cycle e)) +:+ ": evolution disabled by settings") r in
    (Ok (r, finish_cycle e [] r), w)
  else
    let '(res, w) := evolve generate e 0 (py_prefix (max_patches_per_cycle e) (issues (analyze_self (tree w)))) [] r w in
    match res with
    | Err x => (Err x, w)
    | Ok (ps, r) => let r := with_summary (cycle_summary r) r in (Ok (r, finish_cycle e ps r), w)
    end.

(** *** Prompts *)
Record failed_trace := mkTrace { output : string; judge_score : json; weaknesses : list string }.

Definition optimize_prompt (format : string → string → string) (dumps : json → string) (answer : string → option string)
    (current_prompt : string) (failed : list failed_trace) : string :=
  match failed with
  | [] => current_prompt
  | _ =>
      let show t := "Output: " +:+ substring 0 500 (output t) +:+ nl +:+ "Judge: " +:+ dumps (judge_score t) +:+ nl
                    +:+ "Weaknesses: " +:+ String.concat ", " (weaknesses t) in
      let traces := String.concat (nl +:+ "---" +:+ nl) (map show (drop (length failed - 5) failed)) in
      match answer (format current_prompt traces) ≫= (λ a, unfence (strip a)) with
      | Some t => strip t
      | None => current_prompt
      end
  end.

Record evolution_stats := mkStats { total_cycles : nat; total_patches : nat; s_applied : nat; s_proposed : nat; s_rejected : nat; improvement_rate : Q }.

Definition count (f : EvolutionPatch → bool) (l : list EvolutionPatch) : nat := length (filter (λ p, f p = true) l).

Definition get_stats (e : EvolutionEngine) : evolution_stats :=
  let ps := patches e in
  let a := count applied ps in
  mkStats (_cycle e) (length ps) a (count (λ p, negb (applied p) && tests_passed p) ps)
    (count (λ p, negb (applied p) && negb (tests_passed p)) ps)
    (inject_Z (Z.of_nat a) / inject_Z (Z.of_nat (Nat.max (length ps) 1)))%Q.

(** *** The landing policy *)

(** No source file has a backup beside it. *)
Definition no_backups (fs : files) : Prop := ∀ n, source n = true → is_Some (fs !! n) → fs !! (n +:+ ".bak") = None.

(** The same sources, up to their line ends. *)
Definition same (fs fs' : files) : Prop := ∀ n, source n = true → universal <$> fs !! n = universal <$> fs' !! n.

#[export] Instance same_equivalence : Equivalence same.
Proof.
  split; [by intros fs n|intros f g H n Hn; by rewrite H|intros f g h H1 H2 n Hn; by rewrite H1, H2].
Qed.

Lemma same_names fs fs' n : same fs fs' → source n = true → is_Some (fs !! n) ↔ is_Some (fs' !! n).
Proof. intros H Hn. by rewrite <- (fmap_is_Some universal (fs !! n)), (H n Hn), fmap_is_Some. Qed.

(** What a generator promises: a new patch for the file, with the text it started from. *)
Definition honest (generate : nat → string → issue → files → option EvolutionPatch) : Prop :=
  ∀ n f i fs p, generate n f i fs = Some p →
    applied p = false ∧ target p = f ∧ (original_code p = "" ∨ universal <$> fs !! f = Some (original_code p)).

Lemma generate_patch_honest : honest generate_patch.
Proof.
  intros n f i fs p. unfold generate_patch. destruct (fs !! f) as [content|] eqn:Ef; [|done]. cbn.
  destruct (complete _ _) as [a|]; [|done]. cbn. unfold parse_patch. destruct (unfence _) as [t|]; [|done]. cbn.
  destruct (loads t) as [[| | | | |d]|]; try done. destruct (str_or "description" _ d) as [x|]; [|done]. cbn.
  destruct (str_or "patched_code" _ d) as [y|]; [|done]. cbn. destruct (str_or "rationale" _ d) as [z|]; [|done]. cbn.
  destruct (match dget "confidence" d with Some _ => _ | None => _ end); [|done]. intros [= <-]. cbn. auto.
Qed.

(** A file with a new text [x], the bytecode and the backup of it apart. *)
Lemma touched_same (fs fs' : files) n x :
  no_backups fs → source n = true → is_Some (fs !! n) → fs' !! n = Some x → fs' !! (n +:+ ".bak") = None →
  (∀ k, k ≠ n → k ≠ n +:+ ".bak" → k ≠ cache_from_source tag n → fs' !! k = fs !! k) →
  no_backups fs' ∧ same fs' (<[n := x]> fs).
Proof.
  intros Hno Hs Hn Hx Hb Ho. assert (∀ k, source k = true → k ≠ cache_from_source tag n) as Hc.
  { intros k Hk ->. by rewrite cache_not_source in Hk. }
  assert (∀ k, source k = true → is_Some (fs' !! k) → is_Some (fs !! k)) as Hsub.
  { intros k Hk [y Hy]. destruct (decide (k = n)) as [->|Hkn]; [done|].
    destruct (decide (k = n +:+ ".bak")) as [->|Hkb]; [congruence|]. rewrite <- Ho; [by exists y|done..|by apply Hc]. }
  split.
  - intros k Hk Hin%Hsub; [|done]. pose proof (Hno k Hk Hin) as Hkb. destruct (decide (k = n)) as [->|Hkn]; [done|].
    rewrite Ho; [done|..].
    + intros E. rewrite E in Hkb. rewrite Hkb in Hn. by destruct Hn.
    + intros E. apply Hkn. by eapply backup_inj.
    + apply cache_not_backup.
  - intros k Hk. f_equal. destruct (decide (k = n)) as [->|Hkn]; [by rewrite lookup_insert_eq|]. rewrite lookup_insert_ne by done.
    destruct (decide (k = n +:+ ".bak")) as [->|Hkb]; [rewrite Hb; symmetry; by apply Hno|]. apply Ho; [done..|by apply Hc].
Qed.

Lemma write_same fs n x : no_backups fs → source n = true → is_Some (fs !! n) → no_backups (<[n := x]> fs).
Proof.
  intros Hno Hs Hn. apply (touched_same fs (<[n := x]> fs) n x); try done; [by rewrite lookup_insert_eq| |].
  - rewrite lookup_insert_ne by (intros E; by apply (backup_differs n)). by apply Hno.
  - intros k Hk _ _. by rewrite lookup_insert_ne.
Qed.

(** What became of the worktree when a patch was handled. *)
Definition respects (e : EvolutionEngine) (fs fs' : files) : Prop :=
  no_backups fs' ∧ (∀ n, source n = true → is_Some (fs' !! n) ↔ is_Some (fs !! n)) ∧ (auto_apply e = false → same fs' fs)
  ∧ (test_before_apply e = true → same fs' fs ∨ ∃ n tested out, test_runner n tested = Ran true out ∧ same fs' tested).

Lemma respects_same e fs fs' : no_backups fs' → same fs' fs → respects e fs fs'.
Proof. intros Hno H. split_and!; auto. intros n Hn. by apply same_names. Qed.

Lemma respects_refl e fs : no_backups fs → respects e fs fs.
Proof. intros. by apply respects_same. Qed.

Lemma respects_trans e f1 f2 f3 : respects e f1 f2 → respects e f2 f3 → respects e f1 f3.
Proof.
  intros (? & D1 & A1 & T1) (? & D2 & A2 & T2). split_and!; [done|intros n Hn; by rewrite D2, D1|intros E; by rewrite A2, A1|].
  intros E. destruct (T2 E) as [S2|?]; [|by right]. destruct (T1 E) as [S1|(n & tested & out & Hr & S1)].
  - left. by rewrite S2.
  - right. exists n, tested, out. by rewrite S2.
Qed.

(** The text of a file was replaced, and the tests were green with the new one. *)
Lemma respects_landed e fs fs' n x k out :
  no_backups fs' → source n = true → is_Some (fs !! n) → auto_apply e = true → same fs' (<[n := x]> fs) →
  (test_before_apply e = true → test_runner k (<[n := x]> fs) = Ran true out) → respects e fs fs'.
Proof.
  intros Hno Hs Hn Ha Hsame Ht. split_and!; [done| |congruence|intros E; right; by exists k, (<[n := x]> fs), out; auto].
  intros m Hm. rewrite (same_names _ _ m Hsame Hm). destruct (decide (m = n)) as [->|Hmn]; [by rewrite lookup_insert_eq|by rewrite lookup_insert_ne].
Qed.

Lemma apply_patch_spec p fs current ok p' fs' :
  no_backups fs → source (target p) = true → fs !! target p = Some current → apply_patch p false fs = (ok, p', fs') →
  no_backups fs'
  ∧ same fs' (<[target p := if ok then patched_code p else if nonempty (original_code p) then original_code p else universal current]> fs)
  ∧ applied p' = ok.
Proof.
  intros Hno Hs Hc. unfold apply_patch. rewrite Hc. cbn zeta.
  assert (is_Some (fs !! target p)) as Hin by eauto. pose proof (backup_differs (target p)) as Hd.
  assert (cache_from_source tag (target p) ≠ target p) as Hcn by (intros E; rewrite <- E, cache_not_source in Hs; done).
  intros H. assert (ok = applied p' ∧ no_backups fs' ∧ same fs' (<[target p := if ok then patched_code p else
    if nonempty (original_code p) then original_code p else universal current]> fs)) as (-> & H1 & H2); [|done].
  destruct (encodes (patched_code p)); [destruct (bytecode _ _)|]; injection H as <- <- <-; (split; [done|]);
    (apply touched_same; [done|done|done|..]);
    first [by rewrite lookup_delete_eq|intros k H1 H2 H3; rewrite lookup_delete_ne, ?lookup_insert_ne by done; done
          |rewrite lookup_delete_ne by done; rewrite ?lookup_insert_eq; try done; by rewrite lookup_insert_ne, lookup_insert_eq by done].
Qed.

Lemma restored_same (fs : files) n current x :
  fs !! n = Some current → same (<[n := universal current]> (<[n := x]> fs)) fs ∧ same (<[n := universal current]> fs) fs.
Proof.
  intros Hc. rewrite insert_insert_eq. assert (same (<[n := universal current]> fs) fs); [|done]. intros k _.
  destruct (decide (k = n)) as [->|Hk]; [rewrite lookup_insert_eq, Hc; cbn; by rewrite universal_idem|by rewrite lookup_insert_ne].
Qed.

Lemma universal_same (fs : files) n x : same (<[n := universal x]> fs) (<[n := x]> fs).
Proof.
  intros k _. destruct (decide (k = n)) as [->|Hk]; [rewrite !lookup_insert_eq; cbn; by rewrite universal_idem|by rewrite !lookup_insert_ne].
Qed.

Lemma land_respects e p w landed p' w' :
  no_backups (tree w) → source (target p) = true →
  (original_code p = "" ∨ universal <$> tree w !! target p = Some (original_code p)) →
  _validate_and_land e p w = (Ok (landed, p'), w') → respects e (tree w) (tree w').
Proof.
  intros Hno Hs Hor. unfold _validate_and_land. destruct (tree w !! target p) as [current|] eqn:Hc; [|intros [= <- <- <-]; by apply respects_refl].
  cbn zeta. assert ((if nonempty (original_code p) then original_code p else universal current) = universal current) as ->.
  { cbn in Hor. destruct Hor as [-> | [= <-]]; [done|]. by destruct (nonempty _). }
  cbn [target patched_code with_original with_tests]. assert (is_Some (tree w !! target p)) as Hin by eauto.
  assert (∀ x, no_backups (<[target p := x]> (tree w))) as Hw by (intros; by apply write_same).
  assert (∀ x, respects e (tree w) (<[target p := universal current]> (<[target p := x]> (tree w)))) as Hback.
  { intros x. apply respects_same; [rewrite insert_insert_eq; apply Hw|]. by apply (restored_same _ _ current x). }
  destruct (test_before_apply e) eqn:Et.
  - destruct (encodes (patched_code p)); [|done]. destruct (test_runner _ _) as [[] out|x|] eqn:Er; try done;
      try (intros [= <- <- <-]; apply Hback).
    destruct (auto_apply e) eqn:Ea; cbn [negb]; [|intros [= <- <- <-]; apply Hback].
    cbn [tree runs]. destruct (apply_patch _ _ _) as [[ok p1] fs1] eqn:E. intros [= <- <- <-]. cbn [tree].
    apply (apply_patch_spec _ _ (patched_code p)) in E as (H1 & H2 & _); [|apply Hw|done|by rewrite lookup_insert_eq].
    cbn [target patched_code original_code with_original with_tests] in H2. rewrite insert_insert_eq in H2.
    destruct ok; [|destruct (nonempty (universal current))].
    + eapply respects_landed; eauto.
    + apply respects_same; [done|]. rewrite H2. by apply (restored_same _ _ current "").
    + rewrite universal_same in H2. eapply respects_landed; eauto.
  - destruct (auto_apply e) eqn:Ea; cbn [negb].
    2: { intros [= <- <- <-]. apply respects_same; [apply Hw|]. by apply (restored_same _ _ current ""). }
    destruct (apply_patch _ _ _) as [[ok p1] fs1] eqn:E. intros [= <- <- <-]. cbn [tree].
    apply (apply_patch_spec _ _ current) in E as (H1 & H2 & _); [|done..]. cbn [target patched_code original_code with_original] in H2.
    destruct ok; [by eapply (respects_landed _ _ _ _ _ 0 ""); eauto; congruence|].
    assert ((if nonempty (universal current) then universal current else universal current) = universal current) as E
      by (by destruct (nonempty (universal current))).
    rewrite E in H2. apply respects_same; [done|]. rewrite H2. by apply (restored_same _ _ current "").
Qed.

Lemma land_flag e p w landed p' w' :
  applied p = false → _validate_and_land e p w = (Ok (landed, p'), w') → landed = false → applied p' = false.
Proof.
  intros Hap. unfold _validate_and_land. destruct (tree w !! target p) as [current|]; [|by intros [= <- <- <-]].
  cbn zeta. assert (∀ q fs ok q' fs', applied q = false → apply_patch q false fs = (ok, q', fs') → ok = false → applied q' = false) as Happ.
  { intros q fs ok q' fs' Hq. unfold apply_patch. destruct (fs !! target q); [|by intros [= <- <- <-]]. cbn zeta.
    by destruct (encodes _); [destruct (bytecode _ _)|]; intros [= <- <- <-]. }
  destruct (test_before_apply e); [destruct (encodes _); [|done]; destruct (test_runner _ _) as [[] out|x|]; try (by intros [= <- <- <-]); try done|];
    destruct (auto_apply e); cbn [negb]; try (by intros [= <- <- <-]);
    destruct (apply_patch _ _ _) as [[ok q] fs] eqn:E; intros [= <- <- <-]; refine (Happ _ _ _ _ _ _ E); exact Hap.
Qed.

Definition tally (ps : list EvolutionPatch) (r : EvolutionResult) : Prop :=
  patches_generated r = length ps ∧ patches_generated r = patches_applied r + patches_proposed r + patches_rejected r
  ∧ patches_applied r = count applied ps.

Lemma bump_tally p landed ps r : (landed = false → applied p = false) → tally ps r → tally (ps ++ [p]) (bump p landed r).
Proof.
  intros Hp (H1 & H2 & H3). unfold tally. rewrite length_app. assert (count applied (ps ++ [p]) = count applied ps + if applied p then 1 else 0) as ->.
  { unfold count. rewrite filter_app, length_app. f_equal. rewrite filter_cons. by destruct (applied p). }
  unfold bump. destruct landed; cbn [negb]; [destruct (applied p)|rewrite (Hp eq_refl)]; cbn; lia.
Qed.

Lemma evolve_spec generate e n l ps r w ps' r' w' :
  honest generate → no_backups (tree w) → Forall (λ i, source (i_file i) = true) l → tally ps r →
  evolve generate e n l ps r w = (Ok (ps', r'), w') →
  respects e (tree w) (tree w') ∧ tally ps' r' ∧ (length ps' ≤ length ps + length l)%nat.
Proof.
  intros Hgen Hno Hl. revert n ps r w Hno. induction Hl as [|i l Hi Hl IH]; intros n ps r w Hno Ht; cbn [evolve].
  { intros [= <- <- <-]. split_and!; [by apply respects_refl|done|cbn; lia]. }
  destruct (generate n (i_file i) i (tree w)) as [p|] eqn:Eg.
  - apply Hgen in Eg as (Hap & Htg & Hor). rewrite <- Htg in Hi, Hor.
    destruct (_validate_and_land e p w) as [[[landed p1]|] w1] eqn:El; [|done]. intros Hev.
    pose proof (land_respects e p w landed p1 w1 Hno Hi Hor El) as Hr.
    apply IH in Hev as (Hr2 & Ht2 & Hlen); [|apply Hr|apply bump_tally; [by eapply land_flag|done]].
    split_and!; [by eapply respects_trans|done|]. rewrite length_app in Hlen. cbn in *. lia.
  - intros Hev. apply IH in Hev as (? & ? & ?); [|done..]. split_and!; [done..|cbn; lia].
Qed.

Lemma evolve_returns generate e n l ps r w :
  (∀ k fs, test_runner k fs ≠ RunnerCancelled) →
  (∀ n f i fs p, generate n f i fs = Some p → encodes (patched_code p) = true) →
  ∃ x w', evolve generate e n l ps r w = (Ok x, w').
Proof.
  intros Hc He. revert n ps r w. induction l as [|i l IH]; intros n ps r w; cbn [evolve]; [by eauto|].
  destruct (generate _ _ _ _) as [p|] eqn:Eg; [|apply IH]. apply He in Eg.
  assert (∃ x w', _validate_and_land e p w = (Ok x, w')) as ([landed p1] & w1 & ->); [|apply IH].
  unfold _validate_and_land. destruct (tree w !! target p); [|by eauto]. cbn zeta. cbn [with_original patched_code]. rewrite Eg.
  destruct (test_before_apply e); [destruct (test_runner _ _) as [[] ?|?|] eqn:E; [|by eauto..|by destruct (Hc _ _ E)]|];
    destruct (negb (auto_apply e)); try (by eauto); destruct (apply_patch _ _ _) as [[? ?] ?]; eauto.
Qed.

Lemma py_prefix_length {A} n (l : list A) : (0 ≤ n)%Z → (length (py_prefix n l) ≤ Z.to_nat n)%nat.
Proof. intros Hn. unfold py_prefix. rewrite (proj2 (Z.ltb_ge n 0)) by done. rewrite length_take. lia. Qed.

(** The issues are about source files. *)
Lemma analyzed_source fs : Forall (λ i, source (i_file i) = true) (issues (analyze_self fs)).
Proof.
  apply Forall_forall. intros i. cbn [issues analyze_self]. intros ([found sp] & Hm & Hi)%elem_of_concat_map.
  apply list_elem_of_fmap in Hm as (n & E & _). unfold analyze_file in E.
  destruct (existsb _ (root_parts ++ path_parts n)) eqn:Ex; [injection E as -> ->; by apply not_elem_of_nil in Hi|].
  assert (i_file i = n) as ->.
  { destruct (fs !! n) as [c|]; [destruct (decodes c)|]; [|injection E as -> ->; by apply not_elem_of_nil in Hi..].
    unfold analyze_content in E. destruct (String.length (universal c) <? 50); injection E as -> ->; [by apply not_elem_of_nil in Hi|].
    cbn [fst] in Hi. rewrite !elem_of_app in Hi.
    destruct Hi as [Hi|[Hi|Hi]]; match goal with H : _ ∈ (if ?b then _ else _) |- _ => destruct b end;
      solve [by apply list_elem_of_singleton in Hi as ->|by apply not_elem_of_nil in Hi]. }
  unfold source. apply negb_true_iff, bool_decide_eq_false. intros Hp. apply not_true_iff_false in Ex. apply Ex.
  apply existsb_exists. exists "__pycache__". split; [apply list_elem_of_In, elem_of_app; by right|]. apply bool_decide_eq_true.
  unfold excluded. repeat first [left|right].
Qed.

End engine.

(** ** Concrete cycles *)
Definition demo_source : string := "# TODO: this module is long enough to be looked at by analyze_self".
Definition demo_tree : files := {["a.py" := demo_source]}.
Definition demo_loads (s : string) : option json := if String.eqb s "{}" then Some (JObj [("patched_code", JStr "new")]) else None.
Definition demo_tests (n : nat) (fs : files) : test_outcome := Ran (bool_decide (fs !! "a.py" = Some "new")) "log".
Definition demo_cycle (encodes : string → bool) (tests : nat → files → test_outcome) (test auto : bool) :=
  run_evolution_cycle (λ fs, (map_to_list fs).*1) [] "cpython-311" (λ _, true) encodes tests (λ _ _, Some "code")
    (generate_patch (λ _ _, Some "{}") demo_loads (λ _, None)) (engine_init (true, test, auto) 5 None None None) (mkWorld demo_tree 0).


(** Applying a patch leaves bytecode, and the line ends of a file that is put back are
    newlines. *)
Example worktree_changes :
  (let '(res, w) := demo_cycle (λ _, true) demo_tests true true in tree w !! "__pycache__/a.cpython-311.pyc") = Some "code"
  ∧ let text := "a" +:+ String cr (String lf "b") in
    let '(res, w) := _validate_and_land "" (λ _, true) (λ _ _, Ran false "") (λ _ _, None) (engine_init (true, true, true) 5 None None None)
                       (mkPatch "a.py" "" (universal text) "new" "" 1 false false "") (mkWorld {["a.py" := text]} 0) in
    tree w !! "a.py" = Some ("a" +:+ String lf "b").
Proof. vm_compute. split; reflexivity. Qed.

(** Code with a lone surrogate (JSON may escape one) ends the cycle with an exception
    and leaves an empty file. *)
Example surrogate_empties_the_file :
  (let '(res, w) := demo_cycle (λ t, negb (String.eqb t "new")) demo_tests true false in (res, tree w !! "a.py")) = (Err EncodeError, Some "").
Proof. by vm_compute. Qed.

(** A cycle cancelled while the tests run leaves the patched file in the worktree. *)
Example cancelled_tests_leave_patch :
  (let '(res, w) := demo_cycle (λ _, true) (λ _ _, RunnerCancelled) true false in (res, tree w !! "a.py")) = (Err Cancelled, Some "new").
Proof. by vm_compute. Qed.

(** Proposals made without tests count as proposed in the result of the cycle and as
    rejected in the statistics. *)
Example untested_proposal_counts_as_rejected :
  match demo_cycle (λ _, true) demo_tests false false with
  | (Ok (r, e), _) => (patches_proposed r, patches_rejected r) = (1, 0) ∧ (s_proposed (get_stats e), s_rejected (get_stats e)) = (0, 1)
  | _ => False
  end.
Proof. vm_compute. split; reflexivity. Qed.

(** An empty file is not restored when the patch does not compile: the empty original is
    taken for a missing one and read back from the patched file. *)
Example empty_original_is_not_restored :
  let e := engine_init (true, true, true) 5 None None None in
  let '(res, w) := _validate_and_land "" (λ _, true) (λ _ _, Ran true "") (λ _ _, None) e (mkPatch "a.py" "" "" "(" "" 1 false false "") (mkWorld {["a.py" := ""]} 0) in
  match res with Ok (landed, _) => landed = false ∧ tree w !! "a.py" = Some "(" | Err _ => False end.
Proof. vm_compute. split; reflexivity. Qed.

(** A backup that is there already is overwritten and deleted. *)
Example old_backup_is_lost :
  let '(_, _, fs) := apply_patch "" (λ _, true) (λ _ _, Some "code") (mkPatch "a.py" "" "old" "new" "" 1 false false "") false
                       (<["a.py.bak" := "precious"]> {["a.py" := "old"]}) in
  fs !! "a.py.bak" = None.
Proof. by vm_compute. Qed.

(** ** The branch workflow *)
Module Git.
Inductive proposal_status := Pending | Testing | Passed | Failed | Applied | Rejected.

Record EvolutionProposal := mkProposal {
  id : string; branch : string; p_description : string; file_path : string; p_original_code : string; proposed_code : string;
  status : proposal_status; p_tests_output : string; p_tests_passed : bool;
}.

Record GitEvolution := mkGit { g_auto_apply : bool; g_test_before_apply : bool; _proposals : list EvolutionProposal }.

(** A setting that is on cannot be switched off by the argument. *)
Definition git_init (settings : bool * bool) (auto test : bool) : GitEvolution :=
  mkGit (auto || settings.1) (test || settings.2) [].

(** What is relied on of git: the trees of a repository (worktree, index, last commit), the
    effect of writing a file, and of the commands when they succeed. *)
Class GitRepo (R : Type) := {
  worktree : R → files;
  index : R → files;
  head : R → files;
  write_text : string → string → R → R;
  git : list string → R → option (Z * string * string) * R;   (* [None]: timed out *)
}.

Class GitLaws (R : Type) `{GitRepo R} := {
  write_worktree : ∀ f c r, worktree (write_text f c r) = <[f := c]> (worktree r);
  write_index : ∀ f c r, index (write_text f c r) = index r;
  add_index : ∀ f r out err r', git ["add"; f] r = (Some (0%Z, out, err), r') →
    worktree r' = worktree r ∧ index r' !! f = worktree r !! f ∧ ∀ g, g ≠ f → index r' !! g = index r !! g;
  checkout_file : ∀ f r x r', git ["checkout"; "--"; f] r = (x, r') →
    index r' = index r ∧ (worktree r' !! f = index r !! f ∨ worktree r' = worktree r);
  commit_index : ∀ m r x r', git ["commit"; "-m"; m] r = (x, r') → index r' = index r;
  commit_head : ∀ m r out err r', git ["commit"; "-m"; m] r = (Some (0%Z, out, err), r') → head r' = index r;
  rev_parse : ∀ r, (git ["rev-parse"; "--is-inside-work-tree"] r).2 = r;
  checkout_branch : ∀ b r, index (git ["checkout"; "-b"; b] r).2 = index r;
}.

Section workflow.
Context {R : Type} `{GitRepo R}.
(** The test suite, and fresh identifiers. *)
Context (_run_tests : R → bool * string) (uuid8 uuid12 : string).

Definition M (A : Type) : Type := R → option A * R.
Definition mret_ {A} (a : A) : M A := λ r, (Some a, r).
Definition mbind_ {A B} (k : A → M B) (x : M A) : M B := λ r, match x r with (Some a, r) => k a r | (None, r) => (None, r) end.
Local Instance M_ret : MRet M := @mret_.
Local Instance M_bind : MBind M := @mbind_.

Definition _run_git (args : list string) : M (Z * string * string) := git args.
Definition get {A} (f : R → A) : M A := λ r, (Some (f r), r).
Definition put_file (f c : string) : M () := λ r, (Some (), write_text f c r).
Definition exit_code (x : Z * string * string) : Z := x.1.1.

Definition is_git_repo : M bool := x ← _run_git ["rev-parse"; "--is-inside-work-tree"]; mret (exit_code x =? 0)%Z.

Definition init_repo : M bool :=
  b ← is_git_repo;
  if b : bool then mret true else x ← _run_git ["init"]; mret (exit_code x =? 0)%Z.

(** A failure is logged and the name returned all the same. *)
Definition create_branch (name : option string) : M string :=
  let b := match name with Some b => if nonempty b then b else "evolution/" +:+ uuid8 | None => "evolution/" +:+ uuid8 end in
  _ ← _run_git ["checkout"; "-b"; b]; mret b.

Definition commit_message (message : string) : string :=
  "[noema-evolution] " +:+ message +:+ nl +:+ nl +:+ "Proposal ID: " +:+ uuid12.

Definition record (p : EvolutionProposal) (g : GitEvolution) : EvolutionProposal * GitEvolution :=
  (p, mkGit (g_auto_apply g) (g_test_before_apply g) (_proposals g ++ [p])).

Definition apply_and_commit (file new_content message : string) (br : option string) (g : GitEvolution) : M (EvolutionProposal * GitEvolution) :=
  is_repo ← is_git_repo;
  _ ← (if is_repo : bool then mret true else init_repo);
  br ← (match br with Some b => if nonempty b then mret b else create_branch None | None => create_branch None end);
  original ← get (λ r, default "" (worktree r !! file));
  _ ← put_file file new_content;
  _ ← _run_git ["add"; file];
  let p st out ok := mkProposal uuid12 br message file original new_content st out ok in
  tests ← (if g_test_before_apply g then get _run_tests else mret (true, ""));
  if negb tests.1 then _ ← _run_git ["checkout"; "--"; file]; mret (record (p Failed tests.2 false) g)
  else
    x ← _run_git ["commit"; "-m"; commit_message message];
    if negb (exit_code x =? 0)%Z then mret (record (p Failed x.2 false) g)
    else mret (record (p Passed tests.2 (g_test_before_apply g)) g).

Definition revert_proposal (p : EvolutionProposal) : M (bool * EvolutionProposal) :=
  if nonempty (p_original_code p) then
    _ ← put_file (file_path p) (p_original_code p);
    _ ← _run_git ["add"; file_path p];
    _ ← _run_git ["commit"; "-m"; "[noema-evolution] Revert proposal " +:+ id p];
    mret (true, mkProposal (id p) (branch p) (p_description p) (file_path p) (p_original_code p) (proposed_code p) Rejected (p_tests_output p) (p_tests_passed p))
  else mret (false, p).

Definition has_status (l : list proposal_status) (p : EvolutionProposal) : bool :=
  existsb (λ s, match s, status p with Pending, Pending | Testing, Testing | Passed, Passed | Failed, Failed => true | _, _ => false end) l.

Definition stats (g : GitEvolution) : nat * nat * nat * nat :=
  let n l := length (filter (λ p, has_status l p = true) (_proposals g)) in
  (length (_proposals g), n [Passed], n [Failed], n [Pending; Testing]).

(** The lines of [git log --oneline]: hash and message. *)
Fixpoint split_blank (s : string) : string * string :=
  match s with
  | EmptyString => ("", "")
  | String a t => if Ascii.eqb a " " then ("", t) else let '(x, y) := split_blank t in (String a x, y)
  end.

Definition get_log (limit : nat) : M (list (string * string)) :=
  x ← _run_git ["log"; "--oneline"; "-" +:+ pretty (N.of_nat limit); "--grep=noema-evolution"];
  mret (if negb (exit_code x =? 0)%Z then []
        else map split_blank (filter (λ l, nonempty (strip l) = true) (split_lines (strip x.1.2)))).

(** *** Failed changes stay *)
Context `{!GitLaws R}.
(** The project is a repository, and staging works. *)
Context (in_repo : ∀ r, ∃ out err, (git ["rev-parse"; "--is-inside-work-tree"] r).1 = Some (0%Z, out, err)).
Context (staging : ∀ f r, ∃ out err r', git ["add"; f] r = (Some (0%Z, out, err), r')).

Lemma bind_inv {A B} (x : M A) (k : A → M B) r b r' :
  mbind_ k x r = (Some b, r') → ∃ a r1, x r = (Some a, r1) ∧ k a r1 = (Some b, r').
Proof. unfold mbind_. destruct (x r) as [[a|] r1]; [|done]. eauto. Qed.

Lemma is_git_repo_true r b r' : is_git_repo r = (Some b, r') → b = true ∧ r' = r.
Proof.
  intros (x & r1 & Hx & [= <- <-])%bind_inv. unfold _run_git in Hx. pose proof (rev_parse r) as Hr. destruct (in_repo r) as (o & e & E).
  rewrite Hx in Hr, E. cbn in Hr, E. subst r1. by injection E as ->.
Qed.

Lemma branch_index (br : option string) r b r' :
  (match br with Some b => if nonempty b then mret b else create_branch None | None => create_branch None end) r = (Some b, r') →
  index r' = index r.
Proof.
  assert (create_branch None r = (Some b, r') → index r' = index r) as Hc.
  { intros (x & r1 & Hx & [= _ <-])%bind_inv. unfold _run_git in Hx. by rewrite <- (checkout_branch ("evolution/" +:+ uuid8) r), Hx. }
  destruct br as [b0|]; [|done]. destruct (nonempty b0); [|done]. by intros [= _ <-].
Qed.

(** The change is staged before the tests run; whatever they say, the index keeps it, and
    a commit commits the whole index. *)
Lemma apply_and_commit_staged file c m br g r p g' r' :
  apply_and_commit file c m br g r = (Some (p, g'), r') →
  ∃ r1, index r1 !! file = Some c ∧ (∀ f, f ≠ file → index r1 !! f = index r !! f)
    ∧ match status p with
      | Passed => (g_test_before_apply g = true → (_run_tests r1).1 = true) ∧ head r' = index r1
      | _ => index r' = index r1
      end.
Proof.
  intros (b & r0 & [-> ->]%is_git_repo_true & H0)%bind_inv. apply bind_inv in H0 as (? & ? & [= <- <-] & H0).
  apply bind_inv in H0 as (br' & r2 & Hbr%branch_index & H0). apply bind_inv in H0 as (orig & ? & [= <- <-] & H0).
  apply bind_inv in H0 as ([] & ? & [= <-] & H0). apply bind_inv in H0 as (x & r1 & Hadd & H0). unfold _run_git in Hadd.
  destruct (staging file (write_text file c r2)) as (o & e & r1' & E). rewrite E in Hadd. injection Hadd as <- <-.
  apply add_index in E as (Hw & Hf & Hother). rewrite write_worktree, lookup_insert_eq in Hf. rewrite write_index in Hother.
  exists r1'. split; [done|]. split; [intros f Hne; by rewrite Hother, Hbr|].
  apply bind_inv in H0 as (t & r3 & Ht & H0). assert (r3 = r1' ∧ (g_test_before_apply g = true → _run_tests r1' = t)) as [-> Ht'].
  { destruct (g_test_before_apply g); by injection Ht as <- <-. }
  destruct t as [[] out]; cbn [negb fst] in H0.
  - apply bind_inv in H0 as (y & r4 & Hy & H0). unfold _run_git in Hy. destruct y as [[code o2] e2]. cbn [exit_code fst] in H0.
    destruct (Z.eqb_spec code 0) as [->|Hcode]; cbn [negb] in H0; injection H0 as <- <- <-; cbn.
    + split; [intros Hg; by rewrite (Ht' Hg)|]. by eapply commit_head.
    + by eapply commit_index.
  - apply bind_inv in H0 as (y & r4 & Hy & H0). unfold _run_git in Hy. injection H0 as <- <- <-. cbn. by eapply checkout_file in Hy as [? _].
Qed.

(** A change whose tests failed ends up in the history.  The change is staged before
    the tests; the revert takes the file from the index, which has the change; so the
    next proposal that passes, for whatever other file, commits the failed change along
    with its own. *)
Theorem failed_change_is_committed f1 c1 m1 b1 f2 c2 m2 b2 g r p1 g1 r1 p2 g2 r2 :
  apply_and_commit f1 c1 m1 b1 g r = (Some (p1, g1), r1) → status p1 = Failed →
  apply_and_commit f2 c2 m2 b2 g1 r1 = (Some (p2, g2), r2) → status p2 = Passed → f1 ≠ f2 →
  head r2 !! f1 = Some c1 ∧ head r2 !! f2 = Some c2.
Proof.
  intros (s1 & H1 & _ & S1)%apply_and_commit_staged E1 (s2 & H2 & O2 & S2)%apply_and_commit_staged E2 Hne.
  rewrite E1 in S1. rewrite E2 in S2. destruct S2 as [_ ->]. split; [|done]. by rewrite O2, S1.
Qed.
End workflow.

(** A repository with just these three trees. *)
Record trees := mkTrees { wt : files; ix : files; hd : files }.

Definition tree_git (args : list string) (t : trees) : option (Z * string * string) * trees :=
  match args with
  | ["add"; f] => (Some (0%Z, "", ""), mkTrees (wt t) (partial_alter (λ _, wt t !! f) f (ix t)) (hd t))
  | ["checkout"; "--"; f] => (Some (0%Z, "", ""), mkTrees (partial_alter (λ _, ix t !! f) f (wt t)) (ix t) (hd t))
  | ["commit"; "-m"; _] => (Some (0%Z, "", ""), mkTrees (wt t) (ix t) (ix t))
  | _ => (Some (0%Z, "", ""), t)
  end.

#[export] Instance trees_repo : GitRepo trees := {
  worktree := wt; index := ix; head := hd; write_text f c t := mkTrees (<[f := c]> (wt t)) (ix t) (hd t); git := tree_git;
}.

#[export] Instance trees_laws : GitLaws trees.
Proof.
  split; try done.
  - intros f r out err r' [= _ _ <-]. cbn. split; [done|]. split; [by rewrite lookup_partial_alter_eq|].
    intros g Hg. by rewrite lookup_partial_alter_ne.
  - intros f r x r' [= _ <-]. cbn. split; [done|]. left. by rewrite lookup_partial_alter_eq.
  - by intros m r x r' [= _ <-].
  - by intros m r out err r' [= _ _ <-].
Qed.

(** Tests that fail until [good.py] is there. *)
Definition tree_tests (t : trees) : bool * string := (negb (bool_decide (wt t !! "good.py" = None)), "").

Lemma failed_change_is_committed_witness :
  ∃ p1 g1 r1 p2 g2 r2,
    apply_and_commit tree_tests "b" "i" "bad.py" "boom" "first" None (git_init (false, true) false false) (mkTrees ∅ ∅ ∅) = (Some (p1, g1), r1)
    ∧ status p1 = Failed
    ∧ apply_and_commit tree_tests "b" "i" "good.py" "fine" "second" None g1 r1 = (Some (p2, g2), r2) ∧ status p2 = Passed
    ∧ head r2 !! "bad.py" = Some "boom".
Proof.
  destruct (apply_and_commit tree_tests "b" "i" "bad.py" _ _ _ _ _) as [[[p1 g1]|] r1] eqn:E1; [|by vm_compute in E1].
  destruct (apply_and_commit tree_tests "b" "i" "good.py" "fine" "second" None g1 r1) as [[[p2 g2]|] r2] eqn:E2;
    [|vm_compute in E1; injection E1 as <- <- <-; by vm_compute in E2].
  assert (status p1 = Failed ∧ status p2 = Passed) as [S1 S2].
  { vm_compute in E1; injection E1 as <- <- <-; vm_compute in E2; injection E2 as <- <- <-. by split. }
  exists p1, g1, r1, p2, g2, r2. split_and!; [done|done|done|done|].
  edestruct (failed_change_is_committed tree_tests "b" "i") as [H _]; [| |exact E1|exact S1|exact E2|exact S2|done|exact H].
  - by eexists _, _.
  - by eexists _, _, _.
Defined.

End Git.
