(* ===== verification/Experiments.v ===== *)
(** * Experiments ([noema/experiments/runner.py], [noema/eval/leaderboard.py])

    The validation of experiment files, the matrix of cells run over engines that are
    created, dropped and shut down, the attribution of cost to files, the summary per
    provider and model, the process environment around a run, and the leaderboard that
    merges summaries.

    What an engine, the judge and the sandbox answer for a cell is an [outcome], numbered
    by cell; [stdev], the JSON text of a record and the engine factory are parameters.
    Providers are names: a provider given as a number would be one, too.  Means are over
    exact rationals. *)
From Stdlib Require Import ZArith QArith Qround Lqa Lia Bool Ascii String.
From stdpp Require Import base gmap option numbers sets strings list.
From S2P Require Import Prelude Symbolic CostTracker.
Local Open Scope string_scope.
Local Open Scope list_scope.
Local Open Scope nat_scope.

Abbreviation obj := (list (string * json)).

(** ** Validation *)
Inductive config_error := Invalid (message : string) | Unhashable.

Definition cresult := result config_error ().

Fixpoint check_all {A} (f : A → cresult) (l : list A) : cresult :=
  match l with [] => Ok () | x :: l => match f x with Ok _ => check_all f l | Err e => Err e end end.

Definition get (k : string) (d : obj) : json := default JNull (dget k d).

Definition check_model (m : json) : cresult :=
  match m with
  | JStr s => if nonempty s then Ok () else Err (Invalid "experiment: models must be non-empty strings")
  | _ => Err (Invalid "experiment: models must be non-empty strings")
  end.

Section config.
Context (repr : json → string) (float_str : string → option Q).

Definition check_provider (p : json) : cresult :=
  match p with
  | JObj d =>
      let name := get "provider" d in
      if negb (truthy name) then Err (Invalid "experiment: each provider needs a 'provider' name")
      else
        match get "models" d with
        | JArr (m :: ms) =>
            match name with
            | JArr _ | JObj _ => Err Unhashable       (* added to a set *)
            | _ => check_all check_model (m :: ms)
            end
        | _ => Err (Invalid ("experiment: provider " +:+ repr name +:+ " needs non-empty 'models'"))
        end
  | _ => Err (Invalid "experiment: each provider needs a 'provider' name")
  end.

Definition check_task (t : json) : cresult :=
  match t with
  | JObj d => if truthy (get "title" d) then Ok () else Err (Invalid "experiment: each task needs a 'title'")
  | _ => Err (Invalid "experiment: each task needs a 'title'")
  end.

(** [isinstance(x, int)]: booleans are integers. *)
Definition as_integer (j : json) : option Z :=
  match j with
  | JNum q => if Qeq_bool q (inject_Z (Qfloor q)) then Some (Qfloor q) else None
  | JBool b => Some (if b then 1%Z else 0%Z)
  | _ => None
  end.

Definition repetitions_of (d : obj) : json := default (JNum 1) (dget "repetitions" d).

Definition _validate_experiment (cfg : json) : cresult :=
  match cfg with
  | JObj d =>
      match get "meta" d with
      | JObj meta =>
          if negb (truthy (get "name" meta)) then Err (Invalid "experiment: missing 'meta.name'")
          else
            match get "providers" d with
            | JArr (p :: ps) =>
                match check_all check_provider (p :: ps) with
                | Err e => Err e
                | Ok _ =>
                    match get "tasks" d with
                    | JArr (t :: ts) =>
                        match check_all check_task (t :: ts) with
                        | Err e => Err e
                        | Ok _ =>
                            match as_integer (repetitions_of d) with
                            | Some n => if (n <? 1)%Z then Err (Invalid "experiment: 'repetitions' must be a positive integer") else Ok ()
                            | None => Err (Invalid "experiment: 'repetitions' must be a positive integer")
                            end
                        end
                    | _ => Err (Invalid "experiment: 'tasks' must be a non-empty list")
                    end
                end
            | _ => Err (Invalid "experiment: 'providers' must be a non-empty list")
            end
      | _ => Err (Invalid "experiment: missing 'meta.name'")
      end
  | _ => Err (Invalid "experiment: top-level must be a mapping")
  end.

(** *** What the matrix reads from a configuration *)
Record task := mkTask { title : string; description : string; tags : list string }.

(** [float(x)]. *)
Definition to_float (j : json) : result pyexn Q :=
  match j with
  | JNum q => Ok q
  | JBool b => Ok (if b then 1 else 0)%Q
  | JStr s => match float_str (strip s) with Some q => Ok q | None => Err ValueError end
  | _ => Err TypeError
  end.

Definition _build_task (raw : json) : result pyexn task :=
  match raw with
  | JObj d =>
      match dget "title" d, default (JArr []) (dget "tags" d) with
      | Some t, JArr ts => Ok (mkTask (py_str repr t) (py_str repr (default (JStr "") (dget "description" d))) (map (py_str repr) ts))
      | Some t, JStr s => Ok (mkTask (py_str repr t) (py_str repr (default (JStr "") (dget "description" d))) (map (λ a, String a "") (list_ascii_of_string s)))
      | Some t, JObj o => Ok (mkTask (py_str repr t) (py_str repr (default (JStr "") (dget "description" d))) o.*1)
      | Some _, _ => Err TypeError
      | None, _ => Err KeyError
      end
  | _ => Err TypeError
  end.

(** The cost of a provider is read when its turn comes. *)
Record provider_plan := mkProvider { p_name : string; p_cost : result pyexn Q; p_models : list string }.

Record plan := mkPlan { tasks : list task; repetitions : nat; timeout_seconds : option Q; sandbox_on : bool; providers : list provider_plan }.

Fixpoint build_tasks (l : list json) : result pyexn (list task) :=
  match l with [] => Ok [] | t :: l => x ← _build_task t; xs ← build_tasks l; Ok (x :: xs) end.

Definition provider_of (p : json) : list provider_plan :=
  match p with
  | JObj d =>
      [mkProvider (py_str repr (get "provider" d)) (to_float (default (JNum 0) (dget "cost_per_token" d)))
         (match get "models" d with JArr ms => map (py_str repr) ms | _ => [] end)]
  | _ => []
  end.

Definition elements (j : json) : list json := match j with JArr l => l | _ => [] end.

(** For a configuration that has been validated. *)
Definition plan_of (d : obj) : result pyexn plan :=
  ts ← build_tasks (elements (get "tasks" d));
  match default (JObj []) (dget "settings" d) with
  | JObj s =>
      let raw := get "timeout_seconds" s in
      timeout ← (if truthy raw then q ← to_float raw; Ok (Some q) else Ok None);
      Ok (mkPlan ts (Z.to_nat (default 1%Z (as_integer (repetitions_of d)))) timeout (truthy (get "sandbox" s))
            (concat (map provider_of (elements (get "providers" d)))))
  | _ => Err AttributeError
  end.
End config.

(** ** Costs *)
Definition round_at (scale : Q) (x : Q) : Q := (inject_Z (round_half_even (x * scale)) / scale)%Q.

Record file_cost := mkFileCostRow { fc_path : string; fc_lines : Z; fc_input : Z; fc_output : Z; fc_cost : Q }.

Definition fc_total (r : file_cost) : Z := (fc_input r + fc_output r)%Z.

Definition named_lines (blocks : list (string * string)) : list (string * Z) :=
  map (λ b, (b.1, Z.max (splitlines_len b.2) 0)) (filter (λ b, nonempty b.1 = true) blocks).

Definition share (tokens lines total : Z) : Z := round_half_even (inject_Z tokens * (inject_Z lines / inject_Z total)).

(** The last file takes what is left. *)
Fixpoint attribute (cost_per_token : Q) (total tin tout sum_in sum_out : Z) (files : list (string * Z)) : list file_cost :=
  match files with
  | [] => []
  | (name, lines) :: rest =>
      let '(i, o) := match rest with
                     | [] => (tin - sum_in, tout - sum_out)%Z
                     | _ => (share tin lines total, share tout lines total)
                     end in
      mkFileCostRow name lines i o (round_at 100000000 (cost_per_token * inject_Z (i + o)))
      :: attribute cost_per_token total tin tout (sum_in + i) (sum_out + o) rest
  end.

Definition attribute_file_costs (blocks : list (string * string)) (tin tout : Z) (cost_per_token : Q) : list file_cost :=
  let files := named_lines blocks in
  let total := sumZ (map snd files) in
  if (total <=? 0)%Z || ((tin <=? 0)%Z && (tout <=? 0)%Z) then []
  else attribute cost_per_token total tin tout 0 0 files.

(** ** One cell *)
Record tracer_stats := mkStats { total_tokens : Z; llm_calls : Z; tokens_input : Z; tokens_output : Z }.

Definition _delta_stats (after before : tracer_stats) : Z * Z * Z * Z :=
  (total_tokens after - total_tokens before, llm_calls after - llm_calls before,
   tokens_input after - tokens_input before, tokens_output after - tokens_output before)%Z.

Record solution := mkSolution { quality : string; blocks : list (string * string) }.

Inductive thought := Thought (s : solution) | TimedOut | ThinkRaised (e : string).

(** What happens in a cell: the exceptions carry their type and text. *)
Record outcome := mkOutcome {
  o_started : string; o_duration : Q; o_before : tracer_stats; o_after : tracer_stats; o_think : thought;
  o_judge : result string (Q * bool * string); o_sandbox : result string (bool * string);
}.

Record RunRecord := mkRecord {
  r_experiment_id : string; r_run_id : string; r_task : task; r_provider : string; r_model : string; r_repeat : nat;
  r_started_at : string; r_duration_ms : Q; r_tokens_input : Z; r_tokens_output : Z; r_total_tokens : Z; r_llm_calls : Z;
  r_judge_score : Q; r_judge_passed : bool; r_judge_summary : string; r_quality : string; r_code_blocks : nat;
  r_sandbox : option bool; r_sandbox_summary : string; r_cost : Q; r_error : option string; r_file_costs : list file_cost;
}.

Section runs.
Context (show_timeout : option Q → string) (experiment_id run_id : string).

Definition _run_once (p : plan) (t : task) (provider model : string) (rep : nat) (cost_per_token : Q) (o : outcome) : RunRecord :=
  let '(total, calls, tin, tout) := _delta_stats (o_after o) (o_before o) in
  let '(sol, err) := match o_think o with
                     | Thought s => (Some s, None)
                     | TimedOut => (None, Some ("timeout after " +:+ show_timeout (timeout_seconds p) +:+ "s"))
                     | ThinkRaised e => (None, Some e)
                     end in
  let '(score, passed, judged, err) := match sol, err with
                                  | Some _, None => match o_judge o with
                                                    | Ok (q, b, s) => (q, b, s, None)
                                                    | Err e => (0%Q, false, "", Some ("judge:" +:+ e))
                                                    end
                                  | _, _ => (0%Q, false, "", err)
                                  end in
  let '(valid, boxed, err) := match sol, err with
                              | Some _, None =>
                                  if sandbox_on p then
                                    match o_sandbox o with Ok (b, s) => (Some b, s, None) | Err e => (None, "", Some ("sandbox:" +:+ e)) end
                                  else (None, "", None)
                              | _, _ => (None, "", err)
                              end in
  mkRecord experiment_id run_id t provider model rep (o_started o) (round_at 100 (o_duration o * 1000)) tin tout total calls
    score passed judged (match sol with Some s => quality s | None => "" end) (match sol with Some s => length (blocks s) | None => 0 end)
    valid boxed (round_at 100000000 (cost_per_token * inject_Z total)) err
    (attribute_file_costs (match sol with Some s => blocks s | None => [] end) tin tout cost_per_token).

(** ** The matrix *)
Abbreviation key := (string * string)%type.

Inductive engine_event := Made (k : key) (n : nat) | Shut (k : key) (n : nat).

(** [engines] and [stale] are local to the matrix; [lines] is the file of finished cells;
    [cell] and [made] count cells and engines. *)
Record matrix := mkMatrix { engines : list (key * nat); stale : list key; records : list RunRecord; lines : list string;
  cell : nat; made : nat; events : list engine_event }.

Definition matrix_init : matrix := mkMatrix [] [] [] [] 0 0 [].

Context (outcomes : nat → outcome) (factory : nat → bool) (dumps : RunRecord → string).

Definition _append_incremental (r : RunRecord) (s : matrix) : matrix :=
  mkMatrix (engines s) (stale s) (records s ++ [r]) (lines s ++ [dumps r]) (S (cell s)) (made s) (events s).

Definition timed_out (r : RunRecord) : bool := match r_error r with Some e => String.prefix "timeout" e | None => false end.

Definition run_cell (p : plan) (k : key) (cost : Q) (s : matrix) (c : task * nat) : matrix :=
  let r := _run_once p c.1 k.1 k.2 c.2 cost (outcomes (cell s)) in
  let s := _append_incremental r s in
  if timed_out r && negb (bool_decide (k ∈ stale s))
  then mkMatrix (engines s) (k :: stale s) (records s) (lines s) (cell s) (made s) (events s) else s.

(** [_safe_shutdown] never raises. *)
Definition shut (k : key) (s : matrix) : matrix :=
  match dget k (engines s) with
  | Some n => mkMatrix (ddel k (engines s)) (stale s) (records s) (lines s) (cell s) (made s) (events s ++ [Shut k n])
  | None => s
  end.

Definition drop_stale (k : key) (s : matrix) : matrix :=
  if bool_decide (k ∈ stale s) then
    let s := shut k s in
    mkMatrix (engines s) (filter (λ x, x ≠ k) (stale s)) (records s) (lines s) (cell s) (made s) (events s)
  else s.

(** [None]: the factory raises. *)
Definition open_engine (k : key) (s : matrix) : option matrix :=
  if dmem k (engines s) then Some s
  else if factory (made s) then
    Some (mkMatrix (dset k (made s) (engines s)) (stale s) (records s) (lines s) (cell s) (S (made s)) (events s ++ [Made k (made s)]))
  else None.

Definition cells_of (p : plan) : list (task * nat) := concat (map (λ t, map (pair t) (seq 1 (repetitions p))) (tasks p)).

Definition run_model (p : plan) (cost : Q) (k : key) (s : matrix) : result matrix matrix :=
  let s := drop_stale k s in
  match open_engine k s with
  | None => Err s
  | Some s => Ok (foldl (run_cell p k cost) s (cells_of p))
  end.

Fixpoint run_models (p : plan) (cost : Q) (l : list key) (s : matrix) : result matrix matrix :=
  match l with [] => Ok s | k :: l => match run_model p cost k s with Ok s => run_models p cost l s | Err s => Err s end end.

Definition keys_of (q : provider_plan) : list key := map (pair (p_name q)) (p_models q).

Fixpoint run_providers (p : plan) (l : list provider_plan) (s : matrix) : result matrix matrix :=
  match l with
  | [] => Ok s
  | q :: l =>
      match p_cost q with
      | Err _ => Err s
      | Ok cost => match run_models p cost (keys_of q) s with Ok s => run_providers p l s | Err s => Err s end
      end
  end.

(** The [finally] block shuts every engine down. *)
Definition shut_all (s : matrix) : matrix := foldl (λ s k, shut k s) s (engines s).*1.

(** [Err]: an exception leaves the matrix. *)
Definition _run_matrix (p : plan) : result matrix matrix :=
  match run_providers p (providers p) matrix_init with Ok s => Ok (shut_all s) | Err s => Err (shut_all s) end.

(** *** Every cell is run, every engine shut down *)
Definition cell_id (r : RunRecord) : string * string * task * nat := (r_provider r, r_model r, r_task r, r_repeat r).

Definition slot_cells (p : plan) (k : key) : list (string * string * task * nat) := map (λ c, (k.1, k.2, c.1, c.2)) (cells_of p).

Definition all_cells (p : plan) : list (string * string * task * nat) :=
  concat (map (λ q, concat (map (slot_cells p) (keys_of q))) (providers p)).

Definition made_of (l : list engine_event) : list (key * nat) := omap (λ e, match e with Made k n => Some (k, n) | _ => None end) l.
Definition shut_of (l : list engine_event) : list (key * nat) := omap (λ e, match e with Shut k n => Some (k, n) | _ => None end) l.

Record matrix_inv (s : matrix) : Prop := {
  inv_lines : lines s = map dumps (records s);
  inv_keys : NoDup (engines s).*1;
  inv_balance : made_of (events s) ≡ₚ shut_of (events s) ++ engines s;
  inv_made : ∀ e, e ∈ made_of (events s) → e.2 < made s;
  inv_fresh : NoDup (made_of (events s)).*2;
}.

Lemma run_once_id p t pr m rep cost o : cell_id (_run_once p t pr m rep cost o) = (pr, m, t, rep).
Proof.
  unfold _run_once. destruct (_delta_stats _ _) as [[[? ?] ?] ?]. destruct (match o_think o with Thought _ => _ | _ => _ end) as [sol err].
  destruct (match sol with Some _ => match err with _ => _ end | None => _ end) as [[[? ?] ?] err'].
  by destruct (match sol with Some _ => _ | None => _ end) as [[? ?] ?].
Qed.

Lemma dget_perm k n (d : list (key * nat)) : NoDup d.*1 → dget k d = Some n → d ≡ₚ (k, n) :: ddel k d.
Proof.
  induction d as [|[k' v] d IH]; [done|]. cbn [fmap list_fmap fst]. intros [Hk Hd]%NoDup_cons. rewrite dget_cons. simpl. destruct (decide (k = k')) as [E|E].
  - intros [= ->]. subst k'. f_equiv. assert (∀ d : list (key * nat), k ∉ d.*1 → ddel k d = d) as ->; [|done|done].
    clear. induction d as [|[k' v] d IH]; [done|]. cbn [fmap list_fmap fst]. intros [? ?]%not_elem_of_cons. simpl. case_decide; [done|]. by rewrite IH.
  - intros Hg. rewrite (IH Hd Hg) at 1. apply Permutation_swap.
Qed.

Lemma shut_inv k s : matrix_inv s → matrix_inv (shut k s).
Proof.
  intros [H1 H2 H3 H4 H5]. unfold shut. destruct (dget k (engines s)) as [n|] eqn:E; [|done]. split; cbn; try done.
  - eapply sublist_NoDup; [exact H2|apply ddel_keys_sub].
  - unfold made_of, shut_of in *. rewrite !omap_app. cbn. rewrite app_nil_r, H3, <- app_assoc. f_equiv. by apply dget_perm.
  - intros e. unfold made_of. rewrite omap_app. cbn. rewrite app_nil_r. apply H4.
  - unfold made_of in *. rewrite omap_app. cbn. by rewrite app_nil_r.
Qed.

Lemma shut_records k s : records (shut k s) = records s.
Proof. unfold shut. by destruct (dget k (engines s)). Qed.

Lemma drop_stale_inv k s : matrix_inv s → matrix_inv (drop_stale k s) ∧ records (drop_stale k s) = records s.
Proof.
  intros Hs. unfold drop_stale. case_bool_decide; [|done]. split; [|cbn; apply shut_records].
  destruct (shut_inv k s Hs) as [H1 H2 H3 H4 H5]. by split.
Qed.

Lemma open_engine_inv k s s' : matrix_inv s → open_engine k s = Some s' → matrix_inv s' ∧ records s' = records s.
Proof.
  intros Hs. unfold open_engine, dmem. case_bool_decide as Hk; [by intros [= <-]|]. apply eq_None_not_Some, dget_None in Hk.
  destruct (factory _); [|done]. intros [= <-]. destruct Hs as [H1 H2 H3 H4 H5]. split; [|done]. split; cbn; try done.
  - by apply dset_keys_NoDup.
  - rewrite dset_keys_fresh by done. unfold made_of, shut_of in *. rewrite !omap_app. cbn. by rewrite H3, app_nil_r, app_assoc.
  - intros e. unfold made_of in *. rewrite omap_app. intros [He|He]%elem_of_app; [specialize (H4 e He); lia|].
    apply list_elem_of_singleton in He as ->. cbn. lia.
  - unfold made_of in *. rewrite omap_app, fmap_app. cbn. apply NoDup_app. split; [done|]. split; [|apply NoDup_singleton].
    intros n Hn ->%list_elem_of_singleton. apply list_elem_of_fmap in Hn as (e & E & He). specialize (H4 e He). lia.
Qed.

Lemma run_cell_inv p k cost s c :
  matrix_inv s → matrix_inv (run_cell p k cost s c) ∧ map cell_id (records (run_cell p k cost s c)) = map cell_id (records s) ++ [(k.1, k.2, c.1, c.2)].
Proof.
  intros [H1 H2 H3 H4 H5]. unfold run_cell. set (r := _run_once _ _ _ _ _ _ _).
  assert (matrix_inv (_append_incremental r s)) as Hs by (split; cbn; try done; by rewrite map_app, H1).
  assert (map cell_id (records (_append_incremental r s)) = map cell_id (records s) ++ [(k.1, k.2, c.1, c.2)]) as Hr.
  { cbn [records _append_incremental]. rewrite map_app. cbn [map]. unfold r. by rewrite run_once_id. }
  destruct (_ && _); [|done]. split; [|done]. destruct Hs as [? ? ? ? ?]. by split.
Qed.

Lemma run_cells_inv p k cost l s :
  matrix_inv s → let s' := foldl (run_cell p k cost) s l in
  matrix_inv s' ∧ map cell_id (records s') = map cell_id (records s) ++ map (λ c, (k.1, k.2, c.1, c.2)) l.
Proof.
  revert s. induction l as [|c l IH]; intros s Hs; cbn; [by rewrite app_nil_r|].
  destruct (run_cell_inv p k cost s c Hs) as [H1 H2]. destruct (IH _ H1) as [H3 H4]. split; [done|]. by rewrite H4, H2, <- app_assoc.
Qed.

(** A stage of the matrix that is to run [todo]: all of it, or a part before an exception. *)
Definition stage (s : matrix) (todo : list (string * string * task * nat)) (res : result matrix matrix) : Prop :=
  match res with
  | Ok s' => matrix_inv s' ∧ map cell_id (records s') = map cell_id (records s) ++ todo
  | Err s' => matrix_inv s' ∧ ∃ l, l `prefix_of` todo ∧ map cell_id (records s') = map cell_id (records s) ++ l
  end.

Lemma run_model_stage p cost k s : matrix_inv s → stage s (slot_cells p k) (run_model p cost k s).
Proof.
  intros Hs. unfold run_model. destruct (drop_stale_inv k s Hs) as [H1 E1]. destruct (open_engine k (drop_stale k s)) as [s1|] eqn:Eo.
  - destruct (open_engine_inv k _ s1 H1 Eo) as [H2 E2]. cbn. rewrite <- E1, <- E2. by apply run_cells_inv.
  - cbn. split; [done|]. exists []. split; [apply prefix_nil|]. by rewrite app_nil_r, E1.
Qed.

(** Stages in sequence. *)
Lemma stage_bind s l1 l2 res (k : matrix → result matrix matrix) :
  stage s l1 res → (∀ s', matrix_inv s' → stage s' l2 (k s')) →
  stage s (l1 ++ l2) (match res with Ok s' => k s' | Err s' => Err s' end).
Proof.
  intros H1 H2. destruct res as [s1|s1]; cbn in H1.
  - destruct H1 as [Hi Hr]. specialize (H2 s1 Hi). destruct (k s1) as [s2|s2]; cbn in *.
    + destruct H2 as [? ->]. split; [done|]. by rewrite Hr, app_assoc.
    + destruct H2 as (? & l & Hl & ->). split; [done|]. exists (l1 ++ l). split; [by apply prefix_app|]. by rewrite Hr, app_assoc.
  - destruct H1 as (? & l & Hl & Hr). cbn. split; [done|]. exists l. split; [|done]. by apply prefix_app_r.
Qed.

Lemma run_models_stage p cost l s : matrix_inv s → stage s (concat (map (slot_cells p) l)) (run_models p cost l s).
Proof.
  revert s. induction l as [|k l IH]; intros s Hs; cbn [run_models map concat]; [cbn; by rewrite app_nil_r|].
  apply stage_bind; [by apply run_model_stage|done].
Qed.

Lemma run_providers_stage p l s :
  matrix_inv s → stage s (concat (map (λ q, concat (map (slot_cells p) (keys_of q))) l)) (run_providers p l s).
Proof.
  revert s. induction l as [|q l IH]; intros s Hs; cbn [run_providers map concat]; [cbn; by rewrite app_nil_r|].
  destruct (p_cost q) as [cost|]; [|cbn; split; [done|]; exists []; split; [apply prefix_nil|by rewrite app_nil_r]].
  apply stage_bind; [by apply run_models_stage|done].
Qed.

Lemma shut_list_inv l s :
  matrix_inv s → let s' := foldl (λ s k, shut k s) s l in
  matrix_inv s' ∧ records s' = records s ∧ ∀ k, dget k (engines s') = if decide (k ∈ l) then None else dget k (engines s).
Proof.
  revert s. induction l as [|x l IH]; intros s Hs; cbn; [split_and!; try done; intros k; by rewrite decide_False by set_solver|].
  destruct (IH (shut x s) (shut_inv x s Hs)) as (H1 & H2 & H3). split_and!; [done|by rewrite H2, shut_records|].
  intros k. rewrite H3. unfold shut. destruct (dget x (engines s)) as [n|] eqn:E; cbn; rewrite ?dget_ddel;
    destruct (decide (k = x)) as [<-|Hk], (decide (k ∈ l)); repeat case_decide; set_solver.
Qed.

Lemma shut_all_inv s : matrix_inv s → matrix_inv (shut_all s) ∧ records (shut_all s) = records s ∧ engines (shut_all s) = [].
Proof.
  intros Hs. unfold shut_all. destruct (shut_list_inv (engines s).*1 s Hs) as (H1 & H2 & H3). split_and!; [done|done|].
  set (s1 := foldl _ _ _) in *. destruct (engines s1) as [|[k n] d]; [done|]. specialize (H3 k). rewrite dget_cons, decide_True in H3 by done.
  case_decide as Hk; [done|]. apply dget_None in Hk. congruence.
Qed.

Lemma run_providers_ok p l s :
  (∀ n, factory n = true) → Forall (λ q, ∃ c, p_cost q = Ok c) l → ∃ s', run_providers p l s = Ok s'.
Proof.
  intros Hf Hl. revert s. induction Hl as [|q l [c Hc] Hl IH]; intros s; cbn [run_providers]; [by eexists|]. rewrite Hc.
  assert (∀ ks s, ∃ s', run_models p c ks s = Ok s') as Hm.
  { induction ks as [|k ks IHk]; intros s0; cbn [run_models]; [by eexists|]. unfold run_model, open_engine. rewrite Hf. destruct (dmem _ _); apply IHk. }
  destruct (Hm (keys_of q) s) as [s1 ->]. apply IH.
Qed.

(** The matrix is complete and leaves nothing behind.  If no cost is malformed and the
    engine factory does not raise, there is exactly one record for each provider, model,
    task and repetition, in this order, whatever engines, judge and sandbox do in the
    cells.  If an exception ends the matrix early, the records are those of the cells up
    to there.  In both cases the file of finished cells has every record, and the engines
    that were shut down are the engines that were made, each once. *)
Theorem experiment_matrix_complete p :
  let s := match _run_matrix p with Ok s => s | Err s => s end in
  ((∀ n, factory n = true) → Forall (λ q, ∃ c, p_cost q = Ok c) (providers p) → _run_matrix p = Ok s ∧ map cell_id (records s) = all_cells p)
  ∧ map cell_id (records s) `prefix_of` all_cells p
  ∧ lines s = map dumps (records s)
  ∧ shut_of (events s) ≡ₚ made_of (events s) ∧ NoDup (made_of (events s)).*2.
Proof.
  assert (matrix_inv matrix_init) as Hinit by (split; cbn; try done; [apply NoDup_nil|set_solver|apply NoDup_nil]; done).
  pose proof (run_providers_stage p (providers p) matrix_init Hinit) as Hst. unfold _run_matrix, all_cells.
  pose proof (run_providers_ok p (providers p) matrix_init) as Hok.
  assert (∀ s, matrix_inv s → lines (shut_all s) = map dumps (records (shut_all s))
    ∧ shut_of (events (shut_all s)) ≡ₚ made_of (events (shut_all s)) ∧ NoDup (made_of (events (shut_all s))).*2) as Hend.
  { intros s Hs. destruct (shut_all_inv s Hs) as ([? ? Hb ? ?] & _ & E). rewrite E, app_nil_r in Hb. by split_and!. }
  assert (∀ s, matrix_inv s → records (shut_all s) = records s) as Hrec by (intros s Hs; by apply shut_all_inv).
  destruct (run_providers _ _ _) as [s|s]; cbn in Hst |- *.
  - destruct Hst as [Hi Hr]. rewrite (Hrec s Hi), Hr. split_and!; [done|done|rewrite <- (Hrec s Hi); apply Hend|apply Hend..]; done.
  - destruct Hst as (Hi & l & Hl & Hr). rewrite (Hrec s Hi), Hr. split_and!; [|done|rewrite <- (Hrec s Hi); apply Hend|apply Hend..]; [|done..].
    intros Hf Hc. by destruct (Hok Hf Hc).
Qed.
End runs.

(** ** The process environment around a run *)
Abbreviation environ := (gmap string string).

Definition flag : string := "NOEMA_NEUROSYMBOLIC__ENABLED".

Definition _apply_settings (neurosymbolic : bool) (env : environ) : environ := <[flag := if neurosymbolic then "true" else "false"]> env.

(** The loop goes over a copy of the environment: [value] is the current one. *)
Definition restore_key (saved : environ) (env : environ) (kv : string * string) : environ :=
  match saved !! kv.1 with
  | None => delete kv.1 env
  | Some _ => if bool_decide (env !! kv.1 = Some kv.2) then env else <[kv.1 := kv.2]> env
  end.

Definition _restore_environment (saved env : environ) : environ := foldl (restore_key saved) env (map_to_list env).

Lemma restore_loop saved l env :
  NoDup l.*1 → (∀ k v, (k, v) ∈ l → env !! k = Some v) →
  ∀ k, foldl (restore_key saved) env l !! k = if decide (k ∈ l.*1 ∧ saved !! k = None) then None else env !! k.
Proof.
  revert env. induction l as [|[k0 v0] l IH]; intros env Hnd Henv k; cbn [foldl]; [by rewrite decide_False by set_solver|].
  apply NoDup_cons in Hnd as [Hk0 Hnd]. assert (∀ v, (k0, v) ∉ l) as Hno.
  { intros v Hv. apply Hk0. by apply (list_elem_of_fmap_2 fst _ _ Hv). }
  assert (restore_key saved env (k0, v0) = if decide (saved !! k0 = None) then delete k0 env else env) as ->.
  { unfold restore_key. cbn [fst snd]. destruct (saved !! k0) as [x|]; [|done]. rewrite bool_decide_true; [done|]. apply Henv. set_solver. }
  rewrite IH; [|done|].
  - cbn [fmap list_fmap fst]. destruct (decide (k = k0)) as [->|Hk].
    + destruct (decide (saved !! k0 = None)) as [E|E]; [rewrite lookup_delete_eq|]; repeat case_decide; set_solver.
    + assert ((if decide (saved !! k0 = None) then delete k0 env else env) !! k = env !! k) as -> by (case_decide; [by rewrite lookup_delete_ne|done]).
      repeat case_decide; set_solver.
  - intros k' v' Hin. destruct (decide (saved !! k0 = None)); [|apply Henv; set_solver].
    rewrite lookup_delete_ne; [apply Henv; set_solver|]. intros <-. by destruct (Hno v').
Qed.

(** What [_restore_environment] does: variables that were not there before are removed, and
    the others keep whatever value they have. *)
Lemma restore_environment_exact saved env k :
  _restore_environment saved env !! k = if decide (saved !! k = None) then None else env !! k.
Proof.
  unfold _restore_environment. rewrite restore_loop; [|apply NoDup_fst_map_to_list|intros k' v; by rewrite elem_of_map_to_list].
  destruct (decide (saved !! k = None)) as [Hs|Hs]; [|rewrite decide_False by tauto; done]. case_decide as Hc; [done|].
  destruct (env !! k) as [v|] eqn:E; [|done]. destruct Hc. split; [|done].
  apply list_elem_of_fmap. exists (k, v). split; [done|]. by apply elem_of_map_to_list.
Qed.

(** So a run changes the caller's environment for good when the variable was set. *)
Lemma environment_not_restored neurosymbolic (saved : environ) v :
  saved !! flag = Some v →
  _restore_environment saved (_apply_settings neurosymbolic saved) !! flag = Some (if neurosymbolic then "true" else "false").
Proof. intros Hv. rewrite restore_environment_exact, Hv. unfold _apply_settings. by rewrite lookup_insert_eq. Qed.

Example environment_leaks :
  _restore_environment {[flag := "false"]} (_apply_settings true {[flag := "false"]}) !! flag = Some "true".
Proof. by vm_compute. Qed.

(** Two runs in threads; the copy is taken before the lock. *)
Inductive env_step := Save (i : bool) | Enter (i : bool) | Leave (i : bool).

Definition env_run (s : environ * (bool → environ) * option bool) (a : env_step) : option (environ * (bool → environ) * option bool) :=
  let '(env, saved, lock) := s in
  match a, lock with
  | Save i, _ => Some (env, (λ j, if Bool.eqb i j then env else saved j), lock)
  | Enter i, None => Some (_apply_settings true env, saved, Some i)
  | Leave i, Some j => if Bool.eqb i j then Some (_restore_environment (saved i) env, saved, None) else None
  | _, _ => None
  end.

Example concurrent_runs_leak :
  (λ s : environ * (bool → environ) * option bool, s.1.1 !! flag)
    <$> exec env_run (∅, (λ _, ∅), None) [Save true; Enter true; Save false; Leave true; Enter false; Leave false] = Some (Some "true").
Proof. by vm_compute. Qed.

(** ** Costs per file add up *)
Lemma attribute_sums c total tin tout si so files :
  files ≠ [] →
  sumZ (map fc_input (attribute c total tin tout si so files)) = (tin - si)%Z
  ∧ sumZ (map fc_output (attribute c total tin tout si so files)) = (tout - so)%Z.
Proof.
  revert si so. induction files as [|[name lines] rest IH]; intros si so Hne; [done|]. destruct rest as [|f rest].
  - cbn. lia.
  - change (attribute c total tin tout si so ((name, lines) :: f :: rest)) with
      (mkFileCostRow name lines (share tin lines total) (share tout lines total) (round_at 100000000 (c * inject_Z (share tin lines total + share tout lines total)))
       :: attribute c total tin tout (si + share tin lines total) (so + share tout lines total) (f :: rest)).
    destruct (IH (si + share tin lines total)%Z (so + share tout lines total)%Z ltac:(done)) as [E1 E2].
    cbn [map fc_input fc_output]. unfold sumZ in *. cbn [foldr]. rewrite E1, E2. lia.
Qed.

(** The rows of [attribute_file_costs] sum to the tokens of the run. *)
Lemma file_costs_conserve blocks tin tout c :
  let rows := attribute_file_costs blocks tin tout c in
  rows = [] ∨ sumZ (map fc_input rows) = tin ∧ sumZ (map fc_output rows) = tout.
Proof.
  cbn zeta. unfold attribute_file_costs. destruct (_ || _) eqn:E; [by left|right]. apply orb_false_iff in E as [E _].
  destruct (named_lines blocks) as [|f files] eqn:En; [by cbn in E|].
  destruct (attribute_sums c (sumZ (map snd (f :: files))) tin tout 0 0 (f :: files) ltac:(done)) as [-> ->]. lia.
Qed.

(** Rounding up everywhere leaves a negative rest for the last file. *)
Example negative_tokens :
  map fc_input (attribute_file_costs (map (λ n, (n, "x")) ["a"; "b"; "c"; "d"; "e"]) 3 0 0) = [1; 1; 1; 1; -1]%Z.
Proof. by vm_compute. Qed.

(** ** Concrete matrices *)
Definition demo_outcome (o : thought) : outcome :=
  mkOutcome "t" 0 (mkStats 0 0 0 0) (mkStats 3 1 1 2) o (Ok (1%Q, true, "")) (Ok (true, "")).
Definition demo_plan : plan := mkPlan [mkTask "t" "" []] 2 None false [mkProvider "p" (Ok 0%Q) ["m"]].
Definition demo_matrix := _run_matrix (λ _, "5") "x" "r" (λ n, demo_outcome (if n =? 0 then TimedOut else ThinkRaised "E: boom")) (λ _, true) (λ r, r_run_id r).

(** A cell that times out is followed by cells on the same engine: only a later entry for
    the same provider and model gets a new one. *)
Example timed_out_engine_is_reused :
  match demo_matrix demo_plan with
  | Ok s => map r_error (records s) = [Some "timeout after 5s"; Some "E: boom"] ∧ events s = [Made ("p", "m") 0; Shut ("p", "m") 0]
  | Err _ => False
  end.
Proof. vm_compute. split; reflexivity. Qed.
