(* ===== verification/Leaderboard.v ===== *)
(** * Summaries and the leaderboard ([_summarize] of [noema/experiments/runner.py],
    [noema/eval/leaderboard.py])

    The runner groups the records of a run by provider and model; the leaderboard reads the
    rows of all runs, in the order of their directories, and merges them into running
    weighted means.  [statistics.stdev] and [float] of a string are parameters; the files
    under the results directory are the list of parsed summaries. *)
From Stdlib Require Import ZArith QArith Qround Qabs Lqa Lia Bool Ascii String.
From stdpp Require Import base option numbers sets strings sorting list.
From S2P Require Import Prelude Symbolic CostTracker Experiments.
Local Open Scope string_scope.
Local Open Scope list_scope.
Local Open Scope nat_scope.

Definition Qn (n : nat) : Q := inject_Z (Z.of_nat n).

(** ** Summaries *)
Record summary_row := mkRow {
  provider : string; model : string; n : nat; mean_judge_score : Q; stddev_judge_score : Q; mean_latency_ms : Q; stddev_latency_ms : Q;
  mean_total_tokens : Q; mean_cost : Q; sandbox_pass_rate : option Q; error_rate : Q;
}.

Section summary.
Context (stdev : list Q → Q).

Definition _mean (l : list Q) : Q := match l with [] => 0 | _ => sumQ l / Qn (length l) end%Q.
Definition _stddev (l : list Q) : Q := if (1 <? length l)%nat then stdev l else 0%Q.

Definition key_of (r : RunRecord) : string * string := (r_provider r, r_model r).

(** [groups[key].append(r)] with a [defaultdict]. *)
Definition group (d : list (string * string * list RunRecord)) (r : RunRecord) : list (string * string * list RunRecord) :=
  dset (key_of r) (default [] (dget (key_of r) d) ++ [r]) d.

Definition groups (l : list RunRecord) : list (string * string * list RunRecord) := foldl group [] l.

(** Tuples are compared field by field. *)
Definition key_before (x y : string * string * list RunRecord) : bool :=
  let '(p, m, _) := x in let '(p', m', _) := y in
  if String.eqb p p' then String.ltb m m' else String.ltb p p'.

Definition bool_q (b : bool) : Q := if b then 1 else 0.

Definition row_of (g : string * string * list RunRecord) : summary_row :=
  let '(p, m, recs) := g in
  let scores := map r_judge_score recs in
  let durations := map r_duration_ms recs in
  let sandbox := omap r_sandbox recs in
  mkRow p m (length recs) (round_at 10000 (_mean scores)) (round_at 10000 (_stddev scores))
    (round_at 100 (_mean durations)) (round_at 100 (_stddev durations))
    (round_at 10 (_mean (map (λ r, inject_Z (r_total_tokens r)) recs))) (round_at 100000000 (_mean (map r_cost recs)))
    (match sandbox with [] => None | _ => Some (round_at 10000 (sumQ (map bool_q sandbox) / Qn (length sandbox))) end)
    (round_at 10000 (_mean (map (λ r, bool_q (match r_error r with Some e => nonempty e | None => false end)) recs))).

Definition _summarize (l : list RunRecord) : list summary_row := map row_of (stable_sort key_before (groups l)).

Lemma groups_spec l k : default [] (dget k (groups l)) = filter (λ r, key_of r = k) l ∧ (dget k (groups l) = None ↔ filter (λ r, key_of r = k) l = []).
Proof.
  unfold groups. induction l as [|r l IH] using rev_ind; [done|]. rewrite foldl_app, filter_app. cbn [foldl]. unfold group at 1 3.
  rewrite !dget_dset, filter_cons, filter_nil. destruct (decide (k = key_of r)) as [->|Hk].
  - rewrite decide_True by done. cbn [default from_option]. destruct IH as [-> _]. split; [done|]. split; [done|]. by intros []%app_nil.
  - rewrite decide_False by done. by rewrite app_nil_r.
Qed.

Lemma groups_NoDup l : NoDup (groups l).*1.
Proof.
  unfold groups. induction l as [|r l IH] using rev_ind; [apply NoDup_nil_2|]. rewrite foldl_app. cbn. by apply dset_keys_NoDup.
Qed.

(** There is one row for each provider and model of the records, and its mean is that of
    their scores, to four decimals. *)
Lemma summary_exact l row :
  row ∈ _summarize l → let recs := filter (λ r, key_of r = (provider row, model row)) l in
  n row = length recs ∧ recs ≠ [] ∧ mean_judge_score row = round_at 10000 (_mean (map r_judge_score recs)).
Proof.
  unfold _summarize. intros ([[p m] recs] & -> & Hin)%list_elem_of_fmap. rewrite stable_sort_perm in Hin. cbn.
  assert (dget (p, m) (groups l) = Some recs) as Hg by (apply dget_mem; [apply groups_NoDup|done]).
  destruct (groups_spec l (p, m)) as [H1 H2]. rewrite Hg in H1, H2. cbn in H1. rewrite <- H1 in *. split_and!; [done| |done]. intros E. by apply H2 in E.
Qed.
End summary.

(** ** The leaderboard *)
Record LeaderboardRow := mkEntry {
  l_provider : string; l_model : string; runs : nat; cells : Z; l_score : Q; best_score : Q; worst_score : Q; l_latency : Q;
  l_tokens : Q; l_cost : Q; l_errors : Q; l_sandbox : option Q;
}.

(** [None]: the file is missing or corrupt. *)
Definition _read_summary_rows (data : option json) : list obj :=
  match data with
  | Some (JObj d) =>
      match dget "summary" d with
      | Some (JArr rows) => omap (λ j, match j with JObj r => Some r | _ => None end) rows
      | _ => []
      end
  | _ => []
  end.

(** [deep] and [shallow]: the sorted results of the two patterns. *)
Definition _run_dirs (deep shallow : list string) : list string := foldl (λ seen d, if bool_decide (d ∈ seen) then seen else seen ++ [d]) [] (deep ++ shallow).

Section leaderboard.
Context (repr : json → string) (float_str : string → option Q).

Definition _to_float (j : option json) : Q :=
  match j with
  | Some j => match to_float float_str j with Ok q => q | Err _ => 0 end
  | None => 0
  end%Q.

Definition _weighted (current : Q) (current_n : Z) (value : Q) (new_n : Z) : Q :=
  let total := (current_n + new_n)%Z in
  if (total <=? 0)%Z then 0%Q else round_at 10000 ((current * inject_Z current_n + value * inject_Z new_n) / inject_Z total).

Definition row_key (row : obj) : string * string :=
  let s k := py_str repr (default (JStr "") (dget k row)) in (s "provider", s "model").

Definition row_n (row : obj) : Z := Z.max 1 (Qtrunc (_to_float (Some (default (JNum 0) (dget "n" row))))).

Definition Qmin_ (x y : Q) : Q := if Qle_bool x y then x else y.
Definition Qmax_ (x y : Q) : Q := if Qle_bool y x then x else y.

Definition merge (row : obj) (out : LeaderboardRow) : LeaderboardRow :=
  let c := cells out in
  let k := row_n row in
  let f name := _to_float (dget name row) in
  let score := f "mean_judge_score" in
  mkEntry (l_provider out) (l_model out) (S (runs out)) (c + k) (_weighted (l_score out) c score k) (Qmax_ (best_score out) score)
    (if Qeq_bool (worst_score out) 0 then score else Qmin_ (worst_score out) score)
    (_weighted (l_latency out) c (f "mean_latency_ms") k) (_weighted (l_tokens out) c (f "mean_total_tokens") k)
    (_weighted (l_cost out) c (f "mean_cost") k) (_weighted (l_errors out) c (f "error_rate") k)
    (match dget "sandbox_pass_rate" row with
     | Some (JNum v) => Some (match l_sandbox out with None => v | Some w => (w + v) / 2 end)%Q
     | Some (JBool b) => Some (match l_sandbox out with None => bool_q b | Some w => (w + bool_q b) / 2 end)%Q
     | _ => l_sandbox out
     end).

Definition empty_entry (k : string * string) : LeaderboardRow := mkEntry k.1 k.2 0 0 0 0 0 0 0 0 0 None.

Definition accumulate (acc : list (string * string * LeaderboardRow)) (row : obj) : list (string * string * LeaderboardRow) :=
  let k := row_key row in
  if negb (nonempty k.1) || negb (nonempty k.2) then acc
  else dset k (merge row (default (empty_entry k) (dget k acc))) acc.

(** *** Ranking *)
Definition lex (a b : comparison) : comparison := match a with Eq => b | _ => a end.

Definition rank (x y : LeaderboardRow) : comparison :=
  lex (Qcompare (l_score y) (l_score x)) (lex (Qcompare (l_latency x) (l_latency y)) (lex (Qcompare (l_cost x) (l_cost y))
    (lex (String.compare (lower (l_provider x)) (lower (l_provider y))) (String.compare (lower (l_model x)) (lower (l_model y)))))).

Definition ranks_before (x y : LeaderboardRow) : bool := match rank x y with Lt => true | _ => false end.

(** [rows]: those of all summaries, in the order of the run directories. *)
Definition compute_leaderboard (rows : list obj) (top_n : Z) : list LeaderboardRow :=
  let sorted := stable_sort ranks_before (map snd (foldl accumulate [] rows)) in
  if (0 <? top_n)%Z then take (Z.to_nat top_n) sorted else sorted.

(** *** Means *)
Definition of_key (k : string * string) (rows : list obj) : list obj :=
  filter (λ row, row_key row = k ∧ nonempty k.1 = true ∧ nonempty k.2 = true) rows.

Definition total_n (l : list obj) : Z := sumZ (map row_n l).

Definition weighted_sum (name : string) (l : list obj) : Q := sumQ (map (λ row, _to_float (dget name row) * inject_Z (row_n row))%Q l).

Lemma round_at_err x : (- (1 # 20000) <= round_at 10000 x - x <= 1 # 20000)%Q.
Proof.
  unfold round_at. pose proof (round_half_even_err (x * 10000)) as [H1 H2].
  set (r := inject_Z (round_half_even (x * 10000))) in *. clearbody r.
  assert (r / 10000 == r * (1 # 10000))%Q as -> by (unfold Qdiv; reflexivity). split; lra.
Qed.

(** A running mean over [c] cells is off by at most half a unit of the fourth decimal for
    each of the runs merged so far. *)
Definition near (m : Q) (k : nat) (c : Z) (s : Q) : Prop :=
  (- (inject_Z c * Qn k * (1 # 20000)) <= m * inject_Z c - s <= inject_Z c * Qn k * (1 # 20000))%Q.

Lemma weighted_near m k c s v d :
  (0 <= c)%Z → (1 <= d)%Z → near m k c s → near (_weighted m c v d) (S k) (c + d) (s + v * inject_Z d)%Q.
Proof.
  intros Hc Hd [H1 H2]. unfold _weighted, near. rewrite (proj2 (Z.leb_gt _ _)) by lia. set (x := (_ / _)%Q).
  pose proof (round_at_err x) as [R1 R2]. set (r := round_at 10000 x) in *. clearbody r.
  assert (x * inject_Z (c + d) == m * inject_Z c + v * inject_Z d)%Q as Hx.
  { unfold x. field. intros E. unfold Qeq in E. cbn in E. lia. }
  assert (Qn (S k) == Qn k + 1)%Q as ->. { unfold Qn. rewrite Nat2Z.inj_succ. unfold Z.succ. rewrite inject_Z_plus. reflexivity. }
  rewrite inject_Z_plus in *. set (C := inject_Z c) in *. set (D := inject_Z d) in *. set (K := Qn k) in *.
  assert (0 <= C)%Q by (unfold C; by rewrite <- (Zle_Qle 0)). assert (0 <= D)%Q by (unfold D; rewrite <- (Zle_Qle 0); lia).
  assert (0 <= K)%Q by (unfold K, Qn; rewrite <- (Zle_Qle 0); lia). clearbody C D K x.
  assert (0 <= D * K)%Q as HDK by nra. split; nra.
Qed.

Lemma near_eq m k c s s' : (s == s')%Q → near m k c s → near m k c s'.
Proof. intros E [H1 H2]. unfold near. rewrite <- E. by split. Qed.

(** The entry of a provider and model whose rows so far are [l]. *)
Definition entry_ok (k : string * string) (l : list obj) (out : LeaderboardRow) : Prop :=
  (l_provider out, l_model out) = k ∧ runs out = length l ∧ cells out = total_n l
  ∧ near (l_score out) (length l) (total_n l) (weighted_sum "mean_judge_score" l)
  ∧ near (l_latency out) (length l) (total_n l) (weighted_sum "mean_latency_ms" l)
  ∧ near (l_tokens out) (length l) (total_n l) (weighted_sum "mean_total_tokens" l)
  ∧ near (l_cost out) (length l) (total_n l) (weighted_sum "mean_cost" l)
  ∧ near (l_errors out) (length l) (total_n l) (weighted_sum "error_rate" l).

Lemma row_n_pos row : (1 <= row_n row)%Z.
Proof. unfold row_n. lia. Qed.

Lemma sumZ_app l l' : sumZ (l ++ l') = (sumZ l + sumZ l')%Z.
Proof. induction l as [|x l IH]; [done|]. unfold sumZ in *. cbn. rewrite IH. lia. Qed.

Lemma total_n_app l row : total_n (l ++ [row]) = (total_n l + row_n row)%Z.
Proof. unfold total_n. rewrite map_app, sumZ_app. cbn. lia. Qed.

Lemma total_n_nonneg l : (Z.of_nat (length l) <= total_n l)%Z.
Proof.
  induction l as [|row l IH]; [done|]. pose proof (row_n_pos row). change (total_n (row :: l)) with (row_n row + total_n l)%Z. cbn [length]. lia.
Qed.

Lemma weighted_sum_app name l row :
  (weighted_sum name l + _to_float (dget name row) * inject_Z (row_n row) == weighted_sum name (l ++ [row]))%Q.
Proof. unfold weighted_sum. rewrite map_app, sumQ_app. cbn. ring. Qed.

Lemma merge_ok k l row out : entry_ok k l out → entry_ok k (l ++ [row]) (merge row out).
Proof.
  intros (H1 & H2 & H3 & N1 & N2 & N3 & N4 & N5). pose proof (total_n_nonneg l). pose proof (row_n_pos row).
  assert (∀ m v name, near m (length l) (total_n l) (weighted_sum name l) → v = _to_float (dget name row) →
    near (_weighted m (cells out) v (row_n row)) (length (l ++ [row])) (total_n (l ++ [row])) (weighted_sum name (l ++ [row]))) as Hw.
  { intros m v name Hm ->. rewrite length_app, total_n_app, H3. cbn [length]. rewrite Nat.add_1_r. eapply near_eq; [apply weighted_sum_app|].
    apply weighted_near; [lia|lia|done]. }
  split_and!; cbn; [done|rewrite length_app; cbn; lia|rewrite total_n_app; lia|by apply Hw..].
Qed.

Lemma empty_entry_ok k : entry_ok k [] (empty_entry k).
Proof. destruct k as [p m]. split_and!; try done; cbn; split; vm_compute; discriminate. Qed.

Definition board_inv (rows : list obj) (acc : list (string * string * LeaderboardRow)) : Prop :=
  NoDup acc.*1 ∧ ∀ k, match dget k acc with
                      | None => of_key k rows = []
                      | Some out => of_key k rows ≠ [] ∧ entry_ok k (of_key k rows) out
                      end.

Lemma accumulate_inv rows : board_inv rows (foldl accumulate [] rows).
Proof.
  induction rows as [|row rows IH] using rev_ind; [by split; [apply NoDup_nil_2|]|]. rewrite foldl_app. cbn [foldl]. destruct IH as [Hnd IH].
  unfold accumulate. set (acc := foldl _ _ _) in *. clearbody acc.
  assert (∀ k, of_key k (rows ++ [row]) = of_key k rows ++ of_key k [row]) as Happ by (intros k; apply filter_app).
  destruct (negb (nonempty (row_key row).1) || negb (nonempty (row_key row).2)) eqn:E.
  - split; [done|]. intros k. rewrite Happ. assert (of_key k [row] = []) as ->; [|rewrite app_nil_r; apply IH].
    unfold of_key. rewrite filter_cons_False, filter_nil; [done|]. intros (<- & H1 & H2). by rewrite H1, H2 in E.
  - apply orb_false_iff in E as [E1%negb_false_iff E2%negb_false_iff]. split; [by apply dset_keys_NoDup|]. intros k. rewrite dget_dset, Happ.
    destruct (decide (k = row_key row)) as [->|Hk].
    + assert (of_key (row_key row) [row] = [row]) as -> by (unfold of_key; by rewrite filter_cons_True, filter_nil).
      split; [by intros []%app_nil|]. apply merge_ok. specialize (IH (row_key row)).
      destruct (dget (row_key row) acc) as [out|]; [apply IH|]. rewrite IH. apply empty_entry_ok.
    + assert (of_key k [row] = []) as ->; [|rewrite app_nil_r; apply IH].
      unfold of_key. rewrite filter_cons_False, filter_nil; [done|]. intros [E _]. by destruct Hk.
Qed.

(** *** The order *)
Record ordering {A} (c : A → A → comparison) : Prop := {
  ord_opp : ∀ x y, c x y = CompOpp (c y x);
  ord_trans : ∀ x y z, c x y ≠ Gt → c y z ≠ Gt → c x z ≠ Gt;
  ord_eq : ∀ x y z, c x y = Eq → c x z = c y z;
}.

Lemma ord_lex {A} (c d : A → A → comparison) : ordering c → ordering d → ordering (λ x y, lex (c x y) (d x y)).
Proof.
  intros [o1 t1 e1] [o2 t2 e2]. split.
  - intros x y. rewrite (o1 x y), (o2 x y). by destruct (c y x).
  - intros x y z. specialize (t1 x y z). destruct (c x y) eqn:E1; cbn; intros H1 H2; [|clear H1|done].
    + rewrite (e1 x y z E1). destruct (c y z); cbn in *; [by eapply t2|done|done].
    + destruct (c y z) eqn:E2; cbn in *; [|clear H2|done].
      * assert (c x z = Lt) as ->; [|done]. rewrite (o1 x z), <- (e1 y z x E2), <- (o1 x y). done.
      * destruct (c x z) eqn:E3; [|done|by destruct t1]. exfalso. rewrite (e1 x z y E3), (o1 z y), E2 in E1. done.
  - intros x y z. cbn. destruct (c x y) eqn:E1; cbn; try done. intros H. by rewrite (e1 x y z E1), (e2 x y z H).
Qed.

Lemma ord_inv {A B} (c : B → B → comparison) (f : A → B) : ordering c → ordering (λ x y, c (f x) (f y)).
Proof. intros [o t e]. split; eauto. Qed.

Lemma ord_flip {A} (c : A → A → comparison) : ordering c → ordering (λ x y, c y x).
Proof.
  intros [o t e]. split; [eauto|eauto|]. intros x y z H. rewrite (o z x), (o z y). f_equal. apply e. rewrite o, H. done.
Qed.

Lemma ord_Q : ordering Qcompare.
Proof.
  split.
  - intros x y. by rewrite (Qcompare_antisym y x).
  - intros x y z. rewrite <- !Qle_alt. apply Qle_trans.
  - intros x y z E%Qeq_alt. by rewrite E.
Qed.

Lemma ord_string : ordering String.compare.
Proof.
  assert (∀ s t, String.compare s t ≠ Gt ↔ string_le s t) as Hle.
  { intros s t. unfold string_le, String.leb. by destruct (String.compare s t). }
  split.
  - intros s t. apply String.compare_antisym.
  - intros s t u. rewrite !Hle. apply string_le_trans.
  - intros s t u ->%String.compare_eq_iff. done.
Qed.

Lemma rank_ordering : ordering rank.
Proof.
  unfold rank. apply (ord_lex (λ x y, Qcompare (l_score y) (l_score x))); [apply (ord_flip (λ x y, Qcompare (l_score x) (l_score y))), ord_inv, ord_Q|].
  apply (ord_lex (λ x y, Qcompare (l_latency x) (l_latency y))); [apply ord_inv, ord_Q|].
  apply (ord_lex (λ x y, Qcompare (l_cost x) (l_cost y))); [apply ord_inv, ord_Q|].
  apply (ord_lex (λ x y, String.compare (lower (l_provider x)) (lower (l_provider y)))); apply (ord_inv String.compare (λ x, lower _)), ord_string.
Qed.

Lemma board_sorted rows : StronglySorted (λ x y, rank x y ≠ Gt) (compute_leaderboard rows 0).
Proof.
  destruct rank_ordering as [o t e]. assert (∀ x y, ranks_before y x = false ↔ rank x y ≠ Gt) as Hb.
  { intros x y. unfold ranks_before. rewrite (o x y). by destruct (rank y x). }
  assert (∀ l, StronglySorted (λ x y, ranks_before y x = false) l → StronglySorted (λ x y, rank x y ≠ Gt) l) as Hss.
  { induction 1 as [|x l _ IH Hx]; constructor; [done|]. eapply Forall_impl; [exact Hx|]. intros y. apply Hb. }
  unfold compute_leaderboard. cbn. apply Hss, stable_sort_sorted.
  - intros x y. unfold ranks_before. rewrite (o y x). by destruct (rank x y).
  - intros x y z. rewrite !Hb. intros H1 H2. by eapply t.
Qed.

(** The leaderboard is what its documentation says.  There is exactly one entry for
    each named provider and model of the summaries; it counts their runs and cells, and
    each of its means (score, latency, tokens, cost, errors) differs from the cell-weighted
    mean over those runs by at most half a unit of the fourth decimal per run; the entries
    are in ranking order, and a limit keeps the first ones. *)
Theorem leaderboard_exact rows :
  let board := compute_leaderboard rows 0 in
  NoDup (map (λ out, (l_provider out, l_model out)) board)
  ∧ (∀ out, out ∈ board → entry_ok (l_provider out, l_model out) (of_key (l_provider out, l_model out) rows) out)
  ∧ (∀ k, of_key k rows ≠ [] ↔ k ∈ map (λ out, (l_provider out, l_model out)) board)
  ∧ StronglySorted (λ x y, rank x y ≠ Gt) board
  ∧ ∀ top, (0 < top)%Z → compute_leaderboard rows top = take (Z.to_nat top) board.
Proof.
  cbn zeta. destruct (accumulate_inv rows) as [Hnd Hinv]. set (acc := foldl accumulate [] rows) in *.
  assert (compute_leaderboard rows 0 ≡ₚ map snd acc) as Hperm by (unfold compute_leaderboard; cbn; apply stable_sort_perm).
  assert (∀ k out, (k, out) ∈ acc → entry_ok k (of_key k rows) out ∧ of_key k rows ≠ []) as Hin.
  { intros k out Hk%dget_mem; [|done]. specialize (Hinv k). rewrite Hk in Hinv. naive_solver. }
  assert (map (λ out, (l_provider out, l_model out)) (map snd acc) = acc.*1) as Hkeys.
  { rewrite map_map. apply map_ext_in. intros [k out] Hk%list_elem_of_In. destruct (Hin k out Hk) as [[E _] _]. exact E. }
  split_and!.
  - rewrite Hperm, Hkeys. done.
  - intros out. rewrite Hperm. intros ([k out'] & -> & Hk)%list_elem_of_fmap. cbn. destruct (Hin k out' Hk) as [H _]. pose proof H as [-> _]. done.
  - intros k. rewrite Hperm, Hkeys. rewrite <- dget_is_Some. specialize (Hinv k). destruct (dget k acc) as [out|].
    + split; [eauto|]. intros _. apply Hinv.
    + split; [done|]. by intros [].
  - apply board_sorted.
  - intros top Ht. unfold compute_leaderboard. rewrite (proj2 (Z.ltb_lt _ _)) by done. done.
Qed.
End leaderboard.

(** ** Concrete boards *)
Definition demo_row (score : Q) (k : Z) (more : obj) : obj :=
  [("provider", JStr "p"); ("model", JStr "m"); ("n", JNum (inject_Z k)); ("mean_judge_score", JNum score)] ++ more.
Definition demo_board (rows : list obj) : list LeaderboardRow := compute_leaderboard (λ _, "") (λ _, None) rows 0.

(** A score of zero counts as no score for the worst one. *)
Example zero_is_not_the_worst_score : map worst_score (demo_board [demo_row 0 1 []; demo_row 5 1 []]) = [5%Q].
Proof. reflexivity. Qed.

(** The sandbox rate is not weighted by cells: one passing cell outweighs half of 99. *)
Example sandbox_rate_is_not_weighted :
  map (λ r, option_map Qred (l_sandbox r)) (demo_board [demo_row 1 99 [("sandbox_pass_rate", JNum 0)]; demo_row 1 1 [("sandbox_pass_rate", JNum 1)]])
  = [Some (1 # 2)%Q].
Proof. by vm_compute. Qed.

(** Costs per cell below half a tenth of a thousandth are rounded away, although summaries
    carry eight decimals and the table prints six. *)
Example small_mean_costs_vanish : map (λ r, Qred (l_cost r)) (demo_board [demo_row 1 10 [("mean_cost", JNum (4 # 100000))]]) = [0%Q].
Proof. by vm_compute. Qed.
