(* ===== verification/Feedback.v ===== *)
(** * Feedback store ([noema/feedback/store.py])

    Ratings of solutions, kept in memory and written to one JSON file after each, with the
    statistics over them.  Writing goes through the model of [atomic_write_json], whose
    system calls may fail; the JSON text is a parameter, and decoding an entry is a class
    with its round-trip law, as dataclasses built from their own dictionaries have it. *)
From Stdlib Require Import ZArith QArith Qround Lqa Lia Bool Ascii String.
From stdpp Require Import base option numbers gmap sets pretty strings sorting list.
From S2P Require Import Prelude CostTracker AtomicIO.
Local Open Scope string_scope.
Local Open Scope list_scope.
Local Open Scope nat_scope.

Record FeedbackEntry := mkEntry {
  solution_id : string; task_title : string; rating : Z; quality_assessment : string; comments : string; used_stack : string; would_use_again : bool;
  improvements_suggested : list string; tags : list string; timestamp : string;
}.

Record SolutionMetrics := mkMetrics {
  task_tags : list string; quality_given : string; quality_actual : string; m_rating : Z; confidence : Q; generation_time_ms : Q; code_blocks_count : nat; would_reuse : bool;
}.

Record FeedbackStore := mkStore { entries : list FeedbackEntry; _metrics : list SolutionMetrics }.

Definition store_init : FeedbackStore := mkStore [] [].

(** What [record_feedback] takes from a solution and its task. *)
Record rated := mkRated { s_id : string; stack : string; quality : string; s_confidence : Q; blocks : nat; t_title : string; t_tags : list string }.

(** A record that becomes a dictionary and is built from one. *)
Class Stored (A : Type) := { asdict : A → json; build : json → option A }.
Class StoredLaws (A : Type) `{Stored A} := build_asdict : ∀ x, build (asdict x) = Some x.

Section store.
Context `{Stored FeedbackEntry, Stored SolutionMetrics}.
Context (dumps : json → string) (loads : string → parsed) (persist_path : string).

Definition document (s : FeedbackStore) : json :=
  JObj [("entries", JArr (map asdict (entries s))); ("metrics", JArr (map asdict (_metrics s)))].

(** Records are appended until one cannot be built, which ends the loading. *)
Fixpoint load_list {A} `{Stored A} (l : list json) (acc : list A) : list A * bool :=
  match l with
  | [] => (acc, true)
  | j :: l => match build j with Some x => load_list l (acc ++ [x]) | None => (acc, false) end
  end.

Definition items (k : string) (d : list (string * json)) : option (list json) :=
  match default (JArr []) (dget k d) with JArr l => Some l | _ => None end.

Definition load (fs : files) (s : FeedbackStore) : FeedbackStore :=
  match fs !! persist_path with
  | None => s
  | Some text =>
      match loads text with
      | Parsed (JObj d) =>
          match items "entries" d with
          | None => s
          | Some es =>
              let '(es, ok) := load_list es (entries s) in
              if ok then
                match items "metrics" d with
                | None => mkStore es (_metrics s)
                | Some ms => mkStore es (load_list ms (_metrics s)).1
                end
              else mkStore es (_metrics s)
          end
      | _ => s
      end
  end.

Definition persist (s : FeedbackStore) (rnd : string) : io () := atomic_write_json dumps persist_path (document s) true 5 rnd.

Definition entry_of (r : rated) (rate : Z) (comment : string) (again : bool) (improvements : list string) (now : string) : FeedbackEntry :=
  mkEntry (s_id r) (t_title r) (Z.max 1 (Z.min 5 rate)) "" comment (stack r) again improvements (t_tags r) now.

Definition metrics_of (r : rated) (e : FeedbackEntry) : SolutionMetrics :=
  mkMetrics (t_tags r) (quality r) "" (rating e) (s_confidence r) 0 (blocks r) (would_use_again e).

Definition add_feedback (r : rated) (e : FeedbackEntry) (s : FeedbackStore) : FeedbackStore :=
  mkStore (entries s ++ [e]) (_metrics s ++ [metrics_of r e]).

(** The entry is in memory before it is written. *)
Definition record_feedback (r : rated) (e : FeedbackEntry) (rnd : string) (s : FeedbackStore) (fs : files) (flts : list fault) :
    FeedbackStore * files * AtomicIO.outcome () :=
  let s := add_feedback r e s in
  let '(fs, _, o) := persist s rnd (fs, flts) in (s, fs, o).

(** ** Statistics *)
Definition avg (l : list Z) : Q := (inject_Z (sumZ l) / inject_Z (Z.of_nat (length l)))%Q.
Definition round2 (x : Q) : Q := (inject_Z (round_half_even (x * 100)) / 100)%Q.
Definition countb {A} (f : A → bool) (l : list A) : nat := length (filter (λ x, f x = true) l).

Definition push_rating (d : list (string * list Z)) (tr : string * Z) : list (string * list Z) :=
  dset tr.1 (default [] (dget tr.1 d) ++ [tr.2]) d.

Definition tag_ratings (l : list FeedbackEntry) : list (string * list Z) :=
  foldl push_rating [] (concat (map (λ e, map (λ t, (t, rating e)) (tags e)) l)).

Definition best_tags (d : list (string * list Z)) : list (string * Q) :=
  omap (λ '(t, rs), if Qle_bool 4 (avg rs) then Some (t, avg rs) else None) d.

Definition worst_tags (d : list (string * list Z)) : list (string * Q) :=
  omap (λ '(t, rs), if negb (Qle_bool 4 (avg rs)) && Qle_bool (avg rs) (5 # 2) then Some (t, avg rs) else None) d.

Definition improvement_freq (l : list FeedbackEntry) : list (string * nat) :=
  foldl (λ d i, dset i (S (default 0 (dget i d))) d) [] (concat (map improvements_suggested l)).

Definition more_frequent (x y : string * nat) : bool := (y.2 <? x.2)%nat.

Record patterns := mkPatterns {
  total_feedback : nat; avg_rating : Q; reuse_rate : Q; best_performing_tags : list (string * Q); worst_performing_tags : list (string * Q);
  top_improvements : list (string * nat); rating_distribution : list (Z * nat);
}.

(** [None]: no data. *)
Definition analyze_patterns (s : FeedbackStore) : option patterns :=
  match entries s with
  | [] => None
  | l =>
      Some (mkPatterns (length l) (round2 (avg (map rating l)))
              (round2 (inject_Z (Z.of_nat (countb would_use_again l)) / inject_Z (Z.of_nat (length l))))
              (best_tags (tag_ratings l)) (worst_tags (tag_ratings l)) (take 5 (stable_sort more_frequent (improvement_freq l)))
              (map (λ i, (i, countb (λ e, (rating e =? i)%Z) l)) [1; 2; 3; 4; 5]%Z))
  end.

Record recommendation := mkRecommendation { total_solutions : nat; success_rate : Q; avg_confidence : Q; proven : bool }.

Definition get_stack_recommendations (wanted : list string) (s : FeedbackStore) : option recommendation :=
  match filter (λ m, existsb (λ t, bool_decide (t ∈ task_tags m)) wanted = true) (_metrics s) with
  | [] => None
  | relevant =>
      let successful := filter (λ m, ((4 <=? m_rating m)%Z && would_reuse m) = true) relevant in
      let failed := filter (λ m, (m_rating m <=? 2)%Z = true) relevant in
      Some (mkRecommendation (length relevant) (inject_Z (Z.of_nat (length successful)) / inject_Z (Z.of_nat (length relevant)))
              (match successful with [] => 0 | _ => sumQ (map confidence successful) / inject_Z (Z.of_nat (length successful)) end)
              (length failed <? length successful)%nat)
  end%Q.

Definition get_stats (s : FeedbackStore) : nat * nat * Q :=
  (length (entries s), length (_metrics s), match entries s with [] => 0%Q | l => avg (map rating l) end).

(** ** What the store promises *)
Definition sane (e : FeedbackEntry) : Prop := (1 <= rating e <= 5)%Z.

Lemma entry_sane r rate c again imp now : sane (entry_of r rate c again imp now).
Proof. unfold sane, entry_of. cbn. lia. Qed.

Lemma countb_app {A} (f : A → bool) l k : countb f (l ++ k) = countb f l + countb f k.
Proof. unfold countb. by rewrite filter_app, length_app. Qed.

(** The distribution counts every entry once. *)
Lemma distribution_list l :
  Forall sane l → sum_list (map snd (map (λ i, (i, countb (λ e, (rating e =? i)%Z) l)) [1; 2; 3; 4; 5]%Z)) = length l.
Proof.
  cbn [map snd sum_list]. induction 1 as [|e l He Hl IH]; [reflexivity|]. unfold countb in *. rewrite !filter_cons. cbn [length].
  rewrite <- IH. unfold sane in He. repeat case_decide; cbn; lia.
Qed.

Lemma distribution_total s p : Forall sane (entries s) → analyze_patterns s = Some p → sum_list (map snd (rating_distribution p)) = total_feedback p.
Proof.
  intros Hs. unfold analyze_patterns. destruct (entries s) as [|e0 l0]; [done|]. intros [= <-]. by apply (distribution_list (e0 :: l0)).
Qed.

(** A tag is not among the best and the worst. *)
Lemma tags_exclusive s p t q q' : analyze_patterns s = Some p → (t, q) ∈ best_performing_tags p → (t, q') ∈ worst_performing_tags p → q ≠ q'.
Proof.
  unfold analyze_patterns. destruct (entries s) as [|e0 l0]; [done|]. intros [= <-]. cbn.
  intros ([t1 r1] & _ & E1)%list_elem_of_omap ([t2 r2] & _ & E2)%list_elem_of_omap.
  destruct (Qle_bool 4 (avg r1)) eqn:H1; [|done]. destruct (Qle_bool 4 (avg r2)) eqn:H2; [done|]. cbn in E2.
  destruct (Qle_bool (avg r2) (5 # 2)); [|done]. intros ->. congruence.
Qed.

Context `{!StoredLaws FeedbackEntry, !StoredLaws SolutionMetrics}.
Context (Hpath : last_char persist_path = Some "n"%char).

(** The codec reads back what it wrote. *)
Definition readable (s : FeedbackStore) : Prop := loads (dumps (document s)) = Parsed (document s).

Lemma load_list_dump {A} `{StoredLaws A} (l acc : list A) : load_list (map asdict l) acc = (acc ++ l, true).
Proof.
  revert acc. induction l as [|x l IH]; intros acc; cbn [map load_list]; [by rewrite app_nil_r|]. by rewrite build_asdict, IH, <- app_assoc.
Qed.

Lemma load_saved fs s : readable s → fs !! persist_path = Some (dumps (document s)) → load fs store_init = s.
Proof.
  intros Hr E. unfold load. rewrite E, Hr. unfold document.
  assert (∀ a b, items "entries" [("entries", JArr a); ("metrics", JArr b)] = Some a
    ∧ items "metrics" [("entries", JArr a); ("metrics", JArr b)] = Some b) as Hi by done.
  destruct (Hi (map asdict (entries s)) (map asdict (_metrics s))) as [-> ->].
  rewrite (load_list_dump (entries s)). rewrite (load_list_dump (_metrics s)). by destruct s.
Qed.

(** What a run of ratings leaves behind: [None] is a call that raised or a crash after which
    the process goes on or restarts with what it has in memory. *)
Fixpoint rate_all (l : list (rated * FeedbackEntry * string * list fault)) (s : FeedbackStore) (fs : files) : FeedbackStore * files :=
  match l with
  | [] => (s, fs)
  | (r, e, rnd, flts) :: l => let '(s, fs, _) := record_feedback r e rnd s fs flts in rate_all l s fs
  end.

(** The store after each of the ratings. *)
Fixpoint states (l : list (rated * FeedbackEntry * string * list fault)) (s : FeedbackStore) : list FeedbackStore :=
  match l with [] => [] | (r, e, _, _) :: l => add_feedback r e s :: states l (add_feedback r e s) end.

(** The file holds some earlier state of the store, or the store itself. *)
Definition on_disk (s : FeedbackStore) (fs : files) : Prop :=
  ∃ s0, (fs !! persist_path = Some (dumps (document s0)) ∧ readable s0 ∨ fs !! persist_path = None ∧ s0 = store_init)
    ∧ entries s0 `prefix_of` entries s ∧ _metrics s0 `prefix_of` _metrics s.

Lemma record_on_disk r e rnd s fs flts :
  readable (add_feedback r e s) → on_disk s fs → let '(s', fs', o) := record_feedback r e rnd s fs flts in
  on_disk s' fs' ∧ (o = Done () → fs' !! persist_path = Some (dumps (document s'))).
Proof.
  intros Hread (s0 & Hf & He & Hm). unfold record_feedback, persist. set (s' := add_feedback r e s).
  assert (entries s0 `prefix_of` entries s' ∧ _metrics s0 `prefix_of` _metrics s') as [He' Hm'] by (split; by apply prefix_app_r).
  pose proof (triple_write dumps persist_path (document s') true 5 rnd
    (λ c, c = Some (dumps (document s0)) ∧ readable s0 ∨ c = None ∧ s0 = store_init) (λ _, True) Hpath (λ _ _ _ _, I) fs flts (conj Hf I)) as H1.
  destruct (atomic_write_json _ _ _ _ _ _ _) as [[fs' flts'] [[]| |]]; cbn in H1 |- *.
  - destruct H1 as [E _]. split; [|done]. exists s'. split; [by left|]. by split.
  - destruct H1 as [[E|E] _]; split; try done; [by exists s0|]. exists s'. split; [by left|]. by split.
  - destruct H1 as [[E|E] _]; split; try done; [by exists s0|]. exists s'. split; [by left|]. by split.
Qed.

(** Feedback survives.  However the writes of a series of ratings fail or crash, a new
    store that loads the file has the ratings up to some point, in order and complete with
    their metrics; after a write that returned it has all of them.  The codec has to read
    back the documents written. *)
Theorem feedback_survives l r e rnd flts :
  Forall readable (states (l ++ [(r, e, rnd, flts)]) store_init) →
  let '(s, fs) := rate_all l store_init ∅ in
  let '(s', fs', o) := record_feedback r e rnd s fs flts in
  entries (load fs' store_init) `prefix_of` entries s' ∧ _metrics (load fs' store_init) `prefix_of` _metrics s'
  ∧ (o = Done () → load fs' store_init = s' ∧ e ∈ entries s').
Proof.
  assert (∀ l s fs, on_disk s fs → Forall readable (states (l ++ [(r, e, rnd, flts)]) s) →
    let '(s, fs) := rate_all l s fs in on_disk s fs ∧ readable (add_feedback r e s)) as Hall.
  { clear l. induction l as [|[[[r0 e0] rnd0] f0] l IH]; intros s fs Hs; cbn [rate_all app states]; intros [Hr Hrs]%Forall_cons; [done|].
    pose proof (record_on_disk r0 e0 rnd0 s fs f0 Hr Hs) as H1. unfold record_feedback in *.
    destruct (persist _ _ _) as [[fs1 flts1] o]. apply IH; [apply H1|done]. }
  intros Hread. specialize (Hall l store_init ∅). destruct (rate_all l store_init ∅) as [s fs].
  destruct Hall as [Hd Hr]; [exists store_init; split; [by right|by split]|done|].
  pose proof (record_on_disk r e rnd s fs flts Hr Hd) as H1. assert (e ∈ entries (add_feedback r e s)) as He by (cbn; set_solver).
  unfold record_feedback in *. destruct (persist _ _ _) as [[fs' flts'] o]. destruct H1 as [(s0 & Hf & Hp & Hm) Ho].
  assert (load fs' store_init = s0) as Hl by (destruct Hf as [[Hf ?]|[Hf ->]]; [by apply load_saved|unfold load; by rewrite Hf]).
  split_and!; [by rewrite Hl|by rewrite Hl|]. intros E. split; [|done]. apply load_saved; [done|]. by apply Ho.
Qed.
End store.

(** ** Dictionaries of the two records *)
Definition jstrs (l : list string) : json := JArr (map JStr l).
Definition jint (z : Z) : json := JNum (inject_Z z).

Definition strs_of (j : json) : option (list string) :=
  match j with JArr l => mapM (λ j, match j with JStr s => Some s | _ => None end) l | _ => None end.
Definition int_of (j : json) : option Z := match j with JNum q => Some (Qfloor q) | _ => None end.

Arguments jstrs : simpl never.
Arguments jint : simpl never.
Arguments strs_of : simpl never.
Arguments int_of : simpl never.

Lemma strs_of_jstrs l : strs_of (jstrs l) = Some l.
Proof. unfold strs_of, jstrs. induction l as [|s l IH]; [done|]. cbn [map mapM]. unfold mapM in *. cbn. by rewrite IH. Qed.

Lemma int_of_jint z : int_of (jint z) = Some z.
Proof. unfold int_of, jint. f_equal. cbn. apply Z.div_1_r. Qed.

Section fields.
Context (d : list (string * json)).

(** A field with its default; [None]: the value has another type. *)
Definition f_str (k : string) (dflt : option string) : option string :=
  match dget k d with Some (JStr s) => Some s | Some _ => None | None => dflt end.
Definition f_num (k : string) (dflt : option Q) : option Q :=
  match dget k d with Some (JNum q) => Some q | Some _ => None | None => dflt end.
Definition f_bool (k : string) (dflt : option bool) : option bool :=
  match dget k d with Some (JBool b) => Some b | Some _ => None | None => dflt end.
Definition f_strs (k : string) : option (list string) := match dget k d with Some j => strs_of j | None => Some [] end.
Definition f_int (k : string) (dflt : option Z) : option Z := match dget k d with Some j => int_of j | None => dflt end.

Lemma f_str_ok k x s : dget k d = Some (JStr s) → f_str k x = Some s.
Proof. unfold f_str. by intros ->. Qed.
Lemma f_num_ok k x q : dget k d = Some (JNum q) → f_num k x = Some q.
Proof. unfold f_num. by intros ->. Qed.
Lemma f_bool_ok k x b : dget k d = Some (JBool b) → f_bool k x = Some b.
Proof. unfold f_bool. by intros ->. Qed.
Lemma f_strs_ok k l : dget k d = Some (jstrs l) → f_strs k = Some l.
Proof. unfold f_strs. intros ->. apply strs_of_jstrs. Qed.
Lemma f_int_ok k x z : dget k d = Some (jint z) → f_int k x = Some z.
Proof. unfold f_int. intros ->. apply int_of_jint. Qed.

(** Arguments the constructor does not know are an error. *)
Definition known (ks : list string) : bool := forallb (λ kv, bool_decide (kv.1 ∈ ks)) d.
End fields.

#[export] Instance entry_stored : Stored FeedbackEntry := {
  asdict e := JObj [("solution_id", JStr (solution_id e)); ("task_title", JStr (task_title e)); ("rating", jint (rating e));
    ("quality_assessment", JStr (quality_assessment e)); ("comments", JStr (comments e)); ("used_stack", JStr (used_stack e));
    ("would_use_again", JBool (would_use_again e)); ("improvements_suggested", jstrs (improvements_suggested e));
    ("tags", jstrs (tags e)); ("timestamp", JStr (timestamp e))];
  build j :=
    match j with
    | JObj d =>
        if known d ["solution_id"; "task_title"; "rating"; "quality_assessment"; "comments"; "used_stack"; "would_use_again";
                    "improvements_suggested"; "tags"; "timestamp"] then
          i ← f_str d "solution_id" None; t ← f_str d "task_title" None; r ← f_int d "rating" None;
          q ← f_str d "quality_assessment" (Some ""); c ← f_str d "comments" (Some ""); u ← f_str d "used_stack" (Some "");
          w ← f_bool d "would_use_again" (Some true); m ← f_strs d "improvements_suggested"; g ← f_strs d "tags";
          n ← f_str d "timestamp" (Some "");
          Some (mkEntry i t r q c u w m g n)
        else None
    | _ => None
    end;
}.

#[export] Instance metrics_stored : Stored SolutionMetrics := {
  asdict m := JObj [("task_tags", jstrs (task_tags m)); ("quality_given", JStr (quality_given m)); ("quality_actual", JStr (quality_actual m));
    ("rating", jint (m_rating m)); ("confidence", JNum (confidence m)); ("generation_time_ms", JNum (generation_time_ms m));
    ("code_blocks_count", jint (Z.of_nat (code_blocks_count m))); ("would_reuse", JBool (would_reuse m))];
  build j :=
    match j with
    | JObj d =>
        if known d ["task_tags"; "quality_given"; "quality_actual"; "rating"; "confidence"; "generation_time_ms"; "code_blocks_count"; "would_reuse"] then
          g ← f_strs d "task_tags"; a ← f_str d "quality_given" (Some ""); b ← f_str d "quality_actual" (Some "");
          r ← f_int d "rating" (Some 0%Z); c ← f_num d "confidence" (Some 0%Q); t ← f_num d "generation_time_ms" (Some 0%Q);
          n ← f_int d "code_blocks_count" (Some 0%Z); w ← f_bool d "would_reuse" (Some true);
          Some (mkMetrics g a b r c t (Z.to_nat n) w)
        else None
    | _ => None
    end;
}.

Ltac read_fields :=
  repeat first [erewrite f_str_ok by reflexivity | erewrite f_int_ok by reflexivity | erewrite f_strs_ok by reflexivity
               | erewrite f_num_ok by reflexivity | erewrite f_bool_ok by reflexivity | progress cbn [mbind option_bind]].

#[export] Instance entry_laws : StoredLaws FeedbackEntry.
Proof. intros [i t r q c u w m g n]. cbn [asdict build entry_stored]. replace (known _ _) with true by reflexivity. by read_fields. Qed.

#[export] Instance metrics_laws : StoredLaws SolutionMetrics.
Proof.
  intros [g a b r c t n w]. cbn [asdict build metrics_stored]. replace (known _ _) with true by reflexivity. read_fields. by rewrite Nat2Z.id.
Qed.

(** ** Concrete stores *)
Definition demo_rated (i : string) : rated := mkRated i "py" "high" 1 2 "title" ["api"].
Definition demo_entry (i : string) (rate : Z) : FeedbackEntry := entry_of (demo_rated i) rate "" true [] "now".
Definition demo_feedback_dumps (j : json) : string := match j with JObj [(_, JArr [_]); _] => "one" | _ => "two" end.
Definition demo_store (l : list string) : FeedbackStore :=
  mkStore (map (λ i, demo_entry i 9) l) (map (λ i, metrics_of (demo_rated i) (demo_entry i 9)) l).
Definition demo_feedback_loads (s : string) : parsed :=
  if String.eqb s "one" then Parsed (document (demo_store ["a"])) else Parsed (document (demo_store ["a"; "b"])).

Lemma feedback_survives_witness :
  let '(s, fs) := rate_all demo_feedback_dumps "f.json" [(demo_rated "a", demo_entry "a" 9, "r", [])] store_init ∅ in
  let '(s', fs', o) := record_feedback demo_feedback_dumps "f.json" (demo_rated "b") (demo_entry "b" 9) "r" s fs [] in
  o = Done () ∧ load demo_feedback_loads "f.json" fs' store_init = s' ∧ map rating (entries s') = [5; 5]%Z.
Proof.
  pose proof (feedback_survives demo_feedback_dumps demo_feedback_loads "f.json" eq_refl [(demo_rated "a", demo_entry "a" 9, "r", [])]
    (demo_rated "b") (demo_entry "b" 9) "r" [] ltac:(by repeat constructor)) as H.
  assert (let '(s, fs) := rate_all demo_feedback_dumps "f.json" [(demo_rated "a", demo_entry "a" 9, "r", [])] store_init ∅ in
    let '(s', _, o) := record_feedback demo_feedback_dumps "f.json" (demo_rated "b") (demo_entry "b" 9) "r" s fs [] in
    o = Done () ∧ map rating (entries s') = [5; 5]%Z) as Hd by (vm_compute; split; reflexivity).
  destruct (rate_all _ _ _ _ _) as [s fs]. destruct (record_feedback _ _ _ _ _ _ _ _) as [[s' fs'] o]. destruct Hd as [Ho Hs].
  split; [exact Ho|]. split; [|exact Hs]. by apply H.
Defined.

(** A record with a field the class does not have ends the loading; the next rating then
    overwrites the file, and the records behind it are gone. *)
Example unknown_field_loses_feedback :
  let doc := JObj [("entries", JArr [JObj [("solution_id", JStr "a"); ("stars", JNum 5)]; asdict (demo_entry "b" 5)]); ("metrics", JArr [])] in
  let s := load (λ _, Parsed doc) "f.json" {["f.json" := "x"]} store_init in
  entries s = [] ∧
  let '(_, fs, o) := record_feedback demo_feedback_dumps "f.json" (demo_rated "c") (demo_entry "c" 5) "r" s {["f.json" := "x"]} [] in
  o = Done () ∧ fs !! "f.json" = Some "one".
Proof. vm_compute. repeat split; reflexivity. Qed.

(** Loading twice doubles the feedback. *)
Example load_twice_doubles :
  length (entries (load demo_feedback_loads "f.json" {["f.json" := "one"]} (load demo_feedback_loads "f.json" {["f.json" := "one"]} store_init))) = 2.
Proof. by vm_compute. Qed.
