(* ===== verification/Api.v ===== *)
(** * The HTTP service ([noema/api/auth.py], [middleware.py], [versioning.py],
      [cache_headers.py] and the reasoning endpoint of [server.py])

    A middleware is a function from the handler behind it to a handler; [stack] composes
    them in the order Starlette does (the last one added is outermost).  Handlers pass the
    state of the server: the tenant variable, the rate limiter (the model of
    [rate_limit.py]), quotas, costs and running tasks.  A request is handled in one go
    here; interleavings of the components are the subject of their own files.

    Starlette's CORS middleware, MD5 and the engine behind the endpoint are parameters, as
    is what a request that is cut off by the timeout leaves behind.  Header names are in
    lower case, as HTTP compares them. *)
From Stdlib Require Import ZArith QArith Lia Bool Ascii String.
From stdpp Require Import base gmap option numbers sets strings pretty list.
From S2P Require Import Prelude RateLimit CostTracker Quotas Degradation.
Local Open Scope string_scope.
Local Open Scope list_scope.
Local Open Scope nat_scope.

Record request := mkReq { method : string; url_path : string; req_headers : list (string * string); client : option string }.

Definition header (name : string) (r : request) : option string := dget name (req_headers r).

(** What the application behind a layer does: it answers, or an exception escapes. *)
Inductive reply := Answer (r : Response) | Escaped.

Record settings := mkSettings {
  api_key_header : string;                    (* in lower case *)
  api_keys : list (string * string);          (* key, tenant *)
  master_key : string;
  max_request_body : Z;
  request_timeout : Q;
  timeout_exempt : list string;
}.

Section middleware.
Context {S : Type} (get_tenant : S → string) (put_tenant : string → S → S).
Context (cfg : settings).

Definition handler : Type := request → S → S * reply.
Definition layer : Type := handler → handler.

Definition json_response (status : Z) (error message : string) : Response :=
  mkResponse status [] (JObj [("error", JStr error); ("message", JStr message)]).

(** ** Authentication *)
Definition auth_public : list string := ["/"; "/health"; "/ready"; "/docs"; "/openapi.json"; "/redoc"].

Definition missing_key : Response :=
  json_response 401 "missing_api_key" ("Provide key via " +:+ api_key_header cfg +:+ " header").
Definition invalid_key : Response := json_response 403 "invalid_api_key" "API key is invalid".

(** [compare_digest] raises on characters beyond ASCII. *)
Definition ascii_only (s : string) : bool := forallb (λ a, (nat_of_ascii a <? 128)%nat) (list_ascii_of_string s).

Definition compare_digest (a b : string) : option bool := if ascii_only a && ascii_only b then Some (String.eqb a b) else None.

(** The tenant of the first binding with the key; [None]: the comparison raised. *)
Fixpoint find_binding (key : string) (l : list (string * string)) : option (option string) :=
  match l with
  | [] => Some None
  | (expected, tenant) :: l =>
      if nonempty expected then
        match compare_digest key expected with
        | None => None
        | Some true => Some (Some tenant)
        | Some false => find_binding key l
        end
      else find_binding key l
  end.

(** The tenant variable is set for the request and put back whatever happens. *)
Definition scoped (tenant : string) (next : handler) : handler := λ r s,
  let '(s', rep) := next r (put_tenant tenant s) in (put_tenant (get_tenant s) s', rep).

Definition auth_dispatch : layer := λ next r s,
  if bool_decide (url_path r ∈ auth_public) then next r s
  else
    let key := default "" (header (api_key_header cfg) r) in
    match api_keys cfg with
    | _ :: _ =>
        if negb (nonempty key) then (s, Answer missing_key)
        else
          match find_binding key (api_keys cfg) with
          | None => (s, Escaped)
          | Some None => (s, Answer invalid_key)
          | Some (Some tenant) => scoped tenant next r s
          end
    | [] =>
        if nonempty (master_key cfg) then
          if negb (nonempty key) then (s, Answer missing_key)
          else
            match compare_digest key (master_key cfg) with
            | None => (s, Escaped)
            | Some false => (s, Answer invalid_key)
            | Some true => scoped "default" next r s
            end
        else next r s
    end.

(** ** The other layers *)
Definition set_headers (hs : list (string * string)) (rep : reply) : reply :=
  match rep with Answer r => Answer (add_headers hs r) | Escaped => Escaped end.

Definition after_next (f : reply → reply) (next : handler) : handler := λ r s, let '(s, rep) := next r s in (s, f rep).

(** [fresh]: a new identifier. *)
Definition request_id_dispatch (fresh : string) : layer := λ next r s,
  after_next (set_headers [("x-request-id", default fresh (header "x-request-id" r))]) next r s.

(** [int] of the header; [None] is a [ValueError]. *)
Context (to_int : string → option Z).

Definition size_dispatch : layer := λ next r s,
  match header "content-length" r with
  | None => next r s
  | Some text =>
      match to_int text with
      | None => (s, Escaped)
      | Some n =>
          if (max_request_body cfg <? n)%Z
          then (s, Answer (json_response 413 "payload_too_large" ("Max body size: " +:+ pretty (max_request_body cfg) +:+ " bytes")))
          else next r s
      end
  end.

Definition security_header_list : list (string * string) :=
  [("x-content-type-options", "nosniff"); ("x-frame-options", "DENY"); ("x-xss-protection", "1; mode=block");
   ("referrer-policy", "strict-origin-when-cross-origin"); ("cache-control", "no-store, no-cache, must-revalidate")].

Definition security_dispatch : layer := after_next (set_headers security_header_list).

(** [late]: the handler takes too long; [cut]: the state it leaves when cancelled. *)
Context (late : request → bool) (cut : request → S → S) (show_q : Q → string).

Definition timeout_dispatch : layer := λ next r s,
  if Qle_bool (request_timeout cfg) 0 || bool_decide (url_path r ∈ timeout_exempt cfg) then next r s
  else if late r then (cut r s, Answer (json_response 504 "request_timeout" ("Request handler exceeded " +:+ show_q (request_timeout cfg) +:+ "s")))
  else next r s.

Definition SUNSET_DATES : list (string * string) := [].

Definition version_dispatch : layer := λ next r s,
  let sunset := match List.find (λ v, String.prefix ("/api/" +:+ v.1 +:+ "/") (url_path r)) SUNSET_DATES with
    | Some (_, date) => [("sunset", date); ("deprecation", "true")] | None => [] end in
  after_next (set_headers ([("x-api-version", "v1"); ("x-api-supported-versions", "v1")] ++ sunset)) next r s.

(** *** Caching *)
Definition CACHE_CONFIG : list (string * Z) :=
  [("/health", 10); ("/admin/metrics", 5); ("/knowledge/stats", 30); ("/features", 30); ("/kernels", 60); ("/agents", 60)]%Z.

Definition cached_age (path : string) : option Z :=
  snd <$> List.find (λ c, String.eqb path c.1 || String.prefix (c.1 +:+ "/") path) CACHE_CONFIG.

Context (md5_of : json → string).

Definition quote (s : string) : string := let q := String (ascii_of_nat 34) "" in q +:+ s +:+ q.

(** [s.strip] of quotes. *)
Fixpoint strip_quotes_left (s : string) : string :=
  match s with String a t => if (nat_of_ascii a =? 34)%nat then strip_quotes_left t else s | "" => "" end.
Definition rev_string (s : string) : string := string_of_list_ascii (reverse (list_ascii_of_string s)).
Definition strip_quotes (s : string) : string := rev_string (strip_quotes_left (rev_string (strip_quotes_left s))).

Definition cache_dispatch : layer := λ next r s,
  let '(s, rep) := next r s in
  match rep with
  | Answer resp =>
      if negb (String.eqb (method r) "GET") then (s, rep)
      else
        match cached_age (url_path r) with
        | Some age =>
            if (status resp <? 400)%Z then
              let etag := md5_of (body resp) in
              let control := "public, max-age=" +:+ pretty age in
              if String.eqb (strip_quotes (default "" (header "if-none-match" r))) etag
              then (s, Answer (mkResponse 304 [("etag", quote etag); ("cache-control", control)] JNull))
              else (s, set_headers [("cache-control", control +:+ ", must-revalidate"); ("etag", quote etag)] rep)
            else (s, rep)
        | None => (s, rep)
        end
  | Escaped => (s, rep)
  end.
End middleware.

(** ** The server *)
Record server := mkServer {
  tenant : string;                                  (* the context variable *)
  limiter : RateLimitMiddleware;
  quotas : QuotaManager;
  costs : CostTracker;
  running : Cancellation.CancellationManager (V := Z);
  traced : Z;                                       (* tokens of all spans of the tracer *)
}.

Definition put_tenant (t : string) (s : server) : server := mkServer t (limiter s) (quotas s) (costs s) (running s) (traced s).
Definition put_limiter (l : RateLimitMiddleware) (s : server) : server := mkServer (tenant s) l (quotas s) (costs s) (running s) (traced s).
Definition put_quotas (q : QuotaManager) (s : server) : server := mkServer (tenant s) (limiter s) q (costs s) (running s) (traced s).
Definition put_costs (c : CostTracker) (s : server) : server := mkServer (tenant s) (limiter s) (quotas s) c (running s) (traced s).
Definition put_running (m : Cancellation.CancellationManager) (s : server) : server := mkServer (tenant s) (limiter s) (quotas s) (costs s) m (traced s).
Definition put_traced (n : Z) (s : server) : server := mkServer (tenant s) (limiter s) (quotas s) (costs s) (running s) n.

Abbreviation server_handler := (handler (S := server)).

Section server.
Context (cfg : settings) (to_int : string → option Z) (late : request → bool) (cut : request → server → server).
Context (show_q : Q → string) (md5_of : json → string) (fresh : string) (now : Q).
Context {addr network : Type} (addr_eqb : addr → addr → bool) (ip_address : string → option addr) (ip_network : string → option network).
Context (in_network : addr → network → bool) (sha256_hex : string → string).
Context (cors : layer (S := server)).

(** The rate limiter as a layer; its model runs the application on a state of its own, here
    the server and what the handler behind did ([Escaped] also if it was not called). *)
Definition limit_dispatch : layer (S := server) := λ next r s,
  let call (_ : Request) (s : server) := let '(s, rep) := next r s in ((s, rep), match rep with Answer x => x | Escaped => mkResponse 500 [] JNull end) in
  let q := mkRequest (url_path r) (default "" (header (api_key_header cfg) r)) (default "" (header "x-forwarded-for" r)) (client r) in
  let '(l, (s', rep), ans) :=
    RateLimit.dispatch addr_eqb ip_address ip_network in_network sha256_hex
      (λ q sr, call q sr.1) now (limiter s) q (s, Escaped) in
  let s' := put_limiter l s' in
  match ans with
  | Ok resp => (s', match rep with Escaped => if (status resp =? 500)%Z then Escaped else Answer resp | Answer _ => Answer resp end)
  | Err _ => (s', Escaped)
  end.

(** [add_middleware]: the last one added comes first. *)
Definition stack (app : server_handler) : server_handler :=
  version_dispatch (cors (auth_dispatch tenant put_tenant cfg (limit_dispatch (size_dispatch cfg to_int
    (timeout_dispatch cfg late cut show_q (request_id_dispatch fresh (security_dispatch (cache_dispatch md5_of app)))))))).

(** ** The reasoning endpoint *)
Record TaskRequest := mkTaskRequest { t_title : string; t_description : string; t_id : option string }.

(** How [noema.think] ends, with the tokens it used. *)
Inductive thinking := Solved (tokens : Z) (solution : json) | TaskCancelled (tokens : Z) | SandboxInvalid (tokens : Z) (why : string) | EngineRaised (tokens : Z).

Definition used (o : thinking) : Z := match o with Solved n _ | TaskCancelled n | SandboxInvalid n _ | EngineRaised n => n end.

Definition _estimate_input_tokens (t : TaskRequest) : Z := Z.of_nat (String.length (t_title t +:+ " " +:+ t_description t)) / 4.

(** [problem_response]; [extra] goes into the body last and may replace its entries. *)
Definition problem (code : Z) (title detail inst : string) (extra : list (string * json)) : Response :=
  mkResponse code [] (JObj (foldl (λ b e, dset e.1 e.2 b)
    [("type", JStr "about:blank"); ("title", JStr title); ("status", JNum (inject_Z code)); ("detail", JStr detail); ("instance", JStr inst)] extra)).

Context (show_url : request → string) (show_quota : quota_error → string).

Definition http_exception_handler (r : request) (code : Z) (detail : string) : Response := problem code detail detail (show_url r) [].

(** [request.headers.get("x-tenant-id") or get_tenant_id() or "default"] *)
Definition guard_tenant (r : request) (s : server) : string :=
  match header "x-tenant-id" r with
  | Some t => if nonempty t then t else if nonempty (tenant s) then tenant s else "default"
  | None => if nonempty (tenant s) then tenant s else "default"
  end.

Context {W : Type} (QB : QuotaBackends W) (w : W).

(** [body] gets the tenant. *)
Definition _task_guard (r : request) (task : string) (estimate : Z) (body : string → server → server * reply) (s : server) :
    server * reply :=
  let t := guard_tenant r s in
  let s0 := put_tenant t s in
  match (check_quota QB (quotas s0) t 0 estimate now w).2 with
  | Err e => (put_tenant (tenant s) s0, Answer (http_exception_handler r 429 (show_quota e)))
  | Ok _ =>
      let s1 := put_quotas (track_active_task QB (quotas s0) t task now w).1 s0 in
      let '(s2, rep) := body t s1 in
      let s3 := put_quotas (untrack_active_task QB (quotas s2) t task w).1 s2 in
      (put_tenant (tenant s) s3, rep)
  end.

Context {WC : Type} (CB : Backends WC) (wc : WC) (provider model day month : string).

(** The tokens are the tracer's total, over all tasks it has seen. *)
Definition _record_task_cost (t task : string) (s : server) : server :=
  if (traced s <=? 0)%Z then s
  else put_costs (CostTracker.record CB (costs s) (mkUsage t task provider model (traced s) 0 "think" now day month) wc).1.1 s.

Context (uuid : string) (engine : TaskRequest → thinking).

(** The task runs under the cancellation manager: it is registered, ends and is resumed. *)
Definition run_task (task : string) (o : thinking) (s : server) : result () server :=
  match Cancellation.execute_with_cancellation task (running s) with
  | Err _ => Err ()
  | Ok m =>
      let n := length (Cancellation.calls (running s)) in
      let e := match o with TaskCancelled _ => Cancellation.Cancelled | Solved k _ => Cancellation.Value k | _ => Cancellation.Raises "" end in
      let m := default m (Cancellation.manager_step m (Cancellation.Settle n e) ≫= λ m, Cancellation.manager_step m (Cancellation.Resume n)) in
      Ok (put_traced (traced s + used o) (put_running m s))
  end.

Definition think (q : TaskRequest) (r : request) (s : server) : server * reply :=
  let task := match t_id q with Some i => if nonempty i then i else uuid | None => uuid end in
  _task_guard r task (_estimate_input_tokens q) (λ t s,
    match run_task task (engine q) s with
    | Err _ => (s, Escaped)                           (* RuntimeError: already in progress *)
    | Ok s =>
        match engine q with
        | Solved _ solution => (_record_task_cost t task s, Answer (mkResponse 200 [] solution))
        | TaskCancelled _ => (s, Answer (http_exception_handler r 499 "Task cancelled by user"))
        | SandboxInvalid _ why => (s, Answer (http_exception_handler r 422 why))
        | EngineRaised _ => (s, Escaped)
        end
    end) s.

(** Cancelling is by identifier alone. *)
Definition cancel_think (task : string) (s : server) : bool * server :=
  let '(b, m) := Cancellation.cancel task (running s) in (b, put_running m s).

Definition list_active_tasks (s : server) : list string := Cancellation.get_active (running s).

(** ** No way around the key *)

(** The six paths that are open to everybody, a deployment that has keys, the key in the
    header of a request, and the keys that are given out with their tenants: those of the
    list, or the master key if there is no list. *)
Definition open_path (path : string) : Prop :=
  path = "/" ∨ path = "/health" ∨ path = "/ready" ∨ path = "/docs" ∨ path = "/openapi.json" ∨ path = "/redoc".
Definition secured : Prop := api_keys cfg ≠ [] ∨ master_key cfg ≠ "".
Definition presents (r : request) (k : string) : Prop := k ≠ "" ∧ header (api_key_header cfg) r = Some k.
Definition given_out (k t : string) : Prop :=
  (k, t) ∈ api_keys cfg ∨ api_keys cfg = [] ∧ master_key cfg = k ∧ t = "default".

(** What the key of a request entitles to: [Some None] is access without a tenant of its
    own (a public path, or authentication switched off). *)
Definition credential (r : request) : option (option string) :=
  if bool_decide (url_path r ∈ auth_public) then Some None
  else
    let key := default "" (header (api_key_header cfg) r) in
    match api_keys cfg with
    | _ :: _ => if nonempty key then match find_binding key (api_keys cfg) with Some (Some t) => Some (Some t) | _ => None end else None
    | [] =>
        if nonempty (master_key cfg)
        then if nonempty key && bool_decide (compare_digest key (master_key cfg) = Some true) then Some (Some "default") else None
        else Some None
    end.

Lemma auth_spec (next : server_handler) r s :
  match credential r with
  | None => auth_dispatch tenant put_tenant cfg next r s = (s, Escaped)
            ∨ ∃ resp, auth_dispatch tenant put_tenant cfg next r s = (s, Answer resp) ∧ (resp = missing_key cfg ∨ resp = invalid_key)
  | Some None => auth_dispatch tenant put_tenant cfg next r s = next r s
  | Some (Some t) => auth_dispatch tenant put_tenant cfg next r s = scoped tenant put_tenant t next r s
  end.
Proof.
  unfold credential, auth_dispatch. case_bool_decide; [done|]. set (key := default "" _).
  destruct (api_keys cfg) as [|b l].
  - destruct (nonempty (master_key cfg)); [|done]. destruct (nonempty key); cbn [andb negb]; [|right; eauto].
    destruct (compare_digest key (master_key cfg)) as [[]|]; [rewrite bool_decide_true by done; done|..];
      rewrite bool_decide_false by done; [right; eauto|by left].
  - destruct (nonempty key); cbn [negb]; [|right; eauto]. destruct (find_binding key (b :: l)) as [[t|]|]; [done|right; eauto|by left].
Qed.

Lemma find_binding_in key l t : find_binding key l = Some (Some t) → (key, t) ∈ l.
Proof.
  induction l as [|[k' t'] l IH]; cbn [find_binding]; [done|]. rewrite elem_of_cons.
  destruct (nonempty k'); [|auto]. unfold compare_digest. destruct (_ && _); [|done].
  destruct (String.eqb_spec key k') as [->|]; [intros [= ->]; by left|auto].
Qed.

(** Distinct keys without exotic characters are told apart. *)
Lemma find_binding_unique key t l :
  key ≠ "" → Forall (λ b, ascii_only b.1 = true) l → NoDup l.*1 → (key, t) ∈ l → find_binding key l = Some (Some t).
Proof.
  intros Hk. induction l as [|[k' t'] l IH]; intros Ha Hn Hin; [by apply not_elem_of_nil in Hin|]. cbn [find_binding].
  assert (ascii_only key = true) as Hkey by (rewrite Forall_forall in Ha; exact (Ha _ Hin)).
  apply Forall_cons in Ha as [Ha' Ha]. cbn [fst] in Ha'. rewrite fmap_cons in Hn. apply NoDup_cons in Hn as [Hnot Hn].
  apply elem_of_cons in Hin as [[= <- <-]|Hin].
  - unfold compare_digest. rewrite Hkey, String.eqb_refl. by destruct key.
  - destruct (nonempty k'); [|by apply IH]. unfold compare_digest. rewrite Hkey, Ha'. cbn [andb].
    destruct (String.eqb_spec key k') as [->|]; [|by apply IH]. destruct Hnot. apply list_elem_of_fmap. by exists (k', t).
Qed.

Lemma open_path_spec path : path ∈ auth_public ↔ open_path path.
Proof. unfold auth_public, open_path. rewrite !elem_of_cons, elem_of_nil. naive_solver. Qed.

Lemma credential_spec r :
  secured → ¬ open_path (url_path r) →
  match credential r with
  | None => True
  | Some None => False
  | Some (Some t) => ∃ k, presents r k ∧ given_out k t
  end.
Proof.
  intros Hs Hp. unfold credential. rewrite bool_decide_false by (by rewrite open_path_spec). unfold presents, given_out.
  assert (api_keys cfg = [] → nonempty (master_key cfg) = true) as Hm by (intros E; destruct Hs as [?|Hs]; [done|by destruct (master_key cfg)]).
  destruct (header (api_key_header cfg) r) as [k|] eqn:Eh; cbn [from_option id]; cycle 1.
  { destruct (api_keys cfg); [|done]. by rewrite Hm. }
  destruct (api_keys cfg) as [|b l] eqn:Ek.
  - rewrite Hm by done. destruct (nonempty k) eqn:Enk; cbn [andb]; [|done]. case_bool_decide as Hc; [|done].
    exists k. split; [split; [by destruct k|done]|]. right. split_and!; [done| |done]. unfold compare_digest in Hc.
    destruct (_ && _); [|done]. injection Hc as Hc. by apply String.eqb_eq in Hc.
  - destruct (nonempty k) eqn:Enk; [|done]. destruct (find_binding k (b :: l)) as [[t|]|] eqn:Ef; try done.
    exists k. split; [split; [by destruct k|done]|]. left. by apply find_binding_in.
Qed.

Lemma after_next_cong (f : reply → reply) (next next' : server_handler) r s :
  next r s = next' r s → after_next f next r s = after_next f next' r s.
Proof. unfold after_next. by intros ->. Qed.

Lemma limit_cong (next next' : server_handler) r s : next r s = next' r s → limit_dispatch next r s = limit_dispatch next' r s.
Proof.
  intros E. unfold limit_dispatch, RateLimit.dispatch. cbn [fst]. rewrite E. destruct (_enabled (limiter s)); cbn [negb]; [|done].
  case_bool_decide; [done|]. by destruct (allow _ _ _) as [c [[[] hs]|]].
Qed.

Lemma inner_cong (app app' : server_handler) r s :
  app r s = app' r s →
  limit_dispatch (size_dispatch cfg to_int (timeout_dispatch cfg late cut show_q (request_id_dispatch fresh (security_dispatch (cache_dispatch md5_of app))))) r s
  = limit_dispatch (size_dispatch cfg to_int (timeout_dispatch cfg late cut show_q (request_id_dispatch fresh (security_dispatch (cache_dispatch md5_of app'))))) r s.
Proof.
  intros E. apply limit_cong. unfold size_dispatch, timeout_dispatch.
  assert (request_id_dispatch fresh (security_dispatch (cache_dispatch md5_of app)) r s
    = request_id_dispatch fresh (security_dispatch (cache_dispatch md5_of app')) r s) as Hin.
  { unfold request_id_dispatch, security_dispatch. apply after_next_cong, after_next_cong. unfold cache_dispatch. by rewrite E. }
  destruct (header "content-length" r) as [n|]; [destruct (to_int n); [|done]; destruct (_ <? _)%Z; [done|]|];
    destruct (_ || _); try done; by destruct (late r).
Qed.

(** Starlette's CORS layer answers by itself, or passes the request on once and works on
    the response. *)
Context (cors_uses_next : ∀ (next next' : server_handler) r s, next r s = next' r s → cors next r s = cors next' r s).
Context (cors_keeps_state : ∀ (next : server_handler) r s, (cors next r s).1 = s ∨ (cors next r s).1 = (next r s).1).

Lemma stack_state app r s :
  let auth := auth_dispatch tenant put_tenant cfg (limit_dispatch (size_dispatch cfg to_int
    (timeout_dispatch cfg late cut show_q (request_id_dispatch fresh (security_dispatch (cache_dispatch md5_of app)))))) in
  (stack app r s).1 = s ∨ (stack app r s).1 = (auth r s).1.
Proof.
  cbn zeta. unfold stack. set (auth := auth_dispatch _ _ _ _). unfold version_dispatch, after_next.
  destruct (cors_keeps_state auth r s) as [E|E]; destruct (cors auth r s) as [s' rep]; cbn in *; [left|right]; done.
Qed.

Lemma stack_cong (app app' : server_handler) r s :
  (∀ t s', credential r = Some t → tenant s' = default (tenant s) t → app r s' = app' r s') → stack app r s = stack app' r s.
Proof.
  intros H. unfold stack, version_dispatch. apply after_next_cong, cors_uses_next.
  set (in1 := limit_dispatch _). set (in2 := limit_dispatch _). pose proof (auth_spec in1 r s) as H1. pose proof (auth_spec in2 r s) as H2.
  destruct (credential r) as [[t|]|] eqn:Ec.
  - rewrite H1, H2. unfold scoped. assert (in1 r (put_tenant t s) = in2 r (put_tenant t s)) as ->; [|done].
    apply inner_cong. by apply (H (Some t)).
  - rewrite H1, H2. apply inner_cong. by apply (H None).
  - clear H1 H2. unfold credential in Ec. unfold auth_dispatch. case_bool_decide; [done|]. set (key := default "" _) in *.
    destruct (api_keys cfg) as [|b l].
    + destruct (nonempty (master_key cfg)); [|done]. destruct (nonempty key); [|done]. cbn in Ec |- *.
      destruct (compare_digest key (master_key cfg)) as [[]|]; done.
    + destruct (nonempty key); [|done]. cbn [negb]. destruct (find_binding key (b :: l)) as [[t|]|]; done.
Qed.

Lemma no_credential app r s :
  credential r = None → (∀ app' : server_handler, stack app r s = stack app' r s) ∧ (stack app r s).1 = s.
Proof.
  intros Hc. split; [intros app'; apply stack_cong; by rewrite Hc|].
  destruct (stack_state app r s) as [E|E]; [done|]. rewrite E. set (inner := limit_dispatch _).
  pose proof (auth_spec inner r s) as Ha. rewrite Hc in Ha. by destruct Ha as [->|(? & -> & _)].
Qed.

(** C31: There is no way around the key.  Take a deployment with keys and a path that is not
    one of the six open ones.  If the request presents no key that was given out, what the
    server does is the same whatever the application behind the middleware, and its state is
    unchanged.  If every tenant the presented key was given out to is [t], the application
    only ever sees [t] in the context variable, and afterwards the variable has the value it
    had before.  And if the keys are distinct and ASCII, a key from the list opens the
    next layer in the name of its tenant. *)
Theorem api_authenticates (app : server_handler) r s :
  secured → ¬ open_path (url_path r) →
  ((∀ k t, presents r k → ¬ given_out k t) →
     (∀ app' : server_handler, stack app r s = stack app' r s) ∧ (stack app r s).1 = s)
  ∧ (∀ t, (∀ k t', presents r k → given_out k t' → t' = t) →
      (∀ app' : server_handler, (∀ s', tenant s' = t → app r s' = app' r s') → stack app r s = stack app' r s)
      ∧ tenant (stack app r s).1 = tenant s)
  ∧ (∀ k t (next : server_handler), Forall (λ b, ascii_only b.1 = true) (api_keys cfg) → NoDup (api_keys cfg).*1 →
      presents r k → (k, t) ∈ api_keys cfg →
      auth_dispatch tenant put_tenant cfg next r s = scoped tenant put_tenant t next r s).
Proof.
  intros Hs Hp. pose proof (credential_spec r Hs Hp) as Hcr. split_and!.
  - intros Hno. apply no_credential. destruct (credential r) as [[t|]|]; [|done..]. destruct Hcr as (k & Hk & Ht). by destruct (Hno k t).
  - intros t Huniq. destruct (credential r) as [[t'|]|] eqn:Hc; [|done|].
    + destruct Hcr as (k & Hk & Ht). pose proof (Huniq k t' Hk Ht) as ->. split.
      * intros app' H. apply stack_cong. intros t' s'. rewrite Hc. intros [= <-]. apply H.
      * destruct (stack_state app r s) as [E|E]; [by rewrite E|]. rewrite E. set (inner := limit_dispatch _).
        pose proof (auth_spec inner r s) as Ha. rewrite Hc in Ha. rewrite Ha. unfold scoped. by destruct (inner r (put_tenant t s)).
    + destruct (no_credential app r s Hc) as [H1 H2]. split; [intros app' _; apply H1|by rewrite H2].
  - intros k t next Ha Hn [Hk Hh] Hin. unfold auth_dispatch. rewrite bool_decide_false by (by rewrite open_path_spec).
    rewrite Hh. cbn [from_option id]. destruct (api_keys cfg) as [|b l] eqn:Ek; [by apply not_elem_of_nil in Hin|].
    rewrite (find_binding_unique k t (b :: l)) by done. by destruct k.
Qed.

(** ** The guard *)
Definition active (t : string) (s : server) : gset string := default ∅ (_active_tasks (quotas s) !! t).

Definition task_of (q : TaskRequest) : string := match t_id q with Some i => if nonempty i then i else uuid | None => uuid end.

Lemma run_task_quotas task o s s' : run_task task o s = Ok s' → quotas s' = quotas s ∧ tenant s' = tenant s.
Proof. unfold run_task. destruct (Cancellation.execute_with_cancellation _ _); [|done]. by intros [= <-]. Qed.

Lemma think_body_quotas task q r t s :
  let body := match run_task task (engine q) s with
    | Err _ => (s, Escaped)
    | Ok s =>
        match engine q with
        | Solved _ solution => (_record_task_cost t task s, Answer (mkResponse 200 [] solution))
        | TaskCancelled _ => (s, Answer (http_exception_handler r 499 "Task cancelled by user"))
        | SandboxInvalid _ why => (s, Answer (http_exception_handler r 422 why))
        | EngineRaised _ => (s, Escaped)
        end
    end in quotas body.1 = quotas s.
Proof.
  cbn zeta. destruct (run_task task (engine q) s) as [s1|] eqn:E; [|done]. apply run_task_quotas in E as [Eq _].
  destruct (engine q); try done. cbn [fst]. unfold _record_task_cost. by destruct (traced s1 <=? 0)%Z.
Qed.

Lemma untrack_track (m : QuotaManager) t task t' :
  Quotas.redis m = false → task ∉ default ∅ (_active_tasks m !! t') →
  default ∅ (_active_tasks (untrack_active_task QB (track_active_task QB m t task now w).1 t task w).1 !! t') = default ∅ (_active_tasks m !! t').
Proof.
  intros Hr Hno. unfold track_active_task. cbn. rewrite Hr. cbn. unfold untrack_active_task. cbn. rewrite Hr. cbn. rewrite lookup_insert_eq. cbn.
  destruct (decide (t' = t)) as [->|Hne]; [rewrite !lookup_insert_eq; cbn; set_solver|]. by rewrite !lookup_insert_ne by done.
Qed.

(** Whatever becomes of the task, the tenant variable and the places taken in the quotas are
    as before (for an identifier that is not in use); without quota left the engine is not
    called and nothing changes. *)
Theorem think_releases q r s :
  Quotas.redis (quotas s) = false →
  (∀ t, task_of q ∉ active t s → active t (think q r s).1 = active t s)
  ∧ tenant (think q r s).1 = tenant s
  ∧ ∀ e, (check_quota QB (quotas s) (guard_tenant r s) 0 (_estimate_input_tokens q) now w).2 = Err e →
      think q r s = (s, Answer (http_exception_handler r 429 (show_quota e))).
Proof.
  intros Hr. unfold think, _task_guard, active. fold (task_of q). cbn [quotas put_tenant]. split_and!.
  - intros t Hno. destruct (check_quota _ _ _ _ _ _ _) as [w' [[]|e]]; cbn [snd]; [| |done];
    (pose proof (think_body_quotas (task_of q) q r (guard_tenant r s)
       (put_quotas (track_active_task QB (quotas s) (guard_tenant r s) (task_of q) now w).1 (put_tenant (guard_tenant r s) s))) as Hb; cbn zeta in Hb;
     destruct (match run_task _ _ _ with Ok _ => _ | Err _ => _ end) as [s2 rep]; cbn in Hb |- *; rewrite Hb; by apply untrack_track).
  - destruct (check_quota _ _ _ _ _ _ _) as [w' [[]|e]]; cbn [snd]; [| |done]; by destruct (match run_task _ _ _ with Ok _ => _ | Err _ => _ end).
  - intros e ->. by destruct s.
Qed.

(** The guard passes no estimate of the cost: the monthly budget is never the reason. *)
Lemma budget_not_enforced m t estimate : (check_quota QB m t 0 estimate now w).2 ≠ Err BudgetExceeded.
Proof.
  unfold check_quota. destruct (get_quota _ _ _ _) as [w1 quota]. change (Qltb 0 0) with false. cbn iota zeta.
  destruct (_ && _ && _); [done|]. destruct (_get_hourly_task_count _ _ _ _ _) as [w2 h]. destruct (_ <=? h)%Z; [done|].
  destruct (_get_active_task_count _ _ _ _) as [w3 a]. by destruct (_ <=? a)%Z.
Qed.

(** The tenant a task is run and billed for is the one named in a header, whatever tenant
    the key belongs to. *)
Lemma tenant_header_wins r s t : header "x-tenant-id" r = Some t → t ≠ "" → guard_tenant r s = t.
Proof. unfold guard_tenant, nonempty. intros -> Ht. by destruct (String.eqb_spec t ""). Qed.
End server.

(** ** A concrete server *)
Definition demo_cfg : settings := mkSettings "x-api-key" [("ka", "acme"); ("kb", "globex")] "" 100 0 [].
Definition demo_server : server :=
  mkServer "default" (mkMiddleware true [] (counter_init 60 5)) (Quotas.manager_init false false) (tracker_init false false) Cancellation.manager_init 0.
Definition demo_qb : QuotaBackends () := mkQB (λ _ w, (w, None)) (λ _ _ w, w) (λ _ w, (w, None)) (λ _ w, (w, None)) (λ _ w, (w, None))
  (λ _ _ w, (w, false)) (λ _ _ w, (w, false)) (λ _ w, (w, None)).
Definition demo_cb : Backends () := mkBackends (λ _ _ w, (w, false)) (λ _ _ w, (w, false)) (λ _ w, (w, None)) (λ _ w, w).
Definition demo_think (id : string) : server_handler :=
  think 0 (λ _, "url") (λ _, "quota") demo_qb () demo_cb () "p" "m" "d" "m" "u" (λ _, Solved 10 JNull) (mkTaskRequest "t" "d" (Some id)).
Definition demo_stack (app : server_handler) : server_handler :=
  stack demo_cfg (λ _, Some 7%Z) (λ _, false) (λ _ s, s) (λ _, "") (λ _, "etag") "rid" 0 String.eqb Some Some (λ _ _ : string, false) id (λ next, next) app.
Definition demo_req (hs : list (string * string)) : request := mkReq "POST" "/think" hs (Some "1.2.3.4").

Lemma api_authenticates_witness :
  demo_stack (demo_think "x") (demo_req []) demo_server = demo_stack (λ _ s, (s, Escaped)) (demo_req []) demo_server
  ∧ tenant (demo_stack (demo_think "x") (demo_req [("x-api-key", "ka")]) demo_server).1 = "default".
Proof.
  assert (∀ (next next' : server_handler) r s, next r s = next' r s → next r s = next' r s) as Hc by done.
  assert (∀ (next : server_handler) r s, (next r s).1 = s ∨ (next r s).1 = (next r s).1) as Hs by (intros; by right).
  assert (∀ h, ¬ open_path (url_path (demo_req h))) as Hp by (intros h; cbn; unfold open_path; naive_solver).
  assert (secured demo_cfg) as Hk by (by left).
  split.
  - apply (api_authenticates demo_cfg (λ _, Some 7%Z) (λ _, false) (λ _ s, s) (λ _, "") (λ _, "etag") "rid" 0 String.eqb Some Some (λ _ _ : string, false)
      (λ x, x) (λ next, next) Hc Hs (demo_think "x") (demo_req []) demo_server Hk (Hp _)). by intros k t [_ ?].
  - apply (api_authenticates demo_cfg (λ _, Some 7%Z) (λ _, false) (λ _ s, s) (λ _, "") (λ _, "etag") "rid" 0 String.eqb Some Some (λ _ _ : string, false)
      (λ x, x) (λ next, next) Hc Hs (demo_think "x") (demo_req [("x-api-key", "ka")]) demo_server Hk (Hp _)) with (t := "acme").
    intros k t [_ [= <-]] [Hin|[? _]]; [|done]. cbn in Hin. apply elem_of_cons in Hin as [[= ->]|Hin]; [done|].
    apply list_elem_of_singleton in Hin. discriminate Hin.
Defined.

(** With the key of one tenant and the header of another, the other pays. *)
Example billed_to_another_tenant :
  let s := (demo_stack (demo_think "x") (demo_req [("x-api-key", "ka"); ("x-tenant-id", "globex")]) demo_server).1 in
  map (λ c, (tenant_id c, input_tokens c)) (_records (costs s)) = [("globex", 10%Z)].
Proof. by vm_compute. Qed.

(** The tracer's total is charged each time: two tasks of ten tokens cost thirty. *)
Example tokens_charged_again :
  let run id s := (demo_stack (demo_think id) (demo_req [("x-api-key", "ka")]) s).1 in
  map input_tokens (_records (costs (run "y" (run "x" demo_server)))) = [10; 20]%Z.
Proof. by vm_compute. Qed.

(** A second request with the identifier of a running task fails, and releases the place of
    the first. *)
Example duplicate_id_releases_place :
  let busy := put_running (default Cancellation.manager_init (Cancellation.manager_step Cancellation.manager_init (Cancellation.Execute "x")))
    (put_quotas (track_active_task demo_qb (quotas demo_server) "acme" "x" 0 ()).1 demo_server) in
  let '(s, rep) := demo_stack (demo_think "x") (demo_req [("x-api-key", "ka")]) busy in
  (elements (active "acme" busy), elements (active "acme" s), list_active_tasks s) = (["x"], [], ["x"]) ∧ rep = Escaped.
Proof. vm_compute. split; reflexivity. Qed.

(** Rejected requests carry no security headers, and are not counted by the rate limiter. *)
Example rejected_without_security_headers :
  let '(s, rep) := demo_stack (demo_think "x") (demo_req []) demo_server in
  limiter s = limiter demo_server ∧ match rep with Answer resp => dget "x-frame-options" (resp_headers resp) = None ∧ status resp = 401%Z | Escaped => False end.
Proof. vm_compute. repeat split; reflexivity. Qed.

(** What the caching layer says is overwritten on the way out. *)
Example caching_is_switched_off :
  match (demo_stack (λ _ s, (s, Answer (mkResponse 200 [] JNull))) (mkReq "GET" "/kernels" [("x-api-key", "ka")] None) demo_server).2 with
  | Answer resp => dget "cache-control" (resp_headers resp) = Some "no-store, no-cache, must-revalidate" ∧ is_Some (dget "etag" (resp_headers resp))
  | Escaped => False
  end.
Proof. vm_compute. split; [reflexivity|eauto]. Qed.

(** A body without a declared length is not limited. *)
Example chunked_body_passes :
  (demo_stack (λ _ s, (s, Answer (mkResponse 200 [] JNull))) (demo_req [("x-api-key", "ka"); ("transfer-encoding", "chunked")]) demo_server).2 ≠ Escaped
  ∧ match (demo_stack (λ _ s, (s, Answer (mkResponse 200 [] JNull))) (demo_req [("x-api-key", "ka"); ("transfer-encoding", "chunked")]) demo_server).2 with
    | Answer resp => status resp = 200%Z | Escaped => False end.
Proof. vm_compute. split; done. Qed.
