(* ===== verification/RegexSpec.v ===== *)
(** * Meaning of the regular expressions, and substitution

    [reads r p q] says, without reference to backtracking, that [r] can read the text
    between the positions [p] and [q]; the matcher of [Regex] is proved to find a reading
    exactly if there is one.  On top of it [pieces] cuts a text into the leftmost
    non-overlapping matches and the characters between them, as [re.sub] and [re.findall]
    do, for patterns that cannot match the empty text. *)
From Stdlib Require Import ZArith Lia Bool Ascii String.
From stdpp Require Import base option numbers sets strings list.
From S2P Require Import Prelude Regex.
Local Open Scope string_scope.
Local Open Scope list_scope.
Local Open Scope nat_scope.

(** The character before, and what is left. *)
Definition pos : Type := option ascii * string.

Definition left (p : pos) : nat := String.length p.2.

Inductive reads : re → pos → pos → Prop :=
| r_eps p : reads Eps p p
| r_ch f o a s : f a = true → reads (Ch f) (o, String a s) (Some a, s)
| r_seq a b p q r : reads a p q → reads b q r → reads (Seq a b) p r
| r_alt_l a b p q : reads a p q → reads (Alt a b) p q
| r_alt_r a b p q : reads b p q → reads (Alt a b) p q
| r_opt_none a p : reads (Opt a) p p
| r_opt_some a p q : reads a p q → reads (Opt a) p q
| r_star_nil a p : reads (Star a) p p
| r_star_cons a p q r : reads a p q → left q < left p → reads (Star a) q r → reads (Star a) p r
| r_grp n a p q : reads a p q → reads (Grp n a) p q
| r_wb o s : xorb (word_at o) (word_at (next_char s)) = true → reads WB (o, s) (o, s).

Lemma reads_le r p q : reads r p q → left q <= left p.
Proof. induction 1; unfold left in *; cbn in *; lia. Qed.

(** A pattern that captures nothing. *)
Fixpoint groupless (r : re) : bool :=
  match r with
  | Eps | Ch _ | WB => true
  | Seq a b | Alt a b => groupless a && groupless b
  | Opt a | Star a => groupless a
  | Grp _ _ => false
  end.

(** ** The matcher finds a reading exactly if there is one *)
Section matcher.
Context {R : Type}.
Implicit Types k : option ascii → string → captures → option R.

(** The loop of the repetition. *)
Definition star_loop (a : re) (k : option ascii → string → captures → option R) : nat → option ascii → string → captures → option R :=
  fix star (n : nat) (prev : option ascii) (s : string) (caps : captures) : option R :=
    match n with
    | O => None
    | S n =>
        match rmatch a prev s caps (λ prev' s' caps', if (String.length s' <? String.length s)%nat then star n prev' s' caps' else None) with
        | Some x => Some x
        | None => k prev s caps
        end
    end.

Lemma star_loop_S a k n o s c :
  star_loop a k (S n) o s c =
  match rmatch a o s c (λ o' s' c', if (String.length s' <? String.length s)%nat then star_loop a k n o' s' c' else None) with
  | Some x => Some x
  | None => k o s c
  end.
Proof. reflexivity. Qed.

Lemma rmatch_star a o s c k : rmatch (Star a) o s c k = star_loop a k (S (String.length s)) o s c.
Proof. reflexivity. Qed.

Lemma rmatch_sound r : ∀ o s c k x, rmatch r o s c k = Some x →
  ∃ o' s' c', reads r (o, s) (o', s') ∧ k o' s' c' = Some x ∧ (groupless r = true → c' = c).
Proof.
  induction r as [| f | a IHa b IHb | a IHa b IHb | a IHa | a IHa | n a IHa |]; intros o s c k x; [cbn [rmatch groupless]..|rewrite rmatch_star; cbn [groupless]|cbn [rmatch groupless]|cbn [rmatch groupless]].
  - intros E. exists o, s, c. by split; [constructor|].
  - destruct s as [|y s]; [done|]. destruct (f y) eqn:Hf; [|done]. intros E. exists (Some y), s, c. by split; [constructor|].
  - intros (o1 & s1 & c1 & H1 & E1 & G1)%IHa. apply IHb in E1 as (o2 & s2 & c2 & H2 & E2 & G2). exists o2, s2, c2.
    split_and!; [by eapply r_seq|done|]. intros [Ga Gb]%andb_prop. by rewrite G2, G1.
  - destruct (rmatch a o s c k) as [y|] eqn:E.
    + intros [= ->]. apply IHa in E as (o1 & s1 & c1 & H1 & E1 & G1). exists o1, s1, c1. split_and!; [by apply r_alt_l|done|]. by intros [Ga _]%andb_prop; apply G1.
    + intros (o1 & s1 & c1 & H1 & E1 & G1)%IHb. exists o1, s1, c1. split_and!; [by apply r_alt_r|done|]. by intros [_ Gb]%andb_prop; apply G1.
  - destruct (rmatch a o s c k) as [y|] eqn:E.
    + intros [= ->]. apply IHa in E as (o1 & s1 & c1 & H1 & E1 & G1). exists o1, s1, c1. by split_and!; [apply r_opt_some| |].
    + intros E1. exists o, s, c. by split; [constructor|].
  - generalize (S (String.length s)) as n. intros n. revert o s c. induction n as [|n IHn]; intros o s c; [done|]; rewrite star_loop_S.
    destruct (rmatch a o s c _) as [y|] eqn:E.
    + intros [= ->]. apply IHa in E as (o1 & s1 & c1 & H1 & E1 & G1). destruct (String.length s1 <? String.length s) eqn:Hl; [|done].
      apply Nat.ltb_lt in Hl. apply IHn in E1 as (o2 & s2 & c2 & H2 & E2 & G2). exists o2, s2, c2. split_and!; [by eapply r_star_cons|done|].
      intros G. by rewrite G2, G1.
    + intros E1. exists o, s, c. by split; [constructor|].
  - intros (o1 & s1 & c1 & H1 & E1 & _)%IHa. exists o1, s1. eexists. split_and!; [by constructor|exact E1|done].
  - destruct (xorb _ _) eqn:Hx; [|done]. intros E. exists o, s, c. by split; [constructor|].
Qed.

Definition accepts k (p : pos) : Prop := ∀ c, is_Some (k p.1 p.2 c).

Lemma rmatch_complete r : ∀ p q, reads r p q → ∀ c k, accepts k q → is_Some (rmatch r p.1 p.2 c k).
Proof.
  induction r as [| f | a IHa b IHb | a IHa b IHb | a IHa | a IHa | n a IHa |]; intros p q H c k Hk; [cbn [rmatch]..|rewrite rmatch_star|cbn [rmatch]|cbn [rmatch]].
  - inversion H; subst. apply Hk.
  - inversion H as [|? ? ? ? Hf| | | | | | | | |]; subst. cbn. rewrite Hf. apply Hk.
  - inversion H; subst. eapply IHa; [done|]. intros c'. by eapply IHb.
  - inversion H as [| | |? ? ? ? H1|? ? ? ? H1| | | | | |]; subst; [by destruct (IHa _ _ H1 c k Hk) as [x ->]|].
    destruct (rmatch a _ _ _ _); [done|]. by apply (IHb _ _ H1).
  - inversion H as [| | | | | |? ? ? H1| | | |]; subst; [destruct (rmatch a _ _ _ _); [done|apply Hk]|].
    by destruct (IHa _ _ H1 c k Hk) as [x ->].
  - assert (left p < S (String.length p.2)) as Hn by (unfold left; lia). revert Hn H c.
    generalize (S (String.length p.2)) as n. intros n. revert p. induction n as [|n IHn]; intros p Hn H c; [lia|]; rewrite star_loop_S.
    inversion H as [| | | | | | | |? ? q' ? H1 Hl H2| |]; subst; [destruct (rmatch a _ _ _ _); [done|apply Hk]|].
    edestruct (IHa _ _ H1 c) as [x E]; [|by rewrite E].
    intros c'. unfold left in *. rewrite (proj2 (Nat.ltb_lt _ _) Hl). apply IHn; [lia|done].
  - inversion H; subst. eapply IHa; [done|]. intros c'. apply Hk.
  - inversion H as [| | | | | | | | | |? ? Hx]; subst. cbn in *. rewrite Hx. apply Hk.
Qed.
End matcher.

(** ** Patterns that cannot match the empty text *)
Fixpoint nullable (r : re) : bool :=
  match r with
  | Eps | Opt _ | Star _ | WB => true
  | Ch _ => false
  | Seq a b => nullable a && nullable b
  | Alt a b => nullable a || nullable b
  | Grp _ a => nullable a
  end.

Lemma not_nullable r p q : reads r p q → nullable r = false → left q < left p.
Proof.
  induction 1 as [p|f o a s Hf|a b p q r Ha IHa Hb IHb|a b p q _ IH|a b p q _ IH|a p|a p q _ IH|a p|a p q r _ IHa Hl Hs IHs|n a p q _ IH|o s Hx]; cbn; intros Hn; try done.
  - unfold left. cbn. lia.
  - apply reads_le in Ha, Hb. apply andb_false_iff in Hn as [Hn|Hn]; [specialize (IHa Hn)|specialize (IHb Hn)]; lia.
  - apply orb_false_iff in Hn as [Hn _]. by apply IH.
  - apply orb_false_iff in Hn as [_ Hn]. by apply IH.
  - by apply IH.
Qed.

(** ** Cutting a text at its matches *)
Inductive piece := Kept (a : ascii) | Hit (m : string) (c : captures).

(** A match at this position: where it ends, and its groups. *)
Definition find_at (r : re) (p : pos) : option (pos * captures) :=
  rmatch r p.1 p.2 [] (λ o s c, if (String.length s <? String.length p.2)%nat then Some ((o, s), c) else None).

Fixpoint cut (n : nat) (r : re) (p : pos) : list piece :=
  match n with
  | O => []
  | S n =>
      match find_at r p with
      | Some (q, c) => Hit (String.substring 0 (left p - left q) p.2) c :: cut n r q
      | None => match p.2 with String a s => Kept a :: cut n r (Some a, s) | EmptyString => [] end
      end
  end.

Definition pieces (r : re) (s : string) : list piece := cut (String.length s) r (None, s).

Definition text_of (x : piece) : string := match x with Kept a => String a "" | Hit m _ => m end.
Fixpoint source (l : list piece) : string := match l with [] => "" | x :: l => text_of x +:+ source l end.

(** A replacement: text and references to groups. *)
Definition template : Type := list (string + nat).
Definition expand (t : template) (c : captures) : string :=
  foldr (λ x s, match x with inl u => u | inr n => group n c end +:+ s) "" t.

Definition render (t : template) (l : list piece) : string :=
  foldr (λ x s, match x with Kept a => String a "" | Hit _ c => expand t c end +:+ s) "" l.

(** [re.sub] *)
Definition sub (r : re) (t : template) (s : string) : string := render t (pieces r s).

(** The matches, as [re.findall] lists them for a pattern without groups, and the texts
    between them, as [re.split] does. *)
Definition hits (r : re) (s : string) : list string := omap (λ x, match x with Hit m _ => Some m | Kept _ => None end) (pieces r s).

Fixpoint gaps (acc : string) (l : list piece) : list string :=
  match l with
  | [] => [acc]
  | Kept a :: l => gaps (acc +:+ String a "") l
  | Hit _ _ :: l => acc :: gaps "" l
  end.
Definition split (r : re) (s : string) : list string := gaps "" (pieces r s).

(** *** What a cut has to be *)
Fixpoint prev_after (o : option ascii) (s : string) : option ascii := match s with "" => o | String a s => prev_after (Some a) s end.

(** The offset lies inside a match. *)
Fixpoint in_hit (l : list piece) (n : nat) : bool :=
  match l with
  | [] => false
  | Kept _ :: l => match n with O => false | S n => in_hit l n end
  | Hit m _ :: l => (n <? String.length m)%nat || in_hit l (n - String.length m)
  end.

(** The pieces make up the text; each hit is a non-empty reading where it stands; and
    every place from which the pattern reads something lies inside a hit. *)
Definition cuts (r : re) (o : option ascii) (s : string) (l : list piece) : Prop :=
  source l = s
  ∧ (∀ l1 m c l2, l = l1 ++ Hit m c :: l2 →
      m ≠ "" ∧ ∃ o', reads r (prev_after o (source l1), m +:+ source l2) (o', source l2))
  ∧ ∀ u v q, s = u +:+ v → reads r (prev_after o u, v) q → left q < String.length v → in_hit l (String.length u) = true.

Lemma find_at_some r p q c : find_at r p = Some (q, c) → reads r p q ∧ left q < left p.
Proof.
  unfold find_at. intros (o & s & c' & H & E & _)%rmatch_sound. destruct (String.length s <? _) eqn:Hl; [|done]. injection E as <- <-.
  apply Nat.ltb_lt in Hl. by destruct p.
Qed.

Lemma find_at_none r p q : find_at r p = None → reads r p q → ¬ left q < left p.
Proof.
  unfold find_at. intros E H Hl. eapply rmatch_complete in H; [by rewrite E in H; destruct H|].
  intros c. unfold left in Hl. by rewrite (proj2 (Nat.ltb_lt _ _) Hl).
Qed.

Lemma string_app_assoc (a b c : string) : (a +:+ b) +:+ c = a +:+ (b +:+ c).
Proof. induction a as [|x a IH]; [done|]. exact (f_equal (String x) IH). Qed.

Lemma string_app_nil_r (s : string) : s +:+ "" = s.
Proof. induction s as [|a s IH]; [done|]. exact (f_equal (String a) IH). Qed.

Lemma string_length_app (a b : string) : String.length (a +:+ b) = String.length a + String.length b.
Proof. induction a as [|x a IH]; [done|]. exact (f_equal S IH). Qed.

Lemma prev_after_app o a b : prev_after o (a +:+ b) = prev_after (prev_after o a) b.
Proof. revert o. induction a as [|x a IH]; intros o; [done|]. apply IH. Qed.

Lemma reads_split r p q : reads r p q → ∃ m, p.2 = m +:+ q.2 ∧ q.1 = prev_after p.1 m.
Proof.
  assert (∀ p q t : pos, (∃ m, p.2 = m +:+ q.2 ∧ q.1 = prev_after p.1 m) → (∃ m, q.2 = m +:+ t.2 ∧ t.1 = prev_after q.1 m) →
    ∃ m, p.2 = m +:+ t.2 ∧ t.1 = prev_after p.1 m) as Htrans.
  { intros a b c (m & E & Em) (m' & E' & Em'). exists (m +:+ m'). by rewrite string_app_assoc, <- E', <- E, prev_after_app, <- Em, <- Em'. }
  induction 1 as [p|f o a s Hf|a b p q r Ha IHa Hb IHb|a b p q _ IH|a b p q _ IH|a p|a p q _ IH|a p|a p q r _ IHa Hl Hs IHs|n a p q _ IH|o s Hx];
    try done; try (by exists ""); [by exists (String a "")|by eapply Htrans|by eapply Htrans].
Qed.

Lemma substring_app m s : String.substring 0 (String.length m) (m +:+ s) = m.
Proof. induction m as [|a m IH]; [by destruct s|]. exact (f_equal (String a) IH). Qed.

Lemma string_app_cut (m s u v : string) : m +:+ s = u +:+ v → String.length m <= String.length u → ∃ w, u = m +:+ w ∧ s = w +:+ v.
Proof.
  revert u. induction m as [|a m IH]; intros u E Hl; [by exists u|]. destruct u as [|b u]; [cbn in Hl; lia|].
  injection E as -> E. destruct (IH u E) as (w & -> & ->); [cbn in Hl; lia|]. by exists w.
Qed.

Lemma cuts_kept r o a s l :
  (∀ q, reads r (o, String a s) q → ¬ left q < S (String.length s)) → cuts r (Some a) s l → cuts r o (String a s) (Kept a :: l).
Proof.
  intros Hno (Hs & Hh & Hc). split_and!; [cbn; by rewrite Hs| |].
  - intros l1 m c l2 E. destruct l1 as [|x l1]; [done|]. injection E as <- E. by apply (Hh l1 m c l2).
  - intros u v q E Hr Hl. destruct u as [|b u].
    + change ("" +:+ v) with v in E. subst v. by destruct (Hno q).
    + injection E as <- E. by apply (Hc u v q).
Qed.

Lemma cuts_hit r o m o' s c l :
  m ≠ "" → reads r (o, m +:+ s) (o', s) → o' = prev_after o m → cuts r o' s l → cuts r o (m +:+ s) (Hit m c :: l).
Proof.
  intros Hm Hr -> (Hs & Hh & Hc). split_and!; [cbn; by rewrite Hs| |].
  - intros l1 m' c' l2 E. destruct l1 as [|x l1].
    + injection E as <- <- <-. rewrite Hs. eauto.
    + injection E as <- E. destruct (Hh l1 m' c' l2 E) as (? & o2 & ?). split; [done|]. exists o2. cbn. by rewrite prev_after_app.
  - intros u v q E Hq Hl. cbn [in_hit]. destruct (String.length u <? String.length m) eqn:Hu; [done|]. apply Nat.ltb_ge in Hu.
    destruct (string_app_cut _ _ _ _ E Hu) as (w & -> & ->). rewrite string_length_app, Nat.add_comm, Nat.add_sub.
    apply (Hc w v q); [done| |done]. by rewrite <- prev_after_app.
Qed.

Lemma cuts_nil r o : cuts r o "" [].
Proof.
  split_and!; [done|by intros [|]|]. intros u v q E _ Hl. destruct u; [|discriminate E]. change ("" +:+ v) with v in E. subst v. cbn in Hl. lia.
Qed.

Lemma cut_cuts r n : ∀ p, left p <= n → cuts r p.1 p.2 (cut n r p).
Proof.
  induction n as [|n IH]; intros [o s] Hn; cbn [cut].
  - destruct s; [|unfold left in Hn; cbn in Hn; lia]. apply cuts_nil.
  - destruct (find_at r (o, s)) as [[q c]|] eqn:E.
    + apply find_at_some in E as [Hr Hl]. destruct (reads_split _ _ _ Hr) as (m & Em & Eo). cbn in Em, Eo. subst s.
      assert (left (o, m +:+ q.2) - left q = String.length m) as -> by (unfold left; cbn; rewrite string_length_app; lia).
      cbn [fst snd]. rewrite substring_app. destruct q as [o' s']. cbn in *. eapply cuts_hit; [|exact Hr|exact Eo|].
      * intros ->. by apply Nat.lt_irrefl in Hl.
      * apply (IH (o', s')). unfold left. cbn. lia.
    + destruct s as [|a s].
      * apply cuts_nil.
      * apply cuts_kept; [|apply (IH (Some a, s)); unfold left in *; cbn in *; lia]. intros q Hr. by apply (find_at_none r (o, String a s)).
Qed.

(** A hit is what the matcher found where it stands, with its groups. *)
Lemma cut_found r n : ∀ p l1 m c l2, left p <= n → cut n r p = l1 ++ Hit m c :: l2 →
  ∃ o, find_at r (prev_after p.1 (source l1), m +:+ source l2) = Some ((o, source l2), c).
Proof.
  induction n as [|n IH]; intros [o s] l1 m c l2 Hn; cbn [cut]; [by destruct l1|].
  destruct (find_at r (o, s)) as [[q c']|] eqn:E.
  - pose proof (find_at_some _ _ _ _ E) as [Hr Hl]. destruct (reads_split _ _ _ Hr) as (m' & Em & Eo). cbn in Em, Eo. subst s.
    assert (left (o, m' +:+ q.2) - left q = String.length m') as -> by (unfold left; cbn; rewrite string_length_app; lia).
    cbn [fst snd]. rewrite substring_app. destruct q as [o' s']. cbn in Eo, Hl, Hn |- *.
    assert (left (o', s') <= n) as Hn' by (unfold left in *; cbn in *; lia).
    intros Ec. destruct l1 as [|x l1].
    + injection Ec as <- <- <-. destruct (cut_cuts r n (o', s') Hn') as [-> _]. eauto.
    + injection Ec as <- Ec. destruct (IH _ _ _ _ _ Hn' Ec) as (o2 & E2). exists o2. rewrite <- E2. cbn. by rewrite prev_after_app, Eo.
  - destruct s as [|a s]; [by destruct l1|]. intros Ec. destruct l1 as [|x l1]; [done|]. injection Ec as <- Ec.
    apply (IH (Some a, s) _ _ _ _) in Ec; [done|]. unfold left in *; cbn in *; lia.
Qed.

Lemma pieces_cuts r s : cuts r None s (pieces r s).
Proof. by apply (cut_cuts r _ (None, s)). Qed.

Lemma source_app l1 l2 : source (l1 ++ l2) = source l1 +:+ source l2.
Proof. induction l1 as [|x l1 IH]; [done|]. cbn. by rewrite IH, string_app_assoc. Qed.

(** Without a match nothing changes. *)
Lemma sub_id r t s :
  (∀ u v q, s = u +:+ v → reads r (prev_after None u, v) q → ¬ left q < String.length v) → sub r t s = s.
Proof.
  intros Hno. destruct (pieces_cuts r s) as (Hs & Hh & _). unfold sub.
  assert (∀ x, x ∈ pieces r s → ∃ a, x = Kept a) as Hk.
  { intros [a|m c] Hx; [eauto|]. apply list_elem_of_split in Hx as (l1 & l2 & E). destruct (Hh _ _ _ _ E) as (Hm & o & Hr).
    destruct (Hno (source l1) (m +:+ source l2) (o, source l2)); [|done|].
    - by rewrite <- Hs, E, source_app.
    - unfold left. cbn. rewrite string_length_app. destruct m; [done|]. cbn. lia. }
  rewrite <- Hs at 2. clear Hs Hh. induction (pieces r s) as [|x l IH]; [done|]. destruct (Hk x) as [a ->]; [set_solver|].
  apply (f_equal (String a)), IH. set_solver.
Qed.
