(* ===== verification/Tracer.v ===== *)
(** * The tracer ([noema/tracing/tracer.py])

    Spans are objects: the stack of open spans and the history hold references to them, and
    [end_span] looks for the object itself.  They live in a heap here, numbered in the order
    of their creation, and who holds a span may update its attributes later, as the engine
    does; the dictionaries given to [start_span] are fresh ones.  Prompts and responses go through [redact_text] of [Security].
    Identifiers, the clocks, [json.dumps] of the messages and [str] are parameters; the
    exporter is the list of the spans handed to it. *)
From Stdlib Require Import ZArith QArith Lia Bool Ascii String.
From stdpp Require Import base option numbers sets strings list.
From S2P Require Import Prelude CostTracker Symbolic Regex RegexSpec Security.
Local Open Scope string_scope.
Local Open Scope list_scope.
Local Open Scope nat_scope.

Record shadow_result := mkShadow { judge_score : Q; weaknesses : list string; s_timestamp : Q }.

Record PromptVersion := mkPrompt {
  p_name : string; version : string; text : string; previous_text : string; shadow_mode : bool; shadow_results : list shadow_result;
}.

Record TraceConfig := mkConfig {
  trace_prompts : bool; trace_responses : bool; max_prompt_length : nat; max_response_length : nat; max_spans : Z; export_endpoint : string;
}.

Record event := mkEvent { e_name : string; e_time : Q; e_attributes : list (string * json) }.

Record TraceSpan := mkSpan {
  span_id : string; parent_id : string; trace_id : string; s_name : string; kind : string; start_time : Q; end_time : Q; duration_ms : Q;
  start_epoch_ns : Z; end_epoch_ns : Z; attributes : list (string * json); events : list event; status : string; error : string;
}.

Definition empty_span : TraceSpan := mkSpan "" "" "" "" "internal" 0 0 0 0 0 [] [] "ok" "".

(** What [to_dict] shows of a span. *)
Record span_dict := mkDict {
  d_span_id : string; d_parent_id : string; d_trace_id : string; d_name : string; d_kind : string; d_start : Q; d_duration : Q; d_status : string;
  d_attributes : list (string * string); d_events : list event; d_error : string; d_start_epoch : option Z; d_end_epoch : option Z;
}.

Record Tracer := mkTracer {
  config : TraceConfig; _trace_id : string; heap : list TraceSpan; _spans : list nat; _stack : list nat;     (* the top of the stack is last *)
  _prompt_registry : list (string * PromptVersion); exported : list span_dict;
}.

Definition tracer_init (c : TraceConfig) (id : string) : Tracer := mkTracer c id [] [] [] [] [].

Definition put_heap (h : list TraceSpan) (t : Tracer) : Tracer := mkTracer (config t) (_trace_id t) h (_spans t) (_stack t) (_prompt_registry t) (exported t).
Definition put_spans (l : list nat) (t : Tracer) : Tracer := mkTracer (config t) (_trace_id t) (heap t) l (_stack t) (_prompt_registry t) (exported t).
Definition put_stack (l : list nat) (t : Tracer) : Tracer := mkTracer (config t) (_trace_id t) (heap t) (_spans t) l (_prompt_registry t) (exported t).
Definition put_registry (r : list (string * PromptVersion)) (t : Tracer) : Tracer := mkTracer (config t) (_trace_id t) (heap t) (_spans t) (_stack t) r (exported t).
Definition put_exported (l : list span_dict) (t : Tracer) : Tracer := mkTracer (config t) (_trace_id t) (heap t) (_spans t) (_stack t) (_prompt_registry t) l.

Section tracer.
Context (repr : json → string) (dumps : list (list (string * string)) → string).

Definition round1 (x : Q) : Q := (inject_Z (round_half_even (x * 10)) / 10)%Q.

Definition nonzero (z : Z) : option Z := if (z =? 0)%Z then None else Some z.

Definition to_dict (s : TraceSpan) : span_dict :=
  mkDict (span_id s) (parent_id s) (trace_id s) (s_name s) (kind s) (py_round3 (start_time s)) (round1 (duration_ms s)) (status s)
    (map (λ kv, (kv.1, String.substring 0 500 (py_str repr kv.2))) (attributes s)) (py_last 10 (events s)) (String.substring 0 500 (error s))
    (nonzero (start_epoch_ns s)) (nonzero (end_epoch_ns s)).

(** A history of at most [n] entries. *)
Definition kept {A} (n : nat) (l : list A) : list A := if (n <? length l)%nat then py_last n l else l.

(** ** Versions of prompts *)
Definition register_prompt (name text' version : string) (shadow : bool) (t : Tracer) : Tracer :=
  put_registry (dset name (mkPrompt name version text' (match dget name (_prompt_registry t) with Some p => text p | None => "" end) shadow [])
    (_prompt_registry t)) t.

Definition get_prompt_version (name : string) (t : Tracer) : option PromptVersion := dget name (_prompt_registry t).

Definition with_results (p : PromptVersion) (l : list shadow_result) : PromptVersion := mkPrompt (p_name p) (version p) (text p) (previous_text p) (shadow_mode p) l.
Definition promoted (p : PromptVersion) : PromptVersion := mkPrompt (p_name p) (version p) (text p) (previous_text p) false (shadow_results p).

Definition record_shadow_result (name : string) (score : Q) (weak : list string) (now : Q) (t : Tracer) : Tracer :=
  match dget name (_prompt_registry t) with
  | Some p =>
      if shadow_mode p then
        let l := shadow_results p ++ [mkShadow score weak now] in
        put_registry (dset name (with_results p (kept 100 l)) (_prompt_registry t)) t
      else t
  | None => t
  end.

Definition promote_shadow_prompt (name : string) (min_score : Q) (t : Tracer) : bool * Tracer :=
  match dget name (_prompt_registry t) with
  | Some p =>
      if negb (shadow_mode p) || (length (shadow_results p) <? 5)%nat then (false, t)
      else
        let avg := (sumQ (map judge_score (shadow_results p)) / inject_Z (Z.of_nat (length (shadow_results p))))%Q in
        if Qle_bool min_score avg then (true, put_registry (dset name (promoted p) (_prompt_registry t)) t) else (false, t)
  | None => (false, t)
  end.

Definition prompt_stats (t : Tracer) : list (string * (string * bool * nat)) :=
  map (λ kv, (kv.1, (version kv.2, shadow_mode kv.2, length (shadow_results kv.2)))) (_prompt_registry t).

(** ** Spans *)
Definition span_of (t : Tracer) (i : nat) : TraceSpan := default empty_span (heap t !! i).

Definition current_span_id (t : Tracer) : string := match last (_stack t) with Some i => span_id (span_of t i) | None => "" end.

(** [uid]: the new identifier; [mono] and [epoch]: the clocks. *)
Definition start_span (uid : string) (mono : Q) (epoch : Z) (name kind : string) (attrs : list (string * json)) (t : Tracer) : nat * Tracer :=
  let s := mkSpan uid (current_span_id t) (_trace_id t) name kind mono 0 0 epoch 0 attrs [] "ok" "" in
  let i := length (heap t) in
  (i, put_stack (_stack t ++ [i]) (put_heap (heap t ++ [s]) t)).

(** Removes the last occurrence. *)
Fixpoint remove_first (i : nat) (l : list nat) : list nat :=
  match l with [] => [] | j :: l => if bool_decide (j = i) then l else j :: remove_first i l end.
Definition remove_top (i : nat) (l : list nat) : list nat := reverse (remove_first i (reverse l)).

Definition ended (mono : Q) (epoch : Z) (st err : string) (s : TraceSpan) : TraceSpan :=
  mkSpan (span_id s) (parent_id s) (trace_id s) (s_name s) (kind s) (start_time s) mono ((mono - start_time s) * 1000) (start_epoch_ns s) epoch
    (attributes s) (events s) st err.

(** [l[-n:]], the whole list for zero. *)
Definition last_n {A} (n : Z) (l : list A) : list A :=
  if (n =? 0)%Z then l else if (0 <? n)%Z then py_last (Z.to_nat n) l else drop (Z.to_nat (- n)) l.

Definition bound_spans (c : TraceConfig) (l : list nat) : list nat := if (max_spans c <? Z.of_nat (length l))%Z then last_n (max_spans c) l else l.

(** [None]: a span that is nowhere else. *)
Definition end_span (span : option nat) (mono : Q) (epoch : Z) (st err : string) (t : Tracer) : option nat * Tracer :=
  match last (_stack t) with
  | None => (None, t)
  | Some top =>
      let i := default top span in
      let t := put_stack (match span with None => take (length (_stack t) - 1) (_stack t) | Some i => remove_top i (_stack t) end) t in
      let s := ended mono epoch st err (span_of t i) in
      let t := put_heap (<[i := s]> (heap t)) t in
      let t := put_spans (bound_spans (config t) (_spans t ++ [i])) t in
      (Some i, if nonempty (export_endpoint (config t)) then put_exported (exported t ++ [to_dict s]) t else t)
  end.

Definition with_events (s : TraceSpan) (l : list event) : TraceSpan :=
  mkSpan (span_id s) (parent_id s) (trace_id s) (s_name s) (kind s) (start_time s) (end_time s) (duration_ms s) (start_epoch_ns s) (end_epoch_ns s)
    (attributes s) l (status s) (error s).

Definition add_event (name : string) (mono : Q) (attrs : list (string * json)) (t : Tracer) : Tracer :=
  match last (_stack t) with
  | None => t
  | Some i =>
      let l := events (span_of t i) ++ [mkEvent name mono attrs] in
      put_heap (<[i := with_events (span_of t i) (kept 50 l)]> (heap t)) t
  end.

(** [span.attributes.update(attrs)] by the holder of the span. *)
Definition update_dict (attrs d : list (string * json)) : list (string * json) := foldl (λ d kv, dset kv.1 kv.2 d) d attrs.
Definition with_attributes (s : TraceSpan) (d : list (string * json)) : TraceSpan :=
  mkSpan (span_id s) (parent_id s) (trace_id s) (s_name s) (kind s) (start_time s) (end_time s) (duration_ms s) (start_epoch_ns s) (end_epoch_ns s)
    d (events s) (status s) (error s).
Definition update_attributes (i : nat) (attrs : list (string * json)) (t : Tracer) : Tracer :=
  put_heap (<[i := with_attributes (span_of t i) (update_dict attrs (attributes (span_of t i)))]> (heap t)) t.

Record llm_call := mkCall {
  c_provider : string; c_model : string; c_messages : list (list (string * string)); c_response : string; c_tokens : Z; c_latency : Q;
  c_error : string; c_input : option Z; c_output : option Z;
}.

Definition jz (z : Z) : json := JNum (inject_Z z).

Definition llm_attributes (c : TraceConfig) (x : llm_call) : list (string * json) :=
  [("llm.provider", JStr (c_provider x)); ("llm.model", JStr (c_model x)); ("llm.tokens", jz (c_tokens x)); ("llm.latency_ms", JNum (round1 (c_latency x)))]
  ++ match c_input x with Some n => [("llm.tokens_input", jz n)] | None => [] end
  ++ match c_output x with Some n => [("llm.tokens_output", jz n)] | None => [] end
  ++ (if trace_prompts c then [("llm.prompt", JStr (String.substring 0 (max_prompt_length c) (redact_text (dumps (c_messages x)))))] else [])
  ++ (if trace_responses c && negb (nonempty (c_error x)) then [("llm.response", JStr (String.substring 0 (max_response_length c) (redact_text (c_response x))))] else []).

Definition trace_llm_call (x : llm_call) (uid : string) (m1 m2 : Q) (e1 e2 : Z) (t : Tracer) : nat * Tracer :=
  let '(i, t) := start_span uid m1 e1 ("llm." +:+ c_provider x) "llm" (llm_attributes (config t) x) t in
  (i, (end_span (Some i) m2 e2 (if nonempty (c_error x) then "error" else "ok") (c_error x) t).2).

Definition get_trace (t : Tracer) : list span_dict := map (λ i, to_dict (span_of t i)) (_spans t).

Definition attr_num (k : string) (s : TraceSpan) : Q := match dget k (attributes s) with Some (JNum q) => q | _ => 0 end.

Record trace_stats := mkStats { total_spans : nat; llm_calls : nat; total_tokens : Q; tokens_input : Q; tokens_output : Q; total_llm_latency_ms : Q; errors : nat }.

Definition get_stats (t : Tracer) : trace_stats :=
  let l := map (span_of t) (_spans t) in
  let llm := filter (λ s, kind s = "llm") l in
  mkStats (length l) (length llm) (sumQ (map (attr_num "llm.tokens") llm)) (sumQ (map (attr_num "llm.tokens_input") llm)) (sumQ (map (attr_num "llm.tokens_output") llm))
    (round1 (sumQ (map duration_ms llm))) (length (filter (λ s, status s = "error") l)).

(** ** Runs of a tracer *)
Inductive trace_op :=
| Start (uid : string) (mono : Q) (epoch : Z) (name kind : string) (attrs : list (string * json))
| End_ (span : option nat) (mono : Q) (epoch : Z) (st err : string)
| Event (name : string) (mono : Q) (attrs : list (string * json))
| Update (span : nat) (attrs : list (string * json))
| Llm (x : llm_call) (uid : string) (m1 m2 : Q) (e1 e2 : Z)
| Register (name text version : string) (shadow : bool)
| Shadow (name : string) (score : Q) (weak : list string) (now : Q)
| Promote (name : string) (min_score : Q).

(** A span that is ended or updated is one of this tracer. *)
Definition trace_step (t : Tracer) (o : trace_op) : option Tracer :=
  match o with
  | Start uid mono epoch name kind attrs => Some (start_span uid mono epoch name kind attrs t).2
  | End_ span mono epoch st err =>
      if from_option (λ i, i <? length (heap t)) true span then Some (end_span span mono epoch st err t).2 else None
  | Event name mono attrs => Some (add_event name mono attrs t)
  | Update i attrs => if (i <? length (heap t))%nat then Some (update_attributes i attrs t) else None
  | Llm x uid m1 m2 e1 e2 => Some (trace_llm_call x uid m1 m2 e1 e2 t).2
  | Register name text version shadow => Some (register_prompt name text version shadow t)
  | Shadow name score weak now => Some (record_shadow_result name score weak now t)
  | Promote name min_score => Some (promote_shadow_prompt name min_score t).2
  end.

(** *** The invariant *)
Definition span_ok (tid : string) (h : list TraceSpan) (i : nat) (s : TraceSpan) : Prop :=
  trace_id s = tid ∧ length (events s) <= 50
  ∧ (parent_id s = "" ∨ ∃ j s', j < i ∧ h !! j = Some s' ∧ span_id s' = parent_id s).

Record trace_inv (t : Tracer) : Prop := {
  inv_bound : (0 < max_spans (config t))%Z → (Z.of_nat (length (_spans t)) <= max_spans (config t))%Z;
  inv_refs : Forall (λ i, i < length (heap t)) (_spans t ++ _stack t);
  inv_stack : NoDup (_stack t);
  inv_heap : ∀ i s, heap t !! i = Some s → span_ok (_trace_id t) (heap t) i s;
  inv_shadow : Forall (λ kv, length (shadow_results kv.2) <= 100) (_prompt_registry t);
}.

(** What an operation means for the attributes of the spans, in the order of their
    creation. *)
Definition attrs_step (c : TraceConfig) (h : list (list (string * json))) (o : trace_op) : list (list (string * json)) :=
  match o with
  | Start _ _ _ _ _ attrs => h ++ [attrs]
  | Llm x _ _ _ _ _ => h ++ [llm_attributes c x]
  | Update i attrs => alter (update_dict attrs) i h
  | _ => h
  end.
Definition attrs_after (c : TraceConfig) (ops : list trace_op) : list (list (string * json)) := foldl (attrs_step c) [] ops.

Lemma heap_insert_ok tid h i s0 f :
  h !! i = Some s0 → (∀ s, span_id (f s) = span_id s ∧ parent_id (f s) = parent_id s ∧ trace_id (f s) = trace_id s) →
  length (events (f s0)) <= 50 →
  (∀ j s, h !! j = Some s → span_ok tid h j s) → ∀ j s, <[i := f s0]> h !! j = Some s → span_ok tid (<[i := f s0]> h) j s.
Proof.
  intros E Hf He Hh j s Hj.
  assert (∀ j s, h !! j = Some s → ∃ s', <[i := f s0]> h !! j = Some s' ∧ span_id s' = span_id s) as Hid.
  { intros j1 s1 H1. destruct (decide (j1 = i)) as [->|Hne].
    - rewrite list_lookup_insert_eq by (by eapply lookup_lt_Some). rewrite E in H1. injection H1 as <-. eexists. split; [done|]. apply Hf.
    - rewrite list_lookup_insert_ne by done. eauto. }
  assert (∃ s1, h !! j = Some s1 ∧ trace_id s = trace_id s1 ∧ parent_id s = parent_id s1 ∧ length (events s) <= 50) as (s1 & E1 & Et & Ep & Ev).
  { destruct (decide (j = i)) as [->|Hne].
    - rewrite list_lookup_insert_eq in Hj by (by eapply lookup_lt_Some). injection Hj as <-. exists s0. destruct (Hf s0) as (_ & ? & ?). done.
    - rewrite list_lookup_insert_ne in Hj by done. exists s. destruct (Hh j s Hj) as (_ & ? & _). done. }
  destruct (Hh j s1 E1) as (Ht & _ & Hp). split_and!; [congruence|done|]. rewrite Ep. destruct Hp as [?|(k & s2 & Hk & E2 & Es)]; [by left|].
  right. destruct (Hid k s2 E2) as (s3 & E3 & Es3). exists k, s3. split_and!; [done|done|congruence].
Qed.

Lemma heap_snoc_ok tid h s :
  span_ok tid h (length h) s → (∀ j s, h !! j = Some s → span_ok tid h j s) → ∀ j s', (h ++ [s]) !! j = Some s' → span_ok tid (h ++ [s]) j s'.
Proof.
  intros Hs Hh j s' Hj.
  assert (∀ i u, span_ok tid h i u → span_ok tid (h ++ [s]) i u) as Hmono.
  { intros i u (? & ? & Hp). split_and!; [done|done|]. destruct Hp as [?|(k & s2 & Hk & E2 & Es)]; [by left|].
    right. exists k, s2. split_and!; [done|by apply lookup_app_l_Some|done]. }
  apply lookup_app_Some in Hj as [Hj|(Hl & Hj)]; [by apply Hmono, Hh|].
  apply list_lookup_singleton_Some in Hj as [Hz <-]. replace j with (length h) by lia. by apply Hmono.
Qed.

Lemma remove_first_sub i l : remove_first i l `sublist_of` l.
Proof. induction l as [|j l IH]; cbn; [done|]. case_bool_decide; [by apply sublist_cons|by apply sublist_skip]. Qed.

Lemma remove_top_spec i l : (∀ j, j ∈ remove_top i l → j ∈ l) ∧ (NoDup l → NoDup (remove_top i l)).
Proof.
  unfold remove_top. pose proof (remove_first_sub i (reverse l)) as Hs. split.
  - intros j Hj. rewrite elem_of_reverse in Hj. rewrite <- elem_of_reverse. by eapply elem_of_sublist.
  - intros Hn. rewrite reverse_Permutation. eapply sublist_NoDup; [|exact Hs]. by rewrite reverse_Permutation.
Qed.

Lemma bound_spans_spec c l :
  (∀ j, j ∈ bound_spans c l → j ∈ l) ∧ ((0 < max_spans c)%Z → (Z.of_nat (length (bound_spans c l)) <= max_spans c)%Z).
Proof.
  unfold bound_spans, last_n. destruct (_ <? _)%Z eqn:E; [|split; [done|]; apply Z.ltb_ge in E; lia]. split.
  - intros j. destruct (_ =? 0)%Z; [done|]. destruct (0 <? _)%Z; unfold py_last; intros Hj; by eapply elem_of_sublist, sublist_drop.
  - intros Hp. destruct (Z.eqb_spec (max_spans c) 0); [lia|]. rewrite (proj2 (Z.ltb_lt _ _) Hp), py_last_length. lia.
Qed.
Lemma kept_bound {A} n (l : list A) : length (kept n l) <= n.
Proof. unfold kept. destruct (n <? length l)%nat eqn:E; [rewrite py_last_length; lia|by apply Nat.ltb_ge in E]. Qed.

Lemma last_elem (l : list nat) i : last l = Some i → i ∈ l.
Proof. intros (l' & ->)%last_Some. set_solver. Qed.

(** The sublists and bounds of [end_span], for any span of the heap. *)
Lemma end_span_inv span mono epoch st err t :
  trace_inv t → from_option (λ i, i < length (heap t)) True span → trace_inv (end_span span mono epoch st err t).2.
Proof.
  intros Hi Hs. unfold end_span. destruct (last (_stack t)) as [top|] eqn:El; [|done].
  pose proof (inv_refs t Hi) as Hr. rewrite Forall_forall in Hr. set (i := default top span).
  assert (i < length (heap t)) as Hlt.
  { destruct span as [k|]; [done|]. apply last_elem in El. apply Hr. set_solver. }
  destruct (lookup_lt_is_Some_2 _ _ Hlt) as [s0 E0]. set (stack' := match span with None => _ | Some _ => _ end).
  assert ((∀ j, j ∈ stack' → j ∈ _stack t) ∧ NoDup stack') as [Hsub Hnd].
  { unfold stack'. pose proof (inv_stack t Hi). destruct span as [k|].
    - destruct (remove_top_spec k (_stack t)). auto.
    - split; [intros j Hj; by eapply elem_of_sublist, sublist_take|eapply sublist_NoDup; [done|apply sublist_take]]. }
  assert (span_of (put_stack stack' t) i = s0) as -> by (unfold span_of; cbn; by rewrite E0).
  destruct (bound_spans_spec (config t) (_spans t ++ [i])) as [Hb1 Hb2].
  assert (trace_inv (put_spans (bound_spans (config t) (_spans t ++ [i])) (put_heap (<[i := ended mono epoch st err s0]> (heap t)) (put_stack stack' t)))) as Hfin.
  { split; cbn.
    - exact Hb2.
    - apply Forall_forall. intros j Hj. rewrite length_insert. apply elem_of_app in Hj as [Hj|Hj]; [|apply Hr; set_solver].
      apply Hb1, elem_of_app in Hj as [Hj|Hj]; [apply Hr; set_solver|]. by apply list_elem_of_singleton in Hj as ->.
    - done.
    - apply heap_insert_ok; [done|done| |apply (inv_heap t Hi)]. cbn. by destruct (inv_heap t Hi i s0 E0) as (_ & ? & _).
    - apply (inv_shadow t Hi). }
  cbn [snd]. by destruct (nonempty _); [destruct Hfin; split|].
Qed.

Lemma start_span_inv uid mono epoch name kind attrs t :
  trace_inv t → trace_inv (start_span uid mono epoch name kind attrs t).2
  ∧ (start_span uid mono epoch name kind attrs t).1 < length (heap (start_span uid mono epoch name kind attrs t).2).
Proof.
  intros Hi. pose proof (inv_refs t Hi) as Hr. rewrite Forall_forall in Hr. unfold start_span. cbn [fst snd]. split; [|cbn; rewrite length_app; cbn; lia].
  split; cbn.
  - apply (inv_bound t Hi).
  - apply Forall_forall. intros j. rewrite length_app, app_assoc, elem_of_app, list_elem_of_singleton. cbn. intros [Hj| ->]; [|lia]. specialize (Hr j Hj). cbn in Hr. lia.
  - apply NoDup_app. split_and!; [apply (inv_stack t Hi)| |apply NoDup_singleton]. intros j Hj ->%list_elem_of_singleton.
    assert (length (heap t) < length (heap t)) by (apply Hr; set_solver). lia.
  - apply heap_snoc_ok; [|apply (inv_heap t Hi)]. split_and!; [done|cbn; lia|]. cbn. unfold current_span_id.
    destruct (last (_stack t)) as [k|] eqn:El; [right|by left]. apply last_elem in El.
    assert (k < length (heap t)) as Hk by (apply Hr; set_solver). destruct (lookup_lt_is_Some_2 _ _ Hk) as [s0 E0].
    exists k, s0. split_and!; [done|done|]. unfold span_of. by rewrite E0.
  - apply (inv_shadow t Hi).
Qed.

Lemma registry_inv r t : trace_inv t → Forall (λ kv, length (shadow_results kv.2) <= 100) r → trace_inv (put_registry r t).
Proof. intros [] Hr. by split. Qed.

Lemma dset_forall {V} (P : V → Prop) k (v : V) (d : list (string * V)) :
  P v → Forall (λ kv, P kv.2) d → Forall (λ kv, P kv.2) (dset k v d).
Proof.
  intros Hv. induction 1 as [|[k' v'] d Hx Hd IH]; [repeat constructor; done|]. rewrite dset_cons. case_decide; by constructor.
Qed.

Lemma dget_forall {V} (P : V → Prop) k (v : V) (d : list (string * V)) : Forall (λ kv, P kv.2) d → dget k d = Some v → P v.
Proof. induction 1 as [|[k' v'] d Hx Hd IH]; [done|]. rewrite dget_cons. case_decide; [by intros [= <-]|done]. Qed.

Lemma trace_step_inv t o t' : trace_inv t → trace_step t o = Some t' → trace_inv t'.
Proof.
  intros Hi. pose proof (inv_shadow t Hi) as Hsh. destruct o; cbn [trace_step].
  - intros [= <-]. by apply start_span_inv.
  - destruct (from_option _ true span) eqn:Eg; [|done]. intros [= <-]. apply end_span_inv; [done|]. destruct span; [by apply Nat.ltb_lt|done].
  - intros [= <-]. unfold add_event. destruct (last (_stack t)) as [i|] eqn:El; [|done]. apply last_elem in El.
    pose proof (inv_refs t Hi) as Hr. rewrite Forall_forall in Hr. assert (i < length (heap t)) as Hlt by (apply Hr; set_solver).
    destruct (lookup_lt_is_Some_2 _ _ Hlt) as [s0 E0]. unfold span_of. rewrite E0. cbn [default]. split; cbn -[kept].
    + apply (inv_bound t Hi).
    + rewrite length_insert. apply (inv_refs t Hi).
    + apply (inv_stack t Hi).
    + apply (heap_insert_ok _ _ _ s0 (λ s, with_events s _)); [done|done|apply kept_bound|apply (inv_heap t Hi)].
    + done.
  - destruct (Nat.ltb_spec span (length (heap t))) as [Hlt|_]; [|done]. intros [= <-].
    destruct (lookup_lt_is_Some_2 _ _ Hlt) as [s0 E0]. unfold update_attributes, span_of. rewrite E0. cbn [default]. split; cbn.
    + apply (inv_bound t Hi).
    + rewrite length_insert. apply (inv_refs t Hi).
    + apply (inv_stack t Hi).
    + apply (heap_insert_ok _ _ _ s0 (λ s, with_attributes s _)); [done|done| |apply (inv_heap t Hi)].
      by destruct (inv_heap t Hi _ _ E0) as (_ & ? & _).
    + done.
  - intros [= <-]. unfold trace_llm_call. pose proof (start_span_inv uid m1 e1 ("llm." +:+ c_provider x) "llm" (llm_attributes (config t) x) t Hi) as [H1 H2]. exact (end_span_inv (Some _) _ _ _ _ _ H1 H2).
  - intros [= <-]. unfold register_prompt. apply registry_inv; [done|]. apply (dset_forall (λ p, length (shadow_results p) <= 100)); [cbn; lia|done].
  - intros [= <-]. unfold record_shadow_result. destruct (dget name _) as [p|]; [|done]. destruct (shadow_mode p); [|done]. apply registry_inv; [done|].
    apply (dset_forall (λ p, length (shadow_results p) <= 100)); [apply kept_bound|done].
  - intros [= <-]. unfold promote_shadow_prompt. destruct (dget name _) as [p|] eqn:Ep; [|done]. destruct (_ || _); [done|]. destruct (Qle_bool _ _); [|done].
    apply registry_inv; [done|]. apply (dset_forall (λ p, length (shadow_results p) <= 100)); [|done].
    apply (dget_forall (λ p, length (shadow_results p) <= 100) name _ _ Hsh Ep).
Qed.

Lemma insert_attrs (h : list TraceSpan) i s f :
  (∀ s, attributes (f s) = attributes s) → default empty_span (h !! i) = s → map attributes (<[i := f s]> h) = map attributes h.
Proof.
  intros Hf Hs. rewrite list_fmap_insert. apply list_insert_id'. intros Hl. rewrite length_fmap in Hl.
  destruct (lookup_lt_is_Some_2 _ _ Hl) as [s0 E]. rewrite list_lookup_fmap, E. rewrite E in Hs. cbn in Hs. subst. cbn. by rewrite Hf.
Qed.

Lemma end_span_attrs span mono epoch st err t :
  map attributes (heap (end_span span mono epoch st err t).2) = map attributes (heap t) ∧ config (end_span span mono epoch st err t).2 = config t.
Proof.
  unfold end_span. destruct (last (_stack t)) as [top|]; [|done]. cbn [snd].
  assert (∀ t' d, heap (if nonempty (export_endpoint (config t')) then put_exported d t' else t') = heap t'
    ∧ config (if nonempty (export_endpoint (config t')) then put_exported d t' else t') = config t') as Hx by (intros; by destruct (nonempty _)).
  rewrite !(proj1 (Hx _ _)), !(proj2 (Hx _ _)). split; [|done]. cbn. by apply insert_attrs.
Qed.

Lemma trace_step_attrs t o t' :
  trace_step t o = Some t' → map attributes (heap t') = attrs_step (config t) (map attributes (heap t)) o ∧ config t' = config t.
Proof.
  destruct o; cbn [trace_step attrs_step].
  - intros [= <-]. cbn. by rewrite fmap_app.
  - destruct (from_option _ true span); [|done]. intros [= <-]. apply end_span_attrs.
  - intros [= <-]. unfold add_event. destruct (last (_stack t)); [|done]. cbn -[kept]. split; [by apply (insert_attrs _ _ _ (λ s, with_events s _))|done].
  - destruct (Nat.ltb_spec span (length (heap t))) as [Hlt|_]; [|done]. intros [= <-]. split; [|done]. unfold update_attributes, span_of.
    destruct (lookup_lt_is_Some_2 _ _ Hlt) as [s0 E0]. rewrite E0. cbn. rewrite list_fmap_insert. cbn [attributes with_attributes].
    apply list_eq. intros j. destruct (decide (j = span)) as [->|Hne].
    + rewrite list_lookup_insert_eq, list_lookup_alter_eq, list_lookup_fmap, E0 by (by rewrite length_fmap). done.
    + by rewrite list_lookup_insert_ne, list_lookup_alter_ne.
  - intros [= <-]. unfold trace_llm_call, start_span. cbn [snd].
    rewrite !(proj1 (end_span_attrs _ _ _ _ _ _)), !(proj2 (end_span_attrs _ _ _ _ _ _)). cbn. by rewrite fmap_app.
  - by intros [= <-].
  - intros [= <-]. unfold record_shadow_result. destruct (dget name _) as [p|]; [|done]. by destruct (shadow_mode p).
  - intros [= <-]. unfold promote_shadow_prompt. destruct (dget name _) as [p|]; [|done]. destruct (_ || _); [done|]. by destruct (Qle_bool _ _).
Qed.

Lemma trace_run_attrs ops t t' :
  exec trace_step t ops = Some t' →
  map attributes (heap t') = foldl (attrs_step (config t)) (map attributes (heap t)) ops ∧ config t' = config t.
Proof.
  revert t. induction ops as [|o ops IH]; intros t; cbn; [by intros [= <-]|].
  destruct (trace_step t o) as [t1|] eqn:E; [|done]. intros H. apply IH in H as [H1 H2]. apply trace_step_attrs in E as [Ea Ec].
  rewrite H1, H2, Ea, Ec. done.
Qed.

Lemma attrs_grow c h o : length h ≤ length (attrs_step c h o).
Proof. destruct o; cbn; rewrite ?length_app, ?length_alter; lia. Qed.

(** A span keeps the attributes it was created with as long as nobody updates it. *)
Lemma attrs_kept c ops h i d :
  h !! i = Some d → (∀ u, Update i u ∉ ops) → foldl (attrs_step c) h ops !! i = Some d.
Proof.
  revert h. induction ops as [|o ops IH]; intros h Hi Hno; [done|]. cbn. apply IH; [|intros u Hu; apply (Hno u); by right].
  destruct o; cbn; try done; try (by apply lookup_app_l_Some).
  rewrite list_lookup_alter_ne; [done|]. intros ->. apply (Hno attrs). by left.
Qed.

(** What a call leaves in its span: redacted, then cut off. *)
Definition redacted_prefix (raw : string) (n : nat) (j : json) : Prop := ∃ red, redacted raw red ∧ j = JStr (String.substring 0 n red).

Lemma llm_attributes_redacted c x :
  (dget "llm.prompt" (llm_attributes c x) = None ∧ trace_prompts c = false
    ∨ ∃ j, dget "llm.prompt" (llm_attributes c x) = Some j ∧ redacted_prefix (dumps (c_messages x)) (max_prompt_length c) j)
  ∧ (dget "llm.response" (llm_attributes c x) = None ∧ (trace_responses c = false ∨ c_error x ≠ "")
    ∨ ∃ j, dget "llm.response" (llm_attributes c x) = Some j ∧ redacted_prefix (c_response x) (max_response_length c) j).
Proof.
  assert (∀ raw n, redacted_prefix raw n (JStr (String.substring 0 n (redact_text raw)))) as Hred.
  { intros raw n. eexists. split; [apply redact_redacted|done]. }
  assert (negb (nonempty (c_error x)) = false → c_error x ≠ "") as He by (intros Hx E; rewrite E in Hx; done).
  unfold llm_attributes. destruct (trace_prompts c), (trace_responses c), (negb (nonempty (c_error x))) eqn:En, (c_input x), (c_output x);
    split; first [left; split; [reflexivity|by auto]|right; eexists; split; [reflexivity|apply Hred]].
Qed.

(** C33: Nothing raw in the trace.  In any run of the tracer the attributes of the spans are
    those given to [start_span] and the ones [trace_llm_call] builds, with the updates by
    the holders of the spans.  In the span of a traced call that nobody updates, the prompt
    and the response are prefixes of the texts as the redactor leaves them.  If its bound is
    positive the history keeps to it; spans name an earlier span as their parent or none,
    no span is open twice, events and shadow results are bounded. *)
Theorem traces_are_redacted c tid ops t :
  exec trace_step (tracer_init c tid) ops = Some t →
  trace_inv t ∧ map attributes (heap t) = attrs_after c ops
  ∧ ∀ before x uid m1 m2 e1 e2 later, ops = before ++ Llm x uid m1 m2 e1 e2 :: later →
      let i := length (attrs_after c before) in
      (∀ u, Update i u ∉ later) →
      ∃ s, heap t !! i = Some s ∧ attributes s = llm_attributes c x
        ∧ (∀ j, dget "llm.prompt" (attributes s) = Some j → redacted_prefix (dumps (c_messages x)) (max_prompt_length c) j)
        ∧ (∀ j, dget "llm.response" (attributes s) = Some j → redacted_prefix (c_response x) (max_response_length c) j).
Proof.
  intros H. destruct (trace_run_attrs _ _ _ H) as [Ha _]. cbn [heap tracer_init config map] in Ha. fold (attrs_after c ops) in Ha. split_and!.
  - eapply (exec_invariant trace_step trace_inv (λ _, True)); [intros; by eapply trace_step_inv|by apply Forall_true| |exact H].
    split; cbn; [lia|constructor|constructor|done|constructor].
  - done.
  - intros before x uid m1 m2 e1 e2 later -> i Hno.
    assert (map attributes (heap t) !! i = Some (llm_attributes c x)) as Hi.
    { rewrite Ha. unfold attrs_after. rewrite foldl_app. cbn [foldl attrs_step]. apply attrs_kept; [|done]. by apply list_lookup_middle. }
    apply list_lookup_fmap_Some in Hi as (s & E & Hs). exists s. split_and!; [done|done|..]; intros j; rewrite <- E;
      destruct (llm_attributes_redacted c x) as [[[E1 _]|(j1 & E1 & Hj)] [[E2 _]|(j2 & E2 & Hj')]]; rewrite ?E1, ?E2; try done; by intros [= <-].
Qed.
End tracer.

(** ** A concrete tracer *)
Definition demo_config : TraceConfig := mkConfig true true 2000 2000 2 "".
Definition demo_dumps (l : list (list (string * string))) : string := String.concat " " (map snd (concat l)).
Definition demo_repr (_ : json) : string := "?".
Definition demo_call : llm_call := mkCall "openai" "gpt" [[("content", "mail bob@example.org")]] "call +49 123456789" 7 (3 # 2) "" (Some 5%Z) None.
Definition demo_ops : list trace_op :=
  [Start "a" 0 1 "think" "internal" []; Llm demo_call "b" 1 2 3 4; Event "e" 2 []; Update 0 [("quality", JStr "good")]; End_ (Some 0) 3 5 "ok" ""; Llm demo_call "c" 4 5 6 7].
Definition run_demo (ops : list trace_op) : option Tracer := exec (trace_step demo_repr demo_dumps) (tracer_init demo_config "trace") ops.

Lemma demo_ids :
  match exec (trace_step demo_repr demo_dumps) (tracer_init demo_config "trace") demo_ops with
  | Some t => (_spans t, _stack t, map parent_id (heap t)) = ([0; 2], [], [""; "a"; ""])
  | None => False
  end.
Proof. vm_compute. reflexivity. Qed.

Lemma demo_attributes :
  map (dget "llm.prompt") (attrs_after demo_dumps demo_config demo_ops) = [None; Some (JStr "mail [REDACTED-EMAIL]"); Some (JStr "mail [REDACTED-EMAIL]")].
Proof. vm_compute. reflexivity. Qed.

Lemma traces_are_redacted_witness :
  match exec (trace_step demo_repr demo_dumps) (tracer_init demo_config "trace") demo_ops with
  | Some t => trace_inv t ∧ (_spans t, _stack t, map parent_id (heap t)) = ([0; 2], [], [""; "a"; ""])
      ∧ map (dget "llm.prompt") (map attributes (heap t)) = [None; Some (JStr "mail [REDACTED-EMAIL]"); Some (JStr "mail [REDACTED-EMAIL]")]
  | None => False
  end.
Proof.
  pose proof demo_ids as Hd. pose proof (traces_are_redacted demo_repr demo_dumps demo_config "trace" demo_ops) as H.
  destruct (exec _ _ _) as [t|]; [|exact Hd]. destruct (H t eq_refl) as (Hi & Ha & _).
  split; [exact Hi|]. split; [exact Hd|]. rewrite Ha. exact demo_attributes.
Defined.

(** Redaction works on the JSON text, where quotation marks are escaped: a quoted password
    in a prompt stays. *)
Example quoted_password_stays :
  let q := String "092" (String "034" "") in
  redact_text ("password=" +:+ q +:+ "hunter22" +:+ q) = "password=" +:+ q +:+ "hunter22" +:+ q
  ∧ redact_text ("password=" +:+ String "034" "hunter22" +:+ String "034" "") = "password=[REDACTED-PASSWORD]".
Proof. vm_compute. split; reflexivity. Qed.

(** Any average of a twentieth promotes a prompt. *)
Example poor_scores_promote :
  match run_demo (Register "p" "new" "2" true :: repeat (Shadow "p" (1 # 20) [] 0) 5 ++ [Promote "p" (1 # 20)]) with
  | Some t => (shadow_mode <$> get_prompt_version "p" t) = Some false
  | None => False
  end.
Proof. by vm_compute. Qed.

(** A span that is never ended stays open, and is the parent of whatever comes. *)
Example unfinished_span_adopts :
  match run_demo (Start "lost" 0 1 "think" "internal" [] :: repeat (Llm demo_call "b" 1 2 3 4) 3) with
  | Some t => _stack t = [0] ∧ map parent_id (heap t) = [""; "lost"; "lost"; "lost"]
  | None => False
  end.
Proof. vm_compute. split; reflexivity. Qed.

(** A bound of zero is no bound. *)
Example zero_keeps_everything : bound_spans (mkConfig true true 0 0 0 "") [1; 2; 3] = [1; 2; 3].
Proof. reflexivity. Qed.
