(* ===== verification/KnowledgeGraph.v ===== *)
(** * The graph of technologies ([noema/knowledge/graph.py])

    Built over the interface [DiGraph] of networkx; the attributes of nodes are a dictionary
    beside it.  [nx.shortest_path] is a parameter with its documented behaviour: a path with
    the fewest edges, or an exception if there is none. *)
From Stdlib Require Import ZArith QArith Lia Bool Ascii String.
From stdpp Require Import base option numbers sets strings sorting list.
From S2P Require Import Prelude DiGraph.
Local Open Scope string_scope.
Local Open Scope list_scope.
Local Open Scope nat_scope.

Definition attrs : Type := list (string * string).

Definition typed (type : string) (l : list (string * string)) : list (string * attrs) :=
  map (λ '(n, c), (n, [("type", type); ("category", c)])) l.

(** ** The data *)
Definition techs : list (string * attrs) := typed "language" [
  ("python", "backend"); ("typescript", "fullstack"); ("go", "backend"); ("rust", "systems"); ("java", "enterprise"); ("kotlin", "backend");
  ("dart", "mobile"); ("c++", "systems"); ("c#", "game"); ("scala", "data"); ("swift", "mobile")].

Definition frameworks : list (string * attrs) := typed "framework" [
  ("fastapi", "api"); ("django", "web"); ("flask", "web"); ("express", "api"); ("nextjs", "frontend"); ("react", "frontend"); ("vue", "frontend");
  ("svelte", "frontend"); ("gin", "api"); ("chi", "api"); ("axum", "api"); ("actix", "api"); ("spring-boot", "enterprise"); ("flutter", "mobile");
  ("django-rest", "api"); ("pytorch", "ml"); ("tensorflow", "ml")].

Definition databases : list (string * attrs) := typed "database" [
  ("postgresql", "relational"); ("mysql", "relational"); ("sqlite", "embedded"); ("mongodb", "document"); ("redis", "cache");
  ("elasticsearch", "search"); ("cassandra", "wide-column"); ("neo4j", "graph"); ("dynamodb", "key-value"); ("clickhouse", "analytics");
  ("influxdb", "time-series")].

Definition infra : list (string * attrs) := typed "infrastructure" [
  ("docker", "containerization"); ("kubernetes", "orchestration"); ("terraform", "iac"); ("github-actions", "ci-cd"); ("gitlab-ci", "ci-cd");
  ("prometheus", "monitoring"); ("grafana", "monitoring"); ("kafka", "messaging"); ("rabbitmq", "messaging"); ("nginx", "proxy"); ("envoy", "proxy")].

Definition problems : list (string * attrs) := typed "problem" [
  ("high-load", "scalability"); ("real-time", "latency"); ("data-intensive", "throughput"); ("security-critical", "security"); ("ml-inference", "ml-serving")].

Definition lang_fw : list (string * string) := [
  ("python", "fastapi"); ("python", "django"); ("python", "flask"); ("python", "django-rest"); ("python", "pytorch"); ("python", "tensorflow");
  ("typescript", "express"); ("typescript", "nextjs"); ("typescript", "react"); ("go", "gin"); ("go", "chi"); ("rust", "axum"); ("rust", "actix");
  ("java", "spring-boot"); ("dart", "flutter"); ("kotlin", "spring-boot")].

Definition fw_db : list (string * string) := [
  ("fastapi", "postgresql"); ("fastapi", "redis"); ("fastapi", "mongodb"); ("django", "postgresql"); ("django", "sqlite"); ("django", "redis");
  ("express", "mongodb"); ("express", "postgresql"); ("express", "redis"); ("spring-boot", "postgresql"); ("spring-boot", "mysql");
  ("spring-boot", "redis"); ("axum", "postgresql"); ("axum", "redis")].

Definition db_infra : list (string * string) := [
  ("redis", "kubernetes"); ("postgresql", "kubernetes"); ("kafka", "kubernetes"); ("elasticsearch", "kubernetes")].

Definition fw_infra : list (string * string) := [
  ("fastapi", "docker"); ("fastapi", "kubernetes"); ("nextjs", "docker"); ("express", "docker"); ("gin", "docker"); ("axum", "docker")].

Definition problem_solutions : list (string * string * string) := [
  ("high-load", "kafka", "event-driven decoupling"); ("high-load", "redis", "caching layer"); ("high-load", "kubernetes", "horizontal scaling");
  ("real-time", "redis", "pub/sub"); ("real-time", "kafka", "streaming"); ("data-intensive", "clickhouse", "analytics engine");
  ("data-intensive", "cassandra", "distributed storage"); ("security-critical", "postgresql", "ACID compliance");
  ("ml-inference", "pytorch", "model serving"); ("ml-inference", "redis", "feature store cache")].

(** ** The graph *)
Section graph.
Context `{DiGraph attrs G}.

Record KnowledgeGraph := mkGraph { graph : G; node_data : list (string * attrs) }.

Definition add_node (k : KnowledgeGraph) (n : string * attrs) : KnowledgeGraph :=
  mkGraph (nx_add_node n.1 (graph k)) (dset n.1 n.2 (node_data k)).
Definition add_edge (k : KnowledgeGraph) (e : string * string * attrs) : KnowledgeGraph :=
  mkGraph (nx_add_edge e.1.1 e.1.2 e.2 (graph k)) (node_data k).

Definition related_by (rel : string) (l : list (string * string)) : list (string * string * attrs) := map (λ e, (e, [("relationship", rel)])) l.

Definition _build_default_graph : KnowledgeGraph :=
  let k := foldl add_node (mkGraph nx_empty []) (techs ++ frameworks ++ databases ++ infra) in
  let k := foldl add_edge k (related_by "supports" lang_fw) in
  let k := foldl add_edge k (related_by "integrates_with" fw_db) in
  let k := foldl add_edge k (related_by "deploys_on" db_infra) in
  let k := foldl add_edge k (related_by "containerized_by" fw_infra) in
  let k := foldl add_node k problems in
  foldl add_edge k (map (λ '(p, s, w), (p, s, [("solution", w)])) problem_solutions).

Definition node_type (k : KnowledgeGraph) (n : string) : option string := dget n (node_data k) ≫= dget "type".
Definition has_node (k : KnowledgeGraph) (n : string) : bool := bool_decide (n ∈ nx_nodes (graph k)).

Definition is_target (k : KnowledgeGraph) (n : string) : bool :=
  match node_type k n with Some t => String.eqb t "framework" || String.eqb t "database" | None => false end.

Context (shortest_path : G → string → string → option (list string)).

(** [if path]: a path is never empty. *)
Definition target_path (k : KnowledgeGraph) (max_depth : Z) (req target : string) : option (list string) :=
  if is_target k target then
    match shortest_path (graph k) req target with
    | Some p => if bool_decide (p ≠ []) && (Z.of_nat (length p) <=? max_depth + 1)%Z then Some p else None
    | None => None
    end
  else None.

Definition paths_of (k : KnowledgeGraph) (max_depth : Z) (req : string) : list (list string) :=
  if has_node k (lower req) then omap (target_path k max_depth (lower req)) (nx_nodes (graph k)) else [].

Definition shorter (p q : list string) : bool := (length p <? length q)%nat.

Definition find_optimal_stack (k : KnowledgeGraph) (requirements : list string) (max_depth : Z) : list (list string) :=
  take 5 (stable_sort shorter (concat (map (paths_of k max_depth) requirements))).

(** [self.graph.out_edges(node, data=True)] *)
Definition out_edges (k : KnowledgeGraph) (n : string) : list (string * attrs) :=
  omap (λ v, (v,.) <$> get_edge_data (graph k) n v) (default [] (successors (graph k) n)).

Definition file_edge (r : list (string * list string)) (e : string * attrs) : list (string * list string) :=
  let rel := default "related" (dget "relationship" e.2) in
  let key := if dmem rel r then rel else "related" in
  dset key (default [] (dget key r) ++ [e.1]) r.

Definition get_compatible_technologies (k : KnowledgeGraph) (tech : string) : list (string * list string) :=
  if has_node k (lower tech)
  then foldl file_edge [("supports", []); ("integrates_with", []); ("containerized_by", [])] (out_edges k (lower tech))
  else [].

Record component := mkComponent { c_from : string; c_to : string; c_relationship : string; c_confidence : Q }.
Record suggestion := mkSuggestion { input_techs : list string; components : list component; clusters : list (string * list string); total_suggestions : nat }.

Definition components_of (k : KnowledgeGraph) (n : string) : list component :=
  concat (map (λ '(category, l), map (λ t, mkComponent n t category (7 # 10)) (take 3 l)) (get_compatible_technologies k n)).

Definition suggest_architecture (k : KnowledgeGraph) (tags : list string) : suggestion :=
  let nodes := filter (λ t, has_node k t = true) (map lower tags) in
  let cs := concat (map (components_of k) nodes) in
  let by_type := foldl (λ d n, let t := default "unknown" (node_type k n) in dset t (default [] (dget t d) ++ [n]) d) [] nodes in
  mkSuggestion nodes cs by_type (length cs).

(** [nx.density]: edges by the number of ordered pairs. *)
Definition density (n m : nat) : Q := if (m =? 0)%nat || (n <=? 1)%nat then 0 else (inject_Z (Z.of_nat m) / inject_Z (Z.of_nat (n * (n - 1))))%Q.

Definition get_stats (k : KnowledgeGraph) : nat * nat * list (string * nat) * Q :=
  let ns := nx_nodes (graph k) in
  let types := foldl (λ d n, let t := default "unknown" (node_type k n) in dset t (S (default 0 (dget t d))) d) [] ns in
  (length ns, length (nx_edges (graph k)), types, density (length ns) (length (nx_edges (graph k)))).

(** ** What the queries return *)
Inductive walk (g : G) : string → list string → string → Prop :=
| walk_one s : s ∈ nx_nodes g → walk g s [s] s
| walk_cons s v p t : edge g s v → walk g v p t → walk g s (s :: p) t.

Definition shortest (g : G) (s : string) (p : list string) (t : string) : Prop := walk g s p t ∧ ∀ q, walk g s q t → length p <= length q.

Lemma walk_nonempty g s p t : walk g s p t → p ≠ [].
Proof. by destruct 1. Qed.

Context (g0 : KnowledgeGraph).
Hypothesis shortest_path_spec : ∀ s t,
  match shortest_path (graph g0) s t with Some p => shortest (graph g0) s p t | None => ∀ p, ¬ walk (graph g0) s p t end.

(** A candidate is a shortest way from a requirement to a framework or database, short
    enough. *)
Definition candidate (reqs : list string) (max_depth : Z) (p : list string) : Prop :=
  ∃ req t, req ∈ reqs ∧ is_target g0 t = true ∧ shortest (graph g0) (lower req) p t ∧ (Z.of_nat (length p) <= max_depth + 1)%Z.

Lemma walk_ends g s p t : DiGraphLaws attrs G → walk g s p t → s ∈ nx_nodes g ∧ t ∈ nx_nodes g.
Proof. intros HL. induction 1 as [s Hs|s v p t He Hw IH]; [done|]. split; [by apply (edge_nodes _ _ _ He)|apply IH]. Qed.

Lemma paths_of_spec `{!DiGraphLaws attrs G} max_depth req p :
  p ∈ paths_of g0 max_depth req → candidate [req] max_depth p.
Proof using shortest_path_spec.
  unfold paths_of. destruct (has_node g0 (lower req)) eqn:En; [|set_solver]. intros (t & Ht & E)%list_elem_of_omap.
  unfold target_path in E. destruct (is_target g0 t) eqn:Et; [|done]. pose proof (shortest_path_spec (lower req) t) as Hs.
  destruct (shortest_path _ _ _) as [q|]; [|done]. destruct (bool_decide _ && _) eqn:Eb; [|done]. injection E as ->.
  apply andb_true_iff in Eb as [_ Hl%Z.leb_le]. exists req, t. split_and!; [set_solver|done|done|done].
Qed.

Lemma paths_of_complete `{!DiGraphLaws attrs G} max_depth req t q :
  is_target g0 t = true → walk (graph g0) (lower req) q t → (Z.of_nat (length q) <= max_depth + 1)%Z →
  ∃ p, p ∈ paths_of g0 max_depth req ∧ shortest (graph g0) (lower req) p t.
Proof using shortest_path_spec.
  intros Ht Hw Hl. pose proof (shortest_path_spec (lower req) t) as Hs.
  destruct (shortest_path (graph g0) (lower req) t) as [p|] eqn:Ep; [|by destruct (Hs q)].
  exists p. split; [|done]. destruct (walk_ends _ _ _ _ _ Hw) as [Hn Hnt]. unfold paths_of, has_node. rewrite bool_decide_true by done.
  apply list_elem_of_omap. exists t. split; [done|]. unfold target_path. rewrite Ht, Ep. destruct Hs as [Hp Hmin]. specialize (Hmin q Hw).
  rewrite bool_decide_true by (by eapply walk_nonempty). cbn [andb]. rewrite (proj2 (Z.leb_le _ _)) by lia. done.
Qed.

Lemma shorter_sorted l : StronglySorted (λ p q, length p <= length q) (stable_sort shorter l).
Proof using.
  assert (∀ l, StronglySorted (λ p q, shorter q p = false) l → StronglySorted (λ p q, length p <= length q) l) as Himpl.
  { intros k. induction 1 as [|p k Hk IH Hp]; constructor; [done|]. apply (Forall_impl _ _ _ Hp). intros q. unfold shorter. by rewrite Nat.ltb_ge. }
  apply Himpl, stable_sort_sorted; unfold shorter.
  - intros p q. rewrite Nat.ltb_lt, Nat.ltb_ge. lia.
  - intros p q r. rewrite !Nat.ltb_ge. lia.
Qed.

(** At most five candidates come back, the shortest first; none that was left out is shorter
    than one that is there, and with fewer than five each technology within reach of a
    requirement is the end of one of them. *)
Theorem optimal_stack_exact `{!DiGraphLaws attrs G} reqs max_depth :
  let r := find_optimal_stack g0 reqs max_depth in
  length r <= 5 ∧ Forall (candidate reqs max_depth) r ∧ StronglySorted (λ p q, length p <= length q) r
  ∧ (length r < 5 → ∀ req t q, req ∈ reqs → is_target g0 t = true → walk (graph g0) (lower req) q t → (Z.of_nat (length q) <= max_depth + 1)%Z →
      ∃ p, p ∈ r ∧ shortest (graph g0) (lower req) p t).
Proof using shortest_path_spec.
  cbn zeta. unfold find_optimal_stack. set (all := concat (map (paths_of g0 max_depth) reqs)).
  assert (stable_sort shorter all ≡ₚ all) as Hp by apply stable_sort_perm.
  pose proof (shorter_sorted all) as Hs.
  split_and!.
  - rewrite length_take. lia.
  - apply Forall_take, Forall_forall. intros p. rewrite Hp. unfold all. intros (req & Hreq & Hin)%elem_of_concat_map.
    destruct (paths_of_spec _ _ _ Hin) as (req' & t & ->%list_elem_of_singleton & H1). by exists req, t.
  - rewrite <- (take_drop 5 (stable_sort shorter all)) in Hs. by eapply StronglySorted_app_1_l.
  - intros Hl req t q Hreq Ht Hw Hq. destruct (paths_of_complete max_depth req t q Ht Hw Hq) as (p & Hin & Hsh). exists p. split; [|done].
    rewrite length_take in Hl. rewrite take_ge by lia. rewrite Hp. apply elem_of_concat_map. eauto.
Qed.
(** Every technology a node points to is filed exactly once. *)
Lemma concat_push k x (d : list (string * list string)) :
  concat (map snd (dset k (default [] (dget k d) ++ [x]) d)) ≡ₚ concat (map snd d) ++ [x].
Proof using.
  induction d as [|[k' l] d IH]; [done|]. rewrite dset_cons, dget_cons. destruct (decide (k = k')) as [->|Hk]; cbn.
  - rewrite <- !app_assoc. apply Permutation_app_head, Permutation_app_comm.
  - by rewrite IH, app_assoc.
Qed.

Lemma compatible_complete k tech :
  has_node k (lower tech) = true → concat (map snd (get_compatible_technologies k tech)) ≡ₚ map fst (out_edges k (lower tech)).
Proof using.
  unfold get_compatible_technologies. intros ->.
  assert (∀ l d, concat (map snd (foldl file_edge d l)) ≡ₚ concat (map snd d) ++ map fst l) as Hall; [|apply Hall].
  induction l as [|e l IH]; intros d; cbn [foldl map]; [by rewrite app_nil_r|].
  rewrite IH. unfold file_edge. rewrite concat_push, <- app_assoc. done.
Qed.
End graph.

(** ** A search that behaves as documented

    Iterative deepening, enough for graphs without long walks. *)
Section deepening.
Context `{DiGraphLaws attrs G} (g : G).

Definition nexts (s : string) : list string := default [] (successors g s).

Lemma elem_of_nexts s v : v ∈ nexts s ↔ edge g s v.
Proof.
  unfold nexts. destruct (successors_spec g s) as [Hout Hin]. destruct (decide (s ∈ nx_nodes g)) as [Hs|Hs].
  - destruct (Hin Hs) as (l & -> & _ & Hl). cbn. by rewrite Hl.
  - rewrite (Hout Hs). cbn. split; [set_solver|]. intros He. destruct Hs. by apply (edge_nodes g s v).
Qed.

Fixpoint walk_of (n : nat) (s t : string) : option (list string) :=
  match n with
  | O => if bool_decide (s = t ∧ s ∈ nx_nodes g) then Some [s] else None
  | S n => head (omap (λ v, cons s <$> walk_of n v t) (nexts s))
  end.

Lemma walk_of_some n s t p : walk_of n s t = Some p → walk g s p t ∧ length p = S n.
Proof.
  revert s p. induction n as [|n IH]; intros s p; cbn [walk_of].
  - case_bool_decide as Hs; [|done]. intros [= <-]. destruct Hs as [-> Hs]. by split; [constructor|].
  - destruct (omap _ _) as [|q l] eqn:E; [done|]. intros [= ->].
    assert (p ∈ omap (λ v, cons s <$> walk_of n v t) (nexts s)) as Hp by (rewrite E; set_solver).
    apply list_elem_of_omap in Hp as (v & Hv%elem_of_nexts & Ev). destruct (walk_of n v t) as [q|] eqn:Eq; [|done]. injection Ev as <-.
    apply IH in Eq as [Hw Hl]. split; [by eapply walk_cons|cbn; lia].
Qed.

Lemma walk_of_none n s t p : walk_of n s t = None → walk g s p t → length p ≠ S n.
Proof.
  revert s p. induction n as [|n IH]; intros s p; cbn [walk_of].
  - case_bool_decide as Hs; [done|]. intros _. destruct 1 as [s Hn|s v p t He Hw]; [naive_solver|]. destruct Hw; cbn; lia.
  - destruct (omap _ _) as [|q l] eqn:E; [|done]. intros _ Hw Hl. destruct Hw as [s Hn|s v p t He Hw]; [done|]. cbn in Hl.
    destruct (walk_of n v t) as [q|] eqn:Eq; [|by apply (IH v p Eq Hw); lia].
    assert (s :: q ∈ omap (λ v, cons s <$> walk_of n v t) (nexts s)) as Hq.
    { apply list_elem_of_omap. exists v. rewrite Eq. split; [by apply elem_of_nexts|done]. }
    rewrite E in Hq. set_solver.
Qed.

Definition deepen (bound : nat) (s t : string) : option (list string) := head (omap (λ n, walk_of n s t) (seq 0 bound)).

Fixpoint has_walk (n : nat) (s : string) : bool := match n with O => true | S n => existsb (has_walk n) (nexts s) end.

Lemma has_walk_long n : ∀ s p t, walk g s p t → n < length p → has_walk n s = true.
Proof.
  induction n as [|n IH]; intros s p t Hw Hl; [done|]. cbn [has_walk]. destruct Hw as [s Hn|s v p t He Hw]; cbn in Hl; [lia|].
  apply existsb_exists. exists v. rewrite <- list_elem_of_In. split; [by apply elem_of_nexts|]. apply (IH v p t Hw). lia.
Qed.

Lemma head_seq_least (f : nat → option (list string)) b n p :
  head (omap f (seq n b)) = Some p → ∃ k, n <= k ∧ f k = Some p ∧ ∀ j, n <= j < k → f j = None.
Proof.
  revert n. induction b as [|b IH]; intros n; cbn; [done|]. destruct (f n) as [q|] eqn:E; cbn.
  - intros [= ->]. exists n. split_and!; [lia|done|lia].
  - intros (k & Hk & Ek & Hj)%IH. exists k. split_and!; [lia|done|]. intros j Hr. destruct (decide (j = n)) as [->|]; [done|]. apply Hj. lia.
Qed.

Lemma deepen_spec bound :
  forallb (λ s, negb (has_walk bound s)) (nx_nodes g) = true →
  ∀ s t, match deepen bound s t with Some p => shortest g s p t | None => ∀ p, ¬ walk g s p t end.
Proof.
  intros Hb s t. rewrite forallb_forall in Hb. unfold deepen. destruct (head _) as [p|] eqn:E.
  - apply head_seq_least in E as (k & _ & Ek & Hj). apply walk_of_some in Ek as [Hw Hl]. split; [done|]. intros q Hq.
    destruct (decide (length p <= length q)) as [|Hn]; [done|]. exfalso.
    assert (length q = S (length q - 1)) as Eq by (destruct Hq; cbn; lia). eapply walk_of_none; [apply (Hj (length q - 1)); lia|exact Hq|done].
  - intros p Hw. assert (length p <= bound) as Hl.
    { destruct (decide (length p <= bound)) as [|Hn]; [done|]. destruct (walk_ends g s p t) as [Hs _]; [apply _|done|].
      specialize (Hb s). rewrite <- list_elem_of_In in Hb. apply Hb in Hs. rewrite (has_walk_long bound s p t Hw) in Hs by lia. done. }
    assert (length p = S (length p - 1)) as Eq by (destruct Hw; cbn; lia).
    destruct (walk_of (length p - 1) s t) as [q|] eqn:Ew; [|by eapply walk_of_none].
    assert (q ∈ omap (λ n, walk_of n s t) (seq 0 bound)) as Hq.
    { apply list_elem_of_omap. exists (length p - 1). split; [apply elem_of_seq; lia|done]. }
    destruct (omap _ _); [set_solver|done].
Qed.
End deepening.

Definition default_kg : KnowledgeGraph (G := dgraph attrs) := Eval vm_compute in _build_default_graph.

Example default_sizes : (get_stats default_kg).1.1 = (55, 50).
Proof. vm_compute. reflexivity. Qed.

(** A part of it. *)
Definition small_kg : KnowledgeGraph (G := dgraph attrs) :=
  foldl add_edge (foldl add_node (mkGraph nx_empty []) (typed "language" [("rust", "systems")] ++ typed "framework" [("axum", "api"); ("actix", "api")]
    ++ typed "database" [("redis", "cache")])) (related_by "supports" [("rust", "axum"); ("rust", "actix")] ++ related_by "integrates_with" [("axum", "redis")]).

Lemma optimal_stack_exact_witness :
  let r := find_optimal_stack (λ g, deepen g 4) small_kg ["Rust"; "unknown"] 2 in
  r = [["rust"; "axum"]; ["rust"; "actix"]; ["rust"; "axum"; "redis"]] ∧ Forall (candidate small_kg ["Rust"; "unknown"] 2) r.
Proof.
  split; [by vm_compute|]. apply (optimal_stack_exact (λ g, deepen g 4) small_kg).
  - apply deepen_spec. by vm_compute.
  - apply _.
Defined.
