(* ===== verification/KnowledgeData.v ===== *)
(** * The built-in knowledge ([noema/knowledge/store.py], [noema/knowledge/domains.py])

    The data the knowledge store starts with, and the records it is made of
    ([KnowledgeEntry] and [Pattern] of [noema/core/types.py]).  The built-in records are
    made when the module is imported, each with a new identifier and the time: these are
    given by a [startup], one per process.  Dashes beyond Latin-1 are written as their UTF-8
    bytes. *)
From Stdlib Require Import ZArith QArith Bool Ascii String.
From stdpp Require Import base strings list.
From S2P Require Import Prelude.
Local Open Scope string_scope.
Local Open Scope list_scope.

(** [created_at] as the text that [model_dump] gives. *)
Record KnowledgeEntry := mkKnowledgeEntry {
  k_id : string; category : string; k_title : string; content : string; k_tags : list string; embeddings : list Q; weight : Q; k_source : string;
  created_at : string;
}.

Record Pattern := mkPatternRecord {
  p_id : string; p_name : string; p_category : string; p_description : string; template_ : json; applicable_stacks : list string; success_rate : Q;
  usage_count : Z;
}.

(** Records that have not been given an identifier and a time, and those given them. *)
Definition mkKnowledge (category title content : string) (tags : list string) (emb : list Q) (w : Q) (source : string) : KnowledgeEntry :=
  mkKnowledgeEntry "" category title content tags emb w source "".
Definition mkPattern (name category description : string) (t : json) (stacks : list string) (rate : Q) (count : Z) : Pattern :=
  mkPatternRecord "" name category description t stacks rate count.
Definition stamp_entry (id time : string) (e : KnowledgeEntry) : KnowledgeEntry :=
  mkKnowledgeEntry id (category e) (k_title e) (content e) (k_tags e) (embeddings e) (weight e) (k_source e) time.
Definition stamp_pattern (id : string) (p : Pattern) : Pattern :=
  mkPatternRecord id (p_name p) (p_category p) (p_description p) (template_ p) (applicable_stacks p) (success_rate p) (usage_count p).

(** What [uuid4] and the clock gave when the module was imported. *)
Record startup := mkStartup { entry_ids : nat → string; entry_times : nat → string; pattern_ids : nat → string }.

(** Adjacent literals. *)
Definition text (l : list string) : string := String.concat "" l.

Definition builtin_patterns : list Pattern := [
  mkPattern "api-gateway-microservices" "architecture" "API Gateway pattern for microservices"
    (JObj [("gateway", JObj [("type", JStr "nginx/envoy"); ("routing", JStr "path-based")]);
      ("services", JObj [("discovery", JStr "consul"); ("communication", JStr "gRPC")])])
    ["python"; "go"; "java"] (17 # 20) 0;
  mkPattern "event-sourcing-cqrs" "architecture" "CQRS + Event Sourcing for event-driven systems"
    (JObj [("write_model", JStr "event_store");
      ("read_model", JStr "projections");
      ("event_bus", JStr "kafka/rabbitmq")])
    ["python"; "java"; "go"; "rust"] (4 # 5) 0;
  mkPattern "ml-pipeline-mlops" "ml" "ML Pipeline with MLOps practices"
    (JObj [("data", JStr "feature_store");
      ("training", JStr "mlflow");
      ("serving", JStr "triton/torchserve");
      ("monitoring", JStr "evidently/whylabs")])
    ["python"] (3 # 4) 0;
  mkPattern "react-fastapi-fullstack" "web" "Fullstack: React + FastAPI + PostgreSQL"
    (JObj [("frontend", JStr "React/Next.js");
      ("backend", JStr "FastAPI");
      ("database", JStr "PostgreSQL");
      ("cache", JStr "Redis");
      ("auth", JStr "JWT + OAuth2")])
    ["python"; "typescript"] (22 # 25) 0;
  mkPattern "go-microservice" "backend" "High-performance microservice written in Go"
    (JObj [("framework", JStr "gin/chi");
      ("database", JStr "postgresql");
      ("cache", JStr "redis");
      ("messaging", JStr "kafka");
      ("observability", JStr "opentelemetry")])
    ["go"] (87 # 100) 0;
  mkPattern "rust-web-service" "backend" "High-performance web service written in Rust"
    (JObj [("framework", JStr "axum/actix");
      ("database", JStr "sqlx+postgres");
      ("serialization", JStr "serde");
      ("async", JStr "tokio")])
    ["rust"] (41 # 50) 0;
  mkPattern "flutter-mobile-backend" "mobile" "Flutter mobile app + backend"
    (JObj [("mobile", JStr "Flutter/Dart");
      ("backend", JStr "Firebase/Supabase");
      ("auth", JStr "Firebase Auth");
      ("storage", JStr "Cloud Firestore")])
    ["dart"; "typescript"] (83 # 100) 0;
  mkPattern "data-lakehouse" "data" "Data Lakehouse architecture"
    (JObj [("ingestion", JStr "kafka/flink");
      ("storage", JStr "S3/delta-lake");
      ("processing", JStr "spark/dbt");
      ("serving", JStr "presto/trino")])
    ["python"; "scala"] (39 # 50) 0;
  mkPattern "spring-boot-enterprise" "enterprise" "Enterprise application on Spring Boot"
    (JObj [("framework", JStr "Spring Boot 3");
      ("security", JStr "Spring Security");
      ("database", JStr "JPA + PostgreSQL");
      ("messaging", JStr "Spring Kafka");
      ("api", JStr "OpenAPI/Swagger")])
    ["java"; "kotlin"] (17 # 20) 0
].

Definition DOMAIN_KNOWLEDGE_SPECS : list (string * string * string * list string) := [
  ("caching", "Multi-Layer Caching",
    (text ["Use multi-layer caching with L1 in-memory (LRU/dict), L2 Redis/Memcached and L3 CDN for static content. ";
     "Patterns: cache-aside for reads, write-through for consistency, write-behind for write performance. Manage TTL ";
     "expiration and event-driven cache invalidation; preload (cache warming) for hot keys. Key metrics: hit rate and ";
     "stale read latency."]),
    ["caching"; "cache"; "ttl"; "redis"; "invalidation"; "memcached"; "cache-warming"]);
  ("auth", "Authentication & Authorization",
    (text ["Secure authentication stack: JWT access tokens with short TTL plus refresh tokens, OAuth2 / OIDC for ";
     "third-party login, password hashing with Argon2/bcrypt, RBAC/ABAC for authorization, rate limiting on login ";
     "endpoints, and audit logging of auth events. Apply MFA for privileged actions and secure secret storage for ";
     "signing keys."]),
    ["auth"; "authentication"; "authorization"; "jwt"; "oauth2"; "rbac"; "mfa"; "security"]);
  ("graphql", "GraphQL API Design",
    (text ["GraphQL schema generation with clear types and resolvers. Use DataLoader to batch and deduplicate N+1 queries, ";
     "subscriptions for real-time pushes, persisted queries for performance, and schema federation or stitching ";
     "across services. Guard resolvers with authorization and enforce query depth/complexity limits to prevent abuse."]),
    ["graphql"; "api"; "schema"; "resolvers"; "subscriptions"; "dataloader"; "federation"]);
  ("database", "Database Schema & Query Design",
    (text ["Relational schema design with normalisation, primary/foreign keys and appropriate indexes (B-tree, GIN, GiST). ";
     "Plan and optimise queries with EXPLAIN ANALYZE, use connection pooling (PgBouncer), read replicas and ";
     "partitioning for large tables. Manage schema evolution through versioned migrations and generate typed ORM ";
     "models (SQLAlchemy, Prisma)."]),
    ["database"; "schema"; "migrations"; "orm"; "sql"; "query"; "indexes"; "postgresql"]);
  ("documentation", "Automated Documentation",
    (text ["Generate README, API reference, OpenAPI/Swagger specs, changelogs and docstrings automatically. Keep API docs ";
     "in sync with the implementation (OpenAPI from code, docstring-driven markdown, MkDocs/ Sphinx sites), and ";
     "include runnable examples plus architecture overviews so a solution is self-explanatory."]),
    ["documentation"; "docs"; "openapi"; "readme"; "api-docs"; "docstrings"; "mkdocs"]);
  ("cli_generator", "CLI Tool Generation",
    (text ["Generate command-line tools with argparse, click or typer. Structure: subcommands, positional/optional args, ";
     "help text, exit codes and error handling. Add progress bars, rich output, config-file and env overrides, and ";
     "shell completion. Test CLI entry points via pytest and the typer/click test runners."]),
    ["cli"; "command-line"; "argparse"; "click"; "typer"; "cli-tools"; "terminal"]);
  ("containers", "Containerization & Images",
    (text ["Build lean Docker images with multi-stage builds, minimal base images and .dockerignore. Run containers ";
     "non-root, pin image digests, add health checks and resource limits, prefer compose or Kubernetes manifests with ";
     "probes and network policies. Keep layers cached by ordering; scan images for vulnerabilities before shipping."]),
    ["containers"; "docker"; "kubernetes"; "image"; "containerization"; "compose"]);
  ("config", "Configuration Management",
    (text ["Follow 12-factor configuration: settings via environment variables with typed parsing (pydantic-settings), ";
     "separate per environment, feature flags for gradual rollout, and secret management via Vault or injected ";
     "secrets — never commit secrets. Provide sane defaults and validate config at startup with clear failure ";
     "messages."]),
    ["config"; "configuration"; "env"; "feature-flags"; "secrets"; "settings"]);
  ("data_pipeline", "Data Pipeline / ETL",
    (text ["Build ETL and streaming pipelines with Airflow or Prefect for batch scheduling and dbt for transformations. ";
     "Handle idempotent loads, retries, schema drift and backfills; store raw and processed layers separately (data ";
     "lakehouse). Monitor pipeline health, data quality checks, and lineage so failures are caught early."]),
    ["data-pipeline"; "etl"; "airflow"; "dbt"; "streaming"; "data-processing"; "batch"]);
  ("websocket", "Real-Time WebSockets",
    (text ["Implement real-time WebSocket servers with pub/sub, channels/rooms and connection management (heartbeat ";
     "ping/pong, reconnects with backoff, graceful shutdown). Use FastAPI/websockets, Socket.IO or Phoenix Channels; ";
     "scale horizontally via a shared pub/sub broker (Redis) and sticky sessions or connection registry."]),
    ["websocket"; "realtime"; "pubsub"; "rooms"; "socket"; "connection"]);
  ("gateway", "API Gateway & Middleware",
    (text ["Design an API gateway (nginx, envoy, Kong) with path/header-based routing, middleware chaining, authentication, ";
     "rate limiting, circuit breaking and request logging. Centralise cross-cutting concerns, aggregate microservice ";
     "APIs, and enforce timeouts/retries and canary routing for safe deployments."]),
    ["gateway"; "api-gateway"; "routing"; "middleware"; "nginx"; "envoy"; "circuit-breaker"]);
  ("events", "Event-Driven Architecture",
    (text ["Event-driven systems: event sourcing for an append-only event store, CQRS with separate read models, an event ";
     "bus (Kafka, RabbitMQ) for decoupling, and the saga pattern for distributed transactions. Design event schemas ";
     "with versioning, idempotent consumers, and outbox pattern for reliable publishing."]),
    ["events"; "event-driven"; "event-sourcing"; "cqrs"; "saga"; "kafka"; "rabbitmq"]);
  ("performance", "Performance & Profiling",
    (text ["Profile with cProfile/py-spy and benchmark with pytest-benchmark; load-test with Locust or k6 to find ";
     "bottlenecks (CPU, memory, I/O, lock contention). Set SLOs, use caching and async I/O, batch database access, ";
     "and avoid N+1 queries. Track regressions in CI with baseline comparisons."]),
    ["performance"; "profiling"; "benchmark"; "load-testing"; "bottleneck"; "optimization"]);
  ("mobile", "Mobile App Development",
    (text ["Generate mobile apps with React Native or Flutter, or native iOS/Android. Structure: clean architecture with ";
     "state management (Provider/Redux/Bloc), typed API client, local persistence (SQLite), push notifications, and ";
     "offline support. Ship via CI builds (Fastlane) with code signing and over-the-air updates."]),
    ["mobile"; "flutter"; "react-native"; "android"; "ios"; "app"]);
  ("monitoring", "Observability & Monitoring",
    (text ["Full observability: Prometheus metrics, Grafana dashboards, structured logging, and distributed tracing ";
     "(OpenTelemetry, Jaeger/Tempo). Health/readiness endpoints, SLO-based alerting, and error budgets. Instrument ";
     "RED (rate/errors/duration) and USE (utilisation/saturation/errors) metrics for every service."]),
    ["monitoring"; "observability"; "metrics"; "alerting"; "tracing"; "prometheus"; "grafana"]);
  ("ml_ops", "MLOps Pipeline",
    (text ["Production ML: experiment tracking (MLflow), data versioning (DVC), feature store, training pipelines, model ";
     "registry with versioned artifacts, and model serving (Triton/TorchServe/FastAPI). Monitor prediction drift and ";
     "model quality in production; automate retraining and canary deploys with automated evaluation gates."]),
    ["mlops"; "ml"; "machine-learning"; "model-serving"; "mlflow"; "drift"; "training"]);
  ("security_scanner", "SAST & Security Scanning",
    (text ["Static application security testing (SAST) plus dependency scanning, secret detection and OWASP Top 10 checks. ";
     "Run scanners in CI, enforce thresholds that block merges, and remediate with parameterised queries, output ";
     "encoding and validated auth. Produce an auditable SBOM and signed commits for supply-chain integrity."]),
    ["security"; "sast"; "vulnerability"; "owasp"; "dependency-scanning"; "secrets"]);
  ("testing", "Automated Testing",
    (text ["Generate unit, integration and end-to-end tests with pytest/unittest, plus coverage analysis and mutation ";
     "testing to gauge test strength. Follow the testing pyramid, use fixtures and parametrisation, mock external ";
     "I/O, and run tests in CI with reliable, fast isolation (testcontainers, factories)."]),
    ["testing"; "tests"; "pytest"; "coverage"; "mutation"; "unit-tests"]);
  ("terraform", "Infrastructure as Code",
    (text ["Manage infrastructure with Terraform or Pulumi: versioned IaC, remote state with locking, reusable modules, and ";
     "environments (dev/staging/prod) via workspaces. Plan in CI, apply with approval gates, tag resources, and ";
     "enable drift detection. Use providers for cloud/kubernetes and destroy/validate in sandboxes."]),
    ["terraform"; "iac"; "pulumi"; "infrastructure"; "infrastructure-as-code"; "providers"]);
  ("i18n", "Internationalization & Localization",
    (text ["Internationalise applications with message catalogs, locale-aware formatting (dates, numbers, currencies, ";
     "plurals), right-to-left support and translation management. Load localised resources lazily, fall back to ";
     "default locale, and automate translation sync in CI."]),
    ["i18n"; "internationalization"; "localization"; "translation"; "l10n"; "locale"]);
  ("queues", "Async Job Queues & Scheduling",
    (text ["Background processing with Celery, RQ or native async queues (arq); brokers Redis or RabbitMQ. Design ";
     "idempotent tasks with retries, dead-letter queues, and backoff; schedule periodic jobs and set worker ";
     "concurrency and rate limits. Track job status, latency and failure rates in observability dashboards."]),
    ["queues"; "jobs"; "celery"; "message-broker"; "scheduling"; "async"; "worker"]);
  ("quality", "Code Quality & Metrics",
    (text ["Enforce code quality with linting (ruff), formatting, complexity limits, and code-smell detection. Measure ";
     "cyclomatic complexity, duplication and maintainability; compute a grade per module and fail CI on regressions. ";
     "Keep public APIs documented and typed, and gate merges on quality thresholds."]),
    ["quality"; "code-quality"; "complexity"; "code-smells"; "linting"; "metrics"])
].

Definition DOMAIN_KNOWLEDGE : list KnowledgeEntry :=
  map (λ '(name, title, content, tags), mkKnowledge "domain" title content (name :: tags) [] (9 # 10) ("domain-seed:" +:+ name)) DOMAIN_KNOWLEDGE_SPECS.

Definition builtin_entries : list KnowledgeEntry := [
  mkKnowledge "best-practice" "12-Factor App Principles"
    (text ["Follow the 12-factor methodology: codebase in VCS, explicit dependencies, config via environment, backing ";
     "services as attached resources, build/release/run separated, stateless processes, port binding, concurrency via ";
     "processes, fast startup and graceful shutdown, dev/prod parity, logs as event streams, admin tasks as one-off."])
    ["architecture"; "best-practice"; "devops"] [] (9 # 10) "";
  mkKnowledge "best-practice" "Database Optimization Strategies"
    (text ["Use: 1) Proper indexing (B-tree, GIN, GiST), 2) Query plan analysis (EXPLAIN ANALYZE), 3) Connection pooling ";
     "(PgBouncer), 4) Read replicas, 5) Partitioning for large tables, 6) Materialized views for complex queries, 7) ";
     "Vacuum tuning, 8) pg_stat_statements monitoring."])
    ["database"; "postgresql"; "performance"] [] (17 # 20) "";
  mkKnowledge "best-practice" "Microservices Communication Patterns"
    (text ["Synchronous: REST (simple), gRPC (fast, typed). Asynchronous: event-driven (loose coupling), saga (distributed ";
     "transactions), CQRS (read/write split). Use circuit breakers for fault tolerance and a service mesh ";
     "(Istio/Linkerd) for traffic control."])
    ["microservices"; "distributed"; "architecture"] [] (22 # 25) "";
  mkKnowledge "best-practice" "Kubernetes Production Checklist"
    (text ["1) Resource limits & requests, 2) Health probes (liveness/readiness/startup), 3) Pod disruption budgets, 4) ";
     "HorizontalPodAutoscaler, 5) Network policies, 6) RBAC, 7) Secret management (Vault), 8) Log aggregation ";
     "(EFK/Loki), 9) Metrics (Prometheus), 10) Distributed tracing (Jaeger/Tempo)."])
    ["kubernetes"; "devops"; "production"] [] (9 # 10) "";
  mkKnowledge "stack" "Python High-Performance Stack"
    (text ["FastAPI (async), SQLAlchemy 2.0 (async ORM), Pydantic v2 (validation), uvicorn (ASGI), Redis (cache), ";
     "PostgreSQL (DB), Celery (task queue), Docker + Kubernetes, pytest + httpx (testing), structlog (logging)."])
    ["python"; "web"; "api"; "high-performance"] [] (87 # 100) "";
  mkKnowledge "stack" "Go Microservices Stack"
    (text ["Chi/Gin (router), sqlx (database), go-redis, Kafka/NATS (messaging), gRPC, OpenTelemetry, Zap (logging), Viper ";
     "(config), GoReleaser, Docker, Kubernetes."])
    ["go"; "microservices"; "high-performance"] [] (43 # 50) "";
  mkKnowledge "stack" "TypeScript Full-Stack"
    (text ["Next.js (frontend), Fastify/Express (backend), Prisma (ORM), PostgreSQL, Redis, tRPC (type-safe API), Tailwind ";
     "CSS, Vitest (testing), Turborepo (monorepo), Vercel (deployment)."])
    ["typescript"; "fullstack"; "react"; "nextjs"] [] (17 # 20) "";
  mkKnowledge "stack" "ML/AI Production Stack"
    (text ["Python, PyTorch/TensorFlow, FastAPI (inference API), MLflow (experiment tracking), DVC (data versioning), ";
     "Airflow/Prefect (orchestration), Redis (feature cache), PostgreSQL (metadata), Docker + GPU support, Prometheus ";
     "+ Grafana (monitoring)."])
    ["ml"; "ai"; "python"; "production"] [] (21 # 25) "";
  mkKnowledge "security" "OWASP Top 10 Mitigations"
    (text ["A01 Broken Access Control -> RBAC + resource-level perms. A02 Cryptographic Failures -> TLS 1.3 + AES-256. A03 ";
     "Injection -> parameterized queries. A04 Insecure Design -> threat modeling. A05 Security Misconfiguration -> ";
     "hardened defaults. A06 Vulnerable Components -> SCA scanning. A07 Auth Failures -> MFA + rate limiting. A08 ";
     "Data Integrity -> signed commits + SBOM. A09 Logging -> audit trail. A10 SSRF -> allowlist outbound."])
    ["security"; "owasp"; "web"; "api"] [] (23 # 25) "";
  mkKnowledge "performance" "Caching Strategy L1/L2/L3"
    (text ["L1: In-memory (dict/LRU) — nanoseconds, per-process. L2: Redis/Memcached — milliseconds, shared. L3: CDN — ";
     "edge, static + API caching. Cache-aside for reads, write-through for consistency, write-behind for write ";
     "performance. TTL-based expiration + event-driven invalidation."])
    ["caching"; "performance"; "redis"; "architecture"] [] (43 # 50) ""
] ++ DOMAIN_KNOWLEDGE.

Definition BUILTIN_KNOWLEDGE (st : startup) : list KnowledgeEntry :=
  imap (λ i e, stamp_entry (entry_ids st i) (entry_times st i) e) builtin_entries.
Definition BUILTIN_PATTERNS (st : startup) : list Pattern := imap (λ i p, stamp_pattern (pattern_ids st i) p) builtin_patterns.
