(* ===== verification/Knowledge.v ===== *)
(** * The knowledge store ([noema/knowledge/store.py])

    Entries and patterns, the built-in ones of the process first, with a search index over their texts and
    a JSON file that is written atomically ([AtomicIO]).  The vectorizer and its similarity,
    [argsort], the JSON codec and pydantic's validation of the records in the file are
    parameters. *)
From Stdlib Require Import ZArith QArith Lia Bool Ascii String.
From stdpp Require Import base option numbers gmap sets strings list.
From S2P Require Import Prelude AtomicIO Feedback KnowledgeData.
Local Open Scope string_scope.
Local Open Scope list_scope.
Local Open Scope nat_scope.

Record KnowledgeStore := mkKStore { entries : list KnowledgeEntry; patterns : list Pattern; _corpus : option (list string) }.

(** [None]: the index has not been built. *)
Definition kstore_init (st : startup) : KnowledgeStore := mkKStore (BUILTIN_KNOWLEDGE st) (BUILTIN_PATTERNS st) None.

Definition entry_text (e : KnowledgeEntry) : string := k_title e +:+ " " +:+ content e +:+ " " +:+ String.concat " " (k_tags e).
Definition pattern_text (p : Pattern) : string := p_name p +:+ " " +:+ p_description p +:+ " " +:+ String.concat " " (applicable_stacks p).

Definition corpus (s : KnowledgeStore) : list string := map entry_text (entries s) ++ map pattern_text (patterns s).

Definition _build_index (s : KnowledgeStore) : KnowledgeStore :=
  mkKStore (entries s) (patterns s) (match corpus s with [] => _corpus s | c => Some c end).

(** ** The file *)
Definition jnums (l : list Q) : json := JArr (map JNum l).
Definition jtexts (l : list string) : json := JArr (map JStr l).

(** [model_dump(mode="json")] *)
Definition dump_entry (e : KnowledgeEntry) : list (string * json) :=
  [("id", JStr (k_id e)); ("category", JStr (category e)); ("title", JStr (k_title e)); ("content", JStr (content e)); ("tags", jtexts (k_tags e));
   ("embeddings", jnums (embeddings e)); ("weight", JNum (weight e)); ("source", JStr (k_source e)); ("created_at", JStr (created_at e))].
Definition dump_pattern (p : Pattern) : list (string * json) :=
  [("id", JStr (p_id p)); ("name", JStr (p_name p)); ("category", JStr (p_category p)); ("description", JStr (p_description p)); ("template", template_ p);
   ("applicable_stacks", jtexts (applicable_stacks p)); ("success_rate", JNum (success_rate p)); ("usage_count", JNum (inject_Z (usage_count p)))].

Definition plain (e : KnowledgeEntry) : Prop := embeddings e = [].
#[export] Instance plain_dec e : Decision (plain e).
Proof. unfold plain. destruct (embeddings e); [by left|by right]. Defined.

Definition document (s : KnowledgeStore) : json :=
  JObj [("entries", JArr (map (λ e, JObj (dump_entry e)) (filter plain (entries s)))); ("patterns", JArr (map (λ p, JObj (dump_pattern p)) (patterns s)))].

Section store.
Context (dumps : json → string) (loads : string → parsed) (persist_path : string).
Context (build_entry : list (string * json) → option KnowledgeEntry) (build_pattern : list (string * json) → option Pattern).

Definition _write (s : KnowledgeStore) (rnd : string) : io () := atomic_write_json dumps persist_path (document s) true 5 rnd.

(** Lists and dictionaries cannot be members of a set. *)
Definition hashable (j : json) : bool := match j with JArr _ | JObj _ => false | _ => true end.

Definition get (k : string) (dflt : json) (d : list (string * json)) : json := default dflt (dget k d).

(** What a [for] loop over a value takes; [None]: the loop, or the use of its first item as
    a dictionary, raises. *)
Definition loop_items (j : json) : option (list json) :=
  match j with JArr l => Some l | JObj [] => Some [] | JStr "" => Some [] | _ => None end.

(** Records with a new key are built and appended; the flag says whether the loop got to
    its end.  [key_of]: [None] is a key that cannot be hashed, [Some None] one that is not
    made of texts, which no record has. *)
Section merge.
Context {A K : Type} `{EqDecision K} (key_of : list (string * json) → option (option K)) (build : list (string * json) → option A).

Fixpoint merge_file (known : list K) (acc : list A) (l : list json) : list A * bool :=
  match l with
  | [] => (acc, true)
  | JObj d :: l =>
      match key_of d with
      | None => (acc, false)
      | Some key =>
          if from_option (λ k, bool_decide (k ∈ known)) false key then merge_file known acc l
          else match build d with Some x => merge_file (option_list key ++ known) (acc ++ [x]) l | None => (acc, false) end
      end
  | _ :: l => (acc, false)
  end.
End merge.

Definition entry_key (d : list (string * json)) : option (option (string * string)) :=
  match get "title" (JStr "") d, get "content" (JStr "") d with
  | JStr t, JStr c => Some (Some (t, c))
  | t, c => if hashable t && hashable c then Some None else None
  end.

Definition pattern_key (d : list (string * json)) : option (option string) :=
  match get "name" JNull d with JStr n => Some (Some n) | n => if hashable n then Some None else None end.

Definition key (e : KnowledgeEntry) : string * string := (k_title e, content e).

Definition load_data (j : json) (s : KnowledgeStore) : KnowledgeStore :=
  match j with
  | JObj d =>
      match loop_items (get "entries" (JArr []) d) with
      | None => s
      | Some l =>
          let '(es, ok) := merge_file entry_key build_entry (map key (entries s)) (entries s) l in
          let s := mkKStore es (patterns s) (_corpus s) in
          if ok then
            match loop_items (get "patterns" (JArr []) d) with
            | None => s
            | Some l => mkKStore es (merge_file pattern_key build_pattern (map p_name (patterns s)) (patterns s) l).1 (_corpus s)
            end
          else s
      end
  | _ => s
  end.

Definition load (fs : files) (s : KnowledgeStore) : KnowledgeStore :=
  _build_index (match fs !! persist_path with
    | None => s
    | Some text => match loads text with Parsed j => load_data j s | _ => s end
    end).

(** ** Additions *)
Definition add_entry (e : KnowledgeEntry) (s : KnowledgeStore) : KnowledgeStore := _build_index (mkKStore (entries s ++ [e]) (patterns s) (_corpus s)).
Definition add_pattern (p : Pattern) (s : KnowledgeStore) : KnowledgeStore := _build_index (mkKStore (entries s) (patterns s ++ [p]) (_corpus s)).

(** [stamp]: the identifier and the time the new record is given. *)
Definition fact_entry (stamp : string * string) (topic fact : string) (confidence : Q) (source : string) (tags : list string) : KnowledgeEntry :=
  let t := String.substring 0 60 fact in
  mkKnowledgeEntry stamp.1 topic (if nonempty t then t else topic) fact tags [] (Qminb (Qmaxb confidence 0) 1) source stamp.2.

Definition learn_fact (stamp : string * string) (topic fact : string) (confidence : Q) (source : string) (tags : list string) (s : KnowledgeStore) : KnowledgeStore :=
  add_entry (fact_entry stamp topic fact confidence source tags) s.

(** ** Search *)
Context (similarity : list string → string → list Q) (argsort : list Q → list nat).

Inductive found := FoundEntry (e : KnowledgeEntry) (score : Q) | FoundPattern (p : Pattern) (score : Q).

(** [l[:n]] *)
Definition upto_z {A} (n : Z) (l : list A) : list A := if (0 <=? n)%Z then take (Z.to_nat n) l else take (length l - Z.to_nat (- n)) l.

Definition result_at (s : KnowledgeStore) (scores : list Q) (i : nat) : option found :=
  let score := default 0%Q (scores !! i) in
  if (i <? length (entries s))%nat then (λ e, FoundEntry e score) <$> entries s !! i
  else (λ p, FoundPattern p score) <$> patterns s !! (i - length (entries s)).

Definition search (s : KnowledgeStore) (query : string) (top_k : Z) : list found :=
  match _corpus s with
  | None => []
  | Some c => let scores := similarity c query in omap (result_at s scores) (upto_z top_k (reverse (argsort scores)))
  end.

Definition get_stats (s : KnowledgeStore) : nat * nat * list string * list string :=
  (length (entries s), length (patterns s), remove_dups (map category (entries s)), remove_dups (map p_category (patterns s))).

(** ** Restarts *)

(** Append unless there is one with the key already. *)
Section add_new.
Context {A K : Type} `{EqDecision K} (kf : A → K).

Definition add_new (acc : list A) (x : A) : list A := if bool_decide (kf x ∈ map kf acc) then acc else acc ++ [x].

Lemma merge_dump (dump : A → list (string * json)) key_of build l : ∀ known acc,
  Forall (λ x, key_of (dump x) = Some (Some (kf x)) ∧ build (dump x) = Some x) l → (∀ k, k ∈ known ↔ k ∈ map kf acc) →
  merge_file key_of build known acc (map (λ x, JObj (dump x)) l) = (foldl add_new acc l, true).
Proof.
  induction l as [|x l IH]; intros known acc Hl Hk; [done|]. apply Forall_cons in Hl as [[Ek Eb] Hl]. cbn [map merge_file foldl].
  rewrite Ek, Eb. cbn [from_option]. unfold add_new at 2. rewrite (bool_decide_ext _ _ (Hk (kf x))).
  case_bool_decide; [by apply IH|]. apply IH; [done|]. intros k. cbn. rewrite elem_of_cons, Hk, map_app, elem_of_app. set_solver.
Qed.

Lemma add_new_keys l : ∀ acc k, k ∈ map kf (foldl add_new acc l) ↔ k ∈ map kf acc ∨ k ∈ map kf l.
Proof.
  induction l as [|x l IH]; intros acc k; cbn; [set_solver|]. rewrite IH, elem_of_cons. unfold add_new.
  case_bool_decide; [|rewrite map_app; set_solver]. naive_solver.
Qed.

Lemma add_new_elem l : ∀ acc x, x ∈ foldl add_new acc l → x ∈ acc ∨ x ∈ l.
Proof.
  induction l as [|y l IH]; intros acc x; cbn; [by left|]. intros [Hx|Hx]%IH; [|set_solver]. unfold add_new in Hx. case_bool_decide; set_solver.
Qed.

Lemma add_new_nodup l : ∀ acc, NoDup (map kf acc) → NoDup (map kf (foldl add_new acc l)).
Proof.
  induction l as [|x l IH]; intros acc Hn; [done|]. cbn. apply IH. unfold add_new. case_bool_decide; [done|].
  rewrite map_app. apply NoDup_app. split_and!; [done|set_solver|apply NoDup_singleton].
Qed.

Lemma add_new_id l : ∀ acc, NoDup (map kf (acc ++ l)) → foldl add_new acc l = acc ++ l.
Proof.
  induction l as [|x l IH]; intros acc Hn; [by rewrite app_nil_r|]. cbn. unfold add_new at 2.
  rewrite map_app in Hn. apply NoDup_app in Hn as (H1 & H2 & H3). rewrite bool_decide_false by set_solver.
  rewrite (cons_middle x acc l), app_assoc. apply IH. rewrite <- app_assoc, map_app. by apply NoDup_app.
Qed.

Lemma add_new_skip l : ∀ acc, (∀ x, x ∈ l → kf x ∈ map kf acc) → foldl add_new acc l = acc.
Proof.
  induction l as [|x l IH]; intros acc Hl; [done|]. cbn. unfold add_new at 2. rewrite bool_decide_true by set_solver. apply IH. set_solver.
Qed.
End add_new.

Definition valid_entry (e : KnowledgeEntry) : Prop := (0 <= weight e <= 1)%Q.
Definition valid_pattern (p : Pattern) : Prop := (0 <= success_rate p <= 1)%Q.

(** Pydantic checks the fields and gives back what was dumped. *)
Context (build_entry_valid : ∀ d e, build_entry d = Some e → valid_entry e) (build_pattern_valid : ∀ d p, build_pattern d = Some p → valid_pattern p).
Context (build_entry_dump : ∀ e, valid_entry e → build_entry (dump_entry e) = Some e).
Context (build_pattern_dump : ∀ p, valid_pattern p → build_pattern (dump_pattern p) = Some p).

Inductive store_op :=
| AddEntry (e : KnowledgeEntry) | AddPattern (p : Pattern) 
| Learn (stamp : string * string) (topic fact : string) (confidence : Q) (source : string) (tags : list string).

Definition run_store (s : KnowledgeStore) (o : store_op) : KnowledgeStore :=
  match o with AddEntry e => add_entry e s | AddPattern p => add_pattern p s | Learn i t f c src tags => learn_fact i t f c src tags s end.

(** Models that are added were validated when they were made. *)
Definition valid_op (o : store_op) : Prop := match o with AddEntry e => valid_entry e | AddPattern p => valid_pattern p | Learn _ _ _ _ _ _ => True end.

Record store_inv (st : startup) (s : KnowledgeStore) : Prop := {
  si_entries : BUILTIN_KNOWLEDGE st `prefix_of` entries s;
  si_patterns : BUILTIN_PATTERNS st `prefix_of` patterns s;
  si_valid : Forall valid_entry (entries s) ∧ Forall valid_pattern (patterns s);
  si_index : _corpus s = Some (corpus s);
}.

(** Stamps change neither keys nor validity. *)
Lemma builtin_map {B} st (f : KnowledgeEntry → B) : (∀ i t e, f (stamp_entry i t e) = f e) → map f (BUILTIN_KNOWLEDGE st) = map f builtin_entries.
Proof.
  intros Hf. unfold BUILTIN_KNOWLEDGE. rewrite fmap_imap. apply list_eq. intros i. rewrite list_lookup_imap, list_lookup_fmap.
  destruct (builtin_entries !! i); [|done]. cbn. by rewrite Hf.
Qed.
Lemma builtin_pattern_map {B} st (f : Pattern → B) : (∀ i p, f (stamp_pattern i p) = f p) → map f (BUILTIN_PATTERNS st) = map f builtin_patterns.
Proof.
  intros Hf. unfold BUILTIN_PATTERNS. rewrite fmap_imap. apply list_eq. intros i. rewrite list_lookup_imap, list_lookup_fmap.
  destruct (builtin_patterns !! i); [|done]. cbn. by rewrite Hf.
Qed.

Lemma builtin_names st : map key (BUILTIN_KNOWLEDGE st) = map key builtin_entries ∧ map p_name (BUILTIN_PATTERNS st) = map p_name builtin_patterns.
Proof. split; [by apply builtin_map|by apply builtin_pattern_map]. Qed.

Lemma builtin_keys st : NoDup (map key (BUILTIN_KNOWLEDGE st)) ∧ NoDup (map p_name (BUILTIN_PATTERNS st)).
Proof. destruct (builtin_names st) as [-> ->]. split; apply (bool_decide_unpack _); by vm_compute. Qed.

Lemma builtin_valid st :
  Forall plain (BUILTIN_KNOWLEDGE st) ∧ Forall valid_entry (BUILTIN_KNOWLEDGE st) ∧ Forall valid_pattern (BUILTIN_PATTERNS st).
Proof.
  assert (∀ x, Qle_bool 0 x && Qle_bool x 1 = true → (0 <= x <= 1)%Q) as Hq.
  { intros x [H1 H2]%andb_true_iff. split; by apply Qle_bool_iff. }
  assert (∀ (P : KnowledgeEntry → Prop), (∀ i t e, P e → P (stamp_entry i t e)) → Forall P builtin_entries → Forall P (BUILTIN_KNOWLEDGE st)) as He.
  { intros P Hs HP. apply Forall_lookup. intros i e H. unfold BUILTIN_KNOWLEDGE in H. rewrite list_lookup_imap in H.
    destruct (builtin_entries !! i) eqn:E; [|done]. injection H as <-. apply Hs. by eapply Forall_lookup in HP. }
  assert (∀ (P : Pattern → Prop), (∀ i p, P p → P (stamp_pattern i p)) → Forall P builtin_patterns → Forall P (BUILTIN_PATTERNS st)) as Hp.
  { intros P Hs HP. apply Forall_lookup. intros i e H. unfold BUILTIN_PATTERNS in H. rewrite list_lookup_imap in H.
    destruct (builtin_patterns !! i) eqn:E; [|done]. injection H as <-. apply Hs. by eapply Forall_lookup in HP. }
  split_and!; [apply He; [done|]|apply He; [done|]|apply Hp; [done|]].
  - repeat (constructor; [reflexivity|]). constructor.
  - unfold valid_entry. repeat (constructor; [apply Hq; reflexivity|]). constructor.
  - unfold valid_pattern. repeat (constructor; [apply Hq; reflexivity|]). constructor.
Qed.

Lemma builtin_nonempty st : ∃ e l, BUILTIN_KNOWLEDGE st = e :: l.
Proof. eexists _, _. reflexivity. Qed.

Lemma builtin_lengths st : length (BUILTIN_KNOWLEDGE st) = length builtin_entries ∧ length (BUILTIN_PATTERNS st) = length builtin_patterns.
Proof. split; apply length_imap. Qed.

Lemma build_index_inv st s :
  BUILTIN_KNOWLEDGE st `prefix_of` entries s → BUILTIN_PATTERNS st `prefix_of` patterns s → Forall valid_entry (entries s) → Forall valid_pattern (patterns s) →
  store_inv st (_build_index s).
Proof.
  intros H1 H2 H3 H4. split; [done|done|done|]. unfold _build_index. cbn [_corpus]. destruct (corpus s) eqn:E; [|by rewrite <- E].
  destruct H1 as [l El]. destruct (builtin_nonempty st) as (e & l' & Eb). unfold corpus in E. rewrite El, Eb in E. discriminate E.
Qed.

#[local] Opaque BUILTIN_KNOWLEDGE BUILTIN_PATTERNS builtin_entries builtin_patterns.

Lemma merge_prefix {A K} `{EqDecision K} (key_of : list (string * json) → option (option K)) (build : list (string * json) → option A) (P : A → Prop) l :
  (∀ d x, build d = Some x → P x) → ∀ known acc, Forall P acc →
  acc `prefix_of` (merge_file key_of build known acc l).1 ∧ Forall P (merge_file key_of build known acc l).1.
Proof.
  intros Hb. induction l as [|j l IH]; intros known acc Ha; [done|]. destruct j; cbn [merge_file]; try done.
  destruct (key_of d) as [k|]; [|done]. destruct (from_option _ _ k); [by apply IH|]. destruct (build d) as [x|] eqn:E; [|done].
  destruct (IH (option_list k ++ known) (acc ++ [x])) as [Hp Hf]; [apply Forall_app; split; [done|]; constructor; [by eapply Hb|constructor]|].
  split; [|done]. etrans; [|exact Hp]. by apply prefix_app_r.
Qed.

Lemma load_inv st fs : store_inv st (load fs (kstore_init st)).
Proof.
  destruct (builtin_valid st) as (_ & Hve & Hvp). unfold load.
  assert (store_inv st (_build_index (kstore_init st))) as H0 by (by apply build_index_inv).
  destruct (fs !! persist_path) as [t|]; [|done]. destruct (loads t) as [j| |]; [|done|done]. destruct j; cbn [load_data]; try done.
  destruct (loop_items _) as [l|]; [|done].
  destruct (merge_prefix entry_key build_entry valid_entry l build_entry_valid (map key (entries (kstore_init st))) (entries (kstore_init st)) Hve) as [Hp Hf].
  destruct (merge_file entry_key _ _ _ _) as [es [|]]; [|by apply build_index_inv].
  destruct (loop_items _) as [l2|]; [|by apply build_index_inv].
  destruct (merge_prefix pattern_key build_pattern valid_pattern l2 build_pattern_valid (map p_name (BUILTIN_PATTERNS st)) (BUILTIN_PATTERNS st) Hvp).
  by apply build_index_inv.
Qed.

Lemma fact_valid i topic fact c src tags : valid_entry (fact_entry i topic fact c src tags).
Proof.
  unfold valid_entry, fact_entry. cbn [weight]. unfold Qminb, Qmaxb. destruct (Qle_bool c 0) eqn:E1; [cbn; split; discriminate|].
  destruct (Qle_bool c 1) eqn:E2; [|split; discriminate]. apply Qle_bool_iff in E2. split; [|done].
  destruct (Qlt_le_dec c 0) as [Hlt|]; [|done]. apply Qlt_le_weak, Qle_bool_iff in Hlt. congruence.
Qed.

Lemma run_store_inv st s o : valid_op o → store_inv st s → store_inv st (run_store s o).
Proof.
  intros Ho [H1 H2 [H3 H4] _].
  assert (∀ e, valid_entry e → store_inv st (add_entry e s)) as Hadd.
  { intros e He. apply build_index_inv; cbn; [by apply prefix_app_r|done|by apply Forall_app_2; [|constructor]|done]. }
  destruct o as [e|p|i t f c src tags]; cbn in Ho |- *; [by apply Hadd| |apply Hadd, fact_valid].
  apply build_index_inv; cbn; [done|by apply prefix_app_r|done|by apply Forall_app_2; [|constructor]].
Qed.

(** What a store that starts from the file has of the one that wrote it: the built-in
    records of the new process, then those of the old one that are not built-in, as they
    were. *)
Definition own_entries (s : KnowledgeStore) : list KnowledgeEntry := drop (length builtin_entries) (entries s).
Definition own_patterns (s : KnowledgeStore) : list Pattern := drop (length builtin_patterns) (patterns s).

Record restored (st : startup) (s s' : KnowledgeStore) : Prop := {
  rs_builtin : BUILTIN_KNOWLEDGE st `prefix_of` entries s' ∧ BUILTIN_PATTERNS st `prefix_of` patterns s';
  rs_once : NoDup (map key (entries s')) ∧ NoDup (map p_name (patterns s'));
  rs_sound : (∀ e, e ∈ own_entries s' → e ∈ own_entries s) ∧ (∀ p, p ∈ own_patterns s' → p ∈ own_patterns s);
  rs_keys : (∀ e, e ∈ entries s → plain e → key e ∈ map key (entries s')) ∧ (∀ p, p ∈ patterns s → p_name p ∈ map p_name (patterns s'));
  rs_index : _corpus s' = Some (corpus s');
  rs_same : Forall plain (entries s) → NoDup (map key (entries s)) → NoDup (map p_name (patterns s)) →
            own_entries s' = own_entries s ∧ own_patterns s' = own_patterns s;
}.

Lemma filter_plain l : Forall plain l → filter plain l = l.
Proof. induction 1 as [|e l He Hl IH]; [done|]. by rewrite filter_cons_True, IH. Qed.

(** The records of the file whose keys the new built-in ones have are skipped. *)
Lemma add_new_builtin {A K} `{EqDecision K} (kf : A → K) b b' l :
  map kf b = map kf b' → foldl (add_new kf) b' (b ++ l) = foldl (add_new kf) b' l.
Proof.
  intros E. rewrite foldl_app, (add_new_skip kf b b'); [done|]. intros x Hx. rewrite <- E. apply list_elem_of_fmap. eauto.
Qed.

Lemma add_new_grows {A K} `{EqDecision K} (kf : A → K) l : ∀ acc, ∃ new, foldl (add_new kf) acc l = acc ++ new ∧ ∀ x, x ∈ new → x ∈ l.
Proof.
  induction l as [|x l IH]; intros acc; [exists []; rewrite app_nil_r; split; [done|set_solver]|]. cbn. unfold add_new at 2.
  case_bool_decide; [destruct (IH acc) as (new & -> & Hn); exists new; split; [done|set_solver]|].
  destruct (IH (acc ++ [x])) as (new & -> & Hn). exists (x :: new). rewrite <- app_assoc. split; [done|set_solver].
Qed.

Lemma load_document st' fs s :
  Forall valid_entry (entries s) → Forall valid_pattern (patterns s) →
  loads (dumps (document s)) = Parsed (document s) → fs !! persist_path = Some (dumps (document s)) →
  load fs (kstore_init st') = _build_index (mkKStore (foldl (add_new key) (BUILTIN_KNOWLEDGE st') (filter plain (entries s)))
            (foldl (add_new p_name) (BUILTIN_PATTERNS st') (patterns s)) None).
Proof.
  intros Hve Hvp Hread Hfs. unfold load. rewrite Hfs, Hread. unfold document, load_data.
  change (get "entries" (JArr []) _) with (JArr (map (λ e, JObj (dump_entry e)) (filter plain (entries s)))). cbn [loop_items entries patterns kstore_init].
  rewrite (merge_dump key dump_entry); [| |done].
  2: { apply Forall_forall. intros e [_ He]%list_elem_of_filter. split; [done|]. apply build_entry_dump. rewrite Forall_forall in Hve. by apply Hve. }
  change (get "patterns" (JArr []) _) with (JArr (map (λ p, JObj (dump_pattern p)) (patterns s))). cbn [loop_items].
  rewrite (merge_dump p_name dump_pattern); [done| |done].
  apply Forall_forall. intros p Hp. split; [done|]. apply build_pattern_dump. rewrite Forall_forall in Hvp. by apply Hvp.
Qed.

Lemma knowledge_load_saved st st' fs s :
  store_inv st s → loads (dumps (document s)) = Parsed (document s) → fs !! persist_path = Some (dumps (document s)) →
  restored st' s (load fs (kstore_init st')).
Proof.
  intros [[le Ee] [lp Ep] [Hve Hvp] Hidx] Hread Hfs. destruct (builtin_keys st') as [Hbk Hbn]. destruct (builtin_valid st) as (Hplain & _ & _).
  pose proof (load_document st' fs s Hve Hvp Hread Hfs) as E. pose proof (load_inv st' fs) as Hinv.
  destruct (builtin_names st) as [Nk Np], (builtin_names st') as [Nk' Np'], (builtin_lengths st) as [L1 L2], (builtin_lengths st') as [L1' L2'].
  assert (own_entries s = le ∧ own_patterns s = lp) as [Oe Op] by (unfold own_entries, own_patterns; rewrite Ee, Ep, <- L1, <- L2, !drop_app_length; done).
  assert (filter plain (entries s) = BUILTIN_KNOWLEDGE st ++ filter plain le) as Ef by (by rewrite Ee, filter_app, filter_plain).
  rewrite Ef, (add_new_builtin key) in E by congruence. rewrite Ep, (add_new_builtin p_name) in E by congruence.
  destruct (add_new_grows key (filter plain le) (BUILTIN_KNOWLEDGE st')) as (ne & Ene & Hne).
  destruct (add_new_grows p_name lp (BUILTIN_PATTERNS st')) as (np & Enp & Hnp).
  assert (own_entries (load fs (kstore_init st')) = ne ∧ own_patterns (load fs (kstore_init st')) = np) as [Oe' Op'].
  { unfold own_entries, own_patterns. rewrite E. cbn [entries patterns _build_index]. by rewrite Ene, Enp, <- L1', <- L2', !drop_app_length. }
  split; [split; apply Hinv| | | |apply Hinv|]; rewrite ?Oe', ?Op', ?Oe, ?Op.
  - rewrite E. cbn [entries patterns _build_index]. split; by apply add_new_nodup.
  - split; [intros e He; apply Hne, list_elem_of_filter in He; naive_solver|done].
  - rewrite E. cbn [entries patterns _build_index]. rewrite Ee, Ep. split.
    + intros e [He|He]%elem_of_app Hpl; apply add_new_keys; [left; rewrite Nk', <- Nk|right]; apply list_elem_of_fmap; exists e; [done|].
      split; [done|]. by apply list_elem_of_filter.
    + intros p [Hp|Hp]%elem_of_app; apply add_new_keys; [left; rewrite Np', <- Np|right]; apply list_elem_of_fmap; eauto.
  - rewrite Ee, Ep. intros [_ Hpl]%Forall_app Hnk Hnn. rewrite filter_plain in Ene by done.
    rewrite map_app, Nk, <- Nk', <- map_app in Hnk. rewrite map_app, Np, <- Np', <- map_app in Hnn.
    rewrite (add_new_id key) in Ene by done. rewrite (add_new_id p_name) in Enp by done.
    split; symmetry; by eapply app_inv_head.
Qed.

(** C34: Knowledge survives a restart.  A store that loaded some file and took additions is
    written to a path ending in the letter n (so that its backups have other names).
    Wherever the write fails, the file has its old content or all of the new.  Once it has
    the new, if the codec and pydantic read back what was written, a store that starts from
    it in another process has the built-in records, made anew, and after them only records
    of the old store, with their identifiers and times; one per title and content and one
    per name, and every one of the old store is there under its key unless it carries
    embeddings; without duplicates and embeddings these are all the records the old store
    had beyond the built-in ones, in order.  Its index is over its own texts. *)
Theorem knowledge_restart st st' fs0 ops rnd flts :
  last_char persist_path = Some "n"%char → Forall valid_op ops →
  let s := foldl run_store (load fs0 (kstore_init st)) ops in
  loads (dumps (document s)) = Parsed (document s) →
  let '(fs, _, o) := _write s rnd (fs0, flts) in
  (fs !! persist_path = fs0 !! persist_path ∧ o ≠ Done ()
   ∨ fs !! persist_path = Some (dumps (document s)) ∧ restored st' s (load fs (kstore_init st')))
  ∧ (o = Done () → restored st' s (load fs (kstore_init st'))).
Proof.
  intros Hpath Hops s Hread.
  assert (store_inv st s) as Hs.
  { unfold s. pose proof (load_inv st fs0) as Hl. revert Hl. generalize (load fs0 (kstore_init st)) as s0. clear s Hread.
    induction Hops as [|o ops Ho Hops IH]; intros s0 H0; [done|]. cbn. by apply IH, run_store_inv. }
  pose proof (triple_write dumps persist_path (document s) true 5 rnd (λ c, c = fs0 !! persist_path) (λ _, True) Hpath (λ _ _ _ _, I) fs0 flts (conj eq_refl I)) as H.
  unfold _write. destruct (atomic_write_json _ _ _ _ _ _ _) as [[fs flts'] [[]| |]]; cbn in H |- *.
  - destruct H as [E _]. assert (restored st' s (load fs (kstore_init st'))) as Hr by (by eapply knowledge_load_saved). auto.
  - destruct H as [[E|E] _]; (split; [|done]); [left; done|right; split; [done|by eapply knowledge_load_saved]].
  - destruct H as [[E|E] _]; (split; [|done]); [left; done|right; split; [done|by eapply knowledge_load_saved]].
Qed.

(** Search is about the texts of the store: with one score per text and a permutation of the
    positions it returns the asked number of results, each with the score of its own text. *)
Lemma search_in_step s query k :
  _corpus s = Some (corpus s) → length (similarity (corpus s) query) = length (corpus s) →
  argsort (similarity (corpus s) query) ≡ₚ seq 0 (length (corpus s)) →
  length (search s query (Z.of_nat k)) = min k (length (corpus s))
  ∧ ∀ f, f ∈ search s query (Z.of_nat k) → ∃ i sc, similarity (corpus s) query !! i = Some sc ∧
      match f with FoundEntry e q => q = sc ∧ corpus s !! i = Some (entry_text e) | FoundPattern p q => q = sc ∧ corpus s !! i = Some (pattern_text p) end.
Proof.
  intros Hs Hlen Hperm. unfold search. rewrite Hs. unfold upto_z. rewrite (proj2 (Z.leb_le 0 _)) by lia. rewrite Nat2Z.id.
  set (scores := similarity _ _) in *. set (l := take k (reverse (argsort scores))).
  assert (∀ i, i ∈ l → i < length (corpus s)) as Hin.
  { intros i Hi. assert (i ∈ argsort scores) as Hi2 by (rewrite <- elem_of_reverse; eapply elem_of_sublist, sublist_take; exact Hi).
    rewrite Hperm in Hi2. apply elem_of_seq in Hi2. lia. }
  assert (∀ i, i < length (corpus s) → ∃ f sc, result_at s scores i = Some f ∧ scores !! i = Some sc ∧
    match f with FoundEntry e q => q = sc ∧ corpus s !! i = Some (entry_text e) | FoundPattern p q => q = sc ∧ corpus s !! i = Some (pattern_text p) end) as Hres.
  { intros i Hi. destruct (lookup_lt_is_Some_2 scores i) as [sc Esc]; [lia|]. unfold result_at. rewrite Esc. cbn [default]. unfold corpus in *.
    rewrite length_app, !length_fmap in Hi. destruct (i <? length (entries s)) eqn:El.
    - apply Nat.ltb_lt in El. destruct (lookup_lt_is_Some_2 _ _ El) as [e Ee]. rewrite Ee. exists (FoundEntry e sc), sc. split_and!; [done|done|done|].
      rewrite lookup_app_l by (by rewrite length_fmap). by rewrite list_lookup_fmap, Ee.
    - apply Nat.ltb_ge in El. destruct (lookup_lt_is_Some_2 (patterns s) (i - length (entries s))) as [p Ep]; [lia|]. rewrite Ep.
      exists (FoundPattern p sc), sc. split_and!; [done|done|done|]. rewrite lookup_app_r by (by rewrite length_fmap). by rewrite length_fmap, list_lookup_fmap, Ep. }
  split.
  - assert (length (omap (result_at s scores) l) = length l) as ->.
    { clear -Hin Hres. induction l as [|i l IH]; [done|]. cbn. destruct (Hres i) as (f & sc & -> & _); [apply Hin; set_solver|]. cbn. f_equal. apply IH. set_solver. }
    unfold l. rewrite length_take, length_reverse, Hperm, length_seq. done.
  - intros f (i & Hi & Ef)%list_elem_of_omap. destruct (Hres i (Hin i Hi)) as (f' & sc & E' & Esc & Hf). exists i, sc. rewrite Ef in E'. by injection E' as <-.
Qed.
End store.

(** ** A decoder that behaves as documented *)
Definition nums_of (j : json) : option (list Q) :=
  match j with JArr l => mapM (λ j, match j with JNum q => Some q | _ => None end) l | _ => None end.
Definition unit_interval (q : Q) : option Q := if Qle_bool 0 q && Qle_bool q 1 then Some q else None.

Definition decode_entry (d : list (string * json)) : option KnowledgeEntry :=
  i ← f_str d "id" (Some "fresh"); c ← f_str d "category" None; t ← f_str d "title" None; x ← f_str d "content" None; g ← f_strs d "tags";
  m ← from_option nums_of (Some []) (dget "embeddings" d); w ← f_num d "weight" (Some (1 # 2)%Q) ≫= unit_interval; s ← f_str d "source" (Some "");
  n ← f_str d "created_at" (Some "now");
  Some (mkKnowledgeEntry i c t x g m w s n).

Definition decode_pattern (d : list (string * json)) : option Pattern :=
  i ← f_str d "id" (Some "fresh"); n ← f_str d "name" None; c ← f_str d "category" None; x ← f_str d "description" None; a ← f_strs d "applicable_stacks";
  r ← f_num d "success_rate" (Some (1 # 2)%Q) ≫= unit_interval; u ← f_int d "usage_count" (Some 0%Z);
  Some (mkPatternRecord i n c x (default (JObj []) (dget "template" d)) a r u).

Lemma nums_of_jnums l : nums_of (jnums l) = Some l.
Proof. unfold nums_of, jnums. induction l as [|q l IH]; [done|]. cbn. unfold mapM in *. by rewrite IH. Qed.

Lemma unit_interval_some q r : unit_interval q = Some r ↔ r = q ∧ (0 <= q <= 1)%Q.
Proof.
  unfold unit_interval. destruct (Qle_bool 0 q && Qle_bool q 1) eqn:E.
  - apply andb_true_iff in E as [H1%Qle_bool_iff H2%Qle_bool_iff]. split; [by intros [= <-]|by intros [-> _]].
  - split; [done|]. intros [_ [H1%Qle_bool_iff H2%Qle_bool_iff]]. by rewrite H1, H2 in E.
Qed.

Lemma decode_entry_dump e : valid_entry e → decode_entry (dump_entry e) = Some e.
Proof.
  intros Hv. unfold decode_entry.
  rewrite (f_strs_ok (dump_entry e) "tags" (k_tags e) eq_refl), (f_str_ok (dump_entry e) "category" _ (category e) eq_refl),
    (f_str_ok (dump_entry e) "title" _ (k_title e) eq_refl), (f_str_ok (dump_entry e) "content" _ (content e) eq_refl),
    (f_str_ok (dump_entry e) "source" _ (k_source e) eq_refl), (f_str_ok (dump_entry e) "id" _ (k_id e) eq_refl),
    (f_str_ok (dump_entry e) "created_at" _ (created_at e) eq_refl), (f_num_ok (dump_entry e) "weight" _ (weight e) eq_refl).
  change (dget "embeddings" (dump_entry e)) with (Some (jnums (embeddings e))). cbn [from_option]. rewrite nums_of_jnums. cbn [mbind option_bind].
  rewrite (proj2 (unit_interval_some (weight e) (weight e))) by done. by destruct e.
Qed.

Lemma decode_pattern_dump p : valid_pattern p → decode_pattern (dump_pattern p) = Some p.
Proof.
  intros Hv. unfold decode_pattern.
  rewrite (f_strs_ok (dump_pattern p) "applicable_stacks" (applicable_stacks p) eq_refl), (f_int_ok (dump_pattern p) "usage_count" _ (usage_count p) eq_refl),
    (f_str_ok (dump_pattern p) "id" _ (p_id p) eq_refl), (f_str_ok (dump_pattern p) "name" _ (p_name p) eq_refl), (f_str_ok (dump_pattern p) "category" _ (p_category p) eq_refl),
    (f_str_ok (dump_pattern p) "description" _ (p_description p) eq_refl), (f_num_ok (dump_pattern p) "success_rate" _ (success_rate p) eq_refl).
  change (dget "template" (dump_pattern p)) with (Some (template_ p)). cbn [mbind option_bind].
  rewrite (proj2 (unit_interval_some (success_rate p) (success_rate p))) by done. by destruct p.
Qed.

Lemma decode_entry_valid d e : decode_entry d = Some e → valid_entry e.
Proof.
  unfold decode_entry. intros E. repeat (apply bind_Some in E as (? & ? & E)). injection E as <-.
  match goal with H : f_num _ _ _ ≫= _ = Some _ |- _ => apply bind_Some in H as (q & _ & [-> Hq]%unit_interval_some) end. exact Hq.
Qed.

Lemma decode_pattern_valid d p : decode_pattern d = Some p → valid_pattern p.
Proof.
  unfold decode_pattern. intros E. repeat (apply bind_Some in E as (? & ? & E)). injection E as <-.
  match goal with H : f_num _ _ _ ≫= _ = Some _ |- _ => apply bind_Some in H as (q & _ & [-> Hq]%unit_interval_some) end. exact Hq.
Qed.

Definition demo_path : string := "noema_knowledge.json".
Definition demo_codec (j : json) : string → parsed := λ _, Parsed j.
(** Two processes. *)
Definition first_start : startup := mkStartup (λ _, "e-one") (λ _, "monday") (λ _, "p-one").
Definition next_start : startup := mkStartup (λ _, "e-two") (λ _, "tuesday") (λ _, "p-two").
Definition demo_load (j : json) : KnowledgeStore := load (demo_codec j) demo_path decode_entry decode_pattern {[ demo_path := "text" ]} (kstore_init next_start).
Definition start : KnowledgeStore := load (demo_codec JNull) demo_path decode_entry decode_pattern ∅ (kstore_init first_start).

Lemma load_empty loads path be bp st : load loads path be bp ∅ (kstore_init st) = _build_index (kstore_init st).
Proof. unfold load. by rewrite lookup_empty. Qed.

Definition demo_run (ops : list store_op) : KnowledgeStore := foldl run_store start ops.
Definition demo_ops : list store_op :=
  [Learn ("f1", "noon") "testing" "Always run the tests" (7 # 10) "notes" ["ci"]; AddPattern (mkPatternRecord "m1" "mine" "x" "y" (JObj []) ["go"] 1 0)].

Lemma knowledge_restart_witness :
  let s := demo_run demo_ops in
  let '(fs, _, o) := _write (λ _, "text") demo_path s "r" (∅, []) in
  o = Done () ∧ restored next_start s (load (demo_codec (document s)) demo_path decode_entry decode_pattern fs (kstore_init next_start)).
Proof.
  cbn zeta. assert (Forall valid_op demo_ops) as Hv by (repeat constructor; cbn; discriminate).
  pose proof (knowledge_restart (λ _, "text") (demo_codec (document (demo_run demo_ops))) demo_path decode_entry decode_pattern
    decode_entry_valid decode_pattern_valid decode_entry_dump decode_pattern_dump first_start next_start ∅ demo_ops "r" [] eq_refl Hv) as H.
  assert (let '(_, _, o) := _write (λ _, "text") demo_path (demo_run demo_ops) "r" (∅, []) in o = Done ()) as Ho by (vm_compute; reflexivity).
  unfold demo_run, start in *. rewrite !load_empty in *. specialize (H eq_refl).
  destruct (_write _ _ _ _ _) as [[fs flts] o]. split; [exact Ho|]. apply H, Ho.
Defined.

(** Built-in records have other identifiers after a restart, learned ones keep theirs. *)
Example identifiers_after_restart :
  k_id <$> head (entries (demo_run demo_ops)) = Some "e-one"
  ∧ let s := demo_load (document (demo_run demo_ops)) in k_id <$> head (entries s) = Some "e-two" ∧ k_id <$> last (entries s) = Some "f1".
Proof. vm_compute. split_and!; reflexivity. Qed.

(** Two topics with the same fact are one after a restart. *)
Example same_fact_of_another_topic_is_lost :
  let ops := [Learn ("f1", "") "go" "Always close the body" 1 "a" []; Learn ("f2", "") "rust" "Always close the body" 1 "b" []] in
  map category (own_entries (demo_run ops)) = ["go"; "rust"] ∧ map category (own_entries (demo_load (document (demo_run ops)))) = ["go"].
Proof. vm_compute. split; reflexivity. Qed.

(** A pattern with the name of a built-in one is gone after a restart. *)
Example renewed_pattern_is_lost :
  let ops := [AddPattern (mkPattern "go-microservice" "backend" "ours" (JObj []) ["go"] 1 3)] in
  p_description <$> last (patterns (demo_run ops)) = Some "ours" ∧ patterns (demo_load (document (demo_run ops))) = BUILTIN_PATTERNS next_start.
Proof. vm_compute. split; reflexivity. Qed.

(** Entries with embeddings are not written at all. *)
Example embedded_entries_are_lost :
  let ops := [AddEntry (mkKnowledge "c" "title" "text" [] [1%Q] 1 "")] in
  length (own_entries (demo_run ops)) = 1 ∧ entries (demo_load (document (demo_run ops))) = BUILTIN_KNOWLEDGE next_start.
Proof. vm_compute. split; reflexivity. Qed.

(** One bad record hides those behind it, and the next write removes them. *)
Example bad_record_hides_the_rest :
  let good := JObj (dump_entry (mkKnowledge "c" "title" "text" [] [] 1 "")) in
  let bad := JObj [("title", JStr "no content")] in
  own_entries (demo_load (JObj [("entries", JArr [bad; good])])) = []
  ∧ length (own_entries (demo_load (JObj [("entries", JArr [good; bad])]))) = 1.
Proof. vm_compute. split; reflexivity. Qed.
