(* ===== verification/FallbackData.v ===== *)
(** * Templates of the fallback provider ([noema/llm/providers.py], [FallbackProvider._template])

    The sources the template solution is made of.  Double quotes are written as back quotes
    and restored by [quoted]; characters beyond Latin-1 are their UTF-8 bytes. *)
From Stdlib Require Import Ascii String.
From stdpp Require Import base strings.
From S2P Require Import Prelude Prompts.
Local Open Scope string_scope.

Definition python_api : string := quoted
"from fastapi import FastAPI, Depends, HTTPException, status
from pydantic import BaseModel, Field
from typing import Optional, List

app = FastAPI(title='Noema Demo API', version='1.0.0')


class Item(BaseModel):
    id: Optional[int] = None
    name: str = Field(..., min_length=2, max_length=100)
    price: float = Field(..., gt=0)
    tags: List[str] = Field(default_factory=list)


ITEMS: dict[int, Item] = {}


@app.post('/items', status_code=status.HTTP_201_CREATED)
async def create_item(item: Item) -> Item:
    new_id = max(ITEMS.keys(), default=0) + 1
    item.id = new_id
    ITEMS[new_id] = item
    return item


@app.get('/items')
async def list_items() -> List[Item]:
    return list(ITEMS.values())


@app.get('/items/{item_id}')
async def get_item(item_id: int) -> Item:
    if item_id not in ITEMS:
        raise HTTPException(status_code=404, detail='Item not found')
    return ITEMS[item_id]
".

Definition docker_py : string := quoted
"FROM python:3.12-slim

ENV PYTHONDONTWRITEBYTECODE=1 \
    PYTHONUNBUFFERED=1 \
    PIP_NO_CACHE_DIR=1

WORKDIR /app

RUN apt-get update \
 && apt-get install -y --no-install-recommends build-essential curl \
 && rm -rf /var/lib/apt/lists/*

COPY requirements.txt ./
RUN pip install --upgrade pip && pip install -r requirements.txt

COPY . .

RUN useradd -m appuser && chown -R appuser /app
USER appuser

EXPOSE 8000

CMD [`uvicorn`, `main:app`, `--host`, `0.0.0.0`, `--port`, `8000`]
".

Definition tf_aws : string := quoted
"terraform {
  required_version = `>= 1.6.0`
  required_providers {
    aws = { source  = `hashicorp/aws`; version = `~> 5.0` }
  }
}

provider `aws` { region = `us-east-1` }

resource `aws_vpc` `main` {
  cidr_block           = `10.0.0.0/16`
  enable_dns_hostnames = true
  tags = { Name = `noema-vpc` }
}

resource `aws_subnet` `public` {
  count             = 2
  vpc_id            = aws_vpc.main.id
  cidr_block        = cidrsubnet(aws_vpc.main.cidr_block, 8, count.index)
  availability_zone = element(data.aws_availability_zones.available.names, count.index)
  tags = { Name = `noema-public-${count.index}` }
}

data `aws_availability_zones` `available` { state = `available` }
".

Definition rbac_py : string := quoted
"from __future__ import annotations
from dataclasses import dataclass, field
from typing import Dict, Set, List


ROLE_PERMISSIONS: Dict[str, Set[str]] = {
    'admin': {'read', 'write', 'delete', 'manage_users', 'manage_roles'},
    'editor': {'read', 'write', 'delete'},
    'viewer': {'read'},
}


@dataclass
class RBAC:
    user_roles: Dict[str, Set[str]] = field(default_factory=dict)

    def assign(self, user: str, role: str) -> None:
        if role not in ROLE_PERMISSIONS:
            raise ValueError(f'Unknown role: {role}')
        self.user_roles.setdefault(user, set()).add(role)

    def permissions(self, user: str) -> Set[str]:
        perms: Set[str] = set()
        for r in self.user_roles.get(user, set()):
            perms |= ROLE_PERMISSIONS[r]
        return perms

    def can(self, user: str, permission: str) -> bool:
        return permission in self.permissions(user)
".

Definition pytest_py : string := quoted
"import pytest
from fastapi.testclient import TestClient


class TestHealth:
    def test_ok(self, client: TestClient) -> None:
        r = client.get('/health')
        assert r.status_code == 200
        assert r.json()['status'] == 'ok'


class TestCreateItem:
    def test_create(self, client: TestClient) -> None:
        r = client.post('/items', json={'name': 'Widget', 'price': 9.99})
        assert r.status_code == 201
        body = r.json()
        assert body['id'] == 1
        assert body['name'] == 'Widget'

    def test_invalid_price(self, client: TestClient) -> None:
        r = client.post('/items', json={'name': 'Bad', 'price': -1})
        assert r.status_code == 422
".

Definition sql_schema : string := quoted
"CREATE EXTENSION IF NOT EXISTS pgcrypto;

CREATE TABLE users (
    id            UUID PRIMARY KEY DEFAULT gen_random_uuid(),
    email         TEXT UNIQUE NOT NULL CHECK (email ~* '^.+@.+$'),
    password_hash TEXT NOT NULL,
    display_name  TEXT,
    role          TEXT NOT NULL DEFAULT 'viewer' CHECK (role IN ('admin','editor','viewer')),
    created_at    TIMESTAMPTZ NOT NULL DEFAULT NOW(),
    updated_at    TIMESTAMPTZ NOT NULL DEFAULT NOW()
);

CREATE TABLE items (
    id         BIGSERIAL PRIMARY KEY,
    owner_id   UUID NOT NULL REFERENCES users(id) ON DELETE CASCADE,
    name       TEXT NOT NULL CHECK (length(name) BETWEEN 2 AND 100),
    price      NUMERIC(12,2) NOT NULL CHECK (price > 0),
    created_at TIMESTAMPTZ NOT NULL DEFAULT NOW()
);

CREATE INDEX idx_items_owner ON items(owner_id);
".

Definition airflow_dag : string := quoted
"from __future__ import annotations
from datetime import datetime, timedelta
from airflow import DAG
from airflow.operators.python import PythonOperator


DEFAULT_ARGS = {
    'owner': 'noema',
    'depends_on_past': False,
    'email_on_failure': False,
    'retries': 2,
    'retry_delay': timedelta(minutes=5),
}


def _extract(**_):
    print('extract: read from source')


def _transform(**_):
    print('transform: clean and aggregate')


def _load(**_):
    print('load: write to warehouse')


with DAG(
    dag_id='noema_etl',
    default_args=DEFAULT_ARGS,
    schedule_interval='@daily',
    start_date=datetime(2025, 1, 1),
    catchup=False,
    tags=['noema', 'etl'],
) as dag:
    extract = PythonOperator(task_id='extract', python_callable=_extract)
    transform = PythonOperator(task_id='transform', python_callable=_transform)
    load = PythonOperator(task_id='load', python_callable=_load)
    extract >> transform >> load
".

Definition react_component : string := quoted
"import React, { useEffect, useState } from 'react';
import type { Item } from './types';


interface ItemListProps {
  fetchItems: () => Promise<Item[]>;
}

export const ItemList: React.FC<ItemListProps> = ({ fetchItems }) => {
  const [items, setItems] = useState<Item[]>([]);
  const [loading, setLoading] = useState(true);
  const [error, setError] = useState<string | null>(null);

  useEffect(() => {
    let cancelled = false;
    setLoading(true);
    fetchItems()
      .then((data) => { if (!cancelled) setItems(data); })
      .catch((err) => { if (!cancelled) setError(String(err)); })
      .finally(() => { if (!cancelled) setLoading(false); });
    return () => { cancelled = true; };
  }, [fetchItems]);

  if (loading) return <div className='spinner'>Loading…</div>;
  if (error) return <div className='error'>{error}</div>;

  return (
    <ul className='item-list'>
      {items.map((it) => (
        <li key={it.id} className='item'>
          <strong>{it.name}</strong>
          <span>${Number(it.price).toFixed(2)}</span>
        </li>
      ))}
    </ul>
  );
};

export default ItemList;
".
