(* ===== verification/Providers.v ===== *)
(** * Language model providers ([noema/llm/providers.py])

    [complete], which every provider shares: the semantic cache ([SemanticCache]) in front
    of the resilient executor ([CircuitBreaker]), and a span of the tracer ([Tracer]) for
    every call.  What the provider's [_complete] does is a parameter that acts on the world
    behind it, with clock, pauses and randomness ([Clients] has the providers themselves);
    several calls share cache, tracer and breaker, and one call is followed from beginning
    to end here.  An exception is its class, as in [CircuitBreaker]; its text is what
    [show_exn] makes of that. *)
From Stdlib Require Import ZArith QArith Lia Bool Ascii String.
From stdpp Require Import base option numbers sets strings list.
From S2P Require Import Prelude CircuitBreaker Symbolic Prompts CoreTypes SemanticCache Regex RegexSpec Security Tracer.
Local Open Scope string_scope.
Local Open Scope list_scope.
Local Open Scope nat_scope.

Record LLMMessage := mkMessage { role : string; m_content : string }.

Record LLMResponse := mkLLM {
  content : string; l_model : string; tokens_used : Z; l_input : Z; l_output : Z; l_error : string; latency_ms : Q; finish_reason : string;
}.

Definition model_dump (m : LLMMessage) : list (string * string) := [("role", role m); ("content", m_content m)].

Definition LLMProviderError : exn := OtherException "LLMProviderError".
Definition is_provider_error (e : exn) : bool := match e with OtherException c => String.eqb c "LLMProviderError" | _ => false end.

(** The policy of [BaseLLMProvider.__init__]. *)
Definition llm_policy (name : string) (retries : Z) (base maxd jit : Q) : RetryPolicy :=
  mkRetry name retries base maxd jit is_Exception is_provider_error.

(** ** Texts in answers *)

(** The text between the first [open_fence] from [from_pos] on and the next fence. *)
Definition _between (text open_fence : string) (from_pos : nat) : option string :=
  match String.index from_pos open_fence text with
  | None => None
  | Some start =>
      let start := start + String.length open_fence in
      match String.index start "```" text with
      | None => None
      | Some end_ => Some (strip (slice start end_ text))
      end
  end.

Definition _extract_code (text language : string) : string :=
  match (if within ("```" +:+ language) text then _between text ("```" +:+ language) 0 else None) with
  | Some extracted => extracted
  | None =>
      match (if within "```" text then _between text "```" 0 else None) with
      | Some extracted => extracted
      | None => strip text
      end
  end.

Definition _extract_json (loads : string → option json) (text : string) : json :=
  let text := strip_fences text in
  match loads text with
  | Some j => j
  | None => JObj [("error", JStr "Failed to parse JSON"); ("raw", JStr (prefix 500 text))]
  end.

Definition code_messages (prompt language context : string) : list LLMMessage :=
  let system_msg := "You are an expert " +:+ language +:+ " developer. "
    +:+ "Generate production-ready, well-structured code. "
    +:+ "Do not include explanations, only code in markdown code blocks. "
    +:+ "Follow best practices and clean code principles." in
  let system_msg := if nonempty context then system_msg +:+ nl +:+ nl +:+ "Context:" +:+ nl +:+ context else system_msg in
  [mkMessage "system" system_msg; mkMessage "user" prompt].

Definition architecture_messages (task_description : string) (constraints : list string) : list LLMMessage :=
  let system_msg := quoted "You are a senior software architect. Analyze the task and produce a JSON architecture specification.
Return ONLY valid JSON with these keys:
- `pattern`: {`name`: `...`, `description`: `...`, `pros`: [...], `cons`: [...]}
- `components`: [{`name`: `...`, `type`: `...`, `responsibility`: `...`}]
- `communication`: {`sync`: `...`, `async`: `...`}
- `deployment`: {`containerization`: `...`, `orchestration`: `...`}
- `tech_risks`: [{`risk`: `...`, `mitigation`: `...`}]" in
  let user_msg := "Task: " +:+ task_description in
  let user_msg := match constraints with [] => user_msg | _ => user_msg +:+ nl +:+ "Constraints: " +:+ join ", " constraints end in
  [mkMessage "system" system_msg; mkMessage "user" user_msg].

Section complete.
Context {X : Type} (clock : X → Q) (sleep : Q → X → X) (rand : X → X * Q).
Context (hash : list message → string) (embed : string → list Q) (repr : json → string) (dumps : list (list (string * string)) → string).
Context (p_name model_name : string) (policy : RetryPolicy) (show_exn : exn → string).
(** A new span identifier and the two clocks, at the beginning and at the end of a span. *)
Context (stamp : X → string * Q * Q * Z * Z).
Context (_complete : list LLMMessage → Q → Z → X → X * outcome LLMResponse).

Record provider := mkProvider { cache : SemanticCache; tracer : Tracer; breaker : CircuitBreaker; outside : X }.

Definition traced (x : llm_call) (s : provider) : provider :=
  let '(uid, m1, m2, e1, e2) := stamp (outside s) in
  mkProvider (cache s) (trace_llm_call repr dumps x uid m1 m2 e1 e2 (tracer s)).2 (breaker s) (outside s).

Definition latency (t0 : Q) (s : provider) : Q := ((clock (outside s) - t0) * 1000)%Q.

(** The handler [except Exception]: the failure is traced and raised again. *)
Definition failed (t0 : Q) (dicts : list (list (string * string))) (e : exn) (s : provider) : provider * outcome LLMResponse :=
  if is_Exception e
  then (traced (mkCall p_name model_name dicts "" 0 (latency t0 s) (show_exn e) None None) s, Raised e)
  else (s, Raised e).

(** [complete]; [context_tenant]: the tenant variable. *)
Definition complete (messages : list LLMMessage) (temperature : Q) (max_tokens : Z) (tenant_id context_tenant : string) (s : provider) :
    provider * outcome LLMResponse :=
  let dicts := map model_dump messages in
  let t := effective_tenant tenant_id context_tenant in
  let '(c, cached) := SemanticCache.get hash embed (cache s) dicts model_name t context_tenant in
  let s := mkProvider c (tracer s) (breaker s) (outside s) in
  match cached with
  | Some text =>
      (traced (mkCall p_name model_name dicts text 0 (1 # 2) "" None None) s, Returned (mkLLM text model_name 0 0 0 "" 0 ""))
  | None =>
      let t0 := clock (outside s) in
      let '(b, x, o) := resilient_execute clock sleep rand policy (_complete messages temperature max_tokens) (breaker s) (outside s) in
      let s := mkProvider (cache s) (tracer s) b x in
      match o with
      | Raised e => failed t0 dicts e s
      | Returned r =>
          if nonempty (l_error r) then failed t0 dicts LLMProviderError s
          else
            let stored := if (0 <? tokens_used r)%Z
              then SemanticCache.set hash embed (cache s) dicts (content r) model_name (tokens_used r) t context_tenant (clock x) else Ok (cache s) in
            match stored with
            | Err _ => failed t0 dicts (OtherException "ValueError") s
            | Ok c =>
                let s' := mkProvider c (tracer s) b x in
                (traced (mkCall p_name model_name dicts (content r) (tokens_used r) (latency t0 s) "" (Some (l_input r)) (Some (l_output r))) s', Returned r)
            end
      end
  end.

(** [generate_code] and [generate_architecture]; the tenant is the one of the context. *)
Definition then_ {A} (f : LLMResponse → A) (x : provider * outcome LLMResponse) : provider * outcome A :=
  (x.1, match x.2 with Returned r => Returned (f r) | Raised e => Raised e end).

Definition generate_code (prompt language context context_tenant : string) (s : provider) : provider * outcome string :=
  then_ (λ r, _extract_code (content r) language) (complete (code_messages prompt language context) (3 # 10) 4096 "" context_tenant s).

Definition generate_architecture (loads : string → option json) (task_description : string) (constraints : list string) (context_tenant : string)
    (s : provider) : provider * outcome json :=
  then_ (λ r, _extract_json loads (content r)) (complete (architecture_messages task_description constraints) (4 # 10) 2048 "" context_tenant s).

Definition provider_stats (s : provider) : provider * (string * string * (cb_stats * (string * Z * Q * Q))) :=
  let '(b, st) := executor_stats (clock (outside s)) policy (breaker s) in
  (mkProvider (cache s) (tracer s) b (outside s), (p_name, model_name, st)).

(** ** What a call does *)

(** The spans a call adds: one with the tokens it is charged for. *)
Definition one_span (s s' : provider) (tokens : Z) (ok : bool) : Prop :=
  ∃ x, map attributes (heap (tracer s')) = map attributes (heap (tracer s)) ++ [llm_attributes dumps (config (tracer s)) x]
    ∧ c_tokens x = tokens ∧ (ok = true → c_error x = "").

Lemma traced_span x s : one_span s (traced x s) (c_tokens x) (negb (nonempty (c_error x))).
Proof.
  unfold traced. destruct (stamp (outside s)) as [[[[uid m1] m2] e1] e2]. exists x. cbn [tracer].
  destruct (trace_step_attrs repr dumps (tracer s) (Llm x uid m1 m2 e1 e2) _ eq_refl) as [-> _]. split_and!; [done|done|].
  unfold nonempty. rewrite negb_involutive. by intros ->%String.eqb_eq.
Qed.

Lemma traced_other x s : cache (traced x s) = cache s ∧ breaker (traced x s) = breaker s ∧ outside (traced x s) = outside s.
Proof. unfold traced. by destruct (stamp (outside s)) as [[[[uid m1] m2] e1] e2]. Qed.

(** Calls of the provider: [calls] counts them in the world behind. *)
Context (calls : X → nat).
Context (calls_complete : ∀ ms temp mx x, calls (_complete ms temp mx x).1 = S (calls x)).
Context (calls_sleep : ∀ d x, calls (sleep d x) = calls x) (calls_rand : ∀ x, calls (rand x).1 = calls x).

Lemma cb_execute_calls ms temp mx b x :
  let '(_, x', o) := cb_execute clock (_complete ms temp mx) b x in
  calls x <= calls x' <= S (calls x) ∧ (∀ r, o = Returned r → ∃ y, (_complete ms temp mx y).2 = Returned r).
Proof.
  unfold cb_execute. destruct (enter (clock x) b) as [b1 [e|]]; [split; [lia|done]|].
  pose proof (calls_complete ms temp mx x) as Hc. destruct (_complete ms temp mx x) as [x1 o] eqn:E. cbn in Hc. split; [lia|].
  intros r ->. exists x. by rewrite E.
Qed.

Lemma retry_calls ms temp mx n : ∀ attempt last bx,
  let '((b', x'), o) := retry_loop policy (λ '(b, s), let '(b, s, o) := cb_execute clock (_complete ms temp mx) b s in ((b, s), o))
    (λ d '(b, s), (b, sleep d s)) (λ '(b, s), let '(s, u) := rand s in ((b, s), u)) n attempt last bx in
  calls bx.2 <= calls x' <= calls bx.2 + n ∧ (∀ r, o = Returned r → ∃ y, (_complete ms temp mx y).2 = Returned r).
Proof.
  induction n as [|n IH]; intros attempt last [b x]; cbn [retry_loop]; [split; [cbn; lia|done]|].
  pose proof (cb_execute_calls ms temp mx b x) as H1. destruct (cb_execute _ _ _ _) as [[b1 x1] o]. destruct H1 as [H1 H2].
  destruct o as [r|e]; [split; [cbn; lia|by intros r' [= <-]; apply H2]|]. destruct (is_Exception e && _); [|split; [cbn; lia|done]].
  destruct (non_retryable_exceptions policy e); [split; [cbn; lia|done]|].
  destruct (Z.of_nat attempt <? max_retries policy)%Z.
  - pose proof (calls_rand x1) as Hr. destruct (rand x1) as [x2 u]. cbn in Hr.
    specialize (IH (S attempt) (Some e) (b1, sleep (_calc_delay policy u attempt) x2)).
    destruct (retry_loop _ _ _ _ n _ _ _) as [[b3 x3] o3]. cbn [snd] in *. rewrite calls_sleep in IH. destruct IH as [IH1 IH2]. split; [lia|done].
  - specialize (IH (S attempt) (Some e) (b1, x1)). destruct (retry_loop _ _ _ _ n _ _ _) as [[b3 x3] o3]. cbn [snd] in *. destruct IH as [IH1 IH2].
    split; [lia|done].
Qed.

Lemma resilient_calls ms temp mx b x :
  let '(_, x', o) := resilient_execute clock sleep rand policy (_complete ms temp mx) b x in
  calls x <= calls x' <= calls x + Z.to_nat (max_retries policy + 1) ∧ (∀ r, o = Returned r → ∃ y, (_complete ms temp mx y).2 = Returned r).
Proof.
  unfold resilient_execute, retry_execute. pose proof (retry_calls ms temp mx (Z.to_nat (max_retries policy + 1)) 0 None (b, x)) as H.
  by destruct (retry_loop _ _ _ _ _ _ _ _) as [[b1 x1] o].
Qed.

Lemma failed_spec t0 dicts e s :
  let '(s', o) := failed t0 dicts e s in
  o = Raised e ∧ cache s' = cache s ∧ outside s' = outside s ∧ (is_Exception e = true → one_span s s' 0 false).
Proof.
  unfold failed. destruct (is_Exception e); [|done]. destruct (traced_other (mkCall p_name model_name dicts "" 0 (latency t0 s) (show_exn e) None None) s) as (H1 & _ & H3).
  split_and!; [done|done|done|]. intros _. destruct (traced_span (mkCall p_name model_name dicts "" 0 (latency t0 s) (show_exn e) None None) s) as (x & Hx & Ht & _).
  by exists x.
Qed.

Lemma effective_idem tenant ctx : effective_tenant (effective_tenant tenant ctx) ctx = effective_tenant tenant ctx.
Proof. unfold effective_tenant. destruct (nonempty tenant) eqn:En; [by rewrite En|by destruct (nonempty ctx)]. Qed.

Lemma get_cases c dicts mdl t ctx :
  let '(c', r) := SemanticCache.get hash embed c dicts mdl t ctx in
  match r with
  | Some text => ∃ k e, dget k (_entries c) = Some e ∧ response e = text
  | None => _entries c' = _entries c
  end.
Proof.
  unfold SemanticCache.get. destruct (dget (cache_key _ _ _) (_entries c)) as [e|] eqn:E; [by exists (cache_key hash dicts (effective_tenant t ctx)), e|].
  destruct (_ <? _)%Z; [|done]. destruct (candidates _ _ _ _) as [|q l]; [done|]. destruct (argmax q l) as [k sim]. destruct (Qle_bool _ _); [|done].
  destruct (dget k (_entries c)) as [e|] eqn:E2; [by exists k, e|done].
Qed.

Lemma set_entry c dicts resp mdl tok t ctx now c' :
  SemanticCache.set hash embed c dicts resp mdl tok t ctx now = Ok c' →
  ∃ e, dget (cache_key hash dicts (effective_tenant t ctx)) (_entries c') = Some e ∧ response e = resp.
Proof.
  unfold SemanticCache.set. destruct (if _ : bool then _ else _) as [c1|]; [|done]. cbn. intros [= <-]. cbn. rewrite dget_dset_eq. eauto.
Qed.

(** C38: A call of a provider is accounted for.  A response is never one that reports a
    failure: it is a text of the cache, for which the provider is not asked and no tokens
    are charged, or what the provider returned, with its tokens in the one span that is
    added, and in the cache exactly if it cost tokens.  A failure leaves the entries of the
    cache alone and is traced (cancellation apart) without tokens.  The provider is called
    at most once more than there are retries. *)
Theorem complete_accounts ms temp mx tenant ctx s :
  let '(s', o) := complete ms temp mx tenant ctx s in
  calls (outside s) <= calls (outside s') <= calls (outside s) + Z.to_nat (max_retries policy + 1)
  ∧ match o with
    | Returned r =>
        l_error r = ""
        ∧ ((∃ k e, dget k (_entries (cache s)) = Some e ∧ response e = content r) ∧ outside s' = outside s ∧ one_span s s' 0 true
           ∨ (∃ y, (_complete ms temp mx y).2 = Returned r) ∧ one_span s s' (tokens_used r) true
             ∧ (if (0 <? tokens_used r)%Z
                then ∃ e, dget (cache_key hash (map model_dump ms) (effective_tenant tenant ctx)) (_entries (cache s')) = Some e ∧ response e = content r
                else _entries (cache s') = _entries (cache s)))
    | Raised e => _entries (cache s') = _entries (cache s) ∧ (is_Exception e = true → one_span s s' 0 false)
    end.
Proof.
  unfold complete. set (dicts := map model_dump ms). set (t := effective_tenant tenant ctx).
  pose proof (get_cases (cache s) dicts model_name t ctx) as Hg. destruct (SemanticCache.get _ _ _ _ _ _ _) as [c [text|]].
  - set (x := mkCall _ _ _ _ _ _ _ _ _). set (s1 := mkProvider _ _ _ _). pose proof (traced_span x s1) as Hsp.
    destruct (traced_other x s1) as (_ & _ & Ho). rewrite Ho. split; [cbn; lia|]. split; [done|]. left. by split_and!.
  - cbn [outside breaker cache tracer]. pose proof (resilient_calls ms temp mx (breaker s) (outside s)) as Hr.
    destruct (resilient_execute _ _ _ _ _ _ _) as [[b x] o]. destruct Hr as [Hcalls Hret].
    assert (∀ e t0, let '(s', o) := failed t0 dicts e (mkProvider c (tracer s) b x) in
      calls (outside s) <= calls (outside s') <= calls (outside s) + Z.to_nat (max_retries policy + 1)
      ∧ o = Raised e ∧ _entries (cache s') = _entries (cache s) ∧ (is_Exception e = true → one_span s s' 0 false)) as Hfail.
    { intros e t0. pose proof (failed_spec t0 dicts e (mkProvider c (tracer s) b x)) as H1. destruct (failed _ _ _ _) as [s' o'].
      destruct H1 as (-> & H2 & H3 & H4). rewrite H2, H3. split_and!; [cbn; lia|cbn; lia|done|done|done]. }
    destruct o as [r|e]; [|specialize (Hfail e (clock (outside s))); destruct (failed _ _ _ _) as [s' o']; by destruct Hfail as ([? ?] & -> & ?)].
    destruct (nonempty (l_error r)) eqn:Ee;
      [specialize (Hfail LLMProviderError (clock (outside s))); destruct (failed _ _ _ _) as [s' o']; by destruct Hfail as ([? ?] & -> & ?)|].
    set (st := if _ : bool then _ else _). destruct st as [c2|] eqn:Est;
      [|specialize (Hfail (OtherException "ValueError") (clock (outside s))); destruct (failed _ _ _ _) as [s' o']; by destruct Hfail as ([? ?] & -> & ?)].
    set (s2 := mkProvider c2 _ _ _). set (call := mkCall _ _ _ _ _ _ _ _ _). pose proof (traced_span call s2) as Hsp.
    destruct (traced_other call s2) as (Hc & _ & Ho). rewrite Hc, Ho. split; [cbn; lia|]. split; [by apply negb_false_iff, String.eqb_eq in Ee|].
    right. split_and!; [by apply Hret|done|]. subst st s2. cbn [cache]. destruct (0 <? tokens_used r)%Z; [|injection Est as <-; done].
    destruct (set_entry _ _ _ _ _ _ _ _ _ Est) as (e & E1 & E2). exists e. split; [|done].
    unfold t in E1. by rewrite effective_idem in E1.
Qed.

(** What cost tokens is not paid for again. *)
Lemma complete_again ms temp mx tenant ctx s e text :
  dget (cache_key hash (map model_dump ms) (effective_tenant tenant ctx)) (_entries (cache s)) = Some e → response e = text →
  let '(s', o) := complete ms temp mx tenant ctx s in outside s' = outside s ∧ ∃ r, o = Returned r ∧ content r = text ∧ tokens_used r = 0%Z.
Proof.
  intros E <-. unfold complete, SemanticCache.get.
  rewrite effective_idem, E. cbn [hit]. set (s1 := mkProvider _ _ _ _). set (x := mkCall _ _ _ _ _ _ _ _ _). destruct (traced_other x s1) as (_ & _ & ->). split; [done|]. eexists. split_and!; reflexivity.
Qed.
End complete.

(** ** Two calls, the first of which times out, behind an empty cache *)
Definition demo_world : Type := nat.
Definition demo_answer : LLMResponse := mkLLM "done" "demo" 7 3 4 "" 0 "stop".
Definition demo_complete (_ : list LLMMessage) (_ : Q) (_ : Z) (x : demo_world) : demo_world * outcome LLMResponse :=
  (S x, match x with O => Raised (OtherException "TimeoutError") | S _ => Returned demo_answer end).
Definition demo_provider : provider := mkProvider (cache_init 8 (9 # 10)) (tracer_init demo_config "trace") (cb_init "llm-demo" 5 60 1) 0.
Definition demo_call : provider * outcome LLMResponse :=
  complete (λ x : demo_world, inject_Z (Z.of_nat x)) (λ _ x, x) (λ x, (x, 0%Q)) demo_hash demo_embed (λ _, "") (λ _, "") "demo" "demo"
    (llm_policy "llm-demo" 2 1 30 (1 # 10)) (λ _, "error") (λ _, ("id", 0%Q, 0%Q, 0%Z, 0%Z)) demo_complete
    [mkMessage "user" "hello"] (7 # 10) 4096 "acme" "" demo_provider.

Lemma demo_call_result : outside demo_call.1 = 2 ∧ demo_call.2 = Returned demo_answer ∧ length (_entries (cache demo_call.1)) = 1.
Proof. vm_compute. done. Qed.

Lemma complete_accounts_witness :
  outside demo_call.1 = 2 ∧ demo_call.2 = Returned demo_answer ∧ one_span (λ _, "") demo_provider demo_call.1 7 true.
Proof.
  destruct demo_call_result as (Hout & Hres & _). split_and!; [done|done|].
  pose proof (complete_accounts (λ x : demo_world, inject_Z (Z.of_nat x)) (λ _ x, x) (λ x, (x, 0%Q)) demo_hash demo_embed (λ _, "") (λ _, "")
    "demo" "demo" (llm_policy "llm-demo" 2 1 30 (1 # 10)) (λ _, "error") (λ _, ("id", 0%Q, 0%Q, 0%Z, 0%Z)) demo_complete (λ x, x)
    (λ _ _ _ _, eq_refl) (λ _ _, eq_refl) (λ _, eq_refl) [mkMessage "user" "hello"] (7 # 10) 4096 "acme" "" demo_provider) as H.
  fold demo_call in H. destruct demo_call as [s' o]. cbn [fst snd] in Hout, Hres. subst o.
  destruct H as (_ & _ & [(_ & Ho & _)|(_ & Hs & _)]); [by rewrite Ho in Hout|exact Hs].
Defined.
