(* ===== verification/Clients.v ===== *)
(** * The providers behind [complete] ([noema/llm/providers.py])

    The requests the OpenAI, Anthropic and Ollama clients send and what they make of the
    answers, Ollama's health check, whose result is remembered, and the fallback, which
    answers from templates ([FallbackData]).  The client libraries and the HTTP exchanges
    are parameters that act on the world behind the provider. *)
From Stdlib Require Import ZArith QArith Lqa Lia Bool Ascii String.
From stdpp Require Import base option numbers sets strings list.
From S2P Require Import Prelude CircuitBreaker Symbolic Prompts CoreTypes SemanticCache Regex RegexSpec Security Tracer FallbackData Providers.
Local Open Scope string_scope.
Local Open Scope list_scope.
Local Open Scope nat_scope.

(** What a chat request carries. *)
Record request := mkRequest {
  rq_model : string; rq_system : option string; rq_messages : list message; rq_temperature : Q; rq_max_tokens : Z;
}.

Definition or_empty (s : option string) : string := default "" s.

Section clients.
Context {X : Type} (clock : X → Q).
Context (_model : string).

(** ** OpenAI

    [sdk]: whether the package can be imported; [construct]: the exception of the client's
    constructor. *)
Record completion := mkCompletion {
  choices : list (option string * option string);           (* content and finish reason *)
  cc_model : string; cc_usage : option (Z * Z * Z);         (* total, prompt and completion tokens *)
}.

Definition openai_complete (sdk : bool) (construct : option exn) (create : request → X → X * outcome completion)
    (messages : list LLMMessage) (temperature : Q) (max_tokens : Z) (x : X) : X * outcome LLMResponse :=
  if negb sdk then (x, Raised LLMProviderError)
  else
    match construct with
    | Some e => (x, Raised (if is_Exception e then LLMProviderError else e))
    | None =>
        let t0 := clock x in
        let '(x, o) := create (mkRequest _model None (map model_dump messages) temperature max_tokens) x in
        match o with
        | Raised e => (x, Raised e)
        | Returned response =>
            match choices response with
            | [] => (x, Raised (OtherException "IndexError"))
            | (text, reason) :: _ =>
                let '(total, prompt, completion) := default (0, 0, 0)%Z (cc_usage response) in
                (x, Returned (mkLLM (or_empty text) (cc_model response) total prompt completion "" ((clock x - t0) * 1000) (or_empty reason)))
            end
        end
    end.

(** ** Anthropic *)
Record anthropic_message := mkAnswer {
  blocks : list (option string);                            (* the [text] of a block, if it is one of text *)
  a_model : string; a_usage : option (Z * Z);               (* input and output tokens *)
  stop_reason : option string;
}.

Definition is_system (m : LLMMessage) : bool := String.eqb (role m) "system".

(** The loop over the messages: the system text and the other messages. *)
Definition split_system (messages : list LLMMessage) : string * list message :=
  foldl (λ '(system_content, user_messages) m,
    if is_system m then (system_content +:+ m_content m +:+ nl, user_messages) else (system_content, user_messages ++ [model_dump m]))
    ("", []) messages.

Fixpoint first_text (l : list (option string)) : string :=
  match l with [] => "" | Some text :: _ => text | None :: l => first_text l end.

Definition anthropic_complete (sdk : bool) (construct : option exn) (create : request → X → X * outcome anthropic_message)
    (messages : list LLMMessage) (temperature : Q) (max_tokens : Z) (x : X) : X * outcome LLMResponse :=
  if negb sdk then (x, Raised LLMProviderError)
  else
    match construct with
    | Some e => (x, Raised e)
    | None =>
        let t0 := clock x in
        let '(system_content, user_messages) := split_system messages in
        let '(x, o) := create (mkRequest _model (Some (strip system_content)) user_messages temperature max_tokens) x in
        match o with
        | Raised e => (x, Raised e)
        | Returned response =>
            let '(input, output) := default (0, 0)%Z (a_usage response) in
            (x, Returned (mkLLM (first_text (blocks response)) (a_model response) (input + output) input output "" ((clock x - t0) * 1000)
              (or_empty (stop_reason response))))
        end
    end.

(** ** Ollama *)
Record health := mkHealth { _health_checked : bool; _health_ok : bool; _health_failed_at : Q }.

Definition health_init : health := mkHealth false false 0.

(** An answer of [/api/chat] with the fields Ollama documents, any of which may be missing. *)
Record chat_data := mkChat { chat_message : option (option string); eval_count : option Z; prompt_eval_count : option Z }.

(** The classes the handlers name: [ClientError], [TimeoutError], [ConnectionError]. *)
Context (is_network : exn → bool).
(** [GET /api/tags] up to its status, and the text of an answer. *)
Context (get_tags : X → X * outcome Z) (tags_text : X → X * outcome string).
(** [POST /api/chat] up to its status, the text of the answer and the answer as JSON. *)
Context (post_chat : request → X → X * outcome Z) (chat_text : X → X * outcome string) (chat_json : X → X * outcome chat_data).
Context (_health_recovery : Q).

(** The handler of network failures. *)
Definition network_failed {A} (h : health) (x : X) (e : exn) : health * X * outcome A :=
  if is_network e then (mkHealth (_health_checked h) false (clock x), x, Raised LLMProviderError) else (h, x, Raised e).

Definition _health_check (h : health) (x : X) : health * X * outcome unit :=
  if _health_ok h then (h, x, Returned tt)
  else if _health_checked h && Qltb (clock x - _health_failed_at h) _health_recovery then (h, x, Raised LLMProviderError)
  else
    let h := mkHealth true false (_health_failed_at h) in
    let '(x, o) := get_tags x in
    match o with
    | Raised e => network_failed h x e
    | Returned status =>
        if (status =? 200)%Z then (mkHealth true true 0, x, Returned tt)
        else
          let '(x, body) := tags_text x in
          match body with
          | Raised e => network_failed h x e
          | Returned _ => (mkHealth true false (clock x), x, Raised LLMProviderError)
          end
    end.

Definition ollama_complete (messages : list LLMMessage) (temperature : Q) (max_tokens : Z) (hx : health * X) : health * X * outcome LLMResponse :=
  let '(h, x, o) := _health_check hx.1 hx.2 in
  match o with
  | Raised e => (h, x, Raised e)
  | Returned _ =>
      let t0 := clock x in
      let '(x, o) := post_chat (mkRequest _model None (map model_dump messages) temperature max_tokens) x in
      match o with
      | Raised e => network_failed h x e
      | Returned status =>
          if negb (status =? 200)%Z then
            let '(x, body) := chat_text x in
            network_failed h x (match body with Raised e => e | Returned _ => OtherException "ConnectionError" end)
          else
            let '(x, o) := chat_json x in
            match o with
            | Raised e => network_failed h x e
            | Returned data =>
                let input := default 0%Z (prompt_eval_count data) in
                let output := default 0%Z (eval_count data) in
                (h, x, Returned (mkLLM (or_empty (mjoin (chat_message data))) _model (output + input) input output "" ((clock x - t0) * 1000) "stop"))
            end
      end
  end.
End clients.

(** ** The fallback *)
Definition word_re : re := plus (Ch is_word).                (* \w+ *)

(** [_hits]; the tokens are those of the text. *)
Definition _hits (text keyword : string) : bool :=
  if within " " keyword then match search (seqs [WB; lit keyword; WB]) text with Some _ => true | None => false end
  else if ends_with "_" keyword then existsb (String.prefix keyword) (hits word_re text)
  else existsb (String.eqb keyword) (hits word_re text).

Definition keywords : list (string * list string) := [
  ("terraform", ["terraform"; "hcl"; "infrastructure"; "aws"; "gcp"; "azure"; "iac"]);
  ("docker", ["dockerfile"; "container"; "docker build"; "image"]);
  ("database", ["schema"; "postgres"; "mysql"; "database"; "sql"; "migration"]);
  ("auth", ["rbac"; "auth"; "login"; "jwt"; "permission"; "role"]);
  ("pipeline", ["pipeline"; "etl"; "airflow"; "dataflow"; "dags"]);
  ("api", ["api"; "endpoint"; "rest"; "fastapi"; "flask"; "backend"]);
  ("frontend", ["react"; "ui"; "frontend"; "component"; "html"; "css"]);
  ("security", ["security"; "vulnerability"; "scan"; "threat"; "owasp"]);
  ("test", ["unit test"; "pytest"; "test_"; "testing"; "assert"])].

Definition recent_text (messages : list LLMMessage) : string := lower (join nl (map m_content (py_last 3 messages))).

Definition score (text : string) (kws : list string) : nat := length (filter (λ k, _hits text k = true) kws).

Definition best_label (text : string) (table : list (string * list string)) : string * nat :=
  foldl (λ best l, if (best.2 <? score text l.2)%nat then (l.1, score text l.2) else best) ("general", 0) table.

Definition _classify (messages : list LLMMessage) : string := (best_label (recent_text messages) keywords).1.

Definition file_entry (path text description : string) : json :=
  JObj [("path", JStr path); ("content", JStr text); ("description", JStr description)].

Definition files : list json := [
  file_entry "app/main.py" python_api "FastAPI service scaffold (CRUD items)";
  file_entry "tests/test_api.py" pytest_py "Pytest cases for the API";
  file_entry "Dockerfile" docker_py "Production image for the service";
  file_entry "infra/main.tf" tf_aws "AWS VPC + subnet IaC";
  file_entry "auth/rbac.py" rbac_py "Role-based access control module";
  file_entry "db/schema.sql" sql_schema "PostgreSQL schema (users + items)";
  file_entry "pipelines/etl_dag.py" airflow_dag "Airflow DAG for ETL";
  file_entry "web/ItemList.tsx" react_component "React list component"].

Definition pick_general : list nat := [0; 2; 4; 5].
Definition pick : list (string * list nat) := [
  ("api", [0; 1; 2]); ("docker", [2; 0]); ("terraform", [3; 2]); ("database", [5; 0]); ("auth", [4; 0; 5]); ("pipeline", [6; 0; 1]);
  ("frontend", [7; 0; 1]); ("security", [4; 5; 1]); ("test", [1; 0]); ("general", pick_general)].

Definition strs (l : list string) : json := JArr (map JStr l).

(** [_template]; an index outside of [files] raises [IndexError]. *)
Definition _template (kind : string) : result pyexn json :=
  selected ← mapM_result (py_index files) (default pick_general (dget kind pick));
  Ok (JObj [
    ("summary", JStr ("Template-based fallback solution generated for '" +:+ kind +:+ "' scenario. "
      +:+ "Attach a real LLM provider (OpenAI/Anthropic/Ollama) for project-specific, context-aware output."));
    ("architecture", JObj [
      ("pattern", JObj [
        ("name", JStr "Layered Monolith (template)");
        ("description", JStr "FastAPI REST service backed by PostgreSQL, containerized, with RBAC, migrations and tests. IaC + Airflow DAGs included for infrastructure and data flows.");
        ("pros", strs ["Batteries included"; "Production-ready scaffolding"; "Tested defaults"]);
        ("cons", strs ["Generic template; adapt to your domain"; "Not tailored to edge cases"])]);
      ("high_level_design", JStr "API → RBAC middleware → PostgreSQL; IaC provisions VPC; Airflow runs daily ETL; Jest/pytest cover contracts.")]);
    ("stack", JObj [
      ("languages", strs ["Python"; "TypeScript"; "SQL"; "HCL"]);
      ("frameworks", strs ["FastAPI"; "React"; "Airflow"; "Pytest"]);
      ("databases", strs ["PostgreSQL"; "Redis"]);
      ("infrastructure", strs ["Docker"; "Terraform"; "AWS"])]);
    ("code", JObj [("files", JArr selected)]);
    ("review", JObj [
      ("final_summary", JStr "Degraded template solution. Connect an LLM API key or local Ollama instance for bespoke reasoning and code generation.");
      ("weaknesses", strs ["LLM unavailable — generic template used"])])]).

(** *** [json.dumps(v, ensure_ascii=..., indent=2)] *)
Definition hex_digit (n : nat) : ascii := ascii_of_nat (if (n <? 10)%nat then 48 + n else 87 + n).

Definition escape_char (ensure_ascii : bool) (a : ascii) : string :=
  let n := nat_of_ascii a in
  if (n =? 34)%nat then String "\"%char (String a "")
  else if (n =? 92)%nat then "\\"
  else if (n =? 10)%nat then "\n"
  else if (n =? 13)%nat then "\r"
  else if (n =? 9)%nat then "\t"
  else if (n =? 8)%nat then "\b"
  else if (n =? 12)%nat then "\f"
  else if (n <? 32)%nat || ensure_ascii && (126 <? n)%nat then "\u00" +:+ String (hex_digit (n / 16)) (String (hex_digit (n mod 16)) "")
  else String a "".

Fixpoint escape (ensure_ascii : bool) (s : string) : string :=
  match s with EmptyString => "" | String a s => escape_char ensure_ascii a +:+ escape ensure_ascii s end.

Definition dquote : string := String "034"%char "".
Definition dumps_str (ensure_ascii : bool) (s : string) : string := dquote +:+ escape ensure_ascii s +:+ dquote.

(** A line break and the indentation of a level. *)
Fixpoint spaces (n : nat) : string := match n with O => "" | S n => String " "%char (spaces n) end.
Definition newline (level : nat) : string := nl +:+ spaces (2 * level).

Section dumps.
Context (number : Q → string) (ensure_ascii : bool).

Fixpoint dumps_at (level : nat) (v : json) : string :=
  match v with
  | JNull => "null"
  | JBool b => if b then "true" else "false"
  | JNum q => number q
  | JStr s => dumps_str ensure_ascii s
  | JArr [] => "[]"
  | JArr l => "[" +:+ newline (S level) +:+ join ("," +:+ newline (S level)) (map (dumps_at (S level)) l) +:+ newline level +:+ "]"
  | JObj [] => "{}"
  | JObj d =>
      "{" +:+ newline (S level) +:+ join ("," +:+ newline (S level)) (map (λ kv, dumps_str ensure_ascii kv.1 +:+ ": " +:+ dumps_at (S level) kv.2) d)
      +:+ newline level +:+ "}"
  end.

Definition dumps_indented (v : json) : string := dumps_at 0 v.

End dumps.

(** The number of characters of a text in UTF-8: the bytes that do not continue one. *)
Fixpoint characters (s : string) : nat := match s with EmptyString => 0 | String a s => (if between 128 191 a then 0 else 1) + characters s end.

(** [FallbackProvider._complete]. *)
Definition fallback_complete {X} (number : Q → string) (clock : X → Q) (messages : list LLMMessage) (temperature : Q) (max_tokens : Z) (x : X) : X * outcome LLMResponse :=
  match _template (_classify messages) with
  | Err _ => (x, Raised (OtherException "IndexError"))
  | Ok payload =>
      let fenced := "```json" +:+ nl +:+ dumps_indented number false payload +:+ nl +:+ "```" in
      (x, Returned (mkLLM fenced "fallback/template-based" 0 0 (Z.of_nat (characters fenced)) "" ((clock x - clock x) * 1000) "stop"))
  end.

(** ** Choosing a provider *)
Inductive choice := OpenAI (api_key : string) (model : string) | Anthropic (api_key : string) (model : string) | Ollama (model base_url : string) | Fallback.

Definition py_or_str (a : option string) (b : string) : string := match a with Some s => if nonempty s then s else b | None => b end.

(** [s.rstrip("/")] *)
Fixpoint rstrip_slash (s : string) : string :=
  match s with
  | EmptyString => ""
  | String a t => let t := rstrip_slash t in if Ascii.eqb a "/" && negb (nonempty t) then "" else String a t
  end.

(** [create_llm_provider] with the constructors; the settings' provider, keys, Ollama model and URL. *)
Definition create_llm_provider (llm_provider openai_key anthropic_key ollama_model ollama_url : string) (provider model api_key : option string) : choice :=
  let p := py_or_str provider llm_provider in
  if String.eqb p "openai" then OpenAI (py_or_str api_key openai_key) (py_or_str model "gpt-4o")
  else if String.eqb p "anthropic" then Anthropic (py_or_str api_key anthropic_key) (py_or_str model "claude-sonnet-4-5-20250929")
  else if String.eqb p "ollama" then Ollama (py_or_str model ollama_model) (rstrip_slash ollama_url)
  else Fallback.

(** ** Words of a text *)
Fixpoint all_word (s : string) : bool := match s with EmptyString => true | String a s => is_word a && all_word s end.

(** The longest beginning of word characters, and the rest. *)
Fixpoint word_span (s : string) : string * string :=
  match s with
  | String a t => if is_word a then (String a (word_span t).1, (word_span t).2) else ("", s)
  | EmptyString => ("", "")
  end.

(** An occurrence that neither continues a word nor is continued. *)
Definition whole_word (o : option ascii) (w s : string) : Prop :=
  ∃ u v, s = u +:+ w +:+ v ∧ w ≠ "" ∧ all_word w = true ∧ word_at (prev_after o u) = false ∧ word_at (next_char v) = false.

Lemma word_span_spec s : s = (word_span s).1 +:+ (word_span s).2 ∧ all_word (word_span s).1 = true ∧ word_at (next_char (word_span s).2) = false.
Proof.
  induction s as [|a s IH]; [done|]. cbn [word_span]. destruct (is_word a) eqn:E; [|by cbn; rewrite E]. destruct IH as (H1 & H2 & H3). cbn [fst snd].
  split_and!; [exact (f_equal (String a) H1)|by cbn; rewrite E|done].
Qed.

Lemma word_span_max w v : all_word w = true → word_at (next_char v) = false → word_span (w +:+ v) = (w, v).
Proof.
  intros Hw Hv. induction w as [|a w IH].
  - change ("" +:+ v) with v. destruct v as [|b v]; [done|]. cbn in *. by rewrite Hv.
  - cbn in Hw. apply andb_true_iff in Hw as [Ha Hw]. change (String a w +:+ v) with (String a (w +:+ v)). cbn [word_span]. by rewrite Ha, (IH Hw).
Qed.

Lemma word_loop {R} (k : option ascii → string → captures → option R) n : ∀ o s c, String.length s < n →
  (∀ o' s' c', String.length s' <= String.length s → is_Some (k o' s' c')) →
  star_loop (Ch is_word) k n o s c = k (prev_after o (word_span s).1) (word_span s).2 c.
Proof.
  induction n as [|n IH]; intros o s c Hn Hk; [lia|]. rewrite star_loop_S. cbn [rmatch]. destruct s as [|a s]; [done|]. cbn [word_span].
  destruct (is_word a); [|done]. cbn [String.length] in *. rewrite (proj2 (Nat.ltb_lt _ _)) by lia. rewrite IH; [|lia|intros; apply Hk; lia].
  destruct (word_span_spec s) as (Es & _). assert (String.length (word_span s).2 <= String.length s).
  { rewrite Es at 2. rewrite string_length_app. lia. }
  cbn [fst snd prev_after]. destruct (Hk (prev_after (Some a) (word_span s).1) (word_span s).2 c) as [x E]; [lia|]. by rewrite E.
Qed.

Lemma word_at_all o w : w ≠ "" → all_word w = true → word_at (prev_after o w) = true.
Proof.
  revert o. induction w as [|a w IH]; intros o Hne Hw; [done|]. cbn in *. apply andb_true_iff in Hw as [Ha Hw].
  destruct w as [|b w]; [done|]. by apply IH.
Qed.

Lemma find_word o s :
  find_at word_re (o, s) = match s with String a t => if is_word a then Some ((prev_after (Some a) (word_span t).1, (word_span t).2), []) else None | EmptyString => None end.
Proof.
  unfold find_at, word_re, plus. cbn [fst snd]. destruct s as [|a s]; [done|].
  change (rmatch (Seq (Ch is_word) (Star (Ch is_word))) o (String a s) [] ?k) with (if is_word a then rmatch (Star (Ch is_word)) (Some a) s [] k else None).
  destruct (is_word a); [|done]. rewrite rmatch_star, word_loop; [|lia|].
  - destruct (word_span_spec s) as (Es & _). rewrite (proj2 (Nat.ltb_lt _ _)); [done|]. rewrite Es at 2. cbn. rewrite string_length_app. lia.
  - intros o' s' c' Hl. rewrite (proj2 (Nat.ltb_lt _ _)); [done|]. cbn. lia.
Qed.

(** What [re.findall] makes of a text from a position on. *)
Definition words_at (n : nat) (p : pos) : list string := omap (λ x, match x with Hit m _ => Some m | Kept _ => None end) (cut n word_re p).

Lemma words_at_S n o s :
  words_at (S n) (o, s) =
  match s with
  | EmptyString => []
  | String a t => if is_word a then (word_span s).1 :: words_at n (prev_after o (word_span s).1, (word_span s).2) else words_at n (Some a, t)
  end.
Proof.
  unfold words_at. cbn [cut]. rewrite find_word. destruct s as [|a s]; [done|]. cbn [word_span]. destruct (is_word a) eqn:E; [|done]. cbn [fst snd prev_after omap].
  destruct (word_span_spec s) as (Es & _). unfold left. cbn [snd String.length].
  replace (S (String.length s) - String.length (word_span s).2) with (String.length (String a (word_span s).1))
    by (rewrite Es at 2; rewrite string_length_app; cbn; lia).
  pose proof (f_equal (String a) Es) as E2. pose proof (substring_app (String a (word_span s).1) (word_span s).2) as E3.
  change (String a (word_span s).1 +:+ (word_span s).2) with (String a ((word_span s).1 +:+ (word_span s).2)) in E3. rewrite <- E2 in E3. cbn [list_omap].
  by rewrite E3.
Qed.

Lemma whole_word_skip o a w s : is_word a = false → whole_word o w (String a s) ↔ whole_word (Some a) w s.
Proof.
  intros Ha. split; intros (u & v & E & Hw & Hall & Hu & Hv).
  - destruct u as [|b u]; [destruct w as [|c w]; [done|]; injection E as <- _; cbn in Hall; by rewrite Ha in Hall|]. injection E as <- E. by exists u, v.
  - exists (String a u), v. split_and!; [exact (f_equal (String a) E)|done..].
Qed.

Lemma whole_word_first o w x s : x ≠ "" → all_word x = true → word_at o = false → word_at (next_char s) = false →
  whole_word o w (x +:+ s) ↔ w = x ∨ whole_word (prev_after o x) w s.
Proof.
  intros Hne Hx Ho Hs. split.
  - intros (u & v & E & Hw & Hall & Hu & Hv). destruct (decide (String.length x <= String.length u)) as [Hl|Hl].
    + right. destruct (string_app_cut _ _ _ _ E Hl) as (u' & -> & ->). exists u', v. by rewrite <- prev_after_app.
    + left. destruct (string_app_cut u (w +:+ v) x s) as (y & -> & Ey); [done|lia|]. destruct u as [|b u].
      * change ("" +:+ y) with y in *. pose proof (word_span_max y s Hx Hs) as E1. rewrite <- Ey, word_span_max in E1 by done. by injection E1.
      * rewrite word_at_all in Hu; [done|done|]. clear -Hx. revert Hx. generalize (String b u) as z. intros z. induction z as [|c z IH]; [done|]. cbn.
        intros [H1 H2]%andb_true_iff. by rewrite H1, IH.
  - intros [->|(u & v & -> & Hw & Hall & Hu & Hv)]; [by exists "", s|]. exists (x +:+ u), v. rewrite string_app_assoc, prev_after_app. by split_and!.
Qed.

Lemma words_at_whole n : ∀ o s w, String.length s <= n → word_at o && word_at (next_char s) = false → w ∈ words_at n (o, s) ↔ whole_word o w s.
Proof.
  assert (∀ o w, whole_word o w "" → False) as Hnil.
  { intros o w (u & v & E & Hw & _). destruct u; [|done]. by destruct w. }
  induction n as [|n IH]; intros o s w Hn Hb.
  - destruct s; [|cbn in Hn; lia]. split; [by intros ?%not_elem_of_nil|by intros ?%Hnil].
  - rewrite words_at_S. destruct s as [|a s]; [split; [by intros ?%not_elem_of_nil|by intros ?%Hnil]|]. destruct (is_word a) eqn:Ha.
    + cbn in Hb. rewrite Ha, andb_true_r in Hb. destruct (word_span_spec (String a s)) as (Es & H1 & H2).
      assert ((word_span (String a s)).1 ≠ "") as Hne by (cbn; by rewrite Ha). rewrite Es at 4. rewrite whole_word_first by done.
      rewrite elem_of_cons, IH; [done| |by rewrite H2, andb_false_r].
      apply (f_equal String.length) in Es. rewrite string_length_app in Es. destruct ((word_span (String a s)).1); [done|]. cbn in *. lia.
    + rewrite whole_word_skip by done. apply IH; [cbn in Hn; lia|]. cbn. by rewrite Ha.
Qed.

Lemma findall_words s w : w ∈ hits word_re s ↔ whole_word None w s.
Proof. by apply words_at_whole. Qed.

(** ** Keywords and labels *)
Lemma reads_lit k : ∀ o s q, reads (lit k) (o, s) q ↔ s = k +:+ q.2 ∧ q.1 = prev_after o k.
Proof.
  induction k as [|a k IH]; intros o s [o' s']; cbn [lit prev_after fst snd].
  - change ("" +:+ s') with s'. split; [by inversion 1|]. intros [-> ->]. constructor.
  - split.
    + inversion 1 as [| |? ? ? ? ? H1 H2| | | | | | | |]; subst. inversion H1 as [|? ? ? ? Hf| | | | | | | | |]; subst. apply Ascii.eqb_eq in Hf as ->.
      apply IH in H2 as [E1 E2]. cbn [fst snd] in E1, E2. by subst.
    + intros [-> ->]. eapply r_seq; [apply r_ch, Ascii.eqb_refl|]. apply IH. done.
Qed.

Lemma search_from_reads r s : ∀ o, is_Some (search_from r o s) ↔ ∃ u v q, s = u +:+ v ∧ reads r (prev_after o u, v) q.
Proof.
  assert (∀ o s, is_Some (rmatch r o s [] (λ _ _ caps, Some caps)) ↔ ∃ q, reads r (o, s) q) as Hm.
  { intros o t. split; [intros (x & (o' & s' & c' & H & _)%rmatch_sound); eauto|]. intros (q & H). apply (rmatch_complete r _ _ H). by intros c. }
  induction s as [|a s IH]; intros o; cbn [search_from]; specialize (Hm o).
  - specialize (Hm ""). destruct (rmatch _ _ _ _ _) as [c|].
    + split; [intros _|done]. destruct Hm as [(q & H) _]; [done|]. by exists "", "", q.
    + split; [by intros []|]. intros (u & v & q & E & H). destruct u; [|done]. destruct v; [|done]. apply Hm. eauto.
  - specialize (Hm (String a s)). destruct (rmatch _ _ _ _ _) as [c|].
    + split; [intros _|done]. destruct Hm as [(q & H) _]; [done|]. by exists "", (String a s), q.
    + rewrite IH. split.
      * intros (u & v & q & -> & H). by exists (String a u), v, q.
      * intros (u & v & q & E & H). destruct u as [|b u]; [|injection E as <- E; by exists u, v, q].
        change ("" +:+ v) with v in E. subst v. destruct Hm as [_ Hm]. destruct Hm as [? ?]; [eauto|done].
Qed.

(** Word boundaries at both ends of an occurrence. *)
Definition bounded (o : option ascii) (k s : string) : Prop :=
  ∃ u v, s = u +:+ k +:+ v ∧ xorb (word_at (prev_after o u)) (word_at (next_char (k +:+ v))) = true
    ∧ xorb (word_at (prev_after (prev_after o u) k)) (word_at (next_char v)) = true.

Lemma search_phrase k s : is_Some (search (seqs [WB; lit k; WB]) s) ↔ bounded None k s.
Proof.
  unfold search, bounded. rewrite search_from_reads. cbn [seqs foldr]. split.
  - intros (u & v & q & -> & H). inversion H as [| |? ? ? ? ? H1 H2| | | | | | | |]; subst. inversion H1 as [| | | | | | | | | |? ? Hx]; subst.
    inversion H2 as [| |? ? ? [o2 s2] ? H3 H4| | | | | | | |]; subst. apply reads_lit in H3 as [-> Ho]. cbn [fst snd] in *. subst o2.
    inversion H4 as [| |? ? ? ? ? H5 H6| | | | | | | |]; subst. inversion H5 as [| | | | | | | | | |? ? Hy]; subst. by exists u, s2.
  - intros (u & v & -> & H1 & H2). exists u, (k +:+ v), (prev_after (prev_after None u) k, v). split; [done|].
    eapply r_seq; [apply r_wb; exact H1|]. eapply (r_seq _ _ _ (prev_after (prev_after None u) k, v)); [by apply reads_lit|].
    eapply r_seq; [apply r_wb; exact H2|]. constructor.
Qed.

(** What a keyword has to find: a phrase between word boundaries, a word that begins with a
    keyword ending in an underscore, or the keyword as a whole word. *)
Definition found (text k : string) : Prop :=
  if within " " k then bounded None k text
  else if ends_with "_" k then ∃ w, whole_word None w text ∧ String.prefix k w = true
  else whole_word None k text.

Lemma hits_found text k : _hits text k = true ↔ found text k.
Proof.
  unfold _hits, found. destruct (within " " k).
  - rewrite <- search_phrase. destruct (search _ _) as [c|]; [done|]. split; [done|by intros []].
  - destruct (ends_with "_" k); rewrite existsb_exists.
    + setoid_rewrite <- findall_words. split; intros (w & H1 & H2); exists w; [by rewrite list_elem_of_In|by rewrite <- list_elem_of_In].
    + rewrite <- findall_words. split; [intros (w & H1 & ->%String.eqb_eq); by rewrite list_elem_of_In|]. intros H. exists k.
      by rewrite <- list_elem_of_In, String.eqb_refl.
Qed.

(** The first label with the highest score. *)
Definition first_best (text label : string) (n : nat) (table : list (string * list string)) : Prop :=
  label = "general" ∧ n = 0 ∧ (∀ l, l ∈ table → score text l.2 = 0)
  ∨ ∃ before kws after, table = before ++ (label, kws) :: after ∧ n = score text kws ∧ 0 < n
      ∧ (∀ l, l ∈ before → score text l.2 < n) ∧ (∀ l, l ∈ after → score text l.2 <= n).

Lemma best_label_snoc text table l :
  best_label text (table ++ [l]) = (if ((best_label text table).2 <? score text l.2)%nat then (l.1, score text l.2) else best_label text table).
Proof. unfold best_label. by rewrite foldl_app. Qed.

Lemma best_label_first text table : first_best text (best_label text table).1 (best_label text table).2 table.
Proof.
  induction table as [|l table IH] using rev_ind; [left; split_and!; [done|done|by intros ? ?%not_elem_of_nil]|]. rewrite best_label_snoc.
  revert IH. generalize (best_label text table) as p. intros [lb n] IH. cbn [fst snd] in *.
  assert (∀ l', l' ∈ table → score text l'.2 <= n) as Hall.
  { destruct IH as [(_ & -> & H)|(b & kws & a & -> & E & _ & Hb & Ha)]; intros l' Hl; [by rewrite H|].
    apply elem_of_app in Hl as [Hl|[->|Hl]%elem_of_cons]; [specialize (Hb _ Hl); lia|cbn [snd]; lia|by apply Ha]. }
  destruct (_ <? _)%nat eqn:E.
  - right. apply Nat.ltb_lt in E. exists table, l.2, []. destruct l as [label kws]. cbn [fst snd] in *. split_and!; [done|done|lia| |by intros ? ?%not_elem_of_nil].
    intros l' Hl. specialize (Hall _ Hl). lia.
  - apply Nat.ltb_ge in E. destruct IH as [(H1 & H2 & H)|(b & kws & a & -> & H2 & Hn & Hb & Ha)].
    + left. split_and!; [done|done|]. intros l' [Hl| ->%list_elem_of_singleton]%elem_of_app; [by apply H|lia].
    + right. exists b, kws, (a ++ [l]). rewrite <- app_assoc. split_and!; [done|done|done|done|].
      intros l' [Hl| ->%list_elem_of_singleton]%elem_of_app; [by apply Ha|exact E].
Qed.

Lemma labels_known text : (best_label text keywords).1 ∈ pick.*1.
Proof.
  assert (∀ l, l ∈ "general" :: keywords.*1 → l ∈ pick.*1) as Hsub.
  { intros l H. apply (bool_decide_unpack (l ∈ pick.*1)). revert l H. apply Forall_forall. repeat constructor. }
  apply Hsub. destruct (best_label_first text keywords) as [(-> & _)|(b & kws & a & E & _)]; [by left|]. right.
  apply (list_elem_of_fmap_2 fst keywords ((best_label text keywords).1, kws)). rewrite E at 2. apply elem_of_app. right. by left.
Qed.

(** The answer around a payload. *)
Definition fence (body : string) : string := "```json" +:+ nl +:+ body +:+ nl +:+ "```".

Lemma mapM_index {A} (l : list A) is_ r : mapM_result (py_index l) is_ = Ok r → r ⊆ l ∧ (is_ ≠ [] → r ≠ []).
Proof.
  revert r. induction is_ as [|i is_ IH]; cbn [mapM_result]; intros r; [intros [= <-]; split; [by intros ? ?%not_elem_of_nil|by intros []]|].
  destruct (py_index l i) as [y|] eqn:E; bindsimp; [|done]. unfold py_index in E. destruct (l !! i) eqn:E2; simplify_eq. destruct (mapM_result _ is_) as [r'|]; bindsimp; [|done].
  intros [= <-]. destruct (IH r' eq_refl) as [H _]. split; [|done]. intros z [->|Hz]%elem_of_cons; [by eapply (list_elem_of_lookup_2 l i)|by apply H].
Qed.

(** The text of a template between its fences, one label after the other. *)
Lemma template_fences number kind : kind ∈ pick.*1 →
  match _template kind with Ok p => strip_fences (fence (dumps_indented number false p)) = dumps_indented number false p | Err _ => False end.
Proof.
  revert kind. apply Forall_forall. cbn [pick fmap list_fmap fst]. repeat (apply Forall_cons; split); [vm_compute; reflexivity..|by apply Forall_nil].
Qed.

Lemma template_ok number kind : kind ∈ pick.*1 → ∃ payload selected,
  _template kind = Ok payload ∧ (∃ d, payload = JObj d ∧ dget "code" d = Some (JObj [("files", JArr selected)])) ∧ selected ≠ [] ∧ selected ⊆ files
  ∧ strip_fences (fence (dumps_indented number false payload)) = dumps_indented number false payload.
Proof.
  intros Hk. pose proof (template_fences number kind Hk) as Hf. unfold _template in *.
  destruct (mapM_result (py_index files) (default pick_general (dget kind pick))) as [selected|] eqn:E; bindsimp; [|done].
  apply mapM_index in E as [Hsub Hne]. eexists _, selected. split_and!; [done|by eexists| |done|exact Hf].
  apply Hne. clear Hf Hsub Hne selected. revert kind Hk. apply Forall_forall. repeat constructor; done.
Qed.

(** The fallback answers every request, with a label chosen by whole words.  The label is
    the first of those whose keywords are found most often in the last three messages, or
    the general one if none is found; a keyword is found as a word of its own, a phrase
    between word boundaries, and one that ends in an underscore at the beginning of a word.
    The template for the label exists, names at least one file, and comes back from the
    answer when its fences are removed; no tokens are charged. *)
Theorem fallback_answers {X} (number : Q → string) (clock : X → Q) ms temp mx x :
  let text := recent_text ms in
  (∀ k, _hits text k = true ↔ found text k)
  ∧ (∃ n, first_best text (_classify ms) n keywords)
  ∧ ∃ payload selected r,
      _template (_classify ms) = Ok payload
      ∧ (∃ d, payload = JObj d ∧ dget "code" d = Some (JObj [("files", JArr selected)])) ∧ selected ≠ [] ∧ selected ⊆ files
      ∧ fallback_complete number clock ms temp mx x = (x, Returned r) ∧ l_error r = "" ∧ tokens_used r = 0%Z
      ∧ strip_fences (content r) = dumps_indented number false payload.
Proof.
  intros text. split; [apply hits_found|]. split; [eexists; apply best_label_first|].
  pose proof (template_ok number (_classify ms) (labels_known text)) as (payload & selected & Hp & Hd & Hne & Hsub & Hs).
  unfold fallback_complete. rewrite Hp. do 3 eexists. split_and!; [done|exact Hd|done|done|done|done|done|exact Hs].
Qed.

(** ** Ollama's health *)
Section ollama.
Context {X : Type} (clock : X → Q) (_model : string) (is_network : exn → bool).
Context (get_tags : X → X * outcome Z) (tags_text : X → X * outcome string).
Context (post_chat : request → X → X * outcome Z) (chat_text : X → X * outcome string) (chat_json : X → X * outcome chat_data).
Context (_health_recovery : Q).

Notation check := (_health_check clock is_network get_tags tags_text _health_recovery).
Notation ollama := (ollama_complete clock _model is_network get_tags tags_text post_chat chat_text chat_json _health_recovery).

(** The classes: a [ConnectionError] is one of the network's, the provider's own error is
    not, and no library raises that. *)
Record libraries : Prop := {
  lib_connection : is_network (OtherException "ConnectionError") = true;
  lib_own : is_network LLMProviderError = false;
  lib_tags : ∀ x, (get_tags x).2 ≠ Raised LLMProviderError;
  lib_tags_text : ∀ x, (tags_text x).2 ≠ Raised LLMProviderError;
  lib_chat : ∀ r x, (post_chat r x).2 ≠ Raised LLMProviderError;
  lib_chat_text : ∀ x, (chat_text x).2 ≠ Raised LLMProviderError;
  lib_chat_json : ∀ x, (chat_json x).2 ≠ Raised LLMProviderError;
}.

(** A server that answers. *)
Record answering : Prop := {
  up_tags : ∀ x, (get_tags x).2 = Returned 200%Z;
  up_chat : ∀ r x, (post_chat r x).2 = Returned 200%Z;
  up_json : ∀ x, ∃ d, (chat_json x).2 = Returned d;
}.

(** A failure is remembered, and the recovery time is not over. *)
Definition waiting (h : health) (x : X) : Prop :=
  _health_ok h = false ∧ _health_checked h = true ∧ Qltb (clock x - _health_failed_at h) _health_recovery = true.

Definition health_ok_checked (h : health) : Prop := _health_ok h = true → _health_checked h = true.

Definition failed_now (h : health) (x : X) : Prop := _health_ok h = false ∧ _health_checked h = true ∧ _health_failed_at h = clock x.

(** What the answer of a step may be, if it is the provider's own error. *)
Definition after {A} (h' : health) (x' : X) (o : outcome A) : Prop :=
  health_ok_checked h' ∧ match o with Returned _ => _health_ok h' = true | Raised e => e = LLMProviderError → failed_now h' x' end.

Lemma network_failed_after {A} h x e : _health_checked h = true → e ≠ LLMProviderError →
  let '(h', x', o) := network_failed (A := A) clock is_network h x e in after h' x' o ∧ ∃ e', o = Raised e'.
Proof. intros Hc He. unfold network_failed, after, failed_now. destruct (is_network e); (split; [split; [by intros _|]|by eexists]); [intros _; by split_and!|done]. Qed.

Lemma health_check_spec h x : libraries → health_ok_checked h →
  let '(h', x', o) := check h x in
  (waiting h x ∧ (h', x', o) = (h, x, Raised LLMProviderError) ∨ ¬ waiting h x ∧ after h' x' o)
  ∧ (¬ waiting h x → answering → o = Returned tt).
Proof.
  intros L Hi. unfold _health_check. destruct (_health_ok h) eqn:Eok.
  - split; [right|done]. split; [intros (? & _); congruence|]. by split.
  - destruct (_health_checked h && _) eqn:Ew.
    + apply andb_true_iff in Ew as [Ec Ew]. split; [by left|]. intros Hn. by destruct Hn.
    + assert (¬ waiting h x) as Hn by (intros (_ & H1 & H2); rewrite H1, H2 in Ew; done).
      pose proof (lib_tags L x) as Ht. pose proof (λ a, up_tags a x) as Hup. destruct (get_tags x) as [x1 [status|e]].
      * destruct (status =? 200)%Z eqn:Es; [split; [right; by split|done]|].
        assert (¬ answering) as Hna by (intros a; specialize (Hup a); injection Hup as ->; done).
        pose proof (lib_tags_text L x1) as Hb. destruct (tags_text x1) as [x2 [body|e]]; [split; [right; by split|done]|].
        pose proof (network_failed_after (A := unit) (mkHealth true false (_health_failed_at h)) x2 e eq_refl) as Hf.
        destruct (network_failed _ _ _ _ _) as [[h' x'] o]. destruct Hf as [Hf _]; [by intros ->|]. split; [by right|done].
      * pose proof (network_failed_after (A := unit) (mkHealth true false (_health_failed_at h)) x1 e eq_refl) as Hf.
        destruct (network_failed _ _ _ _ _) as [[h' x'] o]. destruct Hf as [Hf _]; [by intros ->|]. split; [by right|]. intros _ a. by specialize (Hup a).
Qed.

(** C39: Ollama's health check opens and closes the way to the server.  As long as a failure
    is remembered and the recovery time is not over, a request ends in the provider's own
    error at once: nothing is sent and nothing changes.  Otherwise an answer is returned
    only with the server known to be healthy, with the tokens of prompt and answer added
    up; the provider's own error leaves the failure remembered from this moment on; and a
    server that answers is found again. *)
Theorem ollama_health ms temp mx h x : libraries → health_ok_checked h →
  let '(h', x', o) := ollama ms temp mx (h, x) in
  (waiting h x ∧ (h', x', o) = (h, x, Raised LLMProviderError)
   ∨ ¬ waiting h x ∧ health_ok_checked h'
     ∧ match o with
       | Returned r => _health_ok h' = true ∧ l_error r = "" ∧ tokens_used r = (l_input r + l_output r)%Z
       | Raised e => e = LLMProviderError → failed_now h' x'
       end)
  ∧ (¬ waiting h x → answering → ∃ r, o = Returned r).
Proof.
  intros L Hi. unfold ollama_complete. cbn [fst snd]. pose proof (health_check_spec h x L Hi) as Hc. destruct (check h x) as [[h1 x1] o1].
  destruct Hc as [Hc Hup]. destruct o1 as [u|e].
  2:{ split; [|by intros H1 H2; specialize (Hup H1 H2)]. destruct Hc as [[Hw E]|(Hn & Ha & Hb)]; [left; split; [done|by injection E as -> -> ->]|by right]. }
  destruct Hc as [(_ & [=])|(Hn & Ha & Hok)]. assert (_health_checked h1 = true) as Hck by by apply Ha.
  set (rq := mkRequest _ _ _ _ _). pose proof (lib_chat L rq x1) as H1. pose proof (λ a, up_chat a rq x1) as U1. destruct (post_chat rq x1) as [x2 [status|e]].
  - destruct (status =? 200)%Z eqn:Es; cbn [negb].
    + pose proof (lib_chat_json L x2) as H2. pose proof (λ a, up_json a x2) as U2. destruct (chat_json x2) as [x3 [d|e]].
      * split; [right; split_and!; [done|done|done|done|cbn; lia]|eauto].
      * pose proof (network_failed_after (A := LLMResponse) h1 x3 e Hck) as Hf. destruct (network_failed _ _ _ _ _) as [[h' x'] o].
        destruct Hf as [[Hf1 Hf2] [e' ->]]; [by intros ->|]. split; [by right|]. intros _ a. by destruct (U2 a).
    + assert (¬ answering) as Hna by (intros a; specialize (U1 a); injection U1 as ->; done).
      pose proof (lib_chat_text L x2) as H2. destruct (chat_text x2) as [x3 body]. set (e := match body with Returned _ => _ | Raised e => e end).
      pose proof (network_failed_after (A := LLMResponse) h1 x3 e Hck) as Hf. destruct (network_failed _ _ _ _ _) as [[h' x'] o].
      destruct Hf as [[Hf1 Hf2] [e' ->]]; [subst e; destruct body; [done|by intros ->]|]. split; [by right|done].
  - pose proof (network_failed_after (A := LLMResponse) h1 x2 e Hck) as Hf. destruct (network_failed _ _ _ _ _) as [[h' x'] o].
    destruct Hf as [[Hf1 Hf2] [e' ->]]; [by intros ->|]. split; [by right|]. intros _ a. by specialize (U1 a).
Qed.
End ollama.

(** *** A server that is down for ten ticks *)
Definition tick (x : nat) : Q := inject_Z (Z.of_nat x).
Definition demo_network (e : exn) : bool :=
  match e with OtherException c => existsb (String.eqb c) ["ClientError"; "TimeoutError"; "ConnectionError"] | _ => false end.
Definition demo_tags (x : nat) : nat * outcome Z := (S x, if (x <? 10)%nat then Raised (OtherException "ClientError") else Returned 200%Z).
Definition demo_text (x : nat) : nat * outcome string := (S x, Returned "").
Definition demo_chat (_ : request) (x : nat) : nat * outcome Z := (S x, Returned 200%Z).
Definition demo_json (x : nat) : nat * outcome chat_data := (S x, Returned (mkChat (Some (Some "hi")) (Some 2%Z) (Some 3%Z))).
Definition demo_ollama (hx : health * nat) : health * nat * outcome LLMResponse :=
  ollama_complete tick "llama3" demo_network demo_tags demo_text demo_chat demo_text demo_json 5 [mkMessage "user" "hello"] (7 # 10) 4096 hx.

Example ollama_goes_down : demo_ollama (health_init, 0) = (mkHealth true false 1, 1, Raised LLMProviderError).
Proof. reflexivity. Qed.

Example ollama_comes_back : ∃ r, demo_ollama (mkHealth true false 1, 12) = (mkHealth true true 0, 15, Returned r) ∧ content r = "hi" ∧ tokens_used r = 5%Z.
Proof. eexists. split; [reflexivity|done]. Qed.

Lemma demo_libraries : libraries demo_network demo_tags demo_text demo_chat demo_text demo_json.
Proof. split; try done. intros x. unfold demo_tags. cbn [snd]. by destruct (x <? 10)%nat. Qed.

Lemma ollama_health_witness : demo_ollama (mkHealth true false 1, 3) = (mkHealth true false 1, 3, Raised LLMProviderError).
Proof.
  pose proof (ollama_health tick "llama3" demo_network demo_tags demo_text demo_chat demo_text demo_json 5 [mkMessage "user" "hello"] (7 # 10) 4096
    (mkHealth true false 1) 3 demo_libraries (λ _, eq_refl)) as H.
  unfold demo_ollama. destruct (ollama_complete _ _ _ _ _ _ _ _ _ _ _ _ _) as [[h' x'] o].
  destruct H as [[[_ E]|[Hn _]] _]; [exact E|]. destruct Hn. repeat split.
Defined.

(** ** Ollama behind [complete] *)
Section behind.
Context {X : Type} (clock : X → Q) (sleep : Q → X → X) (rand : X → X * Q).
Context (func : X → X * outcome LLMResponse) (name : string) (retries : Z) (base maxd jit : Q).

(** The provider's own error is not retried: behind a closed breaker the call is made once,
    and no pause is taken. *)
Lemma own_error_once b x x' : _state b = CLOSED → (0 <= retries)%Z → func x = (x', Raised LLMProviderError) →
  resilient_execute clock sleep rand (llm_policy name retries base maxd jit) func b x = (_on_failure (clock x') b, x', Raised LLMProviderError).
Proof.
  intros Hb Hr Hf. unfold resilient_execute, retry_execute. cbn [max_retries llm_policy]. replace (Z.to_nat (retries + 1)) with (S (Z.to_nat retries)) by lia.
  assert (enter (clock x) b = (b, None)) as He by (unfold enter, state; rewrite bool_decide_false by congruence; cbn [andb]; by rewrite Hb).
  cbn [retry_loop]. unfold cb_execute. by rewrite He, Hf.
Qed.

(** While the breaker is open, its error is one of those that are retried. *)
Lemma open_breaker_is_retried at_ : retryable_exceptions (llm_policy name retries base maxd jit) (CircuitBreakerError at_) = true
  ∧ non_retryable_exceptions (llm_policy name retries base maxd jit) (CircuitBreakerError at_) = false.
Proof. done. Qed.
End behind.

(** Ollama is down; the first call fails within a tick, and opens a breaker that allows one
    failure; the next call takes its three pauses before it fails. *)
Definition down (x : Q) : Q * outcome LLMResponse := (x, Raised LLMProviderError).
Definition after_pauses : CircuitBreaker * Q * outcome LLMResponse :=
  let '(b, x, _) := resilient_execute (λ x, x) (λ d x, Qred (x + d)) (λ x, (x, 0%Q)) (llm_policy "llm-ollama" 3 1 30 0) down (cb_init "llm-ollama" 1 60 1) 0%Q in
  resilient_execute (λ x, x) (λ d x, Qred (x + d)) (λ x, (x, 0%Q)) (llm_policy "llm-ollama" 3 1 30 0) down b x.

Example open_breaker_waits : after_pauses.1.2 = 7%Q ∧ ∃ at_, after_pauses.2 = Raised (CircuitBreakerError at_).
Proof. vm_compute. eauto. Qed.

(** ** The requests *)

(** Anthropic's request holds every message once: the texts of the system's in one, the
    others in their order. *)
Lemma split_system_spec ms :
  split_system ms = (foldr (λ m s, m_content m +:+ nl +:+ s) "" (List.filter is_system ms), map model_dump (List.filter (λ m, negb (is_system m)) ms)).
Proof.
  induction ms as [|m ms IH] using rev_ind; [done|]. unfold split_system in *. rewrite foldl_app, IH. cbn [foldl].
  rewrite !List.filter_app. cbn [List.filter]. destruct (is_system m) eqn:E; cbn [negb].
  - rewrite app_nil_r. f_equal. generalize (List.filter is_system ms) as l. intros l. induction l as [|y l IHl]; [by cbn [foldr app]; rewrite string_app_nil_r|].
    cbn [foldr app]. rewrite <- IHl. by rewrite !string_app_assoc.
  - rewrite app_nil_r, map_app. done.
Qed.

(** A constructor's error is the provider's own for OpenAI, so that it is not retried;
    for Anthropic it is raised as it is. *)
Lemma construct_failure {X} (clock : X → Q) mdl c1 c2 ms temp mx x :
  openai_complete clock mdl true (Some (OtherException "ValueError")) c1 ms temp mx x = (x, Raised LLMProviderError)
  ∧ anthropic_complete clock mdl true (Some (OtherException "ValueError")) c2 ms temp mx x = (x, Raised (OtherException "ValueError"))
  ∧ is_provider_error (OtherException "ValueError") = false.
Proof. done. Qed.
