(* ===== verification/Neural.v ===== *)
(** * The neural interface ([noema/neurosymbolic/neural.py])

    The interface has a circuit breaker of its own, a retry loop around it, and a batch
    processor.  As in [CircuitBreaker], a call is cut at its [await], so that several calls
    interleave as a step relation; the client of the OpenAI library, the clocks, pauses and
    random draws are parameters that act on the world behind the interface.  Start and stop
    of the processor are in [NeuroSymbolic]. *)
From Stdlib Require Import ZArith QArith Qminmax Lqa Lia Bool Ascii String.
From stdpp Require Import base option numbers sets strings relations list.
From S2P Require Import Prelude CircuitBreaker Symbolic Prompts Clients.
Local Open Scope string_scope.
Local Open Scope list_scope.
Local Open Scope nat_scope.

Record LLMRequest := mkLLMRequest { messages : list (list (string * string)); json_object : bool; temperature : Q; max_tokens : Z; timeout : Q }.
Record LLMResponse := mkLLMResponse { content : option string; tokens_used : Z; latency_ms : Q; model : string }.

(** ** The breaker *)
Record breaker := mkNB { threshold : Z; recovery : Q; nstate : CircuitState; failure_count : Z; last_failure_time : option Q }.

Definition new_breaker (k : Z) (t : Q) : breaker := mkNB k t CLOSED 0 None.

Definition CircuitOpenError : exn := OtherException "CircuitOpenError".

Definition _should_attempt_reset (now : Q) (b : breaker) : bool :=
  match last_failure_time b with None => true | Some t => Qltb (recovery b) (now - t) end.

(** [_on_success] and [_on_failure] *)
Definition on_success (b : breaker) : breaker := mkNB (threshold b) (recovery b) CLOSED 0 (last_failure_time b).
Definition on_failure (now : Q) (b : breaker) : breaker :=
  let n := (failure_count b + 1)%Z in
  mkNB (threshold b) (recovery b) (if (threshold b <=? n)%Z then OPEN else nstate b) n (Some now).

(** [call] up to its [await], and after it. *)
Definition call_enter (now : Q) (b : breaker) : breaker * option exn :=
  match nstate b with
  | OPEN =>
      if _should_attempt_reset now b then (mkNB (threshold b) (recovery b) HALF_OPEN (failure_count b) (last_failure_time b), None)
      else (b, Some CircuitOpenError)
  | _ => (b, None)
  end.

Definition call_leave {T} (now : Q) (b : breaker) (o : outcome T) : breaker :=
  match o with Returned _ => on_success b | Raised e => if is_Exception e then on_failure now b else b end.

(** Several calls; the number counts those at their [await]. *)
Inductive nb_step : breaker * nat → breaker * nat → Prop :=
| nb_admit now b b' n : call_enter now b = (b', None) → nb_step (b, n) (b', S n)
| nb_reject now b b' e n : call_enter now b = (b', Some e) → nb_step (b, n) (b', n)
| nb_finish now b (o : outcome unit) n : nb_step (b, S n) (call_leave now b o, n).

(** ** Requests *)
Definition _is_retryable (e : exn) : bool :=
  match e with
  | OtherException c => existsb (String.eqb c) ["RateLimitError"; "APITimeoutError"; "InternalServerError"; "APIConnectionError"]
  | _ => false
  end.

(** [u] between 0 and 1 is the random draw. *)
Definition _calculate_backoff (base_delay max_delay u : Q) (attempt : nat) : Q :=
  let delay := Qminb (base_delay * inject_Z (2 ^ Z.of_nat attempt)) max_delay in
  (delay + u * (delay * (1 # 10)))%Q.

Section interface.
Context {X : Type} (clock loop_time : X → Q) (sleep : Q → X → X) (rand : X → X * Q).
(** The awaited request, with its time limit. *)
Context (create : LLMRequest → X → X * outcome completion).
Context (mdl : string) (max_retries : Z) (base_delay max_delay : Q).

Definition _execute_request (client : bool) (request : LLMRequest) (x : X) : X * outcome LLMResponse :=
  if negb client then (x, Raised (OtherException "RuntimeError"))
  else
    let start_time := loop_time x in
    let '(x, o) := create request x in
    match o with
    | Raised e =>
        (x, Raised (match e with OtherException c => if String.eqb c "TimeoutError" then OtherException "APITimeoutError" else e | _ => e end))
    | Returned response =>
        match choices response with
        | [] => (x, Raised (OtherException "IndexError"))
        | (text, _) :: _ =>
            (x, Returned (mkLLMResponse text (match cc_usage response with Some (total, _, _) => total | None => 0%Z end)
              ((loop_time x - start_time) * 1000) mdl))
        end
    end.

(** [CircuitBreaker.call] that nothing interleaves with. *)
Definition call {T} (func : X → X * outcome T) (b : breaker) (x : X) : breaker * X * outcome T :=
  match call_enter (clock x) b with
  | (b, Some e) => (b, x, Raised e)
  | (b, None) => let '(x, o) := func x in (call_leave (clock x) b o, x, o)
  end.

Definition is_open_error (e : exn) : bool := match e with OtherException c => String.eqb c "CircuitOpenError" | _ => false end.

(** The loop over the attempts. *)
Fixpoint attempts (func : X → X * outcome LLMResponse) (remaining attempt : nat) (last_error : option exn) (b : breaker) (x : X) :
    breaker * X * outcome LLMResponse :=
  match remaining with
  | O => (b, x, Raised (default (OtherException "Exception") last_error))
  | S remaining =>
      let '(b, x, o) := call func b x in
      match o with
      | Returned r => (b, x, Returned r)
      | Raised e =>
          if is_open_error e || negb (is_Exception e) then (b, x, Raised e)
          else if _is_retryable e then
            let '(x, u) := rand x in
            attempts func remaining (S attempt) (Some e) b (sleep (_calculate_backoff base_delay max_delay u attempt) x)
          else (b, x, Raised e)
      end
  end.

Definition _execute_with_retry (client : bool) (request : LLMRequest) (b : breaker) (x : X) : breaker * X * outcome LLMResponse :=
  attempts (_execute_request client request) (Z.to_nat max_retries) 0 None b x.

(** ** Hypotheses *)

(** The interface: whether there is a client, and the breaker. *)
Record interface := mkInterface { _client : bool; circuit_breaker : breaker }.

(** [_ensure_client]; the library and its constructor may fail. *)
Context (construct : X → X * bool).
Definition _ensure_client (i : interface) (x : X) : interface * X :=
  if _client i then (i, x) else let '(x, ok) := construct x in (mkInterface ok (circuit_breaker i), x).

Context (number : Q → string) (loads : string → option json).
Notation dumps := (dumps_indented number true).

Definition _build_hypothesis_prompt (task_graph : json) : string :=
  "Task in formal form:" +:+ nl +:+ dumps task_graph +:+ nl +:+ nl +:+ "Generate a hypothesis solution." +:+ nl +:+ "Return ONLY valid JSON.".

Definition _build_refinement_prompt (hypothesis : json) (violations : list string) (task_graph : json) : string :=
  "Current hypothesis:" +:+ nl +:+ dumps hypothesis +:+ nl +:+ nl +:+ "Violations:" +:+ nl +:+ dumps (JArr (map JStr violations)) +:+ nl +:+ nl
  +:+ "Task:" +:+ nl +:+ dumps task_graph +:+ nl +:+ nl +:+ "Fix the hypothesis." +:+ nl +:+ "Return ONLY valid JSON.".

Definition ask (prompt : string) (temp : Q) (i : interface) (x : X) : interface * X * outcome json :=
  let '(i, x) := _ensure_client i x in
  let '(b, x, o) := _execute_with_retry (_client i) (mkLLMRequest [[("role", "user"); ("content", prompt)]] true temp 500 30) (circuit_breaker i) x in
  (mkInterface (_client i) b, x,
   match o with
   | Raised e => Raised e
   | Returned r =>
       match content r with
       | None => Raised (OtherException "TypeError")
       | Some text => match loads text with Some j => Returned j | None => Raised (OtherException "JSONDecodeError") end
       end
   end).

Definition generate_hypothesis (task_graph : json) : interface → X → interface * X * outcome json := ask (_build_hypothesis_prompt task_graph) (3 # 10).
Definition refine_hypothesis (hypothesis : json) (violations : list string) (task_graph : json) : interface → X → interface * X * outcome json :=
  ask (_build_refinement_prompt hypothesis violations task_graph) (2 # 10).
End interface.

(** ** Batches *)
Inductive future := Pending | Result (r : LLMResponse) | Failed (e : exn) | CancelledFuture.

Definition InvalidStateError : exn := OtherException "InvalidStateError".

(** [set_result] and [set_exception] of a future that may be done. *)
Definition settle (id : nat) (v : future) (fs : list future) : option (list future) :=
  match fs !! id with Some Pending => Some (<[id := v]> fs) | _ => None end.

Section batches.
Context {X : Type} (execute : LLMRequest → X → X * outcome LLMResponse).

(** The exception is the one that leaves [_process_batch]. *)
Fixpoint _process_batch (batch : list (LLMRequest * nat)) (fs : list future) (x : X) : list future * X * option exn :=
  match batch with
  | [] => (fs, x, None)
  | (request, id) :: batch =>
      let '(x, o) := execute request x in
      match o with
      | Raised Cancelled => (fs, x, Some Cancelled)
      | Returned r =>
          match settle id (Result r) fs with
          | Some fs => _process_batch batch fs x
          | None => match settle id (Failed InvalidStateError) fs with Some fs => _process_batch batch fs x | None => (fs, x, Some InvalidStateError) end
          end
      | Raised e => match settle id (Failed e) fs with Some fs => _process_batch batch fs x | None => (fs, x, Some InvalidStateError) end
      end
  end.

(** The inner loop of [_batch_processor]: what the waits for the queue give, an entry or a
    time-out, and the waits that are left. *)
Fixpoint collect (size : nat) (waits : list (option (LLMRequest * nat))) : list (LLMRequest * nat) * list (option (LLMRequest * nat)) :=
  match size, waits with
  | S size, Some r :: waits => let '(batch, rest) := collect size waits in (r :: batch, rest)
  | S _, None :: rest => ([], rest)
  | _, rest => ([], rest)
  end.

(** One round of [_batch_processor]: the flag says that the loop goes on. *)
Definition processor_round (sleep : Q → X → X) (batch_size : nat) (waits : list (option (LLMRequest * nat))) (fs : list future) (x : X) :
    list (option (LLMRequest * nat)) * list future * X * bool :=
  let '(batch, rest) := collect batch_size waits in
  let '(fs, x, e) := _process_batch batch fs x in
  match e with
  | None => (rest, fs, x, true)
  | Some e => if is_Exception e then (rest, fs, sleep 1%Q x, true) else (rest, fs, x, false)
  end.
End batches.

(** ** The breaker under interleaving *)
Record nb_inv (b : breaker) : Prop := {
  nb_closed : nstate b = CLOSED ↔ (failure_count b < threshold b)%Z;
  nb_count : (0 <= failure_count b)%Z;
  nb_last : nstate b ≠ CLOSED → is_Some (last_failure_time b);
}.

Lemma enter_nb_inv now b : nb_inv b → nb_inv (call_enter now b).1.
Proof.
  intros Hi. pose proof Hi as [H1 H2 H3]. unfold call_enter. destruct (nstate b) eqn:E; [exact Hi| |exact Hi]. destruct (_should_attempt_reset now b); [|exact Hi].
  split; cbn [nstate failure_count threshold last_failure_time fst]; [|done|by intros _; apply H3]. split; [done|]. intros Hlt. by apply H1 in Hlt.
Qed.

Lemma leave_nb_inv {T} now b (o : outcome T) : (0 < threshold b)%Z → nb_inv b → nb_inv (call_leave now b o).
Proof.
  intros Hk [H1 H2 H3]. destruct o as [t|e]; cbn [call_leave].
  - split; cbn; [by split|lia|done].
  - destruct (is_Exception e); [|done]. split; cbn [nstate failure_count threshold last_failure_time on_failure]; [|lia|eauto].
    destruct (Z.leb_spec (threshold b) (failure_count b + 1)); [split; [done|lia]|]. rewrite H1. lia.
Qed.

Lemma call_threshold {T} now b (o : outcome T) : threshold (call_enter now b).1 = threshold b ∧ threshold (call_leave now b o) = threshold b.
Proof. unfold call_enter, call_leave. destruct (nstate b), (_should_attempt_reset now b), o as [|e]; try done; by destruct (is_Exception e). Qed.

(** However the calls interleave, the breaker lets everything through exactly if fewer
    failures than the threshold have followed the last success, and otherwise knows when
    the last one was. *)
Lemma neural_breaker_inv k t c : (0 < k)%Z → rtc nb_step (new_breaker k t, 0) c → nb_inv c.1 ∧ threshold c.1 = k.
Proof.
  intros Hk H. remember (new_breaker k t, 0) as c0 eqn:E0. assert (nb_inv c0.1 ∧ threshold c0.1 = k) as H0.
  { subst c0. split; [|done]. split; cbn; [by split|lia|done]. }
  clear E0. induction H as [c|c1 c2 c3 Hs _ IH]; [done|]. apply IH. destruct H0 as [Hi Ht]. destruct Hs as [now b b' n E|now b b' e n E|now b o n]; cbn [fst] in *.
  - pose proof (enter_nb_inv now b Hi) as Hi'. destruct (call_threshold now b (Returned tt)) as [Et _]. rewrite E in Hi', Et. cbn in *. by rewrite Et.
  - pose proof (enter_nb_inv now b Hi) as Hi'. destruct (call_threshold now b (Returned tt)) as [Et _]. rewrite E in Hi', Et. cbn in *. by rewrite Et.
  - destruct (call_threshold now b o) as [_ Et]. rewrite Et. split; [|done]. apply leave_nb_inv; [lia|done].
Qed.

Lemma backoff_bounds base maxd u n : (0 <= base)%Q → (0 <= maxd)%Q → (0 <= u <= 1)%Q →
  (0 <= _calculate_backoff base maxd u n <= maxd * (11 # 10))%Q.
Proof.
  intros Hb Hm [Hu1 Hu2]. unfold _calculate_backoff. set (d := Qminb _ _).
  assert (0 <= d)%Q as Hd.
  { subst d. unfold Qminb. destruct (Qle_bool _ maxd); [|done]. apply Qmult_le_0_compat; [done|]. change 0%Q with (inject_Z 0). rewrite <- Zle_Qle. apply Z.pow_nonneg. lia. }
  assert (d <= maxd)%Q as Hd2. { subst d. unfold Qminb. destruct (Qle_bool _ maxd) eqn:E; [by apply Qle_bool_iff|lra]. }
  assert (0 <= u * (d * (1 # 10)) <= d * (1 # 10))%Q as [H1 H2].
  { split; [apply Qmult_le_0_compat; lra|]. rewrite <- (Qmult_1_l (d * (1 # 10))) at 2. apply Qmult_le_compat_r; lra. }
  lra.
Qed.

(** ** Retries *)
Section retries.
Context {X : Type} (clock loop_time : X → Q) (sleep : Q → X → X) (rand : X → X * Q).
Context (create : LLMRequest → X → X * outcome completion) (mdl : string) (max_retries : Z) (base_delay max_delay : Q).
Notation execute := (_execute_request loop_time create mdl).
Notation retry := (_execute_with_retry clock loop_time sleep rand create mdl max_retries base_delay max_delay).

(** [sent] counts the requests in the world behind. *)
Context (sent : X → nat).
Context (sent_create : ∀ r x, sent (create r x).1 = S (sent x)) (sent_sleep : ∀ d x, sent (sleep d x) = sent x) (sent_rand : ∀ x, sent (rand x).1 = sent x).
(** The library does not raise the breaker's error. *)
Context (foreign : ∀ r x, (create r x).2 ≠ Raised CircuitOpenError).

Lemma execute_sent client r x :
  sent (execute client r x).1 = (if client then S (sent x) else sent x) ∧ (execute client r x).2 ≠ Raised CircuitOpenError
  ∧ (client = false → (execute client r x).2 = Raised (OtherException "RuntimeError")).
Proof.
  unfold _execute_request. destruct client; cbn [negb]; [|done]. pose proof (sent_create r x) as H1. pose proof (foreign r x) as H2.
  destruct (create r x) as [x' o]. cbn [fst snd] in *. destruct o as [c|e]; [by destruct (choices c) as [|[text q] l]|]. cbn [fst snd].
  split_and!; [done| |done]. destruct e as [|c|]; [done| |done]. destruct (String.eqb c "TimeoutError"); [done|]. intros [= ->]. by apply H2.
Qed.

(** An open breaker whose recovery time is not over. *)
Definition shut (b : breaker) (x : X) : Prop := nstate b = OPEN ∧ _should_attempt_reset (clock x) b = false.

(** One attempt. *)
Lemma call_cases client r b x :
  let '(b', x', o) := call clock (execute client r) b x in
  shut b x ∧ b' = b ∧ x' = x ∧ o = Raised CircuitOpenError
  ∨ ¬ shut b x ∧ x' = (execute client r x).1 ∧ o = (execute client r x).2
    ∧ match o with Returned _ => nstate b' = CLOSED ∧ failure_count b' = 0%Z | Raised _ => True end.
Proof.
  unfold call, call_enter, shut. destruct (nstate b) eqn:E; [..|];
    try (destruct (execute client r x) as [x' o]; right; split_and!; [by intros [? _]|done|done|by destruct o]).
  destruct (_should_attempt_reset _ _) eqn:Er; [|by left; split_and!]. destruct (execute client r x) as [x' o]. right.
  split_and!; [by intros [_ ?]|done|done|by destruct o].
Qed.

Lemma attempts_bounded client r n : ∀ k last b x, (∀ e, last = Some e → _is_retryable e = true) →
  let '(b', x', o) := attempts clock sleep rand base_delay max_delay (execute client r) n k last b x in
  sent x <= sent x' <= sent x + n
  ∧ match o with
    | Returned a => client = true ∧ (∃ y, (execute client r y).2 = Returned a) ∧ nstate b' = CLOSED ∧ failure_count b' = 0%Z
    | Raised e => (_is_retryable e = true → (client = true ∨ is_Some last) ∧ sent x' = sent x + (if client then n else 0)) ∧ (e = CircuitOpenError → shut b' x')
    end.
Proof.
  induction n as [|n IH]; intros k last b x Hl; cbn [attempts].
  - split; [lia|]. destruct last as [e|]; cbn [default from_option]; [|done]. split; [|intros E; specialize (Hl e eq_refl); cbn in E; by subst e].
    intros _. split; [by right; eexists|by destruct client; lia].
  - pose proof (call_cases client r b x) as Hc. destruct (call clock (execute client r) b x) as [[b1 x1] o].
    destruct Hc as [(Hs & -> & -> & ->)|(Hs & -> & -> & Ho)]; [cbn; split; [lia|done]|].
    destruct (execute_sent client r x) as (S1 & S2 & S3). assert (sent x <= sent (execute client r x).1 <= S (sent x)) as S4 by (destruct client; lia).
    destruct (execute client r x) as [x1 o] eqn:Ex. cbn [fst snd] in *. destruct o as [a|e].
    + split; [lia|]. split_and!; [by destruct client; [|by specialize (S3 eq_refl)]|by exists x; rewrite Ex|apply Ho|apply Ho].
    + destruct (is_open_error e || negb (is_Exception e)) eqn:Eo.
      * split; [lia|]. split; [|by intros ->]. intros Hr. apply orb_true_iff in Eo as [Eo|Eo]; [|by destruct e]. destruct e as [|c|]; [done| |done].
        cbn in Eo. apply String.eqb_eq in Eo as ->. done.
      * destruct (_is_retryable e) eqn:Er; [|split; [lia|by split; [congruence|intros ->]]].
        pose proof (sent_rand x1) as Sr. destruct (rand x1) as [x2 u]. cbn [fst] in Sr.
        specialize (IH (S k) (Some e) b1 (sleep (_calculate_backoff base_delay max_delay u k) x2)).
        destruct (attempts _ _ _ _ _ _ n _ _ _ _) as [[b3 x3] o3]. rewrite sent_sleep, Sr in IH. destruct IH as [IH1 IH2]; [by intros ? [= <-]|].
        split; [lia|]. destruct o3 as [a|e3]; [done|]. destruct IH2 as [IH2 IH3]. split; [|done]. intros H3. destruct (IH2 H3) as [_ IH4].
        assert (client = true) as -> by (destruct client; [done|]; specialize (S3 eq_refl); injection S3 as ->; done). split; [by left|lia].
Qed.

(** C22: The neural interface never invents an answer and never asks too often.  A request is
    sent at most as often as there are attempts; an answer comes from one of the requests,
    never without a client, and closes the breaker; an error that is worth another attempt
    is raised only after every attempt was used; and the breaker's own error only while it
    is open and its recovery time not over, in which case nothing more is sent. *)
Theorem neural_retries client r b x :
  let '(b', x', o) := retry client r b x in
  sent x <= sent x' <= sent x + Z.to_nat max_retries
  ∧ (shut b x → (0 < max_retries)%Z → (b', x', o) = (b, x, Raised CircuitOpenError))
  ∧ match o with
    | Returned a => client = true ∧ (∃ y, (execute client r y).2 = Returned a) ∧ nstate b' = CLOSED ∧ failure_count b' = 0%Z
    | Raised e => (_is_retryable e = true → client = true ∧ sent x' = sent x + Z.to_nat max_retries) ∧ (e = CircuitOpenError → shut b' x')
    end.
Proof.
  unfold _execute_with_retry. pose proof (attempts_bounded client r (Z.to_nat max_retries) 0 None b x) as H.
  assert (shut b x → (0 < max_retries)%Z →
    attempts clock sleep rand base_delay max_delay (execute client r) (Z.to_nat max_retries) 0 None b x = (b, x, Raised CircuitOpenError)) as Hshut.
  { intros [H1 H2] Hm. replace (Z.to_nat max_retries) with (S (Z.to_nat (max_retries - 1))) by lia. cbn [attempts]. unfold call, call_enter.
    by rewrite H1, H2. }
  destruct (attempts _ _ _ _ _ _ _ _ _ _ _) as [[b' x'] o]. destruct H as [H1 H2]; [done|]. split_and!; [lia|lia|done|].
  destruct o as [a|e]; [done|]. destruct H2 as [H2 H3]. split; [|done]. intros He. destruct (H2 He) as [[->|[? ?]] H4]; [by split|done].
Qed.
End retries.

(** *** A server that is busy for the first request *)
Definition demo_create (_ : LLMRequest) (x : nat) : nat * outcome completion :=
  (S x, match x with O => Raised (OtherException "RateLimitError") | S _ => Returned (mkCompletion [(Some "{}", None)] "gpt" (Some (7, 4, 3)%Z)) end).
Definition demo_request : LLMRequest := mkLLMRequest [] true (3 # 10) 500 30.
Definition demo_retry (client : bool) (x : nat) : breaker * nat * outcome LLMResponse :=
  _execute_with_retry tick tick (λ _ x, x) (λ x, (x, 0%Q)) demo_create "gpt" 3 1 10 client demo_request (new_breaker 5 60) x.

Lemma demo_foreign r x : (demo_create r x).2 ≠ Raised CircuitOpenError.
Proof. by destruct x. Qed.

Lemma neural_retries_witness : ∃ b' a, demo_retry true 0 = (b', 2, Returned a) ∧ nstate b' = CLOSED ∧ failure_count b' = 0%Z.
Proof.
  pose proof (neural_retries tick tick (λ _ x, x) (λ x, (x, 0%Q)) demo_create "gpt" 3 1 10 (λ x, x) (λ _ _, eq_refl) (λ _ _, eq_refl) (λ _, eq_refl)
    demo_foreign true demo_request (new_breaker 5 60) 0) as H.
  fold (demo_retry true 0) in H. destruct (demo_retry true 0) as [[b' x'] o] eqn:E. vm_compute in E. injection E as <- <- <-.
  destruct H as (_ & _ & _ & _ & H1 & H2). eexists _, _. split; [reflexivity|]. by split.
Defined.

(** A pause follows the last attempt as well: the caller waits for nothing. *)
Example last_attempt_pauses :
  _execute_with_retry (λ x, x) (λ x, x) (λ d x, Qred (x + d)) (λ x, (x, 0%Q)) (λ _ x, (x, Raised (OtherException "RateLimitError"))) "gpt" 1 1 10 true
    demo_request (new_breaker 5 60) 0%Q
  = (mkNB 5 60 CLOSED 1 (Some 0%Q), 1%Q, Raised (OtherException "RateLimitError")).
Proof. vm_compute. reflexivity. Qed.

(** A missing client counts as failures of the service: after five hypotheses without one the
    breaker refuses the requests of the client that has become available. *)
Definition no_client_yet (x : Q) : Q * bool := ((x + 1)%Q, Qle_bool 5 x).
Definition demo_ask (ix : interface * Q) : interface * Q * outcome json :=
  generate_hypothesis (λ x, x) (λ x, x) (λ d x, (x + d)%Q) (λ x, (x, 0%Q)) (λ _ x, (x, Returned (mkCompletion [(Some "{}", None)] "gpt" None))) "gpt" 3 1 10
    no_client_yet (λ _, "") (λ _, Some (JObj [])) (JObj []) ix.1 ix.2.

Example missing_client_opens_breaker :
  let after5 := Nat.iter 5 (λ ix, (demo_ask ix).1) (mkInterface false (new_breaker 5 60), 0%Q) in
  _client (demo_ask after5).1.1 = true ∧ (demo_ask after5).2 = Raised CircuitOpenError.
Proof. vm_compute. done. Qed.

(** ** Batches *)
Definition settled (o : outcome LLMResponse) : future := match o with Returned r => Result r | Raised e => Failed e end.

Section batch_facts.
Context {X : Type} (execute : LLMRequest → X → X * outcome LLMResponse).
Context (no_cancel : ∀ r x, (execute r x).2 ≠ Raised Cancelled).

(** Futures nobody has settled or cancelled get what their own request gave. *)
Lemma batch_settles batch : ∀ fs x, NoDup batch.*2 → (∀ id, id ∈ batch.*2 → fs !! id = Some Pending) →
  let '(fs', x', e) := _process_batch execute batch fs x in
  e = None ∧ (∀ r id, (r, id) ∈ batch → ∃ y, fs' !! id = Some (settled (execute r y).2)) ∧ (∀ id, id ∉ batch.*2 → fs' !! id = fs !! id).
Proof.
  induction batch as [|[r id] batch IH]; intros fs x Hnd Hp; cbn [_process_batch]; [split_and!; [done|by intros ? ? ?%not_elem_of_nil|done]|].
  cbn [fmap list_fmap snd] in Hnd, Hp. apply NoDup_cons in Hnd as [Hni Hnd]. pose proof (Hp id (list_elem_of_here _ _)) as Hid.
  pose proof (no_cancel r x) as Hc. destruct (execute r x) as [x1 o] eqn:Ex. cbn [snd] in Hc.
  assert (∀ v, settle id v fs = Some (<[id := v]> fs)) as Hset by (intros v; unfold settle; by rewrite Hid).
  assert (∀ fs' : list future, (∀ r' id', (r', id') ∈ batch → ∃ y, fs' !! id' = Some (settled (execute r' y).2)) →
    (∀ id', id' ∉ batch.*2 → fs' !! id' = <[id := settled o]> fs !! id') →
    (∀ r' id', (r', id') ∈ (r, id) :: batch → ∃ y, fs' !! id' = Some (settled (execute r' y).2))
    ∧ ∀ id', id' ∉ id :: batch.*2 → fs' !! id' = fs !! id') as Hout.
  { intros fs' H1 H2. split.
    - intros r' id' [[= -> ->]|Hin]%elem_of_cons; [|by apply H1]. exists x. rewrite H2 by done. rewrite Ex. by rewrite list_lookup_insert_eq by by eapply lookup_lt_Some.
    - intros id' [Hne Hn]%not_elem_of_cons. rewrite H2 by done. by rewrite list_lookup_insert_ne. }
  assert (∀ id', id' ∈ batch.*2 → <[id := settled o]> fs !! id' = Some Pending) as Hp'.
  { intros id' Hin. rewrite list_lookup_insert_ne by (intros ->; done). apply Hp. by right. }
  specialize (IH (<[id := settled o]> fs) x1 Hnd Hp').
  destruct o as [a|[q|c|]]; [| | |done]; rewrite Hset; cbn [settled] in IH; destruct (_process_batch _ _ _ _) as [[fs' x'] e]; destruct IH as (-> & H1 & H2); (split; [done|by apply Hout]).
Qed.
End batch_facts.

(** A future whose caller has gone ends the batch: the requests behind it are sent to nobody,
    and their futures stay open for good. *)
Example cancelled_future_drops_batch :
  (_process_batch (λ _ x, (S x, Returned (mkLLMResponse None 0 0 "gpt"))) [(demo_request, 0); (demo_request, 1)] [CancelledFuture; Pending] 0)
  = ([CancelledFuture; Pending], 1, Some InvalidStateError).
Proof. reflexivity. Qed.
