(* ===== verification/ArqWorker.v ===== *)
(** * The queue worker ([noema/workers/arq_worker.py])

    A worker publishes that it lives under a Redis key that expires.  The process is a state
    machine whose actions are its Redis commands, one by one, with the loop of the heartbeat
    beside the start and the drain: any command may fail, with or without its effect, the
    process may die at any point, and time passes between actions.  The job that thinks is
    cut at its [await], because the jobs of a worker share one tracer and one ledger. *)
From Stdlib Require Import ZArith QArith Lia Bool Ascii String.
From stdpp Require Import base option numbers sets strings list pretty.
From S2P Require Import Prelude Symbolic CoreTypes Ledger CostTracker Security Tracer.
Local Open Scope string_scope.
Local Open Scope list_scope.
Local Open Scope Z_scope.

Definition HEARTBEAT_PREFIX : string := "noema:workers:".
Definition HEARTBEAT_TTL : Z := 15.
Definition HEARTBEAT_INTERVAL : Z := 5.

Definition make_node_id (hostname : string) (pid : Z) (token : string) : string := hostname +:+ ":" +:+ pretty pid +:+ ":" +:+ String.substring 0 8 token.

(** ** The key *)
Record NodeHeartbeat := mkHeartbeat { h_node_id : string; hostname : string; pid : Z; metrics_port : Z; started_at : Z }.

Definition _key (h : NodeHeartbeat) : string := HEARTBEAT_PREFIX +:+ h_node_id h.

(** A hash of Redis and the second in which it expires. *)
Record redis_hash := mkHash { fields : list (string * string); expires : option Z }.

Definition hset (mapping : list (string * string)) (k : option redis_hash) : option redis_hash :=
  let old := default (mkHash [] None) k in
  Some (mkHash (foldl (λ d kv, dset kv.1 kv.2 d) (fields old) mapping) (expires old)).

Definition expire (at_ : Z) (k : option redis_hash) : option redis_hash := (λ e, mkHash (fields e) (Some at_)) <$> k.

(** What is left of a key at a time. *)
Definition at_time (now : Z) (k : option redis_hash) : option redis_hash :=
  match k with
  | Some (mkHash _ (Some e)) => if e <=? now then None else k
  | _ => k
  end.

(** The mapping of [_beat]. *)
Definition beat_mapping (h : NodeHeartbeat) (now : Z) (draining : bool) : list (string * string) := [
  ("node_id", h_node_id h); ("hostname", hostname h); ("pid", pretty (pid h)); ("started_at", pretty (started_at h));
  ("last_heartbeat", pretty now); ("draining", if draining then "1" else "0"); ("metrics_port", pretty (metrics_port h))].

(** ** The process *)
Inductive main_pc :=
| Created                  (* before [start] *)
| StartBeat                (* the first [hset] is done *)
| Up                       (* started; the loop runs *)
| DrainBeat                (* [mark_draining]: its [hset] is done *)
| Drained                  (* before [stop] *)
| Stopping                 (* the loop is cancelled *)
| Stopped                  (* the key is deleted, the engine shut down *)
| Aborted                  (* [startup] or [drain] was left by an exception *)
| Crashed.
Inductive loop_pc := NoLoop | Sleeping | LoopBeat.     (* [LoopBeat]: its [hset] is done *)

Record worker := mkWorker { now : Z; key : option redis_hash; main : main_pc; loop : loop_pc; draining : bool; engine_up : bool }.

Definition worker_init (t : Z) : worker := mkWorker t None Created NoLoop false true.

(** [Fail true]: the command had its effect, and its answer was lost. *)
Inductive action := Tick (seconds : Z) | Main | MainFail (effect : bool) | Loop | LoopFail (effect : bool) | Crash.

Section process.
Context (h : NodeHeartbeat).

(** The next command of [startup] and [drain] as it acts on Redis: [hset] and [expire] of the
    first beat, those of [mark_draining], and the [delete] of [stop]. *)
Definition main_effect (w : worker) : option redis_hash :=
  match main w with
  | Created => hset (beat_mapping h (now w) false) (key w)
  | Up => hset (beat_mapping h (now w) true) (key w)
  | StartBeat | DrainBeat => expire (now w + HEARTBEAT_TTL) (key w)
  | Stopping => None
  | _ => key w
  end.

(** [startup] and [drain]: what follows the command.  [Drained] is where [stop] cancels the loop. *)
Definition main_step (w : worker) : option worker :=
  let k := main_effect w in
  match main w with
  | Created => Some (mkWorker (now w) k StartBeat NoLoop false (engine_up w))
  | StartBeat => Some (mkWorker (now w) k Up Sleeping false (engine_up w))
  | Up => Some (mkWorker (now w) k DrainBeat (loop w) true (engine_up w))
  | DrainBeat => Some (mkWorker (now w) k Drained (loop w) true (engine_up w))
  | Drained => Some (mkWorker (now w) k Stopping NoLoop true (engine_up w))
  | Stopping => Some (mkWorker (now w) k Stopped NoLoop true false)
  | Stopped | Aborted | Crashed => None
  end.

(** An exception of one of these commands leaves [startup] or [drain]; the loop goes on. *)
Definition main_fail (effect : bool) (w : worker) : option worker :=
  let k := if effect then main_effect w else key w in
  match main w with
  | Created | StartBeat | DrainBeat | Stopping => Some (mkWorker (now w) k Aborted (loop w) (draining w) (engine_up w))
  | Up => Some (mkWorker (now w) k Aborted (loop w) true (engine_up w))
  | _ => None
  end.

(** [_loop]: one command of [_beat] after the other; exceptions are logged. *)
Definition loop_effect (w : worker) : option redis_hash :=
  match loop w with
  | NoLoop => key w
  | Sleeping => hset (beat_mapping h (now w) (draining w)) (key w)
  | LoopBeat => expire (now w + HEARTBEAT_TTL) (key w)
  end.

Definition loop_step (w : worker) : option worker :=
  match loop w with
  | NoLoop => None
  | Sleeping => Some (mkWorker (now w) (loop_effect w) (main w) LoopBeat (draining w) (engine_up w))
  | LoopBeat => Some (mkWorker (now w) (loop_effect w) (main w) Sleeping (draining w) (engine_up w))
  end.

Definition loop_fail (effect : bool) (w : worker) : option worker :=
  match loop w with
  | NoLoop => None
  | _ => Some (mkWorker (now w) (if effect then loop_effect w else key w) (main w) Sleeping (draining w) (engine_up w))
  end.

Definition act (w : worker) (a : action) : option worker :=
  match a with
  | Tick d => if 0 <? d then Some (mkWorker (now w + d) (at_time (now w + d) (key w)) (main w) (loop w) (draining w) (engine_up w)) else None
  | Main => main_step w
  | MainFail e => main_fail e w
  | Loop => loop_step w
  | LoopFail e => loop_fail e w
  | Crash => Some (mkWorker (now w) (key w) Crashed NoLoop (draining w) false)
  end.

(** A beat is between its two commands. *)
Definition mid_beat (w : worker) : bool :=
  match main w with StartBeat | DrainBeat => true | _ => false end || match loop w with LoopBeat => true | _ => false end.

(** Whether an action is one that cannot cut a beat in two: nothing fails, dies or is
    cancelled between [hset] and [expire], and a failed [hset] had no effect. *)
Definition gentle (w : worker) (a : action) : bool :=
  match a with
  | Tick _ | Loop => true
  | Main => match main w with Drained => negb (mid_beat w) | _ => true end
  | MainFail effect | LoopFail effect => negb (mid_beat w) && negb effect
  | Crash => negb (mid_beat w)
  end.

Definition gentle_act (w : worker) (a : action) : option worker := if gentle w a then act w a else None.
End process.

(** ** The list of workers *)

(** [list_active_workers]: the keys with the prefix, and what [hgetall] answers for each, nothing
    if the key has gone in between. *)
Definition started (w : list (string * string)) : string := default "0" (dget "started_at" w).

Definition list_active_workers (keys : list string) (hgetall : string → list (string * string)) : list (list (string * string)) :=
  stable_sort (λ v w, negb (String.leb (started w) (started v)))
    (omap (λ k, match hgetall k with [] => None | data => Some (dset "key" k data) end) keys).

(** ** What an observer of the key knows *)
Definition ttl_ok (now : Z) (k : option redis_hash) : Prop := ∀ e x, k = Some e → expires e = Some x → now < x ≤ now + HEARTBEAT_TTL.
Definition has_ttl (k : option redis_hash) : Prop := ∀ e, k = Some e → expires e ≠ None.

Lemma hset_ttl now m k : ttl_ok now k → ttl_ok now (hset m k).
Proof. intros H e x [= <-]. destruct k as [e0|]; [apply (H e0 x eq_refl)|done]. Qed.

Lemma expire_ttl now k : ttl_ok now (expire (now + HEARTBEAT_TTL) k) ∧ has_ttl (expire (now + HEARTBEAT_TTL) k).
Proof. unfold ttl_ok, has_ttl, HEARTBEAT_TTL. destruct k as [e|]; cbn; split; try done; [intros ? ? [= <-] [= <-]; lia|by intros ? [= <-]]. Qed.

Lemma at_time_ttl now d k : 0 < d → ttl_ok now k → ttl_ok (now + d) (at_time (now + d) k) ∧ (has_ttl k → has_ttl (at_time (now + d) k)).
Proof.
  intros Hd H. destruct k as [[f [x|]]|]; cbn [at_time]; [|split; [by intros e y [= <-]|done]|by split].
  destruct (Z.leb_spec x (now + d)); [by split|]. split; [|done].
  intros e y [= <-] [= <-]. destruct (H _ _ eq_refl eq_refl). lia.
Qed.

Lemma at_time_gone now d k : HEARTBEAT_TTL ≤ d → ttl_ok now k → has_ttl k → at_time (now + d) k = None.
Proof.
  intros Hd H Ht. destruct k as [[f [x|]]|]; cbn [at_time]; [|by destruct (Ht _ eq_refl)|done]. destruct (H _ _ eq_refl eq_refl).
  destruct (Z.leb_spec x (now + d)); [done|lia].
Qed.

(** Where the loop runs, and what the end leaves. *)
Definition phases (w : worker) : Prop :=
  match main w with
  | Created => loop w = NoLoop ∧ key w = None
  | StartBeat | Stopping | Crashed => loop w = NoLoop
  | Stopped => loop w = NoLoop ∧ key w = None ∧ engine_up w = false
  | _ => True
  end.

Definition worker_inv (w : worker) : Prop := ttl_ok (now w) (key w) ∧ (mid_beat w = false → has_ttl (key w)) ∧ phases w.

Lemma worker_inv_step h w a w' : worker_inv w → gentle_act h w a = Some w' → worker_inv w'.
Proof.
  intros (Hok & Ht & Hp). unfold gentle_act. destruct (gentle w a) eqn:Eg; [|done]. destruct w as [t k m lp dr up]. cbn [now key] in *.
  pose proof (expire_ttl t k) as [He1 He2]. destruct a as [d| |e| |e|]; cbn [act].
  - destruct (Z.ltb_spec 0 d); [|done]. intros [= <-]. destruct (at_time_ttl t d k) as [H1 H2]; [done|done|]. split_and!; [done|by intros Hm; apply H2, Ht|].
    unfold phases in *. cbn [main loop key engine_up now] in *. destruct m; try done; destruct Hp as [-> H3]; [by rewrite H3|by destruct H3 as [-> ->]].
  - unfold main_step, main_effect, worker_inv, phases, mid_beat in *. destruct m; cbn [main loop key now engine_up] in *; intros [= <-];
      cbn [main loop key now engine_up orb] in *; split_and!; try done; try (by apply hset_ttl).
    intros _. apply Ht. by apply negb_true_iff in Eg.
  - cbn in Eg. apply andb_true_iff in Eg as [Eg He]. apply negb_true_iff in Eg, He. subst e. unfold main_fail, worker_inv, phases, mid_beat in *.
    destruct m; cbn [main loop key now engine_up] in *; try done; intros [= <-]; cbn [main loop key now] in *; (split_and!; [done|by intros _; apply Ht|done]).
  - unfold loop_step, loop_effect. cbn [loop]. destruct lp; cbn [now key main draining engine_up]; [done| |]; intros [= <-].
    + split_and!; [by apply hset_ttl|by destruct m|]. unfold phases in *. cbn in *. destruct m; try done; by destruct Hp.
    + split_and!; [done|done|]. unfold phases in *. cbn in *. destruct m; try done; by destruct Hp.
  - cbn in Eg. apply andb_true_iff in Eg as [Eg He]. apply negb_true_iff in Eg, He. subst e. unfold loop_fail. cbn [loop]. destruct lp; [done| |];
      intros [= <-]; (split_and!; [done|intros _; by apply Ht|]); unfold phases in *; cbn in *; destruct m; try done; by destruct Hp.
  - intros [= <-]. cbn in Eg. apply negb_true_iff in Eg. split_and!; [done|by intros _; apply Ht|done].
Qed.

(** C36: The heartbeat tells the truth about a worker.  As long as no failure, cancellation or
    death falls between the two commands of a beat, the key of a worker expires at most
    fifteen seconds after any moment at which no beat is under way; so a worker that died or
    was stopped has no key fifteen seconds later, whatever came before; and a worker that was
    drained to the end has no key at all, no heartbeat that could bring it back, and its
    engine is shut down. *)
Theorem heartbeat_honest h t l w : exec (gentle_act h) (worker_init t) l = Some w →
  (mid_beat w = false → ∀ e, key w = Some e → ∃ x, expires e = Some x ∧ now w < x ≤ now w + HEARTBEAT_TTL)
  ∧ (∀ d w', main w = Crashed ∨ main w = Stopped → HEARTBEAT_TTL ≤ d → act h w (Tick d) = Some w' → key w' = None)
  ∧ (main w = Stopped → key w = None ∧ loop w = NoLoop ∧ engine_up w = false ∧ ∀ a w', act h w a = Some w' → key w' = None ∧ loop w' = NoLoop).
Proof.
  intros Hr. assert (worker_inv w) as (Hok & Ht & Hp).
  { eapply (exec_invariant (gentle_act h) worker_inv (λ _, True)); [|apply Forall_true_all| |exact Hr]; [intros s a s' Hs _; by apply worker_inv_step|by repeat split]. }
  split_and!.
  - intros Hm e E. specialize (Ht Hm e E). destruct (expires e) as [x|] eqn:Ex; [|done]. exists x. split; [done|]. by apply (Hok e x).
  - intros d w' Hend Hd. assert (mid_beat w = false) as Hm.
    { unfold mid_beat, phases in *. destruct Hend as [E|E]; rewrite E in *; [by rewrite Hp|by destruct Hp as [-> _]]. }
    cbn [act]. destruct (0 <? d); [|done]. intros [= <-]. cbn [key]. by apply at_time_gone; [..|apply Ht].
  - intros Em. unfold phases in Hp. rewrite Em in Hp. destruct Hp as (Hl & Hk & He). split_and!; [done..|]. intros a w'. destruct a; cbn [act].
    + destruct (0 <? seconds); [|done]. intros [= <-]. cbn. by rewrite Hk.
    + unfold main_step. by rewrite Em.
    + unfold main_fail. by rewrite Em.
    + unfold loop_step. by rewrite Hl.
    + unfold loop_fail. by rewrite Hl.
    + intros [= <-]. done.
Qed.

Definition demo_node : NodeHeartbeat := mkHeartbeat "a:7:0f" "a" 7 9100 100.

(** A worker beats once and dies; it is listed for fifteen seconds more. *)
Definition demo_run : list action := [Main; Main; Tick 5; Loop; Loop; Crash].

Lemma heartbeat_honest_witness :
  ∃ w w', exec (gentle_act demo_node) (worker_init 100) demo_run = Some w ∧ (∃ e, key w = Some e) ∧ act demo_node w (Tick 15) = Some w' ∧ key w' = None.
Proof.
  destruct (exec (gentle_act demo_node) (worker_init 100) demo_run) as [w|] eqn:E; [|vm_compute in E; discriminate E].
  pose proof (heartbeat_honest demo_node 100 demo_run w E) as (_ & H & _). vm_compute in E. injection E as <-.
  eexists _, _. split; [reflexivity|]. split; [eexists; reflexivity|]. split; [reflexivity|]. eapply H; [by left|reflexivity|reflexivity].
Defined.

(** A worker that dies between [hset] and [expire] of its first beat is listed for good. *)
Example death_between_commands : ∃ w e, exec (act demo_node) (worker_init 100) [Main; Crash; Tick 1000000] = Some w ∧ key w = Some e ∧ expires e = None.
Proof. eexists _, _. split; [vm_compute; reflexivity|]. by split. Qed.

(** If Redis fails while the worker is drained, the engine is not shut down, and the loop goes
    on with its beats. *)
Example failed_drain_keeps_running : ∃ w, exec (act demo_node) (worker_init 100) [Main; Main; MainFail false] = Some w
  ∧ main w = Aborted ∧ loop w = Sleeping ∧ engine_up w = true.
Proof. eexists. split; [vm_compute; reflexivity|]. done. Qed.

(** The list has one entry for each key that still has data, in the order of their start. *)
Lemma list_active_exact keys hgetall :
  list_active_workers keys hgetall ≡ₚ omap (λ k, match hgetall k with [] => None | data => Some (dset "key" k data) end) keys.
Proof. apply stable_sort_perm. Qed.

(** ** The job *)
Definition complexity_of (s : string) : option TaskComplexity :=
  List.find (λ c, String.eqb (complexity_value c) s) [TRIVIAL; SIMPLE; MODERATE; COMPLEX; EXTREME].

Definition field_or (k : string) (dflt : json) (d : Symbolic.dict) : json := default dflt (dget k d).

Section job.
(** pydantic's reading of a requirement, and the new identifier of the task. *)
Context (requirement : json → result pyexn Requirement) (new_id : string).

(** The task of [think_task]; its exceptions are raised outside of the handler. *)
Definition task_of (task_data : Symbolic.dict) : result pyexn Task :=
  match dget "title" task_data with
  | None => Err KeyError
  | Some t =>
      match field_or "complexity" (JStr "moderate") task_data with
      | JStr c =>
          match complexity_of c with
          | None => Err ValueError
          | Some c =>
              title ← as_str t;
              description ← as_str (field_or "description" (JStr "") task_data);
              tags ← as_strs (field_or "tags" (JArr []) task_data);
              requirements ← match field_or "requirements" (JArr []) task_data with JArr l => mapM_result requirement l | _ => Err ValueError end;
              Ok (mkTask new_id title description requirements None c tags)
          end
      | _ => Err ValueError
      end
  end.
End job.

(** What the awaited [think] gives: a solution with its identifier and duration, or an exception's text. *)
Inductive thought := Solved (s : Solution) (solution_id : string) (duration : Q) | ThinkFailed (error : string).

Record job_result := mkJob { status : string; j_error : string; j_solution : string; j_task : string; j_quality : string; j_confidence : Q; j_duration : Q }.

(** [before]: the totals of the tracer when the job began. *)
Definition job_tokens (before : Q * Q) (t : Tracer) : Z * Z :=
  (Qtrunc (Tracer.tokens_input (get_stats t) - before.1), Qtrunc (Tracer.tokens_output (get_stats t) - before.2)).

Definition job_begin (t : Tracer) : Q * Q := (Tracer.tokens_input (get_stats t), Tracer.tokens_output (get_stats t)).

(** [task_data.get(k, "")] of a text. *)
Definition text_field (k : string) (d : Symbolic.dict) : string := match dget k d with Some (JStr s) => s | _ => "" end.

(** The call of [ledger.record]. *)
Definition contribution (node entry_id llm_model : string) (timestamp : Q) (write_ok : bool) (task_data : Symbolic.dict) (tokens : Z * Z)
    (s : Solution) (solution_id : string) (duration : Q) : record_call :=
  let model := if nonempty (text_field "model" task_data) then text_field "model" task_data else llm_model in
  Ledger.mkCall entry_id timestamp node (CoreTypes.task_id s) "" "solution" (text_field "provider" task_data) model tokens.1 tokens.2
    (if nonempty model then calculate_cost model tokens.1 tokens.2 else 0) "" solution_id
    [("duration_ms", JNum duration); ("quality", JStr (quality_value (quality s)))] write_ok.

(** [think_task] from the end of [think] on; the ledger is [None] if there is none. *)
Definition job_finish (dumps : LedgerEntry → string) (node entry_id llm_model : string) (timestamp : Q) (write_ok : bool)
    (task_data : Symbolic.dict) (before : Q * Q) (t : Tracer) (ledger : option ContributionLedger) (o : thought) :
    option ContributionLedger * job_result :=
  match o with
  | ThinkFailed e => (ledger, mkJob "failed" e "" "" "" 0 0)
  | Solved s sid duration =>
      ((λ l, (Ledger.record dumps l (contribution node entry_id llm_model timestamp write_ok task_data (job_tokens before t) s sid duration)).1) <$> ledger,
       mkJob "completed" "" sid (CoreTypes.task_id s) (quality_value (quality s)) (confidence s) duration)
  end.

(** *** Jobs that share a tracer *)
Definition llm_span (input output : Z) : TraceSpan :=
  mkSpan "s" "" "t" "llm" "llm" 0 0 0 0 0 [("llm.tokens", JNum (inject_Z (input + output))); ("llm.tokens_input", JNum (inject_Z input));
    ("llm.tokens_output", JNum (inject_Z output))] [] "ok" "".
Definition tracer_of (l : list TraceSpan) : Tracer := mkTracer demo_config "t" l (seq 0 (length l)) [] [] [].
Definition demo_solution : Solution := new_solution "task" "title" "summary".
Definition recorded (before : Q * Q) (t : Tracer) : list (Z * Z) :=
  match (job_finish (λ _, "") "node" "e" "gpt-4o" 0 false [] before t (Some (ledger_init false 10 None)) (Solved demo_solution "sol" 0)).1 with
  | Some l => map (λ e, (Ledger.input_tokens e, Ledger.output_tokens e)) (_entries l)
  | None => []
  end.

(** A job that runs alone is charged for its own calls. *)
Example job_alone : recorded (job_begin (tracer_of [llm_span 10 5])) (tracer_of [llm_span 10 5; llm_span 7 3]) = [(7, 3)].
Proof. vm_compute. reflexivity. Qed.

(** Two jobs that overlap are both charged for the calls of both. *)
Example overlapping_jobs_charge_twice :
  let start := job_begin (tracer_of []) in let end_ := tracer_of [llm_span 10 5; llm_span 7 3] in recorded start end_ ++ recorded start end_ = [(17, 8); (17, 8)].
Proof. vm_compute. reflexivity. Qed.

(** When the tracer drops old spans during a job, their tokens are taken off its own. *)
Example dropped_spans_are_free : recorded (job_begin (tracer_of [llm_span 10 5])) (tracer_of [llm_span 7 3]) = [(0, 0)].
Proof. vm_compute. reflexivity. Qed.
