(* ===== verification/Services.v ===== *)
(** * Services, plugins and replay

    The reasoning service ([noema/services/reasoning.py]), which builds a solution from the
    answers of a chain of thought ([ChainOfThought]); what the memory service
    ([noema/services/memory.py]) records of a task ([Memory]); the plugin manager
    ([noema/plugins/manager.py]); and the replay of a trace ([noema/debug/replay.py]) over
    the tracer ([Tracer]) and the providers ([Providers], [Clients]).  JSON decoding, the
    files and modules of plugins and the providers' answers are parameters. *)
From Stdlib Require Import ZArith QArith Lia Bool Ascii String.
From stdpp Require Import base option numbers sets strings list.
From S2P Require Import Prelude CircuitBreaker Symbolic Prompts CoreTypes ChainOfThought SemanticCache Memory Regex Security Tracer Providers Clients.
Local Open Scope string_scope.
Local Open Scope list_scope.
Local Open Scope nat_scope.

(** ** The reasoning service *)
Module Reasoning.
Section service.
Context (loads : string → option json).

(** [a or b], for JSON values. *)
Definition or_json (a : option json) (b : json) : json := match a with Some j => if truthy j then j else b | None => b end.

(** The block of a file entry; pydantic raises unless the fields are texts. *)
Definition block_of (f : dict) : result pyexn CodeBlock :=
  name ← as_str (or_json (dget "path" f) (or_json (dget "filename" f) (JStr "main.py")));
  lang ← as_str (default (JStr "python") (dget "language" f));
  text ← as_str (default JNull (dget "content" f));
  descr ← as_str (default (JStr "") (dget "description" f));
  Ok (mkBlock name lang text descr).

(** The loop over the files: an exception ends it, and the blocks before stay. *)
Fixpoint blocks_of (l : list json) : list CodeBlock :=
  match l with
  | [] => []
  | JObj f :: l =>
      if truthy (default JNull (dget "content" f))
      then match block_of f with Ok b => b :: blocks_of l | Err _ => [] end
      else blocks_of l
  | _ :: l => blocks_of l
  end.

(** [json.loads] of a text of the context. *)
Definition read (k : string) (context : dict) : option json :=
  match default (JStr "") (dget k context) with JStr s => loads s | _ => None end.

Definition code_of (context : dict) : list CodeBlock :=
  match read "codegen" context with
  | Some (JObj d) => match dget "files" d with Some (JArr l) => blocks_of l | _ => [] end
  | _ => []
  end.

Definition architecture_of (context : dict) : option ArchitecturePattern :=
  match read "architecture" context with
  | Some (JObj d) =>
      match dget "pattern" d with
      | Some (JObj p) =>
          match as_str (default (JStr "unknown") (dget "name" p)), as_str (default (JStr "") (dget "description" p)) with
          | Ok n, Ok descr => Some (mkPattern n descr [] [])
          | _, _ => None
          end
      | _ => None
      end
  | _ => None
  end.

Definition summary_of (task : Task) (context : dict) : string :=
  let s := match read "review" context with
    | Some (JObj d) => match dget "final_summary" d with Some (JStr s) => s | _ => "" end
    | _ => ""
    end in
  if nonempty s then s
  else if nonempty (CoreTypes.description task) then CoreTypes.description task else "Solution for: " +:+ title task.

Definition python_stack : TechStack := mkStack ["Python"] [] [] [] [] [].

Definition _build_solution (task : Task) (context : dict) (steps : nat) (provider model : string) : Solution :=
  let blocks := code_of context in
  let found := match blocks with [] => false | _ => true end in
  mkSolution (id task) ("Solution: " +:+ title task) (summary_of task context) (architecture_of context)
    (default python_stack (preferred_stack task)) blocks [] []
    (if found then GOOD else DRAFT) (if found then 7 # 10 else 4 # 10)
    [("reasoning_steps", JNum (inject_Z (Z.of_nat steps))); ("llm_provider", JStr provider); ("llm_model", JStr model)].

(** [_build_thought_process]; a confidence outside of the unit interval raises, and
    [final_reasoning] is the text of the review. *)
Definition _build_thought_process (task : Task) (steps : list CoTStep) (review : string) : result pyexn ThoughtProcess :=
  tp ← foldl (λ acc s, tp ← acc; add_step tp (name s) (String.substring 0 200 (user_prompt s)) (String.substring 0 500 (st_result s)) (ChainOfThought.confidence s))
    (Ok (mkThought (id task) [] "" 0)) steps;
  Ok (mkThought (tp_task_id tp) (CoreTypes.steps tp) review (CoreTypes.duration_ms tp)).
End service.
End Reasoning.

(** ** The memory service *)
Module MemoryServices.
Definition outcome_of (q : SolutionQuality) : string := if bool_decide (q ∈ [MASTERPIECE; EXCELLENT; GOOD]) then "success" else "partial".

Definition underscored (s : string) : string := map_string (λ a, if Ascii.eqb a " " then "_"%char else a) s.

(** The episode and the procedure [record_task_outcome] records; [id1], [id2] and [now] are new. *)
Definition episode_of (id1 : string) (now : Q) (task : Task) (s : Solution) (duration : Q) : EpisodicMemory :=
  mkEpisode id1 now (title task +:+ ": " +:+ CoreTypes.description task) (String.substring 0 500 (CoreTypes.summary s))
    (join ", " (languages (stack s) ++ frameworks (stack s))) (outcome_of (quality s)) duration "" (CoreTypes.tags task)
    [("quality", JStr (quality_value (quality s))); ("confidence", JNum (CoreTypes.confidence s))].

Definition procedure_of (id2 : string) (task : Task) : ProceduralMemory :=
  mkProc id2 ("solution_" +:+ underscored (String.substring 0 30 (title task))) [] 1 0 0 0 [] (CoreTypes.tags task).

Definition record_task_outcome {V} (normalize : V → V) (faiss : bool) (embed : string → V) (id1 id2 : string) (now : Q) (task : Task) (s : Solution) (duration : Q) (st : @MemoryStore V) : MemoryStore :=
  let st := record_episode normalize faiss embed (episode_of id1 now task s duration) st in
  if bool_decide (quality s ∈ [MASTERPIECE; EXCELLENT]) then store_procedure (procedure_of id2 task) st else st.

(** [get_recent_context], from the episodes that were found. *)
Definition recent_line (ep : EpisodicMemory) : string := "[Past] " +:+ String.substring 0 100 (task_description ep) +:+ " → " +:+ e_outcome ep.
Definition recent_context (episodes : list EpisodicMemory) : string := join nl (map recent_line episodes).
End MemoryServices.

(** ** Plugins *)
Module Plugins.
Record PluginMeta := mkMeta { p_name : string; version : string; author : string; p_description : string; dependencies : list string }.

Section plugins.
(** Kernels, agents and callbacks. *)
Context {K A C : Type}.

Record Plugin := mkPlugin { meta : PluginMeta; _kernels : list K; _agents : list A; _hooks : list (string * list C); _initialized : bool }.

Definition new_plugin (m : PluginMeta) : Plugin := mkPlugin m [] [] [] false.
Definition setup (p : Plugin) : Plugin := mkPlugin (meta p) (_kernels p) (_agents p) (_hooks p) true.
Definition teardown (p : Plugin) : Plugin := mkPlugin (meta p) (_kernels p) (_agents p) (_hooks p) false.
Definition register_kernel (k : K) (p : Plugin) : Plugin := mkPlugin (meta p) (_kernels p ++ [k]) (_agents p) (_hooks p) (_initialized p).
Definition register_agent (a : A) (p : Plugin) : Plugin := mkPlugin (meta p) (_kernels p) (_agents p ++ [a]) (_hooks p) (_initialized p).
Definition on (event : string) (cb : C) (p : Plugin) : Plugin :=
  mkPlugin (meta p) (_kernels p) (_agents p) (dset event (default [] (dget event (_hooks p)) ++ [cb]) (_hooks p)) (_initialized p).

(** [emit]: a callback acts on the world and may raise; [callable] as in the code. *)
Context {X : Type} (callable : C → bool) (run : C → json → X → X * outcome unit).
Fixpoint emit_all (cbs : list C) (data : json) (x : X) : X * outcome unit :=
  match cbs with
  | [] => (x, Returned tt)
  | cb :: cbs =>
      if callable cb then
        let '(x, o) := run cb data x in
        match o with Raised e => if is_Exception e then emit_all cbs data x else (x, Raised e) | Returned _ => emit_all cbs data x end
      else emit_all cbs data x
  end.
Definition emit (event : string) (data : json) (p : Plugin) (x : X) : X * outcome unit := emit_all (default [] (dget event (_hooks p))) data x.

(** *** The manager *)
Definition manager := list (string * Plugin).

(** What is found in a directory: its name, whether [plugin.py] exists, the text of the
    metadata file as [json.loads] reads it ([Some None]: not JSON), and what the import and
    the constructor with its set-up give: the plugin, none if the class is missing or no
    plugin, or an exception. *)
Record directory := mkDir {
  d_name : string; has_plugin : bool; meta_file : option (option dict); make : PluginMeta → outcome (option Plugin);
}.

(** The fields are taken as they are; texts here. *)
Definition text_of (k dflt : string) (d : dict) : string := match dget k d with Some (JStr s) => s | _ => dflt end.

Definition meta_of (d : directory) (m : dict) : PluginMeta :=
  mkMeta (text_of "name" (d_name d) m) (text_of "version" "0.1.0" m) (text_of "author" "" m) (text_of "description" "" m)
    (match dget "dependencies" m with Some (JArr l) => omap (λ j, match j with JStr s => Some s | _ => None end) l | _ => [] end).

Definition load_plugin (d : directory) (pm : manager) : manager * outcome (option Plugin) :=
  if negb (has_plugin d) then (pm, Returned None)
  else
    match meta_file d with
    | Some None => (pm, Raised (OtherException "JSONDecodeError"))
    | mf =>
        let m := meta_of d (default [] (mjoin mf)) in
        match make d m with
        | Returned (Some p) => (dset (p_name m) p pm, Returned (Some p))
        | Returned None => (pm, Returned None)
        | Raised e => if is_Exception e then (pm, Returned None) else (pm, Raised e)
        end
    end.

(** [discover]: the directories with [plugin.py] and metadata. *)
Definition discover (ds : list directory) : list directory :=
  List.filter (λ d, has_plugin d && match meta_file d with Some _ => true | None => false end) ds.

Fixpoint load_each (ds : list directory) (loaded : nat) (pm : manager) : manager * outcome nat :=
  match ds with
  | [] => (pm, Returned loaded)
  | d :: ds =>
      let '(pm, o) := load_plugin d pm in
      match o with
      | Raised e => (pm, Raised e)
      | Returned (Some _) => load_each ds (S loaded) pm
      | Returned None => load_each ds loaded pm
      end
  end.
Definition load_all (ds : list directory) (pm : manager) : manager * outcome nat := load_each (discover ds) 0 pm.

(** [unload_plugin]; [teardown] of a subclass may raise. *)
Definition unload_plugin (torn : Plugin → outcome unit) (nm : string) (pm : manager) : manager * outcome bool :=
  match dget nm pm with
  | None => (pm, Returned false)
  | Some p => match torn p with Returned _ => (ddel nm pm, Returned true) | Raised e => (pm, Raised e) end
  end.

Definition get_all_kernels (pm : manager) : list K := concat (map (λ p, _kernels p.2) pm).
Definition get_all_agents (pm : manager) : list A := concat (map (λ p, _agents p.2) pm).
Definition get_stats (pm : manager) : nat * list (string * (string * string * nat * nat)) :=
  (length pm, map (λ p, (p.1, (version (meta p.2), author (meta p.2), length (_kernels p.2), length (_agents p.2)))) pm).
End plugins.
End Plugins.

(** ** Replay *)
Module Replay.
Record ReplayStepDiff := mkDiff { step_name : string; original_preview : string; new_preview : string; identical : bool }.
Record ReplayResult := mkReplay { r_trace_id : string; original_steps : nat; new_steps : nat; diffs : list ReplayStepDiff; r_error : string }.

(** What the caller may override. *)
Record overrides := mkOverrides { o_provider : option string; o_model : option string; o_temperature : option Q; o_max_tokens : option Z }.

Section replay.
Context (loads : string → option json) (show : exn → string).
Context {X : Type} (complete : string → string → list LLMMessage → Q → Z → X → X * outcome LLMResponse).

Definition attr (k : string) (s : span_dict) : string := default "" (dget k (d_attributes s)).

(** One entry of the messages: a dictionary with texts, or the exception. *)
Definition message_of (j : json) : result exn LLMMessage :=
  match j with
  | JObj d =>
      match default (JStr "user") (dget "role" d), default (JStr "") (dget "content" d) with
      | JStr r, JStr c => Ok (mkMessage r c)
      | _, _ => Err (OtherException "ValidationError")
      end
  | _ => Err (OtherException "AttributeError")
  end.

Fixpoint messages_of (l : list json) : result exn (list LLMMessage) :=
  match l with [] => Ok [] | j :: l => m ← message_of j; ms ← messages_of l; Ok (m :: ms) end.

(** The messages of a recorded prompt: a dictionary is iterated over its keys and a text over
    its characters. *)
Definition recorded_messages (raw : string) : result exn (list LLMMessage) :=
  match loads raw with
  | None => Ok [mkMessage "user" raw]
  | Some (JArr l) => messages_of l
  | Some (JObj []) | Some (JStr "") => Ok []
  | Some (JObj _) | Some (JStr _) => Err (OtherException "AttributeError")
  | Some _ => Err (OtherException "TypeError")
  end.

Definition replay_span (o : overrides) (s : span_dict) (x : X) : X * outcome ReplayStepDiff :=
  let provider := default (attr "llm.provider" s) (o_provider o) in
  let model := default (attr "llm.model" s) (o_model o) in
  let original := if nonempty (attr "llm.response" s) then String.substring 0 200 (attr "llm.response" s) else "(no response)" in
  let diff new := mkDiff (d_name s) original new (String.eqb original new) in
  match recorded_messages (attr "llm.prompt" s) with
  | Err e => (x, Returned (diff ("[ERROR: " +:+ show e +:+ "]")))
  | Ok ms =>
      let '(x, r) := complete provider model ms (default (3 # 10) (o_temperature o)) (default 2048%Z (o_max_tokens o)) x in
      match r with
      | Returned a => (x, Returned (diff (String.substring 0 200 (Providers.content a))))
      | Raised e => if is_Exception e then (x, Returned (diff ("[ERROR: " +:+ show e +:+ "]"))) else (x, Raised e)
      end
  end.

Fixpoint replay_spans (o : overrides) (l : list span_dict) (x : X) : X * outcome (list ReplayStepDiff) :=
  match l with
  | [] => (x, Returned [])
  | s :: l =>
      let '(x, r) := replay_span o s x in
      match r with
      | Raised e => (x, Raised e)
      | Returned d => let '(x, r) := replay_spans o l x in (x, match r with Returned ds => Returned (d :: ds) | Raised e => Raised e end)
      end
  end.

(** The spans of a trace. *)
Definition of_trace (tid : string) (s : span_dict) : bool := String.eqb (d_trace_id s) tid || String.eqb (attr "trace_id" s) tid.
Definition is_llm (s : span_dict) : bool := String.eqb (d_kind s) "llm".

Definition replay_trace (tid : string) (o : overrides) (trace : list span_dict) (x : X) : X * outcome ReplayResult :=
  match trace with
  | [] => (x, Returned (mkReplay tid 0 0 [] "No trace data available"))
  | _ =>
      let spans := List.filter is_llm trace in
      let spans := if nonempty tid then List.filter (of_trace tid) spans else spans in
      if nonempty tid && match spans with [] => true | _ => false end
      then (x, Returned (mkReplay tid 0 0 [] ("No LLM spans found for trace " +:+ tid)))
      else
        let '(x, r) := replay_spans o spans x in
        (x, match r with Returned ds => Returned (mkReplay tid (length spans) (length ds) ds "") | Raised e => Raised e end)
  end.
End replay.
End Replay.

(** ** What the parts promise *)
Section facts.
Import Reasoning.
Context (loads : string → option json).

(** A block comes from an entry with a text, in the order of the entries. *)
Lemma blocks_of_entries l b : b ∈ blocks_of l → ∃ f, JObj f ∈ l ∧ block_of f = Ok b ∧ CoreTypes.content b ≠ "".
Proof.
  induction l as [|j l IH]; cbn [blocks_of]; [by intros ?%not_elem_of_nil|].
  destruct j as [| | | | |f]; try (intros (f' & H1 & H2)%IH; exists f'; split; [by right|done]).
  destruct (truthy (default JNull (dget "content" f))) eqn:Et; [|intros (f' & H1 & H2)%IH; exists f'; split; [by right|done]].
  destruct (block_of f) as [b'|] eqn:Eb; [|by intros ?%not_elem_of_nil]. intros [->|(f' & H1 & H2)%IH]%elem_of_cons; [|exists f'; split; [by right|done]].
  exists f. split_and!; [by left|done|]. unfold block_of in Eb. apply result_bind_ok in Eb as (n & _ & Eb). apply result_bind_ok in Eb as (lg & _ & Eb).
  apply result_bind_ok in Eb as (t & Ht & Eb). apply result_bind_ok in Eb as (d & _ & [= <-]). cbn [CoreTypes.content]. intros ->.
  destruct (default JNull (dget "content" f)) as [| | |s| |]; try done. cbn in Ht. injection Ht as ->. done.
Qed.

(** The service calls a solution good exactly if it has code, and every block of it is a
    file of the answer to the code generation. *)
Lemma reasoning_honest task context n provider mdl :
  let s := _build_solution loads task context n provider mdl in
  (quality s = GOOD ↔ code_blocks s ≠ []) ∧ (quality s = GOOD ∨ quality s = DRAFT)
  ∧ ∀ b, b ∈ code_blocks s → CoreTypes.content b ≠ "" ∧ ∃ d l f, read loads "codegen" context = Some (JObj d) ∧ dget "files" d = Some (JArr l) ∧ JObj f ∈ l ∧ block_of f = Ok b.
Proof.
  cbn [_build_solution CoreTypes.quality code_blocks]. split_and!.
  - by destruct (code_of loads context).
  - destruct (code_of loads context); [by right|by left].
  - unfold code_of. intros b. destruct (read loads "codegen" context) as [[| | | | |d]|] eqn:Er; try (by intros ?%not_elem_of_nil).
    destruct (dget "files" d) as [[| | | |l|]|] eqn:Ed; try (by intros ?%not_elem_of_nil). intros (f & H1 & H2 & H3)%blocks_of_entries. split; [done|]. by exists d, l, f.
Qed.
End facts.

(** The service reads the answers as they are: the same files inside of a code fence, which
    the other readers remove, are no code. *)
Definition bare_loads (s : string) : option json :=
  if String.prefix "{" s then Some (JObj [("files", JArr [JObj [("path", JStr "a.py"); ("content", JStr "pass")]])]) else None.
Definition service_task : Task := mkTask "t" "shop" "" [] None MODERATE [].
Definition built (answer : string) : Solution := Reasoning._build_solution bare_loads service_task [("codegen", JStr answer)] 5 "p" "m".

Example fenced_answer_is_no_code : map filename (code_blocks (built "{}")) = ["a.py"] ∧ code_blocks (built ("```json" +:+ nl +:+ "{}" +:+ nl +:+ "```")) = []
  ∧ quality (built ("```json" +:+ nl +:+ "{}" +:+ nl +:+ "```")) = DRAFT ∧ bare_loads (strip_fences ("```json" +:+ nl +:+ "{}" +:+ nl +:+ "```")) ≠ None.
Proof. vm_compute. done. Qed.

Section plugin_facts.
Import Plugins.
Context {K A C X : Type} (callable : C → bool) (run : C → json → X → X * outcome unit).

(** One failing callback does not keep the others from running: each callable one runs
    once, in the order of registration. *)
Lemma hooks_all_run cbs data : (∀ cb x, (run cb data x).2 ≠ Raised Cancelled) → ∀ x,
  emit_all callable run cbs data x = (foldl (λ x cb, (run cb data x).1) x (List.filter callable cbs), Returned tt).
Proof.
  intros Hnc. induction cbs as [|cb cbs IH]; intros x; [done|]. cbn [emit_all List.filter]. destruct (callable cb); [|apply IH]. cbn [foldl].
  specialize (Hnc cb x). destruct (run cb data x) as [x' [u|[q|c|]]]; cbn [is_Exception fst snd] in *; [apply IH..|done].
Qed.

Lemma registered_hook event cb data (p : Plugin (K := K) (A := A)) x :
  emit callable run event data (on event cb p) x = emit_all callable run (default [] (dget event (_hooks p)) ++ [cb]) data x.
Proof. unfold emit, on. cbn [_hooks]. by rewrite dget_dset_eq. Qed.

(** What [load_each] counts is an upper bound of the plugins it adds. *)
Lemma load_count (ds : list (directory (K := K) (A := A) (C := C))) : ∀ n pm pm' m, load_each ds n pm = (pm', Returned m) → length pm' + n <= length pm + m ∧ n <= m.
Proof.
  assert (∀ nm (p : Plugin (K := K) (A := A) (C := C)) (d : manager), length (dset nm p d) <= S (length d)) as Hset.
  { intros nm p d. destruct (decide (nm ∈ d.*1)); [rewrite dset_length_mem by done; lia|rewrite dset_length_fresh by done; lia]. }
  induction ds as [|d ds IH]; intros n pm pm' m; cbn [load_each]; [intros [= <- <-]; lia|]. destruct (load_plugin d pm) as [pm1 o] eqn:E.
  assert (match o with Returned (Some _) => length pm1 <= S (length pm) | _ => pm1 = pm end) as Hl.
  { unfold load_plugin in E. destruct (negb (has_plugin d)); [by injection E as <- <-|].
    destruct (meta_file d) as [[mf|]|]; cbn in E; [|by injection E as <- <-|];
      (destruct (make d _) as [[p|]|e]; [injection E as <- <-; apply Hset|by injection E as <- <-|destruct (is_Exception e); by injection E as <- <-]). }
  destruct o as [[p|]|e]; [intros [H1 H2]%IH; lia|subst pm1; intros H%IH; lia|done].
Qed.
End plugin_facts.

Definition plain_dir (nm : string) (mf : option Symbolic.dict) : Plugins.directory (K := unit) (A := unit) (C := unit) :=
  Plugins.mkDir nm true (Some mf) (λ m, Returned (Some (Plugins.setup (Plugins.new_plugin m)))).

(** Two plugins of one name: both are counted, one is left, and the other is not torn down. *)
Example plugin_of_same_name_is_replaced :
  let '(pm, o) := Plugins.load_all [plain_dir "a" (Some [("name", JStr "x")]); plain_dir "b" (Some [("name", JStr "x")])] [] in o = Returned 2 ∧ length pm = 1.
Proof. done. Qed.

(** Metadata that are not JSON end the loading of all plugins behind. *)
Example broken_metadata_stops_loading :
  Plugins.load_all [plain_dir "a" None; plain_dir "b" (Some [])] [] = ([], Raised (OtherException "JSONDecodeError")).
Proof. done. Qed.

Section replay_facts.
Import Replay.
Context (loads : string → option json) (show : exn → string) {X : Type}.
Context (complete : string → string → list LLMMessage → Q → Z → X → X * outcome LLMResponse).

Lemma replay_spans_diffs o l : ∀ x x' ds, replay_spans loads show complete o l x = (x', Returned ds) →
  Forall2 (λ s d, step_name d = d_name s ∧ identical d = String.eqb (original_preview d) (new_preview d)) l ds.
Proof.
  induction l as [|s l IH]; intros x x' ds; cbn [replay_spans]; [by intros [= _ <-]|].
  destruct (replay_span loads show complete o s x) as [x1 r] eqn:E1. destruct r as [d|e]; [|done].
  destruct (replay_spans loads show complete o l x1) as [x2 r2] eqn:E2. destruct r2 as [ds'|e]; [|done]. intros [= _ <-].
  constructor; [|by eapply IH]. unfold replay_span in E1. destruct (recorded_messages loads _) as [ms|e]; [|by simplify_eq].
  destruct (complete _ _ _ _ _ _) as [x3 [a|e]]; [by simplify_eq|]. by destruct (is_Exception e); simplify_eq.
Qed.

(** A replay has one difference for every call of the trace that was asked for. *)
Lemma replay_exact tid o trace x x' r : replay_trace loads show complete tid o trace x = (x', Returned r) → r_error r = "" →
  Forall2 (λ s d, step_name d = d_name s ∧ identical d = String.eqb (original_preview d) (new_preview d))
    (List.filter (λ s, is_llm s && (negb (nonempty tid) || of_trace tid s)) trace) (diffs r)
  ∧ original_steps r = length (diffs r) ∧ new_steps r = length (diffs r).
Proof.
  unfold replay_trace. destruct trace as [|s0 trace0]; [by intros [= _ <-]|]. set (trace := s0 :: trace0). clearbody trace.
  assert (List.filter (λ s, is_llm s && (negb (nonempty tid) || of_trace tid s)) trace
    = (if nonempty tid then List.filter (of_trace tid) (List.filter is_llm trace) else List.filter is_llm trace)) as ->.
  { destruct (nonempty tid); cbn [negb orb]; induction trace as [|s trace IH]; cbn [List.filter]; try done; destruct (is_llm s); cbn [andb List.filter];
      rewrite ?IH; try done; by destruct (of_trace tid s). }
  set (spans := if nonempty tid then _ else _). destruct (nonempty tid && _).
  - intros [= _ <-]. cbn. done.
  - destruct (replay_spans loads show complete o spans x) as [x1 r1] eqn:E. destruct r1 as [ds|e]; [|done]. intros [= _ <-] _. cbn [diffs original_steps new_steps].
    apply replay_spans_diffs in E. split; [done|]. split; [by eapply Forall2_length|done].
Qed.
End replay_facts.

(** The trace shows 500 characters of a prompt: a longer one is no JSON any more, and is
    replayed as one message with the text of the others cut off in it. *)
Definition long_prompt : string := "[" +:+ String.concat "" (replicate 600 "a") +:+ "]".
Definition long_span : TraceSpan := mkSpan "s" "" "t" "llm.x" "llm" 0 0 0 0 0 [("llm.prompt", JStr long_prompt)] [] "ok" "".
Definition closing_loads (s : string) : option json := if ends_with "]" s then Some (JArr [JObj [("role", JStr "system"); ("content", JStr "rules")]]) else None.

Example long_prompt_is_replayed_as_text :
  Replay.recorded_messages closing_loads long_prompt = Ok [mkMessage "system" "rules"]
  ∧ Replay.recorded_messages closing_loads (Replay.attr "llm.prompt" (Tracer.to_dict (λ _, "") long_span)) = Ok [mkMessage "user" (String.substring 0 500 long_prompt)].
Proof. vm_compute. done. Qed.
