(* ===== verification/Sandbox.v ===== *)
(** * Sandboxes ([noema/sandbox/environment.py], [engine.py], [docker.py])

    The paths, environment variables and commands a candidate is run with; the stages of
    both environments, which write into a shared result; the engine that dispatches them;
    and the container of plugins.  What a process answers is a parameter that may depend on
    the stage, the file, the command and its environment variables, as are the syntax check and the static pass (see
    [StaticCheck]); the temporary directory can always be made.  A path is the list of its
    components; the fresh directory holds no links, so that [resolve] is lexical. *)
From Stdlib Require Import ZArith QArith Lia Bool Ascii String.
From stdpp Require Import base option numbers sets strings list pretty.
From S2P Require Import Prelude SemanticCache Symbolic Prompts CoreTypes Regex RegexSpec Security.
Local Open Scope string_scope.
Local Open Scope list_scope.
Local Open Scope nat_scope.

(** ** Paths *)
Fixpoint split_on (c : ascii) (s : string) : list string :=
  match s with
  | EmptyString => [""]
  | String a s =>
      if Ascii.eqb a c then "" :: split_on c s
      else match split_on c s with [] => [String a ""] | w :: l => String a w :: l end
  end.

Fixpoint lstrip_slashes (s : string) : string :=
  match s with
  | String a t => if Ascii.eqb a "/" || Ascii.eqb a "\" then lstrip_slashes t else s
  | EmptyString => ""
  end.

(** [Path.resolve]: the components read so far, last first. *)
Definition resolve_step (done : list string) (c : string) : list string :=
  if String.eqb c "" || String.eqb c "." then done else if String.eqb c ".." then tail done else c :: done.
Definition resolve (l : list string) : list string := rev (foldl resolve_step [] l).

Fixpoint is_prefix (base l : list string) : bool :=
  match base, l with
  | [], _ => true
  | b :: base, c :: l => String.eqb b c && is_prefix base l
  | _ :: _, [] => false
  end.

(** [base] is resolved. *)
Definition _safe_join (base : list string) (rel_path : string) : result pyexn (list string) :=
  let rel := if nonempty rel_path then rel_path else "main.py" in
  let candidate := resolve (base ++ split_on "/" (lstrip_slashes rel)) in
  if is_prefix base candidate then Ok candidate else Err ValueError.

Definition path_string (l : list string) : string := "/" +:+ String.concat "/" l.

(** ** The environment of the process *)
Definition safe_vars : list string := ["PATH"; "HOME"; "LANG"; "LC_ALL"; "TERM"].

Definition fixed_vars : list (string * string) := [
  ("NO_PROXY", "*"); ("no_proxy", "*"); ("HTTP_PROXY", ""); ("HTTPS_PROXY", ""); ("http_proxy", ""); ("https_proxy", "");
  ("PYTHONIOENCODING", "utf-8"); ("PYTHONDONTWRITEBYTECODE", "1")].

Definition _build_isolated_env (environ : list (string * string)) : list (string * string) :=
  foldl (λ d kv, dset kv.1 kv.2 d) (filter (λ kv, kv.1 ∈ safe_vars) environ) fixed_vars.

(** Soft and hard limit of each resource that is set. *)
Definition _set_resource_limits (cpu_sec : Q) (mem_mb : Z) : list (string * (Z * Z)) :=
  let mem_bytes := (mem_mb * 1024 * 1024)%Z in
  [("RLIMIT_CPU", (Qtrunc cpu_sec, Qtrunc cpu_sec + 5)%Z); ("RLIMIT_AS", (mem_bytes, mem_bytes)); ("RLIMIT_NPROC", (10, 10)%Z);
   ("RLIMIT_NOFILE", (64, 64)%Z); ("RLIMIT_FSIZE", (10 * 1024 * 1024, 10 * 1024 * 1024)%Z)].

(** ** Counting tests *)
Definition count_re (word : string) : re := seqs [Grp 1 (plus dgt); sps; lit word].

Definition count_of (word tail : string) : option Z :=
  match search (count_re word) tail with Some caps => Some (default 0%Z (digits_value (group 1 caps) 0)) | None => None end.

(** [s[-n:]] *)
Definition tail_of (n : nat) (s : string) : string := String.substring (String.length s - n) n s.

Definition _parse_pytest_counts (output : string) (returncode : Z) : Z * Z :=
  let tail := tail_of 2000 output in
  match count_of "passed" tail, count_of "failed" tail, count_of "error" tail with
  | None, None, None => if (returncode =? 0)%Z then (1, 0)%Z else (0, 1)%Z
  | p, f, e => (default 0 p, default 0 f + default 0 e)%Z
  end.

(** ** Data *)
Record SandboxConfig := mkConfig {
  enabled : bool; timeout : Q; max_memory_mb : Z; max_cpu_seconds : Q; max_cpus : string; network_isolation : bool; docker_image : string;
  static_check_enabled : bool; static_allow_imports : list string; lint_enabled : bool; run_enabled : bool; test_enabled : bool;
}.

Record CodeValidationResult := mkResult {
  file_path : string; v_language : string; ast_valid : bool; ast_errors : list string; static_passed : bool; static_issues : list string;
  lint_passed : bool; lint_errors : list string; run_passed : bool; run_output : string; run_errors : string;
}.

Record SandboxResult := mkSandbox { all_valid : bool; v_files : list CodeValidationResult; tests_passed : Z; tests_failed : Z; v_summary : string }.

Definition new_result (path language : string) : CodeValidationResult := mkResult path language true [] true [] true [] true "" "".

(** A file of the request: a dictionary. *)
Definition file := list (string * string).
Definition path_of (dflt : string) (f : file) : string := match dget "path" f with Some p => p | None => default dflt (dget "filename" f) end.
Definition language_of (f : file) : string := default "python" (dget "language" f).
Definition is_python (f : file) : bool := String.eqb (language_of f) "python".

Definition set_lint (errors : list string) (v : CodeValidationResult) : CodeValidationResult :=
  mkResult (file_path v) (v_language v) (ast_valid v) (ast_errors v) (static_passed v) (static_issues v) false errors (run_passed v) (run_output v) (run_errors v).
Definition set_run (ok : bool) (out err : string) (v : CodeValidationResult) : CodeValidationResult :=
  mkResult (file_path v) (v_language v) (ast_valid v) (ast_errors v) (static_passed v) (static_issues v) (lint_passed v) (lint_errors v) ok out err.
Definition set_check (ast_ok : bool) (errs : list string) (st_ok : bool) (issues : list string) (v : CodeValidationResult) : CodeValidationResult :=
  mkResult (file_path v) (v_language v) ast_ok errs st_ok issues (lint_passed v) (lint_errors v) (run_passed v) (run_output v) (run_errors v).

Definition with_files (r : SandboxResult) (l : list CodeValidationResult) : SandboxResult :=
  mkSandbox (all_valid r) l (tests_passed r) (tests_failed r) (v_summary r).

(** ** Processes *)
Inductive answer :=
| Exit (code : Z) (stdout stderr : string)
| TimedOut
| Failed (error : string).             (* any other exception, or a task of the thread pool that was never started *)

Inductive stage := Lint | Run | Test.

Definition name_of (p : list string) : string := default "" (last p).

(** [Path.suffix == ".py"] *)
Definition is_py (p : list string) : bool := ends_with ".py" (name_of p) && (3 <? String.length (name_of p))%nat.

Definition lines_or (dflt : list string) (text : string) : list string := if nonempty (strip text) then split_nl (strip text) else dflt.

Section environments.
Context (cfg : SandboxConfig) (show : Q → string) (python : string).
(** The resolved temporary directory, whether the writes succeed, and what processes answer. *)
Context (tmp : list string) (disk : bool) (exec : stage → nat → list string → list (string * string) → answer).
(** [os.environ], which a process inherits unless it is started with [env]. *)
Context (host : list (string * string)).

Definition join_file (f : file) : result pyexn (list string) := _safe_join tmp (path_of "main.py" f).

(** What is written; [None]: an exception. *)
Fixpoint _write_files (files : list file) : option (list (list string * string)) :=
  match files with
  | [] => Some []
  | f :: files =>
      match join_file f with
      | Ok p => if disk then (λ l, (p, default "" (dget "content" f)) :: l) <$> _write_files files else None
      | Err _ => None
      end
  end.

Definition prepared (files : list file) : bool := match _write_files files with Some _ => true | None => false end.

(** The result of each file, with the file it belongs to. *)
Definition on_files (g : nat → file → CodeValidationResult → CodeValidationResult) (files : list file) (r : SandboxResult) : SandboxResult :=
  with_files r (imap (λ i v, match files !! i with Some f => g i f v | None => v end) (v_files r)).

(** *** Subprocesses *)
Definition bwrap_cmd (bwrap : bool) (cmd : list string) : list string :=
  if negb bwrap then cmd
  else ["bwrap"; "--unshare-all"; "--ro-bind"; "/"; "/"; "--proc"; "/proc"; "--dev"; "/dev"; "--tmpfs"; "/tmp"; "--bind"; path_string tmp; "/sandbox";
        "--chdir"; "/sandbox"; "--"] ++ cmd.

(** The limits a process is started with; [unix] as in the code. *)
Definition resource_limits_preexec (unix : bool) : option (list (string * (Z * Z))) :=
  if unix then Some (_set_resource_limits (max_cpu_seconds cfg) (max_memory_mb cfg)) else None.
Definition limits (unix bwrap : bool) : option (list (string * (Z * Z))) := if bwrap then None else resource_limits_preexec unix.

Definition local_lint_one (i : nat) (f : file) (v : CodeValidationResult) : CodeValidationResult :=
  match join_file f with
  | Ok p =>
      if is_python f && is_py p then
        match exec Lint i [python; "-m"; "ruff"; "check"; "--select=E,F,W"; path_string p] (_build_isolated_env host) with
        | Exit c out err => if (c =? 0)%Z then v else set_lint (lines_or ["lint produced no output"] (out +:+ err)) v
        | _ => v
        end
      else v
  | Err _ => v
  end.

Definition local_lint (r : SandboxResult) (files : list file) : SandboxResult := if prepared files then on_files local_lint_one files r else r.

Definition local_run_one (bwrap : bool) (i : nat) (f : file) (v : CodeValidationResult) : CodeValidationResult :=
  if negb (is_python f) || negb (static_passed v) then v
  else
    match join_file f with
    | Ok p =>
        match exec Run i (bwrap_cmd bwrap [python; path_string p]) (_build_isolated_env host) with
        | Exit c out err =>
            if (c =? 0)%Z then set_run true (String.substring 0 500 (out +:+ err)) (run_errors v) v
            else set_run false (run_output v) (String.substring 0 1000 (out +:+ err)) v
        | TimedOut => set_run false (run_output v) ("Execution timed out after " +:+ show (max_cpu_seconds cfg) +:+ "s") v
        | Failed e => set_run false (run_output v) (String.substring 0 500 e) v
        end
    | Err _ => v
    end.

Definition local_run_code (bwrap : bool) (r : SandboxResult) (files : list file) : SandboxResult := if prepared files then on_files (local_run_one bwrap) files r else r.

Definition local_test_cmd (bwrap : bool) : list string := bwrap_cmd bwrap [python; "-m"; "pytest"; path_string tmp; "-x"; "--tb=short"; "--timeout=30"].

Definition has_tests (files : list file) : bool := existsb (λ f, within "test" (path_of "" f)) files.

(** [run_tests] of both environments, with their command and variables. *)
Definition run_tests (cmd : list string) (env : list (string * string)) (r : SandboxResult) (files : list file) : SandboxResult :=
  if has_tests files && prepared files then
    match exec Test 0 cmd env with
    | Exit c out err => let '(p, f) := _parse_pytest_counts (out +:+ err) c in mkSandbox (all_valid r) (v_files r) p f (v_summary r)
    | _ => r
    end
  else r.

(** *** Containers *)
Definition docker_run_flags : list string :=
  ["--rm"] ++ (if network_isolation cfg then ["--network=none"] else []) ++ ["--memory"; pretty (max_memory_mb cfg) +:+ "m"; "--cpus"; max_cpus cfg].

Definition docker_cmd (args : list string) : list string :=
  ["docker"; "run"] ++ docker_run_flags ++ ["-v"; path_string tmp +:+ ":/sandbox:ro"; "-w"; "/sandbox"; docker_image cfg] ++ args.

(** The loop over the files: an exception other than a time-out ends it. *)
Fixpoint docker_lint_from (i : nat) (files : list file) (vs : list CodeValidationResult) : list CodeValidationResult :=
  match files, vs with
  | f :: files, v :: vs =>
      match join_file f with
      | Err _ => v :: vs
      | Ok p =>
          if is_python f && is_py p then
            match exec Lint i (docker_cmd ["ruff"; "check"; "--no-cache"; "--select=E,F,W"; "/sandbox/" +:+ name_of p]) host with
            | Exit c out err => (if (c =? 0)%Z then v else set_lint (lines_or [strip err] (out +:+ err)) v) :: docker_lint_from (S i) files vs
            | TimedOut => set_lint ["Lint timed out"] v :: docker_lint_from (S i) files vs
            | Failed _ => v :: vs
            end
          else v :: docker_lint_from (S i) files vs
      end
  | _, vs => vs
  end.

Definition docker_lint (r : SandboxResult) (files : list file) : SandboxResult := if prepared files then with_files r (docker_lint_from 0 files (v_files r)) else r.

Definition docker_run_one (i : nat) (f : file) (v : CodeValidationResult) : CodeValidationResult :=
  if negb (is_python f) || negb (static_passed v) then v
  else
    match join_file f with
    | Ok p =>
        match exec Run i (docker_cmd ["python"; "/sandbox/" +:+ name_of p]) host with
        | Exit c out err =>
            if (c =? 0)%Z then set_run true (String.substring 0 500 (out +:+ err)) (run_errors v) v
            else set_run false (run_output v) (String.substring 0 1000 (out +:+ err)) v
        | TimedOut => set_run false (run_output v) ("Execution timed out after " +:+ show (max_cpu_seconds cfg) +:+ "s") v
        | Failed e => set_run false (run_output v) (String.substring 0 500 e) v
        end
    | Err _ => v
    end.

Definition docker_run_code (r : SandboxResult) (files : list file) : SandboxResult := if prepared files then on_files docker_run_one files r else r.

Definition docker_test_cmd : list string := docker_cmd ["python"; "-m"; "pytest"; "/sandbox"; "-x"; "--tb=short"; "--timeout=30"].

(** *** The engine *)
Record engine := mkEngine { _has_docker : option bool; _has_bwrap : option bool; _warned_local_fallback : bool }.

Definition engine_init : engine := mkEngine None None false.

(** [_ensure_capabilities]; [docker] and [bwrap]: what the probes would find. *)
Definition _ensure_capabilities (docker bwrap : bool) (e : engine) : engine :=
  match _has_docker e with Some _ => e | None => mkEngine (Some docker) (Some bwrap) (_warned_local_fallback e) end.

(** [_pick_env]: whether it is Docker; [image]: the image is there. *)
Definition _pick_env (image : bool) (e : engine) : engine * bool :=
  if default false (_has_docker e) && image then (e, true) else (mkEngine (_has_docker e) (_has_bwrap e) true, false).

(** The syntax check: a [SyntaxError] has a text, other exceptions are raised. *)
Inductive parsed := Parsed | Syntax (error : string) | Raises (e : string).
Context (parse : string → parsed) (analyze : string → list string → list string) (stdlib : list string).

Definition _allowed_imports : list string := stdlib ++ static_allow_imports cfg.

Definition validate_code_block (code language filename : string) (allowed : list string) : result string CodeValidationResult :=
  let v := new_result filename language in
  if negb (String.eqb language "python") then Ok v
  else
    match parse code with
    | Raises e => Err e
    | Syntax e => Ok (set_check false [e] true [] v)
    | Parsed =>
        let issues := if static_check_enabled cfg then analyze code allowed else [] in
        Ok (set_check true [] (match issues with [] => true | _ => false end) issues v)
    end.

Definition to_slash (s : string) : string := Symbolic.map_string (λ a, if Ascii.eqb a "\" then "/"%char else a) s.

(** [Path(name).stem] of one component. *)
Definition stem_of (n : string) : string :=
  if String.eqb n "." then ""
  else match CoreTypes.rfind "." n with Some i => if (0 <? i)%nat && (i <? String.length n - 1)%nat then String.substring 0 i n else n | None => n end.

Definition sibling_root (f : file) : string :=
  match split_on "/" (to_slash (path_of "main.py" f)) with p :: _ :: _ => p | [n] => stem_of n | [] => "" end.

Definition sibling_roots (files : list file) : list string := filter (λ r, nonempty r = true) (map sibling_root files).

Fixpoint validate_blocks (allowed : list string) (files : list file) : result string (list CodeValidationResult) :=
  match files with
  | [] => Ok []
  | f :: files =>
      match validate_code_block (default "" (dget "content" f)) (language_of f) (path_of "main.py" f) allowed with
      | Err e => Err e
      | Ok v => match validate_blocks allowed files with Ok vs => Ok (v :: vs) | Err e => Err e end
      end
  end.

Definition file_valid (v : CodeValidationResult) : bool := ast_valid v && static_passed v && lint_passed v && run_passed v.

Definition summary_of (r : SandboxResult) (tests : bool) : string :=
  pretty (length (filter (λ v, (ast_valid v && static_passed v) = true) (v_files r))) +:+ "/" +:+ pretty (length (v_files r)) +:+ " files valid"
  +:+ (if tests then ", tests: " +:+ pretty (tests_passed r) +:+ "/" +:+ pretty (tests_passed r + tests_failed r)%Z else "").

(** The stages after the syntax check. *)
Definition stages (in_docker bwrap tests : bool) (files : list file) (r : SandboxResult) : SandboxResult :=
  let r := if lint_enabled cfg then (if in_docker then docker_lint r files else local_lint r files) else r in
  let r := if run_enabled cfg then (if in_docker then docker_run_code r files else local_run_code bwrap r files) else r in
  if tests && test_enabled cfg then run_tests (if in_docker then docker_test_cmd else local_test_cmd bwrap) (if in_docker then host else _build_isolated_env host) r files
  else r.

Definition validate_files (docker bwrap image tests : bool) (files : list file) (e : engine) : engine * result string SandboxResult :=
  let e := _ensure_capabilities docker bwrap e in
  let bw := default false (_has_bwrap e) in
  match validate_blocks (_allowed_imports ++ sibling_roots files) files with
  | Err x => (e, Err x)
  | Ok vs =>
      let '(e, in_docker) := _pick_env image e in
      let r := stages in_docker bw tests files (mkSandbox false vs 0 0 "") in
      (e, Ok (mkSandbox (forallb file_valid (v_files r)) (v_files r) (tests_passed r) (tests_failed r) (summary_of r tests)))
  end.
End environments.

(** ** Paths stay inside *)
Definition plain (c : string) : Prop := c ≠ "" ∧ c ≠ "." ∧ c ≠ "..".

Lemma is_prefix_app base l : is_prefix base l = true ↔ ∃ rest, l = base ++ rest.
Proof.
  revert l. induction base as [|b base IH]; intros l; cbn [is_prefix]; [split; [by exists l|done]|]. destruct l as [|c l]; [split; [done|by intros [? ?]]|].
  rewrite andb_true_iff, String.eqb_eq, IH. split; [intros [-> [rest ->]]; by exists rest|]. intros [rest [= -> ->]]. split; [done|by exists rest].
Qed.

Lemma resolve_step_plain acc c : Forall plain acc → Forall plain (resolve_step acc c).
Proof.
  intros H. unfold resolve_step. destruct (String.eqb_spec c ""), (String.eqb_spec c "."); cbn [orb]; try done.
  destruct (String.eqb_spec c ".."); [by destruct H|]. by constructor.
Qed.

Lemma resolve_plain l : Forall plain (resolve l).
Proof.
  unfold resolve. apply Forall_rev. assert (Forall plain (@nil string)) as H by done. revert H. generalize (@nil string) as acc.
  induction l as [|c l IH]; intros acc H; [done|]. apply IH, resolve_step_plain, H.
Qed.

Lemma resolve_id acc l : Forall plain l → foldl resolve_step acc l = rev l ++ acc.
Proof.
  intros H. revert acc. induction H as [|c l (H1 & H2 & H3) _ IH]; intros acc; [done|]. cbn [foldl rev]. rewrite IH. unfold resolve_step.
  rewrite (proj2 (String.eqb_neq c "") H1), (proj2 (String.eqb_neq c ".") H2), (proj2 (String.eqb_neq c "..") H3). by rewrite <- app_assoc.
Qed.

(** A path that is accepted lies below the directory and has no way up in it; a path without
    a way up is accepted. *)
Lemma safe_join_inside base rel p : _safe_join base rel = Ok p → Forall plain p ∧ ∃ rest, p = base ++ rest.
Proof. unfold _safe_join. destruct (is_prefix base _) eqn:E; [|done]. intros [= <-]. split; [apply resolve_plain|by apply is_prefix_app]. Qed.

Lemma safe_join_accepts base rel : Forall plain base → nonempty rel = true → Forall plain (split_on "/" (lstrip_slashes rel)) →
  _safe_join base rel = Ok (base ++ split_on "/" (lstrip_slashes rel)).
Proof.
  intros Hb Hn Hr. unfold _safe_join. rewrite Hn. unfold resolve. rewrite (resolve_id [] (base ++ _)) by by apply Forall_app. rewrite app_nil_r, rev_involutive.
  by rewrite (proj2 (is_prefix_app base _)) by by eexists.
Qed.

Lemma written_inside tmp disk files l p c : _write_files tmp disk files = Some l → (p, c) ∈ l → Forall plain p ∧ ∃ rest, p = tmp ++ rest.
Proof.
  revert l. induction files as [|f files IH]; intros l; cbn [_write_files]; [intros [= <-]; by intros ?%not_elem_of_nil|].
  destruct (join_file tmp f) as [q|] eqn:E; [|done]. destruct disk; [|done]. destruct (_write_files tmp true files) as [l'|]; [|done].
  intros [= <-] [[= -> _]|H]%elem_of_cons; [by eapply safe_join_inside|by eapply IH].
Qed.

(** ** The environment has nothing of the host's but five variables *)
Lemma foldl_dset_mem (l d : list (string * string)) k v : dget k (foldl (λ d kv, dset kv.1 kv.2 d) d l) = Some v → (k, v) ∈ l ∨ dget k d = Some v.
Proof.
  revert d. induction l as [|[k' v'] l IH]; intros d; cbn [foldl fst snd]; [by right|]. intros [H|H]%IH; [left; by right|].
  rewrite dget_dset in H. case_decide; [|by right]. simplify_eq. left. by left.
Qed.

Lemma isolated_env_exact environ k v : dget k (_build_isolated_env environ) = Some v → (k, v) ∈ fixed_vars ∨ k ∈ safe_vars ∧ (k, v) ∈ environ.
Proof.
  unfold _build_isolated_env. intros [H|H]%foldl_dset_mem; [by left|]. right. apply dget_Some_mem in H. apply list_elem_of_filter in H. done.
Qed.

(** ** The verdict *)
Section verdict.
Context (cfg : SandboxConfig) (show : Q → string) (python : string) (tmp : list string) (disk : bool) (exec : stage → nat → list string → list (string * string) → answer).
Context (host : list (string * string)).
Context (parse : string → parsed) (analyze : string → list string → list string) (stdlib : list string).

(** What a later stage leaves of a result, and what it does to a verdict. *)
Definition keeps (v v' : CodeValidationResult) : Prop :=
  ast_valid v' = ast_valid v ∧ static_passed v' = static_passed v ∧ (lint_passed v' = true → lint_passed v = true).

Lemma keeps_refl v : keeps v v.
Proof. done. Qed.

Lemma keeps_trans v1 v2 v3 : keeps v1 v2 → keeps v2 v3 → keeps v1 v3.
Proof. intros (H1 & H2 & H3) (H4 & H5 & H6). split_and!; [congruence|congruence|auto]. Qed.

Lemma on_files_lookup g files r i : v_files (on_files g files r) !! i = (λ v, match files !! i with Some f => g i f v | None => v end) <$> v_files r !! i.
Proof. unfold on_files. cbn [v_files with_files]. by rewrite list_lookup_imap. Qed.

Lemma local_lint_keeps i f v : keeps v (local_lint_one python tmp exec host i f v) ∧ run_passed (local_lint_one python tmp exec host i f v) = run_passed v.
Proof.
  unfold local_lint_one. destruct (join_file tmp f); [|done]. destruct (_ && _); [|done]. destruct (exec _ _ _ _) as [c o e| |]; [|done|done].
  by destruct (c =? 0)%Z.
Qed.

Lemma docker_lint_keeps k files vs i v' : docker_lint_from cfg tmp exec host k files vs !! i = Some v' →
  ∃ v, vs !! i = Some v ∧ keeps v v' ∧ run_passed v' = run_passed v.
Proof.
  revert k vs i v'. induction files as [|f files IH]; intros k vs i v'; cbn [docker_lint_from]; [intros E; by exists v'|].
  destruct vs as [|v vs]; [done|].
  assert (∀ w l, (∀ j v', l !! j = Some v' → ∃ v, vs !! j = Some v ∧ keeps v v' ∧ run_passed v' = run_passed v) → keeps v w → run_passed w = run_passed v →
    (w :: l) !! i = Some v' → ∃ v0, (v :: vs) !! i = Some v0 ∧ keeps v0 v' ∧ run_passed v' = run_passed v0) as Hcons.
  { intros w l Hl Hk Hr. destruct i as [|i]; cbn; [intros [= <-]; by exists v|apply Hl]. }
  assert (∀ j v', vs !! j = Some v' → ∃ v, vs !! j = Some v ∧ keeps v v' ∧ run_passed v' = run_passed v) as Hsame by (intros j w Hw; by exists w).
  destruct (join_file tmp f) as [p|]; [|by apply Hcons]. destruct (_ && _); [|by apply Hcons; [intros j w; apply IH|..]].
  destruct (exec _ _ _ _) as [c o e| |]; [|by apply Hcons; [intros j w; apply IH|..]|by apply Hcons].
  destruct (c =? 0)%Z; by apply Hcons; [intros j w; apply IH|..].
Qed.

(** The command a file is run with. *)
Definition run_command (in_docker bwrap : bool) (p : list string) : list string :=
  if in_docker then docker_cmd cfg tmp ["python"; "/sandbox/" +:+ name_of p] else bwrap_cmd tmp bwrap [python; path_string p].

(** The variables of the process that is started: the container's client gets those of the
    host. *)
Definition process_env (in_docker : bool) : list (string * string) := if in_docker then host else _build_isolated_env host.

Definition run_one (in_docker bwrap : bool) : nat → file → CodeValidationResult → CodeValidationResult :=
  if in_docker then docker_run_one cfg show tmp exec host else local_run_one cfg show python tmp exec host bwrap.

Lemma run_one_spec in_docker bwrap i f v p : join_file tmp f = Ok p →
  let v' := run_one in_docker bwrap i f v in
  keeps v v' ∧ lint_passed v' = lint_passed v
  ∧ (is_python f = true → static_passed v = true → run_passed v' = true → ∃ out err, exec Run i (run_command in_docker bwrap p) (process_env in_docker) = Exit 0 out err)
  ∧ (is_python f = true → static_passed v = true → (∃ out err, exec Run i (run_command in_docker bwrap p) (process_env in_docker) = Exit 0 out err) → run_passed v' = true)
  ∧ (is_python f = false → v' = v).
Proof.
  intros Ej. unfold run_one, run_command, process_env.
  destruct in_docker; unfold docker_run_one, local_run_one; rewrite Ej; (destruct (is_python f); cbn [negb orb]; [|by split_and!]);
    (destruct (static_passed v) eqn:Es; cbn [negb]; [|by split_and!]);
    (destruct (exec Run i _ _) as [c o e| |]; [destruct (c =? 0)%Z eqn:Ec|..]; split_and!; try done; try (intros _ _ (? & ? & [=])); try (split_and!; done)).
  all: try (intros _ _ _; apply Z.eqb_eq in Ec as ->; eauto).
  all: subst c; done.
Qed.

Definition lint_stage (in_docker : bool) (files : list file) (r : SandboxResult) : SandboxResult :=
  if lint_enabled cfg then (if in_docker then docker_lint cfg tmp disk exec host r files else local_lint python tmp disk exec host r files) else r.

Lemma lint_stage_spec in_docker files r i v' : v_files (lint_stage in_docker files r) !! i = Some v' →
  ∃ v, v_files r !! i = Some v ∧ keeps v v' ∧ run_passed v' = run_passed v ∧ (lint_enabled cfg = false → v' = v).
Proof.
  unfold lint_stage, docker_lint, local_lint. destruct (lint_enabled cfg); [|intros E; by exists v'].
  destruct in_docker, (prepared tmp disk files); try (intros E; by exists v').
  - cbn [v_files with_files]. intros (v & H1 & H2 & H3)%docker_lint_keeps. by exists v.
  - rewrite on_files_lookup. intros (v & E & Hv)%fmap_Some. exists v. subst v'. destruct (files !! i) as [f|]; [|by split_and!].
    destruct (local_lint_keeps i f v). by split_and!.
Qed.

Lemma docker_lint_length k files vs : length (docker_lint_from cfg tmp exec host k files vs) = length vs.
Proof.
  revert k vs. induction files as [|f files IH]; intros k vs; [done|]. destruct vs as [|v vs]; [done|]. cbn [docker_lint_from].
  destruct (join_file tmp f) as [p|]; [|done]. destruct (_ && _); [|cbn; by rewrite IH]. destruct (exec _ _ _ _) as [c o e| |]; cbn [List.length]; by rewrite ?IH.
Qed.

Lemma lint_stage_length in_docker files r : length (v_files (lint_stage in_docker files r)) = length (v_files r).
Proof.
  unfold lint_stage, docker_lint, local_lint. destruct (lint_enabled cfg), in_docker, (prepared tmp disk files); try done; cbn [v_files with_files on_files];
    [apply docker_lint_length|apply length_imap].
Qed.

Definition run_stage (in_docker bwrap : bool) (files : list file) (r : SandboxResult) : SandboxResult :=
  if run_enabled cfg && prepared tmp disk files then on_files (run_one in_docker bwrap) files r else r.

Lemma run_stage_length in_docker bwrap files r : length (v_files (run_stage in_docker bwrap files r)) = length (v_files r).
Proof. unfold run_stage. destruct (run_enabled cfg && prepared tmp disk files); [apply length_imap|done]. Qed.

(** The stages, with the tests, which leave the files alone. *)
Lemma stages_files in_docker bwrap tests files r :
  v_files (stages cfg show python tmp disk exec host in_docker bwrap tests files r) = v_files (run_stage in_docker bwrap files (lint_stage in_docker files r)).
Proof.
  unfold stages, run_stage, docker_run_code, local_run_code, run_one, lint_stage, run_tests.
  destruct (run_enabled cfg), in_docker, (prepared tmp disk files), (tests && test_enabled cfg); cbn [andb]; try done;
    rewrite ?andb_true_r, ?andb_false_r; try done; destruct (has_tests files); try done; destruct (exec Test 0 _ _) as [c o e| |]; try done;
    by destruct (_parse_pytest_counts _ _).
Qed.

Lemma prepared_join files i f : prepared tmp disk files = true → files !! i = Some f → ∃ p, join_file tmp f = Ok p.
Proof.
  unfold prepared. revert i. induction files as [|g files IH]; intros i; [done|]. cbn [_write_files]. destruct (join_file tmp g) as [p|] eqn:E; [|done].
  destruct disk; [|done]. destruct (_write_files tmp true files) as [l|] eqn:El; [|done]. intros _. destruct i as [|i]; [intros [= <-]; by exists p|]. cbn. intros Hi. by apply (IH i).
Qed.

Definition code_of (f : file) : string := default "" (dget "content" f).

Definition checked (allowed : list string) (f : file) : Prop := parse (code_of f) = Parsed ∧ (static_check_enabled cfg = true → analyze (code_of f) allowed = []).

Lemma validate_blocks_spec allowed files vs : validate_blocks cfg parse analyze allowed files = Ok vs →
  length vs = length files ∧ ∀ i f v, files !! i = Some f → vs !! i = Some v →
    lint_passed v = true ∧ run_passed v = true
    ∧ (is_python f = true → ast_valid v && static_passed v = true ↔ checked allowed f) ∧ (is_python f = false → ast_valid v = true ∧ static_passed v = true).
Proof.
  revert vs. induction files as [|f files IH]; intros vs; cbn [validate_blocks]; [by intros [= <-]|].
  destruct (validate_code_block _ _ _ _ _ _ _) as [v|] eqn:Ev; [|done]. destruct (validate_blocks cfg parse analyze allowed files) as [vs'|]; [|done].
  intros [= <-]. destruct (IH vs' eq_refl) as [Hl H]. split; [cbn; by rewrite Hl|]. intros [|i] g w; cbn; [|apply H]. intros [= <-] [= <-].
  unfold validate_code_block in Ev. unfold checked, code_of, is_python. destruct (String.eqb (language_of f) "python"); cbn [negb] in Ev; [|by injection Ev as <-].
  destruct (parse _) as [|err|ex]; [|injection Ev as <-; split_and!; try done; by intros _; split; [|intros []]|done].
  injection Ev as <-. cbn [lint_passed run_passed set_check new_result ast_valid static_passed andb]. split_and!; [done|done| |done]. intros _.
  destruct (static_check_enabled cfg); [|done]. destruct (analyze _ _) as [|x l]; [done|]. split; [done|]. intros [_ Hx]. by specialize (Hx eq_refl).
Qed.

(** Everything the sandbox means to have seen of the files: [in_docker] and [bwrap] say where
    they were run. *)
Definition ran (in_docker bwrap : bool) (i : nat) (f : file) : Prop :=
  ∃ p out err, join_file tmp f = Ok p ∧ exec Run i (run_command in_docker bwrap p) (process_env in_docker) = Exit 0 out err.

Definition good (in_docker bwrap : bool) (allowed : list string) (files : list file) : Prop :=
  ∀ i f, files !! i = Some f → is_python f = true → checked allowed f ∧ (run_enabled cfg = true → prepared tmp disk files = true → ran in_docker bwrap i f).

(** The verdict over the stages. *)
Lemma verdict_good ind bw allowed files vs : length vs = length files →
  (∀ i f v, files !! i = Some f → vs !! i = Some v →
    lint_passed v = true ∧ run_passed v = true
    ∧ (is_python f = true → ast_valid v && static_passed v = true ↔ checked allowed f) ∧ (is_python f = false → ast_valid v = true ∧ static_passed v = true)) →
  let l := v_files (run_stage ind bw files (lint_stage ind files (mkSandbox false vs 0 0 ""))) in
  (forallb file_valid l = true → good ind bw allowed files) ∧ (lint_enabled cfg = false → good ind bw allowed files → forallb file_valid l = true).
Proof.
  intros Hlen Hvs l. set (r0 := mkSandbox false vs 0 0 "") in l. assert (length l = length files) as Hll.
  { subst l. by rewrite run_stage_length, lint_stage_length. }
  (* one file through the stages *)
  assert (∀ i f w, files !! i = Some f → l !! i = Some w → ∃ v v1, vs !! i = Some v ∧ keeps v v1 ∧ run_passed v1 = run_passed v ∧ (lint_enabled cfg = false → v1 = v)
    ∧ w = (if run_enabled cfg && prepared tmp disk files then run_one ind bw i f v1 else v1)) as Hone.
  { intros i f w Hf Hw. subst l. unfold run_stage in Hw. destruct (run_enabled cfg && prepared tmp disk files).
    - rewrite on_files_lookup in Hw. apply fmap_Some in Hw as (v1 & Hw & ->). rewrite Hf. apply lint_stage_spec in Hw as (v & H1 & H2 & H3 & H4). by exists v, v1.
    - apply lint_stage_spec in Hw as (v & H1 & H2 & H3 & H4). by exists v, w. }
  split.
  - intros Hall i f Hf Hpy. rewrite forallb_forall in Hall. destruct (lookup_lt_is_Some_2 l i) as [w Hw]; [rewrite Hll; by eapply lookup_lt_Some|].
    specialize (Hall w (proj1 (list_elem_of_In _ _) (list_elem_of_lookup_2 _ _ _ Hw))). unfold file_valid in Hall. apply andb_true_iff in Hall as [Hall Hrun].
    apply andb_true_iff in Hall as [Hast _]. destruct (Hone i f w Hf Hw) as (v & v1 & E & (K1 & K2 & _) & _ & _ & Ew). destruct (Hvs i f v Hf E) as (_ & _ & Hch & _).
    destruct (run_enabled cfg && prepared tmp disk files) eqn:Erp.
    + apply andb_true_iff in Erp as [Er Ep]. destruct (prepared_join files i f Ep Hf) as [p Hj]. destruct (run_one_spec ind bw i f v1 p Hj) as ((S1 & S2 & _) & _ & S3 & _).
      rewrite <- Ew in S1, S2, S3. split; [apply Hch; [done|]; congruence|]. intros _ _. apply andb_true_iff in Hast as [_ Hst].
      destruct (S3 Hpy) as (out & err & Hx); [congruence|done|]. by exists p, out, err.
    + subst w. split; [apply Hch; [done|]; congruence|]. intros Er Ep. by rewrite Er, Ep in Erp.
  - intros Hnl Hg. apply forallb_forall. intros w Hin. apply list_elem_of_In, list_elem_of_lookup in Hin as [i Hw].
    destruct (lookup_lt_is_Some_2 files i) as [f Hf]; [rewrite <- Hll; by eapply lookup_lt_Some|].
    destruct (Hone i f w Hf Hw) as (v & v1 & E & _ & _ & Hv1 & Ew). specialize (Hv1 Hnl). subst v1. destruct (Hvs i f v Hf E) as (Hl & Hr & Hch & Hnp).
    assert (file_valid v = true) as Hv.
    { unfold file_valid. rewrite Hl, Hr, !andb_true_r. destruct (is_python f) eqn:Epy; [apply Hch; [done|]; by apply (Hg i f Hf)|].
      destruct Hnp as [-> ->]; done. }
    destruct (run_enabled cfg && prepared tmp disk files) eqn:Erp; [|by subst w]. apply andb_true_iff in Erp as [Er Ep].
    destruct (prepared_join files i f Ep Hf) as [p Hj]. destruct (run_one_spec ind bw i f v p Hj) as ((S1 & S2 & _) & S4 & _ & S5 & S6). rewrite <- Ew in *.
    destruct (is_python f) eqn:Epy; [|by rewrite S6]. unfold file_valid in Hv |- *. rewrite S1, S2, S4. apply andb_true_iff in Hv as [Hv _]. rewrite Hv. cbn [andb].
    apply S5; [done|by apply andb_true_iff in Hv as [[_ ?]%andb_true_iff _]|]. destruct (Hg i f Hf Epy) as [_ Hran].
    destruct (Hran Er Ep) as (p' & out & err & Hj' & Hx). rewrite Hj in Hj'. injection Hj' as <-. eauto.
Qed.

(** C37: What the sandbox's verdict says, and what it does not.  There is a result for every
    file.  A valid verdict means that every Python file parses, passes the static check if
    that is on and, if running is on and all files could be written, the process started for
    it ended with exit code 0; without linting this is also what makes the verdict valid.
    Outside Docker that process is the interpreter on the path of the file (under bubblewrap
    if there is one), and of the host's variables it sees five beside the fixed ones; in
    Docker it is a container that runs the last name of the file in [/sandbox], which may be
    another file ([container_runs_another_file]).  Whatever is written lies below the
    temporary directory. *)
Theorem sandbox_verdict docker bwrap image tests files e e' r :
  validate_files cfg show python tmp disk exec host parse analyze stdlib docker bwrap image tests files e = (e', Ok r) →
  let probed := _ensure_capabilities docker bwrap e in
  let seen := good (default false (_has_docker probed) && image) (default false (_has_bwrap probed)) (_allowed_imports cfg stdlib ++ sibling_roots files) files in
  length (v_files r) = length files
  ∧ (all_valid r = true → seen) ∧ (lint_enabled cfg = false → seen → all_valid r = true)
  ∧ (∀ l p c, _write_files tmp disk files = Some l → (p, c) ∈ l → Forall plain p ∧ ∃ rest, p = tmp ++ rest)
  ∧ (∀ k v, dget k (process_env false) = Some v → (k, v) ∈ fixed_vars ∨ k ∈ safe_vars ∧ (k, v) ∈ host).
Proof.
  unfold validate_files. set (allowed := _ ++ _). destruct (validate_blocks cfg parse analyze allowed files) as [vs|] eqn:Ev; [|done].
  apply validate_blocks_spec in Ev as [Hlen Hvs]. set (probed := _ensure_capabilities docker bwrap e). unfold _pick_env.
  set (ind := default false (_has_docker probed) && image). set (bw := default false (_has_bwrap probed)).
  set (r0 := mkSandbox false vs 0 0 ""). intros H.
  assert (all_valid r = forallb file_valid (v_files r) ∧ v_files r = v_files (run_stage ind bw files (lint_stage ind files r0))) as [-> Hfiles].
  { rewrite <- (stages_files ind bw tests files r0). destruct ind; injection H as _ <-; done. }
  rewrite Hfiles. cbv zeta. destruct (verdict_good ind bw allowed files vs Hlen Hvs) as [G1 G2].
  split_and!; [|exact G1|exact G2|by intros; eapply written_inside|by intros; by apply isolated_env_exact].
  by rewrite run_stage_length, lint_stage_length.
Qed.
End verdict.

(** ** Runs *)
Definition demo_config : SandboxConfig := mkConfig true 60 256 10 "0.5" true "noema-sandbox:3.12" true [] true true true.
Definition no_lint : SandboxConfig := mkConfig true 60 256 10 "0.5" true "noema-sandbox:3.12" true [] false true true.
Definition ok_exec (_ : stage) (_ : nat) (_ : list string) (_ : list (string * string)) : answer := Exit 0 "" "".
Definition demo_validate (cfg : SandboxConfig) (exec : stage → nat → list string → list (string * string) → answer) (docker tests : bool) (files : list file) : result string SandboxResult :=
  (validate_files cfg (λ _, "10.0") "python3" ["tmp"; "x1"] true exec [("API_KEY", "secret")] (λ _, Parsed) (λ _ _, []) [] docker false docker tests files engine_init).2.
Definition a_file (path text : string) : file := [("path", path); ("content", text)].

Lemma sandbox_verdict_witness : ∃ r, demo_validate no_lint ok_exec false false [a_file "pkg/main.py" "pass"] = Ok r ∧ all_valid r = true ∧ length (v_files r) = 1.
Proof.
  destruct (validate_files no_lint (λ _, "10.0") "python3" ["tmp"; "x1"] true ok_exec [("API_KEY", "secret")] (λ _, Parsed) (λ _ _, []) [] false false false false
    [a_file "pkg/main.py" "pass"] engine_init) as [e' o] eqn:E. assert (is_ok o = true) as Ho by (vm_compute in E; by injection E as _ <-).
  destruct o as [r|]; [|discriminate Ho]. pose proof (sandbox_verdict no_lint (λ _, "10.0") "python3" ["tmp"; "x1"] true ok_exec [("API_KEY", "secret")] (λ _, Parsed) (λ _ _, []) []
    false false false false [a_file "pkg/main.py" "pass"] engine_init e' r E) as (Hlen & _ & Hgood & _).
  exists r. split; [unfold demo_validate; by rewrite E|]. split; [|exact Hlen]. apply Hgood; [reflexivity|].
  intros i f Hf _. split; [done|]. intros _ _. destruct i as [|i]; [|done]. injection Hf as <-. by eexists ["tmp"; "x1"; "pkg"; "main.py"], "", "".
Defined.

(** One path that leads out of the directory: nothing is written, linted or run, and the
    verdict is that all files are valid, although every process would have failed. *)
Definition bad_exec (_ : stage) (_ : nat) (_ : list string) (_ : list (string * string)) : answer := Exit 1 "1 failed" "Traceback".

Example unsafe_path_is_valid :
  all_valid <$> match demo_validate demo_config bad_exec false false [a_file "main.py" "boom()"; a_file "../x.py" "pass"] with Ok r => Some r | Err _ => None end = Some true
  ∧ all_valid <$> match demo_validate demo_config bad_exec false false [a_file "main.py" "boom()"] with Ok r => Some r | Err _ => None end = Some false.
Proof. vm_compute. done. Qed.

(** Failing tests do not change the verdict. *)
Definition tests_fail (s : stage) (_ : nat) (_ : list string) (_ : list (string * string)) : answer := match s with Test => Exit 1 "2 failed" "" | _ => Exit 0 "" "" end.

Example failing_tests_are_valid : ∃ r, demo_validate demo_config tests_fail false true [a_file "tests/test_a.py" "assert False"] = Ok r ∧ all_valid r = true ∧ tests_failed r = 2%Z.
Proof. eexists. split; [vm_compute; reflexivity|]. done. Qed.

(** A linter that does not end in time has found nothing. *)
Definition lint_hangs (s : stage) (_ : nat) (_ : list string) (_ : list (string * string)) : answer := match s with Lint => TimedOut | _ => Exit 0 "" "" end.

Example hanging_lint_passes : ∃ r, demo_validate demo_config lint_hangs false false [a_file "main.py" "pass"] = Ok r ∧ all_valid r = true.
Proof. eexists. split; [vm_compute; reflexivity|]. done. Qed.

(** In the container a file is run by its last name: the verdict on one file is that of
    another. *)
Definition only_top (s : stage) (_ : nat) (cmd : list string) (_ : list (string * string)) : answer :=
  match s with Run => if String.eqb (default "" (last cmd)) "/sandbox/main.py" then Exit 0 "" "" else Exit 1 "" "broken" | _ => Exit 0 "" "" end.

Example container_runs_another_file : ∃ r, demo_validate demo_config only_top true false [a_file "main.py" "pass"; a_file "broken/main.py" "boom()"] = Ok r ∧ all_valid r = true.
Proof. eexists. split; [vm_compute; reflexivity|]. done. Qed.

(** With bubblewrap the script is named by its path below [/tmp], which is an empty file
    system for the process, and no limits are set. *)
Example bubblewrap_hides_the_file :
  bwrap_cmd ["tmp"; "x1"] true ["python3"; path_string ["tmp"; "x1"; "main.py"]]
  = ["bwrap"; "--unshare-all"; "--ro-bind"; "/"; "/"; "--proc"; "/proc"; "--dev"; "/dev"; "--tmpfs"; "/tmp"; "--bind"; "/tmp/x1"; "/sandbox"; "--chdir"; "/sandbox";
     "--"; "python3"; "/tmp/x1/main.py"]
  ∧ limits demo_config true true = None.
Proof. done. Qed.

(** Numbers are taken from the first place that looks like a summary. *)
Example printed_counts_are_believed : _parse_pytest_counts "9 passed, said the program. 1 passed, 3 failed" 1 = (9, 3)%Z ∧ _parse_pytest_counts "" 0 = (1, 0)%Z.
Proof. vm_compute. done. Qed.

(** ** The container of plugins ([noema/sandbox/docker.py]) *)
Module PluginSandbox.
Record config := mkPluginConfig {
  image : string; p_timeout : string; max_memory : string; p_cpus : string; network_disabled : bool; read_only_root : bool; tmpfs_size : string;
  allowed_paths : list (list string);
}.

(** [output] and [error] of the answer; [exit_code] is -1 if there was none. *)
Record plugin_result := mkPluginResult { success : bool; output : string; error : string; exit_code : Z; timed_out : bool }.

(** [resolved == base or base in resolved.parents] *)
Definition below (base p : list string) : bool := is_prefix base p.

(** [_validate_volumes]; host paths come with what they resolve to. *)
Definition volume_ok (cfg : config) (allowed_host : option (list string)) (resolved : list string) : bool :=
  match allowed_host with Some h => below h resolved | None => false end || existsb (λ b, below b resolved) (allowed_paths cfg).

Definition _validate_volumes (cfg : config) (volumes : list (string * list string * string)) (allowed_host : option (list string)) : result pyexn unit :=
  match volumes with
  | [] => Ok tt
  | _ =>
      match allowed_host, allowed_paths cfg with
      | None, [] => Err ValueError
      | _, _ => if forallb (λ v, volume_ok cfg allowed_host v.1.2) volumes then Ok tt else Err ValueError
      end
  end.

Definition mount (host container : string) : string :=
  let m := "-v=" +:+ host +:+ ":" +:+ container in if ends_with ":ro" m then m else m +:+ ":ro".

Definition command (cfg : config) (plugin_dir : string) (volumes : list (string * list string * string)) : list string :=
  filter (λ c, nonempty c = true)
    (["docker"; "run"; "--rm"; if read_only_root cfg then "--read-only" else ""; "--memory=" +:+ max_memory cfg; "--cpus=" +:+ p_cpus cfg;
      "--network=" +:+ (if network_disabled cfg then "none" else ""); "--tmpfs=/tmp:size=" +:+ tmpfs_size cfg; "--cap-drop=ALL"; "--cap-add=SYS_NICE";
      "--security-opt=no-new-privileges"; "-v=" +:+ plugin_dir +:+ ":/workspace:ro"]
     ++ map (λ v, mount v.1.1 v.2) volumes ++ [image cfg; "python"; "/workspace/runner.py"]).

(** What the container does: the output file, if there is one, as [json.loads] reads it
    ([Some None]: not JSON), or that docker is missing. *)
Inductive container := Ended (code : Z) (stdout stderr : string) (out : option (option (bool * string * string))) | Hung | Missing | Broken (e : string).

Definition _run_container (cfg : config) (run : list string → container) (plugin_dir : string) (volumes : list (string * list string * string))
    (allowed_host : option (list string)) : result pyexn plugin_result :=
  _ ← _validate_volumes cfg volumes allowed_host;
  Ok (match run (command cfg plugin_dir volumes) with
      | Hung => mkPluginResult false "" ("Execution timed out after " +:+ p_timeout cfg +:+ "s") (-1) true
      | Missing => mkPluginResult false "" "Docker not installed or not in PATH" (-1) false
      | Broken e => mkPluginResult false "" e (-1) false
      | Ended code stdout stderr (Some (Some (ok, out, err))) => mkPluginResult ok out err code false
      | Ended code stdout stderr _ => mkPluginResult (code =? 0)%Z stdout stderr code false
      end).

Definition runner (entry_point : string) : string :=
  "#!/usr/bin/env python3
import json
import sys
import traceback
from plugin import " +:+ entry_point +:+ quoted "

input_data = None
try:
    with open(`/workspace/input.json`, `r`) as f:
        input_data = json.load(f)
except (FileNotFoundError, json.JSONDecodeError):
    pass

try:
    if input_data:
        result = " +:+ entry_point +:+ "(**input_data) if isinstance(input_data, dict) else " +:+ entry_point +:+ "(input_data)
    else:
        result = " +:+ entry_point +:+ quoted "()

    output = {`success`: True, `output`: str(result) if result is not None else ``}
except Exception as e:
    output = {`success`: False, `error`: f`{type(e).__name__}: {e}`, `traceback`: traceback.format_exc()}

with open(`/workspace/output.json`, `w`) as f:
    json.dump(output, f)
".

(** [_write_plugin]: the files of the directory, in their order; [input] is the text of
    [json.dumps] and [identifier] Python's test. *)
Definition _write_plugin (identifier : string → bool) (code entry_point input : string) : list (string * string) * result pyexn unit :=
  if identifier entry_point
  then ([("plugin.py", code); ("runner.py", runner entry_point); ("input.json", input)], Ok tt)
  else ([("plugin.py", code)], Err ValueError).

Lemma ends_with_append p suffix : ends_with suffix (p +:+ suffix) = true.
Proof.
  induction p as [|a p IH]; [change ("" +:+ suffix) with suffix; destruct suffix; cbn [ends_with]; by rewrite String.eqb_refl|].
  change (String a p +:+ suffix) with (String a (p +:+ suffix)). cbn [ends_with]. by rewrite IH, orb_true_r.
Qed.

(** A container runs only with volumes below what is allowed, and each of them, as well as
    the plugin's own directory, is mounted read-only, without network and capabilities. *)
Lemma container_confined cfg run dir volumes host r : _run_container cfg run dir volumes host = Ok r →
  (∀ v, v ∈ volumes → ∃ b, (host = Some b ∨ b ∈ allowed_paths cfg) ∧ ∃ rest, v.1.2 = b ++ rest)
  ∧ "--cap-drop=ALL" ∈ command cfg dir volumes ∧ (network_disabled cfg = true → "--network=none" ∈ command cfg dir volumes)
  ∧ (∀ v, v ∈ volumes → mount v.1.1 v.2 ∈ command cfg dir volumes ∧ ends_with ":ro" (mount v.1.1 v.2) = true).
Proof.
  unfold _run_container. intros H. apply result_bind_ok in H as ([] & H & _). split_and!.
  - intros v Hv. unfold _validate_volumes in H. destruct volumes as [|v0 vs]; [by apply not_elem_of_nil in Hv|].
    assert (forallb (λ v, volume_ok cfg host v.1.2) (v0 :: vs) = true) as Hall.
    { destruct host, (allowed_paths cfg); try done; by destruct (forallb _ _). }
    rewrite forallb_forall in Hall. specialize (Hall v (proj1 (list_elem_of_In _ _) Hv)). apply orb_true_iff in Hall as [Hh|Hp].
    + destruct host as [b|]; [|done]. exists b. split; [by left|by apply is_prefix_app].
    + apply existsb_exists in Hp as (b & Hb & Hp). exists b. split; [right; by apply list_elem_of_In|by apply is_prefix_app].
  - apply list_elem_of_filter. split; [done|]. apply elem_of_app. left. do 8 right. by left.
  - intros Hn. apply list_elem_of_filter. split; [done|]. apply elem_of_app. left. rewrite Hn. do 6 right. by left.
  - intros v Hv. assert (ends_with ":ro" (mount v.1.1 v.2) = true) as Hro.
    { unfold mount. destruct (ends_with ":ro" ("-v=" +:+ v.1.1 +:+ ":" +:+ v.2)) eqn:E; [done|]. apply ends_with_append. }
    split; [|done]. apply list_elem_of_filter. split.
    + destruct (mount v.1.1 v.2); done.
    + apply elem_of_app. right. apply elem_of_app. left. apply list_elem_of_In, in_map_iff. exists v. split; [done|]. by apply list_elem_of_In.
Qed.
End PluginSandbox.
