(* ===== verification/Otlp.v ===== *)
(** * The OTLP exporter ([noema/observability/otlp.py])

    What becomes of a span of the tracer ([Tracer]) on its way to the collector: its OTLP
    form, and the queue between the threads that emit spans and the worker thread that posts
    them in batches.  The threads are a state machine: an emission is an append and, if the
    queue is too long, a number of removals decided by the length it read; workers and
    [flush] take batches (each batch in one step); the end of a worker copies the queue and
    clears it.  [stop] gives up on its thread when the join times out, so that a later [start]
    adds a second worker beside the first.  Times and the answers of the collector are
    parameters. *)
From Stdlib Require Import ZArith QArith Qround Lia Bool Ascii String.
From stdpp Require Import base option numbers sets strings list pretty.
From S2P Require Import Prelude Regex Security Tracer.
Local Open Scope string_scope.
Local Open Scope list_scope.
Local Open Scope nat_scope.

(** ** Identifiers *)
Definition hex_value (a : ascii) : option nat :=
  if is_digit a then Some (code a - 48) else if between 97 102 a then Some (code a - 87) else None.

(** [binascii.unhexlify] *)
Fixpoint unhexlify (s : string) : option (list nat) :=
  match s with
  | EmptyString => Some []
  | String a (String b s) =>
      match hex_value a, hex_value b, unhexlify s with Some x, Some y, Some l => Some (16 * x + y :: l) | _, _, _ => None end
  | String _ EmptyString => None
  end.

Definition b64_char (n : nat) : ascii :=
  ascii_of_nat (if (n <? 26)%nat then 65 + n else if (n <? 52)%nat then 71 + n else if (n <? 62)%nat then n - 4 else if (n =? 62)%nat then 43 else 47).

(** [base64.b64encode] *)
Fixpoint b64encode (l : list nat) : string :=
  match l with
  | [] => ""
  | [a] => String (b64_char (a / 4)) (String (b64_char (a mod 4 * 16)) "==")
  | [a; b] => String (b64_char (a / 4)) (String (b64_char (a mod 4 * 16 + b / 16)) (String (b64_char (b mod 16 * 4)) "="))
  | a :: b :: c :: l =>
      String (b64_char (a / 4)) (String (b64_char (a mod 4 * 16 + b / 16)) (String (b64_char (b mod 16 * 4 + c / 64)) (String (b64_char (c mod 64)) (b64encode l))))
  end.

Fixpoint zeros (n : nat) : string := match n with O => "" | S n => String "0" (zeros n) end.
Definition rjust (width : nat) (s : string) : string := zeros (width - String.length s) +:+ s.

Definition _base64_id (hex_id : string) (byte_len : nat) : string :=
  match (if nonempty hex_id then unhexlify (rjust (byte_len * 2) (lower hex_id)) else None) with
  | Some raw => b64encode raw
  | None => b64encode (replicate byte_len 0)
  end.

(** ** Spans *)
Definition SPAN_KIND_INTERNAL : Z := 2.
Definition SPAN_KIND_SERVER : Z := 1.
Definition SPAN_KIND_CLIENT : Z := 3.
Definition STATUS_OK : Z := 1.
Definition STATUS_ERROR : Z := 2.

Definition KIND_TO_OTLP : list (string * Z) := [
  ("internal", SPAN_KIND_INTERNAL); ("llm", SPAN_KIND_CLIENT); ("tool", SPAN_KIND_CLIENT); ("server", SPAN_KIND_SERVER); ("client", SPAN_KIND_CLIENT);
  ("producer", 4%Z); ("consumer", 5%Z)].

Section spans.
(** How a number and other values are written ([int] or [float]; [str]), and the time. *)
Context (number : Q → json) (show : json → string) (now : Z).

Definition _json_value (v : json) : json :=
  match v with
  | JBool b => JObj [("boolValue", JBool b)]
  | JNum q => number q
  | _ => JObj [("stringValue", JStr (match v with JStr s => s | _ => show v end))]
  end.

Definition attribute (kv : string * json) : json := JObj [("key", JStr kv.1); ("value", _json_value kv.2)].

(** [int(float(ms) * 1_000_000)] *)
Definition nanos (ms : Q) : Z := Qtrunc (ms * 1000000).

Definition _span_times_ns (s : span_dict) : Z * Z :=
  let start_ns := default 0%Z (d_start_epoch s) in
  let end_ns := default 0%Z (d_end_epoch s) in
  let start_ns := if (start_ns <=? 0)%Z then (now - nanos (d_duration s))%Z else start_ns in
  let end_ns := if (end_ns <=? 0)%Z then (start_ns + nanos (d_duration s))%Z else end_ns in
  (start_ns, end_ns).

(** The events of the tracer have a [timestamp] and no [timestamp_ns]. *)
Definition _to_otlp_event (e : event) : json :=
  JObj [("timeUnixNano", JStr "0"); ("name", JStr (e_name e)); ("attributes", JArr (map attribute (e_attributes e)))].

Definition status_of (s : span_dict) : json :=
  if String.eqb (d_status s) "error"
  then JObj [("code", JNum (inject_Z STATUS_ERROR)); ("message", JStr (String.substring 0 512 (d_error s)))]
  else JObj [("code", JNum (inject_Z STATUS_OK))].

Definition build_otlp_span (s : span_dict) : list (string * json) :=
  let '(start_ns, end_ns) := _span_times_ns s in
  [("traceId", JStr (_base64_id (d_trace_id s) 16)); ("spanId", JStr (_base64_id (d_span_id s) 8)); ("name", JStr (d_name s));
   ("kind", JNum (inject_Z (default SPAN_KIND_INTERNAL (dget (d_kind s) KIND_TO_OTLP)))); ("startTimeUnixNano", JStr (pretty start_ns));
   ("endTimeUnixNano", JStr (pretty end_ns)); ("attributes", JArr (map (λ kv, attribute (kv.1, JStr kv.2)) (d_attributes s)));
   ("events", JArr (map _to_otlp_event (d_events s))); ("status", status_of s)]
  ++ (if nonempty (d_parent_id s) then [("parentSpanId", JStr (_base64_id (d_parent_id s) 8))] else []).

Definition build_otlp_trace_request (spans : list span_dict) (service_name : string) : json :=
  JObj [("resourceSpans", JArr [JObj [
    ("resource", JObj [("attributes", JArr [JObj [("key", JStr "service.name"); ("value", JObj [("stringValue", JStr service_name)])]])]);
    ("scopeSpans", JArr [JObj [
      ("scope", JObj [("name", JStr "noema.tracing.tracer"); ("version", JStr "")]);
      ("spans", JArr (map (λ s, JObj (build_otlp_span s)) spans))]])]])].
End spans.

(** ** The queue *)
Definition MAX_QUEUE : nat := 5000.
Definition MAX_BATCH : nat := 128.

(** A worker thread: in its loop, waiting for the collector's answer to a batch (and for the
    rest of the interval), past the copy of its last drain, or at its end. *)
Inductive worker_pc {A : Type} := Looping | Posting (batch : list A) | Copied (batch : list A) | Ended.
Arguments worker_pc : clear implicits.

Section exporter.
Context {A : Type} (max_queue batch_size : nat).

(** [workers]: the threads started so far, [thread] the one of [self._thread]; [trims]: for every
    thread inside of [emit], the removals it has left.  [emitted], [removed] and [sent]: the
    spans that entered the queue, left it, and were handed to a post, in this order; [raised]:
    how often [emit] raised an [IndexError]. *)
Record exporter := mkExporter {
  queue : list A; stopping : bool; workers : list (worker_pc A); thread : option nat; trims : list nat;
  emitted : list A; removed : list A; sent : list A; raised : nat;
}.

Definition exporter_init : exporter := mkExporter [] false [] None [] [] [] [] 0.

(** [self._thread is not None and self._thread.is_alive()] *)
Definition alive (x : exporter) : bool :=
  match thread x ≫= (λ t, workers x !! t) with None | Some Ended => false | Some _ => true end.

(** [n] removals from the left end. *)
Definition leave (n : nat) (x : exporter) : exporter :=
  mkExporter (drop n (queue x)) (stopping x) (workers x) (thread x) (trims x) (emitted x) (removed x ++ take n (queue x)) (sent x) (raised x).
Definition put_worker (t : nat) (w : worker_pc A) (x : exporter) : exporter :=
  mkExporter (queue x) (stopping x) (<[t := w]> (workers x)) (thread x) (trims x) (emitted x) (removed x) (sent x) (raised x).
Definition put_trims (l : list nat) (x : exporter) : exporter :=
  mkExporter (queue x) (stopping x) (workers x) (thread x) l (emitted x) (removed x) (sent x) (raised x).
Definition send (batch : list A) (x : exporter) : exporter :=
  mkExporter (queue x) (stopping x) (workers x) (thread x) (trims x) (emitted x) (removed x) (sent x ++ batch) (raised x).

Inductive action :=
| Start
| Emit (a : A)                       (* append, and read the length *)
| Trim (t : nat)                     (* one [popleft] of an emission *)
| Take (t : nat)                     (* a worker takes a batch and posts it *)
| Answer (t : nat)                   (* the collector answers, or the post fails *)
| Flush                              (* a batch taken and posted by another thread *)
| Stop                               (* [self._stop.set()] *)
| Joined                             (* the join is over, or has timed out: [self._thread = None] *)
| Copy (t : nat)                     (* the loop has seen the stop: [list(self._queue)] *)
| Clear (t : nat).                   (* [self._queue.clear()] and the last post *)

Definition exporter_step (x : exporter) (a : action) : option exporter :=
  match a with
  | Start =>
      if alive x then Some x
      else Some (mkExporter (queue x) false (workers x ++ [Looping]) (Some (length (workers x))) (trims x) (emitted x) (removed x) (sent x) (raised x))
  | Emit a =>
      if alive x then
        let q := queue x ++ [a] in
        Some (mkExporter q (stopping x) (workers x) (thread x) (if (max_queue <? length q)%nat then trims x ++ [length q - max_queue] else trims x)
          (emitted x ++ [a]) (removed x) (sent x) (raised x))
      else Some x
  | Trim t =>
      match trims x !! t with
      | None => None
      | Some n =>
          match queue x with
          | [] => Some (mkExporter [] (stopping x) (workers x) (thread x) (delete t (trims x)) (emitted x) (removed x) (sent x) (S (raised x)))
          | _ :: _ => Some (put_trims (if (n =? 1)%nat then delete t (trims x) else <[t := n - 1]> (trims x)) (leave 1 x))
          end
      end
  | Take t =>
      match workers x !! t with
      | Some Looping => if stopping x then None
          else let batch := take batch_size (queue x) in Some (put_worker t (Posting batch) (send batch (leave batch_size x)))
      | _ => None
      end
  | Answer t => match workers x !! t with Some (Posting _) => Some (put_worker t Looping x) | _ => None end
  | Flush => Some (send (take batch_size (queue x)) (leave batch_size x))
  | Stop => Some (mkExporter (queue x) true (workers x) (thread x) (trims x) (emitted x) (removed x) (sent x) (raised x))
  | Joined => Some (mkExporter (queue x) (stopping x) (workers x) None (trims x) (emitted x) (removed x) (sent x) (raised x))
  | Copy t => match workers x !! t with Some Looping => if stopping x then Some (put_worker t (Copied (queue x)) x) else None | _ => None end
  | Clear t =>
      match workers x !! t with
      | Some (Copied batch) => Some (put_worker t Ended (send batch (leave (length (queue x)) x)))
      | _ => None
      end
  end.

(** Nobody else takes from the queue between the copy and the clearing of a last drain. *)
Definition not_draining (w : worker_pc A) : bool := match w with Copied _ => false | _ => true end.
Definition undisturbed (x : exporter) (a : action) : bool :=
  match a with
  | Trim _ | Flush | Take _ => forallb not_draining (workers x)
  | Clear t => forallb not_draining (<[t := Ended]> (workers x))
  | _ => true
  end.

Definition quiet_step (x : exporter) (a : action) : option exporter := if undisturbed x a then exporter_step x a else None.

(** ** Accounting *)
Record exporter_inv (x : exporter) : Prop := {
  xi_all : emitted x = removed x ++ queue x;
  xi_bound : length (queue x) <= max_queue + sum_list (trims x);
  xi_trims : Forall (λ n, 0 < n) (trims x);
}.

(** Spans are posted in the order in which they were emitted, and none is posted twice. *)
Definition copied_from (q : list A) (w : worker_pc A) : Prop := match w with Copied b => b `prefix_of` q | _ => True end.

Definition in_order (x : exporter) : Prop := sent x `sublist_of` removed x ∧ Forall (copied_from (queue x)) (workers x).

Lemma sum_list_delete (l : list nat) t n : l !! t = Some n → sum_list (delete t l) + n = sum_list l.
Proof.
  revert t. induction l as [|m l IH]; intros [|t] H; [done|done|injection H as ->; cbn; lia|]. specialize (IH t H).
  change (sum_list (delete (S t) (m :: l))) with (m + sum_list (delete t l)). change (sum_list (m :: l)) with (m + sum_list l). lia.
Qed.

Lemma sum_list_set (l : list nat) t n m : l !! t = Some n → sum_list (<[t := m]> l) + n = sum_list l + m.
Proof.
  revert t. induction l as [|k l IH]; intros [|t] H; [done|done|injection H as ->; cbn; lia|]. specialize (IH t H).
  change (sum_list (<[S t := m]> (k :: l))) with (k + sum_list (<[t := m]> l)). change (sum_list (k :: l)) with (k + sum_list l). lia.
Qed.

Lemma leave_keeps n x : exporter_inv x → exporter_inv (leave n x).
Proof.
  intros [H1 H2 H3]. split; cbn [queue trims emitted removed leave]; [by rewrite <- app_assoc, take_drop| |done]. rewrite length_drop. lia.
Qed.

Lemma exporter_step_inv x a x' : exporter_inv x → exporter_step x a = Some x' → exporter_inv x'.
Proof.
  intros Hi. pose proof Hi as [H1 H2 H3]. destruct a as [|a|t|t|t| | | |t|t]; cbn [exporter_step].
  - destruct (alive x); intros [= <-]; [done|by split].
  - destruct (alive x); [|by intros [= <-]]. intros [= <-]. split; cbn [queue trims emitted removed]; [by rewrite H1, app_assoc| |].
    + rewrite length_app. cbn [List.length]. destruct (Nat.ltb_spec max_queue (length (queue x) + 1)); [rewrite sum_list_with_app; cbn; lia|lia].
    + destruct (Nat.ltb_spec max_queue (length (queue x ++ [a]))); [|done]. apply Forall_app. split; [done|]. constructor; [lia|done].
  - destruct (trims x !! t) as [n|] eqn:Et; [|done]. assert (0 < n) as Hn by (rewrite Forall_lookup in H3; by eapply H3).
    destruct (queue x) as [|b q] eqn:Eq; intros [= <-].
    + split; cbn; [done|lia|]. by apply Forall_delete.
    + destruct (leave_keeps 1 x Hi) as [K1 K2 K3]. split; [done| |].
      * cbn [queue trims leave put_trims] in *. rewrite ?Eq. cbn [drop List.length] in *. destruct (Nat.eqb_spec n 1) as [->|].
        -- pose proof (sum_list_delete _ _ _ Et). rewrite drop_0. lia.
        -- pose proof (sum_list_set _ _ _ (n - 1) Et). rewrite drop_0. lia.
      * cbn [trims put_trims]. destruct (Nat.eqb_spec n 1); [by apply Forall_delete|]. apply Forall_insert; [done|lia].
  - destruct (workers x !! t) as [[]|]; try done. destruct (stopping x); [done|]. intros [= <-]. by destruct (leave_keeps batch_size x Hi).
  - destruct (workers x !! t) as [[]|]; try done. intros [= <-]. by split.
  - intros [= <-]. by destruct (leave_keeps batch_size x Hi).
  - intros [= <-]. by split.
  - intros [= <-]. by split.
  - destruct (workers x !! t) as [[]|]; try done. destruct (stopping x); [|done]. intros [= <-]. by split.
  - destruct (workers x !! t) as [[]|]; try done. intros [= <-]. by destruct (leave_keeps (length (queue x)) x Hi).
Qed.

Lemma prefix_sublist (b q : list A) : b `prefix_of` q → b `sublist_of` q.
Proof. intros [r ->]. rewrite <- (app_nil_r b) at 1. apply sublist_app; [done|apply sublist_nil_l]. Qed.

Lemma quiet_copies q l : forallb not_draining l = true → Forall (copied_from q) l.
Proof. intros H. apply Forall_forall. intros w Hw. rewrite forallb_forall in H. apply list_elem_of_In, H in Hw. by destruct w. Qed.

Lemma in_order_step x a x' : in_order x → quiet_step x a = Some x' → in_order x'.
Proof.
  intros [Hs Hw]. unfold quiet_step. destruct (undisturbed x a) eqn:Eu; [|done]. unfold undisturbed in Eu. unfold in_order. destruct a as [|a|t|t|t| | | |t|t]; cbn [exporter_step].
  - destruct (alive x); intros [= <-]; [done|]. split; [done|]. apply Forall_app. by split; [|constructor].
  - destruct (alive x); [|by intros [= <-]]. intros [= <-]. split; [done|]. cbn [workers queue]. eapply Forall_impl; [exact Hw|]. intros [] Hb; try done. by apply prefix_app_r.
  - destruct (trims x !! t) as [n|]; [|done]. destruct (queue x) eqn:Eq; intros [= <-]; cbn [sent removed workers queue leave put_trims]; split; try done.
    + by apply sublist_inserts_r.
    + by apply quiet_copies.
  - destruct (workers x !! t) as [[]|]; try done. destruct (stopping x); [done|]. intros [= <-]. cbn [sent removed workers queue leave put_worker send].
    split; [by apply sublist_app|]. apply Forall_insert; [by apply quiet_copies|done].
  - destruct (workers x !! t) as [[]|]; try done. intros [= <-]. split; [done|]. by apply Forall_insert.
  - intros [= <-]. cbn [sent removed workers queue leave send]. split; [by apply sublist_app|by apply quiet_copies].
  - intros [= <-]. by split.
  - intros [= <-]. by split.
  - destruct (workers x !! t) as [[]|]; try done. destruct (stopping x); [|done]. intros [= <-]. split; [done|]. apply Forall_insert; [done|]. exists []. by rewrite app_nil_r.
  - destruct (workers x !! t) as [[| |b|]|] eqn:Ew; try done. intros [= <-]. cbn [sent removed workers queue leave put_worker send].
    split; [|by apply quiet_copies]. apply sublist_app; [done|]. rewrite firstn_all. apply prefix_sublist. by apply (Forall_lookup_1 _ _ _ _ Hw Ew).
Qed.

(** The exporter neither invents, duplicates nor reorders spans, and its queue is bounded.
    Whatever the threads do, the spans in the queue are the last ones that were emitted; the
    queue is longer than its limit only by what threads inside of an emission are about to
    remove, so that it keeps to its limit when there are none.  If nobody else removes spans
    between the copy and the clearing of the last drain, the spans handed to the collector are
    emitted ones in their order, each at most once. *)
Theorem exporter_accounts l x : exec exporter_step exporter_init l = Some x →
  emitted x = removed x ++ queue x ∧ length (queue x) <= max_queue + sum_list (trims x) ∧ (trims x = [] → length (queue x) <= max_queue)
  ∧ (exec quiet_step exporter_init l = Some x → sent x `sublist_of` emitted x).
Proof.
  intros Hr. assert (exporter_inv x) as [H1 H2 H3].
  { eapply (exec_invariant exporter_step exporter_inv (λ _, True)); [|apply Forall_true_all| |exact Hr]; [intros s a s' Hs _; by apply exporter_step_inv|by split; cbn; [|lia|]]. }
  split_and!; [done|done|intros E; rewrite E in H2; cbn in H2; lia|]. intros Hq. assert (in_order x) as [Ho _].
  { eapply (exec_invariant quiet_step in_order (λ _, True)); [|apply Forall_true_all| |exact Hq]; [intros s a s' Hs _; by apply in_order_step|by split]. }
  rewrite H1. by apply sublist_inserts_r.
Qed.
End exporter.

(** *** Runs with a queue for two spans and batches of one *)
Definition run_exporter (l : list (action (A := nat))) : option (exporter (A := nat)) := exec (exporter_step 2 1) exporter_init l.

Definition demo_actions : list (action (A := nat)) := [Start; Emit 1; Emit 2; Emit 3; Trim 0; Take 0; Answer 0; Stop; Copy 0; Clear 0; Joined].

Definition demo_final : exporter (A := nat) := mkExporter [] true [Ended] None [] [1; 2; 3] [1; 2; 3] [2; 3] 0.

Lemma demo_exec : exec (exporter_step 2 1) exporter_init demo_actions = Some demo_final.
Proof. vm_compute. reflexivity. Qed.

Lemma demo_quiet : exec (quiet_step 2 1) exporter_init demo_actions = Some demo_final.
Proof. vm_compute. reflexivity. Qed.

Lemma exporter_accounts_witness : sent demo_final = [2; 3] ∧ sent demo_final `sublist_of` emitted demo_final.
Proof. split; [reflexivity|]. exact (proj2 (proj2 (proj2 (exporter_accounts 2 1 demo_actions demo_final demo_exec))) demo_quiet). Defined.

(** An emission that read the length before the last drain removes from an empty queue: the
    [IndexError] reaches the code that was traced. *)
Example emission_raises : raised <$> run_exporter [Start; Emit 1; Emit 2; Emit 3; Stop; Copy 0; Clear 0; Trim 0] = Some 1.
Proof. reflexivity. Qed.

(** A span emitted between the copy and the clearing is lost although the queue was not
    full, and one that is removed there by another flush is posted twice. *)
Example last_drain_loses_and_doubles :
  (λ x, (emitted x, sent x)) <$> run_exporter [Start; Emit 1; Stop; Copy 0; Emit 2; Flush; Clear 0] = Some ([1; 2], [1; 1]).
Proof. reflexivity. Qed.

(** After a [stop] whose join timed out, [start] clears the request to stop: both the old
    worker and the new one go on, and [stop] waits for the new one only. *)
Example second_worker : (λ x, (workers x, thread x)) <$> run_exporter [Start; Emit 1; Take 0; Stop; Joined; Start; Answer 0; Take 0; Answer 0] = Some ([Looping; Looping], Some 1).
Proof. reflexivity. Qed.

(** ** The form of spans *)
Definition plain_span (kind : string) : span_dict := mkDict "00000000000000ff" "" "0af7651916cd43dd8448eb211c80319c" "step" kind 0 0 "ok" [] [mkEvent "e" 12 []] "" None None.

Definition otlp_field (k kind : string) : option json := dget k (build_otlp_span (λ _, JNull) (λ _, "") 100 (plain_span kind)).

(** The numbers of kinds are those of OpenTelemetry with INTERNAL (1) and SERVER (2) exchanged. *)
Example kinds_are_exchanged : otlp_field "kind" "internal" = Some (JNum 2) ∧ otlp_field "kind" "server" = Some (JNum 1).
Proof. vm_compute. done. Qed.

(** Identifiers are sent in base64, and an event at the beginning of 1970. *)
Example identifiers_are_base64 : otlp_field "spanId" "llm" = Some (JStr "AAAAAAAAAP8=") ∧ otlp_field "traceId" "llm" = Some (JStr "CvdlGRbNQ92ESOshHIAxnA==").
Proof. vm_compute. done. Qed.

Example events_have_no_time : otlp_field "events" "llm" = Some (JArr [JObj [("timeUnixNano", JStr "0"); ("name", JStr "e"); ("attributes", JArr [])]]).
Proof. vm_compute. done. Qed.

(** A span never ends before it begins, if its duration is not negative and its recorded
    times are in order. *)
Lemma span_times_ordered now s : (0 <= d_duration s)%Q →
  (match d_start_epoch s, d_end_epoch s with Some a, Some b => (0 < a <= b)%Z | None, None => True | Some a, None => (0 < a)%Z | None, Some _ => False end) →
  ((_span_times_ns now s).1 <= (_span_times_ns now s).2)%Z.
Proof.
  intros Hd He. assert (0 <= nanos (d_duration s))%Z as Hn.
  { unfold nanos, Qtrunc. destruct (Qle_bool 0 (d_duration s * 1000000)) eqn:E; [by apply Qle_bool_iff in E; apply (Qfloor_resp_le 0)|].
    apply Qle_bool_false in E. exfalso. apply (Qlt_not_le _ _ E). by apply Qmult_le_0_compat. }
  unfold _span_times_ns. destruct (d_start_epoch s) as [a|], (d_end_epoch s) as [b|]; cbn [default from_option id fst snd]; try done.
  - destruct (Z.leb_spec a 0); [lia|]. destruct (Z.leb_spec b 0); lia.
  - destruct (Z.leb_spec a 0); [lia|]. cbn. lia.
  - cbn. lia.
Qed.
