(* ===== verification/RedisCache.v ===== *)
(** * The cache shared through Redis ([noema/persistence/redis_cache.py])

    Pods with a local semantic cache ([SemanticCache]) and a common Redis store.  Redis is
    a dictionary whose keys expire; any call to it may fail ([up] is false), and it may drop
    keys on its own.  The hash of a prompt, the embedder and JSON texts are parameters; a
    store under the prefix of the cache holds what caches have written. *)
From Stdlib Require Import ZArith QArith Lqa Lia Bool Ascii String.
From stdpp Require Import base option numbers sets strings list.
From S2P Require Import Prelude SemanticCache.
Local Open Scope string_scope.
Local Open Scope list_scope.
Local Open Scope Z_scope.

(** ** Entries as JSON *)
Definition _serialize_entry (e : CacheEntry) : json :=
  JObj [("prompt_hash", JStr (prompt_hash e)); ("response", JStr (response e)); ("model", JStr (model e));
        ("tokens_used", JNum (inject_Z (tokens_used e))); ("timestamp", JNum (timestamp e)); ("hit_count", JNum (inject_Z (hit_count e)));
        ("embedding", JArr (map JNum (embedding e)))].

Definition str_of (j : json) : option string := match j with JStr s => Some s | _ => None end.
Definition num_of (j : json) : option Q := match j with JNum q => Some q | _ => None end.
Definition whole_of (j : json) : option Z := match j with JNum (n # 1) => Some n | _ => None end.

(** [d.get(k, default)] *)
Definition opt_field {A} (f : json → option A) (k : string) (dflt : A) (d : list (string * json)) : option A :=
  match dget k d with None => Some dflt | Some j => f j end.

(** [None]: a key is missing ([KeyError]), or the text is not of a cache's making. *)
Definition _deserialize_entry (j : json) : option CacheEntry :=
  match j with
  | JObj d =>
      h ← dget "prompt_hash" d ≫= str_of; r ← dget "response" d ≫= str_of; m ← dget "model" d ≫= str_of;
      tok ← opt_field whole_of "tokens_used" 0 d; ts ← opt_field num_of "timestamp" 0%Q d; hc ← opt_field whole_of "hit_count" 1 d;
      emb ← opt_field (λ j, match j with JArr l => mapM num_of l | JNull => Some [] | _ => None end) "embedding" [] d;
      Some (mkEntry h r m tok ts hc emb)
  | _ => None
  end.

Lemma mapM_num l : mapM num_of (map JNum l) = Some l.
Proof. induction l as [|q l IH]; [done|]. cbn [map mapM]. cbn [num_of mbind option_bind]. by rewrite IH. Qed.

(** Entries survive the way through Redis, with the whole of the embedding. *)
Lemma entry_roundtrip e : _deserialize_entry (_serialize_entry e) = Some e.
Proof.
  destruct e as [h r m tok ts hc emb]. cbv -[mapM map num_of]. by rewrite mapM_num.
Qed.

Section redis.
Context (hash : list message → string) (embed : string → list Q) (dumps : json → string) (loads : string → option json).

(** A pod: its local cache, whether it has a client, and the tenant it was built for. *)
Record pod := mkPod { local : SemanticCache; connected : bool; tenant_id : string }.

Definition put_local (c : SemanticCache) (p : pod) : pod := mkPod c (connected p) (tenant_id p).

(** Keys with the time at which they expire. *)
Definition store := list (string * (Q * string)).

Definition redis_key (messages : list message) (t mdl : string) : string := hash messages +:+ ":t=" +:+ t +:+ ":m=" +:+ mdl.

Definition _redis_get (up : bool) (now : Q) (key : string) (r : store) : option string :=
  if up then match dget key r with Some (expiry, v) => if Qltb now expiry then Some v else None | None => None end else None.

Definition _redis_set (up : bool) (now : Q) (key value : string) (ttl : Z) (r : store) : store :=
  if up then dset key ((now + inject_Z ttl)%Q, value) r else r.

Definition put_entry (key : string) (e : CacheEntry) (c : SemanticCache) : SemanticCache :=
  mkCache (max_size c) (similarity_threshold c) (dset key e (_entries c)) (hits c) (misses c) (evictions c).

Definition aget (up : bool) (now : Q) (messages : list message) (mdl t context_tenant : string) (p : pod) (r : store) : pod * option string :=
  match get hash embed (local p) messages mdl t context_tenant with
  | (c, Some text) => (put_local c p, Some text)
  | (c, None) =>
      let p := put_local c p in
      if connected p then
        match _redis_get up now (redis_key messages (effective_tenant t (tenant_id p)) mdl) r with
        | None => (p, None)
        | Some cached =>
            match (if nonempty cached then loads cached ≫= _deserialize_entry else None) with
            | None => (p, None)
            | Some e => (put_local (put_entry (cache_key hash messages (effective_tenant t context_tenant)) e c) p, Some (response e))
            end
        end
      else (p, None)
  end.

(** [aset]; the [ValueError] of [set] is the caller's. *)
Definition aset (up : bool) (now : Q) (messages : list message) (resp mdl : string) (tokens : Z) (t context_tenant : string) (ttl : Z)
    (p : pod) (r : store) : result pyexn (pod * store) :=
  c ← set hash embed (local p) messages resp mdl tokens t context_tenant now;
  let p := put_local c p in
  if connected p then
    let eff := effective_tenant t context_tenant in
    match dget (cache_key hash messages eff) (_entries c) with
    | Some e => Ok (p, _redis_set up now (redis_key messages eff mdl) (dumps (_serialize_entry e)) ttl r)
    | None => Ok (p, r)
    end
  else Ok (p, r).

(** ** Pods with a common store *)
Record cluster := mkCluster { pods : list pod; redis : store; clock : Q }.

Inductive cluster_op :=
| ASet (i : nat) (up : bool) (messages : list message) (resp mdl : string) (tokens : Z) (t context_tenant : string) (ttl : Z)
| AGet (i : nat) (up : bool) (messages : list message) (mdl t context_tenant : string)
| Tick (d : Q)
| Drop (key : string)                (* Redis evicts a key *)
| Restart (i : nat).                 (* a pod starts again, with an empty local cache *)

Definition pod_set (i : nat) (p : pod) (s : cluster) : cluster := mkCluster (<[i := p]> (pods s)) (redis s) (clock s).

(** A call and what it returns. *)
Definition cluster_step (s : cluster) (o : cluster_op) : cluster * option string :=
  match o with
  | ASet i up ms resp mdl tok t ctx ttl =>
      match pods s !! i with
      | Some p => match aset up (clock s) ms resp mdl tok t ctx ttl p (redis s) with
                  | Ok (p, r) => (mkCluster (<[i := p]> (pods s)) r (clock s), None)
                  | Err _ => (s, None)
                  end
      | None => (s, None)
      end
  | AGet i up ms mdl t ctx =>
      match pods s !! i with
      | Some p => let '(p, a) := aget up (clock s) ms mdl t ctx p (redis s) in (pod_set i p s, a)
      | None => (s, None)
      end
  | Tick d => (mkCluster (pods s) (redis s) (clock s + d)%Q, None)
  | Drop k => (mkCluster (pods s) (ddel k (redis s)) (clock s), None)
  | Restart i =>
      match pods s !! i with
      | Some p => (pod_set i (put_local (cache_init (max_size (local p)) (similarity_threshold (local p))) p) s, None)
      | None => (s, None)
      end
  end.

Definition run_cluster (s : cluster) (l : list cluster_op) : cluster := foldl (λ s o, (cluster_step s o).1) s l.

Definition cluster_init (n : nat) (size : Z) (threshold : Q) (connected : bool) : cluster :=
  mkCluster (replicate n (mkPod (cache_init size threshold) connected "default")) [] 0.

(** The calls of a history that store, with the tenant they name. *)
Definition sets_of (l : list cluster_op) : list cache_op :=
  omap (λ o, match o with ASet _ _ ms resp mdl tok t _ _ => Some (OSet ms resp mdl tok t 0) | _ => None end) l.

Definition names_tenant (o : cluster_op) : Prop :=
  match o with ASet _ _ _ _ _ _ t _ _ => plain t | AGet _ _ _ _ t _ => plain t | _ => True end.

(** ** Isolation *)
Hypothesis json_roundtrip : ∀ j, loads (dumps j) = Some j.
Hypothesis json_nonempty : ∀ j, nonempty (dumps j) = true.
(** Hashes are hexadecimal. *)
Hypothesis hash_plain : ∀ ms, rpartition (hash ms) = None.

Lemma first_colon a b x y : rpartition a = None → rpartition b = None → a +:+ ":" +:+ x = b +:+ ":" +:+ y → a = b ∧ x = y.
Proof.
  revert b. induction a as [|c a IH]; intros [|d b] Ha Hb E.
  - by injection E.
  - injection E as <- _. cbn in Hb. by destruct (rpartition b) as [[]|].
  - injection E as -> _. cbn in Ha. by destruct (rpartition a) as [[]|].
  - injection E as -> E. cbn in Ha, Hb. destruct (rpartition a) as [[]|] eqn:Ea; [done|]. destruct (rpartition b) as [[]|] eqn:Eb; [done|].
    by destruct (IH b eq_refl Eb E) as [-> ->].
Qed.

(** Keys of Redis name their tenant, whatever the model is called. *)
Lemma redis_key_tenant ms t mdl ms' t' mdl' : plain t → plain t' → redis_key ms t mdl = redis_key ms' t' mdl' → t = t'.
Proof.
  intros [_ H] [_ H'] E. unfold redis_key in E. apply (first_colon _ _ ("t=" +:+ t +:+ ":m=" +:+ mdl) ("t=" +:+ t' +:+ ":m=" +:+ mdl')) in E as [_ E]; [|by apply hash_plain..].
  injection E as E. by apply (first_colon t t' ("m=" +:+ mdl) ("m=" +:+ mdl')) in E as [-> _].
Qed.

(** Every local entry and every key of the store belongs to a tenant for whom its response
    was stored. *)
Record cluster_owned (ops : list cache_op) (s : cluster) : Prop := {
  co_pods : ∀ i p, pods s !! i = Some p → owned hash ops (local p);
  co_store : ∀ k x v, dget k (redis s) = Some (x, v) →
    ∃ ms t mdl e, k = redis_key ms t mdl ∧ plain t ∧ v = dumps (_serialize_entry e) ∧ stored ops t (response e);
}.

Lemma owned_ext ops ops' c : (∀ t r, stored ops t r → stored ops' t r) → owned hash ops c → owned hash ops' c.
Proof. intros H [H1 H2]. split; [done|]. intros k e Hk. destruct (H2 k e Hk) as (ms & t & ? & ? & ?). exists ms, t. auto. Qed.

Lemma cluster_owned_ext ops ops' s : (∀ t r, stored ops t r → stored ops' t r) → cluster_owned ops s → cluster_owned ops' s.
Proof.
  intros H [H1 H2]. split; [intros i p Hp; eapply owned_ext; eauto|].
  intros k x v Hk. destruct (H2 k x v Hk) as (ms & t & mdl & e & ? & ? & ? & ?). exists ms, t, mdl, e. auto.
Qed.

Lemma pod_insert (P : pod → Prop) (l : list pod) (i : nat) p (j : nat) q : (∀ (j : nat) q, l !! j = Some q → P q) → P p → <[i := p]> l !! j = Some q → P q.
Proof. intros Hl Hp Hq. apply list_lookup_insert_Some in Hq as [(_ & <- & _)|[_ Hq]]; [done|eauto]. Qed.

Lemma pod_set_owned ops i p s : cluster_owned ops s → owned hash ops (local p) → cluster_owned ops (pod_set i p s).
Proof. intros [H1 H2] Hp. split; [|done]. intros j q. by apply (pod_insert (λ p, owned hash ops (local p))). Qed.

(** A lookup keeps the ownership and answers with a response of the tenant. *)
Lemma aget_owned ops up now ms mdl t ctx p r i s : cluster_owned ops s → pods s !! i = Some p → r = redis s → plain t →
  let a := aget up now ms mdl t ctx p r in owned hash ops (local a.1) ∧ ∀ resp, a.2 = Some resp → stored ops t resp.
Proof.
  intros Hs Hp -> Ht. cbv zeta. pose proof (co_pods _ _ Hs i p Hp) as Hl. pose proof (get_owned hash embed ops (local p) ms mdl t ctx Hl) as Hg.
  pose proof (get_owner hash embed ops (local p) ms mdl t ctx) as Ho. unfold aget. destruct (get hash embed (local p) ms mdl t ctx) as [c [text|]]; cbn [fst snd] in *.
  { split; [done|]. intros resp [= <-]. by apply Ho. }
  cbn [connected put_local]. destruct (connected p); [|done]. unfold _redis_get. destruct up; [|done]. unfold effective_tenant. rewrite (proj1 Ht).
  destruct (dget (redis_key ms t mdl) (redis s)) as [[x v]|] eqn:Ek; [|done]. destruct (Qltb now x); [|done].
  destruct (co_store _ _ Hs _ _ _ Ek) as (ms' & t' & mdl' & e & E & Ht' & -> & Hst). apply redis_key_tenant in E as <-; [|done..].
  destruct (nonempty _); [|done]. rewrite json_roundtrip. cbn [mbind option_bind]. rewrite entry_roundtrip. cbn [fst snd local put_local].
  split; [|by intros resp [= <-]]. destruct Hg as [H1 H2]. split; cbn [put_entry _entries]; [by apply dset_keys_NoDup|].
  intros k e' [[= -> ->]|Hin]%dset_elem; [|by apply H2]. by exists ms, t.
Qed.

Lemma aset_owned ops up now ms resp mdl tok t ctx ttl p r i s p' r' : cluster_owned ops s → pods s !! i = Some p → r = redis s → plain t →
  aset up now ms resp mdl tok t ctx ttl p r = Ok (p', r') →
  cluster_owned (ops ++ [OSet ms resp mdl tok t now]) (mkCluster (<[i := p']> (pods s)) r' (clock s)).
Proof.
  intros Hs Hp -> Ht. unfold aset. intros (c & Ec & E)%result_bind_ok.
  pose proof (set_owned hash embed ops _ _ _ _ _ _ _ _ _ (co_pods _ _ Hs i p Hp) Ht Ec) as [Hc _].
  assert (dget (cache_key hash ms t) (_entries c) = Some (mkEntry (cache_key hash ms t) resp mdl tok now 1 (embed (_prompt_text ms)))) as Ed.
  { revert Ec. unfold set, effective_tenant. rewrite (proj1 Ht). intros (c1 & _ & [= <-])%result_bind_ok. cbn [_entries]. apply dget_dset_eq. }
  set (ops' := ops ++ _) in *. assert (∀ t r, stored ops t r → stored ops' t r) as Hm by (intros; by apply stored_mono).
  destruct (cluster_owned_ext _ ops' _ Hm Hs) as [H1 H2].
  assert (∀ c', c' = put_local c p → ∀ j q, <[i := c']> (pods s) !! j = Some q → owned hash ops' (local q)) as Hpods.
  { intros c' -> j q. by apply (pod_insert (λ p, owned hash ops' (local p))). }
  unfold effective_tenant in E. rewrite (proj1 Ht), Ed in E. cbn [connected put_local] in E. destruct (connected p); injection E as <- <-.
  - split; [by apply Hpods|]. cbn [redis]. unfold _redis_set. destruct up; [|done]. intros k x v. rewrite dget_dset. case_decide as Ek; [|by apply H2].
    intros [= <- <-]. subst k. eexists ms, t, mdl, _. split_and!; [done|done|done|]. exists ms, mdl, tok, now. apply elem_of_app. right. left.
  - split; [by apply Hpods|done].
Qed.

Lemma cluster_step_owned ops s o : names_tenant o → cluster_owned ops s →
  cluster_owned (ops ++ sets_of [o]) (cluster_step s o).1 ∧ ∀ i up ms mdl t ctx resp, o = AGet i up ms mdl t ctx → (cluster_step s o).2 = Some resp → stored ops t resp.
Proof.
  intros Ho Hs. destruct o as [i up ms resp mdl tok t ctx ttl|i up ms mdl t ctx|d|k|i]; cbn [sets_of omap list_omap cluster_step]; rewrite ?app_nil_r.
  - split; [|done]. assert (cluster_owned (ops ++ [OSet ms resp mdl tok t 0]) s) as Hk by (eapply cluster_owned_ext; [|exact Hs]; intros; by apply stored_mono).
    destruct (pods s !! i) as [p|] eqn:Ep; [|done]. destruct (aset _ _ _ _ _ _ _ _ _ _ _) as [[p' r']|] eqn:Ea; [|done].
    eapply cluster_owned_ext; [|by eapply aset_owned]. intros t' r (ms' & mdl' & tok' & now & H).
    apply elem_of_app in H as [H|H]; [by exists ms', mdl', tok', now|].
    apply list_elem_of_singleton in H as [= -> -> -> -> -> ->]. exists ms, mdl, tok, 0%Q. apply elem_of_app. right. left.
  - destruct (pods s !! i) as [p|] eqn:Ep; [|done]. destruct (aget_owned ops up (clock s) ms mdl t ctx p (redis s) i s Hs Ep eq_refl Ho) as [H1 H2].
    destruct (aget _ _ _ _ _ _ _ _) as [p' a]. cbn [fst snd] in *. split; [by apply pod_set_owned|]. by intros i' up' ms' mdl' t' ctx' resp [= <- <- <- <- <- <-] ->; apply H2.
  - split; [|done]. by destruct Hs.
  - split; [|done]. destruct Hs as [H1 H2]. split; [done|]. cbn [redis fst]. intros k' x v. rewrite dget_ddel. case_decide; [done|]. apply H2.
  - split; [|done]. destruct (pods s !! i) as [p|]; [|done]. apply pod_set_owned; [done|]. split; cbn; [constructor|]. by intros k e ?%elem_of_nil.
Qed.

Lemma run_cluster_owned l : ∀ pre s, Forall names_tenant l → cluster_owned pre s → cluster_owned (pre ++ sets_of l) (run_cluster s l).
Proof.
  induction l as [|o l IH]; intros pre s Hl Hs; [by rewrite app_nil_r|]. apply Forall_cons in Hl as [Ho Hl].
  destruct (cluster_step_owned pre s o Ho Hs) as [H1 _]. specialize (IH _ _ Hl H1). unfold run_cluster in *. cbn [foldl].
  replace (pre ++ sets_of (o :: l)) with ((pre ++ sets_of [o]) ++ sets_of l); [done|]. rewrite <- app_assoc. f_equal. unfold sets_of. rewrite <- omap_app. done.
Qed.

(** Whatever the pods do, with Redis failing and dropping keys at any time, a lookup that names
    its tenant is only answered with a response that some pod stored for this tenant. *)
Theorem shared_cache_isolation n size threshold conn l i up ms mdl t ctx resp : Forall names_tenant l → plain t →
  (cluster_step (run_cluster (cluster_init n size threshold conn) l) (AGet i up ms mdl t ctx)).2 = Some resp → stored (sets_of l) t resp.
Proof.
  intros Hl Ht H. assert (cluster_owned [] (cluster_init n size threshold conn)) as Hi.
  { split; [|done]. intros j p [-> _]%lookup_replicate. split; cbn; [constructor|]. by intros k e ?%elem_of_nil. }
  pose proof (run_cluster_owned l [] _ Hl Hi) as Hr. by apply (proj2 (cluster_step_owned _ _ _ (Ht : names_tenant (AGet i up ms mdl t ctx)) Hr) i up ms mdl t ctx resp eq_refl).
Qed.

(** What one pod stores another finds: a pod without an answer of its own gets the response
    from Redis until it expires, and keeps it. *)
Theorem shared_cache_finds up now now' ms resp mdl tok t ctx ctx' ttl p r p' r' q : plain t → connected p = true → connected q = true →
  aset true now ms resp mdl tok t ctx ttl p r = Ok (p', r') → (now' < now + inject_Z ttl)%Q →
  (get hash embed (local q) ms mdl t ctx').2 = None →
  (aget true now' ms mdl t ctx' q r').2 = Some resp ∧
  (aget up now' ms mdl t ctx' (aget true now' ms mdl t ctx' q r').1 []).2 = Some resp.
Proof.
  intros Ht Cp Cq Ha Hn Hg. revert Ha. unfold aset. intros (c & Ec & E)%result_bind_ok.
  assert (dget (cache_key hash ms t) (_entries c) = Some (mkEntry (cache_key hash ms t) resp mdl tok now 1 (embed (_prompt_text ms)))) as Ed.
  { revert Ec. unfold set, effective_tenant. rewrite (proj1 Ht). intros (c1 & _ & [= <-])%result_bind_ok. cbn [_entries]. apply dget_dset_eq. }
  cbn [connected put_local] in E. unfold effective_tenant in E. rewrite Cp, (proj1 Ht), Ed in E. injection E as <- Er.
  assert (∃ c2, aget true now' ms mdl t ctx' q r'
    = (put_local (put_entry (cache_key hash ms t) (mkEntry (cache_key hash ms t) resp mdl tok now 1 (embed (_prompt_text ms))) c2) q, Some resp)) as [c2 ->].
  { unfold aget. destruct (get hash embed (local q) ms mdl t ctx') as [c2 [?|]]; [done|]. cbn [connected put_local tenant_id]. rewrite Cq. unfold effective_tenant. rewrite (proj1 Ht).
    unfold _redis_get. rewrite <- Er. unfold _redis_set. rewrite dget_dset_eq, (proj2 (Qltb_lt _ _) Hn), json_nonempty, json_roundtrip. cbn [mbind option_bind]. rewrite entry_roundtrip. by exists c2. }
  split; [done|]. cbn [fst]. unfold aget, get. cbn [local put_local put_entry _entries]. unfold effective_tenant. rewrite (proj1 Ht), dget_dset_eq. done.
Qed.
End redis.

(** ** Runs *)
Definition demo_dumps (j : json) : string := match j with JObj (_ :: (_, JStr r) :: _) => r | _ => "" end.
Definition demo_entry (r : string) : json := _serialize_entry (mkEntry "h" r "m" 0 0 1 []).
Definition demo_loads (s : string) : option json := Some (demo_entry s).

Definition run_demo (l : list cluster_op) : cluster := run_cluster demo_hash demo_embed demo_dumps demo_loads (cluster_init 2 1 1 true) l.
Definition answer_demo (l : list cluster_op) (o : cluster_op) : option string := (cluster_step demo_hash demo_embed demo_dumps demo_loads (run_demo l) o).2.

(** Without a tenant in the call [aset] takes the tenant of the context and [aget] the one the
    cache was built for: a tenant gets what was stored for that one, and not what was
    stored for itself. *)
Example implicit_tenant_leaks :
  answer_demo [ASet 0 true (msg "p") "of default" "m" 0 "" "default" 60] (AGet 1 true (msg "p") "m" "" "acme") = Some "of default"
  ∧ answer_demo [ASet 0 true (msg "p") "of acme" "m" 0 "" "acme" 60] (AGet 1 true (msg "p") "m" "" "acme") = None.
Proof. by vm_compute. Qed.

(** Entries that come from Redis are added without making room: a cache for one entry holds
    two. *)
Example fills_past_its_size :
  (λ p, length (_entries (local p))) <$> pods (run_demo [ASet 0 true (msg "p") "1" "m" 0 "t" "" 60; ASet 0 true (msg "q") "2" "m" 0 "t" "" 60;
    AGet 1 true (msg "p") "m" "t" ""; AGet 1 true (msg "q") "m" "t" ""]) = [1%nat; 2%nat].
Proof. by vm_compute. Qed.
