(* ===== verification/Mcp.v ===== *)
(** * The MCP server ([noema/mcp/server.py])

    JSON-RPC over lines: what is answered to which line, the two tools, and the loop that
    reads standard input.  Parsing and the text of values are parameters; so is the engine
    that a call of [noema_think] builds and runs, as a function on a world [W].  A text that
    is nested too deeply makes the parser raise a [RecursionError], which is not a
    [JSONDecodeError]. *)
From Stdlib Require Import ZArith QArith Lia Bool Ascii String.
From stdpp Require Import base option numbers sets pretty strings list.
From S2P Require Import Prelude Prompts CoreTypes Federation Security Tracer.
Local Open Scope string_scope.
Local Open Scope list_scope.
Local Open Scope nat_scope.

Definition DEFAULT_PROTOCOL_VERSION : string := "2025-06-18".
Definition version : string := "1.3.0".
Definition MCP_SERVER_INFO : json := JObj [("name", JStr "noema"); ("version", JStr version)].

Definition MAX_TEXT : nat := 48000.
Definition _MAX_TITLE : nat := 500.
Definition _MAX_DESC : nat := 100000.
Definition _MAX_TAGS : nat := 100.

Definition text_schema (description : string) : json := JObj [("type", JStr "string"); ("description", JStr description)].

Definition TOOL_SCHEMAS : json := JArr [
  JObj [("name", JStr "noema_think");
        ("description", JStr ("Generate a complete technical solution (architecture, stack, code " +:+ "files, deployment, security notes) for a software task."));
        ("inputSchema", JObj [
           ("type", JStr "object");
           ("properties", JObj [
              ("title", text_schema "Short task title, e.g. 'Real-time chat app'.");
              ("description", text_schema "Optional detailed requirements.");
              ("tags", JObj [("type", JStr "array"); ("items", JObj [("type", JStr "string")]); ("description", JStr "Optional domain tags, e.g. ['api','auth'].")])]);
           ("required", JArr [JStr "title"])])];
  JObj [("name", JStr "noema_stats"); ("description", JStr "Current reasoning statistics (spans, LLM calls, tokens, errors).");
        ("inputSchema", JObj [("type", JStr "object"); ("properties", JObj [])])]].

(** [_CODES], and the code of internal errors *)
Definition code_parse : Z := -32700.
Definition code_invalid_request : Z := -32600.
Definition code_method : Z := -32601.
Definition code_internal : Z := -32603.

(** ** Envelopes *)
Definition _reply (msg_id result : json) : json := JObj [("jsonrpc", JStr "2.0"); ("id", msg_id); ("result", result)].

Definition _error (msg_id : json) (code : Z) (message : string) : json :=
  JObj [("jsonrpc", JStr "2.0"); ("id", msg_id); ("error", JObj [("code", JNum (inject_Z code)); ("message", JStr message)])].

Definition tool_result (text : string) (is_error : bool) : json :=
  JObj [("content", JArr [JObj [("type", JStr "text"); ("text", JStr text)]]); ("isError", JBool is_error)].

Definition _tool_error (message : string) : json := tool_result message true.

(** What [json.loads] makes of a line.  Beside [JSONDecodeError] it raises [RecursionError]
    for lines that are nested too deeply, and a plain [ValueError] for integers of more than
    4300 digits. *)
Inductive parsed := Json (j : json) | Invalid | TooDeep | TooLong.

(** The line is parsed, or the decoder says that it is not JSON. *)
Definition decodes (p : parsed) : Prop := match p with Json _ | Invalid => True | TooDeep | TooLong => False end.

(** A solution of the engine, with the fields that [Solution] leaves out. *)
Record solved := mkSolved { s_id : string; s_solution : Solution; s_deployment : list (string * string) }.

(** The fields of a file in the answer. *)
Record file_info := mkFile { f_name : string; f_language : string; f_description : string; f_lines : nat; f_preview : string }.

Record think_result := mkThink {
  t_id : string; t_title : string; t_quality : string; t_confidence : Q; t_summary : string; t_architecture : string; t_files : list file_info;
  t_deployment : list (string * string); t_performance : list string; t_security : list string;
}.

Fixpoint count_newlines (s : string) : nat :=
  match s with EmptyString => 0 | String a s => (if Ascii.eqb a "010" then 1 else 0) + count_newlines s end.

Section server.
Context {W : Type} (loads : string → parsed) (show : json → string) (show_q : Q → string) (percent : Q → string) (dash dot : string).
(** A run of a fresh engine: a solution, or the name and the text of an exception. *)
Context (think : Task → W → W * result (string * string) solved).
(** The process-wide tracer, and the exception it may raise. *)
Context (tracer : W → result string Tracer).

(** [str(j)] *)
Definition py_str (j : json) : string := match j with JStr s => s | _ => show j end.

Definition task_of (args : list (string * json)) : result (string * string) Task :=
  let title := strip (py_str (default (JStr "") (dget "title" args))) in
  let title := if nonempty title then title else "Untitled task" in
  let description := String.substring 0 _MAX_DESC (py_str (default (JStr "") (dget "description" args))) in
  match default JNull (dget "tags" args) with
  | JArr l => Ok (mkTask "" (String.substring 0 _MAX_TITLE title) description [] None MODERATE (take _MAX_TAGS (map (λ t, String.substring 0 200 (py_str t)) l)))
  | j => if truthy j then Err ("ValueError", "tags must be a list of strings")
         else Ok (mkTask "" (String.substring 0 _MAX_TITLE title) description [] None MODERATE [])
  end.

Definition file_of (b : CodeBlock) : file_info :=
  mkFile (filename b) (language b) (cb_description b) (count_newlines (content b) + 1) (String.substring 0 2000 (content b)).

Definition _think_sync (args : list (string * json)) (w : W) : W * result (string * string) think_result :=
  match task_of args with
  | Err e => (w, Err e)
  | Ok task =>
      match think task w with
      | (w, Err e) => (w, Err e)
      | (w, Ok r) =>
          let s := s_solution r in
          (w, Ok (mkThink (s_id r) (s_title s) (quality_value (quality s)) (CoreTypes.confidence s) (CoreTypes.summary s)
                    (match architecture s with Some a => ap_name a | None => "" end) (map file_of (take 10 (code_blocks s)))
                    (s_deployment r) (take 10 (performance_notes s)) (take 10 (security_notes s))))
      end
  end.

Definition file_line (f : file_info) : string :=
  "- `" +:+ f_name f +:+ "` " +:+ dash +:+ " " +:+ (if nonempty (f_description f) then f_description f else "generated module") +:+ " (" +:+ f_language f +:+ ", "
  +:+ pretty (f_lines f) +:+ " lines)".

Definition _render_think (r : think_result) : string :=
  let lines := ["# " +:+ t_title r;
                "Quality: **" +:+ t_quality r +:+ "** " +:+ dot +:+ " Confidence: " +:+ percent (t_confidence r) +:+ " " +:+ dot +:+ " Solution: `" +:+ t_id r +:+ "`";
                ""; strip (t_summary r)]
    ++ (if nonempty (t_architecture r) then [""; "Architecture: " +:+ t_architecture r] else [])
    ++ match t_files r with [] => [] | fs => [""; "## Files (" +:+ pretty (length fs) +:+ ")"] ++ map file_line fs end
    ++ match t_deployment r with [] => [] | d => [""; "## Deployment"] ++ map (λ kv, "- `" +:+ kv.1 +:+ "`: " +:+ kv.2) (take 8 d) end in
  String.substring 0 MAX_TEXT (join nl lines).

Definition _render_stats (s : trace_stats) : string :=
  join nl ["## Noema statistics"; "- version: " +:+ version; "- total spans: " +:+ pretty (total_spans s); "- LLM calls: " +:+ pretty (llm_calls s);
           "- total tokens: " +:+ show_q (total_tokens s); "- total LLM latency: " +:+ show_q (total_llm_latency_ms s) +:+ " ms"; "- errors: " +:+ pretty (errors s); "";
           "Set NOEMA_LLM__PROVIDER=ollama|openai|anthropic for real LLM reasoning."].

(** ** Calls of tools; [Err]: an exception, with its text *)
Definition run_tool (name : string) (arguments : list (string * json)) (w : W) : W * result string json :=
  if String.eqb name "noema_think" then
    match _think_sync arguments w with
    | (w, Err (kind, text)) => (w, Ok (_tool_error (kind +:+ ": " +:+ text)))
    | (w, Ok r) => (w, Ok (tool_result (_render_think r) false))
    end
  else if String.eqb name "noema_stats" then
    (w, match tracer w with Ok t => Ok (tool_result (_render_stats (get_stats t)) false) | Err e => Err e end)
  else (w, Ok (_tool_error ("Unknown tool: " +:+ name))).

Definition _handle_call (params : json) (w : W) : W * result string json :=
  match params with
  | JObj p =>
      match dget "name" p with
      | Some (JStr name) =>
          match default JNull (dget "arguments" p) with
          | JNull => run_tool name [] w
          | JObj arguments => run_tool name arguments w
          | _ => (w, Ok (_tool_error "Tool arguments must be an object"))
          end
      | _ => (w, Ok (_tool_error "Missing tool name"))
      end
  | _ => (w, Ok (_tool_error "tools/call params must be an object"))
  end.

(** [(msg.get("params") or {}).get("protocolVersion", ...)] *)
Definition protocol_of (params : json) : result string json :=
  if truthy params then
    match params with
    | JObj p => Ok (default (JStr DEFAULT_PROTOCOL_VERSION) (dget "protocolVersion" p))
    | JStr _ => Err "'str' object has no attribute 'get'"
    | JNum q => Err (if Pos.eqb (Qden q) 1 then "'int' object has no attribute 'get'" else "'float' object has no attribute 'get'")
    | JBool _ => Err "'bool' object has no attribute 'get'"
    | JArr _ => Err "'list' object has no attribute 'get'"
    | JNull => Ok (JStr DEFAULT_PROTOCOL_VERSION)
    end
  else Ok (JStr DEFAULT_PROTOCOL_VERSION).

Definition dispatch (method : string) (msg : list (string * json)) (w : W) : W * result string (Z * string + json) :=
  if String.eqb method "initialize" then
    (w, v ← protocol_of (default JNull (dget "params" msg));
        Ok (inr (JObj [("protocolVersion", v); ("capabilities", JObj [("tools", JObj [("listChanged", JBool false)])]); ("serverInfo", MCP_SERVER_INFO)])))
  else if String.eqb method "ping" then (w, Ok (inr (JObj [])))
  else if String.eqb method "tools/list" then (w, Ok (inr (JObj [("tools", TOOL_SCHEMAS)])))
  else if String.eqb method "tools/call" then
    let '(w, r) := _handle_call (default JNull (dget "params" msg)) w in (w, j ← r; Ok (inr j))
  else (w, Ok (inl (code_method, "Method not found: " +:+ method))).

(** A line: the reply, if there is one; [Err]: the exception of the parser. *)
Definition handle_payload (raw : string) (w : W) : W * result string (option json) :=
  match loads raw with
  | TooDeep => (w, Err "RecursionError")
  | TooLong => (w, Err "ValueError")
  | Invalid => (w, Ok (Some (_error JNull code_parse "Parse error: invalid JSON")))
  | Json (JObj msg) =>
      let msg_id := default JNull (dget "id" msg) in
      match dget "method" msg with
      | Some (JStr method) =>
          match msg_id with
          | JNull => (w, Ok None)
          | _ =>
              let '(w, r) := dispatch method msg w in
              (w, Ok (Some (match r with
                            | Ok (inr j) => _reply msg_id j
                            | Ok (inl (c, text)) => _error msg_id c text
                            | Err text => _error msg_id code_internal ("Internal error: " +:+ text)
                            end)))
          end
      | _ => (w, Ok (Some (_error msg_id code_invalid_request "Invalid request")))
      end
  | Json _ => (w, Ok (Some (_error JNull code_parse "Parse error: expected object")))
  end.

(** The replies written, and whether the loop came to the end of its input. *)
Fixpoint read_loop (lines : list string) (w : W) : W * list json * bool :=
  match lines with
  | [] => (w, [], true)
  | line :: lines =>
      match handle_payload line w with
      | (w, Err _) => (w, [], false)
      | (w, Ok reply) => let '(w, out, fin) := read_loop lines w in (w, option_list reply ++ out, fin)
      end
  end.

(** ** Which lines are answered, and with which identifier *)
Definition reply_id (j : json) : option json := match j with JObj d => dget "id" d | _ => None end.

(** A notification (a method without an identifier) gets no reply; what is not an object gets
    one without an identifier, everything else one with its own. *)
Definition expected_id (raw : string) : option json :=
  match loads raw with
  | Json (JObj msg) =>
      match dget "method" msg, default JNull (dget "id" msg) with
      | Some (JStr _), JNull => None
      | _, i => Some i
      end
  | _ => Some JNull
  end.

(** Replies carry a result or an error, never both. *)
Definition well_formed_reply (j : json) : Prop :=
  ∃ i body, j = JObj [("jsonrpc", JStr "2.0"); ("id", i); body] ∧ (body.1 = "result" ∨ body.1 = "error").

(** What a line leads to: the world after it and a reply as expected. *)
Definition answers (w : W) (ex : option json) (r : W * result string (option json)) : Prop :=
  ∃ reply, r.2 = Ok reply ∧ match ex, reply with Some i, Some j => reply_id j = Some i ∧ well_formed_reply j | None, None => r.1 = w | _, _ => False end.

Lemma answers_error w w' i c text : answers w (Some i) (w', Ok (Some (_error i c text))).
Proof. eexists. split; [done|]. split; [done|]. repeat eexists. by right. Qed.

Lemma answers_reply w w' i j : answers w (Some i) (w', Ok (Some (_reply i j))).
Proof. eexists. split; [done|]. split; [done|]. repeat eexists. by left. Qed.

Lemma handle_payload_spec raw w : decodes (loads raw) → answers w (expected_id raw) (handle_payload raw w).
Proof.
  intros Hd. unfold handle_payload, expected_id. destruct (loads raw) as [[|b|q|t|l|msg]| | |]; try apply answers_error; [|done..].
  destruct (dget "method" msg) as [[|b|q|method|l|d]|]; try apply answers_error.
  destruct (default JNull (dget "id" msg)) eqn:Ei; [by exists None|..];
    (destruct (dispatch method msg w) as [w' [[[c text]|j]|text]]; apply answers_error || apply answers_reply).
Qed.

(** C40: Among lines that are parsed or found not to be JSON (none nested too deeply, none
    with an integer of more than 4300 digits), every one that is not a notification is
    answered by exactly one reply with its identifier, in the order of the lines, whatever
    the engine does, and the loop ends with its input. *)
Theorem mcp_answers_in_order lines w : Forall (λ l, decodes (loads l)) lines →
  ∃ w' out, read_loop lines w = (w', out, true) ∧ Forall well_formed_reply out ∧ map reply_id out = map Some (omap expected_id lines).
Proof.
  intros Hl. revert w. induction Hl as [|line lines Hd Hl IH]; intros w; [by exists w, []|].
  destruct (handle_payload_spec line w Hd) as (reply & E & Hr). destruct (handle_payload line w) as [w1 r] eqn:Eh. cbn [fst snd] in *. subst r.
  destruct (IH w1) as (w2 & out & E2 & Hf & Hm). cbn [read_loop]. rewrite Eh, E2. exists w2, (option_list reply ++ out). split; [done|].
  cbn [omap list_omap]. destruct (expected_id line) as [i|], reply as [j|]; try done. destruct Hr as [Hi Hw].
  split; [by constructor|]. change (reply_id j :: map reply_id out = Some i :: map Some (omap expected_id lines)). by rewrite Hi, Hm.
Qed.

(** The engine runs for calls of [noema_think] only. *)
Lemma world_changes raw w : (handle_payload raw w).1 ≠ w →
  ∃ msg p, loads raw = Json (JObj msg) ∧ dget "method" msg = Some (JStr "tools/call") ∧ dget "params" msg = Some (JObj p) ∧ dget "name" p = Some (JStr "noema_think").
Proof.
  unfold handle_payload. destruct (loads raw) as [[|b|q|t|l|msg]| | |]; try done. destruct (dget "method" msg) as [[|b|q|method|l|d]|] eqn:Em; try done.
  intros H. exists msg.
  assert ((dispatch method msg w).1 ≠ w) as Hw by (destruct (default JNull (dget "id" msg)); [done|..]; by destruct (dispatch method msg w) as [w' [[[]|]|]]). clear H. revert Hw. unfold dispatch.
  destruct (String.eqb_spec method "initialize"); [done|]. destruct (String.eqb_spec method "ping"); [done|]. destruct (String.eqb_spec method "tools/list"); [done|].
  destruct (String.eqb_spec method "tools/call") as [->|]; [|done]. unfold _handle_call. destruct (dget "params" msg) as [[| | | | |p]|] eqn:Ep; try done. cbn [default from_option Datatypes.id].
  destruct (dget "name" p) as [[|b|q|name|l|d]|] eqn:En; try done. intros Hw. exists p. split_and!; [done|done|done|].
  destruct (String.eqb_spec name "noema_think") as [->|Hn]; [done|]. exfalso. apply Hw. unfold run_tool. apply String.eqb_neq in Hn. rewrite Hn.
  by destruct (default JNull (dget "arguments" p)); destruct (String.eqb name "noema_stats").
Qed.

(** ** What reaches the engine, and what is sent back *)
Lemma substring_le n t : String.length (String.substring 0 n t) ≤ n.
Proof. revert n. induction t as [|a t IH]; intros [|n]; cbn; [lia..|]. specialize (IH n). lia. Qed.

Lemma substring_nonempty n t : 0 < n → nonempty t = true → nonempty (String.substring 0 n t) = true.
Proof. by destruct n, t; [lia..| |]. Qed.

(** The task of a call is within the limits of the server, and has a title. *)
Lemma task_bounded args t : task_of args = Ok t →
  nonempty (CoreTypes.title t) = true ∧ String.length (CoreTypes.title t) ≤ _MAX_TITLE ∧ String.length (CoreTypes.description t) ≤ _MAX_DESC
  ∧ length (CoreTypes.tags t) ≤ _MAX_TAGS ∧ Forall (λ x, String.length x ≤ 200) (CoreTypes.tags t).
Proof.
  assert (∀ x, nonempty (String.substring 0 _MAX_TITLE (if nonempty x then x else "Untitled task")) = true) as Ht.
  { intros x. apply substring_nonempty; [unfold _MAX_TITLE; lia|]. by destruct (nonempty x) eqn:E. }
  unfold task_of. intros E.
  assert (∃ l, t = mkTask "" (String.substring 0 _MAX_TITLE (if nonempty (strip (py_str (default (JStr "") (dget "title" args)))) then strip (py_str (default (JStr "") (dget "title" args))) else "Untitled task"))
    (String.substring 0 _MAX_DESC (py_str (default (JStr "") (dget "description" args)))) [] None MODERATE (take _MAX_TAGS (map (λ t, String.substring 0 200 (py_str t)) l))) as [l ->].
  { destruct (default JNull (dget "tags" args)) as [|b|q|x|l|d]; try (destruct (truthy _); [done|]; injection E as <-; by exists []). injection E as <-. by exists l. }
  cbn [CoreTypes.title CoreTypes.description CoreTypes.tags]. split_and!; [apply Ht|apply substring_le|apply substring_le|rewrite length_take; lia|].
  apply Forall_take, Forall_forall. intros x [j [-> _]]%list_elem_of_fmap. apply substring_le.
Qed.

Lemma render_bounded r : String.length (_render_think r) ≤ MAX_TEXT.
Proof. apply substring_le. Qed.
End server.

(** ** Runs *)
Definition demo_loads (s : string) : parsed :=
  if String.eqb s "ping" then Json (JObj [("id", JNum 7); ("method", JStr "ping")])
  else if String.eqb s "note" then Json (JObj [("method", JStr "notifications/initialized")])
  else if String.eqb s "old" then Json (JObj [("id", JNum 1); ("method", JStr "initialize"); ("params", JObj [("protocolVersion", JStr "1999-01-01")])])
  else if String.eqb s "[[[" then TooDeep else if String.eqb s "111" then TooLong else Invalid.

Definition run_lines (l : list string) : list json * bool :=
  let '(_, out, fin) := read_loop demo_loads (λ _, "") (λ _, "") (λ _, "") "-" "-" (λ _ (w : nat), (S w, Err ("E", "e"))) (λ _, Err "none") l 0 in (out, fin).

Lemma mcp_answers_in_order_witness : ∃ w' out,
  read_loop demo_loads (λ _, "") (λ _, "") (λ _, "") "-" "-" (λ _ (w : nat), (S w, Err ("E", "e"))) (λ _, Err "none") ["ping"; "note"; "?"] 0 = (w', out, true)
  ∧ Forall well_formed_reply out ∧ map reply_id out = [Some (JNum 7); Some JNull].
Proof. apply (mcp_answers_in_order demo_loads (λ _, "") (λ _, "") (λ _, "") "-" "-" (λ _ (w : nat), (S w, Err ("E", "e"))) (λ _, Err "none") ["ping"; "note"; "?"] 0). repeat constructor. Defined.

(** A line that is nested too deeply, or that has too long an integer, ends the server: the
    lines after it are not answered. *)
Example deep_line_ends_server :
  run_lines ["ping"; "[[["; "ping"] = ([_reply (JNum 7) (JObj [])], false) ∧ run_lines ["ping"; "111"; "ping"] = ([_reply (JNum 7) (JObj [])], false).
Proof. split; reflexivity. Qed.

(** The server agrees to any version of the protocol. *)
Example any_protocol_version : (match (run_lines ["old"]).1 with [JObj [_; _; (_, JObj ((_, v) :: _))]] => Some v | _ => None end) = Some (JStr "1999-01-01").
Proof. reflexivity. Qed.

(** A title that is null becomes the text None. *)
Example null_title : (match task_of (λ j, match j with JNull => "None" | _ => "" end) [("title", JNull)] with Ok t => CoreTypes.title t | Err _ => "" end) = "None".
Proof. reflexivity. Qed.
