(* ===== verification/Grid.v ===== *)
(** * The grid dashboard ([noema/observability/grid.py])

    The view of a fleet: the live workers of Redis ([ArqWorker]), the metrics that each of
    them exposes, and their totals.  The parser of [prometheus_client], the numbers that
    [float] and [int] read, the transport and the clock are parameters. *)
From Stdlib Require Import ZArith QArith Lia Bool Ascii String.
From stdpp Require Import base option numbers sets strings list pretty.
From S2P Require Import Prelude Causal Judge Gate Api Ingestion Security Tracer ArqWorker.
Local Open Scope string_scope.
Local Open Scope list_scope.
Local Open Scope Z_scope.

Definition _REQUEST_TOTAL : string := "noema_http_requests_total".
Definition _LLM_TOKENS : string := "noema_llm_tokens_total".
Definition _LLM_LATENCY : string := "noema_llm_request_duration_seconds".

(** ** Floats *)
Definition fadd (x y : pyfloat) : pyfloat :=
  match x, y with
  | NaN, _ | _, NaN => NaN
  | Fin a, Fin b => Fin (a + b)
  | PosInf, NegInf | NegInf, PosInf => NaN
  | Fin _, z | z, _ => z
  end.
Definition fsum (l : list pyfloat) : pyfloat := foldl fadd (Fin 0) l.

(** [int(x)]: raises for what is not finite. *)
Definition fint (x : pyfloat) : result pyexn Z :=
  match x with Fin q => Ok (Qtrunc q) | NaN => Err ValueError | _ => Err OverflowError end.

(** ** The exposition format *)
Record sample := mkSample { labels : list (string * string); value : pyfloat }.
Definition samples := list (string * list sample).

(** [samples.setdefault(name, []).append(x)] *)
Definition add_sample (d : samples) (name : string) (x : sample) : samples := dset name (default [] (dget name d) ++ [x]) d.

(** [s.split()] *)
Fixpoint words_from (acc s : string) : list string :=
  match s with
  | EmptyString => if nonempty acc then [rev_string acc] else []
  | String a s => if is_space a then (if nonempty acc then rev_string acc :: words_from "" s else words_from "" s) else words_from (String a acc) s
  end.
Definition words (s : string) : list string := words_from "" s.

(** [s.partition(c)]: what is before the first [c], and what is after it if there is one. *)
Fixpoint cut_at (c : ascii) (s : string) : string * option string :=
  match s with
  | EmptyString => ("", None)
  | String a s => if Ascii.eqb a c then ("", Some s) else let '(l, r) := cut_at c s in (String a l, r)
  end.

(** Splitting at a quote that a comma follows. *)
Fixpoint split_labels (s : string) : list string :=
  match s with
  | EmptyString => [""]
  | String a s' =>
      match s' with
      | String b s'' =>
          if Ascii.eqb a "034" && Ascii.eqb b "," then "" :: split_labels s''
          else match split_labels s' with w :: l => String a w :: l | [] => [String a ""] end
      | EmptyString => [String a ""]
      end
  end.

Definition add_label (d : list (string * string)) (chunk : string) : list (string * string) :=
  match cut_at "=" chunk with
  | (key, Some raw) => dset (strip key) (strip_quotes (strip raw)) d
  | (_, None) => d
  end.

(** The name and the labels of a line's first word. *)
Definition name_labels (word : string) : string * list (string * string) :=
  match cut_at "{" word with
  | (name, Some blob) =>
      if ends_with_any ["}"] word
      then (name, foldl add_label [] (split_labels (String.substring 0 (String.length blob - 1) blob)))
      else (word, [])
  | _ => (word, [])
  end.

Section grid.
(** [float(s)] and [int(s)]; [None] for a [ValueError]. *)
Context (float_str : string → option pyfloat) (int_str : string → option Z).
(** The parser of [prometheus_client]; [None] if it is not installed or raises. *)
Context (client_parser : string → option samples).

Definition add_line (d : samples) (line : string) : samples :=
  let line := strip line in
  if negb (nonempty line) || String.prefix "#" line then d
  else match words line with
       | word :: token :: _ =>
           let '(name, ls) := name_labels word in
           match float_str token with Some v => add_sample d name (mkSample ls v) | None => d end
       | _ => d
       end.

Definition _parse_exposition_lines (text : string) : samples := foldl add_line [] (splitlines text).

Definition parse_exposition (text : string) : samples :=
  match client_parser text with Some d => d | None => _parse_exposition_lines text end.

(** ** The view of a node *)
Record NodeView := mkView {
  node_id : string; address : string; v_metrics_port : Z; v_draining : bool; last_heartbeat : Z; reachable : bool; error : string;
  http_requests : Z; http_errors : Z; llm_tokens : pyfloat; v_llm_calls : pyfloat; llm_latency_sum_s : pyfloat; scrape_ms : Q;
}.

(** [int(node.get(k, "0") or 0)] *)
Definition int_field (k : string) (node : list (string * string)) : result pyexn Z :=
  let t := default "0" (dget k node) in
  if nonempty t then match int_str t with Some n => Ok n | None => Err ValueError end else Ok 0.

Definition is_error_status (x : sample) : bool :=
  let st := default "" (dget "status" (labels x)) in String.prefix "4" st || String.prefix "5" st.

(** The loop over the requests: their number and the number of failed ones. *)
Fixpoint fold_requests (l : list sample) (acc : Z * Z) : result pyexn (Z * Z) :=
  match l with
  | [] => Ok acc
  | x :: l =>
      n ← fint (value x);
      fold_requests l (acc.1 + n, if is_error_status x then acc.2 + n else acc.2)
  end.

Definition metric (name : string) (d : samples) : list sample := default [] (dget name d).

Definition _fold_samples (v : NodeView) (d : samples) : result pyexn NodeView :=
  r ← fold_requests (metric _REQUEST_TOTAL d) (http_requests v, http_errors v);
  Ok (mkView (node_id v) (address v) (v_metrics_port v) (v_draining v) (last_heartbeat v) (reachable v) (error v) r.1 r.2
        (foldl fadd (llm_tokens v) (map value (metric _LLM_TOKENS d)))
        (foldl fadd (v_llm_calls v) (map value (metric (_LLM_LATENCY +:+ "_count") d)))
        (foldl fadd (llm_latency_sum_s v) (map value (metric (_LLM_LATENCY +:+ "_sum") d))) (scrape_ms v)).

Definition metrics_url (addr : string) (port : Z) : string := "http://" +:+ addr +:+ ":" +:+ pretty port +:+ "/metrics".

(** The text at an address, or the name and the text of an exception; and how long it took. *)
Context (fetch : string → result (string * string) string * Q).

Definition _view (node : list (string * string)) : result pyexn NodeView :=
  hb ← int_field "last_heartbeat" node;
  port ← int_field "metrics_port" node;
  let id := default "" (dget "node_id" node) in
  let addr := default "" (dget "hostname" node) in
  let drain := bool_decide (dget "draining" node = Some "1") in
  let view reach err took := mkView id addr port drain hb reach err 0 0 (Fin 0) (Fin 0) (Fin 0) took in
  if negb (nonempty addr) || (port =? 0) then Ok (view false "no metrics endpoint advertised" 0%Q)
  else
    let '(r, took) := fetch (metrics_url addr port) in
    match r with
    | Err (kind, text) => Ok (view false (kind +:+ ": " +:+ text) (round1 (took * 1000)))
    | Ok text => _fold_samples (view true "" (round1 (took * 1000))) (parse_exposition text)
    end.

(** [llm_latency_avg_ms] and [error_rate], for what is finite. *)
Definition llm_latency_avg_ms (v : NodeView) : option Q :=
  match v_llm_calls v, llm_latency_sum_s v with
  | Fin n, Fin t => Some (if Qeq_bool n 0 then 0 else round1 (t / n * 1000))%Q
  | _, _ => None
  end.
Definition error_rate (v : NodeView) : Q :=
  if (http_requests v =? 0)%Z then 0%Q else py_round4 (inject_Z (http_errors v) / inject_Z (http_requests v)).

Record totals := mkTotals {
  nodes_total : nat; nodes_reachable : nat; nodes_draining : nat; tot_requests : Z; tot_errors : Z; tot_tokens : pyfloat; tot_calls : pyfloat;
}.

Definition sumZ (l : list Z) : Z := foldl Z.add 0 l.

(** [snapshot]: Redis answers with the nodes, or raises. *)
Definition snapshot (nodes : result pyexn (list (list (string * string)))) : result pyexn (list NodeView * totals) :=
  ns ← nodes;
  views ← mapM _view ns;
  let reach := List.filter reachable views in
  Ok (views, mkTotals (length views) (length reach) (length (List.filter v_draining views)) (sumZ (map http_requests reach)) (sumZ (map http_errors reach))
        (fsum (map llm_tokens reach)) (fsum (map v_llm_calls reach))).

(** ** The sums *)
Definition finite (x : sample) : Prop := match value x with Fin _ => True | _ => False end.
Definition amount (x : sample) : Z := match value x with Fin q => Qtrunc q | _ => 0 end.

Fixpoint total (l : list sample) : Z := match l with [] => 0 | x :: l => amount x + total l end.

(** The loop counts all requests and the failed ones, if the counters are finite; otherwise it
    raises. *)
Lemma fold_requests_spec l a b :
  (Forall finite l → fold_requests l (a, b) = Ok (a + total l, b + total (List.filter is_error_status l)))
  ∧ (¬ Forall finite l → ∃ e, fold_requests l (a, b) = Err e).
Proof.
  revert a b. induction l as [|x l IH]; intros a b.
  - split; [intros _; cbn; by rewrite !Z.add_0_r|]. intros []. constructor.
  - split.
    + intros [Hx Hl]%Forall_cons. cbn [fold_requests List.filter total]. unfold finite, fint, amount in *. destruct (value x) as [q| | |] eqn:Ev; try done.
      cbn [mbind result_bind]. rewrite (proj1 (IH _ _) Hl). unfold amount. destruct (is_error_status x); cbn [total fst snd]; unfold amount; rewrite ?Ev; apply f_equal, f_equal2; lia.
    + intros Hn. cbn [fold_requests]. unfold fint. destruct (value x) as [q| | |] eqn:Ev; try (eexists; done). cbn [mbind result_bind].
      apply (IH _ _). intros Hl. apply Hn. constructor; [|done]. unfold finite. by rewrite Ev.
Qed.

Lemma total_filter l : Forall (λ x, 0 <= amount x) l → 0 <= total (List.filter is_error_status l) <= total l.
Proof. induction 1 as [|x l Hx Hl IH]; cbn [List.filter total]; [lia|]. destruct (is_error_status x); cbn [total]; lia. Qed.

(** What a node exposes, if it answers. *)
Definition exposed (h : NodeHeartbeat) : option (list sample) :=
  if negb (nonempty (hostname h)) || (metrics_port h =? 0) then None
  else match (fetch (metrics_url (hostname h) (metrics_port h))).1 with Ok text => Some (metric _REQUEST_TOTAL (parse_exposition text)) | Err _ => None end.

(** The view of a heartbeat: its own data, the sums of what it exposes, or an explanation. *)
Record shows (b : NodeHeartbeat * Z * bool) (v : NodeView) : Prop := {
  sh_id : node_id v = h_node_id b.1.1;
  sh_address : address v = hostname b.1.1;
  sh_port : v_metrics_port v = metrics_port b.1.1;
  sh_draining : v_draining v = b.2;
  sh_heartbeat : last_heartbeat v = b.1.2;
  sh_counts : match exposed b.1.1 with
              | Some l => reachable v = true ∧ error v = "" ∧ http_requests v = total l ∧ http_errors v = total (List.filter is_error_status l)
              | None => reachable v = false ∧ nonempty (error v) = true ∧ http_requests v = 0 ∧ http_errors v = 0
              end;
}.

(** The record of a live worker, as [list_active_workers] returns it. *)
Definition record_of (b : NodeHeartbeat * Z * bool) : list (string * string) := dset "key" (_key b.1.1) (beat_mapping b.1.1 b.1.2 b.2).

(** [int] reads what [str] wrote. *)
Hypothesis int_str_pretty : ∀ z : Z, int_str (pretty z) = Some z.

Hypothesis int_str_empty : int_str "" = None.

Lemma pretty_nonempty (z : Z) : nonempty (pretty z) = true.
Proof. unfold nonempty. destruct (String.eqb_spec (pretty z) "") as [E|]; [|done]. pose proof (int_str_pretty z) as H. by rewrite E, int_str_empty in H. Qed.

Lemma view_of_heartbeat b : (∀ l, exposed b.1.1 = Some l → Forall finite l) → ∃ v, _view (record_of b) = Ok v ∧ shows b v.
Proof.
  destruct b as [[h t] d]. cbn [fst snd]. intros Hf. unfold _view, int_field.
  assert (dget "last_heartbeat" (record_of (h, t, d)) = Some (pretty t)) as -> by done.
  assert (dget "metrics_port" (record_of (h, t, d)) = Some (pretty (metrics_port h))) as -> by done.
  assert (dget "node_id" (record_of (h, t, d)) = Some (h_node_id h)) as -> by done.
  assert (dget "hostname" (record_of (h, t, d)) = Some (hostname h)) as -> by done.
  assert (bool_decide (dget "draining" (record_of (h, t, d)) = Some "1") = d) as -> by (by destruct d).
  cbn [default from_option Datatypes.id]. rewrite !pretty_nonempty, !int_str_pretty. cbn [mbind result_bind].
  unfold exposed in Hf.
  destruct (negb (nonempty (hostname h)) || (metrics_port h =? 0)) eqn:Eu.
  { eexists. split; [done|]. split; try done. unfold exposed. cbn [fst]. by rewrite Eu. }
  destruct (fetch (metrics_url (hostname h) (metrics_port h))) as [[text|[k e]] took] eqn:Ef; cbn [fst] in Hf.
  - specialize (Hf _ eq_refl). unfold _fold_samples. cbn [http_requests http_errors]. rewrite (proj1 (fold_requests_spec _ _ _) Hf). cbn [mbind result_bind].
    eexists. split; [done|]. split; try done. unfold exposed. cbn [fst]. rewrite Eu, Ef. done.
  - eexists. split; [done|]. split; try done. unfold exposed. cbn [fst]. rewrite Eu, Ef. cbn [fst reachable error http_requests http_errors]. split_and!; try done. by destruct k.
Qed.

Lemma views_of_heartbeats beats : Forall (λ b, ∀ l, exposed b.1.1 = Some l → Forall finite l) beats →
  ∃ views, mapM _view (map record_of beats) = Ok views ∧ Forall2 shows beats views.
Proof.
  induction 1 as [|b beats Hb _ (views & E & Hv)]; [by exists []|]. destruct (view_of_heartbeat b Hb) as (v & Ev & Hs).
  exists (v :: views). split; [|by constructor]. cbn [map mapM]. rewrite Ev. cbn [mbind result_bind]. by rewrite E.
Qed.

Lemma foldl_add_acc l a : foldl Z.add a l = a + foldl Z.add 0 l.
Proof. revert a. induction l as [|y l IH]; intros a; [cbn; lia|]. change (foldl Z.add (a + y) l = a + foldl Z.add y l). rewrite (IH (a + y)), (IH y). lia. Qed.

Lemma sumZ_cons x l : sumZ (x :: l) = x + sumZ l.
Proof. apply (foldl_add_acc l x). Qed.

(** Nodes that did not answer add nothing. *)
Lemma reachable_sums beats views : Forall2 shows beats views →
  sumZ (map http_requests (List.filter reachable views)) = sumZ (map http_requests views)
  ∧ sumZ (map http_errors (List.filter reachable views)) = sumZ (map http_errors views).
Proof.
  induction 1 as [|b v beats views Hs _ [IH1 IH2]]; [done|]. cbn [List.filter map]. pose proof (sh_counts _ _ Hs) as Hc. rewrite !sumZ_cons.
  destruct (exposed b.1.1); destruct Hc as (-> & _ & E1 & E2); cbn [map]; rewrite ?sumZ_cons, ?IH1, ?IH2; lia.
Qed.

Lemma errors_within_requests beats views : Forall (λ b, ∀ l, exposed b.1.1 = Some l → Forall (λ x, 0 <= amount x) l) beats → Forall2 shows beats views →
  0 <= sumZ (map http_errors views) <= sumZ (map http_requests views).
Proof.
  intros Hb Hv. induction Hv as [|b v beats views Hs _ IH]; [done|]. apply Forall_cons in Hb as [Hb Hbs]. specialize (IH Hbs). cbn [map]. rewrite !sumZ_cons.
  pose proof (sh_counts _ _ Hs) as Hc. destruct (exposed b.1.1) as [l|]; destruct Hc as (_ & _ & -> & ->); [|lia]. pose proof (total_filter l (Hb l eq_refl)). lia.
Qed.

(** The dashboard shows the fleet.  For workers that have published a heartbeat and whose request
    counters are finite, the snapshot exists, whatever the transport does: it has one view
    per worker in their order, with the worker's own data and the sums of what it exposes or
    an explanation why there are none; the totals count all of them, and no more errors than
    requests if no counter is negative. *)
Theorem snapshot_shows_fleet beats : Forall (λ b, ∀ l, exposed b.1.1 = Some l → Forall finite l) beats →
  ∃ views t, snapshot (Ok (map record_of beats)) = Ok (views, t) ∧ Forall2 shows beats views
  ∧ nodes_total t = length beats ∧ (nodes_reachable t <= nodes_total t)%nat
  ∧ tot_requests t = sumZ (map http_requests views) ∧ tot_errors t = sumZ (map http_errors views)
  ∧ (Forall (λ b, ∀ l, exposed b.1.1 = Some l → Forall (λ x, 0 <= amount x) l) beats → 0 <= tot_errors t <= tot_requests t).
Proof.
  intros Hb. destruct (views_of_heartbeats beats Hb) as (views & E & Hv). destruct (reachable_sums _ _ Hv) as [E1 E2].
  unfold snapshot. cbn [mbind result_bind]. rewrite E. eexists _, _. split; [reflexivity|]. cbn [nodes_total nodes_reachable tot_requests tot_errors].
  split_and!; [done|symmetry; by eapply Forall2_length|apply filter_length_le|done|done|]. intros Hp. rewrite E1, E2. exact (errors_within_requests beats views Hp Hv).
Qed.
End grid.

(** ** Concrete nodes *)
Definition demo_int (s : string) : option Z := if nonempty s then Regex.digits_value s 0 else None.
Definition demo_float (s : string) : option pyfloat := if String.eqb s "NaN" then Some NaN else Fin <$> Regex.float_of s.
Definition demo_parse : string → samples := parse_exposition demo_float (λ _, None).

(** A line with labels, a comment, and the status of requests. *)
Example parse_lines :
  let q := String "034" "" in let nl := String "010" "" in
  _parse_exposition_lines demo_float ("# HELP x" +:+ nl +:+ "x_total{method=" +:+ q +:+ "GET" +:+ q +:+ ",status=" +:+ q +:+ "500" +:+ q +:+ "} 3 1700" +:+ nl +:+ "x_total 2")
  = [("x_total", [mkSample [("method", "GET"); ("status", "500")] (Fin (3 + 0 / 1)); mkSample [] (Fin (2 + 0 / 1))])].
Proof. vm_compute. reflexivity. Qed.

(** A label with a space: the line is cut inside of the label and the sample is lost. *)
Example label_with_space_is_lost :
  let q := String "034" "" in _parse_exposition_lines demo_float ("x_total{path=" +:+ q +:+ "/a b" +:+ q +:+ "} 3") = [].
Proof. vm_compute. reflexivity. Qed.

Definition demo_snapshot (text : string) (nodes : result pyexn (list (list (string * string)))) :=
  snapshot demo_float demo_int (λ _, None) (λ _, (Ok text, 0%Q)) nodes.

(** [snapshot] says that it never raises: it does for a heartbeat that is not a number, for a
    counter that is not finite, and when Redis does not answer. *)
Example snapshot_raises :
  demo_snapshot "" (Ok [[("node_id", "n"); ("last_heartbeat", "soon")]]) = Err ValueError
  ∧ demo_snapshot "noema_http_requests_total NaN" (Ok [[("hostname", "h"); ("metrics_port", "9")]]) = Err ValueError
  ∧ demo_snapshot "" (Err RuntimeError) = Err RuntimeError.
Proof. vm_compute. done. Qed.
