(* ===== verification/Grpc.v ===== *)
(** * The gRPC service ([noema/grpc/server.py])

    Requests become tasks, and a streamed run of the engine is a producer that puts its
    steps into a bounded queue and a consumer that sends them to the client.  The engine is
    a parameter: the steps it reports, in the order of their puts, and how it ends. *)
From Stdlib Require Import ZArith QArith Lia Bool Ascii String.
From stdpp Require Import base option numbers sets strings list.
From S2P Require Import Prelude CoreTypes Degradation NeuroSymbolic.
Local Open Scope string_scope.
Local Open Scope list_scope.
Local Open Scope nat_scope.

(** ** Requests *)
Record grpc_requirement := mkGrpcReq { g_category : string; g_description : string; g_priority : Z; g_constraints : list string }.

Record ThinkRequest := mkRequest {
  r_task_id : string; r_title : string; r_description : string; r_complexity : string; r_tags : list string; r_tenant_id : string;
  r_requirements : list grpc_requirement;
}.

(** [TaskComplexity(value)] *)
Definition complexity_of (s : string) : option TaskComplexity :=
  List.find (λ c, String.eqb (complexity_value c) s) [TRIVIAL; SIMPLE; MODERATE; COMPLEX; EXTREME].

(** The priority of a requirement is validated. *)
Definition requirement_of (r : grpc_requirement) : result pyexn Requirement :=
  if ((1 <=? g_priority r) && (g_priority r <=? 10))%Z then Ok (mkRequirement (g_category r) (g_description r) (g_priority r) []) else Err ValueError.

(** [new_id]: the identifier the model generates. *)
Definition _request_to_task (new_id : string) (r : ThinkRequest) : result pyexn Task :=
  c ← (if nonempty (r_complexity r) then match complexity_of (r_complexity r) with Some c => Ok c | None => Err ValueError end else Ok MODERATE);
  reqs ← mapM requirement_of (r_requirements r);
  Ok (mkTask new_id (r_title r) (r_description r) reqs None c (r_tags r)).

(** ** The unary call *)
Record ThinkResponse := mkResponse {
  p_solution_id : string; p_task_id : string; p_title : string; p_summary : string; p_quality : string; p_confidence : Q; p_blocks : nat; p_duration : Q;
}.

(** A solution with its identifier and the duration of the thought, or the text of an
    exception; [Err] is a call aborted with [INTERNAL]. *)
Definition Think (error_text : pyexn → string) (think : Task → result string (string * Solution * Q)) (new_id : string) (r : ThinkRequest) : result string ThinkResponse :=
  match _request_to_task new_id r with
  | Err e => Err (error_text e)
  | Ok task =>
      match think task with
      | Err text => Err text
      | Ok (sid, s, duration) =>
          Ok (mkResponse sid (CoreTypes.task_id s) (s_title s) (CoreTypes.summary s) (quality_value (quality s)) (CoreTypes.confidence s) (length (code_blocks s)) duration)
      end
  end.

(** ** The stream *)
Record ThinkStatus := mkStatus { stage : string; status : string; progress : Q; message : string; correlation_id : string }.

Inductive step_event :=
| StepStart (name label : string) (completed total : nat)
| StepEnd (name result : string) (completed total : nat).

Inductive ending := Solved (id : string) | Raised (text : string).

(** [done / total if total else z] *)
Definition ratio (z : Q) (completed total : nat) : Q :=
  match total with O => z | _ => (inject_Z (Z.of_nat completed) / inject_Z (Z.of_nat total))%Q end.

Definition status_of_event (cid : string) (e : step_event) : ThinkStatus :=
  match e with
  | StepStart name label n total => mkStatus name "running" (ratio 0 n total) label cid
  | StepEnd name result n total => mkStatus name (if String.prefix "FAILED" result then "failed" else "ok") (ratio 1 n total) (String.substring 0 200 result) cid
  end.

Definition last_status (cid : string) (e : ending) : ThinkStatus :=
  match e with
  | Solved id => mkStatus "completed" "ok" 1 ("Solution: " +:+ id) cid
  | Raised text => mkStatus "error" "failed" 1 text cid
  end.

(** What the run of [_run_think] puts into the queue. *)
Definition script (cid : string) (events : list step_event) (e : ending) : list ThinkStatus := map (status_of_event cid) events ++ [last_status cid e].

Definition terminal (s : ThinkStatus) : bool := String.eqb (stage s) "completed" || String.eqb (stage s) "error".

Definition maxsize : nat := 64.

(** [todo]: what the run has still to put; [closed]: the generator has ended, and cancelled the
    run. *)
Record stream := mkStream { todo : list ThinkStatus; queue : list ThinkStatus; sent : list ThinkStatus; closed : bool }.

Inductive action := Put | Get | Leave.     (* [Leave]: the client goes *)

Definition stream_step (s : stream) (a : action) : option stream :=
  if closed s then None
  else match a with
       | Put => match todo s with
                | x :: l => if length (queue s) <? maxsize then Some (mkStream l (queue s ++ [x]) (sent s) false) else None
                | [] => None
                end
       | Get => match queue s with x :: q => Some (mkStream (todo s) q (sent s ++ [x]) (terminal x)) | [] => None end
       | Leave => Some (mkStream (todo s) (queue s) (sent s) true)
       end.

Definition stream_init (l : list ThinkStatus) : stream := mkStream l [] [] false.

(** [ThinkStream], up to the stream: [correlation_id = request.task_id or task.id] *)
Definition ThinkStream (new_id : string) (r : ThinkRequest) (run : Task → list step_event * ending) : result pyexn stream :=
  task ← _request_to_task new_id r;
  let cid := if nonempty (r_task_id r) then r_task_id r else id task in
  let '(events, e) := run task in
  Ok (stream_init (script cid events e)).

(** ** The other calls *)
Record MetricsResponse := mkMetricsResponse { m_processed : Z; m_successful : Z; m_failed : Z; m_rate : Q; m_calls : Z; m_refinements : Z }.

(** [get_metrics] of the neuro-symbolic engine, if there is one, with its success rate. *)
Definition GetMetrics (ns : option (metrics * Q)) : MetricsResponse :=
  match ns with
  | Some (m, rate) => mkMetricsResponse (tasks_processed m) (tasks_successful m) (tasks_failed m) rate (total_llm_calls m) (total_refinements m)
  | None => mkMetricsResponse 0 0 0 0 0 0
  end.

(** Cancelled or not, the task and a status. *)
Definition CancelTask {V} (mgr : option (Cancellation.CancellationManager (V := V))) (task_id : string) : bool * string * string * option (Cancellation.CancellationManager (V := V)) :=
  match mgr with
  | None => (false, task_id, "not_found", None)
  | Some m => let '(b, m) := Cancellation.cancel task_id m in (b, task_id, if b : bool then "cancelled" else "not_found", Some m)
  end.

(** ** The stream is complete *)
Record stream_inv (l : list ThinkStatus) (s : stream) : Prop := {
  si_all : sent s ++ queue s ++ todo s = l;
  si_room : length (queue s) <= maxsize;
}.

Lemma stream_step_inv l s a s' : stream_inv l s → stream_step s a = Some s' → stream_inv l s'.
Proof.
  intros [H1 H2]. unfold stream_step. destruct (closed s); [done|]. destruct a.
  - destruct (todo s) as [|x t]; [done|]. destruct (Nat.ltb_spec (length (queue s)) maxsize); [|done]. intros [= <-].
    split; cbn [sent queue todo]; [by rewrite <- app_assoc|]. rewrite length_app. cbn [List.length]. lia.
  - destruct (queue s) as [|x q]; [done|]. intros [= <-]. split; cbn [sent queue todo]; [by rewrite <- app_assoc|]. cbn in H2. lia.
  - by intros [= <-].
Qed.

(** Only the last status of a script ends the stream, if no step is named like an end. *)
Definition plain_steps (events : list step_event) : Prop :=
  Forall (λ e, match e with StepStart n _ _ _ | StepEnd n _ _ _ => n ≠ "completed" ∧ n ≠ "error" end) events.

Lemma plain_not_terminal cid e : (match e with StepStart n _ _ _ | StepEnd n _ _ _ => n ≠ "completed" ∧ n ≠ "error" end) → terminal (status_of_event cid e) = false.
Proof. unfold terminal. destruct e as [n lab k t|n r k t]; intros [H1%String.eqb_neq H2%String.eqb_neq]; cbn [status_of_event stage]; by rewrite H1, H2. Qed.

Lemma terminal_is_last cid events e pre x post : plain_steps events → script cid events e = pre ++ x :: post → terminal x = true → post = [].
Proof.
  intros Hp E Hx. destruct (decide (post = [])) as [|Hn]; [done|exfalso]. destruct (exists_last Hn) as (post' & z & ->).
  unfold script in E. rewrite app_comm_cons, app_assoc in E. apply app_inj_tail in E as [E _].
  assert (x ∈ map (status_of_event cid) events) as Hin by (rewrite E; set_solver). apply list_elem_of_fmap in Hin as (ev & -> & Hev).
  unfold plain_steps in Hp. rewrite Forall_forall in Hp. by rewrite plain_not_terminal in Hx by (by apply Hp).
Qed.

(** Nothing is left when the stream is closed, and something before. *)
Definition to_the_end (l : list ThinkStatus) (s : stream) : Prop := if closed s then sent s = l else queue s ++ todo s ≠ [].

Lemma to_the_end_step cid events e s a s' : plain_steps events → a ≠ Leave → let l := script cid events e in
  stream_inv l s → to_the_end l s → stream_step s a = Some s' → to_the_end l s'.
Proof.
  intros Hp Ha l [H1 _] Ht. unfold stream_step, to_the_end in *. destruct (closed s); [done|]. destruct a; [| |done].
  - destruct (todo s) as [|x t]; [done|]. destruct (length (queue s) <? maxsize); [|done]. intros [= <-]. cbn [closed queue todo]. rewrite <- app_assoc. by destruct (queue s).
  - destruct (queue s) as [|x q]; [done|]. intros [= <-]. cbn [closed sent queue todo]. destruct (terminal x) eqn:Ex.
    + pose proof (terminal_is_last cid events e (sent s) x (q ++ todo s) Hp (eq_sym H1) Ex) as En. by rewrite <- H1, <- app_comm_cons, En.
    + intros En. rewrite <- app_comm_cons, En in H1. unfold l, script in H1. apply app_inj_tail in H1 as [_ ->]. by destruct e.
Qed.

Definition measure (s : stream) : nat := 2 * length (todo s) + length (queue s) + (if closed s then 0 else 1).

Lemma measure_decreases s a s' : stream_step s a = Some s' → measure s' < measure s.
Proof.
  unfold stream_step, measure. destruct (closed s); [done|]. destruct a.
  - destruct (todo s) as [|x t]; [done|]. destruct (length (queue s) <? maxsize); [|done]. intros [= <-]. cbn [closed queue todo List.length]. rewrite length_app. cbn [List.length]. lia.
  - destruct (queue s) as [|x q]; [done|]. intros [= <-]. cbn [closed queue todo List.length]. destruct (terminal x); lia.
  - intros [= <-]. cbn [closed queue todo]. lia.
Qed.

(** A stream that nobody leaves sends everything, in order.  At any time what was sent is a
    beginning of what the run reports, and the queue is within its limit; a step is possible
    until the stream is closed, there are at most two steps for every status and one more,
    and a closed stream has sent everything, the end of the run last, if no step is named
    like an end. *)
Theorem stream_complete cid events e l s : plain_steps events → exec stream_step (stream_init (script cid events e)) l = Some s → Leave ∉ l →
  sent s `prefix_of` script cid events e ∧ length (queue s) <= maxsize
  ∧ (closed s = false → is_Some (stream_step s Get) ∨ is_Some (stream_step s Put))
  ∧ length l <= 2 * S (length events) + 1 ∧ (closed s = true → sent s = script cid events e).
Proof.
  intros Hp Hr Hl. set (k := script cid events e) in *.
  assert (stream_inv k s ∧ to_the_end k s) as [[H1 H2] Ht].
  { eapply (exec_invariant stream_step (λ s, stream_inv k s ∧ to_the_end k s) (λ a, a ≠ Leave)); [|apply Forall_forall; intros a Ha Ea; subst a; exact (Hl Ha)| |exact Hr].
    - intros s0 a s1 [Hi He] Ha Hs. split; [by eapply stream_step_inv|by eapply to_the_end_step].
    - split; [split; cbn; [done|lia]|]. cbn. unfold k, script. by destruct (map _ events). }
  assert (length l + measure s <= measure (stream_init k)) as Hm.
  { eapply (exec_bound stream_step (λ _, True) measure); [|done|exact Hr]. intros s0 a s1 _ Hs. split; [done|by apply measure_decreases in Hs]. }
  split_and!; [by exists (queue s ++ todo s)|done| | |].
  - intros Hc. unfold to_the_end in Ht. rewrite Hc in Ht. unfold stream_step. rewrite Hc. destruct (queue s) as [|x q]; [|left; by eexists].
    right. destruct (todo s) as [|x t]; [done|]. by eexists.
  - unfold measure, stream_init, k, script in Hm. cbn [todo queue closed List.length] in Hm. rewrite length_app, length_map in Hm. cbn [List.length] in Hm. lia.
  - intros Hc. unfold to_the_end in Ht. by rewrite Hc in Ht.
Qed.

(** ** Runs *)
Definition demo_events : list step_event := [StepStart "plan" "Planning" 0 1; StepEnd "plan" "a plan" 1 1].
Definition demo_stream (events : list step_event) : stream := stream_init (script "c" events (Solved "s1")).
Definition demo_run : list action := [Put; Get; Put; Put; Get; Get].

Lemma demo_run_exec : exec stream_step (stream_init (script "c" demo_events (Solved "s1"))) demo_run = Some (mkStream [] [] (script "c" demo_events (Solved "s1")) true).
Proof. reflexivity. Qed.

Lemma stream_complete_witness : length demo_run <= 2 * S (length demo_events) + 1 ∧ sent (mkStream [] [] (script "c" demo_events (Solved "s1")) true) = script "c" demo_events (Solved "s1").
Proof.
  pose proof (stream_complete "c" demo_events (Solved "s1") demo_run (mkStream [] [] (script "c" demo_events (Solved "s1")) true)) as H.
  destruct H as (_ & _ & _ & H1 & H2); [repeat constructor; discriminate|exact demo_run_exec|unfold demo_run; set_solver|]. by split; [|apply H2].
Defined.

(** A step that is called like an end of the stream ends it: the client sees neither the rest
    nor the solution. *)
Example step_named_completed : (λ s, (map stage (sent s), closed s)) <$> exec stream_step (demo_stream [StepStart "completed" "" 0 2; StepStart "x" "" 1 2]) [Put; Get] = Some (["completed"], true).
Proof. reflexivity. Qed.

(** A requirement without a priority has priority 0 on the wire, which the model refuses; and
    the constraints, the tenant and the identifier of a request do not reach the task. *)
Example default_priority_refused : _request_to_task "n" (mkRequest "" "t" "" "" [] "" [mkGrpcReq "c" "d" 0 []]) = Err ValueError.
Proof. reflexivity. Qed.

Example request_fields_lost :
  _request_to_task "n" (mkRequest "task-7" "t" "d" "" [] "acme" [mkGrpcReq "c" "d" 5 ["hard limit"]]) = _request_to_task "n" (mkRequest "" "t" "d" "" [] "" [mkGrpcReq "c" "d" 5 []]).
Proof. reflexivity. Qed.
