(* ===== verification/Admin.v ===== *)
(** * The admin API ([noema/api/admin.py])

    The history of tasks from the audit log, the metrics of a tenant, the cached metrics of
    the engine, and inclusion proofs: the endpoint that returns one and the endpoint that
    checks one, over [AuditLog] and [MerkleProof].  [Err] is the status of an
    [HTTPException]; [audit.query] is a parameter with what [AuditLog] shows of it. *)
From Stdlib Require Import ZArith QArith Lia Bool Ascii String.
From stdpp Require Import base option numbers sets strings sorting list.
From S2P Require Import Prelude Symbolic MerkleProof AuditLog.
Local Open Scope string_scope.
Local Open Scope list_scope.
Local Open Scope nat_scope.

(** ** Cached metrics *)
Definition _METRICS_CACHE_TTL : Q := 5.

(** The last result with the time of its computation. *)
Definition metrics_cache := option (json * Q).

(** [compute]: the metrics of the engine, or nothing while the service starts. *)
Definition admin_metrics (now : Q) (compute : option json) (c : metrics_cache) : metrics_cache * result Z json :=
  let fresh := match compute with Some j => (Some (j, now), Ok j) | None => (c, Err 503%Z) end in
  match c with
  | Some (j, at_) => if truthy j && Qltb (now - at_) _METRICS_CACHE_TTL then (c, Ok j) else fresh
  | None => fresh
  end.

(** Metrics that are served are less than five seconds old. *)
Lemma metrics_are_recent now compute c c' j : admin_metrics now compute c = (c', Ok j) →
  ∃ at_, c' = Some (j, at_) ∧ (at_ = now ∨ (now - at_ < _METRICS_CACHE_TTL)%Q).
Proof.
  unfold admin_metrics. destruct c as [[k at_]|].
  - destruct (truthy k && Qltb (now - at_) _METRICS_CACHE_TTL) eqn:E.
    + intros [= <- <-]. apply andb_true_iff in E as [_ E%Qltb_lt]. eauto.
    + destruct compute; [|done]. intros [= <- <-]. eauto.
  - destruct compute; [|done]. intros [= <- <-]. eauto.
Qed.

(** ** The history *)
Section history.
(** [audit.query(tenant_id=..., limit=...)] *)
Context (query : string → nat → result pyexn (list obj)).

(** The loop over the files, which ends when there are enough events; a tenant whose query
    raises is left out. *)
Fixpoint collect_tenants (stems : list string) (max_results : nat) (acc : list obj) : list obj :=
  match stems with
  | [] => acc
  | tenant :: stems =>
      match query tenant max_results with
      | Err _ => collect_tenants stems max_results acc
      | Ok events =>
          let acc := acc ++ events in
          if max_results <=? length acc then acc else collect_tenants stems max_results acc
      end
  end.

(** The newest first; equal timestamps keep their order. *)
Definition newest_first (l : list obj) : list obj := stable_sort (λ r1 r2, negb (String.leb (stamp_of r1) (stamp_of r2))) l.

(** [stems]: the names of the files of the directory, if it exists. *)
Definition _query_all_tenants (stems : list string) (max_results : nat) : list obj :=
  take max_results (newest_first (collect_tenants stems max_results [])).

Definition admin_task_history (audit : bool) (stems : list string) (tenant : option string) (limit offset : nat) : result Z (list obj) :=
  if negb audit then Err 503%Z
  else
    match tenant with
    | Some t =>
        if nonempty t
        then match query t (limit + offset) with Ok events => Ok (take limit (drop offset events)) | Err _ => Err 500%Z end
        else Ok (take limit (drop offset (_query_all_tenants stems (limit + offset))))
    | None => Ok (take limit (drop offset (_query_all_tenants stems (limit + offset))))
    end.
End history.

(** ** Metrics of a tenant *)
Record quota_view := mkQuota { monthly_budget_usd : Q; max_concurrent_tasks : Z; max_tasks_per_hour : Z }.
Record tenant_view := mkTenant { tv_tenant : string; tv_features : obj; tv_quota : option quota_view; recent_task_count : nat }.

(** Each service may be absent ([None]) or raise. *)
Definition admin_tenant_metrics (tenant : string) (ff : option (result pyexn obj)) (qm : option (result pyexn quota_view))
    (audit : option (nat → result pyexn (list obj))) : tenant_view :=
  mkTenant tenant (match ff with Some (Ok f) => f | _ => [] end) (match qm with Some (Ok q) => Some q | _ => None end)
    (match audit with Some query => match query 1000 with Ok l => length l | Err _ => 0 end | None => 0 end).

(** ** Proofs as JSON *)
Definition proof_json (p : InclusionProof) (leaf : json) : obj :=
  let d := to_dict p in
  [("leaf_hash", JStr (d_leaf_hash d)); ("path", JArr (map (λ x, JArr [JStr x.1; JBool x.2]) (d_path d))); ("root_hash", JStr (d_root_hash d));
   ("block_index", JNum (inject_Z (Z.of_nat (d_block_index d)))); ("leaf_data", leaf)].

(** [for x in j], and [a, b = j] *)
Definition char_strings (s : string) : list json := map (λ a, JStr (String a "")) (list_ascii_of_string s).
Definition iterate (j : json) : result pyexn (list json) :=
  match j with
  | JArr l => Ok l
  | JStr s => Ok (char_strings s)
  | JObj d => Ok (map (λ kv, JStr kv.1) d)
  | _ => Err TypeError
  end.
Definition unpack2 (j : json) : result pyexn (json * json) :=
  l ← iterate j; match l with [a; b] => Ok (a, b) | _ => Err ValueError end.

(** [bytes.fromhex(j)] *)
Definition fromhex_json (j : json) : result pyexn bytes := match j with JStr s => fromhex s | _ => Err TypeError end.

Definition key_of (k : string) (d : obj) : result pyexn json := match dget k d with Some j => Ok j | None => Err KeyError end.

Fixpoint path_of_json (l : list json) : result pyexn (list (bytes * bool)) :=
  match l with
  | [] => Ok []
  | j :: l => hd ← unpack2 j; h ← fromhex_json hd.1; rest ← path_of_json l; Ok ((h, truthy hd.2) :: rest)
  end.

(** [InclusionProof.from_dict]; the index is kept as it came. *)
Definition proof_of_json (d : obj) : result pyexn (InclusionProof * json) :=
  lh ← (j ← key_of "leaf_hash" d; fromhex_json j);
  p ← (j ← key_of "path" d; l ← iterate j; path_of_json l);
  rh ← (j ← key_of "root_hash" d; fromhex_json j);
  i ← key_of "block_index" d;
  Ok (mkInclusionProof lh p rh 0, i).

Section proofs.
Context (sha256 : bytes → bytes) (serialize : json → bytes).

Record verdict := mkVerdict { valid : bool; v_index : json; v_root : string }.

Definition admin_audit_verify (payload : obj) : result Z verdict :=
  match dget "proof" payload with
  | None => Err 422%Z
  | Some proof_data =>
      if negb (truthy proof_data) then Err 422%Z
      else match proof_data with
           | JObj d =>
               match default (default JNull (dget "leaf_data" d)) (dget "leaf_data" payload) with
               | JNull => Err 422%Z
               | leaf =>
                   match proof_of_json d with
                   | Ok (p, i) => Ok (mkVerdict (verify_inclusion_proof sha256 serialize p leaf) i (hex (root_hash p)))
                   | Err _ => Err 422%Z
                   end
               end
           | _ => Err 422%Z
           end
  end.

(** [proof]: the answer of [get_proof_for_task]; the tenant of the context is used if none is
    given. *)
Definition admin_audit_proof (audit : bool) (get_proof : string → string → result pyexn (InclusionProof * json)) (task : string) (tenant : option string) (context_tenant : string)
    : result Z (string * string * obj) :=
  if negb audit then Err 503%Z
  else
    let t := match tenant with Some t => if nonempty t then t else if nonempty context_tenant then context_tenant else "default"
             | None => if nonempty context_tenant then context_tenant else "default" end in
    match get_proof t task with
    | Ok (p, leaf) => Ok (t, task, proof_json p leaf)
    | Err ValueError => Err 404%Z
    | Err _ => Err 500%Z
    end.
End proofs.

(** ** What the history shows *)

(** [query] answers with the first rows of a list that does not depend on the limit. *)
Class PagedQuery (query : string → nat → result pyexn (list obj)) := {
  all_rows : string → result pyexn (list obj);
  query_take : ∀ t n, query t n = (l ← all_rows t; Ok (take n l));
}.

#[local] Instance newer_dec : RelDecision later.
Proof. intros r1 r2. unfold later. apply _. Defined.

(** The queries on the files are of this kind. *)
Definition file_rows (loads : string → option json) (iso : string → result pyexn Q) (dir : audit_dir) (t : string) : result pyexn (list obj) :=
  name ← _tenant_filename t;
  match dget (name +:+ ".jsonl") dir with
  | None => Ok []
  | Some lines => rs ← as_objects (rows_of loads lines); l ← matching iso t None None None rs; Ok (merge_sort later l)
  end.

#[global] Instance file_query loads iso dir : PagedQuery (λ t n, _query_fallback loads iso dir t None None None n).
Proof.
  refine {| all_rows := file_rows loads iso dir |}. intros t n. unfold _query_fallback, file_rows. destruct (_tenant_filename t) as [name|]; [|done]. cbn [mbind result_bind].
  destruct (dget (name +:+ ".jsonl") dir) as [lines|]; [|by destruct n]. destruct (as_objects _) as [rs|]; [|done]. cbn [mbind result_bind]. by destruct (matching _ _ _ _ _ rs).
Defined.

Section history_facts.
Context (query : string → nat → result pyexn (list obj)) `{Hq : !PagedQuery query}.

(** A page of a tenant's history is this part of all of its rows: pages neither overlap nor
    leave rows out. *)
Lemma tenant_page stems t limit offset l : nonempty t = true → all_rows t = Ok l →
  admin_task_history query true stems (Some t) limit offset = Ok (take limit (drop offset l)).
Proof.
  intros Ht Hl. unfold admin_task_history. cbn [negb]. rewrite Ht, query_take, Hl. cbn [mbind result_bind].
  by rewrite skipn_firstn_comm, firstn_firstn, Nat.min_l by lia.
Qed.

(** All rows of the tenants whose files can be read. *)
Definition rows_of_tenants (stems : list string) : list obj := concat (map (λ t, match all_rows t with Ok l => l | Err _ => [] end) stems).

Lemma collect_all stems n acc : length acc + length (rows_of_tenants stems) < n → collect_tenants query stems n acc = acc ++ rows_of_tenants stems.
Proof.
  revert acc. induction stems as [|t stems IH]; intros acc Hn; [by rewrite app_nil_r|]. unfold rows_of_tenants in *. cbn [map concat] in *. cbn [collect_tenants]. rewrite query_take.
  destruct (all_rows t) as [l|]; cbn [mbind result_bind]; [|by apply IH]. rewrite length_app in Hn. rewrite firstn_all2 by lia.
  destruct (Nat.leb_spec n (length (acc ++ l))) as [Hle|_]; [rewrite length_app in Hle; lia|]. rewrite IH by (rewrite length_app; lia). by rewrite app_assoc.
Qed.

(** The history over all tenants is complete and has the newest first, as long as all of the log is
    shorter than the page and what is before it. *)
Theorem history_complete stems limit : length (rows_of_tenants stems) < limit →
  ∃ rows, admin_task_history query true stems None limit 0 = Ok rows ∧ rows ≡ₚ rows_of_tenants stems.
Proof.
  intros Hl. unfold admin_task_history, _query_all_tenants. cbn [negb]. rewrite Nat.add_0_r, collect_all by (cbn; lia). cbn [app]. eexists. split; [done|].
  rewrite drop_0. pose proof (stable_sort_perm (λ r1 r2, negb (String.leb (stamp_of r1) (stamp_of r2))) (rows_of_tenants stems)) as Hp. fold (newest_first (rows_of_tenants stems)) in Hp.
  rewrite !firstn_all2; [done|rewrite Hp; lia|]. rewrite firstn_all2; rewrite Hp; lia.
Qed.
End history_facts.

(** ** Proofs that the service returns are proofs it accepts *)
Lemma path_roundtrip l : path_of_json (map (λ x, JArr [JStr x.1; JBool x.2]) (map (λ '(h, d), (hex h, d)) l)) = Ok l.
Proof. induction l as [|[h d] l IH]; [done|]. cbn [map path_of_json unpack2 iterate mbind result_bind fromhex_json fst snd truthy]. rewrite fromhex_hex. cbn [mbind result_bind]. rewrite IH. done. Qed.

Lemma proof_of_fields lh l rh i rest :
  proof_of_json ([("leaf_hash", JStr (hex lh)); ("path", JArr (map (λ x, JArr [JStr x.1; JBool x.2]) (map (λ '(h, d), (hex h, d)) l))); ("root_hash", JStr (hex rh)); ("block_index", i)] ++ rest)
  = Ok (mkInclusionProof lh l rh 0, i).
Proof.
  unfold proof_of_json. set (d := _ ++ rest).
  assert (key_of "leaf_hash" d = Ok (JStr (hex lh))) as -> by done. assert (key_of "root_hash" d = Ok (JStr (hex rh))) as -> by done. assert (key_of "block_index" d = Ok i) as -> by done.
  assert (key_of "path" d = Ok (JArr (map (λ x, JArr [JStr x.1; JBool x.2]) (map (λ '(h, d), (hex h, d)) l)))) as -> by done.
  cbn [mbind result_bind fromhex_json iterate]. by rewrite path_roundtrip, !fromhex_hex.
Qed.

Lemma proof_roundtrip p leaf : proof_of_json (proof_json p leaf) = Ok (mkInclusionProof (leaf_hash p) (path p) (root_hash p) 0, JNum (inject_Z (Z.of_nat (block_index p)))).
Proof. apply (proof_of_fields _ _ _ _ [("leaf_data", leaf)]). Qed.

Section end_to_end.
Context (sha256 : bytes → bytes) (serialize : json → bytes) (dumps : json → string) (loads : string → option json) (repr : json → string).

Lemma verify_ignores_index p leaf i : verify_inclusion_proof sha256 serialize (mkInclusionProof (leaf_hash p) (path p) (root_hash p) i) leaf = verify_inclusion_proof sha256 serialize p leaf.
Proof. done. Qed.

(** For an event whose record is in its tenant's file, the proof endpoint answers, and what it
    answers is accepted by the verification endpoint, which names the root over all events
    logged so far. *)
Theorem proof_endpoints_agree s tenant task name lines e0 ctx : audit_inv sha256 serialize dumps s → Forall (readable dumps loads) (logged s) →
  _tenant_filename tenant = Ok name → dget (name +:+ ".jsonl") (dir s) = Some lines → e0 ∈ logged s → line_of dumps e0 ∈ lines →
  tenant_id e0 = tenant → task_id e0 = Some task →
  ∃ proof root, admin_audit_proof true (λ t k, r ← _get_proof_fallback sha256 serialize loads repr (lg s) (dir s) t k; Ok r.2) task (Some tenant) ctx = Ok (tenant, task, proof)
  ∧ compute_root sha256 (_leaf_hashes (lg s)) = Ok root
  ∧ ∃ i, admin_audit_verify sha256 serialize [("proof", JObj proof)] = Ok (mkVerdict true i (hex root)).
Proof.
  intros Hi Hr Hn Hf He Hl Ht Hk. destruct (proof_fallback_ok sha256 serialize dumps loads repr s tenant task name lines e0 Hi Hr Hn Hf He Hl Ht Hk) as (l' & p & e & Ep & _ & _ & _ & Hroot & Hv).
  exists (proof_json p (leaf_of_event e)), (root_hash p). unfold admin_audit_proof. cbn [negb].
  assert (nonempty tenant = true) as -> by (destruct tenant; [by cbv in Hn|done]). rewrite Ep. cbn [mbind result_bind snd]. split; [done|]. split; [done|].
  exists (JNum (inject_Z (Z.of_nat (block_index p)))). unfold admin_audit_verify.
  assert (truthy (JObj (proof_json p (leaf_of_event e))) = true) as Et by done.
  change (dget "proof" [("proof", JObj (proof_json p (leaf_of_event e)))]) with (Some (JObj (proof_json p (leaf_of_event e)))). cbv beta iota. rewrite Et. cbn [negb].
  change (default (default JNull (dget "leaf_data" (proof_json p (leaf_of_event e)))) (dget "leaf_data" [("proof", JObj (proof_json p (leaf_of_event e)))])) with (leaf_of_event e).
  rewrite proof_roundtrip. assert (∃ d, leaf_of_event e = JObj d) as [d Hd] by (unfold leaf_of_event; eauto). rewrite Hd in *. by rewrite verify_ignores_index, Hv.
Qed.
End end_to_end.

(** ** Runs *)
Definition row (tenant stamp : string) : obj := [("tenant_id", JStr tenant); ("timestamp", JStr stamp)].
Definition demo_query (t : string) (n : nat) : result pyexn (list obj) :=
  Ok (take n (if String.eqb t "a" then [row "a" "2020"; row "a" "2019"] else if String.eqb t "b" then [row "b" "2025"] else [])).

(** The loop ends when it has enough events of the first tenants: the newest event of all is
    missing from a history of two. *)
Example history_misses_newest : admin_task_history demo_query true ["a"; "b"] None 2 0 = Ok [row "a" "2020"; row "a" "2019"].
Proof. reflexivity. Qed.

(** The names of the files are not the names of the tenants: the events of a tenant whose name
    was rewritten are not found. *)
Example rewritten_tenant_lost :
  _tenant_filename "a/b" = Ok "a_b" ∧
  ∀ loads iso r, loads "line" = Some (JObj r) → dget "tenant_id" r = Some (JStr "a/b") →
  _query_fallback loads iso [("a_b.jsonl", ["line"])] "a_b" None None None 10 = Ok [].
Proof.
  split; [reflexivity|]. intros loads iso r Hl Ht. assert (rows_of loads ["line"] = [JObj r]) as Er.
  { unfold rows_of. cbn [map]. assert (strip "line" = "line") as -> by reflexivity. assert (nonempty "line" = true) as -> by reflexivity. by rewrite Hl. }
  unfold _query_fallback. assert (_tenant_filename "a_b" = Ok "a_b") as -> by reflexivity. cbn [mbind result_bind].
  assert (dget ("a_b" +:+ ".jsonl") [("a_b.jsonl", ["line"])] = Some ["line"]) as -> by reflexivity. rewrite Er. cbn [as_objects mbind result_bind matching]. unfold row_matches. rewrite Ht.
  assert (String.eqb "a/b" "a_b" = false) as -> by reflexivity. done.
Qed.

(** The root of a proof is not compared with that of the log: a proof of anything, of which
    the root is its own hash, is valid. *)
Lemma forged_proof_is_valid sha256 serialize leaf : leaf ≠ JNull →
  let h := hex (_safe_hash sha256 (serialize leaf)) in
  (valid <$> match admin_audit_verify sha256 serialize [("leaf_data", leaf); ("proof", JObj [("leaf_hash", JStr h); ("path", JArr []); ("root_hash", JStr h); ("block_index", JNum 0)])] with Ok v => Some v | Err _ => None end) = Some true.
Proof.
  intros Hl h. unfold admin_audit_verify.
  change (dget "proof" _) with (Some (JObj [("leaf_hash", JStr h); ("path", JArr []); ("root_hash", JStr h); ("block_index", JNum 0)])). cbv beta iota.
  change (truthy _) with true. cbn [negb]. change (default _ _) with leaf.
  pose proof (proof_of_fields (_safe_hash sha256 (serialize leaf)) [] (_safe_hash sha256 (serialize leaf)) (JNum 0) []) as Hp. cbn [map app] in Hp. fold h in Hp. rewrite Hp.
  assert (verify_inclusion_proof sha256 serialize (mkInclusionProof (_safe_hash sha256 (serialize leaf)) [] (_safe_hash sha256 (serialize leaf)) 0) leaf = true) as Hv.
  { unfold verify_inclusion_proof. cbn [leaf_hash path root_hash fold_path]. rewrite bool_decide_eq_false_2, bool_decide_eq_true_2 by naive_solver. done. }
  destruct leaf; try done; by rewrite Hv.
Qed.
