(* ===== verification/Discovery.v ===== *)
(** * Discovery of keys and resources ([noema/discovery/keys.py])

    Which keys are found in the environment, in files, in the keychain and at the cloud's
    metadata service, and which of several finds of one name is kept.  What the process
    sees of its machine is a parameter. *)
From Stdlib Require Import ZArith QArith Lqa Lia Bool Ascii String.
From stdpp Require Import base option numbers sets strings list.
From S2P Require Import Prelude SemanticCache Gate Api Ingestion.
Local Open Scope string_scope.
Local Open Scope list_scope.
Local Open Scope nat_scope.

Record DiscoveredKey := mkKey { k_name : string; k_value : string; k_source : string; k_confidence : Q; provider_hint : string }.
Record ResourceInfo := mkResource { res_name : string; res_kind : string; available : bool; res_details : list (string * json) }.

Definition KNOWN_KEY_PATTERNS : list (string * string) := [
  ("OPENAI_API_KEY", "openai"); ("OPENAI_KEY", "openai"); ("ANTHROPIC_API_KEY", "anthropic"); ("ANTHROPIC_AUTH_TOKEN", "anthropic"); ("OLLAMA_BASE_URL", "ollama");
  ("AWS_ACCESS_KEY_ID", "aws"); ("AWS_SECRET_ACCESS_KEY", "aws"); ("AWS_REGION", "aws"); ("GOOGLE_APPLICATION_CREDENTIALS", "google"); ("GITHUB_TOKEN", "github");
  ("GITHUB_PERSONAL_ACCESS_TOKEN", "github"); ("HF_TOKEN", "huggingface"); ("HUGGING_FACE_HUB_TOKEN", "huggingface"); ("REPLICATE_API_TOKEN", "replicate");
  ("COHERE_API_KEY", "cohere"); ("MISTRAL_API_KEY", "mistral"); ("DEEPSEEK_API_KEY", "deepseek"); ("GROQ_API_KEY", "groq"); ("TOGETHER_API_KEY", "together");
  ("FIREWORKS_API_KEY", "fireworks"); ("AZURE_OPENAI_ENDPOINT", "azure"); ("AZURE_OPENAI_API_KEY", "azure")].

Definition CONFIG_FILE_NAMES : list string := [".env"; ".env.local"; ".env.development"; ".env.production"; ".noema/config.json"].

(** [val[:8] + "..." if len(val) > 8 else val] *)
Definition shorten (val : string) : string := if 8 <? String.length val then String.substring 0 8 val +:+ "..." else val.

(** ** The places *)
Section scan.
Context (environ : string → option string) (file : string → option string).
(** The output of the keychain tool, if there is one and it succeeds; the project of the
    metadata service, if it answers. *)
Context (keychain project : option string).

Definition _scan_env : list DiscoveredKey :=
  omap (λ kp, match environ kp.1 with
              | Some val => if nonempty val then Some (mkKey kp.1 (shorten val) "env" 1 kp.2) else None
              | None => None
              end) KNOWN_KEY_PATTERNS.

Fixpoint strip_apostrophes_left (s : string) : string :=
  match s with String a t => if Nat.eqb (nat_of_ascii a) 39 then strip_apostrophes_left t else s | "" => "" end.
Definition strip_apostrophes (s : string) : string := rev_string (strip_apostrophes_left (rev_string (strip_apostrophes_left s))).

(** [line.partition("=")] *)
Fixpoint partition_at_eq (s : string) : option (string * string) :=
  match s with
  | "" => None
  | String a t => if Ascii.eqb a "=" then Some ("", t) else (λ p, (String a p.1, p.2)) <$> partition_at_eq t
  end.

Definition parse_line (source line : string) : option DiscoveredKey :=
  let line := strip line in
  if negb (nonempty line) || String.prefix "#" line then None
  else match partition_at_eq line with
       | None => None
       | Some (key, val) =>
           let key := strip key in
           let val := strip_apostrophes (strip_quotes (strip val)) in
           match dget key KNOWN_KEY_PATTERNS with
           | Some provider => if nonempty provider && nonempty val then Some (mkKey key (shorten val) source (7 # 10) provider) else None
           | None => None
           end
       end.

Definition _parse_env_file (content source : string) : list DiscoveredKey := omap (parse_line source) (splitlines content).

Definition _scan_files : list DiscoveredKey :=
  concat (map (λ name, match file name with Some content => _parse_env_file content ("file:" +:+ name) | None => [] end) CONFIG_FILE_NAMES).

Definition _scan_keychain : list DiscoveredKey :=
  match keychain with
  | Some out => let out := strip out in if nonempty out then [mkKey "keychain_noema" (String.substring 0 8 out +:+ "...") "keychain" (8 # 10) ""] else []
  | None => []
  end.

Definition _scan_cloud_metadata : list DiscoveredKey :=
  match project with
  | Some p => let p := strip p in if nonempty p then [mkKey "GCP_PROJECT_ID" p "cloud:gcp" (9 # 10) "google"] else []
  | None => []
  end.

(** ** One find for every name *)
Definition keep_best (best : list (string * DiscoveredKey)) (key : DiscoveredKey) : list (string * DiscoveredKey) :=
  match dget (k_name key) best with
  | Some existing => if Qltb (k_confidence existing) (k_confidence key) then dset (k_name key) key best else best
  | None => dset (k_name key) key best
  end.

Definition deduplicate (found : list DiscoveredKey) : list DiscoveredKey := (foldl keep_best [] found).*2.

Definition found_keys : list DiscoveredKey := _scan_env ++ _scan_files ++ _scan_keychain ++ _scan_cloud_metadata.
Definition discover_keys : list DiscoveredKey := deduplicate found_keys.

(** [discover_all]: names, sources and providers of the keys, the providers in their order, and
    the resources. *)
Definition add_provider (l : list (string * list string)) (k : DiscoveredKey) : list (string * list string) :=
  if nonempty (provider_hint k) then dset (provider_hint k) (default [] (dget (provider_hint k) l) ++ [k_name k]) l else l.

Definition discover_all (resources : list ResourceInfo) : list (string * string * string) * list string * list (string * string * bool) :=
  (map (λ k, (k_name k, k_source k, provider_hint k)) discover_keys, (foldl add_provider [] discover_keys).*1, map (λ r, (res_name r, res_kind r, available r)) resources).
End scan.

(** ** The kept find is the most trusted one *)
Record best_of (found : list DiscoveredKey) (best : list (string * DiscoveredKey)) : Prop := {
  bo_names : ∀ n k, dget n best = Some k → k_name k = n ∧ k ∈ found;
  bo_all : ∀ k, k ∈ found → ∃ k', dget (k_name k) best = Some k' ∧ (k_confidence k <= k_confidence k')%Q;
  bo_nodup : NoDup best.*1;
}.

Lemma keep_best_spec found best key : best_of found best → best_of (found ++ [key]) (keep_best best key).
Proof.
  intros [H1 H2 H3]. unfold keep_best.
  assert (∀ b, (dget (k_name key) best = None ∨ ∃ k, dget (k_name key) best = Some k ∧ (k_confidence k < k_confidence key)%Q) → b = dset (k_name key) key best → best_of (found ++ [key]) b) as Hset.
  { intros b Hb ->. split; [| |by apply dset_keys_NoDup].
    - intros n k. rewrite dget_dset. case_decide as En; [intros [= <-]; split; [done|set_solver]|]. intros [? ?]%H1. split; [done|set_solver].
    - intros k [Hk| ->%list_elem_of_singleton]%elem_of_app; [|exists key; rewrite dget_dset_eq; split; [done|lra]].
      destruct (decide (k_name k = k_name key)) as [En|En]; [|rewrite dget_dset_ne by done; by apply H2].
      exists key. rewrite En, dget_dset_eq. split; [done|]. destruct (H2 k Hk) as (k' & Ek & Hle). rewrite En in Ek.
      destruct Hb as [Hb|(k'' & Hb & Hlt)]; [congruence|]. assert (k'' = k') by congruence. subst. lra. }
  destruct (dget (k_name key) best) as [old|] eqn:E; [|by apply Hset; [left|]].
  destruct (Qltb (k_confidence old) (k_confidence key)) eqn:El; [apply Hset; [right; exists old; split; [done|by apply Qltb_lt]|done]|].
  split; [intros n k [? ?]%H1; split; [done|set_solver]| |done].
  intros k [Hk| ->%list_elem_of_singleton]%elem_of_app; [by apply H2|]. exists old. split; [done|].
  destruct (Qlt_le_dec (k_confidence old) (k_confidence key)) as [Hlt|]; [|done]. apply Qltb_lt in Hlt. congruence.
Qed.

Lemma foldl_best_of l : ∀ found best, best_of found best → best_of (found ++ l) (foldl keep_best best l).
Proof. induction l as [|k l IH]; intros found best H; [by rewrite app_nil_r|]. cbn [foldl]. rewrite cons_middle, app_assoc. by apply IH, keep_best_spec. Qed.

(** Every name that was found is discovered once, by a find that no other find of this name is
    more trusted than. *)
Theorem deduplicate_best found :
  NoDup (map k_name (deduplicate found))
  ∧ (∀ k, k ∈ deduplicate found → k ∈ found ∧ ∀ k', k' ∈ found → k_name k' = k_name k → (k_confidence k' <= k_confidence k)%Q)
  ∧ (∀ k, k ∈ found → k_name k ∈ map k_name (deduplicate found)).
Proof.
  assert (best_of found (foldl keep_best [] found)) as [H1 H2 H3].
  { apply (foldl_best_of found [] []). split; [done|by intros k ?%elem_of_nil|constructor]. }
  unfold deduplicate. set (best := foldl keep_best [] found) in *. clearbody best.
  assert (map k_name best.*2 = best.*1) as Ek.
  { assert (∀ p, p ∈ best → k_name p.2 = p.1) as Hn by (intros [n k] Hp; by apply H1, dget_mem).
    clear -Hn. induction best as [|[n k] best IH]; [done|]. cbn. rewrite IH by set_solver. f_equal. apply (Hn (n, k)). left. }
  rewrite Ek. split_and!; [done| |].
  - intros k Hk. apply list_elem_of_fmap in Hk as ([n k0] & -> & Hin). cbn [snd].
    assert (dget n best = Some k0) as Ed by (by apply dget_mem). destruct (H1 _ _ Ed) as [<- Hf]. split; [done|].
    intros k' Hk' En. destruct (H2 _ Hk') as (k2 & E2 & Hle). rewrite En, Ed in E2. by injection E2 as <-.
  - intros k Hk. destruct (H2 _ Hk) as (k' & E & _). apply dget_is_Some. by eexists.
Qed.

(** Only finds in the environment have full confidence. *)
Lemma parse_line_confidence source line k : parse_line source line = Some k → k_confidence k = (7 # 10)%Q.
Proof.
  unfold parse_line. destruct (_ || _); [done|]. destruct (partition_at_eq _) as [[key val]|]; [|done].
  generalize KNOWN_KEY_PATTERNS. intros d. destruct (dget _ d); [|done]. destruct (_ && _); [|done]. by intros [= <-].
Qed.

Lemma found_confidence environ file keychain project k : k ∈ found_keys environ file keychain project →
  (k_confidence k = 1%Q ∧ k_source k = "env") ∨ (k_confidence k < 1)%Q.
Proof.
  unfold found_keys. rewrite !elem_of_app. intros [Hf|[Hf|[Hf|Hf]]].
  - left. unfold _scan_env in Hf. apply list_elem_of_omap in Hf as ([n p] & _ & E). cbn [fst snd] in E. destruct (environ n) as [v|]; [|done]. destruct (nonempty v); [|done]. by injection E as <-.
  - right. unfold _scan_files in Hf. apply elem_of_concat_map in Hf as (f & _ & Hf). destruct (file f); [|by apply elem_of_nil in Hf].
    unfold _parse_env_file in Hf. apply list_elem_of_omap in Hf as (line & _ & E). by rewrite (parse_line_confidence _ _ _ E).
  - right. unfold _scan_keychain in Hf. destruct keychain as [x|]; [|by apply elem_of_nil in Hf]. destruct (nonempty (strip x)); [|by apply elem_of_nil in Hf].
    by apply list_elem_of_singleton in Hf as ->.
  - right. unfold _scan_cloud_metadata in Hf. destruct project as [x|]; [|by apply elem_of_nil in Hf]. destruct (nonempty (strip x)); [|by apply elem_of_nil in Hf].
    by apply list_elem_of_singleton in Hf as ->.
Qed.

(** A variable of the environment wins over every file. *)
Lemma environment_wins environ file keychain project n p val : (n, p) ∈ KNOWN_KEY_PATTERNS → environ n = Some val → nonempty val = true →
  ∀ k, k ∈ discover_keys environ file keychain project → k_name k = n → k_source k = "env".
Proof.
  intros Hn He Hv k Hk Ek. unfold discover_keys in Hk.
  assert (mkKey n (shorten val) "env" 1 p ∈ found_keys environ file keychain project) as Hin.
  { unfold found_keys. apply elem_of_app. left. unfold _scan_env. apply list_elem_of_omap. exists (n, p). cbn [fst snd]. by rewrite He, Hv. }
  generalize (found_confidence environ file keychain project k). revert Hk Hin. generalize (found_keys environ file keychain project). intros found Hk Hin Hc.
  destruct (proj1 (proj2 (deduplicate_best found)) k Hk) as [Hf Hmax]. specialize (Hmax _ Hin (eq_sym Ek)). cbn [k_confidence] in Hmax.
  destruct (Hc Hf) as [[_ ?]|Hlt]; [done|]. by apply Qle_not_lt in Hmax.
Qed.

(** ** What is shown of a value *)
Example values_in_part :
  shorten "sk-1234567890" = "sk-12345..." ∧ shorten "hunter2" = "hunter2"
  ∧ map k_value (_scan_keychain (Some "pin1234")) = ["pin1234..."].
Proof. reflexivity || (split_and!; reflexivity). Qed.

(** A line of a shell script is not recognised, and neither is anything in the JSON file. *)
Example not_recognised :
  let q := String "034" "" in
  parse_line "file:.env" "export OPENAI_API_KEY=sk-1" = None ∧ parse_line "file:.env" " OPENAI_API_KEY = 'sk-1' " = Some (mkKey "OPENAI_API_KEY" "sk-1" "file:.env" (7 # 10) "openai")
  ∧ parse_line "file:.noema/config.json" ("  " +:+ q +:+ "OPENAI_API_KEY" +:+ q +:+ ": " +:+ q +:+ "sk-1" +:+ q) = None.
Proof. split_and!; reflexivity. Qed.
