(* ===== verification/ScannerData.v ===== *)
(** * Patterns of the security scanner ([noema/modules/security_scanner/kernel.py])

    The tables of the scanner: regular expressions of vulnerabilities, of the OWASP
    categories and of secrets, and packages with known vulnerabilities.  Expressions are
    terms of [Regex]; what a match must not be followed by, and an end of line, are
    separate fields. *)
From Stdlib Require Import ZArith Bool Ascii String.
From stdpp Require Import base option numbers strings list.
From S2P Require Import Prelude Regex Security.
Local Open Scope string_scope.
Local Open Scope list_scope.
Local Open Scope nat_scope.

(** An expression, what must not follow it, and whether it has to end the line. *)
Record rx := mkRx { body : re; not_followed : list re; at_end : bool }.
Definition pat (r : re) : rx := mkRx r [] false.

Definition one_of (l : list (ascii → bool)) (a : ascii) : bool := existsb (λ p, p a) l.
Definition none_of (p : ascii → bool) (a : ascii) : bool := negb (p a).
Definition eqc (a b : ascii) : bool := Ascii.eqb a b.
Definition wd : re := Ch is_word.
Definition qm : re := Ch (oneof quotes).                    (* a quotation mark of either kind *)
Definition non_qm : re := Ch (none_of (oneof quotes)).

Record pattern_info := mkInfo { i_patterns : list rx; i_severity : string; i_cwe : string; i_recommendation : string }.
Record owasp_info := mkOwasp { o_patterns : list rx; o_cwe : string; o_description : string }.
Record vulnerable := mkVulnerable { below : string; cve : string; v_severity : string }.

Definition KNOWN_VULNERABILITY_PATTERNS : list (string * pattern_info) := [
  ("sql_injection", mkInfo [
    pat (seqs [lit "execute"; sp0; lit "("; sp0; qm; Star any; lit "%s"; Star any; qm; sp0; lit "%"]);
    pat (seqs [lit "execute"; sp0; lit "("; sp0; lit "f"; qm; Star any; lit "{"; Star any; lit "}"; Star any; qm]);
    pat (seqs [lit "execute"; sp0; lit "("; sp0; qm; Star any; lit "+"; sp0; plus wd]);
    pat (seqs [lit "cursor.execute"; sp0; lit "("; Star any; lit "+"]);
    pat (seqs [lit "query"; sp0; lit "="; sp0; qm; Star any; lit "+"; sp0; plus wd]);
    pat (seqs [lit ".raw"; sp0; lit "("; sp0; lit "f"; qm]);
    pat (seqs [lit "WHERE"; Star any; lit "+"; sp0; plus wd]);
    pat (seqs [lit "SELECT"; Star any; lit "+"; sp0; plus wd])]
    "critical" "CWE-89" "Use parameterized queries or ORM instead of string concatenation");
  ("xss", mkInfo [
    pat (seqs [lit "innerHTML"; sp0; lit "="]);
    pat (seqs [lit "document.write"; sp0; lit "("]);
    pat (seqs [lit ".html"; sp0; lit "("; sp0; plus wd; sp0; lit ")"]);
    pat (seqs [lit "v-html"; sp0; lit "="]);
    pat (lit "dangerouslySetInnerHTML");
    pat (seqs [WB; lit "render_template_string"; sp0; lit "("]);
    pat (seqs [lit "Markup"; sp0; lit "("; sp0; plus wd; sp0; lit ")"]);
    pat (lit "\binnerHTML\b");
    pat (seqs [lit "response.write"; sp0; lit "("; Star any; lit "+"])]
    "high" "CWE-79" "Sanitize and escape all user input; use templating engines with auto-escaping");
  ("path_traversal", mkInfo [
    pat (seqs [lit "open"; sp0; lit "("; Star any; lit "+"]);
    pat (seqs [lit "open"; sp0; lit "("; sp0; lit "f"; qm]);
    pat (seqs [lit "send_file"; sp0; lit "("; Star any; lit "+"]);
    pat (seqs [lit "readFile"; sp0; lit "("; Star any; lit "+"]);
    pat (seqs [lit "os.path.join"; sp0; lit "("; Star any; lit "request"]);
    pat (seqs [lit "Path"; sp0; lit "("; Star any; lit "request"]);
    pat (lit "../");
    pat (lit "..\\")]
    "high" "CWE-22" "Validate and sanitize file paths; use allowlists for permitted directories");
  ("hardcoded_secrets", mkInfo [
    pat (icase (seqs [alts [lit "password"; lit "passwd"; lit "pwd"]; sp0; lit "="; sp0; qm; plus non_qm; qm]));
    pat (icase (seqs [alts [lit "api_key"; lit "apikey"; lit "api_secret"]; sp0; lit "="; sp0; qm; plus non_qm; qm]));
    pat (icase (seqs [alts [lit "secret_key"; lit "secret"]; sp0; lit "="; sp0; qm; plus non_qm; qm]));
    pat (icase (seqs [alts [lit "access_token"; lit "auth_token"]; sp0; lit "="; sp0; qm; plus non_qm; qm]));
    pat (icase (seqs [lit "private_key"; sp0; lit "="; sp0; qm; plus non_qm; qm]));
    pat (icase (seqs [alts [lit "database_url"; lit "db_url"; lit "dsn"]; sp0; lit "="; sp0; qm; plus non_qm; qm]));
    pat (seqs [lit "AWS_ACCESS_KEY_ID"; sp0; lit "="; sp0; qm; rep 20 (Ch (one_of [between 65 90; between 48 57])); qm]);
    pat (seqs [lit "AWS_SECRET_ACCESS_KEY"; sp0; lit "="; sp0; qm; rep 40 (Ch (one_of [between 65 90; between 97 122; between 48 57; eqc "/"; eqc "+"; eqc "="])); qm])]
    "critical" "CWE-798" "Use environment variables or a secrets manager instead of hardcoding credentials");
  ("insecure_deserialization", mkInfo [
    pat (seqs [lit "pickle.load"; Opt (lit "s"); sp0; lit "("]);
    pat (seqs [lit "pickle.load"; sp0; lit "("]);
    mkRx (seqs [lit "yaml.load"; sp0; lit "("; Star (Ch (none_of (eqc ")"))); lit ")"]) [seqs [Star any; lit "Loader"]] false;
    pat (seqs [lit "marshal.load"; Opt (lit "s"); sp0; lit "("]);
    pat (seqs [lit "shelve.open"; sp0; lit "("]);
    pat (seqs [lit "jsonpickle.decode"; sp0; lit "("]);
    pat (seqs [lit "eval"; sp0; lit "("]);
    pat (seqs [lit "exec"; sp0; lit "("])]
    "critical" "CWE-502" "Avoid deserializing untrusted data; use safe alternatives like JSON or yaml.safe_load");
  ("ssrf", mkInfo [
    pat (seqs [lit "requests."; alts [lit "get"; lit "post"; lit "put"; lit "delete"; lit "patch"; lit "head"]; sp0; lit "("; Star any; lit "+"]);
    pat (seqs [lit "urllib.request.urlopen"; sp0; lit "("; Star any; lit "+"]);
    pat (seqs [lit "urlopen"; sp0; lit "("; Star any; lit "+"]);
    pat (seqs [lit "HTTPConnection"; sp0; lit "("; Star any; lit "+"]);
    pat (seqs [lit "httpx."; alts [lit "get"; lit "post"; lit "put"; lit "delete"]; sp0; lit "("; Star any; lit "+"]);
    pat (seqs [lit "aiohttp.ClientSession"; Star any; lit "get"; sp0; lit "("; Star any; lit "+"])]
    "high" "CWE-918" "Validate and allowlist target URLs; avoid passing user input directly to HTTP requests");
  ("command_injection", mkInfo [
    pat (seqs [lit "os.system"; sp0; lit "("; Star any; lit "+"]);
    pat (seqs [lit "os.system"; sp0; lit "("; sp0; lit "f"; qm]);
    pat (seqs [lit "subprocess.call"; sp0; lit "("; Star any; lit "shell"; sp0; lit "="; sp0; lit "True"]);
    pat (seqs [lit "subprocess.Popen"; sp0; lit "("; Star any; lit "shell"; sp0; lit "="; sp0; lit "True"]);
    pat (seqs [lit "subprocess.run"; sp0; lit "("; Star any; lit "shell"; sp0; lit "="; sp0; lit "True"]);
    pat (seqs [lit "os.popen"; sp0; lit "("]);
    pat (seqs [lit "commands.getoutput"; sp0; lit "("]);
    pat (seqs [lit "eval"; sp0; lit "("]);
    pat (seqs [lit "child_process.exec"; sp0; lit "("; Star any; lit "+"]);
    pat (seqs [lit "child_process.execSync"; sp0; lit "("; Star any; lit "+"])]
    "critical" "CWE-78" "Use subprocess with list arguments; never pass user input to shell commands");
  ("weak_crypto", mkInfo [
    pat (seqs [lit "hashlib.md5"; sp0; lit "("]);
    pat (seqs [lit "hashlib.sha1"; sp0; lit "("]);
    pat (icase (seqs [lit "hashlib."; alts [lit "md5"; lit "sha1"]; WB]));
    pat (seqs [lit "MD5"; sp0; lit "("]);
    pat (seqs [lit "SHA1"; sp0; lit "("]);
    pat (seqs [lit "DES"; sp0; lit "("]);
    pat (seqs [lit "RC4"; sp0; lit "("]);
    pat (seqs [lit "Blowfish"; sp0; lit "("]);
    pat (seqs [lit "random.random"; sp0; lit "("]);
    pat (seqs [lit "random.randint"; sp0; lit "("]);
    pat (seqs [lit "random.choice"; sp0; lit "("]);
    pat (seqs [lit "Math.random"; sp0; lit "("])]
    "medium" "CWE-327" "Use modern algorithms like SHA-256+, AES-256; use secrets module for cryptographic randomness")].

Definition OWASP_TOP_10 : list (string * owasp_info) := [
  ("A01:2021 Broken Access Control", mkOwasp [
    pat (seqs [lit "@app.route"; Star any; lit "methods"; sp0; lit "="; sp0; lit "["; Star any; lit "PUT"; Star any; lit "DELETE"]);
    mkRx (lit "@app.route") [seqs [Star any; lit "login"]; seqs [Star any; lit "auth"]] false;
    pat (seqs [lit ".is_admin"; sp0; lit "="; sp0; lit "True"]);
    pat (seqs [lit "bypass"; Star any; lit "auth"]);
    pat (seqs [lit "without"; Star any; lit "permission"])]
    "CWE-862"
    "Restrictions on what authenticated users are allowed to do are not properly enforced");
  ("A02:2021 Cryptographic Failures", mkOwasp [
    pat (lit "hashlib.md5");
    pat (lit "hashlib.sha1");
    pat (seqs [lit "DES"; WB]);
    pat (seqs [lit "ECB"; WB]);
    pat (seqs [lit "password"; Star any; lit "="; sp0; qm; Star any; qm]);
    pat (icase (seqs [lit "encrypt"; Star any; lit "md5"]))]
    "CWE-310"
    "Failures related to cryptography which often leads to sensitive data exposure");
  ("A03:2021 Injection", mkOwasp [
    pat (seqs [lit "execute"; sp0; lit "("; Star any; lit "+"]);
    pat (seqs [lit "execute"; sp0; lit "("; Star any; lit "%"]);
    pat (seqs [lit "execute"; sp0; lit "("; Star any; lit "f"; qm]);
    pat (lit "innerHTML");
    pat (seqs [lit "eval"; sp0; lit "("]);
    pat (seqs [lit "os.system"; sp0; lit "("]);
    pat (seqs [lit "shell"; sp0; lit "="; sp0; lit "True"])]
    "CWE-89"
    "User-supplied data is not validated, filtered, or sanitized");
  ("A04:2021 Insecure Design", mkOwasp [
    pat (seqs [lit "# TODO"; Star any; lit "security"]);
    pat (seqs [lit "# FIXME"; Star any; lit "auth"]);
    pat (lit "# HACK");
    pat (seqs [lit "except"; Star any; lit "pass"]);
    pat (seqs [lit "except:"; Star any; lit "pass"])]
    "CWE-200"
    "Risks related to design flaws, missing or ineffective security controls");
  ("A05:2021 Security Misconfiguration", mkOwasp [
    pat (seqs [lit "DEBUG"; sp0; lit "="; sp0; lit "True"]);
    pat (seqs [lit "debug"; sp0; lit "="; sp0; lit "true"]);
    pat (seqs [lit "ALLOWED_HOSTS"; sp0; lit "="; sp0; lit "["; Star any; lit "*"]);
    pat (seqs [lit "CORS_ALLOW_ALL_ORIGINS"; sp0; lit "="; sp0; lit "True"]);
    pat (seqs [lit "SECURE_SSL_REDIRECT"; sp0; lit "="; sp0; lit "False"])]
    "CWE-16"
    "Missing appropriate security hardening across any part of the application");
  ("A06:2021 Vulnerable and Outdated Components", mkOwasp [
    pat (seqs [lit "version"; Star any; lit "<"; sp0; dgt]);
    pat (seqs [lit "jquery"; Star any; lit "1."; dgt]);
    pat (seqs [lit "django"; Star any; Ch (one_of [eqc "1"; eqc "2"]); lit "."]);
    pat (seqs [lit "flask"; Star any; lit "0."])]
    "CWE-1104"
    "Using components with known vulnerabilities");
  ("A07:2021 Identification and Authentication Failures", mkOwasp [
    pat (seqs [lit "login"; Star any; lit "password"]);
    pat (seqs [lit "auth"; Star any; lit "token"; Star any; lit "="]);
    pat (seqs [lit "session"; Star any; lit "="; sp0; lit "True"]);
    pat (seqs [lit "max_age"; Star any; lit "="; sp0; rep 6 dgt; Star dgt])]
    "CWE-287"
    "Confirmation of the user's identity, authentication, and session management is not implemented correctly");
  ("A08:2021 Software and Data Integrity Failures", mkOwasp [
    pat (lit "pickle.load");
    pat (seqs [lit "yaml.load"; sp0; lit "("; plus (Ch (none_of (one_of [eqc ","; eqc ")"]))); lit ")"]);
    pat (seqs [lit "eval"; sp0; lit "("]);
    pat (seqs [lit "exec"; sp0; lit "("]);
    pat (seqs [lit "allow_redirects"; sp0; lit "="; sp0; lit "True"])]
    "CWE-345"
    "Code and infrastructure that does not protect against integrity violations");
  ("A09:2021 Security Logging and Monitoring Failures", mkOwasp [
    mkRx (seqs [lit "except"; Star any; lit ":"; sp0]) [] true;
    mkRx (seqs [lit "except"; Star any; lit "pass"; sp0]) [] true;
    pat (seqs [lit "print"; sp0; lit "("; Star any; lit "error"]);
    pat (seqs [lit "logging."; alts [lit "debug"; lit "info"]; sp0; lit "("; Star any; lit "password"])]
    "CWE-778"
    "Insufficient logging, detection, monitoring, and active response");
  ("A10:2021 Server-Side Request Forgery (SSRF)", mkOwasp [
    pat (seqs [lit "requests."; alts [lit "get"; lit "post"]; sp0; lit "("; Star any; lit "+"]);
    pat (seqs [lit "urlopen"; sp0; lit "("; Star any; lit "+"]);
    pat (seqs [lit "http.get"; sp0; lit "("; Star any; lit "+"]);
    pat (seqs [lit "fetch"; sp0; lit "("; Star any; lit "+"])]
    "CWE-918"
    "SSRF flaws occur when a web application fetches a remote resource without validating the user-supplied URL")].

Definition secret_patterns : list (rx * string) := [
  (pat (icase (seqs [alts [lit "password"; lit "passwd"; lit "pwd"]; sp0; lit "="; sp0; qm; rep 4 non_qm; Star non_qm; qm])), "Hardcoded password");
  (pat (icase (seqs [alts [lit "api_key"; lit "apikey"; lit "api_secret"]; sp0; lit "="; sp0; qm; rep 8 non_qm; Star non_qm; qm])), "Hardcoded API key");
  (pat (icase (seqs [alts [lit "secret_key"; lit "secret"]; sp0; lit "="; sp0; qm; rep 8 non_qm; Star non_qm; qm])), "Hardcoded secret key");
  (pat (icase (seqs [alts [lit "access_token"; lit "auth_token"]; sp0; lit "="; sp0; qm; rep 8 non_qm; Star non_qm; qm])), "Hardcoded token");
  (pat (icase (seqs [lit "private_key"; sp0; lit "="; sp0; qm; rep 16 non_qm; Star non_qm; qm])), "Hardcoded private key");
  (pat (icase (seqs [alts [lit "database_url"; lit "db_url"; lit "dsn"]; sp0; lit "="; sp0; qm; rep 12 non_qm; Star non_qm; qm])), "Hardcoded database URL");
  (pat (seqs [lit "AKIA"; rep 16 (Ch (one_of [between 48 57; between 65 90]))]), "AWS Access Key ID");
  (pat (icase (seqs [lit "-----BEGIN"; sps; Opt (seqs [lit "RSA"; sps]); lit "PRIVATE"; sps; lit "KEY-----"])), "Private key block");
  (pat (seqs [lit "ghp_"; rep 36 (Ch (one_of [between 65 90; between 97 122; between 48 57]))]), "GitHub personal access token");
  (pat (icase (seqs [lit "xox"; Ch (one_of [eqc "b"; eqc "p"; eqc "o"; eqc "a"]); lit "-"; plus (Ch (one_of [between 48 57; between 65 90; between 97 122; eqc "-"]))])), "Slack token")].

Definition known_vulnerable : list (string * vulnerable) := [
  ("django", mkVulnerable "4.2" "CVE-2023-41164" "high");
  ("flask", mkVulnerable "2.3" "CVE-2023-30861" "medium");
  ("requests", mkVulnerable "2.31" "CVE-2023-32681" "medium");
  ("pillow", mkVulnerable "10.0" "CVE-2023-44271" "high");
  ("jinja2", mkVulnerable "3.1" "CVE-2024-22195" "medium");
  ("express", mkVulnerable "4.19" "Multiple" "medium");
  ("lodash", mkVulnerable "4.17.21" "CVE-2021-23337" "high");
  ("jquery", mkVulnerable "3.6" "CVE-2020-23064" "medium");
  ("cryptography", mkVulnerable "41.0" "CVE-2023-49083" "high");
  ("pyyaml", mkVulnerable "6.0" "CVE-2020-1747" "critical")].
