(* ===== verification/Scanner.v ===== *)
(** * The security scanner ([noema/modules/security_scanner/kernel.py])

    The four scans over the tables of [ScannerData], and the module that chooses among them
    for a task.  The counter that numbers the findings is the state of the scanner. *)
From Stdlib Require Import ZArith QArith Lia Bool Ascii String.
From stdpp Require Import base option numbers sets strings list pretty.
From S2P Require Import Prelude Regex Memory CoreTypes Security ScannerData.
Local Open Scope string_scope.
Local Open Scope list_scope.
Local Open Scope nat_scope.

Record Vulnerability := mkVuln {
  v_id : string; severity : string; category : string; v_file : string; v_line : nat; v_description : string; v_cwe : string; v_recommendation : string;
}.

Record ScanResult := mkScan { vulnerabilities : list Vulnerability; score : Z; scan_summary : list (string * Z) }.

(** ** Searching *)
Definition accepted (p : rx) (prev : option ascii) (s : string) : bool :=
  forallb (λ r, match rmatch r prev s [] (λ _ _ _, Some ()) with Some _ => false | None => true end) (not_followed p) && (negb (at_end p) || negb (nonempty s)).

(** [re.search(pattern, line)] *)
Fixpoint found_from (p : rx) (prev : option ascii) (s : string) : bool :=
  match rmatch (body p) prev s [] (λ prev s _, if accepted p prev s then Some () else None) with
  | Some _ => true
  | None => match s with String a s => found_from p (Some a) s | EmptyString => false end
  end.
Definition found (p : rx) (line : string) : bool := found_from p None line.

(** The number of the first line, from [i] on, with a match. *)
Fixpoint first_line (p : rx) (i : nat) (lines : list string) : option (nat * string) :=
  match lines with
  | [] => None
  | l :: lines => if found p l then Some (i, l) else first_line p (S i) lines
  end.

(** [_next_id]: at least four digits. *)
Fixpoint pad (width : nat) (s : string) : string := if width <=? String.length s then s else match width with O => s | S w => String "0" (pad w s) end.
Definition vuln_id (n : nat) : string := "VULN-" +:+ pad 4 (pretty n).

Fixpoint spaces (s : string) : string := match s with "" => "" | String a s => String (if Ascii.eqb a "_" then " "%char else a) (spaces s) end.

Definition report (cat : string) (info : pattern_info) (file : string) (n : nat) (hit : nat * string) : Vulnerability :=
  mkVuln (vuln_id n) (i_severity info) cat file hit.1 ("Potential " +:+ spaces cat +:+ " detected: " +:+ String.substring 0 80 (strip hit.2)) (i_cwe info) (i_recommendation info).

(** [_check_patterns]: one report for every pattern that matches a line, at the first such line;
    with the counter. *)
Fixpoint check_list (make : nat → nat * string → Vulnerability) (patterns : list rx) (lines : list string) (n : nat) : nat * list Vulnerability :=
  match patterns with
  | [] => (n, [])
  | p :: ps =>
      match first_line p 1 lines with
      | Some hit => let '(m, l) := check_list make ps lines (S n) in (m, make (S n) hit :: l)
      | None => check_list make ps lines n
      end
  end.

Definition _check_patterns (code cat : string) (info : pattern_info) (file : string) (n : nat) : nat * list Vulnerability :=
  check_list (report cat info file) (i_patterns info) (split_nl code) n.

(** ** Scans *)
Definition lang_applies (lang cat : string) : bool :=
  match dget cat [("sql_injection", ["python"; "javascript"; "typescript"; "java"; "php"; "ruby"]); ("xss", ["python"; "javascript"; "typescript"; "html"; "jsx"; "tsx"]);
                  ("insecure_deserialization", ["python"; "java"]); ("ssrf", ["python"; "javascript"; "typescript"; "go"]);
                  ("weak_crypto", ["python"; "javascript"; "typescript"; "java"; "go"])] with
  | Some langs => existsb (String.eqb (lower lang)) langs
  | None => true
  end.

Definition applicable (lang : string) : list (string * pattern_info) := List.filter (λ e, lang_applies lang e.1) KNOWN_VULNERABILITY_PATTERNS.

Fixpoint scan_categories (code : string) (cats : list (string * pattern_info)) (n : nat) : nat * list Vulnerability :=
  match cats with
  | [] => (n, [])
  | (cat, info) :: cats =>
      let '(n, l) := _check_patterns code cat info "<input>" n in
      let '(n, k) := scan_categories code cats n in (n, l ++ k)
  end.

Definition deduct (points : Z) (l : list Vulnerability) : Z := Z.max 0 (100 - Z.of_nat (length l) * points).

Definition count_severity (d : list (string * Z)) (v : Vulnerability) : list (string * Z) := dset (severity v) (default 0%Z (dget (severity v) d) + 1)%Z d.
Definition severity_counts (l : list Vulnerability) : list (string * Z) :=
  foldl count_severity [("critical", 0%Z); ("high", 0%Z); ("medium", 0%Z); ("low", 0%Z); ("info", 0%Z)] l.

(** The summary: the number of reports, then those of every severity. *)
Definition scan_code (code lang : string) : ScanResult :=
  let '(_, vulns) := scan_categories code (applicable lang) 0 in
  mkScan vulns (deduct 5 vulns) (("total", Z.of_nat (length vulns)) :: severity_counts vulns).

Definition dependency (line pkg : string) (info : vulnerable) (n : nat) : Vulnerability :=
  mkVuln (vuln_id n) (v_severity info) "vulnerable_dependency" "deps" 0 ("Potentially vulnerable dependency: " +:+ strip line +:+ " (" +:+ cve info +:+ ")") "CWE-1395"
    ("Upgrade " +:+ pkg +:+ " to " +:+ below info +:+ " or later").

Fixpoint scan_packages (line : string) (pkgs : list (string * vulnerable)) (n : nat) : nat * list Vulnerability :=
  match pkgs with
  | [] => (n, [])
  | (pkg, info) :: pkgs =>
      if contains (lower pkg) (lower line) then let '(m, l) := scan_packages line pkgs (S n) in (m, dependency line pkg info (S n) :: l)
      else scan_packages line pkgs n
  end.

Fixpoint scan_lines (lines : list string) (n : nat) : nat * list Vulnerability :=
  match lines with
  | [] => (n, [])
  | line :: lines =>
      let line := strip line in
      if negb (nonempty line) || String.prefix "#" line then scan_lines lines n
      else let '(n, l) := scan_packages line known_vulnerable n in let '(n, k) := scan_lines lines n in (n, l ++ k)
  end.

Definition scan_dependencies (content : string) : ScanResult :=
  let lines := split_nl (strip content) in
  let '(_, vulns) := scan_lines lines 0 in
  mkScan vulns (deduct 10 vulns) [("total", Z.of_nat (length vulns)); ("packages_scanned", Z.of_nat (length lines))].

(** A line is reported once, for the first pattern of a secret that matches it. *)
Fixpoint secrets_from (i : nat) (lines : list string) (n : nat) : nat * list Vulnerability :=
  match lines with
  | [] => (n, [])
  | line :: lines =>
      match List.find (λ p, found p.1 line) secret_patterns with
      | Some (_, desc) =>
          let '(m, l) := secrets_from (S i) lines (S n) in
          (m, mkVuln (vuln_id (S n)) "critical" "hardcoded_secret" "<input>" i (desc +:+ ": " +:+ String.substring 0 60 (strip line) +:+ "...") "CWE-798"
                "Move secrets to environment variables or a secrets manager" :: l)
      | None => secrets_from (S i) lines n
      end
  end.

Definition scan_secrets (code : string) : ScanResult :=
  let '(_, vulns) := secrets_from 1 (split_nl code) 0 in mkScan vulns (deduct 10 vulns) [("secrets_found", Z.of_nat (length vulns))].

Definition owasp_report (cat : string) (info : owasp_info) (n : nat) (hit : nat * string) : Vulnerability :=
  mkVuln (vuln_id n) "high" cat "<input>" hit.1 ("OWASP " +:+ cat +:+ ": " +:+ o_description info) (o_cwe info) ("Review code at line " +:+ pretty hit.1 +:+ " for " +:+ cat +:+ " vulnerability").

Fixpoint owasp_categories (lines : list string) (cats : list (string * owasp_info)) (n : nat) : nat * list Vulnerability :=
  match cats with
  | [] => (n, [])
  | (cat, info) :: cats =>
      let '(n, l) := check_list (owasp_report cat info) (o_patterns info) lines n in
      let '(n, k) := owasp_categories lines cats n in (n, l ++ k)
  end.

Definition owasp_check (code : string) : ScanResult :=
  let '(_, vulns) := owasp_categories (split_nl code) OWASP_TOP_10 0 in
  mkScan vulns (deduct 8 vulns) [("owasp_findings", Z.of_nat (length vulns)); ("categories_checked", Z.of_nat (length OWASP_TOP_10))].

(** ** The module *)

(** What the module looks at of a task: the content and the metadata, if it has any. *)
Record scan_task := mkScanTask { st_title : string; st_tags : list string; st_content : option string; st_metadata : option (list (string * string)) }.

Definition scan_type (t : scan_task) : string :=
  let given := match st_metadata t with Some m => default "code" (dget "scan_type" m) | None => "code" end in
  let title := lower (st_title t) in
  let tagged x := bool_decide (x ∈ st_tags t) in
  if tagged "secret" || contains "secrets" title then "secrets"
  else if contains "dependency" title || tagged "deps" then "dependencies"
  else if contains "owasp" title || tagged "owasp" then "owasp"
  else given.

Definition execute (t : scan_task) : string * ScanResult :=
  let code := default "" (st_content t) in
  let meta k d := match st_metadata t with Some m => default d (dget k m) | None => d end in
  let deps := meta "deps" "" in
  let ty := scan_type t in
  (ty, if String.eqb ty "secrets" then scan_secrets code
       else if String.eqb ty "dependencies" then scan_dependencies (if nonempty deps then deps else code)
       else if String.eqb ty "owasp" then owasp_check code
       else scan_code code (meta "language" "python")).

(** A task of the engine has neither content nor metadata. *)
Definition of_task (t : Task) : scan_task := mkScanTask (CoreTypes.title t) (CoreTypes.tags t) None None.

(** ** What is reported *)

(** The first line with a match, and none before it. *)
Lemma first_line_spec p i lines :
  match first_line p i lines with
  | Some (j, l) => i <= j ∧ lines !! (j - i) = Some l ∧ found p l = true ∧ ∀ k l', k < j - i → lines !! k = Some l' → found p l' = false
  | None => Forall (λ l, found p l = false) lines
  end.
Proof.
  revert i. induction lines as [|l lines IH]; intros i; [constructor|]. cbn [first_line]. destruct (found p l) eqn:E.
  - split_and!; [lia|by rewrite Nat.sub_diag|done|lia].
  - specialize (IH (S i)). destruct (first_line p (S i) lines) as [[j l']|]; [|by constructor]. destruct IH as (H1 & H2 & H3 & H4).
    replace (j - i) with (S (j - S i)) by lia. split_and!; [lia|done|done|]. intros [|k] l'' Hk Hl; [by injection Hl as <-|]. eapply H4; [|exact Hl]. lia.
Qed.

(** A report, with the pattern and the line it is for. *)
Record reported (lines : list string) (cat : string) (sev : string) (patterns : list rx) (v : Vulnerability) : Prop := {
  rp_category : category v = cat;
  rp_severity : severity v = sev;
  rp_line : ∃ p l, p ∈ patterns ∧ lines !! pred (v_line v) = Some l ∧ found p l = true ∧ ∀ k l', k < pred (v_line v) → lines !! k = Some l' → found p l' = false;
}.

Lemma check_list_spec make cat sev patterns lines n :
  (∀ n hit, category (make n hit) = cat ∧ severity (make n hit) = sev ∧ v_line (make n hit) = hit.1 ∧ v_id (make n hit) = vuln_id n) →
  let '(m, l) := check_list make patterns lines n in
  m = n + length l ∧ map v_id l = map vuln_id (seq (S n) (length l)) ∧ Forall (reported lines cat sev patterns) l
  ∧ length l = length (List.filter (λ p, existsb (found p) lines) patterns).
Proof.
  intros Hm. assert (∀ ps ps', ps ⊆ ps' → ∀ l, Forall (reported lines cat sev ps) l → Forall (reported lines cat sev ps') l) as Hmono.
  { intros ps ps' Hs l Hl. eapply Forall_impl; [exact Hl|]. intros v [H1 H2 (p & x & Hp & H3)]. split; [done|done|]. exists p, x. by split; [apply Hs|]. }
  revert n. induction patterns as [|p ps IH]; intros n; [by split_and!; [cbn; lia|..]|]. cbn [check_list List.filter].
  assert (ps ⊆ p :: ps) as Hsub by set_solver. pose proof (first_line_spec p 1 lines) as Hf. destruct (first_line p 1 lines) as [[j x]|].
  - destruct Hf as (H1 & H2 & H3 & H4). specialize (IH (S n)). destruct (check_list make ps lines (S n)) as [m l]. destruct IH as (-> & Hi & Hr & Hl).
    destruct (Hm (S n) (j, x)) as (Hc & Hs & Hli & Hid). cbn [fst] in Hli. cbn [List.length map seq]. split_and!; [lia|by rewrite Hid, Hi| |].
    + constructor; [|by eapply Hmono]. split; [done|done|]. rewrite Hli. exists p, x. replace (pred j) with (j - 1) by lia. split_and!; [left|done|done|done].
    + assert (existsb (found p) lines = true) as ->; [|by cbn; rewrite Hl]. apply existsb_exists. exists x. split; [|done]. apply list_elem_of_In. by eapply list_elem_of_lookup_2.
  - specialize (IH n). destruct (check_list make ps lines n) as [m l]. destruct IH as (-> & Hi & Hr & Hl). split_and!; [done|done|by eapply Hmono|].
    assert (existsb (found p) lines = false) as ->; [|done]. apply Bool.not_true_iff_false. rewrite existsb_exists. intros (x & Hx & Hfx). apply list_elem_of_In in Hx.
    rewrite Forall_forall in Hf. by rewrite (Hf x Hx) in Hfx.
Qed.

(** All patterns of some categories. *)
Definition patterns_of (cats : list (string * pattern_info)) : list rx := concat (map (λ e, i_patterns e.2) cats).

Lemma scan_categories_spec code cats n :
  let '(m, l) := scan_categories code cats n in
  m = n + length l ∧ map v_id l = map vuln_id (seq (S n) (length l))
  ∧ Forall (λ v, ∃ cat info, (cat, info) ∈ cats ∧ reported (split_nl code) cat (i_severity info) (i_patterns info) v) l
  ∧ length l = length (List.filter (λ p, existsb (found p) (split_nl code)) (patterns_of cats)).
Proof.
  revert n. induction cats as [|[cat info] cats IH]; intros n; [by split_and!; [cbn; lia|..]|]. cbn [scan_categories]. unfold _check_patterns.
  pose proof (check_list_spec (report cat info "<input>") cat (i_severity info) (i_patterns info) (split_nl code) n) as Hc.
  destruct (check_list _ (i_patterns info) (split_nl code) n) as [m l]. destruct Hc as (-> & Hi & Hr & Hl); [done|].
  specialize (IH (n + length l)). destruct (scan_categories code cats (n + length l)) as [m k]. destruct IH as (-> & Hi' & Hr' & Hl').
  rewrite length_app. split_and!; [lia|by rewrite map_app, Hi, Hi', seq_app, map_app| |].
  - apply Forall_app. split; eapply Forall_impl; [exact Hr| |exact Hr'|]; cbv beta; [intros v Hv; exists cat, info; split; [left|done]|].
    intros v (c & i & Hin & Hv). exists c, i. split; [by right|done].
  - unfold patterns_of in *. cbn [map concat snd]. by rewrite List.filter_app, length_app, Hl, Hl'.
Qed.

Lemma filter_length_zero {A} (f : A → bool) l : length (List.filter f l) = 0 ↔ Forall (λ x, f x = false) l.
Proof.
  induction l as [|x l IH]; cbn; [by split; [constructor|]|]. rewrite Forall_cons. destruct (f x); cbn; [|by rewrite IH; naive_solver]. split; [lia|naive_solver].
Qed.

Lemma deduct_bounds points l : (0 < points)%Z → (0 <= deduct points l <= 100)%Z ∧ (deduct points l = 100%Z ↔ length l = 0).
Proof. unfold deduct. intros Hp. split; [nia|]. split; [|intros ->; lia]. intros H. destruct (length l); [done|nia]. Qed.

(** A scan reports exactly what its patterns match.  Reports are numbered from 1 on, there is one
    for every pattern of an applicable category that matches some line, with the category's
    severity and the number of the first line that matches, and the score is 100 exactly if
    no applicable pattern matches any line. *)
Theorem scan_code_exact code lang : let r := scan_code code lang in
  map v_id (vulnerabilities r) = map vuln_id (seq 1 (length (vulnerabilities r)))
  ∧ Forall (λ v, ∃ cat info, (cat, info) ∈ applicable lang ∧ reported (split_nl code) cat (i_severity info) (i_patterns info) v) (vulnerabilities r)
  ∧ length (vulnerabilities r) = length (List.filter (λ p, existsb (found p) (split_nl code)) (patterns_of (applicable lang)))
  ∧ (0 <= score r <= 100)%Z
  ∧ (score r = 100%Z ↔ ∀ p l, p ∈ patterns_of (applicable lang) → l ∈ split_nl code → found p l = false).
Proof.
  cbv zeta. unfold scan_code. pose proof (scan_categories_spec code (applicable lang) 0) as Hs. destruct (scan_categories code (applicable lang) 0) as [m l].
  destruct Hs as (-> & Hi & Hr & Hl). cbn [vulnerabilities score]. destruct (deduct_bounds 5 l ltac:(lia)) as [Hb H100]. split_and!; [done|done|done|lia|lia|].
  rewrite H100, Hl, filter_length_zero, Forall_forall. split.
  - intros H p x Hp Hx. specialize (H p Hp). cbn in H. apply Bool.not_true_iff_false. intros Hf. apply Bool.not_true_iff_false in H. apply H, existsb_exists. exists x. by rewrite <- list_elem_of_In.
  - intros H p Hp. apply Bool.not_true_iff_false. rewrite existsb_exists. intros (x & Hx & Hf). apply list_elem_of_In in Hx. by rewrite (H p x Hp Hx) in Hf.
Qed.

(** ** Runs *)

(** A task of the engine has no content: whatever it is about, the module finds nothing and gives
    the full score. *)
Lemma engine_task_scans_nothing t : vulnerabilities (execute (of_task t)).2 = [] ∧ score (execute (of_task t)).2 = 100%Z.
Proof.
  unfold execute. cbn [st_content st_metadata of_task default from_option snd]. destruct (String.eqb _ "secrets"); [by vm_compute|].
  destruct (String.eqb _ "dependencies"); [by vm_compute|]. destruct (String.eqb _ "owasp"); by vm_compute.
Qed.

(** The version of a dependency is not looked at, and a package is found inside of other names. *)
Example versions_ignored :
  (λ r, (map severity (vulnerabilities r), score r)) (scan_dependencies "django==5.1") = (["high"], 90%Z)
  ∧ map v_recommendation (vulnerabilities (scan_dependencies "requests-toolbelt==1.0")) = ["Upgrade requests to 2.31 or later"].
Proof. vm_compute. done. Qed.

(** The report of a secret contains the secret. *)
Example secret_in_report :
  let q := String "034" "" in
  map v_description (vulnerabilities (scan_secrets ("password = " +:+ q +:+ "hunter22" +:+ q))) = ["Hardcoded password: password = " +:+ q +:+ "hunter22" +:+ q +:+ "..."].
Proof. vm_compute. done. Qed.

(** A loader that is named after the call is a safe call of YAML, one that is an argument is not. *)
Example yaml_loader :
  map category (vulnerabilities (scan_code "yaml.load(f)" "java")) = ["insecure_deserialization"]
  ∧ map category (vulnerabilities (scan_code "yaml.load(f, Loader=yaml.SafeLoader)" "java")) = ["insecure_deserialization"]
  ∧ vulnerabilities (scan_code "yaml.load(f)  # Loader" "java") = [].
Proof. vm_compute. done. Qed.
