(* ===== verification/Quality.v ===== *)
(** * Code quality ([noema/modules/quality/kernel.py])

    Metrics, smells and grades of source text, by lines and regular expressions ([Regex]).
    The logarithm of the maintainability index is a parameter; floats are exact rationals. *)
From Stdlib Require Import ZArith QArith Lqa Lia Bool Ascii String.
From stdpp Require Import base option numbers sets strings list pretty.
From S2P Require Import Prelude Regex Memory Causal Security Tracer Scanner.
Local Open Scope string_scope.
Local Open Scope list_scope.
Local Open Scope nat_scope.

(** ** Expressions *)

(** [re.match]: at the beginning only. *)
Definition re_match (r : re) (s : string) : option captures := rmatch r None s [] (λ _ _ caps, Some caps).
Definition matches (r : re) (s : string) : bool := match Regex.search r s with Some _ => true | None => false end.

(** [\bw\b] for one of some words. *)
Definition word (w : string) : re := seqs [WB; lit w; WB].
Definition words_re (l : list string) : re := alts (map word l).

Definition def_re : re := seqs [sp0; lit "def"; sps; Grp 1 (plus (Ch is_word)); sp0; lit "("].
Definition class_re : re := seqs [sp0; lit "class"; sps; Grp 1 (plus (Ch is_word))].
Definition method_re : re := seqs [sp0; lit "def"; sps].
Definition return_re : re := alts [seqs [word "return"; Star any; word "and"]; seqs [word "return"; Star any; word "or"]].
Definition block_re : re := seqs [sp0; alts (map lit ["def"; "class"; "if"; "else"; "elif"; "try"; "except"; "finally"; "for"; "while"]); sp].
Definition else_if_re : re := alts [word "if"; seqs [WB; lit "else"; sps; lit "if"; WB]; word "elif"].
Definition else_colon_re : re := seqs [word "else"; sp0; lit ":"].

(** ** Functions and classes

    A function lasts until the next one begins, or the text ends. *)
Record func := mkFunc { f_name : string; f_start : nat; f_end : nat; f_complexity : nat; nesting_depth : Z }.

Definition indent_of (line : string) : nat := String.length line - String.length (lstrip line).

Definition bump (b : bool) (n : nat) : nat := if b then S n else n.

(** What a line adds to the function it is in. *)
Definition count_line (line : string) (i : nat) (f : func) : func :=
  let stripped := strip line in
  let nesting := (Z.of_nat (indent_of line) - 3)%Z in
  mkFunc (f_name f) (f_start f) i
    (bump (matches return_re stripped) (bump (matches (word "except") stripped) (bump (matches (words_re ["for"; "while"]) stripped)
      (bump (matches (words_re ["if"; "elif"; "and"; "or"; "case"]) stripped) (f_complexity f)))))
    (Z.max (nesting_depth f) (nesting / 4)).

(** The loop: functions that have ended, the current one, the lines of classes. *)
Record scan := mkScanState { fs_done : list func; current : option func; classes : list (string * nat) }.

Definition scan_line (s : scan) (il : nat * string) : scan :=
  let '(i, line) := il in
  let fm := re_match def_re line in
  let '(fin, cur) := match fm with
                     | Some caps => (fs_done s ++ option_list (current s), Some (mkFunc (group 1 caps) i i 1 0))
                     | None => (fs_done s, current s)
                     end in
  mkScanState fin (count_line line i <$> cur)
    (match re_match class_re line, fm with Some caps, None => classes s ++ [(group 1 caps, i)] | _, _ => classes s end).

Definition number (from : nat) (lines : list string) : list (nat * string) := imap (λ k l, (from + k, l)) lines.

Definition scan_text (lines : list string) : list func * list (string * nat) :=
  let s := foldl scan_line (mkScanState [] None []) (number 1 lines) in (fs_done s ++ option_list (current s), classes s).

(** ** Metrics *)
Definition is_comment (line : string) : bool :=
  let t := strip line in String.prefix "#" t || String.prefix "//" t || String.prefix "/*" t || String.prefix "*" t.

Definition countb {A} (p : A → bool) (l : list A) : nat := length (List.filter p l).

(** [_calc_cognitive_complexity], line by line *)
Fixpoint count_sub (fuel : nat) (sub s : string) : nat :=
  match fuel with
  | O => 0
  | S fuel => match index 0 sub s with Some i => S (count_sub fuel sub (String.substring (i + String.length sub) (String.length s) s)) | None => 0 end
  end.

Definition cognitive_line (line : string) : nat :=
  let t := strip line in
  if matches else_if_re t || matches (words_re ["for"; "while"]) t then 1 + indent_of line / 4
  else if matches (word "except") t then 1
  else if matches (word "else") t then (if matches else_colon_re t then 1 else 0)
  else if matches (words_re ["and"; "or"]) t then count_sub (S (String.length t)) " and " t + count_sub (S (String.length t)) " or " t
  else if matches (words_re ["break"; "continue"]) t then 1 else 0.

Definition _calc_cognitive_complexity (code : string) : nat := sum_list (map cognitive_line (split_nl code)).

(** Windows of three lines that have occurred before. *)
Fixpoint windows (l : list string) : list (list string) :=
  match l with
  | a :: ((b :: c :: _) as l') => [a; b; c] :: windows l'
  | _ => []
  end.

Fixpoint repeated (seen : list (list string)) (l : list (list string)) : nat :=
  match l with
  | [] => 0
  | w :: l => if bool_decide (w ∈ seen) then 3 + repeated seen l else repeated (w :: seen) l
  end.

Definition _calc_duplication (code : string) : Q :=
  let lines := List.filter (λ t, nonempty t && negb (String.prefix "#" t) && negb (String.prefix "//" t)) (map strip (split_nl code)) in
  if length lines <? 3 then 0%Q
  else (inject_Z (Z.of_nat (repeated [] (windows lines))) / inject_Z (Z.of_nat (length lines)) * 100)%Q.

Record metrics := mkMetrics {
  total_lines : nat; code_lines : Z; blank_lines : nat; comment_lines : nat; comment_ratio : Q; n_functions : nat; n_classes : nat;
  cyclomatic_complexity : nat; avg_cyclomatic_complexity : Q; max_cyclomatic_complexity : nat; cognitive_complexity : nat;
  maintainability_index : Q; loc_per_function : Q; duplication_ratio : Q; function_details : list (string * nat * nat);
}.

Definition qn (n : nat) : Q := inject_Z (Z.of_nat n).
Definition round2 (x : Q) : Q := (inject_Z (round_half_even (x * 100)) / 100)%Q.

Section metrics.
Context (log : Q → Q).

Definition mi_raw (code_lines : Z) (complexity : nat) (duplication : Q) : Q :=
  if (0 <? code_lines)%Z
  then (171 - (52 # 10) * log (inject_Z (Z.max 1 code_lines)) - (23 # 100) * qn complexity - (162 # 10) * log (Qmaxb 1 duplication))%Q
  else 100%Q.

Definition complexity (code : string) : metrics :=
  let lines := split_nl code in
  let total := length lines in
  let blank := countb (λ l, negb (nonempty (strip l))) lines in
  let comments := countb is_comment lines in
  let code_ls := (Z.of_nat total - Z.of_nat blank - Z.of_nat comments)%Z in
  let '(fs, cls) := scan_text lines in
  let n := length fs in
  let total_c := match fs with [] => 1 | _ => sum_list (map f_complexity fs) end in
  let avg := match fs with [] => 0%Q | _ => (qn total_c / qn n)%Q end in
  let loc := match fs with [] => inject_Z code_ls | _ => (inject_Z code_ls / qn n)%Q end in
  let dup := _calc_duplication code in
  mkMetrics total code_ls blank comments (round1 (qn comments / inject_Z (Z.max 1 code_ls) * 100)) n (length cls)
    total_c (round2 avg) (foldr Nat.max 0 (map f_complexity fs)) (_calc_cognitive_complexity code)
    (round1 (Qmaxb 0 (Qminb 100 (mi_raw code_ls total_c dup)))) (round1 loc) (round2 dup)
    (map (λ f, (f_name f, f_complexity f, f_end f - f_start f + 1)) fs).
End metrics.

(** ** Grades *)
Definition points (m : metrics) : Z :=
  let cc := Z.of_nat (max_cyclomatic_complexity m) in
  let mi := maintainability_index m in
  let cog := Z.of_nat (cognitive_complexity m) in
  let dup := duplication_ratio m in
  let lt a b := Qltb a b in
  (100 - (if 25 <? cc then 25 else if 15 <? cc then 15 else if 10 <? cc then 8 else if 5 <? cc then 3 else 0)
       - (if lt mi 20%Q then 25 else if lt mi 40%Q then 15 else if lt mi 60%Q then 8 else 0)
       - (if 50 <? cog then 20 else if 25 <? cog then 10 else if 15 <? cog then 5 else 0)
       - (if lt 20%Q dup then 20 else if lt 10%Q dup then 10 else if lt 5%Q dup then 5 else 0)
       - (if lt (comment_ratio m) 5%Q || lt 50%Q (comment_ratio m) then 5 else 0))%Z.

Definition grade_score (m : metrics) : Z := Z.max 0 (Z.min 100 (points m)).

Definition letter (score : Z) : string :=
  if (90 <=? score)%Z then "A" else if (80 <=? score)%Z then "B" else if (70 <=? score)%Z then "C" else if (60 <=? score)%Z then "D"
  else if (40 <=? score)%Z then "E" else "F".

Definition recommendations (m : metrics) : list string :=
  let l := (if 10 <? max_cyclomatic_complexity m then ["Reduce cyclomatic complexity by simplifying conditional logic"] else [])
    ++ (if Qltb (maintainability_index m) 50 then ["Improve maintainability by reducing code complexity and adding documentation"] else [])
    ++ (if 20 <? cognitive_complexity m then ["Reduce cognitive complexity by flattening nested conditions"] else [])
    ++ (if Qltb 10 (duplication_ratio m) then ["Extract duplicate code into shared functions"] else [])
    ++ (if Qltb (comment_ratio m) 10 then ["Add more documentation and comments"] else [])
    ++ (if Qltb 30 (loc_per_function m) then ["Break long functions into smaller, focused ones"] else []) in
  match l with [] => ["Code quality is good. Keep up the practices!"] | _ => l end.

Definition grade (m : metrics) : string * Z * list string := (letter (grade_score m), grade_score m, recommendations m).

(** ** Smells *)
Record smell := mkSmell { s_type : string; location : string; s_severity : string; s_description : string; s_recommendation : string }.

(** The functions and the classes of this scan, with their methods; lines count from 0. *)
Record block := mkBlockSpan { b_name : string; b_start : nat; b_end : nat; methods : nat }.

Definition block_line (head : re) (counted : re) (s : list block * option block) (il : nat * string) : list block * option block :=
  let '(i, line) := il in
  let '(fin, cur) := match re_match head line with
                     | Some caps => (s.1 ++ option_list s.2, Some (mkBlockSpan (group 1 caps) i i 0))
                     | None => s
                     end in
  (fin, (λ b, mkBlockSpan (b_name b) (b_start b) i (bump (match re_match counted line with Some _ => true | None => false end) (methods b))) <$> cur).

Definition blocks (head counted : re) (lines : list string) : list block :=
  let '(fin, cur) := foldl (block_line head counted) ([], None) (number 0 lines) in fin ++ option_list cur.

Definition b_length (b : block) : nat := b_end b - b_start b + 1.

Definition apostrophe : string := String "039" "".
Definition named (what : string) (b : block) : string := what +:+ " " +:+ apostrophe +:+ b_name b +:+ apostrophe +:+ " (line " +:+ pretty (b_start b + 1) +:+ ")".

Definition long_methods (lines : list string) : list smell :=
  map (λ b, mkSmell "long_method" (named "function" b) (if 100 <? b_length b then "high" else "medium")
              ("Function " +:+ apostrophe +:+ b_name b +:+ apostrophe +:+ " is " +:+ pretty (b_length b) +:+ " lines long")
              "Break into smaller functions; aim for <30 lines per function")
    (List.filter (λ b, 50 <? b_length b) (blocks def_re method_re lines)).

Definition god_classes (lines : list string) : list smell :=
  map (λ b, mkSmell "god_class" (named "class" b) "high"
              ("Class " +:+ apostrophe +:+ b_name b +:+ apostrophe +:+ " is " +:+ pretty (b_length b) +:+ " lines with " +:+ pretty (methods b) +:+ " methods")
              "Split into smaller, focused classes following SRP")
    (List.filter (λ b, (200 <? b_length b) || (15 <? methods b)) (blocks class_re method_re lines)).

Definition deep_nesting (lines : list string) : list smell :=
  omap (λ il : nat * string,
    let t := strip il.2 in
    let depth := indent_of il.2 / 4 in
    if existsb (λ k, String.prefix k t) ["if "; "for "; "while "; "with "] && (3 <? depth)
    then Some (mkSmell "deep_nesting" ("line " +:+ pretty (il.1 + 1)) (if 4 <? depth then "high" else "medium")
                 ("Nesting depth of " +:+ pretty depth +:+ " at line " +:+ pretty (il.1 + 1)) "Use early returns, extract conditions, or restructure logic")
    else None) (number 0 lines).

(** Numbers of at least two digits with neither a word character nor a point beside them: the
    runs of digits that begin and end so. *)
Definition glued (a : option ascii) : bool := match a with Some a => is_word a || Ascii.eqb a "." | None => false end.

Fixpoint digit_runs (prev : option ascii) (run : string) (s : string) : list string :=
  let close (next : option ascii) := if (2 <=? String.length run) && negb (glued prev) && negb (glued next) then [run] else [] in
  match s with
  | "" => close None
  | String a s =>
      if is_digit a then digit_runs prev (run +:+ String a "") s
      else close (Some a) ++ digit_runs (Some a) "" s
  end.

(** [seen_magics] keeps the first of equal numbers. *)
Fixpoint first_of_each (seen l : list Z) : list Z :=
  match l with
  | [] => []
  | n :: l => if bool_decide (n ∈ [0; 1; 2; 10; 100]%Z ++ seen) then first_of_each seen l else n :: first_of_each (n :: seen) l
  end.

Definition magic_smells (code : string) : list smell :=
  map (λ n : Z, mkSmell "magic_number" "codebase" "low" ("Magic number " +:+ pretty n +:+ " found") ("Extract " +:+ pretty n +:+ " into a named constant"))
    (first_of_each [] (omap (λ r, digits_value r 0) (digit_runs None "" code))).

Definition dead_code (lines : list string) : list smell :=
  omap (λ il : nat * string,
    let '(i, line) := il in
    let t := strip line in
    let before := match i with O => None | S j => lines !! j end in
    if (String.eqb t "pass" || String.eqb t "...")
       && match before with Some b => match re_match block_re b with Some _ => true | None => false end | None => false end
    then Some (mkSmell "dead_code" ("line " +:+ pretty (i + 1)) "low" ("Empty block: " +:+ apostrophe +:+ t +:+ apostrophe +:+ " at line " +:+ pretty (i + 1)) "Implement or remove dead code blocks")
    else None) (number 0 lines).

Definition count_text (d : list (string * nat)) (l : string) : list (string * nat) := dset l (S (default 0 (dget l d))) d.

Definition _find_duplicate_lines (code : string) : list (string * nat) :=
  List.filter (λ p, 1 <? p.2) (foldl count_text [] (List.filter (λ t, nonempty t && (10 <? String.length t)) (map strip (split_nl code)))).

Definition duplicate_smells (code : string) : list smell :=
  let n := length (_find_duplicate_lines code) in
  if 3 <? n then [mkSmell "duplicate_code" "codebase" "medium" (pretty n +:+ " groups of duplicate code detected") "Extract duplicated logic into shared functions or utilities"] else [].

Definition swallowed (lines : list string) : list smell :=
  omap (λ il : nat * string,
    let '(i, line) := il in
    let t := strip line in
    let next := match lines !! S i with Some l => strip l | None => "" end in
    if (contains "except:" t || contains "except Exception" t) && (String.eqb next "pass" || String.prefix "#" next)
    then Some (mkSmell "swallowed_exception" ("line " +:+ pretty (i + 1)) "medium" "Exception caught and silently ignored" "Log the exception or handle it appropriately")
    else None) (number 0 lines).

(** The smells in the order of the checks, numbered from 1 on. *)
Definition smells (code : string) : list (string * smell) :=
  let lines := split_nl code in
  imap (λ k s, ("SMELL-" +:+ pad 4 (pretty (S k)), s))
    (long_methods lines ++ god_classes lines ++ deep_nesting lines ++ magic_smells code ++ dead_code lines ++ duplicate_smells code ++ swallowed lines).

Definition analyze (log : Q → Q) (code : string) : string * Z * list string * metrics * list (string * smell) :=
  let m := complexity log code in (grade m, m, smells code).

(** ** The module *)
Inductive quality_answer :=
| NoCode (action : string)
| Complexity (m : metrics)
| Smells (l : list (string * smell))
| Full (r : string * Z * list string * metrics * list (string * smell)).

Definition action_of (title : string) (tags : list string) : string :=
  let title := lower title in
  let tagged x := bool_decide (x ∈ tags) in
  if contains "complexity" title || tagged "complexity" then "complexity"
  else if contains "smell" title || tagged "smells" then "smells"
  else if contains "grade" title || tagged "score" then "grade" else "full".

Definition execute (log : Q → Q) (title : string) (tags : list string) (content : option string) : quality_answer :=
  let code := default "" content in
  let action := action_of title tags in
  if negb (nonempty code) then NoCode action
  else if String.eqb action "complexity" then Complexity (complexity log code)
  else if String.eqb action "smells" then Smells (smells code)
  else Full (analyze log code).

(** ** Every line is counted once *)

(** Functions that follow each other without a gap: [tiles a l b] from line [a] to before [b]. *)
Inductive tiles : nat → list func → nat → Prop :=
| tiles_nil a : tiles a [] a
| tiles_cons a f l b : f_start f = a → a <= f_end f → tiles (S (f_end f)) l b → tiles a (f :: l) b.

Lemma tiles_app a l b k c : tiles a l b → tiles b k c → tiles a (l ++ k) c.
Proof. induction 1 as [|a f l b H1 H2 _ IH]; intros Hk; [done|]. constructor; auto. Qed.

Definition is_def (line : string) : bool := match re_match def_re line with Some _ => true | None => false end.

(** After the lines [lines]: no function yet, or functions from the first definition on. *)
Definition scanned (lines : list string) (s : scan) : Prop :=
  match current s with
  | None => fs_done s = [] ∧ Forall (λ l, is_def l = false) lines
  | Some c => ∃ a, tiles a (fs_done s) (f_start c) ∧ f_start c <= f_end c ∧ f_end c = length lines ∧ 1 <= a
      ∧ Forall (λ l, is_def l = false) (take (pred a) lines) ∧ is_def <$> (lines !! pred a) = Some true
  end.

Lemma number_snoc from lines l : number from (lines ++ [l]) = number from lines ++ [(from + length lines, l)].
Proof. unfold number. rewrite imap_app. cbn. by rewrite Nat.add_0_r. Qed.

Lemma scan_line_scanned lines l s : scanned lines s → scanned (lines ++ [l]) (scan_line s (S (length lines), l)).
Proof.
  intros H. unfold scanned, scan_line in *. destruct (re_match def_re l) as [caps|] eqn:Ed; cbn [current fs_done fmap option_fmap option_map].
  - assert (is_def l = true) as Hd by (unfold is_def; by rewrite Ed). cbn [count_line f_start f_end]. rewrite length_app. cbn [List.length].
    destruct (current s) as [c|]; cbn [option_list].
    + destruct H as (a & Ht & Hc & He & Ha & Hf & Hl). exists a. split_and!; [|lia|lia|done| |].
      * eapply tiles_app; [exact Ht|]. rewrite <- He. by constructor; [..|constructor].
      * rewrite take_app_le; [done|]. destruct (lines !! pred a) eqn:E; [|done]. apply lookup_lt_Some in E. lia.
      * destruct (lines !! pred a) eqn:E; [|done]. by rewrite (lookup_app_l_Some _ _ _ _ E).
    + destruct H as [-> Hf]. exists (S (length lines)). cbn [app pred]. split_and!; [constructor|lia|lia|lia|by rewrite take_app_length|].
      rewrite lookup_app_r, Nat.sub_diag by lia. cbn. by rewrite Hd.
  - assert (is_def l = false) as Hd by (unfold is_def; by rewrite Ed). destruct (current s) as [c|]; cbn [option_map].
    + destruct H as (a & Ht & Hc & He & Ha & Hf & Hl). exists a. cbn [count_line f_start f_end]. rewrite length_app. cbn [List.length]. split_and!; [done|lia|lia|done| |].
      * rewrite take_app_le; [done|]. destruct (lines !! pred a) eqn:E; [|done]. apply lookup_lt_Some in E. lia.
      * destruct (lines !! pred a) eqn:E; [|done]. by rewrite (lookup_app_l_Some _ _ _ _ E).
    + destruct H as [Hn Hf]. split; [done|]. apply Forall_app. by split; [|constructor].
Qed.

(** The functions that are measured follow each other from the first definition to the end of the
    text: every line from there on counts for exactly one function, and without a definition
    there are none. *)
Theorem functions_tile_text lines : let fs := (scan_text lines).1 in
  (fs = [] ∧ Forall (λ l, is_def l = false) lines)
  ∨ ∃ a, 1 <= a ∧ tiles a fs (S (length lines)) ∧ Forall (λ l, is_def l = false) (take (pred a) lines) ∧ is_def <$> (lines !! pred a) = Some true.
Proof.
  cbv zeta. unfold scan_text. assert (scanned lines (foldl scan_line (mkScanState [] None []) (number 1 lines))) as H.
  { induction lines as [|l lines IH] using rev_ind; [by split|]. rewrite number_snoc, foldl_app. by apply (scan_line_scanned lines l). }
  destruct (foldl _ _ _) as [fin cur cl]. unfold scanned in H. cbn [fst current fs_done] in *. destruct cur as [c|]; cbn [option_list].
  - right. destruct H as (a & Ht & Hc & He & Ha & Hf & Hl). exists a. split_and!; [done| |done|done]. eapply tiles_app; [exact Ht|]. rewrite <- He. by constructor; [..|constructor].
  - left. destruct H as [-> Hf]. done.
Qed.

Lemma prefix_nonempty p s : nonempty p = true → String.prefix p s = true → nonempty s = true.
Proof. by destruct p, s. Qed.

(** Lines are blank, comments or code, and the numbers say how many there are of each. *)
Lemma lines_add_up log code : let m := complexity log code in
  (Z.of_nat (blank_lines m) + Z.of_nat (comment_lines m) + code_lines m = Z.of_nat (total_lines m))%Z ∧ (0 <= code_lines m)%Z.
Proof.
  cbv zeta. unfold complexity. destruct (scan_text (split_nl code)) as [fs cls]. cbn [blank_lines comment_lines code_lines total_lines]. split; [lia|].
  assert (∀ l, countb (λ l, negb (nonempty (strip l))) l + countb is_comment l <= length l) as H; [|specialize (H (split_nl code)); lia].
  intros l. induction l as [|x l IH]; [done|]. unfold countb in *. cbn [List.filter List.length].
  assert (is_comment x = true → nonempty (strip x) = true) as Hx.
  { unfold is_comment. rewrite !orb_true_iff. intros [[[H|H]|H]|H]; by eapply prefix_nonempty in H. }
  destruct (nonempty (strip x)), (is_comment x); cbn [negb List.length]; (lia || by specialize (Hx eq_refl)).
Qed.

Lemma grade_bounds m : (0 <= grade_score m <= 100)%Z ∧ (grade_score m = points m).
Proof. unfold grade_score, points. cbv zeta. repeat case_match; lia. Qed.

(** ** Runs *)
Definition nl3 (a b c : string) : string := let n := String "010" "" in a +:+ n +:+ b +:+ n +:+ c.

(** Coroutines are not functions of the scan: their lines count for the function before them, or
    for none. *)
Example coroutines_are_missed :
  map f_name (scan_text ["def f():"; "    return 1"; "async def g():"; "    if x: pass"]).1 = ["f"]
  ∧ map f_complexity (scan_text ["def f():"; "    return 1"; "async def g():"; "    if x: pass"]).1 = [2]
  ∧ (scan_text ["async def g():"; "    if x: pass"]).1 = [].
Proof. vm_compute. done. Qed.

(** The share of duplicated lines is not a share: equal lines add three for every window. *)
Example duplication_over_hundred : Qeq_bool (_calc_duplication (nl3 (nl3 "x" "x" "x") "x" (nl3 "x" "x" "x"))) (1200 # 7) = true.
Proof. vm_compute. done. Qed.

(** Without a function the complexity is 1, whatever the code does. *)
Example script_complexity : cyclomatic_complexity (complexity (λ _, 0%Q) (nl3 "if a:" "  for x in y:" "    while z: pass")) = 1.
Proof. vm_compute. done. Qed.
