(* ===== verification/Kernels.v ===== *)
(** * Kernels and modules ([noema/kernels/], [noema/modules/registry.py])

    The hooks of a kernel, the registry of the domain modules with the service around it,
    and three kernels: the analysis of a task, the choice of an architecture, the checklist
    of security.  What a module does with a task is a parameter; the order in which Python
    joins a set is one too. *)
From Stdlib Require Import ZArith QArith Lqa Lia Bool Ascii String.
From stdpp Require Import base option numbers sets strings list pretty.
From S2P Require Import Prelude Prompts Memory CoreTypes.
Local Open Scope string_scope.
Local Open Scope list_scope.
Local Open Scope nat_scope.

(** ** Hooks of a kernel *)
Module Hooks.
Section hooks.
Context {Cb S D : Type} (call : Cb → D → S → S * bool).   (* [false]: the callback raises *)

Definition hooks := list (string * list Cb).

Definition on (event : string) (cb : Cb) (h : hooks) : hooks := dset event (default [] (dget event h) ++ [cb]) h.

(** The callbacks of an event in the order of their registration; an exception leaves [_emit]. *)
Fixpoint run_hooks (l : list Cb) (d : D) (s : S) : S * bool :=
  match l with
  | [] => (s, true)
  | cb :: l => match call cb d s with (s, true) => run_hooks l d s | (s, false) => (s, false) end
  end.

Definition _emit (event : string) (d : D) (h : hooks) (s : S) : S * bool := run_hooks (default [] (dget event h)) d s.

(** Registering for one event does not change what happens at another. *)
Lemma on_other e e' cb d h s : e ≠ e' → _emit e' d (on e cb h) s = _emit e' d h s.
Proof. intros He. unfold _emit, on. by rewrite dget_dset_ne by done. Qed.

(** A new callback runs last. *)
Lemma on_last e cb d h s s1 : _emit e d h s = (s1, true) → _emit e d (on e cb h) s = call cb d s1.
Proof.
  unfold _emit, on. rewrite dget_dset_eq. cbn [default from_option Datatypes.id]. generalize (default [] (dget e h)). intros l. revert s. induction l as [|c l IH]; intros s; cbn [app run_hooks].
  - intros [= ->]. by destruct (call cb d s1) as [s' []].
  - destruct (call c d s) as [s' []]; [apply IH|done].
Qed.
End hooks.
End Hooks.

(** ** The registry *)
Module Registry.
Section registry.
(** A module: its answer to a task, or the text of an exception; [None]: it has no [execute]. *)
Context {T R : Type} (error_answer : string → string → R) (no_execute not_found : string → R).

Record NoemaModule := mkModule { m_name : string; m_run : option (T → result string R); m_description : string; m_tags : list string }.

Definition registry := list (string * NoemaModule).

Definition register (name : string) (run : option (T → result string R)) (description : string) (tags : list string) (r : registry) : registry :=
  dset name (mkModule name run description tags) r.

(** A built-in module: its name, and its class if the import succeeds. *)
Definition _load_builtin_modules (specs : list (string * option (option (T → result string R) * string))) (r : registry) : registry :=
  foldl (λ r s, match s.2 with Some (run, descr) => register s.1 run descr [] r | None => r end) r specs.

Definition execute (m : NoemaModule) (task : T) : result string R := match m_run m with Some f => f task | None => Ok (no_execute (m_name m)) end.

Definition execute_module (name : string) (task : T) (r : registry) : result string R :=
  match dget name r with Some m => execute m task | None => Ok (not_found name) end.

Definition selected (filter_tags : list string) (m : NoemaModule) : bool :=
  bool_decide (filter_tags = []) || existsb (λ t, bool_decide (t ∈ m_tags m)) filter_tags.

Definition execute_all (task : T) (filter_tags : list string) (r : registry) : list (string * R) :=
  map (λ e, (e.1, match execute e.2 task with Ok x => x | Err text => error_answer e.1 text end)) (List.filter (λ e, selected filter_tags e.2) r).

Definition get_relevant_modules (tags : list string) (r : registry) : list NoemaModule :=
  List.filter (λ m, existsb (λ t, bool_decide (t ∈ m_tags m)) tags) r.*2.

Definition list_modules (r : registry) : list (string * string) := map (λ m, (m_name m, m_description m)) r.*2.

(** Without a filter there is an answer of every module, whatever some of them do. *)
Lemma execute_all_complete task r : (execute_all task [] r).*1 = r.*1
  ∧ ∀ n m, (n, m) ∈ r → (n, match execute m task with Ok x => x | Err text => error_answer n text end) ∈ execute_all task [] r.
Proof.
  unfold execute_all. assert (List.filter (λ e : string * NoemaModule, selected [] e.2) r = r) as -> by (clear; induction r as [|e r IH]; [done|]; cbn [List.filter]; unfold selected at 1; rewrite bool_decide_eq_true_2 by done; cbn [orb]; by f_equal).
  split; [induction r as [|e r IH]; cbn; [done|by rewrite IH]|]. intros n m H. apply list_elem_of_fmap. by exists (n, m).
Qed.

(** The built-in modules have no tags. *)
Lemma builtin_untagged specs : Forall (λ e, m_tags e.2 = []) (_load_builtin_modules specs []).
Proof.
  unfold _load_builtin_modules. assert (∀ r : registry, Forall (λ e, m_tags e.2 = []) r → Forall (λ e, m_tags e.2 = [])
    (foldl (λ r s, match s.2 with Some (run, descr) => register s.1 run descr [] r | None => r end) r specs)) as H; [|by apply H].
  induction specs as [|[n [[run descr]|]] specs IH]; intros r Hr; cbn [foldl]; [done| |by apply IH]. apply IH. unfold register. cbn [fst snd].
  clear IH. induction r as [|[k m] r IHr]; [by repeat constructor|]. apply Forall_cons in Hr as [Hm Hr]. rewrite dset_cons. case_decide; constructor; auto.
Qed.

(** So none of them is relevant to any tags, and a run with a filter runs none. *)
Theorem no_builtin_is_relevant specs tags task : tags ≠ [] →
  get_relevant_modules tags (_load_builtin_modules specs []) = [] ∧ execute_all task tags (_load_builtin_modules specs []) = [].
Proof.
  intros Ht. pose proof (builtin_untagged specs) as H. revert H. generalize (_load_builtin_modules specs []). intros r Hr. unfold get_relevant_modules, execute_all.
  assert (∀ m, m_tags m = [] → existsb (λ t, bool_decide (t ∈ m_tags m)) tags = false) as Hm.
  { intros m ->. apply Bool.not_true_iff_false. rewrite existsb_exists. intros (t & _ & Hin%bool_decide_eq_true). by apply elem_of_nil in Hin. }
  induction Hr as [|[n m] r Hn Hr [IH1 IH2]]; [done|]. cbn [fmap list_fmap List.filter snd]. cbn [snd] in Hn. unfold selected in *. rewrite (Hm m Hn). rewrite bool_decide_eq_false_2 in IH2 |- * by done. cbn [orb] in *.
  split; [exact IH1|exact IH2].
Qed.
End registry.
End Registry.

(** ** The analysis kernel *)
Module Analysis.
Definition lower_tags (t : Task) : list string := remove_dups (map lower (CoreTypes.tags t)).
Definition has (tags : list string) (x : string) : bool := bool_decide (x ∈ tags).

Definition nf_keywords : list string := ["performance"; "security"; "scale"; "availability"; "monitoring"; "logging"].
Definition is_non_functional (r : Requirement) : bool := existsb (λ k, contains k (lower (rq_category r))) nf_keywords.

Record requirements_view := mkReqs { functional : list Requirement; non_functional : list Requirement; total : nat; high_priority : nat }.

Definition _analyze_requirements (t : Task) : requirements_view :=
  let l := CoreTypes.requirements t in
  mkReqs (List.filter (λ r, negb (is_non_functional r)) l) (List.filter is_non_functional l) (length l) (length (List.filter (λ r, (7 <=? rq_priority r)%Z) l)).

Definition complex_tags : list string := ["distributed"; "microservice"; "ml"; "real-time"; "high-load"; "security"].

Definition level_of (score : nat) : string := if 80 <=? score then "extreme" else if 50 <=? score then "complex" else if 25 <=? score then "moderate" else "simple".

Definition is_hard (c : TaskComplexity) : bool := match c with COMPLEX | EXTREME => true | _ => false end.

Section analysis.
(** The order in which the set of tags is joined. *)
Context (set_order : list string → list string).

Definition _estimate_complexity (t : Task) : nat * string * list string :=
  let n := length (CoreTypes.requirements t) in
  let inter := List.filter (has complex_tags) (lower_tags t) in
  let hard := is_hard (CoreTypes.complexity t) in
  let score := Nat.min (n * 2) 20 + length inter * 10 + (if hard then 20 else 0)
    + match preferred_stack t with Some s => (length (languages s) + length (frameworks s)) * 3 | None => 0 end in
  let factors := (if 10 <? n then ["Many requirements (" +:+ pretty n +:+ ")"] else [])
    ++ match inter with [] => [] | _ => ["Complex tags: " +:+ join ", " (set_order inter)] end
    ++ (if hard then ["Declared complexity: " +:+ complexity_value (CoreTypes.complexity t)] else []) in
  (score, level_of score, match factors with [] => ["Standard task"] | _ => factors end).

Record risk := mkRisk { k_type : string; k_name : string; probability : string; impact : string; mitigation : string }.

Definition _identify_risks (t : Task) : list risk :=
  let tags := lower_tags t in
  (if has tags "distributed" || has tags "microservice" then [mkRisk "technical" "Distributed System Complexity" "high" "high" "Start with modular monolith, extract services later"] else [])
  ++ (if has tags "ml" || has tags "ai" then [mkRisk "technical" "Model Drift" "medium" "high" "Implement ML monitoring, retraining pipeline, A/B testing"] else [])
  ++ (if has tags "high-load" then [mkRisk "performance" "Performance Bottlenecks" "medium" "critical" "Load testing from day 1, profiling, horizontal scaling"] else [])
  ++ (if 15 <? length (CoreTypes.requirements t) then [mkRisk "project" "Scope Creep" "high" "medium" "MVP first, iterative delivery, strict requirement management"] else [])
  ++ [mkRisk "dependency" "Third-party Service Dependency" "low" "medium" "Abstract integrations, circuit breakers, fallbacks"].

Definition days_of (level : string) : nat := default 20 (dget level [("simple", 5); ("moderate", 15); ("complex", 40); ("extreme", 90)]).

Definition _estimate_timeline (level : string) : nat * list (string * nat) :=
  let d := days_of level in
  (d, [("Discovery & Planning", Nat.max 1 (d / 10)); ("Core Development", d / 2); ("Integration & Testing", d / 4); ("Deployment & Optimization", d * 15 / 100)]).

Definition _suggest_team (t : Task) (level : string) : list (string * nat) :=
  let tags := lower_tags t in
  let hard := String.eqb level "complex" || String.eqb level "extreme" in
  let team := [("backend", if hard then 3 else if String.eqb level "moderate" then 2 else 1);
               ("frontend", if has tags "web" || has tags "frontend" then (if hard then 2 else 1) else 0);
               ("devops", if hard then 1 else 0); ("qa", if hard then 1 else 0)]
    ++ (if has tags "ml" then [("ml_engineer", 1)] else []) ++ (if has tags "mobile" then [("mobile", 1)] else []) in
  team ++ [("total", sum_list team.*2)].

Definition _estimate_tech_debt (t : Task) : list (string * string) * Q :=
  let tags := lower_tags t in
  let items := (if has tags "legacy" then [("Legacy code migration", "high")] else [])
    ++ (if has tags "rapid-prototyping" then [("Quick prototype to production", "medium")] else [])
    ++ match preferred_stack t with None => [("Stack selection needs validation", "low")] | Some _ => [] end in
  (items, foldr Qplus 0%Q (map (λ i, if String.eqb i.2 "high" then 1 else if String.eqb i.2 "medium" then 1 # 2 else 1 # 5)%Q items)).

(** The requirements are split, not lost, and a higher score never gives a lower level. *)
Lemma requirements_split t : let v := _analyze_requirements t in
  functional v ++ non_functional v ≡ₚ CoreTypes.requirements t ∧ length (functional v) + length (non_functional v) = total v ∧ high_priority v <= total v.
Proof.
  cbv zeta. unfold _analyze_requirements. cbn [functional non_functional total high_priority]. generalize (CoreTypes.requirements t). intros l.
  assert (List.filter (λ r, negb (is_non_functional r)) l ++ List.filter is_non_functional l ≡ₚ l) as Hp.
  { induction l as [|r l IH]; [done|]. cbn [List.filter]. destruct (is_non_functional r); cbn [negb app]; [|by rewrite IH]. by rewrite <- Permutation_middle, IH. }
  split_and!; [done|by rewrite <- length_app, Hp|apply filter_length_le].
Qed.

Definition level_rank (l : string) : nat := if String.eqb l "extreme" then 3 else if String.eqb l "complex" then 2 else if String.eqb l "moderate" then 1 else 0.

Lemma level_monotone a b : a <= b → level_rank (level_of a) <= level_rank (level_of b) ∧ days_of (level_of a) <= days_of (level_of b).
Proof.
  intros H. unfold level_of. destruct (Nat.leb_spec 80 a), (Nat.leb_spec 80 b), (Nat.leb_spec 50 a), (Nat.leb_spec 50 b), (Nat.leb_spec 25 a), (Nat.leb_spec 25 b); try lia; split; vm_compute; lia.
Qed.

(** The phases of a plan take no more than its days; only for complex tasks they add up to them. *)
Lemma phases_within score : let '(d, phases) := _estimate_timeline (level_of score) in sum_list phases.*2 <= d ∧ (sum_list phases.*2 = d ↔ level_of score = "complex").
Proof. unfold level_of. destruct (80 <=? score), (50 <=? score), (25 <=? score); vm_compute; (split; [lia|split; [lia || done|done || discriminate]]). Qed.
End analysis.
End Analysis.

(** ** The architecture kernel *)
Module Architecture.
Import Analysis.
Record pattern_entry := mkEntry { e_pattern : ArchitecturePattern; use_cases : list string; e_complexity : TaskComplexity }.

#[global] Instance TaskComplexity_eq_dec : EqDecision TaskComplexity.
Proof. solve_decision. Defined.

Definition PATTERNS_DB : list (string * pattern_entry) := [
  ("microservices", mkEntry (mkPattern "Microservices" "Microservice architecture with independent services"
     ["Independent deployment"; "Scaling per service"; "Technology freedom"; "Fault isolation"]
     ["Complexity of distributed calls"; "Distributed transactions"; "Operational complexity"])
     ["High-load systems"; "Large teams"; "Complex domain"] COMPLEX);
  ("event_driven", mkEntry (mkPattern "Event-Driven" "Event-driven architecture with asynchronous processing"
     ["Loose coupling"; "High throughput"; "Natural data bus"; "Event replay"]
     ["Debugging complexity"; "Eventual consistency"; "Order guarantee complexity"])
     ["Real-time systems"; "IoT"; "Financial systems"] COMPLEX);
  ("clean_architecture", mkEntry (mkPattern "Clean Architecture" "Clean architecture with clear layers and dependency rule"
     ["Testability"; "Framework independence"; "Clear structure"; "Easy layer replacement"]
     ["More boilerplate"; "Learning curve"; "Over-engineering for simple tasks"])
     ["Long-term projects"; "Complex business logic"; "Enterprise"] MODERATE);
  ("serverless", mkEntry (mkPattern "Serverless" "Serverless architecture on managed functions"
     ["Zero server load"; "Pay-per-use"; "Automatic scaling"; "Fast start"]
     ["Vendor lock-in"; "Cold starts"; "Execution time limits"; "Local debugging complexity"])
     ["Event processing"; "APIs with variable load"; "MVP"] SIMPLE);
  ("modular_monolith", mkEntry (mkPattern "Modular Monolith" "Modular monolith with clear boundaries between modules"
     ["Deployment simplicity"; "Single transaction"; "Easy debugging"; "Path to microservices"]
     ["Scaling complexity"; "Tight coupling between modules"; "Single point of failure"])
     ["Medium projects"; "Small teams"; "Startups"] MODERATE);
  ("cqrs_event_sourcing", mkEntry (mkPattern "CQRS + Event Sourcing" "Read/write separation with event storage"
     ["Full change history"; "Read/write path optimization"; "Time-travel debugging"; "High write throughput"]
     ["Implementation complexity"; "Event versioning"; "Data volume"])
     ["Financial systems"; "Audit-heavy"; "Collaborative editing"] EXTREME);
  ("pipeline", mkEntry (mkPattern "Pipeline / ETL" "Pipeline data processing with transformation stages"
     ["Parallelism"; "Stage modularity"; "Easy to scale"; "Simple debugging"]
     ["Latency"; "Data loss on failures"; "State management complexity"])
     ["Data processing"; "ML pipelines"; "ETL"] MODERATE);
  ("layered", mkEntry (mkPattern "Layered (N-Tier)" "Classic multi-layered architecture"
     ["Ease of understanding"; "Standard pattern"; "Easy separation of concerns"]
     ["Rigid layers"; "Modification complexity"; "Overhead between layers"])
     ["CRUD applications"; "Internal tools"; "Legacy modernization"] SIMPLE)].

(** The entry of a name; every name below is one of the table. *)
Definition entry (name : string) : pattern_entry := default (mkEntry (mkPattern "" "" [] []) [] MODERATE) (dget name PATTERNS_DB).

Definition _select_pattern (tags : list string) (c : TaskComplexity) : string :=
  if has tags "microservice" || has tags "distributed" then "microservices"
  else if has tags "event" || has tags "stream" || has tags "real-time" then "event_driven"
  else if has tags "clean" || has tags "ddd" then "clean_architecture"
  else if has tags "serverless" || has tags "lambda" then "serverless"
  else if has tags "etl" || has tags "pipeline" || has tags "data" then "pipeline"
  else if has tags "cqrs" || has tags "event-sourcing" then "cqrs_event_sourcing"
  else match c with COMPLEX | EXTREME => "microservices" | SIMPLE => "layered" | _ => "modular_monolith" end.

Definition pattern_score (tags : list string) (c : TaskComplexity) (e : pattern_entry) : nat :=
  (if bool_decide (c = e_complexity e) then 2 else 0) + length (List.filter (λ u, existsb (λ t, contains t (lower u)) tags) (use_cases e)).

Definition _suggest_patterns (tags : list string) (c : TaskComplexity) : list string :=
  match List.filter (λ e, 1 <=? pattern_score tags c e.2) PATTERNS_DB with
  | [] => ["Modular Monolith"]
  | l => map (λ e, ap_name (e_pattern e.2)) l
  end.

Definition _design_components (tags : list string) : list (string * string * string) :=
  [("API Gateway", "gateway", "Routing and authentication"); ("Auth Service", "service", "User and token management")]
  ++ (if has tags "web" || has tags "api" then [("Web API", "service", "HTTP/REST API")] else [])
  ++ (if has tags "ml" || has tags "ai" then [("ML Service", "service", "Model training and inference")] else [])
  ++ (if has tags "data" || has tags "analytics" then [("Data Pipeline", "pipeline", "Data collection and processing")] else [])
  ++ [("Database", "database", "Persistent data storage"); ("Cache", "cache", "Caching hot data"); ("Message Queue", "messaging", "Asynchronous message exchange")].

Definition _design_communication (pattern_name : string) : list (string * string) :=
  if String.eqb pattern_name "Microservices" || String.eqb pattern_name "Event-Driven"
  then [("sync", "gRPC / REST"); ("async", "Kafka / RabbitMQ"); ("discovery", "Consul / K8s Service")]
  else [("sync", "Function calls"); ("async", "In-process event bus"); ("discovery", "Direct import")].

Definition _infer_scale (tags : list string) (c : TaskComplexity) : string :=
  if has tags "high-load" || has tags "scale" then "high" else if is_hard c then "medium-high" else "standard".

Definition constraints (t : Task) : list string := map rq_description (List.filter (λ r, (7 <=? rq_priority r)%Z) (CoreTypes.requirements t)).

(** [_design], up to the references of the knowledge base. *)
Definition _design (t : Task) : ArchitecturePattern * list (string * string * string) * list (string * string) :=
  let tags := lower_tags t in
  let p := e_pattern (entry (_select_pattern tags (CoreTypes.complexity t))) in
  (p, _design_components tags, _design_communication (ap_name p)).

(** The selected pattern is one of the table. *)
Lemma select_known tags c : is_Some (dget (_select_pattern tags c) PATTERNS_DB).
Proof. unfold _select_pattern. repeat (destruct (_ || _); [by eexists|]). by destruct c; eexists. Qed.

(** There is a suggestion, and suggestions are names of the table. *)
Lemma suggestions_known tags c : _suggest_patterns tags c ≠ [] ∧ Forall (λ n, n ∈ map (λ e, ap_name (e_pattern e.2)) PATTERNS_DB) (_suggest_patterns tags c).
Proof.
  unfold _suggest_patterns. destruct (List.filter _ PATTERNS_DB) as [|e l] eqn:E; [split; [done|]; constructor; [|constructor]; by apply (bool_decide_unpack _); vm_compute|].
  split; [done|]. apply Forall_forall. intros n Hn. apply list_elem_of_fmap in Hn as (e' & -> & He). rewrite <- E in He. apply list_elem_of_In, filter_In in He as [He _].
  apply list_elem_of_In in He. by apply (list_elem_of_fmap_2 (λ e, ap_name (e_pattern e.2))).
Qed.

(** Components with services of their own talk over the network. *)
Lemma distributed_communication t : has (lower_tags t) "distributed" = true → dget "async" (_design t).2 = Some "Kafka / RabbitMQ".
Proof. intros H. unfold _design, _select_pattern. rewrite H, orb_true_r. by vm_compute. Qed.

(** The two parts of the kernel may disagree: the pattern that is selected for the tag lambda is not
    among those that are suggested. *)
Example selected_not_suggested :
  ap_name (e_pattern (entry (_select_pattern ["lambda"] MODERATE))) = "Serverless" ∧ _suggest_patterns ["lambda"] MODERATE = ["Clean Architecture"; "Modular Monolith"; "Pipeline / ETL"].
Proof. by vm_compute. Qed.
End Architecture.

(** ** The security kernel *)
Module SecurityKernel.
Import Analysis.
Definition check := list (string * string).
Definition q : string := String "034" "".

Definition _base_security_checks : list check := [
  [("category", "dependency"); ("check", "Dependency Vulnerability Scan"); ("description", "Dependency check via safety/bandit/trivy"); ("tool", "safety check && bandit -r . && trivy fs ."); ("severity", "high")];
  [("category", "secrets"); ("check", "No Hardcoded Secrets"); ("description", "Check for hardcoded secrets in code"); ("tool", "trufflehog . && gitleaks detect"); ("severity", "critical")];
  [("category", "docker"); ("check", "Docker Image Scan"); ("description", "Docker image vulnerability scan"); ("tool", "trivy image <image:tag>"); ("severity", "high")]].

Definition _web_security : list check := [
  [("category", "web"); ("check", "SQL Injection Prevention"); ("description", "Use of parameterized queries / ORM"); ("recommendation", "Always use prepared statements or ORM"); ("severity", "critical")];
  [("category", "web"); ("check", "XSS Prevention"); ("description", "Output sanitization and CSP headers"); ("recommendation", "Content-Security-Policy header + output encoding"); ("severity", "high")];
  [("category", "web"); ("check", "Rate Limiting"); ("description", "Request rate limiting"); ("implementation", "
from slowapi import Limiter
limiter = Limiter(key_func=get_remote_address)

@app.get(" +:+ q +:+ "/api/endpoint" +:+ q +:+ ")
@limiter.limit(" +:+ q +:+ "100/minute" +:+ q +:+ ")
async def endpoint(request: Request):
    ...
"); ("severity", "medium")];
  [("category", "web"); ("check", "CORS Configuration"); ("description", "Strict CORS configuration"); ("recommendation", "Allow only specific origins, never use * in production"); ("severity", "medium")]].

Definition _auth_security : list check := [
  [("category", "auth"); ("check", "JWT Best Practices"); ("description", "Short TTLs, refresh tokens, key rotation"); ("recommendation", "Access token: 15min, Refresh token: 7d, rotation on use"); ("severity", "high")];
  [("category", "auth"); ("check", "Password Hashing"); ("description", "bcrypt/argon2 for password hashing"); ("implementation", "
from argon2 import PasswordHasher
ph = PasswordHasher(
    time_cost=3,
    memory_cost=65536,
    parallelism=4,
)
hash = ph.hash(password)
verified = ph.verify(hash, password)
"); ("severity", "critical")];
  [("category", "auth"); ("check", "MFA Support"); ("description", "Multi-factor authentication"); ("severity", "high")]].

Definition _data_security : list check := [
  [("category", "data"); ("check", "Encryption at Rest"); ("description", "Data encryption at rest (AES-256)"); ("severity", "high")];
  [("category", "data"); ("check", "Encryption in Transit"); ("description", "TLS 1.3 for all connections"); ("recommendation", "Enforce HTTPS, HSTS header, certificate pinning"); ("severity", "critical")];
  [("category", "data"); ("check", "PII Data Handling"); ("description", "Masking and rotation of personal data"); ("severity", "high")]].

Definition _security_hardening : list string := [
  "Non-root Docker container (USER appuser)";
  "Read-only filesystem in containers";
  "Network policies in Kubernetes";
  "Security context: drop ALL capabilities, add only needed";
  "Pod security standards: restricted";
  "Secrets via Vault / AWS Secrets Manager / K8s Secrets";
  "Audit logging enabled";
  "Fail2ban for brute-force protection"].

Definition _compliance_checks : list check := [
  [("standard", "OWASP Top 10"); ("status", "check required")];
  [("standard", "GDPR"); ("status", "check if handling EU data")];
  [("standard", "SOC 2"); ("status", "required for enterprise")]].

Definition _secrets_management : check := [
  ("recommended_tool", "HashiCorp Vault or AWS Secrets Manager");
  ("pattern", "
# .env (git-ignored)
DATABASE_URL=postgresql://...
JWT_SECRET=...
API_KEY=...

# Loading in code
from pydantic_settings import BaseSettings

class Settings(BaseSettings):
    database_url: str
    jwt_secret: str
    api_key: str

    class Config:
        env_file = " +:+ q +:+ ".env" +:+ q +:+ "
");
  ("rotation", "Rotate secrets every 90 days");
  ("audit", "Log all secret access with caller identity")].

Definition severity_is (s : string) (c : check) : bool := bool_decide (dget "severity" c = Some s).

Record risk_view := mkRiskView { r_score : nat; r_level : string; r_critical : nat; r_high : nat; r_medium : nat; total_checks : nat }.

Definition _calculate_risk (checks : list check) : risk_view :=
  let n s := length (List.filter (severity_is s) checks) in
  let score := Nat.min 100 (n "critical" * 25 + n "high" * 10 + n "medium" * 3) in
  mkRiskView score (if 70 <? score then "critical" else if 40 <? score then "high" else if 20 <? score then "medium" else "low") (n "critical") (n "high") (n "medium") (length checks).

Definition checks_of (tags : list string) : list check :=
  _base_security_checks ++ (if has tags "web" || has tags "api" then _web_security else []) ++ (if has tags "auth" || has tags "user" then _auth_security else [])
  ++ (if has tags "ml" || has tags "data" then _data_security else []).

Definition execute (t : Task) : list check * list string * list check * check * risk_view :=
  let checks := checks_of (lower_tags t) in (checks, _security_hardening, _compliance_checks, _secrets_management, _calculate_risk checks).

(** The risk is that of the checklist and not of the task: it is never below high, and critical as
    soon as a task is about the web, users or data. *)
Lemma risk_never_low t : let r := (execute t).2 in
  45 <= r_score r <= 100 ∧ (r_level r = "high" ∨ r_level r = "critical") ∧ (r_level r = "critical" ↔ 3 < total_checks r).
Proof.
  cbv zeta. unfold execute, checks_of. cbn [snd].
  destruct (has _ "web" || has _ "api"), (has _ "auth" || has _ "user"), (has _ "ml" || has _ "data"); vm_compute; (split; [lia|split; [tauto|split; intros; (discriminate || lia || done)]]).
Qed.
End SecurityKernel.
