(* ===== verification/Settings.v ===== *)
(** * Settings ([noema/config/settings.py])

    How a configuration comes about: the variables of the environment that belong to a field,
    merged over the YAML file.  The fields are the tables below (whether pydantic parses a
    container, hides a secret or takes a scalar); validation of values, YAML and JSON are
    parameters. *)
From Stdlib Require Import ZArith QArith Lia Bool Ascii String.
From stdpp Require Import base option numbers sets strings list.
From S2P Require Import Prelude.
Local Open Scope string_scope.
Local Open Scope list_scope.
Local Open Scope nat_scope.

Inductive kind := Scalar | Secret | Container.
#[global] Instance kind_eq_dec : EqDecision kind.
Proof. solve_decision. Defined.

Inductive field := Sub (fields : list (string * kind)) | Leaf (k : kind).

Definition DatabaseSettings : list (string * kind) := [
  ("url", Scalar); ("pool_min", Scalar); ("pool_max", Scalar); ("pool_timeout", Scalar); ("echo", Scalar)].

Definition RedisSettings : list (string * kind) := [
  ("url", Scalar); ("pool_max", Scalar); ("socket_timeout", Scalar)].

Definition LLMSettings : list (string * kind) := [
  ("provider", Scalar); ("ollama_url", Scalar); ("ollama_model", Scalar); ("openai_api_key", Secret); ("anthropic_api_key", Secret); ("temperature", Scalar); ("max_tokens", Scalar); ("request_timeout", Scalar); ("circuit_breaker_threshold", Scalar); ("circuit_breaker_recovery", Scalar); ("retry_max", Scalar); ("retry_base_delay", Scalar); ("retry_max_delay", Scalar)].

Definition APISettings : list (string * kind) := [
  ("host", Scalar); ("port", Scalar); ("reload", Scalar); ("api_key", Secret); ("api_key_header", Scalar); ("api_keys", Container); ("webhook_secret", Secret); ("rate_limit_enabled", Scalar); ("rate_limit_rpm", Scalar); ("trusted_proxies", Container); ("cors_origins", Container); ("cors_methods", Container); ("max_request_body", Scalar); ("max_title_length", Scalar); ("max_description_length", Scalar); ("max_tags", Scalar); ("request_timeout_seconds", Scalar); ("request_timeout_exempt", Container)].

Definition WorkerSettings : list (string * kind) := [
  ("pool_size", Scalar); ("max_queue", Scalar); ("hierarchy_max_depth", Scalar); ("hierarchy_max_concurrent", Scalar); ("task_timeout", Scalar); ("ledger_path", Scalar)].

Definition MemorySettings : list (string * kind) := [
  ("data_dir", Scalar); ("backup_enabled", Scalar); ("backup_count", Scalar); ("auto_save_interval", Scalar)].

Definition SandboxSettings : list (string * kind) := [
  ("enabled", Scalar); ("docker_image", Scalar); ("timeout", Scalar); ("max_memory", Scalar); ("max_cpus", Scalar); ("network_disabled", Scalar); ("read_only_root", Scalar); ("verify_think", Scalar); ("verify_think_enforce", Scalar)].

Definition JudgeSettings : list (string * kind) := [
  ("enforce", Scalar)].

Definition ObservabilitySettings : list (string * kind) := [
  ("logging_level", Scalar); ("logging_format", Scalar); ("metrics_enabled", Scalar); ("metrics_port", Scalar); ("tracing_enabled", Scalar); ("tracing_endpoint", Scalar); ("sentry_dsn", Scalar); ("sentry_environment", Scalar); ("sentry_traces_sample_rate", Scalar); ("sentry_profiles_sample_rate", Scalar)].

Definition NeurosymbolicSettings : list (string * kind) := [
  ("enabled", Scalar); ("max_refinement_attempts", Scalar); ("verification_timeout", Scalar); ("evolution_enabled", Scalar); ("fallback_to_cot", Scalar); ("causal_enabled", Scalar); ("causal_max_counterfactuals", Scalar); ("trace_dir", Scalar)].

Definition AuditSettings : list (string * kind) := [
  ("merkle_chain_enabled", Scalar); ("merkle_chain_id", Scalar)].

Definition AutonomySettings : list (string * kind) := [
  ("github_token", Secret); ("github_repo", Scalar); ("github_base_branch", Scalar); ("auto_approve", Scalar); ("auto_merge", Scalar); ("lean_verifier", Scalar); ("lean_verifier_required_paths", Container); ("judge_threshold", Scalar)].

Definition FederationSettings : list (string * kind) := [
  ("peers", Container); ("max_retries", Scalar); ("base_delay", Scalar); ("failure_threshold", Scalar); ("recovery_timeout", Scalar); ("request_timeout", Scalar)].

Definition NoemaSettings : list (string * field) := [
  ("db", Sub DatabaseSettings); ("redis", Sub RedisSettings); ("llm", Sub LLMSettings);
  ("api", Sub APISettings); ("worker", Sub WorkerSettings); ("memory", Sub MemorySettings);
  ("sandbox", Sub SandboxSettings); ("judge", Sub JudgeSettings); ("obs", Sub ObservabilitySettings);
  ("neurosymbolic", Sub NeurosymbolicSettings); ("audit", Sub AuditSettings); ("autonomy", Sub AutonomySettings);
  ("federation", Sub FederationSettings); ("cot_max_steps", Leaf Scalar); ("cot_temperature", Leaf Scalar);
  ("think_timeout_seconds", Leaf Scalar); ("evolution_enabled", Leaf Scalar); ("evolution_auto_apply", Leaf Scalar);
  ("evolution_test_before_apply", Leaf Scalar); ("knowledge_persist_path", Leaf Scalar); ("feedback_persist_path", Leaf Scalar);
  ("ontology_persist_path", Leaf Scalar)].

Definition _SUBMODEL_KEYS : list string := ["db"; "redis"; "llm"; "api"; "worker"; "memory"; "sandbox"; "obs"; "neurosymbolic"; "audit"; "autonomy"].

(** ** Variables *)
Definition _env_leaf_keys : list string :=
  concat (map (λ nf : string * field,
    let base := "noema_" +:+ nf.1 in
    match nf.2 with
    | Sub fs => concat (map (λ f : string * kind, [base +:+ "_" +:+ f.1; base +:+ "__" +:+ f.1]) fs)
    | Leaf _ => [base]
    end) NoemaSettings).

(** [s.split("__")] *)
Fixpoint split2 (s : string) : list string :=
  match s with
  | "" => [""]
  | String a s' =>
      match s' with
      | String b s'' =>
          if Ascii.eqb a "_" && Ascii.eqb b "_" then "" :: split2 s''
          else match split2 s' with w :: l => String a w :: l | [] => [String a ""] end
      | "" => [String a ""]
      end
  end.

(** [s.partition("_")] *)
Fixpoint partition_us (s : string) : option (string * string) :=
  match s with
  | "" => None
  | String a t => if Ascii.eqb a "_" then Some ("", t) else (λ p, (String a p.1, p.2)) <$> partition_us t
  end.

(** The path of a variable whose name begins with NOEMA and an underscore, in lower case. *)
Definition env_path (key : string) : list string :=
  let rest := String.substring 6 (String.length key) key in
  let parts := match split2 rest with
               | [one] => match partition_us rest with
                          | Some (first, tail) => if bool_decide (lower first ∈ _SUBMODEL_KEYS) then [first; tail] else [one]
                          | None => [one]
                          end
               | l => l
               end in
  map lower parts.

Definition _is_container_field (parts : list string) : bool :=
  match parts with
  | p :: rest =>
      match dget p NoemaSettings with
      | Some (Leaf Container) => true
      | Some (Sub fs) => match rest with f :: _ => bool_decide (dget f fs = Some Container) | [] => false end
      | _ => false
      end
  | [] => false
  end.

(** The leaf of a path in nested dictionaries. *)
Fixpoint put (parts : list string) (v : json) (out : list (string * json)) : result pyexn (list (string * json)) :=
  match parts with
  | [] => Err IndexError
  | [leaf] => Ok (dset leaf v out)
  | p :: rest =>
      match default (JObj []) (dget p out) with
      | JObj d => d ← put rest v d; Ok (dset p (JObj d) out)
      | _ => Err AttributeError
      end
  end.

(** ** Merging *)
Fixpoint merge_value (old : option json) (v : json) {struct v} : json :=
  match v with
  | JObj o =>
      match old with
      | Some (JObj b) =>
          JObj ((fix go (o : list (string * json)) (b : list (string * json)) {struct o} :=
                   match o with [] => b | (k, w) :: o => go o (dset k (merge_value (dget k b) w) b) end) o b)
      | _ => v
      end
  | _ => v
  end.

Fixpoint _deep_merge (override base : list (string * json)) : list (string * json) :=
  match override with [] => base | (k, w) :: o => _deep_merge o (dset k (merge_value (dget k base) w) base) end.

Section load.
Context (loads : string → option json).

(** Whether a variable counts: it belongs to a field and is not empty. *)
Definition counts (kv : string * string) : bool :=
  String.prefix "NOEMA_" kv.1 && bool_decide (lower kv.1 ∈ _env_leaf_keys) && nonempty kv.2.

Definition add_variable (kv : string * string) (out : list (string * json)) : result pyexn (list (string * json)) :=
  if counts kv then
    let path := env_path kv.1 in
    v ← (if _is_container_field path then match loads kv.2 with Some j => Ok j | None => Err ValueError end else Ok (JStr kv.2));
    put path v out
  else Ok out.

Fixpoint overrides_from (env : list (string * string)) (out : list (string * json)) : result pyexn (list (string * json)) :=
  match env with [] => Ok out | kv :: env => out ← add_variable kv out; overrides_from env out end.

(** [env]: the environment, in its order. *)
Definition _env_overrides (env : list (string * string)) : result pyexn (list (string * json)) := overrides_from env [].

(** [from_yaml], up to the validation (in which a group reads variables of its own for the fields
    that are still missing): the content of the file if there is one. *)
Definition from_yaml (yaml : option json) (env : list (string * string)) : result pyexn (list (string * json)) :=
  let data := match yaml with Some (JObj d) => d | _ => [] end in
  out ← _env_overrides env; Ok (_deep_merge out data).
End load.

(** [get_settings] and [reset_settings]: the global object is made once. *)
Definition get_settings {A} (load : () → A) (s : option A) : option A * A := match s with Some x => (s, x) | None => let x := load () in (Some x, x) end.

(** [_mask]: no secret object is left in what [model_dump(mode="json")] returns. *)
Fixpoint _mask (j : json) : json :=
  match j with
  | JObj d => JObj (map (λ kv, (kv.1, _mask kv.2)) d)
  | JArr l => JArr (map _mask l)
  | _ => j
  end.

(** A secret in a JSON dump of pydantic. *)
Definition dump_secret (s : string) : json := JStr (if nonempty s then "**********" else "").

(** ** Paths of variables depend on their names in lower case *)
Lemma lower_us a : Ascii.eqb (lower_ascii a) "_" = Ascii.eqb a "_".
Proof. by destruct a as [[] [] [] [] [] [] [] []]. Qed.

Lemma split2_not_nil s : split2 s ≠ [].
Proof. destruct s as [|a [|b s]]; [done|done|]. cbn [split2]. destruct (_ && _); [done|]. by destruct (match s with "" => _ | _ => _ end). Qed.

Lemma split2_lower s : split2 (lower s) = map lower (split2 s).
Proof.
  assert (∀ n s, String.length s <= n → split2 (lower s) = map lower (split2 s)) as H; [|by apply (H (String.length s))].
  clear s. induction n as [|n IH]; intros s Hn; [by destruct s; [|cbn in Hn; lia]|]. destruct s as [|a [|b s]]; [done|done|].
  change (lower (String a (String b s))) with (String (lower_ascii a) (String (lower_ascii b) (lower s))).
  assert (∀ a b s, split2 (String a (String b s)) = if Ascii.eqb a "_" && Ascii.eqb b "_" then "" :: split2 s else match split2 (String b s) with w :: l => String a w :: l | [] => [String a ""] end) as Hs by done.
  rewrite !Hs, !lower_us. destruct (_ && _); [cbn [map lower]; f_equal; apply IH; cbn in Hn; lia|].
  change (String (lower_ascii b) (lower s)) with (lower (String b s)). rewrite IH by (cbn in Hn |- *; lia).
  pose proof (split2_not_nil (String b s)). by destruct (split2 (String b s)).
Qed.

Lemma partition_us_lower s : partition_us (lower s) = (λ p, (lower p.1, lower p.2)) <$> partition_us s.
Proof. induction s as [|a s IH]; [done|]. cbn [lower partition_us]. rewrite lower_us. destruct (Ascii.eqb a "_"); [done|]. rewrite IH. by destruct (partition_us s) as [[]|]. Qed.

Lemma lower_lower s : lower (lower s) = lower s.
Proof. induction s as [|a s IH]; [done|]. cbn [lower]. rewrite IH. f_equal. by destruct a as [[] [] [] [] [] [] [] []]. Qed.

Lemma lower_substring n m s : lower (String.substring n m s) = String.substring n m (lower s).
Proof. revert n m. induction s as [|a s IH]; intros [|n] [|m]; cbn; try done; by rewrite ?IH. Qed.

Lemma length_lower s : String.length (lower s) = String.length s.
Proof. induction s as [|a s IH]; [done|]. cbn. by rewrite IH. Qed.

Lemma env_path_lower key : env_path (lower key) = env_path key.
Proof.
  unfold env_path. rewrite length_lower, <- lower_substring. set (r := String.substring 6 (String.length key) key). rewrite split2_lower.
  destruct (split2 r) as [|one [|two l]]; cbn [map]; [done| |by rewrite !lower_lower, map_map; f_equal; f_equal; apply map_ext; intros; apply lower_lower].
  rewrite partition_us_lower. destruct (partition_us r) as [[first tail]|]; cbn [fmap option_fmap option_map fst snd map]; [|by rewrite lower_lower].
  rewrite lower_lower. case_bool_decide; cbn [map]; by rewrite !lower_lower.
Qed.

(** The paths of all variables that count are short, and none of one part is the name of a group of
    settings. *)
Definition good_path (p : list string) : bool :=
  match p with
  | [x] => match dget x NoemaSettings with Some (Sub _) => false | _ => true end
  | [m; f] => match dget m NoemaSettings with Some (Sub fs) => dmem f fs | _ => false end
  | _ => false
  end.

Lemma valid_paths : forallb (λ k, good_path (env_path k)) _env_leaf_keys = true.
Proof. vm_compute. reflexivity. Qed.

Lemma counts_good kv : counts kv = true → good_path (env_path kv.1) = true.
Proof.
  unfold counts. rewrite !andb_true_iff. intros [[_ H%bool_decide_eq_true] _]. pose proof valid_paths as Hv. rewrite forallb_forall in Hv.
  rewrite <- env_path_lower. apply Hv. by apply list_elem_of_In.
Qed.

(** With two underscores every field of every group is reached; with one, the fields of the groups
    that are listed. *)
Definition group_fields : list (string * string) :=
  concat (map (λ nf : string * field, match nf.2 with Sub fs => map (λ f : string * kind, (nf.1, f.1)) fs | Leaf _ => [] end) NoemaSettings).

Lemma two_underscores : forallb (λ mf, bool_decide (env_path ("noema_" +:+ mf.1 +:+ "__" +:+ mf.2) = [mf.1; mf.2])) group_fields = true.
Proof. vm_compute. reflexivity. Qed.

Lemma one_underscore : forallb (λ mf, bool_decide ((env_path ("noema_" +:+ mf.1 +:+ "_" +:+ mf.2) = [mf.1; mf.2]) ↔ mf.1 ∈ _SUBMODEL_KEYS)) group_fields = true.
Proof. vm_compute. reflexivity. Qed.

(** ** Precedence *)
Definition leaf_at (m f : string) (d : list (string * json)) : option json := match dget m d with Some (JObj s) => dget f s | _ => None end.

Lemma merge_obj b o : merge_value (Some (JObj b)) (JObj o) = JObj (_deep_merge o b).
Proof. reflexivity. Qed.

Lemma dget_merge k o b : NoDup o.*1 → dget k (_deep_merge o b) = match dget k o with Some w => Some (merge_value (dget k b) w) | None => dget k b end.
Proof.
  revert b. induction o as [|[k' w] o IH]; intros b Hn; [done|]. apply NoDup_cons in Hn as [Hk Hn]. cbn [_deep_merge]. rewrite IH by done. rewrite dget_cons.
  destruct (decide (k = k')) as [->|Hne].
  - destruct (dget k' o) eqn:E; [destruct Hk; apply dget_is_Some; by eexists|]. by rewrite dget_dset_eq.
  - by rewrite dget_dset_ne.
Qed.

(** Overrides are dictionaries of dictionaries. *)
Definition is_group (m : string) : bool := match dget m NoemaSettings with Some (Sub _) => true | _ => false end.

Record tidy (out : list (string * json)) : Prop := {
  td_keys : NoDup out.*1;
  td_groups : ∀ m j, is_group m = true → dget m out = Some j → ∃ d, j = JObj d ∧ NoDup d.*1;
}.

Lemma put_tidy p v out : good_path p = true → tidy out →
  ∃ out', put p v out = Ok out' ∧ tidy out' ∧ ∀ m f, is_group m = true → leaf_at m f out' = if decide (p = [m; f]) then Some v else leaf_at m f out.
Proof.
  intros Hp [H1 H2]. destruct p as [|x [|f [|? ?]]]; [done| | |done].
  - exists (dset x v out). split; [done|]. cbn [good_path] in Hp. assert (is_group x = false) as Hx by (unfold is_group; destruct (dget x NoemaSettings) as [[]|]; done).
    split; [split; [by apply dset_keys_NoDup|]|].
    + intros m j Hm. rewrite dget_dset_ne by (intros ->; congruence). by apply H2.
    + intros m f Hm. rewrite decide_False by done. unfold leaf_at. by rewrite dget_dset_ne by (intros ->; congruence).
  - assert (is_group x = true) as Hx by (cbn [good_path] in Hp; unfold is_group; destruct (dget x NoemaSettings) as [[]|]; done).
    assert (∃ d, default (JObj []) (dget x out) = JObj d ∧ NoDup d.*1 ∧ ∀ g, dget g d = leaf_at x g out) as (d & Ed & Hd & Hg).
    { destruct (dget x out) as [j|] eqn:E; [destruct (H2 x j Hx E) as (d & -> & Hd); exists d|exists []]; (split; [done|]); unfold leaf_at; rewrite E; (split; [done || constructor|done]). }
    exists (dset x (JObj (dset f v d)) out). cbn [put]. rewrite Ed. cbn [mbind result_bind]. split; [done|]. split; [split; [by apply dset_keys_NoDup|]|].
    + intros m j Hm. rewrite dget_dset. case_decide; [|by apply H2]. intros [= <-]. exists (dset f v d). split; [done|by apply dset_keys_NoDup].
    + intros m g Hm. unfold leaf_at. rewrite dget_dset. destruct (decide (x = m)) as [->|Hne]; [|rewrite decide_False by done; by rewrite decide_False by congruence].
      rewrite decide_True by done. rewrite dget_dset. destruct (decide (f = g)) as [->|Hf]; [by rewrite !decide_True|]. rewrite decide_False by done. rewrite decide_False by congruence. apply Hg.
Qed.

Section precedence.
Context (loads : string → option json).

(** The value of a variable: its text, or the JSON of a container. *)
Definition value_of (kv : string * string) : option json := if _is_container_field (env_path kv.1) then loads kv.2 else Some (JStr kv.2).

(** The last variable of the environment for a path. *)
Fixpoint last_value (p : list string) (env : list (string * string)) (acc : option json) : option json :=
  match env with
  | [] => acc
  | kv :: env => last_value p env (if counts kv && bool_decide (env_path kv.1 = p) then value_of kv else acc)
  end.

Definition readable (env : list (string * string)) : Prop := Forall (λ kv, counts kv = true → is_Some (value_of kv)) env.

Lemma overrides_from_spec env out : tidy out → readable env →
  ∃ out', overrides_from loads env out = Ok out' ∧ tidy out' ∧ ∀ m f, is_group m = true → leaf_at m f out' = last_value [m; f] env (leaf_at m f out).
Proof.
  intros Ht He. revert out Ht. induction He as [|kv env Hv He IH]; intros out Ht; [by exists out|]. cbn [overrides_from last_value]. unfold add_variable.
  destruct (counts kv) eqn:Ec; cbn [andb]; [|by apply IH]. destruct (Hv eq_refl) as [v Ev].
  assert ((if _is_container_field (env_path kv.1) then match loads kv.2 with Some j => Ok j | None => Err ValueError end else Ok (JStr kv.2)) = (Ok v : result pyexn json)) as ->.
  { unfold value_of in Ev. destruct (_is_container_field _); [by rewrite Ev|by injection Ev as ->]. }
  cbn [mbind result_bind]. destruct (put_tidy (env_path kv.1) v out (counts_good kv Ec) Ht) as (out1 & -> & Ht1 & Hl). cbn [mbind result_bind].
  destruct (IH out1 Ht1) as (out' & -> & Ht' & Hl'). exists out'. split; [done|]. split; [done|]. intros m f Hm. rewrite Hl', Hl by done. rewrite Ev.
  by destruct (decide (env_path kv.1 = [m; f])); [rewrite bool_decide_eq_true_2|rewrite bool_decide_eq_false_2].
Qed.

(** Loading succeeds if the variables of containers are JSON, and then every field of every group
    has the value of the last variable for it, or else the value in the file: variables that
    belong to no field or are empty change nothing, whatever the file holds. *)
Theorem settings_precedence yaml env : readable env →
  ∃ d, from_yaml loads yaml env = Ok d ∧ ∀ m f, is_group m = true →
    let in_file := leaf_at m f (match yaml with Some (JObj y) => y | _ => [] end) in
    leaf_at m f d = match last_value [m; f] env None with Some v => Some (merge_value in_file v) | None => in_file end.
Proof.
  intros He. unfold from_yaml, _env_overrides. set (y := match yaml with Some (JObj y) => y | _ => [] end).
  destruct (overrides_from_spec env [] ltac:(split; [constructor|done]) He) as (out & -> & [Hk Hg] & Hl). cbn [mbind result_bind]. exists (_deep_merge out y). split; [done|]. cbn zeta. intros m f Hm.
  specialize (Hl m f Hm). fold y. change (leaf_at m f []) with (@None json) in Hl. rewrite <- Hl. clear Hl. unfold leaf_at at 1. rewrite dget_merge by done.
  destruct (dget m out) as [j|] eqn:E.
  - destruct (Hg m j Hm E) as (o & -> & Ho). assert (leaf_at m f out = dget f o) as -> by (unfold leaf_at; by rewrite E).
    destruct (dget m y) as [[|b|q|s|l|b]|] eqn:Ey; try (cbn [merge_value]; assert (leaf_at m f y = None) as -> by (unfold leaf_at; by rewrite Ey); by destruct (dget f o) as [[]|]).
    rewrite merge_obj, dget_merge by done. assert (leaf_at m f y = dget f b) as -> by (unfold leaf_at; by rewrite Ey). done.
  - assert (leaf_at m f out = None) as -> by (unfold leaf_at; by rewrite E). done.
Qed.
End precedence.

Definition sample_yaml : json := JObj [("llm", JObj [("provider", JStr "openai"); ("max_tokens", JNum 512)]); ("api", JStr "ignored")].
Definition sample_env : list (string * string) :=
  [("PATH", "/bin"); ("NOEMA_CONFIG", "x"); ("NOEMA_LLM_PROVIDER", "mock"); ("NOEMA_LLM__PROVIDER", "ollama"); ("NOEMA_LLM__MAX_TOKENS", "")].

Lemma sample_env_readable : readable (λ _, None) sample_env.
Proof. repeat constructor; vm_compute; intros; (discriminate || by eexists). Qed.

Lemma settings_precedence_witness :
  readable (λ _, None) sample_env ∧ ∃ d, from_yaml (λ _, None) (Some sample_yaml) sample_env = Ok d ∧ leaf_at "llm" "provider" d = Some (JStr "ollama") ∧ leaf_at "llm" "max_tokens" d = Some (JNum 512).
Proof.
  split; [exact sample_env_readable|]. destruct (settings_precedence (λ _, None) (Some sample_yaml) sample_env sample_env_readable) as (d & E & H).
  exists d. split; [exact E|]. split; [exact (H "llm" "provider" eq_refl)|exact (H "llm" "max_tokens" eq_refl)].
Defined.

(** A malformed container stops the loading. *)
Example malformed_container : from_yaml (λ _, None) None [("NOEMA_API__CORS_ORIGINS", "a, b")] = Err ValueError.
Proof. vm_compute. reflexivity. Qed.

(** With one underscore a variable of a group that is not listed sets a key of the root that is no
    field, and the file keeps its value. *)
Example judge_one_underscore :
  from_yaml (λ _, None) (Some (JObj [("judge", JObj [("enforce", JStr "false")])])) [("NOEMA_JUDGE_ENFORCE", "true")]
    = Ok [("judge", JObj [("enforce", JStr "false")]); ("judge_enforce", JStr "true")]
  ∧ dget "judge_enforce" NoemaSettings = None.
Proof. vm_compute. done. Qed.

(** The variable that the description of [enabled] names does not count. *)
Example documented_switch_ignored : counts ("NOEMA_NS__ENABLED", "true") = false.
Proof. vm_compute. reflexivity. Qed.

(** ** Dumping *)
Lemma mask_identity j : _mask j = j.
Proof.
  revert j. fix IH 1. intros [| | | |l|d]; try reflexivity; cbn [_mask]; f_equal.
  - induction l as [|x l IHl]; [reflexivity|]. cbn [map]. f_equal; [apply IH|exact IHl].
  - induction d as [|[k x] d IHd]; [reflexivity|]. cbn [map fst snd]. f_equal; [f_equal; apply IH|exact IHd].
Qed.

(** A key that is set does not survive dumping and loading. *)
Example dumped_key : _mask (dump_secret "sk-1") = JStr "**********".
Proof. reflexivity. Qed.
