(* ===== verification/OntologyQueries.v ===== *)
(** * Queries and persistence of the ontology graph ([noema/ontology/graph.py])

    Correctness of the bounded path search of [OntologyGraph]; neighbours and subgraphs,
    which follow relations in both directions; the rules for prompts; and the file of a
    graph, over [AtomicIO].  The order in which Python walks a set is a parameter. *)
From Stdlib Require Import ZArith QArith Lqa Lia Bool Ascii String.
From stdpp Require Import base option numbers gmap sets strings relations sorting list.
From S2P Require Import Prelude AtomicIO OntologyGraph.
Local Open Scope string_scope.
Local Open Scope list_scope.
Local Open Scope nat_scope.

(** ** Path search

    [leads g path q]: the nodes [q] continue [path] along relations. *)
Fixpoint leads (g : OntologyGraph) (x : string) (q : list string) : Prop :=
  match q with [] => True | y :: q => edge g x y ∧ leads g y q end.

(** A simple continuation of [path], which ends in [node], to [end_] with at most [max_depth]
    relations in all. *)
Record continues (g : OntologyGraph) (end_ : string) (max_depth : Z) (node : string) (path cand : list string) : Prop := {
  cn_split : ∃ y q, cand = path ++ y :: q ∧ leads g node (y :: q);
  cn_last : last cand = Some end_;
  cn_simple : NoDup cand;
  cn_short : (Z.of_nat (length cand) ≤ max_depth + 1)%Z;
}.

(** The loop over the relations of a node. *)
Definition path_loop (rec : string → list string → list (list string) → gresult (list (list string)))
    (g : OntologyGraph) (end_ : string) (path : list string) : list nat → list (list string) → gresult (list (list string)) :=
  fix loop ix paths :=
    match ix with
    | [] => Ok paths
    | i :: ix =>
        match _relations g !! i with
        | None => Err (PyExn IndexError)
        | Some r =>
            let nxt := object r in
            if bool_decide (nxt ∈ path) then loop ix paths
            else
              let cand := path ++ [nxt] in
              if String.eqb nxt end_ then
                let paths := paths ++ [cand] in
                if (path_limit <=? length paths)%nat then Ok paths else loop ix paths
              else paths ← rec nxt cand paths; loop ix paths
        end
    end.

Lemma path_dfs_unfold fuel g end_ md node path paths :
  path_dfs (S fuel) g end_ md node path paths =
  if (path_limit <=? length paths)%nat || (md <? Z.of_nat (length path))%Z then Ok paths
  else path_loop (path_dfs fuel g end_ md) g end_ path (idxs node (_by_subject g)) paths.
Proof. reflexivity. Qed.

Section paths.
Context (g : OntologyGraph) (Hwf : graph_wf g) (end_ : string) (md : Z).

(** What a search that starts with [paths] and may only take first nodes in [next] returns. *)
Definition searched (next : string → Prop) (node : string) (path : list string) (bound : Z) (paths : list (list string)) (r : gresult (list (list string))) : Prop :=
  ∃ new, r = Ok (paths ++ new) ∧ Forall (continues g end_ md node path) new
    ∧ (Z.of_nat (length (paths ++ new)) ≤ bound)%Z
    ∧ (length (paths ++ new) < path_limit → ∀ y q, next y → continues g end_ md node path (path ++ y :: q) → path ++ y :: q ∈ new).

Lemma continues_step node path nxt cand : edge g node nxt → continues g end_ md nxt (path ++ [nxt]) cand → continues g end_ md node path cand.
Proof.
  intros He [(y & q & -> & Hl) H2 H3 H4]. split; [|done..]. exists nxt, (y :: q). split; [by rewrite <- app_assoc|]. by split.
Qed.

Lemma continues_end node path : edge g node end_ → NoDup path → end_ ∉ path → (Z.of_nat (length path) ≤ md)%Z →
  continues g end_ md node path (path ++ [end_]).
Proof.
  intros He Hn Hi Hl. split; [by exists end_, []|apply last_snoc| |rewrite length_app; cbn; lia].
  apply NoDup_app. split_and!; [done| |apply NoDup_singleton]. by intros x Hx ->%list_elem_of_singleton.
Qed.

Lemma continues_head node path nxt q : continues g end_ md node path (path ++ nxt :: q) → nxt ∉ path ∧ edge g node nxt
  ∧ (q = [] → nxt = end_) ∧ (nxt = end_ → q = []) ∧ (q ≠ [] → continues g end_ md nxt (path ++ [nxt]) ((path ++ [nxt]) ++ q)).
Proof.
  intros [(y & q' & E & He & Hl) H2 H3 H4]. apply app_inv_head in E. injection E as <- <-. apply NoDup_app in H3 as Hd. destruct Hd as (_ & Hd & Hq).
  assert (nxt ∉ path) as Hi by (intros Hx; destruct (Hd nxt Hx); left). split_and!; [done|done| | |].
  - intros ->. rewrite last_snoc in H2. by injection H2.
  - intros ->. destruct q as [|z q]; [done|exfalso]. rewrite last_app_cons, last_cons_cons in H2. apply NoDup_cons in Hq as [Hq _]. apply Hq. by apply last_Some_elem_of.
  - intros Hne. destruct q as [|z q]; [done|]. split; [by exists z, q|by rewrite <- app_assoc|by rewrite <- app_assoc|by rewrite <- app_assoc].
Qed.
Lemma searched_nothing next node path bound paths : (Z.of_nat (length paths) ≤ bound)%Z →
  (length paths < path_limit → ∀ y q, next y → ¬ continues g end_ md node path (path ++ y :: q)) → searched next node path bound paths (Ok paths).
Proof. intros H1 H2. exists []. rewrite app_nil_r. split_and!; [done|constructor|done|]. intros Hl y q Hy Hc. by destruct (H2 Hl y q Hy). Qed.

(** One relation of the loop, and then the others. *)
Lemma searched_then next next' node path b bound paths new r : Forall (continues g end_ md node path) new →
  (Z.of_nat (length (paths ++ new)) ≤ b)%Z → searched next' node path bound (paths ++ new) r →
  (length (paths ++ new) < path_limit → ∀ y q, next y → continues g end_ md node path (path ++ y :: q) → next' y ∨ path ++ y :: q ∈ new) →
  searched next node path bound paths r.
Proof.
  intros Hf Hb (new' & -> & Hf' & Hb' & Hc') Hc. exists (new ++ new'). rewrite app_assoc. split_and!; [done|by apply Forall_app|done|].
  intros Hl y q Hy Hq. assert (length (paths ++ new) < path_limit) as Hl' by (rewrite length_app in Hl; lia). apply elem_of_app.
  destruct (Hc Hl' y q Hy Hq) as [Hn|Hn]; [right; by apply Hc'|by left].
Qed.

Lemma path_loop_searched rec node path K :
  NoDup path → (Z.of_nat (length path) ≤ md)%Z → (K = 7 + (md - Z.of_nat (length path)))%Z →
  (∀ nxt paths, edge g node nxt → nxt ∉ path → (Z.of_nat (length paths) ≤ K)%Z → searched (λ _, True) nxt (path ++ [nxt]) K paths (rec nxt (path ++ [nxt]) paths)) →
  ∀ ix paths, (∀ i, i ∈ ix → ∃ r, _relations g !! i = Some r ∧ subject r = node) → (Z.of_nat (length paths) ≤ K)%Z →
  searched (λ y, ∃ i r, i ∈ ix ∧ _relations g !! i = Some r ∧ object r = y) node path (K + 1) paths (path_loop rec g end_ path ix paths).
Proof.
  intros Hn Hl HK Hrec. induction ix as [|i ix IH]; intros paths Hix Hp.
  { apply searched_nothing; [lia|]. by intros _ y q (i & r & Hi%not_elem_of_nil & _). }
  destruct (Hix i ltac:(left)) as (r & Er & Es). assert (edge g node (object r)) as He by (exists r; split_and!; [by eapply list_elem_of_lookup_2|done..]).
  assert (∀ y, (∃ j r', j ∈ i :: ix ∧ _relations g !! j = Some r' ∧ object r' = y) → y = object r ∨ ∃ j r', j ∈ ix ∧ _relations g !! j = Some r' ∧ object r' = y) as Hor.
  { intros y (j & r' & Hj & Er' & <-). apply elem_of_cons in Hj as [->|Hj]; [left; congruence|right; by exists j, r']. }
  assert (∀ j, j ∈ ix → ∃ r, _relations g !! j = Some r ∧ subject r = node) as Hix' by (intros j Hj; apply Hix; by right). pose proof (λ paths, IH paths Hix') as IH2. clear IH. rename IH2 into IH. cbn [path_loop]. rewrite Er. cbv zeta. case_bool_decide as Hin.
  { eapply (searched_then _ _ _ _ K _ paths [] _ ltac:(constructor)); [by rewrite app_nil_r|rewrite app_nil_r; by apply IH|].
    intros _ y q Hy Hc. destruct (Hor y Hy) as [->|Hy']; [|by left]. by destruct (continues_head _ _ _ _ Hc). }
  destruct (String.eqb_spec (object r) end_) as [Ee|Ee].
  - rewrite Ee in *. pose proof (continues_end node path He Hn Hin Hl) as Hce. assert (length (paths ++ [path ++ [end_]]) = length paths + 1) as Hlen by (rewrite length_app; done).
    assert (∀ q, continues g end_ md node path (path ++ end_ :: q) → path ++ end_ :: q ∈ [path ++ [end_]]) as Hmem.
    { intros q Hc. apply continues_head in Hc as (_ & _ & _ & Hq & _). rewrite Hq by done. left. }
    destruct (path_limit <=? _) eqn:El.
    + exists [path ++ [end_]]. split_and!; [done|by constructor|lia|]. apply Nat.leb_le in El. lia.
    + apply Nat.leb_gt in El. unfold path_limit in El. eapply (searched_then _ _ _ _ K _ paths [path ++ [end_]] _ ltac:(by constructor)); [lia|apply IH; lia|].
      intros _ y q Hy Hc. destruct (Hor y Hy) as [->|Hy']; [right; by apply Hmem|by left].
  - destruct (Hrec (object r) paths He Hin Hp) as (new & -> & Hf & Hb & Hc). cbn [mbind result_bind].
    eapply (searched_then _ _ _ _ K _ paths new _ ltac:(eapply Forall_impl; [exact Hf|]; intros; by eapply continues_step) Hb); [by apply IH|].
    intros Hlt y q Hy Hq. destruct (Hor y Hy) as [->|Hy']; [right|by left]. apply continues_head in Hq as (_ & _ & Hq1 & _ & Hq2).
    destruct q as [|z q]; [by destruct (Ee (Hq1 eq_refl))|]. specialize (Hq2 ltac:(done)). replace (path ++ object r :: z :: q) with ((path ++ [object r]) ++ z :: q) by (by rewrite <- app_assoc). by apply Hc.
Qed.

Lemma path_dfs_searched fuel : ∀ node path paths, NoDup path → (md + 2 - Z.of_nat (length path) ≤ Z.of_nat fuel)%Z → 1 ≤ fuel →
  searched (λ _, True) node path (Z.max (Z.of_nat (length paths)) (8 + md - Z.of_nat (length path))) paths (path_dfs fuel g end_ md node path paths).
Proof.
  induction fuel as [|fuel IH]; intros node path paths Hn Hf H1; [lia|]. rewrite path_dfs_unfold. destruct (_ <=? _) eqn:E1; cbn [orb].
  { apply Nat.leb_le in E1. apply searched_nothing; [lia|]. intros H. lia. }
  apply Nat.leb_gt in E1. unfold path_limit in E1. destruct (_ <? _)%Z eqn:E2.
  { apply Z.ltb_lt in E2. apply searched_nothing; [lia|]. intros _ y q _ [_ _ _ H]. rewrite length_app in H. cbn in H. lia. }
  apply Z.ltb_ge in E2.
  destruct (path_loop_searched (path_dfs fuel g end_ md) node path (7 + (md - Z.of_nat (length path)))%Z Hn E2 eq_refl) with (ix := idxs node (_by_subject g)) (paths := paths) as (new & E & Hnew & Hb & Hc).
  - intros nxt ps _ Hi Hp. destruct (IH nxt (path ++ [nxt]) ps) as (new & E & Hnew & Hb & Hc).
    + apply NoDup_app. split_and!; [done| |apply NoDup_singleton]. by intros x Hx ->%list_elem_of_singleton.
    + rewrite length_app. cbn. lia.
    + lia.
    + exists new. split_and!; [done|done| |done]. rewrite !length_app in *. cbn [length] in Hb. lia.
  - intros i. rewrite (wf_by_subject g Hwf). intros (r & Er & Es%String.eqb_eq)%elem_of_positions. by exists r.
  - lia.
  - exists new. split_and!; [done|done|lia|]. intros Hlt y q _ Hq. apply Hc; [done| |done]. apply continues_head in Hq as (_ & (r & [i Hi]%list_elem_of_lookup & Es & Eo) & _).
    exists i, r. split_and!; [|done|done]. rewrite (wf_by_subject g Hwf). apply elem_of_positions. exists r. split; [done|by apply String.eqb_eq].
Qed.
End paths.

(** A path along relations from one node to another that visits no node twice. *)
Definition simple_path (g : OntologyGraph) (a b : string) (max_depth : Z) (p : list string) : Prop :=
  ∃ y q, p = a :: y :: q ∧ leads g a (y :: q) ∧ last p = Some b ∧ NoDup p ∧ (Z.of_nat (length p) ≤ max_depth + 1)%Z.

(** [find_paths] ends without an exception for names it accepts.  All that it returns are simple
    paths of at most [max_depth] relations, and they are at most [max_depth] plus seven; if there
    are fewer than eight, none is missing. *)
Theorem find_paths_exact g a b max_depth : graph_wf g → clean a → clean b → (1 ≤ max_depth)%Z →
  ∃ ps, find_paths g a b max_depth = Ok ps ∧ Forall (simple_path g a b max_depth) ps ∧ (Z.of_nat (length ps) ≤ max_depth + 7)%Z
    ∧ (length ps < 8 → ∀ p, simple_path g a b max_depth p → p ∈ ps).
Proof.
  intros Hwf Ha Hb Hd. unfold find_paths. rewrite Ha, Hb. cbn [mbind result_bind]. destruct (negb _ || _) eqn:E.
  - exists []. split_and!; [done|constructor|cbn; lia|]. intros _ p (y & q & -> & Hl & Hlast & _). exfalso.
    assert (∀ x q, x ∈ (_entities g).*1 → leads g x q → Forall (λ z, z ∈ (_entities g).*1) (x :: q)) as Hent.
    { clear Hl Hlast. intros x q'. revert x. induction q' as [|z q' IH]; intros x Hx; [by repeat constructor|]. intros [He Hq]. constructor; [done|]. apply IH; [|done]. by apply (edge_entities g x z Hwf). }
    assert (a ∈ (_entities g).*1) as Hin by (destruct Hl as [He _]; by apply (edge_entities g a y Hwf)). specialize (Hent a (y :: q) Hin Hl).
    rewrite Forall_forall in Hent. apply last_Some_elem_of, Hent in Hlast. rewrite <- dmem_true in Hin, Hlast. by rewrite Hin, Hlast in E.
  - destruct (path_dfs_searched g Hwf b max_depth (Z.to_nat max_depth + 1) a [a] [] ltac:(apply NoDup_singleton)) as (ps & E' & Hf & Hn & Hc); [cbn; lia|lia|].
    exists ps. split_and!; [done| |cbn in Hn; lia|].
    + eapply Forall_impl; [exact Hf|]. intros p [(y & q & -> & Hl) H2 H3 H4]. by exists y, q.
    + intros Hlt p (y & q & -> & Hl & H2 & H3 & H4). apply (Hc Hlt y q I). split; [by exists y, q|done..].
Qed.

(** Nine paths where the documentation promises at most eight: a loop that is left with eight
    paths goes on in its caller, and the next relation to the end adds one more. *)
Definition node_names : list string := ["S"; "A"; "E"; "B1"; "B2"; "B3"; "B4"; "B5"; "B6"; "B7"; "B8"].
Definition plain (a b : string) : graph_op := AddRelation (mkRelation a "to" b 1 []).
Definition nine_paths_graph : OntologyGraph :=
  foldl run_op (graph_init 100 100)
    (map (λ n, AddEntity (mkEntity n "node" [])) node_names
     ++ [plain "S" "A"; plain "S" "E"] ++ concat (map (λ b, [plain "A" b; plain b "E"]) (drop 3 node_names))).

Example nine_paths : (length <$> find_paths nine_paths_graph "S" "E" 4) = Ok 9.
Proof. vm_compute. reflexivity. Qed.

(** Two relations between the same nodes give the same path twice. *)
Example repeated_path :
  find_paths (foldl run_op (graph_init 9 9) [AddEntity (mkEntity "a" "x" []); AddEntity (mkEntity "b" "x" []); AddRelation (mkRelation "a" "owns" "b" 1 []); AddRelation (mkRelation "a" "reads" "b" 1 [])]) "a" "b" 4
    = Ok [["a"; "b"]; ["a"; "b"]].
Proof. vm_compute. reflexivity. Qed.

(** ** Neighbours *)
Definition set_add (x : string) (s : list string) : list string := if bool_decide (x ∈ s) then s else s ++ [x].
Definition set_update (s t : list string) : list string := foldl (λ s x, set_add x s) s t.

(** [for x in l: s = f(s, x)] where the body may raise. *)
Fixpoint for_each {A S} (f : A → S → gresult S) (l : list A) (s : S) : gresult S :=
  match l with [] => Ok s | x :: l => s ← f x s; for_each f l s end.

Definition the_relation (g : OntologyGraph) (i : nat) : gresult Relation := match _relations g !! i with Some r => Ok r | None => Err (PyExn IndexError) end.

Definition hit : Type := string * string * Q.
Record bfs := Bfs { b_out : list hit; b_in : list hit; b_next : list string }.

Definition hit_of (other : string) (r : Relation) : hit := (other, predicate r, weight r).

Definition follow_out (g : OntologyGraph) (seen : list string) (i : nat) (s : bfs) : gresult bfs :=
  r ← the_relation g i;
  Ok (if bool_decide (object r ∈ seen) then s else Bfs (b_out s ++ [hit_of (object r) r]) (b_in s) (set_add (object r) (b_next s))).

Definition follow_in (g : OntologyGraph) (seen : list string) (i : nat) (s : bfs) : gresult bfs :=
  r ← the_relation g i;
  Ok (if bool_decide (subject r ∈ seen) then s else Bfs (b_out s) (b_in s ++ [hit_of (subject r) r]) (set_add (subject r) (b_next s))).

Definition visit (g : OntologyGraph) (seen : list string) (node : string) (s : bfs) : gresult bfs :=
  s ← for_each (follow_out g seen) (idxs node (_by_subject g)) s;
  for_each (follow_in g seen) (idxs node (_by_object g)) s.

Definition heavier (a b : hit) : bool := Qltb b.2 a.2.

(** [max(1, min(depth, max_depth))] *)
Definition clamp (depth max_depth : Z) : nat := Z.to_nat (Z.max 1 (Z.min depth max_depth)).

Section sets.
Context (order : list string → list string).

Fixpoint neighbor_rounds (g : OntologyGraph) (n : nat) (seen frontier : list string) (out incoming : list hit) : gresult (list hit * list hit) :=
  match n with
  | 0 => Ok (out, incoming)
  | S n =>
      s ← for_each (visit g seen) (order frontier) (Bfs out incoming []);
      neighbor_rounds g n (set_update seen frontier) (b_next s) (b_out s) (b_in s)
  end.

Definition neighbors (g : OntologyGraph) (name : string) (depth max_depth : Z) : gresult (list hit) :=
  start ← _clean_name name;
  if negb (dmem start (_entities g)) then Ok []
  else
    '(out, incoming) ← neighbor_rounds g (clamp depth max_depth) [] [start] [] [];
    Ok (stable_sort heavier out ++ stable_sort heavier incoming).

(** ** Subgraphs *)
Definition add_root (g : OntologyGraph) (name_ : string) (s : list (string * Entity) * list string) : gresult (list (string * Entity) * list string) :=
  e ← get_entity g name_;
  Ok (match e with Some e => (dset (name e) e s.1, set_add (name e) s.2) | None => s end).

(** The entity at the other end of a relation, and the next hop. *)
Definition add_target (g : OntologyGraph) (reached : list string) (other : Relation → string) (i : nat) (s : list (string * Entity) * list string) : gresult (list (string * Entity) * list string) :=
  r ← the_relation g i;
  Ok (match dget (other r) (_entities g) with
      | Some t => if bool_decide (name t ∈ reached) then s.1 else dset (name t) t s.1
      | None => s.1
      end, set_add (other r) s.2).

Definition add_targets (g : OntologyGraph) (reached : list string) (node : string) (s : list (string * Entity) * list string) : gresult (list (string * Entity) * list string) :=
  s ← for_each (add_target g reached object) (idxs node (_by_subject g)) s;
  for_each (add_target g reached subject) (idxs node (_by_object g)) s.

Definition copy_relations (g : OntologyGraph) (node : string) (sub : OntologyGraph) : gresult OntologyGraph :=
  for_each (λ i sub, r ← the_relation g i; add_relation sub r) (idxs node (_by_subject g) ++ idxs node (_by_object g)) sub.

Fixpoint subgraph_rounds (g : OntologyGraph) (n : nat) (reached : list string) (sub : OntologyGraph) : gresult OntologyGraph :=
  match n with
  | 0 => Ok sub
  | S n =>
      '(es, next_hop) ← for_each (add_targets g reached) (order reached) (_entities sub, []);
      sub ← for_each (copy_relations g) (order reached) (with_entities sub es);
      subgraph_rounds g n (set_update reached next_hop) sub
  end.

Definition get_subgraph (g : OntologyGraph) (roots : list string) (depth max_depth : Z) : gresult OntologyGraph :=
  '(es, reached) ← for_each (add_root g) roots ([], []);
  let sub := with_entities (graph_init (max_entities g) (max_relations g)) es in
  match reached with [] => Ok sub | _ => subgraph_rounds g (clamp depth max_depth) reached sub end.
End sets.

(** ** Sets and loops *)
Lemma elem_of_set_add x y s : y ∈ set_add x s ↔ y = x ∨ y ∈ s.
Proof. unfold set_add. case_bool_decide; [set_solver|]. rewrite elem_of_app, list_elem_of_singleton. tauto. Qed.

Lemma elem_of_set_update s t y : y ∈ set_update s t ↔ y ∈ s ∨ y ∈ t.
Proof. unfold set_update. revert s. induction t as [|x t IH]; intros s; cbn [foldl]; [set_solver|]. rewrite IH, elem_of_set_add. set_solver. Qed.

(** A loop whose body keeps [P] for every element and establishes something about it. *)
Lemma for_each_inv {A S} (f : A → S → gresult S) (P : list A → S → Prop) l : ∀ s pre,
  P pre s → (∀ pre x s, x ∈ l → P pre s → ∃ s', f x s = Ok s' ∧ P (pre ++ [x]) s') → ∃ s', for_each f l s = Ok s' ∧ P (pre ++ l) s'.
Proof.
  induction l as [|x l IH]; intros s pre Hs Hf; [exists s; by rewrite app_nil_r|]. destruct (Hf pre x s ltac:(left) Hs) as (s1 & E & H1). cbn [for_each]. rewrite E. cbn [mbind result_bind].
  destruct (IH s1 (pre ++ [x]) H1) as (s' & E' & H'); [intros; apply Hf; [by right|done]|]. exists s'. split; [done|]. by rewrite <- app_assoc in H'.
Qed.

(** Relations in either direction. *)
Definition linked (g : OntologyGraph) (x y : string) : Prop := edge g x y ∨ edge g y x.

Lemma idxs_subject g x i : graph_wf g → i ∈ idxs x (_by_subject g) ↔ ∃ r, _relations g !! i = Some r ∧ subject r = x.
Proof. intros Hwf. rewrite (wf_by_subject g Hwf), elem_of_positions. by setoid_rewrite String.eqb_eq. Qed.

Lemma idxs_object g x i : graph_wf g → i ∈ idxs x (_by_object g) ↔ ∃ r, _relations g !! i = Some r ∧ object r = x.
Proof. intros Hwf. rewrite (wf_by_object g Hwf), elem_of_positions. by setoid_rewrite String.eqb_eq. Qed.

(** ** What a round finds *)
Definition names (s : bfs) : list string := map (λ h : hit, h.1.1) (b_out s ++ b_in s).

Definition got (seen : list string) (Y : string → Prop) (s0 s : bfs) : Prop :=
  ∀ y, (y ∈ names s ↔ y ∈ names s0 ∨ (Y y ∧ y ∉ seen)) ∧ (y ∈ b_next s ↔ y ∈ b_next s0 ∨ (Y y ∧ y ∉ seen)).

Lemma got_same seen s (Y : string → Prop) : (∀ y, ¬ Y y) → got seen Y s s.
Proof. intros H y. specialize (H y). naive_solver. Qed.

Lemma got_trans seen (Y1 Y2 Y : string → Prop) s0 s1 s : (∀ y, Y y ↔ Y1 y ∨ Y2 y) → got seen Y1 s0 s1 → got seen Y2 s1 s → got seen Y s0 s.
Proof. intros HY H1 H2 y. specialize (H1 y). specialize (H2 y). specialize (HY y). naive_solver. Qed.

Section rounds.
Context (g : OntologyGraph) (Hwf : graph_wf g).

Lemma follow_got seen (follow : nat → bfs → gresult bfs) (other : Relation → string) ix s0 :
  (∀ i r s, _relations g !! i = Some r → ∃ s', follow i s = Ok s' ∧ got seen (λ y, y = other r) s s') →
  (∀ i, i ∈ ix → is_Some (_relations g !! i)) →
  ∃ s, for_each follow ix s0 = Ok s ∧ got seen (λ y, ∃ i r, i ∈ ix ∧ _relations g !! i = Some r ∧ other r = y) s0 s.
Proof.
  intros Hf Hix. apply (for_each_inv follow (λ pre s, got seen (λ y, ∃ i r, i ∈ pre ∧ _relations g !! i = Some r ∧ other r = y) s0 s) ix s0 []).
  { apply got_same. by intros y (i & r & Hi%not_elem_of_nil & _). }
  intros pre i s Hi Hs. destruct (Hix i Hi) as [r Er]. destruct (Hf i r s Er) as (s' & E & Hs'). exists s'. split; [done|]. eapply got_trans; [|exact Hs|exact Hs'].
  intros y. setoid_rewrite elem_of_app. setoid_rewrite list_elem_of_singleton. split.
  - intros (j & r' & [Hj| ->] & Er' & <-); [left; by exists j, r'|right; congruence].
  - intros [(j & r' & Hj & Er' & <-)| ->]; [exists j, r'|exists i, r]; auto.
Qed.

Lemma follow_out_got seen i r s : _relations g !! i = Some r → ∃ s', follow_out g seen i s = Ok s' ∧ got seen (λ y, y = object r) s s'.
Proof.
  intros Er. unfold follow_out, the_relation. rewrite Er. cbn [mbind result_bind]. eexists. split; [done|]. case_bool_decide as Hin.
  - intros y. split; naive_solver.
  - intros y. unfold names. cbn [b_out b_in b_next]. rewrite elem_of_set_add, !map_app, !elem_of_app. cbn [map]. rewrite list_elem_of_singleton. cbn [hit_of fst]. naive_solver.
Qed.

Lemma follow_in_got seen i r s : _relations g !! i = Some r → ∃ s', follow_in g seen i s = Ok s' ∧ got seen (λ y, y = subject r) s s'.
Proof.
  intros Er. unfold follow_in, the_relation. rewrite Er. cbn [mbind result_bind]. eexists. split; [done|]. case_bool_decide as Hin.
  - intros y. split; naive_solver.
  - intros y. unfold names. cbn [b_out b_in b_next]. rewrite elem_of_set_add, !map_app, !elem_of_app. cbn [map]. rewrite list_elem_of_singleton. cbn [hit_of fst]. naive_solver.
Qed.

Lemma linked_idxs x y : linked g x y ↔
  (∃ i r, i ∈ idxs x (_by_subject g) ∧ _relations g !! i = Some r ∧ object r = y) ∨ (∃ i r, i ∈ idxs x (_by_object g) ∧ _relations g !! i = Some r ∧ subject r = y).
Proof.
  unfold linked, edge. setoid_rewrite (idxs_subject g); [|done]. setoid_rewrite (idxs_object g); [|done]. split.
  - intros [(r & [i Hi]%list_elem_of_lookup & E1 & E2)|(r & [i Hi]%list_elem_of_lookup & E1 & E2)]; [left|right]; exists i, r; eauto.
  - intros [(i & r & (r' & E & <-) & Er & <-)|(i & r & (r' & E & <-) & Er & <-)]; rewrite E in Er; injection Er as ->; [left|right]; exists r; (split; [by eapply list_elem_of_lookup_2|done]).
Qed.

Lemma visit_got seen node s0 : ∃ s, visit g seen node s0 = Ok s ∧ got seen (linked g node) s0 s.
Proof.
  unfold visit. destruct (follow_got seen (follow_out g seen) object (idxs node (_by_subject g)) s0) as (s1 & -> & H1).
  { intros. by apply follow_out_got. } { intros i. by apply idxs_valid. }
  cbn [mbind result_bind]. destruct (follow_got seen (follow_in g seen) subject (idxs node (_by_object g)) s1) as (s & -> & H2).
  { intros. by apply follow_in_got. } { intros i. rewrite idxs_object by done. intros (r & -> & _). by eexists. }
  exists s. split; [done|]. eapply got_trans; [|exact H1|exact H2]. intros y. apply linked_idxs.
Qed.

Lemma visits_got seen F s0 : ∃ s, for_each (visit g seen) F s0 = Ok s ∧ got seen (λ y, ∃ x, x ∈ F ∧ linked g x y) s0 s.
Proof.
  apply (for_each_inv (visit g seen) (λ pre s, got seen (λ y, ∃ x, x ∈ pre ∧ linked g x y) s0 s) F s0 []).
  { apply got_same. by intros y (x & Hx%not_elem_of_nil & _). }
  intros pre x s _ Hs. destruct (visit_got seen x s) as (s' & E & Hs'). exists s'. split; [done|]. eapply got_trans; [|exact Hs|exact Hs'].
  intros y. setoid_rewrite elem_of_app. setoid_rewrite list_elem_of_singleton. split.
  - intros (z & [Hz| ->] & Hl); [left; by exists z|by right].
  - intros [(z & Hz & Hl)|Hl]; [exists z|exists x]; auto.
Qed.
End rounds.

Section neighbors_spec.
Context (order : list string → list string) (Horder : ∀ l, order l ≡ₚ l) (g : OntologyGraph) (Hwf : graph_wf g) (start : string).

Record found (k : nat) (seen frontier : list string) (N : list string) : Prop := {
  fd_frontier : ∀ x, x ∈ frontier → nsteps (linked g) k start x;
  fd_closed : ∀ z y, z ∈ seen → linked g z y → y ∈ seen ∨ y ∈ frontier;
  fd_near : ∀ j y, j < k → nsteps (linked g) j start y → y ∈ seen;
  fd_named : ∀ y, y ∈ N → ∃ j, 1 <= j <= k ∧ nsteps (linked g) j start y;
  fd_complete : ∀ y, y ∈ seen ∨ y ∈ frontier → y ≠ start → y ∈ N;
  fd_start : start ∈ N ↔ 1 <= k ∧ linked g start start;
  fd_seen : k = 0 ∧ seen = [] ∧ frontier = [start] ∨ 1 <= k ∧ start ∈ seen;
}.

Lemma found_within k seen frontier N j y : found k seen frontier N → j <= k → nsteps (linked g) j start y → y ∈ seen ∨ y ∈ frontier.
Proof.
  intros Hf Hj Hs. destruct (decide (j < k)) as [Hlt|]; [left; by eapply (fd_near _ _ _ _ Hf)|]. destruct j as [|j].
  - inversion Hs; subst. destruct (fd_seen _ _ _ _ Hf) as [(_ & _ & ->)|[_ ?]]; [right; left|by left].
  - apply nsteps_inv_r in Hs as (x & Hx & Hl). eapply (fd_closed _ _ _ _ Hf); [|done]. eapply (fd_near _ _ _ _ Hf); [|exact Hx]. lia.
Qed.

Lemma found_step k seen frontier N N' next : found k seen frontier N →
  (∀ y, (y ∈ N' ↔ y ∈ N ∨ (∃ x, x ∈ frontier ∧ linked g x y) ∧ y ∉ seen) ∧ (y ∈ next ↔ (∃ x, x ∈ frontier ∧ linked g x y) ∧ y ∉ seen)) →
  found (S k) (set_update seen frontier) next N'.
Proof.
  intros Hf Hn. pose proof Hf as [H1 H2 _ H3 H4 H5 H6]. split.
  - intros y. destruct (Hn y) as [_ ->]. intros [(x & Hx & Hl) _]. eapply nsteps_r; [by apply H1|done].
  - intros z y. rewrite !elem_of_set_update. destruct (Hn y) as [_ ->]. intros [Hz|Hz] Hl; [left; by eapply H2|]. destruct (decide (y ∈ seen)); [by left; left|]. right. split; [by exists z|done].
  - intros j y Hj Hs. rewrite elem_of_set_update. eapply found_within; [exact Hf| |exact Hs]. lia.
  - intros y. destruct (Hn y) as [-> _]. intros [(j & Hj & Hs)%H3|[(x & Hx%H1 & Hl) _]]; [exists j; split; [lia|done]|]. exists (S k). split; [lia|by eapply nsteps_r].
  - intros y. rewrite elem_of_set_update. destruct (Hn y) as [-> ->]. intros [Hy|Hy] Hne; [left; by apply H4|by right].
  - destruct (Hn start) as [-> _]. rewrite H5. destruct H6 as [(-> & -> & ->)|[Hk Hs]]; [|split; [intros [[]|[_ []]]; [|done]; split; [lia|done]|intros [_ Hl]; by left]].
    setoid_rewrite list_elem_of_singleton. split; [intros [[H _]|[(x & -> & Hl) _]]; [lia|by split]|]. intros [_ Hl]. right. split; [by exists start|apply not_elem_of_nil].
  - right. split; [lia|]. rewrite elem_of_set_update. destruct H6 as [(_ & _ & ->)|[_ Hs]]; [right; left|by left].
Qed.

Lemma neighbor_rounds_found n : ∀ k seen frontier out incoming, found k seen frontier (names (Bfs out incoming [])) →
  ∃ out' incoming' seen' frontier', neighbor_rounds order g n seen frontier out incoming = Ok (out', incoming') ∧ found (k + n) seen' frontier' (names (Bfs out' incoming' [])).
Proof.
  induction n as [|n IH]; intros k seen frontier out incoming Hf; [exists out, incoming, seen, frontier; split; [done|by rewrite Nat.add_0_r]|].
  cbn [neighbor_rounds]. destruct (visits_got g Hwf seen (order frontier) (Bfs out incoming [])) as (s & -> & Hs). cbn [mbind result_bind].
  replace (k + S n) with (S k + n) by lia. apply IH. eapply found_step; [exact Hf|]. intros y. destruct (Hs y) as [E1 E2]. setoid_rewrite (Horder frontier) in E1. setoid_rewrite (Horder frontier) in E2.
  split; [exact E1|]. rewrite E2. cbn [b_next]. rewrite elem_of_nil. tauto.
Qed.

Lemma found_init : found 0 [] [start] [].
Proof.
  split; [|by intros z y Hz%not_elem_of_nil|lia|by intros y Hy%not_elem_of_nil| | |by left].
  - intros x ->%list_elem_of_singleton. constructor.
  - intros y [Hy%not_elem_of_nil|Hy%list_elem_of_singleton]; done.
  - rewrite elem_of_nil. lia.
Qed.
End neighbors_spec.

(** For a name it accepts, [neighbors] ends without an exception, whatever the order of sets.  The
    other entities it names are exactly those within [depth] relations of the given one, followed
    in either direction; the entity itself is named exactly if it is related to itself. *)
Theorem neighbors_exact order g x depth max_depth : (∀ l, order l ≡ₚ l) → graph_wf g → clean x → dmem x (_entities g) = true →
  ∃ hits, neighbors order g x depth max_depth = Ok hits ∧ ∀ y, y ∈ map (λ h : hit, h.1.1) hits ↔
    if decide (y = x) then linked g x x else ∃ j, j <= clamp depth max_depth ∧ nsteps (linked g) j x y.
Proof.
  intros Ho Hwf Hx Hm. unfold neighbors. rewrite Hx. cbn [mbind result_bind]. rewrite Hm. cbn [negb].
  destruct (neighbor_rounds_found order Ho g Hwf x (clamp depth max_depth) 0 [] [x] [] [] (found_init g x)) as (out & inc & seen & fr & -> & Hf). cbn [mbind result_bind].
  eexists. split; [done|]. intros y. assert (1 <= clamp depth max_depth) as Hc by (unfold clamp; lia).
  assert (y ∈ map (λ h : hit, h.1.1) (stable_sort heavier out ++ stable_sort heavier inc) ↔ y ∈ names (Bfs out inc [])) as ->.
  { unfold names. cbn [b_out b_in]. by rewrite !stable_sort_perm. }
  destruct (decide (y = x)) as [->|Hne]; [rewrite (fd_start _ _ _ _ _ _ Hf); cbn [Nat.add]; tauto|]. split.
  - intros (j & Hj & Hs)%(fd_named _ _ _ _ _ _ Hf). exists j. split; [cbn in Hj; lia|done].
  - intros (j & Hj & Hs). apply (fd_complete _ _ _ _ _ _ Hf); [|done]. by eapply found_within.
Qed.

(** ** What a subgraph contains *)
Section subgraph_spec.
Context (order : list string → list string) (Horder : ∀ l, order l ≡ₚ l) (g : OntologyGraph) (Hwf : graph_wf g).

(** [es] holds the entities of [g] named in [E]. *)
Definition restricts (es : list (string * Entity)) (E : string → Prop) : Prop :=
  NoDup es.*1 ∧ ∀ x e, dget x es = Some e ↔ dget x (_entities g) = Some e ∧ E x.

(** A part of [g]: the entities [E] and the relations [P]. *)
Record part (E : string → Prop) (P : Relation → Prop) (sub : OntologyGraph) : Prop := {
  pt_wf : graph_wf sub;
  pt_entities : restricts (_entities sub) E;
  pt_relations : ∀ r, r ∈ _relations sub ↔ r ∈ _relations g ∧ P r;
  pt_max_entities : max_entities sub = max_entities g;
  pt_max_relations : max_relations sub = max_relations g;
}.

Lemma restricts_keys es E x : restricts es E → x ∈ es.*1 ↔ x ∈ (_entities g).*1 ∧ E x.
Proof.
  intros [_ H]. rewrite <- !dget_is_Some. split.
  - intros [e [He HE]%H]. split; [by exists e|done].
  - intros [[e He] HE]. exists e. by apply H.
Qed.

Lemma part_with_entities E E' P sub es : part E P sub → restricts es E' → (∀ x, E x → E' x) → part E' P (with_entities sub es).
Proof.
  intros [[W1 W2 W3 W4 W5 W6 W7 W8] Hr Hp M1 M2] He HE. split; [|done..]. split; cbn [_entities _relations _by_subject _by_object max_entities max_relations with_entities]; [by apply He| | |done..| |done].
  - intros k e Hk. apply He in Hk as [Hk _]. by apply (wf_names g Hwf).
  - eapply Forall_impl; [exact W3|]. intros r (H1 & H2 & H3). rewrite !dmem_true in *. apply (restricts_keys _ _ _ Hr) in H1, H2. split_and!; [rewrite (restricts_keys _ _ _ He); naive_solver..|apply H3|apply H3].
  - assert (length es <= length (_entities g)) as Hl; [|pose proof (wf_entity_cap g Hwf); lia].
    rewrite <- (length_fmap fst es), <- (length_fmap fst (_entities g)). apply submseteq_length, NoDup_submseteq; [by apply He|]. intros x Hx. by apply (restricts_keys _ _ _ He) in Hx as [Hx _].
Qed.

Lemma known_entity x : dmem x (_entities g) = true → clean x.
Proof. rewrite dmem_true, <- dget_is_Some. intros [e He]. by apply (wf_names g Hwf) in He as [_ Hc]. Qed.

Lemma same_triple r r' : r ∈ _relations g → r' ∈ _relations g → triple r = triple r' → r = r'.
Proof.
  pose proof (wf_triples g Hwf) as Hn. intros [i Hi]%list_elem_of_lookup [j Hj]%list_elem_of_lookup E.
  assert (i = j) as ->; [|congruence]. eapply (NoDup_lookup (map triple (_relations g)) i j (triple r) Hn); rewrite list_lookup_fmap; [by rewrite Hi|by rewrite Hj, E].
Qed.

Lemma part_add_relation E P sub r : part E P sub → r ∈ _relations g → E (subject r) → E (object r) →
  ∃ sub', add_relation sub r = Ok sub' ∧ part E (λ r', P r' ∨ r' = r) sub'.
Proof.
  intros Hp Hr Hs Ho. pose proof (wf_endpoints g Hwf) as He. rewrite Forall_forall in He. destruct (He r Hr) as (D1 & D2 & D3 & D4).
  assert (∀ x, dmem x (_entities g) = true → E x → dmem x (_entities sub) = true) as Hm.
  { intros x. rewrite !dmem_true, (restricts_keys _ _ _ (pt_entities _ _ _ Hp)). done. }
  assert (mkRelation (subject r) (predicate r) (object r) (weight r) (metadata r) = r) as Eta by (by destruct r).
  assert (∃ sub', add_relation sub r = Ok sub' ∧ (_relations sub' = _relations sub ∧ r ∈ _relations sub ∨ _relations sub' = _relations sub ++ [r])) as (sub' & E' & Hrel).
  { unfold add_relation. rewrite (known_entity _ D1), (known_entity _ D2). cbn [mbind result_bind]. rewrite (Hm _ D1 Hs), (Hm _ D2 Ho). cbn [negb]. rewrite D4, D3. cbn [negb].
    destruct (find_triple_wf sub (subject r) (predicate r) (object r) (pt_wf _ _ _ Hp)) as (b & -> & Hb). cbn [mbind result_bind]. destruct b.
    - exists sub. split; [done|left]. split; [done|]. destruct Hb as [Hb _]. specialize (Hb eq_refl). apply list_elem_of_fmap in Hb as (r' & Et & Hr').
      assert (r' ∈ _relations g) as Hr2 by (by apply (pt_relations _ _ _ Hp)). by rewrite (same_triple r r' Hr Hr2 Et).
    - assert (r ∉ _relations sub) as Hn by (intros Hin; destruct Hb as [_ Hb]; specialize (Hb ltac:(apply list_elem_of_fmap; by exists r)); done).
      assert (length (r :: _relations sub) <= length (_relations g)) as Hl.
      { apply submseteq_length, NoDup_submseteq.
        - constructor; [done|]. apply (NoDup_fmap_1 triple). apply (wf_triples sub (pt_wf _ _ _ Hp)).
        - intros r' [->|Hr']%elem_of_cons; [done|]. by apply (pt_relations _ _ _ Hp). }
      cbn [length] in Hl. pose proof (wf_relation_cap g Hwf). rewrite (pt_max_relations _ _ _ Hp). destruct (Z.leb_spec (max_relations g) (Z.of_nat (length (_relations sub)))); [lia|].
      eexists. split; [done|]. right. cbn [_relations]. by rewrite Eta. }
  destruct (add_relation_wf sub r sub' (pt_wf _ _ _ Hp) E') as (W & E1 & E2 & E3 & _). exists sub'. split; [done|].
  split; [done|rewrite E1; apply Hp| |rewrite E2; apply Hp|rewrite E3; apply Hp]. intros r'. destruct Hrel as [[-> Hin]| ->].
  - rewrite (pt_relations _ _ _ Hp). split; [tauto|]. intros [Hg [HP| ->]]; [done|]. by apply (pt_relations _ _ _ Hp).
  - rewrite elem_of_app, list_elem_of_singleton, (pt_relations _ _ _ Hp). split; [intros [?| ->]; [tauto|by split; [|right]]|tauto].
Qed.

Lemma part_iff E E' P P' sub : (∀ x, E x ↔ E' x) → (∀ r, r ∈ _relations g → P r ↔ P' r) → part E P sub → part E' P' sub.
Proof.
  intros HE HP [H1 [H2 H3] H4 H5 H6]. split; [done| | |done|done].
  - split; [done|]. intros x e. by rewrite H3, HE.
  - intros r. rewrite H4. split; intros [Hg H]; (split; [done|by apply HP]).
Qed.
(** *** Rounds *)
Lemma entity_at x : dmem x (_entities g) = true → ∃ t, dget x (_entities g) = Some t ∧ name t = x.
Proof. rewrite dmem_true, <- dget_is_Some. intros [t Ht]. exists t. split; [done|]. by apply (wf_names g Hwf) in Ht as [Hn _]. Qed.

Lemma restricts_dset es E x t : restricts es E → dget x (_entities g) = Some t → restricts (dset x t es) (λ y, E y ∨ y = x).
Proof.
  intros [Hn H] Ht. split; [by apply dset_keys_NoDup|]. intros y e. rewrite dget_dset. case_decide as Hy; [subst y|rewrite H; naive_solver].
  rewrite Ht. split; [intros [= ->]; split; [done|by right]|by intros [[= ->] _]].
Qed.

Lemma restricts_iff es E E' : (∀ x, E x ↔ E' x) → restricts es E → restricts es E'.
Proof. intros HE [Hn H]. split; [done|]. intros x e. by rewrite H, HE. Qed.

(** The state of the first loop of a round: [Y] has been reached next. *)
Definition hopped (R Y : string → Prop) (s : list (string * Entity) * list string) : Prop :=
  restricts s.1 (λ x, R x ∨ Y x) ∧ ∀ y, y ∈ s.2 ↔ Y y.

Lemma add_target_hopped reached other i r Y s : (∀ r, r ∈ _relations g → dmem (other r) (_entities g) = true) →
  _relations g !! i = Some r → hopped (λ x, x ∈ reached) Y s →
  ∃ s', add_target g reached other i s = Ok s' ∧ hopped (λ x, x ∈ reached) (λ y, Y y ∨ y = other r) s'.
Proof.
  intros Hother Er [H1 H2]. unfold add_target, the_relation. rewrite Er. cbn [mbind result_bind].
  destruct (entity_at (other r)) as (t & Et & Hn); [by eapply Hother, list_elem_of_lookup_2|]. rewrite Et, Hn. eexists. split; [done|]. split; cbn [fst snd].
  - case_bool_decide as Hin.
    + eapply restricts_iff; [|exact H1]. intros x. cbn beta. split; [tauto|]. intros [?|[?| ->]]; auto.
    + eapply restricts_iff; [|by apply restricts_dset; [exact H1|]]. intros x. cbn beta. tauto.
  - intros y. rewrite elem_of_set_add, H2. tauto.
Qed.

Lemma hopped_iff R Y Y' s : (∀ y, Y y ↔ Y' y) → hopped R Y s → hopped R Y' s.
Proof. intros HY [H1 H2]. split; [|intros y; by rewrite H2, HY]. eapply restricts_iff; [|exact H1]. intros x. cbn beta. by rewrite HY. Qed.

Lemma add_all_hopped reached other ix Y s : (∀ r, r ∈ _relations g → dmem (other r) (_entities g) = true) →
  (∀ i, i ∈ ix → is_Some (_relations g !! i)) → hopped (λ x, x ∈ reached) Y s →
  ∃ s', for_each (add_target g reached other) ix s = Ok s' ∧ hopped (λ x, x ∈ reached) (λ y, Y y ∨ ∃ i r, i ∈ ix ∧ _relations g !! i = Some r ∧ other r = y) s'.
Proof.
  intros Hother Hix Hs. apply (for_each_inv _ (λ pre s, hopped (λ x, x ∈ reached) (λ y, Y y ∨ ∃ i r, i ∈ pre ∧ _relations g !! i = Some r ∧ other r = y) s) ix s []).
  { eapply hopped_iff; [|exact Hs]. intros y. split; [by left|]. by intros [?|(i & r & Hi%not_elem_of_nil & _)]. }
  intros pre i s1 Hi H1. destruct (Hix i Hi) as [r Er]. destruct (add_target_hopped reached other i r _ s1 Hother Er H1) as (s' & E & H'). exists s'. split; [done|]. eapply hopped_iff; [|exact H'].
  intros y. cbn beta. setoid_rewrite elem_of_app. setoid_rewrite list_elem_of_singleton. split.
  - intros [[Hy|(j & r' & Hj & Er' & <-)]| ->]; [by left|right; exists j, r'; auto|right; exists i, r; auto].
  - intros [Hy|(j & r' & [Hj| ->] & Er' & <-)]; [auto|left; right; by exists j, r'|right; congruence].
Qed.

Lemma endpoints r : r ∈ _relations g → dmem (subject r) (_entities g) = true ∧ dmem (object r) (_entities g) = true.
Proof. pose proof (wf_endpoints g Hwf) as He. rewrite Forall_forall in He. by intros (D1 & D2 & _)%He. Qed.

Lemma targets_hopped reached F s : hopped (λ x, x ∈ reached) (λ _, False) s →
  ∃ s', for_each (add_targets g reached) F s = Ok s' ∧ hopped (λ x, x ∈ reached) (λ y, ∃ x, x ∈ F ∧ linked g x y) s'.
Proof.
  intros Hs. apply (for_each_inv _ (λ pre s, hopped (λ x, x ∈ reached) (λ y, ∃ x, x ∈ pre ∧ linked g x y) s) F s []).
  { eapply hopped_iff; [|exact Hs]. intros y. split; [done|]. by intros (x & Hx%not_elem_of_nil & _). }
  intros pre x s1 _ H1. unfold add_targets.
  destruct (add_all_hopped reached object (idxs x (_by_subject g)) _ s1 (λ r Hr, proj2 (endpoints r Hr)) (λ i, idxs_valid g x i Hwf) H1) as (s2 & -> & H2). cbn [mbind result_bind].
  assert (∀ i, i ∈ idxs x (_by_object g) → is_Some (_relations g !! i)) as Hv by (intros i; rewrite idxs_object by done; intros (r & -> & _); by eexists).
  destruct (add_all_hopped reached subject (idxs x (_by_object g)) _ s2 (λ r Hr, proj1 (endpoints r Hr)) Hv H2) as (s' & -> & H').
  exists s'. split; [done|]. eapply hopped_iff; [|exact H']. intros y. cbn beta. setoid_rewrite elem_of_app. setoid_rewrite list_elem_of_singleton. pose proof (linked_idxs g Hwf x y) as HL. split.
  - intros [[(z & Hz & Hl)|Hl]|Hl]; [exists z; auto|exists x; tauto..].
  - intros (z & [Hz| ->] & Hl); [left; left; by exists z|]. apply HL in Hl as [Hl|Hl]; [by left; right|by right].
Qed.

Lemma copy_relations_part E P F sub : part E P sub → (∀ x y, x ∈ F → linked g x y → E x ∧ E y) →
  ∃ sub', for_each (copy_relations g) F sub = Ok sub' ∧ part E (λ r, P r ∨ subject r ∈ F ∨ object r ∈ F) sub'.
Proof.
  intros Hp HF. apply (for_each_inv _ (λ pre sub, part E (λ r, P r ∨ subject r ∈ pre ∨ object r ∈ pre) sub) F sub []).
  { eapply part_iff; [done| |exact Hp]. intros r _. rewrite !elem_of_nil. tauto. }
  intros pre x sub1 Hx H1. unfold copy_relations. set (ix := idxs x (_by_subject g) ++ idxs x (_by_object g)).
  assert (∀ i, i ∈ ix ↔ ∃ r, _relations g !! i = Some r ∧ (subject r = x ∨ object r = x)) as Hix.
  { intros i. unfold ix. rewrite elem_of_app, idxs_subject, idxs_object by done. naive_solver. }
  destruct (for_each_inv (λ i sub, r ← the_relation g i; add_relation sub r) (λ done_ sub, part E (λ r, (P r ∨ subject r ∈ pre ∨ object r ∈ pre) ∨ ∃ i, i ∈ done_ ∧ _relations g !! i = Some r) sub) ix sub1 []) as (sub' & E' & H').
  { eapply part_iff; [done| |exact H1]. intros r _. split; [by left|]. by intros [?|(i & Hi%not_elem_of_nil & _)]. }
  { intros dn i sub2 Hi H2. apply Hix in Hi as (r & Er & Hr). unfold the_relation. rewrite Er. cbn [mbind result_bind].
    assert (r ∈ _relations g) as Hin by (by eapply list_elem_of_lookup_2). assert (edge g (subject r) (object r)) as He by (by exists r).
    assert (E (subject r) ∧ E (object r)) as [Es Eo] by (destruct Hr as [Hr|Hr]; [rewrite Hr in *; apply (HF x (object r) Hx); by left|rewrite Hr in *; destruct (HF x (subject r) Hx) as [? ?]; [by right|done]]).
    destruct (part_add_relation E _ sub2 r H2 Hin Es Eo) as (sub3 & E3 & H3). exists sub3. split; [done|]. eapply part_iff; [done| |exact H3]. intros r' _. cbn beta. setoid_rewrite elem_of_app. setoid_rewrite list_elem_of_singleton. split.
    - intros [[?|(j & Hj & Ej)]| ->]; [by left|right; exists j; auto|right; exists i; auto].
    - intros [?|(j & [Hj| ->] & Ej)]; [by left; left|left; right; by exists j|right; congruence]. }
  exists sub'. split; [done|]. eapply part_iff; [done| |exact H']. intros r [i Hi]%list_elem_of_lookup. cbn [app]. rewrite !elem_of_app, !list_elem_of_singleton. setoid_rewrite Hix. split.
  - intros [?|(j & (r' & Er' & Hr') & Ej)]; [tauto|]. rewrite Er' in Ej. injection Ej as ->. tauto.
  - intros [HP|[[Hs|Hs]|[Ho|Ho]]]; [by auto|by auto|right|by auto|right]; exists i; (split; [|done]); exists r; auto.
Qed.
(** [near rs k]: within [k] relations of one of [rs], in either direction. *)
Definition near (rs : list string) (k : nat) (x : string) : Prop := ∃ root j, root ∈ rs ∧ j <= k ∧ nsteps (linked g) j root x.

Lemma near_step rs k y : near rs (S k) y ↔ near rs k y ∨ ∃ x, near rs k x ∧ linked g x y.
Proof.
  split.
  - intros (root & j & Hr & Hj & Hs). destruct (decide (j <= k)); [left; by exists root, j|]. right. assert (j = S k) as -> by lia. apply nsteps_inv_r in Hs as (x & Hx & Hl).
    exists x. split; [|done]. by exists root, k.
  - intros [(root & j & Hr & Hj & Hs)|(x & (root & j & Hr & Hj & Hs) & Hl)]; [exists root, j|exists root, (S j)]; (split; [done|]); (split; [lia|]); [done|by eapply nsteps_r].
Qed.

Definition touches (rs : list string) (k : nat) (r : Relation) : Prop := ∃ j, j < k ∧ (near rs j (subject r) ∨ near rs j (object r)).

Lemma near_mono rs j k x : j <= k → near rs j x → near rs k x.
Proof. intros Hj (root & i & Hr & Hi & Hs). exists root, i. split_and!; [done|lia|done]. Qed.

Lemma touches_last rs k r : touches rs (S k) r ↔ near rs k (subject r) ∨ near rs k (object r).
Proof.
  split; [|intros H; exists k; split; [lia|done]]. intros (j & Hj & [H|H]); [left|right]; (eapply near_mono; [|exact H]); lia.
Qed.

Lemma subgraph_rounds_part rs n : ∀ k reached sub, (∀ x, x ∈ reached ↔ near rs k x) → part (near rs k) (touches rs k) sub →
  ∃ sub', subgraph_rounds order g n reached sub = Ok sub' ∧ part (near rs (k + n)) (touches rs (k + n)) sub'.
Proof.
  induction n as [|n IH]; intros k reached sub HR Hp; [exists sub; split; [done|by rewrite Nat.add_0_r]|]. cbn [subgraph_rounds].
  destruct (targets_hopped reached (order reached) (_entities sub, [])) as ([es next] & -> & [He Hn]).
  { split; cbn [fst snd]; [|intros y; by rewrite elem_of_nil]. eapply restricts_iff; [|apply (pt_entities _ _ _ Hp)]. intros x. cbn beta. rewrite HR. tauto. }
  cbn [mbind result_bind fst snd] in *. assert (∀ y, (∃ x, x ∈ order reached ∧ linked g x y) ↔ ∃ x, near rs k x ∧ linked g x y) as Ho by (intros y; setoid_rewrite (Horder reached); by setoid_rewrite HR).
  assert (∀ y, y ∈ reached ∨ (∃ x, x ∈ order reached ∧ linked g x y) ↔ near rs (S k) y) as HS by (intros y; by rewrite HR, Ho, near_step).
  assert (part (near rs (S k)) (touches rs k) (with_entities sub es)) as Hp1.
  { eapply part_with_entities; [exact Hp|eapply restricts_iff; [exact HS|exact He]|]. intros x Hx. apply near_step. by left. }
  destruct (copy_relations_part _ _ (order reached) _ Hp1) as (sub1 & -> & H1).
  { intros x y Hx Hl. rewrite (Horder reached), HR in Hx. split; apply near_step; [by left|right; by exists x]. }
  cbn [mbind result_bind]. replace (k + S n) with (S k + n) by lia. apply IH.
  - intros x. by rewrite elem_of_set_update, Hn, HS.
  - eapply part_iff; [done| |exact H1]. intros r _. cbn beta. rewrite (Horder reached), !HR, touches_last. split; [|tauto]. intros [(j & Hj & [H|H])|H]; [left|right|done]; (eapply near_mono; [|exact H]); lia.
Qed.

Lemma roots_restrict roots : Forall clean roots →
  ∃ s, for_each (add_root g) roots ([], []) = Ok s ∧ restricts s.1 (λ x, x ∈ s.2) ∧ ∀ x, x ∈ s.2 ↔ x ∈ roots ∧ dmem x (_entities g) = true.
Proof.
  intros Hc. rewrite Forall_forall in Hc.
  apply (for_each_inv (add_root g) (λ pre s, restricts s.1 (λ x, x ∈ s.2) ∧ ∀ x, x ∈ s.2 ↔ x ∈ pre ∧ dmem x (_entities g) = true) roots ([], []) []).
  { split; [split; [constructor|]; intros x e; cbn; rewrite elem_of_nil; naive_solver|]. intros x. cbn [snd]. rewrite !elem_of_nil. tauto. }
  intros pre x s Hx [H1 H2]. unfold add_root, get_entity. rewrite (Hc x Hx). cbn [mbind result_bind]. destruct (dget x (_entities g)) as [t|] eqn:Et.
  - pose proof (wf_names g Hwf x t Et) as [En _]. rewrite En. eexists. split; [done|]. cbn [fst snd]. split.
    + eapply restricts_iff; [|by apply restricts_dset; [exact H1|]]. intros y. cbn beta. rewrite elem_of_set_add. tauto.
    + intros y. rewrite elem_of_set_add, H2, elem_of_app, list_elem_of_singleton. split; [intros [->|[? ?]]; [|tauto]|tauto]. split; [by right|]. rewrite dmem_true. apply dget_is_Some. by eexists.
  - exists s. split; [done|]. split; [done|]. intros y. rewrite H2, elem_of_app, list_elem_of_singleton. split; [tauto|]. intros [[?| ->] Hm]; [tauto|]. rewrite dmem_true in Hm. by apply dget_None in Et.
Qed.
End subgraph_spec.

(** [get_subgraph] of clean names ends without an exception, whatever the order of sets, in a
    well-formed graph.  Its entities are exactly those within [depth] relations of a root that
    exists, followed in either direction, and its relations exactly those with an end within one
    hop less. *)
Theorem subgraph_exact order g roots depth max_depth : (∀ l, order l ≡ₚ l) → graph_wf g → Forall clean roots →
  let d := clamp depth max_depth in let rs := filter (λ x, dmem x (_entities g) = true) roots in
  ∃ sub, get_subgraph order g roots depth max_depth = Ok sub ∧ graph_wf sub
    ∧ (∀ x e, dget x (_entities sub) = Some e ↔ dget x (_entities g) = Some e ∧ near g rs d x)
    ∧ ∀ r, r ∈ _relations sub ↔ r ∈ _relations g ∧ (near g rs (d - 1) (subject r) ∨ near g rs (d - 1) (object r)).
Proof.
  intros Ho Hwf Hc d rs. unfold get_subgraph. destruct (roots_restrict g Hwf roots Hc) as ([es reached] & -> & He & Hr). cbn [mbind result_bind fst snd] in *.
  assert (∀ x, x ∈ reached ↔ near g rs 0 x) as HR.
  { intros x. rewrite Hr. unfold near, rs. split.
    - intros [Hx Hm]. exists x, 0. split_and!; [by apply list_elem_of_filter|done|constructor].
    - intros (root & j & [Hm Hx]%list_elem_of_filter & Hj & Hs). assert (j = 0) as -> by lia. inversion Hs; by subst. }
  assert (part g (near g rs 0) (touches g rs 0) (with_entities (graph_init (max_entities g) (max_relations g)) es)) as Hp.
  { eapply (part_with_entities g Hwf (λ _, False)); [|eapply restricts_iff; [exact HR|exact He]|done]. split; [apply graph_init_wf|split; [constructor|]; intros x e; cbn; naive_solver| |done|done].
    intros r. cbn. rewrite elem_of_nil. split; [done|]. intros [_ (j & Hj & _)]. lia. }
  assert (1 <= d) as Hd by (unfold d, clamp; lia).
  destruct (match reached with [] => _ | _ => _ end) as [sub|] eqn:E; cycle 1.
  - exfalso. destruct reached as [|a reached]; [done|]. destruct (subgraph_rounds_part order Ho g Hwf rs d 0 (a :: reached) _ HR Hp) as (sub & E' & _). fold d in E. congruence.
  - exists sub. split; [done|]. destruct reached as [|a reached].
    + injection E as <-. assert (∀ k x, ¬ near g rs k x) as Hno.
      { intros k x (root & j & Hroot & _). assert (root ∈ []) as []%not_elem_of_nil. apply HR. exists root, 0. split_and!; [done|lia|constructor]. }
      destruct Hp as [H1 [_ H2] H3 _ _]. split; [done|]. split; [intros x e; rewrite H2; by split; intros [_ Hn%Hno]|]. intros r. rewrite H3. split; [intros [_ (j & Hj & _)]; lia|]. by intros [_ [Hn%Hno|Hn%Hno]].
    + destruct (subgraph_rounds_part order Ho g Hwf rs d 0 (a :: reached) _ HR Hp) as (sub' & E' & [H1 [_ H2] H3 _ _]). fold d in E. rewrite E' in E. injection E as <-. cbn [Nat.add] in *.
      split; [done|]. split; [done|]. intros r. rewrite H3. replace d with (S (d - 1)) at 1 by lia. by rewrite touches_last.
Qed.

(** The documentation calls neighbours and subgraphs directed: relations that point to a root
    are followed too. *)
Example subgraph_follows_backwards :
  let g := foldl run_op (graph_init 9 9) [AddEntity (mkEntity "a" "x" []); AddEntity (mkEntity "b" "x" []); AddRelation (mkRelation "a" "owns" "b" 1 [])] in
  (λ sub, (_entities sub).*1) <$> get_subgraph (λ l, l) g ["b"] 1 3 = Ok ["b"; "a"].
Proof. vm_compute. reflexivity. Qed.

(** ** Rendering *)
Definition heavier_relation (a b : Relation) : bool := Qltb (weight b) (weight a).

(** [sorted(..., reverse=True)[:limit]] for a [limit] that is not negative *)
Definition heaviest (g : OntologyGraph) (limit : nat) : list Relation := take limit (stable_sort heavier_relation (_relations g)).

Section render.
(** [f"{w:.1f}"] *)
Context (fmt1 : Q → string).

Definition context_line (r : Relation) : string := subject r +:+ " --" +:+ predicate r +:+ "--> " +:+ object r +:+ " (w=" +:+ fmt1 (weight r) +:+ ")".

Definition to_context (g : OntologyGraph) (limit : nat) : string := String.concat (String "010" "") (map context_line (heaviest g limit)).

Definition rule_line (r : Relation) : string :=
  "[AXIOM w=" +:+ fmt1 (weight r) +:+ "] " +:+ subject r +:+
  (if String.eqb (predicate r) "forbids" then " MUST NOT " +:+ object r +:+ " (" +:+ predicate r +:+ ")"
   else " MUST be linked to " +:+ object r +:+ " via " +:+ predicate r).

Definition to_rules (g : OntologyGraph) (limit : nat) : string := String.concat (String "010" "") (map rule_line (heaviest g limit)).
End render.

Lemma heavier_relation_asym x y : heavier_relation x y = true → heavier_relation y x = false.
Proof. unfold heavier_relation. rewrite Qltb_lt, Qltb_ge. apply Qlt_le_weak. Qed.

Lemma heavier_relation_trans x y z : heavier_relation y x = false → heavier_relation z y = false → heavier_relation z x = false.
Proof. unfold heavier_relation. rewrite !Qltb_ge. intros H1 H2. by eapply Qle_trans. Qed.

(** Rules are left out only for relations that are at most as heavy as all that are shown. *)
Theorem heaviest_shown g limit :
  ∃ rest, _relations g ≡ₚ heaviest g limit ++ rest ∧ length (heaviest g limit) = min limit (length (_relations g))
    ∧ ∀ shown hidden, shown ∈ heaviest g limit → hidden ∈ rest → (weight hidden <= weight shown)%Q.
Proof.
  exists (drop limit (stable_sort heavier_relation (_relations g))). unfold heaviest. rewrite take_drop. split; [by rewrite stable_sort_perm|].
  split; [rewrite length_take; f_equal; apply Permutation_length, stable_sort_perm|].
  pose proof (stable_sort_sorted heavier_relation heavier_relation_asym heavier_relation_trans (_relations g)) as Hs. rewrite <- (take_drop limit (stable_sort heavier_relation (_relations g))) in Hs.
  intros a b Ha Hb. apply Qltb_ge. revert Ha Hb Hs. generalize (take limit (stable_sort heavier_relation (_relations g))) as l. generalize (drop limit (stable_sort heavier_relation (_relations g))) as l'.
  intros l' l Ha Hb. induction l as [|x l IH]; [by apply not_elem_of_nil in Ha|]. cbn [app]. intros [Hs Hx]%StronglySorted_inv. apply elem_of_cons in Ha as [->|Ha]; [|by apply IH].
  rewrite Forall_forall in Hx. apply (Hx b). apply elem_of_app. by right.
Qed.

(** ** The file of a graph *)
Definition texts (d : list (string * string)) : json := JObj (map (λ kv, (kv.1, JStr kv.2)) d).

Definition entity_dict (e : Entity) : json := JObj [("name", JStr (name e)); ("type", JStr (type e)); ("attributes", texts (attributes e))].

Definition relation_dict (r : Relation) : json :=
  JObj [("subject", JStr (subject r)); ("predicate", JStr (predicate r)); ("object", JStr (object r)); ("weight", JNum (weight r)); ("metadata", texts (metadata r))].

Definition payload (g : OntologyGraph) : json :=
  JObj [("entities", JArr (map entity_dict (_entities g).*2)); ("relations", JArr (map relation_dict (_relations g)))].

Definition save (dumps : json → string) (p : string) (g : OntologyGraph) (rnd : string) : io () := atomic_write_json dumps p (payload g) true 5 rnd.

(** The truth of a value, for [x or ""]. *)
Definition truthy (j : json) : bool :=
  match j with
  | JNull => false | JBool b => b | JNum q => negb (Qeq_bool q 0) | JStr s => nonempty s
  | JArr l => negb (bool_decide (length l = 0)) | JObj d => negb (bool_decide (length d = 0))
  end.

(** [(x or default).strip()] can be taken of a string and of what is false. *)
Definition text_or (d : string) (j : json) : option string := match j with JStr s => Some s | _ => if truthy j then None else Some d end.

(** [for x in value] *)
Definition iterated (j : json) : option (list json) :=
  match j with
  | JArr l => Some l
  | JObj d => Some (map (λ kv, JStr kv.1) d)
  | JStr s => Some (map (λ a, JStr (String a "")) (list_ascii_of_string s))
  | _ => None
  end.

Section load.
(** [dict] and [float] of a JSON value; their failure is an exception. *)
Context (dict_of : json → option (list (string * string))) (float_of : json → option Q).

(** [Entity(...)] of the known keys of [raw], and [add_entity]. *)
Definition load_entity (raw : json) (g : OntologyGraph) : gresult OntologyGraph :=
  match raw with
  | JObj d =>
      match dget "name" d, dget "type" d with
      | Some n, Some t =>
          match text_or "" n, text_or "" t, dict_of (default (JObj []) (dget "attributes" d)) with
          | Some n, Some t, Some a => add_entity g (mkEntity n t a)
          | _, _, _ => Err (PyExn TypeError)
          end
      | _, _ => Err (PyExn TypeError)
      end
  | _ => Err (PyExn AttributeError)
  end.

(** Weight and metadata are converted only if the relation is new. *)
Definition load_relation (raw : json) (g : OntologyGraph) : gresult OntologyGraph :=
  match raw with
  | JObj d =>
      match dget "subject" d, dget "predicate" d, dget "object" d with
      | Some s, Some p, Some o =>
          match text_or "" s, text_or "" p, text_or "" o with
          | Some s, Some p, Some o =>
              let w := float_of (default (JNum 1) (dget "weight" d)) in
              let md := dict_of (default (JObj []) (dget "metadata" d)) in
              g' ← add_relation g (mkRelation s p o (default 0%Q w) (default [] md));
              if bool_decide (length (_relations g') = length (_relations g)) || (bool_decide (is_Some w) && bool_decide (is_Some md)) then Ok g' else Err (PyExn TypeError)
          | _, _, _ => Err (PyExn TypeError)
          end
      | _, _, _ => Err (PyExn TypeError)
      end
  | _ => Err (PyExn AttributeError)
  end.

(** A loop under [suppress]: what was added stays; the flag says that the loop came to its end. *)
Fixpoint load_all (f : json → OntologyGraph → gresult OntologyGraph) (l : list json) (g : OntologyGraph) : OntologyGraph * bool :=
  match l with
  | [] => (g, true)
  | raw :: l => match f raw g with Ok g => load_all f l g | Err _ => (g, false) end
  end.

Definition load_list (f : json → OntologyGraph → gresult OntologyGraph) (j : json) (g : OntologyGraph) : OntologyGraph * bool :=
  match iterated j with Some l => load_all f l g | None => (g, false) end.

Definition load_data (data : json) (g : OntologyGraph) : OntologyGraph :=
  match data with
  | JObj d =>
      let '(g, complete) := load_list load_entity (default (JArr []) (dget "entities" d)) g in
      if complete then (load_list load_relation (default (JArr []) (dget "relations" d)) g).1 else g
  | _ => g
  end.

Definition load (loads : string → parsed) (p : string) (fs : files) (err bak_err : bool) (max_entities max_relations : Z) : result pyexn OntologyGraph :=
  data ← atomic_read_json loads p None fs err bak_err; Ok (load_data data (graph_init max_entities max_relations)).
End load.

(** *** Round trip *)
Definition retype (e : Entity) : Entity := mkEntity (name e) (strip (if nonempty (type e) then type e else "unknown")) (attributes e).

Lemma add_fresh_relation s r : graph_wf s → clean (subject r) → clean (object r) → dmem (subject r) (_entities s) = true → dmem (object r) (_entities s) = true →
  strip (predicate r) = predicate r → nonempty (predicate r) = true → triple r ∉ map triple (_relations s) → (Z.of_nat (length (_relations s)) < max_relations s)%Z →
  ∃ s', add_relation s r = Ok s' ∧ graph_wf s' ∧ _relations s' = _relations s ++ [r] ∧ _entities s' = _entities s ∧ max_relations s' = max_relations s.
Proof.
  intros Hwf Hs Ho Ms Mo Hp Hn Ht Hc. assert (∃ s', add_relation s r = Ok s' ∧ _relations s' = _relations s ++ [r]) as (s' & E & Er).
  { unfold add_relation. rewrite Hs, Ho. cbn [mbind result_bind]. rewrite Ms, Mo, Hp, Hn. cbn [negb]. destruct (find_triple_wf s (subject r) (predicate r) (object r) Hwf) as (b & -> & Hb).
    cbn [mbind result_bind]. destruct b; [by destruct Ht; apply Hb|]. destruct (Z.leb_spec (max_relations s) (Z.of_nat (length (_relations s)))); [lia|]. eexists. split; [done|]. cbn [_relations]. by destruct r. }
  destruct (add_relation_wf s r s' Hwf E) as (W & E1 & _ & E3 & _). by exists s'.
Qed.

Section roundtrip.
Context (dict_of : json → option (list (string * string))) (float_of : json → option Q).
Context (Hdict : ∀ d, dict_of (texts d) = Some d) (Hfloat : ∀ q, float_of (JNum q) = Some q).

Lemma load_entities es s : graph_wf s → NoDup ((_entities s).*1 ++ es.*1) → (∀ k e, (k, e) ∈ es → name e = k ∧ clean k) →
  (Z.of_nat (length (_entities s) + length es) ≤ max_entities s)%Z →
  ∃ s', load_all (load_entity dict_of) (map entity_dict es.*2) s = (s', true) ∧ graph_wf s' ∧ _relations s' = _relations s
    ∧ max_relations s' = max_relations s ∧ _entities s' = _entities s ++ map (λ ke, (ke.1, retype ke.2)) es.
Proof.
  revert s. induction es as [|[k e] es IH]; intros s Hwf Hn Hk Hc; [exists s; by rewrite app_nil_r|].
  destruct (Hk k e ltac:(left)) as [En Hcl]. cbn [fmap list_fmap map load_all load_entity entity_dict fst snd]. 
  change (dget "name" _) with (Some (JStr (name e))). change (dget "type" _) with (Some (JStr (type e))). change (dget "attributes" _) with (Some (texts (attributes e))).
  cbn [text_or default from_option Datatypes.id]. rewrite Hdict. cbn [fmap list_fmap fst] in Hn. assert (k ∉ (_entities s).*1) as Hf by (apply NoDup_app in Hn as (_ & Hd & _); intros Hin; apply (Hd k Hin); left).
  assert (add_entity s (mkEntity (name e) (type e) (attributes e)) = Ok (with_entities s (_entities s ++ [(k, retype e)]))) as E.
  { unfold add_entity. cbn [name type attributes]. rewrite En, Hcl. cbn [mbind result_bind]. cbn [length] in Hc. destruct (Z.leb_spec (max_entities s) (Z.of_nat (length (_entities s)))); [lia|]. rewrite andb_false_r, dset_keys_fresh by done.
    unfold retype. by rewrite En. }
  rewrite E. destruct (add_entity_wf _ _ _ Hwf E) as (W & _). destruct (IH _ W) as (s' & E' & W' & R1 & R2 & R3).
  - cbn [_entities with_entities]. rewrite fmap_app. cbn [fmap list_fmap fst]. by rewrite <- app_assoc.
  - intros k' e' Hin. apply Hk. by right.
  - cbn [_entities with_entities max_entities]. rewrite length_app. cbn [length] in Hc |- *. lia.
  - exists s'. split_and!; [exact E'|done|exact R1|exact R2|]. rewrite R3. cbn [_entities with_entities map fst snd]. by rewrite <- app_assoc.
Qed.

Lemma load_relations rs s : graph_wf s → NoDup (map triple (_relations s ++ rs)) →
  Forall (λ r, (clean (subject r) ∧ clean (object r)) ∧ dmem (subject r) (_entities s) = true ∧ dmem (object r) (_entities s) = true ∧ nonempty (predicate r) = true ∧ strip (predicate r) = predicate r) rs →
  (Z.of_nat (length (_relations s) + length rs) ≤ max_relations s)%Z →
  ∃ s', load_all (load_relation dict_of float_of) (map relation_dict rs) s = (s', true) ∧ graph_wf s' ∧ _relations s' = _relations s ++ rs ∧ _entities s' = _entities s.
Proof.
  revert s. induction rs as [|r rs IH]; intros s Hwf Hn Hr Hc; [exists s; by rewrite app_nil_r|]. apply Forall_cons in Hr as [([C1 C2] & D1 & D2 & D3 & D4) Hr].
  cbn [map load_all load_relation relation_dict].
  change (dget "subject" _) with (Some (JStr (subject r))). change (dget "predicate" _) with (Some (JStr (predicate r))). change (dget "object" _) with (Some (JStr (object r))).
  change (dget "weight" _) with (Some (JNum (weight r))). change (dget "metadata" _) with (Some (texts (metadata r))). cbn [text_or default from_option Datatypes.id]. rewrite Hdict, Hfloat. cbn [default from_option Datatypes.id].
  replace (mkRelation (subject r) (predicate r) (object r) (weight r) (metadata r)) with r by (by destruct r).
  destruct (add_fresh_relation s r Hwf C1 C2 D1 D2 D4 D3) as (s1 & E & W & R1 & R2 & R3).
  { rewrite map_app in Hn. apply NoDup_app in Hn as (_ & Hd & _). intros Hin. apply (Hd _ Hin). left. } { cbn [length] in Hc. lia. }
  rewrite E. cbn [mbind result_bind]. rewrite !(bool_decide_eq_true_2 (is_Some _)), orb_true_r by eauto.
  destruct (IH s1 W) as (s' & E' & W' & R1' & R2').
  - by rewrite R1, <- app_assoc.
  - by rewrite R2.
  - rewrite R1, R3, length_app. cbn [length] in Hc |- *. lia.
  - exists s'. split_and!; [done|done|by rewrite R1', R1, <- app_assoc|by rewrite R2'].
Qed.

Lemma load_payload g me mr : graph_wf g → (Z.of_nat (length (_entities g)) ≤ me)%Z → (Z.of_nat (length (_relations g)) ≤ mr)%Z →
  let g' := load_data dict_of float_of (payload g) (graph_init me mr) in
  graph_wf g' ∧ _relations g' = _relations g ∧ _entities g' = map (λ ke, (ke.1, retype ke.2)) (_entities g).
Proof.
  intros Hwf He Hr. cbn zeta. unfold load_data, payload. change (dget "entities" _) with (Some (JArr (map entity_dict (_entities g).*2))). change (dget "relations" _) with (Some (JArr (map relation_dict (_relations g)))).
  cbn [default from_option Datatypes.id]. unfold load_list. cbn [iterated].
  destruct (load_entities (_entities g) (graph_init me mr) (graph_init_wf me mr)) as (s & -> & W & R1 & R2 & R3).
  { apply (wf_entities g Hwf). } { intros k e Hin. apply (wf_names g Hwf). apply dget_mem; [apply (wf_entities g Hwf)|done]. } { done. }
  assert (∀ x, dmem x (_entities s) = dmem x (_entities g)) as Hm.
  { intros x. apply eq_true_iff_eq. rewrite !dmem_true, R3. cbn [_entities graph_init app]. change (map ?f ?l) with (f <$> l). rewrite <- list_fmap_compose. done. }
  destruct (load_relations (_relations g) s W) as (s' & -> & W' & R1' & R2').
  { rewrite R1. apply (wf_triples g Hwf). }
  { pose proof (wf_endpoints g Hwf) as Hend. eapply Forall_impl; [exact Hend|]. intros r (D1 & D2 & D3 & D4). rewrite !Hm. split_and!; [by apply (known_entity g Hwf)..|done|done|done|done]. }
  { rewrite R1, R2. done. }
  cbn [fst]. split_and!; [done|by rewrite R1', R1|by rewrite R2', R3].
Qed.

(** A graph that is saved comes back, with room for it: all relations and entities in their order;
    only an entity whose type is blank changes, to one of unknown type. *)
Theorem graph_file_roundtrip dumps loads p g rnd fs fs' flts me mr : graph_wf g → last_char p = Some "n"%char →
  loads (dumps (payload g)) = Parsed (payload g) → (Z.of_nat (length (_entities g)) ≤ me)%Z → (Z.of_nat (length (_relations g)) ≤ mr)%Z →
  (save dumps p g rnd (fs, flts)).1.1 = fs' → (save dumps p g rnd (fs, flts)).2 = Done () →
  ∃ g', load dict_of float_of loads p fs' false false me mr = Ok g' ∧ graph_wf g' ∧ _relations g' = _relations g ∧ _entities g' = map (λ ke, (ke.1, retype ke.2)) (_entities g).
Proof.
  intros Hwf Hp Hl He Hr E1 E2. pose proof (triple_write dumps p (payload g) true 5 rnd (λ _, True) (λ _, True) Hp (λ _ _ _ H, H) fs flts (conj I I)) as H. unfold save in *.
  destruct (atomic_write_json _ _ _ _ _ _ _) as [[fs1 flts1] o]. cbn in E1, E2. subst fs1 o. destruct H as [H _]. unfold load, atomic_read_json. cbn in H. rewrite H, Hl. cbn [mbind result_bind].
  eexists. split; [done|]. by apply load_payload.
Qed.
End roundtrip.

(** A type that is blank is kept until the graph is loaded. *)
Example blank_type_reloaded :
  let g := foldl run_op (graph_init 9 9) [AddEntity (mkEntity "a" " " [])] in
  map (type ∘ snd) (_entities g) = [""] ∧ map (type ∘ snd) (_entities (load_data (λ _, Some []) (λ _, None) (payload g) (graph_init 9 9))) = ["unknown"].
Proof. vm_compute. done. Qed.

(** An entity that cannot be added ends the loading: the relations of the file are dropped. *)
Example bad_entity_drops_relations :
  let g := foldl run_op (graph_init 9 9) [AddEntity (mkEntity "a" "x" []); AddEntity (mkEntity "b" "x" []); AddRelation (mkRelation "a" "owns" "b" 1 [])] in
  length (_relations (load_data (λ _, Some []) (λ _, Some 1%Q) (payload g) (graph_init 9 9))) = 1
  ∧ length (_relations (load_data (λ _, Some []) (λ _, Some 1%Q) (payload g) (graph_init 1 9))) = 0.
Proof. vm_compute. done. Qed.
