(* ===== verification/PgMemory.v ===== *)
(** * Memory in PostgreSQL ([noema/persistence/pg_memory.py])

    The memory of a tenant in three tables shared by all pods.  A save is a coroutine: it
    deletes the rows of the tenant and inserts its memories one by one in a transaction,
    while the event loop goes on and may record more of them; the store ([Memory]) is a
    state machine whose actions are the statements.  One save runs at a time.  The
    connection, the codec of JSON, the rounding of a four-byte [REAL] and the order in
    which [SELECT] returns rows are parameters; the files of the fallback are three lists
    ([Memory] has them in detail). *)
From Stdlib Require Import ZArith QArith Lqa Lia Bool Ascii String.
From stdpp Require Import base option numbers sets strings list.
From S2P Require Import Prelude AtomicIO Memory.
Local Open Scope string_scope.
Local Open Scope list_scope.
Local Open Scope nat_scope.

(** ** Rows; every column but the key may be NULL *)
Record ep_row := mkEpRow {
  er_id : string; er_tenant : string; er_timestamp : option Q;
  er_task_description : option string; er_solution_summary : option string; er_tech_stack : option string;
  er_outcome : option string; er_duration_seconds : option Q; er_error_message : option string;
  er_tags : option (list string); er_context : option string;
}.

Record sem_row := mkSemRow {
  sr_id : string; sr_tenant : string; sr_topic : option string; sr_fact : option string;
  sr_confidence : option Q; sr_source : option string; sr_use_count : option nat;
  sr_last_used : option Q; sr_tags : option (list string);
}.

Record proc_row := mkProcRow {
  pr_id : string; pr_tenant : string; pr_procedure_name : option string; pr_steps : option (list string);
  pr_success_rate : option Q; pr_times_applied : option nat; pr_times_succeeded : option nat;
  pr_avg_duration : option Q; pr_prerequisites : option (list string); pr_tags : option (list string);
}.

Record tables := mkTables { noema_episodic : list ep_row; noema_semantic : list sem_row; noema_procedural : list proc_row }.

(** The memories of a store. *)
Record lists := mkLists { l_ep : list EpisodicMemory; l_sem : list SemanticMemory; l_proc : list ProceduralMemory }.

Section pg.
Context (dumps : json → string) (loads : string → parsed) (real : Q → Q).

(** ** Writing a row *)
Definition episodic_row (tenant : string) (e : EpisodicMemory) : ep_row :=
  mkEpRow (e_id e) tenant (Some (real (e_timestamp e))) (Some (task_description e)) (Some (solution_summary e)) (Some (tech_stack e))
    (Some (e_outcome e)) (Some (real (duration_seconds e))) (Some (error_message e)) (Some (e_tags e)) (Some (dumps (JObj (e_context e)))).

Definition semantic_row (tenant : string) (m : SemanticMemory) : sem_row :=
  mkSemRow (s_id m) tenant (Some (topic m)) (Some (fact m)) (Some (real (s_confidence m))) (Some (s_source m)) (Some (use_count m))
    (Some (real (last_used m))) (Some (s_tags m)).

Definition procedural_row (tenant : string) (p : ProceduralMemory) : proc_row :=
  mkProcRow (p_id p) tenant (Some (procedure_name p)) (Some (steps p)) (Some (real (success_rate p))) (Some (times_applied p))
    (Some (times_succeeded p)) (Some (real (avg_duration p))) (Some (prerequisites p)) (Some (p_tags p)).

(** ** Reading it; [None] is an error of validation *)
Definition or_empty (o : option string) : string := default "" o.
Definition or_list (o : option (list string)) : list string := default [] o.

Definition context_of (o : option string) : option (list (string * json)) :=
  let text := or_empty o in
  if nonempty text then match loads text with Parsed (JObj d) => Some d | Parsed _ => None | _ => Some [] end else Some [].

Definition episode_of (r : ep_row) : option EpisodicMemory :=
  c ← context_of (er_context r); t ← er_timestamp r; d ← er_duration_seconds r;
  Some (mkEpisode (er_id r) t (or_empty (er_task_description r)) (or_empty (er_solution_summary r)) (or_empty (er_tech_stack r))
          (or_empty (er_outcome r)) d (or_empty (er_error_message r)) (or_list (er_tags r)) c).

Definition fact_of (r : sem_row) : option SemanticMemory :=
  c ← sr_confidence r; u ← sr_use_count r; t ← sr_last_used r;
  Some (mkFact (sr_id r) (or_empty (sr_topic r)) (or_empty (sr_fact r)) c (or_empty (sr_source r)) u t (or_list (sr_tags r))).

Definition procedure_of (r : proc_row) : option ProceduralMemory :=
  s ← pr_success_rate r; a ← pr_times_applied r; b ← pr_times_succeeded r; d ← pr_avg_duration r;
  Some (mkProc (pr_id r) (or_empty (pr_procedure_name r)) (or_list (pr_steps r)) s a b d (or_list (pr_prerequisites r)) (or_list (pr_tags r))).

(** [order_*]: the order in which rows come. *)
Record select := mkSelect { order_ep : list ep_row → list ep_row; order_sem : list sem_row → list sem_row; order_proc : list proc_row → list proc_row }.

Definition _load_episodic (o : select) (tenant : string) (db : tables) : option (list EpisodicMemory) :=
  mapM episode_of (order_ep o (filter (λ r, er_tenant r = tenant) (noema_episodic db))).
Definition _load_semantic (o : select) (tenant : string) (db : tables) : option (list SemanticMemory) :=
  mapM fact_of (order_sem o (filter (λ r, sr_tenant r = tenant) (noema_semantic db))).
Definition _load_procedural (o : select) (tenant : string) (db : tables) : option (list ProceduralMemory) :=
  mapM procedure_of (order_proc o (filter (λ r, pr_tenant r = tenant) (noema_procedural db))).

(** [_load_from_pg]; a failure falls back to the files, which replace all three lists. *)
Definition _load_from_pg (o : select) (tenant : string) (db : option tables) (disk : lists) : lists :=
  match db ≫= λ db, e ← _load_episodic o tenant db; s ← _load_semantic o tenant db; p ← _load_procedural o tenant db; Some (mkLists e s p) with
  | Some l => l
  | None => disk
  end.

(** ** The machine *)
Inductive phase := Episodes | Facts | Procedures.

Inductive saving :=
| Inserting (ph : phase) (tx : tables)   (* the table whose rows were deleted last, and the rows inserted so far *)
| ToFiles.                               (* [super().save()] in a thread, after an error or without a database *)

Record PostgresMemoryStore := mkPg {
  pg_url : bool;                 (* a URL is configured *)
  _has_pg : bool;
  pg_lists : lists;
  pg_dirty : bool;
  pg_timer : bool;
  pg_saving : option saving;
  pg_db : tables;
  pg_disk : lists;
}.

Definition with_lists (s : PostgresMemoryStore) (l : lists) (dirty timer : bool) : PostgresMemoryStore :=
  mkPg (pg_url s) (_has_pg s) l dirty timer (pg_saving s) (pg_db s) (pg_disk s).
Definition with_saving (s : PostgresMemoryStore) (v : option saving) : PostgresMemoryStore :=
  mkPg (pg_url s) (_has_pg s) (pg_lists s) (pg_dirty s) (pg_timer s) v (pg_db s) (pg_disk s).

(** The constructor restores from the files, whatever is configured. *)
Definition pg_init (url : bool) (db : tables) (disk : lists) : PostgresMemoryStore := mkPg url false disk false false None db disk.

Inductive pact :=
| Load (asyncpg : bool) (reachable : bool) (o : select)   (* [await store._load()] *)
| Change (l : lists)                                      (* memories are added or updated, and [_mark_dirty] *)
| Timer                                                   (* [_debounced_save] *)
| Save                                                    (* [await store.save()] *)
| Statement                                               (* the next INSERT or DELETE; after the last the COMMIT, and the end of the save with it *)
| Broken                                                  (* an error of the database *)
| Written (n : nat).                                      (* the files: how many of the three were written *)

Context (tenant : string).

(** A list keeps the identifiers of its elements and may grow. *)
Definition grows (l l' : lists) : Prop :=
  map e_id (l_ep l) `prefix_of` map e_id (l_ep l') ∧ map s_id (l_sem l) `prefix_of` map s_id (l_sem l') ∧ map p_id (l_proc l) `prefix_of` map p_id (l_proc l').
#[global] Instance grows_dec l l' : Decision (grows l l').
Proof. unfold grows. apply _. Defined.

Definition start_save (s : PostgresMemoryStore) : PostgresMemoryStore :=
  with_saving s (Some (if _has_pg s && pg_url s then Inserting Episodes (mkTables [] [] []) else ToFiles)).

(** INSERT under a primary key. *)
Definition insert_row {R} (id : R → string) (r : R) (rows : list R) : option (list R) :=
  if bool_decide (id r ∈ map id rows) then None else Some (rows ++ [r]).

(** One step of a save: the next element of the list as it is now, or else the DELETE of the
    next table; [inr] is the COMMIT, [None] a violated key. *)
Definition statement (l : lists) (ph : phase) (tx : tables) : option (phase * tables + tables) :=
  match ph with
  | Episodes =>
      match l_ep l !! length (noema_episodic tx) with
      | Some e => rows ← insert_row er_id (episodic_row tenant e) (noema_episodic tx); Some (inl (Episodes, mkTables rows (noema_semantic tx) (noema_procedural tx)))
      | None => Some (inl (Facts, tx))
      end
  | Facts =>
      match l_sem l !! length (noema_semantic tx) with
      | Some m => rows ← insert_row sr_id (semantic_row tenant m) (noema_semantic tx); Some (inl (Facts, mkTables (noema_episodic tx) rows (noema_procedural tx)))
      | None => Some (inl (Procedures, tx))
      end
  | Procedures =>
      match l_proc l !! length (noema_procedural tx) with
      | Some p => rows ← insert_row pr_id (procedural_row tenant p) (noema_procedural tx); Some (inl (Procedures, mkTables (noema_episodic tx) (noema_semantic tx) rows))
      | None => Some (inr tx)
      end
  end.

(** The effect of the transaction: the rows of the tenant are replaced. *)
Definition commit (tx db : tables) : tables :=
  mkTables (filter (λ r, er_tenant r ≠ tenant) (noema_episodic db) ++ noema_episodic tx)
    (filter (λ r, sr_tenant r ≠ tenant) (noema_semantic db) ++ noema_semantic tx)
    (filter (λ r, pr_tenant r ≠ tenant) (noema_procedural db) ++ noema_procedural tx).

(** The first [n] files are new. *)
Definition write_files (n : nat) (l disk : lists) : lists :=
  mkLists (if decide (1 <= n) then l_ep l else l_ep disk) (if decide (2 <= n) then l_sem l else l_sem disk) (if decide (3 <= n) then l_proc l else l_proc disk).

Definition pg_step (s : PostgresMemoryStore) (a : pact) : option PostgresMemoryStore :=
  match a, pg_saving s with
  | Load asyncpg reachable o, None =>
      let has := if pg_url s then asyncpg else _has_pg s in
      let l := if has && pg_url s then _load_from_pg o tenant (if reachable then Some (pg_db s) else None) (pg_disk s) else pg_disk s in
      Some (mkPg (pg_url s) has l (pg_dirty s) (pg_timer s) None (pg_db s) (pg_disk s))
  | Change l, _ => if decide (grows (pg_lists s) l) then Some (with_lists s l true true) else None
  | Timer, None =>
      if pg_timer s then
        let s := with_lists s (pg_lists s) (pg_dirty s) false in
        Some (if pg_dirty s then start_save s else s)
      else None
  | Save, None => Some (start_save s)
  | Statement, Some (Inserting ph tx) =>
      Some (match statement (pg_lists s) ph tx with
            | None => with_saving s (Some ToFiles)
            | Some (inl (ph, tx)) => with_saving s (Some (Inserting ph tx))
            | Some (inr tx) => mkPg (pg_url s) (_has_pg s) (pg_lists s) false (pg_timer s) None (commit tx (pg_db s)) (pg_disk s)
            end)
  | Broken, Some (Inserting _ _) => Some (with_saving s (Some ToFiles))
  | Written n, Some ToFiles =>
      Some (mkPg (pg_url s) (_has_pg s) (pg_lists s) (if decide (3 <= n) then false else pg_dirty s) false None (pg_db s) (write_files n (pg_lists s) (pg_disk s)))
  | _, _ => None
  end.

Definition pg_run (s : PostgresMemoryStore) (l : list pact) : option PostgresMemoryStore := exec pg_step s l.

(** ** Rows of the tenant *)
Record owned (tx : tables) : Prop := {
  ow_ep : Forall (λ r, er_tenant r = tenant) (noema_episodic tx);
  ow_sem : Forall (λ r, sr_tenant r = tenant) (noema_semantic tx);
  ow_proc : Forall (λ r, pr_tenant r = tenant) (noema_procedural tx);
}.

(** The rows of the others. *)
Definition foreign (db : tables) : tables :=
  mkTables (filter (λ r, er_tenant r ≠ tenant) (noema_episodic db)) (filter (λ r, sr_tenant r ≠ tenant) (noema_semantic db)) (filter (λ r, pr_tenant r ≠ tenant) (noema_procedural db)).
Definition own (db : tables) : tables :=
  mkTables (filter (λ r, er_tenant r = tenant) (noema_episodic db)) (filter (λ r, sr_tenant r = tenant) (noema_semantic db)) (filter (λ r, pr_tenant r = tenant) (noema_procedural db)).

Lemma filter_replaced {R} (t : R → string) l k : Forall (λ r, t r = tenant) k →
  filter (λ r, t r ≠ tenant) (filter (λ r, t r ≠ tenant) l ++ k) = filter (λ r, t r ≠ tenant) l
  ∧ filter (λ r, t r = tenant) (filter (λ r, t r ≠ tenant) l ++ k) = k.
Proof.
  intros Hk. rewrite !filter_app. assert (filter (λ r, t r ≠ tenant) k = []) as ->.
  { induction Hk as [|r k Hr Hk IH]; [done|]. rewrite filter_cons_False by (intros H; by apply H). done. }
  assert (filter (λ r, t r = tenant) k = k) as -> by (induction Hk as [|r k Hr Hk IH]; [done|]; rewrite filter_cons_True, IH by done; done).
  split.
  - rewrite app_nil_r. induction l as [|r l IH]; [done|]. rewrite !filter_cons. case_decide; [|done]. by rewrite filter_cons_True, IH.
  - assert (filter (λ r, t r = tenant) (filter (λ r, t r ≠ tenant) l) = []) as ->; [|done]. induction l as [|r l IH]; [done|]. rewrite filter_cons. case_decide; [|done]. by rewrite filter_cons_False.
Qed.

Lemma commit_foreign tx db : owned tx → foreign (commit tx db) = foreign db ∧ own (commit tx db) = tx.
Proof.
  intros [H1 H2 H3]. unfold foreign, own, commit. cbn [noema_episodic noema_semantic noema_procedural].
  destruct (filter_replaced er_tenant (noema_episodic db) _ H1) as [-> ->], (filter_replaced sr_tenant (noema_semantic db) _ H2) as [-> ->], (filter_replaced pr_tenant (noema_procedural db) _ H3) as [-> ->].
  split; [done|by destruct tx].
Qed.

(** ** A transaction that is under way *)
Definition ids (tx : tables) : list string * list string * list string := (map er_id (noema_episodic tx), map sr_id (noema_semantic tx), map pr_id (noema_procedural tx)).

(** [l0]: memories that were there at some time before the save. *)
Record filling (l0 now : lists) (ph : phase) (tx : tables) : Prop := {
  fl_owned : owned tx;
  fl_ep : map er_id (noema_episodic tx) `prefix_of` map e_id (l_ep now);
  fl_sem : map sr_id (noema_semantic tx) `prefix_of` map s_id (l_sem now);
  fl_proc : map pr_id (noema_procedural tx) `prefix_of` map p_id (l_proc now);
  fl_ep_all : ph ≠ Episodes → map e_id (l_ep l0) `prefix_of` map er_id (noema_episodic tx);
  fl_sem_all : ph = Procedures → map s_id (l_sem l0) `prefix_of` map sr_id (noema_semantic tx);
}.

Lemma grows_trans l1 l2 l3 : grows l1 l2 → grows l2 l3 → grows l1 l3.
Proof. intros (A1 & A2 & A3) (B1 & B2 & B3). split_and!; by etrans. Qed.

Lemma prefix_end {A B} (f : A → B) (l : list A) (k : list B) : k `prefix_of` map f l → l !! length k = None → k = map f l.
Proof.
  intros [m Hm] Hl%lookup_ge_None. assert (length (map f l) = length (k ++ m)) as E by (by rewrite Hm). change (map f l) with (f <$> l) in E. rewrite length_fmap, length_app in E.
  destruct m; [by rewrite app_nil_r in Hm|cbn in E; lia].
Qed.

Lemma prefix_next {A B} (f : A → B) (l : list A) (k : list B) x : k `prefix_of` map f l → l !! length k = Some x → k ++ [f x] `prefix_of` map f l.
Proof.
  intros [m Hm] Hl. assert ((map f l) !! length k = Some (f x)) as E by (change (map f l) with (f <$> l); by rewrite list_lookup_fmap, Hl).
  rewrite Hm, lookup_app_r, Nat.sub_diag in E by lia. destruct m as [|y m]; [done|]. injection E as ->. exists m. by rewrite Hm, <- app_assoc.
Qed.

Lemma insert_row_some {R} (id : R → string) (r : R) rows rows' : insert_row id r rows = Some rows' → rows' = rows ++ [r].
Proof. unfold insert_row. case_bool_decide; [done|]. by intros [= <-]. Qed.

(** What a statement does to a transaction. *)
Lemma statement_filling l0 now ph tx : grows l0 now → filling l0 now ph tx →
  match statement now ph tx with
  | None => True
  | Some (inl (ph', tx')) => filling l0 now ph' tx'
  | Some (inr tx') => tx' = tx ∧ ph = Procedures ∧ map pr_id (noema_procedural tx) = map p_id (l_proc now)
  end.
Proof.
  intros (G1 & G2 & G3) [[O1 O2 O3] P1 P2 P3 A1 A2]. unfold statement.
  destruct ph; match goal with |- context [?l !! ?n] => destruct (l !! n) eqn:E end.
  all: try (match goal with |- context [insert_row ?i ?r ?k] => destruct (insert_row i r k) as [rows|] eqn:Ei; [apply insert_row_some in Ei as ->|done] end; cbn [mbind option_bind]).
  - split; cbn [noema_episodic noema_semantic noema_procedural]; [split; [by apply Forall_app; split; [|constructor]|done..]| |done|done|done|done].
    rewrite map_app. apply (prefix_next e_id (l_ep now) _ _ P1). by rewrite length_map.
  - assert (map er_id (noema_episodic tx) = map e_id (l_ep now)) as Ee by (apply prefix_end; [done|by rewrite length_map]). split; [done..|by rewrite Ee|done].
  - split; cbn [noema_episodic noema_semantic noema_procedural]; [split; [done|by apply Forall_app; split; [|constructor]|done]|done| |done|done|done].
    rewrite map_app. apply (prefix_next s_id (l_sem now) _ _ P2). by rewrite length_map.
  - assert (map sr_id (noema_semantic tx) = map s_id (l_sem now)) as Ee by (apply prefix_end; [done|by rewrite length_map]). split; [done..|intros _; by apply A1|by rewrite Ee].
  - split; cbn [noema_episodic noema_semantic noema_procedural]; [split; [done|done|by apply Forall_app; split; [|constructor]]|done|done| |done|done].
    rewrite map_app. apply (prefix_next p_id (l_proc now) _ _ P3). by rewrite length_map.
  - split_and!; [done|done|]. apply prefix_end; [done|by rewrite length_map].
Qed.

Lemma filling_grows l0 now now' ph tx : filling l0 now ph tx → grows now now' → filling l0 now' ph tx.
Proof. intros [? P1 P2 P3 ? ?] (G1 & G2 & G3). split; [done|by etrans..|done|done]. Qed.

(** ** Runs *)
Definition loads_none (a : pact) : Prop := match a with Load _ _ _ => False | _ => True end.

Record pg_inv (l0 : lists) (db0 : tables) (s : PostgresMemoryStore) : Prop := {
  pi_grows : grows l0 (pg_lists s);
  pi_filling : ∀ ph tx, pg_saving s = Some (Inserting ph tx) → filling l0 (pg_lists s) ph tx;
  pi_foreign : foreign (pg_db s) = foreign db0;
  pi_own : own (pg_db s) = own db0
           ∨ let '(e, f, p) := ids (own (pg_db s)) in map e_id (l_ep l0) `prefix_of` e ∧ map s_id (l_sem l0) `prefix_of` f ∧ map p_id (l_proc l0) `prefix_of` p;
}.

Lemma filling_start l0 now : filling l0 now Episodes (mkTables [] [] []).
Proof. split; cbn; [split; constructor|apply prefix_nil..|done|done]. Qed.

Lemma start_save_filling l0 s : ∀ ph tx, pg_saving (start_save s) = Some (Inserting ph tx) → filling l0 (pg_lists (start_save s)) ph tx.
Proof. unfold start_save. cbn. destruct (_ && _); [|done]. intros ph tx [= <- <-]. apply filling_start. Qed.

Lemma pg_step_inv l0 db0 s a s' : pg_inv l0 db0 s → loads_none a → pg_step s a = Some s' → pg_inv l0 db0 s'.
Proof.
  intros [G F Fo Ow] Ha. unfold pg_step. destruct a as [? ? ?|l| | | | |n]; [done|..].
  - case_decide as Hg; [|done]. intros [= <-]. split; cbn; [by eapply grows_trans|intros ph tx E; by eapply filling_grows, Hg; apply F|done|done].
  - destruct (pg_saving s) eqn:E; [done|]. destruct (pg_timer s); [|done]. cbn [pg_dirty with_lists]. destruct (pg_dirty s); intros [= <-].
    + split; [done|apply start_save_filling|done|done].
    + split; cbn; [done|by rewrite E|done|done].
  - destruct (pg_saving s) eqn:E; [done|]. intros [= <-]. split; [done|apply start_save_filling|done|done].
  - destruct (pg_saving s) as [[ph tx|]|] eqn:E; [|done|done]. pose proof (statement_filling l0 (pg_lists s) ph tx G (F ph tx eq_refl)) as Hs.
    destruct (statement (pg_lists s) ph tx) as [[[ph' tx']|tx']|]; intros [= <-].
    + split; cbn; [done|by intros ? ? [= <- <-]|done|done].
    + destruct Hs as (-> & -> & Hp). destruct (F Procedures tx eq_refl) as [O P1 P2 P3 A1 A2]. destruct (commit_foreign tx (pg_db s) O) as [C1 C2]. destruct G as (_ & _ & G3).
      split; cbn [pg_lists pg_saving pg_db]; [by split_and!; [etrans; [by apply A1|]|etrans; [by apply A2|]|]|done|by rewrite C1|]. right. rewrite C2. cbn [ids]. by split_and!; [apply A1|apply A2|rewrite Hp].
    + by split.
  - destruct (pg_saving s) as [[ph tx|]|] eqn:E; [|done|done]. intros [= <-]. by split.
  - destruct (pg_saving s) as [[ph tx|]|] eqn:E; [done| |done]. intros [= <-]. by split.
Qed.

(** Whatever is recorded, saved and broken in between: rows of other tenants are never touched,
    and the rows of the tenant are at any time those from the beginning or hold every memory that
    was there at the beginning, never a part. *)
Theorem pg_all_or_nothing acts s s' : pg_saving s = None → Forall loads_none acts → pg_run s acts = Some s' →
  foreign (pg_db s') = foreign (pg_db s)
  ∧ (own (pg_db s') = own (pg_db s)
     ∨ map e_id (l_ep (pg_lists s)) `prefix_of` map er_id (noema_episodic (own (pg_db s')))
       ∧ map s_id (l_sem (pg_lists s)) `prefix_of` map sr_id (noema_semantic (own (pg_db s')))
       ∧ map p_id (l_proc (pg_lists s)) `prefix_of` map pr_id (noema_procedural (own (pg_db s')))).
Proof.
  intros Hs Hl Hr. assert (pg_inv (pg_lists s) (pg_db s) s) as H0 by (split; [by split_and!|by rewrite Hs|done|by left]).
  pose proof (exec_invariant pg_step (pg_inv (pg_lists s) (pg_db s)) loads_none acts s s' ltac:(intros; by eapply pg_step_inv) Hl H0 Hr) as [_ _ Hf Ho].
  split; [done|]. destruct Ho as [Ho|Ho]; [by left|by right].
Qed.

(** ** A save that nothing interrupts *)
Definition all_rows (l : lists) : tables := mkTables (map (episodic_row tenant) (l_ep l)) (map (semantic_row tenant) (l_sem l)) (map (procedural_row tenant) (l_proc l)).

Lemma exec_count {S A} (step : S → A → option S) (a : A) (st : nat → S) n :
  (∀ k, k < n → step (st k) a = Some (st (k + 1))) → exec step (st 0) (replicate n a) = Some (st n).
Proof.
  intros H. assert (∀ m k, k + m = n → exec step (st k) (replicate m a) = Some (st n)) as Hm; [|by apply (Hm n 0)].
  induction m as [|m IH]; intros k Hk; [cbn; by rewrite <- Hk, Nat.add_0_r|]. cbn [replicate exec]. rewrite H by lia. apply IH. lia.
Qed.

Lemma insert_row_next {R M} (id : R → string) (row : M → R) (key : M → string) (l : list M) k x : (∀ m, id (row m) = key m) → NoDup (map key l) → l !! k = Some x →
  insert_row id (row x) (map row (take k l)) = Some (map row (take (k + 1) l)).
Proof.
  intros Hid Hn Hx. unfold insert_row. rewrite bool_decide_eq_false_2.
  - f_equal. rewrite Nat.add_1_r, (take_S_r l k x) by done. by rewrite map_app.
  - rewrite map_map, Hid. setoid_rewrite (map_ext _ _ Hid). intros Hin. rewrite <- (take_drop_middle l k x Hx), map_app in Hn. apply NoDup_app in Hn as (_ & Hd & _). apply (Hd _ Hin). left.
Qed.

Definition nth_tables (l : lists) (a b c : nat) : tables :=
  mkTables (map (episodic_row tenant) (take a (l_ep l))) (map (semantic_row tenant) (take b (l_sem l))) (map (procedural_row tenant) (take c (l_proc l))).

Record distinct (l : lists) : Prop := {
  di_ep : NoDup (map e_id (l_ep l)); di_sem : NoDup (map s_id (l_sem l)); di_proc : NoDup (map p_id (l_proc l));
}.

Lemma row_count {R M} (row : M → R) (l : list M) k : k <= length l → length (map row (take k l)) = k.
Proof. intros H. rewrite length_map, length_take. lia. Qed.

Lemma lookup_at {M} (l : list M) k : k < length l → ∃ x, l !! k = Some x.
Proof. intros H. by apply lookup_lt_is_Some. Qed.

Lemma uninterrupted s : distinct (pg_lists s) → _has_pg s && pg_url s = true →
  let l := pg_lists s in let n := length (l_ep l) + 1 + (length (l_sem l) + 1) + (length (l_proc l) + 1) in
  pg_run (start_save s) (replicate n Statement) = Some (mkPg (pg_url s) (_has_pg s) l false (pg_timer s) None (commit (all_rows l) (pg_db s)) (pg_disk s)).
Proof.
  intros [D1 D2 D3] Hpg. cbn zeta. unfold pg_run, start_save. rewrite Hpg. set (l := pg_lists s). set (a := length (l_ep l)). set (b := length (l_sem l)). set (c := length (l_proc l)).
  assert (∀ ph tx, pg_step (with_saving s (Some (Inserting ph tx))) Statement = Some (match statement l ph tx with
            | None => with_saving s (Some ToFiles) | Some (inl (ph, tx)) => with_saving s (Some (Inserting ph tx))
            | Some (inr tx) => mkPg (pg_url s) (_has_pg s) l false (pg_timer s) None (commit tx (pg_db s)) (pg_disk s) end)) as Hstep by done.
  rewrite !replicate_add, !exec_app. cbn [replicate].
  pose proof (exec_count pg_step Statement (λ k, with_saving s (Some (Inserting Episodes (nth_tables l k 0 0)))) a) as E1. cbn beta in E1. change (nth_tables l 0 0 0) with (mkTables [] [] []) in E1. rewrite E1.
  2: { intros k Hk. rewrite Hstep. unfold statement. cbn [nth_tables noema_episodic noema_semantic noema_procedural]. rewrite row_count by (unfold a in Hk; lia). destruct (lookup_at (l_ep l) k Hk) as [x Hx].
       rewrite Hx, (insert_row_next er_id (episodic_row tenant) e_id (l_ep l) k x) by done. done. }
  cbn [mbind option_bind exec]. rewrite Hstep. unfold statement at 1. cbn [nth_tables noema_episodic]. rewrite row_count by done. rewrite (lookup_ge_None_2 (l_ep l) a) by done. cbn [mbind option_bind].
  pose proof (exec_count pg_step Statement (λ k, with_saving s (Some (Inserting Facts (nth_tables l a k 0)))) b) as E2. cbn beta in E2. rewrite exec_app, E2.
  2: { intros k Hk. rewrite Hstep. unfold statement. cbn [nth_tables noema_episodic noema_semantic noema_procedural]. rewrite row_count by (unfold b in Hk; lia). destruct (lookup_at (l_sem l) k Hk) as [x Hx].
       rewrite Hx, (insert_row_next sr_id (semantic_row tenant) s_id (l_sem l) k x) by done. done. }
  cbn [mbind option_bind exec]. rewrite Hstep. unfold statement at 1. cbn [nth_tables noema_semantic]. rewrite row_count by done. rewrite (lookup_ge_None_2 (l_sem l) b) by done. cbn [mbind option_bind].
  pose proof (exec_count pg_step Statement (λ k, with_saving s (Some (Inserting Procedures (nth_tables l a b k)))) c) as E3. cbn beta in E3. rewrite exec_app, E3.
  2: { intros k Hk. rewrite Hstep. unfold statement. cbn [nth_tables noema_episodic noema_semantic noema_procedural]. rewrite row_count by (unfold c in Hk; lia). destruct (lookup_at (l_proc l) k Hk) as [x Hx].
       rewrite Hx, (insert_row_next pr_id (procedural_row tenant) p_id (l_proc l) k x) by done. done. }
  cbn [mbind option_bind exec]. rewrite Hstep. unfold statement. cbn [nth_tables noema_procedural]. rewrite row_count by done. rewrite (lookup_ge_None_2 (l_proc l) c) by done.
  unfold all_rows, nth_tables, a, b, c. by rewrite !firstn_all.
Qed.

(** *** Reading it back *)
Definition rounded_ep (e : EpisodicMemory) : EpisodicMemory :=
  mkEpisode (e_id e) (real (e_timestamp e)) (task_description e) (solution_summary e) (tech_stack e) (e_outcome e) (real (duration_seconds e)) (error_message e) (e_tags e) (e_context e).
Definition rounded_sem (m : SemanticMemory) : SemanticMemory :=
  mkFact (s_id m) (topic m) (fact m) (real (s_confidence m)) (s_source m) (use_count m) (real (last_used m)) (s_tags m).
Definition rounded_proc (p : ProceduralMemory) : ProceduralMemory :=
  mkProc (p_id p) (procedure_name p) (steps p) (real (success_rate p)) (times_applied p) (times_succeeded p) (real (avg_duration p)) (prerequisites p) (p_tags p).

Record any_order (o : select) : Prop := { ao_ep : ∀ l, order_ep o l ≡ₚ l; ao_sem : ∀ l, order_sem o l ≡ₚ l; ao_proc : ∀ l, order_proc o l ≡ₚ l }.

Lemma mapM_rows {R M} (read : R → option M) (row : M → R) (back : M → M) (l : list M) (rs : list R) : (∀ m, m ∈ l → read (row m) = Some (back m)) → rs ≡ₚ map row l →
  ∃ l', mapM read rs = Some l' ∧ l' ≡ₚ map back l.
Proof.
  intros Hb Hp. destruct (Permutation_map_inv _ _ Hp) as (k & -> & Hk). exists (map back k). split; [|by rewrite Hk].
  assert (∀ m, m ∈ k → read (row m) = Some (back m)) as Hb' by (intros m Hm; apply Hb; by rewrite Hk). clear -Hb'. induction k as [|m k IH]; [done|]. cbn [map mapM]. cbn.
  rewrite Hb' by left. cbn. rewrite IH by (intros; apply Hb'; by right). done.
Qed.

(** A save that no change and no error interrupts ends, and what any pod loads afterwards, in whatever
    order rows come, are the memories of the store with their numbers rounded to four bytes; the
    rows of the other tenants are as before. *)
Theorem pg_save_load s o disk : distinct (pg_lists s) → _has_pg s && pg_url s = true → any_order o →
  (∀ d, nonempty (dumps (JObj d)) = true ∧ loads (dumps (JObj d)) = Parsed (JObj d)) →
  ∃ n s', pg_run (start_save s) (replicate n Statement) = Some s' ∧ pg_saving s' = None ∧ pg_dirty s' = false ∧ pg_lists s' = pg_lists s ∧ foreign (pg_db s') = foreign (pg_db s) ∧
    let l' := _load_from_pg o tenant (Some (pg_db s')) disk in
    l_ep l' ≡ₚ map rounded_ep (l_ep (pg_lists s)) ∧ l_sem l' ≡ₚ map rounded_sem (l_sem (pg_lists s)) ∧ l_proc l' ≡ₚ map rounded_proc (l_proc (pg_lists s)).
Proof.
  intros Hd Hpg [O1 O2 O3] Hc. eexists _, _. split; [by apply uninterrupted|]. cbn [pg_saving pg_dirty pg_lists pg_db]. set (l := pg_lists s).
  assert (owned (all_rows l)) as Hown by (split; apply Forall_forall; intros r; cbn; rewrite list_elem_of_fmap; by intros (x & -> & _)). destruct (commit_foreign _ (pg_db s) Hown) as [C1 C2]. do 3 (split; [done|]). split; [exact C1|].
  cbn zeta. unfold _load_from_pg, _load_episodic, _load_semantic, _load_procedural. unfold own, all_rows in C2. injection C2 as E1 E2 E3. cbn [mbind option_bind]. unfold commit, all_rows. cbn [noema_episodic noema_semantic noema_procedural]. rewrite E1, E2, E3.
  destruct (mapM_rows episode_of (episodic_row tenant) rounded_ep (l_ep l) _ (λ m _, ltac:(unfold episode_of, context_of; cbn; destruct (Hc (e_context m)) as [-> ->]; done)) (O1 _)) as (e & -> & He).
  destruct (mapM_rows fact_of (semantic_row tenant) rounded_sem (l_sem l) _ (λ m _, eq_refl) (O2 _)) as (f & -> & Hf).
  destruct (mapM_rows procedure_of (procedural_row tenant) rounded_proc (l_proc l) _ (λ m _, eq_refl) (O3 _)) as (p & -> & Hp). cbn [mbind option_bind l_ep l_sem l_proc]. done.
Qed.

(** ** Without [_load] the database is never used *)
Lemma never_loaded acts url db disk s : Forall loads_none acts → pg_run (pg_init url db disk) acts = Some s → pg_db s = db ∧ _has_pg s = false.
Proof.
  intros Hl Hr. enough (pg_db s = db ∧ _has_pg s = false ∧ ∀ ph tx, pg_saving s ≠ Some (Inserting ph tx)) by tauto.
  eapply (exec_invariant pg_step (λ s, pg_db s = db ∧ _has_pg s = false ∧ ∀ ph tx, pg_saving s ≠ Some (Inserting ph tx)) loads_none acts (pg_init url db disk) s); [|exact Hl|split_and!; [done|done|intros ph tx; discriminate]|exact Hr].
  clear. intros s a s' (H1 & H2 & H3) Ha. assert (∀ s, _has_pg s = false → ∀ ph tx, pg_saving (start_save s) ≠ Some (Inserting ph tx)) as Hs by (intros t Ht ph tx; unfold start_save; cbn; by rewrite Ht).
  unfold pg_step. destruct a as [? ? ?|l| | | | |n]; [done|..].
  - case_decide; [|done]. by intros [= <-].
  - destruct (pg_saving s) eqn:E; [done|]. destruct (pg_timer s); [|done]. cbn [pg_dirty with_lists]. destruct (pg_dirty s); intros [= <-]; [split_and!; [done|done|by apply Hs]|split_and!; [exact H1|exact H2|intros ph tx; cbn; by rewrite E]].
  - destruct (pg_saving s); [done|]. intros [= <-]. split_and!; [done|done|by apply Hs].
  - destruct (pg_saving s) as [[ph tx|]|]; [|done|done]. by destruct (H3 ph tx).
  - destruct (pg_saving s) as [[ph tx|]|]; [|done|done]. by destruct (H3 ph tx).
  - destruct (pg_saving s) as [[ph tx|]|]; [done| |done]. by intros [= <-].
Qed.
End pg.

(** ** Two defects *)
Definition an_episode (id : string) : EpisodicMemory := mkEpisode id 0 "" "" "" "" 0 "" [] [].
Definition as_is : select := mkSelect id id id.
Definition no_rows : tables := mkTables [] [] [].

(** An episode recorded while a save has passed its table: the save ends by clearing the flag, the
    timer that the episode started finds nothing to do, and no table has it. *)
Example recorded_during_save_is_lost :
  match pg_run (λ _, "{}") (λ _, Parsed (JObj [])) id "t" (pg_init true no_rows (mkLists [] [] []))
          [Load true true as_is; Change (mkLists [an_episode "a"] [] []); Timer; Statement; Statement;
           Change (mkLists [an_episode "a"; an_episode "b"] [] []); Statement; Statement; Timer] with
  | Some s => map e_id (l_ep (pg_lists s)) = ["a"; "b"] ∧ map er_id (noema_episodic (pg_db s)) = ["a"] ∧ pg_dirty s = false ∧ pg_timer s = false ∧ pg_saving s = None
  | None => False
  end.
Proof. vm_compute. done. Qed.

(** A four-byte [REAL] has 24 significant bits: for a positive whole number below [2^31], rounded to
    nearest. *)
Definition real_of_seconds (z : Z) : Z := let step := (2 ^ (Z.log2 z - 23))%Z in ((z + step / 2) / step * step)%Z.

Example times_coincide : real_of_seconds 1700000060 = 1700000000%Z ∧ real_of_seconds 1700000000 = 1700000000%Z.
Proof. vm_compute. done. Qed.
