(* ===== verification/ExperimentsApi.v ===== *)
(** * Experiments over HTTP ([noema/api/experiments.py])

    Running a matrix ([Experiments]) on request, and reading what runs have left under the
    root of the artifacts.  The root is a directory tree without links; paths are lists of
    components and are resolved as in [Sandbox].  YAML, JSON, the text of values and the run
    itself, which is taken to end, are parameters.  [Err] is the status of the response. *)
From Stdlib Require Import ZArith QArith Lia Bool Ascii String.
From stdpp Require Import base option numbers sets strings sorting list.
From S2P Require Import Prelude Regex Symbolic Experiments Sandbox AtomicIO.
Local Open Scope string_scope.
Local Open Scope list_scope.
Local Open Scope nat_scope.

Inductive node := FileNode (text : string) | DirNode (entries : list (string * node)).
Abbreviation dir := (list (string * node)).

(** ** Names *)
Fixpoint all_chars (p : ascii → bool) (s : string) : bool := match s with "" => true | String a s => p a && all_chars p s end.

(** The pattern: one or more word characters, dots and hyphens, the first of them no dot. *)
Definition _PATH_SEGMENT (s : string) : bool :=
  match s with
  | "" => false
  | String a _ => negb (Ascii.eqb a ".") && all_chars (λ a, is_word a || Ascii.eqb a "." || Ascii.eqb a "-") s
  end.

Definition _require_segment (value : string) : result Z () := if _PATH_SEGMENT value then Ok () else Err 404%Z.

Definition DEFAULT_OUT_DIR : string := "results".
Definition _artifacts_root (environ : list (string * string)) : string := default DEFAULT_OUT_DIR (dget "NOEMA_RESULTS_DIR" environ).

(** ** Directories *)
Definition as_dir (n : option node) : option dir := match n with Some (DirNode d) => Some d | _ => None end.

Fixpoint find_dir (name : string) (d : dir) : option dir :=
  match d with
  | [] => None
  | (n, DirNode sub) :: d => if String.eqb n name then Some sub else find_dir name d
  | _ :: d => find_dir name d
  end.

Definition _existing_dir (parent : option dir) (name : string) : result Z dir :=
  _ ← _require_segment name;
  match parent ≫= find_dir name with Some d => Ok d | None => Err 404%Z end.

(** The directories among the entries, by name. *)
Definition subdirs (d : dir) : list (string * dir) := omap (λ e : string * node, match e.2 with DirNode s => Some (e.1, s) | FileNode _ => None end) d.
Definition sorted_subdirs (d : dir) : list (string * dir) := sorted_items (subdirs d).

Section api.
Context (loads : string → parsed) (root : option node).

Definition _experiment_dir (experiment_id : string) : result Z dir := _existing_dir (as_dir root) experiment_id.
Definition _run_dir (experiment_id run_id : string) : result Z dir := d ← _experiment_dir experiment_id; _existing_dir (Some d) run_id.

(** A text that is not JSON, and one that is not UTF-8, which is an unhandled exception. *)
Definition _load_json (d : dir) (file : string) : result Z json :=
  match dget file d with
  | Some (FileNode text) => match loads text with Parsed j => Ok j | BadJson | BadUtf8 => Err 500%Z end
  | _ => Err 404%Z
  end.

Definition list_experiments : list (string * list string) :=
  match as_dir root with
  | None => []
  | Some d => map (λ e, (e.1, sorted_strings (subdirs e.2).*1)) (sorted_subdirs d)
  end.

Definition run_entry (e : string * dir) : result Z (list (string * json)) :=
  match dget "summary.json" e.2 with
  | Some (FileNode _) => j ← _load_json e.2 "summary.json"; Ok (match j with JObj o => foldl (λ d kv, dset kv.1 kv.2 d) [("run_id", JStr e.1)] o | _ => [("run_id", JStr e.1)] end)
  | _ => Ok [("run_id", JStr e.1)]
  end.

Fixpoint run_entries (l : list (string * dir)) : result Z (list (list (string * json))) :=
  match l with [] => Ok [] | e :: l => x ← run_entry e; xs ← run_entries l; Ok (x :: xs) end.

Definition list_runs (experiment_id : string) : result Z (list (list (string * json))) := d ← _experiment_dir experiment_id; run_entries (sorted_subdirs d).

Definition get_run (experiment_id run_id : string) : result Z (list (string * json)) :=
  d ← _run_dir experiment_id run_id;
  r ← _load_json d "results.json";
  s ← _load_json d "summary.json";
  Ok [("experiment_id", JStr experiment_id); ("run_id", JStr run_id); ("records", r); ("summary", s)].
End api.

(** ** Running *)
(** [base / name] of paths, resolved. *)
Definition join_path (base : list string) (name : string) : list string :=
  match name with
  | String "/" _ => resolve (split_on "/" name)
  | _ => resolve (base ++ split_on "/" name)
  end.

(** The directory into which [run_experiment] writes its artifacts. *)
Definition artifacts_dir (base : list string) (experiment_id run_id : string) : list string := join_path (join_path base experiment_id) run_id.

Section create.
Context (yaml : string → option json) (repr : json → string) (fresh : string).

(** [base]: the path of the root.  The first result is where the artifacts of the run are;
    [body] is [None] if it is not UTF-8, and [yaml] gives [None] for a text that is no YAML,
    whose exception is not a [ValueError]. *)
Definition create_experiment (base : list string) (body : option string) (run_id : option string) : option (list string) * result Z (string * string) :=
  match body with
  | None => (None, Err 400%Z)
  | Some text =>
      match yaml text with
      | None => (None, Err 500%Z)
      | Some cfg =>
          let cfg := if truthy cfg then cfg else JObj [] in
          match _validate_experiment repr cfg, cfg with
          | Ok _, JObj d =>
              match get "meta" d with
              | JObj meta =>
                  let experiment_id := py_str repr (get "name" meta) in
                  let run_id := match run_id with Some r => if nonempty r then r else experiment_id +:+ fresh | None => experiment_id +:+ fresh end in
                  (Some (artifacts_dir base experiment_id run_id),
                   if _PATH_SEGMENT experiment_id then Ok (experiment_id, run_id) else Err 404%Z)
              | _ => (None, Err 500%Z)
              end
          | Err (Invalid _), _ => (None, Err 400%Z)
          | _, _ => (None, Err 500%Z)
          end
      end
  end.
End create.

(** ** Names that pass stay inside *)
Lemma all_chars_split p c s : p c = false → all_chars p s = true → split_on c s = [s].
Proof.
  intros Hc. induction s as [|a s IH]; [done|]. cbn [all_chars split_on]. rewrite andb_true_iff. intros [Ha Hs]. destruct (Ascii.eqb_spec a c) as [->|]; [congruence|]. by rewrite IH.
Qed.

Lemma segment_parts s : _PATH_SEGMENT s = true → split_on "/" s = [s] ∧ plain s ∧ ∀ t, s ≠ String "/" t.
Proof.
  destruct s as [|a s]; [done|]. unfold _PATH_SEGMENT. rewrite andb_true_iff, negb_true_iff. intros [Hd Hs]. split; [by eapply all_chars_split; [|exact Hs]|].
  split; [|intros t [= -> ->]; by vm_compute in Hs]. split_and!; [done|intros [= -> ->]; by vm_compute in Hd|intros [= -> ->]; by vm_compute in Hd].
Qed.

Lemma join_segment base s : Forall plain base → _PATH_SEGMENT s = true → join_path base s = base ++ [s] ∧ Forall plain (base ++ [s]).
Proof.
  intros Hb Hs. destruct (segment_parts s Hs) as (E & Hp & Hne). assert (Forall plain (base ++ [s])) as Hall by (apply Forall_app; split; [done|by constructor]).
  split; [|done]. assert (join_path base s = resolve (base ++ split_on "/" s)) as ->.
  { unfold join_path. destruct s as [|a s]; [done|]. destruct a as [[] [] [] [] [] [] [] []]; try done. }
  rewrite E. unfold resolve. by rewrite resolve_id, app_nil_r, rev_involutive by done.
Qed.

(** The artifacts of a run whose name and identifier would pass as names of directories are in the
    directory of the run below the root, and nowhere else. *)
Theorem artifacts_confined base experiment_id run_id : Forall plain base → _PATH_SEGMENT experiment_id = true → _PATH_SEGMENT run_id = true →
  artifacts_dir base experiment_id run_id = base ++ [experiment_id; run_id].
Proof.
  intros Hb He Hr. unfold artifacts_dir. destruct (join_segment base experiment_id Hb He) as [-> Hb']. destruct (join_segment _ run_id Hb' Hr) as [-> _]. by rewrite <- app_assoc.
Qed.

(** ** What is listed can be read *)
Lemma find_dir_subdirs n d s : NoDup (subdirs d).*1 → (n, s) ∈ subdirs d → find_dir n d = Some s.
Proof.
  induction d as [|[m [t|sub]] d IH]; cbn [subdirs omap list_omap snd fst find_dir]; [by intros _ ?%not_elem_of_nil|exact IH|]. cbn [fmap list_fmap fst].
  intros [Hm Hn]%NoDup_cons. intros [E|Hin]%elem_of_cons; [injection E as -> ->; by rewrite String.eqb_refl|].
  destruct (String.eqb_spec m n) as [->|]; [|by apply IH]. destruct Hm. apply list_elem_of_fmap. by exists (n, s).
Qed.

(** Names in a directory are distinct. *)
Definition proper (root : dir) : Prop := NoDup (subdirs root).*1 ∧ ∀ n d, (n, d) ∈ subdirs root → NoDup (subdirs d).*1.

(** Every run that the list of experiments shows is found again, if its name and that of its
    experiment pass; then it is returned exactly if both of its files can be read. *)
Theorem listed_run_found loads d experiment_id runs run_id : proper d → (experiment_id, runs) ∈ list_experiments (Some (DirNode d)) → run_id ∈ runs →
  _PATH_SEGMENT experiment_id = true → _PATH_SEGMENT run_id = true →
  ∃ run, _run_dir (Some (DirNode d)) experiment_id run_id = Ok run ∧
    (is_ok (get_run loads (Some (DirNode d)) experiment_id run_id) = true ↔ is_ok (_load_json loads run "results.json") = true ∧ is_ok (_load_json loads run "summary.json") = true).
Proof.
  intros [Hd Hsub] Hl Hr He Hn. unfold list_experiments in Hl. cbn [as_dir] in Hl. apply list_elem_of_fmap in Hl as ([n s] & [= -> ->] & Hin). unfold sorted_subdirs in Hin. rewrite sorted_items_perm in Hin.
  cbn [fst snd] in *. unfold sorted_strings in Hr. rewrite (merge_sort_Permutation string_le (subdirs s).*1) in Hr. apply list_elem_of_fmap in Hr as ([m run] & -> & Hm). cbn [fst] in *.
  assert (_run_dir (Some (DirNode d)) n m = Ok run) as E.
  { unfold _run_dir, _experiment_dir, _existing_dir, _require_segment. rewrite He, Hn. cbn [mbind result_bind as_dir option_bind]. rewrite (find_dir_subdirs n d s Hd Hin). cbn [mbind result_bind option_bind].
    by rewrite (find_dir_subdirs m s run (Hsub n s Hin) Hm). }
  exists run. split; [done|]. unfold get_run. rewrite E. cbn [mbind result_bind]. destruct (_load_json loads run "results.json"); cbn; [|naive_solver]. destruct (_load_json loads run "summary.json"); cbn; naive_solver.
Qed.

(** ** Names are checked too late *)
Definition demo_config (name : string) : json :=
  JObj [("meta", JObj [("name", JStr name)]); ("providers", JArr [JObj [("provider", JStr "mock"); ("models", JArr [JStr "m"])]]); ("tasks", JArr [JObj [("title", JStr "t")]])].

(** A request chooses where on the disk the server writes: the run is made, and only the response
    is an error. *)
Example name_escapes_root :
  create_experiment (λ t, Some (demo_config t)) (λ _, "") "-1" ["srv"; "results"] (Some "../../etc/cron") (Some "r") = (Some ["etc"; "cron"; "r"], Err 404%Z).
Proof. vm_compute. reflexivity. Qed.

(** The identifier of a run is not checked at all. *)
Example run_id_escapes_root :
  create_experiment (λ t, Some (demo_config t)) (λ _, "") "-1" ["srv"; "results"] (Some "bench") (Some "../../x") = (Some ["srv"; "x"], Ok ("bench", "../../x")).
Proof. vm_compute. reflexivity. Qed.

(** An experiment whose name has a space is run completely and answered with 404. *)
Example spaced_name_runs_in_vain :
  create_experiment (λ t, Some (demo_config t)) (λ _, "") "-1" ["srv"] (Some "my bench") None = (Some ["srv"; "my bench"; "my bench-1"], Err 404%Z).
Proof. vm_compute. reflexivity. Qed.
